(* ===== verification/_CoqProject ===== *)
-Q . S2P
Prelude.v
GCClasses.v
GC.v
GCFree.v
RefCount.v
Native.v
Refine.v
Structures.v
Ring.v
DynList.v
Heap.v
Encoding.v
EncodingProps.v
EncodingMem.v
Malloc.v
MallocProps.v
BigInt.v
BigIntProps.v
BigIntOps.v
Digits.v
BigIntConv.v
BigIntFloat.v
BigIntText.v
Numeric.v
NumericProps.v
Operators.v
Chains.v
Atoms.v
AtomTable.v
AtomsProps.v
AtomsInit.v
AtomsUse.v
Shapes.v
ShapeTable.v
ShapesProps.v
ShapesOps.v
ObjectProps.v
ObjectChange.v
Objects.v
Presize.v
ObjectHeap.v
AtomObjects.v
ObjectsUse.v
Sort.v
SortProps.v
SortHeap.v
SortLoop.v
CharRange.v
CharRangeProps.v
CharRangeSort.v
CaseTables.v
CaseConv.v
CaseConvProps.v
CaseConvSets.v
CharSets.v
Ropes.v
RopesProps.v
RopesCompare.v
RopesUse.v
RopesFlat.v
Strings.v
StringsProps.v
StringsUtf8.v
StringsUse.v
JSKeys.v
JSKeysProps.v
JSMap.v
JSMapProps.v
JSMapTable.v
JSMapOps.v
JSMapDelete.v
JSMapIters.v
JSMapSpec.v
JSMapUse.v
JSMapRefine.v
JSMapMoves.v
JSMapKeys.v
