(* ===== verification/Prelude.v ===== *)
(** * Verification of the DynaJS engine

    DynaJS is a JavaScript engine in C with native modules ([dyna:*]).  This
    library models the parts of it that carry its own core logic as Rocq
    functions and proves what makes them correct.  Paths below are relative to
    [src/] of the repository's source tree.

    ** The program and its parts

    - Memory.  [mm/js_malloc.inc.c] hands out blocks from size-class arenas;
      [object/shapes_objects_gc.inc.c] counts references, queues objects whose
      count reached zero, and collects cycles by trial deletion.
    - Names and objects.  [value/atoms.inc.c] interns strings and symbols as
      atoms; [object/shapes_objects_gc.inc.c] and [object/property_*.inc.c]
      give objects their properties, named by atoms and laid out by shapes
      that objects share.
    - Values.  [object/property_set_convert.inc.c] holds the arithmetic of
      BigInts, their conversions, and the slow paths of the operators on
      numbers; [dtoa.c] prints integers.
    - Characters and utilities.  [libunicode.c] keeps sets of characters as
      ranges and converts their case for the regular expressions;
      [runtime/class.inc.c] builds, concatenates and compares strings, long
      ones as ropes; [cutils.c] sorts arrays and codes UTF-8.
    - Collections of the language.  [builtins/symbol.inc.c] implements Map and
      Set with their iterators, over the equality of values.
    - Native modules.  [dyna-nat.c] wraps a C structure so that a script can
      close it at any time; [dyna-structures.c] (Vector, HashMap),
      [dyna-container.c] (Heap, List, Ring) and [dyna-encoding.c] (hex, base64,
      base32, base85, varints) are built on it.
    - The parser, the bytecode interpreter, the regular expression engine and
      the host bindings use these parts; they are not modelled (below).

    ** Files

    - [Prelude]: counting, unlinking, bits, blocks, tactics and hints.
    - [GCClasses]: what a GC object of each kind holds ([JSObject] of each
      class, bytecode, shapes, variable references, async functions, contexts
      and modules field by field), with its marker and, written apart from
      it, its finalizer.  The native classes (Vector, HashMap, Heap, List,
      Ring, App) have a finalizer and no marker.
    - [GC], [GCFree], [RefCount]: the heap of GC objects; [gc_decref],
      [gc_scan], [gc_free_cycles], [JS_RunGCInternal]; the release of every
      kind; [free_zero_refcount] and [JS_FreeValue].  The state is the record
      [JSRuntime]: a map from pointers to objects and the intrusive lists as
      sequences.
    - [Native], [Refine]: results of a handler (a value or an exception), the
      wrapper of a native structure, and the machines through
      which a container is related to an abstract machine.
    - [Structures], [Ring], [DynList], [Heap]: the containers, each with its
      physical representation, its invariant and its refinement.  The
      comparator of the Heap is a script ([Heap.cmp_script]) that may call the
      methods of the heap while it is being sifted.
    - [Encoding], [EncodingProps]: the codecs over the scalar kernels of
      [dyna-simd-scalar.c], and their round trips.  [EncodingMem]: the same
      handlers on blocks of memory, with buffer sizes in [size_t] and one
      store at a time, related to those of [Encoding].
    - [Malloc], [MallocProps]: arenas with their free lists, large blocks, and
      the separation of the blocks in use.
    - [BigInt], [BigIntProps], [BigIntOps]: limb arrays, the [mp_*] routines,
      and every operation on BigInts, proved equal to the operation of [Z].
    - [Digits], [BigIntConv], [BigIntFloat], [BigIntText]: machine integers
      as text, and BigInts from and to machine integers, doubles and text.
    - [Numeric], [NumericProps]: the operators on numeric operands, with the
      references they release.  [Operators]: the operators on any operands,
      with the conversions that run scripts, and a ledger of the references
      got and released.
    - [Chains]: hash tables whose chains are threaded through the entries,
      the common ground of atoms, properties and shapes.
    - [Atoms], [AtomTable], [AtomsProps], [AtomsInit], [AtomsUse]: the atom
      array with its free list and hash chains, its invariant, the predefined
      atoms, and the contract of the atom functions.
    - [Shapes], [ShapeTable], [ShapesProps], [ShapesOps], [ObjectProps],
      [ObjectChange], [Objects], [Presize]: shapes with their property tables,
      the table of shapes, and the operations on own properties (create, find,
      add, change flags, delete, compact, free; instances created with all
      their fields).  What they use of atoms is the class [AtomStore], with
      its laws [AtomLaws].
    - [ObjectHeap], [AtomObjects], [ObjectsUse]: the abstract objects, each a
      prototype and an ordered list of properties; the instance of [AtomLaws]
      by the atom table; and the contract of the whole.
    - [Sort], [SortProps], [SortHeap], [SortLoop]: [rqsort] on an array, with
      a comparison that has a state of its own.
    - [CharRange], [CharRangeProps], [CharRangeSort]: the buffers of points,
      the set operations in place, and the sets they stand for; the removal
      of overlaps uses the sort through its contract.
    - [CaseTables], [CaseConv], [CaseConvProps], [CaseConvSets], [CharSets]:
      the tables of case conversion, the conversion of a character, the
      canonical form of a set, and the contract of the component.  Facts of
      the tables are evaluated.
    - [Ropes], [RopesProps], [RopesCompare], [RopesUse]: strings and ropes of
      [runtime/class.inc.c]: concatenation, rebalancing, comparison; their
      text; programs of concatenations ([RopesUse.made]).  [RopesFlat]: the
      shape of the ropes that count as flat.
    - [Strings], [StringsProps], [StringsUtf8], [StringsUse]: string buffers
      over blocks of bytes, flat ropes, and UTF-8 ([cutils.c]); programs of
      appends ([StringsUse.buffer_op]).  Blocks come from an allocator of
      which only the size of what it returns is used.
    - [JSKeys], [JSKeysProps]: equality of values and the hash of keys, by what
      the values mean.
    - [JSMap]: the records, the table, the methods and the iterators of maps;
      what they use of keys is the class [MapKey], with its laws
      [MapKeyLaws].  [JSMapProps] counts references, [JSMapTable] keeps the
      chains, [JSMapOps], [JSMapDelete] and [JSMapIters] act on entries and
      positions.
    - [JSMapSpec], [JSMapUse], [JSMapRefine], [JSMapMoves], [JSMapKeys]: the
      list of entries that the language defines, the relation of the two, each
      operation, the instance of [MapKeyLaws] by the values of a script, and
      the contract of maps.

    ** What the theorems show

    - A collection ends, keeps exactly what the markers reach from outside
      references and from the values of native containers, with its data,
      and leaves counts, marks and lists consistent; dropping a reference
      frees exactly what becomes unreferenced; the marker and the finalizer
      of every kind and class agree on the references an object holds, but
      for the values of native containers, which have no marker.
    - Vector, HashMap, List and Ring refine an array, a finite map, a deque
      and a bounded queue under every sequence of calls, errors, closing and
      failing allocation included, and neither leak nor double-free a value;
      the Heap is safe whatever its comparator does, calling the methods of
      the heap included, and is a priority queue when the comparator is an
      order.
    - The codecs decode what they encode; on inputs below 2 ^ 61 bytes, well
      formed or not, their handlers stay inside their buffers.
    - The allocator returns fresh, separate blocks and keeps the
      contents of the others, for requests of at most 2 ^ 64 - 16 bytes; for
      the fifteen larger sizes its size computation wraps around.
    - BigInt operations are exact on integers of every size, return normal
      forms, and fail only as documented.

    - Conversion of a BigInt to a double rounds to nearest, from a double is
      exact; text is parsed back to the integer it was printed from, within
      the buffers.  The operators on short and long BigInts agree with the
      integers; on operands of any type they release each reference once,
      wherever a conversion throws.
    - Equal strings have one atom, whatever their width, as long as something
      holds it and the array has at most 715827882 entries; the predefined
      atoms have the numbers of their constants.
    - Objects with shared shapes behave as separate lists of properties,
      under every sequence of operations, with failing allocation;
      counts of shapes, prototypes and atoms are exact, so that releasing all
      objects releases every value once and every shape.  An instance created
      with all its fields is the one that adding them one by one makes.

    - The sort ends inside its array and its stack whatever the comparison
      answers, and sorts when the comparison orders the elements.
    - Ranges of characters are sets in a unique form; the canonical form of a
      set is the set of the canonical characters of its elements.
    - A rope stands for the text of its leaves: when memory is granted,
      concatenation appends texts, keeps the depth within 60 and returns for
      texts of fewer than 2178309 characters; comparison is that of the texts.
    - Up to [JS_STRING_LEN_MAX] units, a string buffer ends as the text
      appended to it, UTF-8 is read back as it was written, and any bytes are
      read; making a rope flat returns its text as a string.
    - Values are equal when they mean the same, in whatever form, and equal
      keys have equal hashes; a Map does what the list of its entries does,
      whatever its iterators and callbacks do meanwhile, with two exceptions
      (below).

    ** Where the code departs from what it means to do

    - [js_bigint_float64_cmp] orders a negative BigInt and a negative double
      of different magnitude the wrong way
      ([BigIntFloat.bigint_float64_cmp_exact_or_reversed]).
    - [__js_malloc] wraps around for sizes close to the maximum
      ([MallocProps.malloc_size_wraps]); so would the growth of the atom array
      near its limit.
    - Native containers have no marker: a cycle through one is never
      collected ([GCFree.native_values_survive]).
    - The comparisons of a BigInt with a string take an exception for a string
      that is no number ([Operators.bigint_string_exception_ignored]).
    - [cr_regexp_canonicalize] does not notice an allocation that fails inside
      its loop ([CharSets.canonical_set_may_lose_characters]).
    - Rebalancing a rope may make a rope that is too deep and has to be
      rebalanced: for some long ropes this goes on for ever
      ([RopesUse.concatenation_may_not_return]).  Its recursive function does
      not look at the failures of its own calls
      ([RopesUse.rebalancing_loses_text]).
    - [JS_NewStringLen] drops the character behind a stray continuation byte
      ([StringsUse.stray_byte_takes_next]), and the widening of a buffer made
      for almost 2 ^ 31 bytes overflows ([StringsUse.widen_overflow]).
    - [js_map_clear] reads the next record before it frees a value: an
      iterator held by that value can take the next record with it, and the
      loop uses the freed record ([JSMapKeys.clear_uses_freed_record]).
    - [getOrInsertComputed] moves an entry that its callback inserted to the
      end instead of updating it ([JSMapKeys.computed_return_moves_entry]).
    - Two comments are out of date: the number of predefined atoms, and the
      least mask of the property table of a shape.

    ** Fuel and bounds

    Loops over arrays and lists are structural recursions.  Where the C loop
    has no structural measure a fuel argument is given: the collector's loops
    take the number of allocated objects, which every round decreases; the
    correction loop of the division takes 3, proved sufficient; nested
    rebalancing of ropes takes 1 for texts below the 31st bucket size; walks
    along the records of a map take the number of records; the rounds of [==]
    take 5, proved sufficient; running out of fuel is a distinct result
    ([None]) that the theorems exclude.  Machine
    integers are in [Z] with their wrap-around written out ([u64], [sint]).
    Limbs have 64 bits, as on every target with a 128-bit integer type.

    ** Not modelled

    - The weak-reference phase of a collection and the objects that hold weak
      references, strings and atoms held by
      the objects of the collector's heap (they have counts of their own and
      no children), the list of open variable references of a stack frame, and
      the links between a runtime and its contexts.
    - Exotic objects, variable references as properties of the global object,
      the flags that guard fast array access, and property descriptors as
      objects.  The scripts that conversions of operands call are parameters.
    - The parser, the bytecode compiler and interpreter: the semantics of the
      language is out of scope.  The host bindings ([dyna-libc.c],
      [dyna-http.c], [dyna-file.c]) are input and output.
    - Weak maps, maps made from an iterable, grouping, and the set algebra of
      sets, which run script code between their steps.
    - Regular expressions, serialisation, and the native modules that stand
      alone.
    - The methods of strings, and the conversion of other values to strings.
    - The compressed tables of Unicode properties, scripts and normalisation.
    - The SIMD kernels: intrinsics, tested against the scalar kernels that are
      modelled.  Unicode tables: generated data. *)
From stdpp Require Export base functions gmap list list_numbers sorting strings.
From Stdlib Require Export ZArith Lia.

#[global] Open Scope Z_scope.

(** ** Occurrence counting

    Reference counts are multiplicities: an object that holds the same
    pointer twice owns two references.  [count_occ_Z] counts them in [Z],
    the type of the C counters. *)
Section count.
Context {A : Type} `{EqDecision A}.

Fixpoint countZ (x : A) (l : list A) : Z :=
  match l with
  | [] => 0
  | y :: l => (if decide (x = y) then 1 else 0) + countZ x l
  end.

Lemma countZ_nonneg x l : 0 <= countZ x l.
Proof. induction l; simpl; [lia|]. case_decide; lia. Qed.

Lemma countZ_app x l1 l2 : countZ x (l1 ++ l2) = countZ x l1 + countZ x l2.
Proof. induction l1 as [|y l1 IH]; simpl; [lia|]. rewrite IH. lia. Qed.

Lemma countZ_pos x l : 0 < countZ x l <-> x ∈ l.
Proof.
  induction l as [|y l IH]; simpl.
  - split; [lia|]. intros H; inversion H.
  - rewrite elem_of_cons, <- IH. pose proof (countZ_nonneg x l).
    case_decide; split; intuition (subst; try lia; congruence).
Qed.

Lemma countZ_zero x l : countZ x l = 0 <-> x ∉ l.
Proof. rewrite <- countZ_pos. pose proof (countZ_nonneg x l). lia. Qed.

Lemma countZ_Permutation x l1 l2 : l1 ≡ₚ l2 -> countZ x l1 = countZ x l2.
Proof. induction 1; simpl; lia. Qed.
End count.

(** ** Unlinking from an intrusive list

    [list_del] of src/list.h unlinks an element from whichever circular list
    holds it.  With duplicate-free lists that is the removal of the value. *)
Section unlink.
Context {A : Type} `{EqDecision A}.

Definition unlink (x : A) (l : list A) : list A := filter (fun y => y <> x) l.

Lemma elem_of_unlink x y l : y ∈ unlink x l <-> y <> x /\ y ∈ l.
Proof. unfold unlink. rewrite list_elem_of_filter. done. Qed.

Lemma unlink_notin x l : x ∉ l -> unlink x l = l.
Proof.
  unfold unlink. induction l as [|y l IH]; intros Hx; [done|].
  rewrite not_elem_of_cons in Hx. rewrite filter_cons_True by naive_solver.
  f_equal. naive_solver.
Qed.

Lemma unlink_app x l1 l2 : unlink x (l1 ++ l2) = unlink x l1 ++ unlink x l2.
Proof. apply filter_app. Qed.

Lemma unlink_mid x l1 l2 :
  x ∉ l1 -> x ∉ l2 -> unlink x (l1 ++ x :: l2) = l1 ++ l2.
Proof.
  intros H1 H2. rewrite unlink_app. unfold unlink at 2.
  rewrite filter_cons_False by naive_solver.
  f_equal; by apply unlink_notin.
Qed.

Lemma NoDup_unlink x l : NoDup l -> NoDup (unlink x l).
Proof. apply NoDup_filter. Qed.
End unlink.

Lemma filter_all {A} (P : A -> Prop) `{forall x, Decision (P x)} (l : list A) :
  (forall x, x ∈ l -> P x) -> filter P l = l.
Proof.
  induction l as [|x l IH]; intros HP; [done|].
  rewrite filter_cons_True by (apply HP; by left).
  f_equal. apply IH. intros y Hy. apply HP. by right.
Qed.

Lemma list_filter_iff_in {A} (P Q : A -> Prop) `{forall x, Decision (P x)} `{forall x, Decision (Q x)}
    (l : list A) :
  (forall x, x ∈ l -> (P x <-> Q x)) -> filter P l = filter Q l.
Proof.
  induction l as [|x l IH]; intros HPQ; [done|].
  assert (IH' : filter P l = filter Q l) by (apply IH; intros y Hy; apply HPQ; by right).
  pose proof (HPQ x (list_elem_of_here x l)) as Hx. destruct (decide (Q x)).
  - rewrite !filter_cons_True by tauto. by rewrite IH'.
  - rewrite !filter_cons_False by tauto. done.
Qed.

(** ** Machine integers

    Values of type [uint32_t], [uint64_t] are kept in [Z] with the wrap-around
    written out. *)
Definition u8 (x : Z) : Z := x mod 2 ^ 8.
Definition u16 (x : Z) : Z := x mod 2 ^ 16.
Definition u32 (x : Z) : Z := x mod 2 ^ 32.
Definition u64 (x : Z) : Z := x mod 2 ^ 64.

(** Conversion to a signed type of [w] bits. *)
Definition sint (w x : Z) : Z :=
  let m := x mod 2 ^ w in if m <? 2 ^ (w - 1) then m else m - 2 ^ w.

Definition UINT32_MAX : Z := 4294967295.
Definition UINT64_MAX : Z := 18446744073709551615.

Lemma u32_range x : 0 <= u32 x < 2 ^ 32.
Proof. apply Z.mod_pos_bound. lia. Qed.
Lemma u64_range x : 0 <= u64 x < 2 ^ 64.
Proof. apply Z.mod_pos_bound. lia. Qed.
Lemma u32_small x : 0 <= x < 2 ^ 32 -> u32 x = x.
Proof. apply Z.mod_small. Qed.
Lemma u64_small x : 0 <= x < 2 ^ 64 -> u64 x = x.
Proof. apply Z.mod_small. Qed.

Lemma sint64_range x : - 2 ^ 63 <= sint 64 x < 2 ^ 63.
Proof.
  unfold sint. pose proof (Z.mod_pos_bound x (2 ^ 64) ltac:(lia)).
  change (64 - 1) with 63. destruct (Z.ltb_spec (x mod 2 ^ 64) (2 ^ 63)); lia.
Qed.

(** A power of two minus one is a mask. *)
Lemma land_pow2_pred x k : 0 <= k -> Z.land x (2 ^ k - 1) = x mod 2 ^ k.
Proof.
  intros Hk. replace (2 ^ k - 1) with (Z.ones k) by (rewrite Z.ones_equiv; lia).
  by apply Z.land_ones.
Qed.

Lemma land_1 x : Z.land x 1 = x mod 2.
Proof. change 1 with (2 ^ 1 - 1). by rewrite land_pow2_pred. Qed.

(** ** Tables of chains: lists of lists updated at an index *)
Lemma concat_split {A} (bs : list (list A)) (b : nat) (c : list A) :
  bs !! b = Some c ->
  exists rest, concat bs ≡ₚ c ++ rest /\
    forall c', concat (<[b := c']> bs) ≡ₚ c' ++ rest.
Proof.
  revert b. induction bs as [|c0 bs IH]; intros [|b] Hb; simplify_eq/=.
  - exists (concat bs). by split.
  - destruct (IH b Hb) as (rest & E1 & E2). exists (c0 ++ rest). split.
    + rewrite E1, !app_assoc. f_equiv. apply Permutation_app_comm.
    + intros c'. rewrite E2, !app_assoc. f_equiv. apply Permutation_app_comm.
Qed.

Lemma fold_left_concat {A B} (f : A -> B -> A) (ls : list (list B)) a :
  fold_left (fun a l => fold_left f l a) ls a = fold_left f (concat ls) a.
Proof.
  revert a. induction ls as [|l ls IH]; intros a; simpl; [done|].
  by rewrite IH, fold_left_app.
Qed.

(** ** Bits *)

(** Joining a high part and a low part is adding them. *)
Lemma lor_low k x y : 0 <= k -> 0 <= y < 2 ^ k -> x mod 2 ^ k = 0 -> Z.lor x y = x + y.
Proof.
  intros Hk Hy Hx.
  assert (Hland : Z.land x y = 0).
  { apply Z.bits_inj'. intros n Hn. rewrite Z.land_spec, Z.bits_0.
    destruct (Z.lt_ge_cases n k) as [Hlt|Hge].
    - rewrite <- (Z.mod_pow2_bits_low x k n) by lia. by rewrite Hx, Z.bits_0.
    - rewrite <- (Z.mod_small y (2 ^ k)) by done.
      rewrite Z.mod_pow2_bits_high by lia. apply andb_false_r. }
  symmetry. by rewrite Z.add_nocarry_lxor, Z.lxor_lor.
Qed.

Lemma lor_shiftl_low k x y : 0 <= k -> 0 <= y < 2 ^ k -> Z.lor (Z.shiftl x k) y = x * 2 ^ k + y.
Proof.
  intros Hk Hy. rewrite Z.shiftl_mul_pow2 by done.
  apply (lor_low k); [done|done|]. apply Z_mod_mult.
Qed.

(** A bit field: [(x >> k) & (2^w - 1)]. *)
Lemma field_div_mod x k w m :
  0 <= k -> 0 <= w -> m = 2 ^ w - 1 -> Z.land (Z.shiftr x k) m = (x / 2 ^ k) mod 2 ^ w.
Proof. intros Hk Hw ->. rewrite land_pow2_pred by done. by rewrite Z.shiftr_div_pow2 by done. Qed.

Lemma pow2_pos s : 0 <= s -> 0 < 2 ^ s.
Proof. intros. by apply Z.pow_pos_nonneg. Qed.

(** [v & (v - 1)] is zero for the powers of two only. *)
Lemma power_of_two v : 0 < v -> Z.land v (v - 1) = 0 -> v = 2 ^ Z.log2 v.
Proof.
  intros Hv E. pose proof (Z.log2_spec v Hv) as [H1 H2]. set (l := Z.log2 v) in *.
  destruct (decide (v = 2 ^ l)) as [|Hne]; [done|exfalso].
  assert (Hl : 0 <= l) by apply Z.log2_nonneg.
  assert (Hl1 : Z.log2 (v - 1) = l) by (apply Z.log2_unique; [done|lia]).
  assert (Hb : Z.testbit (Z.land v (v - 1)) l = true).
  { pose proof (pow2_pos l Hl). rewrite Z.land_spec. apply andb_true_iff. split; [by apply Z.bit_log2|].
    rewrite <- Hl1. apply Z.bit_log2. lia. }
  by rewrite E, Z.bits_0 in Hb.
Qed.

(** Linear arithmetic with divisions and remainders by constants. *)
Ltac div_lia := Z.to_euclidean_division_equations; lia.

(** Decides the comparisons of naturals in the goal. *)
Ltac nat_cases := repeat (match goal with
  | |- context [(?a <=? ?b)%nat] => destruct (Nat.leb_spec a b)
  | |- context [(?a <? ?b)%nat] => destruct (Nat.ltb_spec a b)
  | |- context [(?a =? ?b)%nat] => destruct (Nat.eqb_spec a b)
  end; cbn [andb]); try lia.

(** An innermost join of disjoint fields as a sum: [lor_low] with its side
    conditions. *)
Ltac join k :=
  match goal with
  | |- context [Z.lor ?a ?b] =>
      lazymatch a with context [Z.lor _ _] => fail | _ => idtac end;
      lazymatch b with context [Z.lor _ _] => fail | _ => idtac end;
      rewrite (lor_low k a b) by (lia || div_lia)
  end.

(** A boolean property of the integers below a constant, by computation. *)
Lemma below_forallb (n : Z) (f : Z -> bool) :
  forallb f (seqZ 0 n) = true -> forall k, 0 <= k < n -> f k = true.
Proof.
  intros H k Hk. rewrite forallb_forall in H. apply H, list_elem_of_In, elem_of_seqZ. lia.
Qed.

(** ** Bytes *)

Definition byte_ok (b : Z) : Prop := 0 <= b < 256.

(** The bytes of a C string literal. *)
Definition bytes_of (s : string) : list Z :=
  (fun a => Z.of_nat (Ascii.nat_of_ascii a)) <$> String.list_ascii_of_string s.

(** [c] as a byte, for character constants. *)
Definition chr (s : string) : Z := match bytes_of s with c :: _ => c | [] => 0 end.

(** ** Blocks

    [for (i = 0; i < len; i += k)] over an array reads its blocks of [k]
    elements, the last of which may be shorter. *)
Section blocks.
Context {A : Type}.

Fixpoint chunks_fuel (fuel : nat) (k : nat) (l : list A) : list (list A) :=
  match fuel, l with
  | S fuel, _ :: _ => take k l :: chunks_fuel fuel k (drop k l)
  | _, _ => []
  end.
Definition chunks (k : nat) (l : list A) : list (list A) := chunks_fuel (length l) k l.

Lemma chunks_fuel_enough k f1 : forall f2 (l : list A),
  (0 < k)%nat -> (length l <= f1)%nat -> (length l <= f2)%nat ->
  chunks_fuel f1 k l = chunks_fuel f2 k l.
Proof.
  induction f1 as [|f1 IH]; intros [|f2] l Hk H1 H2; destruct l as [|x l]; simpl in *; try done; try lia.
  f_equal. apply IH; [done|..]; rewrite length_drop; simpl; lia.
Qed.

Lemma chunks_app k (a l : list A) :
  (0 < k)%nat -> length a = k -> chunks k (a ++ l) = a :: chunks k l.
Proof.
  intros Hk Ha. destruct a as [|x a]; [simpl in Ha; lia|]. unfold chunks.
  rewrite <- app_comm_cons. cbn [length chunks_fuel]. rewrite app_comm_cons.
  rewrite take_app_length', drop_app_length' by done. f_equal.
  apply chunks_fuel_enough; [done|..]; rewrite ?length_app; lia.
Qed.

Lemma chunks_short k (l : list A) : l <> [] -> (length l <= k)%nat -> chunks k l = [l].
Proof.
  intros Hl Hk. destruct l as [|x l]; [done|]. unfold chunks. cbn [length chunks_fuel].
  rewrite take_ge, drop_ge by done. by destruct (length l).
Qed.

Lemma chunks_nil k : chunks k ([] : list A) = [].
Proof. done. Qed.

(** Induction over full blocks and a shorter last one. *)
Lemma blocks_ind (k : nat) (P : list A -> Prop) :
  (0 < k)%nat -> P [] -> (forall l, l <> [] -> (length l < k)%nat -> P l) ->
  (forall a l, length a = k -> P l -> P (a ++ l)) -> forall l, P l.
Proof.
  intros Hk H0 Hs Hb l. induction l as [l IH] using (induction_ltof1 _ length). unfold ltof in IH.
  destruct (decide (length l < k)%nat) as [Hlt|Hge].
  - destruct l; [done|]. by apply Hs.
  - rewrite <- (take_drop k l). apply Hb; [rewrite length_take; lia|].
    apply IH. rewrite length_drop. lia.
Qed.
End blocks.

(** ** Automation *)

(** Split conjunctions of the context and of the goal. *)
Ltac break :=
  repeat match goal with
    | H : _ /\ _ |- _ => destruct H
    | H : exists _, _ |- _ => destruct H
    end.

Ltac inv_subst H := inversion H; clear H; subst.
