(* ===== verification/GCClasses.v ===== *)
(** * The references a GC object holds: markers and finalizers

    Every kind of GC object and every class of JS objects has two functions
    that enumerate its references: the marker the collector calls, and the
    finalizer that drops them.  They are written separately, field by field,
    as in the sources of each class, and compared at the end of the file. *)
From S2P Require Import Prelude.

(** ** Values and properties *)

(** Addresses of GC headers. *)
Definition ptr := nat.

(** The values a GC object can hold, by tag.  Strings, symbols, BigInts and
    ropes are reference counted but are not GC objects: [JS_MarkValue]
    ignores them. *)
Inductive JSValue : Type :=
| JS_TAG_OBJECT (p : ptr)
| JS_TAG_FUNCTION_BYTECODE (p : ptr)
| JS_TAG_MODULE (p : ptr)
| JS_TAG_LEAF      (* string, rope, symbol, BigInt *)
| JS_TAG_NOREF.    (* int, bool, null, undefined, float64, ... *)

(** [JSProperty]: the union selected by [prs->flags & JS_PROP_TMASK]. *)
Inductive JSProperty : Type :=
| JS_PROP_GETSET (getter setter : option ptr)
| JS_PROP_VARREF (var_ref : ptr)
| JS_PROP_AUTOINIT (realm : ptr)
| JS_PROP_NORMAL (value : JSValue).

(** A slot of an object: [prs->atom] is [JS_ATOM_NULL] for a deleted
    property, and the property is then skipped by the marker. *)
Record prop_slot := PropSlot { prs_atom_null : bool; pr : JSProperty }.

(** ** The class-specific part of an object *)

(** A record of a Map or Set; a deleted record waits for its iterators and
    is [empty]. *)
Record map_record := MapRecord { mr_empty : bool; mr_key : JSValue; mr_value : JSValue }.

Record iterator_concat_data := IteratorConcat {
  ic_iter : JSValue; ic_next : JSValue;
  ic_index : nat; ic_values : list JSValue }.   (* count is the length of values *)

Record iterator_helper_data := IteratorHelper {
  ih_obj : JSValue; ih_func : JSValue; ih_next : JSValue; ih_inner : JSValue }.

Record promise_reaction := PromiseReaction {
  rd_resolve : JSValue; rd_reject : JSValue; rd_handler : JSValue }.

Record async_generator_request := AsyncGeneratorRequest {
  req_result : JSValue; req_promise : JSValue;
  req_resolve : JSValue; req_reject : JSValue }.

(** [p->u], by the hooks of the class.  An optional structure is the opaque
    pointer, NULL in an object whose construction failed.  [U_none] is a class
    without references to GC objects (Object, Error, RegExp, ArrayBuffer,
    ...).  The classes that hold weak references (WeakRef, WeakMap, WeakSet,
    FinalizationRegistry) are not represented: their finalizers change the
    weak counts of other objects. *)
Inductive class_data : Type :=
| U_none
| U_array (values : list JSValue)
| U_object_data (object_data : JSValue)
| U_mapped_arguments (var_refs : list ptr)
| U_cfunc (realm : option ptr)
| U_func (home_object function_bytecode : option ptr)
         (var_refs : option (list (option ptr)))
| U_bound_function (func_obj this_val : JSValue) (argv : list JSValue)
| U_c_function_data (data : option (list JSValue))
| U_for_in_iterator (obj : JSValue)
| U_typed_array (buffer : option ptr)
| U_map (records : option (list map_record))
| U_map_iterator (obj : option JSValue)
| U_array_iterator (obj : option JSValue)
| U_iterator_concat (it : option iterator_concat_data)
| U_iterator_helper (it : option iterator_helper_data)
| U_iterator_wrap (it : option (JSValue * JSValue))
| U_regexp_string_iterator (it : option (JSValue * JSValue))
| U_generator (s : option (bool * option ptr))   (* completed, func_state *)
| U_global_object (uninitialized_vars : JSValue)
| U_promise (s : option (list promise_reaction * list promise_reaction * JSValue))
| U_promise_resolve_function (promise : option JSValue)
| U_async_function_resolve (s : option ptr)
| U_async_from_sync_iterator (s : option (JSValue * JSValue))
| U_async_generator (s : option (list async_generator_request * option ptr))
| U_proxy (s : option (JSValue * JSValue))
| U_disposable_stack (s : option (list (JSValue * JSValue)))
| U_worker (on_message_func : option JSValue)
(* the native classes, NULL once closed; they have a finalizer and no marker *)
| U_vector (items : option (list JSValue))
| U_hashmap (buckets : option (list (list JSValue)))
| U_heap (s : option (list JSValue * JSValue))   (* items, cmp *)
| U_list (nodes : option (list JSValue))
| U_ring (items : option (list JSValue))
| U_app (handlers : option (list JSValue)).

(** ** Contexts and modules *)

Record JSContext := Context_ {
  loaded_modules : list ptr;
  global_obj : JSValue;
  global_var_obj : JSValue;
  throw_type_error : JSValue;
  eval_obj : JSValue;
  array_proto_values : JSValue;
  native_error_proto : list JSValue;
  class_proto : list JSValue;
  iterator_ctor : JSValue;
  async_iterator_proto : JSValue;
  promise_ctor : JSValue;
  array_ctor : JSValue;
  regexp_ctor : JSValue;
  function_ctor : JSValue;
  function_proto : JSValue;
  array_shape : option ptr;
  arguments_shape : option ptr;
  mapped_arguments_shape : option ptr;
  regexp_shape : option ptr;
  regexp_result_shape : option ptr }.

Definition set_loaded_modules (c : JSContext) (ms : list ptr) : JSContext :=
  Context_ ms (global_obj c) (global_var_obj c) (throw_type_error c) (eval_obj c)
    (array_proto_values c) (native_error_proto c) (class_proto c) (iterator_ctor c)
    (async_iterator_proto c) (promise_ctor c) (array_ctor c) (regexp_ctor c)
    (function_ctor c) (function_proto c) (array_shape c) (arguments_shape c)
    (mapped_arguments_shape c) (regexp_shape c) (regexp_result_shape c).

Inductive export_entry : Type :=
| JS_EXPORT_TYPE_LOCAL (var_ref : option ptr)
| JS_EXPORT_TYPE_INDIRECT.

(** An array is NULL in a module that is being read. *)
Record JSModuleDef := Module_ {
  req_module_entries : option (list JSValue);   (* the attributes *)
  export_entries : option (list export_entry);
  module_ns : JSValue;
  func_obj : JSValue;
  eval_exception : JSValue;
  meta_obj : JSValue;
  promise : JSValue;
  resolving_funcs : JSValue * JSValue;
  private_value : JSValue }.

(** The GC object types of [JSGCObjectTypeEnum] with the fields the marker
    reads.  The [shape] of an object is NULL ([None]) only in a zombie. *)
Inductive gc_data : Type :=
| JS_GC_OBJ_TYPE_JS_OBJECT (shape : option ptr) (props : list prop_slot) (u : class_data)
| JS_GC_OBJ_TYPE_FUNCTION_BYTECODE (cpool : list JSValue) (realm : option ptr)
    (cached_shape : option ptr)
| JS_GC_OBJ_TYPE_SHAPE (proto : option ptr)
| JS_GC_OBJ_TYPE_VAR_REF_detached (value : JSValue)
| JS_GC_OBJ_TYPE_VAR_REF_frame (async_func : option ptr)
| JS_GC_OBJ_TYPE_ASYNC_FUNCTION (is_completed : bool) (cur_func this_val : JSValue)
    (stack : option (list JSValue)) (resolving : JSValue * JSValue)
| JS_GC_OBJ_TYPE_JS_CONTEXT (ctx : JSContext)
| JS_GC_OBJ_TYPE_MODULE (m : JSModuleDef).

(** ** [mark_children]: the pointers a GC object passes to [mark_func], in order *)

Definition JS_MarkValue (v : JSValue) : list ptr :=
  match v with
  | JS_TAG_OBJECT p | JS_TAG_FUNCTION_BYTECODE p | JS_TAG_MODULE p => [p]
  | JS_TAG_LEAF | JS_TAG_NOREF => []
  end.

Definition mark_opt (o : option ptr) : list ptr :=
  match o with Some p => [p] | None => [] end.

(** [if (s) ...] on an optional structure. *)
Definition when {A B} (s : option A) (f : A -> list B) : list B :=
  match s with Some x => f x | None => [] end.

Definition mark_prop (s : prop_slot) : list ptr :=
  if prs_atom_null s then []
  else match pr s with
       | JS_PROP_GETSET getter setter => mark_opt getter ++ mark_opt setter
       | JS_PROP_VARREF var_ref => [var_ref]
       | JS_PROP_AUTOINIT realm => [realm]
       | JS_PROP_NORMAL v => JS_MarkValue v
       end.

Definition js_array_mark (values : list JSValue) : list ptr :=
  values ≫= JS_MarkValue.

Definition js_object_data_mark (v : JSValue) : list ptr := JS_MarkValue v.

Definition js_mapped_arguments_mark (var_refs : list ptr) : list ptr := var_refs.

Definition js_c_function_mark (realm : option ptr) : list ptr := mark_opt realm.

Definition js_bytecode_function_mark (home b : option ptr)
    (var_refs : option (list (option ptr))) : list ptr :=
  mark_opt home ++
  match b with
  | Some b =>
      match var_refs with Some vr => vr ≫= mark_opt | None => [] end ++ [b]
  | None => []
  end.

Definition js_bound_function_mark (func_obj this_val : JSValue) (argv : list JSValue)
  : list ptr :=
  JS_MarkValue func_obj ++ JS_MarkValue this_val ++ (argv ≫= JS_MarkValue).

Definition js_c_function_data_mark (data : option (list JSValue)) : list ptr :=
  when data (fun data => data ≫= JS_MarkValue).

Definition js_for_in_iterator_mark (obj : JSValue) : list ptr := JS_MarkValue obj.

Definition js_typed_array_mark (buffer : option ptr) : list ptr :=
  when buffer (fun b => JS_MarkValue (JS_TAG_OBJECT b)).

(** The marker visits the empty records too. *)
Definition js_map_mark (records : option (list map_record)) : list ptr :=
  when records (fun rs => rs ≫= fun mr => JS_MarkValue (mr_key mr) ++ JS_MarkValue (mr_value mr)).

Definition js_map_iterator_mark (obj : option JSValue) : list ptr := when obj JS_MarkValue.

Definition js_array_iterator_mark (obj : option JSValue) : list ptr := when obj JS_MarkValue.

Definition js_iterator_concat_mark (it : option iterator_concat_data) : list ptr :=
  when it (fun it => JS_MarkValue (ic_iter it) ++ JS_MarkValue (ic_next it) ++
    (drop (ic_index it) (ic_values it) ≫= JS_MarkValue)).

Definition js_iterator_helper_mark (it : option iterator_helper_data) : list ptr :=
  when it (fun it => JS_MarkValue (ih_obj it) ++ JS_MarkValue (ih_func it) ++
    JS_MarkValue (ih_next it) ++ JS_MarkValue (ih_inner it)).

Definition js_iterator_wrap_mark (it : option (JSValue * JSValue)) : list ptr :=
  when it (fun it => JS_MarkValue it.1 ++ JS_MarkValue it.2).

Definition js_regexp_string_iterator_mark (it : option (JSValue * JSValue)) : list ptr :=
  when it (fun it => JS_MarkValue it.1 ++ JS_MarkValue it.2).

Definition js_generator_mark (s : option (bool * option ptr)) : list ptr :=
  when s (fun s => mark_opt s.2).

Definition js_global_object_mark (v : JSValue) : list ptr := JS_MarkValue v.

Definition mark_reaction (rd : promise_reaction) : list ptr :=
  JS_MarkValue (rd_resolve rd) ++ JS_MarkValue (rd_reject rd) ++ JS_MarkValue (rd_handler rd).

Definition js_promise_mark (s : option (list promise_reaction * list promise_reaction * JSValue))
  : list ptr :=
  when s (fun s => (s.1.1 ≫= mark_reaction) ++ (s.1.2 ≫= mark_reaction) ++ JS_MarkValue s.2).

Definition js_promise_resolve_function_mark (promise : option JSValue) : list ptr :=
  when promise JS_MarkValue.

Definition js_async_function_resolve_mark (s : option ptr) : list ptr := mark_opt s.

Definition js_async_from_sync_iterator_mark (s : option (JSValue * JSValue)) : list ptr :=
  when s (fun s => JS_MarkValue s.1 ++ JS_MarkValue s.2).

Definition js_async_generator_mark (s : option (list async_generator_request * option ptr))
  : list ptr :=
  when s (fun s =>
    (s.1 ≫= fun req => JS_MarkValue (req_result req) ++ JS_MarkValue (req_promise req) ++
       JS_MarkValue (req_resolve req) ++ JS_MarkValue (req_reject req)) ++
    mark_opt s.2).

Definition js_proxy_mark (s : option (JSValue * JSValue)) : list ptr :=
  when s (fun s => JS_MarkValue s.1 ++ JS_MarkValue s.2).

Definition js_disposable_stack_mark (s : option (list (JSValue * JSValue))) : list ptr :=
  when s (fun rs => rs ≫= fun r => JS_MarkValue r.1 ++ JS_MarkValue r.2).

Definition js_worker_mark (f : option JSValue) : list ptr := when f JS_MarkValue.

(** [gc_mark(rt, JS_MKPTR(JS_TAG_OBJECT, p), mark_func)], for the classes
    that have a [gc_mark]: the native classes have none. *)
Definition class_gc_mark (u : class_data) : list ptr :=
  match u with
  | U_none => []
  | U_array vs => js_array_mark vs
  | U_object_data v => js_object_data_mark v
  | U_mapped_arguments vr => js_mapped_arguments_mark vr
  | U_cfunc realm => js_c_function_mark realm
  | U_func home b vr => js_bytecode_function_mark home b vr
  | U_bound_function f t argv => js_bound_function_mark f t argv
  | U_c_function_data d => js_c_function_data_mark d
  | U_for_in_iterator o => js_for_in_iterator_mark o
  | U_typed_array b => js_typed_array_mark b
  | U_map rs => js_map_mark rs
  | U_map_iterator o => js_map_iterator_mark o
  | U_array_iterator o => js_array_iterator_mark o
  | U_iterator_concat it => js_iterator_concat_mark it
  | U_iterator_helper it => js_iterator_helper_mark it
  | U_iterator_wrap it => js_iterator_wrap_mark it
  | U_regexp_string_iterator it => js_regexp_string_iterator_mark it
  | U_generator s => js_generator_mark s
  | U_global_object v => js_global_object_mark v
  | U_promise s => js_promise_mark s
  | U_promise_resolve_function p => js_promise_resolve_function_mark p
  | U_async_function_resolve s => js_async_function_resolve_mark s
  | U_async_from_sync_iterator s => js_async_from_sync_iterator_mark s
  | U_async_generator s => js_async_generator_mark s
  | U_proxy s => js_proxy_mark s
  | U_disposable_stack s => js_disposable_stack_mark s
  | U_worker f => js_worker_mark f
  | U_vector _ | U_hashmap _ | U_heap _ | U_list _ | U_ring _ | U_app _ => []
  end.

Definition mark_export (e : export_entry) : list ptr :=
  match e with
  | JS_EXPORT_TYPE_LOCAL v => mark_opt v
  | JS_EXPORT_TYPE_INDIRECT => []
  end.

Definition js_mark_module_def (m : JSModuleDef) : list ptr :=
  when (req_module_entries m) (fun rmes => rmes ≫= JS_MarkValue) ++
  when (export_entries m) (fun mes => mes ≫= mark_export) ++
  JS_MarkValue (module_ns m) ++
  JS_MarkValue (func_obj m) ++
  JS_MarkValue (eval_exception m) ++
  JS_MarkValue (meta_obj m) ++
  JS_MarkValue (promise m) ++
  JS_MarkValue (resolving_funcs m).1 ++
  JS_MarkValue (resolving_funcs m).2 ++
  JS_MarkValue (private_value m).

Definition JS_MarkContext (ctx : JSContext) : list ptr :=
  (loaded_modules ctx ≫= fun m => JS_MarkValue (JS_TAG_MODULE m)) ++
  JS_MarkValue (global_obj ctx) ++
  JS_MarkValue (global_var_obj ctx) ++
  JS_MarkValue (throw_type_error ctx) ++
  JS_MarkValue (eval_obj ctx) ++
  JS_MarkValue (array_proto_values ctx) ++
  (native_error_proto ctx ≫= JS_MarkValue) ++
  (class_proto ctx ≫= JS_MarkValue) ++
  JS_MarkValue (iterator_ctor ctx) ++
  JS_MarkValue (async_iterator_proto ctx) ++
  JS_MarkValue (promise_ctor ctx) ++
  JS_MarkValue (array_ctor ctx) ++
  JS_MarkValue (regexp_ctor ctx) ++
  JS_MarkValue (function_ctor ctx) ++
  JS_MarkValue (function_proto ctx) ++
  mark_opt (array_shape ctx) ++
  mark_opt (arguments_shape ctx) ++
  mark_opt (mapped_arguments_shape ctx) ++
  mark_opt (regexp_shape ctx) ++
  mark_opt (regexp_result_shape ctx).

Definition mark_children (d : gc_data) : list ptr :=
  match d with
  | JS_GC_OBJ_TYPE_JS_OBJECT shape props u =>
      mark_opt shape ++ (props ≫= mark_prop) ++ class_gc_mark u
  | JS_GC_OBJ_TYPE_FUNCTION_BYTECODE cpool realm cached_shape =>
      (cpool ≫= JS_MarkValue) ++ mark_opt realm ++ mark_opt cached_shape
  | JS_GC_OBJ_TYPE_VAR_REF_detached v => JS_MarkValue v
  | JS_GC_OBJ_TYPE_VAR_REF_frame async_func => mark_opt async_func
  | JS_GC_OBJ_TYPE_ASYNC_FUNCTION is_completed cur_func this_val stack rf =>
      (if is_completed then []
       else JS_MarkValue cur_func ++ JS_MarkValue this_val ++
            match stack with Some st => st ≫= JS_MarkValue | None => [] end) ++
      JS_MarkValue rf.1 ++ JS_MarkValue rf.2
  | JS_GC_OBJ_TYPE_SHAPE proto => mark_opt proto
  | JS_GC_OBJ_TYPE_JS_CONTEXT ctx => JS_MarkContext ctx
  | JS_GC_OBJ_TYPE_MODULE m => js_mark_module_def m
  end.

(** ** Typed references

    The C code drops a reference through the function of its static type:
    [JS_FreeValueRT], [js_free_shape], [free_var_ref], [JS_FreeContext],
    [async_func_free]. *)
Inductive gcref : Type :=
| R_value (v : JSValue)
| R_shape (sh : ptr)
| R_var_ref (v : ptr)
| R_context (ctx : ptr)
| R_async (s : ptr).

Definition ref_ptr (r : gcref) : list ptr :=
  match r with
  | R_value v => JS_MarkValue v
  | R_shape p | R_var_ref p | R_context p | R_async p => [p]
  end.

Definition opt_ref (f : ptr -> gcref) (o : option ptr) : list gcref :=
  match o with Some p => [f p] | None => [] end.

Definition R_object (p : ptr) : gcref := R_value (JS_TAG_OBJECT p).

(** ** Finalizers: the references dropped when an object is freed, in order *)

(** [free_property], by the type bits of the flags. *)
Definition free_property (s : prop_slot) : list gcref :=
  match pr s with
  | JS_PROP_GETSET getter setter => opt_ref R_object getter ++ opt_ref R_object setter
  | JS_PROP_VARREF var_ref => [R_var_ref var_ref]
  | JS_PROP_AUTOINIT realm => [R_context realm]
  | JS_PROP_NORMAL v => [R_value v]
  end.

Definition js_array_finalizer (values : list JSValue) : list gcref := R_value <$> values.

Definition js_object_data_finalizer (v : JSValue) : list gcref := [R_value v].

Definition js_mapped_arguments_finalizer (var_refs : list ptr) : list gcref :=
  R_var_ref <$> var_refs.

Definition js_c_function_finalizer (realm : option ptr) : list gcref := opt_ref R_context realm.

Definition js_bytecode_function_finalizer (home b : option ptr)
    (var_refs : option (list (option ptr))) : list gcref :=
  opt_ref R_object home ++
  match b with
  | Some b =>
      match var_refs with Some vr => vr ≫= opt_ref R_var_ref | None => [] end ++
      [R_value (JS_TAG_FUNCTION_BYTECODE b)]
  | None => []
  end.

Definition js_bound_function_finalizer (func_obj this_val : JSValue) (argv : list JSValue)
  : list gcref :=
  R_value func_obj :: R_value this_val :: (R_value <$> argv).

Definition js_c_function_data_finalizer (data : option (list JSValue)) : list gcref :=
  when data (fun data => R_value <$> data).

Definition js_for_in_iterator_finalizer (obj : JSValue) : list gcref := [R_value obj].

Definition js_typed_array_finalizer (buffer : option ptr) : list gcref :=
  when buffer (fun b => [R_value (JS_TAG_OBJECT b)]).

(** The finalizer skips the empty records. *)
Definition js_map_finalizer (records : option (list map_record)) : list gcref :=
  when records (fun rs => rs ≫= fun mr =>
    if mr_empty mr then [] else [R_value (mr_key mr); R_value (mr_value mr)]).

Definition js_map_iterator_finalizer (obj : option JSValue) : list gcref :=
  when obj (fun v => [R_value v]).

Definition js_array_iterator_finalizer (obj : option JSValue) : list gcref :=
  when obj (fun v => [R_value v]).

Definition js_iterator_concat_finalizer (it : option iterator_concat_data) : list gcref :=
  when it (fun it => R_value (ic_iter it) :: R_value (ic_next it) ::
    (R_value <$> drop (ic_index it) (ic_values it))).

Definition js_iterator_helper_finalizer (it : option iterator_helper_data) : list gcref :=
  when it (fun it => [R_value (ih_obj it); R_value (ih_func it);
    R_value (ih_next it); R_value (ih_inner it)]).

Definition js_iterator_wrap_finalizer (it : option (JSValue * JSValue)) : list gcref :=
  when it (fun it => [R_value it.1; R_value it.2]).

Definition js_regexp_string_iterator_finalizer (it : option (JSValue * JSValue)) : list gcref :=
  when it (fun it => [R_value it.1; R_value it.2]).

(** [free_generator_stack_rt] returns at once on a completed generator. *)
Definition js_generator_finalizer (s : option (bool * option ptr)) : list gcref :=
  when s (fun s => if s.1 then [] else opt_ref R_async s.2).

Definition js_global_object_finalizer (v : JSValue) : list gcref := [R_value v].

Definition promise_reaction_data_free (rd : promise_reaction) : list gcref :=
  [R_value (rd_resolve rd); R_value (rd_reject rd); R_value (rd_handler rd)].

Definition js_promise_finalizer
    (s : option (list promise_reaction * list promise_reaction * JSValue)) : list gcref :=
  when s (fun s => (s.1.1 ≫= promise_reaction_data_free) ++
    (s.1.2 ≫= promise_reaction_data_free) ++ [R_value s.2]).

Definition js_promise_resolve_function_finalizer (promise : option JSValue) : list gcref :=
  when promise (fun v => [R_value v]).

Definition js_async_function_resolve_finalizer (s : option ptr) : list gcref := opt_ref R_async s.

Definition js_async_from_sync_iterator_finalizer (s : option (JSValue * JSValue)) : list gcref :=
  when s (fun s => [R_value s.1; R_value s.2]).

Definition js_async_generator_free (s : option (list async_generator_request * option ptr))
  : list gcref :=
  when s (fun s =>
    (s.1 ≫= fun req => [R_value (req_result req); R_value (req_promise req);
       R_value (req_resolve req); R_value (req_reject req)]) ++
    opt_ref R_async s.2).

Definition js_proxy_finalizer (s : option (JSValue * JSValue)) : list gcref :=
  when s (fun s => [R_value s.1; R_value s.2]).

Definition js_disposable_stack_finalizer (s : option (list (JSValue * JSValue))) : list gcref :=
  when s (fun rs => rs ≫= fun r => [R_value r.1; R_value r.2]).

Definition js_worker_finalizer (f : option JSValue) : list gcref :=
  when f (fun v => [R_value v]).

(** [dyn_res_finalizer] of the native classes runs the dispose function of
    the resource, unless it was closed. *)
Definition dyn_vector_free_refs (items : option (list JSValue)) : list gcref :=
  when items (fun vs => R_value <$> vs).
Definition dyn_hashmap_free_refs (buckets : option (list (list JSValue))) : list gcref :=
  when buckets (fun bs => bs ≫= fun chain => R_value <$> chain).
Definition dyn_heap_free_refs (s : option (list JSValue * JSValue)) : list gcref :=
  when s (fun h => (R_value <$> h.1) ++ [R_value h.2]).
Definition dyn_list_free_refs (nodes : option (list JSValue)) : list gcref :=
  when nodes (fun vs => R_value <$> vs).
Definition dyn_ring_free_refs (items : option (list JSValue)) : list gcref :=
  when items (fun vs => R_value <$> vs).
Definition dyn_app_dispose_refs (handlers : option (list JSValue)) : list gcref :=
  when handlers (fun vs => R_value <$> vs).

Definition class_finalizer (u : class_data) : list gcref :=
  match u with
  | U_none => []
  | U_array vs => js_array_finalizer vs
  | U_object_data v => js_object_data_finalizer v
  | U_mapped_arguments vr => js_mapped_arguments_finalizer vr
  | U_cfunc realm => js_c_function_finalizer realm
  | U_func home b vr => js_bytecode_function_finalizer home b vr
  | U_bound_function f t argv => js_bound_function_finalizer f t argv
  | U_c_function_data d => js_c_function_data_finalizer d
  | U_for_in_iterator o => js_for_in_iterator_finalizer o
  | U_typed_array b => js_typed_array_finalizer b
  | U_map rs => js_map_finalizer rs
  | U_map_iterator o => js_map_iterator_finalizer o
  | U_array_iterator o => js_array_iterator_finalizer o
  | U_iterator_concat it => js_iterator_concat_finalizer it
  | U_iterator_helper it => js_iterator_helper_finalizer it
  | U_iterator_wrap it => js_iterator_wrap_finalizer it
  | U_regexp_string_iterator it => js_regexp_string_iterator_finalizer it
  | U_generator s => js_generator_finalizer s
  | U_global_object v => js_global_object_finalizer v
  | U_promise s => js_promise_finalizer s
  | U_promise_resolve_function p => js_promise_resolve_function_finalizer p
  | U_async_function_resolve s => js_async_function_resolve_finalizer s
  | U_async_from_sync_iterator s => js_async_from_sync_iterator_finalizer s
  | U_async_generator s => js_async_generator_free s
  | U_proxy s => js_proxy_finalizer s
  | U_disposable_stack s => js_disposable_stack_finalizer s
  | U_worker f => js_worker_finalizer f
  | U_vector vs => dyn_vector_free_refs vs
  | U_hashmap bs => dyn_hashmap_free_refs bs
  | U_heap h => dyn_heap_free_refs h
  | U_list vs => dyn_list_free_refs vs
  | U_ring vs => dyn_ring_free_refs vs
  | U_app hs => dyn_app_dispose_refs hs
  end.

Definition free_export (e : export_entry) : list gcref :=
  match e with
  | JS_EXPORT_TYPE_LOCAL v => opt_ref R_var_ref v
  | JS_EXPORT_TYPE_INDIRECT => []
  end.

(** The references [js_free_module_def] drops. *)
Definition free_module_refs (m : JSModuleDef) : list gcref :=
  when (req_module_entries m) (fun rmes => R_value <$> rmes) ++
  when (export_entries m) (fun mes => mes ≫= free_export) ++
  [R_value (module_ns m); R_value (func_obj m); R_value (eval_exception m);
   R_value (meta_obj m); R_value (promise m); R_value (resolving_funcs m).1;
   R_value (resolving_funcs m).2; R_value (private_value m)].

(** The references [JS_FreeContext] drops with the last reference to the
    context, [js_free_modules] first. *)
Definition free_context_refs (ctx : JSContext) : list gcref :=
  ((fun m => R_value (JS_TAG_MODULE m)) <$> loaded_modules ctx) ++
  [R_value (global_obj ctx); R_value (global_var_obj ctx);
   R_value (throw_type_error ctx); R_value (eval_obj ctx); R_value (array_proto_values ctx)] ++
  (R_value <$> native_error_proto ctx) ++
  (R_value <$> class_proto ctx) ++
  [R_value (iterator_ctor ctx); R_value (async_iterator_proto ctx); R_value (promise_ctor ctx);
   R_value (array_ctor ctx); R_value (regexp_ctor ctx); R_value (function_ctor ctx);
   R_value (function_proto ctx)] ++
  opt_ref R_shape (array_shape ctx) ++
  opt_ref R_shape (arguments_shape ctx) ++
  opt_ref R_shape (mapped_arguments_shape ctx) ++
  opt_ref R_shape (regexp_shape ctx) ++
  opt_ref R_shape (regexp_result_shape ctx).

(** The references each kind of GC object drops when it is freed, in the
    order of the C code. *)
Definition free_refs (d : gc_data) : list gcref :=
  match d with
  | JS_GC_OBJ_TYPE_JS_OBJECT shape props u =>
      (props ≫= free_property) ++ opt_ref R_shape shape ++ class_finalizer u
  | JS_GC_OBJ_TYPE_FUNCTION_BYTECODE cpool realm cached_shape =>
      (R_value <$> cpool) ++ opt_ref R_context realm ++ opt_ref R_shape cached_shape
  | JS_GC_OBJ_TYPE_VAR_REF_detached v => [R_value v]
  | JS_GC_OBJ_TYPE_VAR_REF_frame async_func => opt_ref R_async async_func
  | JS_GC_OBJ_TYPE_ASYNC_FUNCTION is_completed cur_func this_val stack rf =>
      (if is_completed then []
       else match stack with Some st => R_value <$> st | None => [] end ++
            [R_value cur_func; R_value this_val]) ++
      [R_value rf.1; R_value rf.2]
  | JS_GC_OBJ_TYPE_SHAPE proto => opt_ref R_object proto
  | JS_GC_OBJ_TYPE_JS_CONTEXT ctx => free_context_refs ctx
  | JS_GC_OBJ_TYPE_MODULE m => free_module_refs m
  end.

(** ** The marker and the finalizers compared *)

(** A deleted slot holds no reference ([pr1->u.value = JS_UNDEFINED]). *)
Definition slot_ok (s : prop_slot) : bool :=
  negb (prs_atom_null s) || bool_decide (free_property s ≫= ref_ptr = []).

(** An empty record of a map holds none ([map_delete_record_internal] sets
    key and value to [JS_UNDEFINED]), and a completed generator has no
    [func_state] ([free_generator_stack_rt]). *)
Definition record_ok (mr : map_record) : bool :=
  negb (mr_empty mr) ||
  bool_decide (JS_MarkValue (mr_key mr) ++ JS_MarkValue (mr_value mr) = []).

Definition class_ok (u : class_data) : bool :=
  match u with
  | U_map (Some rs) => forallb record_ok rs
  | U_generator (Some (completed, func_state)) => negb completed || bool_decide (func_state = None)
  | _ => true
  end.

Definition wf_data (d : gc_data) : bool :=
  match d with
  | JS_GC_OBJ_TYPE_JS_OBJECT _ props u => forallb slot_ok props && class_ok u
  | _ => true
  end.

(** The references held without a marker: the values kept by the native
    classes. *)
Definition class_unmarked (u : class_data) : list ptr :=
  match u with
  | U_vector vs | U_list vs | U_ring vs | U_app vs => when vs (fun vs => vs ≫= JS_MarkValue)
  | U_hashmap bs => when bs (fun bs => bs ≫= fun chain => chain ≫= JS_MarkValue)
  | U_heap h => when h (fun h => (h.1 ≫= JS_MarkValue) ++ JS_MarkValue h.2)
  | _ => []
  end.

Definition unmarked_refs (d : gc_data) : list ptr :=
  match d with
  | JS_GC_OBJ_TYPE_JS_OBJECT _ _ u => class_unmarked u
  | _ => []
  end.

(** Every reference an object holds. *)
Definition held_refs (d : gc_data) : list ptr := mark_children d ++ unmarked_refs d.

Definition ptrs (rs : list gcref) : list ptr := rs ≫= ref_ptr.

Lemma ptrs_app r1 r2 : ptrs (r1 ++ r2) = ptrs r1 ++ ptrs r2.
Proof. apply bind_app. Qed.

Lemma ptrs_cons r rs : ptrs (r :: rs) = ref_ptr r ++ ptrs rs.
Proof. done. Qed.

Lemma ptrs_nil : ptrs [] = [].
Proof. done. Qed.

Lemma ptrs_values (vs : list JSValue) : ptrs (R_value <$> vs) = vs ≫= JS_MarkValue.
Proof. unfold ptrs. induction vs as [|v vs IH]; csimpl; [done|]. by rewrite IH. Qed.

Lemma ptrs_bind {A} (f : A -> list gcref) (g : A -> list ptr) (l : list A) :
  (forall x, x ∈ l -> ptrs (f x) = g x) -> ptrs (l ≫= f) = l ≫= g.
Proof.
  unfold ptrs. induction l as [|x l IH]; intros H; csimpl; [done|].
  rewrite bind_app, IH by (intros y Hy; apply H; by right). f_equal. apply H. by left.
Qed.

Lemma ptrs_when {A} (s : option A) (f : A -> list gcref) (g : A -> list ptr) :
  (forall x, s = Some x -> ptrs (f x) = g x) -> ptrs (when s f) = when s g.
Proof. intros H. destruct s; simpl; [by apply H|done]. Qed.

Lemma ptrs_opt f o : (forall p, ref_ptr (f p) = [p]) -> ptrs (opt_ref f o) = mark_opt o.
Proof. intros H. unfold ptrs. destruct o; simpl; [by rewrite H|done]. Qed.

Lemma ptrs_fmap f (l : list ptr) : (forall p, ref_ptr (f p) = [p]) -> ptrs (f <$> l) = l.
Proof. intros H. unfold ptrs. induction l as [|x l IH]; csimpl; [done|]. by rewrite H, IH. Qed.

Lemma ptrs_reaction rd : ptrs (promise_reaction_data_free rd) = mark_reaction rd.
Proof. unfold ptrs, mark_reaction. csimpl. by rewrite app_nil_r. Qed.

#[local] Hint Rewrite ptrs_reaction ptrs_app ptrs_cons ptrs_nil ptrs_values app_nil_r : ptrs.

(** Compares the two enumerations field by field. *)
Ltac ptrs_field :=
  autorewrite with ptrs;
  first
    [ reflexivity
    | match goal with
      | |- ptrs (opt_ref _ _) = _ => by apply ptrs_opt
      | |- ptrs (_ <$> _) = _ => by apply ptrs_fmap
      | |- ptrs (when _ _) = _ => apply ptrs_when; intros ? _; cbn beta; ptrs_field
      | |- ptrs (_ ≫= _) = _ => apply ptrs_bind; intros ? _; cbn beta; ptrs_field
      | |- _ ++ _ = _ ++ _ => f_equal; ptrs_field
      end ].

Lemma ptrs_props (props : list prop_slot) :
  forallb slot_ok props = true -> ptrs (props ≫= free_property) = props ≫= mark_prop.
Proof.
  intros Hs. apply ptrs_bind. intros s Hin. unfold ptrs.
  rewrite forallb_forall in Hs. apply list_elem_of_In, Hs in Hin.
  unfold mark_prop, slot_ok in *. destruct s as [[] q]; simpl in *.
  - by apply bool_decide_eq_true in Hin.
  - by destruct q as [[] []| | |]; simpl; rewrite ?app_nil_r.
Qed.

Lemma ptrs_func home b vr :
  ptrs (js_bytecode_function_finalizer home b vr) = js_bytecode_function_mark home b vr.
Proof.
  unfold js_bytecode_function_finalizer, js_bytecode_function_mark.
  rewrite ptrs_app, ptrs_opt by done. f_equal. destruct b as [b|]; [|done].
  rewrite ptrs_app. f_equal. destruct vr; [|done]. ptrs_field.
Qed.

Lemma ptrs_map rs :
  class_ok (U_map rs) = true -> ptrs (js_map_finalizer rs) = js_map_mark rs.
Proof.
  intros Hok. apply ptrs_when. intros l ->. apply ptrs_bind. intros [e k v] Hin.
  cbn [class_ok] in Hok. rewrite forallb_forall in Hok. apply list_elem_of_In, Hok in Hin.
  unfold record_ok in Hin. cbn [mr_empty mr_key mr_value negb orb] in *. destruct e.
  - apply bool_decide_eq_true in Hin. by rewrite Hin.
  - ptrs_field.
Qed.

Lemma ptrs_generator s :
  class_ok (U_generator s) = true -> ptrs (js_generator_finalizer s) = js_generator_mark s.
Proof.
  intros Hok. apply ptrs_when. intros [[] o] ->; cbn [class_ok negb orb fst snd] in *.
  - apply bool_decide_eq_true in Hok as ->. done.
  - by apply ptrs_opt.
Qed.

Lemma ptrs_class u :
  class_ok u = true -> ptrs (class_finalizer u) = class_gc_mark u ++ class_unmarked u.
Proof.
  intros Hok. destruct u; cbn [class_finalizer class_gc_mark class_unmarked app]; rewrite ?app_nil_r;
    first [done | by apply ptrs_map | by apply ptrs_generator | by apply ptrs_func | idtac];
    match goal with |- ptrs ?f = _ => let g := eval red in f in change f with g end;
    match goal with |- _ = ?m => try (let g := eval red in m in change m with g) end;
    ptrs_field.
Qed.

Lemma ptrs_context ctx : ptrs (free_context_refs ctx) = JS_MarkContext ctx.
Proof.
  unfold free_context_refs, JS_MarkContext. autorewrite with ptrs. cbn [ref_ptr].
  rewrite !(ptrs_opt R_shape) by done. rewrite <- !app_assoc. f_equal.
  unfold ptrs. induction (loaded_modules ctx) as [|m ms IH]; csimpl; [done|]. by f_equal.
Qed.

Lemma ptrs_module m : ptrs (free_module_refs m) = js_mark_module_def m.
Proof.
  unfold free_module_refs, js_mark_module_def. autorewrite with ptrs. cbn [ref_ptr]. f_equal.
  - ptrs_field.
  - f_equal. apply ptrs_when. intros es _. apply ptrs_bind. intros [o|] _; [|done].
    by apply ptrs_opt.
Qed.

Lemma free_held_Permutation d : wf_data d = true -> ptrs (free_refs d) ≡ₚ held_refs d.
Proof.
  unfold held_refs. destruct d; cbn [wf_data free_refs mark_children unmarked_refs];
    intros Hwf; rewrite ?app_nil_r.
  - apply andb_prop in Hwf as [Hp Hu].
    rewrite !ptrs_app, ptrs_props, ptrs_opt, ptrs_class by done.
    rewrite !app_assoc. do 2 f_equiv. apply Permutation_app_comm.
  - by rewrite !ptrs_app, !ptrs_opt, ptrs_values by done.
  - by rewrite ptrs_opt.
  - unfold ptrs. simpl. by rewrite app_nil_r.
  - by rewrite ptrs_opt.
  - autorewrite with ptrs. cbn [ref_ptr]. f_equiv. destruct is_completed; [done|].
    autorewrite with ptrs. cbn [ref_ptr]. destruct stack; [rewrite ptrs_values|by rewrite ptrs_nil, app_nil_r].
    rewrite (app_assoc (JS_MarkValue cur_func)). apply Permutation_app_comm.
  - by rewrite ptrs_context.
  - by rewrite ptrs_module.
Qed.

Lemma countZ_free d q :
  wf_data d = true -> countZ q (ptrs (free_refs d)) = countZ q (held_refs d).
Proof. intros H. apply countZ_Permutation. by rewrite free_held_Permutation. Qed.

(** Only objects of a native class hold references without a marker. *)
Definition is_native (d : gc_data) : bool :=
  match d with
  | JS_GC_OBJ_TYPE_JS_OBJECT _ _ u =>
      match u with
      | U_vector _ | U_hashmap _ | U_heap _ | U_list _ | U_ring _ | U_app _ => true
      | _ => false
      end
  | _ => false
  end.

Lemma unmarked_native d : is_native d = false -> unmarked_refs d = [].
Proof. destruct d; simpl; try done. by destruct u. Qed.


