(* ===== verification/GC.v ===== *)
(** * The garbage collector: trial deletion (src/object/shapes_objects_gc.inc.c) *)
From S2P Require Import Prelude GCClasses.

(** ** Data *)

(** A GC object: the block header fields [ref_count] and [mark], and for
    objects the [weakref_count] that keeps the structure after its death and
    the [free_mark] of a structure kept that way (a zombie). *)
Record gcobj := GCObj {
  ref_count : Z;
  mark : bool;
  weakref_count : Z;
  free_mark : bool;
  data : gc_data;
}.

(** The part of [JSRuntime] the collector works on.  The three lists are the
    intrusive lists linked through [JSGCObjectHeader.link]. *)
Record JSRuntime := Runtime {
  heap : gmap ptr gcobj;
  gc_obj_list : list ptr;
  tmp_obj_list : list ptr;
  gc_zero_ref_count_list : list ptr;
}.

(** ** State updates *)

Definition set_ref_count (o : gcobj) (n : Z) : gcobj :=
  GCObj n (mark o) (weakref_count o) (free_mark o) (data o).
Definition set_mark (o : gcobj) (b : bool) : gcobj :=
  GCObj (ref_count o) b (weakref_count o) (free_mark o) (data o).

Definition upd_obj (p : ptr) (o : gcobj) (rt : JSRuntime) : JSRuntime :=
  Runtime (<[p := o]> (heap rt)) (gc_obj_list rt) (tmp_obj_list rt)
    (gc_zero_ref_count_list rt).

(** [list_del(&p->link)]: [p] leaves whichever list links it. *)
Definition list_del (p : ptr) (rt : JSRuntime) : JSRuntime :=
  Runtime (heap rt) (unlink p (gc_obj_list rt)) (unlink p (tmp_obj_list rt))
    (unlink p (gc_zero_ref_count_list rt)).

Definition add_tail_gc (p : ptr) (rt : JSRuntime) : JSRuntime :=
  Runtime (heap rt) (gc_obj_list rt ++ [p]) (tmp_obj_list rt) (gc_zero_ref_count_list rt).
Definition add_tail_tmp (p : ptr) (rt : JSRuntime) : JSRuntime :=
  Runtime (heap rt) (gc_obj_list rt) (tmp_obj_list rt ++ [p]) (gc_zero_ref_count_list rt).

(** [el->next] inside the list [l]; [None] is the list head. *)
Fixpoint list_next (p : ptr) (l : list ptr) : option ptr :=
  match l with
  | [] => None
  | q :: l => if decide (p = q) then head l else list_next p l
  end.

(** [mark_children(rt, p, f)] for a callback [f]; [None] is a failed
    assertion or a dangling pointer. *)
Fixpoint mark_all (f : ptr -> JSRuntime -> option JSRuntime) (cs : list ptr)
    (rt : JSRuntime) : option JSRuntime :=
  match cs with
  | [] => Some rt
  | c :: cs => rt' ← f c rt; mark_all f cs rt'
  end.

(** ** Phase 1: [gc_decref] *)

Definition gc_decref_child (p : ptr) (rt : JSRuntime) : option JSRuntime :=
  o ← heap rt !! p;
  if decide (0 < ref_count o) then
    let n := ref_count o - 1 in
    let rt := upd_obj p (set_ref_count o n) rt in
    if decide (n = 0) then
      if mark o then Some (add_tail_tmp p (list_del p rt)) else Some rt
    else Some rt
  else None.

(** The loop body on [p]: decrement the children, mark [p], and queue it
    when its own count is zero. *)
Definition gc_decref_body (p : ptr) (rt : JSRuntime) : option JSRuntime :=
  o ← heap rt !! p;
  if mark o then None else
  rt ← mark_all gc_decref_child (mark_children (data o)) rt;
  o ← heap rt !! p;
  let rt := upd_obj p (set_mark o true) rt in
  if decide (ref_count o = 0) then Some (add_tail_tmp p (list_del p rt)) else Some rt.

(** [list_for_each_safe(el, el1, &rt->gc_obj_list)]. *)
Fixpoint gc_decref_loop (fuel : nat) (el : option ptr) (rt : JSRuntime)
  : option JSRuntime :=
  match el with
  | None => Some rt
  | Some p =>
      match fuel with
      | O => None
      | S fuel =>
          let el1 := list_next p (gc_obj_list rt) in
          rt ← gc_decref_body p rt;
          gc_decref_loop fuel el1 rt
      end
  end.

Definition gc_decref (rt : JSRuntime) : option JSRuntime :=
  let rt := Runtime (heap rt) (gc_obj_list rt) [] (gc_zero_ref_count_list rt) in
  gc_decref_loop (length (gc_obj_list rt)) (head (gc_obj_list rt)) rt.

(** ** Phase 2: [gc_scan] *)

Definition gc_scan_incref_child (p : ptr) (rt : JSRuntime) : option JSRuntime :=
  o ← heap rt !! p;
  let n := ref_count o + 1 in
  if decide (n = 1) then
    Some (upd_obj p (set_mark (set_ref_count o n) false) (add_tail_gc p (list_del p rt)))
  else Some (upd_obj p (set_ref_count o n) rt).

Definition gc_scan_incref_child2 (p : ptr) (rt : JSRuntime) : option JSRuntime :=
  o ← heap rt !! p;
  Some (upd_obj p (set_ref_count o (ref_count o + 1)) rt).

Definition gc_scan_body (p : ptr) (rt : JSRuntime) : option JSRuntime :=
  o ← heap rt !! p;
  if decide (0 < ref_count o) then
    mark_all gc_scan_incref_child (mark_children (data o))
      (upd_obj p (set_mark o false) rt)
  else None.

(** [list_for_each(el, &rt->gc_obj_list)]: the successor is read after the
    body, so that the objects the body appends are visited. *)
Fixpoint gc_scan_loop (fuel : nat) (el : option ptr) (rt : JSRuntime)
  : option JSRuntime :=
  match el with
  | None => Some rt
  | Some p =>
      match fuel with
      | O => None
      | S fuel =>
          rt ← gc_scan_body p rt;
          gc_scan_loop fuel (list_next p (gc_obj_list rt)) rt
      end
  end.

Definition gc_scan_body2 (p : ptr) (rt : JSRuntime) : option JSRuntime :=
  o ← heap rt !! p;
  mark_all gc_scan_incref_child2 (mark_children (data o)) rt.

Fixpoint gc_scan_loop2 (fuel : nat) (el : option ptr) (rt : JSRuntime)
  : option JSRuntime :=
  match el with
  | None => Some rt
  | Some p =>
      match fuel with
      | O => None
      | S fuel =>
          rt ← gc_scan_body2 p rt;
          gc_scan_loop2 fuel (list_next p (tmp_obj_list rt)) rt
      end
  end.

(** Both loops visit each object of the heap at most once. *)
Definition gc_scan (rt : JSRuntime) : option JSRuntime :=
  rt ← gc_scan_loop (size (heap rt)) (head (gc_obj_list rt)) rt;
  gc_scan_loop2 (size (heap rt)) (head (tmp_obj_list rt)) rt.

(** ** Specification: reachability and reference accounting *)

Section counting.
(** References are counted with the marker ([mark_children]), with the
    references no marker visits ([unmarked_refs]) or with all of them
    ([held_refs]). *)
Context (ch : gc_data -> list ptr) (D : gmap ptr gc_data).

Definition kids_of (p : ptr) : list ptr :=
  match D !! p with Some d => ch d | None => [] end.

(** How many references to [q] the objects of [ps] hold. *)
Definition refs_of (ps : list ptr) (q : ptr) : Z := countZ q (ps ≫= kids_of).

Lemma refs_nonneg ps q : 0 <= refs_of ps q.
Proof. apply countZ_nonneg. Qed.

Lemma refs_cons p ps q : refs_of (p :: ps) q = countZ q (kids_of p) + refs_of ps q.
Proof. unfold refs_of. simpl. apply countZ_app. Qed.

Lemma refs_snoc ps p q : refs_of (ps ++ [p]) q = refs_of ps q + countZ q (kids_of p).
Proof.
  unfold refs_of. rewrite bind_app, countZ_app. simpl. rewrite app_nil_r. done.
Qed.

Lemma refs_app l1 l2 q : refs_of (l1 ++ l2) q = refs_of l1 q + refs_of l2 q.
Proof. unfold refs_of. rewrite bind_app. apply countZ_app. Qed.

Lemma refs_Permutation l1 l2 q : l1 ≡ₚ l2 -> refs_of l1 q = refs_of l2 q.
Proof. intros H. unfold refs_of. apply countZ_Permutation. by rewrite H. Qed.

Lemma refs_pos ps q : 0 < refs_of ps q <-> exists p, p ∈ ps /\ q ∈ kids_of p.
Proof.
  unfold refs_of. rewrite countZ_pos, list_elem_of_bind. naive_solver.
Qed.

End counting.

Notation kids := (kids_of mark_children).
Notation refs := (refs_of mark_children).

Lemma refs_held D ps q :
  refs_of held_refs D ps q = refs D ps q + refs_of unmarked_refs D ps q.
Proof.
  induction ps as [|p ps IH]; [done|]. rewrite !refs_cons, IH. unfold kids_of, held_refs.
  destruct (D !! p); [rewrite countZ_app|]; simpl; lia.
Qed.

Section accounting.
(** The object graph is fixed during phases 1 and 2: [D] gives the data of
    every live object. *)
Context (D : gmap ptr gc_data).
Notation kids := (kids_of mark_children D).
Notation refs := (refs_of mark_children D).

(** Every pointer a marker visits is a live object. *)
Definition closed : Prop :=
  forall p c, is_Some (D !! p) -> c ∈ kids p -> is_Some (D !! c).

(** The weak reference counts, and the zombies: structures kept for weak
    references, which the collector does not touch. *)
Context (wk : ptr -> Z) (Zmb : gmap ptr gcobj).

(** The heap holds the graph [D] with counts [rc] and marks [mk]. *)
Definition heap_is (rt : JSRuntime) (rc : ptr -> Z) (mk : ptr -> bool) : Prop :=
  forall p, heap rt !! p =
    match D !! p with
    | Some d => Some (GCObj (rc p) (mk p) (wk p) false d)
    | None => Zmb !! p
    end.

Lemma heap_is_some rt rc mk p :
  heap_is rt rc mk -> is_Some (D !! p) ->
  exists d, D !! p = Some d /\ kids p = mark_children d /\
    heap rt !! p = Some (GCObj (rc p) (mk p) (wk p) false d).
Proof.
  intros H [d Hd]. exists d. unfold kids_of. rewrite (H p), Hd. done.
Qed.

Lemma heap_is_ext rt rc mk rc' mk' :
  (forall p, rc p = rc' p) -> (forall p, mk p = mk' p) ->
  heap_is rt rc mk -> heap_is rt rc' mk'.
Proof. intros Hr Hm H p. rewrite (H p). destruct (D !! p); [by rewrite Hr, Hm|done]. Qed.

(** Overwriting one header of the heap. *)
Lemma heap_is_upd rt rc mk p d n b :
  heap_is rt rc mk -> D !! p = Some d ->
  heap_is (upd_obj p (GCObj n b (wk p) false d) rt) (<[p:=n]> rc) (<[p:=b]> mk).
Proof.
  intros H Hd q. unfold upd_obj; simpl. destruct (decide (p = q)) as [->|Hne].
  - rewrite lookup_insert_eq, Hd. by rewrite !fn_lookup_insert.
  - rewrite lookup_insert_ne by done. rewrite !fn_lookup_insert_ne by done. apply H.
Qed.

Lemma heap_is_upd_rc rt rc mk p d n :
  heap_is rt rc mk -> D !! p = Some d ->
  heap_is (upd_obj p (GCObj n (mk p) (wk p) false d) rt) (<[p:=n]> rc) mk.
Proof.
  intros H Hd. eapply heap_is_ext; [done| |by apply heap_is_upd].
  intros q. destruct (decide (p = q)) as [->|];
    [by rewrite fn_lookup_insert | by rewrite fn_lookup_insert_ne].
Qed.

Lemma heap_is_upd_mk rt rc mk p d b :
  heap_is rt rc mk -> D !! p = Some d ->
  heap_is (upd_obj p (GCObj (rc p) b (wk p) false d) rt) rc (<[p:=b]> mk).
Proof.
  intros H Hd. eapply heap_is_ext; [|done|by apply heap_is_upd].
  intros q. destruct (decide (p = q)) as [->|];
    [by rewrite fn_lookup_insert | by rewrite fn_lookup_insert_ne].
Qed.

(** *** Phase 1 *)

(** State after the objects of [done] have been processed; [l] is the part
    of gc_obj_list still to visit. *)
Record decref_inv (done l : list ptr) (rc : ptr -> Z) (rt : JSRuntime) : Prop := {
  di_heap : heap_is rt rc (fun p => bool_decide (p ∈ done));
  di_list : gc_obj_list rt = filter (fun p => rc p <> 0) done ++ l;
  di_nodup : NoDup (done ++ l);
  di_tmp_nodup : NoDup (tmp_obj_list rt);
  di_tmp : forall p, p ∈ tmp_obj_list rt <-> p ∈ done /\ rc p = 0;
  di_zero : gc_zero_ref_count_list rt = [];
}.

Lemma unlink_filter_zero (rc : ptr -> Z) c (l : list ptr) :
  unlink c (filter (fun p => rc p <> 0) l) =
  filter (fun p => <[c:=0]> rc p <> 0) l.
Proof.
  unfold unlink. rewrite list_filter_filter. apply list_filter_iff. intros x.
  destruct (decide (c = x)) as [->|Hne].
  - rewrite fn_lookup_insert. naive_solver.
  - rewrite fn_lookup_insert_ne by done. naive_solver.
Qed.

Lemma filter_rc_ext (rc rc' : ptr -> Z) (l : list ptr) :
  (forall p, p ∈ l -> (rc p = 0 <-> rc' p = 0)) ->
  filter (fun p => rc p <> 0) l = filter (fun p => rc' p <> 0) l.
Proof.
  induction l as [|x l IH]; intros H; [done|]. rewrite !filter_cons.
  rewrite IH by (intros; apply H; by right).
  pose proof (H x ltac:(left)). do 2 case_decide; naive_solver.
Qed.

Lemma decref_child_inv done l rc rt c :
  decref_inv done l rc rt -> is_Some (D !! c) -> 0 < rc c ->
  exists rt', gc_decref_child c rt = Some rt' /\
    decref_inv done l (<[c:=rc c - 1]> rc) rt'.
Proof.
  intros [Hh Hl Hnd Htn Ht Hz] Hc Hpos.
  destruct (heap_is_some _ _ _ _ Hh Hc) as (d & Hd & _ & Hlook).
  unfold gc_decref_child. rewrite Hlook. simpl.
  rewrite decide_True by done. unfold set_ref_count; simpl.
  pose proof (heap_is_upd_rc _ _ _ _ _ (rc c - 1) Hh Hd) as Hh'; simpl in Hh'.
  assert (Htc : c ∉ tmp_obj_list rt) by (rewrite Ht; lia).
  destruct (decide (rc c - 1 = 0)) as [E|E].
  - rewrite E in Hh' |- *.
    destruct (bool_decide_reflect (c ∈ done)) as [Hin|Hin].
    + eexists; split; [done|].
      assert (Hcl : c ∉ l)
        by (apply NoDup_app in Hnd as (_ & Hdisj & _); naive_solver).
      split; simpl; try done.
      * rewrite Hl, unlink_app, unlink_filter_zero. f_equal. by apply unlink_notin.
      * rewrite unlink_notin by done. apply NoDup_app. split; [done|].
        split; [set_solver|]. apply NoDup_singleton.
      * intros p. rewrite unlink_notin by done. rewrite elem_of_app, list_elem_of_singleton, Ht.
        destruct (decide (c = p)) as [->|Hne].
        -- rewrite fn_lookup_insert. naive_solver.
        -- rewrite fn_lookup_insert_ne by done. naive_solver.
      * by rewrite Hz.
    + eexists; split; [done|]. split; simpl; try done.
      * rewrite Hl. f_equal. apply filter_rc_ext. intros p Hp.
        rewrite fn_lookup_insert_ne by naive_solver. done.
      * intros p. rewrite Ht. destruct (decide (c = p)) as [->|Hne]; [tauto|].
        rewrite fn_lookup_insert_ne by done. done.
  - eexists; split; [done|]. split; simpl; try done.
    + rewrite Hl. f_equal. apply filter_rc_ext. intros p Hp.
      destruct (decide (c = p)) as [->|Hne];
        [rewrite fn_lookup_insert; lia | by rewrite fn_lookup_insert_ne].
    + intros p. rewrite Ht. destruct (decide (c = p)) as [->|Hne];
        [rewrite fn_lookup_insert; lia | by rewrite fn_lookup_insert_ne].
Qed.

Lemma decref_inv_ext done l rc rc' rt :
  (forall p, rc p = rc' p) -> decref_inv done l rc rt -> decref_inv done l rc' rt.
Proof.
  intros E [Hh Hl Hnd Htn Ht Hz]. split; try done.
  - by eapply heap_is_ext.
  - rewrite Hl. f_equal. apply filter_rc_ext. intros p _. by rewrite E.
  - intros p. rewrite <- E. apply Ht.
Qed.

Lemma decref_children_inv done l cs : forall rc rt,
  decref_inv done l rc rt -> Forall (fun c => is_Some (D !! c)) cs ->
  (forall q, countZ q cs <= rc q) ->
  exists rt', mark_all gc_decref_child cs rt = Some rt' /\
    decref_inv done l (fun q => rc q - countZ q cs) rt'.
Proof.
  induction cs as [|c cs IH]; intros rc rt Hi Hcs Hle; simpl.
  { exists rt. split; [done|]. eapply decref_inv_ext, Hi. intros; lia. }
  inv_subst Hcs.
  pose proof (Hle c) as Hc. simpl in Hc. rewrite decide_True in Hc by done.
  pose proof (countZ_nonneg c cs).
  destruct (decref_child_inv _ _ _ _ c Hi) as (rt1 & E1 & Hi1); [done|lia|].
  rewrite E1. simpl. destruct (IH _ _ Hi1) as (rt2 & E2 & Hi2); [done| |].
  - intros q. specialize (Hle q). simpl in Hle. destruct (decide (c = q)) as [->|Hne].
    + rewrite fn_lookup_insert. rewrite decide_True in Hle by done. lia.
    + rewrite fn_lookup_insert_ne by done. rewrite decide_False in Hle by congruence. lia.
  - exists rt2. split; [done|]. eapply decref_inv_ext, Hi2. intros q. simpl.
    destruct (decide (c = q)) as [->|Hne].
    + rewrite fn_lookup_insert, decide_True by done. lia.
    + rewrite fn_lookup_insert_ne, decide_False by congruence. lia.
Qed.

Lemma decref_body_inv done p l rc rt :
  closed -> decref_inv done (p :: l) rc rt -> is_Some (D !! p) ->
  (forall q, countZ q (kids p) <= rc q) ->
  exists rt', gc_decref_body p rt = Some rt' /\
    decref_inv (done ++ [p]) l (fun q => rc q - countZ q (kids p)) rt'.
Proof.
  intros Hcl Hi Hp Hle. pose proof Hi as [Hh _ Hnd _ _ _].
  destruct (heap_is_some _ _ _ _ Hh Hp) as (d & Hd & Hk & Hlook).
  apply NoDup_app in Hnd as (Hnd1 & Hdisj & Hnd2).
  assert (Hpd : p ∉ done) by (intros ?; eapply Hdisj; [done|left]).
  apply NoDup_cons in Hnd2 as [Hpl Hnd2].
  unfold gc_decref_body. rewrite Hlook. simpl. rewrite bool_decide_false by done.
  rewrite <- Hk.
  destruct (decref_children_inv _ _ (kids p) _ _ Hi) as (rt1 & E1 & Hi1); [|done|].
  { apply Forall_forall. intros c Hc. by apply (Hcl p). }
  rewrite E1. simpl. set (rc1 := fun q => rc q - countZ q (kids p)) in *.
  destruct Hi1 as [Hh1 Hl1 _ Htn1 Ht1 Hz1].
  destruct (heap_is_some _ _ _ _ Hh1 Hp) as (d' & Hd' & _ & Hlook1).
  rewrite Hd in Hd'. inv_subst Hd'. rewrite Hlook1. simpl.
  unfold set_mark; simpl.
  pose proof (heap_is_upd_mk _ _ _ _ _ true Hh1 Hd) as Hh2.
  assert (Hh3 : heap_is (upd_obj p (GCObj (rc1 p) true (wk p) false d') rt1) rc1
                  (fun q => bool_decide (q ∈ done ++ [p]))).
  { eapply heap_is_ext; [done| |exact Hh2]. intros q. simpl.
    destruct (decide (p = q)) as [->|Hne].
    - rewrite fn_lookup_insert, bool_decide_true; set_solver.
    - rewrite fn_lookup_insert_ne by done. apply bool_decide_ext. set_solver. }
  assert (Hndf : NoDup ((done ++ [p]) ++ l)).
  { rewrite <- app_assoc. apply NoDup_app. split; [done|]. split; [set_solver|].
    by constructor. }
  assert (Hpt : p ∉ tmp_obj_list rt1) by (rewrite Ht1; tauto).
  assert (Hpf : p ∉ filter (fun p => rc1 p <> 0) done)
    by (rewrite list_elem_of_filter; tauto).
  destruct (decide (rc1 p = 0)) as [E|E].
  - eexists; split; [done|]. split; simpl; try done.
    + rewrite Hl1, unlink_mid by done. rewrite filter_app.
      rewrite (filter_cons_False _ p) by naive_solver. simpl. by rewrite app_nil_r.
    + rewrite unlink_notin by done. apply NoDup_app. split; [done|].
      split; [set_solver|]. apply NoDup_singleton.
    + intros q. rewrite unlink_notin by done.
      rewrite elem_of_app, list_elem_of_singleton, Ht1, elem_of_app, list_elem_of_singleton.
      naive_solver.
    + by rewrite Hz1.
  - eexists; split; [done|]. split; simpl; try done.
    + rewrite Hl1, filter_app. rewrite (filter_cons_True _ p) by done. simpl.
      by rewrite <- app_assoc.
    + intros q. rewrite Ht1, elem_of_app, list_elem_of_singleton. naive_solver.
Qed.

Lemma list_next_mid p (l1 l2 : list ptr) :
  p ∉ l1 -> list_next p (l1 ++ p :: l2) = head l2.
Proof.
  induction l1 as [|x l1 IH]; intros H; simpl.
  - by rewrite decide_True.
  - rewrite not_elem_of_cons in H. rewrite decide_False by tauto. apply IH. tauto.
Qed.

Lemma decref_loop_inv l : forall done fuel rc rt,
  closed -> decref_inv done l rc rt -> Forall (fun p => is_Some (D !! p)) l ->
  (forall q, refs l q <= rc q) -> (length l <= fuel)%nat ->
  exists rt', gc_decref_loop fuel (head l) rt = Some rt' /\
    decref_inv (done ++ l) [] (fun q => rc q - refs l q) rt'.
Proof.
  induction l as [|p l IH]; intros done fuel rc rt Hcl Hi Hl Hle Hf.
  { exists rt. split; [by destruct fuel|]. rewrite app_nil_r.
    eapply decref_inv_ext, Hi. intros q. unfold refs_of. simpl. lia. }
  destruct fuel as [|fuel]; simpl in Hf; [lia|]. inv_subst Hl.
  destruct (decref_body_inv done p l rc rt) as (rt1 & E1 & Hi1); [done..| |].
  { intros q. specialize (Hle q). rewrite refs_cons in Hle.
    pose proof (refs_nonneg mark_children D l q). lia. }
  simpl. rewrite E1. simpl.
  assert (Hnext : list_next p (gc_obj_list rt) = head l).
  { destruct Hi as [_ Hll Hnd _ _ _]. rewrite Hll. apply list_next_mid.
    rewrite list_elem_of_filter. apply NoDup_app in Hnd as (_ & Hdisj & _).
    intros [_ Hin]. eapply Hdisj; [done|left]. }
  rewrite Hnext.
  destruct (IH (done ++ [p]) fuel _ rt1 Hcl Hi1) as (rt2 & E2 & Hi2); [done| |lia|].
  { intros q. specialize (Hle q). rewrite refs_cons in Hle. lia. }
  exists rt2. split; [done|]. rewrite <- app_assoc in Hi2. simpl in Hi2.
  eapply decref_inv_ext, Hi2. intros q. simpl. rewrite refs_cons. lia.
Qed.

(** *** Phase 2 *)

(** [ext p] references to [p] are held from outside the GC heap (the C
    stack, the runtime, handles); such objects are the roots. *)
Context (ext : ptr -> Z).

Inductive reachable : ptr -> Prop :=
| reach_root p : is_Some (D !! p) -> 0 < ext p -> reachable p
| reach_child p c : reachable p -> c ∈ kids p -> reachable c.

(** State of the scan: [vis] has been visited, [todo] is the rest of
    gc_obj_list; the visited objects and the queue are reachable, and the
    objects of tmp_obj_list are those with a zero count. *)
Record scan_inv (vis todo : list ptr) (rc : ptr -> Z) (rt : JSRuntime) : Prop := {
  si_mark : exists mk, heap_is rt rc mk /\ (forall p, p ∈ vis -> mk p = false) /\
              (forall p, p ∈ tmp_obj_list rt -> mk p = true);
  si_list : gc_obj_list rt = vis ++ todo;
  si_nodup : NoDup ((vis ++ todo) ++ tmp_obj_list rt);
  si_dom : forall p, is_Some (D !! p) <-> p ∈ (vis ++ todo) ++ tmp_obj_list rt;
  si_tmp : forall p, is_Some (D !! p) -> 0 <= rc p /\ (p ∈ tmp_obj_list rt <-> rc p = 0);
  si_zero : gc_zero_ref_count_list rt = [];
  si_reach : forall p, p ∈ vis ++ todo -> reachable p;
}.

Lemma scan_inv_ext vis todo rc rc' rt :
  (forall p, rc p = rc' p) -> scan_inv vis todo rc rt -> scan_inv vis todo rc' rt.
Proof.
  intros E [(mk & Hh & Hm1 & Hm2) Hl Hnd Hdom Ht Hz Hr]. split; try done.
  - exists mk. split; [by eapply heap_is_ext | done].
  - intros p Hp. rewrite <- E. by apply Ht.
Qed.

Lemma incref_child_inv vis todo rc rt c :
  scan_inv vis todo rc rt -> reachable c -> is_Some (D !! c) ->
  exists rt' todo', gc_scan_incref_child c rt = Some rt' /\
    scan_inv vis (todo ++ todo') (<[c:=rc c + 1]> rc) rt'.
Proof.
  intros [(mk & Hh & Hm1 & Hm2) Hl Hnd Hdom Ht Hz Hr] Hrc Hc.
  destruct (heap_is_some _ _ _ _ Hh Hc) as (d & Hd & _ & Hlook).
  destruct (Ht c Hc) as [Hge Htc].
  unfold gc_scan_incref_child. rewrite Hlook. simpl.
  assert (Htmp : forall (t : list ptr) p, is_Some (D !! p) -> (p <> c -> (p ∈ t <-> p ∈ tmp_obj_list rt)) ->
    c ∉ t -> 0 <= <[c:=rc c + 1]> rc p /\ (p ∈ t <-> <[c:=rc c + 1]> rc p = 0)).
  { intros t p Hp Heq Hct. destruct (Ht p Hp). destruct (decide (c = p)) as [->|Hne].
    - rewrite fn_lookup_insert. split; [lia|]. split; [done|lia].
    - rewrite fn_lookup_insert_ne by done. split; [done|].
      rewrite Heq by congruence. done. }
  apply NoDup_app in Hnd as (Hnd1 & Hdisj & Hnd2).
  destruct (decide (rc c + 1 = 1)) as [E|E].
  - assert (Hin : c ∈ tmp_obj_list rt) by (apply Htc; lia).
    assert (Hnl : c ∉ vis ++ todo) by naive_solver.
    exists (upd_obj c (GCObj (rc c + 1) false (wk c) false d) (add_tail_gc c (list_del c rt))), [c].
    split; [done|]. split; simpl.
    + exists (<[c:=false]> mk). split; [by apply (heap_is_upd (add_tail_gc c (list_del c rt)))|].
      split; intros p Hp; destruct (decide (c = p)) as [->|Hne].
      * by rewrite fn_lookup_insert.
      * rewrite fn_lookup_insert_ne by done. by apply Hm1.
      * apply elem_of_unlink in Hp. naive_solver.
      * rewrite fn_lookup_insert_ne by done. apply elem_of_unlink in Hp. naive_solver.
    + rewrite Hl, unlink_notin by done. by rewrite app_assoc.
    + rewrite app_assoc. apply NoDup_app. split.
      { apply NoDup_app. split; [done|]. split; [set_solver|apply NoDup_singleton]. }
      split; [|by apply NoDup_unlink].
      intros x Hx. rewrite elem_of_unlink.
      apply elem_of_app in Hx as [Hx|Hx%list_elem_of_singleton]; [|naive_solver].
      specialize (Hdisj x Hx). naive_solver.
    + intros p. rewrite Hdom. rewrite !elem_of_app, list_elem_of_singleton, elem_of_unlink.
      destruct (decide (p = c)) as [->|]; naive_solver.
    + intros p Hp. apply Htmp; [done| |].
      * rewrite elem_of_unlink. naive_solver.
      * rewrite elem_of_unlink. naive_solver.
    + by rewrite Hz.
    + intros p. rewrite app_assoc, elem_of_app, list_elem_of_singleton. naive_solver.
  - exists (upd_obj c (GCObj (rc c + 1) (mk c) (wk c) false d) rt), [].
    split; [done|]. rewrite app_nil_r. split; simpl; try done.
    + exists mk. split; [by apply heap_is_upd_rc | done].
    + apply NoDup_app. done.
    + intros p Hp. apply Htmp; [done|done|]. rewrite Htc. lia.
Qed.

Lemma incref_children_inv vis cs : forall todo rc rt,
  scan_inv vis todo rc rt ->
  Forall (fun c => reachable c /\ is_Some (D !! c)) cs ->
  exists rt' todo', mark_all gc_scan_incref_child cs rt = Some rt' /\
    scan_inv vis (todo ++ todo') (fun q => rc q + countZ q cs) rt'.
Proof.
  induction cs as [|c cs IH]; intros todo rc rt Hi Hcs; simpl.
  { exists rt, []. split; [done|]. rewrite app_nil_r.
    eapply scan_inv_ext, Hi. intros; lia. }
  inv_subst Hcs. break.
  destruct (incref_child_inv _ _ _ _ c Hi) as (rt1 & td1 & E1 & Hi1); [done..|].
  rewrite E1. simpl. destruct (IH _ _ _ Hi1) as (rt2 & td2 & E2 & Hi2); [done|].
  exists rt2, (td1 ++ td2). split; [done|]. rewrite <- app_assoc in Hi2.
  eapply scan_inv_ext, Hi2. intros q. simpl. destruct (decide (c = q)) as [->|Hne].
  - rewrite fn_lookup_insert, decide_True by done. lia.
  - rewrite fn_lookup_insert_ne, decide_False by congruence. lia.
Qed.

Lemma scan_body_inv vis p todo rc rt :
  closed -> scan_inv vis (p :: todo) rc rt ->
  exists rt' todo', gc_scan_body p rt = Some rt' /\
    scan_inv (vis ++ [p]) (todo ++ todo') (fun q => rc q + countZ q (kids p)) rt'.
Proof.
  intros Hcl Hi. pose proof Hi as [(mk & Hh & Hm1 & Hm2) Hl Hnd Hdom Ht Hz Hr].
  assert (Hp : is_Some (D !! p)) by (apply Hdom; set_solver).
  assert (Hnt : p ∉ tmp_obj_list rt).
  { apply NoDup_app in Hnd as (_ & Hdisj & _). apply Hdisj. set_solver. }
  assert (Hrp : reachable p) by (apply Hr; set_solver).
  destruct (heap_is_some _ _ _ _ Hh Hp) as (d & Hd & Hk & Hlook).
  destruct (Ht p Hp) as [Hge Htp].
  unfold gc_scan_body. rewrite Hlook. simpl.
  rewrite decide_True by (destruct (decide (rc p = 0)); [tauto|lia]).
  rewrite <- Hk. unfold set_mark; simpl.
  destruct (incref_children_inv (vis ++ [p]) (kids p) todo rc
              (upd_obj p (GCObj (rc p) false (wk p) false d) rt)) as (rt' & td & E & Hi').
  - assert (Heq : (vis ++ [p]) ++ todo = vis ++ p :: todo) by (by rewrite <- app_assoc).
    split; simpl; rewrite ?Heq; try done.
    exists (<[p:=false]> mk). split; [by apply heap_is_upd_mk|].
    split; intros q Hq; destruct (decide (p = q)) as [->|Hne].
    + by rewrite fn_lookup_insert.
    + rewrite fn_lookup_insert_ne by done. apply Hm1. set_solver.
    + done.
    + rewrite fn_lookup_insert_ne by done. by apply Hm2.
  - apply Forall_forall. intros c Hc. split; [by eapply reach_child | by apply (Hcl p)].
  - exists rt', td. done.
Qed.

(** The scan terminates: each visited object is a distinct object of the
    heap, and it ends with every reachable object visited. *)
Lemma scan_loop_inv fuel : forall vis todo rc rt,
  closed -> scan_inv vis todo rc rt ->
  (size D <= length vis + fuel)%nat ->
  exists rt' vis', gc_scan_loop fuel (head todo) rt = Some rt' /\
    scan_inv (vis ++ vis') [] (fun q => rc q + refs vis' q) rt'.
Proof.
  induction fuel as [|fuel IH]; intros vis todo rc rt Hcl Hi Hf.
  - destruct todo as [|p todo].
    + exists rt, []. split; [done|]. rewrite app_nil_r.
      eapply scan_inv_ext, Hi. intros q. unfold refs_of. simpl. lia.
    + exfalso. destruct Hi as [_ _ Hnd Hdom _ _ _].
      apply NoDup_app in Hnd as (Hnd & _ & _).
      assert (Hsub : list_to_set (vis ++ p :: todo) ⊆ dom D).
      { intros q Hq. apply elem_of_list_to_set in Hq. apply elem_of_dom, Hdom. set_solver. }
      apply subseteq_size in Hsub. rewrite size_list_to_set, size_dom in Hsub by done.
      rewrite length_app in Hsub. simpl in Hsub. lia.
  - destruct todo as [|p todo].
    + exists rt, []. split; [done|]. rewrite app_nil_r.
      eapply scan_inv_ext, Hi. intros q. unfold refs_of. simpl. lia.
    + destruct (scan_body_inv _ _ _ _ _ Hcl Hi) as (rt1 & td & E1 & Hi1).
      simpl. rewrite E1. simpl.
      assert (Hnext : list_next p (gc_obj_list rt1) = head (todo ++ td)).
      { destruct Hi1 as [_ Hl1 Hnd1 _ _ _ _]. rewrite Hl1, <- app_assoc. simpl.
        apply list_next_mid. apply NoDup_app in Hnd1 as (Hnd1 & _ & _).
        rewrite <- app_assoc in Hnd1. simpl in Hnd1.
        apply NoDup_app in Hnd1 as (_ & Hdisj & _). intros Hin.
        eapply Hdisj; [done|left]. }
      rewrite Hnext.
      destruct (IH _ _ _ _ Hcl Hi1) as (rt2 & vis' & E2 & Hi2).
      { rewrite length_app. simpl. lia. }
      exists rt2, (p :: vis'). split; [done|]. rewrite <- app_assoc in Hi2. simpl in Hi2.
      eapply scan_inv_ext, Hi2. intros q. simpl. rewrite refs_cons. lia.
Qed.

(** The objects to be deleted get their counts back; no list changes. *)
Lemma incref2_children cs : forall rc mk rt,
  heap_is rt rc mk -> Forall (fun c => is_Some (D !! c)) cs ->
  exists rt', mark_all gc_scan_incref_child2 cs rt = Some rt' /\
    heap_is rt' (fun q => rc q + countZ q cs) mk /\
    gc_obj_list rt' = gc_obj_list rt /\ tmp_obj_list rt' = tmp_obj_list rt /\
    gc_zero_ref_count_list rt' = gc_zero_ref_count_list rt.
Proof.
  induction cs as [|c cs IH]; intros rc mk rt Hh Hcs; simpl.
  { exists rt. split_and!; try done. eapply heap_is_ext, Hh; intros; [lia|done]. }
  inv_subst Hcs. destruct (heap_is_some _ _ _ _ Hh H1) as (d & Hd & _ & Hlook).
  assert (gc_scan_incref_child2 c rt =
          Some (upd_obj c (GCObj (rc c + 1) (mk c) (wk c) false d) rt)) as ->
    by (unfold gc_scan_incref_child2; by rewrite Hlook).
  simpl.
  destruct (IH (<[c:=rc c + 1]> rc) mk
    (upd_obj c (GCObj (rc c + 1) (mk c) (wk c) false d) rt)) as (rt' & E & Hh' & Hl);
    [by apply heap_is_upd_rc|done|].
  exists rt'. split; [done|]. split; [|done]. eapply heap_is_ext, Hh'; [|done].
  intros q. simpl. destruct (decide (c = q)) as [->|Hne].
  - rewrite fn_lookup_insert, decide_True by done. lia.
  - rewrite fn_lookup_insert_ne, decide_False by congruence. lia.
Qed.

Lemma scan_loop2_spec l2 : forall l1 fuel rc mk rt,
  closed -> heap_is rt rc mk -> tmp_obj_list rt = l1 ++ l2 -> NoDup (l1 ++ l2) ->
  Forall (fun c => is_Some (D !! c)) l2 -> (length l2 <= fuel)%nat ->
  exists rt', gc_scan_loop2 fuel (head l2) rt = Some rt' /\
    heap_is rt' (fun q => rc q + refs l2 q) mk /\
    gc_obj_list rt' = gc_obj_list rt /\ tmp_obj_list rt' = tmp_obj_list rt /\
    gc_zero_ref_count_list rt' = gc_zero_ref_count_list rt.
Proof.
  induction l2 as [|p l2 IH]; intros l1 fuel rc mk rt Hcl Hh Ht Hnd Hl2 Hf.
  { exists rt. split; [by destruct fuel|]. split_and!; try done.
    eapply heap_is_ext, Hh; intros; [unfold refs_of; simpl; lia|done]. }
  destruct fuel as [|fuel]; simpl in Hf; [lia|]. inv_subst Hl2.
  destruct (heap_is_some _ _ _ _ Hh H1) as (d & Hd & Hk & Hlook).
  destruct (incref2_children (kids p) rc mk rt Hh) as (rt1 & E1 & Hh1 & Hg1 & Ht1 & Hz1).
  { apply Forall_forall. intros c Hc. by apply (Hcl p). }
  simpl. unfold gc_scan_body2. rewrite Hlook. simpl. rewrite <- Hk, E1. simpl.
  rewrite Ht1, Ht, list_next_mid
    by (apply NoDup_app in Hnd as (_ & Hdisj & _); intros Hin; eapply Hdisj; [done|left]).
  destruct (IH (l1 ++ [p]) fuel (fun q => rc q + countZ q (kids p)) mk rt1)
    as (rt2 & E2 & Hh2 & Hg2 & Ht2 & Hz2); try done.
  - rewrite Ht1, Ht, <- app_assoc. done.
  - by rewrite <- app_assoc.
  - lia.
  - exists rt2. split; [done|]. split_and!; try congruence.
    eapply heap_is_ext, Hh2; [|done]. intros q. simpl. rewrite refs_cons. lia.
Qed.
End accounting.

(** ** Correctness of phases 1 and 2 *)

(** The object graph of a runtime: the live objects, without the zombies. *)
Definition graph (rt : JSRuntime) : gmap ptr gc_data :=
  omap (fun o => if free_mark o then None else Some (data o)) (heap rt).

Lemma graph_lookup rt p d :
  graph rt !! p = Some d <->
  exists o, heap rt !! p = Some o /\ free_mark o = false /\ data o = d.
Proof.
  unfold graph. rewrite lookup_omap. destruct (heap rt !! p) as [o|]; simpl.
  - destruct (free_mark o) eqn:E; split; intros H; try done;
      [destruct H as (? & [= <-] & ? & _); congruence | | ].
    + injection H as <-. eauto.
    + destruct H as (? & [= <-] & _ & <-). done.
  - split; [done|]. by intros (? & ? & _).
Qed.

Lemma graph_live rt p o :
  heap rt !! p = Some o -> free_mark o = false -> graph rt !! p = Some (data o).
Proof. intros. apply graph_lookup. eauto. Qed.

(** The objects [free_gc_object] frees; the others go with their last
    reference. *)
Definition is_owner (d : gc_data) : bool :=
  match d with
  | JS_GC_OBJ_TYPE_JS_OBJECT _ _ _ | JS_GC_OBJ_TYPE_FUNCTION_BYTECODE _ _ _
  | JS_GC_OBJ_TYPE_ASYNC_FUNCTION _ _ _ _ _ | JS_GC_OBJ_TYPE_MODULE _ => true
  | _ => false
  end.

(** The collector's precondition: the live objects are exactly the elements
    of gc_obj_list, linked once and unmarked; their counts are the references
    held by live objects, marked or not, plus the external ones; no live
    object holds a dangling pointer; zombies are emptied objects; and a shape,
    a variable reference or a context is referenced. *)
Record gc_consistent (ext : ptr -> Z) (rt : JSRuntime) : Prop := {
  gr_linked : forall p, is_Some (graph rt !! p) <-> p ∈ gc_obj_list rt;
  gr_nodup : NoDup (gc_obj_list rt);
  gr_zero : gc_zero_ref_count_list rt = [];
  gr_unmarked : forall p o, heap rt !! p = Some o -> free_mark o = false -> mark o = false;
  gr_ext : forall p, 0 <= ext p;
  gr_count : forall p o, heap rt !! p = Some o -> free_mark o = false ->
      ref_count o = ext p + refs_of held_refs (graph rt) (gc_obj_list rt) p;
  gr_closed : forall p c, is_Some (graph rt !! p) -> c ∈ kids_of held_refs (graph rt) p ->
      is_Some (graph rt !! c);
  gr_zombie : forall p o, heap rt !! p = Some o -> free_mark o = true ->
      data o = JS_GC_OBJ_TYPE_JS_OBJECT None [] U_none;
  gr_owned : forall p o, heap rt !! p = Some o -> free_mark o = false ->
      is_owner (data o) = false -> 0 < ref_count o;
}.

(** Besides, every live object is referenced: its count is positive.  A
    program keeps this true, and so does a collection that frees no native
    container. *)
Definition gc_ready (ext : ptr -> Z) (rt : JSRuntime) : Prop :=
  gc_consistent ext rt /\
  forall p o, heap rt !! p = Some o -> free_mark o = false -> 0 < ref_count o.

(** What the collector takes for external: the marker does not visit the
    values of the native containers, so their references act as roots. *)
Definition roots (ext : ptr -> Z) (rt : JSRuntime) (p : ptr) : Z :=
  ext p + refs_of unmarked_refs (graph rt) (gc_obj_list rt) p.

(** The precondition in terms of the marker and of the counts [ext] it sees
    as external. *)
Record trial_ready (ext : ptr -> Z) (rt : JSRuntime) : Prop := {
  tr_linked : forall p, is_Some (graph rt !! p) <-> p ∈ gc_obj_list rt;
  tr_nodup : NoDup (gc_obj_list rt);
  tr_zero : gc_zero_ref_count_list rt = [];
  tr_unmarked : forall p o, heap rt !! p = Some o -> free_mark o = false -> mark o = false;
  tr_ext : forall p, 0 <= ext p;
  tr_count : forall p o, heap rt !! p = Some o -> free_mark o = false ->
      ref_count o = ext p + refs (graph rt) (gc_obj_list rt) p;
  tr_closed : closed (graph rt);
  tr_zombie : forall p o, heap rt !! p = Some o -> free_mark o = true ->
      data o = JS_GC_OBJ_TYPE_JS_OBJECT None [] U_none;
}.

Lemma marked_held D p c : c ∈ kids D p -> c ∈ kids_of held_refs D p.
Proof. unfold kids_of, held_refs. destruct (D !! p); [|done]. rewrite elem_of_app. by left. Qed.

Lemma consistent_trial ext rt : gc_consistent ext rt -> trial_ready (roots ext rt) rt.
Proof.
  intros [Hlk Hnd Hz Hm He Hc Hcl Hzm _]. split; try done.
  - intros p. unfold roots. specialize (He p).
    pose proof (refs_nonneg unmarked_refs (graph rt) (gc_obj_list rt) p). lia.
  - intros p o Ho Hf. rewrite (Hc p o Ho Hf), refs_held. unfold roots. lia.
  - intros p c Hp Hin. apply (Hcl p c Hp). by apply marked_held.
Qed.

Definition gc_trial_delete (rt : JSRuntime) : option JSRuntime :=
  rt ← gc_decref rt; gc_scan rt.

Section correctness.
Context (ext : ptr -> Z) (rt : JSRuntime) (Hready : trial_ready ext rt).

Let D := graph rt.
Let wk (p : ptr) : Z := match heap rt !! p with Some o => weakref_count o | None => 0 end.
Let rc0 (p : ptr) : Z := ext p + refs D (gc_obj_list rt) p.

Lemma ready_heap_is rt0 :
  heap rt0 = heap rt -> heap_is D wk (heap rt) rt0 rc0 (fun _ => false).
Proof.
  destruct Hready as [_ _ _ Hm _ Hc _ _]. intros Eq p. rewrite Eq.
  destruct (D !! p) as [d|] eqn:E; [|done].
  apply graph_lookup in E as (o & Ho & Hf & Hd). rewrite Ho.
  unfold rc0, D, wk. rewrite <- (Hc p o Ho Hf), Ho, <- Hd.
  pose proof (Hm p o Ho Hf). destruct o; simpl in *. congruence.
Qed.

(** After [gc_decref] each count is the number of external references. *)
Lemma gc_decref_spec :
  exists rt1, gc_decref rt = Some rt1 /\
    decref_inv D wk (heap rt) (gc_obj_list rt) [] ext rt1.
Proof.
  pose proof Hready as [Hlk Hnd Hz Hm He Hc Hcl _]. unfold gc_decref. simpl.
  set (rt0 := Runtime _ _ _ _).
  destruct (decref_loop_inv D wk (heap rt) (gc_obj_list rt) [] (length (gc_obj_list rt)) rc0 rt0)
    as (rt1 & E1 & Hi1); [done| | | |lia|].
  - split; simpl; try done.
    + eapply heap_is_ext; [done| |by apply (ready_heap_is rt0)]. done.
    + apply NoDup_nil_2.
    + set_solver.
  - apply Forall_forall. intros p Hp. by apply Hlk.
  - intros q. unfold rc0. specialize (He q). lia.
  - exists rt1. split; [done|]. eapply decref_inv_ext, Hi1. intros q. unfold rc0. lia.
Qed.

Lemma gc_scan_ready rt1 :
  decref_inv D wk (heap rt) (gc_obj_list rt) [] ext rt1 ->
  scan_inv D wk (heap rt) ext [] (gc_obj_list rt1) ext rt1.
Proof.
  pose proof Hready as [Hlk Hnd Hz Hm He Hc Hcl _].
  intros [Hh Hl _ Htn Ht Hz1]. rewrite app_nil_r in Hl.
  assert (Hin : forall p, p ∈ gc_obj_list rt1 <-> p ∈ gc_obj_list rt /\ ext p <> 0).
  { intros p. rewrite Hl, list_elem_of_filter. tauto. }
  split; simpl; try done.
  - eexists. split; [exact Hh|]. split; [set_solver|]. intros p Hp. simpl.
    apply bool_decide_true. apply Ht in Hp. tauto.
  - apply NoDup_app. split; [rewrite Hl; by apply NoDup_filter|]. split; [|done].
    intros p. rewrite Hin, Ht. tauto.
  - intros p. rewrite elem_of_app, Hin, Ht, <- Hlk. fold D.
    destruct (decide (ext p = 0)); tauto.
  - intros p Hp. split; [done|]. rewrite Ht, <- Hlk. fold D. tauto.
  - intros p Hp. apply Hin in Hp as [Hp ?]. apply reach_root.
    + by apply Hlk.
    + specialize (He p). lia.
Qed.

(** The end of the scan: the objects left in gc_obj_list are closed under
    references, hence contain everything reachable. *)
Lemma scan_done_reach vis rt2 p :
  scan_inv D wk (heap rt) ext vis [] (fun q => ext q + refs D vis q) rt2 ->
  reachable D ext p -> p ∈ vis.
Proof.
  pose proof Hready as [_ _ _ _ He _ Hcl _].
  intros [_ _ Hnd Hdom Ht _ _] Hr. rewrite app_nil_r in Hdom.
  assert (Hkeep : forall q, is_Some (D !! q) -> 0 < ext q + refs D vis q -> q ∈ vis).
  { intros q Hq Hpos. destruct (Ht q Hq) as [_ Hz]. apply Hdom, elem_of_app in Hq.
    destruct Hq as [|Hq]; [done|]. apply Hz in Hq. lia. }
  induction Hr as [p Hp Hpos | p c _ IH Hc].
  - apply Hkeep; [done|]. pose proof (refs_nonneg mark_children D vis p). lia.
  - apply Hkeep.
    + apply (Hcl p); [|done]. apply Hdom, elem_of_app. by left.
    + assert (0 < refs D vis c) by (apply refs_pos; eauto). specialize (He c). lia.
Qed.

Lemma heap_is_size rt0 rc mk :
  heap_is D wk (heap rt) rt0 rc mk -> (size D <= size (heap rt0))%nat.
Proof.
  intros Hh. rewrite <- !size_dom. apply subseteq_size. intros p.
  rewrite !elem_of_dom, (Hh p). destruct (D !! p); [eauto|]. by intros [? ?].
Qed.

Lemma trial_delete_spec :
  exists rt2, gc_trial_delete rt = Some rt2 /\
    (forall p, p ∈ gc_obj_list rt2 <-> reachable D ext p) /\
    (forall p, p ∈ tmp_obj_list rt2 <-> is_Some (D !! p) /\ ~ reachable D ext p) /\
    NoDup (gc_obj_list rt2 ++ tmp_obj_list rt2) /\
    gc_zero_ref_count_list rt2 = [] /\
    (forall p, heap rt2 !! p =
       (fun o => if free_mark o then o else set_mark o (bool_decide (p ∈ tmp_obj_list rt2)))
         <$> heap rt !! p).
Proof.
  pose proof Hready as [Hlk Hnd Hz Hm He Hc Hcl _].
  destruct gc_decref_spec as (rt1 & E1 & Hi1).
  unfold gc_trial_delete. rewrite E1. simpl. unfold gc_scan.
  assert (Hsz : (size D <= size (heap rt1))%nat)
    by (destruct Hi1 as [Hh _ _ _ _ _]; by eapply heap_is_size).
  apply gc_scan_ready in Hi1.
  destruct (scan_loop_inv D wk (heap rt) ext (size (heap rt1)) [] (gc_obj_list rt1) ext rt1)
    as (rt2 & vis & E2 & Hi2); [done|done|simpl; lia|].
  rewrite E2. simpl in Hi2 |- *.
  assert (Hvis : forall p, p ∈ vis <-> reachable D ext p).
  { intros p. split.
    - destruct Hi2 as [_ _ _ _ _ _ Hr]. intros Hp. apply Hr. by rewrite app_nil_r.
    - by apply scan_done_reach with rt2. }
  pose proof Hi2 as [(mk & Hh2 & Hm1 & Hm2) Hl2 Hnd2 Hdom2 Ht2 Hz2 _].
  rewrite app_nil_r in Hl2, Hnd2, Hdom2.
  apply NoDup_app in Hnd2 as Hnd2'. destruct Hnd2' as (Hndv & Hdisj & Hndt).
  destruct (scan_loop2_spec D wk (heap rt) (tmp_obj_list rt2) [] (size (heap rt2)) _ mk rt2 Hcl Hh2)
    as (rt3 & E3 & Hh3 & Hg3 & Ht3 & Hz3); [done|done| | |].
  { apply Forall_forall. intros p Hp. apply Hdom2. set_solver. }
  { etrans; [|by eapply heap_is_size].
    rewrite <- (size_list_to_set (C:=gset ptr) (tmp_obj_list rt2)) by done.
    rewrite <- size_dom. apply subseteq_size. intros p Hp.
    apply elem_of_list_to_set in Hp. apply elem_of_dom, Hdom2. set_solver. }
  exists rt3. rewrite Hg3, Ht3, Hl2, Hz3. split; [done|]. split_and!; try done.
  - intros p. rewrite <- Hvis, Hdom2, elem_of_app. specialize (Hdisj p). tauto.
  - intros p. rewrite (Hh3 p). destruct (D !! p) as [d|] eqn:Ed.
    + apply graph_lookup in Ed as Ho. destruct Ho as (o & Ho & Hf & Hd).
      rewrite Ho. simpl. rewrite Hf.
      assert (Hperm : vis ++ tmp_obj_list rt2 ≡ₚ gc_obj_list rt).
      { apply NoDup_Permutation; [done..|]. intros q. by rewrite <- Hdom2, <- Hlk. }
      assert (Hmk : mk p = bool_decide (p ∈ tmp_obj_list rt2)).
      { case_bool_decide as E; [by apply Hm2|]. apply Hm1.
        assert (Hp : is_Some (D !! p)) by eauto.
        apply Hdom2, elem_of_app in Hp. tauto. }
      unfold set_mark. rewrite <- Z.add_assoc, <- refs_app, (refs_Permutation _ _ _ _ _ Hperm).
      rewrite <- Hmk, (Hc p o Ho Hf). unfold wk, D. by rewrite Ho, Hf, Hd.
    + destruct (heap rt !! p) as [o|] eqn:Ho; [|done]. simpl.
      destruct (free_mark o) eqn:Hf; [done|]. exfalso.
      assert (H : D !! p = Some (data o)) by (by apply graph_live). congruence.
Qed.
End correctness.
