(* ===== verification/GCFree.v ===== *)
(** * The garbage collector: releasing references and freeing cycles *)
From S2P Require Import Prelude GCClasses GC.

(** ** Releasing one reference *)

Inductive JSGCPhase : Type :=
| JS_GC_PHASE_NONE | JS_GC_PHASE_DECREF | JS_GC_PHASE_REMOVE_CYCLES.

#[export] Instance JSGCPhase_eq_dec : EqDecision JSGCPhase.
Proof. solve_decision. Defined.

Definition set_data (o : gcobj) (d : gc_data) : gcobj :=
  GCObj (ref_count o) (mark o) (weakref_count o) (free_mark o) d.
Definition set_free_mark (o : gcobj) : gcobj :=
  GCObj (ref_count o) (mark o) (weakref_count o) true (data o).

Definition add_head_zero (p : ptr) (rt : JSRuntime) : JSRuntime :=
  Runtime (heap rt) (gc_obj_list rt) (tmp_obj_list rt) (p :: gc_zero_ref_count_list rt).
Definition add_tail_zero (p : ptr) (rt : JSRuntime) : JSRuntime :=
  Runtime (heap rt) (gc_obj_list rt) (tmp_obj_list rt) (gc_zero_ref_count_list rt ++ [p]).

(** [js_free_rt] of the structure. *)
Definition js_free_rt (p : ptr) (rt : JSRuntime) : JSRuntime :=
  Runtime (delete p (heap rt)) (gc_obj_list rt) (tmp_obj_list rt) (gc_zero_ref_count_list rt).

(** [--js_rc(p)->ref_count]; [None] when [p] is not allocated. *)
Definition decr (p : ptr) (rt : JSRuntime) : option (Z * JSRuntime) :=
  o ← heap rt !! p;
  let n := ref_count o - 1 in Some (n, upd_obj p (set_ref_count o n) rt).

Section release.
(** [rt->gc_phase], constant during a release. *)
Context (phase : JSGCPhase).

(** [__JS_FreeValueRT] on a GC object whose count reached zero. *)
Definition __JS_FreeValueRT (p : ptr) (rt : JSRuntime) : option JSRuntime :=
  if decide (phase = JS_GC_PHASE_REMOVE_CYCLES) then Some rt
  else o ← heap rt !! p;
       Some (upd_obj p (set_mark o true) (add_head_zero p (list_del p rt))).

Definition JS_FreeValueRT (v : JSValue) (rt : JSRuntime) : option JSRuntime :=
  match v with
  | JS_TAG_OBJECT p | JS_TAG_FUNCTION_BYTECODE p | JS_TAG_MODULE p =>
      '(n, rt) ← decr p rt;
      if decide (n <= 0) then __JS_FreeValueRT p rt else Some rt
  | JS_TAG_LEAF | JS_TAG_NOREF => Some rt
  end.

Definition async_func_free (p : ptr) (rt : JSRuntime) : option JSRuntime :=
  '(n, rt) ← decr p rt;
  if decide (n = 0) then
    if decide (phase = JS_GC_PHASE_REMOVE_CYCLES) then Some rt
    else Some (add_head_zero p (list_del p rt))
  else Some rt.

Fixpoint release_all (release : gcref -> JSRuntime -> option JSRuntime)
    (rs : list gcref) (rt : JSRuntime) : option JSRuntime :=
  match rs with
  | [] => Some rt
  | r :: rs => rt ← release r rt; release_all release rs rt
  end.

(** References whose release frees nothing by itself. *)
Definition release0 (r : gcref) (rt : JSRuntime) : option JSRuntime :=
  match r with
  | R_value v => JS_FreeValueRT v rt
  | R_async s => async_func_free s rt
  | _ => None
  end.

Definition js_free_shape0 (p : ptr) (rt : JSRuntime) : option JSRuntime :=
  o ← heap rt !! p;
  if decide (ref_count o = 0) then
    match data o with
    | JS_GC_OBJ_TYPE_SHAPE proto =>
        rt ← release_all release0 (opt_ref R_object proto) rt;
        Some (js_free_rt p (list_del p rt))
    | _ => None
    end
  else None.

Definition js_free_shape (p : ptr) (rt : JSRuntime) : option JSRuntime :=
  '(n, rt) ← decr p rt;
  if decide (n <= 0) then js_free_shape0 p rt else Some rt.

Definition free_var_ref (p : ptr) (rt : JSRuntime) : option JSRuntime :=
  o ← heap rt !! p;
  if decide (0 < ref_count o) then
    '(n, rt) ← decr p rt;
    if decide (n = 0) then
      rt ← match data o with
           | JS_GC_OBJ_TYPE_VAR_REF_detached v => release_all release0 [R_value v] rt
           | JS_GC_OBJ_TYPE_VAR_REF_frame async_func =>
               release_all release0 (opt_ref R_async async_func) rt
           | _ => None
           end;
      Some (js_free_rt p (list_del p rt))
    else Some rt
  else None.

(** References whose release may free a shape or a variable reference. *)
Definition release1 (r : gcref) (rt : JSRuntime) : option JSRuntime :=
  match r with
  | R_value v => JS_FreeValueRT v rt
  | R_async s => async_func_free s rt
  | R_shape sh => js_free_shape sh rt
  | R_var_ref v => free_var_ref v rt
  | R_context _ => None
  end.

Definition JS_FreeContext (p : ptr) (rt : JSRuntime) : option JSRuntime :=
  '(n, rt) ← decr p rt;
  if decide (0 < n) then Some rt
  else
    o ← heap rt !! p;
    if decide (ref_count o = 0) then
      match data o with
      | JS_GC_OBJ_TYPE_JS_CONTEXT ctx =>
          rt ← release_all release1 (free_context_refs ctx) rt;
          Some (js_free_rt p (list_del p rt))
      | _ => None
      end
    else None.

Definition release (r : gcref) (rt : JSRuntime) : option JSRuntime :=
  match r with
  | R_context ctx => JS_FreeContext ctx rt
  | _ => release1 r rt
  end.

(** ** Freeing one GC object *)

(** The common tail of [free_function_bytecode], [__async_func_free] and
    [js_free_module_def]. *)
Definition free_struct (p : ptr) (rt : JSRuntime) : option JSRuntime :=
  let rt := list_del p rt in
  o ← heap rt !! p;
  if decide (phase = JS_GC_PHASE_REMOVE_CYCLES /\ ref_count o <> 0)
  then Some (add_tail_zero p rt) else Some (js_free_rt p rt).

Definition free_object (p : ptr) (rt : JSRuntime) : option JSRuntime :=
  o ← heap rt !! p;
  rt ← release_all release (free_refs (data o)) (upd_obj p (set_free_mark o) rt);
  o ← heap rt !! p;
  let o := set_data o (JS_GC_OBJ_TYPE_JS_OBJECT None [] U_none) in
  let rt := list_del p (upd_obj p o rt) in
  if decide (phase = JS_GC_PHASE_REMOVE_CYCLES) then
    if decide (ref_count o = 0 /\ weakref_count o = 0) then Some (js_free_rt p rt)
    else Some (add_tail_zero p rt)
  else if decide (weakref_count o = 0) then Some (js_free_rt p rt)
  else Some (upd_obj p (set_mark o false) rt).

(** [if (m->link.next) list_del(&m->link)]: the module leaves the
    loaded_modules list of its context. *)
Definition unlink_module_data (m : ptr) (d : gc_data) : gc_data :=
  match d with
  | JS_GC_OBJ_TYPE_JS_CONTEXT ctx =>
      JS_GC_OBJ_TYPE_JS_CONTEXT (set_loaded_modules ctx (unlink m (loaded_modules ctx)))
  | _ => d
  end.
Definition unlink_module (m : ptr) (rt : JSRuntime) : JSRuntime :=
  Runtime ((fun o => set_data o (unlink_module_data m (data o))) <$> heap rt)
    (gc_obj_list rt) (tmp_obj_list rt) (gc_zero_ref_count_list rt).

Definition free_gc_object (p : ptr) (rt : JSRuntime) : option JSRuntime :=
  o ← heap rt !! p;
  match data o with
  | JS_GC_OBJ_TYPE_JS_OBJECT _ _ _ => free_object p rt
  | JS_GC_OBJ_TYPE_FUNCTION_BYTECODE _ _ _ =>
      rt ← release_all release (free_refs (data o)) rt; free_struct p rt
  | JS_GC_OBJ_TYPE_ASYNC_FUNCTION is_completed _ _ stack _ =>
      (* a running function cannot be freed *)
      if decide (is_completed = false /\ stack = None) then None else
      rt ← release_all release (free_refs (data o)) rt; free_struct p rt
  | JS_GC_OBJ_TYPE_MODULE _ =>
      rt ← release_all release (free_refs (data o)) rt;
      free_struct p (unlink_module p rt)
  | _ => None (* abort() *)
  end.
End release.

(** ** Phase 3: [gc_free_cycles] *)

Definition is_js_object (d : gc_data) : bool :=
  match d with JS_GC_OBJ_TYPE_JS_OBJECT _ _ _ => true | _ => false end.

(** The first loop: the head of tmp_obj_list is freed, or set aside when
    its owners will free it. *)
Definition free_cycles_body (p : ptr) (rt : JSRuntime) : option JSRuntime :=
  o ← heap rt !! p;
  if is_owner (data o) then free_gc_object JS_GC_PHASE_REMOVE_CYCLES p rt
  else Some (add_tail_zero p (list_del p rt)).

Fixpoint free_cycles_loop (fuel : nat) (rt : JSRuntime) : option JSRuntime :=
  match head (tmp_obj_list rt) with
  | None => Some rt
  | Some p =>
      match fuel with
      | O => None
      | S fuel => rt ← free_cycles_body p rt; free_cycles_loop fuel rt
      end
  end.

(** The second loop frees the zombies without weak references. *)
Definition sweep_body (p : ptr) (rt : JSRuntime) : option JSRuntime :=
  o ← heap rt !! p;
  if is_owner (data o) then
    if is_js_object (data o) && negb (weakref_count o =? 0)
    then Some (upd_obj p (set_mark o false) rt)
    else Some (js_free_rt p rt)
  else None.

Fixpoint sweep_loop (l : list ptr) (rt : JSRuntime) : option JSRuntime :=
  match l with
  | [] => Some rt
  | p :: l => rt ← sweep_body p rt; sweep_loop l rt
  end.

Definition gc_free_cycles (rt : JSRuntime) : option JSRuntime :=
  rt ← free_cycles_loop (length (tmp_obj_list rt)) rt;
  rt ← sweep_loop (gc_zero_ref_count_list rt) rt;
  Some (Runtime (heap rt) (gc_obj_list rt) (tmp_obj_list rt) []).

(** [JS_RunGCInternal(rt, FALSE)]. *)
Definition JS_RunGCInternal (rt : JSRuntime) : option JSRuntime :=
  rt ← gc_decref rt;
  rt ← gc_scan rt;
  gc_free_cycles rt.

(** ** Kinds and typed graphs *)

Inductive gckind : Type :=
| K_object | K_bytecode | K_shape | K_var_ref | K_async | K_context | K_module.

Definition kind_of (d : gc_data) : gckind :=
  match d with
  | JS_GC_OBJ_TYPE_JS_OBJECT _ _ _ => K_object
  | JS_GC_OBJ_TYPE_FUNCTION_BYTECODE _ _ _ => K_bytecode
  | JS_GC_OBJ_TYPE_SHAPE _ => K_shape
  | JS_GC_OBJ_TYPE_VAR_REF_detached _ | JS_GC_OBJ_TYPE_VAR_REF_frame _ => K_var_ref
  | JS_GC_OBJ_TYPE_ASYNC_FUNCTION _ _ _ _ _ => K_async
  | JS_GC_OBJ_TYPE_JS_CONTEXT _ => K_context
  | JS_GC_OBJ_TYPE_MODULE _ => K_module
  end.

(** What a reference points to. *)
Definition ref_target (r : gcref) : option (ptr * gckind) :=
  match r with
  | R_value (JS_TAG_OBJECT p) => Some (p, K_object)
  | R_value (JS_TAG_FUNCTION_BYTECODE p) => Some (p, K_bytecode)
  | R_value (JS_TAG_MODULE p) => Some (p, K_module)
  | R_value _ => None
  | R_shape p => Some (p, K_shape)
  | R_var_ref p => Some (p, K_var_ref)
  | R_context p => Some (p, K_context)
  | R_async p => Some (p, K_async)
  end.

Lemma ref_ptr_target r :
  ref_ptr r = match ref_target r with Some (p, _) => [p] | None => [] end.
Proof. by destruct r as [[]| | | |]. Qed.

Definition ref_ok (D : gmap ptr gc_data) (r : gcref) : Prop :=
  forall p k, ref_target r = Some (p, k) -> kind_of <$> D !! p = Some k.

(** Every reference of a live object has a live target of its static type,
    and deleted property slots are empty. *)
Definition typed (D : gmap ptr gc_data) : Prop :=
  forall p d, D !! p = Some d -> wf_data d = true /\ Forall (ref_ok D) (free_refs d).

Definition owner_kind (k : gckind) : bool :=
  match k with K_object | K_bytecode | K_async | K_module => true | _ => false end.

Lemma is_owner_kind d : is_owner d = owner_kind (kind_of d).
Proof. by destruct d. Qed.

Lemma is_js_object_kind d :
  is_js_object d = match kind_of d with K_object => true | _ => false end.
Proof. by destruct d. Qed.

Lemma typed_kid D p d c :
  typed D -> D !! p = Some d -> c ∈ held_refs d ->
  exists r k, r ∈ free_refs d /\ ref_target r = Some (c, k) /\ kind_of <$> D !! c = Some k.
Proof.
  intros HD Hd Hc. destruct (HD p d Hd) as [Hwf Hok].
  rewrite <- (free_held_Permutation d Hwf) in Hc. apply list_elem_of_bind in Hc as (r & Hc & Hr).
  rewrite ref_ptr_target in Hc. destruct (ref_target r) as [[c' k]|] eqn:E; [|by inversion Hc].
  apply list_elem_of_singleton in Hc as ->. exists r, k. split; [done|]. split; [done|].
  rewrite Forall_forall in Hok. by apply (Hok r Hr).
Qed.

Lemma typed_closed D p c :
  typed D -> is_Some (D !! p) -> c ∈ kids_of held_refs D p -> is_Some (D !! c).
Proof.
  intros HD [d Hd] Hc. unfold kids_of in Hc. rewrite Hd in Hc.
  destruct (typed_kid _ _ _ _ HD Hd Hc) as (r & k & _ & _ & Hk).
  destruct (D !! c); [eauto|done].
Qed.

(** A reference held by an object that is not freed on its own (a shape, a
    variable reference or a context) leads to an object that is, or from a
    context to a shape. *)
Lemma context_refs_kinds ctx r :
  r ∈ free_context_refs ctx -> (exists v, r = R_value v) \/ (exists sh, r = R_shape sh).
Proof.
  assert (Hopt : forall o, r ∈ opt_ref R_shape o -> exists sh, r = R_shape sh).
  { intros [sh|]; simpl; [intros ->%list_elem_of_singleton; eauto|by intros ?%not_elem_of_nil]. }
  unfold free_context_refs. rewrite !elem_of_app, !elem_of_cons, !list_elem_of_fmap.
  intros H. repeat match type of H with _ \/ _ => destruct H as [H|H] end; eauto;
    first [destruct H as (? & -> & _); eauto | by apply not_elem_of_nil in H].
Qed.

Lemma nonowner_refs d r c k :
  is_owner d = false -> r ∈ free_refs d -> ref_target r = Some (c, k) ->
  owner_kind k = true \/ (kind_of d = K_context /\ k = K_shape).
Proof.
  destruct d; simpl; intros Ho Hr Ht; try done.
  - destruct proto; simpl in Hr; [apply list_elem_of_singleton in Hr as ->|by inversion Hr].
    injection Ht as <- <-. by left.
  - apply list_elem_of_singleton in Hr as ->. left. destruct value; simplify_eq/=; done.
  - destruct async_func; simpl in Hr; [apply list_elem_of_singleton in Hr as ->|by inversion Hr].
    injection Ht as <- <-. by left.
  - apply context_refs_kinds in Hr as [(v & ->)|(sh & ->)].
    + left. destruct v; simplify_eq/=; done.
    + right. by injection Ht as <- <-.
Qed.

(** Modules already freed have left the lists of loaded modules. *)
Definition prune (um : list ptr) (d : gc_data) : gc_data :=
  match d with
  | JS_GC_OBJ_TYPE_JS_CONTEXT ctx =>
      JS_GC_OBJ_TYPE_JS_CONTEXT
        (set_loaded_modules ctx (filter (fun m => m ∉ um) (loaded_modules ctx)))
  | _ => d
  end.

Lemma prune_nil d : prune [] d = d.
Proof.
  destruct d; simpl; try done. f_equal.
  rewrite filter_all by (intros; apply not_elem_of_nil). by destruct ctx.
Qed.

Lemma prune_cons m um d : unlink_module_data m (prune um d) = prune (m :: um) d.
Proof.
  destruct d; simpl; try done. do 2 f_equal. unfold unlink. rewrite list_filter_filter.
  apply list_filter_iff. intros x. rewrite not_elem_of_cons. done.
Qed.

Lemma prune_kind um d : kind_of (prune um d) = kind_of d.
Proof. by destruct d. Qed.
Lemma prune_wf um d : wf_data (prune um d) = wf_data d.
Proof. by destruct d. Qed.
Lemma prune_owner um d : is_owner (prune um d) = is_owner d.
Proof. by destruct d. Qed.

Lemma prune_refs um d r : r ∈ free_refs (prune um d) -> r ∈ free_refs d.
Proof.
  destruct d; simpl; try done. unfold free_context_refs. rewrite !elem_of_app.
  intros [Hr|Hr]; [|tauto]. left.
  apply list_elem_of_fmap in Hr as (m & -> & Hm). apply list_elem_of_filter in Hm as [_ Hm].
  apply list_elem_of_fmap. eauto.
Qed.

Lemma prune_unmarked um d : unmarked_refs (prune um d) = unmarked_refs d.
Proof. by destruct d. Qed.

(** The context's references other than its modules. *)
Lemma context_modules_count ctx ms q :
  countZ q (held_refs (JS_GC_OBJ_TYPE_JS_CONTEXT (set_loaded_modules ctx ms))) =
  countZ q ms + countZ q (JS_MarkContext (set_loaded_modules ctx [])).
Proof.
  unfold held_refs. cbn [mark_children unmarked_refs]. rewrite app_nil_r. unfold JS_MarkContext.
  rewrite countZ_app. cbn [loaded_modules set_loaded_modules]. f_equal.
  induction ms as [|m ms IH]; [done|]. csimpl in *. by rewrite IH.
Qed.

(** Only references to unlinked modules disappear. *)
Lemma prune_count m um d q :
  q <> m -> countZ q (held_refs (prune (m :: um) d)) = countZ q (held_refs (prune um d)).
Proof.
  intros Hne. rewrite <- prune_cons. destruct d; simpl prune; try done.
  cbn [unlink_module_data]. change (set_loaded_modules (set_loaded_modules ?c ?l) ?l')
    with (set_loaded_modules c l'). rewrite !context_modules_count. f_equal.
  cbn [loaded_modules set_loaded_modules]. unfold unlink.
  induction (filter _ (loaded_modules ctx)) as [|x l IH]; [done|].
  destruct (decide (x = m)) as [->|Hx].
  - rewrite filter_cons_False by naive_solver. csimpl. rewrite decide_False by done. lia.
  - rewrite filter_cons_True by done. csimpl. lia.
Qed.

Lemma prune_count_le m um d q :
  countZ q (held_refs (prune (m :: um) d)) <= countZ q (held_refs (prune um d)).
Proof.
  rewrite <- prune_cons. destruct d; simpl prune; try (cbn [unlink_module_data]; lia).
  cbn [unlink_module_data]. change (set_loaded_modules (set_loaded_modules ?c ?l) ?l')
    with (set_loaded_modules c l'). rewrite !context_modules_count.
  cbn [loaded_modules set_loaded_modules]. unfold unlink. apply Z.add_le_mono_r.
  induction (filter _ (loaded_modules ctx)) as [|x l IH]; [done|].
  destruct (decide (x = m)) as [->|Hx].
  - rewrite filter_cons_False by naive_solver. csimpl. case_decide; lia.
  - rewrite filter_cons_True by done. csimpl. case_decide; lia.
Qed.

(** ** The invariant of cycle removal *)

(** The references the collector cannot trace: the external ones and those
    of the native containers. *)
Definition root_count (D : gmap ptr gc_data) (ext : ptr -> Z) (all : list ptr) (p : ptr) : Z :=
  ext p + refs_of unmarked_refs D all p.

Lemma class_unmarked_value u p :
  p ∈ class_unmarked u -> exists v, R_value v ∈ class_finalizer u /\ p ∈ JS_MarkValue v.
Proof.
  assert (Hl : forall vs : list JSValue, p ∈ vs ≫= JS_MarkValue ->
            exists v, R_value v ∈ R_value <$> vs /\ p ∈ JS_MarkValue v).
  { intros vs (v & Hp & Hv)%list_elem_of_bind. exists v. split; [|done].
    apply list_elem_of_fmap. eauto. }
  destruct u as [| | | | | | | | | | | | | | | | | | | | | | | | | | |[vs|]|[bs|]|[[vs c]|]|[vs|]|[vs|]|[vs|]];
    simpl; try (by intros ?%not_elem_of_nil); try apply Hl.
  - intros (chain & Hp & Hc)%list_elem_of_bind. destruct (Hl chain Hp) as (v & Hv & Hpv).
    exists v. split; [|done]. apply list_elem_of_bind. eauto.
  - rewrite elem_of_app. intros [Hp|Hp].
    + destruct (Hl vs Hp) as (v & Hv & Hpv). exists v. rewrite elem_of_app. eauto.
    + exists c. rewrite elem_of_app, list_elem_of_singleton. eauto.
Qed.

Lemma unmarked_owner (D : gmap ptr gc_data) q dq p :
  typed D -> D !! q = Some dq -> p ∈ unmarked_refs dq -> exists d, D !! p = Some d /\ is_owner d = true.
Proof.
  intros HD Hq Hp.
  assert (Hv : exists v, R_value v ∈ free_refs dq /\ p ∈ JS_MarkValue v).
  { destruct dq as [sh props u| | | | | | |]; simpl in Hp; try by apply not_elem_of_nil in Hp.
    assert (Hv : exists v, R_value v ∈ class_finalizer u /\ p ∈ JS_MarkValue v)
      by (by apply class_unmarked_value).
    destruct Hv as (v & Hv & Hpv). exists v. split; [|done].
    cbn [free_refs]. rewrite !elem_of_app. tauto. }
  destruct Hv as (v & Hv & Hpv). destruct (HD q dq Hq) as [_ Hok].
  rewrite Forall_forall in Hok. specialize (Hok _ Hv).
  destruct v as [x|x|x| |]; simpl in Hpv;
    try (apply list_elem_of_singleton in Hpv as ->); try (by apply not_elem_of_nil in Hpv);
    specialize (Hok x _ eq_refl); destruct (D !! x) as [d|]; try done;
    exists d; (split; [done|]); rewrite is_owner_kind; injection Hok as ->; done.
Qed.

Section freeing.
(** The graph at the start of the phase, with the external counts, marks,
    weak counts and the zombies of earlier collections; [all] enumerates
    the graph and [L] the objects to keep. *)
Context (D : gmap ptr gc_data) (ext wk : ptr -> Z) (mk0 : ptr -> bool)
        (Zmb : gmap ptr gcobj) (all L : list ptr).
Context (HD : typed D) (Hext : forall p, 0 <= ext p)
        (Hall : NoDup all) (Hdom : forall p, is_Some (D !! p) <-> p ∈ all)
        (HL : forall p, p ∈ L <-> reachable D (root_count D ext all) p)
        (HZ : forall p o m, D !! p = None -> Zmb !! p = Some o ->
               set_data o (unlink_module_data m (data o)) = o).

Notation rx := (root_count D ext all).

Definition garbage (p : ptr) : Prop := is_Some (D !! p) /\ ~ reachable D rx p.

(** The graph with the freed modules [um] unlinked. *)
Definition graph_now (um : list ptr) : gmap ptr gc_data := prune um <$> D.

(** The references to [p] held by objects that are not freed yet. *)
Definition held (um fr : list ptr) (p : ptr) : Z :=
  refs_of held_refs (graph_now um) (filter (fun q => q ∉ fr) all) p.

(** The references to [p] that remain: external, held by objects not freed
    yet, and pending releases. *)
Definition remaining (um fr : list ptr) (pend : list gcref) (p : ptr) : Z :=
  ext p + held um fr p + countZ p (ptrs pend).

(** [curs] are being freed, [fr] have dropped (or are dropping) their
    references, [um] are the unlinked modules, [pend] the references about
    to be dropped; [ex] is exempt from the positivity of the counts. *)
Record free_inv (ex : option ptr) (curs fr um : list ptr) (pend : list gcref)
    (rt : JSRuntime) : Prop := {
  fi_fr : forall p, p ∈ fr -> garbage p;
  fi_um : forall p, p ∈ um -> p ∈ fr;
  fi_curs : forall p, p ∈ curs -> p ∈ fr;
  fi_live : forall p d, D !! p = Some d -> p ∉ fr ->
    heap rt !! p = Some (GCObj (remaining um fr pend p) (mk0 p) (wk p) false (prune um d));
  fi_cur : forall p d, p ∈ curs -> D !! p = Some d -> exists o,
    heap rt !! p = Some o /\ remaining um fr pend p <= ref_count o /\
    weakref_count o = wk p /\ kind_of (data o) = kind_of d /\
    (is_js_object d = true -> free_mark o = true);
  fi_zombie : forall p d o, p ∈ fr -> p ∉ curs -> D !! p = Some d ->
    heap rt !! p = Some o ->
    p ∈ gc_zero_ref_count_list rt /\ is_owner d = true /\
    weakref_count o = wk p /\ kind_of (data o) = kind_of d /\
    (is_js_object d = true ->
       free_mark o = true /\ data o = JS_GC_OBJ_TYPE_JS_OBJECT None [] U_none);
  fi_gone : forall p, p ∈ fr -> heap rt !! p = None ->
    p ∉ ptrs pend /\ forall q, q ∉ fr -> p ∉ kids_of held_refs (graph_now um) q;
  fi_old : forall p, D !! p = None -> heap rt !! p = Zmb !! p;
  fi_pend : Forall (ref_ok D) pend;
  fi_pos : forall p d, ex <> Some p -> D !! p = Some d -> p ∉ fr -> is_owner d = false ->
    0 < remaining um fr pend p;
  fi_gc : gc_obj_list rt = L;
  fi_nodup : NoDup (tmp_obj_list rt ++ gc_zero_ref_count_list rt);
  fi_tmp : forall p, p ∈ tmp_obj_list rt -> garbage p /\ (p ∈ fr -> p ∈ curs);
  fi_zero : forall p, p ∈ gc_zero_ref_count_list rt ->
    garbage p /\ (p ∈ fr -> p ∉ curs -> is_Some (heap rt !! p)) /\
    (p ∉ fr -> forall d, D !! p = Some d -> is_owner d = false);
  fi_all : forall p, garbage p -> p ∉ fr ->
    p ∈ tmp_obj_list rt ++ gc_zero_ref_count_list rt;
  fi_dead : forall p d, p ∈ fr -> D !! p = Some d -> is_owner d = false ->
    remaining um fr pend p = 0;
  fi_weak : forall p d, p ∈ fr -> D !! p = Some d -> heap rt !! p = None ->
    is_js_object d && negb (wk p =? 0) = false;
}.

Lemma held_nonneg um fr p : 0 <= held um fr p.
Proof. apply refs_nonneg. Qed.

Lemma remaining_nonneg um fr pend p : 0 <= remaining um fr pend p.
Proof.
  unfold remaining. specialize (Hext p). pose proof (held_nonneg um fr p).
  pose proof (countZ_nonneg p (ptrs pend)). lia.
Qed.

Lemma kids_now um p d : D !! p = Some d -> kids_of held_refs (graph_now um) p = held_refs (prune um d).
Proof. intros Hd. unfold kids_of, graph_now. by rewrite lookup_fmap, Hd. Qed.

Lemma kids_now_none um p : D !! p = None -> kids_of held_refs (graph_now um) p = [].
Proof. intros Hd. unfold kids_of, graph_now. by rewrite lookup_fmap, Hd. Qed.

(** Freeing [p] turns the references it holds into pending ones. *)
Lemma held_begin um fr p q :
  is_Some (D !! p) -> p ∉ fr ->
  held um fr q = countZ q (kids_of held_refs (graph_now um) p) + held um (p :: fr) q.
Proof.
  intros Hp Hfr. unfold held. rewrite <- refs_cons. apply refs_Permutation.
  apply NoDup_Permutation.
  - by apply NoDup_filter.
  - apply NoDup_cons. split; [|by apply NoDup_filter].
    rewrite list_elem_of_filter. set_solver.
  - intros x. rewrite elem_of_cons, !list_elem_of_filter, <- !Hdom.
    destruct (decide (x = p)) as [->|]; set_solver.
Qed.

Lemma held_mono um fr fr' q :
  (forall p, p ∈ fr -> p ∈ fr') -> held um fr' q <= held um fr q.
Proof.
  intros Hsub. unfold held, refs_of. clear Hall Hdom HL. induction all as [|x l IH]; [done|].
  rewrite !filter_cons. pose proof (countZ_nonneg q (kids_of held_refs (graph_now um) x)).
  destruct (decide (x ∉ fr')) as [H1|H1], (decide (x ∉ fr)) as [H2|H2];
    csimpl; rewrite ?countZ_app; try lia.
  exfalso. apply H2. intros Hx. by apply H1, Hsub.
Qed.

Lemma held_pos um fr p :
  0 < held um fr p -> exists q, q ∉ fr /\ is_Some (D !! q) /\ p ∈ kids_of held_refs (graph_now um) q.
Proof.
  unfold held. intros (q & Hq & Hp)%refs_pos.
  apply list_elem_of_filter in Hq as [Hq Hq']. rewrite <- Hdom in Hq'. by exists q.
Qed.

Lemma held_zero um fr p q :
  held um fr p = 0 -> q ∉ fr -> p ∉ kids_of held_refs (graph_now um) q.
Proof.
  intros H Hq Hp. destruct (D !! q) eqn:E.
  - assert (0 < held um fr p); [|lia]. apply refs_pos. exists q. split; [|done].
    apply list_elem_of_filter. split; [done|]. apply Hdom. eauto.
  - rewrite kids_now_none in Hp by done. by apply not_elem_of_nil in Hp.
Qed.

(** An object without remaining references is garbage: a reachable object
    is external or referenced by an object that is never freed. *)
Lemma kids_now_live um (fr : list ptr) p q :
  (forall x, x ∈ um -> x ∈ fr) -> (forall x, x ∈ fr -> garbage x) ->
  reachable D rx p -> q ∈ kids D p -> q ∈ kids_of held_refs (graph_now um) p.
Proof.
  intros Hum Hfr Hr Hq. unfold kids_of in Hq. destruct (D !! p) as [d|] eqn:E; [|by inversion Hq].
  rewrite (kids_now _ _ _ E). unfold held_refs. apply elem_of_app. left.
  destruct d; simpl in *; try done.
  unfold JS_MarkContext in *. rewrite !elem_of_app in *. destruct Hq as [Hq|Hq]; [|tauto].
  left. apply list_elem_of_bind in Hq as (m & Hm & Hin). simpl in Hm.
  apply list_elem_of_singleton in Hm as ->. apply list_elem_of_bind. exists m.
  split; [by left|]. apply list_elem_of_filter. split; [|done].
  intros Hx%Hum%Hfr. destruct Hx as [_ Hx]. apply Hx. eapply reach_child; [done|].
  unfold kids_of. rewrite E. simpl. unfold JS_MarkContext. rewrite elem_of_app. left.
  apply list_elem_of_bind. exists m. split; [by left|done].
Qed.

Lemma ext_root p : ext p <= rx p.
Proof. unfold root_count. pose proof (refs_nonneg unmarked_refs D all p). lia. Qed.

(** Native containers hold values only. *)
Lemma nonowner_root p d :
  D !! p = Some d -> is_owner d = false -> rx p = ext p.
Proof.
  intros Hd Hown. unfold root_count.
  destruct (decide (0 < refs_of unmarked_refs D all p)) as [Hpos|Hno].
  - apply refs_pos in Hpos as (q & _ & Hq). unfold kids_of in Hq.
    destruct (D !! q) as [dq|] eqn:Eq; [|by apply not_elem_of_nil in Hq].
    destruct (unmarked_owner D q dq p HD Eq Hq) as (d' & Hd' & Ho). congruence.
  - pose proof (refs_nonneg unmarked_refs D all p). lia.
Qed.

Lemma remaining_zero_garbage ex curs fr um pend rt p d :
  free_inv ex curs fr um pend rt -> D !! p = Some d -> is_owner d = false ->
  remaining um fr pend p = 0 -> garbage p.
Proof.
  intros Hi Hd Hown H0. split; [eauto|]. intros Hr.
  pose proof (held_nonneg um fr p). pose proof (countZ_nonneg p (ptrs pend)).
  unfold remaining in H0. specialize (Hext p).
  destruct Hr as [p _ Hpos | p c Hr Hc]; [rewrite (nonowner_root p d Hd Hown) in Hpos; lia|].
  assert (Hfr : p ∉ fr) by (intros Hin%(fi_fr _ _ _ _ _ _ Hi); by destruct Hin).
  eapply (held_zero um fr c p); [lia|done|].
  eapply kids_now_live; [apply Hi..|done|done].
Qed.

Lemma garbage_not_L p : garbage p -> p ∉ L.
Proof. intros [_ Hr]. by rewrite HL. Qed.

(** *** Releasing one reference *)

Lemma remaining_cons um fr r pend p :
  remaining um fr (r :: pend) p = remaining um fr pend p + countZ p (ref_ptr r).
Proof. unfold remaining, ptrs. csimpl. rewrite countZ_app. lia. Qed.

Lemma target_count r p k q :
  ref_target r = Some (p, k) -> countZ q (ref_ptr r) = if decide (q = p) then 1 else 0.
Proof. intros E. rewrite ref_ptr_target, E. simpl. case_decide; lia. Qed.

(** The target of a pending reference is allocated. *)
Lemma pending_alive ex curs fr um r pend rt p k :
  free_inv ex curs fr um (r :: pend) rt -> ref_target r = Some (p, k) ->
  exists d o, D !! p = Some d /\ kind_of d = k /\ heap rt !! p = Some o.
Proof.
  intros Hi Ht. pose proof (fi_pend _ _ _ _ _ _ Hi) as Hp. inv_subst Hp.
  specialize (H1 p k Ht). destruct (D !! p) as [d|] eqn:Hd; [|done]. injection H1 as Hk.
  exists d. destruct (heap rt !! p) as [o|] eqn:Ho; [by exists o|]. exfalso.
  destruct (decide (p ∈ fr)) as [Hin|Hin].
  - destruct (fi_gone _ _ _ _ _ _ Hi p Hin Ho) as [Hgone _]. apply Hgone.
    unfold ptrs. csimpl. rewrite ref_ptr_target, Ht. left.
  - by rewrite (fi_live _ _ _ _ _ _ Hi p d Hd Hin) in Ho.
Qed.

Lemma decr_inv curs fr um r pend rt p k :
  free_inv None curs fr um (r :: pend) rt -> ref_target r = Some (p, k) ->
  exists o, heap rt !! p = Some o /\
    free_inv (Some p) curs fr um pend (upd_obj p (set_ref_count o (ref_count o - 1)) rt) /\
    (p ∉ fr -> ref_count o - 1 = remaining um fr pend p).
Proof.
  intros Hi Ht. destruct (pending_alive _ _ _ _ _ _ _ _ _ Hi Ht) as (d & o & Hd & Hk & Ho).
  exists o. split; [done|].
  assert (Hrem : forall q, remaining um fr (r :: pend) q =
            remaining um fr pend q + if decide (q = p) then 1 else 0)
    by (intros; rewrite remaining_cons; by erewrite target_count).
  assert (Hlive : p ∉ fr -> ref_count o - 1 = remaining um fr pend p).
  { intros Hfr. rewrite (fi_live _ _ _ _ _ _ Hi p d Hd Hfr) in Ho. injection Ho as <-.
    simpl. rewrite Hrem, decide_True by done. lia. }
  split; [|done].
  assert (Hlook : forall q, q <> p -> heap (upd_obj p (set_ref_count o (ref_count o - 1)) rt) !! q
            = heap rt !! q) by (intros; simpl; by apply lookup_insert_ne).
  assert (Hlookp : heap (upd_obj p (set_ref_count o (ref_count o - 1)) rt) !! p
            = Some (set_ref_count o (ref_count o - 1))) by apply lookup_insert_eq.
  destruct Hi. split; try done.
  - intros q e He Hfr. destruct (decide (q = p)) as [->|Hne].
    + rewrite Hlookp. specialize (fi_live0 p e He Hfr). rewrite Ho in fi_live0.
      injection fi_live0 as ->. simpl in *. unfold set_ref_count; simpl.
      by rewrite (Hlive Hfr).
    + rewrite Hlook, (fi_live0 q e He Hfr), Hrem, decide_False, Z.add_0_r by done. done.
  - intros q e Hq He. destruct (fi_cur0 q e Hq He) as (o' & Ho' & Hle & Hr).
    rewrite Hrem in Hle. destruct (decide (q = p)) as [->|Hne].
    + rewrite Hlookp. rewrite Ho in Ho'. injection Ho' as <-.
      eexists; split; [done|]. simpl. split; [lia|done].
    + rewrite Hlook by done. exists o'. split; [done|]. split; [lia|done].
  - intros q e o' Hq Hqc He Ho'. destruct (decide (q = p)) as [->|Hne].
    + rewrite Hlookp in Ho'. injection Ho' as <-. by apply (fi_zombie0 p e o).
    + rewrite Hlook in Ho' by done. by apply (fi_zombie0 q e o').
  - intros q Hq Hno. destruct (decide (q = p)) as [->|Hne]; [by rewrite Hlookp in Hno|].
    rewrite Hlook in Hno by done. destruct (fi_gone0 q Hq Hno) as [Hg1 Hg2].
    split; [|done]. unfold ptrs in *. csimpl in Hg1. set_solver.
  - intros q Hq. rewrite Hlook by (intros ->; congruence). by apply fi_old0.
  - by inv_subst fi_pend0.
  - intros q e Hex He Hfr Hown. specialize (fi_pos0 q e ltac:(done) He Hfr Hown).
    rewrite Hrem, decide_False in fi_pos0 by congruence. lia.
  - intros q Hq. destruct (fi_zero0 q Hq) as (Hz1 & Hz2 & Hz3). split; [done|].
    split; [|done]. intros H1 H2. destruct (decide (q = p)) as [->|Hne].
    + rewrite Hlookp. eauto.
    + rewrite Hlook by done. by apply Hz2.
  - intros q e Hq He Hown. specialize (fi_dead0 q e Hq He Hown). rewrite Hrem in fi_dead0.
    pose proof (remaining_nonneg um fr pend q). case_decide; lia.
  - intros q e Hq He Hno. destruct (decide (q = p)) as [->|Hne]; [by rewrite Hlookp in Hno|].
    rewrite Hlook in Hno by done. by apply (fi_weak0 q e).
Qed.

Lemma free_inv_unex curs fr um pend rt p :
  free_inv (Some p) curs fr um pend rt ->
  (forall d, D !! p = Some d -> p ∉ fr -> is_owner d = false -> 0 < remaining um fr pend p) ->
  free_inv None curs fr um pend rt.
Proof.
  intros [] Hp. split; try done. intros q d _ Hd Hfr Hown.
  destruct (decide (q = p)) as [->|Hne]; [by eapply Hp|]. apply (fi_pos0 q d); congruence.
Qed.

(** *** Freeing one object: the references become pending *)

Lemma begin_inv ex curs fr um pend rt p d o' :
  free_inv ex curs fr um pend rt -> (ex = None \/ ex = Some p) ->
  D !! p = Some d -> p ∉ fr -> garbage p ->
  (is_owner d = false -> remaining um fr pend p = 0) ->
  ref_count o' = remaining um fr pend p -> weakref_count o' = wk p ->
  kind_of (data o') = kind_of d -> (is_js_object d = true -> free_mark o' = true) ->
  free_inv None (p :: curs) (p :: fr) um (free_refs (prune um d) ++ pend) (upd_obj p o' rt).
Proof.
  intros Hi Hex Hd Hfr Hgb Hown0 Hrc Hw Hk Hfm.
  destruct (HD p d Hd) as [Hwf Hok].
  assert (Hrem : forall q, remaining um (p :: fr) (free_refs (prune um d) ++ pend) q =
                           remaining um fr pend q).
  { intros q. unfold remaining. rewrite ptrs_app, countZ_app.
    rewrite (held_begin um fr p q) by eauto. rewrite (kids_now um p d Hd).
    rewrite countZ_free by (by rewrite prune_wf). lia. }
  assert (Hlook : forall q, q <> p -> heap (upd_obj p o' rt) !! q = heap rt !! q)
    by (intros; simpl; by apply lookup_insert_ne).
  assert (Hlookp : heap (upd_obj p o' rt) !! p = Some o') by apply lookup_insert_eq.
  destruct Hi. split; try done.
  - intros q [->|Hq]%elem_of_cons; [done|by apply fi_fr0].
  - intros q Hq. right. by apply fi_um0.
  - intros q [->|Hq]%elem_of_cons; [by left|right; by apply fi_curs0].
  - intros q e He Hq. apply not_elem_of_cons in Hq as [Hne Hq].
    rewrite Hrem, Hlook by done. by apply fi_live0.
  - intros q e Hq He. rewrite Hrem. destruct (decide (q = p)) as [->|Hne].
    + exists o'. rewrite Hd in He. injection He as <-. rewrite Hrc.
      split_and!; try done; lia.
    + rewrite Hlook by done. apply fi_cur0; [|done]. by apply elem_of_cons in Hq as [->|].
  - intros q e o Hq Hqc He Ho. apply not_elem_of_cons in Hqc as [Hne Hqc].
    apply elem_of_cons in Hq as [->|Hq]; [done|].
    rewrite Hlook in Ho by done. by apply (fi_zombie0 q e o).
  - intros q Hq Hno. destruct (decide (q = p)) as [->|Hne]; [by rewrite Hlookp in Hno|].
    rewrite Hlook in Hno by done. apply elem_of_cons in Hq as [->|Hq]; [done|].
    destruct (fi_gone0 q Hq Hno) as [Hg1 Hg2].
    split; [|intros x Hx; apply Hg2; by apply not_elem_of_cons in Hx as [_ ?]].
    rewrite ptrs_app, elem_of_app. intros [Hin|Hin]; [|done].
    apply (Hg2 p Hfr). rewrite (kids_now um p d Hd).
    by rewrite <- (free_held_Permutation (prune um d)) by (by rewrite prune_wf).
  - intros q Hq. rewrite Hlook by congruence. by apply fi_old0.
  - apply Forall_app. split; [|done]. apply Forall_forall. intros r Hr%prune_refs.
    rewrite Forall_forall in Hok. by apply Hok.
  - intros q e _ He Hq Hown. apply not_elem_of_cons in Hq as [Hne Hq].
    rewrite Hrem. apply (fi_pos0 q e); try done. destruct Hex; congruence.
  - intros q Hq. destruct (fi_tmp0 q Hq) as [Hq1 Hq2]. split; [done|].
    intros [->|Hq3]%elem_of_cons; [by left|right; by apply Hq2].
  - intros q Hq. destruct (fi_zero0 q Hq) as (Hz1 & Hz2 & Hz3). split; [done|].
    split.
    + intros H1 H2. apply not_elem_of_cons in H2 as [Hne H2].
      apply elem_of_cons in H1 as [->|H1]; [done|].
      rewrite Hlook by done. by apply Hz2.
    + intros H1. apply not_elem_of_cons in H1 as [_ H1]. by apply Hz3.
  - intros q Hq Hq2. apply not_elem_of_cons in Hq2 as [_ Hq2]. by apply fi_all0.
  - intros q e Hq He Hown. rewrite Hrem. apply elem_of_cons in Hq as [->|Hq].
    + apply Hown0. congruence.
    + by apply (fi_dead0 q e).
  - intros q e Hq He Hno. destruct (decide (q = p)) as [->|Hne]; [by rewrite Hlookp in Hno|].
    rewrite Hlook in Hno by done. apply elem_of_cons in Hq as [->|Hq]; [done|].
    by apply (fi_weak0 q e).
Qed.

(** *** Freeing one object: the end *)

Lemma unlink_L p : garbage p -> unlink p L = L.
Proof. intros Hg. by apply unlink_notin, garbage_not_L. Qed.

Lemma NoDup_unlink2 p (l1 l2 : list ptr) :
  NoDup (l1 ++ l2) -> NoDup (unlink p l1 ++ unlink p l2).
Proof. rewrite <- unlink_app. apply NoDup_unlink. Qed.

(** The structure has no reference left and is freed. *)
Lemma finish_free curs fr um pend rt p :
  free_inv None (p :: curs) fr um pend rt -> p ∉ curs ->
  remaining um fr pend p = 0 ->
  (forall d, D !! p = Some d -> is_js_object d && negb (wk p =? 0) = false) ->
  free_inv None curs fr um pend (js_free_rt p (list_del p rt)).
Proof.
  intros Hi Hpc H0 Hweak.
  assert (Hp : p ∈ fr) by (apply (fi_curs _ _ _ _ _ _ Hi); by left).
  assert (Hg : garbage p) by (by apply (fi_fr _ _ _ _ _ _ Hi)).
  pose proof (held_nonneg um fr p). pose proof (countZ_nonneg p (ptrs pend)).
  pose proof (Hext p).
  assert (Hlook : forall q, q <> p -> heap (js_free_rt p (list_del p rt)) !! q = heap rt !! q)
    by (intros; simpl; by apply lookup_delete_ne).
  destruct Hi. split; simpl; try done.
  - intros q Hq. apply fi_curs0. by right.
  - intros q d Hd Hq. rewrite lookup_delete_ne by congruence. by apply fi_live0.
  - intros q d Hq Hd. rewrite lookup_delete_ne by congruence. apply fi_cur0; [by right|done].
  - intros q d o Hq Hqc Hd Ho. destruct (decide (q = p)) as [->|Hne].
    { by rewrite lookup_delete_eq in Ho. }
    rewrite lookup_delete_ne in Ho by done. rewrite elem_of_unlink.
    destruct (fi_zombie0 q d o) as (Hz & Hrest); try done.
    by rewrite not_elem_of_cons.
  - intros q Hq Ho. destruct (decide (q = p)) as [->|Hne].
    + split; [apply countZ_zero; unfold remaining in H0; lia|].
      intros x Hx. apply (held_zero um fr); [|done]. unfold remaining in H0. lia.
    + rewrite lookup_delete_ne in Ho by done. by apply fi_gone0.
  - intros q Hq. rewrite lookup_delete_ne by (intros ->; destruct Hg as [[? ?] _]; congruence).
    by apply fi_old0.
  - by rewrite fi_gc0, unlink_L.
  - by apply NoDup_unlink2.
  - intros q [Hne Hq]%elem_of_unlink. destruct (fi_tmp0 q Hq) as [? Hc]. split; [done|].
    intros Hqf. specialize (Hc Hqf). by apply elem_of_cons in Hc as [->|].
  - intros q [Hne Hq]%elem_of_unlink. destruct (fi_zero0 q Hq) as (Hz1 & Hz2 & Hz3).
    split; [done|]. split; [|done]. intros Hqf Hqn. rewrite lookup_delete_ne by done.
    apply Hz2; [done|]. by rewrite not_elem_of_cons.
  - intros q Hq Hq2. rewrite <- unlink_app, elem_of_unlink.
    split; [congruence|]. by apply fi_all0.
  - intros q e Hq He Hno. destruct (decide (q = p)) as [->|Hne]; [by apply Hweak|].
    rewrite lookup_delete_ne in Hno by done. by apply (fi_weak0 q e).
Qed.

(** The structure is still referenced (or weakly referenced): it becomes a
    zombie until the end of the phase. *)
Lemma finish_zombie curs fr um pend rt p d o' :
  free_inv None (p :: curs) fr um pend rt -> p ∉ curs ->
  D !! p = Some d -> is_owner d = true ->
  weakref_count o' = wk p -> kind_of (data o') = kind_of d ->
  (is_js_object d = true ->
     free_mark o' = true /\ data o' = JS_GC_OBJ_TYPE_JS_OBJECT None [] U_none) ->
  free_inv None curs fr um pend (add_tail_zero p (list_del p (upd_obj p o' rt))).
Proof.
  intros Hi Hpc Hd Hown Hw Hk Hz.
  assert (Hp : p ∈ fr) by (apply (fi_curs _ _ _ _ _ _ Hi); by left).
  assert (Hg : garbage p) by (by apply (fi_fr _ _ _ _ _ _ Hi)).
  destruct Hi. split; simpl; try done.
  - intros q Hq. apply fi_curs0. by right.
  - intros q e He Hq. rewrite lookup_insert_ne by congruence. by apply fi_live0.
  - intros q e Hq He. rewrite lookup_insert_ne by congruence. apply fi_cur0; [by right|done].
  - intros q e o Hq Hqc He Ho. rewrite elem_of_app, list_elem_of_singleton, elem_of_unlink.
    destruct (decide (q = p)) as [->|Hne].
    + rewrite lookup_insert_eq in Ho. injection Ho as <-. rewrite Hd in He.
      injection He as <-. split; [by right|]. done.
    + rewrite lookup_insert_ne in Ho by done.
      destruct (fi_zombie0 q e o) as (Hzl & Hrest); try done.
      { by rewrite not_elem_of_cons. }
      split; [by left|]. done.
  - intros q Hq Ho. destruct (decide (q = p)) as [->|Hne].
    { by rewrite lookup_insert_eq in Ho. }
    rewrite lookup_insert_ne in Ho by done. by apply fi_gone0.
  - intros q Hq. rewrite lookup_insert_ne by congruence. by apply fi_old0.
  - by rewrite fi_gc0, unlink_L.
  - rewrite app_assoc. apply NoDup_app. split; [by apply NoDup_unlink2|].
    split; [|apply NoDup_singleton]. intros x Hx.
    rewrite <- unlink_app, elem_of_unlink in Hx. rewrite list_elem_of_singleton. tauto.
  - intros q [Hne Hq]%elem_of_unlink. destruct (fi_tmp0 q Hq) as [? Hc]. split; [done|].
    intros Hqf. specialize (Hc Hqf). by apply elem_of_cons in Hc as [->|].
  - intros q. rewrite elem_of_app, list_elem_of_singleton, elem_of_unlink.
    intros [[Hne Hq]| ->].
    + destruct (fi_zero0 q Hq) as (Hz1 & Hz2 & Hz3).
      split; [done|]. split; [|done]. intros H1 H2. rewrite lookup_insert_ne by done.
      apply Hz2; [done|]. by rewrite not_elem_of_cons.
    + split; [done|]. split; [|done]. intros _ _. rewrite lookup_insert_eq. eauto.
  - intros q Hq Hq2. specialize (fi_all0 q Hq Hq2). rewrite !elem_of_app in *.
    rewrite !elem_of_unlink. assert (q <> p) by congruence. tauto.
  - intros q e Hq He Hno. destruct (decide (q = p)) as [->|Hne].
    { by rewrite lookup_insert_eq in Hno. }
    rewrite lookup_insert_ne in Hno by done. by apply (fi_weak0 q e).
Qed.

(** A freed module leaves the list of loaded modules of its context. *)
Lemma held_unlink m um fr q : q <> m -> held (m :: um) fr q = held um fr q.
Proof.
  intros Hne. unfold held, refs_of. induction (filter _ all) as [|x l IH]; [done|].
  csimpl. rewrite !countZ_app, IH. f_equal. destruct (D !! x) eqn:E.
  - rewrite !(kids_now _ _ _ E). by apply prune_count.
  - by rewrite !kids_now_none.
Qed.

Lemma held_unlink_le m um fr q : held (m :: um) fr q <= held um fr q.
Proof.
  unfold held, refs_of. induction (filter _ all) as [|x l IH]; [done|].
  csimpl. rewrite !countZ_app. destruct (D !! x) eqn:E.
  - rewrite !(kids_now _ _ _ E). pose proof (prune_count_le m um g q). lia.
  - by rewrite !kids_now_none.
Qed.

Lemma kids_unlink m um q p : p ∈ kids_of held_refs (graph_now (m :: um)) q -> p ∈ kids_of held_refs (graph_now um) q.
Proof.
  destruct (D !! q) eqn:E.
  - rewrite !(kids_now _ _ _ E), <- !countZ_pos.
    pose proof (prune_count_le m um g p). lia.
  - by rewrite !kids_now_none.
Qed.

Lemma unlink_module_inv curs fr um pend rt m d :
  free_inv None (m :: curs) fr um pend rt -> D !! m = Some d -> kind_of d = K_module ->
  free_inv None (m :: curs) fr (m :: um) pend (unlink_module m rt).
Proof.
  intros Hi Hd Hk.
  assert (Hm : m ∈ fr) by (apply (fi_curs _ _ _ _ _ _ Hi); by left).
  assert (Hrem : forall q, q <> m -> remaining (m :: um) fr pend q = remaining um fr pend q).
  { intros q Hne. unfold remaining. by rewrite held_unlink. }
  assert (Hle : forall q, remaining (m :: um) fr pend q <= remaining um fr pend q).
  { intros q. unfold remaining. pose proof (held_unlink_le m um fr q). lia. }
  assert (Hkind : forall e, kind_of (unlink_module_data m e) = kind_of e) by (by intros []).
  assert (Hlk : forall q, heap (unlink_module m rt) !! q =
     (fun o => set_data o (unlink_module_data m (data o))) <$> heap rt !! q)
    by (intros; apply lookup_fmap).
  destruct Hi. split; try done.
  - intros q [->|Hq]%elem_of_cons; [done|by apply fi_um0].
  - intros q e He Hq. rewrite Hlk, (fi_live0 q e He Hq). simpl. unfold set_data; simpl.
    rewrite prune_cons, Hrem by congruence. done.
  - intros q e Hq He. destruct (fi_cur0 q e Hq He) as (o & Ho & H1 & H2 & H3 & H4).
    rewrite Hlk, Ho. simpl. eexists; split; [done|]. simpl. rewrite Hkind.
    specialize (Hle q). split_and!; try done; lia.
  - intros q e o Hq Hqc He Ho. rewrite Hlk in Ho.
    destruct (heap rt !! q) as [o1|] eqn:Ho1; [|done]. injection Ho as <-.
    destruct (fi_zombie0 q e o1 Hq Hqc He Ho1) as (Hz1 & Hz2 & Hz3 & Hz4 & Hz5).
    simpl. rewrite Hkind. split_and!; try done. intros Hj. destruct (Hz5 Hj) as [? ->]. done.
  - intros q Hq Ho. rewrite Hlk in Ho. apply fmap_None in Ho.
    destruct (fi_gone0 q Hq Ho) as [Hg1 Hg2]. split; [done|].
    intros x Hx Hin. by apply (Hg2 x Hx), (kids_unlink m).
  - intros q Hq. rewrite Hlk, (fi_old0 q Hq). destruct (Zmb !! q) as [o|] eqn:E; [|done].
    simpl. f_equal. by apply (HZ q).
  - intros q e Hex He Hq Hown. rewrite Hrem by congruence. by apply (fi_pos0 q e).
  - intros q Hq. destruct (fi_zero0 q Hq) as (Hz1 & Hz2 & Hz3). split; [done|].
    split; [|done]. intros H1 H2. rewrite Hlk. by apply fmap_is_Some, Hz2.
  - intros q e Hq He Hown. specialize (fi_dead0 q e Hq He Hown). specialize (Hle q).
    pose proof (remaining_nonneg (m :: um) fr pend q). lia.
  - intros q e Hq He Hno. rewrite Hlk in Hno. apply fmap_None in Hno. by apply (fi_weak0 q e).
Qed.

(** *** Every release preserves the invariant *)

Notation RC := JS_GC_PHASE_REMOVE_CYCLES.

(** [rel] drops any pending reference of the class [lvl]: it never touches
    freed memory, and the objects it frees are added to [fr]. *)
Definition release_ok (lvl : gcref -> bool)
    (rel : gcref -> JSRuntime -> option JSRuntime) : Prop :=
  forall curs fr um r pend rt, lvl r = true -> free_inv None curs fr um (r :: pend) rt ->
  exists rt' fr', rel r rt = Some rt' /\ free_inv None curs fr' um pend rt' /\
    fr ⊆ fr' /\ tmp_obj_list rt' ⊆ tmp_obj_list rt.

Definition level0 (r : gcref) : bool :=
  match r with R_value _ | R_async _ => true | _ => false end.
Definition level1 (r : gcref) : bool :=
  match r with R_context _ => false | _ => true end.

Lemma release_all_ok lvl rel rs : release_ok lvl rel -> forallb lvl rs = true ->
  forall curs fr um pend rt, free_inv None curs fr um (rs ++ pend) rt ->
  exists rt' fr', release_all rel rs rt = Some rt' /\ free_inv None curs fr' um pend rt' /\
    fr ⊆ fr' /\ tmp_obj_list rt' ⊆ tmp_obj_list rt.
Proof.
  intros Hrel. induction rs as [|r rs IH]; intros Hl curs fr um pend rt Hi.
  { exists rt, fr. done. }
  simpl in Hl. apply andb_prop in Hl as [Hr Hl].
  destruct (Hrel curs fr um r (rs ++ pend) rt Hr Hi) as (rt1 & fr1 & E1 & Hi1 & Hs1 & Ht1).
  destruct (IH Hl _ _ _ _ _ Hi1) as (rt2 & fr2 & E2 & Hi2 & Hs2 & Ht2).
  exists rt2, fr2. simpl. rewrite E1. simpl. split; [done|]. split; [done|].
  split; by etrans.
Qed.

(** Dropping a reference to an object with an owner: only its count changes. *)
Lemma decr_owner curs fr um r pend rt p k :
  free_inv None curs fr um (r :: pend) rt -> ref_target r = Some (p, k) ->
  owner_kind k = true ->
  exists n rt', decr p rt = Some (n, rt') /\ free_inv None curs fr um pend rt' /\
    tmp_obj_list rt' = tmp_obj_list rt.
Proof.
  intros Hi Ht Hk. destruct (decr_inv _ _ _ _ _ _ _ _ Hi Ht) as (o & Ho & Hi' & _).
  destruct (pending_alive _ _ _ _ _ _ _ _ _ Hi Ht) as (d & _ & Hd & Hkd & _).
  eexists _, _. unfold decr. rewrite Ho. simpl. split; [done|]. split; [|done].
  apply free_inv_unex with p; [done|]. intros e He _ Hown.
  rewrite Hd in He. injection He as <-. rewrite is_owner_kind in Hown. congruence.
Qed.

Lemma free_value_ok curs fr um v pend rt :
  free_inv None curs fr um (R_value v :: pend) rt ->
  exists rt', JS_FreeValueRT RC v rt = Some rt' /\ free_inv None curs fr um pend rt' /\
    tmp_obj_list rt' = tmp_obj_list rt.
Proof.
  intros Hi. assert (Hskip : ref_target (R_value v) = None -> free_inv None curs fr um pend rt).
  { intros Hv. assert (Hr : forall q, remaining um fr (R_value v :: pend) q = remaining um fr pend q).
    { intros q. rewrite remaining_cons, ref_ptr_target, Hv. simpl. lia. }
    assert (Hp : ptrs (R_value v :: pend) = ptrs pend).
    { unfold ptrs. csimpl. change (JS_MarkValue v) with (ref_ptr (R_value v)).
      by rewrite ref_ptr_target, Hv. }
    destruct Hi. rewrite Hp in *. split; try done.
    - intros. rewrite <- Hr. by apply fi_live0.
    - intros. rewrite <- Hr. by apply fi_cur0.
    - by inv_subst fi_pend0.
    - intros. rewrite <- Hr. by eapply fi_pos0.
    - intros. rewrite <- Hr. by eapply fi_dead0. }
  destruct v as [p|p|p| |]; simpl;
    [destruct (decr_owner _ _ _ _ _ _ p _ Hi eq_refl eq_refl) as (n & rt' & -> & Hi' & Ht');
       simpl; exists rt'; unfold __JS_FreeValueRT; by case_decide ..
    | exists rt; split; [done|]; split; [by apply Hskip|done]
    | exists rt; split; [done|]; split; [by apply Hskip|done] ].
Qed.

Lemma async_func_free_ok curs fr um s pend rt :
  free_inv None curs fr um (R_async s :: pend) rt ->
  exists rt', async_func_free RC s rt = Some rt' /\ free_inv None curs fr um pend rt' /\
    tmp_obj_list rt' = tmp_obj_list rt.
Proof.
  intros Hi. destruct (decr_owner _ _ _ _ _ _ s _ Hi eq_refl eq_refl)
    as (n & rt' & E & Hi' & Ht').
  unfold async_func_free. rewrite E. simpl. exists rt'. by case_decide.
Qed.

Lemma release0_ok : release_ok level0 (release0 RC).
Proof.
  intros curs fr um r pend rt Hl Hi. destruct r as [v| | | |s]; try done; simpl.
  - destruct (free_value_ok _ _ _ _ _ _ Hi) as (rt' & E & Hi' & Ht). exists rt', fr.
    by rewrite Ht.
  - destruct (async_func_free_ok _ _ _ _ _ _ Hi) as (rt' & E & Hi' & Ht). exists rt', fr.
    by rewrite Ht.
Qed.

(** Dropping the last reference to an object that is not freed on its own
    (a shape, a variable reference, a context): the object is unreachable,
    its references are dropped in turn and its memory is freed. *)
Lemma drop_nonowner lvl rel curs fr um r pend rt p k :
  free_inv None curs fr um (r :: pend) rt -> ref_target r = Some (p, k) ->
  owner_kind k = false -> release_ok lvl rel ->
  exists n rt1 o d, decr p rt = Some (n, rt1) /\ heap rt1 !! p = Some o /\ ref_count o = n /\
    D !! p = Some d /\ kind_of d = k /\ data o = prune um d /\ 0 <= n /\
    heap rt !! p = Some (set_ref_count o (n + 1)) /\ tmp_obj_list rt1 = tmp_obj_list rt /\
    (0 < n -> free_inv None curs fr um pend rt1) /\
    (n = 0 -> forallb lvl (free_refs (prune um d)) = true ->
       exists rt2 fr', release_all rel (free_refs (prune um d)) rt1 = Some rt2 /\
         free_inv None curs fr' um pend (js_free_rt p (list_del p rt2)) /\
         fr ⊆ fr' /\ unlink p (tmp_obj_list rt2) ⊆ tmp_obj_list rt).
Proof.
  intros Hi Ht Hk Hrel. destruct (decr_inv _ _ _ _ _ _ _ _ Hi Ht) as (o & Ho & Hi' & Hn).
  destruct (pending_alive _ _ _ _ _ _ _ _ _ Hi Ht) as (d & _ & Hd & Hkd & _).
  assert (Hown : is_owner d = false) by (rewrite is_owner_kind; congruence).
  assert (Hfr : p ∉ fr).
  { intros Hin. pose proof (fi_dead _ _ _ _ _ _ Hi p d Hin Hd Hown) as H0.
    rewrite remaining_cons, (target_count r p k p Ht), decide_True in H0 by done.
    pose proof (remaining_nonneg um fr pend p). lia. }
  specialize (Hn Hfr). pose proof (remaining_nonneg um fr pend p) as Hge.
  set (o1 := set_ref_count o (ref_count o - 1)) in *.
  exists (ref_count o - 1), (upd_obj p o1 rt), o1, d.
  pose proof (fi_live _ _ _ _ _ _ Hi p d Hd Hfr) as Hlv. rewrite Ho in Hlv.
  unfold decr. rewrite Ho. simpl. rewrite lookup_insert_eq.
  split_and!; try done.
  - by injection Hlv as ->.
  - lia.
  - f_equal. unfold o1, set_ref_count; simpl. replace (ref_count o - 1 + 1) with (ref_count o) by lia.
    by destruct o.
  - intros Hpos. apply free_inv_unex with p; [done|]. intros. lia.
  - intros H0 Hl.
    assert (Hg : garbage p) by (eapply remaining_zero_garbage; [exact Hi'|eauto|done|lia]).
    assert (Hb : free_inv None (p :: curs) (p :: fr) um (free_refs (prune um d) ++ pend)
                   (upd_obj p o1 rt)).
    { replace (upd_obj p o1 rt) with (upd_obj p o1 (upd_obj p o1 rt))
        by (unfold upd_obj; simpl; by rewrite insert_insert_eq).
      injection Hlv as Hlv.
      apply begin_inv with (ex := Some p); try done; try (by right); simpl; try lia;
        rewrite Hlv; simpl; try done; [by rewrite prune_kind|].
      intros Hj. by destruct d. }
    destruct (release_all_ok _ _ _ Hrel Hl _ _ _ _ _ Hb) as (rt2 & fr' & E2 & Hi2 & Hs2 & Ht2).
    exists rt2, fr'. split; [done|]. split; [|split].
    + pose proof (remaining_nonneg um fr' pend p). apply finish_free; [done| | |].
      { intros Hc. by apply Hfr, (fi_curs _ _ _ _ _ _ Hi). }
      { assert (held um fr' p <= held um fr p)
          by (apply held_mono; intros x Hx; apply Hs2; by right).
        unfold remaining in *. lia. }
      intros e He. rewrite Hd in He. injection He as <-. by destruct d.
    + intros x Hx. apply Hs2. by right.
    + intros x Hx. apply elem_of_unlink in Hx as [_ Hx]. by apply Ht2 in Hx.
Qed.

Lemma js_free_shape_ok curs fr um sh pend rt :
  free_inv None curs fr um (R_shape sh :: pend) rt ->
  exists rt' fr', js_free_shape RC sh rt = Some rt' /\ free_inv None curs fr' um pend rt' /\
    fr ⊆ fr' /\ tmp_obj_list rt' ⊆ tmp_obj_list rt.
Proof.
  intros Hi.
  destruct (drop_nonowner _ _ _ _ _ _ _ _ sh K_shape Hi eq_refl eq_refl release0_ok)
    as (n & rt1 & o & d & E & Ho & Hrc & Hd & Hk & Hdata & Hn & _ & Htmp & Hpos & Hzero).
  unfold js_free_shape. rewrite E. simpl. case_decide as Hle.
  - destruct d; try done. destruct Hzero as (rt2 & fr' & E2 & Hi2 & Hs & Ht); [lia|by destruct proto|].
    unfold js_free_shape0. rewrite Ho. simpl. rewrite decide_True by lia. rewrite Hdata. simpl.
    simpl in E2. rewrite E2. simpl. eauto 10.
  - exists rt1, fr. rewrite Htmp. split; [done|]. split; [apply Hpos; lia|done].
Qed.

Lemma free_var_ref_ok curs fr um v pend rt :
  free_inv None curs fr um (R_var_ref v :: pend) rt ->
  exists rt' fr', free_var_ref RC v rt = Some rt' /\ free_inv None curs fr' um pend rt' /\
    fr ⊆ fr' /\ tmp_obj_list rt' ⊆ tmp_obj_list rt.
Proof.
  intros Hi.
  destruct (drop_nonowner _ _ _ _ _ _ _ _ v K_var_ref Hi eq_refl eq_refl release0_ok)
    as (n & rt1 & o & d & E & Ho & Hrc & Hd & Hk & Hdata & Hn & Hbefore & Htmp & Hpos & Hzero).
  unfold free_var_ref. rewrite Hbefore. simpl. rewrite decide_True by lia. rewrite E. simpl.
  case_decide as Hle.
  - destruct Hzero as (rt2 & fr' & E2 & Hi2 & Hs & Ht); [lia| |].
    { destruct d; try done. by destruct async_func. }
    rewrite Hdata. destruct d; try done; simpl in *; rewrite E2; simpl; eauto 10.
  - exists rt1, fr. rewrite Htmp. split; [done|]. split; [apply Hpos; lia|done].
Qed.

Lemma release1_ok : release_ok level1 (release1 RC).
Proof.
  intros curs fr um r pend rt Hl Hi. destruct r as [v|sh|v|c|s]; simpl; try done.
  - by apply (release0_ok _ _ _ (R_value v)).
  - by apply js_free_shape_ok.
  - by apply free_var_ref_ok.
  - by apply (release0_ok _ _ _ (R_async s)).
Qed.

Lemma context_level1 ctx : forallb level1 (free_context_refs ctx) = true.
Proof.
  apply forallb_forall. intros r Hr%list_elem_of_In.
  by apply context_refs_kinds in Hr as [(v & ->)|(sh & ->)].
Qed.

Lemma JS_FreeContext_ok curs fr um c pend rt :
  free_inv None curs fr um (R_context c :: pend) rt ->
  exists rt' fr', JS_FreeContext RC c rt = Some rt' /\ free_inv None curs fr' um pend rt' /\
    fr ⊆ fr' /\ tmp_obj_list rt' ⊆ tmp_obj_list rt.
Proof.
  intros Hi.
  destruct (drop_nonowner _ _ _ _ _ _ _ _ c K_context Hi eq_refl eq_refl release1_ok)
    as (n & rt1 & o & d & E & Ho & Hrc & Hd & Hk & Hdata & Hn & _ & Htmp & Hpos & Hzero).
  unfold JS_FreeContext. rewrite E. cbn -[free_refs]. case_decide as Hlt.
  - exists rt1, fr. rewrite Htmp. split; [done|]. split; [by apply Hpos|done].
  - destruct d; try done. destruct Hzero as (rt2 & fr' & E2 & Hi2 & Hs & Ht);
      [lia|apply context_level1|].
    rewrite Ho. cbn -[free_refs free_context_refs]. rewrite decide_True by lia. rewrite Hdata.
    cbn [prune free_refs] in *.
    rewrite E2. simpl. eauto 10.
Qed.

Lemma release_any_ok : release_ok (fun _ => true) (release RC).
Proof.
  intros curs fr um r pend rt Hl Hi. destruct r as [v|sh|v|c|s]; simpl.
  - by apply (release0_ok _ _ _ (R_value v)).
  - by apply js_free_shape_ok.
  - by apply free_var_ref_ok.
  - by apply JS_FreeContext_ok.
  - by apply (release0_ok _ _ _ (R_async s)).
Qed.

(** *** Freeing a garbage object *)

(** No garbage function is running ([async_func_free_frame] asserts it): a
    running function is referenced by the C stack. *)
Context (Hrun : forall p cf tv rf,
           D !! p = Some (JS_GC_OBJ_TYPE_ASYNC_FUNCTION false cf tv None rf) -> 0 < ext p).

Lemma drop_references fr um rt p d o' :
  free_inv None [] fr um [] rt -> D !! p = Some d -> p ∉ fr -> garbage p ->
  is_owner d = true -> ref_count o' = remaining um fr [] p -> weakref_count o' = wk p ->
  kind_of (data o') = kind_of d -> (is_js_object d = true -> free_mark o' = true) ->
  exists rt' fr' o, release_all (release RC) (free_refs (prune um d)) (upd_obj p o' rt) = Some rt' /\
    free_inv None [p] fr' um [] rt' /\ tmp_obj_list rt' ⊆ tmp_obj_list rt /\
    heap rt' !! p = Some o /\ remaining um fr' [] p <= ref_count o /\
    weakref_count o = wk p /\ kind_of (data o) = kind_of d /\
    (is_js_object d = true -> free_mark o = true).
Proof.
  intros Hi Hd Hfr Hg Hown Hrc Hw Hk Hfm.
  pose proof (begin_inv None [] fr um [] rt p d o' Hi ltac:(by left) Hd Hfr Hg
                ltac:(congruence) Hrc Hw Hk Hfm) as Hb.
  destruct (release_all_ok _ _ (free_refs (prune um d)) release_any_ok
              ltac:(apply forallb_forall; done) _ _ _ _ _ Hb)
    as (rt2 & fr' & E2 & Hi2 & Hs2 & Ht2).
  destruct (fi_cur _ _ _ _ _ _ Hi2 p d ltac:(by left) Hd) as (o & Ho & Hrest).
  exists rt2, fr', o. split; [done|]. split; [done|]. split; [done|]. done.
Qed.

(** [free_struct] ends the freeing of a bytecode, async function or module. *)
Lemma free_struct_ok fr um rt p d o :
  free_inv None [p] fr um [] rt -> D !! p = Some d -> is_owner d = true ->
  is_js_object d = false ->
  heap rt !! p = Some o -> remaining um fr [] p <= ref_count o ->
  weakref_count o = wk p -> kind_of (data o) = kind_of d ->
  exists rt', free_struct RC p rt = Some rt' /\ free_inv None [] fr um [] rt' /\
    tmp_obj_list rt' = unlink p (tmp_obj_list rt).
Proof.
  intros Hi Hd Hown Hj Ho Hle Hw Hk. unfold free_struct. simpl. rewrite Ho. simpl.
  case_decide as H.
  - eexists; split; [done|]. split; [|done].
    replace (list_del p rt) with (list_del p (upd_obj p o rt))
      by (unfold list_del, upd_obj; simpl; by rewrite insert_id).
    apply finish_zombie with d; try done; [apply not_elem_of_nil|by rewrite Hj].
  - eexists; split; [done|]. split; [|done]. apply finish_free; [done|apply not_elem_of_nil| |].
    + pose proof (remaining_nonneg um fr [] p). destruct (decide (ref_count o = 0)); [lia|tauto].
    + intros e He. rewrite Hd in He. injection He as <-. by rewrite Hj.
Qed.

Lemma free_object_ok fr um rt p d o :
  free_inv None [] fr um [] rt -> D !! p = Some d -> p ∉ fr -> garbage p ->
  is_js_object d = true -> heap rt !! p = Some o -> data o = prune um d ->
  ref_count o = remaining um fr [] p -> weakref_count o = wk p ->
  exists rt' fr', free_object RC p rt = Some rt' /\ free_inv None [] fr' um [] rt' /\
    (forall x, x ∈ tmp_obj_list rt' -> x <> p /\ x ∈ tmp_obj_list rt).
Proof.
  intros Hi Hd Hfr Hg Hj Ho Hdata Hrc Hw.
  assert (Hown : is_owner d = true) by (by destruct d).
  destruct (drop_references fr um rt p d (set_free_mark o)) as
    (rt2 & fr' & o2 & E2 & Hi2 & Ht2 & Ho2 & Hle & Hw2 & Hk2 & Hfm2); try done.
  { simpl. by rewrite Hdata, prune_kind. }
  unfold free_object. rewrite Ho. simpl. rewrite Hdata, E2. simpl. rewrite Ho2. simpl.
  set (o3 := set_data o2 (JS_GC_OBJ_TYPE_JS_OBJECT None [] U_none)).
  assert (Htmp : forall x, x ∈ unlink p (tmp_obj_list rt2) -> x <> p /\ x ∈ tmp_obj_list rt).
  { intros x [Hx Hx']%elem_of_unlink. apply Ht2 in Hx'. done. }
  case_decide as Hz.
  - eexists _, fr'. split; [done|]. split; [|done].
    replace (js_free_rt p (list_del p (upd_obj p o3 rt2))) with (js_free_rt p (list_del p rt2))
      by (unfold js_free_rt, list_del, upd_obj; simpl; by rewrite delete_insert_eq).
    apply finish_free; [done|apply not_elem_of_nil| |].
    + pose proof (remaining_nonneg um fr' [] p). lia.
    + intros e _. rewrite <- Hw2. destruct Hz as [_ ->]. by rewrite andb_false_r.
  - eexists _, fr'. split; [done|]. split; [|done].
    apply finish_zombie with d; try done; [apply not_elem_of_nil|by destruct d|].
    intros _. split; [|done]. simpl. by apply Hfm2.
Qed.

Lemma free_gc_object_ok fr um rt p d :
  free_inv None [] fr um [] rt -> D !! p = Some d -> p ∉ fr -> garbage p ->
  is_owner d = true ->
  exists rt' fr' um', free_gc_object RC p rt = Some rt' /\ free_inv None [] fr' um' [] rt' /\
    (forall x, x ∈ tmp_obj_list rt' -> x <> p /\ x ∈ tmp_obj_list rt).
Proof.
  intros Hi Hd Hfr Hg Hown. pose proof (fi_live _ _ _ _ _ _ Hi p d Hd Hfr) as Ho.
  set (o := GCObj _ _ _ _ _) in Ho. unfold free_gc_object. rewrite Ho. cbn [mbind option_bind].
  destruct (is_js_object d) eqn:Hj.
  { destruct (free_object_ok fr um rt p d o) as (rt' & fr' & E & Hi' & Ht); try done.
    exists rt', fr', um. split; [|done]. by destruct d. }
  destruct (drop_references fr um rt p d o) as
    (rt2 & fr' & o2 & E2 & Hi2 & Ht2 & Ho2 & Hle & Hw2 & Hk2 & _); try done.
  { simpl. apply prune_kind. }
  { congruence. }
  replace (upd_obj p o rt) with rt in E2
    by (unfold upd_obj; rewrite insert_id by done; by destruct rt).
  assert (Htmp : forall rt', tmp_obj_list rt' = unlink p (tmp_obj_list rt2) ->
            forall x, x ∈ tmp_obj_list rt' -> x <> p /\ x ∈ tmp_obj_list rt).
  { intros rt' -> x [Hx Hx']%elem_of_unlink. apply Ht2 in Hx'. done. }
  destruct (free_struct_ok fr' um rt2 p d o2) as (rt3 & E3 & Hi3 & Ht3); try done.
  destruct d; try done; cbn [prune is_owner data o] in *.
  - rewrite E2. cbn [mbind option_bind]. exists rt3, fr', um. split; [done|]. eauto.
  - case_decide as Hr.
    { exfalso. destruct Hr as [-> ->]. pose proof (Hrun _ _ _ _ Hd).
      destruct Hg as [? Hnr]. apply Hnr. apply reach_root; [done|].
      pose proof (ext_root p). lia. }
    rewrite E2. cbn [mbind option_bind]. exists rt3, fr', um. split; [done|]. eauto.
  - rewrite E2. cbn [mbind option_bind].
    pose proof (unlink_module_inv _ _ _ _ _ p _ Hi2 Hd eq_refl) as Hi4.
    destruct (free_struct_ok fr' (p :: um) (unlink_module p rt2) p _
                (set_data o2 (unlink_module_data p (data o2))) Hi4 Hd)
      as (rt5 & E5 & Hi5 & Ht5); try done.
    + simpl. by rewrite lookup_fmap, Ho2.
    + simpl. pose proof (held_unlink_le p um fr' p). unfold remaining in *. lia.
    + simpl. by destruct (data o2).
    + exists rt5, fr', (p :: um). split; [done|]. split; [done|]. by apply Htmp.
Qed.

(** A shape, variable reference or context waits for its owners. *)
Lemma set_aside_ok fr um rt p d :
  free_inv None [] fr um [] rt -> D !! p = Some d -> p ∉ fr -> garbage p ->
  is_owner d = false ->
  free_inv None [] fr um [] (add_tail_zero p (list_del p rt)).
Proof.
  intros Hi Hd Hfr Hg Hown. destruct Hi. split; simpl; try done.
  - intros q e o Hq Hqc He Ho. destruct (fi_zombie0 q e o Hq Hqc He Ho) as (Hz & Hrest).
    split; [|done]. rewrite elem_of_app, elem_of_unlink. left. split; [congruence|done].
  - by rewrite fi_gc0, unlink_L.
  - rewrite app_assoc. apply NoDup_app. split; [by apply NoDup_unlink2|].
    split; [|apply NoDup_singleton]. intros x Hx.
    rewrite <- unlink_app, elem_of_unlink in Hx. rewrite list_elem_of_singleton. tauto.
  - intros q [_ Hq]%elem_of_unlink. by apply fi_tmp0.
  - intros q. rewrite elem_of_app, list_elem_of_singleton, elem_of_unlink.
    intros [[_ Hq]| ->]; [by apply fi_zero0|]. split; [done|]. split; [done|].
    intros _ e He. congruence.
  - intros q Hq Hq2. specialize (fi_all0 q Hq Hq2). rewrite !elem_of_app in *.
    rewrite !elem_of_unlink, list_elem_of_singleton. destruct (decide (q = p)); tauto.
Qed.

Lemma free_cycles_loop_ok fuel : forall fr um rt,
  free_inv None [] fr um [] rt -> (length (tmp_obj_list rt) <= fuel)%nat ->
  exists rt' fr' um', free_cycles_loop fuel rt = Some rt' /\
    free_inv None [] fr' um' [] rt' /\ tmp_obj_list rt' = [].
Proof.
  induction fuel as [|fuel IH]; intros fr um rt Hi Hf; simpl.
  { destruct (tmp_obj_list rt) eqn:E; simpl in *; [|lia]. by exists rt, fr, um. }
  destruct (tmp_obj_list rt) as [|p l] eqn:Et; simpl; [by exists rt, fr, um|].
  destruct (fi_tmp _ _ _ _ _ _ Hi p) as [Hg Hfr]; [rewrite Et; by left|].
  assert (Hpf : p ∉ fr) by (intros ?%Hfr; by eapply not_elem_of_nil).
  pose proof Hg as [[d Hd] _].
  pose proof (fi_live _ _ _ _ _ _ Hi p d Hd Hpf) as Ho.
  pose proof (fi_nodup _ _ _ _ _ _ Hi) as Hnd. rewrite Et in Hnd.
  assert (Hlen : forall rt', NoDup (tmp_obj_list rt') ->
    (forall x, x ∈ tmp_obj_list rt' -> x <> p /\ x ∈ p :: l) ->
    (length (tmp_obj_list rt') <= fuel)%nat).
  { intros rt' Hn Hs. cut (length (tmp_obj_list rt') <= length l)%nat; [simpl in Hf; lia|].
    apply submseteq_length, NoDup_submseteq; [done|]. intros x Hx.
    destruct (Hs x Hx) as [? Hin]. by apply elem_of_cons in Hin as [->|]. }
  unfold free_cycles_body. rewrite Ho. cbn [mbind option_bind data]. rewrite prune_owner.
  destruct (is_owner d) eqn:Hown.
  - destruct (free_gc_object_ok fr um rt p d) as (rt1 & fr1 & um1 & E1 & Hi1 & Ht1); try done.
    rewrite E1. cbn [mbind option_bind]. apply (IH fr1 um1 rt1 Hi1).
    apply Hlen.
    + pose proof (fi_nodup _ _ _ _ _ _ Hi1) as Hn. by apply NoDup_app in Hn as (? & _).
    + intros x Hx. rewrite <- Et. by apply Ht1.
  - pose proof (set_aside_ok fr um rt p d Hi Hd Hpf Hg Hown) as Hi1.
    cbn [mbind option_bind]. apply (IH fr um _ Hi1). apply Hlen.
    + pose proof (fi_nodup _ _ _ _ _ _ Hi1) as Hn. by apply NoDup_app in Hn as (? & _).
    + simpl. rewrite Et. intros x Hx. apply elem_of_unlink in Hx. done.
Qed.

(** Live contexts lose no module. *)
Lemma prune_live curs fr um pend rt p d :
  free_inv None curs fr um pend rt -> reachable D rx p -> D !! p = Some d -> prune um d = d.
Proof.
  intros Hi Hr Hd. destruct d; simpl; try done.
  rewrite filter_all; [by destruct ctx|]. intros m Hm Hin. apply (fi_um _ _ _ _ _ _ Hi), (fi_fr _ _ _ _ _ _ Hi) in Hin as [_ Hin].
  apply Hin. eapply reach_child; [exact Hr|]. unfold kids_of. rewrite Hd. simpl.
  unfold JS_MarkContext. rewrite elem_of_app. left. apply list_elem_of_bind.
  exists m. split; [by left|done].
Qed.

(** *** The end of the first loop *)

Lemma kids_now_sub um p q :
  q ∈ kids_of held_refs (graph_now um) p -> q ∈ kids_of held_refs D p.
Proof.
  destruct (D !! p) as [d|] eqn:E; [|rewrite kids_now_none by done; by intros ?%not_elem_of_nil].
  rewrite (kids_now _ _ _ E). unfold kids_of. rewrite E. destruct (HD p d E) as [Hwf _].
  rewrite <- (free_held_Permutation d), <- (free_held_Permutation (prune um d))
    by (by rewrite ?prune_wf).
  unfold ptrs. rewrite !list_elem_of_bind. intros (r & Hq & Hr). exists r. split; [done|].
  by eapply prune_refs.
Qed.

Lemma garbage_ext p : garbage p -> ext p = 0.
Proof.
  intros [Hp Hn]. specialize (Hext p). destruct (decide (ext p = 0)); [done|].
  exfalso. apply Hn, reach_root; [done|]. pose proof (ext_root p). lia.
Qed.

Lemma unfreed_nonowner fr um rt p d :
  free_inv None [] fr um [] rt -> tmp_obj_list rt = [] ->
  garbage p -> p ∉ fr -> D !! p = Some d -> is_owner d = false.
Proof.
  intros Hi Ht Hg Hfr Hd. pose proof (fi_all _ _ _ _ _ _ Hi p Hg Hfr) as Hin.
  rewrite Ht in Hin. simpl in Hin.
  by apply (fi_zero _ _ _ _ _ _ Hi p Hin).
Qed.

(** The holder of a reference to an unfreed garbage object is an unfreed
    context, and the object a shape. *)
Lemma unfreed_holder fr um rt p :
  free_inv None [] fr um [] rt -> tmp_obj_list rt = [] -> garbage p -> p ∉ fr ->
  exists q dq, garbage q /\ q ∉ fr /\ D !! q = Some dq /\ kind_of dq = K_context /\
    kind_of <$> D !! p = Some K_shape.
Proof.
  intros Hi Ht Hg Hfr. pose proof Hg as [[d Hd] Hnr].
  pose proof (unfreed_nonowner _ _ _ _ _ Hi Ht Hg Hfr Hd) as Hown.
  pose proof (fi_pos _ _ _ _ _ _ Hi p d ltac:(done) Hd Hfr Hown) as Hpos.
  unfold remaining in Hpos. rewrite garbage_ext in Hpos by done. simpl in Hpos.
  destruct (held_pos um fr p) as (q & Hqf & [dq Hdq] & Hpq); [lia|].
  apply kids_now_sub in Hpq; unfold kids_of in Hpq; rewrite Hdq in Hpq.
  assert (Hgq : garbage q).
  { split; [eauto|]. intros Hr. apply Hnr. eapply reach_child; [done|]. unfold kids_of.
    rewrite Hdq. apply elem_of_app in Hpq as [Hpq|Hpq]; [done|].
    destruct (unmarked_owner D q dq p HD Hdq Hpq) as (d' & Hd' & Ho). congruence. }
  exists q, dq. split_and!; try done; destruct (typed_kid _ _ _ _ HD Hdq Hpq) as (r & k & Hr & Htg & Hk);
    pose proof (unfreed_nonowner _ _ _ _ _ Hi Ht Hgq Hqf Hdq) as Hownq;
    destruct (nonowner_refs dq r p k Hownq Hr Htg) as [Hko|[Hc Hs]]; try congruence;
    rewrite Hd in Hk; injection Hk as Hk; rewrite is_owner_kind in Hown; congruence.
Qed.

Lemma all_freed fr um rt p :
  free_inv None [] fr um [] rt -> tmp_obj_list rt = [] -> garbage p -> p ∈ fr.
Proof.
  intros Hi Ht Hg. destruct (decide (p ∈ fr)) as [|Hfr]; [done|]. exfalso.
  destruct (unfreed_holder _ _ _ _ Hi Ht Hg Hfr) as (q & dq & Hgq & Hqf & Hdq & Hkq & _).
  destruct (unfreed_holder _ _ _ _ Hi Ht Hgq Hqf) as (_ & _ & _ & _ & _ & _ & Hk).
  rewrite Hdq in Hk. simpl in Hk. congruence.
Qed.

(** Only the objects kept hold references. *)
Lemma held_end fr um rt p :
  free_inv None [] fr um [] rt -> (forall q, garbage q -> q ∈ fr) -> NoDup L ->
  held um fr p = refs_of held_refs D L p.
Proof.
  intros Hi Hfr HndL. unfold held.
  assert (Hperm : filter (fun q => q ∉ fr) all ≡ₚ L).
  { apply NoDup_Permutation; [by apply NoDup_filter|done|]. intros q.
    rewrite list_elem_of_filter, <- Hdom, HL. split.
    - intros [Hq Hs]. destruct (decide (q ∈ L)) as [HqL|HqL]; [by apply HL|].
      exfalso. apply Hq, Hfr. split; [done|]. by rewrite <- HL.
    - intros Hr. split; [intros Hq%(fi_fr _ _ _ _ _ _ Hi); by destruct Hq|].
      induction Hr as [|x c _ IH Hc]; [done|].
      by apply (typed_closed D x c HD IH), marked_held. }
  rewrite (refs_Permutation _ _ _ _ _ Hperm). unfold refs_of.
  assert (Hk : forall l, l ⊆ L -> l ≫= kids_of held_refs (graph_now um) = l ≫= kids_of held_refs D).
  { induction l as [|x l IH]; intros Hl; [done|]. csimpl.
    rewrite IH by (intros y Hy; apply Hl; by right). f_equal.
    assert (Hx : reachable D rx x) by (apply HL, Hl; by left).
    destruct (D !! x) as [d|] eqn:E.
    - rewrite (kids_now _ _ _ E). unfold kids_of. rewrite E.
      by rewrite (prune_live _ _ _ _ _ _ _ Hi Hx E).
    - rewrite kids_now_none by done. unfold kids_of. by rewrite E. }
  by rewrite Hk.
Qed.
End freeing.

(** *** The second loop *)

Lemma sweep_spec l : forall rt,
  NoDup l -> (forall p, p ∈ l -> exists o, heap rt !! p = Some o /\ is_owner (data o) = true) ->
  exists rt', sweep_loop l rt = Some rt' /\
    gc_obj_list rt' = gc_obj_list rt /\ tmp_obj_list rt' = tmp_obj_list rt /\
    (forall p, p ∉ l -> heap rt' !! p = heap rt !! p) /\
    (forall p o, p ∈ l -> heap rt !! p = Some o -> heap rt' !! p =
       if is_js_object (data o) && negb (weakref_count o =? 0)
       then Some (set_mark o false) else None).
Proof.
  induction l as [|p l IH]; intros rt Hnd Hl; simpl.
  { exists rt. split_and!; try done. by intros ? ? ?%not_elem_of_nil. }
  apply NoDup_cons in Hnd as [Hp Hnd].
  destruct (Hl p) as (o & Ho & Hown); [by left|].
  set (h := if is_js_object (data o) && negb (weakref_count o =? 0)
            then <[p := set_mark o false]> (heap rt) else delete p (heap rt)).
  assert (E : sweep_body p rt =
    Some (Runtime h (gc_obj_list rt) (tmp_obj_list rt) (gc_zero_ref_count_list rt))).
  { unfold sweep_body. rewrite Ho. simpl. rewrite Hown. unfold h.
    by destruct (is_js_object (data o) && negb (weakref_count o =? 0)). }
  assert (Hh : forall q, q <> p -> h !! q = heap rt !! q).
  { intros q Hq. unfold h. case_match; [by rewrite lookup_insert_ne|by rewrite lookup_delete_ne]. }
  destruct (IH (Runtime h (gc_obj_list rt) (tmp_obj_list rt) (gc_zero_ref_count_list rt)))
    as (rt' & E' & H1 & H2 & H3 & H4); [done| |].
  { intros q Hq. simpl. rewrite Hh by congruence. apply Hl. by right. }
  exists rt'. rewrite E. simpl. split_and!; try done.
  - intros q Hq. apply not_elem_of_cons in Hq as [Hne Hq]. rewrite H3 by done. simpl. by apply Hh.
  - intros q o' Hq Ho'. apply elem_of_cons in Hq as [->|Hq].
    + rewrite H3 by done. simpl. rewrite Ho in Ho'. injection Ho' as <-. unfold h.
      case_match; [by rewrite lookup_insert_eq|by rewrite lookup_delete_eq].
    + apply H4; [done|]. simpl. by rewrite Hh by congruence.
Qed.

(** ** Correctness of a collection *)

Definition running_rooted (ext : ptr -> Z) (D : gmap ptr gc_data) : Prop :=
  forall p cf tv rf,
    D !! p = Some (JS_GC_OBJ_TYPE_ASYNC_FUNCTION false cf tv None rf) -> 0 < ext p.

Section collection.
Context (ext : ptr -> Z) (rt : JSRuntime).
Context (Hready : gc_consistent ext rt) (Htyped : typed (graph rt))
        (Hrun : running_rooted ext (graph rt)).

Let D := graph rt.
Let rx := roots ext rt.
Let wk (p : ptr) : Z := match heap rt !! p with Some o => weakref_count o | None => 0 end.

Lemma zombie_unlink p o m :
  D !! p = None -> heap rt !! p = Some o -> set_data o (unlink_module_data m (data o)) = o.
Proof.
  intros Hd Ho. destruct (free_mark o) eqn:Hf.
  - pose proof (gr_zombie _ _ Hready p o Ho Hf) as E. rewrite E. simpl.
    destruct o; simpl in *. by rewrite E.
  - pose proof (graph_live rt p o Ho Hf). unfold D in Hd. congruence.
Qed.

(** Phase 3 starts with all garbage queued and nothing freed. *)
Lemma free_inv_start rt2 :
  (forall p, p ∈ gc_obj_list rt2 <-> reachable D rx p) ->
  (forall p, p ∈ tmp_obj_list rt2 <-> is_Some (D !! p) /\ ~ reachable D rx p) ->
  NoDup (gc_obj_list rt2 ++ tmp_obj_list rt2) -> gc_zero_ref_count_list rt2 = [] ->
  (forall p, heap rt2 !! p =
     (fun o => if free_mark o then o else set_mark o (bool_decide (p ∈ tmp_obj_list rt2)))
       <$> heap rt !! p) ->
  free_inv D ext wk (fun p => bool_decide (p ∈ tmp_obj_list rt2)) (heap rt)
    (gc_obj_list rt) (gc_obj_list rt2) None [] [] [] [] rt2.
Proof.
  intros Hl Ht Hnd Hz Hh. pose proof Hready as [Hlk Hnd0 _ _ _ Hc _ _ Ho1].
  assert (Hrem : forall p o, heap rt !! p = Some o -> free_mark o = false ->
            remaining D ext (gc_obj_list rt) [] [] [] p = ref_count o).
  { intros p o Ho Hf. rewrite (Hc p o Ho Hf). unfold remaining, held, ptrs. simpl.
    assert (Eg : graph_now D [] = D).
    { unfold graph_now. rewrite <- (map_fmap_id D) at 2. apply map_fmap_ext.
      intros. apply prune_nil. }
    rewrite Eg, filter_all by (intros; apply not_elem_of_nil). fold D. lia. }
  split; try (by intros ? ?%not_elem_of_nil); try (by intros ? ? ?%not_elem_of_nil);
    try (by intros ? ? ? ?%not_elem_of_nil).
  - intros p d Hd _. apply graph_lookup in Hd as Hd'. destruct Hd' as (o & Ho & Hf & Hdo).
    rewrite Hh, Ho. simpl. rewrite Hf, (Hrem p o Ho Hf), prune_nil. unfold set_mark, wk.
    by rewrite Ho, Hf, Hdo.
  - intros p Hp. rewrite Hh. destruct (heap rt !! p) as [o|] eqn:Ho; [|done]. simpl.
    destruct (free_mark o) eqn:Hf; [done|]. pose proof (graph_live rt p o Ho Hf).
    unfold D in Hp. congruence.
  - by constructor.
  - intros p d _ Hd _ Hown. apply graph_lookup in Hd as (o & Ho & Hf & Hdo).
    rewrite (Hrem p o Ho Hf). apply (Ho1 p o); congruence.
  - done.
  - rewrite Hz, app_nil_r. by apply NoDup_app in Hnd as (_ & _ & ?).
  - intros p Hp. split; [by apply Ht|]. by intros ?%not_elem_of_nil.
  - rewrite Hz. by intros ? ?%not_elem_of_nil.
  - intros p Hg _. rewrite Hz, app_nil_r. by apply Ht.
Qed.

Lemma collection_spec :
  exists rt', JS_RunGCInternal rt = Some rt' /\
    (forall p, p ∈ gc_obj_list rt' <-> reachable D rx p) /\ NoDup (gc_obj_list rt') /\
    tmp_obj_list rt' = [] /\ gc_zero_ref_count_list rt' = [] /\
    (forall p d, reachable D rx p -> D !! p = Some d ->
       heap rt' !! p = Some (GCObj (ext p + refs_of held_refs D (gc_obj_list rt') p) false (wk p) false d)) /\
    (forall p d, garbage D ext (gc_obj_list rt) p -> D !! p = Some d ->
       if is_js_object d && negb (wk p =? 0)
       then exists o, heap rt' !! p = Some o /\ free_mark o = true /\
              data o = JS_GC_OBJ_TYPE_JS_OBJECT None [] U_none
       else heap rt' !! p = None) /\
    (forall p, D !! p = None -> heap rt' !! p = heap rt !! p).
Proof.
  destruct (trial_delete_spec rx rt (consistent_trial ext rt Hready)) as (rt2 & E & Hl & Ht & Hnd & Hz & Hh).
  fold D in Hl, Ht. pose proof (free_inv_start rt2 Hl Ht Hnd Hz Hh) as Hi.
  pose proof Hready as [Hlk Hnd0 _ _ He _ _ _ _].
  unfold gc_trial_delete in E. unfold JS_RunGCInternal.
  destruct (gc_decref rt) as [rt1|]; [|done]. cbn [mbind option_bind] in *. rewrite E.
  cbn [mbind option_bind]. unfold gc_free_cycles.
  destruct (free_cycles_loop_ok D ext wk _ _ _ _ Htyped He Hnd0 Hlk Hl zombie_unlink Hrun
              (length (tmp_obj_list rt2)) _ _ _ Hi) as (rt3 & fr & um & E3 & Hi3 & Ht3); [done|].
  rewrite E3. cbn [mbind option_bind].
  assert (Hfr : forall p, p ∈ fr <-> garbage D ext (gc_obj_list rt) p).
  { intros p. split; [apply Hi3|]. by eapply all_freed. }
  pose proof (fi_nodup _ _ _ _ _ _ _ _ _ _ _ _ _ Hi3) as Hnz. rewrite Ht3 in Hnz. simpl in Hnz.
  assert (Hzl : forall p, p ∈ gc_zero_ref_count_list rt3 ->
            exists o, heap rt3 !! p = Some o /\ is_owner (data o) = true).
  { intros p Hp. destruct (fi_zero _ _ _ _ _ _ _ _ _ _ _ _ _ Hi3 p Hp) as (Hg & Hs & _).
    apply Hfr in Hg as Hpf. destruct (Hs Hpf) as [o Ho]; [apply not_elem_of_nil|].
    exists o. split; [done|]. destruct Hg as [[d Hd] _].
    destruct (fi_zombie _ _ _ _ _ _ _ _ _ _ _ _ _ Hi3 p d o Hpf (not_elem_of_nil p) Hd Ho)
      as (_ & Hown & _ & Hk & _).
    by rewrite is_owner_kind, Hk, <- is_owner_kind. }
  destruct (sweep_spec _ rt3 Hnz Hzl) as (rt4 & E4 & Hg4 & Ht4 & Hn4 & Hs4).
  rewrite E4. cbn [mbind option_bind]. eexists; split; [done|]. simpl.
  rewrite Hg4, Ht4, Ht3, (fi_gc _ _ _ _ _ _ _ _ _ _ _ _ _ Hi3).
  assert (Hnzl : forall p, p ∉ fr -> p ∉ gc_zero_ref_count_list rt3).
  { intros p Hp Hz'. destruct (fi_zero _ _ _ _ _ _ _ _ _ _ _ _ _ Hi3 p Hz') as (Hg & _).
    by apply Hfr in Hg. }
  split; [done|]. split; [by apply NoDup_app in Hnd as (? & _)|]. split; [done|]. split; [done|].
  split_and!.
  - intros p d Hr Hd. assert (Hp : p ∉ fr) by (rewrite Hfr; intros [_ ?]; done).
    rewrite Hn4 by auto. rewrite (fi_live _ _ _ _ _ _ _ _ _ _ _ _ _ Hi3 p d Hd Hp).
    rewrite bool_decide_false by (rewrite Ht; tauto).
    rewrite (prune_live _ _ _ _ _ _ _ _ _ _ _ _ _ _ Hi3 Hr Hd).
    assert (Hheld : held D (gc_obj_list rt) um fr p = refs_of held_refs D (gc_obj_list rt2) p).
    { apply (held_end D ext wk _ _ (gc_obj_list rt) _ Htyped Hnd0 Hlk Hl _ _ _ p Hi3); [apply Hfr|].
      by apply NoDup_app in Hnd as (? & _). }
    unfold remaining. rewrite Hheld. simpl. by rewrite Z.add_0_r.
  - intros p d Hg Hd. apply Hfr in Hg as Hpf.
    destruct (heap rt3 !! p) as [o|] eqn:Ho.
    + destruct (fi_zombie _ _ _ _ _ _ _ _ _ _ _ _ _ Hi3 p d o Hpf (not_elem_of_nil p) Hd Ho)
        as (Hin & _ & Hw & Hk & Hzm).
      rewrite (Hs4 p o Hin Ho), Hw.
      replace (is_js_object (data o)) with (is_js_object d)
        by (by rewrite !is_js_object_kind, Hk).
      destruct (is_js_object d) eqn:Hj; [|done]. destruct (wk p =? 0); [done|]. simpl.
      destruct (Hzm eq_refl) as [Hz1 Hz2]. eexists; split; [done|]. done.
    + rewrite (fi_weak _ _ _ _ _ _ _ _ _ _ _ _ _ Hi3 p d Hpf Hd Ho). rewrite Hn4; [done|].
      intros Hin. destruct (Hzl p Hin) as (o & Ho' & _). congruence.
  - intros p Hp. rewrite Hn4.
    + by apply (fi_old _ _ _ _ _ _ _ _ _ _ _ _ _ Hi3).
    + apply Hnzl. rewrite Hfr. intros [[? ?] _]. congruence.
Qed.

Lemma reachable_live p : reachable D rx p -> is_Some (D !! p).
Proof.
  induction 1 as [|x c _ IH Hc]; [done|]. by apply (typed_closed D x c Htyped IH), marked_held.
Qed.

(** Everything a kept object holds is kept. *)
Lemma held_reachable p c : reachable D rx p -> c ∈ kids_of held_refs D p -> reachable D rx c.
Proof.
  intros Hr Hc. pose proof (reachable_live p Hr) as Hp.
  pose proof (typed_closed D p c Htyped Hp Hc) as Hlc. destruct Hp as [d Hd].
  unfold kids_of in Hc. rewrite Hd in Hc. apply elem_of_app in Hc as [Hc|Hc].
  - eapply reach_child; [done|]. unfold kids_of. by rewrite Hd.
  - apply reach_root; [done|]. unfold rx, roots. pose proof (gr_ext _ _ Hready c).
    assert (0 < refs_of unmarked_refs (graph rt) (gc_obj_list rt) c); [|lia].
    apply refs_pos. exists p. fold D. unfold kids_of. rewrite Hd. split; [|done].
    apply (gr_linked _ _ Hready). fold D. eauto.
Qed.

(** A reachable object is referenced from outside, by a kept object, or by a
    native container that is freed. *)
Lemma reachable_why p :
  reachable D rx p ->
  0 < ext p \/ (exists q, reachable D rx q /\ p ∈ kids_of held_refs D q) \/
  (exists q d, D !! q = Some d /\ p ∈ unmarked_refs d /\ ~ reachable D rx q).
Proof.
  intros Hr. inversion Hr as [x Hx Hpos|q x Hq Hc]; subst.
  - unfold rx, roots in Hpos. destruct (decide (0 < ext p)); [by left|right].
    assert (Hu : 0 < refs_of unmarked_refs (graph rt) (gc_obj_list rt) p) by lia.
    apply refs_pos in Hu as (q & Hq & Hin). pose proof Hin as Hin'. unfold kids_of in Hin.
    fold D in Hin. destruct (D !! q) as [d|] eqn:Hd; [|by apply not_elem_of_nil in Hin].
    destruct collection_spec as (rt' & _ & Hl & _).
    destruct (decide (q ∈ gc_obj_list rt')) as [Hk|Hk]; rewrite Hl in Hk.
    + left. exists q. split; [done|]. unfold kids_of. rewrite Hd. apply elem_of_app. by right.
    + right. by exists q, d.
  - right. left. exists q. split; [done|]. by apply marked_held.
Qed.

(** The collection re-establishes the collector's precondition on the
    graph restricted to the reachable objects. *)
Lemma collection_ready rt' :
  JS_RunGCInternal rt = Some rt' ->
  gc_consistent ext rt' /\
  (forall p d, graph rt' !! p = Some d <-> reachable D rx p /\ D !! p = Some d) /\
  (forall p o, heap rt' !! p = Some o -> free_mark o = false ->
     reachable D rx p /\ ref_count o = ext p + refs_of held_refs D (gc_obj_list rt') p) /\
  (forall p, p ∈ gc_obj_list rt' <-> reachable D rx p).
Proof.
  destruct collection_spec as (rt1 & E & Hl & Hnd & Ht & Hz & Hlive & Hgarb & Hold).
  rewrite E. intros [= ->]. pose proof Hready as [_ _ _ _ He _ _ Hzm _].
  assert (Hheap : forall p o, heap rt' !! p = Some o -> free_mark o = false ->
            reachable D rx p /\ D !! p = Some (data o) /\
            o = GCObj (ext p + refs_of held_refs D (gc_obj_list rt') p) false (wk p) false (data o)).
  { intros p o Ho Hf. destruct (D !! p) as [d|] eqn:Hd.
    - destruct (decide (p ∈ gc_obj_list rt')) as [Hr|Hr]; rewrite Hl in Hr.
      + rewrite (Hlive p d Hr Hd) in Ho. injection Ho as <-. done.
      + specialize (Hgarb p d ltac:(split; eauto) Hd).
        destruct (is_js_object d && negb (wk p =? 0)); [|congruence].
        destruct Hgarb as (o' & Ho' & Hf' & _). congruence.
    - rewrite (Hold p Hd) in Ho. pose proof (graph_live rt p o Ho Hf). unfold D in Hd. congruence. }
  assert (HG : forall p d, graph rt' !! p = Some d <-> reachable D rx p /\ D !! p = Some d).
  { intros p d. rewrite graph_lookup. split.
    - intros (o & Ho & Hf & <-). destruct (Hheap p o Ho Hf) as (? & ? & _). done.
    - intros [Hr Hd]. eexists. split; [by apply Hlive|]. done. }
  assert (Hkids : forall p, p ∈ gc_obj_list rt' ->
            kids_of held_refs (graph rt') p = kids_of held_refs D p).
  { intros p Hp. rewrite Hl in Hp. destruct (reachable_live p Hp) as [d Hd].
    unfold kids_of. by rewrite Hd, (proj2 (HG p d) (conj Hp Hd)). }
  assert (Hrefs : forall l q, l ⊆ gc_obj_list rt' ->
            refs_of held_refs (graph rt') l q = refs_of held_refs D l q).
  { induction l as [|x l IH]; intros q Hsub; [done|]. rewrite !refs_cons.
    rewrite Hkids by (apply Hsub; by left). rewrite IH; [done|].
    intros y Hy. apply Hsub. by right. }
  split_and!; [|done| |done].
  2: { intros p o Ho Hf. destruct (Hheap p o Ho Hf) as (Hr & _ & Eo). split; [done|]. by rewrite Eo. }
  split; try done.
  - intros p. rewrite Hl. split.
    + intros [d Hd]. by apply HG in Hd as [? _].
    + intros Hr. destruct (reachable_live p Hr) as [d Hd]. exists d. by apply HG.
  - intros p o Ho Hf. destruct (Hheap p o Ho Hf) as (_ & _ & ->). done.
  - intros p o Ho Hf. destruct (Hheap p o Ho Hf) as (Hr & _ & Eo).
    rewrite Eo. simpl. by rewrite Hrefs by done.
  - intros p c [d Hd] Hc. apply HG in Hd as [Hr Hd].
    rewrite Hkids in Hc by (by apply Hl).
    pose proof (held_reachable p c Hr Hc) as Hrc.
    destruct (reachable_live c Hrc) as [dc Hdc]. exists dc. by apply HG.
  - intros p o Ho Hf. destruct (D !! p) as [d|] eqn:Hd.
    + destruct (decide (p ∈ gc_obj_list rt')) as [Hr|Hr]; rewrite Hl in Hr.
      * rewrite (Hlive p d Hr Hd) in Ho. by injection Ho as <-.
      * specialize (Hgarb p d ltac:(split; eauto) Hd).
        destruct (is_js_object d && negb (wk p =? 0)); [|congruence].
        destruct Hgarb as (o' & Ho' & _ & Hd'). congruence.
    + rewrite (Hold p Hd) in Ho. by apply (Hzm p).
  - intros p o Ho Hf Hown. destruct (Hheap p o Ho Hf) as (Hr & Hd & Eo). rewrite Eo. simpl.
    pose proof (refs_nonneg held_refs D (gc_obj_list rt') p). pose proof (He p).
    destruct (reachable_why p Hr) as [Hpos|[(q & Hq & Hin)|(q & d & Hdq & Hin & _)]]; [lia| |].
    + assert (0 < refs_of held_refs D (gc_obj_list rt') p); [|lia].
      apply refs_pos. exists q. split; [by apply Hl|done].
    + destruct (unmarked_owner D q d p Htyped Hdq Hin) as (d' & Hd' & Ho'). congruence.
Qed.
End collection.

(** A subgraph that contains what its objects hold is typed. *)
Lemma typed_sub (D D' : gmap ptr gc_data) :
  typed D -> (forall p d, D' !! p = Some d -> D !! p = Some d) ->
  (forall p c, is_Some (D' !! p) -> c ∈ kids_of held_refs D' p -> is_Some (D' !! c)) -> typed D'.
Proof.
  intros HD Hsub Hcl p d Hd. destruct (HD p d (Hsub p d Hd)) as [Hwf Hok].
  split; [exact Hwf|]. rewrite Forall_forall in *. intros r Hin c j Ht.
  specialize (Hok r Hin c j Ht).
  assert (Hc : c ∈ kids_of held_refs D' p).
  { unfold kids_of. rewrite Hd, <- (free_held_Permutation d Hwf). apply list_elem_of_bind. exists r.
    rewrite ref_ptr_target, Ht. split; [by left|done]. }
  destruct (Hcl p c ltac:(eauto) Hc) as [e He]. rewrite He. by rewrite (Hsub c e He) in Hok.
Qed.

(** ** Main theorems *)



(** An object left with a zero count by one collection is freed by the next
    one. *)
Lemma zero_count_unreachable ext rt p o :
  gc_consistent ext rt -> heap rt !! p = Some o -> free_mark o = false -> ref_count o <= 0 ->
  ~ reachable (graph rt) (roots ext rt) p.
Proof.
  intros Hc Ho Hf H0 Hr. pose proof (gr_count _ _ Hc p o Ho Hf) as Heq.
  pose proof (gr_ext _ _ Hc p). rewrite refs_held in Heq.
  pose proof (refs_nonneg mark_children (graph rt) (gc_obj_list rt) p).
  pose proof (refs_nonneg unmarked_refs (graph rt) (gc_obj_list rt) p).
  inversion Hr as [x Hx Hpos|q x Hq Hin]; subst; [unfold roots in Hpos; lia|].
  assert (0 < refs (graph rt) (gc_obj_list rt) p); [|lia].
  apply refs_pos. exists q. split; [|done]. apply (gr_linked _ _ Hc). unfold kids_of in Hin.
  destruct (graph rt !! q); [eauto|by apply not_elem_of_nil in Hin].
Qed.

(** The values held by a native container are never collected with it: an
    object that only a Vector, HashMap, Heap, List or Ring holds survives the
    collection even if the container is garbage, and a container that holds
    itself, directly or through what it holds, is never freed. *)
Theorem native_values_survive ext rt q d p :
  gc_consistent ext rt -> typed (graph rt) -> running_rooted ext (graph rt) ->
  graph rt !! q = Some d -> p ∈ unmarked_refs d ->
  exists rt', JS_RunGCInternal rt = Some rt' /\ p ∈ gc_obj_list rt'.
Proof.
  intros Hready Htyped Hrun Hd Hp.
  destruct (collection_spec ext rt Hready Htyped Hrun) as (rt' & E & Hl & _).
  exists rt'. split; [exact E|]. apply Hl. apply reach_root.
  - apply (typed_closed (graph rt) q p Htyped); [eauto|]. unfold kids_of. rewrite Hd.
    apply elem_of_app. by right.
  - unfold roots. pose proof (gr_ext _ _ Hready p).
    assert (0 < refs_of unmarked_refs (graph rt) (gc_obj_list rt) p); [|lia].
    apply refs_pos. exists q. unfold kids_of. rewrite Hd. split; [|done].
    apply (gr_linked _ _ Hready). eauto.
Qed.

(** Trial deletion (gc_decref then gc_scan) separates the heap exactly:
    the reachable objects are back in gc_obj_list with their counts restored
    and their marks cleared, the unreachable ones are in tmp_obj_list, and
    no object is lost or duplicated. *)
Theorem gc_trial_delete_exact ext rt :
  gc_consistent ext rt ->
  exists rt', gc_trial_delete rt = Some rt' /\
    (forall p, p ∈ gc_obj_list rt' <-> reachable (graph rt) (roots ext rt) p) /\
    (forall p, p ∈ tmp_obj_list rt' <->
       is_Some (graph rt !! p) /\ ~ reachable (graph rt) (roots ext rt) p) /\
    NoDup (gc_obj_list rt' ++ tmp_obj_list rt') /\
    (forall p o, heap rt !! p = Some o -> free_mark o = false ->
       heap rt' !! p = Some (set_mark o (bool_decide (p ∈ tmp_obj_list rt')))).
Proof.
  intros Hready.
  destruct (trial_delete_spec (roots ext rt) rt (consistent_trial ext rt Hready))
    as (rt' & E & Hl & Ht & Hnd & _ & Hh).
  exists rt'. split_and!; try done. intros p o Ho Hf. by rewrite Hh, Ho; simpl; rewrite Hf.
Qed.

(** ** A concrete heap *)

(** Shape 0; a rooted object 1; an unreachable cycle of an object 2, the
    closure 4 over the variable reference 3 that holds object 2; a weakly
    referenced object 5 and a Vector 7 held by the cycle; object 8, which only
    the Vector holds; and a Vector 9 that holds itself. *)
Definition demo_heap : gmap ptr gcobj := list_to_map [
  (0%nat, GCObj 7 false 0 false (JS_GC_OBJ_TYPE_SHAPE None));
  (1%nat, GCObj 1 false 0 false (JS_GC_OBJ_TYPE_JS_OBJECT (Some 0%nat) [] U_none));
  (2%nat, GCObj 1 false 0 false (JS_GC_OBJ_TYPE_JS_OBJECT (Some 0%nat)
     [PropSlot false (JS_PROP_NORMAL (JS_TAG_OBJECT 4%nat));
      PropSlot true (JS_PROP_NORMAL JS_TAG_NOREF);
      PropSlot false (JS_PROP_NORMAL (JS_TAG_OBJECT 5%nat));
      PropSlot false (JS_PROP_NORMAL (JS_TAG_OBJECT 7%nat))] U_none));
  (3%nat, GCObj 1 false 0 false (JS_GC_OBJ_TYPE_VAR_REF_detached (JS_TAG_OBJECT 2%nat)));
  (4%nat, GCObj 1 false 0 false (JS_GC_OBJ_TYPE_JS_OBJECT (Some 0%nat) []
     (U_func None (Some 6%nat) (Some [Some 3%nat]))));
  (5%nat, GCObj 1 false 1 false (JS_GC_OBJ_TYPE_JS_OBJECT (Some 0%nat) [] U_none));
  (6%nat, GCObj 1 false 0 false (JS_GC_OBJ_TYPE_FUNCTION_BYTECODE [] None None));
  (7%nat, GCObj 1 false 0 false (JS_GC_OBJ_TYPE_JS_OBJECT (Some 0%nat) []
     (U_vector (Some [JS_TAG_OBJECT 8%nat; JS_TAG_LEAF]))));
  (8%nat, GCObj 1 false 0 false (JS_GC_OBJ_TYPE_JS_OBJECT (Some 0%nat) [] U_none));
  (9%nat, GCObj 1 false 0 false (JS_GC_OBJ_TYPE_JS_OBJECT (Some 0%nat) []
     (U_vector (Some [JS_TAG_OBJECT 9%nat]))))].

Definition demo_rt : JSRuntime :=
  Runtime demo_heap (seq 0 10) [] [].

Definition demo_ext (p : ptr) : Z := if decide (p = 1%nat) then 1 else 0.

Lemma demo_cases (P : ptr -> gcobj -> Prop) :
  (forall p o, In (p, o) (map_to_list demo_heap) -> P p o) ->
  forall p o, heap demo_rt !! p = Some o -> P p o.
Proof. intros H p o Ho. apply H. apply list_elem_of_In, elem_of_map_to_list. exact Ho. Qed.

Lemma demo_graph_cases (P : ptr -> gc_data -> Prop) :
  (forall p o, In (p, o) (map_to_list demo_heap) -> P p (data o)) ->
  forall p d, graph demo_rt !! p = Some d -> P p d.
Proof.
  intros H p d (o & Ho & _ & <-)%graph_lookup. revert p o Ho. by apply demo_cases.
Qed.

Ltac demo_enum :=
  let H := fresh in
  intros ? ? H; vm_compute in H;
  repeat (destruct H as [H|H]; [injection H as <- <-|]); [..|destruct H].

Lemma demo_consistent : gc_consistent demo_ext demo_rt.
Proof.
  split.
  - intros p. split.
    + intros [d Hd]. revert p d Hd. refine (demo_graph_cases (fun p d => _) _). demo_enum;
        vm_compute; repeat (try (left; fail); constructor).
    + intros Hp. change (gc_obj_list demo_rt) with (seq 0 10) in Hp.
      apply elem_of_seq in Hp. destruct p as [|[|[|[|[|[|[|[|[|[|]]]]]]]]]]; [vm_compute; eauto..|lia].
  - apply NoDup_seq.
  - done.
  - refine (demo_cases (fun p o => _) _). by demo_enum.
  - intros p. unfold demo_ext. case_decide; lia.
  - refine (demo_cases (fun p o => _) _). demo_enum; intros _; vm_compute; done.
  - intros p c [d Hd] Hc. unfold kids_of in Hc. rewrite Hd in Hc. revert p d Hd c Hc.
    refine (demo_graph_cases (fun p d => _) _). demo_enum; intros c Hc; vm_compute in Hc; apply list_elem_of_In in Hc;
      repeat (destruct Hc as [<-|Hc]; [vm_compute; eauto|]); destruct Hc.
  - refine (demo_cases (fun p o => _) _). by demo_enum.
  - refine (demo_cases (fun p o => _) _). by demo_enum.
Qed.

Lemma demo_ready : gc_ready demo_ext demo_rt.
Proof.
  split; [exact demo_consistent|]. refine (demo_cases (fun p o => _) _). by demo_enum.
Qed.

Lemma demo_typed : typed (graph demo_rt).
Proof.
  refine (demo_graph_cases (fun p d => _) _).
  demo_enum; (split; [by vm_compute|]); vm_compute free_refs;
    repeat (constructor; [intros q k Hq; injection Hq as <- <-; by vm_compute || discriminate|]);
    try done; repeat (constructor; [intros q k Hq; vm_compute in Hq; simplify_eq; by vm_compute|]);
    constructor.
Qed.

Lemma demo_running : running_rooted demo_ext (graph demo_rt).
Proof.
  intros p cf tv rf Hd.
  enough (Hk : kind_of (JS_GC_OBJ_TYPE_ASYNC_FUNCTION false cf tv None rf) <> K_async) by done.
  revert p Hd. intros p. generalize (JS_GC_OBJ_TYPE_ASYNC_FUNCTION false cf tv None rf).
  revert p. refine (demo_graph_cases (fun p d => _) _). by demo_enum.
Qed.

(** The collection keeps the root, the shape, the Vector 9 and, with no
    reference left, object 8; it empties object 5 and frees the rest.  The
    next collection frees object 8. *)
Definition demo_view (rt : JSRuntime) : list ptr * list (option Z) :=
  (gc_obj_list rt, (fun p => ref_count <$> heap rt !! p) <$> seq 0 10).

Example demo_run :
  demo_view <$> JS_RunGCInternal demo_rt =
  Some ([1; 8; 9; 0]%nat,
    [Some 3; Some 1; None; None; None; Some 0; None; None; Some 0; Some 1]) /\
  demo_view <$> (JS_RunGCInternal demo_rt ≫= JS_RunGCInternal) =
  Some ([1; 9; 0]%nat,
    [Some 2; Some 1; None; None; None; Some 0; None; None; None; Some 1]).
Proof. split; by vm_compute. Qed.



Lemma gc_trial_delete_exact_witness :
  exists rt', gc_trial_delete demo_rt = Some rt' /\
    (forall p, p ∈ gc_obj_list rt' <-> reachable (graph demo_rt) (roots demo_ext demo_rt) p).
Proof.
  destruct (gc_trial_delete_exact demo_ext demo_rt demo_consistent) as (rt' & E & H & _).
  exists rt'. split; [exact E | exact H].
Defined.

(** The Vector 9, which holds itself, survives. *)
Lemma native_values_survive_witness :
  exists rt', JS_RunGCInternal demo_rt = Some rt' /\ 9%nat ∈ gc_obj_list rt'.
Proof.
  refine (native_values_survive demo_ext demo_rt 9%nat _ 9%nat demo_consistent demo_typed
    demo_running _ _).
  - vm_compute. reflexivity.
  - vm_compute. constructor.
Defined.
