(* ===== verification/RefCount.v ===== *)
(** * Reference counting: releasing a value (src/object/shapes_objects_gc.inc.c)

    The release of the last reference to an object, outside a collection:
    [free_zero_refcount] frees the object and, in a loop, every object that
    loses its last reference on the way. *)
From S2P Require Import Prelude GCClasses GC GCFree.

(** ** Operations *)

(** Each round frees the head of gc_zero_ref_count_list; the objects it
    releases are queued in front. *)
Fixpoint free_zero_refcount (fuel : nat) (rt : JSRuntime) : option JSRuntime :=
  match head (gc_zero_ref_count_list rt) with
  | None => Some rt
  | Some p =>
      match fuel with
      | O => None
      | S fuel =>
          o ← heap rt !! p;
          if decide (ref_count o = 0) then
            rt ← free_gc_object JS_GC_PHASE_DECREF p rt;
            free_zero_refcount fuel rt
          else None
      end
  end.

(** [JS_FreeValue] from running code, in [JS_GC_PHASE_NONE]: the queue is
    empty unless this very call puts an object on it. *)
Definition JS_FreeValue (v : JSValue) (rt : JSRuntime) : option JSRuntime :=
  rt ← JS_FreeValueRT JS_GC_PHASE_NONE v rt;
  free_zero_refcount (size (heap rt)) rt.

(** ** Objects without references *)

(** Nothing outside refers to the object, and whatever refers to it is
    unreferenced itself: the objects on a cycle, or held by one, are not. *)
Inductive unreferenced (D : gmap ptr gc_data) (ext : ptr -> Z) : ptr -> Prop :=
| unref_intro p : is_Some (D !! p) -> ext p = 0 ->
    (forall q, p ∈ kids_of held_refs D q -> unreferenced D ext q) -> unreferenced D ext p.

(** ** The invariant of a release *)

Section cascade.
(** The graph before the release, with the external counts, the weak counts
    and the zombies; [all] enumerates the graph. *)
Context (D : gmap ptr gc_data) (ext wk : ptr -> Z) (Zmb : gmap ptr gcobj) (all : list ptr).
Context (HD : typed D) (Hext : forall p, 0 <= ext p)
        (Hall : NoDup all) (Hdom : forall p, is_Some (D !! p) <-> p ∈ all)
        (HZ : forall p o m, D !! p = None -> Zmb !! p = Some o ->
               set_data o (unlink_module_data m (data o)) = o)
        (Hrun : running_rooted ext D).

(** References to [p] held by the objects that have not been freed. *)
Definition kept_refs (fr : list ptr) (p : ptr) : Z := refs_of held_refs D (filter (fun q => q ∉ fr) all) p.

(** All references to [p]: external, held and about to be dropped. *)
Definition due (fr : list ptr) (pend : list gcref) (p : ptr) : Z :=
  ext p + kept_refs fr p + countZ p (ptrs pend).

(** [fr] are freed or being freed, [curs] are being freed, [pend] are the
    references about to be dropped; [ex], just decremented, may be about to
    be queued. *)
Record rc_inv (ex : option ptr) (curs fr : list ptr) (pend : list gcref) (rt : JSRuntime) : Prop := {
  ri_fr : forall p, p ∈ fr -> is_Some (D !! p) /\ due fr pend p = 0;
  ri_unref : Forall (unreferenced D ext) fr;
  ri_curs : curs ⊆ fr;
  ri_live : forall p d, D !! p = Some d -> p ∉ fr -> exists m,
    heap rt !! p = Some (GCObj (due fr pend p) m (wk p) false d) /\
    (p ∈ gc_obj_list rt -> m = false);
  ri_cur : forall p d, p ∈ curs -> D !! p = Some d -> exists o,
    heap rt !! p = Some o /\ ref_count o = 0 /\ weakref_count o = wk p /\
    kind_of (data o) = kind_of d /\ (is_js_object d = true -> free_mark o = true);
  ri_gone : forall p d, p ∈ fr -> p ∉ curs -> D !! p = Some d ->
    if is_js_object d && negb (wk p =? 0)
    then exists o, heap rt !! p = Some o /\ free_mark o = true /\
           data o = JS_GC_OBJ_TYPE_JS_OBJECT None [] U_none
    else heap rt !! p = None;
  ri_old : forall p, D !! p = None -> heap rt !! p = Zmb !! p;
  ri_pend : Forall (ref_ok D) pend;
  ri_nodup : NoDup (gc_obj_list rt ++ gc_zero_ref_count_list rt);
  ri_mem : forall p, p ∈ gc_obj_list rt ++ gc_zero_ref_count_list rt <->
    is_Some (D !! p) /\ (p ∉ fr \/ p ∈ curs);
  ri_zero : forall p, is_Some (D !! p) -> p ∉ fr -> ex <> Some p ->
    (p ∈ gc_zero_ref_count_list rt <-> due fr pend p = 0);
  ri_ex : forall p, ex = Some p -> p ∉ gc_zero_ref_count_list rt;
  ri_owner : forall p d, p ∈ gc_zero_ref_count_list rt -> D !! p = Some d -> is_owner d = true;
}.

Lemma kept_nonneg fr p : 0 <= kept_refs fr p.
Proof. apply refs_nonneg. Qed.

Lemma due_nonneg fr pend p : 0 <= due fr pend p.
Proof.
  unfold due. specialize (Hext p). pose proof (kept_nonneg fr p).
  pose proof (countZ_nonneg p (ptrs pend)). lia.
Qed.

Lemma due_zero fr pend p :
  due fr pend p = 0 -> ext p = 0 /\ forall q, p ∈ kids_of held_refs D q -> q ∈ fr.
Proof.
  unfold due. intros H0. pose proof (Hext p). pose proof (kept_nonneg fr p).
  pose proof (countZ_nonneg p (ptrs pend)). split; [lia|]. intros q Hq.
  destruct (decide (q ∈ fr)) as [|Hn]; [done|]. assert (0 < kept_refs fr p); [|lia].
  apply refs_pos. exists q. rewrite list_elem_of_filter, <- Hdom. split; [|done]. split; [done|].
  unfold kids_of in Hq. destruct (D !! q); [eauto|by apply not_elem_of_nil in Hq].
Qed.

(** Starting to free [p] turns the references it holds into pending ones. *)
Lemma due_begin fr pend p d q :
  D !! p = Some d -> p ∉ fr -> due (p :: fr) (free_refs d ++ pend) q = due fr pend q.
Proof.
  intros Hd Hfr. unfold due. rewrite ptrs_app, countZ_app.
  assert (Hk : kept_refs fr q = countZ q (kids_of held_refs D p) + kept_refs (p :: fr) q).
  { unfold kept_refs. rewrite <- refs_cons. apply refs_Permutation, NoDup_Permutation.
    - by apply NoDup_filter.
    - apply NoDup_cons. split; [|by apply NoDup_filter]. rewrite list_elem_of_filter. set_solver.
    - assert (p ∈ all) by (apply Hdom; eauto). intros x.
      rewrite elem_of_cons, !list_elem_of_filter, not_elem_of_cons.
      destruct (decide (x = p)) as [->|]; naive_solver. }
  rewrite Hk. rewrite (countZ_free d) by (by apply (HD p)). unfold kids_of.
  rewrite Hd. lia.
Qed.

Lemma due_cons fr r pend p : due fr (r :: pend) p = due fr pend p + countZ p (ref_ptr r).
Proof. unfold due, ptrs. csimpl. rewrite countZ_app. lia. Qed.

Lemma due_target fr r pend p k q :
  ref_target r = Some (p, k) -> due fr (r :: pend) q = due fr pend q + if decide (q = p) then 1 else 0.
Proof. intros Ht. by rewrite due_cons, (target_count r p k q Ht). Qed.

(** The target of a pending reference is live. *)
Lemma pend_live ex curs fr r pend rt p k :
  rc_inv ex curs fr (r :: pend) rt -> ref_target r = Some (p, k) ->
  exists d, D !! p = Some d /\ kind_of d = k /\ p ∉ fr.
Proof.
  intros Hi Ht. pose proof (ri_pend _ _ _ _ _ Hi) as Hp. inv_subst Hp. specialize (H1 p k Ht).
  destruct (D !! p) as [d|] eqn:Hd; [|done]. injection H1 as Hk. exists d. split_and!; [done..|].
  intros Hin. destruct (ri_fr _ _ _ _ _ Hi p Hin) as [_ H0].
  rewrite (due_target _ _ _ _ _ p Ht), decide_True in H0 by done. pose proof (due_nonneg fr pend p). lia.
Qed.

(** A live object is linked once; it is unmarked unless queued. *)
Lemma live_linked ex curs fr pend rt p :
  rc_inv ex curs fr pend rt -> is_Some (D !! p) -> p ∉ fr -> p ∉ gc_zero_ref_count_list rt ->
  p ∈ gc_obj_list rt.
Proof.
  intros Hi Hp Hfr Hz. assert (H : p ∈ gc_obj_list rt ++ gc_zero_ref_count_list rt)
    by (apply (ri_mem _ _ _ _ _ Hi); auto). apply elem_of_app in H as [|]; done.
Qed.

Lemma decr_rc curs fr r pend rt p k :
  rc_inv None curs fr (r :: pend) rt -> ref_target r = Some (p, k) ->
  exists d rt1, D !! p = Some d /\ kind_of d = k /\ p ∉ fr /\
    decr p rt = Some (due fr pend p, rt1) /\ rc_inv (Some p) curs fr pend rt1 /\
    heap rt1 !! p = Some (GCObj (due fr pend p) false (wk p) false d) /\
    heap rt !! p = Some (GCObj (due fr pend p + 1) false (wk p) false d).
Proof.
  intros Hi Ht. destruct (pend_live _ _ _ _ _ _ _ _ Hi Ht) as (d & Hd & Hk & Hfr).
  assert (Hdue : forall q, due fr (r :: pend) q = due fr pend q + if decide (q = p) then 1 else 0)
    by (intros q; by apply (due_target fr r pend p k)).
  pose proof (due_nonneg fr pend p) as Hge.
  assert (Hz : p ∉ gc_zero_ref_count_list rt).
  { intros Hz. apply (ri_zero _ _ _ _ _ Hi p) in Hz; [|eauto|done..].
    rewrite Hdue, decide_True in Hz by done. lia. }
  destruct (ri_live _ _ _ _ _ Hi p d Hd Hfr) as (m & Ho & Hm).
  assert (Hgc : p ∈ gc_obj_list rt) by (eapply live_linked; eauto).
  rewrite Hdue, decide_True, (Hm Hgc) in Ho by done.
  exists d. eexists. split; [done|]. split; [done|]. split; [done|]. split.
  { unfold decr. rewrite Ho. simpl. by replace (due fr pend p + 1 - 1) with (due fr pend p) by lia. }
  replace (due fr pend p + 1 - 1) with (due fr pend p) by lia.
  split; [|split; [apply lookup_insert_eq|done]].
  destruct Hi. split; simpl; try done.
  - intros q Hq. destruct (ri_fr0 q Hq) as [H1 H2]. split; [done|]. rewrite Hdue in H2.
    pose proof (due_nonneg fr pend q). case_decide; lia.
  - intros q e He Hq. destruct (decide (q = p)) as [->|Hne].
    + exists false. rewrite lookup_insert_eq. split; [|done]. by simplify_eq.
    + rewrite lookup_insert_ne by done. destruct (ri_live0 q e He Hq) as (m' & H1 & H2).
      exists m'. rewrite Hdue, decide_False in H1 by done. rewrite Z.add_0_r in H1. done.
  - intros q e Hq He. rewrite lookup_insert_ne by (intros <-; exact (Hfr (ri_curs0 _ Hq))). by apply ri_cur0.
  - intros q e Hq Hq' He. rewrite lookup_insert_ne by congruence. by apply ri_gone0.
  - intros q Hq. rewrite lookup_insert_ne by congruence. by apply ri_old0.
  - by inv_subst ri_pend0.
  - intros q Hq Hq' Hne. rewrite (ri_zero0 q) by done. rewrite Hdue, decide_False by congruence. by rewrite Z.add_0_r.
  - by intros q [= <-].
Qed.

Lemma rc_unex curs fr pend rt p :
  rc_inv (Some p) curs fr pend rt -> p ∉ fr -> due fr pend p <> 0 -> rc_inv None curs fr pend rt.
Proof.
  intros Hi Hfr Hn. pose proof (ri_ex _ _ _ _ _ Hi p eq_refl) as Hz. destruct Hi. split; try done.
  intros q Hq Hq' _. destruct (decide (q = p)) as [->|]; [tauto|]. apply ri_zero0; congruence.
Qed.

(** The object with no reference left is queued. *)
Lemma rc_queue curs fr pend rt p d b :
  rc_inv (Some p) curs fr pend rt -> D !! p = Some d -> p ∉ fr -> due fr pend p = 0 ->
  is_owner d = true ->
  rc_inv None curs fr pend
    (upd_obj p (GCObj 0 b (wk p) false d) (add_head_zero p (list_del p rt))).
Proof.
  intros Hi Hd Hfr H0 Hown. pose proof (ri_ex _ _ _ _ _ Hi p eq_refl) as Hz.
  assert (Hgc : p ∈ gc_obj_list rt) by (eapply live_linked; eauto).
  destruct Hi. split; simpl; try done.
  - intros q e He Hq. destruct (decide (q = p)) as [->|Hne].
    + exists b. rewrite lookup_insert_eq, elem_of_unlink. split; [|naive_solver]. rewrite H0. congruence.
    + rewrite lookup_insert_ne by done. destruct (ri_live0 q e He Hq) as (m & H1 & H2).
      exists m. split; [done|]. rewrite elem_of_unlink. naive_solver.
  - intros q e Hq He. rewrite lookup_insert_ne by (intros <-; exact (Hfr (ri_curs0 _ Hq))). by apply ri_cur0.
  - intros q e Hq Hq' He. rewrite lookup_insert_ne by congruence. by apply ri_gone0.
  - intros q Hq. rewrite lookup_insert_ne by congruence. by apply ri_old0.
  - rewrite <- Permutation_middle, <- unlink_app. apply NoDup_cons.
    split; [rewrite elem_of_unlink; tauto|by apply NoDup_unlink].
  - intros q. rewrite <- Permutation_middle, <- unlink_app, elem_of_cons, elem_of_unlink, ri_mem0.
    destruct (decide (q = p)) as [->|]; naive_solver.
  - intros q Hq Hq' _. rewrite elem_of_cons, elem_of_unlink.
    destruct (decide (q = p)) as [->|]; [naive_solver|].
    rewrite (ri_zero0 q) by congruence. naive_solver.
  - intros q e. rewrite elem_of_cons, elem_of_unlink. intros [->|[_ Hq]] He; [congruence|]. by eapply ri_owner0.
Qed.

(** Freeing starts: the object's references become pending. *)
Lemma rc_begin ex curs fr pend rt p d o :
  rc_inv ex curs fr pend rt -> ex = None \/ ex = Some p -> D !! p = Some d -> p ∉ fr ->
  due fr pend p = 0 -> ref_count o = 0 -> weakref_count o = wk p -> kind_of (data o) = kind_of d ->
  (is_js_object d = true -> free_mark o = true) ->
  rc_inv None (p :: curs) (p :: fr) (free_refs d ++ pend) (upd_obj p o rt).
Proof.
  intros Hi Hex Hd Hfr H0 Hrc Hw Hk Hfm.
  destruct (due_zero fr pend p H0) as [Hx0 Hkids].
  assert (Hdue : forall q, due (p :: fr) (free_refs d ++ pend) q = due fr pend q)
    by (intros; by apply due_begin).
  destruct Hi. split; simpl; try done.
  - intros q Hq. rewrite Hdue. apply elem_of_cons in Hq as [->|Hq]; [eauto|by apply ri_fr0].
  - apply Forall_cons. split; [|exact ri_unref0]. constructor; [eauto|done|].
    intros x Hx. rewrite Forall_forall in ri_unref0. by apply ri_unref0, Hkids.
  - set_solver.
  - intros q e He [Hne Hq]%not_elem_of_cons. rewrite lookup_insert_ne, Hdue by done. by apply ri_live0.
  - intros q e Hq He. destruct (decide (q = p)) as [->|Hne].
    + exists o. rewrite lookup_insert_eq. simplify_eq. done.
    + rewrite lookup_insert_ne by done. apply elem_of_cons in Hq as [->|Hq]; [done|]. by apply ri_cur0.
  - intros q e [->|Hq]%elem_of_cons [Hne Hqc]%not_elem_of_cons He; [done|].
    rewrite lookup_insert_ne by done. by apply ri_gone0.
  - intros q Hq. rewrite lookup_insert_ne by congruence. by apply ri_old0.
  - apply Forall_app. split; [by apply (HD p)|done].
  - intros q. rewrite ri_mem0, not_elem_of_cons, elem_of_cons.
    destruct (decide (q = p)) as [->|]; naive_solver.
  - intros q Hq [Hne Hq']%not_elem_of_cons _. rewrite Hdue. apply ri_zero0; [done..|]. naive_solver.
Qed.

(** Freeing ends: the structure is released, or kept for weak references. *)
Lemma rc_finish curs fr pend rt p d rt' :
  rc_inv None (p :: curs) fr pend rt -> p ∉ curs -> D !! p = Some d ->
  gc_obj_list rt' = unlink p (gc_obj_list rt) ->
  gc_zero_ref_count_list rt' = unlink p (gc_zero_ref_count_list rt) ->
  (forall q, q <> p -> heap rt' !! q = heap rt !! q) ->
  (if is_js_object d && negb (wk p =? 0)
   then exists o, heap rt' !! p = Some o /\ free_mark o = true /\
          data o = JS_GC_OBJ_TYPE_JS_OBJECT None [] U_none
   else heap rt' !! p = None) ->
  rc_inv None curs fr pend rt'.
Proof.
  intros Hi Hpc Hd Hg Hz Hh Hp.
  assert (Hfr : p ∈ fr) by (apply (ri_curs _ _ _ _ _ Hi); by left).
  destruct Hi. split; try done.
  - set_solver.
  - intros q e He Hq. rewrite Hh, Hg by congruence. destruct (ri_live0 q e He Hq) as (m & H1 & H2).
    exists m. split; [done|]. rewrite elem_of_unlink. naive_solver.
  - intros q e Hq He. rewrite Hh by congruence. apply ri_cur0; [by right|done].
  - intros q e Hq Hqc He. destruct (decide (q = p)) as [->|Hne]; [by simplify_eq|].
    rewrite Hh by done. apply ri_gone0; [done| |done]. by rewrite not_elem_of_cons.
  - intros q Hq. rewrite Hh by congruence. by apply ri_old0.
  - rewrite Hg, Hz, <- unlink_app. by apply NoDup_unlink.
  - intros q. rewrite Hg, Hz, <- unlink_app, elem_of_unlink, ri_mem0, elem_of_cons.
    destruct (decide (q = p)) as [->|]; naive_solver.
  - intros q Hq Hq' _. rewrite Hz, elem_of_unlink, (ri_zero0 q) by done. naive_solver.
  - intros q e. rewrite Hz, elem_of_unlink. intros [_ Hq]. by apply ri_owner0.
Qed.

(** *** Releasing references *)

Section releases.
Context (phase : JSGCPhase) (Hphase : phase <> JS_GC_PHASE_REMOVE_CYCLES).

(** [rel] drops any pending reference of the class [lvl]. *)
Definition rc_release_ok (lvl : gcref -> bool) (rel : gcref -> JSRuntime -> option JSRuntime) : Prop :=
  forall curs fr r pend rt, lvl r = true -> rc_inv None curs fr (r :: pend) rt ->
  exists rt' fr', rel r rt = Some rt' /\ rc_inv None curs fr' pend rt' /\ fr ⊆ fr'.

Lemma rc_release_all lvl rel rs : rc_release_ok lvl rel -> forallb lvl rs = true ->
  forall curs fr pend rt, rc_inv None curs fr (rs ++ pend) rt ->
  exists rt' fr', release_all rel rs rt = Some rt' /\ rc_inv None curs fr' pend rt' /\ fr ⊆ fr'.
Proof.
  intros Hrel. induction rs as [|r rs IH]; intros Hl curs fr pend rt Hi; [by exists rt, fr|].
  simpl in Hl. apply andb_prop in Hl as [Hr Hl].
  destruct (Hrel curs fr r (rs ++ pend) rt Hr Hi) as (rt1 & fr1 & E1 & Hi1 & Hs1).
  destruct (IH Hl _ _ _ _ Hi1) as (rt2 & fr2 & E2 & Hi2 & Hs2).
  exists rt2, fr2. simpl. rewrite E1. simpl. split; [done|]. split; [done|]. by etrans.
Qed.

Lemma rc_skip curs fr r pend rt :
  ref_target r = None -> rc_inv None curs fr (r :: pend) rt -> rc_inv None curs fr pend rt.
Proof.
  intros Ht Hi. assert (Hdue : forall q, due fr (r :: pend) q = due fr pend q)
    by (intros q; rewrite due_cons, ref_ptr_target, Ht; simpl; lia).
  destruct Hi. split; try done.
  - intros q Hq. rewrite <- Hdue. by apply ri_fr0.
  - intros q d. rewrite <- Hdue. apply ri_live0.
  - by inv_subst ri_pend0.
  - intros q. rewrite <- Hdue. apply ri_zero0.
Qed.

Lemma rc_free_value curs fr v pend rt :
  rc_inv None curs fr (R_value v :: pend) rt ->
  exists rt', JS_FreeValueRT phase v rt = Some rt' /\ rc_inv None curs fr pend rt'.
Proof.
  intros Hi. destruct (ref_target (R_value v)) as [[p k]|] eqn:Ht.
  - destruct (decr_rc _ _ _ _ _ _ _ Hi Ht) as (d & rt1 & Hd & Hk & Hfr & E & Hi1 & Ho & _).
    assert (Hown : is_owner d = true).
    { rewrite is_owner_kind, Hk. by destruct v; inversion Ht. }
    pose proof (due_nonneg fr pend p) as Hge.
    assert (Hf : JS_FreeValueRT phase v rt =
      if decide (due fr pend p <= 0) then __JS_FreeValueRT phase p rt1 else Some rt1)
      by (destruct v; simpl in Ht; simplify_eq; simpl; by rewrite E).
    rewrite Hf. case_decide as Hle.
    + unfold __JS_FreeValueRT. rewrite decide_False by done. rewrite Ho. simpl.
      eexists. split; [done|]. unfold set_mark; simpl. replace (due fr pend p) with 0 by lia.
      eapply rc_queue; eauto. lia.
    + exists rt1. split; [done|]. apply (rc_unex _ _ _ _ p); [done..|lia].
  - exists rt. split; [by destruct v|]. by eapply rc_skip.
Qed.

Lemma rc_async_free curs fr s pend rt :
  rc_inv None curs fr (R_async s :: pend) rt ->
  exists rt', async_func_free phase s rt = Some rt' /\ rc_inv None curs fr pend rt'.
Proof.
  intros Hi. destruct (decr_rc _ _ _ _ _ _ _ Hi eq_refl) as (d & rt1 & Hd & Hk & Hfr & E & Hi1 & Ho & _).
  unfold async_func_free. rewrite E. simpl. case_decide as H0.
  - rewrite decide_False by done. eexists. split; [done|].
    replace (add_head_zero s (list_del s rt1)) with
      (upd_obj s (GCObj 0 false (wk s) false d) (add_head_zero s (list_del s rt1))).
    2: { unfold upd_obj; simpl. rewrite insert_id; [done|]. by rewrite <- H0. }
    eapply rc_queue; eauto. by rewrite is_owner_kind, Hk.
  - exists rt1. split; [done|]. by apply (rc_unex _ _ _ _ s).
Qed.

Lemma rc_release0 : rc_release_ok level0 (release0 phase).
Proof.
  intros curs fr r pend rt Hl Hi. destruct r as [v| | | |s]; try done; simpl.
  - destruct (rc_free_value _ _ _ _ _ Hi) as (rt' & E & Hi'). by exists rt', fr.
  - destruct (rc_async_free _ _ _ _ _ Hi) as (rt' & E & Hi'). by exists rt', fr.
Qed.

(** Dropping the last reference to a shape, a variable reference or a context
    frees it at once, after the references it holds. *)
Lemma rc_drop lvl rel curs fr r pend rt p k :
  rc_inv None curs fr (r :: pend) rt -> ref_target r = Some (p, k) ->
  owner_kind k = false -> rc_release_ok lvl rel ->
  exists n rt1 d, decr p rt = Some (n, rt1) /\ 0 <= n /\ kind_of d = k /\
    heap rt1 !! p = Some (GCObj n false (wk p) false d) /\
    heap rt !! p = Some (GCObj (n + 1) false (wk p) false d) /\
    (0 < n -> rc_inv None curs fr pend rt1) /\
    (n = 0 -> forallb lvl (free_refs d) = true ->
       exists rt2 fr', release_all rel (free_refs d) rt1 = Some rt2 /\
         rc_inv None curs fr' pend (js_free_rt p (list_del p rt2)) /\ fr ⊆ fr').
Proof.
  intros Hi Ht Hk Hrel.
  destruct (decr_rc _ _ _ _ _ _ _ Hi Ht) as (d & rt1 & Hd & Hkd & Hfr & E & Hi1 & Ho1 & Ho).
  pose proof (due_nonneg fr pend p) as Hge. exists (due fr pend p), rt1, d.
  split_and!; try done.
  - intros Hpos. apply (rc_unex _ _ _ _ p); [done..|lia].
  - intros H0 Hl.
    assert (Hj : is_js_object d = false) by (rewrite is_js_object_kind, Hkd; by destruct k).
    assert (Hb : rc_inv None (p :: curs) (p :: fr) (free_refs d ++ pend) rt1).
    { replace rt1 with (upd_obj p (GCObj 0 false (wk p) false d) rt1).
      2: { unfold upd_obj. rewrite insert_id by (by rewrite <- H0). by destruct rt1. }
      eapply rc_begin; eauto. }
    destruct (rc_release_all _ _ _ Hrel Hl _ _ _ _ Hb) as (rt2 & fr' & E2 & Hi2 & Hs).
    exists rt2, fr'. split; [done|]. split; [|set_solver].
    eapply rc_finish; [exact Hi2| |exact Hd|done..| |].
    + intros Hc. by apply Hfr, (ri_curs _ _ _ _ _ Hi).
    + intros q Hq. simpl. by rewrite lookup_delete_ne.
    + rewrite Hj. simpl. by rewrite lookup_delete_eq.
Qed.

Lemma rc_free_shape curs fr sh pend rt :
  rc_inv None curs fr (R_shape sh :: pend) rt ->
  exists rt' fr', js_free_shape phase sh rt = Some rt' /\ rc_inv None curs fr' pend rt' /\ fr ⊆ fr'.
Proof.
  intros Hi. destruct (rc_drop _ _ _ _ _ _ _ sh K_shape Hi eq_refl eq_refl rc_release0)
    as (n & rt1 & d & E & Hn & Hk & Ho & _ & Hpos & Hzero).
  unfold js_free_shape. rewrite E. simpl. case_decide as Hle.
  - assert (n = 0) as -> by lia. destruct d; try done.
    destruct Hzero as (rt2 & fr' & E2 & Hi2 & Hs); [done|by destruct proto|].
    unfold js_free_shape0. rewrite Ho. simpl in *. rewrite E2. simpl. eauto.
  - exists rt1, fr. split; [done|]. split; [apply Hpos; lia|done].
Qed.

Lemma rc_free_var_ref curs fr v pend rt :
  rc_inv None curs fr (R_var_ref v :: pend) rt ->
  exists rt' fr', free_var_ref phase v rt = Some rt' /\ rc_inv None curs fr' pend rt' /\ fr ⊆ fr'.
Proof.
  intros Hi. destruct (rc_drop _ _ _ _ _ _ _ v K_var_ref Hi eq_refl eq_refl rc_release0)
    as (n & rt1 & d & E & Hn & Hk & Ho1 & Ho & Hpos & Hzero).
  unfold free_var_ref. rewrite Ho. simpl. rewrite decide_True by lia. rewrite E. simpl.
  case_decide as H0.
  - destruct Hzero as (rt2 & fr' & E2 & Hi2 & Hs); [done|destruct d; try done; by destruct async_func|].
    destruct d; try done; simpl in *; rewrite E2; simpl; eauto.
  - exists rt1, fr. split; [done|]. split; [apply Hpos; lia|done].
Qed.

Lemma rc_release1 : rc_release_ok level1 (release1 phase).
Proof.
  intros curs fr r pend rt Hl Hi. destruct r as [v|sh|v|c|s]; simpl; try done.
  - by apply (rc_release0 _ _ (R_value v)).
  - by apply rc_free_shape.
  - by apply rc_free_var_ref.
  - by apply (rc_release0 _ _ (R_async s)).
Qed.

Lemma rc_free_context curs fr c pend rt :
  rc_inv None curs fr (R_context c :: pend) rt ->
  exists rt' fr', JS_FreeContext phase c rt = Some rt' /\ rc_inv None curs fr' pend rt' /\ fr ⊆ fr'.
Proof.
  intros Hi. destruct (rc_drop _ _ _ _ _ _ _ c K_context Hi eq_refl eq_refl rc_release1)
    as (n & rt1 & d & E & Hn & Hk & Ho & _ & Hpos & Hzero).
  unfold JS_FreeContext. rewrite E. cbn -[free_refs]. case_decide as Hlt.
  - exists rt1, fr. split; [done|]. split; [by apply Hpos|done].
  - assert (n = 0) as -> by lia. destruct d; try done.
    destruct Hzero as (rt2 & fr' & E2 & Hi2 & Hs); [done|apply context_level1|].
    rewrite Ho. cbn -[free_refs free_context_refs]. cbn [free_refs] in E2. rewrite E2. simpl. eauto.
Qed.

Lemma rc_release_any : rc_release_ok (fun _ => true) (release phase).
Proof.
  intros curs fr r pend rt Hl Hi. destruct r as [v|sh|v|c|s]; simpl.
  - by apply (rc_release0 _ _ (R_value v)).
  - by apply rc_free_shape.
  - by apply rc_free_var_ref.
  - by apply rc_free_context.
  - by apply (rc_release0 _ _ (R_async s)).
Qed.

(** *** Freeing a queued object *)

Lemma set_data_id o : set_data o (data o) = o.
Proof. by destruct o. Qed.

Lemma unlink_data_id m d : kind_of d <> K_context \/ m ∉ held_refs d -> unlink_module_data m d = d.
Proof.
  intros H. destruct d; try done. simpl in *. destruct H as [|H]; [done|].
  rewrite unlink_notin; [by destruct ctx|]. intros Hm. apply H. unfold held_refs. simpl.
  unfold JS_MarkContext. rewrite !elem_of_app. left. left. apply list_elem_of_bind. exists m. split; [by left|done].
Qed.

(** No context lists a module that is being freed: it would hold a reference
    to it. *)
Lemma rc_unlink_module fr rt p d :
  rc_inv None [p] fr [] rt -> D !! p = Some d -> kind_of d = K_module -> unlink_module p rt = rt.
Proof.
  intros Hi Hd Hk. destruct (ri_fr _ _ _ _ _ Hi p) as [_ H0]; [apply (ri_curs _ _ _ _ _ Hi); by left|].
  destruct (due_zero fr [] p H0) as [_ Hkids].
  assert (Hh : (fun o => set_data o (unlink_module_data p (data o))) <$> heap rt = heap rt).
  { apply map_eq. intros q. rewrite lookup_fmap. destruct (heap rt !! q) as [o|] eqn:Ho; [|done].
    simpl. f_equal. destruct (D !! q) as [e|] eqn:He.
    2: { rewrite (ri_old _ _ _ _ _ Hi q He) in Ho. by apply (HZ q). }
    transitivity (set_data o (data o)); [|apply set_data_id]. f_equal. apply unlink_data_id.
    destruct (decide (q ∈ fr)) as [Hq|Hq].
    - left. destruct (decide (q = p)) as [->|Hne].
      + destruct (ri_cur _ _ _ _ _ Hi p e ltac:(by left) He) as (o' & Ho' & _ & _ & Hk' & _).
        simplify_eq. by rewrite Hk', Hk.
      + pose proof (ri_gone _ _ _ _ _ Hi q e Hq ltac:(set_solver) He) as Hg.
        case_match; [|congruence]. destruct Hg as (o' & Ho' & _ & Hd'). simplify_eq. by rewrite Hd'.
    - right. destruct (ri_live _ _ _ _ _ Hi q e He Hq) as (m & Ho' & _). simplify_eq.
      simpl. intros Hin. apply Hq, Hkids. unfold kids_of. by rewrite He. }
  unfold unlink_module. rewrite Hh. by destruct rt.
Qed.

Lemma rc_references fr rt p d o :
  rc_inv None [] fr [] rt -> p ∈ gc_zero_ref_count_list rt -> D !! p = Some d ->
  ref_count o = 0 -> weakref_count o = wk p -> kind_of (data o) = kind_of d ->
  (is_js_object d = true -> free_mark o = true) ->
  exists rt' fr' o', release_all (release phase) (free_refs d) (upd_obj p o rt) = Some rt' /\
    rc_inv None [p] fr' [] rt' /\ p :: fr ⊆ fr' /\ heap rt' !! p = Some o' /\
    weakref_count o' = wk p /\ (is_js_object d = true -> free_mark o' = true).
Proof.
  intros Hi Hz Hd Hrc Hw Hk Hfm.
  assert (Hfr : p ∉ fr).
  { assert (H : p ∈ gc_obj_list rt ++ gc_zero_ref_count_list rt) by (apply elem_of_app; by right).
    apply (ri_mem _ _ _ _ _ Hi) in H as [_ [|H%not_elem_of_nil]]; done. }
  assert (H0 : due fr [] p = 0) by (apply (ri_zero _ _ _ _ _ Hi); eauto).
  pose proof (rc_begin None [] fr [] rt p d o Hi ltac:(by left) Hd Hfr H0 Hrc Hw Hk Hfm) as Hb.
  destruct (rc_release_all _ _ (free_refs d) rc_release_any ltac:(by apply forallb_forall) _ _ _ _ Hb)
    as (rt' & fr' & E & Hi' & Hs).
  destruct (ri_cur _ _ _ _ _ Hi' p d ltac:(by left) Hd) as (o' & Ho' & _ & Hw' & _ & Hf').
  eauto 10.
Qed.

Lemma rc_free_gc_object fr rt p d :
  rc_inv None [] fr [] rt -> p ∈ gc_zero_ref_count_list rt -> D !! p = Some d ->
  exists rt' fr', free_gc_object phase p rt = Some rt' /\ rc_inv None [] fr' [] rt' /\
    p ∉ fr /\ p :: fr ⊆ fr'.
Proof.
  intros Hi Hz Hd. pose proof (ri_owner _ _ _ _ _ Hi p d Hz Hd) as Hown.
  assert (Hfr : p ∉ fr).
  { assert (H : p ∈ gc_obj_list rt ++ gc_zero_ref_count_list rt) by (apply elem_of_app; by right).
    apply (ri_mem _ _ _ _ _ Hi) in H as [_ [|H%not_elem_of_nil]]; done. }
  assert (H0 : due fr [] p = 0) by (apply (ri_zero _ _ _ _ _ Hi); eauto).
  destruct (ri_live _ _ _ _ _ Hi p d Hd Hfr) as (m & Ho & _). rewrite H0 in Ho.
  assert (Hid : upd_obj p (GCObj 0 m (wk p) false d) rt = rt)
    by (unfold upd_obj; rewrite insert_id by done; by destruct rt).
  unfold free_gc_object. rewrite Ho. cbn [mbind option_bind data].
  destruct (is_js_object d) eqn:Hj.
  - destruct (rc_references fr rt p d (GCObj 0 m (wk p) true d)) as (rt2 & fr' & o & E & Hi2 & Hs & Ho2 & Hw & Hf);
      try done. exists (let o := set_data o (JS_GC_OBJ_TYPE_JS_OBJECT None [] U_none) in
        let rt := list_del p (upd_obj p o rt2) in
        if decide (wk p = 0) then js_free_rt p rt else upd_obj p (set_mark o false) rt), fr'.
    split.
    { destruct d; try done. unfold free_object. rewrite Ho. cbn [mbind option_bind data]. unfold set_free_mark.
      cbn [data ref_count mark weakref_count]. rewrite E. cbn [mbind option_bind]. rewrite Ho2.
      cbn [mbind option_bind]. rewrite decide_False by done. cbn [weakref_count set_data]. rewrite Hw.
      by destruct (decide (wk p = 0)). }
    split; [|done]. eapply rc_finish; [exact Hi2|apply not_elem_of_nil|exact Hd|..];
      [by case_decide|by case_decide| |].
    + intros q Hq. case_decide; simpl.
      * by rewrite lookup_delete_ne, lookup_insert_ne.
      * by rewrite !lookup_insert_ne.
    + rewrite Hj. case_decide as Hw0; simpl.
      * rewrite Hw0. simpl. apply lookup_delete_eq.
      * rewrite (proj2 (Z.eqb_neq _ _) Hw0). simpl. eexists. rewrite lookup_insert_eq. split; [done|].
        simpl. by split; [apply Hf|].
  - destruct (rc_references fr rt p d (GCObj 0 m (wk p) false d)) as (rt2 & fr' & o & E & Hi2 & Hs & Ho2 & Hw & _);
      try done; [by rewrite Hj|]. rewrite Hid in E.
    exists (js_free_rt p (list_del p rt2)), fr'.
    assert (Hst : free_struct phase p rt2 = Some (js_free_rt p (list_del p rt2))).
    { unfold free_struct. simpl. rewrite Ho2. simpl. rewrite decide_False by tauto. done. }
    split.
    { destruct d; try done; cbn [free_gc_object] in *.
      - by rewrite E.
      - case_decide as Hr; [|by rewrite E]. destruct Hr as [-> ->].
        pose proof (Hrun p _ _ _ Hd). destruct (due_zero fr [] p H0). lia.
      - rewrite E. cbn [mbind option_bind]. by rewrite (rc_unlink_module fr' rt2 p _ Hi2 Hd). }
    split; [|done]. eapply rc_finish; [exact Hi2|apply not_elem_of_nil|exact Hd|done..| |].
    + intros q Hq. simpl. by rewrite lookup_delete_ne.
    + rewrite Hj. simpl. by rewrite lookup_delete_eq.
Qed.
End releases.

(** *** The loop *)

Lemma rc_shrink (fr fr' : list ptr) p :
  is_Some (D !! p) -> p ∉ fr -> p :: fr ⊆ fr' ->
  (length (filter (fun q => q ∉ fr') all) < length (filter (fun q => q ∉ fr) all))%nat.
Proof.
  intros Hp Hfr Hs. apply Hdom in Hp.
  apply (submseteq_length (p :: filter (fun q => q ∉ fr') all)), NoDup_submseteq.
  - apply NoDup_cons. split; [|by apply NoDup_filter]. rewrite list_elem_of_filter. set_solver.
  - intros q. rewrite elem_of_cons, !list_elem_of_filter. set_solver.
Qed.

Lemma rc_loop fuel : forall fr rt,
  rc_inv None [] fr [] rt -> (length (filter (fun q => q ∉ fr) all) <= fuel)%nat ->
  exists rt' fr', free_zero_refcount fuel rt = Some rt' /\ rc_inv None [] fr' [] rt' /\
    gc_zero_ref_count_list rt' = [].
Proof.
  induction fuel as [|fuel IH]; intros fr rt Hi Hf; simpl;
    (destruct (gc_zero_ref_count_list rt) as [|p zs] eqn:Ez; [by exists rt, fr|]); simpl;
    (assert (Hz : p ∈ gc_zero_ref_count_list rt) by (rewrite Ez; by left));
    (assert (Hp : is_Some (D !! p)) by (apply (ri_mem _ _ _ _ _ Hi), elem_of_app; by right));
    destruct Hp as [d Hd];
    destruct (rc_free_gc_object JS_GC_PHASE_DECREF ltac:(done) fr rt p d Hi Hz Hd)
      as (rt1 & fr1 & E1 & Hi1 & Hfr & Hs);
    pose proof (rc_shrink fr fr1 p ltac:(eauto) Hfr Hs) as Hlt; [lia|].
  destruct (ri_live _ _ _ _ _ Hi p d Hd Hfr) as (m & Ho & _).
  rewrite Ho. cbn [mbind option_bind]. rewrite decide_True.
  2: { simpl. apply (ri_zero _ _ _ _ _ Hi); eauto. }
  rewrite E1. cbn [mbind option_bind]. apply IH with fr1; [done|lia].
Qed.

Lemma rc_size pend rt : rc_inv None [] [] pend rt -> (length all <= size (heap rt))%nat.
Proof.
  intros Hi. rewrite <- size_dom, <- (size_list_to_set (C := gset ptr) all) by done.
  apply subseteq_size. intros p. rewrite elem_of_list_to_set, elem_of_dom, <- Hdom. intros [d Hd].
  destruct (ri_live _ _ _ _ _ Hi p d Hd (not_elem_of_nil p)) as (m & -> & _). eauto.
Qed.

(** At the end the freed objects are exactly the unreferenced ones. *)
Lemma rc_end fr rt p :
  rc_inv None [] fr [] rt -> gc_zero_ref_count_list rt = [] -> unreferenced D ext p <-> p ∈ fr.
Proof.
  intros Hi Hz. split; [|intros Hp; by eapply Forall_forall in Hp; [|apply Hi]]. induction 1 as [p Hp Hx _ IH].
  destruct (decide (p ∈ fr)) as [|Hfr]; [done|]. exfalso.
  assert (Hn : due fr [] p <> 0).
  { intros H0. apply (ri_zero _ _ _ _ _ Hi p Hp Hfr ltac:(done)) in H0. rewrite Hz in H0.
    by apply not_elem_of_nil in H0. }
  assert (Hpos : 0 < kept_refs fr p).
  { pose proof (kept_nonneg fr p). unfold due in Hn. simpl in Hn. lia. }
  apply refs_pos in Hpos as (q & Hq & Hk). apply list_elem_of_filter in Hq as [Hq _].
  by apply Hq, IH.
Qed.
End cascade.

(** ** Correctness of a release *)

Section freed_value.
Context (ext : ptr -> Z) (rt : JSRuntime) (v : JSValue) (p : ptr) (k : gckind).
Context (Hready : gc_ready ext rt) (Htyped : typed (graph rt)) (Hrun : running_rooted ext (graph rt)).
Context (Hv : ref_target (R_value v) = Some (p, k)) (Hk : kind_of <$> graph rt !! p = Some k)
        (Hheld : 0 < ext p).

Let D := graph rt.
Let wk (p : ptr) : Z := match heap rt !! p with Some o => weakref_count o | None => 0 end.

(** The external references once the caller has given one up. *)
Definition less_one (ext : ptr -> Z) (p q : ptr) : Z := if decide (q = p) then ext q - 1 else ext q.

Let ext' := less_one ext p.

Lemma less_one_nonneg q : 0 <= ext' q.
Proof. unfold ext', less_one. pose proof (gr_ext _ _ (proj1 Hready) q). case_decide; subst; lia. Qed.

Lemma less_one_running : running_rooted ext' D.
Proof.
  intros q cf tv rf Hq. pose proof (Hrun q cf tv rf Hq). unfold ext', less_one. case_decide; [|done].
  subst q. unfold D in Hq. rewrite Hq in Hk. injection Hk as <-. by destruct v.
Qed.

Lemma rc_start : rc_inv D ext' wk (heap rt) (gc_obj_list rt) None [] [] [R_value v] rt.
Proof.
  pose proof Hready as [[Hlk Hnd Hz Hmk _ Hc _ _ _] Hpos].
  assert (Hdue : forall q, due D ext' (gc_obj_list rt) [] [R_value v] q =
    ext q + refs_of held_refs D (gc_obj_list rt) q).
  { intros q. rewrite (due_target D ext' (gc_obj_list rt) [] _ [] p k q Hv). unfold due, kept_refs, ext', less_one.
    rewrite filter_all by (intros; apply not_elem_of_nil). simpl. case_decide; lia. }
  split; try (by intros ? ?%not_elem_of_nil); try (by intros ? ? ?%not_elem_of_nil); try done.
  - intros q d Hd _. apply graph_lookup in Hd as (o & Ho & Hf & Hdo). exists false. split; [|done].
    rewrite Hdue. pose proof (Hc q o Ho Hf) as Hq. fold D in Hq. rewrite <- Hq. unfold wk. rewrite Ho.
    pose proof (Hmk q o Ho Hf). destruct o; simpl in *. congruence.
  - constructor; [|constructor]. intros q j Hq. rewrite Hv in Hq. by injection Hq as <- <-.
  - by rewrite Hz, app_nil_r.
  - intros q. rewrite Hz, app_nil_r, <- Hlk. unfold D. pose proof (not_elem_of_nil q). tauto.
  - intros q [d Hd] _ _. rewrite Hz, Hdue. apply graph_lookup in Hd as (o & Ho & Hf & _).
    pose proof (Hpos q o Ho Hf) as H1. pose proof (Hc q o Ho Hf) as H2. fold D in H2. split; [by intros ?%not_elem_of_nil|lia].
  - rewrite Hz. by intros q d ?%not_elem_of_nil.
Qed.

Lemma free_value_spec :
  exists rt' fr, JS_FreeValue v rt = Some rt' /\ gc_zero_ref_count_list rt' = [] /\
    rc_inv D ext' wk (heap rt) (gc_obj_list rt) None [] fr [] rt'.
Proof.
  pose proof Hready as [[Hlk Hnd _ _ _ _ _ _ _] _].
  destruct (rc_free_value D ext' wk (heap rt) (gc_obj_list rt) less_one_nonneg Hlk
    JS_GC_PHASE_NONE ltac:(done) _ _ _ _ _ rc_start) as (rt1 & E1 & Hi1).
  destruct (rc_loop D ext' wk (heap rt) (gc_obj_list rt) Htyped less_one_nonneg Hnd Hlk
    (zombie_unlink ext rt (proj1 Hready)) less_one_running (size (heap rt1)) [] rt1 Hi1)
    as (rt' & fr & E & Hi & Hz).
  { rewrite filter_all by (intros; apply not_elem_of_nil).
    by apply (rc_size D ext' wk (heap rt) _ Hnd Hlk [] rt1). }
  exists rt', fr. unfold JS_FreeValue. rewrite E1. cbn [mbind option_bind]. done.
Qed.

Section after.
Context (rt' : JSRuntime) (fr : list ptr).
Context (Hi : rc_inv D ext' wk (heap rt) (gc_obj_list rt) None [] fr [] rt')
        (Hz : gc_zero_ref_count_list rt' = []).

Lemma after_lists q : q ∈ gc_obj_list rt' <-> is_Some (D !! q) /\ q ∉ fr.
Proof.
  pose proof (ri_mem _ _ _ _ _ _ _ _ _ _ Hi q) as H. rewrite Hz, app_nil_r in H.
  pose proof (not_elem_of_nil q). tauto.
Qed.

Lemma after_live q o :
  heap rt' !! q = Some o -> free_mark o = false ->
  D !! q = Some (data o) /\ q ∉ fr /\ mark o = false /\
  ref_count o = ext' q + refs_of held_refs D (gc_obj_list rt') q.
Proof.
  intros Ho Hf. destruct (D !! q) as [d|] eqn:Hd.
  2: { rewrite (ri_old _ _ _ _ _ _ _ _ _ _ Hi q Hd) in Ho.
       pose proof (graph_live rt q o Ho Hf) as Hg. unfold D in Hd. congruence. }
  destruct (decide (q ∈ fr)) as [Hq|Hq].
  - pose proof (ri_gone _ _ _ _ _ _ _ _ _ _ Hi q d Hq (not_elem_of_nil q) Hd) as Hg.
    case_match; [|congruence]. destruct Hg as (o' & Ho' & Hf' & _). congruence.
  - destruct (ri_live _ _ _ _ _ _ _ _ _ _ Hi q d Hd Hq) as (m & Ho' & Hm).
    rewrite Ho in Ho'. injection Ho' as ->. simpl. split_and!; try done.
    + apply Hm, after_lists. eauto.
    + unfold due, kept_refs. simpl. rewrite Z.add_0_r. f_equal. apply refs_Permutation.
      pose proof Hready as [[Hlk Hnd _ _ _ _ _ _ _] _].
      pose proof (ri_nodup _ _ _ _ _ _ _ _ _ _ Hi) as Hnd'. rewrite Hz, app_nil_r in Hnd'.
      apply NoDup_Permutation; [by apply NoDup_filter|done|]. intros x.
      rewrite list_elem_of_filter, after_lists, <- Hlk. tauto.
Qed.

Lemma after_graph q d : graph rt' !! q = Some d <-> D !! q = Some d /\ q ∉ fr.
Proof.
  rewrite graph_lookup. split.
  - intros (o & Ho & Hf & <-). by destruct (after_live q o Ho Hf) as (? & ? & _).
  - intros [Hd Hq]. destruct (ri_live _ _ _ _ _ _ _ _ _ _ Hi q d Hd Hq) as (m & Ho & _). by eexists.
Qed.

Lemma after_refs l q : l ⊆ gc_obj_list rt' -> refs_of held_refs (graph rt') l q = refs_of held_refs D l q.
Proof.
  induction l as [|x l IH]; intros Hs; [done|]. rewrite !refs_cons, IH by set_solver. f_equal.
  assert (Hx : x ∈ gc_obj_list rt') by set_solver. apply after_lists in Hx as [[d Hd] Hx].
  unfold kids_of. by rewrite Hd, (proj2 (after_graph x d)).
Qed.

Lemma after_count q : is_Some (D !! q) -> q ∉ fr -> 0 < ext' q + refs_of held_refs D (gc_obj_list rt') q.
Proof.
  intros [d Hd] Hq. pose proof (less_one_nonneg q) as Hx. pose proof (refs_nonneg held_refs D (gc_obj_list rt') q).
  destruct (ri_live _ _ _ _ _ _ _ _ _ _ Hi q d Hd Hq) as (m & Ho & _).
  destruct (after_live q _ Ho eq_refl) as (_ & _ & _ & Hc). simpl in Hc.
  assert (Hn : due D ext' (gc_obj_list rt) fr [] q <> 0); [|lia].
  intros H0. apply (ri_zero _ _ _ _ _ _ _ _ _ _ Hi q ltac:(eauto) Hq ltac:(done)) in H0.
  rewrite Hz in H0. by apply not_elem_of_nil in H0.
Qed.

Lemma after_positive q o :
  heap rt' !! q = Some o -> free_mark o = false -> 0 < ref_count o.
Proof.
  intros Ho Hf. destruct (after_live q o Ho Hf) as (Hd & Hq & _ & ->).
  apply after_count; [eauto|done].
Qed.

Lemma after_ready : gc_ready ext' rt'.
Proof.
  pose proof Hready as [[Hlk Hnd _ _ _ _ _ Hzm _] _].
  split; [|exact after_positive]. split; try done.
  - intros q. rewrite after_lists. split.
    + intros [d Hd]. apply after_graph in Hd as [? ?]. eauto.
    + intros [[d Hd] Hq]. exists d. by apply after_graph.
  - pose proof (ri_nodup _ _ _ _ _ _ _ _ _ _ Hi) as H. by rewrite Hz, app_nil_r in H.
  - intros q o Ho Hf. by destruct (after_live q o Ho Hf) as (_ & _ & ? & _).
  - apply less_one_nonneg.
  - intros q o Ho Hf. destruct (after_live q o Ho Hf) as (Hd & Hq & _ & ->).
    by rewrite after_refs.
  - intros q c [d Hd] Hc. apply after_graph in Hd as Hd'. destruct Hd' as [HdD Hq].
    assert (HcD : c ∈ kids_of held_refs D q) by (unfold kids_of in *; by rewrite Hd in Hc; rewrite HdD).
    destruct (typed_closed D q c Htyped ltac:(eauto) HcD) as [e He]. exists e. apply after_graph.
    split; [done|]. intros Hcf.
    assert (Hu : unreferenced D ext' c)
      by (by eapply Forall_forall in Hcf; [|apply (ri_unref _ _ _ _ _ _ _ _ _ _ Hi)]).
    destruct Hu as [c _ _ Hu].
    apply Hq, (rc_end D ext' wk (heap rt) (gc_obj_list rt) fr rt' q Hi Hz). by apply Hu.
  - intros q o Ho Hf. destruct (D !! q) as [d|] eqn:Hd.
    2: { rewrite (ri_old _ _ _ _ _ _ _ _ _ _ Hi q Hd) in Ho. by apply (Hzm q). }
    destruct (decide (q ∈ fr)) as [Hq|Hq].
    + pose proof (ri_gone _ _ _ _ _ _ _ _ _ _ Hi q d Hq (not_elem_of_nil q) Hd) as Hg.
      case_match; [|congruence]. destruct Hg as (o' & Ho' & _ & Hd'). congruence.
    + destruct (ri_live _ _ _ _ _ _ _ _ _ _ Hi q d Hd Hq) as (m & Ho' & _). rewrite Ho in Ho'. by injection Ho' as ->.
  - intros q o Ho Hf _. by apply (after_positive q o).
Qed.
End after.
End freed_value.


(** Object 1 holds the closure 2, which is weakly referenced and whose
    variable 3 holds object 5; all share the shape 0. *)
Definition demo_rc : JSRuntime :=
  Runtime (list_to_map [
    (0%nat, GCObj 3 false 0 false (JS_GC_OBJ_TYPE_SHAPE None));
    (1%nat, GCObj 1 false 0 false (JS_GC_OBJ_TYPE_JS_OBJECT (Some 0%nat)
       [PropSlot false (JS_PROP_NORMAL (JS_TAG_OBJECT 2%nat))] U_none));
    (2%nat, GCObj 1 false 1 false (JS_GC_OBJ_TYPE_JS_OBJECT (Some 0%nat) []
       (U_func None (Some 4%nat) (Some [Some 3%nat]))));
    (3%nat, GCObj 1 false 0 false (JS_GC_OBJ_TYPE_VAR_REF_detached (JS_TAG_OBJECT 5%nat)));
    (4%nat, GCObj 1 false 0 false (JS_GC_OBJ_TYPE_FUNCTION_BYTECODE [] None None));
    (5%nat, GCObj 1 false 0 false (JS_GC_OBJ_TYPE_JS_OBJECT (Some 0%nat) [] U_none))]) (seq 0 6) [] [].

(** Releasing object 1 frees everything but the emptied structure of 2. *)
Example demo_release :
  option_map (fun rt => (gc_obj_list rt, (fun p => ref_count <$> heap rt !! p) <$> seq 0 6))
    (JS_FreeValue (JS_TAG_OBJECT 1%nat) demo_rc) =
  Some ([], [None; None; Some 0; None; None; None]).
Proof. vm_compute. reflexivity. Qed.

