(* ===== verification/Native.v ===== *)
(** * Native resources and handler results (src/dyna-nat.c, src/dyna-nat.h)

    Every class of the [dyna:*] modules wraps a C structure in a
    [DynResource] that can be closed at any time by the script.  The file
    models that wrapper and the outcome type of the JS-callable handlers. *)
From S2P Require Import Prelude.

(** ** Outcomes of a handler *)

Inductive js_error : Type :=
| TypeError | RangeError | SyntaxError | OutOfMemory
| UserException    (* thrown by a script callback or by a coercion *)
| Fault.           (* not an exception: an access to unallocated memory *)

#[export] Instance js_error_eq_dec : EqDecision js_error.
Proof. solve_decision. Defined.

(** A handler returns a value or throws. *)
Inductive outcome (A : Type) : Type :=
| Ret (a : A)
| Throw (e : js_error).
Arguments Ret {A} _.
Arguments Throw {A} _.

(** ** [DynResource] *)

Section resource.
Context {A : Type}.

(** [native] is the wrapped structure; [None] is the NULL left behind by
    the disposal. *)
Record DynResource := Resource { native : option A; closed : bool }.

(** [dyn_res_wrap] on success. *)
Definition dyn_res_wrap (a : A) : DynResource := Resource (Some a) false.

(** [dyn_res_release]: the new resource and the structures disposed of. *)
Definition dyn_res_release (r : DynResource) : DynResource * list A :=
  if closed r then (r, [])
  else (Resource None true, match native r with Some a => [a] | None => [] end).

(** [dyn_res_native]: a closed resource throws a TypeError. *)
Definition dyn_res_native (r : DynResource) : outcome (option A) :=
  if closed r then Throw TypeError else Ret (native r).

(** [close()] and [closed]. *)
Definition dyn_method_close (r : DynResource) : DynResource * list A := dyn_res_release r.
Definition dyn_getter_closed (r : DynResource) : bool := closed r.

(** An open resource has its structure, a closed one has none. *)
Definition res_ok (r : DynResource) : Prop :=
  closed r = true <-> native r = None.

Lemma dyn_res_wrap_ok a : res_ok (dyn_res_wrap a).
Proof. by split. Qed.

Lemma dyn_res_release_ok r : res_ok r -> res_ok (dyn_res_release r).1.
Proof. unfold dyn_res_release. destruct (closed r) eqn:E; simpl; [done|]. by split. Qed.

(** Any number of [close()] calls and the finalizer dispose of the
    structure exactly once. *)
Fixpoint release_n (n : nat) (r : DynResource) : DynResource * list A :=
  match n with
  | O => (r, [])
  | S n => let '(r, d1) := dyn_res_release r in
           let '(r, d2) := release_n n r in (r, d1 ++ d2)
  end.

Lemma release_n_closed n r : closed r = true -> release_n n r = (r, []).
Proof.
  intros H. induction n as [|n IH]; simpl; [done|].
  unfold dyn_res_release. rewrite H. by rewrite IH.
Qed.

Lemma release_n_once n a :
  release_n (S n) (dyn_res_wrap a) = (Resource None true, [a]).
Proof. simpl. by rewrite release_n_closed. Qed.
End resource.
Arguments DynResource : clear implicits.
