(* ===== verification/Refine.v ===== *)
(** * Refinement of native components

    The interface between a [dyna:*] container and its clients.  A component
    is a deterministic machine: an operation takes the state to a result, a
    new state and the references given up through [JS_FreeValueRT].
    [Refines] says that it implements an abstract specification and that it
    neither leaks nor double-frees the script values it owns.  The theorems
    of this file, proved against the interface alone, lift one step to
    sequences of calls and to the closable resource of [Native]; every
    container of the development is an instance. *)
From S2P Require Import Prelude Native.

Section interface.
Context {Op R V S A : Type}.

Definition machine : Type := Op -> S -> outcome R * S * list V.
Definition specification : Type := Op -> A -> outcome R * A.

(** What a call takes from and hands to its caller. *)
Record ownership := Ownership {
  owned : S -> list V;
  taken : Op -> outcome R -> list V;
  moved : Op -> outcome R -> list V;
}.

(** One call against the specification: the specified result, or an
    out-of-memory error that leaves the abstract state alone, and that only
    when [may_fail] allows it. *)
Definition spec_step (spec : specification) (may_fail : Op -> A -> Prop)
    (o : Op) (a : A) (r : outcome R) (a' : A) : Prop :=
  spec o a = (r, a') \/ (r = Throw OutOfMemory /\ a' = a /\ may_fail o a).

Class Refines (run : machine) (spec : specification) (own : ownership)
    (op_ok : Op -> Prop) (may_fail : Op -> A -> Prop)
    (inv : S -> Prop) (abstract : S -> A) : Prop := {
  refines_step : forall o s r s' fr,
    op_ok o -> inv s -> run o s = (r, s', fr) ->
    inv s' /\ owned own s' ++ fr ++ moved own o r ≡ₚ owned own s ++ taken own o r /\
    spec_step spec may_fail o (abstract s) r (abstract s')
}.

(** ** Sequences of calls *)

Fixpoint run_trace (run : machine) (ops : list Op) (s : S) : list (outcome R) * S * list V :=
  match ops with
  | [] => ([], s, [])
  | o :: ops =>
      let '(r, s, f1) := run o s in
      let '(rs, s, f2) := run_trace run ops s in (r :: rs, s, f1 ++ f2)
  end.

Inductive spec_trace (spec : specification) (may_fail : Op -> A -> Prop)
    : list Op -> A -> list (outcome R) -> A -> Prop :=
| spec_trace_nil a : spec_trace spec may_fail [] a [] a
| spec_trace_cons o ops a r a1 rs a2 :
    spec_step spec may_fail o a r a1 -> spec_trace spec may_fail ops a1 rs a2 ->
    spec_trace spec may_fail (o :: ops) a (r :: rs) a2.

(** Totals of the references exchanged by a sequence. *)
Fixpoint total (f : Op -> outcome R -> list V) (ops : list Op) (rs : list (outcome R)) : list V :=
  match ops, rs with
  | o :: ops, r :: rs => f o r ++ total f ops rs
  | _, _ => []
  end.

Lemma balance_chain (o0 o1 o2 f1 f2 m1 m2 t1 t2 : list V) :
  o1 ++ f1 ++ m1 ≡ₚ o0 ++ t1 -> o2 ++ f2 ++ m2 ≡ₚ o1 ++ t2 ->
  o2 ++ (f1 ++ f2) ++ m1 ++ m2 ≡ₚ o0 ++ t1 ++ t2.
Proof.
  intros H1 H2. rewrite (app_assoc o0), <- H1.
  transitivity ((o1 ++ t2) ++ f1 ++ m1); [rewrite <- H2|]; solve_Permutation.
Qed.

Lemma trace_refines `{HR : Refines run spec own op_ok may_fail inv abstract} ops :
  forall s rs s' fr,
  Forall op_ok ops -> inv s -> run_trace run ops s = (rs, s', fr) ->
  inv s' /\
  owned own s' ++ fr ++ total (moved own) ops rs ≡ₚ owned own s ++ total (taken own) ops rs /\
  spec_trace spec may_fail ops (abstract s) rs (abstract s').
Proof.
  induction ops as [|o ops IH]; simpl; intros s rs s' fr Hops Hi E.
  - simplify_eq/=. split; [done|]. split; [done|constructor].
  - apply Forall_cons in Hops as [Ho Hops].
    destruct (run o s) as [[r s1] f1] eqn:E1.
    destruct (run_trace run ops s1) as [[rs1 s2] f2] eqn:E2. simplify_eq/=.
    destruct (refines_step o s r s1 f1 Ho Hi E1) as (Hi1 & Hb1 & Hs1).
    destruct (IH s1 rs1 s' f2 Hops Hi1 E2) as (Hi2 & Hb2 & Hs2).
    split; [done|]. split; [by eapply balance_chain|by econstructor].
Qed.

(** A specification without faults gives traces without faults. *)
Lemma spec_trace_no_fault spec may_fail ops a rs a' :
  (forall o a, (spec o a).1 <> Throw Fault) ->
  spec_trace spec may_fail ops a rs a' -> forall i, rs !! i <> Some (Throw Fault).
Proof.
  intros Hs. induction 1 as [|o ops a r a1 rs a2 Hst _ IH]; intros [|i]; simpl; try done.
  intros [= ->]. destruct Hst as [E|(E & _)]; [|done]. apply (Hs o a). by rewrite E.
Qed.
End interface.
Arguments machine : clear implicits.
Arguments specification : clear implicits.
Arguments ownership : clear implicits.

(** ** Lifting to a closable resource

    A method resolves [this] after all coercions, so the script code a
    coercion runs is a prefix of the sequence of calls; [close()] may come
    anywhere in it. *)
Section resource.
Context {Op R V S A : Type}.
Context (run : machine Op R V S) (free : S -> list V).

Inductive res_op : Type := Call (o : Op) | Close.

(** A call resolves the structure with [dyn_res_native]; [close()] disposes
    of it.  [None] is the [undefined] that [close()] returns. *)
Definition res_run (o : res_op) (r : DynResource S)
    : outcome (option R) * DynResource S * list V :=
  match o with
  | Close => let '(r, disposed) := dyn_method_close r in (Ret None, r, concat (free <$> disposed))
  | Call o =>
      match dyn_res_native r with
      | Throw e => (Throw e, r, [])
      | Ret None => (Throw Fault, r, [])
      | Ret (Some s) =>
          let '(out, s, fr) := run o s in
          (match out with Ret x => Ret (Some x) | Throw e => Throw e end,
           Resource (Some s) false, fr)
      end
  end.

(** The specification of a closable component: [None] once closed. *)
Definition res_spec (spec : specification Op R A) (o : res_op) (a : option A)
    : outcome (option R) * option A :=
  match o, a with
  | Close, _ => (Ret None, None)
  | Call _, None => (Throw TypeError, None)
  | Call o, Some a =>
      let '(out, a) := spec o a in
      (match out with Ret x => Ret (Some x) | Throw e => Throw e end, Some a)
  end.

Definition res_own (own : ownership Op R V S) : ownership res_op (option R) V (DynResource S) :=
  let at_call (f : Op -> outcome R -> list V) o out :=
    match o, out with
    | Call o, Ret (Some x) => f o (Ret x)
    | Call o, Throw e => f o (Throw e)
    | _, _ => []
    end in
  Ownership (fun r => match native r with Some s => owned own s | None => [] end)
    (at_call (taken own)) (at_call (moved own)).

Definition res_op_ok (op_ok : Op -> Prop) (o : res_op) : Prop :=
  match o with Call o => op_ok o | Close => True end.
Definition res_may_fail (may_fail : Op -> A -> Prop) (o : res_op) (a : option A) : Prop :=
  match o, a with Call o, Some a => may_fail o a | _, _ => False end.
Definition res_inv (inv : S -> Prop) (r : DynResource S) : Prop :=
  res_ok r /\ forall s, native r = Some s -> inv s.
Definition res_abs (abstract : S -> A) (r : DynResource S) : option A := abstract <$> native r.

(** An error of the component takes and hands over nothing. *)
Definition errors_keep (own : ownership Op R V S) : Prop :=
  forall o e, taken own o (Throw e) = [] /\ moved own o (Throw e) = [].

Lemma resource_refines spec own op_ok may_fail inv abstract :
  Refines run spec own op_ok may_fail inv abstract ->
  (forall s, inv s -> free s ≡ₚ owned own s) -> errors_keep own ->
  Refines res_run (res_spec spec) (res_own own) (res_op_ok op_ok) (res_may_fail may_fail)
    (res_inv inv) (res_abs abstract).
Proof.
  intros HR Hfree Hkeep. split. intros [o|] [n c] out r' fr Hok [Hres Hi] E; simpl in *.
  - unfold dyn_res_native, res_ok in *. simpl in *. destruct c.
    + destruct n; [exfalso; naive_solver|]. simplify_eq/=.
      destruct (Hkeep o TypeError) as [-> ->].
      split; [split; [done|naive_solver]|]. split; [done|]. by left.
    + destruct n as [s|]; [|naive_solver].
      destruct (run o s) as [[out1 s1] f1] eqn:E1. simplify_eq/=.
      destruct (refines_step o s out1 s1 fr Hok (Hi s eq_refl) E1) as (Hi1 & Hb & Hs).
      split; [split; [done|naive_solver]|].
      split; [by destruct out1|].
      unfold spec_step in *. simpl. destruct Hs as [Hs|(-> & Ha & Hf)].
      * left. unfold res_abs. simpl. by rewrite Hs.
      * right. unfold res_abs. simpl. by rewrite Ha.
  - unfold dyn_method_close, dyn_res_release in E. simpl in E. destruct c; simplify_eq/=.
    + assert (n = None) as -> by (by apply Hres).
      split; [split; [done|naive_solver]|]. split; [done|]. by left.
    + split; [split; [done|naive_solver]|]. split; [|by left].
      destruct n as [s|]; simpl; [|done]. by rewrite Hfree, !app_nil_r by eauto.
Qed.

(** A whole life of a resource: from its constructor through any calls. *)
Lemma resource_trace spec own op_ok may_fail inv abstract s0 ops rs r fr :
  Refines run spec own op_ok may_fail inv abstract ->
  (forall s, inv s -> free s ≡ₚ owned own s) -> errors_keep own ->
  inv s0 -> owned own s0 = [] -> Forall (res_op_ok op_ok) ops ->
  run_trace res_run ops (dyn_res_wrap s0) = (rs, r, fr) ->
  res_inv inv r /\
  spec_trace (res_spec spec) (res_may_fail may_fail) ops (Some (abstract s0)) rs (res_abs abstract r) /\
  owned (res_own own) r ++ fr ++ total (moved (res_own own)) ops rs
    ≡ₚ total (taken (res_own own)) ops rs.
Proof.
  intros HR Hf He Hi H0 Hops E.
  pose proof (resource_refines spec own op_ok may_fail inv abstract HR Hf He) as HR'.
  destruct (trace_refines (HR := HR') ops (dyn_res_wrap s0) rs r fr Hops) as (H1 & H2 & H3); [|done|].
  - split; [by split|]. simpl. intros s [= <-]. done.
  - simpl in H2. rewrite H0 in H2. done.
Qed.
End resource.
Arguments Call {Op} _.
Arguments Close {Op}.
