(* ===== verification/Structures.v ===== *)
(** * dyna:structures: Vector and HashMap (src/dyna-structures.c) *)
From S2P Require Import Prelude Native Refine.

(** Values are opaque to the containers. *)

Definition sizeof_JSValue : Z := 16.

(** ** Capacity growth, shared by Vector and Heap

    [dyn_vector_reserve] and [dyn_heap_reserve] have the same body. *)

(** The doubling loop; 32 iterations are enough for a [uint32_t]. *)
Fixpoint grow_cap (fuel : nat) (ncap need : Z) : option Z :=
  if ncap <? need then
    if (UINT32_MAX / 2 <? ncap) || (UINT32_MAX / sizeof_JSValue / 2 <? ncap) then Some need
    else match fuel with
         | O => None
         | S fuel => grow_cap fuel (u32 (ncap * 2)) need
         end
  else Some ncap.

(** [Some cap'] on success (0), [None] on failure (-1); [alloc] is the
    outcome of [realloc]. *)
Definition reserve (alloc : bool) (cap need : Z) : option Z :=
  if need <=? cap then Some cap
  else if UINT32_MAX / sizeof_JSValue <? need then None
  else ncap ← grow_cap 32 (if cap =? 0 then 8 else cap) need;
       if alloc then Some ncap else None.

(** The capacity invariant: the byte size fits [uint32_t]. *)
Definition cap_ok (cap : Z) : Prop := 0 <= cap <= UINT32_MAX / sizeof_JSValue.

Ltac cap_consts :=
  unfold cap_ok in *;
  change (UINT32_MAX / sizeof_JSValue / 2) with 134217727 in *;
  change (UINT32_MAX / sizeof_JSValue) with 268435455 in *;
  change (UINT32_MAX / 2) with 2147483647 in *.

Lemma grow_cap_spec fuel : forall ncap need,
  cap_ok need -> 0 < ncap <= UINT32_MAX / sizeof_JSValue ->
  need <= ncap * 2 ^ Z.of_nat fuel ->
  exists c, grow_cap fuel ncap need = Some c /\ need <= c /\ cap_ok c.
Proof.
  induction fuel as [|fuel IH]; intros ncap need Hneed Hn Hf; simpl; cap_consts.
  - destruct (ncap <? need) eqn:E; [simpl in Hf; lia|]. exists ncap. split; [done|lia].
  - destruct (ncap <? need) eqn:E; [|exists ncap; split; [done|lia]].
    destruct ((2147483647 <? ncap) || (134217727 <? ncap)) eqn:Eg;
      [exists need; split; [done|lia]|].
    apply orb_false_elim in Eg as [E1 E2]. rewrite u32_small by lia.
    apply IH; [lia|lia|]. rewrite Nat2Z.inj_succ, Z.pow_succ_r in Hf by lia. lia.
Qed.

Lemma reserve_spec cap need :
  cap_ok cap -> 0 <= need ->
  match reserve true cap need with
  | Some c => need <= c /\ cap_ok c
  | None => UINT32_MAX / sizeof_JSValue < need
  end.
Proof.
  intros Hc Hn. unfold reserve. destruct (need <=? cap) eqn:E1; [split; [lia|done]|].
  destruct (UINT32_MAX / sizeof_JSValue <? need) eqn:E2; [lia|].
  destruct (grow_cap_spec 32 (if cap =? 0 then 8 else cap) need) as (c & E & Hle & Hok).
  - cap_consts. lia.
  - cap_consts. destruct (cap =? 0) eqn:E; lia.
  - cap_consts. change (2 ^ Z.of_nat 32) with 4294967296. destruct (cap =? 0) eqn:E; lia.
  - by rewrite E.
Qed.

(** A reservation that succeeded did not depend on the failing allocator. *)
Lemma reserve_mono a cap need c : reserve a cap need = Some c -> reserve true cap need = Some c.
Proof.
  unfold reserve. destruct (need <=? cap); [done|]. destruct (_ <? need); [done|].
  destruct (grow_cap _ _ _), a; done.
Qed.

(** ** Vector *)

Module Vector.
Section vector.
Context {V : Type}.

(** [items] holds the first [count] slots of the C array. *)
Record dyn_vector_t := Vec { items : list V; cap : Z }.

Definition count (v : dyn_vector_t) : Z := Z.of_nat (length (items v)).

(** [dyn_vector_ctor]. *)
Definition dyn_vector_ctor : dyn_vector_t := Vec [] 0.

(** What a call returns to the script. *)
Inductive reply : Type := R_int (n : Z) | R_val (v : V) | R_undefined.

(** The outcome, the new state, and the references released by
    [JS_FreeValueRT]. *)
Definition step : Type := outcome reply * dyn_vector_t * list V.

(** [push(v)]: [alloc] is the outcome of the reallocation. *)
Definition dyn_vector_push (alloc : bool) (x : V) (v : dyn_vector_t) : step :=
  match reserve alloc (cap v) (u32 (count v + 1)) with
  | None => (Throw OutOfMemory, v, [])
  | Some c => let v' := Vec (items v ++ [x]) c in (Ret (R_int (count v')), v', [])
  end.

(** [get(i)], [set(i, x)]: [i] is the coerced [uint32_t] index. *)
Definition dyn_vector_get (i : Z) (v : dyn_vector_t) : step :=
  if count v <=? i then (Ret R_undefined, v, [])
  else match items v !! Z.to_nat i with
       | Some x => (Ret (R_val x), v, [])
       | None => (Throw Fault, v, [])
       end.

Definition dyn_vector_set (i : Z) (x : V) (v : dyn_vector_t) : step :=
  if count v <=? i then (Throw RangeError, v, [])
  else (Ret R_undefined, Vec (<[Z.to_nat i := x]> (items v)) (cap v),
        match items v !! Z.to_nat i with Some old => [old] | None => [] end).

Definition dyn_vector_pop (v : dyn_vector_t) : step :=
  match last (items v) with
  | None => (Ret R_undefined, v, [])
  | Some x => (Ret (R_val x), Vec (removelast (items v)) (cap v), [])
  end.

Definition dyn_vector_length (v : dyn_vector_t) : step := (Ret (R_int (count v)), v, []).

(** [dyn_vector_free]: the values released by the disposal. *)
Definition dyn_vector_free (v : dyn_vector_t) : list V := items v.

Inductive op : Type :=
| Push (alloc : bool) (x : V) | Get (i : Z) | Set_ (i : Z) (x : V) | Pop | Length.

Definition run_op (o : op) (v : dyn_vector_t) : step :=
  match o with
  | Push a x => dyn_vector_push a x v
  | Get i => dyn_vector_get i v
  | Set_ i x => dyn_vector_set i x v
  | Pop => dyn_vector_pop v
  | Length => dyn_vector_length v
  end.

(** *** Specification: a JS array without holes *)

Definition spec_op (o : op) (l : list V) : outcome reply * list V :=
  match o with
  | Push _ x => (Ret (R_int (Z.of_nat (length l) + 1)), l ++ [x])
  | Get i => (Ret (match l !! Z.to_nat i with Some x => R_val x | None => R_undefined end), l)
  | Set_ i x =>
      if decide (is_Some (l !! Z.to_nat i)) then (Ret R_undefined, <[Z.to_nat i := x]> l)
      else (Throw RangeError, l)
  | Pop => match last l with
           | Some x => (Ret (R_val x), removelast l) | None => (Ret R_undefined, l) end
  | Length => (Ret (R_int (Z.of_nat (length l))), l)
  end.

(** Indices are [uint32_t]. *)
Definition op_ok (o : op) : Prop :=
  match o with Get i | Set_ i _ => 0 <= i < 2 ^ 32 | _ => True end.

Definition vector_ok (v : dyn_vector_t) : Prop := cap_ok (cap v) /\ count v <= cap v.

(** A call stores the reference it is given, and [pop] hands one over. *)
Definition own : ownership op reply V dyn_vector_t :=
  Ownership items
    (fun o r => match o, r with Push _ x, Ret _ | Set_ _ x, Ret _ => [x] | _, _ => [] end)
    (fun o r => match o, r with Pop, Ret (R_val x) => [x] | _, _ => [] end).

(** Only [push] allocates; it also fails when the array would not fit. *)
Definition may_fail (o : op) (l : list V) : Prop :=
  match o with
  | Push alloc _ => alloc = false \/ UINT32_MAX / sizeof_JSValue < Z.of_nat (length l) + 1
  | _ => False
  end.

Lemma removelast_last (l : list V) x : last l = Some x -> l = removelast l ++ [x].
Proof.
  intros Hl. rewrite last_lookup in Hl. destruct l as [|y l] using rev_ind; [done|].
  rewrite removelast_last. f_equal. rewrite length_app in Hl. simpl in Hl.
  replace (pred (length l + 1)) with (length l) in Hl by lia.
  rewrite list_lookup_middle in Hl by done. congruence.
Qed.

Lemma get_index (v : dyn_vector_t) i :
  0 <= i -> (count v <= i <-> items v !! Z.to_nat i = None).
Proof. intros Hi. unfold count. rewrite lookup_ge_None. lia. Qed.

Lemma insert_balance (l : list V) i x old :
  l !! i = Some old -> <[i := x]> l ++ [old] ≡ₚ l ++ [x].
Proof.
  intros Hi. rewrite insert_take_drop by (by eapply lookup_lt_Some).
  rewrite <- (take_drop_middle l i old Hi) at 3. rewrite <- !app_assoc. simpl. f_equiv.
  rewrite <- !Permutation_cons_append. apply Permutation_swap.
Qed.

Lemma vec_push_refines a x v r v' fr :
  vector_ok v -> dyn_vector_push a x v = (r, v', fr) ->
  vector_ok v' /\ items v' ++ fr ≡ₚ items v ++ taken own (Push a x) r /\
  spec_step spec_op may_fail (Push a x) (items v) r (items v').
Proof.
  intros [Hcap Hcnt] E. unfold dyn_vector_push in E.
  assert (Hu : u32 (count v + 1) = count v + 1).
  { apply u32_small. unfold count in *. cap_consts. lia. }
  rewrite Hu in E. pose proof (reserve_spec (cap v) (count v + 1) Hcap) as Hr.
  assert (Ha : forall c, reserve a (cap v) (count v + 1) = Some c ->
            reserve true (cap v) (count v + 1) = Some c).
  { intros c. apply reserve_mono. }
  destruct (reserve a (cap v) (count v + 1)) as [c|] eqn:Er; simplify_eq/=.
  - rewrite (Ha c eq_refl) in Hr. unfold vector_ok, count in *. simpl.
    rewrite length_app. simpl. destruct Hr as [Hle Hc]; [lia|].
    split; [split; [done|lia]|]. split; [by rewrite app_nil_r|].
    left. simpl. do 3 f_equal. lia.
  - split; [done|]. split; [done|]. right. split; [done|]. split; [done|]. simpl.
    destruct a; [right|by left]. rewrite Er in Hr. unfold count in Hr. apply Hr. lia.
Qed.

#[global] Instance vector_refines :
  Refines run_op spec_op own op_ok may_fail vector_ok items.
Proof.
  split. intros o v r v' fr Hok Hv E. destruct o as [a x|i|i x| |]; simpl in *.
  - rewrite app_nil_r. by apply vec_push_refines.
  - unfold dyn_vector_get in E. pose proof (get_index v i ltac:(lia)) as Hi.
    destruct (Z.leb_spec (count v) i).
    + simplify_eq/=. split; [done|]. split; [done|]. left. simpl.
      by rewrite (proj1 Hi) by done.
    + destruct (items v !! Z.to_nat i) eqn:El; [|exfalso; pose proof (proj2 Hi eq_refl); lia].
      simplify_eq/=. split; [done|]. split; [done|]. left. simpl. by rewrite El.
  - unfold dyn_vector_set in E. pose proof (get_index v i ltac:(lia)) as Hi.
    destruct (Z.leb_spec (count v) i).
    + simplify_eq/=. split; [done|]. split; [done|]. left. simpl.
      rewrite (proj1 Hi) by done. by rewrite decide_False by (by intros [? ?]).
    + destruct (items v !! Z.to_nat i) eqn:El; [|exfalso; pose proof (proj2 Hi eq_refl); lia].
      simplify_eq/=. destruct Hv as [Hcap Hcnt]. split; [|split].
      * split; [done|]. unfold count in *. simpl. by rewrite length_insert.
      * by apply insert_balance.
      * left. simpl. rewrite El. by rewrite decide_True by eauto.
  - unfold dyn_vector_pop in E. destruct (last (items v)) as [x|] eqn:El; simplify_eq/=.
    + pose proof (removelast_last _ _ El) as Ei. destruct Hv as [Hcap Hcnt]. split; [|split].
      * split; [done|]. unfold count in *. simpl. rewrite Ei, length_app in Hcnt. simpl in Hcnt. lia.
      * by rewrite app_nil_r, <- Ei.
      * left. simpl. by rewrite El.
    + split; [done|]. split; [done|]. left. simpl. by rewrite El.
  - unfold dyn_vector_length in E. simplify_eq/=. split; [done|]. split; [done|]. by left.
Qed.

(** The disposer releases exactly what the vector owns. *)
Lemma vec_free_owned v : vector_ok v -> dyn_vector_free v ≡ₚ owned own v.
Proof. done. Qed.

Lemma vec_own_errors : errors_keep own.
Proof. intros [] e; done. Qed.
End vector.
End Vector.

(** ** HashMap *)

Module HashMap.
(** Keys are the bytes of the C string. *)
Definition key := list Z.

(** FNV-1a over 64-bit words. *)
Definition dyn_map_hash (s : key) : Z :=
  fold_left (fun h b => u64 (Z.lxor h b * 1099511628211)) s 1469598103934665603.

Section hashmap.
Context {V : Type}.

Record DynMapEntry := Entry { e_value : V; e_hash : Z; e_key : key }.

(** The bucket array of singly linked chains. *)
Record dyn_hashmap_t := HMap {
  buckets : list (list DynMapEntry);
  n_buckets : Z;
  count : Z;
}.

Definition DYN_MAP_INIT_BUCKETS : Z := 16.

Definition dyn_hashmap_ctor : dyn_hashmap_t :=
  HMap (replicate (Z.to_nat DYN_MAP_INIT_BUCKETS) []) DYN_MAP_INIT_BUCKETS 0.

Definition bucket_of (h n : Z) : nat := Z.to_nat (Z.land h (n - 1)).

(** [e->hash == h && e->key_len == klen && memcmp(...) == 0]. *)
Definition entry_matches (k : key) (h : Z) (e : DynMapEntry) : bool :=
  (e_hash e =? h) && bool_decide (e_key e = k).

(** Walking a chain. *)
Fixpoint chain_find (k : key) (h : Z) (c : list DynMapEntry) : option DynMapEntry :=
  match c with
  | [] => None
  | e :: c => if entry_matches k h e then Some e else chain_find k h c
  end.

Definition chain_at (b : nat) (m : dyn_hashmap_t) : list DynMapEntry :=
  match buckets m !! b with Some c => c | None => [] end.

Definition dyn_map_find (m : dyn_hashmap_t) (k : key) (h : Z) : option DynMapEntry :=
  chain_find k h (chain_at (bucket_of h (n_buckets m)) m).

(** [e->next = nb[b]; nb[b] = e]. *)
Definition push_entry (b : nat) (e : DynMapEntry) (bs : list (list DynMapEntry))
  : list (list DynMapEntry) :=
  alter (cons e) b bs.

(** [dyn_map_grow]: [None] is -1; [alloc] the outcome of [calloc]. *)
Definition dyn_map_grow (alloc : bool) (m : dyn_hashmap_t) : option dyn_hashmap_t :=
  let nnew := u32 (n_buckets m * 2) in
  if nnew <? n_buckets m then None
  else if alloc then
    let rehash nb e := push_entry (bucket_of (e_hash e) nnew) e nb in
    let nb := fold_left (fun nb c => fold_left rehash c nb) (buckets m)
                (replicate (Z.to_nat nnew) []) in
    Some (HMap nb nnew (count m))
  else None.

(** Replace the value of the first matching entry, and give the old one. *)
Fixpoint chain_update (k : key) (h : Z) (x : V) (c : list DynMapEntry)
  : list DynMapEntry * list V :=
  match c with
  | [] => ([], [])
  | e :: c =>
      if entry_matches k h e then (Entry x (e_hash e) (e_key e) :: c, [e_value e])
      else let '(c, old) := chain_update k h x c in (e :: c, old)
  end.

(** Unlink the first matching entry. *)
Fixpoint chain_remove (k : key) (h : Z) (c : list DynMapEntry)
  : list DynMapEntry * list V :=
  match c with
  | [] => ([], [])
  | e :: c =>
      if entry_matches k h e then (c, [e_value e])
      else let '(c, old) := chain_remove k h c in (e :: c, old)
  end.

Inductive reply : Type := R_this | R_val (v : V) | R_undefined | R_bool (b : bool) | R_int (n : Z).

(** Outcome, new state and released references. *)
Definition step : Type := outcome reply * dyn_hashmap_t * list V.

(** [set(k, x)]; [galloc] and [ealloc] are the outcomes of the allocations
    of the grown table and of the entry with its key. *)
Definition dyn_hashmap_set (galloc ealloc : bool) (k : key) (x : V) (m : dyn_hashmap_t) : step :=
  let h := dyn_map_hash k in
  let b := bucket_of h (n_buckets m) in
  match dyn_map_find m k h with
  | Some _ =>
      let '(c, old) := chain_update k h x (chain_at b m) in
      (Ret R_this, HMap (<[b := c]> (buckets m)) (n_buckets m) (count m), old)
  | None =>
      let m :=
        if n_buckets m - Z.shiftr (n_buckets m) 2 <? u32 (count m + 1)
        then match dyn_map_grow galloc m with Some m' => m' | None => m end else m in
      let b := bucket_of h (n_buckets m) in
      if ealloc then
        (Ret R_this,
         HMap (push_entry b (Entry x h k) (buckets m)) (n_buckets m) (u32 (count m + 1)), [])
      else (Throw OutOfMemory, m, [])
  end.

Definition dyn_hashmap_get (k : key) (m : dyn_hashmap_t) : step :=
  (Ret (match dyn_map_find m k (dyn_map_hash k) with
        | Some e => R_val (e_value e) | None => R_undefined end), m, []).

Definition dyn_hashmap_has (k : key) (m : dyn_hashmap_t) : step :=
  (Ret (R_bool (match dyn_map_find m k (dyn_map_hash k) with
                | Some _ => true | None => false end)), m, []).

Definition dyn_hashmap_delete (k : key) (m : dyn_hashmap_t) : step :=
  let h := dyn_map_hash k in
  let b := bucket_of h (n_buckets m) in
  match dyn_map_find m k h with
  | None => (Ret (R_bool false), m, [])
  | Some _ =>
      let '(c, old) := chain_remove k h (chain_at b m) in
      (Ret (R_bool true),
       HMap (<[b := c]> (buckets m)) (n_buckets m) (u32 (count m - 1)), old)
  end.

Definition dyn_hashmap_size (m : dyn_hashmap_t) : step := (Ret (R_int (count m)), m, []).

(** [dyn_hashmap_free]: the values released by the disposal. *)
Definition dyn_hashmap_free (m : dyn_hashmap_t) : list V := e_value <$> concat (buckets m).

(** *** Abstraction and invariant *)

Definition entries (m : dyn_hashmap_t) : list DynMapEntry := concat (buckets m).

Definition abs (m : dyn_hashmap_t) : gmap key V :=
  list_to_map ((fun e => (e_key e, e_value e)) <$> entries m).

Record hashmap_ok (m : dyn_hashmap_t) : Prop := {
  ho_pow : exists i, 0 <= i < 32 /\ n_buckets m = 2 ^ i;
  ho_len : length (buckets m) = Z.to_nat (n_buckets m);
  ho_hash : forall e, e ∈ entries m -> e_hash e = dyn_map_hash (e_key e);
  ho_place : forall b c e, buckets m !! b = Some c -> e ∈ c ->
    b = bucket_of (e_hash e) (n_buckets m);
  ho_keys : NoDup (e_key <$> entries m);
  ho_count : count m = u32 (Z.of_nat (length (entries m)));
}.

Implicit Types (m : dyn_hashmap_t) (e : DynMapEntry) (c l : list DynMapEntry).

Definition pair_of e : key * V := (e_key e, e_value e).

Lemma keys_of_pairs l : (pair_of <$> l).*1 = e_key <$> l.
Proof. induction l as [|e l IH]; csimpl; [done|]. by rewrite IH. Qed.

Lemma abs_perm m l :
  entries m ≡ₚ l -> NoDup (e_key <$> l) -> abs m = list_to_map (pair_of <$> l).
Proof.
  intros Hp Hnd. unfold abs. apply list_to_map_proper; [|by rewrite Hp].
  change (fun e => (e_key e, e_value e)) with pair_of. by rewrite keys_of_pairs, Hp.
Qed.

Lemma bucket_of_lt h i : 0 <= i -> (bucket_of h (2 ^ i) < Z.to_nat (2 ^ i))%nat.
Proof.
  intros Hi. unfold bucket_of. rewrite land_pow2_pred by done.
  pose proof (Z.mod_pos_bound h (2 ^ i) ltac:(lia)). lia.
Qed.

Lemma chain_at_some m h :
  hashmap_ok m -> buckets m !! bucket_of h (n_buckets m) =
                  Some (chain_at (bucket_of h (n_buckets m)) m).
Proof.
  intros [(i & Hi & Hn) Hlen _ _ _ _]. unfold chain_at.
  destruct (lookup_lt_is_Some_2 (buckets m) (bucket_of h (n_buckets m))) as [c Hc]; [|by rewrite Hc].
  rewrite Hlen, Hn. apply bucket_of_lt. lia.
Qed.

Lemma matches_true k h e : entry_matches k h e = true <-> e_hash e = h /\ e_key e = k.
Proof. unfold entry_matches. by rewrite andb_true_iff, bool_decide_eq_true, Z.eqb_eq. Qed.

Lemma chain_find_spec k h c :
  match chain_find k h c with
  | Some e => e_hash e = h /\ e_key e = k /\ exists l1 l2, c = l1 ++ e :: l2 /\
      (forall x, chain_update k h x c = (l1 ++ Entry x h k :: l2, [e_value e])) /\
      chain_remove k h c = (l1 ++ l2, [e_value e])
  | None => forall e, e ∈ c -> entry_matches k h e = false
  end.
Proof.
  induction c as [|e c IH]; simpl; [by intros e ?%not_elem_of_nil|].
  destruct (entry_matches k h e) eqn:E.
  - apply matches_true in E as [E1 E2]. split; [done|]. split; [done|].
    exists [], c. simpl. rewrite E1, E2. done.
  - destruct (chain_find k h c) as [e'|].
    + destruct IH as (H1 & H2 & l1 & l2 & -> & Hu & Hr). split; [done|]. split; [done|].
      exists (e :: l1), l2. split; [done|]. rewrite Hr. split; [|done].
      intros x. by rewrite Hu.
    + intros e' [->|He]%elem_of_cons; [done|by apply IH].
Qed.

Lemma in_chain m e :
  hashmap_ok m -> e ∈ entries m -> e ∈ chain_at (bucket_of (dyn_map_hash (e_key e)) (n_buckets m)) m.
Proof.
  intros Hok He. pose proof (ho_hash m Hok e He) as Hh.
  apply list_elem_of_In, in_concat in He as (c & Hc & He).
  apply list_elem_of_In, list_elem_of_lookup in Hc as (b & Hb). apply list_elem_of_In in He.
  pose proof (ho_place m Hok b c e Hb He) as ->. rewrite <- Hh. unfold chain_at. by rewrite Hb.
Qed.

Lemma chain_entries m h e :
  hashmap_ok m -> e ∈ chain_at (bucket_of h (n_buckets m)) m -> e ∈ entries m.
Proof.
  intros Hok He. pose proof (chain_at_some m h Hok) as Hb. unfold entries.
  apply list_elem_of_In, in_concat. exists (chain_at (bucket_of h (n_buckets m)) m).
  split; apply list_elem_of_In; [by eapply list_elem_of_lookup_2|done].
Qed.

(** Looking up a key is looking it up in the abstract map. *)
Lemma find_abs m k :
  hashmap_ok m -> e_value <$> dyn_map_find m k (dyn_map_hash k) = abs m !! k.
Proof.
  intros Hok. pose proof (chain_find_spec k (dyn_map_hash k)
    (chain_at (bucket_of (dyn_map_hash k) (n_buckets m)) m)) as Hf.
  unfold dyn_map_find. symmetry. unfold abs.
  change (fun e => (e_key e, e_value e)) with pair_of.
  destruct (chain_find _ _ _) as [e|]; simpl.
  - destruct Hf as (Hh & Hk & l1 & l2 & Hc & _). apply elem_of_list_to_map.
    { rewrite keys_of_pairs. apply Hok. }
    apply list_elem_of_fmap. exists e. split; [unfold pair_of; by rewrite Hk|].
    apply (chain_entries m (dyn_map_hash k)); [done|]. rewrite Hc. set_solver.
  - apply not_elem_of_list_to_map. rewrite keys_of_pairs. intros Hin.
    apply list_elem_of_fmap in Hin as (e & Hk & He). subst k.
    pose proof (Hf e (in_chain m e Hok He)) as Hm.
    assert (entry_matches (e_key e) (dyn_map_hash (e_key e)) e = true)
      by (apply matches_true; split; [by apply Hok|done]). congruence.
Qed.

(** *** Preservation *)

Lemma push_entry_lookup b e (bs : list (list DynMapEntry)) c :
  bs !! b = Some c -> push_entry b e bs = <[b := e :: c]> bs.
Proof.
  intros Hb. unfold push_entry. apply list_eq. intros j.
  destruct (decide (b = j)) as [->|Hne].
  - rewrite list_lookup_alter, decide_True, Hb by done. simpl.
    by rewrite list_lookup_insert_eq by (by eapply lookup_lt_Some).
  - rewrite list_lookup_alter, decide_False by done. by rewrite list_lookup_insert_ne.
Qed.

Definition placed (n : Z) (bs : list (list DynMapEntry)) : Prop :=
  forall b c e, bs !! b = Some c -> e ∈ c -> b = bucket_of (e_hash e) n.

Lemma placed_insert n bs b c' :
  placed n bs -> (forall e, e ∈ c' -> b = bucket_of (e_hash e) n) -> placed n (<[b := c']> bs).
Proof.
  intros Hok Hc' b' c e Hb He. destruct (decide (b = b')) as [->|Hne].
  - pose proof (lookup_lt_Some _ _ _ Hb) as Hlt. rewrite length_insert in Hlt.
    rewrite list_lookup_insert_eq in Hb by done. injection Hb as ->. by apply Hc'.
  - rewrite list_lookup_insert_ne in Hb by done. by eapply Hok.
Qed.

(** Pushing the entries of a list in a table of [2 ^ i] buckets. *)
Lemma rehash_spec i l : 0 <= i -> forall bs,
  length bs = Z.to_nat (2 ^ i) -> placed (2 ^ i) bs ->
  let nb := fold_left (fun nb e => push_entry (bucket_of (e_hash e) (2 ^ i)) e nb) l bs in
  length nb = length bs /\ placed (2 ^ i) nb /\ concat nb ≡ₚ l ++ concat bs.
Proof.
  intros Hi. induction l as [|e l IH]; intros bs Hlen Hpl; simpl; [done|].
  set (b := bucket_of (e_hash e) (2 ^ i)).
  destruct (lookup_lt_is_Some_2 bs b) as [c Hc].
  { rewrite Hlen. by apply bucket_of_lt. }
  rewrite (push_entry_lookup b e bs c Hc).
  destruct (IH (<[b := e :: c]> bs)) as (H1 & H2 & H3).
  - by rewrite length_insert.
  - apply placed_insert; [done|]. intros e' [->|He']%elem_of_cons; [done|]. by eapply Hpl.
  - rewrite length_insert in H1. split; [done|]. split; [done|]. rewrite H3.
    destruct (concat_split bs b c Hc) as (rest & E1 & E2). rewrite E2, E1.
    simpl. symmetry. apply Permutation_middle.
Qed.

(** Growing keeps the entries and re-establishes the placement. *)
Lemma grow_ok alloc m m' :
  hashmap_ok m -> dyn_map_grow alloc m = Some m' ->
  hashmap_ok m' /\ entries m' ≡ₚ entries m /\ count m' = count m.
Proof.
  intros [(i & Hi & Hn) Hlen Hh Hp Hk Hc] E. unfold dyn_map_grow in E.
  destruct (Z.ltb_spec (u32 (n_buckets m * 2)) (n_buckets m)) as [|Hge]; [done|].
  destruct alloc; [|done]. injection E as <-.
  assert (Hi31 : i < 31).
  { destruct (decide (i = 31)) as [->|]; [|lia]. rewrite Hn in Hge. by vm_compute in Hge. }
  assert (Hn' : u32 (n_buckets m * 2) = 2 ^ (i + 1)).
  { rewrite Hn, Z.pow_add_r by lia. apply u32_small.
    pose proof (Z.pow_lt_mono_r 2 (i + 1) 32 ltac:(lia) ltac:(lia) ltac:(lia)).
    rewrite Z.pow_add_r in H by lia. lia. }
  rewrite Hn'. rewrite fold_left_concat.
  destruct (rehash_spec (i + 1) (concat (buckets m)) ltac:(lia)
              (replicate (Z.to_nat (2 ^ (i + 1))) [])) as (H1 & H2 & H3).
  { apply length_replicate. }
  { intros b c e Hb He. apply lookup_replicate in Hb as [-> _]. by apply not_elem_of_nil in He. }
  rewrite length_replicate in H1.
  assert (H4 : concat (replicate (Z.to_nat (2 ^ (i + 1))) ([] : list DynMapEntry)) = []).
  { generalize (Z.to_nat (2 ^ (i + 1))). intros n. induction n; simpl; done. }
  rewrite H4, app_nil_r in H3. unfold entries in *. simpl in *.
  split; [|done]. split; simpl.
  - exists (i + 1). split; [lia|done].
  - done.
  - intros e He. apply Hh. unfold entries. by rewrite <- H3.
  - done.
  - unfold entries. simpl. by rewrite H3.
  - unfold entries. simpl. by rewrite H3.
Qed.

(** Replacing one chain of a well-formed table. *)
Lemma replace_chain_ok m h c' n rest :
  hashmap_ok m ->
  let b := bucket_of h (n_buckets m) in
  entries m ≡ₚ chain_at b m ++ rest ->
  (forall e, e ∈ c' -> e_hash e = dyn_map_hash (e_key e) /\ b = bucket_of (e_hash e) (n_buckets m)) ->
  NoDup (e_key <$> (c' ++ rest)) -> n = u32 (Z.of_nat (length (c' ++ rest))) ->
  concat (<[b := c']> (buckets m)) ≡ₚ c' ++ rest ->
  hashmap_ok (HMap (<[b := c']> (buckets m)) (n_buckets m) n).
Proof.
  intros [Hp Hlen Hh Hpl Hk Hc] b Hrest Hc' Hnd Hn Hcat. split; unfold entries; simpl.
  - done.
  - by rewrite length_insert.
  - intros e He. rewrite Hcat in He. apply elem_of_app in He as [He|He].
    + by apply Hc'.
    + apply Hh. rewrite Hrest. set_solver.
  - apply placed_insert; [done|]. intros e He. by apply Hc'.
  - by rewrite Hcat.
  - by rewrite Hcat.
Qed.

Lemma chain_placed m h e :
  hashmap_ok m -> e ∈ chain_at (bucket_of h (n_buckets m)) m ->
  e_hash e = dyn_map_hash (e_key e) /\
  bucket_of h (n_buckets m) = bucket_of (e_hash e) (n_buckets m).
Proof.
  intros Hok He. split; [eapply Hok, chain_entries; done|].
  eapply (ho_place m Hok); [by apply chain_at_some|done].
Qed.

(** Inserting a fresh key. *)
Lemma insert_ok m k x :
  hashmap_ok m -> abs m !! k = None ->
  let h := dyn_map_hash k in
  let m' := HMap (push_entry (bucket_of h (n_buckets m)) (Entry x h k) (buckets m))
              (n_buckets m) (u32 (count m + 1)) in
  hashmap_ok m' /\ abs m' = <[k := x]> (abs m) /\ entries m' ≡ₚ Entry x h k :: entries m.
Proof.
  intros Hok Habs h m'. set (b := bucket_of h (n_buckets m)) in *.
  pose proof (chain_at_some m h Hok) as Hb. fold b in Hb.
  destruct (concat_split _ _ _ Hb) as (rest & E1 & E2).
  assert (Hent : entries m' ≡ₚ Entry x h k :: entries m).
  { unfold m', entries; simpl. rewrite (push_entry_lookup _ _ _ _ Hb), E2, E1. done. }
  assert (Hnd : NoDup (e_key <$> (Entry x h k :: entries m))).
  { csimpl. apply NoDup_cons. split; [|apply Hok].
    unfold abs in Habs. apply not_elem_of_list_to_map in Habs.
    change (fun e => (e_key e, e_value e)) with pair_of in Habs. by rewrite keys_of_pairs in Habs. }
  split; [|split; [|done]].
  - unfold m'. rewrite (push_entry_lookup _ _ _ _ Hb).
    apply (replace_chain_ok m h _ _ rest); try done.
    + intros e [->|He]%elem_of_cons; [done|]. by apply chain_placed.
    + simpl. rewrite fmap_cons in *. unfold entries in Hnd. by rewrite E1 in Hnd.
    + rewrite (ho_count m Hok). unfold entries. rewrite E1. simpl.
      unfold u32. rewrite Zplus_mod_idemp_l. f_equal. lia.
  - rewrite (abs_perm m' _ Hent Hnd). done.
Qed.

Lemma perm_mid {A} (l1 l2 l3 : list A) (x : A) : l1 ++ (x :: l2) ++ l3 ≡ₚ x :: (l1 ++ l2) ++ l3.
Proof. rewrite <- app_assoc. symmetry. apply Permutation_middle. Qed.

(** A stored key: the entry, and the table around it. *)
Lemma find_split m k :
  hashmap_ok m -> let h := dyn_map_hash k in let b := bucket_of h (n_buckets m) in
  match dyn_map_find m k h with
  | Some e => e = Entry (e_value e) h k /\ exists l1 l2 rest,
      chain_at b m = l1 ++ e :: l2 /\
      entries m ≡ₚ e :: (l1 ++ l2) ++ rest /\
      entries m ≡ₚ chain_at b m ++ rest /\
      (forall c, concat (<[b := c]> (buckets m)) ≡ₚ c ++ rest) /\
      (forall x, chain_update k h x (chain_at b m) = (l1 ++ Entry x h k :: l2, [e_value e])) /\
      chain_remove k h (chain_at b m) = (l1 ++ l2, [e_value e])
  | None => abs m !! k = None
  end.
Proof.
  intros Hok h b. pose proof (find_abs m k Hok) as Hf. fold h in Hf.
  unfold dyn_map_find in *. fold b in Hf |- *.
  pose proof (chain_find_spec k h (chain_at b m)) as Hs.
  destruct (chain_find k h (chain_at b m)) as [e|]; [|by rewrite <- Hf].
  destruct Hs as (Hh & Hk & l1 & l2 & Hc & Hu & Hr).
  pose proof (chain_at_some m h Hok) as Hb. fold b in Hb.
  destruct (concat_split _ _ _ Hb) as (rest & E1 & E2).
  split; [destruct e; simpl in *; by subst|].
  exists l1, l2, rest. repeat (split; [done|]). split; [|done].
  unfold entries. rewrite E1, Hc. rewrite <- app_assoc. apply perm_mid.
Qed.

Lemma update_ok m k x e :
  hashmap_ok m -> let h := dyn_map_hash k in let b := bucket_of h (n_buckets m) in
  dyn_map_find m k h = Some e ->
  exists c, chain_update k h x (chain_at b m) = (c, [e_value e]) /\
    let m' := HMap (<[b := c]> (buckets m)) (n_buckets m) (count m) in
    hashmap_ok m' /\ abs m' = <[k := x]> (abs m) /\
    exists rest, entries m ≡ₚ e :: rest /\ entries m' ≡ₚ Entry x h k :: rest.
Proof.
  intros Hok h b Hf. pose proof (find_split m k Hok) as Hs. fold h in Hs. simpl in Hs.
  rewrite Hf in Hs. fold b in Hs.
  destruct Hs as (He & l1 & l2 & rest & Hc & Hent & Hrest & Hcat & Hu & _).
  exists (l1 ++ Entry x h k :: l2). split; [apply Hu|]. intros m'.
  assert (Hent' : entries m' ≡ₚ Entry x h k :: (l1 ++ l2) ++ rest).
  { unfold m', entries; simpl. rewrite Hcat, <- app_assoc. apply perm_mid. }
  pose proof (ho_keys m Hok) as Hnd. rewrite Hent, He in Hnd. csimpl in *.
  assert (Hnd' : NoDup (e_key <$> (Entry x h k :: (l1 ++ l2) ++ rest))) by done.
  split; [|split; [|eauto]].
  - apply (replace_chain_ok m h _ _ rest); [done|done| | | |apply Hcat].
    + intros e' He'. assert (e' = Entry x h k \/ e' ∈ chain_at b m) as [->|Hin]
        by (rewrite Hc; set_solver); [done|by apply chain_placed].
    + rewrite <- app_assoc. by rewrite (perm_mid l1 l2 rest).
    + rewrite (ho_count m Hok), Hrest, Hc. do 2 f_equal. rewrite !length_app. done.
  - rewrite (abs_perm m' _ Hent' Hnd').
    rewrite (abs_perm m (Entry (e_value e) h k :: (l1 ++ l2) ++ rest)) by (done || by rewrite <- He).
    csimpl. by rewrite insert_insert_eq.
Qed.

Lemma remove_ok m k e :
  hashmap_ok m -> let h := dyn_map_hash k in let b := bucket_of h (n_buckets m) in
  dyn_map_find m k h = Some e ->
  exists c, chain_remove k h (chain_at b m) = (c, [e_value e]) /\
    let m' := HMap (<[b := c]> (buckets m)) (n_buckets m) (u32 (count m - 1)) in
    hashmap_ok m' /\ abs m' = delete k (abs m) /\ entries m ≡ₚ e :: entries m'.
Proof.
  intros Hok h b Hf. pose proof (find_split m k Hok) as Hs. fold h in Hs. simpl in Hs.
  rewrite Hf in Hs. fold b in Hs.
  destruct Hs as (He & l1 & l2 & rest & Hc & Hent & Hrest & Hcat & _ & Hr).
  exists (l1 ++ l2). split; [apply Hr|]. intros m'.
  assert (Hent' : entries m' ≡ₚ (l1 ++ l2) ++ rest) by apply Hcat.
  pose proof (ho_keys m Hok) as Hnd. rewrite Hent, He in Hnd. csimpl in Hnd.
  apply NoDup_cons in Hnd as [Hk Hnd].
  split; [|split].
  - apply (replace_chain_ok m h _ _ rest); [done|done| |done| |apply Hcat].
    + intros e' He'. assert (e' ∈ chain_at b m) as Hin by (rewrite Hc; set_solver).
      by apply chain_placed.
    + rewrite (ho_count m Hok), Hent. simpl length. unfold u32.
      rewrite Zminus_mod_idemp_l. f_equal. lia.
  - rewrite (abs_perm m' _ Hent' Hnd).
    rewrite (abs_perm m (Entry (e_value e) h k :: (l1 ++ l2) ++ rest));
      [|by rewrite <- He|csimpl; by apply NoDup_cons].
    csimpl. rewrite delete_insert_id; [done|].
    apply not_elem_of_list_to_map. by rewrite keys_of_pairs.
  - by rewrite Hent'.
Qed.

(** *** Refinement of finite maps *)

Inductive op : Type :=
| Set_ (galloc ealloc : bool) (k : key) (x : V)
| Get (k : key) | Has (k : key) | Delete (k : key) | Size.

Definition run_op (o : op) (m : dyn_hashmap_t) : step :=
  match o with
  | Set_ g a k x => dyn_hashmap_set g a k x m
  | Get k => dyn_hashmap_get k m
  | Has k => dyn_hashmap_has k m
  | Delete k => dyn_hashmap_delete k m
  | Size => dyn_hashmap_size m
  end.

Definition spec_op (o : op) (f : gmap key V) : outcome reply * gmap key V :=
  match o with
  | Set_ _ _ k x => (Ret R_this, <[k := x]> f)
  | Get k => (Ret (match f !! k with Some x => R_val x | None => R_undefined end), f)
  | Has k => (Ret (R_bool (bool_decide (is_Some (f !! k)))), f)
  | Delete k => (Ret (R_bool (bool_decide (is_Some (f !! k)))), delete k f)
  | Size => (Ret (R_int (u32 (Z.of_nat (size f)))), f)
  end.

Definition values (m : dyn_hashmap_t) : list V := e_value <$> entries m.

Definition own : ownership op reply V dyn_hashmap_t :=
  Ownership values
    (fun o r => match o, r with Set_ _ _ _ x, Ret _ => [x] | _, _ => [] end)
    (fun _ _ => []).

(** A failed growth is absorbed; only a new entry that cannot be allocated
    is an error. *)
Definition may_fail (o : op) (f : gmap key V) : Prop :=
  match o with Set_ _ ealloc k _ => ealloc = false /\ f !! k = None | _ => False end.

Lemma abs_size m : hashmap_ok m -> size (abs m) = length (entries m).
Proof.
  intros Hok. unfold abs. change (fun e => (e_key e, e_value e)) with pair_of.
  rewrite map_size_list_to_map by (rewrite keys_of_pairs; apply Hok). by rewrite length_fmap.
Qed.

(** The table after the growth attempt of [set]. *)
Lemma grown_ok g m :
  hashmap_ok m ->
  let m' := if n_buckets m - Z.shiftr (n_buckets m) 2 <? u32 (count m + 1)
            then match dyn_map_grow g m with Some m' => m' | None => m end else m in
  hashmap_ok m' /\ entries m' ≡ₚ entries m.
Proof.
  intros Hok m'. subst m'. destruct (_ <? _); [|done].
  destruct (dyn_map_grow g m) as [m'|] eqn:E; [|done].
  destruct (grow_ok g m m' Hok E) as (? & ? & ?). done.
Qed.

Lemma set_refines g a k x m r m' fr :
  hashmap_ok m -> dyn_hashmap_set g a k x m = (r, m', fr) ->
  hashmap_ok m' /\ values m' ++ fr ≡ₚ values m ++ taken own (Set_ g a k x) r /\
  spec_step spec_op may_fail (Set_ g a k x) (abs m) r (abs m').
Proof.
  intros Hok E. unfold dyn_hashmap_set in E.
  pose proof (find_split m k Hok) as Hs. simpl in Hs.
  destruct (dyn_map_find m k (dyn_map_hash k)) as [e|] eqn:Ef.
  - destruct (update_ok m k x e Hok Ef) as (c & Eu & Hok' & Habs & rest & H1 & H2).
    rewrite Eu in E. simplify_eq/=. split; [done|]. split; [|left; by rewrite Habs].
    unfold values. rewrite H1, H2. csimpl. rewrite <- !Permutation_cons_append. apply Permutation_swap.
  - destruct (grown_ok g m Hok) as [Hok1 Hp]. revert E Hok1 Hp.
    generalize (if n_buckets m - Z.shiftr (n_buckets m) 2 <? u32 (count m + 1)
            then match dyn_map_grow g m with Some m' => m' | None => m end else m).
    intros m1 E Hok1 Hp.
    assert (Habs : abs m1 = abs m).
    { rewrite (abs_perm m1 (entries m) Hp) by apply Hok. done. }
    destruct a; simplify_eq/=.
    + rewrite <- Habs in Hs. destruct (insert_ok m1 k x Hok1 Hs) as (Hok' & Ha & He).
      split; [done|]. split; [|left; by rewrite Ha, Habs].
      unfold values. rewrite app_nil_r, He, Hp. csimpl. by rewrite <- Permutation_cons_append.
    + split; [done|]. split; [unfold values; by rewrite Hp|]. right. by rewrite Habs.
Qed.

#[global] Instance hashmap_refines :
  Refines run_op spec_op own (fun _ => True) may_fail hashmap_ok abs.
Proof.
  split. intros o m r m' fr _ Hok E. destruct o as [g a k x|k|k|k|]; simpl in *.
  - rewrite app_nil_r. by apply (set_refines g a k x).
  - unfold dyn_hashmap_get in E. simplify_eq/=. split; [done|]. split; [done|]. left. simpl.
    rewrite <- (find_abs m' k Hok). by destruct (dyn_map_find _ _ _).
  - unfold dyn_hashmap_has in E. simplify_eq/=. split; [done|]. split; [done|]. left. simpl.
    rewrite <- (find_abs m' k Hok). by destruct (dyn_map_find _ _ _).
  - unfold dyn_hashmap_delete in E. pose proof (find_abs m k Hok) as Hf.
    destruct (dyn_map_find m k (dyn_map_hash k)) as [e|] eqn:Ef.
    + destruct (remove_ok m k e Hok Ef) as (c & Er & Hok' & Habs & He).
      rewrite Er in E. simplify_eq/=. split; [done|]. split.
      * unfold values. rewrite He. csimpl. by rewrite !app_nil_r, <- Permutation_cons_append.
      * left. simpl. by rewrite Habs, <- Hf.
    + simplify_eq/=. split; [done|]. split; [done|]. left. simpl.
      rewrite <- Hf. by rewrite delete_id.
  - unfold dyn_hashmap_size in E. simplify_eq/=. split; [done|]. split; [done|]. left. simpl.
    by rewrite abs_size, <- (ho_count m' Hok).
Qed.

Lemma hmap_ctor_ok : hashmap_ok dyn_hashmap_ctor.
Proof.
  split; simpl.
  - by exists 4.
  - done.
  - intros e He. by apply not_elem_of_nil in He.
  - intros b c e Hb He. change (replicate 16 ([] : list DynMapEntry) !! b = Some c) in Hb.
    apply lookup_replicate in Hb as [-> _]. by apply not_elem_of_nil in He.
  - constructor.
  - done.
Qed.

(** The disposer releases exactly what the map owns. *)
Lemma hmap_free_owned m : hashmap_ok m -> dyn_hashmap_free m ≡ₚ owned own m.
Proof. done. Qed.

Lemma hmap_own_errors : errors_keep own.
Proof. intros [] e; done. Qed.
End hashmap.
End HashMap.

(** ** Properties *)

(** [C13] Vector refines a JS array.  From [new Vector()] through any sequence
    of [push]/[get]/[set]/[pop]/[length]/[close] calls (script code run by a
    coercion is part of the sequence), the replies are those of an array
    without holes, with a TypeError after [close()] and a RangeError from
    [set] out of bounds; [push] fails only when the allocator does or the
    byte size would not fit [uint32_t], and then changes nothing.  The
    references owned at the end, those released and those handed out by
    [pop] are exactly those the vector took: no leak and no double free. *)
Theorem vector_refines_array {V : Type} (ops : list (res_op (Op := @Vector.op V))) rs r fr :
  Forall (res_op_ok Vector.op_ok) ops ->
  run_trace (res_run Vector.run_op Vector.dyn_vector_free) ops
    (dyn_res_wrap Vector.dyn_vector_ctor) = (rs, r, fr) ->
  res_inv Vector.vector_ok r /\
  spec_trace (res_spec Vector.spec_op) (res_may_fail Vector.may_fail) ops (Some []) rs
    (res_abs Vector.items r) /\
  owned (res_own Vector.own) r ++ fr ++ total (moved (res_own Vector.own)) ops rs
    ≡ₚ total (taken (res_own Vector.own)) ops rs.
Proof.
  intros Hops E.
  apply (resource_trace Vector.run_op Vector.dyn_vector_free Vector.spec_op Vector.own Vector.op_ok Vector.may_fail
           Vector.vector_ok Vector.items Vector.dyn_vector_ctor);
    [apply _|exact Vector.vec_free_owned|exact Vector.vec_own_errors|done|done|done|done].
Qed.

Definition vector_demo : list (res_op (Op := @Vector.op Z)) :=
  [Call (Vector.Push true 10); Call (Vector.Push true 11); Call (Vector.Set_ 0 12);
   Call (Vector.Push false 13); Call (Vector.Set_ 7 1); Call (Vector.Get 0);
   Call Vector.Pop; Call Vector.Length; Close; Call Vector.Length].

Lemma vector_refines_array_witness :
  exists rs r fr,
  run_trace (res_run Vector.run_op Vector.dyn_vector_free) vector_demo
    (dyn_res_wrap Vector.dyn_vector_ctor) = (rs, r, fr) /\
  rs !! 5%nat = Some (Ret (Some (Vector.R_val 12))) /\ fr = [10; 12; 11] /\
  res_inv Vector.vector_ok r.
Proof.
  eexists _, _, _. split; [vm_compute; reflexivity|]. split; [reflexivity|].
  split; [reflexivity|].
  eapply (vector_refines_array vector_demo); [|vm_compute; reflexivity].
  repeat constructor; done.
Defined.

(** [C14] HashMap refines a finite map.  From [new HashMap()] through any
    sequence of [set]/[get]/[has]/[delete]/[size]/[close] calls, whatever
    the keys and their collisions and however often the table grows or fails
    to grow, the replies are those of a finite map from strings to values
    ([size] modulo 2^32); [set] fails only when a new entry cannot be
    allocated, and then the map is unchanged; the value references owned at
    the end and those released are exactly those taken. *)
Theorem hashmap_refines_map {V : Type} (ops : list (res_op (Op := @HashMap.op V))) rs r fr :
  run_trace (res_run HashMap.run_op HashMap.dyn_hashmap_free) ops
    (dyn_res_wrap HashMap.dyn_hashmap_ctor) = (rs, r, fr) ->
  res_inv HashMap.hashmap_ok r /\
  spec_trace (res_spec HashMap.spec_op) (res_may_fail HashMap.may_fail) ops (Some ∅) rs
    (res_abs HashMap.abs r) /\
  owned (res_own HashMap.own) r ++ fr ++ total (moved (res_own HashMap.own)) ops rs
    ≡ₚ total (taken (res_own HashMap.own)) ops rs.
Proof.
  intros E.
  apply (resource_trace HashMap.run_op HashMap.dyn_hashmap_free HashMap.spec_op HashMap.own (fun _ => True) HashMap.may_fail
           HashMap.hashmap_ok HashMap.abs HashMap.dyn_hashmap_ctor);
    [apply _|exact HashMap.hmap_free_owned|exact HashMap.hmap_own_errors|exact HashMap.hmap_ctor_ok|done| |done].
  apply Forall_true. by intros [].
Qed.

(** Twenty insertions (the table grows from 16 to 32 buckets at the
    thirteenth), an overwrite, a deletion, lookups. *)
Definition hashmap_demo : list (res_op (Op := @HashMap.op Z)) :=
  ((fun i => Call (HashMap.Set_ true true [Z.of_nat i; 7] (Z.of_nat i))) <$> seq 0 20) ++
  [Call (HashMap.Set_ true false [3; 7] 42); Call (HashMap.Delete [4; 7]);
   Call (HashMap.Get [3; 7]); Call (HashMap.Has [4; 7]); Call HashMap.Size].

Lemma hashmap_refines_map_witness :
  exists rs r fr,
  run_trace (res_run HashMap.run_op HashMap.dyn_hashmap_free) hashmap_demo
    (dyn_res_wrap HashMap.dyn_hashmap_ctor) = (rs, r, fr) /\
  drop 22 rs = [Ret (Some (HashMap.R_val 42)); Ret (Some (HashMap.R_bool false));
                Ret (Some (HashMap.R_int 19))] /\ fr = [3; 4] /\
  res_inv HashMap.hashmap_ok r.
Proof.
  eexists _, _, _. split; [vm_compute; reflexivity|]. split; [reflexivity|].
  split; [reflexivity|].
  eapply (hashmap_refines_map hashmap_demo). vm_compute; reflexivity.
Defined.
