(* ===== verification/Ring.v ===== *)
(** * dyna:container Ring (src/dyna-container.c)

    The fixed-capacity circular buffer: [dyn_ring_t] with its physical array,
    and its refinement of a bounded queue that drops the oldest element. *)
From S2P Require Import Prelude Native Refine Structures.

Section ring.
Context {V : Type}.

(** Every slot holds a value or [JS_UNDEFINED] ([None]), which owns no
    reference. *)
Record dyn_ring_t := RingOf { items : list (option V); cap : Z; start : Z; count : Z }.

(** [dyn_ring_ctor] on the coerced capacity; [alloc] is the outcome of the
    allocations. *)
Definition dyn_ring_ctor (alloc : bool) (n : Z) : outcome dyn_ring_t :=
  if (n <=? 0) || (UINT32_MAX / sizeof_JSValue <? u64 n) then Throw RangeError
  else let cap := u32 n in
       if alloc then Ret (RingOf (replicate (Z.to_nat cap) None) cap 0 0)
       else Throw OutOfMemory.

Inductive reply : Type :=
| R_int (n : Z) | R_val (v : V) | R_undefined | R_array (l : list (option V)).

Definition step : Type := outcome reply * dyn_ring_t * list V.

(** [g->items[phys]]. *)
Definition slot (g : dyn_ring_t) (phys : Z) : option V := mjoin (items g !! Z.to_nat phys).
Definition freed (o : option V) : list V := match o with Some x => [x] | None => [] end.

Definition dyn_ring_push (x : V) (g : dyn_ring_t) : step :=
  let '(g', fr) :=
    if count g <? cap g then
      let phys := u32 (start g + count g) mod cap g in
      (RingOf (<[Z.to_nat phys := Some x]> (items g)) (cap g) (start g) (u32 (count g + 1)), [])
    else
      let phys := start g in
      (RingOf (<[Z.to_nat phys := Some x]> (items g)) (cap g) (u32 (start g + 1) mod cap g) (count g),
       freed (slot g phys)) in
  (Ret (R_int (count g')), g', fr).

(** [i] is the coerced [int64_t] index. *)
Definition dyn_ring_get (i : Z) (g : dyn_ring_t) : step :=
  if (i <? 0) || (count g <=? u64 i) then (Ret R_undefined, g, [])
  else (Ret (match slot g (u32 (start g + u32 i) mod cap g) with
             | Some x => R_val x | None => R_undefined end), g, []).

Definition dyn_ring_length (g : dyn_ring_t) : step := (Ret (R_int (count g)), g, []).
Definition dyn_ring_capacity (g : dyn_ring_t) : step := (Ret (R_int (cap g)), g, []).

(** [toArray()]; [alloc] is the outcome of building the array. *)
Definition dyn_ring_to_array (alloc : bool) (g : dyn_ring_t) : step :=
  if alloc then
    (Ret (R_array ((fun i => slot g (u32 (start g + Z.of_nat i) mod cap g))
                     <$> seq 0 (Z.to_nat (count g)))), g, [])
  else (Throw OutOfMemory, g, []).

(** [dyn_ring_free] releases every slot. *)
Definition dyn_ring_free (g : dyn_ring_t) : list V := items g ≫= freed.

Inductive op : Type :=
| Push (x : V) | Get (i : Z) | Length | Capacity | ToArray (alloc : bool).

Definition run_op (o : op) (g : dyn_ring_t) : step :=
  match o with
  | Push x => dyn_ring_push x g
  | Get i => dyn_ring_get i g
  | Length => dyn_ring_length g
  | Capacity => dyn_ring_capacity g
  | ToArray a => dyn_ring_to_array a g
  end.

(** ** Specification: a queue that holds the last [n] elements pushed *)

Definition spec_op (o : op) (q : Z * list V) : outcome reply * (Z * list V) :=
  let '(n, l) := q in
  match o with
  | Push x => let l' := drop (S (length l) - Z.to_nat n) (l ++ [x]) in
              (Ret (R_int (Z.of_nat (length l'))), (n, l'))
  | Get i => (Ret (match (if i <? 0 then None else l !! Z.to_nat i) with
                   | Some x => R_val x | None => R_undefined end), q)
  | Length => (Ret (R_int (Z.of_nat (length l))), q)
  | Capacity => (Ret (R_int n), q)
  | ToArray _ => (Ret (R_array (Some <$> l)), q)
  end.

(** Indices are [int64_t]. *)
Definition op_ok (o : op) : Prop := match o with Get i => - 2 ^ 63 <= i < 2 ^ 63 | _ => True end.

Definition may_fail (o : op) (q : Z * list V) : Prop :=
  match o with ToArray alloc => alloc = false | _ => False end.

Definition own : ownership op reply V dyn_ring_t :=
  Ownership dyn_ring_free
    (fun o r => match o, r with Push x, Ret _ => [x] | _, _ => [] end) (fun _ _ => []).

(** The array read from [start] on, wrapping at [cap]. *)
Definition rotated (g : dyn_ring_t) : list (option V) :=
  drop (Z.to_nat (start g)) (items g) ++ take (Z.to_nat (start g)) (items g).

Definition contents (g : dyn_ring_t) : list V := rotated g ≫= freed.

Record ring_ok (g : dyn_ring_t) : Prop := {
  ro_cap : 0 < cap g /\ cap_ok (cap g);
  ro_len : length (items g) = Z.to_nat (cap g);
  ro_start : 0 <= start g < cap g;
  ro_count : 0 <= count g <= cap g;
  ro_shape : exists l, rotated g = (Some <$> l) ++ replicate (Z.to_nat (cap g - count g)) None /\
               Z.of_nat (length l) = count g;
}.

(** ** Lemmas *)

Lemma freed_somes (l : list V) : (Some <$> l) ≫= freed = l.
Proof. induction l as [|x l IH]; csimpl; [done|]. by rewrite IH. Qed.

Lemma freed_nones n : replicate n None ≫= freed = [].
Proof. induction n as [|n IH]; csimpl; done. Qed.

Lemma shape_contents g l n :
  rotated g = (Some <$> l) ++ replicate n None -> contents g = l.
Proof.
  intros E. unfold contents. rewrite E, bind_app, freed_somes, freed_nones. apply app_nil_r.
Qed.

Lemma contents_owned g : dyn_ring_free g ≡ₚ contents g.
Proof.
  unfold dyn_ring_free, contents, rotated.
  rewrite <- (take_drop (Z.to_nat (start g)) (items g)) at 1.
  rewrite !bind_app. apply Permutation_app_comm.
Qed.

(** Physical index of a logical one. *)
Lemma phys_index g i :
  ring_ok g -> 0 <= i <= cap g ->
  u32 (start g + i) mod cap g = if start g + i <? cap g then start g + i else start g + i - cap g.
Proof.
  intros [Hc _ Hs _ _] Hi. cap_consts. rewrite u32_small by lia.
  destruct (Z.ltb_spec (start g + i) (cap g)); [by rewrite Z.mod_small by lia|].
  symmetry. apply (Zmod_unique _ _ 1); lia.
Qed.

Lemma slot_rotated g i :
  ring_ok g -> 0 <= i < cap g ->
  items g !! Z.to_nat (u32 (start g + i) mod cap g) = rotated g !! Z.to_nat i.
Proof.
  intros Hok Hi. pose proof (phys_index g i Hok ltac:(lia)) as ->. destruct Hok as [Hc Hl Hs _ _].
  unfold rotated. destruct (Z.ltb_spec (start g + i) (cap g)).
  - rewrite lookup_app_l by (rewrite length_drop; lia). rewrite lookup_drop. f_equal. lia.
  - rewrite lookup_app_r by (rewrite length_drop; lia). rewrite length_drop.
    rewrite lookup_take_lt by lia. f_equal. lia.
Qed.

Lemma rotated_insert g i x :
  ring_ok g -> 0 <= i < cap g ->
  rotated (RingOf (<[Z.to_nat (u32 (start g + i) mod cap g) := x]> (items g))
             (cap g) (start g) (u32 (count g + 1)))
  = <[Z.to_nat i := x]> (rotated g).
Proof.
  intros Hok Hi. pose proof (phys_index g i Hok ltac:(lia)) as ->. destruct Hok as [Hc Hl Hs _ _].
  unfold rotated; simpl. destruct (Z.ltb_spec (start g + i) (cap g)).
  - rewrite insert_app_l by (rewrite length_drop; lia).
    rewrite drop_insert_ge, take_insert_ge by lia. do 2 f_equal. lia.
  - rewrite insert_app_r_alt by (rewrite length_drop; lia). rewrite length_drop.
    rewrite drop_insert_lt, take_insert_lt by lia. do 2 f_equal. lia.
Qed.

Lemma rotated_overwrite g x :
  ring_ok g ->
  rotated (RingOf (<[Z.to_nat (start g) := x]> (items g)) (cap g)
             (u32 (start g + 1) mod cap g) (count g)) = drop 1 (rotated g) ++ [x].
Proof.
  intros Hok. pose proof (ro_cap g Hok). pose proof (phys_index g 1 Hok ltac:(lia)) as Hp.
  destruct Hok as [Hc Hl Hs _ _]. unfold rotated; simpl. rewrite Hp.
  assert (Hn : (Z.to_nat (start g) < length (items g))%nat) by lia.
  destruct (lookup_lt_is_Some_2 _ _ Hn) as [y Hy].
  rewrite (drop_S (items g) y) by done. simpl. rewrite drop_0.
  rewrite insert_take_drop by done. rewrite <- !app_assoc.
  assert (Ht : length (take (Z.to_nat (start g)) (items g)) = Z.to_nat (start g))
    by (rewrite length_take; lia).
  destruct (Z.ltb_spec (start g + 1) (cap g)).
  - replace (Z.to_nat (start g + 1)) with (S (Z.to_nat (start g))) by lia.
    replace (S (Z.to_nat (start g))) with (length (take (Z.to_nat (start g)) (items g) ++ [x])) at 1 3
      by (rewrite length_app; simpl; lia).
    change (x :: drop (S (Z.to_nat (start g))) (items g))
      with ([x] ++ drop (S (Z.to_nat (start g))) (items g)).
    rewrite app_assoc, drop_app_length, take_app_length. done.
  - replace (start g + 1 - cap g) with 0 by lia. simpl. rewrite drop_0, take_0, app_nil_r.
    by rewrite (drop_ge (items g) (S _)) by lia.
Qed.

Definition ring_abs (g : dyn_ring_t) : Z * list V := (cap g, contents g).

Lemma contents_length g : ring_ok g -> Z.of_nat (length (contents g)) = count g.
Proof. intros [_ _ _ _ (l & E & Hl)]. by rewrite (shape_contents g l _ E). Qed.

(** A logical index below [count] holds the element of the queue. *)
Lemma slot_contents g i :
  ring_ok g -> 0 <= i < count g ->
  slot g (u32 (start g + i) mod cap g) = contents g !! Z.to_nat i.
Proof.
  intros Hok Hi. pose proof (ro_count g Hok). unfold slot.
  rewrite (slot_rotated g i Hok) by lia. destruct Hok as [_ _ _ _ (l & E & Hl)].
  rewrite (shape_contents g l _ E), E.
  rewrite lookup_app_l by (rewrite length_fmap; lia). rewrite list_lookup_fmap.
  by destruct (l !! _).
Qed.

Lemma push_room g x :
  ring_ok g -> count g < cap g ->
  let g' := RingOf (<[Z.to_nat (u32 (start g + count g) mod cap g) := Some x]> (items g))
              (cap g) (start g) (u32 (count g + 1)) in
  ring_ok g' /\ contents g' = contents g ++ [x].
Proof.
  intros Hok Hlt g'. pose proof (rotated_insert g (count g) (Some x) Hok) as Hr.
  destruct Hok as [Hc Hl Hs Hn (l & E & Hlen)]. fold g' in Hr.
  assert (E' : rotated g' =
            (Some <$> (l ++ [x])) ++ replicate (Z.to_nat (cap g - (count g + 1))) None).
  { rewrite Hr by lia. rewrite E. rewrite insert_app_r_alt by (rewrite length_fmap; lia).
    rewrite length_fmap. replace (Z.to_nat (count g) - length l)%nat with 0%nat by lia.
    rewrite fmap_app, <- app_assoc. f_equal.
    replace (Z.to_nat (cap g - count g)) with (S (Z.to_nat (cap g - (count g + 1)))) by lia. done. }
  assert (Hu : u32 (count g + 1) = count g + 1) by (apply u32_small; cap_consts; lia).
  split; [|by rewrite (shape_contents g' _ _ E'), (shape_contents g _ _ E)].
  unfold g'. split; simpl; rewrite ?Hu; [done|by rewrite length_insert|done|lia|].
  exists (l ++ [x]). split; [rewrite <- E'; unfold g'; by rewrite Hu|].
  rewrite length_app; simpl; lia.
Qed.

Lemma push_full g x :
  ring_ok g -> cap g <= count g ->
  let g' := RingOf (<[Z.to_nat (start g) := Some x]> (items g)) (cap g)
              (u32 (start g + 1) mod cap g) (count g) in
  ring_ok g' /\ exists y l, contents g = y :: l /\ slot g (start g) = Some y /\
                             contents g' = l ++ [x].
Proof.
  intros Hok Hge g'. pose proof (rotated_overwrite g (Some x) Hok) as Hr. fold g' in Hr.
  pose proof (slot_contents g 0 Hok) as H0. pose proof (phys_index g 1 Hok) as Hp.
  assert (Hs0 : u32 (start g + 0) mod cap g = start g).
  { rewrite (phys_index g 0 Hok) by (pose proof (ro_cap g Hok); lia).
    rewrite Z.add_0_r. destruct (Z.ltb_spec (start g) (cap g)); [done|].
    pose proof (ro_start g Hok). lia. }
  rewrite Hs0 in H0.
  destruct Hok as [Hc Hl Hs Hn (l & E & Hlen)].
  replace (cap g - count g) with 0 in E by lia. simpl in E.
  rewrite (shape_contents g l 0 E) in H0 |- *.
  destruct l as [|y l]; [simpl in Hlen; lia|]. csimpl in *.
  assert (E' : rotated g' = (Some <$> (l ++ [x])) ++ replicate 0 None).
  { rewrite Hr, E. simpl. by rewrite drop_0, !app_nil_r, fmap_app. }
  split; [|exists y, l; split; [done|]; split; [apply H0; lia|by apply (shape_contents g' _ _ E')]].
  unfold g'. split; simpl; [done|by rewrite length_insert| |lia|].
  - rewrite Hp by lia. destruct (Z.ltb_spec (start g + 1) (cap g)); lia.
  - exists (l ++ [x]). replace (cap g - count g) with 0 by lia. split; [done|].
    rewrite length_app. simpl in *. lia.
Qed.

Lemma ring_push_refines x g r g' fr :
  ring_ok g -> dyn_ring_push x g = (r, g', fr) ->
  ring_ok g' /\ dyn_ring_free g' ++ fr ≡ₚ dyn_ring_free g ++ [x] /\
  spec_op (Push x) (ring_abs g) = (r, ring_abs g').
Proof.
  intros Hok E. unfold dyn_ring_push in E. pose proof (contents_length g Hok) as Hlen.
  pose proof (ro_cap g Hok) as [Hc _]. rewrite !contents_owned.
  assert (Hr : forall g1, ring_ok g1 -> Z.of_nat (length (contents g1)) = count g1)
    by apply contents_length.
  destruct (Z.ltb_spec (count g) (cap g)) as [Hlt|Hge].
  - destruct (push_room g x Hok Hlt) as [Hok' Hcon]. simplify_eq/=.
    split; [done|]. split; [by rewrite Hcon, app_nil_r|].
    pose proof (Hr _ Hok') as Hr'. unfold ring_abs. rewrite Hcon in *. simpl in *. rewrite <- Hr'.
    replace (S (length (contents g)) - Z.to_nat (cap g))%nat with 0%nat by lia. by rewrite drop_0.
  - destruct (push_full g x Hok Hge) as (Hok' & y & l & Hcon & Hslot & Hcon'). simplify_eq/=.
    split; [done|]. split.
    + rewrite Hcon, Hcon', Hslot. simpl. by rewrite (Permutation_app_comm _ [y]).
    + pose proof (Hr _ Hok') as Hr'. pose proof (ro_count g Hok). unfold ring_abs.
      rewrite Hcon', Hcon in *. simpl in *. rewrite <- Hr'.
      replace (S (S (length l)) - Z.to_nat (cap g))%nat with 1%nat by lia. done.
Qed.

#[global] Instance ring_refines :
  Refines run_op spec_op own op_ok may_fail ring_ok ring_abs.
Proof.
  split. intros o g r g' fr Hop Hok E. pose proof (contents_length g Hok) as Hlen.
  pose proof (ro_cap g Hok) as [Hc Hcap]. pose proof (ro_count g Hok) as Hn.
  destruct o as [x|i| | |alloc]; simpl in E.
  - destruct (ring_push_refines x g r g' fr Hok E) as (H1 & H2 & H3).
    assert (taken own (Push x) r = [x]) as ->
      by (unfold dyn_ring_push in E; destruct (_ <? _); by simplify_eq/=).
    split; [done|]. split; [by rewrite app_nil_r|by left].
  - unfold dyn_ring_get in E.
    destruct ((i <? 0) || (count g <=? u64 i)) eqn:Eb; simplify_eq/=;
      (split; [done|]; split; [done|]; left; simpl).
    + destruct (Z.ltb_spec i 0); [done|]. simpl in Eb. rewrite u64_small in Eb by lia.
      by rewrite lookup_ge_None_2 by lia.
    + apply orb_false_elim in Eb as [E1 E2]. rewrite E1. rewrite u64_small in E2 by lia.
      rewrite (u32_small i) by (cap_consts; lia). by rewrite slot_contents by (done || lia).
  - unfold dyn_ring_length in E. simplify_eq/=. split; [done|]. split; [done|]. left. simpl. by rewrite Hlen.
  - unfold dyn_ring_capacity in E. simplify_eq/=. split; [done|]. split; [done|]. by left.
  - unfold dyn_ring_to_array in E. destruct alloc; simplify_eq/=;
      (split; [done|]; split; [done|]); [left|by right]. simpl. do 3 f_equal.
    apply list_eq. intros j. rewrite !list_lookup_fmap.
    destruct (decide (j < length (contents g'))%nat) as [Hj|Hj].
    + rewrite lookup_seq_lt by lia. simpl. rewrite slot_contents by (done || lia).
      rewrite Nat2Z.id. destruct (lookup_lt_is_Some_2 _ _ Hj) as [y Hy]. by rewrite Hy.
    + rewrite (lookup_ge_None_2 (contents g')) by lia. by rewrite lookup_seq_ge by lia.
Qed.

(** The constructor's range check. *)
Lemma ctor_spec alloc n :
  - 2 ^ 63 <= n < 2 ^ 63 ->
  match dyn_ring_ctor alloc n with
  | Ret g => ring_ok g /\ ring_abs g = (n, []) /\ dyn_ring_free g = [] /\ alloc = true
  | Throw RangeError => ~ 1 <= n <= UINT32_MAX / sizeof_JSValue
  | Throw e => e = OutOfMemory /\ alloc = false
  end.
Proof.
  intros Hn. unfold dyn_ring_ctor. destruct (Z.leb_spec n 0); simpl; [lia|].
  rewrite u64_small by lia. destruct (Z.ltb_spec (UINT32_MAX / sizeof_JSValue) n); [lia|].
  destruct alloc; [|done]. rewrite u32_small by (cap_consts; lia).
  assert (Hrot : rotated (RingOf (replicate (Z.to_nat n) None) n 0 0) =
            (Some <$> []) ++ replicate (Z.to_nat n) None).
  { unfold rotated. simpl. by rewrite drop_0, take_0, app_nil_r. }
  split; [|split; [|split; [apply freed_nones|done]]].
  - split; simpl; [split; [lia|]; split; lia|by rewrite length_replicate|lia|lia|].
    exists []. rewrite Z.sub_0_r. by split.
  - unfold ring_abs. simpl. f_equal. by apply (shape_contents _ [] (Z.to_nat n)).
Qed.

Lemma ring_free_owned g : ring_ok g -> dyn_ring_free g ≡ₚ owned own g.
Proof. done. Qed.

Lemma ring_own_errors : errors_keep own.
Proof. intros [] e; done. Qed.
End ring.

(** Ring keeps the last elements pushed.  [new Ring(n)] throws a
    RangeError exactly when [n] is not between 1 and the largest capacity
    whose byte size fits [uint32_t]; otherwise, through any sequence of
    [push]/[get]/[length]/[capacity]/[toArray]/[close] calls, the replies
    are those of a queue that keeps the last [n] elements pushed, oldest
    first, and the references owned and released are those taken, an
    overwritten element being released by the push that overwrites it. *)
Theorem ring_keeps_last {V : Type} (alloc : bool) (n : Z) (ops : list (res_op (Op := @op V))) :
  - 2 ^ 63 <= n < 2 ^ 63 -> Forall (res_op_ok op_ok) ops ->
  match dyn_ring_ctor alloc n with
  | Throw e => if alloc then e = RangeError /\ ~ 1 <= n <= UINT32_MAX / sizeof_JSValue
               else e = RangeError \/ e = OutOfMemory
  | Ret g => 1 <= n <= UINT32_MAX / sizeof_JSValue /\
      let '(rs, r, fr) := run_trace (res_run run_op dyn_ring_free) ops (dyn_res_wrap g) in
      spec_trace (res_spec spec_op) (res_may_fail may_fail) ops (Some (n, [])) rs (res_abs ring_abs r) /\
      owned (res_own own) r ++ fr ++ total (moved (res_own own)) ops rs
        ≡ₚ total (taken (res_own own)) ops rs
  end.
Proof.
  intros Hn Hops. pose proof (ctor_spec (V := V) alloc n Hn) as Hc.
  destruct (dyn_ring_ctor alloc n) as [g|e].
  - destruct Hc as (Hok & Habs & Hf & _).
    split; [pose proof (ro_cap g Hok); unfold ring_abs in Habs; cap_consts; simplify_eq; lia|].
    destruct (run_trace _ _ _) as [[rs r] fr] eqn:E. rewrite <- Habs.
    eapply (resource_trace run_op dyn_ring_free spec_op own op_ok may_fail ring_ok ring_abs g);
      [apply _|exact ring_free_owned|exact ring_own_errors|done|done|done|done].
  - destruct alloc, e; naive_solver.
Qed.

Definition ring_demo : list (res_op (Op := @op Z)) :=
  [Call (Push 1); Call (Push 2); Call (Push 3); Call (Push 4); Call (Get 0); Call (ToArray true); Close].

Lemma ring_keeps_last_witness :
  (exists g, dyn_ring_ctor (V := Z) true 3 = Ret g /\
     (run_trace (res_run run_op dyn_ring_free) ring_demo (dyn_res_wrap g)).1.1 !! 5%nat =
       Some (Ret (Some (R_array [Some 2; Some 3; Some 4])))) /\
  match dyn_ring_ctor true 3 with
  | Throw e => if true then e = RangeError /\ ~ 1 <= 3 <= UINT32_MAX / sizeof_JSValue
               else e = RangeError \/ e = OutOfMemory
  | Ret g => 1 <= 3 <= UINT32_MAX / sizeof_JSValue /\
      let '(rs, r, fr) := run_trace (res_run run_op dyn_ring_free) ring_demo (dyn_res_wrap g) in
      spec_trace (res_spec spec_op) (res_may_fail may_fail) ring_demo (Some (3, [])) rs (res_abs ring_abs r) /\
      owned (res_own own) r ++ fr ++ total (moved (res_own own)) ring_demo rs
        ≡ₚ total (taken (res_own own)) ring_demo rs
  end.
Proof.
  split; [eexists; split; [vm_compute; reflexivity|vm_compute; reflexivity]|].
  refine (ring_keeps_last true 3 ring_demo _ _); [lia|]. repeat constructor; simpl; lia.
Defined.
