(* ===== verification/DynList.v ===== *)
(** * dyna:container List (src/dyna-container.c)

    The doubly linked list: nodes live in a store of allocated blocks, the
    operations relink them pointer by pointer, and the list refines a
    double-ended queue. *)
From S2P Require Import Prelude Native Refine.

Definition ptr : Type := positive.

Section dlist.
Context {V : Type}.

Record DynListNode := Node { prev : option ptr; next : option ptr; value : V }.

(** The blocks allocated for the nodes, and the list header. *)
#[local] Notation store := (gmap ptr DynListNode).
Record dyn_list_t := DList { nodes : store; head : option ptr; tail : option ptr; length_ : Z }.

Definition dyn_list_ctor : dyn_list_t := DList ∅ None None 0.

Inductive reply : Type := R_int (n : Z) | R_val (v : V) | R_undefined | R_array (l : list V).
Definition step : Type := outcome reply * dyn_list_t * list V.

(** [malloc] gives a block that is not in use. *)
Definition malloc (m : store) : ptr := fresh (dom m).

(** Assignments through a pointer: [None] when it is not allocated. *)
Definition set_prev (p : ptr) (q : option ptr) (m : store) : option store :=
  n ← m !! p; Some (<[p := Node q (next n) (value n)]> m).
Definition set_next (p : ptr) (q : option ptr) (m : store) : option store :=
  n ← m !! p; Some (<[p := Node (prev n) q (value n)]> m).

(** A step whose memory accesses may fault. *)
Definition checked (l : dyn_list_t) (s : option step) : step :=
  match s with Some s => s | None => (Throw Fault, l, []) end.

Definition dyn_list_push_front (alloc : bool) (x : V) (l : dyn_list_t) : step :=
  if negb alloc then (Throw OutOfMemory, l, []) else
  let n := malloc (nodes l) in
  let m := <[n := Node None (head l) x]> (nodes l) in
  checked l (
    '(m, t) ← match head l with
              | Some h => m ← set_prev h (Some n) m; Some (m, tail l)
              | None => Some (m, Some n)
              end;
    let len := u32 (length_ l + 1) in
    Some (Ret (R_int len), DList m (Some n) t len, [])).

Definition dyn_list_push_back (alloc : bool) (x : V) (l : dyn_list_t) : step :=
  if negb alloc then (Throw OutOfMemory, l, []) else
  let n := malloc (nodes l) in
  let m := <[n := Node (tail l) None x]> (nodes l) in
  checked l (
    '(m, h) ← match tail l with
              | Some t => m ← set_next t (Some n) m; Some (m, head l)
              | None => Some (m, Some n)
              end;
    let len := u32 (length_ l + 1) in
    Some (Ret (R_int len), DList m h (Some n) len, [])).

Definition dyn_list_pop_front (l : dyn_list_t) : step :=
  match head l with
  | None => (Ret R_undefined, l, [])
  | Some n =>
      checked l (
        nd ← nodes l !! n;
        '(m, t) ← match next nd with
                  | Some h => m ← set_prev h None (nodes l); Some (m, tail l)
                  | None => Some (nodes l, None)
                  end;
        Some (Ret (R_val (value nd)),
              DList (delete n m) (next nd) t (u32 (length_ l - 1)), []))
  end.

Definition dyn_list_pop_back (l : dyn_list_t) : step :=
  match tail l with
  | None => (Ret R_undefined, l, [])
  | Some n =>
      checked l (
        nd ← nodes l !! n;
        '(m, h) ← match prev nd with
                  | Some t => m ← set_next t None (nodes l); Some (m, head l)
                  | None => Some (nodes l, None)
                  end;
        Some (Ret (R_val (value nd)),
              DList (delete n m) h (prev nd) (u32 (length_ l - 1)), []))
  end.

Definition peek (p : option ptr) (l : dyn_list_t) : step :=
  match p with
  | None => (Ret R_undefined, l, [])
  | Some n => checked l (nd ← nodes l !! n; Some (Ret (R_val (value nd)), l, []))
  end.
Definition dyn_list_front (l : dyn_list_t) : step := peek (head l) l.
Definition dyn_list_back (l : dyn_list_t) : step := peek (tail l) l.

Definition dyn_list_length (l : dyn_list_t) : step := (Ret (R_int (length_ l)), l, []).

(** [for (n = p; n; n = n->next)]; [None] is a fault or a loop that does
    not end within [fuel] nodes. *)
Fixpoint walk (fuel : nat) (m : store) (p : option ptr) : option (list V) :=
  match p, fuel with
  | None, _ => Some []
  | Some _, O => None
  | Some p, S fuel => nd ← m !! p; vs ← walk fuel m (next nd); Some (value nd :: vs)
  end.

Definition dyn_list_to_array (alloc : bool) (l : dyn_list_t) : step :=
  if negb alloc then (Throw OutOfMemory, l, []) else
  checked l (vs ← walk (size (nodes l)) (nodes l) (head l); Some (Ret (R_array vs), l, [])).

(** [dyn_list_free]: the values released on the way. *)
Definition dyn_list_free (l : dyn_list_t) : list V :=
  default [] (walk (size (nodes l)) (nodes l) (head l)).

Inductive op : Type :=
| PushFront (alloc : bool) (x : V) | PushBack (alloc : bool) (x : V)
| PopFront | PopBack | Front | Back | Length | ToArray (alloc : bool).

Definition run_op (o : op) (l : dyn_list_t) : step :=
  match o with
  | PushFront a x => dyn_list_push_front a x l
  | PushBack a x => dyn_list_push_back a x l
  | PopFront => dyn_list_pop_front l
  | PopBack => dyn_list_pop_back l
  | Front => dyn_list_front l
  | Back => dyn_list_back l
  | Length => dyn_list_length l
  | ToArray a => dyn_list_to_array a l
  end.

(** ** Specification: a double-ended queue *)

Definition val_or (o : option V) : reply := match o with Some x => R_val x | None => R_undefined end.

Definition spec_op (o : op) (q : list V) : outcome reply * list V :=
  match o with
  | PushFront _ x => (Ret (R_int (u32 (Z.of_nat (length q) + 1))), x :: q)
  | PushBack _ x => (Ret (R_int (u32 (Z.of_nat (length q) + 1))), q ++ [x])
  | PopFront => (Ret (val_or (hd_error q)), tl q)
  | PopBack => (Ret (val_or (last q)), removelast q)
  | Front => (Ret (val_or (hd_error q)), q)
  | Back => (Ret (val_or (last q)), q)
  | Length => (Ret (R_int (u32 (Z.of_nat (length q)))), q)
  | ToArray _ => (Ret (R_array q), q)
  end.

Definition may_fail (o : op) (q : list V) : Prop :=
  match o with PushFront a _ | PushBack a _ | ToArray a => a = false | _ => False end.

(** The values owned are those of the allocated nodes, linked or not. *)
Definition own : ownership op reply V dyn_list_t :=
  Ownership (fun l => value <$> (map_to_list (nodes l)).*2)
    (fun o r => match o, r with PushFront _ x, Ret _ | PushBack _ x, Ret _ => [x] | _, _ => [] end)
    (fun o r => match o, r with PopFront, Ret (R_val x) | PopBack, Ret (R_val x) => [x] | _, _ => [] end).

(** ** Representation *)

(** The nodes [ps] with values [vs] form a doubly linked segment between
    [pr] and [nx]. *)
Fixpoint lseg (m : store) (pr : option ptr) (ps : list ptr) (vs : list V) (nx : option ptr) : Prop :=
  match ps, vs with
  | [], [] => True
  | p :: ps, v :: vs =>
      m !! p = Some (Node pr (hd_error ps ∪ nx) v) /\ lseg m (Some p) ps vs nx
  | _, _ => False
  end.

Definition rep (l : dyn_list_t) (ps : list ptr) (vs : list V) : Prop :=
  NoDup ps /\ lseg (nodes l) None ps vs None /\ head l = hd_error ps /\ tail l = last ps /\
  length_ l = u32 (Z.of_nat (length vs)) /\ dom (nodes l) = list_to_set ps.

Definition list_ok (l : dyn_list_t) : Prop := exists ps vs, rep l ps vs.

Definition list_abs : dyn_list_t -> list V := dyn_list_free.

Lemma lseg_length m pr ps vs nx : lseg m pr ps vs nx -> length ps = length vs.
Proof. revert pr vs. induction ps as [|p ps IH]; intros pr [|v vs] H; simpl in *; naive_solver. Qed.

Lemma lseg_ext m m' pr ps vs nx :
  (forall p, p ∈ ps -> m' !! p = m !! p) -> lseg m pr ps vs nx -> lseg m' pr ps vs nx.
Proof.
  revert pr vs. induction ps as [|p ps IH]; intros pr [|v vs] Hm H; simpl in *; try done.
  destruct H as [H1 H2]. split; [rewrite Hm by (by left); done|].
  apply IH; [|done]. intros q Hq. apply Hm. by right.
Qed.

Lemma lseg_app m pr ps1 ps2 vs1 vs2 nx :
  length ps1 = length vs1 ->
  lseg m pr (ps1 ++ ps2) (vs1 ++ vs2) nx <->
  lseg m pr ps1 vs1 (hd_error ps2 ∪ nx) /\ lseg m (last ps1 ∪ pr) ps2 vs2 nx.
Proof.
  revert pr vs1. induction ps1 as [|p ps1 IH]; intros pr [|v vs1] Hl; simpl in *; try done.
  - rewrite (left_id_L None (∪)). naive_solver.
  - rewrite IH by lia. rewrite last_cons.
    assert (hd_error (ps1 ++ ps2) ∪ nx = hd_error ps1 ∪ (hd_error ps2 ∪ nx)) as ->
      by (by destruct ps1, ps2, nx).
    assert (last ps1 ∪ Some p = match last ps1 with Some y => Some y | None => Some p end) as ->
      by (by destruct (last ps1)).
    assert (forall o : option ptr, is_Some o -> o ∪ pr = o) as Hsome by (by intros ? [? ->]; destruct pr).
    rewrite (Hsome (match last ps1 with Some y => Some y | None => Some p end))
      by (destruct (last ps1); eauto). tauto.
Qed.

Lemma lseg_walk m pr ps vs : lseg m pr ps vs None -> walk (length ps) m (hd_error ps) = Some vs.
Proof.
  revert pr vs. induction ps as [|p ps IH]; intros pr [|v vs] H; simpl in *; try done.
  destruct H as [-> H2]. simpl. rewrite (right_id_L None (∪)). by rewrite (IH _ _ H2).
Qed.

Lemma rep_size l ps vs : rep l ps vs -> size (nodes l) = length ps.
Proof.
  intros (Hnd & _ & _ & _ & _ & Hdom). rewrite <- (size_dom (D := gset ptr)), Hdom. by rewrite size_list_to_set.
Qed.

Lemma rep_abs l ps vs : rep l ps vs ->
  walk (size (nodes l)) (nodes l) (head l) = Some vs /\ list_abs l = vs.
Proof.
  intros Hr. unfold list_abs, dyn_list_free. rewrite (rep_size _ _ _ Hr).
  destruct Hr as (Hnd & Hs & Hh & _). rewrite Hh, (lseg_walk _ _ _ _ Hs). done.
Qed.

Lemma store_values m pr ps vs nx :
  NoDup ps -> lseg m pr ps vs nx -> dom m = list_to_set ps ->
  value <$> (map_to_list m).*2 ≡ₚ vs.
Proof.
  revert m pr vs. induction ps as [|p ps IH]; intros m pr [|v vs] Hnd Hs Hd; simpl in *; try done.
  - apply dom_empty_iff_L in Hd as ->. by rewrite map_to_list_empty.
  - apply NoDup_cons in Hnd as [Hp Hnd]. destruct Hs as [Hm Hs].
    rewrite <- (map_to_list_delete m p _ Hm). csimpl. f_equiv.
    apply (IH _ (Some p)); [done| |].
    + eapply lseg_ext; [|done]. intros q Hq. apply lookup_delete_ne. by intros ->.
    + rewrite dom_delete_L, Hd. set_solver.
Qed.

Lemma rep_owned l ps vs : rep l ps vs -> owned own l ≡ₚ vs.
Proof. intros (Hnd & Hs & _ & _ & _ & Hd). by apply (store_values _ _ _ _ _ Hnd Hs). Qed.

(** ** Relinking the ends of a segment *)

Lemma relink_head m pr q h ps vs nx :
  NoDup (h :: ps) -> lseg m pr (h :: ps) vs nx ->
  exists m', set_prev h q m = Some m' /\ lseg m' q (h :: ps) vs nx /\ dom m' = dom m /\
             forall p, p <> h -> m' !! p = m !! p.
Proof.
  intros Hnd Hs. destruct vs as [|v vs]; [done|]. destruct Hs as [Hh Hs].
  apply NoDup_cons in Hnd as [Hn _].
  unfold set_prev. rewrite Hh. simpl. eexists. split; [done|].
  split; [|split; [rewrite dom_insert_L; apply elem_of_dom_2 in Hh; set_solver|]].
  - split; [by rewrite lookup_insert_eq|]. eapply lseg_ext; [|done].
    intros p Hp. apply lookup_insert_ne. by intros ->.
  - intros p Hp. by apply lookup_insert_ne.
Qed.

Lemma relink_last m pr q t ps vs nx :
  NoDup (ps ++ [t]) -> lseg m pr (ps ++ [t]) vs nx ->
  exists m', set_next t q m = Some m' /\ lseg m' pr (ps ++ [t]) vs q /\ dom m' = dom m /\
             forall p, p <> t -> m' !! p = m !! p.
Proof.
  intros Hnd Hs. pose proof (lseg_length _ _ _ _ _ Hs) as Hl. rewrite length_app in Hl. simpl in Hl.
  destruct vs as [|v vs _] using rev_ind; [simpl in Hl; lia|].
  rewrite length_app in Hl. simpl in Hl.
  apply lseg_app in Hs as [Hs1 Hs2]; [|lia]. simpl in Hs1, Hs2. destruct Hs2 as [Ht _].
  rewrite NoDup_app in Hnd. destruct Hnd as (_ & Hn & _).
  unfold set_next. rewrite Ht. simpl. eexists. split; [done|].
  split; [|split; [rewrite dom_insert_L; apply elem_of_dom_2 in Ht; set_solver|]].
  - apply lseg_app; [lia|]. simpl. split; [|rewrite lookup_insert_eq, (left_id_L None (∪)); done].
    assert (Some t ∪ q = Some t) as -> by (by destruct q).
    assert (Some t ∪ nx = Some t) as Enx by (by destruct nx). rewrite Enx in Hs1.
    eapply lseg_ext; [|done]. intros p Hp. apply lookup_insert_ne. intros ->.
    apply (Hn p); [done|by left].
  - intros p Hp. by apply lookup_insert_ne.
Qed.

Lemma malloc_fresh (m : store) : m !! malloc m = None.
Proof. apply (not_elem_of_dom (D := gset ptr)). unfold malloc. apply is_fresh. Qed.

Lemma len_succ (vs : list V) n :
  n = u32 (Z.of_nat (length vs)) -> u32 (n + 1) = u32 (Z.of_nat (length vs) + 1).
Proof. intros ->. unfold u32. apply Zplus_mod_idemp_l. Qed.

Lemma len_pred (vs : list V) n :
  n = u32 (Z.of_nat (S (length vs))) -> u32 (n - 1) = u32 (Z.of_nat (length vs)).
Proof. intros ->. unfold u32. rewrite Zminus_mod_idemp_l. f_equal. lia. Qed.

(** ** The four updates on representations *)

Lemma push_front_rep x l ps vs :
  rep l ps vs ->
  exists l', dyn_list_push_front true x l = (Ret (R_int (length_ l')), l', []) /\
             rep l' (malloc (nodes l) :: ps) (x :: vs).
Proof.
  intros (Hnd & Hs & Hh & Ht & Hlen & Hd). set (n := malloc (nodes l)).
  assert (Hn : n ∉ ps).
  { pose proof (malloc_fresh (nodes l)) as Hf. apply not_elem_of_dom in Hf. set_solver. }
  unfold dyn_list_push_front. simpl. fold n. rewrite Hh. set (m := <[n := _]> (nodes l)).
  assert (Hs1 : lseg m None ps vs None).
  { eapply lseg_ext; [|done]. intros p Hp. apply lookup_insert_ne. by intros <-. }
  assert (Hmn : m !! n = Some (Node None (hd_error ps) x)) by apply lookup_insert_eq.
  assert (Hmd : dom m = {[n]} ∪ list_to_set ps) by (unfold m; by rewrite dom_insert_L, Hd).
  assert (Hu : u32 (length_ l + 1) = u32 (Z.of_nat (length (x :: vs)))).
  { rewrite (len_succ vs) by done. f_equal. simpl. lia. }
  destruct ps as [|h ps]; simpl.
  - eexists (DList _ _ _ _). split; [done|]. destruct vs; [|done]. split; [apply NoDup_singleton|].
    simpl. rewrite Hmn. done.
  - destruct (relink_head m None (Some n) h ps vs None Hnd Hs1) as (m' & E & Hs' & Hd' & Ho).
    rewrite E. simpl. eexists (DList _ _ _ _). split; [done|].
    split; [by apply NoDup_cons|]. split; [|split; [done|]; split; [by rewrite last_cons_cons|]].
    + split; [|done]. simpl. rewrite Ho by set_solver. by rewrite Hmn.
    + split; [done|]. simpl. by rewrite Hd', Hmd.
Qed.

Lemma push_back_rep x l ps vs :
  rep l ps vs ->
  exists l', dyn_list_push_back true x l = (Ret (R_int (length_ l')), l', []) /\
             rep l' (ps ++ [malloc (nodes l)]) (vs ++ [x]).
Proof.
  intros (Hnd & Hs & Hh & Ht & Hlen & Hd). set (n := malloc (nodes l)).
  pose proof (lseg_length _ _ _ _ _ Hs) as Hl.
  assert (Hn : n ∉ ps).
  { pose proof (malloc_fresh (nodes l)) as Hf. apply not_elem_of_dom in Hf. set_solver. }
  unfold dyn_list_push_back. simpl. fold n. rewrite Ht. set (m := <[n := _]> (nodes l)).
  assert (Hs1 : lseg m None ps vs None).
  { eapply lseg_ext; [|done]. intros p Hp. apply lookup_insert_ne. by intros <-. }
  assert (Hmn : m !! n = Some (Node (last ps) None x)) by apply lookup_insert_eq.
  assert (Hmd : dom m = {[n]} ∪ list_to_set ps) by (unfold m; by rewrite dom_insert_L, Hd).
  assert (Hu : u32 (length_ l + 1) = u32 (Z.of_nat (length (vs ++ [x])))).
  { rewrite (len_succ vs) by done. f_equal. rewrite length_app. simpl. lia. }
  assert (Hnd' : NoDup (ps ++ [n])).
  { apply NoDup_app. split; [done|]. split; [set_solver|apply NoDup_singleton]. }
  destruct ps as [|t ps _] using rev_ind; simpl.
  - destruct vs; [|done]. eexists (DList _ _ _ _). split; [done|]. split; [apply NoDup_singleton|].
    simpl. rewrite Hmn. done.
  - destruct (relink_last m None (Some n) t ps vs None Hnd Hs1) as (m' & E & Hs' & Hd' & Ho).
    rewrite last_snoc in *. simpl. rewrite E. simpl. eexists (DList _ _ _ _). split; [done|].
    split; [done|]. simpl. split; [|split; [|split; [by rewrite last_snoc|]]].
    + apply lseg_app; [done|]. simpl. split; [done|]. split; [|done].
      rewrite Ho by set_solver. by rewrite Hmn, last_snoc.
    + rewrite Hh. by destruct ps.
    + split; [done|]. rewrite Hd', Hmd, list_to_set_app_L. set_solver.
Qed.

Lemma pop_front_rep l p ps v vs :
  rep l (p :: ps) (v :: vs) ->
  exists l', dyn_list_pop_front l = (Ret (R_val v), l', []) /\ rep l' ps vs.
Proof.
  intros (Hnd & Hs & Hh & Ht & Hlen & Hd). pose proof Hs as [Hp Hs']. simpl in Hh.
  rewrite (right_id_L None (∪)) in Hp. apply NoDup_cons in Hnd as [Hn Hnd].
  unfold dyn_list_pop_front. rewrite Hh, Hp. simpl. apply len_pred in Hlen.
  assert (Hdel : forall m' : store, dom m' = dom (nodes l) -> dom (delete p m') = list_to_set ps).
  { intros m' E. rewrite dom_delete_L, E, Hd. set_solver. }
  destruct ps as [|h ps]; simpl.
  - eexists. split; [done|]. destruct vs; [|done]. repeat (split; [done|]). by apply Hdel.
  - destruct (relink_head (nodes l) (Some p) None h ps vs None Hnd Hs') as (m' & E & Hs1 & Hd' & Ho).
    rewrite E. simpl. eexists (DList _ _ _ _). split; [done|].
    split; [done|]. split; [|split; [done|]; split; [done|]; split; [done|]; by apply Hdel].
    eapply lseg_ext; [|done]. intros q Hq. apply lookup_delete_ne. by intros ->.
Qed.

Lemma pop_back_rep l p ps v vs :
  rep l (ps ++ [p]) (vs ++ [v]) ->
  exists l', dyn_list_pop_back l = (Ret (R_val v), l', []) /\ rep l' ps vs.
Proof.
  intros (Hnd & Hs & Hh & Ht & Hlen & Hd). rewrite last_snoc in Ht.
  pose proof (lseg_length _ _ _ _ _ Hs) as Hl. rewrite !length_app in Hl. simpl in Hl.
  apply lseg_app in Hs as [Hs [Hp _]]; [|lia]. simpl in Hs, Hp.
  rewrite (right_id_L None (∪)) in Hp. apply NoDup_app in Hnd as (Hnd & Hn & _).
  rewrite length_app, Nat.add_comm in Hlen. apply len_pred in Hlen.
  unfold dyn_list_pop_back. rewrite Ht, Hp. simpl.
  assert (Hpn : p ∉ ps) by (intros Hin; apply (Hn p Hin); by left).
  assert (Hdel : forall m' : store, dom m' = dom (nodes l) -> dom (delete p m') = list_to_set ps).
  { intros m' E. rewrite dom_delete_L, E, Hd, list_to_set_app_L. set_solver. }
  destruct ps as [|t ps _] using rev_ind; simpl.
  - eexists. split; [done|]. destruct vs; [|simpl in Hl; lia]. repeat (split; [done|]). by apply Hdel.
  - rewrite last_snoc. simpl.
    destruct (relink_last (nodes l) None None t ps vs (Some p) Hnd Hs) as (m' & E & Hs1 & Hd' & Ho).
    rewrite E. simpl. eexists (DList _ _ _ _). split; [done|]. split; [done|].
    split; [|split; [rewrite Hh; by destruct ps|]; split; [by rewrite last_snoc|]; split; [done|]; by apply Hdel].
    eapply lseg_ext; [|done]. intros q Hq. apply lookup_delete_ne. by intros ->.
Qed.

(** ** Refinement *)

Lemma rep_ok l ps vs : rep l ps vs -> list_ok l.
Proof. intros H. by exists ps, vs. Qed.

Lemma rep_nil l ps : rep l ps [] -> head l = None /\ tail l = None.
Proof. intros (_ & Hs & Hh & Ht & _). destruct ps; [done|]. done. Qed.

Lemma rep_cons l ps v vs :
  rep l ps (v :: vs) -> exists p ps', ps = p :: ps' /\ head l = Some p /\
  exists nd, nodes l !! p = Some nd /\ value nd = v.
Proof. intros (_ & Hs & Hh & _). destruct ps as [|p ps]; [done|]. destruct Hs. naive_solver. Qed.

Lemma rep_snoc l ps v vs :
  rep l ps (vs ++ [v]) -> exists p ps', ps = ps' ++ [p] /\ tail l = Some p /\
  exists nd, nodes l !! p = Some nd /\ value nd = v.
Proof.
  intros (_ & Hs & _ & Ht & _). pose proof (lseg_length _ _ _ _ _ Hs) as Hl.
  destruct ps as [|p ps _] using rev_ind; rewrite length_app in Hl; simpl in Hl; [lia|].
  rewrite length_app in Hl. simpl in Hl. rewrite last_snoc in Ht.
  apply lseg_app in Hs as [_ [Hp _]]; [|lia]. naive_solver.
Qed.

Lemma push_step (front alloc : bool) x l r l' fr :
  list_ok l ->
  (if front then dyn_list_push_front else dyn_list_push_back) alloc x l = (r, l', fr) ->
  let o := if front then PushFront alloc x else PushBack alloc x in
  list_ok l' /\ owned own l' ++ fr ++ moved own o r ≡ₚ owned own l ++ taken own o r /\
  spec_step spec_op may_fail o (list_abs l) r (list_abs l').
Proof.
  intros (ps & vs & Hr) E o. destruct alloc.
  - assert (exists l1 ps1 vs1, (r, l', fr) = (Ret (R_int (length_ l1)), l1, []) /\ rep l1 ps1 vs1 /\
             vs1 = if front then x :: vs else vs ++ [x]) as (l1 & ps1 & vs1 & E1 & Hr1 & Hv).
    { destruct front.
      - destruct (push_front_rep x l ps vs Hr) as (l1 & E1 & Hr1). rewrite E1 in E. eauto 10.
      - destruct (push_back_rep x l ps vs Hr) as (l1 & E1 & Hr1). rewrite E1 in E. eauto 10. }
    injection E1 as -> -> ->. split; [by eapply rep_ok|].
    assert (Hlen : length_ l1 = u32 (Z.of_nat (length vs) + 1)).
    { destruct Hr1 as (_ & _ & _ & _ & -> & _). f_equal. subst vs1.
      destruct front; simpl; rewrite ?length_app; simpl; lia. }
    rewrite (rep_owned _ _ _ Hr), (rep_owned _ _ _ Hr1).
    destruct (rep_abs _ _ _ Hr) as [_ ->], (rep_abs _ _ _ Hr1) as [_ ->]. rewrite Hlen, Hv.
    destruct front; simpl; (split; [rewrite ?app_nil_r|by left]); [|done].
    apply Permutation_cons_append.
  - destruct front; unfold dyn_list_push_front, dyn_list_push_back in E; simplify_eq/=;
      (split; [by eapply rep_ok|]; split; [done|by right]).
Qed.

Lemma pop_step (front : bool) l r l' fr :
  list_ok l -> (if front then dyn_list_pop_front else dyn_list_pop_back) l = (r, l', fr) ->
  let o := if front then PopFront else PopBack in
  list_ok l' /\ owned own l' ++ fr ++ moved own o r ≡ₚ owned own l ++ taken own o r /\
  spec_step spec_op may_fail o (list_abs l) r (list_abs l').
Proof.
  intros (ps & vs & Hr) E o. destruct (rep_abs _ _ _ Hr) as [_ Habs].
  assert ((vs = [] /\ (r, l', fr) = (Ret R_undefined, l, [])) \/
          exists v vs1 ps1, rep l' ps1 vs1 /\ r = Ret (R_val v) /\ fr = [] /\
            vs = if front then v :: vs1 else vs1 ++ [v]) as [[-> E1]|(v & vs1 & ps1 & Hr1 & -> & -> & Hv)].
  { destruct front.
    - destruct vs as [|v vs].
      + left. split; [done|]. rewrite <- E. unfold dyn_list_pop_front.
        by destruct (rep_nil _ _ Hr) as [-> _].
      + right. destruct (rep_cons _ _ _ _ Hr) as (p & ps' & -> & _).
        destruct (pop_front_rep _ _ _ _ _ Hr) as (l1 & E1 & Hr1).
        rewrite E1 in E. simplify_eq. exists v, vs, ps'. done.
    - destruct vs as [|v vs _] using rev_ind.
      + left. split; [done|]. rewrite <- E. unfold dyn_list_pop_back.
        by destruct (rep_nil _ _ Hr) as [_ ->].
      + right. destruct (rep_snoc _ _ _ _ Hr) as (p & ps' & -> & _).
        destruct (pop_back_rep _ _ _ _ _ Hr) as (l1 & E1 & Hr1).
        rewrite E1 in E. simplify_eq. exists v, vs, ps'. done. }
  - simplify_eq. split; [by eapply rep_ok|]. rewrite Habs.
    destruct front; (split; [done|left; simpl]); done.
  - split; [by eapply rep_ok|]. rewrite (rep_owned _ _ _ Hr), (rep_owned _ _ _ Hr1).
    destruct (rep_abs _ _ _ Hr1) as [_ ->]. rewrite Habs, Hv.
    destruct front; simpl; rewrite ?app_nil_r.
    + split; [symmetry; apply Permutation_cons_append|by left].
    + split; [done|]. left. simpl. by rewrite last_snoc, removelast_last.
Qed.

#[global] Instance list_refines :
  Refines run_op spec_op own (fun _ => True) may_fail list_ok list_abs.
Proof.
  split. intros o l r l' fr _ Hok E.
  destruct o as [a x|a x| | | | | |a]; simpl in E.
  - by apply (push_step true a x).
  - by apply (push_step false a x).
  - by apply (pop_step true).
  - by apply (pop_step false).
  - pose proof Hok as (ps & vs & Hr). unfold dyn_list_front, peek in E.
    destruct (rep_abs _ _ _ Hr) as [_ Habs]. destruct vs as [|v vs].
    + destruct (rep_nil _ _ Hr) as [Eh _]. rewrite Eh in E. simplify_eq.
      split; [done|]. split; [done|]. left. by rewrite Habs.
    + destruct (rep_cons _ _ _ _ Hr) as (p & ps' & -> & Eh & nd & Hnd & <-).
      rewrite Eh, Hnd in E. simpl in E. simplify_eq.
      split; [done|]. split; [done|]. left. by rewrite Habs.
  - pose proof Hok as (ps & vs & Hr). unfold dyn_list_back, peek in E.
    destruct (rep_abs _ _ _ Hr) as [_ Habs]. destruct vs as [|v vs _] using rev_ind.
    + destruct (rep_nil _ _ Hr) as [_ Eh]. rewrite Eh in E. simplify_eq.
      split; [done|]. split; [done|]. left. by rewrite Habs.
    + destruct (rep_snoc _ _ _ _ Hr) as (p & ps' & -> & Eh & nd & Hnd & <-).
      rewrite Eh, Hnd in E. simpl in E. simplify_eq.
      split; [done|]. split; [done|]. left. rewrite Habs. simpl. by rewrite last_snoc.
  - unfold dyn_list_length in E. simplify_eq. split; [done|]. split; [done|]. left.
    destruct Hok as (ps & vs & Hr). destruct (rep_abs _ _ _ Hr) as [_ ->].
    simpl. by destruct Hr as (_ & _ & _ & _ & -> & _).
  - unfold dyn_list_to_array in E. destruct a; simpl in E.
    + pose proof Hok as (ps & vs & Hr). destruct (rep_abs _ _ _ Hr) as [Hw Habs].
      rewrite Hw in E. injection E as <- <- <-. split; [done|]. split; [done|]. left. by rewrite Habs.
    + simplify_eq. split; [done|]. split; [done|by right].
Qed.

Lemma dlist_free_owned l : list_ok l -> dyn_list_free l ≡ₚ owned own l.
Proof.
  intros (ps & vs & Hr). rewrite (rep_owned _ _ _ Hr).
  change (list_abs l ≡ₚ vs). by destruct (rep_abs _ _ _ Hr) as [_ ->].
Qed.

Lemma dlist_own_errors : errors_keep own.
Proof. intros [] e; done. Qed.

Lemma dlist_ctor_ok : list_ok dyn_list_ctor.
Proof. exists [], []. split; [constructor|]. repeat (split; [done|]). simpl. set_solver. Qed.
End dlist.

(** [C15] List refines a double-ended queue.  From [new List()] through any
    sequence of [pushFront]/[pushBack]/[popFront]/[popBack]/[front]/[back]/
    [length]/[toArray]/[close] calls, the relinking of nodes keeps a doubly
    linked list whose forward walk ends, no pointer is followed to a block
    that is not allocated, the replies are those of a double-ended queue, and
    the values held by allocated nodes, those released and those handed out
    by the pops are exactly those taken. *)
Theorem list_refines_deque {V : Type} (ops : list (res_op (Op := @op V))) rs r fr :
  run_trace (res_run run_op dyn_list_free) ops (dyn_res_wrap dyn_list_ctor) = (rs, r, fr) ->
  res_inv list_ok r /\ (forall i, rs !! i <> Some (Throw Fault)) /\
  spec_trace (res_spec spec_op) (res_may_fail may_fail) ops (Some []) rs (res_abs list_abs r) /\
  owned (res_own own) r ++ fr ++ total (moved (res_own own)) ops rs
    ≡ₚ total (taken (res_own own)) ops rs.
Proof.
  intros E.
  destruct (resource_trace run_op dyn_list_free spec_op own (fun _ => True) may_fail
              list_ok list_abs dyn_list_ctor ops rs r fr) as (H1 & H2 & H3);
    [apply _|exact dlist_free_owned|exact dlist_own_errors|exact dlist_ctor_ok|done| |done|].
  - apply Forall_true. by intros [].
  - split; [done|]. split; [|done]. eapply spec_trace_no_fault; [|done].
    intros [[]|] [q|]; done.
Qed.

Definition list_demo : list (res_op (Op := @op Z)) :=
  [Call (PushBack true 2); Call (PushFront true 1); Call (PushBack true 3); Call PopFront;
   Call (ToArray true); Call PopBack; Call PopBack; Call PopBack; Call (PushFront true 5); Close].

Lemma list_refines_deque_witness :
  exists rs r fr,
  run_trace (res_run run_op dyn_list_free) list_demo (dyn_res_wrap dyn_list_ctor) = (rs, r, fr) /\
  rs !! 4%nat = Some (Ret (Some (R_array [2; 3]))) /\ fr = [5] /\ res_inv list_ok r.
Proof.
  eexists _, _, _. split; [vm_compute; reflexivity|]. split; [reflexivity|].
  split; [reflexivity|].
  eapply (list_refines_deque list_demo). vm_compute; reflexivity.
Defined.
