(* ===== verification/Heap.v ===== *)
(** * dyna:container Heap (src/dyna-container.c)

    The binary heap ordered by a script comparator.  The comparator is the
    hard part: it is arbitrary code, called in the middle of a sift, that may
    throw, may close the very heap it is ordering, and may call [push] and
    [pop] on it again.  The model runs it as code: between its start and its
    answer it calls the methods of the heap, in any order and depending on
    their replies, and these calls run the same method definitions, down to
    the depth the script stack allows. *)
From S2P Require Import Prelude Native Refine Structures.

(** The result of a comparator call: a number whose sign matters or an
    exception (thrown by the function or by the conversion to a number). *)
Inductive cmp_answer : Type := CmpNum (sign : Z) | CmpThrow.

Section heap.
Context {V W : Type}.

Record dyn_heap_t := HeapOf { cmp : V; items : list V; cap : Z; busy : bool }.

Definition count (h : dyn_heap_t) : Z := Z.of_nat (length (items h)).
Definition with_items (l : list V) (h : dyn_heap_t) : dyn_heap_t := HeapOf (cmp h) l (cap h) (busy h).
Definition with_busy (b : bool) (h : dyn_heap_t) : dyn_heap_t := HeapOf (cmp h) (items h) (cap h) b.

Definition dyn_heap_ctor (f : V) : dyn_heap_t := HeapOf f [] 0 false.

(** [dyn_heap_reserve] has the body of [dyn_vector_reserve]. *)
Definition dyn_heap_reserve (alloc : bool) (h : dyn_heap_t) (need : Z) : option dyn_heap_t :=
  c ← reserve alloc (cap h) need; Some (HeapOf (cmp h) (items h) c (busy h)).

Definition dyn_heap_free (h : dyn_heap_t) : list V := items h ++ [cmp h].

(** The methods a script can call on the heap, and what they return. *)
Inductive op : Type := Push (alloc : bool) (x : V) | Pop | Peek | Size | Close.
Inductive reply : Type := R_int (n : Z) | R_val (v : V) | R_undefined.

(** What a comparator does once called: it answers, leaving the world of the
    script as it has made it, or it calls a method of the heap it is ordering
    and goes on with the reply and the world that call left. *)
Inductive cmp_script : Type :=
| Answer (a : cmp_answer) (w : W)
| CallOp (o : op) (w : W) (k : outcome reply -> W -> cmp_script).

(** The comparator: the script it runs on two operands in a given world. *)
Context (JS_Call : V -> V -> W -> cmp_script).

(** The resource, the world, the references released so far and the ones
    taken ([JS_DupValue]) so far. *)
Record st := St { res : DynResource dyn_heap_t; world : W; released : list V; taken : list V }.

(** A method gives its outcome and the new state. *)
Definition step : Type := outcome reply * st.

Section methods.
(** The methods as the comparator reaches them, one call deeper. *)
Context (nested : op -> st -> step).

Fixpoint run_script (c : cmp_script) (s : st) : cmp_answer * st :=
  match c with
  | Answer a w => (a, St (res s) w (released s) (taken s))
  | CallOp o w k =>
      let '(r, s) := nested o (St (res s) w (released s) (taken s)) in
      run_script (k r (world s)) s
  end.

(** [dyn_heap_cmp_call]: the comparator runs.  The operands and the function
    are kept alive by the call's own references. *)
Definition dyn_heap_cmp_call (a b : V) (s : st) : cmp_answer * st :=
  run_script (JS_Call a b (world s)) s.

Definition put (h : dyn_heap_t) (s : st) : st :=
  St (Resource (Some h) false) (world s) (released s) (taken s).

(** Run the comparator and resolve the heap again: the sign, or the
    exception that stops the sift.  [busy] is cleared on an exception. *)
Definition compare (a b : V) (s : st) : outcome (Z * dyn_heap_t) * st :=
  let '(ans, s) := dyn_heap_cmp_call a b s in
  match dyn_res_native (res s) with
  | Throw e => (Throw e, s)
  | Ret None => (Throw Fault, s)
  | Ret (Some h) =>
      match ans with
      | CmpThrow => (Throw UserException, put (with_busy false h) s)
      | CmpNum c => (Ret (c, h), s)
      end
  end.

(** Exchange two slots; [None] is an access outside the array. *)
Definition exchange (i j : nat) (h : dyn_heap_t) : option dyn_heap_t :=
  match items h !! i, items h !! j with
  | Some x, Some y => Some (with_items (<[i := y]> (<[j := x]> (items h))) h)
  | _, _ => None
  end.

Definition parent (i : nat) : nat := Nat.div (i - 1) 2.

(** The loop of [dyn_heap_sift_up]; [idx] decreases, so [fuel = idx] is
    enough and at [fuel = 0] the loop condition is false. *)
Fixpoint sift_up_loop (fuel : nat) (idx : nat) (h : dyn_heap_t) (s : st) : outcome unit * st :=
  match fuel with
  | O => (Ret tt, put (with_busy false h) s)
  | S fuel =>
      if decide (idx = 0%nat) then (Ret tt, put (with_busy false h) s) else
      match items h !! idx, items h !! parent idx with
      | Some a, Some b =>
          match compare a b s with
          | (Throw e, s) => (Throw e, s)
          | (Ret (c, h), s) =>
              if 0 <=? c then (Ret tt, put (with_busy false h) s)
              else match exchange idx (parent idx) h with
                   | Some h => sift_up_loop fuel (parent idx) h (put h s)
                   | None => (Throw Fault, s)
                   end
          end
      | _, _ => (Throw Fault, s)
      end
  end.

Definition dyn_heap_sift_up (idx : nat) (h : dyn_heap_t) (s : st) : outcome unit * st :=
  let h := with_busy true h in sift_up_loop idx idx h (put h s).

(** One child of a [dyn_heap_sift_down] round: the smaller of the child
    [c] (when it exists) and the current [smallest]. *)
Definition pick (c smallest : nat) (h : dyn_heap_t) (s : st) : outcome (nat * dyn_heap_t) * st :=
  if Z.of_nat c <? count h then
    match items h !! c, items h !! smallest with
    | Some a, Some b =>
        match compare a b s with
        | (Throw e, s) => (Throw e, s)
        | (Ret (sign, h), s) => (Ret ((if sign <? 0 then c else smallest), h), s)
        end
    | _, _ => (Throw Fault, s)
    end
  else (Ret (smallest, h), s).

(** The loop of [dyn_heap_sift_down]; [idx] increases below [count], so
    [fuel = count - idx] is enough and at [fuel = 0] there are no children. *)
Fixpoint sift_down_loop (fuel : nat) (idx : nat) (h : dyn_heap_t) (s : st) : outcome unit * st :=
  match fuel with
  | O => (Ret tt, put (with_busy false h) s)
  | S fuel =>
      match pick (2 * idx + 1) idx h s with
      | (Throw e, s) => (Throw e, s)
      | (Ret (smallest, h), s) =>
          match pick (2 * idx + 2) smallest h s with
          | (Throw e, s) => (Throw e, s)
          | (Ret (smallest, h), s) =>
              if decide (smallest = idx) then (Ret tt, put (with_busy false h) s)
              else match exchange idx smallest h with
                   | Some h => sift_down_loop fuel smallest h (put h s)
                   | None => (Throw Fault, s)
                   end
          end
      end
  end.

Definition dyn_heap_sift_down (idx : nat) (h : dyn_heap_t) (s : st) : outcome unit * st :=
  let h := with_busy true h in sift_down_loop (length (items h) - idx) idx h (put h s).

(** ** Methods *)

Definition with_heap (s : st) (f : dyn_heap_t -> step) : step :=
  match dyn_res_native (res s) with
  | Throw e => (Throw e, s)
  | Ret None => (Throw Fault, s)
  | Ret (Some h) => f h
  end.

(** The heap takes a reference ([JS_DupValue]) and gives one up
    ([JS_FreeValue]). *)
Definition take_ref (x : V) (s : st) : st := St (res s) (world s) (released s) (taken s ++ [x]).
Definition drop_ref (x : V) (s : st) : st := St (res s) (world s) (released s ++ [x]) (taken s).

Definition dyn_heap_push (alloc : bool) (x : V) (s : st) : step :=
  with_heap s (fun h =>
    if busy h then (Throw TypeError, s) else
    match dyn_heap_reserve alloc h (u32 (count h + 1)) with
    | None => (Throw OutOfMemory, s)
    | Some h =>
        let h := with_items (items h ++ [x]) h in
        match dyn_heap_sift_up (length (items h) - 1) h (take_ref x s) with
        | (Throw e, s) => (Throw e, s)
        | (Ret _, s) => (Ret (R_int (match native (res s) with Some h => count h | None => 0 end)), s)
        end
    end).

Definition dyn_heap_pop (s : st) : step :=
  with_heap s (fun h =>
    if busy h then (Throw TypeError, s) else
    match items h with
    | [] => (Ret R_undefined, s)
    | top :: _ =>
        let h' := with_items (removelast (items h)) h in
        match items h' with
        | [] => (Ret (R_val top), put h' s)
        | _ =>
            match last (items h) with
            | None => (Throw Fault, s)
            | Some lst =>
                match dyn_heap_sift_down 0 (with_items (<[0%nat := lst]> (items h')) h') s with
                | (Throw e, s) => (Throw e, drop_ref top s)
                | (Ret _, s) => (Ret (R_val top), s)
                end
            end
        end
    end).

Definition dyn_heap_peek (s : st) : step :=
  with_heap s (fun h =>
    (Ret (match items h with [] => R_undefined | x :: _ => R_val x end), s)).

Definition dyn_heap_size (s : st) : step := with_heap s (fun h => (Ret (R_int (count h)), s)).

Definition dyn_heap_close (s : st) : step :=
  let '(r, disposed) := dyn_method_close (res s) in
  (Ret R_undefined, St r (world s) (released s ++ concat (dyn_heap_free <$> disposed)) (taken s)).

Definition run_op (o : op) (s : st) : step :=
  match o with
  | Push a x => dyn_heap_push a x s
  | Pop => dyn_heap_pop s
  | Peek => dyn_heap_peek s
  | Size => dyn_heap_size s
  | Close => dyn_heap_close s
  end.

(** A sequence of calls: replies and final state. *)
Fixpoint run_calls (ops : list op) (s : st) : list (outcome reply) * st :=
  match ops with
  | [] => ([], s)
  | o :: ops =>
      let '(r, s) := run_op o s in
      let '(rs, s) := run_calls ops s in (r :: rs, s)
  end.

(** ** Any comparator: nothing is lost, nothing faults *)

Implicit Types (h : dyn_heap_t) (s : st) (l : list V).

(** [exchange] on indices of the array. *)
Definition swap (l : list V) (i j : nat) : list V :=
  match l !! i, l !! j with
  | Some x, Some y => <[i := y]> (<[j := x]> l)
  | _, _ => l
  end.

Lemma exchange_swap i j h :
  (i < length (items h))%nat -> (j < length (items h))%nat ->
  exchange i j h = Some (with_items (swap (items h) i j) h).
Proof.
  intros Hi Hj. unfold exchange, swap.
  destruct (lookup_lt_is_Some_2 _ _ Hi) as [x ->]. by destruct (lookup_lt_is_Some_2 _ _ Hj) as [y ->].
Qed.

Lemma swap_perm l i j : swap l i j ≡ₚ l.
Proof.
  unfold swap. destruct (l !! i) as [x|] eqn:Ei; [|done]. destruct (l !! j) as [y|] eqn:Ej; [|done].
  destruct (decide (i = j)) as [->|Hij].
  - rewrite list_insert_insert_eq. simplify_eq. by rewrite list_insert_id.
  - apply (inj (cons x)). rewrite (Permutation_cons_append _ x).
    assert (H : <[i:=y]> (<[j:=x]> l) ++ [x] ≡ₚ <[j:=x]> l ++ [y]).
    { apply Vector.insert_balance. by rewrite list_lookup_insert_ne. }
    rewrite H, (Vector.insert_balance l j x y Ej). symmetry. apply Permutation_cons_append.
Qed.

Lemma swap_length l i j : length (swap l i j) = length l.
Proof. by rewrite (swap_perm l i j). Qed.

Lemma swap_lookup l i j x y :
  l !! i = Some x -> l !! j = Some y -> forall k,
  swap l i j !! k = if decide (k = i) then Some y else if decide (k = j) then Some x else l !! k.
Proof.
  intros Ei Ej k. unfold swap. rewrite Ei, Ej.
  pose proof (lookup_lt_Some _ _ _ Ei). pose proof (lookup_lt_Some _ _ _ Ej).
  destruct (decide (k = i)) as [->|Hi].
  - rewrite list_lookup_insert_eq; [done|]. by rewrite length_insert.
  - rewrite list_lookup_insert_ne by done. destruct (decide (k = j)) as [->|Hj].
    + by rewrite list_lookup_insert_eq.
    + by rewrite list_lookup_insert_ne.
Qed.

Lemma parent_spec i : (0 < i)%nat -> (i = 2 * parent i + 1 \/ i = 2 * parent i + 2)%nat.
Proof.
  intros Hi. unfold parent. pose proof (Nat.div_mod_eq (i - 1) 2).
  pose proof (Nat.mod_upper_bound (i - 1) 2). lia.
Qed.

Lemma parent_lt i : (0 < i)%nat -> (parent i < i)%nat.
Proof. intros Hi. pose proof (parent_spec i Hi). lia. Qed.

(** Rule 3 of the module: what calls on a busy heap may do to it.  Either
    nothing, or the heap is closed and gives up what it holds; no reference
    is taken. *)
Definition guarded h s s' : Prop :=
  taken s' = taken s /\
  ((res s' = Resource (Some h) false /\ released s' = released s) \/
   (res s' = Resource None true /\ released s' = released s ++ dyn_heap_free h)).

(** Calls on a closed heap change nothing of it. *)
Definition inert s s' : Prop :=
  res s' = res s /\ released s' = released s /\ taken s' = taken s.

(** The methods reached from the comparator respect it. *)
Definition reentry_safe (call : op -> st -> step) : Prop := forall o s,
  (forall h, res s = Resource (Some h) false -> busy h = true -> guarded h s (call o s).2) /\
  (res s = Resource None true -> inert s (call o s).2).

(** The guards of the methods: on a busy heap [push] and [pop] throw. *)
Lemma busy_push alloc x h s :
  res s = Resource (Some h) false -> busy h = true -> dyn_heap_push alloc x s = (Throw TypeError, s).
Proof. intros Hs Hb. unfold dyn_heap_push, with_heap. rewrite Hs. simpl. by rewrite Hb. Qed.

Lemma busy_pop h s :
  res s = Resource (Some h) false -> busy h = true -> dyn_heap_pop s = (Throw TypeError, s).
Proof. intros Hs Hb. unfold dyn_heap_pop, with_heap. rewrite Hs. simpl. by rewrite Hb. Qed.

Lemma run_op_reentry : reentry_safe run_op.
Proof.
  intros o s. split.
  - intros h Hs Hb. assert (Hself : guarded h s s) by (split; [done|by left]).
    destruct o; simpl.
    + by rewrite (busy_push _ _ h).
    + by rewrite (busy_pop h).
    + unfold dyn_heap_peek, with_heap. by rewrite Hs.
    + unfold dyn_heap_size, with_heap. by rewrite Hs.
    + unfold dyn_heap_close. rewrite Hs. simpl. split; [done|]. right. simpl. by rewrite app_nil_r.
  - intros Hs. destruct o; simpl;
      unfold dyn_heap_push, dyn_heap_pop, dyn_heap_peek, dyn_heap_size, dyn_heap_close, with_heap;
      rewrite Hs; simpl; [done..|]. unfold inert. simpl. by rewrite app_nil_r.
Qed.

Context (Hnested : reentry_safe nested).

Lemma run_script_inert c : forall s, res s = Resource None true -> inert s (run_script c s).2.
Proof.
  induction c as [a w|o w k IH]; intros s Hs; simpl; [done|].
  set (s0 := St (res s) w (released s) (taken s)).
  destruct (Hnested o s0) as [_ H0]. specialize (H0 Hs). destruct (nested o s0) as [r s1]. simpl in H0.
  destruct H0 as (H1 & H2 & H3). simpl in *. destruct (IH r (world s1) s1) as (E1 & E2 & E3); [congruence|].
  split; [congruence|]. split; congruence.
Qed.

Lemma run_script_guarded c h : forall s,
  res s = Resource (Some h) false -> busy h = true -> guarded h s (run_script c s).2.
Proof.
  induction c as [a w|o w k IH]; intros s Hs Hb; simpl; [split; [done|by left]|].
  set (s0 := St (res s) w (released s) (taken s)).
  destruct (Hnested o s0) as [H0 _]. specialize (H0 h Hs Hb). destruct (nested o s0) as [r s1]. simpl in H0.
  destruct H0 as (Ht & [(Hr & Hl)|(Hr & Hl)]); simpl in *.
  - destruct (IH r (world s1) s1 Hr Hb) as (Ht' & [(?&?)|(?&?)]); (split; [congruence|]); [left|right];
      split; congruence.
  - destruct (run_script_inert (k r (world s1)) s1 Hr) as (E1 & E2 & E3). split; [congruence|].
    right. split; congruence.
Qed.

(** A comparison leaves the heap alone, or closes it, or throws. *)
Lemma compare_spec a b h s r s' :
  busy h = true -> compare a b (put h s) = (r, s') -> taken s' = taken s /\
  ((exists c, r = Ret (c, h) /\ res s' = Resource (Some h) false /\ released s' = released s) \/
   (r = Throw UserException /\ res s' = Resource (Some (with_busy false h)) false /\
     released s' = released s) \/
   (r = Throw TypeError /\ res s' = Resource None true /\
     released s' = released s ++ dyn_heap_free h)).
Proof.
  intros Hb. unfold compare, dyn_heap_cmp_call.
  pose proof (run_script_guarded (JS_Call a b (world (put h s))) h (put h s) eq_refl Hb) as Hg.
  destruct (run_script _ _) as [ans s1]. destruct Hg as (Ht & [(Hr & Hl)|(Hr & Hl)]);
    simpl in Ht, Hr, Hl; rewrite Hr; simpl.
  - destruct ans; intros [= <- <-]; simpl; eauto 10.
  - intros [= <- <-]. eauto 10.
Qed.

Lemma put_same h s : res s = Resource (Some h) false -> put h s = s.
Proof. destruct s; simpl. intros ->. done. Qed.

(** What a sift leaves behind, whatever the comparator does. *)
Definition sift_post h s (p : outcome unit * st) : Prop :=
  let '(r, s') := p in
  taken s' = taken s /\
  ((exists h', res s' = Resource (Some h') false /\ busy h' = false /\ cap h' = cap h /\
      cmp h' = cmp h /\ items h' ≡ₚ items h /\ released s' = released s /\
      (r = Ret tt \/ r = Throw UserException)) \/
   (res s' = Resource None true /\ released s' ≡ₚ released s ++ dyn_heap_free h /\ r = Throw TypeError)).

Lemma sift_post_done h s h1 s1 :
  cap h1 = cap h -> cmp h1 = cmp h -> items h1 ≡ₚ items h -> released s1 = released s ->
  taken s1 = taken s -> sift_post h s (Ret tt, put (with_busy false h1) s1).
Proof. intros. split; [done|]. left. exists (with_busy false h1). simpl. eauto 10. Qed.

Lemma sift_post_weaken h s h1 s1 p :
  cap h1 = cap h -> cmp h1 = cmp h -> items h1 ≡ₚ items h -> released s1 = released s ->
  taken s1 = taken s -> sift_post h1 s1 p -> sift_post h s p.
Proof.
  intros H1 H2 H3 H4 H5. destruct p as [r s']. unfold sift_post, dyn_heap_free.
  rewrite H1, H2, H4, H5. setoid_rewrite H3. done.
Qed.

Lemma sift_up_post fuel : forall idx h s,
  busy h = true -> (idx < length (items h))%nat -> sift_post h s (sift_up_loop fuel idx h (put h s)).
Proof.
  induction fuel as [|fuel IH]; intros idx h s Hb Hi; simpl; [by apply sift_post_done|].
  destruct (decide (idx = 0%nat)) as [->|Hne]; [by apply sift_post_done|].
  pose proof (parent_lt idx ltac:(lia)) as Hp.
  destruct (lookup_lt_is_Some_2 (items h) idx) as [a ->]; [lia|].
  destruct (lookup_lt_is_Some_2 (items h) (parent idx)) as [b ->]; [lia|].
  destruct (compare a b (put h s)) as [r1 s1] eqn:E.
  destruct (compare_spec a b h s r1 s1 Hb E) as
    (Ht & [(c & -> & Hr & Hrel)|[(-> & Hr & Hrel)|(-> & Hr & Hrel)]]).
  - destruct (0 <=? c); [by apply sift_post_done|]. rewrite exchange_swap by lia.
    eapply sift_post_weaken; [| | | | |apply IH]; simpl; rewrite ?swap_length, ?swap_perm; done || lia.
  - split; [done|]. left. exists (with_busy false h). simpl. eauto 10.
  - split; [done|]. right. by rewrite Hrel.
Qed.

(** One pick: a comparison with the current smallest, or nothing. *)
Lemma pick_spec c smallest h s r s' :
  res s = Resource (Some h) false -> busy h = true -> (smallest < length (items h))%nat ->
  pick c smallest h s = (r, s') ->
  (exists k, r = Ret (k, h) /\ res s' = res s /\ released s' = released s /\ taken s' = taken s /\
     (k = smallest \/ (k = c /\ c < length (items h))%nat)) \/
  (exists e, r = Throw e /\ sift_post h s (Throw e, s')).
Proof.
  intros Hs Hb Hlt E. unfold pick, count in E.
  destruct (Z.ltb_spec (Z.of_nat c) (Z.of_nat (length (items h)))); [|simplify_eq; left; eauto 10].
  destruct (lookup_lt_is_Some_2 (items h) c) as [a Ea]; [lia|].
  destruct (lookup_lt_is_Some_2 (items h) smallest) as [b Eb]; [lia|].
  rewrite Ea, Eb in E. rewrite <- (put_same h s Hs) in E.
  destruct (compare a b (put h s)) as [r1 s1] eqn:Ec.
  destruct (compare_spec a b h s r1 s1 Hb Ec) as
    (Ht & [(n & -> & Hr & Hrel)|[(-> & Hr & Hrel)|(-> & Hr & Hrel)]]); simplify_eq.
  - left. exists (if n <? 0 then c else smallest). rewrite Hs, Hr. repeat (split; [done|]).
    destruct (n <? 0); [right; split; [done|lia]|by left].
  - right. exists UserException. split; [done|]. split; [done|].
    left. exists (with_busy false h). simpl. eauto 10.
  - right. exists TypeError. split; [done|]. split; [done|]. right. by rewrite Hrel.
Qed.

Lemma sift_down_post fuel : forall idx h s,
  busy h = true -> (idx < length (items h))%nat -> sift_post h s (sift_down_loop fuel idx h (put h s)).
Proof.
  induction fuel as [|fuel IH]; intros idx h s Hb Hi; cbn [sift_down_loop]; [by apply sift_post_done|].
  destruct (pick (2 * idx + 1) idx h (put h s)) as [r1 s1] eqn:E1.
  destruct (pick_spec _ _ h (put h s) _ _ eq_refl Hb Hi E1)
    as [(k1 & -> & Hr1 & Hrel1 & Ht1 & Hk1)|(e & -> & Hp)]; [|done].
  simpl in Hr1. assert (Hk1' : (k1 < length (items h))%nat) by lia.
  destruct (pick (2 * idx + 2) k1 h s1) as [r2 s2] eqn:E2.
  destruct (pick_spec _ _ _ _ _ _ Hr1 Hb Hk1' E2)
    as [(k2 & -> & Hr2 & Hrel2 & Ht2 & Hk2)|(e & -> & Hp)].
  - simpl in Hrel1, Ht1. destruct (decide (k2 = idx)) as [->|Hne].
    + apply sift_post_done; [done|done|done|congruence|congruence].
    + rewrite exchange_swap by lia.
      eapply sift_post_weaken; [| | | | |apply IH]; simpl; rewrite ?swap_length, ?swap_perm;
        done || lia || congruence.
  - eapply sift_post_weaken; [| | | | |done]; done.
Qed.

(** *** The fuel of the loops is enough: more of it changes nothing *)

Lemma sift_up_fuel fuel : forall idx h s,
  (idx <= fuel)%nat -> sift_up_loop (S fuel) idx h s = sift_up_loop fuel idx h s.
Proof.
  induction fuel as [|fuel IH]; intros idx h s Hi.
  - assert (idx = 0%nat) as -> by lia. done.
  - remember (S fuel) as n eqn:En. simpl.
    replace (sift_up_loop n idx h s) with (sift_up_loop (S fuel) idx h s) by (by subst n). simpl.
    destruct (decide (idx = 0%nat)); [done|]. pose proof (parent_lt idx ltac:(lia)).
    destruct (items h !! idx); [|done]. destruct (items h !! parent idx); [|done].
    destruct (compare _ _ s) as [[[c h1]|e] s1]; [|done]. destruct (0 <=? c); [done|].
    destruct (exchange _ _ _); [|done]. subst n. apply IH. lia.
Qed.

Lemma pick_items c smallest h s k h' s' :
  res s = Resource (Some h) false -> busy h = true -> (smallest < length (items h))%nat ->
  pick c smallest h s = (Ret (k, h'), s') ->
  h' = h /\ res s' = Resource (Some h) false /\ (k = smallest \/ k = c) /\ (k < length (items h))%nat.
Proof.
  intros Hs Hb Hlt E. destruct (pick_spec _ _ _ _ _ _ Hs Hb Hlt E) as [(k' & E1 & Hr & _ & _ & Hk)|(e & E1 & _)];
    simplify_eq. rewrite Hr, Hs. repeat (split; [done|]). split; [naive_solver|lia].
Qed.

Lemma sift_down_fuel fuel : forall idx h s,
  res s = Resource (Some h) false -> busy h = true -> (idx < length (items h))%nat ->
  (length (items h) - idx <= fuel)%nat ->
  sift_down_loop (S fuel) idx h s = sift_down_loop fuel idx h s.
Proof.
  induction fuel as [|fuel IH]; intros idx h s Hs Hb Hi Hf; [lia|].
  remember (S fuel) as n eqn:En. cbn [sift_down_loop].
  replace (sift_down_loop n idx h s) with (sift_down_loop (S fuel) idx h s) by (by subst n).
  cbn [sift_down_loop].
  destruct (pick (2 * idx + 1) idx h s) as [[[k1 h1]|e] s1] eqn:E1; [|done].
  apply pick_items in E1 as (-> & Hs1 & Hk1 & Hl1); [|done..].
  destruct (pick (2 * idx + 2) k1 h s1) as [[[k2 h2]|e] s2] eqn:E2; [|done].
  apply pick_items in E2 as (-> & Hs2 & Hk2 & Hl2); [|done..].
  destruct (decide (k2 = idx)); [done|]. rewrite exchange_swap by lia.
  subst n. apply IH; simpl; rewrite ?swap_length; done || lia.
Qed.

(** *** Invariant and balance of the methods *)

Definition heap_ok h : Prop := busy h = false /\ cap_ok (cap h) /\ count h <= cap h.

Definition st_ok s : Prop :=
  (exists h, res s = Resource (Some h) false /\ heap_ok h) \/ res s = Resource None true.

(** All the references the heap has ever been given and still accounts for. *)
Definition held s : list V :=
  match native (res s) with Some h => dyn_heap_free h | None => [] end ++ released s.

Definition handed (o : op) (r : outcome reply) : list V :=
  match o, r with Pop, Ret (R_val x) => [x] | _, _ => [] end.

Definition step_post (o : op) s (p : step) : Prop :=
  let '(r, s') := p in
  st_ok s' /\ r <> Throw Fault /\
  exists t, taken s' = taken s ++ t /\ held s' ++ handed o r ≡ₚ held s ++ t.

Lemma sift_post_ok h s r s' :
  sift_post h s (r, s') -> cap_ok (cap h) -> count h <= cap h ->
  st_ok s' /\ r <> Throw Fault /\ taken s' = taken s /\ held s' ≡ₚ dyn_heap_free h ++ released s.
Proof.
  intros (Ht & [(h' & Hr & Hb & Hc & Hm & Hp & Hrel & Hres)|(Hr & Hrel & ->)]) Hcap Hcnt.
  - split; [left; exists h'; split; [done|]|].
    + split; [done|]. rewrite Hc. unfold count. rewrite Hp. done.
    + split; [by destruct Hres as [-> | ->]|]. split; [done|]. unfold held. rewrite Hr, Hrel. simpl.
      unfold dyn_heap_free. by rewrite Hp, Hm.
  - split; [by right|]. split; [done|]. split; [done|]. unfold held. rewrite Hr, Hrel. simpl.
    apply Permutation_app_comm.
Qed.

(** A method that changes nothing. *)
Lemma step_post_same o s r :
  st_ok s -> r <> Throw Fault -> handed o r = [] -> step_post o s (r, s).
Proof. intros Hs Hr Ho. split; [done|]. split; [done|]. exists []. by rewrite Ho, !app_nil_r. Qed.

Lemma open_state s h : res s = Resource (Some h) false -> held s = dyn_heap_free h ++ released s.
Proof. intros H. unfold held. by rewrite H. Qed.

Lemma reserve_heap alloc h h' :
  heap_ok h -> dyn_heap_reserve alloc h (u32 (count h + 1)) = Some h' ->
  busy h' = false /\ cmp h' = cmp h /\ items h' = items h /\ cap_ok (cap h') /\ count h + 1 <= cap h'.
Proof.
  intros (Hb & Hc & Hn) E. unfold dyn_heap_reserve in E.
  rewrite u32_small in E by (unfold count in *; cap_consts; lia).
  destruct (reserve alloc (cap h) (count h + 1)) as [c|] eqn:Er; simplify_eq/=.
  apply reserve_mono in Er. pose proof (reserve_spec (cap h) (count h + 1) Hc) as Hr.
  rewrite Er in Hr. destruct Hr as [? ?]; [unfold count; lia|]. done.
Qed.

Lemma push_post alloc x s : st_ok s -> step_post (Push alloc x) s (dyn_heap_push alloc x s).
Proof.
  intros Hst. pose proof Hst as [(h & Hs & Hok)|Hs]; unfold dyn_heap_push, with_heap, dyn_res_native;
    rewrite Hs; simpl; [|by apply (step_post_same (Push alloc x) s)].
  pose proof Hok as (Hb & _ & _). rewrite Hb.
  destruct (dyn_heap_reserve alloc h _) as [h'|] eqn:Er; [|by apply (step_post_same (Push alloc x) s)].
  destruct (reserve_heap _ _ _ Hok Er) as (Hb' & Hm & Hi & Hc & Hn).
  set (h1 := with_items (items h' ++ [x]) h'). set (s1 := take_ref x s).
  assert (Hpost : sift_post h1 s1 (dyn_heap_sift_up (length (items h1) - 1) h1 s1)).
  { unfold dyn_heap_sift_up. eapply sift_post_weaken; [| | | | |apply sift_up_post]; try done.
    simpl. rewrite length_app. simpl. lia. }
  destruct (dyn_heap_sift_up _ h1 s1) as [r s'].
  apply sift_post_ok in Hpost as (Hs' & Hr & Ht & Hh); [|done|].
  2: { unfold count in *. simpl. rewrite length_app, Hi. simpl. lia. }
  assert (Hbal : held s' ++ [] ≡ₚ held s ++ [x]).
  { rewrite Hh, (open_state s h Hs). unfold dyn_heap_free. simpl. rewrite Hi, Hm. solve_Permutation. }
  by destruct r; (split; [done|]; split; [congruence|]; exists [x]).
Qed.

Lemma pop_post s : st_ok s -> step_post Pop s (dyn_heap_pop s).
Proof.
  intros Hst. pose proof Hst as [(h & Hs & Hok)|Hs]; unfold dyn_heap_pop, with_heap, dyn_res_native;
    rewrite Hs; simpl; [|by apply (step_post_same Pop s)].
  pose proof Hok as (Hb & Hc & Hn). rewrite Hb.
  destruct (items h) as [|top l] eqn:Ei; [by apply (step_post_same Pop s)|].
  destruct l as [|y l _] using rev_ind.
  - simpl. split; [left; eexists; split; [done|]|].
    + split; [done|]. split; [done|]. unfold count in *. simpl. rewrite Ei in Hn. simpl in *. lia.
    + split; [done|]. exists []. rewrite (open_state s h Hs). unfold held, dyn_heap_free. rewrite Ei. simpl.
      rewrite !app_nil_r. split; [done|]. solve_Permutation.
  - rewrite app_comm_cons, removelast_last, last_snoc. simpl.
    set (h1 := with_items (y :: l) _).
    assert (Hpost : sift_post h1 s (dyn_heap_sift_down 0 h1 s)).
    { unfold dyn_heap_sift_down. eapply sift_post_weaken; [| | | | |apply sift_down_post]; try done.
      simpl. lia. }
    destruct (dyn_heap_sift_down 0 h1 s) as [r s'].
    apply sift_post_ok in Hpost as (Hs' & Hr & Ht & Hh); [|done|].
    2: { unfold count in *. simpl. rewrite Ei in Hn. simpl in *. rewrite length_app in Hn. simpl in Hn. lia. }
    assert (Hbal : held s' ++ [top] ≡ₚ held s ++ []).
    { rewrite Hh, (open_state s h Hs). unfold dyn_heap_free. simpl. rewrite Ei. solve_Permutation. }
    rewrite app_nil_r in Hbal.
    destruct r as [[]|e]; (split; [done|]; split; [congruence|]; exists []; rewrite !app_nil_r); [done|].
    split; [done|]. rewrite <- Hbal. unfold held. simpl. by rewrite app_assoc.
Qed.

Lemma run_op_post o s : st_ok s -> step_post o s (run_op o s).
Proof.
  intros Hs. destruct o as [alloc x| | | |]; simpl.
  - by apply push_post.
  - by apply pop_post.
  - pose proof Hs as [(h & Hr & Hok)|Hr]; unfold dyn_heap_peek, with_heap, dyn_res_native; rewrite Hr;
      by apply (step_post_same Peek s).
  - pose proof Hs as [(h & Hr & Hok)|Hr]; unfold dyn_heap_size, with_heap, dyn_res_native; rewrite Hr;
      by apply (step_post_same Size s).
  - destruct Hs as [(h & Hr & Hok)|Hr]; unfold dyn_heap_close, dyn_method_close, dyn_res_release;
      rewrite Hr; simpl; (split; [by right|]; split; [done|]; exists []); rewrite !app_nil_r; unfold held; simpl;
      rewrite Hr; simpl; [|done].
    split; [done|]. apply Permutation_app_comm.
Qed.

Fixpoint handed_all (ops : list op) (rs : list (outcome reply)) : list V :=
  match ops, rs with o :: ops, r :: rs => handed o r ++ handed_all ops rs | _, _ => [] end.

Lemma run_calls_post ops : forall s rs s',
  st_ok s -> run_calls ops s = (rs, s') ->
  st_ok s' /\ Forall (fun r => r <> Throw Fault) rs /\
  exists t, taken s' = taken s ++ t /\ held s' ++ handed_all ops rs ≡ₚ held s ++ t.
Proof.
  induction ops as [|o ops IH]; simpl; intros s rs s' Hs E.
  { simplify_eq. split; [done|]. split; [done|]. exists []. by rewrite !app_nil_r. }
  pose proof (run_op_post o s Hs) as Hp. destruct (run_op o s) as [r1 s1].
  destruct (run_calls ops s1) as [rs1 s2] eqn:E2. simplify_eq/=.
  destruct Hp as (Hs1 & Hr1 & t1 & Ht1 & Hb1). destruct (IH _ _ _ Hs1 E2) as (Hs2 & Hr2 & t2 & Ht2 & Hb2).
  split; [done|]. split; [by constructor|]. exists (t1 ++ t2). split; [by rewrite Ht2, Ht1, app_assoc|].
  rewrite (app_assoc (held s)), <- Hb1. transitivity ((held s1 ++ t2) ++ handed o r1);
    [rewrite <- Hb2|]; solve_Permutation.
Qed.

(** ** An ordering comparator: a priority queue *)

Section ordered.
(** The comparator answers with the sign of a strict weak order and does
    not touch the heap. *)
Context (sign : V -> V -> Z).
Context (Hpure : forall a b w, exists w', JS_Call a b w = Answer (CmpNum (sign a b)) w').

(** [b] is not before [a]. *)
Definition le (a b : V) : Prop := 0 <= sign b a.
Context (Hasym : forall a b, sign a b < 0 -> le a b).
Context (Htrans : forall a b d, le a b -> le b d -> le a d).

Lemma le_refl v : le v v.
Proof. unfold le. destruct (Z.neg_nonneg_cases (sign v v)) as [Hv|]; [|done]. by apply Hasym. Qed.

Definition heap_at l (i : nat) : Prop :=
  forall x y, l !! i = Some x -> l !! parent i = Some y -> le y x.
Definition heap_ordered l : Prop := forall i, (0 < i)%nat -> heap_at l i.

(** Children of [idx] against the parent of [idx]. *)
Definition bridge l (idx : nat) : Prop :=
  (0 < idx)%nat -> forall i x y, (0 < i)%nat -> parent i = idx ->
  l !! i = Some x -> l !! parent idx = Some y -> le y x.

(** Ordered except between [idx] and its parent, or [idx] and its children. *)
Definition up_inv l (idx : nat) : Prop :=
  (forall i, (0 < i)%nat -> i <> idx -> heap_at l i) /\ bridge l idx.
Definition down_inv l (idx : nat) : Prop :=
  (forall i, (0 < i)%nat -> parent i <> idx -> heap_at l i) /\ bridge l idx.

Lemma up_step l idx a b :
  up_inv l idx -> (0 < idx)%nat -> l !! idx = Some a -> l !! parent idx = Some b -> le a b ->
  up_inv (swap l idx (parent idx)) (parent idx).
Proof.
  intros [H1 H2] Hi Ea Eb Hab. pose proof (swap_lookup l idx (parent idx) a b Ea Eb) as Hsw.
  pose proof (parent_spec idx Hi) as Hpi. split.
  - intros i Hi0 Hne x y Hx Hy. pose proof (parent_spec i Hi0) as Hp.
    rewrite Hsw in Hx, Hy.
    destruct (decide (i = idx)) as [->|Hni]; simplify_eq.
    + rewrite decide_False, decide_True in Hy by lia. by simplify_eq.
    + rewrite decide_False in Hx by done. destruct (decide (parent i = idx)) as [Ep|Hnp]; simplify_eq.
      * by eapply (H2 Hi i).
      * destruct (decide (parent i = parent idx)) as [Ep|Hnp2]; simplify_eq.
        -- apply (Htrans _ b); [done|]. apply (H1 i Hi0 Hni x b); [done|congruence].
        -- by apply (H1 i Hi0 Hni x y).
  - intros Hp0 i x y Hi0 Hpar Hx Hy. pose proof (parent_spec i Hi0) as Hp.
    pose proof (parent_spec (parent idx) Hp0) as Hpp. rewrite Hsw in Hx, Hy.
    rewrite !decide_False in Hy by lia.
    assert (Hyb : le y b) by (apply (H1 (parent idx) Hp0 ltac:(lia)); done).
    destruct (decide (i = idx)) as [->|Hni]; simplify_eq; [done|].
    rewrite decide_False in Hx by lia. apply (Htrans _ b); [done|].
    apply (H1 i Hi0 Hni x b); [done|congruence].
Qed.

Lemma compare_pure a b h s :
  exists s', compare a b (put h s) = (Ret (sign a b, h), s') /\
    res s' = Resource (Some h) false.
Proof.
  destruct (Hpure a b (world s)) as [w' E]. unfold compare, dyn_heap_cmp_call, put. simpl.
  rewrite E. simpl. eauto.
Qed.

Lemma sift_up_ordered fuel : forall idx h s,
  up_inv (items h) idx -> (idx < length (items h))%nat -> (idx <= fuel)%nat ->
  exists h' s', sift_up_loop fuel idx h (put h s) = (Ret tt, s') /\
    res s' = Resource (Some h') false /\ heap_ordered (items h').
Proof.
  assert (Hzero : forall l, up_inv l 0 -> heap_ordered l).
  { intros l [H _] i Hi. apply H; [done|lia]. }
  induction fuel as [|fuel IH]; intros idx h s Hinv Hlt Hf; simpl.
  - assert (idx = 0%nat) as -> by lia. eexists _, _. split; [done|]. split; [done|]. by apply Hzero.
  - destruct (decide (idx = 0%nat)) as [->|Hne].
    + eexists _, _. split; [done|]. split; [done|]. by apply Hzero.
    + pose proof (parent_lt idx ltac:(lia)) as Hp.
      destruct (lookup_lt_is_Some_2 (items h) idx) as [a Ea]; [lia|].
      destruct (lookup_lt_is_Some_2 (items h) (parent idx)) as [b Eb]; [lia|].
      rewrite Ea, Eb. destruct (compare_pure a b h s) as (s1 & -> & Hs1).
      destruct (Z.leb_spec 0 (sign a b)) as [Hge|Hneg].
      * eexists _, _. split; [done|]. split; [done|]. simpl. intros i Hi.
        destruct (decide (i = idx)) as [->|Hni]; [|by apply Hinv].
        intros x y Hx Hy. simplify_eq. exact Hge.
      * rewrite exchange_swap by lia. apply IH; simpl; [|rewrite swap_length; lia|lia].
        apply (up_step _ _ a b); try done; [lia|by apply Hasym].
Qed.

Lemma down_step l idx k a m :
  down_inv l idx -> l !! idx = Some a -> l !! k = Some m ->
  (0 < k)%nat -> parent k = idx -> le m a ->
  (forall i x, (0 < i)%nat -> parent i = idx -> l !! i = Some x -> le m x) ->
  down_inv (swap l idx k) k.
Proof.
  intros [H1 H2] Ea Ek Hk Hpk Hma Hmin. pose proof (swap_lookup l idx k a m Ea Ek) as Hsw.
  pose proof (parent_spec k Hk) as Hpi. split.
  - intros i Hi0 Hne x y Hx Hy. pose proof (parent_spec i Hi0) as Hp. rewrite Hsw in Hx, Hy.
    rewrite (decide_False (P := parent i = k)) in Hy by done.
    destruct (decide (parent i = idx)) as [Ep|Hnp].
    + injection Hy as <-. rewrite decide_False in Hx by lia.
      destruct (decide (i = k)); [by injection Hx as <-|by apply (Hmin i)].
    + rewrite (decide_False (P := i = k)) in Hx by congruence.
      destruct (decide (i = idx)) as [->|]; [|by apply (H1 i Hi0 Hnp)].
      injection Hx as <-. by apply (H2 Hi0 k).
  - intros _ i x y Hi0 Hpar Hx Hy. pose proof (parent_spec i Hi0) as Hp. rewrite Hsw in Hx, Hy.
    rewrite !decide_False in Hx by lia. rewrite decide_True in Hy by done. simplify_eq.
    apply (H1 i Hi0 ltac:(lia) x y); [done|congruence].
Qed.

(** With this comparator a pick keeps the smaller of the two. *)
Lemma pick_pure c k h s b :
  res s = Resource (Some h) false -> items h !! k = Some b ->
  exists k' m s', pick c k h s = (Ret (k', h), s') /\ res s' = Resource (Some h) false /\
    items h !! k' = Some m /\ (k' = k \/ k' = c) /\ le m b /\
    forall x, items h !! c = Some x -> le m x.
Proof.
  intros Hs Eb.
  unfold pick, count. destruct (Z.ltb_spec (Z.of_nat c) (Z.of_nat (length (items h)))) as [Hc|Hc].
  - destruct (lookup_lt_is_Some_2 (items h) c) as [a Ea]; [lia|]. rewrite Ea, Eb.
    rewrite <- (put_same h s Hs). destruct (compare_pure a b h s) as (s1 & -> & Hs1).
    destruct (Z.ltb_spec (sign a b) 0) as [Hn|Hn].
    + exists c, a, s1. rewrite Ea. repeat (split; [by auto|]).
      intros x [= <-]. apply le_refl.
    + exists k, b, s1. repeat (split; [by auto|]). split; [apply le_refl|]. intros x Hx. simplify_eq. exact Hn.
  - exists k, b, s. repeat (split; [by auto|]). split; [apply le_refl|]. intros x Hx.
    apply lookup_lt_Some in Hx. lia.
Qed.

Lemma sift_down_ordered fuel : forall idx h s,
  down_inv (items h) idx -> (idx < length (items h))%nat -> (length (items h) - idx <= fuel)%nat ->
  exists h' s', sift_down_loop fuel idx h (put h s) = (Ret tt, s') /\
    res s' = Resource (Some h') false /\ heap_ordered (items h').
Proof.
  induction fuel as [|fuel IH]; intros idx h s Hinv Hlt Hf; [lia|].
  cbn [sift_down_loop].
  destruct (lookup_lt_is_Some_2 (items h) idx) as [a Ea]; [lia|].
  destruct (pick_pure (2 * idx + 1) idx h (put h s) a eq_refl Ea)
    as (k1 & m1 & s1 & -> & Hs1 & Em1 & Hk1 & Hle1 & Hc1).
  destruct (pick_pure (2 * idx + 2) k1 h s1 m1 Hs1 Em1)
    as (k2 & m2 & s2 & -> & Hs2 & Em2 & Hk2 & Hle2 & Hc2).
  assert (Hmin : forall i x, (0 < i)%nat -> parent i = idx -> items h !! i = Some x -> le m2 x).
  { intros i x Hi Hp Hx. pose proof (parent_spec i Hi) as Hs.
    destruct (decide (i = (2 * idx + 1)%nat)) as [->|]; [apply (Htrans _ m1); by auto|].
    apply Hc2. rewrite <- Hx. f_equal. lia. }
  assert (Ha : le m2 a) by (by apply (Htrans _ m1)).
  destruct (decide (k2 = idx)) as [->|Hne].
  - eexists _, _. split; [done|]. split; [done|]. simpl. intros i Hi x y Hx Hy.
    destruct (decide (parent i = idx)) as [Hp|Hp].
    + assert (y = m2) as -> by congruence. by apply (Hmin i x Hi Hp).
    + by apply (proj1 Hinv i Hi Hp).
  - assert (Hk : (0 < k2)%nat /\ parent k2 = idx).
    { assert (Hk : k2 = (2 * idx + 1)%nat \/ k2 = (2 * idx + 2)%nat) by naive_solver.
      pose proof (parent_spec k2 ltac:(lia)). lia. }
    destruct Hk as [Hk0 Hkp]. pose proof (parent_lt k2 Hk0).
    rewrite exchange_swap by (done || by eapply lookup_lt_Some).
    apply IH; simpl; rewrite ?swap_length; [|by eapply lookup_lt_Some|lia].
    by apply (down_step _ _ _ a m2).
Qed.

(** The root of an ordered array is a minimum. *)
Lemma root_min l top : heap_ordered l -> l !! 0%nat = Some top -> forall x, x ∈ l -> le top x.
Proof.
  intros Hh H0 x Hx. apply list_elem_of_lookup in Hx as [i Hi]. revert x Hi.
  induction i as [i IH] using lt_wf_ind. intros x Hi.
  destruct (decide (i = 0%nat)) as [->|Hne].
  - simplify_eq. apply le_refl.
  - pose proof (parent_lt i ltac:(lia)) as Hp.
    destruct (lookup_lt_is_Some_2 l (parent i)) as [y Hy].
    { apply lookup_lt_Some in Hi. lia. }
    apply (Htrans _ y); [by apply (IH (parent i))|]. by apply (Hh i ltac:(lia)).
Qed.

Lemma snoc_up_inv l x : heap_ordered l -> up_inv (l ++ [x]) (length l).
Proof.
  intros Hh. split.
  - intros i Hi Hne y z Hy Hz. pose proof (parent_lt i Hi).
    pose proof (lookup_lt_Some _ _ _ Hy) as Hlt. rewrite length_app in Hlt. simpl in Hlt.
    rewrite lookup_app_l in Hy, Hz by lia. by apply (Hh i Hi).
  - intros _ i y z Hi Hp Hy _. pose proof (parent_lt i Hi).
    apply lookup_lt_Some in Hy. rewrite length_app in Hy. simpl in Hy. lia.
Qed.

Lemma replace_root_down_inv top y l : heap_ordered (top :: l ++ [y]) -> down_inv (y :: l) 0.
Proof.
  intros Hh. split; [|intros Hlt; lia].
  assert (Htail : forall k v, (0 < k)%nat -> (y :: l) !! k = Some v -> (top :: l ++ [y]) !! k = Some v).
  { intros [|k] v Hk Hv; [lia|]. simpl in *. by apply lookup_app_l_Some. }
  intros i Hi Hne u v Hu Hv. apply (Hh i Hi); apply Htail; done || lia.
Qed.

(** The heap is open, idle and ordered. *)
Definition open_ordered s h : Prop :=
  res s = Resource (Some h) false /\ heap_ok h /\ heap_ordered (items h).

Lemma post_open h1 s s' h' r :
  sift_post h1 s (r, s') -> res s' = Resource (Some h') false -> cap_ok (cap h1) -> count h1 <= cap h1 ->
  items h' ≡ₚ items h1 /\ heap_ok h'.
Proof.
  intros (_ & [(h2 & Hr & Hb & Hc & _ & Hp & _)|(Hr & _)]) Hs Hcap Hn; rewrite Hr in Hs; simplify_eq.
  split; [done|]. split; [done|]. rewrite Hc. unfold count in *. by rewrite Hp.
Qed.

Lemma push_ordered alloc x s h :
  open_ordered s h ->
  (exists h' s', dyn_heap_push alloc x s = (Ret (R_int (count h + 1)), s') /\
     open_ordered s' h' /\ items h' ≡ₚ x :: items h) \/
  (dyn_heap_push alloc x s = (Throw OutOfMemory, s) /\
     (alloc = false \/ UINT32_MAX / sizeof_JSValue < count h + 1)).
Proof.
  intros (Hs & Hok & Hord). unfold dyn_heap_push, with_heap, dyn_res_native. rewrite Hs. simpl.
  pose proof Hok as (Hb & Hcap & Hcnt). rewrite Hb.
  destruct (dyn_heap_reserve alloc h _) as [h0|] eqn:Er.
  - left. destruct (reserve_heap _ _ _ Hok Er) as (Hb' & Hm & Hi & Hc & Hn).
    set (h1 := with_busy true (with_items (items h0 ++ [x]) h0)).
    assert (Hlen : (length (items h0 ++ [x]) - 1 = length (items h0))%nat)
      by (rewrite length_app; simpl; lia).
    unfold dyn_heap_sift_up. simpl. rewrite Hlen. fold h1.
    assert (Hlt : (length (items h0) < length (items h1))%nat)
      by (simpl; rewrite length_app; simpl; lia).
    destruct (sift_up_ordered (length (items h0)) (length (items h0)) h1 (take_ref x s))
      as (h' & s' & E & Hs' & Hord'); [|done|done|].
    { simpl. rewrite Hi. by apply snoc_up_inv. }
    pose proof (sift_up_post (length (items h0)) _ h1 (take_ref x s) eq_refl Hlt) as Hpost. rewrite E in Hpost |- *.
    destruct (post_open _ _ _ h' _ Hpost Hs') as [Hp Hok']; [done| |].
    { unfold count in *. simpl. rewrite length_app, Hi. simpl. lia. }
    exists h', s'. simpl in Hp. split; [|split; [done|]].
    + rewrite Hs'. simpl. unfold count. rewrite Hp, length_app, Hi. simpl. do 4 f_equal. lia.
    + rewrite Hp, Hi. symmetry. apply Permutation_cons_append.
  - right. split; [done|]. unfold dyn_heap_reserve in Er. destruct alloc; [right|by left].
    rewrite u32_small in Er by (unfold count in *; cap_consts; lia).
    pose proof (reserve_spec (cap h) (count h + 1) Hcap) as Hr.
    destruct (reserve true (cap h) (count h + 1)); [done|]. apply Hr. unfold count. lia.
Qed.

Lemma pop_ordered s h :
  open_ordered s h ->
  match items h with
  | [] => dyn_heap_pop s = (Ret R_undefined, s)
  | _ => exists top h' s', dyn_heap_pop s = (Ret (R_val top), s') /\ open_ordered s' h' /\
      items h ≡ₚ top :: items h' /\ forall y, y ∈ items h -> le top y
  end.
Proof.
  intros (Hs & Hok & Hord). unfold dyn_heap_pop, with_heap, dyn_res_native. rewrite Hs. simpl.
  pose proof Hok as (Hb & Hcap & Hcnt). rewrite Hb.
  destruct (items h) as [|top l] eqn:Ei; [done|].
  pose proof (root_min _ top Hord eq_refl) as Hmin. unfold count in Hcnt. rewrite Ei in Hcnt.
  destruct l as [|y l _] using rev_ind.
  - simpl. exists top, (with_items [] h), (put (with_items [] h) s). split; [done|]. split; [|split; [done|exact Hmin]].
    split; [done|]. split; [|intros i Hi x y Hx; done]. split; [done|]. split; [done|].
    unfold count. simpl in *. lia.
  - rewrite app_comm_cons, removelast_last, last_snoc. simpl.
    set (h1 := HeapOf (cmp h) (y :: l) (cap h) true).
    change (dyn_heap_sift_down 0 _ s) with (sift_down_loop (S (length l)) 0 h1 (put h1 s)).
    assert (Hlt : (0 < length (items h1))%nat) by (simpl; lia).
    destruct (sift_down_ordered (S (length l)) 0 h1 s) as (h' & s' & E & Hs' & Hord');
      [by apply (replace_root_down_inv top)|done|simpl; lia|].
    pose proof (sift_down_post (S (length l)) 0 h1 s eq_refl Hlt) as Hpost. rewrite E in Hpost |- *.
    rewrite app_comm_cons, length_app in Hcnt.
    destruct (post_open _ _ _ h' _ Hpost Hs') as [Hp Hok']; [done|unfold count; simpl in *; lia|].
    exists top, h', s'. split; [done|]. split; [done|]. split; [|done].
    rewrite Hp. simpl. solve_Permutation.
Qed.

(** *** The priority queue: a bag of elements, [None] once closed *)

Definition minimum (m : V) (q : list V) : Prop := m ∈ q /\ forall y, y ∈ q -> le m y.

Inductive pq_step : op -> option (list V) -> outcome reply -> option (list V) -> Prop :=
| pq_push alloc x q q' : q' ≡ₚ x :: q ->
    pq_step (Push alloc x) (Some q) (Ret (R_int (Z.of_nat (length q')))) (Some q')
| pq_push_oom alloc x q :
    alloc = false \/ UINT32_MAX / sizeof_JSValue < Z.of_nat (length q) + 1 ->
    pq_step (Push alloc x) (Some q) (Throw OutOfMemory) (Some q)
| pq_pop m q q' : minimum m q -> q ≡ₚ m :: q' -> pq_step Pop (Some q) (Ret (R_val m)) (Some q')
| pq_pop_empty : pq_step Pop (Some []) (Ret R_undefined) (Some [])
| pq_peek m q : minimum m q -> pq_step Peek (Some q) (Ret (R_val m)) (Some q)
| pq_peek_empty : pq_step Peek (Some []) (Ret R_undefined) (Some [])
| pq_size q : pq_step Size (Some q) (Ret (R_int (Z.of_nat (length q)))) (Some q)
| pq_close q : pq_step Close q (Ret R_undefined) None
| pq_closed o : o <> Close -> pq_step o None (Throw TypeError) None.

Inductive pq_trace : list op -> option (list V) -> list (outcome reply) -> option (list V) -> Prop :=
| pq_nil q : pq_trace [] q [] q
| pq_cons o ops q r q1 rs q2 :
    pq_step o q r q1 -> pq_trace ops q1 rs q2 -> pq_trace (o :: ops) q (r :: rs) q2.

Definition contents s : option (list V) := items <$> native (res s).

Definition st_ordered s : Prop := (exists h, open_ordered s h) \/ res s = Resource None true.

Lemma run_op_pq o s :
  st_ordered s -> st_ordered (run_op o s).2 /\
  pq_step o (contents s) (run_op o s).1 (contents (run_op o s).2).
Proof.
  unfold contents. intros [(h & Hh)|Hs].
  - pose proof Hh as (Hs & Hok & Hord). rewrite Hs. simpl. destruct o as [alloc x| | | |]; simpl.
    + destruct (push_ordered alloc x s h Hh) as [(h' & s' & E & Hh' & Hp)|[E Hf]]; rewrite E; simpl.
      * pose proof Hh' as (Hs' & _). rewrite Hs'. split; [left; eauto|]. simpl.
        assert (count h + 1 = Z.of_nat (length (items h'))) as ->
          by (rewrite Hp; unfold count; simpl; lia).
        by constructor.
      * rewrite Hs. split; [left; eauto|]. by constructor.
    + pose proof (pop_ordered s h Hh) as Hp. destruct (items h) as [|x l] eqn:Ei.
      * rewrite Hp. simpl. rewrite Hs. simpl. rewrite Ei. split; [left; eauto|constructor].
      * destruct Hp as (top & h' & s' & E & Hh' & Hp & Hmin). rewrite E. simpl.
        pose proof Hh' as (Hs' & _). rewrite Hs'. split; [left; eauto|]. constructor; [|done].
        split; [rewrite Hp; by left|done].
    + unfold dyn_heap_peek, with_heap, dyn_res_native. rewrite Hs. simpl. rewrite Hs. simpl.
      split; [left; eauto|]. destruct (items h) as [|x l] eqn:Ei; constructor.
      split; [by left|]. by apply root_min.
    + unfold dyn_heap_size, with_heap, dyn_res_native. rewrite Hs. simpl. rewrite Hs.
      split; [left; eauto|constructor].
    + unfold dyn_heap_close, dyn_method_close, dyn_res_release. rewrite Hs. simpl.
      split; [by right|constructor].
  - rewrite Hs. simpl. destruct o; simpl;
      unfold dyn_heap_push, dyn_heap_pop, dyn_heap_peek, dyn_heap_size, dyn_heap_close,
        with_heap, dyn_res_native, dyn_method_close, dyn_res_release; rewrite Hs; simpl;
      rewrite ?Hs; (split; [by right|by constructor]).
Qed.

Lemma run_calls_pq ops : forall s,
  st_ordered s -> pq_trace ops (contents s) (run_calls ops s).1 (contents (run_calls ops s).2).
Proof.
  induction ops as [|o ops IH]; intros s Hs; simpl; [constructor|].
  destruct (run_op_pq o s Hs) as [Hs1 Hst]. destruct (run_op o s) as [r s1]. simpl in *.
  specialize (IH s1 Hs1). destruct (run_calls ops s1) as [rs s2]. by econstructor.
Qed.
End ordered.
End methods.

(** The methods as a comparator [depth] calls deep reaches them: at the end
    of the script stack the call throws (a stack overflow). *)
Fixpoint nested_op (depth : nat) (o : op) (s : st) : step :=
  match depth with
  | O => (Throw UserException, s)
  | S depth => run_op (nested_op depth) o s
  end.

Definition run_ops (depth : nat) (ops : list op) (s : st) : list (outcome reply) * st :=
  run_calls (nested_op depth) ops s.

Lemma nested_op_safe depth : reentry_safe (nested_op depth).
Proof.
  destruct depth as [|depth]; [|apply run_op_reentry].
  intros o s. split; [intros h Hs Hb; split; [done|by left]|done].
Qed.

Definition new_heap (f : V) (w : W) : st := St (dyn_res_wrap (dyn_heap_ctor f)) w [] [].
End heap.
Arguments cmp_script : clear implicits.

(** [C16] Heap survives any comparator.  A comparator is any script that
    answers or throws and on the way calls [push], [pop], [peek], [size] and
    [close] on the very heap it is ordering, its next call depending on the
    replies and on the world, and these calls run comparators in turn to any
    depth.  During a sift (the heap is busy) [push] and [pop] throw a
    TypeError and change nothing, so that a comparator call leaves the heap
    as it was, or closed.  Whatever the sequence of calls on a new heap: no
    call touches memory outside the live array or after the disposal, the
    heap ends open and not busy or closed, and the references it still holds,
    those it released and those its [pop]s handed out are exactly the
    comparator and the values it took, so that no element is lost, duplicated
    or freed twice. *)
Theorem heap_safe_under_any_comparator {V W : Type} (JS_Call : V -> V -> W -> cmp_script V W)
    (depth : nat) (f : V) (w : W) :
  (forall a b h s, res s = Resource (Some h) false -> busy h = true ->
     (forall alloc x, run_op JS_Call (nested_op JS_Call depth) (Push alloc x) s = (Throw TypeError, s)) /\
     run_op JS_Call (nested_op JS_Call depth) Pop s = (Throw TypeError, s) /\
     (let s' := (dyn_heap_cmp_call JS_Call (nested_op JS_Call depth) a b s).2 in
      res s' = Resource (Some h) false \/ res s' = Resource None true)) /\
  (forall ops, let '(rs, s') := run_ops JS_Call depth ops (new_heap f w) in
     st_ok s' /\ Forall (fun r => r <> Throw Fault) rs /\
     held s' ++ handed_all ops rs ≡ₚ f :: taken s').
Proof.
  pose proof (nested_op_safe JS_Call depth) as Hsafe. split.
  - intros a b h s Hs Hb. split; [intros; by apply (busy_push _ _ _ _ h)|].
    split; [by apply (busy_pop _ _ h)|].
    destruct (run_script_guarded _ Hsafe (JS_Call a b (world s)) h s Hs Hb) as (_ & [[? _]|[? _]]); eauto.
  - intros ops. unfold run_ops. destruct (run_calls _ _ ops _) as [rs s'] eqn:E.
    apply (run_calls_post _ _ Hsafe) in E as (Hst & Hrs & t & -> & Hb); [done|]. left.
    exists (dyn_heap_ctor f). split; [done|]. split; [done|]. split; [split; done|done].
Qed.

(** A comparator over integers that pushes and pops on the heap at every
    call, and, counting its calls in the world, throws on the third and
    closes the heap on the fifth, pushing again after it. *)
Definition hostile (a b : Z) (n : Z) : cmp_script Z Z :=
  CallOp (Push true 77) (n + 1) (fun _ w => CallOp Pop w (fun _ w =>
    if n =? 3 then Answer CmpThrow w
    else if n =? 5 then CallOp Close w (fun _ w => CallOp (Push true 78) w (fun _ w => Answer (CmpNum (a - b)) w))
    else Answer (CmpNum (a - b)) w)).

Definition hostile_ops : list (@op Z) :=
  [Push true 5; Push true 3; Push true 4; Push true 1; Push true 0; Pop].

Lemma heap_safe_under_any_comparator_witness :
  exists rs s',
  run_ops hostile 10 hostile_ops (new_heap 99 1) = (rs, s') /\
  rs = [Ret (R_int 1); Ret (R_int 2); Ret (R_int 3); Throw UserException; Throw TypeError; Throw TypeError]
  /\ taken s' = [5; 3; 4; 1; 0] /\ st_ok s' /\ held s' ++ handed_all hostile_ops rs ≡ₚ 99 :: taken s'.
Proof.
  pose proof (proj2 (heap_safe_under_any_comparator hostile 10 99 1) hostile_ops) as H.
  destruct (run_ops hostile 10 hostile_ops (new_heap 99 1)) as [rs s'] eqn:E. exists rs, s'.
  vm_compute in E. injection E as <- <-. split; [vm_compute; reflexivity|].
  split; [reflexivity|]. split; [reflexivity|]. split; [exact (proj1 H)|exact (proj2 (proj2 H))].
Defined.

(** [C17] Heap is a priority queue.  When the comparator answers with the
    sign of a strict weak order (and so neither throws nor calls the heap),
    every sequence of calls on a new heap gives the replies of a priority
    queue: [push] the new size, [pop] and [peek] a minimum of the elements
    held ([undefined] when there are none), [pop] removing it; [push] fails
    only for lack of memory, leaving the heap as it was; after [close()]
    every call throws a TypeError. *)
Theorem heap_is_priority_queue {V W : Type} (JS_Call : V -> V -> W -> cmp_script V W)
    (sign : V -> V -> Z) (depth : nat) (f : V) (w : W) (ops : list op) :
  (forall a b w, exists w', JS_Call a b w = Answer (CmpNum (sign a b)) w') ->
  (forall a b, sign a b < 0 -> 0 <= sign b a) ->
  (forall a b c, 0 <= sign b a -> 0 <= sign c b -> 0 <= sign c a) ->
  let out := run_ops JS_Call depth ops (new_heap f w) in
  pq_trace sign ops (Some []) out.1 (contents out.2).
Proof.
  intros Hp Ha Ht out.
  apply (run_calls_pq JS_Call _ (nested_op_safe JS_Call depth) sign Hp Ha Ht ops (new_heap f w)).
  left. exists (dyn_heap_ctor f). split; [done|]. split; [|intros i Hi x y Hx; done].
  split; [done|]. split; [split; done|done].
Qed.

Definition heap_demo : list (@op Z) :=
  [Push true 5; Push true 3; Push true 8; Push true 1; Pop; Push true 2; Peek; Pop; Pop; Pop; Pop; Pop].

Definition subtract (a b : Z) (w : unit) : cmp_script Z unit := Answer (CmpNum (a - b)) w.

Lemma heap_is_priority_queue_witness :
  (run_ops subtract 1 heap_demo (new_heap 0 tt)).1 =
    [Ret (R_int 1); Ret (R_int 2); Ret (R_int 3); Ret (R_int 4); Ret (R_val 1); Ret (R_int 4);
     Ret (R_val 2); Ret (R_val 2); Ret (R_val 3); Ret (R_val 5); Ret (R_val 8); Ret R_undefined] /\
  let out := run_ops subtract 1 heap_demo (new_heap 0 tt) in
  pq_trace Z.sub heap_demo (Some []) out.1 (contents out.2).
Proof.
  split; [vm_compute; reflexivity|].
  apply (heap_is_priority_queue subtract Z.sub 1 0 tt heap_demo).
  - intros a b w. exists w. reflexivity.
  - intros a b. lia.
  - intros a b c. lia.
Defined.
