(* ===== verification/Encoding.v ===== *)
(** * dyna:encoding: hex, base64, base64url, base32, varint, ascii85
    (src/dyna-encoding.c and the scalar kernels of src/dyna-simd-scalar.c)

    The codecs and their JS-callable handlers.  A byte string is a list of
    values below 256; [None] is the [SIZE_MAX] a kernel returns on malformed
    input.  The handlers are modelled after the coercion of their argument;
    [alloc] is the outcome of the allocation of the output buffer, whose size
    and stores are the matter of [EncodingMem]. *)
From S2P Require Import Prelude Native.

(** ** Reverse tables

    [memset(rev, -1, 256)], then [rev[alpha[k]] = k]. *)
Definition build_rev (alpha : list Z) : list Z :=
  fold_left (fun t '(k, c) => <[Z.to_nat c := k]> t)
    (zip (seqZ 0 (Z.of_nat (length alpha))) alpha) (replicate 256 (-1)).

(** [E[i]] and [dec[c]]. *)
Definition at_ (t : list Z) (i : Z) : Z := default 0 (t !! Z.to_nat i).

(** ** Hex *)
Module Hex.
Definition simd_hex_lut : list Z := bytes_of "0123456789abcdef".

Definition simd_hex_val (c : Z) : Z :=
  if (chr "0" <=? c) && (c <=? chr "9") then c - chr "0"
  else if (chr "a" <=? c) && (c <=? chr "f") then c - chr "a" + 10
  else if (chr "A" <=? c) && (c <=? chr "F") then c - chr "A" + 10
  else -1.

Definition simd_scalar_hex_encode (src : list Z) : list Z :=
  src ≫= fun b => [at_ simd_hex_lut (Z.shiftr b 4); at_ simd_hex_lut (Z.land b 15)].

Fixpoint hex_pairs (src : list Z) : option (list Z) :=
  match src with
  | c0 :: c1 :: rest =>
      let hi := simd_hex_val c0 in
      let lo := simd_hex_val c1 in
      if (hi <? 0) || (lo <? 0) then None
      else out ← hex_pairs rest; Some (u8 (Z.lor (Z.shiftl hi 4) lo) :: out)
  | _ => Some []
  end.

Definition simd_scalar_hex_decode (src : list Z) : option (list Z) :=
  if Z.land (Z.of_nat (length src)) 1 =? 1 then None else hex_pairs src.

Definition dyn_enc_hex_encode (alloc : bool) (data : list Z) : outcome (list Z) :=
  if alloc then Ret (simd_scalar_hex_encode data) else Throw OutOfMemory.

Definition dyn_enc_hex_decode (alloc : bool) (str : list Z) : outcome (list Z) :=
  if Z.land (Z.of_nat (length str)) 1 =? 1 then Throw SyntaxError
  else if negb alloc then Throw OutOfMemory
  else match simd_scalar_hex_decode str with
       | None => Throw SyntaxError
       | Some out => Ret out
       end.
End Hex.

(** ** Base64 and base64url *)
Module Base64.
Definition simd_b64_alphabet : list Z :=
  bytes_of "ABCDEFGHIJKLMNOPQRSTUVWXYZabcdefghijklmnopqrstuvwxyz0123456789+/".
Definition E (i : Z) : Z := at_ simd_b64_alphabet i.
Definition dec_table : list Z := build_rev simd_b64_alphabet.
Definition dec (c : Z) : Z := at_ dec_table c.
Definition pad : Z := chr "=".

Fixpoint simd_scalar_base64_encode (src : list Z) : list Z :=
  match src with
  | a :: b :: c :: rest =>
      let x := Z.lor (Z.lor (Z.shiftl a 16) (Z.shiftl b 8)) c in
      [E (Z.land (Z.shiftr x 18) 63); E (Z.land (Z.shiftr x 12) 63);
       E (Z.land (Z.shiftr x 6) 63); E (Z.land x 63)] ++ simd_scalar_base64_encode rest
  | [a] =>
      let x := Z.shiftl a 16 in
      [E (Z.land (Z.shiftr x 18) 63); E (Z.land (Z.shiftr x 12) 63); pad; pad]
  | [a; b] =>
      let x := Z.lor (Z.shiftl a 16) (Z.shiftl b 8) in
      [E (Z.land (Z.shiftr x 18) 63); E (Z.land (Z.shiftr x 12) 63);
       E (Z.land (Z.shiftr x 6) 63); pad]
  | [] => []
  end.

(** One group of four characters; [last] says that it ends the input. *)
Definition decode_group (last : bool) (c0 c1 c2 c3 : Z) : option (list Z) :=
  let v0 := dec c0 in
  let v1 := dec c1 in
  if (v0 <? 0) || (v1 <? 0) then None else
  '(pad_, v2, v3) ←
    (if c2 =? pad then
       if negb last || negb (c3 =? pad) then None else Some (2, 0, 0)
     else
       let v2 := dec c2 in
       if v2 <? 0 then None
       else if c3 =? pad then if negb last then None else Some (1, v2, 0)
       else let v3 := dec c3 in if v3 <? 0 then None else Some (0, v2, v3));
  let x := Z.lor (Z.lor (Z.lor (Z.shiftl v0 18) (Z.shiftl v1 12)) (Z.shiftl v2 6)) v3 in
  Some ([Z.land (Z.shiftr x 16) 255] ++
        (if pad_ <? 2 then [Z.land (Z.shiftr x 8) 255] else []) ++
        (if pad_ <? 1 then [Z.land x 255] else [])).

Fixpoint decode_groups (src : list Z) : option (list Z) :=
  match src with
  | c0 :: c1 :: c2 :: c3 :: rest =>
      out ← decode_group (match rest with [] => true | _ => false end) c0 c1 c2 c3;
      outs ← decode_groups rest; Some (out ++ outs)
  | _ => Some []
  end.

Definition simd_scalar_base64_decode (src : list Z) : option (list Z) :=
  if negb (Z.of_nat (length src) mod 4 =? 0) then None else decode_groups src.

Definition dyn_enc_base64_encode (alloc : bool) (data : list Z) : outcome (list Z) :=
  if alloc then Ret (simd_scalar_base64_encode data) else Throw OutOfMemory.

Definition dyn_enc_base64_decode (alloc : bool) (str : list Z) : outcome (list Z) :=
  if negb alloc then Throw OutOfMemory
  else match simd_scalar_base64_decode str with
       | None => Throw SyntaxError | Some out => Ret out end.

(** The translation loop of [base64UrlEncode]: up to the padding. *)
Fixpoint url_strip (s : list Z) : list Z :=
  match s with
  | [] => []
  | c :: s =>
      if c =? pad then []
      else (if c =? chr "+" then chr "-" else if c =? chr "/" then chr "_" else c) :: url_strip s
  end.

Definition dyn_enc_base64url_encode (alloc : bool) (data : list Z) : outcome (list Z) :=
  if alloc then Ret (url_strip (simd_scalar_base64_encode data)) else Throw OutOfMemory.

(** The translation loop of [base64UrlDecode]. *)
Fixpoint url_unstrip (s : list Z) : option (list Z) :=
  match s with
  | [] => Some []
  | c :: s =>
      if c =? chr "-" then r ← url_unstrip s; Some (chr "+" :: r)
      else if c =? chr "_" then r ← url_unstrip s; Some (chr "/" :: r)
      else if (c =? chr "+") || (c =? chr "/") then None
      else r ← url_unstrip s; Some (c :: r)
  end.

Definition dyn_enc_base64url_decode (alloc1 alloc2 : bool) (str : list Z) : outcome (list Z) :=
  let rem := Z.of_nat (length str) mod 4 in
  if rem =? 1 then Throw SyntaxError else
  let padlen := if rem =? 0 then 0 else 4 - rem in
  if negb alloc1 then Throw OutOfMemory else
  match url_unstrip str with
  | None => Throw SyntaxError
  | Some buf =>
      if negb alloc2 then Throw OutOfMemory else
      match simd_scalar_base64_decode (buf ++ replicate (Z.to_nat padlen) pad) with
      | None => Throw SyntaxError | Some out => Ret out end
  end.
End Base64.

(** ** Base32 and base32hex *)
Module Base32.
Inductive magic : Type := DYN_B32_STD | DYN_B32_HEX.

Definition dyn_b32_std_alpha : list Z := bytes_of "ABCDEFGHIJKLMNOPQRSTUVWXYZ234567".
Definition dyn_b32_hex_alpha : list Z := bytes_of "0123456789ABCDEFGHIJKLMNOPQRSTUV".
Definition dyn_b32_alpha (m : magic) : list Z :=
  match m with DYN_B32_HEX => dyn_b32_hex_alpha | DYN_B32_STD => dyn_b32_std_alpha end.
Definition pad : Z := chr "=".

Definition nchars_tab : list Z := [0; 2; 4; 5; 7; 8].
Definition nbytes_tab : list Z := [-1; -1; 1; -1; 2; 3; -1; 4; 5].

(** One block of at most 5 bytes. *)
Definition encode_block (alpha : list Z) (chunk : list Z) : list Z :=
  let c j := at_ chunk j in
  let v := Z.lor (Z.lor (Z.lor (Z.lor (Z.shiftl (c 0) 32) (Z.shiftl (c 1) 24))
             (Z.shiftl (c 2) 16)) (Z.shiftl (c 3) 8)) (c 4) in
  let nc := at_ nchars_tab (Z.of_nat (length chunk)) in
  ((fun j => at_ alpha (Z.land (Z.shiftr v (35 - 5 * j)) 31)) <$> seqZ 0 nc) ++
  replicate (Z.to_nat (8 - nc)) pad.

Definition dyn_enc_b32_encode (alpha data : list Z) : list Z :=
  concat (encode_block alpha <$> chunks 5 data).

(** The number of ['='] at the end of a block. *)
Fixpoint pad_prefix (l : list Z) : Z :=
  match l with c :: l => if c =? pad then 1 + pad_prefix l else 0 | [] => 0 end.

(** The values of the first characters of a block. *)
Fixpoint rev_all (rev cs : list Z) : option (list Z) :=
  match cs with
  | [] => Some []
  | c :: cs => let v := at_ rev c in
               if v <? 0 then None else vs ← rev_all rev cs; Some (v :: vs)
  end.

(** One block of 8 characters. *)
Definition decode_block (rev : list Z) (last_group : bool) (s : list Z) : option (list Z) :=
  let pad_ := pad_prefix (reverse s) in
  if (0 <? pad_) && negb last_group then None else
  let nreal := 8 - pad_ in
  let nbytes := at_ nbytes_tab nreal in
  if nbytes <? 0 then None else
  vals ← rev_all rev (take (Z.to_nat nreal) s);
  let v := fold_left (fun v c => u64 (Z.lor (Z.shiftl v 5) c))
             (vals ++ replicate (Z.to_nat pad_) 0) 0 in
  Some (take (Z.to_nat nbytes)
          [u8 (Z.shiftr v 32); u8 (Z.shiftr v 24); u8 (Z.shiftr v 16); u8 (Z.shiftr v 8); u8 v]).

Fixpoint decode_blocks (rev : list Z) (bs : list (list Z)) : option (list Z) :=
  match bs with
  | [] => Some []
  | b :: bs =>
      out ← decode_block rev (match bs with [] => true | _ => false end) b;
      outs ← decode_blocks rev bs; Some (out ++ outs)
  end.

Definition dyn_enc_b32_decode (alpha str : list Z) : option (list Z) :=
  if negb (Z.of_nat (length str) mod 8 =? 0) then None
  else decode_blocks (build_rev alpha) (chunks 8 str).

Definition dyn_enc_base32_encode (alloc : bool) (m : magic) (data : list Z) : outcome (list Z) :=
  if alloc then Ret (dyn_enc_b32_encode (dyn_b32_alpha m) data) else Throw OutOfMemory.

Definition dyn_enc_base32_decode (alloc : bool) (m : magic) (str : list Z) : outcome (list Z) :=
  if negb alloc then Throw OutOfMemory
  else match dyn_enc_b32_decode (dyn_b32_alpha m) str with
       | None => Throw SyntaxError | Some out => Ret out end.
End Base32.

(** ** Varint: LEB128 and zigzag *)
Module Varint.
Definition DYN_ENC_MAX_VARINT_LEN : Z := 10.
Definition DYN_ENC_MAX_SAFE_INT : Z := 2 ^ 53 - 1.

(** [while (x >= 0x80)]; ten iterations are enough for a [uint64_t]. *)
Fixpoint put_loop (fuel : nat) (x : Z) : option (list Z) :=
  if 128 <=? x then
    match fuel with
    | O => None
    | S fuel => out ← put_loop fuel (Z.shiftr x 7); Some (u8 (Z.lor x 128) :: out)
    end
  else Some [u8 x].
Definition dyn_enc_put_uvarint (x : Z) : option (list Z) := put_loop 10 x.

(** The loop of [dyn_enc_uvarint]: the returned count and [*out]. *)
Fixpoint uvarint_loop (buf : list Z) (i x s : Z) : Z * Z :=
  match buf with
  | [] => (0, 0)
  | b :: buf =>
      if i =? DYN_ENC_MAX_VARINT_LEN then (- (i + 1), 0)
      else if b <? 128 then
        if (i =? DYN_ENC_MAX_VARINT_LEN - 1) && (1 <? b) then (- (i + 1), 0)
        else (i + 1, Z.lor x (u64 (Z.shiftl b s)))
      else uvarint_loop buf (i + 1) (Z.lor x (u64 (Z.shiftl (Z.land b 127) s))) (s + 7)
  end.
Definition dyn_enc_uvarint (buf : list Z) : Z * Z := uvarint_loop buf 0 0 0.

(** Zigzag. *)
Definition dyn_enc_put_varint (x : Z) : option (list Z) :=
  let ux := u64 (Z.shiftl (u64 x) 1) in
  dyn_enc_put_uvarint (if x <? 0 then u64 (Z.lnot ux) else ux).

Definition dyn_enc_varint (buf : list Z) : Z * Z :=
  let '(nb, ux) := dyn_enc_uvarint buf in
  if nb <=? 0 then (nb, 0)
  else let x := sint 64 (Z.shiftr ux 1) in
       (nb, if Z.land ux 1 =? 1 then Z.lnot x else x).

(** The argument of [putUvarint]/[putVarint] after coercion: a BigInt, or a
    Number that is an integer ([Some]) or is not (fraction, NaN, infinity). *)
Inductive number : Type := BigInt (n : Z) | Number (n : option Z).

Definition dyn_enc_to_u64 (v : number) : outcome Z :=
  match v with
  | BigInt n => Ret (u64 n)
  | Number (Some d) =>
      if (0 <=? d) && (d <=? DYN_ENC_MAX_SAFE_INT) then Ret d else Throw RangeError
  | Number None => Throw RangeError
  end.

Definition dyn_enc_to_i64 (v : number) : outcome Z :=
  match v with
  | BigInt n => Ret (sint 64 n)
  | Number (Some d) =>
      if (- DYN_ENC_MAX_SAFE_INT <=? d) && (d <=? DYN_ENC_MAX_SAFE_INT) then Ret d
      else Throw RangeError
  | Number None => Throw RangeError
  end.

Definition dyn_enc_u64_to_js (v : Z) : number :=
  if v <=? DYN_ENC_MAX_SAFE_INT then Number (Some v) else BigInt v.

Definition dyn_enc_i64_to_js (v : Z) : number :=
  if (- DYN_ENC_MAX_SAFE_INT <=? v) && (v <=? DYN_ENC_MAX_SAFE_INT) then Number (Some v)
  else BigInt v.

Definition fault_or (o : option (list Z)) : outcome (list Z) :=
  match o with Some l => Ret l | None => Throw Fault end.

Definition dyn_enc_put_uvarint_js (v : number) : outcome (list Z) :=
  match dyn_enc_to_u64 v with Throw e => Throw e | Ret v => fault_or (dyn_enc_put_uvarint v) end.
Definition dyn_enc_put_varint_js (v : number) : outcome (list Z) :=
  match dyn_enc_to_i64 v with Throw e => Throw e | Ret v => fault_or (dyn_enc_put_varint v) end.

(** The [[value, bytesRead]] pair. *)
Definition dyn_enc_uvarint_js (buf : list Z) : number * Z :=
  let '(nb, v) := dyn_enc_uvarint buf in
  (if 0 <? nb then dyn_enc_u64_to_js v else Number (Some 0), nb).
Definition dyn_enc_varint_js (buf : list Z) : number * Z :=
  let '(nb, v) := dyn_enc_varint buf in
  (if 0 <? nb then dyn_enc_i64_to_js v else Number (Some 0), nb).
End Varint.

(** ** Base85 (ascii85) *)
Module Base85.
Definition dyn_enc_is_ascii85_space (c : Z) : bool :=
  (c =? 32) || (c =? 9) || (c =? 10) || (c =? 11) || (c =? 12) || (c =? 13).

Definition bang : Z := chr "!".

(** One block of at most 4 bytes. *)
Definition encode_block (chunk : list Z) : list Z :=
  let nb := length chunk in
  let v := foldl (fun v '(j, b) => Z.lor v (u32 (Z.shiftl b (24 - 8 * j)))) 0
             (zip (seqZ 0 (Z.of_nat nb)) chunk) in
  if (nb =? 4)%nat && (v =? 0) then [chr "z"]
  else
    let c := [bang + v / 85 / 85 / 85 / 85 mod 85; bang + v / 85 / 85 / 85 mod 85;
              bang + v / 85 / 85 mod 85; bang + v / 85 mod 85; bang + v mod 85] in
    take (if (nb <? 4)%nat then nb + 1 else 5)%nat c.

Definition dyn_enc_b85_encode (data : list Z) : list Z := concat (encode_block <$> chunks 4 data).

(** The decoder's accumulator: digits read so far and their value. *)
Record acc := Acc { v : Z; nb : Z; out : list Z }.

Definition decode_char (a : acc) (b : Z) : option acc :=
  if dyn_enc_is_ascii85_space b then Some a
  else if (b =? chr "z") && (nb a =? 0) then Some (Acc (v a) (nb a) (out a ++ [0; 0; 0; 0]))
  else if (b <? bang) || (chr "u" <? b) then None
  else
    let v := u32 (v a * 85 + (b - bang)) in
    let nb := nb a + 1 in
    if nb =? 5 then
      Some (Acc 0 0 (out a ++ [u8 (Z.shiftr v 24); u8 (Z.shiftr v 16); u8 (Z.shiftr v 8); u8 v]))
    else Some (Acc v nb (out a)).

Fixpoint decode_loop (str : list Z) (a : acc) : option acc :=
  match str with
  | [] => Some a
  | b :: str => a ← decode_char a b; decode_loop str a
  end.

Definition dyn_enc_b85_decode (str : list Z) : option (list Z) :=
  a ← decode_loop str (Acc 0 0 []);
  if nb a =? 1 then None
  else if 1 <? nb a then
    let v := foldl (fun v _ => u32 (v * 85 + 84)) (v a) (seqZ (nb a) (5 - nb a)) in
    Some (out a ++ ((fun k => u8 (Z.shiftr v (24 - 8 * k))) <$> seqZ 0 (nb a - 1)))
  else Some (out a).

Definition dyn_enc_base85_encode (alloc : bool) (data : list Z) : outcome (list Z) :=
  if alloc then Ret (dyn_enc_b85_encode data) else Throw OutOfMemory.

Definition dyn_enc_base85_decode (alloc : bool) (str : list Z) : outcome (list Z) :=
  if negb alloc then Throw OutOfMemory
  else match dyn_enc_b85_decode str with None => Throw SyntaxError | Some out => Ret out end.
End Base85.
