(* ===== verification/EncodingProps.v ===== *)
(** * Round trips of the encodings (src/dyna-encoding.c)

    Decoding inverts encoding for every byte string, for each codec and its
    handlers; bounds on the lengths of the outputs. *)
From S2P Require Import Prelude Native Encoding.

(** ** Hex *)
Section hex.
Import Hex.

(** Both digits of a byte, checked on the 256 bytes. *)
Lemma hex_byte b : byte_ok b ->
  0 <= simd_hex_val (at_ simd_hex_lut (Z.shiftr b 4)) /\
  0 <= simd_hex_val (at_ simd_hex_lut (Z.land b 15)) /\
  u8 (Z.lor (Z.shiftl (simd_hex_val (at_ simd_hex_lut (Z.shiftr b 4))) 4)
            (simd_hex_val (at_ simd_hex_lut (Z.land b 15)))) = b.
Proof.
  intros Hb.
  pose proof (below_forallb 256 (fun b =>
    let hi := simd_hex_val (at_ simd_hex_lut (Z.shiftr b 4)) in
    let lo := simd_hex_val (at_ simd_hex_lut (Z.land b 15)) in
    (0 <=? hi) && (0 <=? lo) && (u8 (Z.lor (Z.shiftl hi 4) lo) =? b)) eq_refl b Hb) as H.
  simpl in H. lia.
Qed.

Lemma hex_pairs_encode data :
  Forall byte_ok data -> hex_pairs (simd_scalar_hex_encode data) = Some data.
Proof.
  induction 1 as [|b data Hb _ IH]; [done|]. destruct (hex_byte b Hb) as (H1 & H2 & H3).
  unfold simd_scalar_hex_encode in *. cbn [mbind list_bind app hex_pairs].
  rewrite (proj2 (orb_false_iff _ _)) by lia. rewrite IH. simpl. by rewrite H3.
Qed.

Lemma hex_encode_length data : length (simd_scalar_hex_encode data) = (2 * length data)%nat.
Proof.
  induction data as [|b data IH]; [done|]. unfold simd_scalar_hex_encode in *.
  cbn [mbind list_bind app length]. rewrite IH. lia.
Qed.

Lemma even_land n : Z.land (Z.of_nat (2 * n)) 1 = 0.
Proof.
  rewrite land_1, Nat2Z.inj_mul, Z.mul_comm. apply Z_mod_mult.
Qed.

Lemma hex_roundtrip data :
  Forall byte_ok data -> simd_scalar_hex_decode (simd_scalar_hex_encode data) = Some data.
Proof.
  intros H. unfold simd_scalar_hex_decode. rewrite hex_encode_length, even_land. simpl.
  by apply hex_pairs_encode.
Qed.

End hex.

(** ** Base64 *)
Section base64.
Import Base64.

Lemma dec_E k : 0 <= k < 64 -> dec (E k) = k /\ E k <> pad /\ byte_ok (E k).
Proof.
  intros Hk.
  pose proof (below_forallb 64 (fun k => (dec (E k) =? k) && negb (E k =? pad) &&
    (0 <=? E k) && (E k <? 256)) eq_refl k Hk) as H. unfold byte_ok. simpl in H. lia.
Qed.

(** The four 6-bit digits of a 24-bit group. *)
Definition digit (x k : Z) : Z := Z.land (Z.shiftr x k) 63.

Lemma digit_range x k : 0 <= k -> 0 <= digit x k < 64.
Proof.
  intros Hk. unfold digit. rewrite (field_div_mod x k 6) by done.
  apply Z.mod_pos_bound. lia.
Qed.

Lemma digit_0 x : Z.land x 63 = digit x 0.
Proof. unfold digit. by rewrite Z.shiftr_0_r. Qed.

Lemma join_digits x :
  0 <= x < 2 ^ 24 ->
  Z.lor (Z.lor (Z.lor (Z.shiftl (digit x 18) 18) (Z.shiftl (digit x 12) 12))
           (Z.shiftl (digit x 6) 6)) (digit x 0) = x.
Proof.
  intros Hx. unfold digit. rewrite !(field_div_mod _ _ 6) by done.
  rewrite !Z.shiftl_mul_pow2 by lia.
  join 18. join 12. join 6. div_lia.
Qed.

Lemma join_bytes a b c :
  byte_ok a -> byte_ok b -> byte_ok c ->
  Z.lor (Z.lor (Z.shiftl a 16) (Z.shiftl b 8)) c = a * 65536 + b * 256 + c.
Proof. unfold byte_ok. intros. rewrite !Z.shiftl_mul_pow2 by lia. join 16. join 8. lia. Qed.

Lemma byte_fields a b c :
  byte_ok a -> byte_ok b -> byte_ok c ->
  let x := a * 65536 + b * 256 + c in
  0 <= x < 2 ^ 24 /\ Z.land (Z.shiftr x 16) 255 = a /\ Z.land (Z.shiftr x 8) 255 = b /\
  Z.land x 255 = c.
Proof.
  intros Ha Hb Hc x. unfold byte_ok in *. rewrite !(field_div_mod _ _ 8) by done.
  change 255 with (2 ^ 8 - 1). rewrite land_pow2_pred by lia. subst x.
  split; [lia|]. split; [|split]; div_lia.
Qed.

(** A group of four characters with [k] of them padding. *)
Lemma decode_group_digits last x (k : Z) :
  0 <= x < 2 ^ 24 -> k = 0 \/ (last = true /\ (k = 1 /\ digit x 0 = 0 \/
                                            k = 2 /\ digit x 0 = 0 /\ digit x 6 = 0)) ->
  decode_group last (E (digit x 18)) (E (digit x 12))
    (if k =? 2 then pad else E (digit x 6)) (if k =? 0 then E (digit x 0) else pad) =
  Some ([Z.land (Z.shiftr x 16) 255] ++ (if k <? 2 then [Z.land (Z.shiftr x 8) 255] else []) ++
        (if k <? 1 then [Z.land x 255] else [])).
Proof.
  intros Hx Hk. pose proof (join_digits x Hx) as Hj. unfold decode_group.
  destruct (dec_E (digit x 18)) as (-> & _ & _); [by apply digit_range|].
  destruct (dec_E (digit x 12)) as (-> & _ & _); [by apply digit_range|].
  pose proof (digit_range x 18 ltac:(lia)). pose proof (digit_range x 12 ltac:(lia)).
  pose proof (digit_range x 6 ltac:(lia)). pose proof (digit_range x 0 ltac:(lia)).
  rewrite (proj2 (orb_false_iff _ _)) by lia.
  destruct (dec_E (digit x 6)) as (E6 & N6 & _); [done|].
  destruct (dec_E (digit x 0)) as (E0 & N0 & _); [done|].
  apply Z.eqb_neq in N6, N0.
  destruct Hk as [->|(-> & [(-> & Z0)|(-> & Z0 & Z6)])].
  - change (0 =? 2) with false. change (0 =? 0) with true. cbv iota. rewrite N6, E6, N0, E0.
    destruct (Z.ltb_spec (digit x 6) 0); [lia|]. destruct (Z.ltb_spec (digit x 0) 0); [lia|].
    cbn [mbind option_bind]. by rewrite Hj.
  - change (1 =? 2) with false. change (1 =? 0) with false. cbv iota. rewrite N6, E6, Z.eqb_refl.
    destruct (Z.ltb_spec (digit x 6) 0); [lia|]. rewrite Z0 in Hj.
    cbn [mbind option_bind negb]. by rewrite Hj.
  - change (2 =? 2) with true. change (2 =? 0) with false. cbv iota. rewrite Z.eqb_refl.
    rewrite Z0, Z6 in Hj.
    cbn [mbind option_bind negb orb]. by rewrite Hj.
Qed.

Lemma digits_of_multiple x k : 0 <= k -> x mod 2 ^ (k + 6) = 0 -> digit x k = 0.
Proof.
  intros Hk Hx. unfold digit. rewrite (field_div_mod x k 6) by done.
  apply Z.mod_divide in Hx as [q ->]; [|lia].
  rewrite Z.pow_add_r, (Z.mul_comm (2 ^ k)), Z.mul_assoc, Z.div_mul by lia. apply Z_mod_mult.
Qed.

Lemma decode_groups_encode data :
  Forall byte_ok data -> decode_groups (simd_scalar_base64_encode data) = Some data.
Proof.
  induction data as [data IH] using (induction_ltof1 _ length). unfold ltof in IH. intros Hd.
  assert (H0 : byte_ok 0) by (split; lia).
  destruct data as [|a [|b [|c data]]]; [done|..]; repeat rewrite Forall_cons in Hd; destruct_and?.
  - destruct (byte_fields a 0 0) as (Hx & F1 & F2 & F3); [done..|].
    pose proof (join_bytes a 0 0) as Hj. rewrite Z.shiftl_0_l, !Z.lor_0_r in Hj.
    cbn [simd_scalar_base64_encode decode_groups]. rewrite Hj by done.
    set (x := a * 65536 + 0 * 256 + 0) in *.
    assert (H6 : digit x 0 = 0 /\ digit x 6 = 0)
      by (split; apply digits_of_multiple; try lia; subst x; div_lia).
    pose proof (decode_group_digits true x 2 Hx ltac:(tauto)
      : decode_group true (E (Z.land (Z.shiftr x 18) 63)) (E (Z.land (Z.shiftr x 12) 63)) pad pad
        = Some [Z.land (Z.shiftr x 16) 255]) as Hg.
    rewrite Hg. cbn [mbind option_bind app]. by rewrite F1.
  - destruct (byte_fields a b 0) as (Hx & F1 & F2 & F3); [done..|].
    pose proof (join_bytes a b 0) as Hj. rewrite Z.lor_0_r in Hj.
    cbn [simd_scalar_base64_encode decode_groups]. rewrite Hj by done.
    set (x := a * 65536 + b * 256 + 0) in *.
    assert (H6 : digit x 0 = 0) by (apply digits_of_multiple; [lia|]; subst x; div_lia).
    pose proof (decode_group_digits true x 1 Hx ltac:(tauto)
      : decode_group true (E (Z.land (Z.shiftr x 18) 63)) (E (Z.land (Z.shiftr x 12) 63))
          (E (Z.land (Z.shiftr x 6) 63)) pad
        = Some [Z.land (Z.shiftr x 16) 255; Z.land (Z.shiftr x 8) 255]) as Hg.
    rewrite Hg. cbn [mbind option_bind app]. by rewrite F1, F2.
  - destruct (byte_fields a b c) as (Hx & F1 & F2 & F3); [done..|].
    cbn [simd_scalar_base64_encode decode_groups app]. rewrite join_bytes by done.
    set (x := a * 65536 + b * 256 + c) in *.
    set (last := match simd_scalar_base64_encode data with [] => true | _ => false end).
    pose proof (decode_group_digits last x 0 Hx ltac:(tauto)
      : decode_group last (E (Z.land (Z.shiftr x 18) 63)) (E (Z.land (Z.shiftr x 12) 63))
          (E (Z.land (Z.shiftr x 6) 63)) (E (Z.land (Z.shiftr x 0) 63))
        = Some [Z.land (Z.shiftr x 16) 255; Z.land (Z.shiftr x 8) 255; Z.land x 255]) as Hg.
    rewrite Z.shiftr_0_r in Hg. rewrite Hg.
    rewrite IH; [|simpl; lia|done]. cbn [mbind option_bind app]. by rewrite F1, F2, F3.
Qed.

(** The shape of an encoding: digits, then at most two padding characters. *)
Lemma encode_shape data :
  exists ds k, simd_scalar_base64_encode data = (E <$> ds) ++ replicate k pad /\
    Forall (fun d => 0 <= d < 64) ds /\ (k <= 2)%nat /\
    Z.of_nat (length ds + k) = 4 * ((Z.of_nat (length data) + 2) / 3).
Proof.
  induction data as [data IH] using (induction_ltof1 _ length). unfold ltof in IH.
  assert (Hd : forall x k, 0 <= k -> 0 <= Z.land (Z.shiftr x k) 63 < 64) by apply digit_range.
  destruct data as [|a [|b [|c data]]].
  - exists [], 0%nat. repeat split; (done || lia || constructor).
  - cbn [simd_scalar_base64_encode]. set (x := Z.shiftl a 16).
    exists [Z.land (Z.shiftr x 18) 63; Z.land (Z.shiftr x 12) 63], 2%nat.
    split; [done|]. split; [|done]. repeat (apply Forall_cons_2; [apply Hd; lia|]); done.
  - cbn [simd_scalar_base64_encode]. set (x := Z.lor (Z.shiftl a 16) (Z.shiftl b 8)).
    exists [Z.land (Z.shiftr x 18) 63; Z.land (Z.shiftr x 12) 63; Z.land (Z.shiftr x 6) 63], 1%nat.
    split; [done|]. split; [|split; [lia|done]]. repeat (apply Forall_cons_2; [apply Hd; lia|]); done.
  - destruct (IH data ltac:(simpl; lia)) as (ds & k & E1 & Hds & Hk & Hl).
    cbn [simd_scalar_base64_encode]. set (x := Z.lor (Z.lor (Z.shiftl a 16) (Z.shiftl b 8)) c).
    exists ([Z.land (Z.shiftr x 18) 63; Z.land (Z.shiftr x 12) 63; Z.land (Z.shiftr x 6) 63;
             Z.land x 63] ++ ds), k.
    rewrite E1. split; [done|]. split; [|split; [done|]].
    + apply Forall_app. split; [|done]. rewrite (digit_0 x). repeat (apply Forall_cons_2; [apply Hd; lia|]); done.
    + cbn [length app]. revert Hl. rewrite !Nat2Z.inj_add, !Nat2Z.inj_succ.
      generalize (Z.of_nat (length ds)) (Z.of_nat (length data)) (Z.of_nat k).
      intros p q r Hl. div_lia.
Qed.

Lemma encode_length data :
  Z.of_nat (length (simd_scalar_base64_encode data)) = 4 * ((Z.of_nat (length data) + 2) / 3).
Proof.
  destruct (encode_shape data) as (ds & k & -> & _ & _ & Hl).
  by rewrite length_app, length_fmap, length_replicate.
Qed.

Lemma base64_roundtrip data :
  Forall byte_ok data -> simd_scalar_base64_decode (simd_scalar_base64_encode data) = Some data.
Proof.
  intros Hd. unfold simd_scalar_base64_decode. rewrite encode_length.
  rewrite Z.mul_comm, Z_mod_mult. simpl. by apply decode_groups_encode.
Qed.

(** Translating a digit to the URL alphabet and back. *)
Lemma url_char d : 0 <= d < 64 ->
  exists c, url_strip [E d] = [c] /\ url_unstrip [c] = Some [E d].
Proof.
  intros Hd.
  pose proof (below_forallb 64 (fun d => match url_strip [E d] with
    | [c] => bool_decide (url_unstrip [c] = Some [E d]) | _ => false end) eq_refl d Hd) as H.
  cbv beta in H. destruct (url_strip [E d]) as [|c [|? ?]]; try done.
  exists c. split; [done|]. by apply bool_decide_eq_true in H.
Qed.

Lemma url_unstrip_app s1 s2 r1 r2 :
  url_unstrip s1 = Some r1 -> url_unstrip s2 = Some r2 -> url_unstrip (s1 ++ s2) = Some (r1 ++ r2).
Proof.
  intros H1 H2. revert r1 H1. induction s1 as [|c s1 IH]; simpl; intros r1 H1; [by simplify_eq|].
  repeat case_match; try done;
    (destruct (url_unstrip s1) as [r|]; [|done]); simplify_eq/=; by rewrite (IH r).
Qed.

Lemma url_strip_app s1 s2 :
  Forall (fun c => c <> pad) s1 -> url_strip (s1 ++ s2) = url_strip s1 ++ url_strip s2.
Proof.
  induction 1 as [|c s1 Hc _ IH]; simpl; [done|]. apply Z.eqb_neq in Hc. by rewrite Hc, IH.
Qed.

Lemma url_strip_digits ds k :
  Forall (fun d => 0 <= d < 64) ds ->
  exists s, url_strip ((E <$> ds) ++ replicate k pad) = s /\ url_unstrip s = Some (E <$> ds) /\
    length s = length ds.
Proof.
  induction 1 as [|d ds Hd _ (s & E1 & E2 & E3)].
  - exists []. split; [by destruct k|done].
  - destruct (url_char d Hd) as (c & Ec & Eu). destruct (dec_E d Hd) as (_ & Hn & _).
    exists (c :: s). rewrite fmap_cons, <- app_comm_cons.
    change (E d :: (E <$> ds) ++ replicate k pad) with ([E d] ++ (E <$> ds) ++ replicate k pad).
    rewrite url_strip_app by (by constructor). rewrite Ec, E1. split; [done|]. split.
    + change (c :: s) with ([c] ++ s). change (E d :: (E <$> ds)) with ([E d] ++ (E <$> ds)).
      by apply url_unstrip_app.
    + simpl. by rewrite E3.
Qed.

Lemma base64url_roundtrip a1 a2 data :
  Forall byte_ok data ->
  match dyn_enc_base64url_encode true data with
  | Ret s => dyn_enc_base64url_decode a1 a2 s = if a1 && a2 then Ret data else Throw OutOfMemory
  | Throw _ => False
  end.
Proof.
  intros Hd. unfold dyn_enc_base64url_encode, dyn_enc_base64url_decode.
  pose proof (base64_roundtrip data Hd) as Hr.
  destruct (encode_shape data) as (ds & k & E1 & Hds & Hk & Hl). rewrite E1 in Hr |- *.
  destruct (url_strip_digits ds k Hds) as (s & -> & Hu & Hlen). rewrite Hlen, Hu.
  rewrite Nat2Z.inj_add in Hl.
  assert (Hmod : Z.of_nat (length ds) mod 4 = if (k =? 0)%nat then 0 else 4 - Z.of_nat k).
  { destruct (Nat.eqb_spec k 0); symmetry;
      [apply (Zmod_unique _ _ ((Z.of_nat (length data) + 2) / 3))|
       apply (Zmod_unique _ _ ((Z.of_nat (length data) + 2) / 3 - 1))]; lia. }
  rewrite Hmod. destruct (Nat.eqb_spec k 0) as [->|Hk0].
  - simpl. destruct a1, a2; simpl; try done. simpl in Hr. by rewrite Hr.
  - assert (Ek : (if 4 - Z.of_nat k =? 0 then 0 else 4 - (4 - Z.of_nat k)) = Z.of_nat k)
      by (destruct (Z.eqb_spec (4 - Z.of_nat k) 0); lia).
    destruct (Z.eqb_spec (4 - Z.of_nat k) 1); [lia|]. rewrite Ek, Nat2Z.id.
    destruct a1, a2; simpl; try done. by rewrite Hr.
Qed.

Lemma decode_group_bound last c0 c1 c2 c3 out :
  decode_group last c0 c1 c2 c3 = Some out -> (length out <= 3)%nat.
Proof.
  unfold decode_group. destruct (_ || _); [done|].
  destruct (if c2 =? pad then _ else _) as [[[p v2] v3]|]; [|done]. cbn [mbind option_bind].
  intros [= <-]. destruct (p <? 2), (p <? 1); simpl; lia.
Qed.

End base64.

(** ** Base32 *)
Section base32.
Import Base32.

(** Every digit of an alphabet maps back to itself, and none is ['=']. *)
Lemma alpha_digit m k : 0 <= k < 32 ->
  at_ (build_rev (dyn_b32_alpha m)) (at_ (dyn_b32_alpha m) k) = k /\ at_ (dyn_b32_alpha m) k <> pad.
Proof.
  intros Hk.
  pose proof (below_forallb 32 (fun k =>
    (at_ (build_rev (dyn_b32_alpha m)) (at_ (dyn_b32_alpha m) k) =? k) &&
    negb (at_ (dyn_b32_alpha m) k =? pad))) as H.
  assert (forallb (fun k =>
    (at_ (build_rev (dyn_b32_alpha m)) (at_ (dyn_b32_alpha m) k) =? k) &&
    negb (at_ (dyn_b32_alpha m) k =? pad)) (seqZ 0 32) = true) as Hc by (by destruct m; vm_compute).
  specialize (H Hc k Hk). simpl in H. lia.
Qed.

(** The [j]th 5-bit digit of a 40-bit block, from the top. *)
Definition dig (v j : Z) : Z := Z.land (Z.shiftr v (35 - 5 * j)) 31.

Lemma dig_div v j : 0 <= j <= 7 -> dig v j = (v / 2 ^ (35 - 5 * j)) mod 32.
Proof. intros Hj. unfold dig. by rewrite (field_div_mod v _ 5) by lia. Qed.

Lemma dig_range v j : 0 <= j <= 7 -> 0 <= dig v j < 32.
Proof. intros Hj. rewrite dig_div by done. apply Z.mod_pos_bound. lia. Qed.

(** One round of the accumulation loop. *)
Lemma horner v j k : 0 <= v < 2 ^ 40 -> 0 <= j <= 7 -> k = 40 - 5 * j ->
  u64 (Z.lor (Z.shiftl (v / 2 ^ k) 5) (dig v j)) = v / 2 ^ (35 - 5 * j).
Proof.
  intros Hv Hj ->. pose proof (dig_range v j Hj) as Hd.
  rewrite lor_shiftl_low by lia. rewrite dig_div by done.
  replace (40 - 5 * j) with (35 - 5 * j + 5) by lia.
  rewrite Z.pow_add_r, <- Z.div_div by lia. set (w := v / 2 ^ (35 - 5 * j)).
  assert (Hw : 0 <= w <= v) by (split; [apply Z.div_pos; lia|apply Z.div_le_upper_bound; lia || nia]).
  rewrite u64_small by div_lia. div_lia.
Qed.

Lemma fold_digits v :
  0 <= v < 2 ^ 40 ->
  fold_left (fun v c => u64 (Z.lor (Z.shiftl v 5) c)) (dig v <$> seqZ 0 8) 0 = v.
Proof.
  intros Hv. change (seqZ 0 8) with [0; 1; 2; 3; 4; 5; 6; 7]. cbn [fmap list_fmap fold_left].
  pose proof (horner v 0 40 Hv) as H0. replace (v / 2 ^ 40) with 0 in H0
    by (symmetry; apply Z.div_small; lia). rewrite H0 by lia.
  rewrite (horner v 1), (horner v 2), (horner v 3), (horner v 4), (horner v 5), (horner v 6),
    (horner v 7) by lia. apply Z.div_1_r.
Qed.

Lemma pad_prefix_pads k l : pad_prefix (replicate k pad ++ l) = Z.of_nat k + pad_prefix l.
Proof.
  induction k as [|k IH]; [done|]. cbn [replicate app pad_prefix].
  rewrite Z.eqb_refl, IH. lia.
Qed.

Lemma rev_all_digits m ds :
  Forall (fun d => 0 <= d < 32) ds ->
  rev_all (build_rev (dyn_b32_alpha m)) (at_ (dyn_b32_alpha m) <$> ds) = Some ds.
Proof.
  induction 1 as [|d ds Hd _ IH]; [done|]. rewrite fmap_cons. cbn [rev_all].
  destruct (alpha_digit m d Hd) as [-> _]. destruct (Z.ltb_spec d 0); [lia|].
  by rewrite IH.
Qed.

(** A block whose dropped digits are zero decodes to the bytes of its value. *)
Lemma decode_block_digits m last v nc nb :
  0 <= v < 2 ^ 40 -> 1 <= nc <= 8 -> at_ nbytes_tab nc = nb -> 0 <= nb -> (nc < 8 -> last = true) ->
  (forall j, nc <= j <= 7 -> dig v j = 0) ->
  decode_block (build_rev (dyn_b32_alpha m)) last
    (((fun j => at_ (dyn_b32_alpha m) (dig v j)) <$> seqZ 0 nc) ++ replicate (Z.to_nat (8 - nc)) pad) =
  Some (take (Z.to_nat nb)
    [u8 (Z.shiftr v 32); u8 (Z.shiftr v 24); u8 (Z.shiftr v 16); u8 (Z.shiftr v 8); u8 v]).
Proof.
  intros Hv Hnc Hnb Hnb0 Hlast Hz.
  assert (Hds : Forall (fun d => 0 <= d < 32) (dig v <$> seqZ 0 nc)).
  { apply Forall_fmap, Forall_forall. intros j Hj%elem_of_seqZ. apply dig_range. lia. }
  assert (Hmap : (fun j => at_ (dyn_b32_alpha m) (dig v j)) <$> seqZ 0 nc =
                 at_ (dyn_b32_alpha m) <$> (dig v <$> seqZ 0 nc)) by (by rewrite <- list_fmap_compose).
  rewrite Hmap. unfold decode_block.
  assert (Hpad : pad_prefix (reverse ((at_ (dyn_b32_alpha m) <$> (dig v <$> seqZ 0 nc)) ++
            replicate (Z.to_nat (8 - nc)) pad)) = 8 - nc).
  { rewrite reverse_app, reverse_replicate, pad_prefix_pads.
    assert (Hs : seqZ 0 nc = seqZ 0 (nc - 1) ++ [nc - 1]).
    { replace nc with (nc - 1 + 1) at 1 by lia. rewrite seqZ_app by lia. f_equal. }
    rewrite Hs, !fmap_app, reverse_app, !fmap_cons, !fmap_nil, reverse_singleton. cbn [app pad_prefix].
    destruct (alpha_digit m (dig v (nc - 1))) as [_ Hne]; [apply dig_range; lia|].
    apply Z.eqb_neq in Hne. rewrite Hne. lia. }
  rewrite Hpad. replace ((0 <? 8 - nc) && negb last) with false
    by (destruct (Z.ltb_spec 0 (8 - nc)); [by rewrite (Hlast ltac:(lia))|done]).
  replace (8 - (8 - nc)) with nc by lia. rewrite Hnb. destruct (Z.ltb_spec nb 0); [lia|].
  rewrite take_app_length' by (rewrite !length_fmap, length_seqZ; done).
  rewrite rev_all_digits by done. cbn [mbind option_bind].
  assert (Hall : (dig v <$> seqZ 0 nc) ++ replicate (Z.to_nat (8 - nc)) 0 = dig v <$> seqZ 0 8).
  { replace 8 with (nc + (8 - nc)) at 2 by lia. rewrite seqZ_app, fmap_app by lia. f_equal.
    apply replicate_as_elem_of. rewrite length_fmap, length_seqZ. split; [done|].
    intros d (j & -> & Hj%elem_of_seqZ)%list_elem_of_fmap. apply Hz. lia. }
  by rewrite Hall, fold_digits.
Qed.

(** The 40-bit value of a block of at most five bytes. *)
Definition block_value (c : list Z) : Z :=
  at_ c 0 * 2 ^ 32 + at_ c 1 * 2 ^ 24 + at_ c 2 * 2 ^ 16 + at_ c 3 * 2 ^ 8 + at_ c 4.

Lemma at_byte l i : Forall byte_ok l -> byte_ok (at_ l i).
Proof.
  intros H. unfold at_. destruct (l !! Z.to_nat i) as [b|] eqn:E; simpl; [|by split].
  by apply (Forall_lookup_1 _ _ _ _ H E).
Qed.

Lemma block_join c : Forall byte_ok c ->
  Z.lor (Z.lor (Z.lor (Z.lor (Z.shiftl (at_ c 0) 32) (Z.shiftl (at_ c 1) 24))
    (Z.shiftl (at_ c 2) 16)) (Z.shiftl (at_ c 3) 8)) (at_ c 4) = block_value c.
Proof.
  intros H. pose proof (at_byte c 0 H) as H0. pose proof (at_byte c 1 H) as H1.
  pose proof (at_byte c 2 H) as H2. pose proof (at_byte c 3 H) as H3. pose proof (at_byte c 4 H) as H4.
  unfold byte_ok, block_value in *. rewrite !Z.shiftl_mul_pow2 by lia.
  join 32. join 24. join 16. join 8. lia.
Qed.

Lemma block_bytes c : Forall byte_ok c ->
  let v := block_value c in 0 <= v < 2 ^ 40 /\
  [u8 (Z.shiftr v 32); u8 (Z.shiftr v 24); u8 (Z.shiftr v 16); u8 (Z.shiftr v 8); u8 v] =
  [at_ c 0; at_ c 1; at_ c 2; at_ c 3; at_ c 4].
Proof.
  intros H v. pose proof (at_byte c 0 H) as H0. pose proof (at_byte c 1 H) as H1.
  pose proof (at_byte c 2 H) as H2. pose proof (at_byte c 3 H) as H3. pose proof (at_byte c 4 H) as H4.
  unfold v, byte_ok, block_value, u8 in *. split; [lia|].
  rewrite !Z.shiftr_div_pow2 by lia. repeat (apply f_equal2; [div_lia|]). done.
Qed.

Lemma encode_decode_block m last c :
  Forall byte_ok c -> (1 <= length c <= 5)%nat -> ((length c < 5)%nat -> last = true) ->
  length (encode_block (dyn_b32_alpha m) c) = 8%nat /\
  decode_block (build_rev (dyn_b32_alpha m)) last (encode_block (dyn_b32_alpha m) c) = Some c.
Proof.
  intros Hc Hlen Hlast. unfold encode_block. rewrite block_join by done.
  destruct (block_bytes c Hc) as [Hv Hb]. set (nc := at_ nchars_tab (Z.of_nat (length c))).
  assert (Hnc : 1 <= nc <= 8 /\ at_ nbytes_tab nc = Z.of_nat (length c) /\
                (nc < 8 -> (length c < 5)%nat)).
  { unfold nc. assert (length c = 1 \/ length c = 2 \/ length c = 3 \/ length c = 4 \/ length c = 5)%nat
      as [Hl|[Hl|[Hl|[Hl|Hl]]]] by lia; rewrite Hl;
      (split; [split; done|]; split; [done|]; intros Hx; vm_compute in Hx; done || lia). }
  destruct Hnc as (Hnc & Htab & Hlt). split.
  - rewrite length_app, length_fmap, length_seqZ, length_replicate. lia.
  - pose proof (decode_block_digits m last (block_value c) nc (Z.of_nat (length c)) Hv Hnc Htab) as Hd.
    unfold dig in Hd. rewrite Hd; [|lia|by auto|].
    + rewrite Hb, Nat2Z.id. f_equal. clear -Hlen.
      destruct c as [|? [|? [|? [|? [|? [|? ?]]]]]]; simpl in Hlen; (done || lia).
    + intros j Hj. fold (dig (block_value c) j). rewrite dig_div by lia.
      assert (Hm : exists q, block_value c = q * 2 ^ (40 - 5 * nc)).
      { clear -Hc Hlen. subst nc. unfold block_value.
        destruct c as [|? [|? [|? [|? [|? [|? ?]]]]]]; simpl in Hlen; try lia; unfold at_; simpl.
        - exists (z * 2 ^ 2). lia.
        - exists (z * 2 ^ 12 + z0 * 2 ^ 4). lia.
        - exists (z * 2 ^ 17 + z0 * 2 ^ 9 + z1 * 2). lia.
        - exists (z * 2 ^ 27 + z0 * 2 ^ 19 + z1 * 2 ^ 11 + z2 * 2 ^ 3). lia.
        - eexists. rewrite Z.mul_1_r. done. }
      destruct Hm as [q ->].
      replace (40 - 5 * nc) with ((40 - 5 * nc - (35 - 5 * j) - 5) + 5 + (35 - 5 * j)) by lia.
      rewrite !Z.pow_add_r, !Z.mul_assoc, Z.div_mul by lia. apply Z_mod_mult.
Qed.

Lemma encode_app m a l :
  length a = 5%nat ->
  dyn_enc_b32_encode (dyn_b32_alpha m) (a ++ l) =
  encode_block (dyn_b32_alpha m) a ++ dyn_enc_b32_encode (dyn_b32_alpha m) l.
Proof. intros Ha. unfold dyn_enc_b32_encode. by rewrite chunks_app by lia. Qed.

Lemma b32_encode_blocks m data :
  Forall byte_ok data ->
  (exists q, length (dyn_enc_b32_encode (dyn_b32_alpha m) data) = (8 * q)%nat) /\
  decode_blocks (build_rev (dyn_b32_alpha m)) (chunks 8 (dyn_enc_b32_encode (dyn_b32_alpha m) data))
  = Some data.
Proof.
  revert data. refine (blocks_ind 5 (fun data => Forall byte_ok data -> _ /\ _) _ _ _ _); [lia| |intros l Hl Hlt|intros a l Ha IH]; intros Hd.
  - split; [by exists 0%nat|done].
  - destruct (encode_decode_block m true l Hd) as [H8 Hb]; [destruct l; simpl in *; done || lia|done|].
    unfold dyn_enc_b32_encode. rewrite (chunks_short 5 l) by (done || lia).
    cbn [fmap list_fmap concat]. rewrite app_nil_r.
    split; [by exists 1%nat|]. rewrite chunks_short; [|by intros Hn; rewrite Hn in H8|lia].
    cbn [decode_blocks]. rewrite Hb. simpl. by rewrite app_nil_r.
  - apply Forall_app in Hd as [Hda Hdl]. destruct (IH Hdl) as [[q Hq] Hdec].
    rewrite encode_app by done.
    set (lst := match chunks 8 (dyn_enc_b32_encode (dyn_b32_alpha m) l) with [] => true | _ => false end).
    destruct (encode_decode_block m lst a Hda) as [H8 Hb]; [lia|lia|].
    split; [exists (S q); rewrite length_app; lia|].
    rewrite chunks_app by (done || lia). cbn [decode_blocks]. fold lst. rewrite Hb.
    cbn [mbind option_bind]. by rewrite Hdec.
Qed.

Lemma base32_roundtrip m data :
  Forall byte_ok data ->
  dyn_enc_b32_decode (dyn_b32_alpha m) (dyn_enc_b32_encode (dyn_b32_alpha m) data) = Some data.
Proof.
  intros Hd. destruct (b32_encode_blocks m data Hd) as [[q Hq] Hdec].
  unfold dyn_enc_b32_decode. rewrite Hq, Nat2Z.inj_mul, Z.mul_comm, Z_mod_mult. done.
Qed.

Lemma encode_block_length alpha c :
  (1 <= length c <= 5)%nat -> length (encode_block alpha c) = 8%nat.
Proof.
  intros Hl. unfold encode_block.
  rewrite length_app, length_fmap, length_seqZ, length_replicate.
  assert (length c = 1 \/ length c = 2 \/ length c = 3 \/ length c = 4 \/ length c = 5)%nat
    as [E|[E|[E|[E|E]]]] by lia; by rewrite E.
Qed.

Lemma b32_encode_length alpha data :
  Z.of_nat (length (dyn_enc_b32_encode alpha data)) = (Z.of_nat (length data) + 4) / 5 * 8.
Proof.
  revert data. apply (blocks_ind 5 (fun data =>
    Z.of_nat (length (dyn_enc_b32_encode alpha data)) = (Z.of_nat (length data) + 4) / 5 * 8)); [lia|done|..].
  - intros l Hl Hlt. unfold dyn_enc_b32_encode. rewrite chunks_short by (done || lia).
    assert (1 <= length l)%nat by (destruct l; simpl in *; [done|lia]).
    rewrite fmap_cons, fmap_nil. cbn [concat]. rewrite app_nil_r, encode_block_length by lia.
    assert ((Z.of_nat (length l) + 4) / 5 = 1) as -> by div_lia. done.
  - intros b l Hb IH. unfold dyn_enc_b32_encode in *. rewrite chunks_app by (done || lia).
    rewrite fmap_cons. cbn [concat]. rewrite !length_app, encode_block_length, Hb by lia.
    replace (Z.of_nat (5 + length l) + 4) with (Z.of_nat (length l) + 4 + 1 * 5) by lia.
    rewrite Z.div_add by lia. lia.
Qed.

Lemma decode_block_bound rev last s out :
  decode_block rev last s = Some out -> (length out <= 5)%nat.
Proof.
  unfold decode_block. destruct (_ && _); [done|]. destruct (_ <? 0); [done|].
  destruct (rev_all _ _); [|done]. cbn [mbind option_bind]. intros [= <-]. rewrite length_take. simpl. lia.
Qed.

Lemma chunks_count {A} k (l : list A) :
  (0 < k)%nat -> Z.of_nat (length l) mod Z.of_nat k = 0 ->
  Z.of_nat (length (chunks k l)) = Z.of_nat (length l) / Z.of_nat k.
Proof.
  intros Hk. revert l. apply (blocks_ind k (fun l => Z.of_nat (length l) mod Z.of_nat k = 0 ->
    Z.of_nat (length (chunks k l)) = Z.of_nat (length l) / Z.of_nat k)); [done|by rewrite Z.div_0_l by lia|..].
  - intros l Hl Hlt H0. rewrite Z.mod_small in H0 by lia. destruct l; [done|]. simpl in H0. lia.
  - intros a l Ha IH H0. rewrite chunks_app by done. cbn [length]. rewrite length_app, Ha in *.
    rewrite Nat2Z.inj_add, <- (Z.mul_1_l (Z.of_nat k)), Z.add_comm in H0 at 1.
    rewrite Z.mul_1_l in H0.
    replace (Z.of_nat (length l) + Z.of_nat k) with (Z.of_nat (length l) + 1 * Z.of_nat k) in H0 by lia.
    rewrite Z.mod_add in H0 by lia. specialize (IH H0).
    replace (Z.of_nat (k + length l)) with (Z.of_nat (length l) + 1 * Z.of_nat k) by lia.
    rewrite Z.div_add by lia. lia.
Qed.

End base32.

(** ** Varint *)
Section varint.
Import Varint.

Lemma put_loop_step fuel x :
  put_loop (S fuel) x =
  if 128 <=? x then out ← put_loop fuel (Z.shiftr x 7); Some (u8 (Z.lor x 128) :: out) else Some [u8 x].
Proof. done. Qed.

(** The low byte of a group. *)
Lemma group_byte x : 0 <= x ->
  u8 (Z.lor x 128) = x mod 128 + 128 /\ Z.land (x mod 128 + 128) 127 = x mod 128.
Proof.
  intros Hx. pose proof (Z.mod_pos_bound x 128 ltac:(lia)).
  assert (H1 : Z.land (x mod 128 + 128) 127 = x mod 128).
  { change 127 with (2 ^ 7 - 1). rewrite land_pow2_pred by lia. change (2 ^ 7) with 128. div_lia. }
  split; [|done]. unfold u8. rewrite <- Z.land_ones by lia. rewrite Z.land_lor_distr_l.
  rewrite !Z.land_ones by lia. change (128 mod 2 ^ 8) with 128.
  pose proof (below_forallb 256 (fun b => Z.lor b 128 =? b mod 128 + 128) eq_refl (x mod 2 ^ 8)
    ltac:(apply Z.mod_pos_bound; lia)) as H2. apply Z.eqb_eq in H2. rewrite H2. div_lia.
Qed.

(** Decoding continues where the encoder left off: [k] groups read, their
    value below [2 ^ (7 * k)]. *)
Lemma uvarint_put fuel : forall x k acc rest,
  0 <= k -> Z.of_nat fuel = 9 - k -> 0 <= x -> x * 2 ^ (7 * k) < 2 ^ 64 -> 0 <= acc < 2 ^ (7 * k) ->
  exists out, put_loop (S fuel) x = Some out /\ (length out <= S fuel)%nat /\ Forall byte_ok out /\
    uvarint_loop (out ++ rest) k acc (7 * k) = (k + Z.of_nat (length out), acc + x * 2 ^ (7 * k)).
Proof.
  induction fuel as [|fuel IH]; intros x k acc rest Hk Hf Hx Hb Ha; rewrite put_loop_step.
  all: assert (Hp : 0 < 2 ^ (7 * k)) by (apply Z.pow_pos_nonneg; lia).
  - assert (k = 9) as -> by lia. change (7 * 9) with 63 in *.
    assert (x <= 1) by lia. destruct (Z.leb_spec 128 x); [lia|].
    unfold u8. rewrite Z.mod_small by lia. exists [x]. split; [done|]. split; [simpl; lia|].
    split; [repeat constructor; lia|]. cbn [app uvarint_loop]. simpl (_ =? _).
    destruct (Z.ltb_spec x 128); [|lia]. destruct (Z.ltb_spec 1 x); [lia|]. cbn [andb length].
    rewrite Z.shiftl_mul_pow2 by lia. rewrite u64_small by lia.
    f_equal. rewrite Z.lor_comm, (lor_low 63); [lia|lia|lia|apply Z_mod_mult].
  - assert (Hk10 : (k =? DYN_ENC_MAX_VARINT_LEN) = false) by (unfold DYN_ENC_MAX_VARINT_LEN; lia).
    destruct (Z.leb_spec 128 x) as [Hge|Hlt].
    + destruct (group_byte x Hx) as [Hg1 Hg2]. rewrite Hg1.
      pose proof (Z.mod_pos_bound x 128 ltac:(lia)) as Hm.
      assert (Hq : Z.shiftr x 7 = x / 128) by (by rewrite Z.shiftr_div_pow2 by lia).
      assert (Hpow : 2 ^ (7 * (k + 1)) = 128 * 2 ^ (7 * k)).
      { replace (7 * (k + 1)) with (7 + 7 * k) by lia. by rewrite Z.pow_add_r by lia. }
      assert (Hx0 : x = 128 * (x / 128) + x mod 128) by (apply Z.div_mod; lia).
      assert (Hxm : x mod 128 * 2 ^ (7 * k) < 2 ^ 64) by nia.
      destruct (IH (Z.shiftr x 7) (k + 1) (acc + x mod 128 * 2 ^ (7 * k)) rest)
        as (out & E & Hl & Hbs & Hu); [lia|lia|rewrite Hq; div_lia|rewrite Hq, Hpow; nia|rewrite Hpow; nia|].
      rewrite E. cbn [mbind option_bind]. eexists. split; [done|]. split; [simpl; lia|].
      split; [constructor; [split; lia|done]|]. cbn [app uvarint_loop]. rewrite Hk10.
      destruct (Z.ltb_spec (x mod 128 + 128) 128); [lia|]. rewrite Hg2.
      rewrite Z.shiftl_mul_pow2 by lia. rewrite u64_small by nia.
      rewrite Z.lor_comm, (lor_low (7 * k)); [|lia|done|apply Z_mod_mult].
      replace (7 * k + 7) with (7 * (k + 1)) by lia. rewrite (Z.add_comm _ acc), Hu, Hq, Hpow.
      cbn [length]. f_equal; [lia|]. rewrite Hx0 at 3. lia.
    + unfold u8. rewrite Z.mod_small by lia. exists [x]. split; [done|]. split; [simpl; lia|].
      split; [repeat constructor; lia|]. cbn [app uvarint_loop]. rewrite Hk10.
      destruct (Z.ltb_spec x 128); [|lia].
      destruct ((k =? DYN_ENC_MAX_VARINT_LEN - 1) && (1 <? x)) eqn:E9;
        [unfold DYN_ENC_MAX_VARINT_LEN in E9; lia|].
      rewrite Z.shiftl_mul_pow2 by lia. rewrite u64_small by nia. cbn [length].
      f_equal. rewrite Z.lor_comm, (lor_low (7 * k)); [lia|lia|done|apply Z_mod_mult].
Qed.

Lemma uvarint_roundtrip x rest :
  0 <= x < 2 ^ 64 ->
  exists out, dyn_enc_put_uvarint x = Some out /\ (1 <= length out <= 10)%nat /\ Forall byte_ok out /\
    dyn_enc_uvarint (out ++ rest) = (Z.of_nat (length out), x).
Proof.
  intros Hx. destruct (uvarint_put 9 x 0 0 rest) as (out & E & Hl & Hb & Hu); [lia|lia|lia|lia|lia|].
  exists out. split; [done|]. split; [|split; [done|]].
  - split; [|done]. destruct out; [|simpl; lia]. rewrite put_loop_step in E.
    destruct (128 <=? x); [|done]. by destruct (put_loop 9 _).
  - unfold dyn_enc_uvarint. change (7 * 0) with 0 in Hu. rewrite Hu. f_equal; lia.
Qed.

(** Zigzag maps [x] to [2x] or [-2x - 1]. *)
Lemma put_varint_zigzag x :
  - 2 ^ 63 <= x < 2 ^ 63 ->
  dyn_enc_put_varint x = dyn_enc_put_uvarint (if x <? 0 then - 2 * x - 1 else 2 * x).
Proof.
  intros Hx. unfold dyn_enc_put_varint. f_equal. rewrite Z.shiftl_mul_pow2 by lia. unfold u64.
  rewrite Zmult_mod_idemp_l. destruct (Z.ltb_spec x 0).
  - unfold Z.lnot, Z.pred. replace ((x * 2 ^ 1) mod 2 ^ 64) with (2 * x + 2 ^ 64)
      by (apply (Zmod_unique _ _ (-1)); lia).
    symmetry. apply (Zmod_unique _ _ (-1)); lia.
  - rewrite Z.mod_small; lia.
Qed.

Lemma unzigzag ux (x : Z) :
  - 2 ^ 63 <= x < 2 ^ 63 -> ux = (if x <? 0 then - 2 * x - 1 else 2 * x) ->
  (if Z.land ux 1 =? 1 then Z.lnot (sint 64 (Z.shiftr ux 1)) else sint 64 (Z.shiftr ux 1)) = x.
Proof.
  intros Hx ->. rewrite land_1, !Z.shiftr_div_pow2 by lia. change (2 ^ 1) with 2.
  destruct (Z.ltb_spec x 0).
  - replace ((- 2 * x - 1) mod 2) with 1 by div_lia. replace ((- 2 * x - 1) / 2) with (- x - 1) by div_lia.
    change (1 =? 1) with true. cbv iota. unfold sint. change (64 - 1) with 63. rewrite Z.mod_small by lia.
    destruct (Z.ltb_spec (- x - 1) (2 ^ 63)); [|lia]. unfold Z.lnot. lia.
  - replace ((2 * x) mod 2) with 0 by div_lia. replace (2 * x / 2) with x by div_lia.
    change (0 =? 1) with false. cbv iota. unfold sint. change (64 - 1) with 63. rewrite Z.mod_small by lia.
    destruct (Z.ltb_spec x (2 ^ 63)); lia.
Qed.

Lemma varint_roundtrip x rest :
  - 2 ^ 63 <= x < 2 ^ 63 ->
  exists out, dyn_enc_put_varint x = Some out /\ (1 <= length out <= 10)%nat /\ Forall byte_ok out /\
    dyn_enc_varint (out ++ rest) = (Z.of_nat (length out), x).
Proof.
  intros Hx. rewrite put_varint_zigzag by done. set (ux := if x <? 0 then _ else _).
  assert (Hux : 0 <= ux < 2 ^ 64) by (subst ux; destruct (Z.ltb_spec x 0); lia).
  destruct (uvarint_roundtrip ux rest Hux) as (out & E & Hl & Hb & Hu).
  exists out. split; [done|]. split; [done|]. split; [done|]. unfold dyn_enc_varint. rewrite Hu.
  destruct (Z.leb_spec (Z.of_nat (length out)) 0); [lia|]. f_equal. by apply unzigzag.
Qed.
End varint.

(** ** Base85 *)
Section base85.
Import Base85.

(** A digit character is neither a space nor ['z']. *)
Lemma decode_digit v nb out d :
  0 <= d < 85 ->
  decode_char (Acc v nb out) (bang + d) =
  let v' := u32 (v * 85 + d) in
  if nb + 1 =? 5 then
    Some (Acc 0 0 (out ++ [u8 (Z.shiftr v' 24); u8 (Z.shiftr v' 16); u8 (Z.shiftr v' 8); u8 v']))
  else Some (Acc v' (nb + 1) out).
Proof.
  intros Hd. unfold decode_char, dyn_enc_is_ascii85_space.
  change (chr "z") with 122. change (chr "u") with 117. change bang with 33. cbn [Base85.v Base85.nb Base85.out].
  replace ((33 + d =? 32) || (33 + d =? 9) || (33 + d =? 10) || (33 + d =? 11) || (33 + d =? 12) || (33 + d =? 13))
    with false by lia.
  replace ((33 + d =? 122) && (nb =? 0)) with false by lia.
  replace ((33 + d <? 33) || (117 <? 33 + d)) with false by lia.
  replace (33 + d - 33) with d by lia. done.
Qed.

Lemma decode_loop_app s1 s2 a :
  decode_loop (s1 ++ s2) a = a' ← decode_loop s1 a; decode_loop s2 a'.
Proof.
  revert a. induction s1 as [|b s1 IH]; intros a; simpl; [done|].
  destruct (decode_char a b); simpl; [apply IH|done].
Qed.

(** The 32-bit value of a block of at most four bytes. *)
Definition word (c : list Z) : Z := at_ c 0 * 2 ^ 24 + at_ c 1 * 2 ^ 16 + at_ c 2 * 2 ^ 8 + at_ c 3.

Lemma word_bytes c : Forall byte_ok c ->
  byte_ok (at_ c 0) /\ byte_ok (at_ c 1) /\ byte_ok (at_ c 2) /\ byte_ok (at_ c 3).
Proof. intros H. repeat split; by apply at_byte. Qed.

Lemma block_word c : Forall byte_ok c -> (1 <= length c <= 4)%nat ->
  foldl (fun v '(j, b) => Z.lor v (u32 (Z.shiftl b (24 - 8 * j)))) 0
    (zip (seqZ 0 (Z.of_nat (length c))) c) = word c.
Proof.
  intros Hc Hl. pose proof (word_bytes c Hc) as (H0 & H1 & H2 & H3). unfold word, byte_ok in *.
  assert (Hz : forall b k, 0 <= k -> 0 <= b * 2 ^ k < 2 ^ 32 -> u32 (Z.shiftl b k) = b * 2 ^ k).
  { intros b k Hk Hb. rewrite Z.shiftl_mul_pow2 by done. by apply u32_small. }
  destruct c as [|b0 [|b1 [|b2 [|b3 [|? ?]]]]]; simpl in Hl; try lia; unfold at_ in *;
    simpl in H0, H1, H2, H3; simpl (default 0 _);
    match goal with |- context [seqZ 0 (Z.of_nat ?n)] =>
      let l := eval vm_compute in (seqZ 0 (Z.of_nat n)) in change (seqZ 0 (Z.of_nat n)) with l end;
    cbn [zip zip_with foldl];
    change (24 - 8 * 0) with 24; change (24 - 8 * 1) with 16; change (24 - 8 * 2) with 8;
    change (24 - 8 * 3) with 0; rewrite ?Z.lor_0_l; rewrite ?Hz by lia;
    [|join 24|join 24; join 16|join 24; join 16; join 8]; lia.
Qed.

(** Horner's rule backwards: [w] is made of [w / 85] and a digit. *)
Lemma horner85 v : 0 <= v < 2 ^ 32 -> u32 (v / 85 * 85 + v mod 85) = v /\ 0 <= v / 85 < 2 ^ 32.
Proof. intros Hv. split; [rewrite u32_small; div_lia|div_lia]. Qed.

(** Reading the digits of [v] one by one. *)
Lemma digit_step v nb out :
  0 <= v < 2 ^ 32 -> nb + 1 <> 5 ->
  decode_char (Acc (v / 85) nb out) (bang + v mod 85) = Some (Acc v (nb + 1) out).
Proof.
  intros Hv Hn. rewrite decode_digit by (apply Z.mod_pos_bound; lia).
  destruct (horner85 v Hv) as [-> _]. apply Z.eqb_neq in Hn. by rewrite Hn.
Qed.

Lemma digit_last v out :
  0 <= v < 2 ^ 32 ->
  decode_char (Acc (v / 85) 4 out) (bang + v mod 85) =
  Some (Acc 0 0 (out ++ [u8 (Z.shiftr v 24); u8 (Z.shiftr v 16); u8 (Z.shiftr v 8); u8 v])).
Proof.
  intros Hv. rewrite decode_digit by (apply Z.mod_pos_bound; lia).
  by destruct (horner85 v Hv) as [-> _].
Qed.

Lemma digits_loop v out :
  0 <= v < 2 ^ 32 ->
  let c4 := bang + v / 85 / 85 / 85 / 85 mod 85 in
  let c3 := bang + v / 85 / 85 / 85 mod 85 in
  let c2 := bang + v / 85 / 85 mod 85 in
  let c1 := bang + v / 85 mod 85 in
  let c0 := bang + v mod 85 in
  let a := Acc 0 0 out in
  decode_loop [c4; c3] a = Some (Acc (v / 85 / 85 / 85) 2 out) /\
  decode_loop [c4; c3; c2] a = Some (Acc (v / 85 / 85) 3 out) /\
  decode_loop [c4; c3; c2; c1] a = Some (Acc (v / 85) 4 out) /\
  decode_loop [c4; c3; c2; c1; c0] a =
    Some (Acc 0 0 (out ++ [u8 (Z.shiftr v 24); u8 (Z.shiftr v 16); u8 (Z.shiftr v 8); u8 v])).
Proof.
  intros Hv c4 c3 c2 c1 c0 a.
  pose proof (horner85 v Hv) as [_ H1]. pose proof (horner85 _ H1) as [_ H2].
  pose proof (horner85 _ H2) as [_ H3]. pose proof (horner85 _ H3) as [_ H4].
  assert (Hq4 : v / 85 / 85 / 85 / 85 / 85 = 0).
  { rewrite !Z.div_div by lia. apply Z.div_small. lia. }
  assert (E4 : decode_char a c4 = Some (Acc (v / 85 / 85 / 85 / 85) 1 out)).
  { unfold a. rewrite <- Hq4 at 1. by apply digit_step. }
  cbn [decode_loop]. rewrite E4. cbn [mbind option_bind].
  unfold c3 at 1 2 3 4. rewrite digit_step by done. cbn [mbind option_bind Z.add Pos.add Pos.succ].
  split; [done|]. unfold c2 at 1 2 3. rewrite digit_step by done. cbn [mbind option_bind].
  split; [done|]. unfold c1 at 1 2. rewrite digit_step by done. cbn [mbind option_bind].
  split; [done|]. change (2 + 1 + 1) with 4. unfold c0. by rewrite digit_last.
Qed.

Lemma word_range c : Forall byte_ok c -> 0 <= word c < 2 ^ 32.
Proof. intros H. pose proof (word_bytes c H). unfold word, byte_ok in *. lia. Qed.

Lemma word_split c : Forall byte_ok c ->
  [u8 (Z.shiftr (word c) 24); u8 (Z.shiftr (word c) 16); u8 (Z.shiftr (word c) 8); u8 (word c)] =
  [at_ c 0; at_ c 1; at_ c 2; at_ c 3].
Proof.
  intros H. pose proof (word_bytes c H) as (H0 & H1 & H2 & H3). unfold word, byte_ok, u8 in *.
  rewrite !Z.shiftr_div_pow2 by lia. repeat (apply f_equal2; [div_lia|]). done.
Qed.

Lemma full_block c out :
  Forall byte_ok c -> length c = 4%nat ->
  decode_loop (encode_block c) (Acc 0 0 out) = Some (Acc 0 0 (out ++ c)).
Proof.
  intros Hc Hl. unfold encode_block. rewrite block_word by (done || lia). rewrite Hl.
  assert (Hat : c = [at_ c 0; at_ c 1; at_ c 2; at_ c 3])
    by (by destruct c as [|? [|? [|? [|? [|? ?]]]]]).
  destruct (Z.eqb_spec (word c) 0) as [E0|Hn]; cbn [Nat.eqb andb].
  - assert (c = [0; 0; 0; 0]) as ->.
    { pose proof (word_bytes c Hc). rewrite Hat. unfold word, byte_ok in *. repeat f_equal; lia. }
    done.
  - change (if (4 <? 4)%nat then (4 + 1)%nat else 5%nat) with 5%nat.
    destruct (digits_loop (word c) out (word_range c Hc)) as (_ & _ & _ & E).
    rewrite word_split, <- Hat in E by done. exact E.
Qed.

(** Drop an innermost wrap-around whose argument is in range. *)
Local Ltac u32_inner :=
  match goal with
  | |- context [u32 ?x] =>
      lazymatch x with context [u32 _] => fail | _ => idtac end;
      rewrite (u32_small x) by div_lia
  end.

Lemma last_block c out :
  Forall byte_ok c -> (1 <= length c <= 3)%nat ->
  exists a, decode_loop (encode_block c) (Acc 0 0 out) = Some a /\ Base85.out a = out /\
    Base85.nb a = Z.of_nat (length c) + 1 /\
    (fun k => u8 (Z.shiftr (foldl (fun v _ => u32 (v * 85 + 84)) (Base85.v a)
       (seqZ (Base85.nb a) (5 - Base85.nb a))) (24 - 8 * k))) <$> seqZ 0 (Base85.nb a - 1) = c.
Proof.
  intros Hc Hl. unfold encode_block. rewrite block_word by (done || lia).
  pose proof (word_range c Hc) as Hw. destruct (digits_loop (word c) out Hw) as (E2 & E3 & E4 & _).
  pose proof (word_bytes c Hc) as (H0 & H1 & H2 & H3). unfold byte_ok in *.
  destruct c as [|b0 [|b1 [|b2 [|? ?]]]]; simpl in Hl; try lia.
  all: cbn [length Nat.eqb andb Nat.ltb Nat.leb Nat.add take].
  - eexists. split; [exact E2|]. split; [done|]. split; [done|].
    cbn [Base85.v Base85.nb]. change (seqZ 2 (5 - 2)) with [2; 3; 4]. change (seqZ 0 (2 - 1)) with [0].
    cbn [foldl fmap list_fmap]. unfold word, at_, u8 in *; simpl (default 0 _) in *.
    rewrite !Z.shiftr_div_pow2 by lia. change (24 - 8 * 0) with 24.
    rewrite !Z.div_div by lia. change (85 * (85 * 85)) with 614125.
    repeat u32_inner. f_equal. div_lia.
  - eexists. split; [exact E3|]. split; [done|]. split; [done|].
    cbn [Base85.v Base85.nb]. change (seqZ 3 (5 - 3)) with [3; 4]. change (seqZ 0 (3 - 1)) with [0; 1].
    cbn [foldl fmap list_fmap]. unfold word, at_, u8 in *; simpl (default 0 _) in *.
    rewrite !Z.shiftr_div_pow2 by lia. change (24 - 8 * 0) with 24. change (24 - 8 * 1) with 16.
    rewrite !Z.div_div by lia. change (85 * 85) with 7225.
    repeat u32_inner. repeat (apply f_equal2; [div_lia|]). done.
  - eexists. split; [exact E4|]. split; [done|]. split; [done|].
    cbn [Base85.v Base85.nb]. change (seqZ 4 (5 - 4)) with [4]. change (seqZ 0 (4 - 1)) with [0; 1; 2].
    cbn [foldl fmap list_fmap]. unfold word, at_, u8 in *; simpl (default 0 _) in *.
    rewrite !Z.shiftr_div_pow2 by lia.
    change (24 - 8 * 0) with 24. change (24 - 8 * 1) with 16. change (24 - 8 * 2) with 8.
    repeat u32_inner. repeat (apply f_equal2; [div_lia|]). done.
Qed.

Lemma b85_blocks data : forall out,
  Forall byte_ok data ->
  exists a, decode_loop (dyn_enc_b85_encode data) (Acc 0 0 out) = Some a /\
    (if 1 <? Base85.nb a then
       Base85.out a ++ ((fun k => u8 (Z.shiftr (foldl (fun v _ => u32 (v * 85 + 84)) (Base85.v a)
         (seqZ (Base85.nb a) (5 - Base85.nb a))) (24 - 8 * k))) <$> seqZ 0 (Base85.nb a - 1))
     else Base85.out a) = out ++ data /\ Base85.nb a <> 1.
Proof.
  revert data. refine (blocks_ind 4 (fun data => forall out, Forall byte_ok data -> ex _) _ _ _ _);
    [lia|intros out _|intros l Hl Hlt out Hd|intros b l Hb IH out Hd].
  - eexists. split; [done|]. simpl. by rewrite app_nil_r.
  - destruct (last_block l out Hd) as (a & E & Ho & Hn & Hk).
    { destruct l; simpl in *; [done|lia]. }
    exists a. unfold dyn_enc_b85_encode. rewrite (chunks_short 4 l) by (done || lia).
    cbn [fmap list_fmap concat]. rewrite app_nil_r. split; [done|].
    assert (1 <= length l)%nat by (destruct l; simpl in *; [done|lia]).
    destruct (Z.ltb_spec 1 (Base85.nb a)); [|lia]. split; [by rewrite Hk, Ho|lia].
  - apply Forall_app in Hd as [Hdb Hdl]. destruct (IH (out ++ b) Hdl) as (a & E & Ha & Hn).
    exists a. unfold dyn_enc_b85_encode in *. rewrite chunks_app by (done || lia).
    cbn [fmap list_fmap concat]. rewrite decode_loop_app, full_block by done.
    cbn [mbind option_bind]. split; [done|]. by rewrite Ha, app_assoc.
Qed.

Lemma b85_roundtrip data :
  Forall byte_ok data -> dyn_enc_b85_decode (dyn_enc_b85_encode data) = Some data.
Proof.
  intros Hd. destruct (b85_blocks data [] Hd) as (a & E & Ha & Hn). unfold dyn_enc_b85_decode.
  rewrite E. cbn [mbind option_bind]. apply Z.eqb_neq in Hn. rewrite Hn. simpl in Ha.
  by destruct (1 <? Base85.nb a); rewrite Ha.
Qed.

(** White space is skipped wherever it stands. *)
Definition no_space (c : Z) : bool := negb (dyn_enc_is_ascii85_space c).

Lemma decode_loop_spaces str a :
  decode_loop str a = decode_loop (filter (fun c => no_space c = true) str) a.
Proof.
  revert a. induction str as [|b str IH]; intros a; [done|].
  destruct (no_space b) eqn:Eb.
  - rewrite filter_cons_True by done. simpl. destruct (decode_char a b); simpl; [apply IH|done].
  - rewrite filter_cons_False by congruence. simpl. unfold decode_char, no_space in *.
    apply negb_false_iff in Eb. rewrite Eb. simpl. apply IH.
Qed.

Lemma b85_decode_spaces str :
  dyn_enc_b85_decode str = dyn_enc_b85_decode (filter (fun c => no_space c = true) str).
Proof. unfold dyn_enc_b85_decode. by rewrite decode_loop_spaces. Qed.

Lemma b85_encode_bound data :
  Z.of_nat (length (dyn_enc_b85_encode data)) <= (Z.of_nat (length data) + 3) / 4 * 5.
Proof.
  assert (Hblk : forall c, (length (encode_block c) <= 5)%nat).
  { intros c. unfold encode_block. destruct (_ && _); [simpl; lia|]. rewrite length_take. simpl. lia. }
  revert data. apply (blocks_ind 4 (fun data =>
    Z.of_nat (length (dyn_enc_b85_encode data)) <= (Z.of_nat (length data) + 3) / 4 * 5)); [lia|done|..].
  - intros l Hl Hlt. unfold dyn_enc_b85_encode. rewrite chunks_short by (done || lia). simpl.
    rewrite app_nil_r. pose proof (Hblk l). assert (1 <= length l)%nat by (destruct l; simpl in *; [done|lia]).
    assert ((Z.of_nat (length l) + 3) / 4 = 1) by div_lia. lia.
  - intros b l Hb IH. unfold dyn_enc_b85_encode in *. rewrite chunks_app by (done || lia).
    rewrite fmap_cons. cbn [concat]. rewrite !length_app, Hb. pose proof (Hblk b).
    replace (Z.of_nat (4 + length l) + 3) with (Z.of_nat (length l) + 3 + 1 * 4) by lia.
    rewrite Z.div_add by lia. lia.
Qed.
End base85.

(** ** Properties *)

(** [C18] Text encodings round-trip.  For every byte string, decoding what
    [hexEncode], [base64Encode], [base64UrlEncode], [base32Encode],
    [base32HexEncode] or [base85Encode] produces gives the byte string back;
    for base85 this holds after any white space is inserted in the text. *)
Theorem text_encodings_roundtrip (data : list Z) :
  Forall byte_ok data ->
  (exists s, Hex.dyn_enc_hex_encode true data = Ret s /\ Hex.dyn_enc_hex_decode true s = Ret data) /\
  (exists s, Base64.dyn_enc_base64_encode true data = Ret s /\
     Base64.dyn_enc_base64_decode true s = Ret data) /\
  (exists s, Base64.dyn_enc_base64url_encode true data = Ret s /\
     Base64.dyn_enc_base64url_decode true true s = Ret data) /\
  (forall m, exists s, Base32.dyn_enc_base32_encode true m data = Ret s /\
     Base32.dyn_enc_base32_decode true m s = Ret data) /\
  (exists s, Base85.dyn_enc_base85_encode true data = Ret s /\
     forall t, filter (fun c => no_space c = true) t = filter (fun c => no_space c = true) s ->
               Base85.dyn_enc_base85_decode true t = Ret data).
Proof.
  intros Hd. split; [|split; [|split; [|split]]].
  - eexists. split; [done|]. unfold Hex.dyn_enc_hex_decode. rewrite hex_encode_length, even_land. simpl.
    by rewrite hex_roundtrip.
  - eexists. split; [done|]. unfold Base64.dyn_enc_base64_decode. simpl. by rewrite base64_roundtrip.
  - eexists. split; [done|]. apply (base64url_roundtrip true true data Hd).
  - intros m. eexists. split; [done|]. unfold Base32.dyn_enc_base32_decode. simpl.
    by rewrite base32_roundtrip.
  - eexists. split; [done|]. intros t Ht. unfold Base85.dyn_enc_base85_decode. simpl.
    by rewrite b85_decode_spaces, Ht, <- b85_decode_spaces, b85_roundtrip.
Qed.

Lemma text_encodings_roundtrip_witness :
  Base85.dyn_enc_base85_encode true [102; 111; 111] = Ret (bytes_of "AoDS") /\
  (exists s, Base64.dyn_enc_base64_encode true [102; 111; 111] = Ret s /\
     Base64.dyn_enc_base64_decode true s = Ret [102; 111; 111]).
Proof.
  split; [vm_compute; reflexivity|].
  apply (text_encodings_roundtrip [102; 111; 111]). repeat constructor; lia.
Defined.

(** Varints round-trip.  [putUvarint] accepts every BigInt, modulo
    2^64, and every non-negative safe integer, [putVarint] every BigInt,
    modulo 2^64 in two's complement, and every safe integer; both give 1 to
    10 bytes, and reading them back, whatever follows them in the buffer,
    gives the number of bytes and the value, as a Number exactly when it is a
    safe integer. *)
Theorem varint_handlers_roundtrip (n : Z) (rest : list Z) :
  (exists out, Varint.dyn_enc_put_uvarint_js (Varint.BigInt n) = Ret out /\ (1 <= length out <= 10)%nat /\
     Varint.dyn_enc_uvarint_js (out ++ rest) =
       (Varint.dyn_enc_u64_to_js (u64 n), Z.of_nat (length out))) /\
  (exists out, Varint.dyn_enc_put_varint_js (Varint.BigInt n) = Ret out /\ (1 <= length out <= 10)%nat /\
     Varint.dyn_enc_varint_js (out ++ rest) =
       (Varint.dyn_enc_i64_to_js (sint 64 n), Z.of_nat (length out))) /\
  (if (0 <=? n) && (n <=? Varint.DYN_ENC_MAX_SAFE_INT) then
     exists out, Varint.dyn_enc_put_uvarint_js (Varint.Number (Some n)) = Ret out /\
       Varint.dyn_enc_uvarint_js (out ++ rest) = (Varint.Number (Some n), Z.of_nat (length out))
   else Varint.dyn_enc_put_uvarint_js (Varint.Number (Some n)) = Throw RangeError) /\
  (if (- Varint.DYN_ENC_MAX_SAFE_INT <=? n) && (n <=? Varint.DYN_ENC_MAX_SAFE_INT) then
     exists out, Varint.dyn_enc_put_varint_js (Varint.Number (Some n)) = Ret out /\
       Varint.dyn_enc_varint_js (out ++ rest) = (Varint.Number (Some n), Z.of_nat (length out))
   else Varint.dyn_enc_put_varint_js (Varint.Number (Some n)) = Throw RangeError).
Proof.
  assert (Hs : - 2 ^ 63 <= sint 64 n < 2 ^ 63) by apply sint64_range.
  unfold Varint.dyn_enc_put_uvarint_js, Varint.dyn_enc_put_varint_js, Varint.dyn_enc_uvarint_js,
    Varint.dyn_enc_varint_js. cbn [Varint.dyn_enc_to_u64 Varint.dyn_enc_to_i64].
  split; [|split; [|split]].
  - destruct (uvarint_roundtrip (u64 n) rest (u64_range n)) as (out & E & Hl & _ & Hu).
    exists out. rewrite E, Hu. split; [done|]. split; [done|].
    by destruct (Z.ltb_spec 0 (Z.of_nat (length out))); [|lia].
  - destruct (varint_roundtrip (sint 64 n) rest Hs) as (out & E & Hl & _ & Hu).
    exists out. rewrite E, Hu. split; [done|]. split; [done|].
    by destruct (Z.ltb_spec 0 (Z.of_nat (length out))); [|lia].
  - destruct ((0 <=? n) && _) eqn:En; [|done]. unfold Varint.DYN_ENC_MAX_SAFE_INT in En.
    destruct (uvarint_roundtrip n rest) as (out & E & Hl & _ & Hu); [lia|].
    exists out. rewrite E, Hu. split; [done|].
    destruct (Z.ltb_spec 0 (Z.of_nat (length out))); [|lia]. unfold Varint.dyn_enc_u64_to_js.
    unfold Varint.DYN_ENC_MAX_SAFE_INT. by destruct (Z.leb_spec n (2 ^ 53 - 1)); [|lia].
  - destruct ((_ <=? n) && _) eqn:En; [|done]. unfold Varint.dyn_enc_i64_to_js.
    pose proof En as En'. unfold Varint.DYN_ENC_MAX_SAFE_INT in En'.
    destruct (varint_roundtrip n rest) as (out & E & Hl & _ & Hu); [lia|].
    exists out. rewrite E, Hu, En. split; [done|].
    by destruct (Z.ltb_spec 0 (Z.of_nat (length out))); [|lia].
Qed.
