(* ===== verification/EncodingMem.v ===== *)
(** * dyna:encoding in memory (src/dyna-encoding.c, src/dyna-simd-scalar.c)

    The handlers of [Encoding] as they use memory: the size of each buffer is
    computed in [size_t], the block comes from [malloc], the kernels store
    through [out[o++]] as they go, also before they find that the input is
    malformed, and the result is copied out of the block.  A store or a read
    outside the block is a [Fault].  The computation of one block (the
    characters of five bytes, the bytes of four characters, ...) is that of
    [Encoding].  The theorem is that these handlers behave as the handlers of
    [Encoding] do. *)
From S2P Require Import Prelude Native Encoding EncodingProps.

(** ** Blocks of memory *)

(** A block: its bytes. *)
Notation mem := (list Z) (only parsing).

(** [malloc(size)]: [None] when it is refused; the bytes are unspecified. *)
Definition malloc (alloc : bool) (junk : Z) (size : Z) : option mem :=
  if alloc then Some (replicate (Z.to_nat size) junk) else None.

(** [out[o++] = b] *)
Definition store (b : Z) (m : mem) (o : Z) : option (mem * Z) :=
  if o <? Z.of_nat (length m) then Some (<[Z.to_nat o := b]> m, o + 1) else None.

Fixpoint stores (bs : list Z) (m : mem) (o : Z) : option (mem * Z) :=
  match bs with
  | [] => Some (m, o)
  | b :: bs => '(m, o) ← store b m o; stores bs m o
  end.

(** The [len] bytes at the start of the block, copied into the result. *)
Definition copy_out (m : mem) (len : Z) : outcome (list Z) :=
  if len <=? Z.of_nat (length m) then Ret (take (Z.to_nat len) m) else Throw Fault.

(** How a kernel ends: with [o] bytes written, with [SIZE_MAX], or by a
    store outside the block. *)
Inductive kernel_end : Type := Written (m : mem) (o : Z) | SizeMax (m : mem) | OutOfBlock.

Definition then_store (bs : list Z) (m : mem) (o : Z) (k : mem -> Z -> kernel_end) : kernel_end :=
  match stores bs m o with Some (m, o) => k m o | None => OutOfBlock end.

(** The end of a decoding handler. *)
Definition decoded_result (e : kernel_end) : outcome (list Z) :=
  match e with
  | Written m o => copy_out m o
  | SizeMax _ => Throw SyntaxError
  | OutOfBlock => Throw Fault
  end.

(** The end of an encoding handler. *)
Definition encoded_result (e : kernel_end) : outcome (list Z) :=
  match e with Written m o => copy_out m o | _ => Throw Fault end.

(** [cap ? cap : 1] *)
Definition at_least_1 (cap : Z) : Z := if cap =? 0 then 1 else cap.

Definition size_of (s : list Z) : Z := Z.of_nat (length s).

Section handlers.
(** The outcome of each allocation and the bytes found in a new block. *)
Context (alloc alloc2 : bool) (junk : Z).

(** ** Hex *)

Fixpoint simd_scalar_hex_encode (src : list Z) (m : mem) (o : Z) : kernel_end :=
  match src with
  | [] => Written m o
  | b :: src =>
      then_store [at_ Hex.simd_hex_lut (Z.shiftr b 4); at_ Hex.simd_hex_lut (Z.land b 15)] m o
        (simd_scalar_hex_encode src)
  end.

Fixpoint hex_decode_loop (src : list Z) (m : mem) (o : Z) : kernel_end :=
  match src with
  | c0 :: c1 :: rest =>
      let hi := Hex.simd_hex_val c0 in
      let lo := Hex.simd_hex_val c1 in
      if (hi <? 0) || (lo <? 0) then SizeMax m
      else then_store [u8 (Z.lor (Z.shiftl hi 4) lo)] m o (hex_decode_loop rest)
  | _ => Written m o
  end.

Definition simd_scalar_hex_decode (src : list Z) (m : mem) : kernel_end :=
  if Z.land (size_of src) 1 =? 1 then SizeMax m else hex_decode_loop src m 0.

Definition dyn_enc_hex_encode (data : list Z) : outcome (list Z) :=
  let n := size_of data in
  match malloc alloc junk (if n =? 0 then 1 else u64 (n * 2)) with
  | None => Throw OutOfMemory
  | Some out =>
      match simd_scalar_hex_encode data out 0 with
      | Written out _ => copy_out out (u64 (n * 2))
      | _ => Throw Fault
      end
  end.

Definition dyn_enc_hex_decode (str : list Z) : outcome (list Z) :=
  let slen := size_of str in
  if Z.land slen 1 =? 1 then Throw SyntaxError else
  let outlen := slen / 2 in
  match malloc alloc junk (at_least_1 outlen) with
  | None => Throw OutOfMemory
  | Some out => decoded_result (simd_scalar_hex_decode str out)
  end.

(** ** Base64 *)

Fixpoint simd_scalar_base64_encode (src : list Z) (m : mem) (o : Z) : kernel_end :=
  match src with
  | a :: b :: c :: rest =>
      let x := Z.lor (Z.lor (Z.shiftl a 16) (Z.shiftl b 8)) c in
      then_store [Base64.E (Z.land (Z.shiftr x 18) 63); Base64.E (Z.land (Z.shiftr x 12) 63);
                  Base64.E (Z.land (Z.shiftr x 6) 63); Base64.E (Z.land x 63)] m o
        (simd_scalar_base64_encode rest)
  | [a] =>
      let x := Z.shiftl a 16 in
      then_store [Base64.E (Z.land (Z.shiftr x 18) 63); Base64.E (Z.land (Z.shiftr x 12) 63);
                  Base64.pad; Base64.pad] m o Written
  | [a; b] =>
      let x := Z.lor (Z.shiftl a 16) (Z.shiftl b 8) in
      then_store [Base64.E (Z.land (Z.shiftr x 18) 63); Base64.E (Z.land (Z.shiftr x 12) 63);
                  Base64.E (Z.land (Z.shiftr x 6) 63); Base64.pad] m o Written
  | [] => Written m o
  end.

Fixpoint base64_decode_loop (src : list Z) (m : mem) (o : Z) : kernel_end :=
  match src with
  | c0 :: c1 :: c2 :: c3 :: rest =>
      match Base64.decode_group (match rest with [] => true | _ => false end) c0 c1 c2 c3 with
      | None => SizeMax m
      | Some out => then_store out m o (base64_decode_loop rest)
      end
  | _ => Written m o
  end.

Definition simd_scalar_base64_decode (src : list Z) (m : mem) : kernel_end :=
  if negb (size_of src mod 4 =? 0) then SizeMax m
  else if size_of src =? 0 then Written m 0
  else base64_decode_loop src m 0.

Definition base64_cap (n : Z) : Z := u64 (4 * (u64 (n + 2) / 3)).

Definition dyn_enc_base64_encode (data : list Z) : outcome (list Z) :=
  match malloc alloc junk (at_least_1 (base64_cap (size_of data))) with
  | None => Throw OutOfMemory
  | Some out => encoded_result (simd_scalar_base64_encode data out 0)
  end.

Definition dyn_enc_base64_decode (str : list Z) : outcome (list Z) :=
  let cap := u64 (3 * (size_of str / 4)) in
  match malloc alloc junk (at_least_1 cap) with
  | None => Throw OutOfMemory
  | Some out => decoded_result (simd_scalar_base64_decode str out)
  end.

(** The loop of [base64UrlEncode], in place: [todo] is [written - i]. *)
Fixpoint url_strip_loop (todo : nat) (i o : Z) (m : mem) : kernel_end :=
  match todo with
  | O => Written m o
  | S todo =>
      match m !! Z.to_nat i with
      | None => OutOfBlock
      | Some c =>
          if c =? Base64.pad then Written m o
          else then_store [if c =? chr "+" then chr "-" else if c =? chr "/" then chr "_" else c] m o
                 (fun m o => url_strip_loop todo (i + 1) o m)
      end
  end.

Definition dyn_enc_base64url_encode (data : list Z) : outcome (list Z) :=
  match malloc alloc junk (at_least_1 (base64_cap (size_of data))) with
  | None => Throw OutOfMemory
  | Some out =>
      match simd_scalar_base64_encode data out 0 with
      | Written out written => encoded_result (url_strip_loop (Z.to_nat written) 0 0 out)
      | _ => Throw Fault
      end
  end.

(** The loop of [base64UrlDecode] into [buf]. *)
Fixpoint url_unstrip_loop (str : list Z) (buf : mem) (i : Z) : kernel_end :=
  match str with
  | [] => Written buf i
  | c :: str =>
      if c =? chr "-" then then_store [chr "+"] buf i (url_unstrip_loop str)
      else if c =? chr "_" then then_store [chr "/"] buf i (url_unstrip_loop str)
      else if (c =? chr "+") || (c =? chr "/") then SizeMax buf
      else then_store [c] buf i (url_unstrip_loop str)
  end.

Definition dyn_enc_base64url_decode (str : list Z) : outcome (list Z) :=
  let slen := size_of str in
  let rem := slen mod 4 in
  if rem =? 1 then Throw SyntaxError else
  let padlen := if rem =? 0 then 0 else 4 - rem in
  let buflen := u64 (slen + padlen) in
  match malloc alloc junk (at_least_1 buflen) with
  | None => Throw OutOfMemory
  | Some buf =>
      match url_unstrip_loop str buf 0 with
      | SizeMax _ => Throw SyntaxError
      | OutOfBlock => Throw Fault
      | Written buf i =>
          match stores (replicate (Z.to_nat padlen) Base64.pad) buf i with
          | None => Throw Fault
          | Some (buf, _) =>
              let cap := u64 (3 * (buflen / 4)) in
              match malloc alloc2 junk (at_least_1 cap) with
              | None => Throw OutOfMemory
              | Some out =>
                  match copy_out buf buflen with
                  | Throw e => Throw e
                  | Ret src => decoded_result (simd_scalar_base64_decode src out)
                  end
              end
          end
      end
  end.

(** ** Base32 *)

Fixpoint b32_encode_loop (alpha : list Z) (blocks : list (list Z)) (m : mem) (o : Z) : kernel_end :=
  match blocks with
  | [] => Written m o
  | b :: blocks => then_store (Base32.encode_block alpha b) m o (b32_encode_loop alpha blocks)
  end.

Definition dyn_enc_b32_encode (alpha data : list Z) (m : mem) : kernel_end :=
  b32_encode_loop alpha (chunks 5 data) m 0.

Fixpoint b32_decode_loop (rev : list Z) (blocks : list (list Z)) (m : mem) (o : Z) : kernel_end :=
  match blocks with
  | [] => Written m o
  | b :: blocks =>
      match Base32.decode_block rev (match blocks with [] => true | _ => false end) b with
      | None => SizeMax m
      | Some out => then_store out m o (b32_decode_loop rev blocks)
      end
  end.

Definition dyn_enc_b32_decode (alpha str : list Z) (m : mem) : kernel_end :=
  if negb (size_of str mod 8 =? 0) then SizeMax m
  else b32_decode_loop (build_rev alpha) (chunks 8 str) m 0.

Definition dyn_enc_base32_encode (magic : Base32.magic) (data : list Z) : outcome (list Z) :=
  let cap := u64 (u64 (size_of data + 4) / 5 * 8) in
  match malloc alloc junk (at_least_1 cap) with
  | None => Throw OutOfMemory
  | Some out => encoded_result (dyn_enc_b32_encode (Base32.dyn_b32_alpha magic) data out)
  end.

Definition dyn_enc_base32_decode (magic : Base32.magic) (str : list Z) : outcome (list Z) :=
  let cap := u64 (size_of str / 8 * 5) in
  match malloc alloc junk (at_least_1 cap) with
  | None => Throw OutOfMemory
  | Some out => decoded_result (dyn_enc_b32_decode (Base32.dyn_b32_alpha magic) str out)
  end.

(** ** Base85 *)

Fixpoint b85_encode_loop (blocks : list (list Z)) (m : mem) (o : Z) : kernel_end :=
  match blocks with
  | [] => Written m o
  | b :: blocks => then_store (Base85.encode_block b) m o (b85_encode_loop blocks)
  end.

Definition dyn_enc_b85_encode (data : list Z) (m : mem) : kernel_end :=
  b85_encode_loop (chunks 4 data) m 0.

(** What follows the loop of the decoder. *)
Definition b85_finish (v nb : Z) (m : mem) (o : Z) : kernel_end :=
  if nb =? 1 then SizeMax m
  else if 1 <? nb then
    let v := foldl (fun v _ => u32 (v * 85 + 84)) v (seqZ nb (5 - nb)) in
    then_store ((fun k => u8 (Z.shiftr v (24 - 8 * k))) <$> seqZ 0 (nb - 1)) m o Written
  else Written m o.

Fixpoint b85_decode_loop (str : list Z) (v nb : Z) (m : mem) (o : Z) : kernel_end :=
  match str with
  | [] => b85_finish v nb m o
  | b :: str =>
      if Base85.dyn_enc_is_ascii85_space b then b85_decode_loop str v nb m o
      else if (b =? chr "z") && (nb =? 0) then then_store [0; 0; 0; 0] m o (b85_decode_loop str v nb)
      else if (b <? Base85.bang) || (chr "u" <? b) then SizeMax m
      else
        let v := u32 (v * 85 + (b - Base85.bang)) in
        let nb := nb + 1 in
        if nb =? 5 then
          then_store [u8 (Z.shiftr v 24); u8 (Z.shiftr v 16); u8 (Z.shiftr v 8); u8 v] m o
            (b85_decode_loop str 0 0)
        else b85_decode_loop str v nb m o
  end.

Definition dyn_enc_b85_decode (str : list Z) (m : mem) : kernel_end := b85_decode_loop str 0 0 m 0.

Definition dyn_enc_base85_encode (data : list Z) : outcome (list Z) :=
  let cap := u64 (u64 (size_of data + 3) / 4 * 5) in
  match malloc alloc junk (at_least_1 cap) with
  | None => Throw OutOfMemory
  | Some out => encoded_result (dyn_enc_b85_encode data out)
  end.

Definition dyn_enc_base85_decode (str : list Z) : outcome (list Z) :=
  let cap := u64 (size_of str * 4) in
  match malloc alloc junk (at_least_1 cap) with
  | None => Throw OutOfMemory
  | Some out => decoded_result (dyn_enc_b85_decode str out)
  end.
End handlers.

(** ** Kernels against their reference *)

(** [m] with [out] written from [o]. *)
Definition written_at (m : mem) (o : Z) (out : list Z) : mem :=
  take (Z.to_nat o) m ++ out ++ drop (Z.to_nat o + length out) m.

Lemma written_at_length m o out :
  0 <= o -> o + size_of out <= size_of m -> length (written_at m o out) = length m.
Proof.
  unfold size_of. intros Ho Hl. unfold written_at. rewrite !length_app, length_take, length_drop. lia.
Qed.

Lemma written_at_nil m o : written_at m o [] = m.
Proof. unfold written_at. simpl. rewrite Nat.add_0_r. apply take_drop. Qed.

Lemma written_at_cons m o b out :
  0 <= o < size_of m ->
  written_at (<[Z.to_nat o := b]> m) (o + 1) out = written_at m o (b :: out).
Proof.
  unfold size_of. intros Ho. unfold written_at.
  replace (Z.to_nat (o + 1)) with (S (Z.to_nat o)) by lia.
  rewrite (take_S_r _ _ b) by (apply list_lookup_insert_eq; lia).
  rewrite take_insert_ge by lia. rewrite drop_insert_lt by lia.
  rewrite <- app_assoc. cbn [app length]. do 3 f_equal. f_equal. lia.
Qed.

Lemma stores_ok bs : forall m o,
  0 <= o -> o + size_of bs <= size_of m ->
  stores bs m o = Some (written_at m o bs, o + size_of bs).
Proof.
  unfold size_of. induction bs as [|b bs IH]; intros m o Ho Hl; cbn [stores].
  - rewrite written_at_nil. simpl. by rewrite Z.add_0_r.
  - cbn [length] in Hl. unfold store. destruct (Z.ltb_spec o (Z.of_nat (length m))); [|lia].
    cbn [mbind option_bind]. rewrite IH by (rewrite ?length_insert; lia).
    rewrite written_at_cons by (unfold size_of; lia). cbn [length]. do 2 f_equal. lia.
Qed.

Lemma written_at_app m o bs out :
  0 <= o -> o + size_of bs + size_of out <= size_of m ->
  written_at (written_at m o bs) (o + size_of bs) out = written_at m o (bs ++ out).
Proof.
  revert m o. unfold size_of. induction bs as [|b bs IH]; intros m o Ho Hl.
  - simpl. by rewrite written_at_nil, Z.add_0_r.
  - cbn [length] in *. rewrite <- (written_at_cons m o b bs), <- app_comm_cons by (unfold size_of; lia).
    rewrite <- (written_at_cons m o b (bs ++ out)) by (unfold size_of; lia).
    replace (o + Z.of_nat (S (length bs))) with (o + 1 + Z.of_nat (length bs)) by lia.
    rewrite IH by (rewrite ?length_insert; lia). done.
Qed.

(** In a block with [cap] free bytes a kernel gives what its reference does:
    the bytes of the reference from [o] on, or [SIZE_MAX]. *)
Definition agrees (d : option (list Z)) (k : mem -> Z -> kernel_end) (cap : Z) : Prop :=
  forall m o, 0 <= o -> o + cap <= size_of m ->
  match d with
  | Some out => size_of out <= cap /\ k m o = Written (written_at m o out) (o + size_of out)
  | None => exists m', k m o = SizeMax m'
  end.

Lemma agrees_done cap : 0 <= cap -> agrees (Some []) Written cap.
Proof. intros Hc m o Ho Hl. simpl. rewrite written_at_nil, Z.add_0_r. done. Qed.

Lemma agrees_bad cap : agrees None (fun m _ => SizeMax m) cap.
Proof. intros m o Ho Hl. eauto. Qed.

Lemma agrees_store bs d k cap cap' :
  agrees d k cap -> size_of bs + cap <= cap' -> 0 <= cap ->
  agrees (out ← d; Some (bs ++ out)) (fun m o => then_store bs m o k) cap'.
Proof.
  intros Hk Hc Hc0 m o Ho Hl. unfold then_store. rewrite stores_ok by lia.
  assert (Hlen : size_of (written_at m o bs) = size_of m)
    by (unfold size_of in *; rewrite written_at_length; unfold size_of; lia).
  specialize (Hk (written_at m o bs) (o + size_of bs)). unfold size_of in *.
  destruct d as [out|]; cbn [mbind option_bind].
  - destruct Hk as [Hs ->]; [lia|rewrite Hlen; lia|]. rewrite length_app. split; [lia|].
    rewrite <- written_at_app by (unfold size_of; lia). f_equal. unfold size_of. lia.
  - apply Hk; [lia|]. rewrite Hlen. lia.
Qed.

Lemma agrees_last bs cap : size_of bs <= cap -> agrees (Some bs) (fun m o => then_store bs m o Written) cap.
Proof.
  intros Hc. rewrite <- (app_nil_r bs) at 1.
  apply (agrees_store bs (Some []) Written 0); [by apply agrees_done|lia|lia].
Qed.

(** What a handler makes of it, starting at the beginning of the block. *)
Lemma copy_out_written m out : size_of out <= size_of m -> copy_out (written_at m 0 out) (size_of out) = Ret out.
Proof.
  intros Hl. unfold copy_out. rewrite written_at_length by lia. unfold size_of in *.
  destruct (Z.leb_spec (Z.of_nat (length out)) (Z.of_nat (length m))); [|lia].
  unfold written_at. rewrite Nat2Z.id. simpl. by rewrite take_app_length.
Qed.

Lemma agrees_result d k cap m :
  agrees d k cap -> cap <= size_of m ->
  decoded_result (k m 0) = match d with Some out => Ret out | None => Throw SyntaxError end.
Proof.
  intros Hk Hc. specialize (Hk m 0 ltac:(lia) ltac:(lia)). destruct d as [out|].
  - destruct Hk as [Hl ->]. apply copy_out_written. lia.
  - by destruct Hk as [m' ->].
Qed.

Lemma malloc_size junk size : 0 <= size -> size_of (replicate (Z.to_nat size) junk) = size.
Proof. intros Hs. unfold size_of. rewrite length_replicate. lia. Qed.

Lemma at_least_1_ge cap : 0 <= cap -> cap <= at_least_1 cap.
Proof. unfold at_least_1. destruct (cap =? 0) eqn:E; lia. Qed.

(** *** One lemma per kernel *)

Lemma hex_encode_agrees src :
  agrees (Some (Hex.simd_scalar_hex_encode src)) (simd_scalar_hex_encode src) (2 * size_of src).
Proof.
  induction src as [|b src IH]; [by apply agrees_done|].
  apply (agrees_store [_; _] (Some _) _ _ _ IH); unfold size_of; simpl; lia.
Qed.

Lemma hex_decode_agrees src : agrees (Hex.hex_pairs src) (hex_decode_loop src) (size_of src / 2).
Proof.
  induction src as [src IH] using (induction_ltof1 _ length). unfold ltof in IH.
  assert (H0 : 0 <= size_of src / 2) by (unfold size_of; apply Z.div_pos; lia).
  destruct src as [|c0 [|c1 rest]]; [by apply agrees_done..|]. cbn [Hex.hex_pairs hex_decode_loop].
  destruct (_ || _); [apply agrees_bad|].
  apply (agrees_store [_] (Hex.hex_pairs rest) _ (size_of rest / 2)); [apply IH; simpl; lia|..];
    unfold size_of; [|apply Z.div_pos; lia]. cbn [length].
  replace (Z.of_nat (S (S (length rest)))) with (Z.of_nat (length rest) + 1 * 2) by lia.
  rewrite Z.div_add by lia. lia.
Qed.

Lemma base64_encode_agrees src :
  agrees (Some (Base64.simd_scalar_base64_encode src)) (simd_scalar_base64_encode src)
    (size_of (Base64.simd_scalar_base64_encode src)).
Proof.
  induction src as [src IH] using (induction_ltof1 _ length). unfold ltof in IH.
  destruct src as [|a [|b [|c rest]]]; [by apply agrees_done|by apply agrees_last..|].
  apply (agrees_store [_; _; _; _] (Some _) _ _ _ (IH rest ltac:(simpl; lia))); unfold size_of.
  - cbn [Base64.simd_scalar_base64_encode]. rewrite length_app. simpl. lia.
  - lia.
Qed.

Lemma base64_decode_agrees src :
  agrees (Base64.decode_groups src) (base64_decode_loop src) (3 * (size_of src / 4)).
Proof.
  induction src as [src IH] using (induction_ltof1 _ length). unfold ltof in IH.
  assert (Hd : forall n, 0 <= Z.of_nat n / 4) by (intros; apply Z.div_pos; lia).
  destruct src as [|c0 [|c1 [|c2 [|c3 rest]]]]; [by apply agrees_done..|].
  cbn [Base64.decode_groups base64_decode_loop].
  destruct (Base64.decode_group _ c0 c1 c2 c3) as [out|] eqn:E; [|apply agrees_bad].
  apply decode_group_bound in E. cbn [mbind option_bind].
  apply (agrees_store out (Base64.decode_groups rest) _ (3 * (size_of rest / 4)));
    [apply IH; simpl; lia|..]; unfold size_of in *; [|specialize (Hd (length rest)); lia]. cbn [length].
  replace (Z.of_nat (S (S (S (S (length rest)))))) with (Z.of_nat (length rest) + 1 * 4) by lia.
  rewrite Z.div_add by lia. lia.
Qed.


Lemma base64_decode_result src m :
  3 * (size_of src / 4) <= size_of m ->
  decoded_result (simd_scalar_base64_decode src m) =
  match Base64.simd_scalar_base64_decode src with Some out => Ret out | None => Throw SyntaxError end.
Proof.
  intros Hm. unfold simd_scalar_base64_decode, Base64.simd_scalar_base64_decode. fold (size_of src).
  destruct (negb _); [done|]. destruct (Z.eqb_spec (size_of src) 0) as [E|_].
  - unfold size_of in E. destruct src; [|done]. simpl. unfold copy_out.
    destruct (Z.leb_spec 0 (Z.of_nat (length m))); [done|lia].
  - by apply (agrees_result _ _ _ _ (base64_decode_agrees src)).
Qed.

Lemma base64_cap_exact data :
  size_of data < 2 ^ 61 ->
  base64_cap (size_of data) = size_of (Base64.simd_scalar_base64_encode data).
Proof.
  intros Hl. unfold base64_cap, size_of in *. rewrite encode_length.
  rewrite (u64_small (_ + 2)) by lia. apply u64_small. div_lia.
Qed.

(** The translation in place reads what it has not yet overwritten. *)
Lemma url_strip_agrees s : forall pre post,
  url_strip_loop (length s) (size_of pre) (size_of pre) (pre ++ s ++ post) =
  Written (pre ++ Base64.url_strip s ++ drop (length (Base64.url_strip s)) (s ++ post))
    (size_of pre + size_of (Base64.url_strip s)).
Proof.
  unfold size_of. induction s as [|c s IH]; intros pre post; cbn [length url_strip_loop Base64.url_strip].
  - simpl. by rewrite Z.add_0_r.
  - rewrite Nat2Z.id, lookup_app_r, Nat.sub_diag by lia. cbn [app lookup list_lookup].
    destruct (c =? Base64.pad); [simpl; by rewrite Z.add_0_r|].
    set (c' := if c =? chr "+" then _ else _). unfold then_store. cbn [stores]. unfold store.
    destruct (Z.ltb_spec (Z.of_nat (length pre)) (Z.of_nat (length (pre ++ c :: s ++ post)))) as [_|Hge];
      [|rewrite length_app in Hge; simpl in Hge; lia].
    cbn [mbind option_bind]. rewrite Nat2Z.id, insert_app_r_alt, Nat.sub_diag by lia. cbn [insert list_insert].
    change (c' :: s ++ post) with ([c'] ++ s ++ post). rewrite app_assoc.
    replace (Z.of_nat (length pre) + 1) with (Z.of_nat (length (pre ++ [c']))) by (rewrite length_app; simpl; lia).
    rewrite IH. rewrite <- app_assoc. cbn [app length drop]. f_equal. rewrite length_app. simpl. lia.
Qed.

Lemma url_strip_length s : (length (Base64.url_strip s) <= length s)%nat.
Proof. induction s as [|c s IH]; simpl; [done|]. destruct (c =? Base64.pad); simpl; lia. Qed.

Lemma url_strip_result s m :
  size_of s <= size_of m ->
  encoded_result (url_strip_loop (Z.to_nat (size_of s)) 0 0 (written_at m 0 s)) = Ret (Base64.url_strip s).
Proof.
  intros Hl. unfold size_of at 1. rewrite Nat2Z.id. unfold written_at. simpl.
  pose proof (url_strip_agrees s [] (drop (length s) m)) as H. unfold size_of in H.
  cbn [length app] in H. change (Z.of_nat 0) with 0 in H.
  rewrite H. cbn [encoded_result]. rewrite Z.add_0_l. unfold copy_out. pose proof (url_strip_length s). unfold size_of in Hl.
  rewrite length_app. destruct (Z.leb_spec (Z.of_nat (length (Base64.url_strip s)))
    (Z.of_nat (length (Base64.url_strip s) + length (drop (length (Base64.url_strip s)) (s ++ drop (length s) m)))));
    [|lia].
  by rewrite Nat2Z.id, take_app_length.
Qed.

Lemma url_unstrip_agrees str :
  agrees (Base64.url_unstrip str) (url_unstrip_loop str) (size_of str).
Proof.
  induction str as [|c str IH]; [by apply agrees_done|]. cbn [Base64.url_unstrip url_unstrip_loop].
  assert (Hst : forall b, agrees (r ← Base64.url_unstrip str; Some (b :: r))
    (fun m o => then_store [b] m o (url_unstrip_loop str)) (size_of (c :: str))).
  { intros b. apply (agrees_store [b] _ _ _ _ IH); unfold size_of; simpl; lia. }
  destruct (c =? chr "-"); [apply Hst|]. destruct (c =? chr "_"); [apply Hst|].
  destruct (_ || _); [apply agrees_bad|apply Hst].
Qed.

Lemma url_unstrip_length str r : Base64.url_unstrip str = Some r -> length r = length str.
Proof.
  revert r. induction str as [|c str IH]; intros r E; cbn [Base64.url_unstrip] in E; [by simplify_eq|].
  destruct (Base64.url_unstrip str) as [r'|]; cbn [mbind option_bind] in E;
    repeat (destruct (_ =? _)); cbn [orb] in E; simplify_eq/=; by rewrite (IH r' eq_refl).
Qed.

Lemma b32_encode_agrees alpha bs :
  agrees (Some (concat (Base32.encode_block alpha <$> bs))) (b32_encode_loop alpha bs)
    (size_of (concat (Base32.encode_block alpha <$> bs))).
Proof.
  induction bs as [|b bs IH]; [by apply agrees_done|].
  apply (agrees_store (Base32.encode_block alpha b) (Some _) _ _ _ IH); unfold size_of; [|lia].
  rewrite fmap_cons. cbn [concat]. rewrite length_app. lia.
Qed.

Lemma b32_decode_agrees rev bs :
  agrees (Base32.decode_blocks rev bs) (b32_decode_loop rev bs) (5 * Z.of_nat (length bs)).
Proof.
  induction bs as [|b bs IH]; [by apply agrees_done|]. cbn [Base32.decode_blocks b32_decode_loop].
  destruct (Base32.decode_block _ _ b) as [out|] eqn:E; [|apply agrees_bad].
  apply decode_block_bound in E. cbn [mbind option_bind].
  apply (agrees_store out _ _ _ _ IH); unfold size_of; cbn [length]; lia.
Qed.

Lemma b85_encode_agrees bs :
  agrees (Some (concat (Base85.encode_block <$> bs))) (b85_encode_loop bs)
    (size_of (concat (Base85.encode_block <$> bs))).
Proof.
  induction bs as [|b bs IH]; [by apply agrees_done|].
  apply (agrees_store (Base85.encode_block b) (Some _) _ _ _ IH); unfold size_of; [|lia].
  rewrite fmap_cons. cbn [concat]. rewrite length_app. lia.
Qed.

(** The decoder of base85 from a given accumulator. *)
Definition b85_from (str : list Z) (v nb : Z) : option (list Z) :=
  a ← Base85.decode_loop str (Base85.Acc v nb []);
  if Base85.nb a =? 1 then None
  else if 1 <? Base85.nb a then
    let v := foldl (fun v _ => u32 (v * 85 + 84)) (Base85.v a) (seqZ (Base85.nb a) (5 - Base85.nb a)) in
    Some (Base85.out a ++ ((fun k => u8 (Z.shiftr v (24 - 8 * k))) <$> seqZ 0 (Base85.nb a - 1)))
  else Some (Base85.out a).

Lemma decode_loop_out str : forall v nb w,
  Base85.decode_loop str (Base85.Acc v nb w) =
  a ← Base85.decode_loop str (Base85.Acc v nb []);
  Some (Base85.Acc (Base85.v a) (Base85.nb a) (w ++ Base85.out a)).
Proof.
  induction str as [|b str IH]; intros v nb w; simpl; [by rewrite app_nil_r|].
  unfold Base85.decode_char. cbn [Base85.nb Base85.v Base85.out app].
  destruct (Base85.dyn_enc_is_ascii85_space b); cbn [mbind option_bind]; [apply IH|].
  destruct (_ && _); cbn [mbind option_bind].
  { rewrite (IH _ _ (w ++ _)), (IH _ _ [0; 0; 0; 0]).
    destruct (Base85.decode_loop str _) as [a|]; cbn [mbind option_bind Base85.nb Base85.v Base85.out];
      [by rewrite app_assoc|done]. }
  destruct (_ || _); [done|]. destruct (nb + 1 =? 5); cbn [mbind option_bind]; [|apply IH].
  rewrite (IH _ _ (w ++ _)), (IH _ _ [_; _; _; _]).
  destruct (Base85.decode_loop str _) as [a|]; cbn [mbind option_bind Base85.nb Base85.v Base85.out];
    [by rewrite app_assoc|done].
Qed.

(** Four bytes stored in the middle of the loop. *)
Lemma b85_from_store str v nb w :
  (a ← Base85.decode_loop str (Base85.Acc v nb w);
   if Base85.nb a =? 1 then None
   else if 1 <? Base85.nb a then
     let v := foldl (fun v _ => u32 (v * 85 + 84)) (Base85.v a) (seqZ (Base85.nb a) (5 - Base85.nb a)) in
     Some (Base85.out a ++ ((fun k => u8 (Z.shiftr v (24 - 8 * k))) <$> seqZ 0 (Base85.nb a - 1)))
   else Some (Base85.out a)) = out ← b85_from str v nb; Some (w ++ out).
Proof.
  unfold b85_from. rewrite decode_loop_out.
  destruct (Base85.decode_loop str _) as [a|]; cbn [mbind option_bind Base85.nb Base85.v Base85.out]; [|done].
  destruct (_ =? 1); [done|]. destruct (1 <? _); cbn [mbind option_bind]; [by rewrite app_assoc|done].
Qed.

Lemma b85_decode_agrees str : forall v nb, 0 <= nb <= 4 ->
  agrees (b85_from str v nb) (b85_decode_loop str v nb) (4 * nb + 4 * size_of str).
Proof.
  unfold size_of. induction str as [|b str IH]; intros v nb Hn.
  - unfold b85_from. cbn [Base85.decode_loop mbind option_bind Base85.nb Base85.v Base85.out b85_decode_loop app].
    unfold b85_finish. destruct (nb =? 1); [apply agrees_bad|]. destruct (Z.ltb_spec 1 nb).
    + apply agrees_last. unfold size_of. rewrite length_fmap, length_seqZ. simpl. lia.
    + apply agrees_done. simpl. lia.
  - unfold b85_from. cbn [Base85.decode_loop b85_decode_loop]. unfold Base85.decode_char.
    cbn [Base85.nb Base85.v Base85.out app].
    assert (Hw : forall v' nb' c, 0 <= nb' <= 4 -> 4 * nb' <= 4 * nb + 4 - c -> 0 <= c ->
      agrees (b85_from str v' nb') (b85_decode_loop str v' nb') (4 * nb + 4 * Z.of_nat (length (b :: str)) - c)).
    { intros v' nb' c Hn' Hc Hc0. intros m o Ho Hl. specialize (IH v' nb' Hn' m o Ho).
      cbn [length] in Hl. destruct (b85_from str v' nb'); cbn [length].
      - destruct IH as [? ?]; [lia|]. split; [lia|done].
      - apply IH. lia. }
    assert (Hs : forall v' nb' bs, 0 <= nb' <= 4 -> nb' <= nb -> length bs = 4%nat ->
      agrees (out ← b85_from str v' nb'; Some (bs ++ out))
        (fun m o => then_store bs m o (b85_decode_loop str v' nb')) (4 * nb + 4 * Z.of_nat (length (b :: str)))).
    { intros v' nb' bs Hn' Hle Hb. eapply agrees_store; [apply (Hw v' nb' 4); lia|..]; unfold size_of;
        rewrite ?Hb; cbn [length]; lia. }
    rewrite <- (Z.sub_0_r (4 * nb + _)).
    destruct (Base85.dyn_enc_is_ascii85_space b); cbn [mbind option_bind]; [apply (Hw v nb 0); lia|].
    destruct (_ && _) eqn:Ez; cbn [mbind option_bind].
    { rewrite Z.sub_0_r, b85_from_store. apply Hs; [lia|lia|done]. }
    destruct (_ || _); [apply agrees_bad|].
    destruct (Z.eqb_spec (nb + 1) 5) as [E|E]; cbn [mbind option_bind].
    + rewrite Z.sub_0_r, b85_from_store. apply Hs; [lia|lia|done].
    + apply (Hw _ _ 0); lia.
Qed.

(** *** The handlers *)

Section refinement.
Context (alloc alloc2 : bool) (junk : Z) (s : list Z).
(** No input of the engine is longer: a string has less than [2 ^ 30]
    characters, an [ArrayBuffer] less than [2 ^ 31] bytes. *)
Context (Hs : size_of s < 2 ^ 61).

Lemma size_nonneg (l : list Z) : 0 <= size_of l.
Proof. unfold size_of. lia. Qed.

(** An encoding handler whose buffer is large enough. *)
Lemma encode_handler k out cap :
  agrees (Some out) k (size_of out) -> size_of out <= cap ->
  match malloc alloc junk (at_least_1 cap) with
  | None => Throw OutOfMemory
  | Some m => encoded_result (k m 0)
  end = if alloc then Ret out else Throw OutOfMemory.
Proof.
  intros Hk Hc. unfold malloc. destruct alloc; [|done]. pose proof (size_nonneg out).
  pose proof (at_least_1_ge cap ltac:(lia)). set (m := replicate _ _).
  assert (Hm : size_of m = at_least_1 cap) by (apply malloc_size; lia).
  destruct (Hk m 0 ltac:(lia) ltac:(lia)) as [_ ->]. simpl. apply copy_out_written. lia.
Qed.

(** A decoding handler whose buffer is large enough. *)
Lemma decode_handler d (k : mem -> kernel_end) cap :
  0 <= cap ->
  (forall m, cap <= size_of m ->
     decoded_result (k m) = match d with Some out => Ret out | None => Throw SyntaxError end) ->
  match malloc alloc junk (at_least_1 cap) with
  | None => Throw OutOfMemory
  | Some m => decoded_result (k m)
  end = if negb alloc then Throw OutOfMemory
        else match d with None => Throw SyntaxError | Some out => Ret out end.
Proof.
  intros Hc Hk. unfold malloc. destruct alloc; [|done]. pose proof (at_least_1_ge cap Hc).
  simpl. rewrite Hk by (rewrite malloc_size; lia). by destruct d.
Qed.

Lemma hex_encode_refines :
  dyn_enc_hex_encode alloc junk s = Hex.dyn_enc_hex_encode alloc s.
Proof.
  unfold dyn_enc_hex_encode, Hex.dyn_enc_hex_encode, malloc. destruct alloc; [|done].
  pose proof (size_nonneg s). rewrite u64_small by lia. set (m := replicate _ _).
  assert (Hm : size_of s * 2 <= size_of m).
  { unfold m. rewrite malloc_size; destruct (Z.eqb_spec (size_of s) 0); lia. }
  destruct (hex_encode_agrees s m 0) as [_ ->]; [lia|lia|].
  replace (size_of s * 2) with (size_of (Hex.simd_scalar_hex_encode s))
    by (unfold size_of; rewrite hex_encode_length; lia).
  apply copy_out_written. unfold size_of in *. rewrite hex_encode_length. lia.
Qed.

Lemma hex_decode_refines :
  dyn_enc_hex_decode alloc junk s = Hex.dyn_enc_hex_decode alloc s.
Proof.
  unfold dyn_enc_hex_decode, Hex.dyn_enc_hex_decode. fold (size_of s).
  destruct (Z.land (size_of s) 1 =? 1) eqn:E; [done|].
  apply (decode_handler (Hex.simd_scalar_hex_decode s) (simd_scalar_hex_decode s)).
  - apply Z.div_pos; [apply size_nonneg|lia].
  - intros m Hm. unfold simd_scalar_hex_decode, Hex.simd_scalar_hex_decode. fold (size_of s). rewrite E.
    by apply (agrees_result _ _ _ _ (hex_decode_agrees s)).
Qed.

Lemma base64_encode_refines :
  dyn_enc_base64_encode alloc junk s = Base64.dyn_enc_base64_encode alloc s.
Proof.
  apply (encode_handler (simd_scalar_base64_encode s)); [apply base64_encode_agrees|].
  by rewrite base64_cap_exact.
Qed.

Lemma base64_decode_refines :
  dyn_enc_base64_decode alloc junk s = Base64.dyn_enc_base64_decode alloc s.
Proof.
  pose proof (size_nonneg s). apply (decode_handler _ (simd_scalar_base64_decode s)).
  - apply u64_range.
  - intros m Hm. apply base64_decode_result. rewrite u64_small in Hm by div_lia. done.
Qed.

Lemma base64url_encode_refines :
  dyn_enc_base64url_encode alloc junk s = Base64.dyn_enc_base64url_encode alloc s.
Proof.
  unfold dyn_enc_base64url_encode, Base64.dyn_enc_base64url_encode, malloc. destruct alloc; [|done].
  rewrite base64_cap_exact by done. set (e := Base64.simd_scalar_base64_encode s).
  pose proof (at_least_1_ge (size_of e) (size_nonneg e)). pose proof (size_nonneg e). set (m := replicate _ _).
  assert (Hm : size_of m = at_least_1 (size_of e)) by (apply malloc_size; lia).
  destruct (base64_encode_agrees s m 0) as [_ ->]; [lia|fold e; lia|]. fold e.
  rewrite Z.add_0_l. apply url_strip_result. lia.
Qed.

Lemma base64url_decode_refines :
  dyn_enc_base64url_decode alloc alloc2 junk s = Base64.dyn_enc_base64url_decode alloc alloc2 s.
Proof.
  unfold dyn_enc_base64url_decode, Base64.dyn_enc_base64url_decode. fold (size_of s).
  pose proof (size_nonneg s). pose proof (Z.mod_pos_bound (size_of s) 4 ltac:(lia)).
  destruct (size_of s mod 4 =? 1); [done|].
  set (padlen := if size_of s mod 4 =? 0 then 0 else 4 - size_of s mod 4).
  assert (Hp : 0 <= padlen <= 4) by (unfold padlen; destruct (_ =? 0); lia).
  rewrite (u64_small (size_of s + padlen)) by lia.
  unfold malloc at 1. destruct alloc; [|done]. cbn [negb]. set (m := replicate _ _).
  assert (Hm : size_of s + padlen <= size_of m).
  { unfold m. pose proof (at_least_1_ge (size_of s + padlen) ltac:(lia)). rewrite malloc_size; lia. }
  pose proof (url_unstrip_agrees s m 0 ltac:(lia) ltac:(lia)) as Hu.
  destruct (Base64.url_unstrip s) as [r|] eqn:Er; [|by destruct Hu as [m' ->]].
  apply url_unstrip_length in Er. assert (Hr : size_of r = size_of s) by (unfold size_of; lia).
  destruct Hu as [_ ->]. set (pads := replicate (Z.to_nat padlen) Base64.pad).
  assert (Hpl : size_of pads = padlen) by (apply malloc_size; lia).
  assert (Hm1 : size_of (written_at m 0 r) = size_of m)
    by (unfold size_of at 1; rewrite written_at_length; unfold size_of in *; lia).
  rewrite stores_ok by lia. rewrite written_at_app by lia.
  assert (Happ : size_of (r ++ pads) = size_of s + padlen)
    by (unfold size_of in *; rewrite length_app; lia).
  rewrite <- Happ in Hm |- *. rewrite copy_out_written by lia.
  rewrite u64_small by div_lia. unfold malloc. destruct alloc2; [|done]. cbn [negb].
  rewrite base64_decode_result; [by destruct (Base64.simd_scalar_base64_decode _)|].
  pose proof (at_least_1_ge (3 * (size_of (r ++ pads) / 4)) ltac:(div_lia)).
  rewrite malloc_size; div_lia.
Qed.

Lemma base32_encode_refines magic :
  dyn_enc_base32_encode alloc junk magic s = Base32.dyn_enc_base32_encode alloc magic s.
Proof.
  pose proof (size_nonneg s).
  apply (encode_handler (b32_encode_loop (Base32.dyn_b32_alpha magic) (chunks 5 s)));
    [apply b32_encode_agrees|]. fold (Base32.dyn_enc_b32_encode (Base32.dyn_b32_alpha magic) s).
  unfold size_of in *. rewrite b32_encode_length, (u64_small (_ + 4)), u64_small by div_lia. done.
Qed.

Lemma base32_decode_refines magic :
  dyn_enc_base32_decode alloc junk magic s = Base32.dyn_enc_base32_decode alloc magic s.
Proof.
  pose proof (size_nonneg s).
  apply (decode_handler _ (dyn_enc_b32_decode (Base32.dyn_b32_alpha magic) s)); [apply u64_range|].
  intros m Hm. rewrite u64_small in Hm by div_lia.
  unfold dyn_enc_b32_decode, Base32.dyn_enc_b32_decode. fold (size_of s).
  destruct (Z.eqb_spec (size_of s mod 8) 0) as [E|]; [|done]. cbn [negb].
  apply (agrees_result _ _ _ _ (b32_decode_agrees _ _)).
  pose proof (chunks_count 8 s ltac:(lia) E) as Hc. change (Z.of_nat 8) with 8 in Hc.
  unfold size_of in *. lia.
Qed.

Lemma base85_encode_refines :
  dyn_enc_base85_encode alloc junk s = Base85.dyn_enc_base85_encode alloc s.
Proof.
  pose proof (size_nonneg s). apply (encode_handler (b85_encode_loop (chunks 4 s))); [apply b85_encode_agrees|].
  fold (Base85.dyn_enc_b85_encode s). pose proof (b85_encode_bound s).
  unfold size_of in *. rewrite (u64_small (_ + 3)), u64_small by div_lia. done.
Qed.

Lemma base85_decode_refines :
  dyn_enc_base85_decode alloc junk s = Base85.dyn_enc_base85_decode alloc s.
Proof.
  pose proof (size_nonneg s). apply (decode_handler _ (dyn_enc_b85_decode s)); [apply u64_range|].
  intros m Hm. rewrite u64_small in Hm by lia.
  apply (agrees_result _ _ _ _ (b85_decode_agrees s 0 0 ltac:(lia))). lia.
Qed.
End refinement.

(** [C19] The encoders and decoders stay inside their buffers.  For every
    input shorter than [2 ^ 61] bytes, well formed or not, and whatever
    allocation is refused, each handler of [dyna:encoding] for hex, base64,
    base64url, base32, base32hex and base85, with the buffer sizes it computes
    in [size_t], the stores its kernel makes one after the other (also before
    it meets the malformed character) and the copy of the result, ends as its
    reference in [Encoding] does: with the encoded or decoded bytes, a
    SyntaxError exactly where the reference has one, or out of memory; in
    particular it never stores or reads outside a block ([Fault]). *)
Theorem encoding_buffers_suffice (alloc alloc2 : bool) (junk : Z) (magic : Base32.magic) (s : list Z) :
  size_of s < 2 ^ 61 ->
  dyn_enc_hex_encode alloc junk s = Hex.dyn_enc_hex_encode alloc s /\
  dyn_enc_hex_decode alloc junk s = Hex.dyn_enc_hex_decode alloc s /\
  dyn_enc_base64_encode alloc junk s = Base64.dyn_enc_base64_encode alloc s /\
  dyn_enc_base64_decode alloc junk s = Base64.dyn_enc_base64_decode alloc s /\
  dyn_enc_base64url_encode alloc junk s = Base64.dyn_enc_base64url_encode alloc s /\
  dyn_enc_base64url_decode alloc alloc2 junk s = Base64.dyn_enc_base64url_decode alloc alloc2 s /\
  dyn_enc_base32_encode alloc junk magic s = Base32.dyn_enc_base32_encode alloc magic s /\
  dyn_enc_base32_decode alloc junk magic s = Base32.dyn_enc_base32_decode alloc magic s /\
  dyn_enc_base85_encode alloc junk s = Base85.dyn_enc_base85_encode alloc s /\
  dyn_enc_base85_decode alloc junk s = Base85.dyn_enc_base85_decode alloc s /\
  Forall (fun r => r <> Throw Fault)
    [dyn_enc_hex_encode alloc junk s; dyn_enc_hex_decode alloc junk s;
     dyn_enc_base64_encode alloc junk s; dyn_enc_base64_decode alloc junk s;
     dyn_enc_base64url_encode alloc junk s; dyn_enc_base64url_decode alloc alloc2 junk s;
     dyn_enc_base32_encode alloc junk magic s; dyn_enc_base32_decode alloc junk magic s;
     dyn_enc_base85_encode alloc junk s; dyn_enc_base85_decode alloc junk s].
Proof.
  intros Hs.
  rewrite hex_encode_refines, hex_decode_refines, base64_encode_refines, base64_decode_refines,
    base64url_encode_refines, base64url_decode_refines, base32_encode_refines, base32_decode_refines,
    base85_encode_refines, base85_decode_refines by done.
  repeat (split; [done|]).
  repeat constructor;
    unfold Hex.dyn_enc_hex_encode, Hex.dyn_enc_hex_decode, Base64.dyn_enc_base64_encode,
      Base64.dyn_enc_base64_decode, Base64.dyn_enc_base64url_encode, Base64.dyn_enc_base64url_decode,
      Base32.dyn_enc_base32_encode, Base32.dyn_enc_base32_decode, Base85.dyn_enc_base85_encode,
      Base85.dyn_enc_base85_decode; repeat case_match; congruence.
Qed.

(** A hex string with a bad digit after two good bytes, and a base64url text
    of 7 characters. *)
Lemma encoding_buffers_suffice_witness :
  dyn_enc_hex_decode true 170 (bytes_of "6869zz") = Throw SyntaxError /\
  dyn_enc_base64url_decode true true 170 (bytes_of "Zm9vYg-") =
    Base64.dyn_enc_base64url_decode true true (bytes_of "Zm9vYg-") /\
  hex_decode_loop (bytes_of "6869zz") [170; 170; 170] 0 = SizeMax [104; 105; 170].
Proof.
  split; [vm_compute; reflexivity|]. split; [|vm_compute; reflexivity].
  apply (encoding_buffers_suffice true true 170 Base32.DYN_B32_STD (bytes_of "Zm9vYg-")).
  vm_compute. reflexivity.
Defined.
