(* ===== verification/Malloc.v ===== *)
(** * The engine's allocator (src/mm/js_malloc.inc.c)

    Small blocks are carved out of 4 KB arenas, one size class per arena,
    with an index-linked free list inside the arena; larger blocks go to the
    host allocator.  A pointer is a host allocation and a byte offset in it,
    and [__js_free] recovers the arena from a block by the same subtraction
    as the code; reading through a pointer that no block starts at is a fault
    ([None]). *)
From S2P Require Import Prelude.

(** ** Constants and size classes *)

Definition JS_MALLOC_ARENA_SIZE : Z := 4096.
Definition JS_MALLOC_BLOCK_SIZE_COUNT : Z := 31.
Definition JS_MALLOC_MAX_SMALL_SIZE : Z := 512.
Definition JS_MALLOC_MAX_EMPTY_ARENAS : Z := 1.
Definition FREE_NIL : Z := 65535.
Definition sizeof_BlockHeader : Z := 8.
Definition sizeof_JSMallocArena : Z := 40.

Definition js_malloc_block_sizes : list Z :=
  [16; 24; 32; 40; 48; 56; 64; 72; 80; 88; 96; 104; 112; 120; 128; 144; 160; 176; 192; 208; 224;
   240; 256; 288; 320; 352; 384; 416; 448; 480; 512].

Definition block_size_of (c : Z) : Z := default 0 (js_malloc_block_sizes !! Z.to_nat c).

Definition get_block_size_index (size : Z) : Z :=
  if size <=? 16 then 0
  else if size <=? 128 then (size + 7) / 8 - 2
  else if size <=? 256 then (size + 15) / 16 + 6
  else if size <=? 512 then (size + 31) / 32 + 14
  else JS_MALLOC_BLOCK_SIZE_COUNT.

(** ** State *)

(** A block: the union of [block_idx] and [free_next], the class, the packed
    GC fields ([gc_obj_type], [mark], [ref_count]) and the user bytes. *)
Record JSMallocBlockHeader := Hdr { u : Z; block_size_idx : Z; gc : Z; user : list Z }.

Record JSMallocArena := Arena {
  ar_block_size_idx : Z;
  n_used_blocks : Z;
  n_blocks : Z;
  first_free_block : Z;
  blocks : list JSMallocBlockHeader;
}.

(** A host allocation: an arena or a large block. *)
Inductive host_block : Type :=
| HArena (a : JSMallocArena)
| HLarge (h : JSMallocBlockHeader).

Record JSMallocContext := Ctx {
  host : gmap positive host_block;
  (* arrays of JS_MALLOC_BLOCK_SIZE_COUNT entries, by size class *)
  arena_list : Z -> list positive;
  free_arena_list : Z -> list positive;
  n_empty_arenas : Z -> Z;
}.

(** A user pointer: the zero-size block, or an offset in a host allocation. *)
Inductive ptr : Type := PZero | PBlk (base : positive) (off : Z).

#[export] Instance ptr_eq_dec : EqDecision ptr.
Proof. solve_decision. Defined.

Definition js_malloc_init : JSMallocContext := Ctx ∅ (fun _ => []) (fun _ => []) (fun _ => 0).

(** Array update. *)
Definition upd {A} (t : Z -> A) (c : Z) (v : A) : Z -> A := fun d => if d =? c then v else t d.

Definition set_arena (base : positive) (a : JSMallocArena) (s : JSMallocContext) : JSMallocContext :=
  Ctx (<[base := HArena a]> (host s)) (arena_list s) (free_arena_list s) (n_empty_arenas s).
Definition upd_arena_list (c : Z) (f : list positive -> list positive) (s : JSMallocContext) :=
  Ctx (host s) (upd (arena_list s) c (f (arena_list s c))) (free_arena_list s) (n_empty_arenas s).
Definition upd_free_list (c : Z) (f : list positive -> list positive) (s : JSMallocContext) :=
  Ctx (host s) (arena_list s) (upd (free_arena_list s) c (f (free_arena_list s c))) (n_empty_arenas s).
Definition upd_empty (c : Z) (f : Z -> Z) (s : JSMallocContext) :=
  Ctx (host s) (arena_list s) (free_arena_list s) (upd (n_empty_arenas s) c (f (n_empty_arenas s c))).
Definition host_free (base : positive) (s : JSMallocContext) : JSMallocContext :=
  Ctx (delete base (host s)) (arena_list s) (free_arena_list s) (n_empty_arenas s).

Definition arena_at (s : JSMallocContext) (base : positive) : option JSMallocArena :=
  match host s !! base with Some (HArena a) => Some a | _ => None end.

(** The host allocator: a block that is not in use, or failure. *)
Definition host_malloc (ok : bool) (s : JSMallocContext) : option positive :=
  if ok then Some (fresh (dom (host s))) else None.

(** ** Operations

    [js_malloc_init] has no list and no spare; a class [c] is below
    [JS_MALLOC_BLOCK_SIZE_COUNT] wherever an array is indexed. *)

(** [get_arena_block]: the header of block [idx] is at this offset. *)
Definition get_arena_block (idx block_size : Z) : Z := sizeof_JSMallocArena + idx * block_size.

Definition arena_n_blocks (c : Z) : Z :=
  (JS_MALLOC_ARENA_SIZE - sizeof_JSMallocArena) / block_size_of c.

(** The free list of a new arena: each block points to the next one. *)
Definition fresh_block (c n i : Z) : JSMallocBlockHeader :=
  Hdr (if i <? n - 1 then i + 1 else FREE_NIL) c 0
      (replicate (Z.to_nat (block_size_of c - sizeof_BlockHeader)) 0).

Definition js_malloc_new_arena (ok : bool) (c : Z) (s : JSMallocContext)
    : option (positive * JSMallocContext) :=
  base ← host_malloc ok s;
  let n := arena_n_blocks c in
  let a := Arena c 0 n 0 (fresh_block c n <$> seqZ 0 n) in
  Some (base, upd_free_list c (cons base) (upd_arena_list c (cons base) (set_arena base a s))).

Definition js_malloc_large (ok : bool) (size : Z) (s : JSMallocContext)
    : option ptr * JSMallocContext :=
  match host_malloc ok s with
  | None => (None, s)
  | Some base =>
      (Some (PBlk base sizeof_BlockHeader),
       Ctx (<[base := HLarge (Hdr FREE_NIL 255 0 (replicate (Z.to_nat size) 0))]> (host s))
         (arena_list s) (free_arena_list s) (n_empty_arenas s))
  end.

(** [((size + 7) & ~7) + 8], in [size_t]. *)
Definition total_size (size : Z) : Z :=
  u64 (Z.land (u64 (size + 7)) (Z.lnot 7) + sizeof_BlockHeader).

(** The arena to allocate from: the first of the free list, or a new one. *)
Definition pick_arena (ok : bool) (c : Z) (s : JSMallocContext)
    : option (option positive * JSMallocContext) :=
  match free_arena_list s c with
  | [] => match js_malloc_new_arena ok c s with
          | None => Some (None, s)
          | Some (base, s) => Some (Some base, s)
          end
  | base :: _ =>
      a ← arena_at s base;
      Some (Some base, if n_used_blocks a =? 0 then upd_empty c (fun n => n - 1) s else s)
  end.

(** Unlink the first free block [b] of an arena. *)
Definition arena_take (a : JSMallocArena) (b : JSMallocBlockHeader) : JSMallocArena :=
  let block_idx := first_free_block a in
  Arena (ar_block_size_idx a) (n_used_blocks a + 1) (n_blocks a) (u b)
    (<[Z.to_nat block_idx := Hdr block_idx (block_size_idx b) (gc b) (user b)]> (blocks a)).

(** Link block [b], of index [block_idx], in front of the free list. *)
Definition arena_put (a : JSMallocArena) (block_idx : Z) (b : JSMallocBlockHeader) : JSMallocArena :=
  Arena (ar_block_size_idx a) (n_used_blocks a - 1) (n_blocks a) block_idx
    (<[Z.to_nat block_idx := Hdr (first_free_block a) (block_size_idx b) (gc b) (user b)]> (blocks a)).

(** Allocate from an arena with a free block. *)
Definition take_block (c : Z) (base : positive) (s : JSMallocContext)
    : option (ptr * JSMallocContext) :=
  a ← arena_at s base;
  let block_idx := first_free_block a in
  b ← blocks a !! Z.to_nat block_idx;
  let a' := arena_take a b in
  let s := set_arena base a' s in
  let s := if n_used_blocks a' =? n_blocks a' then upd_free_list c (unlink base) s else s in
  Some (PBlk base (get_arena_block block_idx (block_size_of c) + sizeof_BlockHeader), s).

(** The outer option is a fault; the inner one is NULL. *)
Definition __js_malloc (ok : bool) (size : Z) (s : JSMallocContext)
    : option (option ptr * JSMallocContext) :=
  if size =? 0 then Some (Some PZero, s)
  else if total_size size <=? JS_MALLOC_MAX_SMALL_SIZE then
    let c := get_block_size_index (total_size size) in
    '(base, s) ← pick_arena ok c s;
    match base with
    | None => Some (None, s)
    | Some base => '(p, s) ← take_block c base s; Some (Some p, s)
    end
  else Some (js_malloc_large ok size s).

(** [container_of(ptr, JSMallocBlockHeader, user_data)], and the index of the
    block in its arena. *)
Definition read_header (s : JSMallocContext) (base : positive) (off : Z)
    : option JSMallocBlockHeader :=
  match host s !! base with
  | Some (HLarge h) => if off =? sizeof_BlockHeader then Some h else None
  | Some (HArena a) =>
      let k := off - sizeof_BlockHeader - sizeof_JSMallocArena in
      let bs := block_size_of (ar_block_size_idx a) in
      if (k <? 0) || negb (k mod bs =? 0) then None else blocks a !! Z.to_nat (k / bs)
  | None => None
  end.

Definition __js_free (p : option ptr) (s : JSMallocContext) : option JSMallocContext :=
  match p with
  | None | Some PZero => Some s
  | Some (PBlk base off) =>
      b ← read_header s base off;
      if u b =? FREE_NIL then Some (host_free base s)
      else
        let block_idx := u b in
        let c := block_size_idx b in
        let ar := off - sizeof_BlockHeader - block_size_of c * block_idx - sizeof_JSMallocArena in
        if negb (ar =? 0) then None else
        a ← arena_at s base;
        let s := if n_used_blocks a =? n_blocks a then upd_free_list c (cons base) s else s in
        let a' := arena_put a block_idx b in
        let s := set_arena base a' s in
        Some (if n_used_blocks a' =? 0 then
                if n_empty_arenas s c <? JS_MALLOC_MAX_EMPTY_ARENAS then upd_empty c (fun n => n + 1) s
                else host_free base (upd_free_list c (unlink base) (upd_arena_list c (unlink base) s))
              else s)
  end.

(** Writing to a block: the GC fields and the user bytes. *)
Definition write_block (base : positive) (off : Z) (f : JSMallocBlockHeader -> JSMallocBlockHeader)
    (s : JSMallocContext) : option JSMallocContext :=
  match host s !! base with
  | Some (HLarge h) =>
      if off =? sizeof_BlockHeader then
        Some (Ctx (<[base := HLarge (f h)]> (host s)) (arena_list s) (free_arena_list s) (n_empty_arenas s))
      else None
  | Some (HArena a) =>
      let k := off - sizeof_BlockHeader - sizeof_JSMallocArena in
      let bs := block_size_of (ar_block_size_idx a) in
      if (k <? 0) || negb (k mod bs =? 0) then None else
      b ← blocks a !! Z.to_nat (k / bs);
      Some (set_arena base (Arena (ar_block_size_idx a) (n_used_blocks a) (n_blocks a)
              (first_free_block a) (<[Z.to_nat (k / bs) := f b]> (blocks a))) s)
  | None => None
  end.

(** [memcpy(new_ptr, ptr, size)] and the copy of the GC fields. *)
Definition copy_into (old : JSMallocBlockHeader) (size : Z) (b : JSMallocBlockHeader)
    : JSMallocBlockHeader :=
  let n := Z.to_nat size in
  Hdr (u b) (block_size_idx b) (gc old) (take n (user old) ++ drop n (user b)).

Definition __js_realloc (ok : bool) (p : option ptr) (size : Z) (s : JSMallocContext)
    : option (option ptr * JSMallocContext) :=
  match p with
  | None => __js_malloc ok size s
  | Some p =>
      if size =? 0 then s ← __js_free (Some p) s; Some (None, s) else
      match p with
      | PZero => __js_malloc ok size s
      | PBlk base off =>
          b ← read_header s base off;
          if u b =? FREE_NIL then
            (* host realloc: the block may move; its bytes are kept *)
            match host_malloc ok s with
            | None => Some (None, s)
            | Some base' =>
                let n := Z.to_nat size in
                let h := Hdr FREE_NIL 255 (gc b) (take n (user b) ++ replicate (n - length (user b)) 0) in
                Some (Some (PBlk base' sizeof_BlockHeader),
                      Ctx (<[base' := HLarge h]> (delete base (host s)))
                        (arena_list s) (free_arena_list s) (n_empty_arenas s))
            end
          else
            let bs := block_size_of (block_size_idx b) in
            if total_size size <=? bs then Some (Some p, s) else
            '(np, s) ← __js_malloc ok size s;
            match np with
            | None => Some (None, s)
            | Some PZero => None
            | Some (PBlk nbase noff) =>
                let old_size := bs - sizeof_BlockHeader in
                let size := if old_size <? size then old_size else size in
                s ← write_block nbase noff (copy_into b size) s;
                s ← __js_free (Some p) s;
                Some (np, s)
            end
      end
  end.

(** [usable] is the host's [malloc_usable_size], when it has one. *)
Definition __js_malloc_usable_size (usable : option (positive -> Z)) (p : option ptr)
    (s : JSMallocContext) : option Z :=
  match p with
  | None | Some PZero => Some 0
  | Some (PBlk base off) =>
      b ← read_header s base off;
      if u b =? FREE_NIL then
        Some (match usable with
              | Some f => if f base =? 0 then 0 else f base - sizeof_BlockHeader
              | None => 0 end)
      else Some (block_size_of (block_size_idx b) - sizeof_BlockHeader)
  end.

(** [js_malloc_release_empty_arenas]: one arena, one class, all of them. *)
Definition release_one (c : Z) (s : JSMallocContext) (base : positive) : JSMallocContext :=
  match arena_at s base with
  | Some a => if n_used_blocks a =? 0
              then host_free base (upd_free_list c (unlink base) (upd_arena_list c (unlink base) s))
              else s
  | None => s
  end.

Definition release_class (c : Z) (s : JSMallocContext) : JSMallocContext :=
  upd_empty c (fun _ => 0) (fold_left (release_one c) (free_arena_list s c) s).

Definition js_malloc_release_empty_arenas (s : JSMallocContext) : JSMallocContext :=
  fold_left (fun s c => release_class c s) (seqZ 0 JS_MALLOC_BLOCK_SIZE_COUNT) s.
