(* ===== verification/MallocProps.v ===== *)
(** * The allocator keeps blocks apart (src/mm/js_malloc.inc.c)

    The invariant of the arenas and of the lists that index them, its
    preservation by every operation, and what the operations promise to the
    engine: fresh, disjoint, large enough blocks, nothing lost. *)
From S2P Require Import Prelude Malloc.

(** ** Size classes *)

Lemma class_fits t :
  0 <= t <= JS_MALLOC_MAX_SMALL_SIZE ->
  0 <= get_block_size_index t < JS_MALLOC_BLOCK_SIZE_COUNT /\ t <= block_size_of (get_block_size_index t).
Proof.
  intros Ht. unfold JS_MALLOC_MAX_SMALL_SIZE, JS_MALLOC_BLOCK_SIZE_COUNT in *.
  pose proof (below_forallb 513 (fun t => let c := get_block_size_index t in
    (0 <=? c) && (c <? 31) && (t <=? block_size_of c)) eq_refl t ltac:(lia)) as H. simpl in H. lia.
Qed.

Lemma class_shape c :
  0 <= c < JS_MALLOC_BLOCK_SIZE_COUNT ->
  16 <= block_size_of c <= 512 /\ 7 <= arena_n_blocks c <= 253 /\
  sizeof_JSMallocArena + arena_n_blocks c * block_size_of c <= JS_MALLOC_ARENA_SIZE.
Proof.
  intros Hc. unfold JS_MALLOC_BLOCK_SIZE_COUNT in *.
  pose proof (below_forallb 31 (fun c => (16 <=? block_size_of c) && (block_size_of c <=? 512) &&
    (7 <=? arena_n_blocks c) && (arena_n_blocks c <=? 253) &&
    (sizeof_JSMallocArena + arena_n_blocks c * block_size_of c <=? JS_MALLOC_ARENA_SIZE)) eq_refl c Hc) as H.
  cbv beta in H. lia.
Qed.

(** The rounded size, below the wrap-around. *)
Lemma total_size_spec size :
  0 < size <= 2 ^ 64 - 16 -> size + 8 <= total_size size <= size + 15.
Proof.
  intros Hs. unfold total_size, sizeof_BlockHeader. rewrite (u64_small (size + 7)) by lia.
  assert (E : Z.land (size + 7) (Z.lnot 7) = size + 7 - (size + 7) mod 8).
  { change (Z.lnot 7) with (Z.lnot (Z.ones 3)). rewrite <- Z.ldiff_land, Z.ldiff_ones_r by lia.
    rewrite Z.shiftl_mul_pow2, Z.shiftr_div_pow2 by lia. change (2 ^ 3) with 8. div_lia. }
  rewrite E. pose proof (Z.mod_pos_bound (size + 7) 8 ltac:(lia)). rewrite u64_small; lia.
Qed.

(** ** Arenas *)

(** The free list from [start] visits exactly the blocks [fl]. *)
Fixpoint chained (bl : list JSMallocBlockHeader) (start : Z) (fl : list nat) : Prop :=
  match fl with
  | [] => start = FREE_NIL
  | i :: fl => start = Z.of_nat i /\ exists b, bl !! i = Some b /\ chained bl (u b) fl
  end.

Record arena_ok (a : JSMallocArena) (fl : list nat) : Prop := {
  ao_class : 0 <= ar_block_size_idx a < JS_MALLOC_BLOCK_SIZE_COUNT;
  ao_n : n_blocks a = arena_n_blocks (ar_block_size_idx a);
  ao_len : Z.of_nat (length (blocks a)) = n_blocks a;
  ao_nodup : NoDup fl;
  ao_chain : chained (blocks a) (first_free_block a) fl;
  ao_blocks : forall i b, blocks a !! i = Some b ->
    block_size_idx b = ar_block_size_idx a /\
    Z.of_nat (length (user b)) = block_size_of (ar_block_size_idx a) - sizeof_BlockHeader /\
    (i ∉ fl -> u b = Z.of_nat i);
  ao_used : n_used_blocks a = n_blocks a - Z.of_nat (length fl);
}.

Lemma chained_lookup bl start fl i : chained bl start fl -> i ∈ fl -> is_Some (bl !! i).
Proof.
  revert start. induction fl as [|j fl IH]; intros start Hc Hi; [by apply not_elem_of_nil in Hi|].
  destruct Hc as [_ (b & Hb & Hc)]. apply elem_of_cons in Hi as [->|Hi]; [by eauto|by eapply IH].
Qed.

(** The link of a free block is not its own index. *)
Lemma chained_not_self bl start fl i b :
  NoDup fl -> chained bl start fl -> Z.of_nat (length bl) < FREE_NIL ->
  i ∈ fl -> bl !! i = Some b -> u b <> Z.of_nat i.
Proof.
  revert start. induction fl as [|j fl IH]; intros start Hnd Hc Hl Hi Hb; [by apply not_elem_of_nil in Hi|].
  apply NoDup_cons in Hnd as [Hj Hnd]. destruct Hc as [_ (bj & Hbj & Hc)].
  apply elem_of_cons in Hi as [->|Hi]; [|by eapply IH].
  rewrite Hbj in Hb. injection Hb as <-. destruct fl as [|k fl]; simpl in Hc.
  - rewrite Hc. apply lookup_lt_Some in Hbj. unfold FREE_NIL in *. lia.
  - destruct Hc as [-> _]. intros E%Nat2Z.inj. subst. apply Hj. by left.
Qed.

Lemma chained_insert bl start fl i b :
  i ∉ fl -> chained bl start fl -> chained (<[i := b]> bl) start fl.
Proof.
  revert start. induction fl as [|j fl IH]; intros start Hi Hc; [done|].
  apply not_elem_of_cons in Hi as [Hne Hi]. destruct Hc as [-> (bj & Hbj & Hc)].
  split; [done|]. exists bj. rewrite list_lookup_insert_ne by done. eauto.
Qed.

Lemma chained_bound bl start fl : NoDup fl -> chained bl start fl -> (length fl <= length bl)%nat.
Proof.
  intros Hnd Hc. rewrite <- (length_seq (length bl) 0). apply submseteq_length, NoDup_submseteq; [done|].
  intros i Hi. destruct (chained_lookup _ _ _ _ Hc Hi) as [b Hb]. apply lookup_lt_Some in Hb.
  apply elem_of_seq. lia.
Qed.

Lemma arena_len_small a fl : arena_ok a fl -> Z.of_nat (length (blocks a)) < FREE_NIL.
Proof.
  intros Ha. pose proof (class_shape _ (ao_class a fl Ha)). pose proof (ao_n a fl Ha).
  pose proof (ao_len a fl Ha). unfold FREE_NIL in *. lia.
Qed.

(** A block is in use when its header holds its own index. *)
Definition used (a : JSMallocArena) (i : nat) : Prop :=
  exists b, blocks a !! i = Some b /\ u b = Z.of_nat i.

Lemma used_iff a fl i : arena_ok a fl -> used a i <-> is_Some (blocks a !! i) /\ i ∉ fl.
Proof.
  intros Ha. split.
  - intros (b & Hb & Hu). split; [by eauto|]. intros Hi.
    by apply (chained_not_self _ _ _ _ _ (ao_nodup a fl Ha) (ao_chain a fl Ha) (arena_len_small a fl Ha) Hi Hb).
  - intros [[b Hb] Hi]. exists b. split; [done|]. by apply (ao_blocks a fl Ha i b Hb).
Qed.

(** Arenas are full exactly when their free list is empty. *)
Lemma full_iff a fl : arena_ok a fl -> n_used_blocks a < n_blocks a <-> fl <> [].
Proof.
  intros Ha. pose proof (ao_used a fl Ha). destruct fl; simpl in *; split; try lia; done.
Qed.

Lemma used_count a fl : arena_ok a fl -> 0 <= n_used_blocks a <= n_blocks a.
Proof.
  intros Ha. pose proof (ao_used a fl Ha). pose proof (ao_len a fl Ha).
  pose proof (chained_bound _ _ _ (ao_nodup a fl Ha) (ao_chain a fl Ha)). lia.
Qed.

(** *** Taking and returning a block *)

Lemma arena_take_ok a i fl :
  arena_ok a (i :: fl) ->
  first_free_block a = Z.of_nat i /\ exists b, blocks a !! i = Some b /\ arena_ok (arena_take a b) fl.
Proof.
  intros [Hc Hn Hl Hnd Hch Hb Hu]. destruct Hch as [Hf (b & Hbi & Hch)].
  apply NoDup_cons in Hnd as [Hi Hnd]. split; [done|]. exists b. split; [done|].
  unfold arena_take. rewrite Hf, Nat2Z.id. split; simpl; [done|done| |done|by apply chained_insert| |].
  - by rewrite length_insert.
  - intros j bj Hj. destruct (decide (i = j)) as [<-|Hne].
    + rewrite list_lookup_insert_eq in Hj by (by eapply lookup_lt_Some). simplify_eq/=.
      destruct (Hb i b Hbi) as (? & ? & _). done.
    + rewrite list_lookup_insert_ne in Hj by done. destruct (Hb j bj Hj) as (? & ? & H3).
      split; [done|]. split; [done|]. intros Hjf. apply H3. by apply not_elem_of_cons.
  - simpl in Hu. lia.
Qed.

Lemma arena_put_ok a fl i b :
  arena_ok a fl -> blocks a !! i = Some b -> u b = Z.of_nat i ->
  arena_ok (arena_put a (Z.of_nat i) b) (i :: fl).
Proof.
  intros Ha Hbi Hub. assert (Hi : i ∉ fl) by (apply (used_iff a fl i Ha); by exists b).
  destruct Ha as [Hc Hn Hl Hnd Hch Hb Hu]. unfold arena_put. rewrite Nat2Z.id.
  split; simpl; [done|done|by rewrite length_insert|by apply NoDup_cons| | |simpl in *; lia].
  - split; [done|]. eexists. rewrite list_lookup_insert_eq by (by eapply lookup_lt_Some).
    split; [done|]. by apply chained_insert.
  - intros j bj Hj. destruct (decide (i = j)) as [<-|Hne].
    + rewrite list_lookup_insert_eq in Hj by (by eapply lookup_lt_Some). simplify_eq/=.
      destruct (Hb i b Hbi) as (? & ? & _). split; [done|]. split; [done|]. intros Hn'. exfalso. apply Hn'. by left.
    + rewrite list_lookup_insert_ne in Hj by done. destruct (Hb j bj Hj) as (? & ? & H3).
      split; [done|]. split; [done|]. intros Hjf. apply H3. by apply not_elem_of_cons in Hjf as [_ ?].
Qed.

(** What the two changes do to the blocks in use, and to the others. *)
Lemma used_take a i fl b j :
  arena_ok a (i :: fl) -> arena_ok (arena_take a b) fl -> blocks a !! i = Some b ->
  (used (arena_take a b) j <-> used a j \/ j = i) /\ ~ used a i /\
  (j <> i -> blocks (arena_take a b) !! j = blocks a !! j) /\
  exists b', blocks (arena_take a b) !! i = Some b' /\ user b' = user b.
Proof.
  intros Ha Ha' Hb. pose proof (ao_chain _ _ Ha) as [Hff _].
  pose proof (proj1 (NoDup_cons _ _) (ao_nodup _ _ Ha)) as [Hi _].
  rewrite (used_iff _ fl j Ha'), (used_iff a (i :: fl) j Ha), (used_iff a (i :: fl) i Ha), !not_elem_of_cons.
  unfold arena_take; simpl. rewrite Hff, Nat2Z.id.
  pose proof (lookup_lt_Some _ _ _ Hb) as Hlt.
  split; [|split; [naive_solver|split]].
  - destruct (decide (i = j)) as [<-|Hne].
    + rewrite list_lookup_insert_eq by done. naive_solver.
    + rewrite list_lookup_insert_ne by done. naive_solver.
  - intros Hne. by rewrite list_lookup_insert_ne.
  - rewrite list_lookup_insert_eq by done. eauto.
Qed.

Lemma used_put a fl i b j :
  arena_ok a fl -> blocks a !! i = Some b -> u b = Z.of_nat i ->
  (used (arena_put a (Z.of_nat i) b) j <-> used a j /\ j <> i) /\
  (j <> i -> blocks (arena_put a (Z.of_nat i) b) !! j = blocks a !! j).
Proof.
  intros Ha Hb Hub. pose proof (arena_put_ok a fl i b Ha Hb Hub) as Ha'.
  rewrite (used_iff _ (i :: fl) j Ha'), (used_iff a fl j Ha), not_elem_of_cons.
  unfold arena_put; simpl. rewrite Nat2Z.id.
  destruct (decide (i = j)) as [<-|Hne]; [naive_solver|].
  rewrite list_lookup_insert_ne by done. naive_solver.
Qed.

(** ** The context *)

Definition emptyb (s : JSMallocContext) (base : positive) : bool :=
  match arena_at s base with Some a => n_used_blocks a =? 0 | None => false end.

(** The empty arenas of a free list, one of them possibly left out. *)
Definition spares (s : JSMallocContext) (ex : option positive) (l : list positive) : list positive :=
  filter (fun b => emptyb s b = true /\ Some b <> ex) l.

Record ctx_inv (s : JSMallocContext) (ex : option positive) : Prop := {
  ci_arena : forall base a, arena_at s base = Some a -> exists fl, arena_ok a fl;
  ci_large : forall base h, host s !! base = Some (HLarge h) -> u h = FREE_NIL;
  ci_list_nd : forall c, NoDup (arena_list s c);
  ci_list : forall c base, base ∈ arena_list s c <->
    exists a, arena_at s base = Some a /\ ar_block_size_idx a = c;
  ci_free_nd : forall c, NoDup (free_arena_list s c);
  ci_free : forall c base, base ∈ free_arena_list s c <->
    exists a, arena_at s base = Some a /\ ar_block_size_idx a = c /\ n_used_blocks a < n_blocks a;
  ci_empty : forall c, n_empty_arenas s c = Z.of_nat (length (spares s ex (free_arena_list s c)));
  ci_bound : forall c, n_empty_arenas s c <= JS_MALLOC_MAX_EMPTY_ARENAS;
}.

Definition ctx_ok (s : JSMallocContext) : Prop := ctx_inv s None.

(** Offset of the user data of block [i] of an arena of class [c]. *)
Definition block_off (c : Z) (i : nat) : Z :=
  get_arena_block (Z.of_nat i) (block_size_of c) + sizeof_BlockHeader.

(** The blocks handed out and not returned. *)
Definition live (s : JSMallocContext) (p : ptr) : Prop :=
  match p with
  | PZero => False
  | PBlk base off =>
      match host s !! base with
      | Some (HLarge _) => off = sizeof_BlockHeader
      | Some (HArena a) => exists i, off = block_off (ar_block_size_idx a) i /\ used a i
      | None => False
      end
  end.

Definition content (s : JSMallocContext) (p : ptr) : option JSMallocBlockHeader :=
  match p with PZero => None | PBlk base off => read_header s base off end.

Lemma read_arena s base a fl i :
  arena_at s base = Some a -> arena_ok a fl ->
  read_header s base (block_off (ar_block_size_idx a) i) = blocks a !! i.
Proof.
  intros Hb Ha. unfold read_header, arena_at in *. destruct (host s !! base) as [[a'|]|]; simplify_eq.
  destruct (class_shape _ (ao_class a fl Ha)) as (Hbs & _). unfold block_off, get_arena_block.
  set (bs := block_size_of (ar_block_size_idx a)) in *.
  replace (sizeof_JSMallocArena + Z.of_nat i * bs + sizeof_BlockHeader - sizeof_BlockHeader -
             sizeof_JSMallocArena) with (Z.of_nat i * bs) by lia.
  rewrite Z.div_mul, Z_mod_mult, Nat2Z.id by lia.
  destruct (Z.ltb_spec (Z.of_nat i * bs) 0); [lia|]. done.
Qed.

Lemma block_off_inj c i j : 0 <= c < JS_MALLOC_BLOCK_SIZE_COUNT -> block_off c i = block_off c j -> i = j.
Proof. intros Hc. pose proof (class_shape c Hc). unfold block_off, get_arena_block. nia. Qed.

Lemma arena_at_set base a s b :
  arena_at (set_arena base a s) b = if decide (b = base) then Some a else arena_at s b.
Proof.
  unfold arena_at, set_arena. simpl. destruct (decide (b = base)) as [->|Hne].
  - by rewrite lookup_insert_eq.
  - by rewrite lookup_insert_ne.
Qed.

(** *** Counting the spares *)

Lemma spares_ext s s' ex ex' l :
  (forall b, b ∈ l -> (emptyb s' b = true /\ Some b <> ex' <-> emptyb s b = true /\ Some b <> ex)) ->
  spares s' ex' l = spares s ex l.
Proof. intros H. unfold spares. by apply list_filter_iff_in. Qed.

Lemma spares_unlink s base l : spares s (Some base) (unlink base l) = spares s (Some base) l.
Proof.
  unfold spares, unlink. rewrite list_filter_filter. apply list_filter_iff.
  intros b. naive_solver.
Qed.

Lemma spares_cons_ex s base l : spares s (Some base) (base :: l) = spares s (Some base) l.
Proof. unfold spares. rewrite filter_cons_False by naive_solver. done. Qed.

Lemma spares_full s base l : emptyb s base = false -> spares s None l = spares s (Some base) l.
Proof.
  intros He. apply spares_ext. intros b _. split; intros [H1 H2]; split; try done.
  intros [= ->]. congruence.
Qed.

Lemma spares_one_more s base l :
  NoDup l -> base ∈ l -> emptyb s base = true ->
  length (spares s None l) = S (length (spares s (Some base) l)).
Proof.
  intros Hnd Hin He. apply list_elem_of_split in Hin as (l1 & l2 & ->).
  unfold spares. rewrite !filter_app, (filter_cons_True _ base), (filter_cons_False _ base) by naive_solver.
  rewrite !length_app. simpl. rewrite Nat.add_succ_r. f_equal.
  apply NoDup_app in Hnd as (_ & H1 & [H2 _]%NoDup_cons).
  f_equal; f_equal; apply list_filter_iff_in; intros b Hb; split; intros [Hx Hy]; split; try done; intros [= ->].
  - apply (H1 base Hb). by left.
  - by apply H2.
Qed.

(** *** One arena changes: everything else follows from its free list and
    the number of spares of its class *)
Lemma inv_update s ex s' base a a' fl' :
  ctx_inv s ex -> (ex = None \/ ex = Some base) -> arena_at s base = Some a -> arena_ok a' fl' ->
  ar_block_size_idx a' = ar_block_size_idx a -> n_blocks a' = n_blocks a ->
  host s' = <[base := HArena a']> (host s) -> arena_list s' = arena_list s ->
  let c := ar_block_size_idx a in
  (forall d, d <> c -> free_arena_list s' d = free_arena_list s d /\ n_empty_arenas s' d = n_empty_arenas s d) ->
  NoDup (free_arena_list s' c) ->
  (forall b, b ∈ free_arena_list s' c <->
     (b <> base /\ b ∈ free_arena_list s c) \/ (b = base /\ n_used_blocks a' < n_blocks a')) ->
  n_empty_arenas s' c = Z.of_nat (length (spares s' None (free_arena_list s' c))) ->
  n_empty_arenas s' c <= JS_MALLOC_MAX_EMPTY_ARENAS ->
  ctx_ok s'.
Proof.
  intros Hinv Hex Hbase Ha' Hcl Hnb Hhost Hlist c Hother Hnd Hmem Hcnt Hbnd.
  assert (Hat : forall b, arena_at s' b = if decide (b = base) then Some a' else arena_at s b).
  { intros b. rewrite <- (arena_at_set base a' s b). unfold arena_at. by rewrite Hhost. }
  split.
  - intros b ab Hb. rewrite Hat in Hb. destruct (decide (b = base)); [simplify_eq; eauto|].
    by apply (ci_arena s ex Hinv b).
  - intros b h Hb. rewrite Hhost in Hb. apply lookup_insert_Some in Hb as [[? ?]|[? Hb]]; [done|].
    by apply (ci_large s ex Hinv b).
  - intros d. rewrite Hlist. apply Hinv.
  - intros d b. rewrite Hlist, (ci_list s ex Hinv), Hat. destruct (decide (b = base)) as [->|]; [|done].
    rewrite Hbase. split; intros (? & [= <-] & <-); eauto.
  - intros d. destruct (decide (d = c)) as [->|Hd]; [done|]. destruct (Hother d Hd) as [-> _]. apply Hinv.
  - intros d b. rewrite Hat. destruct (decide (d = c)) as [->|Hd].
    + rewrite Hmem, (ci_free s ex Hinv). destruct (decide (b = base)) as [->|Hb].
      * split; [intros [[? ?]|[_ ?]]; [done|eauto]|intros (? & [= <-] & _ & ?); by right].
      * naive_solver.
    + destruct (Hother d Hd) as [-> _]. rewrite (ci_free s ex Hinv).
      destruct (decide (b = base)) as [->|]; [|done].
      rewrite Hbase. split; intros (? & [= <-] & Hc & _); exfalso; apply Hd; subst c; congruence.
  - intros d. destruct (decide (d = c)) as [->|Hd]; [done|]. destruct (Hother d Hd) as [-> ->].
    rewrite (ci_empty s ex Hinv). do 2 f_equal. apply spares_ext. intros b Hb.
    assert (Hne : b <> base).
    { intros ->. apply (ci_free s ex Hinv) in Hb as (a1 & Ha1 & Hc & _). apply Hd. subst c. congruence. }
    assert (emptyb s' b = emptyb s b) as -> by (unfold emptyb; rewrite Hat, decide_False by done; done).
    split; intros [? ?]; (split; [done|]); [done|]. destruct Hex as [->| ->]; congruence.
  - intros d. destruct (decide (d = c)) as [->|Hd]; [done|]. destruct (Hother d Hd) as [_ ->]. apply Hinv.
Qed.

(** Liveness and contents when one arena changes. *)
Lemma live_update s s' base a a' :
  arena_at s base = Some a -> host s' = <[base := HArena a']> (host s) ->
  forall p, live s' p <->
    match p with
    | PBlk b off => if decide (b = base) then exists i, off = block_off (ar_block_size_idx a') i /\ used a' i
                    else live s p
    | PZero => False
    end.
Proof.
  intros Ha Hh [|b off]; [done|]. unfold live at 1. rewrite Hh.
  destruct (decide (b = base)) as [->|Hne]; [by rewrite lookup_insert_eq|].
  by rewrite lookup_insert_ne by done.
Qed.

Lemma live_arena s base a off :
  arena_at s base = Some a ->
  live s (PBlk base off) <-> exists i, off = block_off (ar_block_size_idx a) i /\ used a i.
Proof. unfold arena_at, live. destruct (host s !! base) as [[]|]; naive_solver. Qed.

Lemma content_other s s' base hb b off :
  host s' = <[base := hb]> (host s) -> b <> base -> content s' (PBlk b off) = content s (PBlk b off).
Proof. intros Hh Hne. unfold content, read_header. by rewrite Hh, lookup_insert_ne by done. Qed.

Lemma upd_same {A} (t : Z -> A) c v : upd t c v c = v.
Proof. unfold upd. by rewrite Z.eqb_refl. Qed.
Lemma upd_other {A} (t : Z -> A) c v d : d <> c -> upd t c v d = t d.
Proof. intros H. unfold upd. apply Z.eqb_neq in H. by rewrite H. Qed.

Lemma emptyb_set base a s b :
  emptyb (set_arena base a s) b = if decide (b = base) then n_used_blocks a =? 0 else emptyb s b.
Proof. unfold emptyb. rewrite arena_at_set. by destruct (decide (b = base)). Qed.

(** ** [take_block] *)

Lemma take_inv s s1 base a a' fl c :
  ctx_inv s (Some base) -> arena_at s base = Some a -> ar_block_size_idx a = c ->
  n_used_blocks a < n_blocks a -> 0 <= n_used_blocks a ->
  arena_ok a' fl -> ar_block_size_idx a' = c -> n_blocks a' = n_blocks a ->
  n_used_blocks a' = n_used_blocks a + 1 ->
  s1 = (if n_used_blocks a' =? n_blocks a' then upd_free_list c (unlink base) (set_arena base a' s)
        else set_arena base a' s) ->
  ctx_ok s1.
Proof.
  intros Hinv Hbase Hc Hlt Hpos Ha' Hca' Hnb Hnu Hs1.
  assert (Hhost : host s1 = <[base := HArena a']> (host s)) by (subst s1; by destruct (_ =? _)).
  assert (Hat : forall b, b <> base -> arena_at s1 b = arena_at s b).
  { intros b Hb. unfold arena_at. by rewrite Hhost, lookup_insert_ne. }
  assert (He : emptyb s1 base = false).
  { unfold emptyb, arena_at. rewrite Hhost, lookup_insert_eq. lia. }
  assert (Hsp : forall l, spares s1 None l = spares s (Some base) l).
  { intros l. rewrite (spares_full s1 base) by done. apply spares_ext. intros b _. unfold emptyb.
    destruct (decide (b = base)) as [->|]; [naive_solver|]. by rewrite Hat. }
  apply (inv_update s (Some base) s1 base a a' fl Hinv); try done; [by right|congruence|..];
    rewrite ?Hc, ?Hsp; subst s1; destruct (Z.eqb_spec (n_used_blocks a') (n_blocks a')); simpl;
    rewrite ?upd_same, ?spares_unlink; try done; try apply Hinv.
  - intros d Hd. by rewrite upd_other.
  - apply NoDup_unlink, Hinv.
  - intros b. rewrite elem_of_unlink. split; [by left|]. intros [?|[_ ?]]; [done|lia].
  - intros b. destruct (decide (b = base)) as [->|]; [|naive_solver].
    rewrite (ci_free s _ Hinv). split; [intros _; right; split; [done|lia]|].
    intros _. exists a. split; [done|]. split; [done|lia].
Qed.

Lemma take_block_spec s base a c :
  ctx_inv s (Some base) -> arena_at s base = Some a -> ar_block_size_idx a = c ->
  n_used_blocks a < n_blocks a ->
  exists p s', take_block c base s = Some (p, s') /\ ctx_ok s' /\ ~ live s p /\
    (forall q, live s' q <-> live s q \/ q = p) /\
    (forall q, live s q -> content s' q = content s q) /\
    (exists b, content s' p = Some b /\
       Z.of_nat (length (user b)) = block_size_of c - sizeof_BlockHeader).
Proof.
  intros Hinv Hbase Hc Hlt. destruct (ci_arena s _ Hinv base a Hbase) as [fl Ha].
  destruct fl as [|i fl]; [by apply (full_iff a [] Ha) in Hlt|].
  destruct (arena_take_ok a i fl Ha) as (Hff & b & Hbi & Ha').
  pose proof (fun j => used_take a i fl b j Ha Ha' Hbi) as Hut.
  destruct (Hut i) as (_ & Hi & _ & (b' & Hb' & Hub')).
  unfold take_block. rewrite Hbase. cbn [mbind option_bind]. rewrite Hff, Nat2Z.id, Hbi.
  cbn [mbind option_bind]. set (a' := arena_take a b) in *. set (s1 := if _ =? _ then _ else _).
  assert (Hhost : host s1 = <[base := HArena a']> (host s)) by (unfold s1; by destruct (_ =? _)).
  assert (Hs1 : arena_at s1 base = Some a') by (unfold arena_at; by rewrite Hhost, lookup_insert_eq).
  assert (Hca : ar_block_size_idx a' = c) by done.
  exists (PBlk base (block_off c i)), s1. split; [done|]. split; [|split; [|split; [|split]]].
  - eapply (take_inv s s1 base a a' fl c); try done. apply (used_count a _ Ha).
  - intros (j & Hj & Hu)%(live_arena s base a _ Hbase). rewrite Hc in Hj.
    apply block_off_inj in Hj as <-; [done|subst c; apply Ha].
  - intros [|b0 off]; rewrite (live_update s s1 base a a' Hbase Hhost); [naive_solver|].
    destruct (decide (b0 = base)) as [->|]; [|naive_solver].
    rewrite (live_arena s base a _ Hbase), Hca, Hc. split.
    + intros (j & -> & Hu). apply (Hut j) in Hu as [Hu| ->]; [left; eauto|by right].
    + intros [(j & -> & Hu)|[= ->]]; [exists j|exists i]; (split; [done|]); apply Hut; by auto.
  - intros [|b0 off] Hq; [done|]. destruct (decide (b0 = base)) as [->|Hne];
      [|by apply (content_other s s1 base (HArena a'))].
    apply (live_arena s base a _ Hbase) in Hq as (j & -> & Hu). unfold content.
    rewrite (read_arena s base a _ j Hbase Ha), Hc, <- Hca, (read_arena s1 base a' fl j Hs1 Ha').
    apply Hut. by intros ->.
  - exists b'. unfold content. rewrite <- Hca at 1. rewrite (read_arena s1 base a' fl i Hs1 Ha').
    split; [done|]. rewrite Hub', <- Hc. apply (ao_blocks a _ Ha i b Hbi).
Qed.

(** ** New arenas *)

Definition new_arena (c : Z) : JSMallocArena :=
  Arena c 0 (arena_n_blocks c) 0 (fresh_block c (arena_n_blocks c) <$> seqZ 0 (arena_n_blocks c)).

Lemma fresh_lookup c n i :
  (fresh_block c n <$> seqZ 0 n) !! i = if decide (Z.of_nat i < n) then Some (fresh_block c n (Z.of_nat i)) else None.
Proof.
  rewrite list_lookup_fmap. destruct (decide (Z.of_nat i < n)).
  - by rewrite lookup_seqZ_lt by lia.
  - by rewrite lookup_seqZ_ge by lia.
Qed.

Lemma fresh_chained c n k i :
  Z.of_nat (i + k) = n -> chained (fresh_block c n <$> seqZ 0 n)
    (if Z.of_nat i <? n then Z.of_nat i else FREE_NIL) (seq i k).
Proof.
  revert i. induction k as [|k IH]; intros i Hn; simpl.
  - destruct (Z.ltb_spec (Z.of_nat i) n); [lia|done].
  - destruct (Z.ltb_spec (Z.of_nat i) n); [|lia]. split; [done|].
    rewrite fresh_lookup, decide_True by lia. eexists. split; [done|]. simpl.
    specialize (IH (S i) ltac:(lia)). destruct (Z.ltb_spec (Z.of_nat i) (n - 1)) as [H1|H1];
      destruct (Z.ltb_spec (Z.of_nat (S i)) n) as [H2|H2]; try lia; [|done].
    by replace (Z.of_nat i + 1) with (Z.of_nat (S i)) by lia.
Qed.

Lemma new_arena_ok c :
  0 <= c < JS_MALLOC_BLOCK_SIZE_COUNT ->
  arena_ok (new_arena c) (seq 0 (Z.to_nat (arena_n_blocks c))) /\ forall i, ~ used (new_arena c) i.
Proof.
  intros Hc. pose proof (class_shape c Hc) as (Hbs & Hn & _).
  assert (Hok : arena_ok (new_arena c) (seq 0 (Z.to_nat (arena_n_blocks c)))).
  { split; simpl; [done|done| |apply NoDup_seq| | |rewrite length_seq; lia].
    - rewrite length_fmap, length_seqZ. lia.
    - pose proof (fresh_chained c (arena_n_blocks c) (Z.to_nat (arena_n_blocks c)) 0 ltac:(lia)) as H.
      change (Z.of_nat 0) with 0 in H. destruct (Z.ltb_spec 0 (arena_n_blocks c)); [done|lia].
    - intros i b. rewrite fresh_lookup. destruct (decide _) as [Hi|]; [|done]. intros [= <-]. simpl.
      split; [done|]. split; [rewrite length_replicate; unfold sizeof_BlockHeader; lia|].
      rewrite elem_of_seq. lia. }
  split; [done|]. intros i Hu. apply (used_iff _ _ i Hok) in Hu as [[b Hb] Hi]. apply Hi, elem_of_seq.
  apply lookup_lt_Some in Hb. simpl in Hb. rewrite length_fmap, length_seqZ in Hb. lia.
Qed.

(** ** [pick_arena] *)
Lemma pick_new s c base :
  ctx_ok s -> 0 <= c < JS_MALLOC_BLOCK_SIZE_COUNT -> host s !! base = None ->
  ctx_inv (upd_free_list c (cons base) (upd_arena_list c (cons base) (set_arena base (new_arena c) s)))
    (Some base).
Proof.
  intros Hinv Hc Hb. set (s' := upd_free_list _ _ _). pose proof (class_shape c Hc) as (_ & Hn & _).
  assert (Hnone : arena_at s base = None) by (unfold arena_at; by rewrite Hb).
  assert (Hat : forall b, arena_at s' b = if decide (b = base) then Some (new_arena c) else arena_at s b)
    by (intros b; apply (arena_at_set base (new_arena c) s b)).
  assert (Hfresh : forall d, base ∉ arena_list s d /\ base ∉ free_arena_list s d).
  { intros d. rewrite (ci_list s _ Hinv), (ci_free s _ Hinv), Hnone. naive_solver. }
  split; simpl.
  - intros b a. rewrite Hat. destruct (decide (b = base)); [|apply Hinv]. intros [= <-].
    eexists. by apply new_arena_ok.
  - intros b h Hh. apply lookup_insert_Some in Hh as [[? ?]|[? Hh]]; [done|]. by apply (ci_large s _ Hinv b).
  - intros d. destruct (decide (d = c)) as [->|Hd]; [rewrite upd_same|rewrite upd_other by done; apply Hinv].
    apply NoDup_cons. split; [apply Hfresh|apply Hinv].
  - intros d b. rewrite Hat. destruct (decide (d = c)) as [->|Hd].
    + rewrite upd_same, elem_of_cons, (ci_list s _ Hinv). destruct (decide (b = base)) as [->|]; naive_solver.
    + rewrite upd_other, (ci_list s _ Hinv) by done. destruct (decide (b = base)) as [->|]; [|done].
      rewrite Hnone. split; [naive_solver|]. by intros (? & [= <-] & ?).
  - intros d. destruct (decide (d = c)) as [->|Hd]; [rewrite upd_same|rewrite upd_other by done; apply Hinv].
    apply NoDup_cons. split; [apply Hfresh|apply Hinv].
  - intros d b. rewrite Hat. destruct (decide (d = c)) as [->|Hd].
    + rewrite upd_same, elem_of_cons, (ci_free s _ Hinv). destruct (decide (b = base)) as [->|]; [|naive_solver].
      split; [intros _; exists (new_arena c); simpl; split; [done|]; split; [done|lia]|by left].
    + rewrite upd_other, (ci_free s _ Hinv) by done. destruct (decide (b = base)) as [->|]; [|done].
      rewrite Hnone. split; [naive_solver|]. by intros (? & [= <-] & ? & _).
  - intros d.
    assert (Hsp : forall l, base ∉ l -> spares s' (Some base) l = spares s None l).
    { intros l Hl. apply spares_ext. intros b Hbl. unfold emptyb. rewrite Hat, decide_False by congruence.
      split; intros [? ?]; (split; [done|]); congruence. }
    rewrite (ci_empty s _ Hinv). destruct (decide (d = c)) as [->|Hd].
    + rewrite upd_same, spares_cons_ex, Hsp by apply Hfresh. done.
    + rewrite upd_other by done. by rewrite Hsp by apply Hfresh.
  - apply Hinv.
Qed.

Lemma pick_arena_spec ok c s :
  ctx_ok s -> 0 <= c < JS_MALLOC_BLOCK_SIZE_COUNT ->
  (pick_arena ok c s = Some (None, s) /\ ok = false) \/
  exists base a s1, pick_arena ok c s = Some (Some base, s1) /\ ctx_inv s1 (Some base) /\
    arena_at s1 base = Some a /\ ar_block_size_idx a = c /\ n_used_blocks a < n_blocks a /\
    (forall p, live s1 p <-> live s p) /\ (forall p, live s p -> content s1 p = content s p).
Proof.
  intros Hinv Hc. unfold pick_arena. destruct (free_arena_list s c) as [|base rest] eqn:Ef.
  - unfold js_malloc_new_arena, host_malloc. destruct ok; [right|by left]. cbn [mbind option_bind].
    set (base := fresh (dom (host s))).
    assert (Hb : host s !! base = None) by (apply not_elem_of_dom; unfold base; apply is_fresh).
    eexists base, (new_arena c), _. split; [done|]. split; [by apply pick_new|].
    destruct (new_arena_ok c Hc) as [_ Hnew]. pose proof (class_shape c Hc).
    split; [unfold arena_at; simpl; by rewrite lookup_insert_eq|]. split; [done|]. split; [simpl; lia|].
    split; intros [|b off]; try done; unfold content, read_header, live; simpl;
      destruct (decide (b = base)) as [->|]; rewrite ?lookup_insert_eq, ?lookup_insert_ne, ?Hb by done;
      naive_solver.
  - assert (Hin : base ∈ free_arena_list s c) by (rewrite Ef; by left).
    pose proof Hin as (a & Ha & Hca & Hlt)%(ci_free s _ Hinv). rewrite Ha. right.
    cbn [mbind option_bind]. eexists base, a, _. split; [done|].
    split; [|destruct (_ =? _); done].
    pose proof (ci_empty s _ Hinv c) as Hcnt. pose proof (ci_bound s _ Hinv c) as Hbnd.
    assert (Hsp : forall s' d, host s' = host s -> spares s' (Some base) (free_arena_list s d) =
                                 spares s (Some base) (free_arena_list s d)).
    { intros s' d Hh. apply spares_ext. intros b _. unfold emptyb, arena_at. by rewrite Hh. }
    assert (Hother : forall d, d <> c -> spares s (Some base) (free_arena_list s d) =
                                 spares s None (free_arena_list s d)).
    { intros d Hd. apply spares_ext. intros b Hb. split; intros [? ?]; split; try done.
      intros [= ->]. apply (ci_free s _ Hinv) in Hb as (a1 & Ha1 & Hc1 & _). congruence. }
    destruct (Z.eqb_spec (n_used_blocks a) 0) as [E0|Hn0].
    + assert (He : emptyb s base = true) by (unfold emptyb; rewrite Ha; lia).
      pose proof (spares_one_more s base _ (ci_free_nd s _ Hinv c) Hin He) as Hone.
      destruct Hinv. split; try done; intros d; simpl.
      * rewrite Hsp by done. destruct (decide (d = c)) as [->|Hd]; [rewrite upd_same|rewrite upd_other by done; by rewrite Hother].
        lia.
      * destruct (decide (d = c)) as [->|Hd]; [rewrite upd_same; lia|by rewrite upd_other].
    + assert (He : emptyb s base = false) by (unfold emptyb; rewrite Ha; lia).
      destruct Hinv. split; try done. intros d. by rewrite <- (spares_full s base).
Qed.

(** ** [__js_malloc] *)

(** What a successful allocation of [size] bytes gives. *)
Definition allocated (size : Z) (s : JSMallocContext) (p : ptr) (s' : JSMallocContext) : Prop :=
  ~ live s p /\ (forall q, live s' q <-> live s q \/ q = p) /\
  (forall q, live s q -> content s' q = content s q) /\
  exists b, content s' p = Some b /\ size <= Z.of_nat (length (user b)).

Lemma large_inv s base h :
  ctx_ok s -> host s !! base = None -> u h = FREE_NIL ->
  ctx_ok (Ctx (<[base := HLarge h]> (host s)) (arena_list s) (free_arena_list s) (n_empty_arenas s)).
Proof.
  intros Hinv Hb Hh. set (s' := Ctx _ _ _ _).
  assert (Hat : forall b, arena_at s' b = arena_at s b).
  { intros b. unfold arena_at; simpl. destruct (decide (b = base)) as [->|].
    - by rewrite lookup_insert_eq, Hb.
    - by rewrite lookup_insert_ne. }
  split; simpl; try apply Hinv.
  - intros b a. rewrite Hat. apply Hinv.
  - intros b h' Hl. apply lookup_insert_Some in Hl as [[? ?]|[? Hl]]; [by simplify_eq|].
    by apply (ci_large s _ Hinv b).
  - intros c b. rewrite Hat. apply Hinv.
  - intros c b. rewrite Hat. apply Hinv.
  - intros c. rewrite (ci_empty s _ Hinv). do 2 f_equal. apply spares_ext. intros b _.
    unfold emptyb. by rewrite Hat.
Qed.

Lemma large_live s base h size :
  host s !! base = None -> Z.of_nat (length (user h)) = size ->
  allocated size s (PBlk base sizeof_BlockHeader)
    (Ctx (<[base := HLarge h]> (host s)) (arena_list s) (free_arena_list s) (n_empty_arenas s)).
Proof.
  intros Hb Hlen. split; [unfold live; rewrite Hb; tauto|]. split; [|split].
  - intros [|b off]; unfold live; simpl; [naive_solver|]. destruct (decide (b = base)) as [->|].
    + rewrite lookup_insert_eq, Hb. naive_solver.
    + rewrite lookup_insert_ne by done. naive_solver.
  - intros [|b off] Hq; [done|]. eapply content_other; [done|]. intros ->. unfold live in Hq. by rewrite Hb in Hq.
  - exists h. unfold content, read_header; simpl. rewrite lookup_insert_eq. by split; [|lia].
Qed.

Lemma fresh_base s : host s !! fresh (dom (host s)) = None.
Proof. apply (not_elem_of_dom (D := gset positive)). apply is_fresh. Qed.

Lemma malloc_spec ok size s :
  ctx_ok s -> 0 <= size <= 2 ^ 64 - 16 ->
  exists p s', __js_malloc ok size s = Some (p, s') /\ ctx_ok s' /\
    match p with
    | None => ok = false /\ s' = s
    | Some PZero => size = 0 /\ s' = s
    | Some p => size <> 0 /\ allocated size s p s'
    end.
Proof.
  intros Hinv Hsize. unfold __js_malloc. destruct (Z.eqb_spec size 0) as [->|Hn0].
  { eexists _, _. split; [done|]. done. }
  pose proof (total_size_spec size ltac:(lia)) as Ht.
  destruct (Z.leb_spec (total_size size) JS_MALLOC_MAX_SMALL_SIZE) as [Hle|Hgt].
  - destruct (class_fits (total_size size) ltac:(lia)) as [Hc Hfit].
    set (c := get_block_size_index (total_size size)) in *.
    destruct (pick_arena_spec ok c s Hinv Hc) as [[-> ->]|(base & a & s1 & -> & Hi1 & Ha & Hca & Hlt & Hl & Hcon)].
    + cbn [mbind option_bind]. eexists _, _. split; [done|]. done.
    + cbn [mbind option_bind].
      destruct (take_block_spec s1 base a c Hi1 Ha Hca Hlt) as (p & s2 & Et & Hok & Hnl & Hlive & Hcon2 & b & Hb & Hlen).
      rewrite Et. cbn [mbind option_bind]. eexists _, _. split; [done|]. split; [done|].
      assert (Hp : p <> PZero) by (intros ->; done). destruct p as [|pb po]; [done|]. split; [done|].
      split; [by rewrite <- Hl|]. split; [intros q; by rewrite Hlive, Hl|]. split.
      * intros q Hq. rewrite Hcon2 by (by apply Hl). by apply Hcon.
      * exists b. split; [done|]. unfold sizeof_BlockHeader in *. lia.
  - unfold js_malloc_large, host_malloc. destruct ok; [|eexists _, _; done].
    pose proof (fresh_base s) as Hb. eexists _, _. split; [done|]. split; [by apply large_inv|].
    split; [done|]. apply large_live; [done|]. simpl. rewrite length_replicate. lia.
Qed.

(** ** [__js_free] *)

Definition freed (s : JSMallocContext) (p : ptr) (s' : JSMallocContext) : Prop :=
  (forall q, live s' q <-> live s q /\ q <> p) /\ (forall q, live s' q -> content s' q = content s q).

(** The lists after a block of [base] was returned; [a'] is the new arena. *)
Lemma put_inv s s1 base a a' fl c :
  ctx_ok s -> arena_at s base = Some a -> ar_block_size_idx a = c ->
  0 < n_used_blocks a <= n_blocks a ->
  arena_ok a' fl -> ar_block_size_idx a' = c -> n_blocks a' = n_blocks a ->
  n_used_blocks a' = n_used_blocks a - 1 ->
  s1 = set_arena base a' (if n_used_blocks a =? n_blocks a then upd_free_list c (cons base) s else s) ->
  (n_used_blocks a' <> 0 -> ctx_ok s1) /\
  (n_used_blocks a' = 0 -> n_empty_arenas s1 c < JS_MALLOC_MAX_EMPTY_ARENAS ->
     ctx_ok (upd_empty c (fun n => n + 1) s1)).
Proof.
  intros Hinv Hbase Hc Hrange Ha' Hca' Hnb Hnu Hs1. set (l := free_arena_list s1 c).
  assert (Hhost : host s1 = <[base := HArena a']> (host s)) by (subst s1; by destruct (_ =? _)).
  assert (Hlist : arena_list s1 = arena_list s) by (subst s1; by destruct (_ =? _)).
  assert (Hemp : n_empty_arenas s1 = n_empty_arenas s) by (subst s1; by destruct (_ =? _)).
  assert (Hother : forall d, d <> c -> free_arena_list s1 d = free_arena_list s d).
  { intros d Hd. subst s1. destruct (_ =? _); [|done]. simpl. by rewrite upd_other. }
  assert (Hfull : base ∈ free_arena_list s c <-> n_used_blocks a < n_blocks a).
  { rewrite (ci_free s _ Hinv), Hbase. naive_solver. }
  assert (Hl : NoDup l /\ (forall b, b ∈ l <-> (b <> base /\ b ∈ free_arena_list s c) \/ b = base) /\
               spares s (Some base) l = spares s (Some base) (free_arena_list s c)).
  { unfold l. subst s1. destruct (Z.eqb_spec (n_used_blocks a) (n_blocks a)); simpl; rewrite ?upd_same.
    - split; [apply NoDup_cons; split; [rewrite Hfull; lia|apply Hinv]|].
      split; [intros b; rewrite elem_of_cons; destruct (decide (b = base)) as [->|]; tauto|]. apply spares_cons_ex.
    - split; [apply Hinv|]. split; [|done]. intros b. destruct (decide (b = base)) as [->|]; [|tauto].
      rewrite Hfull. split; [by right|lia]. }
  destruct Hl as (Hnd & Hmem & Hsp).
  assert (Hbe : emptyb s base = false) by (unfold emptyb; rewrite Hbase; lia).
  assert (Hcnt : n_empty_arenas s c = Z.of_nat (length (spares s (Some base) l))).
  { by rewrite Hsp, (ci_empty s _ Hinv c), (spares_full s base). }
  assert (Hsp1 : forall s2, host s2 = host s1 -> spares s2 (Some base) l = spares s (Some base) l).
  { intros s2 Hh. apply spares_ext. intros b _. destruct (decide (b = base)) as [->|]; [naive_solver|].
    unfold emptyb, arena_at. by rewrite Hh, Hhost, lookup_insert_ne. }
  assert (Hbe1 : forall s2, host s2 = host s1 -> emptyb s2 base = (n_used_blocks a' =? 0)).
  { intros s2 Hh. unfold emptyb, arena_at. by rewrite Hh, Hhost, lookup_insert_eq. }
  assert (Hbl : base ∈ l) by (apply Hmem; by right).
  assert (Hmem' : forall b, b ∈ l <-> (b <> base /\ b ∈ free_arena_list s c) \/
                                      (b = base /\ n_used_blocks a' < n_blocks a')).
  { intros b. rewrite Hmem. assert (n_used_blocks a' < n_blocks a') by lia. naive_solver. }
  split.
  - intros Hne. apply (inv_update s None s1 base a a' fl Hinv);
      [by left|done|done|congruence|done|done|done|rewrite Hc..].
    + intros d Hd. by rewrite Hother, Hemp.
    + done.
    + exact Hmem'.
    + fold l. rewrite (spares_full s1 base) by (rewrite Hbe1 by done; lia). by rewrite Hsp1, Hemp.
    + rewrite Hemp. apply Hinv.
  - intros H0 Hlt. set (s2 := upd_empty _ _ _). assert (Hh2 : host s2 = host s1) by done.
    apply (inv_update s None s2 base a a' fl Hinv);
      [by left|done|done|congruence|done|done|done|rewrite Hc; simpl; rewrite ?upd_same..].
    + intros d Hd. rewrite upd_other by done. by rewrite Hother, Hemp.
    + done.
    + exact Hmem'.
    + fold l. rewrite (spares_one_more s2 base) by (done || rewrite Hbe1 by done; lia).
      rewrite Hsp1 by done. rewrite Hemp. lia.
    + unfold JS_MALLOC_MAX_EMPTY_ARENAS in *. lia.
Qed.

(** Giving an arena back to the host. *)
Lemma drop_inv s s3 base a :
  ctx_ok s -> arena_at s base = Some a -> emptyb s base = false ->
  host s3 = delete base (host s) -> (forall d, arena_list s3 d = unlink base (arena_list s d)) ->
  (forall d, free_arena_list s3 d = unlink base (free_arena_list s d)) ->
  n_empty_arenas s3 = n_empty_arenas s -> ctx_ok s3.
Proof.
  intros Hinv Hbase He Hhost Hlist Hfree Hemp.
  assert (Hat : forall b, arena_at s3 b = if decide (b = base) then None else arena_at s b).
  { intros b. unfold arena_at. rewrite Hhost. destruct (decide (b = base)) as [->|].
    - by rewrite lookup_delete_eq.
    - by rewrite lookup_delete_ne. }
  split.
  - intros b a1. rewrite Hat. destruct (decide (b = base)); [done|apply Hinv].
  - intros b h Hh. rewrite Hhost in Hh. apply lookup_delete_Some in Hh as [_ Hh]. by apply (ci_large s _ Hinv b).
  - intros d. rewrite Hlist. apply NoDup_unlink, Hinv.
  - intros d b. rewrite Hlist, elem_of_unlink, (ci_list s _ Hinv), Hat.
    destruct (decide (b = base)) as [->|]; naive_solver.
  - intros d. rewrite Hfree. apply NoDup_unlink, Hinv.
  - intros d b. rewrite Hfree, elem_of_unlink, (ci_free s _ Hinv), Hat.
    destruct (decide (b = base)) as [->|]; naive_solver.
  - intros d. rewrite Hemp, Hfree, (ci_empty s _ Hinv), (spares_full s base) by done.
    rewrite <- (spares_unlink s base). do 2 f_equal. apply spares_ext.
    intros b [Hne _]%elem_of_unlink. unfold emptyb. rewrite Hat, decide_False by done. naive_solver.
  - intros d. rewrite Hemp. apply Hinv.
Qed.

(** Liveness and contents after a block of an arena was returned. *)
Lemma put_freed s s1 base a fl i b :
  arena_at s base = Some a -> arena_ok a fl -> blocks a !! i = Some b -> u b = Z.of_nat i ->
  host s1 = <[base := HArena (arena_put a (Z.of_nat i) b)]> (host s) ->
  freed s (PBlk base (block_off (ar_block_size_idx a) i)) s1.
Proof.
  intros Hbase Ha Hb Hub Hhost. set (a' := arena_put a (Z.of_nat i) b) in *.
  pose proof (arena_put_ok a fl i b Ha Hb Hub) as Ha'. fold a' in Ha'.
  pose proof (fun j => used_put a fl i b j Ha Hb Hub) as Hup. fold a' in Hup.
  assert (Hs1 : arena_at s1 base = Some a') by (unfold arena_at; by rewrite Hhost, lookup_insert_eq).
  assert (Hlive : forall q, live s1 q <-> live s q /\ q <> PBlk base (block_off (ar_block_size_idx a) i)).
  { intros [|b0 off]; rewrite (live_update s s1 base a a' Hbase Hhost); [naive_solver|].
    destruct (decide (b0 = base)) as [->|]; [|naive_solver].
    rewrite (live_arena s base a _ Hbase). change (ar_block_size_idx a') with (ar_block_size_idx a). split.
    - intros (j & -> & [Hu Hne]%Hup). split; [eauto|]. intros [= Hj].
      apply Hne. by apply (block_off_inj _ _ _ (ao_class a fl Ha)).
    - intros [(j & -> & Hu) Hne]. exists j. split; [done|]. apply Hup. split; [done|]. by intros ->. }
  split; [exact Hlive|]. intros [|b0 off] Hq; [done|].
  destruct (decide (b0 = base)) as [->|Hne]; [|by apply (content_other s s1 base (HArena a'))].
  apply Hlive in Hq as [(j & -> & Hu)%(live_arena s base a _ Hbase) Hne]. unfold content.
  rewrite (read_arena s base a fl j Hbase Ha). change (ar_block_size_idx a) with (ar_block_size_idx a').
  rewrite (read_arena s1 base a' _ j Hs1 Ha'). apply Hup. by intros ->.
Qed.

(** An arena with no block in use has no live block. *)
Lemma empty_not_used a fl i : arena_ok a fl -> n_used_blocks a = 0 -> ~ used a i.
Proof.
  intros Ha H0 [[b Hb] Hi]%(used_iff a fl i Ha). pose proof (ao_used a fl Ha) as Hu.
  pose proof (ao_len a fl Ha) as Hl.
  assert (Hall : seq 0 (length (blocks a)) ≡ₚ fl).
  { symmetry. apply submseteq_length_Permutation; [|rewrite length_seq; lia].
    apply NoDup_submseteq; [apply Ha|]. intros j Hj.
    destruct (chained_lookup _ _ _ _ (ao_chain a fl Ha) Hj) as [bj Hbj].
    apply lookup_lt_Some in Hbj. apply elem_of_seq. lia. }
  apply Hi. rewrite <- Hall. apply lookup_lt_Some in Hb. apply elem_of_seq. lia.
Qed.

(** Conversely, an arena all of whose blocks are free counts none in use. *)
Lemma all_free_count a fl : arena_ok a fl -> (forall i, ~ used a i) -> n_used_blocks a = 0.
Proof.
  intros Ha Hn. pose proof (ao_used a fl Ha) as Hu. pose proof (ao_len a fl Ha) as Hl.
  assert (length (blocks a) <= length fl)%nat; [|pose proof (used_count a fl Ha); lia].
  rewrite <- (length_seq (length (blocks a)) 0). apply submseteq_length, NoDup_submseteq; [apply NoDup_seq|].
  intros i Hi%elem_of_seq. destruct (decide (i ∈ fl)) as [|Hi']; [done|]. exfalso. apply (Hn i).
  apply (used_iff a fl i Ha). split; [apply lookup_lt_is_Some_2; lia|done].
Qed.

Lemma drop_freed s s1 s3 p base a fl :
  freed s p s1 -> arena_at s1 base = Some a -> arena_ok a fl -> n_used_blocks a = 0 ->
  host s3 = delete base (host s1) -> freed s p s3.
Proof.
  intros [Hl Hc] Hbase Ha H0 Hh.
  assert (Hlive : forall q, live s3 q <-> live s1 q).
  { intros [|b off]; [done|]. destruct (decide (b = base)) as [Eb|Hne].
    - subst b. rewrite (live_arena s1 base a _ Hbase). unfold live. rewrite Hh, lookup_delete_eq.
      split; [done|]. intros (i & _ & Hu). by apply (empty_not_used a fl i) in Hu.
    - unfold live. by rewrite Hh, lookup_delete_ne. }
  split; [intros q; by rewrite Hlive|]. intros q Hq. apply Hlive in Hq. rewrite <- (Hc q Hq).
  destruct q as [|b off]; [done|]. unfold content, read_header. rewrite Hh, lookup_delete_ne; [done|].
  intros Eb. subst b. apply (live_arena s1 base a _ Hbase) in Hq as (i & _ & Hu).
  by apply (empty_not_used a fl i) in Hu.
Qed.

Lemma free_large s base h :
  ctx_ok s -> host s !! base = Some (HLarge h) ->
  ctx_ok (host_free base s) /\ freed s (PBlk base sizeof_BlockHeader) (host_free base s).
Proof.
  intros Hinv Hh. assert (Hat : forall b, arena_at (host_free base s) b = arena_at s b).
  { intros b. unfold arena_at; simpl. destruct (decide (b = base)) as [->|].
    - by rewrite lookup_delete_eq, Hh.
    - by rewrite lookup_delete_ne. }
  split.
  - split; simpl; try apply Hinv.
    + intros b a. rewrite Hat. apply Hinv.
    + intros b h' [_ Hl]%lookup_delete_Some. by apply (ci_large s _ Hinv b).
    + intros c b. rewrite Hat. apply Hinv.
    + intros c b. rewrite Hat. apply Hinv.
    + intros c. rewrite (ci_empty s _ Hinv). do 2 f_equal. apply spares_ext. intros b _.
      unfold emptyb. by rewrite Hat.
  - split.
    + intros [|b off]; [naive_solver|]. unfold live; simpl. destruct (decide (b = base)) as [->|].
      * rewrite lookup_delete_eq, Hh. naive_solver.
      * rewrite lookup_delete_ne by done. naive_solver.
    + intros [|b off] Hq; [done|]. unfold content, read_header; simpl. unfold live in Hq; simpl in Hq.
      destruct (decide (b = base)) as [->|]; [by rewrite lookup_delete_eq in Hq|by rewrite lookup_delete_ne].
Qed.

(** What a live pointer points to. *)
Lemma live_cases s p :
  ctx_ok s -> live s p -> exists base off, p = PBlk base off /\
    ((exists h, host s !! base = Some (HLarge h) /\ off = sizeof_BlockHeader /\ u h = FREE_NIL /\
        content s p = Some h) \/
     (exists a fl i b, arena_at s base = Some a /\ arena_ok a fl /\ off = block_off (ar_block_size_idx a) i /\
        blocks a !! i = Some b /\ u b = Z.of_nat i /\ u b <> FREE_NIL /\ content s p = Some b)).
Proof.
  intros Hinv. destruct p as [|base off]; [done|]. intros Hl. exists base, off. split; [done|].
  unfold live in Hl. destruct (host s !! base) as [[a|h]|] eqn:Eh; [| |done].
  - right. assert (Ha : arena_at s base = Some a) by (unfold arena_at; by rewrite Eh).
    destruct (ci_arena s _ Hinv base a Ha) as [fl Hok]. destruct Hl as (i & -> & b & Hb & Hu).
    exists a, fl, i, b. do 5 (split; [done|]). split.
    + rewrite Hu. pose proof (arena_len_small a fl Hok). apply lookup_lt_Some in Hb. lia.
    + unfold content. by rewrite (read_arena s base a fl i Ha Hok).
  - left. exists h. split; [done|]. split; [done|]. split; [by apply (ci_large s _ Hinv base)|].
    unfold content, read_header. rewrite Eh, Hl. done.
Qed.

Lemma free_arena s base a fl i b :
  ctx_ok s -> arena_at s base = Some a -> arena_ok a fl -> blocks a !! i = Some b -> u b = Z.of_nat i ->
  u b <> FREE_NIL ->
  exists s', __js_free (Some (PBlk base (block_off (ar_block_size_idx a) i))) s = Some s' /\ ctx_ok s' /\
    freed s (PBlk base (block_off (ar_block_size_idx a) i)) s'.
Proof.
  intros Hinv Hbase Ha Hb Hub Hnil. set (c := ar_block_size_idx a).
  destruct (ao_blocks a fl Ha i b Hb) as (Hbc & _ & _).
  pose proof (arena_put_ok a fl i b Ha Hb Hub) as Ha'. pose proof (used_count _ _ Ha') as Hcnt'.
  pose proof (used_count _ _ Ha) as Hcnt. simpl in Hcnt'.
  cbn [__js_free]. unfold c. rewrite (read_arena s base a fl i Hbase Ha), Hb. cbn [mbind option_bind].
  apply Z.eqb_neq in Hnil. rewrite Hnil, Hbc, Hub. fold c.
  replace (block_off c i - sizeof_BlockHeader - block_size_of c * Z.of_nat i - sizeof_JSMallocArena =? 0)
    with true by (unfold block_off, get_arena_block; lia).
  rewrite Hbase. cbn [negb mbind option_bind]. set (a' := arena_put a (Z.of_nat i) b) in *.
  set (s1 := set_arena base a' _).
  assert (Hh1 : host s1 = <[base := HArena a']> (host s)) by (unfold s1; by destruct (n_used_blocks a =? n_blocks a)).
  assert (Hs1 : arena_at s1 base = Some a') by (unfold arena_at; by rewrite Hh1, lookup_insert_eq).
  destruct (put_inv s s1 base a a' _ c Hinv Hbase eq_refl ltac:(lia) Ha' eq_refl eq_refl eq_refl eq_refl)
    as [Hkeep Hspare].
  pose proof (put_freed s s1 base a fl i b Hbase Ha Hb Hub Hh1) as Hfr. fold c in Hfr.
  eexists. split; [done|]. destruct (Z.eqb_spec (n_used_blocks a') 0) as [E0|Hn0]; [|by auto].
  destruct (Z.ltb_spec (n_empty_arenas s1 c) JS_MALLOC_MAX_EMPTY_ARENAS) as [Hlt|Hge]; [by auto|].
  split; [|by eapply (drop_freed s s1 _ _ base a')].
  assert (Hother : forall d, d <> c -> base ∉ arena_list s d /\ base ∉ free_arena_list s d).
  { intros d Hd. rewrite (ci_list s _ Hinv), (ci_free s _ Hinv), Hbase. naive_solver. }
  apply (drop_inv s _ base a); [done|done| | | | |].
  - unfold emptyb. rewrite Hbase. simpl in E0. lia.
  - change (delete base (host s1) = delete base (host s)). by rewrite Hh1, delete_insert_eq.
  - intros d. simpl. destruct (decide (d = c)) as [->|Hd].
    + rewrite upd_same. unfold s1. by destruct (n_used_blocks a =? n_blocks a).
    + rewrite upd_other by done. rewrite unlink_notin by (by apply Hother). unfold s1. by destruct (n_used_blocks a =? n_blocks a).
  - intros d. simpl. destruct (decide (d = c)) as [->|Hd].
    + rewrite upd_same. unfold s1. destruct (n_used_blocks a =? n_blocks a); simpl; rewrite ?upd_same; [|done].
      unfold unlink. by rewrite filter_cons_False by naive_solver.
    + rewrite upd_other by done. rewrite unlink_notin by (by apply Hother).
      unfold s1. destruct (n_used_blocks a =? n_blocks a); [|done]. simpl. by rewrite upd_other.
  - simpl. unfold s1. by destruct (n_used_blocks a =? n_blocks a).
Qed.

Lemma free_spec p s :
  ctx_ok s -> live s p -> exists s', __js_free (Some p) s = Some s' /\ ctx_ok s' /\ freed s p s'.
Proof.
  intros Hinv Hl. destruct (live_cases s p Hinv Hl) as (base & off & -> & [H|H]).
  - destruct H as (h & Hh & -> & Hu & Hc). exists (host_free base s).
    unfold content in Hc. cbn [__js_free]. rewrite Hc. cbn [mbind option_bind].
    apply Z.eqb_eq in Hu. rewrite Hu. split; [done|]. by eapply free_large.
  - destruct H as (a & fl & i & b & Ha & Hok & -> & Hb & Hu & Hn & _). by eapply free_arena.
Qed.

(** ** Writes through live pointers *)

(** A write that leaves the allocator's fields alone. *)
Definition client_write (f : JSMallocBlockHeader -> JSMallocBlockHeader) (b : JSMallocBlockHeader) : Prop :=
  u (f b) = u b /\ block_size_idx (f b) = block_size_idx b /\ length (user (f b)) = length (user b).

Lemma chained_write bl start fl i b b' :
  bl !! i = Some b -> u b' = u b -> chained bl start fl -> chained (<[i := b']> bl) start fl.
Proof.
  intros Hb Hu. revert start. induction fl as [|j fl IH]; intros start Hc; [done|].
  destruct Hc as [-> (bj & Hbj & Hc)]. split; [done|]. destruct (decide (i = j)) as [<-|Hne].
  - exists b'. rewrite list_lookup_insert_eq by (by eapply lookup_lt_Some). simplify_eq.
    split; [done|]. rewrite Hu. by apply IH.
  - exists bj. rewrite list_lookup_insert_ne by done. split; [done|by apply IH].
Qed.

Definition arena_write (a : JSMallocArena) (i : nat) (b' : JSMallocBlockHeader) : JSMallocArena :=
  Arena (ar_block_size_idx a) (n_used_blocks a) (n_blocks a) (first_free_block a) (<[i := b']> (blocks a)).

Lemma arena_write_ok a fl i b b' :
  arena_ok a fl -> blocks a !! i = Some b -> u b' = u b -> block_size_idx b' = block_size_idx b ->
  length (user b') = length (user b) ->
  arena_ok (arena_write a i b') fl /\ forall j, used (arena_write a i b') j <-> used a j.
Proof.
  intros Ha Hb Hu Hc Hl. pose proof (lookup_lt_Some _ _ _ Hb) as Hlt. split.
  - destruct Ha as [H1 H2 H3 H4 H5 H6 H7]. split; simpl; try done; [by rewrite length_insert|by eapply chained_write|].
    intros j bj Hj. destruct (decide (i = j)) as [<-|Hne].
    + rewrite list_lookup_insert_eq in Hj by done. simplify_eq. rewrite Hu, Hc, Hl. by apply H6.
    + rewrite list_lookup_insert_ne in Hj by done. by apply H6.
  - intros j. unfold used; simpl. destruct (decide (i = j)) as [<-|Hne].
    + rewrite list_lookup_insert_eq, Hb by done.
      split; intros (? & [= <-] & ?); eexists; (split; [done|congruence]).
    + by rewrite list_lookup_insert_ne by done.
Qed.

(** The result of a write at a live pointer. *)
Definition written (s : JSMallocContext) (p : ptr) (b' : JSMallocBlockHeader) (s' : JSMallocContext) : Prop :=
  ctx_ok s' /\ (forall q, live s' q <-> live s q) /\ content s' p = Some b' /\
  (forall q, live s q -> q <> p -> content s' q = content s q).

Lemma write_large s base h f :
  ctx_ok s -> host s !! base = Some (HLarge h) -> u h = FREE_NIL -> client_write f h ->
  exists s', write_block base sizeof_BlockHeader f s = Some s' /\
    written s (PBlk base sizeof_BlockHeader) (f h) s'.
Proof.
  intros Hinv Hh Hu (Hfu & Hfc & Hfl).
  unfold write_block. rewrite Hh, Z.eqb_refl. eexists. split; [done|]. set (s' := Ctx _ _ _ _).
  assert (Hat : forall x, arena_at s' x = arena_at s x).
  { intros x. unfold arena_at; simpl. destruct (decide (x = base)) as [->|].
    - by rewrite lookup_insert_eq, Hh.
    - by rewrite lookup_insert_ne. }
  split; [|split; [|split]].
  + split; simpl; try apply Hinv.
    * intros x a. rewrite Hat. apply Hinv.
    * intros x h' [[-> [= <-]]|[_ Hx]]%lookup_insert_Some; [congruence|by apply (ci_large s _ Hinv x)].
    * intros c x. rewrite Hat. apply Hinv.
    * intros c x. rewrite Hat. apply Hinv.
    * intros c. rewrite (ci_empty s _ Hinv). do 2 f_equal. apply spares_ext. intros x _.
      unfold emptyb. by rewrite Hat.
  + intros [|x o]; [done|]. unfold live; simpl. destruct (decide (x = base)) as [->|].
    * by rewrite lookup_insert_eq, Hh.
    * by rewrite lookup_insert_ne.
  + unfold content, read_header; simpl. rewrite lookup_insert_eq. done.
  + intros [|x o] Hq Hne; [done|]. eapply content_other; [done|]. intros ->. apply Hne.
    unfold live in Hq. rewrite Hh in Hq. by subst.
Qed.

Lemma write_arena s base a fl i b f :
  ctx_ok s -> arena_at s base = Some a -> arena_ok a fl -> blocks a !! i = Some b -> client_write f b ->
  exists s', write_block base (block_off (ar_block_size_idx a) i) f s = Some s' /\
    written s (PBlk base (block_off (ar_block_size_idx a) i)) (f b) s'.
Proof.
  intros Hinv Ha Hok Hb (Hfu & Hfc & Hfl).
  pose proof (class_shape _ (ao_class a fl Hok)) as (Hbs & _).
  assert (Hhost : host s !! base = Some (HArena a))
    by (unfold arena_at in Ha; by destruct (host s !! base) as [[]|]; simplify_eq).
  set (a' := arena_write a i (f b)).
  destruct (arena_write_ok a fl i b (f b) Hok Hb Hfu Hfc Hfl) as [Hok' Hused]. fold a' in Hok', Hused.
  exists (set_arena base a' s). split.
  { unfold write_block. rewrite Hhost. unfold block_off, get_arena_block.
    set (bs := block_size_of (ar_block_size_idx a)) in *.
    replace (sizeof_JSMallocArena + Z.of_nat i * bs + sizeof_BlockHeader - sizeof_BlockHeader -
               sizeof_JSMallocArena) with (Z.of_nat i * bs) by lia.
    rewrite Z.div_mul, Z_mod_mult, Nat2Z.id, Hb by lia.
    by destruct (Z.ltb_spec (Z.of_nat i * bs) 0); [lia|]. }
  pose proof (live_update s (set_arena base a' s) base a a' Ha eq_refl) as Hlive.
  assert (Ha1 : arena_at (set_arena base a' s) base = Some a') by (by rewrite arena_at_set, decide_True).
  split; [|split; [|split]].
  + apply (inv_update s None _ base a a' fl Hinv);
      [by left|done|done|done|done|done|done|done|apply Hinv| | |apply Hinv].
    * intros x. destruct (decide (x = base)) as [->|]; [|naive_solver].
      simpl. rewrite (ci_free s _ Hinv), Ha. split; [intros (? & [= <-] & _ & ?); by right|].
      intros [[? ?]|[_ ?]]; [done|eauto].
    * simpl. rewrite (ci_empty s _ Hinv). do 2 f_equal. apply spares_ext. intros x _.
      rewrite emptyb_set. destruct (decide (x = base)) as [->|]; [|done]. unfold emptyb. by rewrite Ha.
  + intros [|x o]; rewrite Hlive; [done|]. destruct (decide (x = base)) as [->|]; [|done].
    rewrite (live_arena s base a _ Ha). by setoid_rewrite Hused.
  + unfold content. change (ar_block_size_idx a) with (ar_block_size_idx a').
    rewrite (read_arena _ base a' fl i Ha1 Hok'). simpl.
    by rewrite list_lookup_insert_eq by (by eapply lookup_lt_Some).
  + intros [|x o] Hq Hne; [done|]. destruct (decide (x = base)) as [->|]; [|by eapply content_other].
    apply (live_arena s base a _ Ha) in Hq as (j & -> & _). unfold content.
    rewrite (read_arena s base a fl j Ha Hok). change (ar_block_size_idx a) with (ar_block_size_idx a').
    rewrite (read_arena _ base a' fl j Ha1 Hok'). simpl. rewrite list_lookup_insert_ne; [done|].
    intros ->. by apply Hne.
Qed.

Lemma write_spec s base off b f :
  ctx_ok s -> live s (PBlk base off) -> content s (PBlk base off) = Some b -> client_write f b ->
  exists s', write_block base off f s = Some s' /\ written s (PBlk base off) (f b) s'.
Proof.
  intros Hinv Hl Hcon Hf. destruct (live_cases s _ Hinv Hl) as (? & ? & [= <- <-] & [H|H]).
  - destruct H as (h & Hh & -> & Hu & Hc). rewrite Hc in Hcon. injection Hcon as ->. by apply write_large.
  - destruct H as (a & fl & i & b0 & Ha & Hok & -> & Hb & Hu & Hn & Hc). rewrite Hc in Hcon.
    injection Hcon as ->. by apply (write_arena s base a fl i b).
Qed.

(** ** [__js_realloc] *)

(** A block of [size] bytes at [q] replaces the one at [p]: the common prefix
    of the bytes and the GC fields are kept, the other blocks untouched. *)
Definition reallocated (size : Z) (s : JSMallocContext) (p q : ptr) (s' : JSMallocContext) : Prop :=
  (forall x, live s' x <-> (live s x /\ x <> p) \/ x = q) /\
  (forall x, live s x -> x <> p -> content s' x = content s x) /\
  (q = p \/ ~ live s q) /\
  exists b b', content s p = Some b /\ content s' q = Some b' /\ gc b' = gc b /\
    size <= Z.of_nat (length (user b')) /\
    forall k, Z.of_nat k < size -> (k < length (user b))%nat -> user b' !! k = user b !! k.

Lemma realloc_large ok size s base h :
  ctx_ok s -> 0 < size -> host s !! base = Some (HLarge h) -> u h = FREE_NIL ->
  exists r s', __js_realloc ok (Some (PBlk base sizeof_BlockHeader)) size s = Some (r, s') /\ ctx_ok s' /\
    match r with
    | None => ok = false /\ s' = s
    | Some q => reallocated size s (PBlk base sizeof_BlockHeader) q s'
    end.
Proof.
  intros Hinv Hsize Hh Hu. unfold __js_realloc. destruct (Z.eqb_spec size 0); [lia|].
  assert (Hc : read_header s base sizeof_BlockHeader = Some h).
  { unfold read_header. by rewrite Hh, Z.eqb_refl. }
  rewrite Hc. cbn [mbind option_bind]. rewrite Hu, Z.eqb_refl. unfold host_malloc.
  destruct ok; [|eexists _, _; done]. eexists _, _. split; [done|].
  set (nb := fresh (dom (host s))). pose proof (fresh_base s) as Hnb. fold nb in Hnb.
  destruct (free_large s base h Hinv Hh) as [Hok1 [Hl1 Hc1]].
  set (h' := Hdr FREE_NIL 255 _ _). change (Ctx _ _ _ _) with
    (Ctx (<[nb := HLarge h']> (host (host_free base s))) (arena_list (host_free base s))
       (free_arena_list (host_free base s)) (n_empty_arenas (host_free base s))).
  assert (Hne : nb <> base) by (intros E; rewrite E in Hnb; congruence).
  assert (Hnb1 : host (host_free base s) !! nb = None) by (simpl; by rewrite lookup_delete_ne).
  assert (Hlen : Z.of_nat (length (user h')) = size)
    by (simpl; rewrite length_app, length_take, length_replicate; lia).
  destruct (large_live _ nb h' size Hnb1 Hlen) as (_ & Hl2 & Hc2 & b & Hb & Hbl).
  split; [by apply large_inv|]. split; [|split; [|split]].
  - intros x. rewrite Hl2, Hl1. done.
  - intros x Hx Hxp. rewrite Hc2 by (by apply Hl1). apply Hc1. by apply Hl1.
  - right. unfold live. rewrite Hnb. tauto.
  - exists h, b. unfold content in Hb |- *. split; [done|]. split; [done|].
    assert (b = h') as ->.
    { unfold read_header in Hb. simpl in Hb. rewrite lookup_insert_eq in Hb. simpl in Hb. congruence. }
    split; [done|]. split; [lia|]. intros k Hk1 Hk2. simpl.
    rewrite lookup_app_l by (rewrite length_take; lia). by rewrite lookup_take_lt by lia.
Qed.

Lemma copy_write old size b :
  0 <= size -> size <= Z.of_nat (length (user old)) -> size <= Z.of_nat (length (user b)) ->
  client_write (copy_into old size) b.
Proof.
  intros H0 H1 H2. split; [done|]. split; [done|]. simpl.
  rewrite length_app, length_take, length_drop. lia.
Qed.

Lemma realloc_arena ok size s base a fl i b :
  ctx_ok s -> 0 < size <= 2 ^ 64 - 16 -> arena_at s base = Some a -> arena_ok a fl ->
  blocks a !! i = Some b -> u b = Z.of_nat i -> u b <> FREE_NIL ->
  let p := PBlk base (block_off (ar_block_size_idx a) i) in
  exists r s', __js_realloc ok (Some p) size s = Some (r, s') /\ ctx_ok s' /\
    match r with None => ok = false /\ s' = s | Some q => reallocated size s p q s' end.
Proof.
  intros Hinv Hsize Ha Hok Hb Hu Hnil p.
  assert (Hlive : live s p) by (apply (live_arena s base a _ Ha); exists i; split; [done|by exists b]).
  assert (Hcon : content s p = Some b) by (unfold content, p; by rewrite (read_arena s base a fl i Ha Hok)).
  destruct (ao_blocks a fl Hok i b Hb) as (Hbc & Hbl & _). pose proof (class_shape _ (ao_class a fl Hok)) as (Hbs & _).
  unfold __js_realloc. destruct (Z.eqb_spec size 0) as [|_]; [lia|]. unfold p at 1.
  unfold content, p in Hcon. rewrite Hcon. cbn [mbind option_bind].
  apply Z.eqb_neq in Hnil. rewrite Hnil, Hbc. set (bs := block_size_of (ar_block_size_idx a)) in *.
  unfold sizeof_BlockHeader in Hbl.
  pose proof (total_size_spec size Hsize) as Ht. destruct (Z.leb_spec (total_size size) bs) as [Hle|Hgt].
  - eexists _, _. split; [done|]. split; [done|]. split; [|split; [done|split; [by left|]]].
    + intros x. destruct (decide (x = p)); naive_solver.
    + exists b, b. repeat (split; [done|]). split; [|done]. lia.
  - destruct (malloc_spec ok size s Hinv ltac:(lia)) as (np & s1 & E & Hok1 & Hnp). rewrite E.
    cbn [mbind option_bind]. destruct np as [[|nb no]|]; [lia| |by eexists _, _].
    destruct Hnp as (_ & Hnl & Hl1 & Hc1 & b1 & Hb1 & Hlen1).
    set (n := if _ <? size then _ else size). assert (Hn : 0 <= n <= bs - 8 /\ n <= size /\ (n = bs - 8 \/ n = size)).
    { unfold n, sizeof_BlockHeader in *. destruct (Z.ltb_spec (bs - 8) size); lia. }
    destruct (write_spec s1 nb no b1 (copy_into b n) Hok1) as (s2 & E2 & Hok2 & Hl2 & Hb2 & Hc2);
      [by apply Hl1; right|done|apply copy_write; lia|]. rewrite E2. cbn [mbind option_bind].
    assert (Hpne : p <> PBlk nb no) by (intros Ep; by rewrite Ep in Hlive).
    destruct (free_spec p s2 Hok2) as (s3 & E3 & Hok3 & Hl3 & Hc3); [apply Hl2, Hl1; by left|].
    rewrite E3. cbn [mbind option_bind]. eexists _, _. split; [done|]. split; [done|].
    assert (Hlive3 : forall x, live s3 x <-> (live s x /\ x <> p) \/ x = PBlk nb no).
    { intros x. rewrite Hl3, Hl2, Hl1. split; [tauto|]. intros [[? ?]| ->]; split; try tauto. by intros <-. }
    split; [exact Hlive3|]. split; [|split; [by right|]].
    + intros x Hx Hxp. rewrite Hc3 by (apply Hlive3; by left).
      rewrite Hc2; [by apply Hc1|apply Hl1; by left|by intros ->].
    + exists b, (copy_into b n b1). split; [done|].
      split; [rewrite Hc3; [done|apply Hlive3; by right]|]. split; [done|].
      simpl. split; [rewrite length_app, length_take, length_drop; lia|].
      intros k Hk1 Hk2. rewrite lookup_app_l by (rewrite length_take; lia). by rewrite lookup_take_lt by lia.
Qed.

Lemma realloc_spec ok p size s :
  ctx_ok s -> live s p -> 0 < size <= 2 ^ 64 - 16 ->
  exists r s', __js_realloc ok (Some p) size s = Some (r, s') /\ ctx_ok s' /\
    match r with None => ok = false /\ s' = s | Some q => reallocated size s p q s' end.
Proof.
  intros Hinv Hl Hsize. destruct (live_cases s p Hinv Hl) as (base & off & -> & [H|H]).
  - destruct H as (h & Hh & -> & Hu & _). apply (realloc_large ok size s base h); try done. lia.
  - destruct H as (a & fl & i & b & Ha & Hok & -> & Hb & Hu & Hn & _). by eapply realloc_arena.
Qed.

(** ** Blocks are apart *)

(** [off, off + n) and [off', off' + n') of one host allocation. *)
Definition apart (p q : ptr) (n n' : Z) : Prop :=
  match p, q with
  | PBlk b off, PBlk b' off' => b <> b' \/ off + n <= off' \/ off' + n' <= off
  | _, _ => True
  end.

Lemma live_apart s p q bp bq :
  ctx_ok s -> live s p -> live s q -> p <> q -> content s p = Some bp -> content s q = Some bq ->
  apart p q (Z.of_nat (length (user bp))) (Z.of_nat (length (user bq))).
Proof.
  intros Hinv Hp Hq Hne Hcp Hcq.
  destruct (live_cases s p Hinv Hp) as (b & off & -> & Hcase).
  destruct (live_cases s q Hinv Hq) as (b' & off' & -> & Hcase').
  destruct (decide (b = b')) as [<-|Hb]; [|by left]. right.
  destruct Hcase as [(h & Hh & -> & _)|(a & fl & i & b1 & Ha & Hok & -> & Hb1 & _ & _ & Hc1)].
  - destruct Hcase' as [(h' & Hh' & -> & _)|(a' & ? & ? & ? & Ha' & _)]; [done|].
    unfold arena_at in Ha'. by rewrite Hh in Ha'.
  - destruct Hcase' as [(h' & Hh' & _)|(a' & fl' & j & b2 & Ha' & Hok' & -> & Hb2 & _ & _ & Hc2)].
    + unfold arena_at in Ha. by rewrite Hh' in Ha.
    + simplify_eq. destruct (ao_blocks _ _ Hok i _ Hb1) as (_ & -> & _).
      destruct (ao_blocks _ _ Hok j _ Hb2) as (_ & -> & _).
      pose proof (class_shape _ (ao_class _ _ Hok)) as (Hbs & _).
      unfold block_off, get_arena_block, sizeof_BlockHeader.
      assert (Hij : i <> j) by (intros ->; by apply Hne).
      destruct (Nat.lt_total i j) as [Hlt|[?|Hlt]]; [left|done|right]; nia.
Qed.

(** ** Reachable states *)

(** The calls the engine may make: it frees and reallocates blocks it holds,
    and writes inside them. *)
Inductive alloc_step : JSMallocContext -> JSMallocContext -> Prop :=
| step_malloc ok size r s s' :
    0 <= size <= 2 ^ 64 - 16 -> __js_malloc ok size s = Some (r, s') -> alloc_step s s'
| step_free p s s' : live s p -> __js_free (Some p) s = Some s' -> alloc_step s s'
| step_realloc ok p size r s s' :
    live s p -> 0 < size <= 2 ^ 64 - 16 -> __js_realloc ok (Some p) size s = Some (r, s') ->
    alloc_step s s'
| step_write base off f b s s' :
    live s (PBlk base off) -> content s (PBlk base off) = Some b -> client_write f b ->
    write_block base off f s = Some s' -> alloc_step s s'.

Definition reachable : JSMallocContext -> Prop := rtc alloc_step js_malloc_init.

Lemma init_ok : ctx_ok js_malloc_init.
Proof.
  assert (Hat : forall b, arena_at js_malloc_init b = None).
  { intros b. unfold arena_at, js_malloc_init; simpl. by rewrite lookup_empty. }
  split; simpl.
  - intros b a. by rewrite Hat.
  - intros b h Hh. by rewrite lookup_empty in Hh.
  - intros c. constructor.
  - intros c b. rewrite Hat. split; [by intros ?%not_elem_of_nil|naive_solver].
  - intros c. constructor.
  - intros c b. rewrite Hat. split; [by intros ?%not_elem_of_nil|naive_solver].
  - done.
  - done.
Qed.

Lemma step_ok s s' : ctx_ok s -> alloc_step s s' -> ctx_ok s'.
Proof.
  intros Hinv Hst. destruct Hst as [ok size r s s' Hs E|p s s' Hl E|ok p size r s s' Hl Hs E|base off f b s s' Hl Hc Hf E].
  - destruct (malloc_spec ok size s Hinv Hs) as (r' & s1 & E' & Hok & _). congruence.
  - destruct (free_spec p s Hinv Hl) as (s1 & E' & Hok & _). congruence.
  - destruct (realloc_spec ok p size s Hinv Hl Hs) as (r' & s1 & E' & Hok & _). congruence.
  - destruct (write_spec s base off b f Hinv Hl Hc Hf) as (s1 & E' & Hok & _). congruence.
Qed.

Lemma reachable_ok s : reachable s -> ctx_ok s.
Proof.
  intros Hr. unfold reachable in Hr. pose proof init_ok as H0. revert H0.
  induction Hr as [|x y z Hxy _ IH]; intros Hx; [done|]. apply IH. by eapply step_ok.
Qed.

(** ** Teardown *)

Lemma release_one_host c s x b :
  host (release_one c s x) !! b =
    (if decide (b = x /\ emptyb s x = true) then None else host s !! b) /\
  emptyb (release_one c s x) b = (if decide (b = x) then false else emptyb s b) /\
  forall d, d <> c -> free_arena_list (release_one c s x) d = free_arena_list s d.
Proof.
  assert (Heq : release_one c s x =
    if emptyb s x then host_free x (upd_free_list c (unlink x) (upd_arena_list c (unlink x) s)) else s)
    by (unfold release_one, emptyb; by destruct (arena_at s x)).
  rewrite Heq. destruct (emptyb s x) eqn:He.
  - split; [|split].
    + destruct (decide (b = x /\ true = true)) as [[-> _]|Hn]; simpl; [by rewrite lookup_delete_eq|].
      rewrite lookup_delete_ne; [done|]. naive_solver.
    + unfold emptyb, arena_at; simpl. destruct (decide (b = x)) as [->|]; [by rewrite lookup_delete_eq|].
      by rewrite lookup_delete_ne.
    + intros d Hd. simpl. by rewrite upd_other.
  - rewrite decide_False by naive_solver. split; [done|]. split; [|done].
    by destruct (decide (b = x)) as [->|].
Qed.

Lemma release_fold_host c l : forall s b,
  host (fold_left (release_one c) l s) !! b =
    (if decide (b ∈ l /\ emptyb s b = true) then None else host s !! b) /\
  forall d, d <> c -> free_arena_list (fold_left (release_one c) l s) d = free_arena_list s d.
Proof.
  induction l as [|x l IH]; intros s b; cbn [fold_left].
  - rewrite decide_False; [done|]. intros [?%not_elem_of_nil _]. done.
  - destruct (IH (release_one c s x) b) as [-> Hfree].
    destruct (release_one_host c s x b) as (-> & -> & Hf1).
    split; [|intros d Hd; by rewrite Hfree, Hf1].
    destruct (decide (b = x)) as [->|Hne].
    + rewrite (decide_False (P := x ∈ l /\ false = true)) by naive_solver.
      destruct (decide (x = x /\ emptyb s x = true)) as [H|H];
        [rewrite decide_True|rewrite decide_False]; rewrite ?elem_of_cons; naive_solver.
    + rewrite (decide_False (P := b = x /\ _)) by naive_solver.
      destruct (decide (b ∈ l /\ emptyb s b = true)) as [H|H];
        [rewrite decide_True|rewrite decide_False]; rewrite ?elem_of_cons; naive_solver.
Qed.

Lemma release_host cs : forall s b,
  NoDup cs ->
  (host s !! b = None -> host (fold_left (fun s c => release_class c s) cs s) !! b = None) /\
  ((exists c, c ∈ cs /\ b ∈ free_arena_list s c) -> emptyb s b = true ->
   host (fold_left (fun s c => release_class c s) cs s) !! b = None).
Proof.
  induction cs as [|c cs IH]; intros s b Hnd; cbn [fold_left].
  { split; [done|]. by intros (? & ?%not_elem_of_nil & _). }
  apply NoDup_cons in Hnd as [Hc Hnd].
  assert (Hhost : host (release_class c s) !! b =
    if decide (b ∈ free_arena_list s c /\ emptyb s b = true) then None else host s !! b)
    by (apply (release_fold_host c (free_arena_list s c) s b)).
  destruct (IH (release_class c s) b Hnd) as [H1 H2]. split.
  - intros Hn. apply H1. rewrite Hhost, Hn. by destruct (decide _).
  - intros (d & Hd & Hb) He. apply elem_of_cons in Hd as [->|Hd].
    + apply H1. by rewrite Hhost, decide_True.
    + destruct (decide (b ∈ free_arena_list s c)) as [Hin|Hin].
      * apply H1. by rewrite Hhost, decide_True.
      * apply H2; [|unfold emptyb, arena_at; rewrite Hhost, decide_False by naive_solver; exact He].
        exists d. split; [done|].
        change (b ∈ free_arena_list (fold_left (release_one c) (free_arena_list s c) s) d).
        destruct (release_fold_host c (free_arena_list s c) s b) as [_ ->]; [done|]. by intros ->.
Qed.

(** ** Properties *)

(** [C20] Allocations are fresh, large enough and apart, for requests of at
    most [2 ^ 64 - 16] bytes (a larger one wraps around, [malloc_size_wraps]).
    In every state the engine can reach by allocating, freeing, reallocating
    (with such sizes) and writing inside its blocks, [__js_malloc(size)] with
    such a size does not fault; it fails only when the
    host allocator does, leaving everything as it was; otherwise it returns
    the zero-size block for [size = 0] or a block that was not in use, has
    room for [size] bytes and does not overlap any other block in use, whose
    contents it does not touch. *)
Theorem malloc_fresh_and_apart (s : JSMallocContext) (ok : bool) (size : Z) :
  reachable s -> 0 <= size <= 2 ^ 64 - 16 ->
  exists r s', __js_malloc ok size s = Some (r, s') /\
    match r with
    | None => ok = false /\ s' = s
    | Some PZero => size = 0 /\ s' = s
    | Some p => size <> 0 /\ ~ live s p /\ (forall q, live s' q <-> live s q \/ q = p) /\
        (forall q, live s q -> content s' q = content s q) /\
        exists b, content s' p = Some b /\ size <= Z.of_nat (length (user b)) /\
          forall q bq, live s q -> content s q = Some bq ->
            apart p q (Z.of_nat (length (user b))) (Z.of_nat (length (user bq)))
    end.
Proof.
  intros Hr Hs. destruct (malloc_spec ok size s (reachable_ok s Hr) Hs) as (r & s' & E & Hok & Hm).
  exists r, s'. split; [done|]. destruct r as [[|base off]|]; try done.
  destruct Hm as (Hn0 & Hnl & Hl & Hc & b & Hb & Hlen). repeat (split; [done|]).
  exists b. split; [done|]. split; [done|]. intros q bq Hq Hbq.
  apply (live_apart s'); try done; [apply Hl; by right|apply Hl; by left|by intros <-|].
  by rewrite Hc.
Qed.

Definition demo_context : JSMallocContext :=
  match __js_malloc true 20 js_malloc_init with Some (_, s) => s | None => js_malloc_init end.

Lemma demo_reachable : reachable demo_context.
Proof.
  apply rtc_once. apply (step_malloc true 20 (Some (PBlk 1 48))); [lia|]. vm_compute. reflexivity.
Qed.

Lemma malloc_fresh_and_apart_witness :
  exists r s', __js_malloc true 24 demo_context = Some (r, s') /\ r = Some (PBlk 1 80) /\
    match r with
    | None => true = false /\ s' = demo_context
    | Some PZero => 24 = 0 /\ s' = demo_context
    | Some p => 24 <> 0 /\ ~ live demo_context p /\ (forall q, live s' q <-> live demo_context q \/ q = p) /\
        (forall q, live demo_context q -> content s' q = content demo_context q) /\
        exists b, content s' p = Some b /\ 24 <= Z.of_nat (length (user b)) /\
          forall q bq, live demo_context q -> content demo_context q = Some bq ->
            apart p q (Z.of_nat (length (user b))) (Z.of_nat (length (user bq)))
    end.
Proof.
  destruct (malloc_fresh_and_apart demo_context true 24 demo_reachable ltac:(lia)) as (r & s' & E & H).
  exists r, s'. split; [exact E|]. split; [|exact H].
  assert (Hv : (fst <$> __js_malloc true 24 demo_context) = Some (Some (PBlk 1 80))) by (vm_compute; reflexivity).
  rewrite E in Hv. simpl in Hv. congruence.
Defined.

(** Freeing and reallocating.  In every reachable state, freeing a block
    in use does not fault and removes exactly that block, leaving the others
    with their contents; reallocating a block in use to [size > 0] bytes
    fails only when the host allocator does, and then changes nothing, or
    gives a block with room for [size] bytes, the common prefix of the bytes
    and the GC fields of the old one, in place of it. *)
Theorem free_and_realloc_exact (s : JSMallocContext) (p : ptr) (ok : bool) (size : Z) :
  reachable s -> live s p -> 0 < size <= 2 ^ 64 - 16 ->
  (exists s', __js_free (Some p) s = Some s' /\
     (forall q, live s' q <-> live s q /\ q <> p) /\
     (forall q, live s' q -> content s' q = content s q)) /\
  (exists r s', __js_realloc ok (Some p) size s = Some (r, s') /\
     match r with None => ok = false /\ s' = s | Some q => reallocated size s p q s' end).
Proof.
  intros Hr Hl Hs. split.
  - destruct (free_spec p s (reachable_ok s Hr) Hl) as (s' & E & _ & H1 & H2). exists s'. done.
  - destruct (realloc_spec ok p size s (reachable_ok s Hr) Hl Hs) as (r & s' & E & _ & H). exists r, s'. done.
Qed.

Lemma demo_live q : live demo_context q <-> q = PBlk 1 48.
Proof.
  destruct (malloc_spec true 20 js_malloc_init init_ok ltac:(lia)) as (r & s' & E & _ & H).
  assert (Hd : __js_malloc true 20 js_malloc_init = Some (Some (PBlk 1 48), demo_context))
    by (vm_compute; reflexivity).
  rewrite Hd in E. injection E as <- <-. clear Hd. destruct H as (_ & _ & -> & _).
  split; [|by right]. intros [H|H]; [|exact H]. destruct q as [|b o]; [destruct H|].
  unfold live, js_malloc_init in H. cbn [host] in H. rewrite lookup_empty in H. destruct H.
Qed.

Lemma free_and_realloc_exact_witness :
  live demo_context (PBlk 1 48) /\
  (exists s', __js_free (Some (PBlk 1 48)) demo_context = Some s' /\
     (forall q, live s' q <-> live demo_context q /\ q <> PBlk 1 48) /\
     (forall q, live s' q -> content s' q = content demo_context q)).
Proof.
  assert (Hl : live demo_context (PBlk 1 48)) by (by apply demo_live).
  split; [exact Hl|].
  exact (proj1 (free_and_realloc_exact demo_context (PBlk 1 48) true 100 demo_reachable Hl ltac:(lia))).
Defined.

(** [C21] Teardown releases every arena.  Once every block has been freed,
    [js_malloc_release_empty_arenas] gives every host allocation back, and at
    most one empty arena per size class was being kept until then. *)
Theorem teardown_releases_all (s : JSMallocContext) :
  reachable s -> (forall p, ~ live s p) ->
  host (js_malloc_release_empty_arenas s) = ∅ /\
  forall c, Z.of_nat (length (arena_list s c)) <= JS_MALLOC_MAX_EMPTY_ARENAS.
Proof.
  intros Hr Hnone. pose proof (reachable_ok s Hr) as Hinv.
  assert (Hempty : forall b a, arena_at s b = Some a -> n_used_blocks a = 0 /\ emptyb s b = true).
  { intros b a Ha. destruct (ci_arena s _ Hinv b a Ha) as [fl Hok].
    pose proof (all_free_count a fl Hok) as H0. unfold emptyb. rewrite Ha, Z.eqb_eq.
    assert (n_used_blocks a = 0); [|done]. apply H0. intros i Hu.
    apply (Hnone (PBlk b (block_off (ar_block_size_idx a) i))), (live_arena s b a _ Ha). eauto. }
  assert (Hfree : forall c, arena_list s c ≡ₚ spares s None (free_arena_list s c)).
  { intros c. apply NoDup_Permutation; [apply Hinv|apply NoDup_filter, Hinv|]. intros b.
    unfold spares. rewrite list_elem_of_filter, (ci_list s _ Hinv), (ci_free s _ Hinv). split.
    - intros (a & Ha & Hc). destruct (Hempty b a Ha) as [H0 He]. split; [done|]. exists a.
      split; [done|]. split; [done|]. destruct (ci_arena s _ Hinv b a Ha) as [fl Hok].
      pose proof (class_shape _ (ao_class a fl Hok)). rewrite (ao_n a fl Hok). lia.
    - intros (_ & a & Ha & Hc & _). eauto. }
  split.
  - apply map_eq. intros b. rewrite lookup_empty. unfold js_malloc_release_empty_arenas.
    destruct (release_host (seqZ 0 JS_MALLOC_BLOCK_SIZE_COUNT) s b) as [H1 H2]; [apply NoDup_seqZ|].
    destruct (host s !! b) as [[a|h]|] eqn:Eh; [| |by apply H1].
    + assert (Ha : arena_at s b = Some a) by (unfold arena_at; by rewrite Eh).
      destruct (ci_arena s _ Hinv b a Ha) as [fl Hok]. apply H2; [|by apply (Hempty b a)].
      exists (ar_block_size_idx a). split; [apply elem_of_seqZ; apply (ao_class a fl Hok)|].
      assert (Hin : b ∈ arena_list s (ar_block_size_idx a)) by (apply (ci_list s _ Hinv); eauto).
      rewrite (Hfree (ar_block_size_idx a)) in Hin. by apply list_elem_of_filter in Hin as [_ ?].
    + exfalso. apply (Hnone (PBlk b sizeof_BlockHeader)). unfold live. by rewrite Eh.
  - intros c. rewrite (Hfree c), <- (ci_empty s _ Hinv c). apply Hinv.
Qed.

(** A context whose only block has been freed: its arena is kept as a spare. *)
Definition demo_freed : JSMallocContext :=
  match __js_free (Some (PBlk 1 48)) demo_context with Some s => s | None => demo_context end.

Lemma teardown_releases_all_witness :
  reachable demo_freed /\ size (host demo_freed) = 1%nat /\
  host (js_malloc_release_empty_arenas demo_freed) = ∅ /\
  forall c, Z.of_nat (length (arena_list demo_freed c)) <= JS_MALLOC_MAX_EMPTY_ARENAS.
Proof.
  assert (E : __js_free (Some (PBlk 1 48)) demo_context = Some demo_freed) by (vm_compute; reflexivity).
  assert (Hl : live demo_context (PBlk 1 48)) by (by apply demo_live).
  assert (Hr : reachable demo_freed)
    by (apply (rtc_r _ demo_context); [exact demo_reachable|exact (step_free _ _ _ Hl E)]).
  split; [exact Hr|]. split; [vm_compute; reflexivity|]. apply (teardown_releases_all demo_freed Hr).
  intros p. destruct (free_spec (PBlk 1 48) demo_context (reachable_ok _ demo_reachable) Hl)
    as (s' & E' & _ & H & _).
  rewrite E in E'. injection E' as <-. rewrite H, demo_live. tauto.
Defined.

(** The size computation wraps around.  The bound [2^64 - 16] of the
    allocator's guarantees is sharp: for every one of the fifteen sizes above
    it [((size + 7) & ~7) + 8] overflows [size_t] to at most 8, so that
    [__js_malloc] takes the small-block path and, from the initial state,
    returns a block of 8 usable bytes instead of failing. *)
Theorem malloc_size_wraps (sz : Z) :
  2 ^ 64 - 16 < sz < 2 ^ 64 ->
  total_size sz <= 8 /\
  exists s, __js_malloc true sz js_malloc_init = Some (Some (PBlk 1 48), s) /\
    __js_malloc_usable_size None (Some (PBlk 1 48)) s = Some 8.
Proof.
  intros Hs.
  assert (Ht : (0 <=? total_size sz) && (total_size sz <=? 8) = true).
  { replace sz with (2 ^ 64 - 15 + (sz - (2 ^ 64 - 15))) by lia.
    apply (below_forallb 15 (fun k => (0 <=? total_size (2 ^ 64 - 15 + k)) && (total_size (2 ^ 64 - 15 + k) <=? 8)));
      [vm_compute; reflexivity|lia]. }
  apply andb_true_iff in Ht as [Ht0 Ht]. apply Z.leb_le in Ht0, Ht.
  split; [lia|].
  assert (Hc : get_block_size_index (total_size sz) = 0)
    by (unfold get_block_size_index; destruct (Z.leb_spec (total_size sz) 16); lia).
  unfold __js_malloc. rewrite (proj2 (Z.eqb_neq sz 0)) by lia.
  rewrite (proj2 (Z.leb_le (total_size sz) JS_MALLOC_MAX_SMALL_SIZE)) by (unfold JS_MALLOC_MAX_SMALL_SIZE; lia).
  cbv zeta. rewrite Hc. eexists. split; vm_compute; reflexivity.
Qed.

Lemma malloc_size_wraps_witness :
  2 ^ 64 - 16 < 2 ^ 64 - 1 < 2 ^ 64 /\
  exists s, __js_malloc true (2 ^ 64 - 1) js_malloc_init = Some (Some (PBlk 1 48), s) /\
    __js_malloc_usable_size None (Some (PBlk 1 48)) s = Some 8.
Proof.
  split; [lia|]. exact (proj2 (malloc_size_wraps (2 ^ 64 - 1) ltac:(lia))).
Defined.
