(* ===== verification/BigInt.v ===== *)
(** * BigInt arithmetic (src/object/property_set_convert.inc.c)

    Arbitrary-precision integers as the engine computes them: arrays of
    64-bit limbs ([JS_LIMB_BITS = 64]), least significant first, in two's
    complement, with as few limbs as possible.  The [mp_*] routines work on
    unsigned arrays; a loop over [tab[0..n-1]] is a recursion over the list
    of limbs, and a destination [tab + i] is a segment of the list. *)
From S2P Require Import Prelude Native.

(** ** Limbs *)

Definition JS_LIMB_BITS : Z := 64.
Definition B : Z := 2 ^ 64.
Definition JS_BIGINT_MAX_SIZE : Z := 1024 * 1024 / JS_LIMB_BITS.
Definition UDIV1NORM_THRESHOLD : nat := 3.

(** [js_dlimb_t]. *)
Definition u128 (x : Z) : Z := x mod 2 ^ 128.

(** [-1] and [~a] as limbs. *)
Definition limb_ones : Z := B - 1.
Definition limb_not (a : Z) : Z := limb_ones - a.

Definition js_limb_clz (a : Z) : Z := 63 - Z.log2 a.

(** Result and carry. *)
Definition ADDC (op1 op2 carry : Z) : Z * Z :=
  let a := u64 (op1 + op2) in
  let k1 := a <? op1 in
  let a' := u64 (a + carry) in
  (a', Z.b2z ((a' <? carry) || k1)).

(** ** Unsigned arrays *)

Fixpoint mp_add (op1 op2 : list Z) (carry : Z) : list Z * Z :=
  match op1, op2 with
  | x :: op1, y :: op2 =>
      let '(r, c) := ADDC x y carry in
      let '(rs, c) := mp_add op1 op2 c in (r :: rs, c)
  | _, _ => ([], carry)
  end.

Fixpoint mp_sub (op1 op2 : list Z) (k : Z) : list Z * Z :=
  match op1, op2 with
  | v :: op1, y :: op2 =>
      let a := u64 (v - y) in
      let k1 := v <? a in
      let v' := u64 (a - k) in
      let '(rs, c) := mp_sub op1 op2 (Z.b2z ((a <? v') || k1)) in (v' :: rs, c)
  | _, _ => ([], k)
  end.

(** [0 - op2]. *)
Fixpoint mp_neg_loop (op2 : list Z) (carry : Z) : list Z :=
  match op2 with
  | [] => []
  | y :: op2 =>
      let v := u64 (limb_not y + carry) in
      v :: mp_neg_loop op2 (Z.b2z (v <? carry))
  end.
Definition mp_neg (op2 : list Z) : list Z := mp_neg_loop op2 1.

(** [taba * b + l]. *)
Fixpoint mp_mul1 (taba : list Z) (b l : Z) : list Z * Z :=
  match taba with
  | [] => ([], l)
  | x :: taba =>
      let t := u128 (x * b + l) in
      let '(rs, l) := mp_mul1 taba b (Z.shiftr t 64) in (u64 t :: rs, l)
  end.

(** [tabr += taba * b]. *)
Fixpoint mp_add_mul1 (tabr taba : list Z) (b l : Z) : list Z * Z :=
  match tabr, taba with
  | y :: tabr, x :: taba =>
      let t := u128 (x * b + l + y) in
      let '(rs, l) := mp_add_mul1 tabr taba b (Z.shiftr t 64) in (u64 t :: rs, l)
  | _, _ => ([], l)
  end.

(** [tabr -= taba * b]. *)
Fixpoint mp_sub_mul1 (tabr taba : list Z) (b l : Z) : list Z * Z :=
  match tabr, taba with
  | y :: tabr, x :: taba =>
      let t := u128 (y - x * b - l) in
      let '(rs, l) := mp_sub_mul1 tabr taba b (u64 (- Z.shiftr t 64)) in (u64 t :: rs, l)
  | _, _ => ([], l)
  end.

(** Each round adds [op1 * op2[i]] at [result + i] and writes
    [result[i + op1_size]]; [result] is the part written so far. *)
Fixpoint mul_rounds (op1 : list Z) (i : nat) (op2 : list Z) (result : list Z) : list Z :=
  match op2 with
  | [] => result
  | y :: op2 =>
      let '(seg, r) := mp_add_mul1 (drop i result) op1 y 0 in
      mul_rounds op1 (S i) op2 (take i result ++ seg ++ [r])
  end.
Definition mp_mul_basecase (op1 op2 : list Z) : list Z :=
  match op2 with
  | [] => []
  | y :: op2 =>
      let '(rs, l) := mp_mul1 op1 y 0 in mul_rounds op1 1 op2 (rs ++ [l])
  end.

(** ** Division by one limb *)

Definition udiv1norm_init (d : Z) : Z :=
  let a1 := u64 (- d - 1) in
  u64 (Z.lor (Z.shiftl a1 64) limb_ones / d).

(** Quotient and remainder of [a1 * B + a0] by [d]. *)
Definition udiv1norm (a1 a0 d d_inv : Z) : Z * Z :=
  let n1m := u64 (Z.shiftr (sint 64 a0) 63) in
  let n_adj := u64 (a0 + Z.land n1m d) in
  let a := u128 (d_inv * u64 (a1 - n1m) + n_adj) in
  let q := u64 (Z.shiftr a 64 + a1) in
  let a := u128 (Z.lor (Z.shiftl a1 64) a0 - q * d - d) in
  let ah := u64 (Z.shiftr a 64) in
  (u64 (q + 1 + ah), u64 (u64 a + Z.land ah d)).

(** Plain two-by-one division. *)
Definition udiv1 (a1 a0 d : Z) : Z * Z :=
  let a := Z.lor (Z.shiftl a1 64) a0 in (u64 (a / d), u64 (a mod d)).

(** From the most significant limb down. *)
Fixpoint div1_loop (div : Z -> Z -> Z * Z) (taba : list Z) (r : Z) : list Z * Z :=
  match taba with
  | [] => ([], r)
  | a0 :: taba =>
      let '(qs, r) := div1_loop div taba r in
      let '(q, r) := div r a0 in (q :: qs, r)
  end.

Definition mp_div1norm (taba : list Z) (b r : Z) : list Z * Z :=
  if (UDIV1NORM_THRESHOLD <=? length taba)%nat then
    let b_inv := udiv1norm_init b in
    div1_loop (fun a1 a0 => udiv1norm a1 a0 b b_inv) taba r
  else div1_loop (fun a1 a0 => udiv1 a1 a0 b) taba r.

(** ** Division by several limbs *)

(** [tab[i]]. *)
Definition limb_at (tab : list Z) (i : nat) : Z := default 0 (tab !! i).

(** The first quotient digit, 0 or 1, from the most significant limbs. *)
Fixpoint first_quotient (ps : list (Z * Z)) : Z :=
  match ps with
  | [] => 1
  | (x, y) :: ps => if x =? y then first_quotient ps else if x <? y then 0 else 1
  end.

(** The result was negative: add [tabb] back until it is not; [top] is
    [taba[i + nb]]. *)
Fixpoint add_back (fuel : nat) (seg tabb : list Z) (top q : Z) : option (list Z * Z * Z) :=
  match fuel with
  | O => None
  | S fuel =>
      let q := u64 (q - 1) in
      let '(seg, c) := mp_add seg tabb 0 in
      if negb (c =? 0) then
        let top := u64 (top + 1) in
        if top =? 0 then Some (seg, top, q) else add_back fuel seg tabb top q
      else add_back fuel seg tabb top q
  end.

(** The estimate of a quotient digit from the two top limbs. *)
Definition estimate (hi lo b1 b1_inv : Z) : Z :=
  if b1 <=? hi then limb_ones
  else if negb (b1_inv =? 0) then fst (udiv1norm hi lo b1 b1_inv)
  else fst (udiv1 hi lo b1).

(** One round of the main loop, on [taba[i .. i + nb - 1]] and
    [taba[i + nb]]. *)
Definition div_round (seg tabb : list Z) (hi b1_inv : Z) : option (list Z * Z * Z) :=
  let nb := length tabb in
  let q := estimate hi (limb_at seg (nb - 1)) (limb_at tabb (nb - 1)) b1_inv in
  let '(seg, r) := mp_sub_mul1 seg tabb q 0 in
  let a := u64 (hi - r) in
  if hi <? a then add_back 3 seg tabb a q else Some (seg, a, q).

(** [for (i = n - 1; i >= 0; i--)]. *)
Fixpoint div_rounds (i : nat) (taba tabb : list Z) (b1_inv : Z) (tabq : list Z)
    : option (list Z * list Z) :=
  match i with
  | O => Some (tabq, taba)
  | S i =>
      let nb := length tabb in
      '(seg, top, q) ← div_round (take nb (drop i taba)) tabb (limb_at taba (i + nb)) b1_inv;
      div_rounds i (take i taba ++ seg ++ [top] ++ drop (S (i + nb)) taba) tabb b1_inv (q :: tabq)
  end.

(** Quotient and remainder arrays; [None] would be a correction loop that
    does not end. *)
Definition mp_divnorm (taba tabb : list Z) : option (list Z * list Z) :=
  let na := length taba in
  let nb := length tabb in
  let b1 := limb_at tabb (nb - 1) in
  if (nb =? 1)%nat then
    let '(tabq, r) := mp_div1norm taba b1 0 in Some (tabq, <[0%nat := r]> taba)
  else
    let n := (na - nb)%nat in
    let b1_inv := if (UDIV1NORM_THRESHOLD <=? n)%nat then udiv1norm_init b1 else 0 in
    let q := first_quotient (rev (zip (drop n taba) tabb)) in
    let taba := if q =? 0 then taba else take n taba ++ fst (mp_sub (drop n taba) tabb 0) in
    div_rounds n taba tabb b1_inv [q].

(** ** Shifts of arrays, by 1 to 63 bits *)

Fixpoint mp_shl (taba : list Z) (shift l : Z) : list Z * Z :=
  match taba with
  | [] => ([], l)
  | v :: taba =>
      let '(rs, l') := mp_shl taba shift (Z.shiftr v (64 - shift)) in
      (Z.lor (u64 (Z.shiftl v shift)) l :: rs, l')
  end.

(** From the most significant limb down; the second result is the last limb
    read. *)
Fixpoint shr_loop (tab : list Z) (shift high : Z) : list Z * Z :=
  match tab with
  | [] => ([], high)
  | a :: tab =>
      let '(rs, l) := shr_loop tab shift high in
      (Z.lor (Z.shiftr a shift) (u64 (Z.shiftl l (64 - shift))) :: rs, a)
  end.
Definition mp_shr (tab : list Z) (shift high : Z) : list Z * Z :=
  let '(rs, l) := shr_loop tab shift high in
  (rs, Z.land l (u64 (Z.shiftl 1 shift) - 1)).

(** ** BigInts *)

Definition JSBigInt : Type := list Z.

(** [len] as an [int]. *)
Definition len (a : JSBigInt) : Z := Z.of_nat (length a).

(** Whether two top limbs [u], [v] are redundant: [v] only repeats the sign
    of [u]. *)
Definition needed (u v : Z) : bool :=
  (negb (v =? 0) && negb (v =? limb_ones)) || negb (Z.land v 1 =? Z.shiftr u 63).

(** The [while (l > 1)] loop. *)
Fixpoint norm_len (l : nat) (tab : list Z) : nat :=
  match l with
  | S (S k as l') =>
      if needed (limb_at tab k) (limb_at tab l') then l else norm_len l' tab
  | _ => l
  end.
Definition js_bigint_normalize1 (a : JSBigInt) (l : nat) : JSBigInt := take (norm_len l a) a.
Definition js_bigint_normalize (a : JSBigInt) : JSBigInt := js_bigint_normalize1 a (length a).

(** 0 or 1. *)
Definition js_bigint_sign (a : JSBigInt) : Z := Z.shiftr (limb_at a (length a - 1)) 63.

Definition bind_outcome {A C} (o : outcome A) (f : A -> outcome C) : outcome C :=
  match o with Ret x => f x | Throw e => Throw e end.
Notation "'let*' x := o 'in' f" := (bind_outcome o (fun x => f)) (at level 200, x pattern, right associativity).

Inductive logic_op : Type := OP_or | OP_and | OP_xor.

Section bigint.
(** Whether the allocator has room for that many limbs. *)
Context (mem : Z -> bool).

Definition js_bigint_new (l : Z) : outcome unit :=
  if JS_BIGINT_MAX_SIZE <? l then Throw RangeError
  else if mem l then Ret tt else Throw OutOfMemory.

Definition js_bigint_new_si (a : Z) : outcome JSBigInt :=
  let* _ := js_bigint_new 1 in Ret [u64 a].

Definition js_bigint_extend (r : JSBigInt) (op1 : Z) : outcome JSBigInt :=
  if needed (limb_at r (length r - 1)) op1 then
    if mem (len r + 1) then Ret (r ++ [op1]) else Throw OutOfMemory
  else Ret (js_bigint_normalize r).

(** [a + b], or [a - b] when [b_neg] is 1.  The loops are those of [mp_add],
    on the operands extended with their signs. *)
Definition js_bigint_add (a b : JSBigInt) (b_neg : Z) : outcome JSBigInt :=
  let n2 := (length a `max` length b)%nat in
  let n1 := (length a `min` length b)%nat in
  let* _ := js_bigint_new (Z.of_nat n2) in
  let b' := (fun y => Z.lxor y (u64 (- b_neg))) <$> b in
  let '(lo, carry) := mp_add (take n1 a) (take n1 b') b_neg in
  let a_sign := u64 (- js_bigint_sign a) in
  let b_sign := Z.lxor (u64 (- js_bigint_sign b)) (u64 (- b_neg)) in
  let '(hi, carry) :=
    if (length b <? length a)%nat then mp_add (drop n1 a) (replicate (n2 - n1) b_sign) carry
    else if (length a <? length b)%nat then mp_add (replicate (n2 - n1) a_sign) (drop n1 b') carry
    else ([], carry) in
  js_bigint_extend (lo ++ hi) (u64 (a_sign + b_sign + carry)).

Definition js_bigint_neg (a : JSBigInt) : outcome JSBigInt := js_bigint_add [0] a 1.

(** [mp_sub(r + i, r + i, b, b_len, 0)]. *)
Definition sub_at (i : nat) (r b : list Z) : list Z :=
  take i r ++ fst (mp_sub (drop i r) b 0).

Definition js_bigint_mul (a b : JSBigInt) : outcome JSBigInt :=
  let* _ := js_bigint_new (len a + len b) in
  let r := mp_mul_basecase a b in
  let r := if js_bigint_sign a =? 0 then r else sub_at (length a) r b in
  let r := if js_bigint_sign b =? 0 then r else sub_at (length b) r a in
  Ret (js_bigint_normalize r).

(** [while (n > 1 && tab[n - 1] == 0) n--]. *)
Fixpoint drop_zeros (n : nat) (tab : list Z) : nat :=
  match n with
  | S (S _ as n') => if limb_at tab n' =? 0 then drop_zeros n' tab else n
  | _ => n
  end.

(** The magnitude of a BigInt, without leading zeros. *)
Definition magnitude (a : JSBigInt) : list Z :=
  let r := if js_bigint_sign a =? 0 then a else mp_neg a in
  take (drop_zeros (length r) r) r.

Definition js_bigint_divrem (a b : JSBigInt) (is_rem : bool) : outcome JSBigInt :=
  match b with
  | [0] => Throw RangeError
  | _ =>
      let a_sign := js_bigint_sign a in
      let b_sign := js_bigint_sign b in
      let* _ := js_bigint_new (len a + 2) in
      let r := magnitude a in
      if negb (mem (len b)) then Throw OutOfMemory else
      let tabb := magnitude b in
      let nb := length tabb in
      if (length r <? nb)%nat then
        if is_rem then let* _ := js_bigint_new (len a) in Ret a
        else js_bigint_new_si 0
      else
        let shift := js_limb_clz (limb_at tabb (nb - 1)) in
        let '(r, tabb) :=
          if shift =? 0 then (r, tabb)
          else
            let '(r, h) := mp_shl r shift 0 in
            (if h =? 0 then r else r ++ [h], fst (mp_shl tabb shift 0)) in
        let na := length r in
        let* _ := js_bigint_new (Z.of_nat (na - nb + 2)) in
        match mp_divnorm r tabb with
        | None => Throw Fault
        | Some (q, r) =>
            if is_rem then
              let r := take nb r in
              let r := if shift =? 0 then r else fst (mp_shr r shift 0) in
              let r := r ++ [0] in
              let r := if a_sign =? 0 then r else mp_neg r in
              Ret (js_bigint_normalize r)
            else
              let q := q ++ [0] in
              let q := if Z.lxor a_sign b_sign =? 0 then q else mp_neg q in
              Ret (js_bigint_normalize q)
        end
  end.

Definition logic_limb (op : logic_op) : Z -> Z -> Z :=
  match op with OP_or => Z.lor | OP_and => Z.land | OP_xor => Z.lxor end.

Definition js_bigint_logic (a b : JSBigInt) (op : logic_op) : outcome JSBigInt :=
  let '(a, b) := if (length a <? length b)%nat then (b, a) else (a, b) in
  let b_sign := u64 (- js_bigint_sign b) in
  let* _ := js_bigint_new (len a) in
  Ret (js_bigint_normalize
         (zip_with (logic_limb op) (take (length b) a) b ++
          ((fun x => logic_limb op x b_sign) <$> drop (length b) a))).

Definition js_bigint_not (a : JSBigInt) : outcome JSBigInt :=
  let* _ := js_bigint_new (len a) in Ret (limb_not <$> a).

Definition js_bigint_shl (a : JSBigInt) (shift1 : Z) : outcome JSBigInt :=
  match a with
  | [0] => js_bigint_new_si 0
  | _ =>
      let d := Z.to_nat (shift1 / JS_LIMB_BITS) in
      let shift := shift1 mod JS_LIMB_BITS in
      let* _ := js_bigint_new (len a + Z.of_nat d) in
      if shift =? 0 then Ret (replicate d 0 ++ a)
      else
        let '(r, l) := mp_shl a shift 0 in
        let l := if js_bigint_sign a =? 0 then l else Z.lor l (u64 (Z.shiftl limb_ones shift)) in
        js_bigint_extend (replicate d 0 ++ r) l
  end.

Definition js_bigint_shr (a : JSBigInt) (shift1 : Z) : outcome JSBigInt :=
  let d := Z.to_nat (shift1 / JS_LIMB_BITS) in
  let shift := shift1 mod JS_LIMB_BITS in
  let a_sign := js_bigint_sign a in
  if (length a <=? d)%nat then js_bigint_new_si (- a_sign)
  else
    let* _ := js_bigint_new (len a - Z.of_nat d) in
    if shift =? 0 then Ret (drop d a)
    else Ret (js_bigint_normalize (fst (mp_shr (drop d a) shift (u64 (- a_sign))))).

(** Square and multiply, from bit [i - 1] of the exponent down. *)
Fixpoint pow_loop (i : nat) (a : JSBigInt) (e : Z) (r : JSBigInt) : outcome JSBigInt :=
  match i with
  | O => Ret r
  | S i =>
      let* r := js_bigint_mul r r in
      let* r := if Z.land (Z.shiftr e (Z.of_nat i)) 1 =? 1 then js_bigint_mul r a else Ret r in
      pow_loop i a e r
  end.

Definition INT32_MAX : Z := 2147483647.

(** [a] is not a power of two: the general case. *)
Definition pow_general (a b : JSBigInt) : outcome JSBigInt :=
  match b with
  | [e] =>
      if INT32_MAX <? e then Throw RangeError
      else
        let n_bits := 1 + Z.log2 e in
        let* _ := js_bigint_new (len a) in
        pow_loop (Z.to_nat (n_bits - 1)) a e a
  | _ => Throw RangeError
  end.

(** [a] is [2^n], or [-2^n] when [is_neg]. *)
Definition pow_power_of_two (v : Z) (is_neg : bool) (b : JSBigInt) : outcome JSBigInt :=
  match b with
  | [e] =>
      if INT32_MAX <? e then Throw RangeError
      else
        let e1 := e * (JS_LIMB_BITS - 1 - js_limb_clz v) in
        if JS_BIGINT_MAX_SIZE * JS_LIMB_BITS <? e1 then Throw RangeError
        else
          let neg := if is_neg then Z.land e 1 else 0 in
          let l := (e1 + JS_LIMB_BITS + 1 - neg) / JS_LIMB_BITS in
          let* _ := js_bigint_new l in
          Ret (<[Z.to_nat (e1 / JS_LIMB_BITS) :=
                   u64 (Z.shiftl (u64 (1 - 2 * neg)) (e1 mod JS_LIMB_BITS))]>
                 (replicate (Z.to_nat l) 0))
  | _ => Throw RangeError
  end.

Definition js_bigint_pow (a b : JSBigInt) : outcome JSBigInt :=
  if negb (js_bigint_sign b =? 0) then Throw RangeError
  else
    match b, a with
    | [0], _ => js_bigint_new_si 1
    | _, [v] =>
        if v <=? 1 then js_bigint_new_si v
        else if v =? limb_ones then js_bigint_new_si (1 - 2 * Z.land (limb_at b 0) 1)
        else
          let is_neg := sint 64 v <? 0 in
          let v := if is_neg then u64 (- v) else v in
          if Z.land v (v - 1) =? 0 then pow_power_of_two v is_neg b
          else pow_general a b
    | _, _ => pow_general a b
    end.
End bigint.

(** Limb by limb, from the most significant. *)
Fixpoint cmp_loop (ps : list (Z * Z)) : Z :=
  match ps with
  | [] => 0
  | (x, y) :: ps => if x =? y then cmp_loop ps else if x <? y then -1 else 1
  end.

Definition js_bigint_cmp (a b : JSBigInt) : Z :=
  let a_sign := js_bigint_sign a in
  let b_sign := js_bigint_sign b in
  if negb (a_sign =? b_sign) then 1 - 2 * a_sign
  else if negb (length a =? length b)%nat then
    if (length a <? length b)%nat then 2 * a_sign - 1 else 1 - 2 * a_sign
  else cmp_loop (rev (zip a b)).
