(* ===== verification/BigIntProps.v ===== *)
(** * BigInt arithmetic computes on integers

    The value of an array of limbs, the specification of every [mp_*] routine
    as an equation between values, and the correctness of the operations on
    BigInts. *)
From S2P Require Import Prelude Native BigInt.

(** ** Limbs and values *)

Definition limb (x : Z) : Prop := 0 <= x < B.
Notation limbs := (Forall limb).

(** The unsigned value of an array. *)
Fixpoint uval (l : list Z) : Z :=
  match l with [] => 0 | x :: l => x + B * uval l end.

(** [B^n], for the length of an array. *)
Definition pw (n : nat) : Z := B ^ Z.of_nat n.

Lemma B_half : B = 2 * 2 ^ 63.
Proof. reflexivity. Qed.

Lemma B_large : 2 ^ 63 = 9223372036854775808 /\ 2 <= B.
Proof. split; [reflexivity|unfold B; lia]. Qed.

Lemma u64_B x : u64 x = x mod B.
Proof. reflexivity. Qed.

Lemma u128_B x : u128 x = x mod (B * B).
Proof. reflexivity. Qed.

Lemma shiftr_B x : Z.shiftr x 64 = x / B.
Proof. apply Z.shiftr_div_pow2. lia. Qed.

Lemma limb_u64 x : limb (u64 x).
Proof. rewrite u64_B. apply Z.mod_pos_bound. pose proof B_large. lia. Qed.

(** Bit operations on limbs. *)
Lemma sign_bit x : limb x -> Z.shiftr x 63 = if 2 ^ 63 <=? x then 1 else 0.
Proof.
  unfold limb, B. intros Hx. rewrite Z.shiftr_div_pow2 by lia.
  destruct (Z.leb_spec (2 ^ 63) x); div_lia.
Qed.

Lemma sign_mask x : limb x -> u64 (Z.shiftr (sint 64 x) 63) = if 2 ^ 63 <=? x then limb_ones else 0.
Proof.
  unfold limb, B, limb_ones, sint, u64. intros Hx. rewrite (Z.mod_small x) by done.
  rewrite Z.shiftr_div_pow2 by lia. change (64 - 1) with 63.
  destruct (Z.ltb_spec x (2 ^ 63)), (Z.leb_spec (2 ^ 63) x); try lia.
  - rewrite (Z.div_small x) by lia. done.
  - replace ((x - 2 ^ 64) / 2 ^ 63) with (-1) by div_lia. reflexivity.
Qed.

Lemma land_limb_ones d : limb d -> Z.land limb_ones d = d.
Proof.
  intros Hd. rewrite Z.land_comm. change limb_ones with (2 ^ 64 - 1).
  rewrite land_pow2_pred by lia. by apply Z.mod_small.
Qed.

Lemma lxor_limb_ones x : limb x -> Z.lxor x limb_ones = limb_not x.
Proof.
  intros Hx. unfold limb_not. change limb_ones with (Z.ones 64).
  rewrite <- (Z.mod_small x (2 ^ 64)) at 2 by done. rewrite <- Z.land_ones, Z.sub_nocarry_ldiff by (try lia; apply Z.bits_inj'; intros n Hn;
    rewrite Z.ldiff_spec, Z.land_spec, Z.bits_0; by destruct (Z.testbit (Z.ones 64) n), (Z.testbit x n)).
  apply Z.bits_inj'. intros n Hn. rewrite Z.lxor_spec, Z.ldiff_spec, Z.land_spec.
  destruct (Z.testbit (Z.ones 64) n) eqn:E; destruct (Z.testbit x n) eqn:Ex; try done.
  exfalso. destruct (Z.lt_ge_cases n 64); [by rewrite Z.ones_spec_low in E by lia|].
  rewrite <- (Z.mod_small x (2 ^ 64)), Z.mod_pow2_bits_high in Ex by (done || lia). done.
Qed.

Lemma limb_shl v s : limb v -> 0 <= s <= 64 -> u64 (Z.shiftl v s) = (v mod 2 ^ (64 - s)) * 2 ^ s.
Proof.
  intros Hv Hs. unfold u64. rewrite Z.shiftl_mul_pow2 by lia.
  replace (2 ^ 64) with (2 ^ (64 - s) * 2 ^ s) by (rewrite <- Z.pow_add_r by lia; f_equal; lia).
  by rewrite Z.mul_mod_distr_r by (apply Z.pow_nonzero; lia).
Qed.

Lemma B_split s : 0 <= s <= 64 -> B = 2 ^ s * 2 ^ (64 - s).
Proof. intros Hs. rewrite <- Z.pow_add_r by lia. change B with (2 ^ 64). f_equal. lia. Qed.

#[global] Opaque B.

Lemma B_pos : 2 <= B.
Proof. apply B_large. Qed.

Lemma pw_0 : pw 0 = 1.
Proof. apply Z.pow_0_r. Qed.

Lemma pw_S n : pw (S n) = B * pw n.
Proof. unfold pw. rewrite Nat2Z.inj_succ, Z.pow_succ_r by lia. done. Qed.

Lemma pw_pos n : 0 < pw n.
Proof. apply Z.pow_pos_nonneg; [|lia]. pose proof B_pos. lia. Qed.

Lemma pw_add n m : pw (n + m) = pw n * pw m.
Proof. unfold pw. rewrite Nat2Z.inj_add. apply Z.pow_add_r; lia. Qed.

(** A sum below [2B], and a difference above [-B], reduced modulo [B]. *)
Lemma u64_add x : 0 <= x < 2 * B -> u64 x = if x <? B then x else x - B.
Proof.
  intros Hx. rewrite u64_B. destruct (Z.ltb_spec x B); [by apply Z.mod_small; lia|].
  symmetry. apply (Z.mod_unique_pos x B 1); lia.
Qed.

Lemma u64_sub x : - B <= x < B -> u64 x = if x <? 0 then x + B else x.
Proof.
  intros Hx. rewrite u64_B. destruct (Z.ltb_spec x 0); [|by apply Z.mod_small; lia].
  symmetry. apply (Z.mod_unique_pos x B (-1)); lia.
Qed.

Lemma uval_app l1 l2 : uval (l1 ++ l2) = uval l1 + pw (length l1) * uval l2.
Proof.
  induction l1 as [|x l1 IH]; cbn [uval app length]; [rewrite pw_0; lia|].
  rewrite IH, pw_S. lia.
Qed.

Lemma uval_bounds l : limbs l -> 0 <= uval l < pw (length l).
Proof.
  induction 1 as [|x l Hx _ IH]; cbn [uval length]; [rewrite pw_0; lia|].
  rewrite pw_S. unfold limb in Hx. nia.
Qed.

Lemma uval_take_drop n l : (n <= length l)%nat -> uval l = uval (take n l) + pw n * uval (drop n l).
Proof.
  intros Hn. rewrite <- (take_drop n l) at 1. rewrite uval_app, length_take. by rewrite Nat.min_l.
Qed.

Lemma uval_zeros n : uval (replicate n 0) = 0.
Proof. induction n as [|n IH]; cbn [uval replicate]; [done|]. rewrite IH. lia. Qed.

Lemma uval_ones n : uval (replicate n limb_ones) = pw n - 1.
Proof.
  induction n as [|n IH]; cbn [uval replicate]; [by rewrite pw_0|].
  rewrite IH, pw_S. unfold limb_ones. lia.
Qed.

(** ** The unsigned routines *)

Definition bit (c : Z) : Prop := c = 0 \/ c = 1.

Lemma bit_b2z b : bit (Z.b2z b).
Proof. destruct b; [by right|by left]. Qed.

Lemma ADDC_spec x y c :
  limb x -> limb y -> bit c -> let '(r, c') := ADDC x y c in
  limb r /\ bit c' /\ x + y + c = r + B * c'.
Proof.
  unfold ADDC, limb. intros Hx Hy Hc. split; [apply limb_u64|]. split; [apply bit_b2z|].
  pose proof B_pos. rewrite (u64_add (x + y)) by lia.
  assert (bit c) by done. destruct (Z.ltb_spec (x + y) B) as [H1|H1];
    [rewrite (proj2 (Z.ltb_ge (x + y) x)) by lia|rewrite (proj2 (Z.ltb_lt (x + y - B) x)) by lia];
    (rewrite u64_add by (destruct Hc; lia)); destruct (Z.ltb_spec (x + y + c) B), Hc; subst; simpl;
    repeat match goal with
    | |- context [?a <? ?b] => destruct (Z.ltb_spec a b); simpl
    end; lia.
Qed.

Lemma mp_add_spec a : forall b c,
  limbs a -> limbs b -> length a = length b -> bit c -> let '(r, c') := mp_add a b c in
  limbs r /\ length r = length a /\ bit c' /\ uval a + uval b + c = uval r + pw (length a) * c'.
Proof.
  induction a as [|x a IH]; intros [|y b] c Ha Hb Hl Hc; try discriminate Hl;
    cbn [mp_add mp_sub].
  { cbn [uval length]. rewrite pw_0. split_and!; try done. lia. }
  injection Hl as Hl. inv_subst Ha. inv_subst Hb. pose proof (ADDC_spec x y c) as Hxy.
  destruct (ADDC x y c) as [r c1]. destruct Hxy as (Hr & Hc1 & E); [done..|].
  specialize (IH b c1). destruct (mp_add a b c1) as [rs c2].
  destruct IH as (Hrs & Hlen & Hc2 & E2); [done..|]. cbn [uval length].
  split_and!; [by constructor|congruence|done|]. rewrite pw_S. nia.
Qed.

Lemma mp_add_app a1 : forall b1 a2 b2 c, length a1 = length b1 ->
  mp_add (a1 ++ a2) (b1 ++ b2) c =
    let '(r1, c1) := mp_add a1 b1 c in let '(r2, c2) := mp_add a2 b2 c1 in (r1 ++ r2, c2).
Proof.
  induction a1 as [|x a1 IH]; intros [|y b1] a2 b2 c Hl; try discriminate Hl;
    cbn [mp_add app].
  { by destruct (mp_add a2 b2 c). }
  injection Hl as Hl.   destruct (ADDC x y c) as [r c1]. rewrite IH by done. destruct (mp_add a1 b1 c1) as [r1 c2].
  by destruct (mp_add a2 b2 c2).
Qed.

Lemma mp_sub_spec a : forall b c,
  limbs a -> limbs b -> length a = length b -> bit c -> let '(r, c') := mp_sub a b c in
  limbs r /\ length r = length a /\ bit c' /\ uval a - uval b - c = uval r - pw (length a) * c'.
Proof.
  induction a as [|x a IH]; intros [|y b] c Ha Hb Hl Hc; try discriminate Hl;
    cbn [mp_add mp_sub].
  { cbn [uval length]. rewrite pw_0. split_and!; try done. lia. }
  injection Hl as Hl. inv_subst Ha. inv_subst Hb. set (x' := u64 (x - y)). set (v' := u64 (x' - c)).
  set (c1 := Z.b2z _).
  assert (E : x - y - c = v' - B * c1 /\ limb v').
  { split; [|apply limb_u64]. pose proof B_pos. unfold limb, bit in *. unfold c1, v', x'.
    rewrite (u64_sub (x - y)) by lia. destruct (Z.ltb_spec (x - y) 0) as [H'|H'];
      (rewrite u64_sub by lia);
      repeat match goal with
      | |- context [?a <? ?b] => destruct (Z.ltb_spec a b); simpl
      end; lia. }
  destruct E as [E Hv]. specialize (IH b c1). destruct (mp_sub a b c1) as [rs c2].
  destruct IH as (Hrs & Hlen & Hc2 & E2); [done..|apply bit_b2z|]. cbn [uval length].
  split_and!; [by constructor|congruence|done|]. rewrite pw_S. nia.
Qed.

Lemma mp_neg_loop_spec b : forall c,
  limbs b -> bit c -> exists c', bit c' /\ limbs (mp_neg_loop b c) /\ length (mp_neg_loop b c) = length b /\
  uval (mp_neg_loop b c) = pw (length b) - 1 - uval b + c - pw (length b) * c'.
Proof.
  induction b as [|y b IH]; intros c Hb Hc; cbn [mp_neg_loop].
  { exists c. cbn [uval length]. rewrite pw_0. split_and!; try done. lia. }
  inv_subst Hb. set (v := u64 (limb_not y + c)). set (c1 := Z.b2z (v <? c)).
  assert (E : limb_not y + c = v + B * c1 /\ limb v).
  { split; [|apply limb_u64]. pose proof B_pos. unfold c1, v, limb_not, limb_ones, limb, bit in *.
    rewrite u64_add by lia. repeat match goal with
    | |- context [?a <? ?b] => destruct (Z.ltb_spec a b); simpl
    end; lia. }
  destruct E as [E Hv]. destruct (IH c1) as (c' & Hc' & Hr & Hl & Ev); [done|apply bit_b2z|].
  exists c'. cbn [uval length]. rewrite pw_S. split_and!; [done|by constructor|congruence|].
  rewrite Ev. unfold limb_not, limb_ones in E. nia.
Qed.

(** [-b], modulo [B^n]. *)
Lemma mp_neg_spec b :
  limbs b -> limbs (mp_neg b) /\ length (mp_neg b) = length b /\
  exists k, uval (mp_neg b) = - uval b + k * pw (length b).
Proof.
  intros Hb. destruct (mp_neg_loop_spec b 1 Hb ltac:(by right)) as (c & _ & Hr & Hl & E).
  split_and!; [done..|]. exists (1 - c). unfold mp_neg. rewrite E. lia.
Qed.

(** A double limb splits into its high and low limbs. *)
Lemma dlimb_split t : 0 <= t < B * B -> u128 t = t /\ limb (Z.shiftr t 64) /\ t = u64 t + B * Z.shiftr t 64.
Proof.
  intros Ht. pose proof B_pos. rewrite shiftr_B, u64_B, u128_B, Z.mod_small by done. split; [done|].
  split; [|pose proof (Z.div_mod t B ltac:(lia)); lia].
  split; [apply Z.div_pos; lia|apply Z.div_lt_upper_bound; lia].
Qed.

Lemma mp_mul1_spec a b : forall l, limbs a -> limb b -> limb l -> let '(r, l') := mp_mul1 a b l in
  limbs r /\ length r = length a /\ limb l' /\ uval a * b + l = uval r + pw (length a) * l'.
Proof.
  induction a as [|x a IH]; intros l Ha Hb Hl; cbn [mp_mul1].
  { cbn [uval length]. rewrite pw_0. split_and!; try done. lia. }
  inv_subst Ha. destruct (dlimb_split (x * b + l)) as (-> & Hh & E); [unfold limb in *; nia|].
  specialize (IH (Z.shiftr (x * b + l) 64)). destruct (mp_mul1 a b _) as [rs l'].
  destruct IH as (Hr & Hlen & Hl' & E2); [done..|]. cbn [uval length]. rewrite pw_S.
  split_and!; [constructor; [apply limb_u64|done]|congruence|done|]. nia.
Qed.

Lemma mp_add_mul1_spec r a b : forall l,
  limbs r -> limbs a -> length r = length a -> limb b -> limb l ->
  let '(r', l') := mp_add_mul1 r a b l in
  limbs r' /\ length r' = length a /\ limb l' /\
  uval r + uval a * b + l = uval r' + pw (length a) * l'.
Proof.
  revert a. induction r as [|y r IH]; intros [|x a] l Hr Ha Hlen Hb Hl; try discriminate Hlen;
    cbn [mp_add_mul1 mp_sub_mul1].
  { cbn [uval length]. rewrite pw_0. split_and!; try done. lia. }
  injection Hlen as Hlen. inv_subst Ha. inv_subst Hr. destruct (dlimb_split (x * b + l + y)) as (-> & Hh & E); [unfold limb in *; nia|].
  specialize (IH a (Z.shiftr (x * b + l + y) 64)). destruct (mp_add_mul1 r a b _) as [rs l'].
  destruct IH as (Hr' & Hlen' & Hl' & E2); [done..|]. cbn [uval length]. rewrite pw_S.
  split_and!; [constructor; [apply limb_u64|done]|congruence|done|]. nia.
Qed.

(** A difference above [- (B - 1) B], modulo [B^2]. *)
Lemma dlimb_sub t :
  - (B - 1) * B <= t < B -> limb (u64 (- Z.shiftr (u128 t) 64)) /\
  t = u64 (u128 t) - B * u64 (- Z.shiftr (u128 t) 64).
Proof.
  intros Ht. pose proof B_pos. split; [apply limb_u64|].
  assert (Hm : u128 t = if t <? 0 then t + B * B else t).
  { rewrite u128_B. destruct (Z.ltb_spec t 0); [|apply Z.mod_small; nia].
    symmetry. apply (Z.mod_unique_pos t (B * B) (-1)); nia. }
  destruct (dlimb_split (u128 t)) as (_ & Hh & E).
  { rewrite Hm. destruct (Z.ltb_spec t 0); nia. }
  set (h := Z.shiftr (u128 t) 64) in *. unfold limb in Hh.
  rewrite (u64_sub (- h)) by lia. pose proof (limb_u64 (u128 t)) as Hlo. unfold limb in Hlo.
  clearbody h. set (lo := u64 (u128 t)) in *. clearbody lo.
  destruct (Z.ltb_spec t 0), (Z.ltb_spec (- h) 0); rewrite Hm in E; nia.
Qed.

Lemma mp_sub_mul1_spec r a b : forall l,
  limbs r -> limbs a -> length r = length a -> limb b -> limb l ->
  let '(r', l') := mp_sub_mul1 r a b l in
  limbs r' /\ length r' = length a /\ limb l' /\
  uval r - uval a * b - l = uval r' - pw (length a) * l'.
Proof.
  revert a. induction r as [|y r IH]; intros [|x a] l Hr Ha Hlen Hb Hl; try discriminate Hlen;
    cbn [mp_add_mul1 mp_sub_mul1].
  { cbn [uval length]. rewrite pw_0. split_and!; try done. lia. }
  injection Hlen as Hlen. inv_subst Ha. inv_subst Hr. destruct (dlimb_sub (y - x * b - l)) as [Hh E]; [unfold limb in *; nia|].
  specialize (IH a (u64 (- Z.shiftr (u128 (y - x * b - l)) 64))). destruct (mp_sub_mul1 r a b _) as [rs l'].
  destruct IH as (Hr' & Hlen' & Hl' & E2); [done..|]. cbn [uval length]. rewrite pw_S.
  split_and!; [constructor; [apply limb_u64|done]|congruence|done|]. nia.
Qed.

(** ** Multiplication *)

Lemma Forall_take_drop {A} (P : A -> Prop) n l : Forall P l -> Forall P (take n l) /\ Forall P (drop n l).
Proof. intros H. rewrite <- (take_drop n l) in H. by apply Forall_app in H. Qed.

Lemma mul_rounds_spec a b : forall i r,
  limbs a -> limbs b -> limbs r -> length r = (i + length a)%nat ->
  limbs (mul_rounds a i b r) /\ length (mul_rounds a i b r) = (length r + length b)%nat /\
  uval (mul_rounds a i b r) = uval r + pw i * (uval a * uval b).
Proof.
  induction b as [|y b IH]; intros i r Ha Hb Hr Hl; cbn [mul_rounds].
  { cbn [uval length]. split_and!; [done|lia|lia]. }
  inv_subst Hb. destruct (Forall_take_drop limb i r Hr) as [Ht Hd].
  assert (Hld : length (drop i r) = length a) by (rewrite length_drop; lia).
  pose proof (mp_add_mul1_spec (drop i r) a y 0) as Hm. destruct (mp_add_mul1 (drop i r) a y 0) as [seg c].
  destruct Hm as (Hseg & Hls & Hc & E); [done..|pose proof B_pos; unfold limb; lia|].
  set (r' := take i r ++ seg ++ [c]).
  assert (Hlt : length (take i r) = i) by (rewrite length_take; lia).
  assert (Hl' : length r' = (S i + length a)%nat)
    by (unfold r'; rewrite !length_app, Hlt, Hls; simpl; lia).
  destruct (IH (S i) r') as (H1' & H2' & H3'); [done|done| |done|].
  { unfold r'. apply Forall_app. split; [done|]. apply Forall_app. split; [done|by constructor]. }
  split_and!; [done| |].
  - rewrite H2', Hl'. cbn [length]. lia.
  - rewrite H3', pw_S. cbn [uval]. unfold r'. rewrite !uval_app, Hlt, Hls. cbn [uval].
    rewrite (uval_take_drop i r) by lia. nia.
Qed.

Lemma mp_mul_basecase_spec a b :
  limbs a -> limbs b -> b <> [] ->
  limbs (mp_mul_basecase a b) /\ length (mp_mul_basecase a b) = (length a + length b)%nat /\
  uval (mp_mul_basecase a b) = uval a * uval b.
Proof.
  intros Ha Hb Hne. destruct b as [|y b]; [done|]. inv_subst Hb. cbn [mp_mul_basecase].
  pose proof (mp_mul1_spec a y 0) as Hm. destruct (mp_mul1 a y 0) as [rs l].
  destruct Hm as (Hr & Hl & Hl' & E); [done..|pose proof B_pos; unfold limb; lia|].
  destruct (mul_rounds_spec a b 1 (rs ++ [l])) as (H1' & H2' & H3').
  { done. } { done. } { apply Forall_app. split; [done|by constructor]. }
  { rewrite length_app, Hl. simpl. lia. }
  split_and!; [done| |].
  - rewrite H2', length_app, Hl. cbn [length]. lia.
  - rewrite H3', uval_app, Hl, pw_S, pw_0. cbn [uval]. nia.
Qed.

(** ** Division of two limbs by one *)

Lemma dlimb_join a1 a0 : limb a0 -> Z.lor (Z.shiftl a1 64) a0 = a1 * B + a0.
Proof. intros Ha. apply (lor_shiftl_low 64); [lia|exact Ha]. Qed.

Lemma udiv1_spec a1 a0 d :
  0 <= a1 < d -> limb a0 -> limb d ->
  udiv1 a1 a0 d = ((a1 * B + a0) / d, (a1 * B + a0) mod d).
Proof.
  intros H1 H0 Hd. unfold udiv1, limb in *. rewrite dlimb_join by done. f_equal; rewrite u64_B; apply Z.mod_small.
  - split; [apply Z.div_pos; nia|apply Z.div_lt_upper_bound; nia].
  - pose proof (Z.mod_pos_bound (a1 * B + a0) d). lia.
Qed.

(** A divisor with its top bit set, and its inverse. *)
Definition norm_limb (d : Z) : Prop := 2 ^ 63 <= d < B.

Lemma udiv1norm_init_spec d :
  norm_limb d -> limb (udiv1norm_init d) /\
  exists k, 1 <= k <= d /\ udiv1norm_init d * d = B * (B - d) - k.
Proof.
  intros Hd. pose proof B_half. unfold norm_limb in Hd. unfold udiv1norm_init, limb_ones.
  assert (Ha : u64 (- d - 1) = B - 1 - d).
  { rewrite u64_sub by lia. destruct (Z.ltb_spec (- d - 1) 0); lia. }
  rewrite Ha, dlimb_join by (unfold limb; lia).
  set (n := (B - 1 - d) * B + (B - 1)).
  assert (Hq : 0 <= n / d < B).
  { split; [apply Z.div_pos; unfold n; nia|apply Z.div_lt_upper_bound; unfold n; nia]. }
  rewrite u64_B, Z.mod_small by done. split; [done|].
  exists (n mod d + 1). pose proof (Z.mod_pos_bound n d). pose proof (Z.div_mod n d).
  split; [lia|]. unfold n in *. lia.
Qed.

(** The estimate is at most one too small. *)
Lemma udiv1norm_estimate a1 a0 d m k n1 :
  0 <= a1 < d -> limb a0 -> norm_limb d -> 1 <= k <= d -> m * d = B * (B - d) - k -> 0 <= m ->
  n1 = (if 2 ^ 63 <=? a0 then 1 else 0) ->
  let x := m * (a1 + n1) + (a0 + n1 * (d - B)) in
  0 <= x < B * B /\ 0 <= a1 * B + a0 - (x / B + a1) * d < 2 * d.
Proof.
  intros H1 H0 Hd Hk Hm Hm0 Hn x. pose proof B_half. unfold limb, norm_limb in *.
  assert (Hn1 : (n1 = 0 /\ a0 < 2 ^ 63) \/ (n1 = 1 /\ 2 ^ 63 <= a0)).
  { subst n1. destruct (Z.leb_spec (2 ^ 63) a0); auto. }
  assert (Hx : 0 <= x).
  { unfold x. destruct Hn1 as [[-> ?]|[-> ?]]; nia. }
  assert (HmB : m < B) by nia.
  assert (HxB : x < B * B).
  { unfold x. destruct Hn1 as [[-> ?]|[-> ?]]; nia. }
  split; [done|].
  pose proof (Z.div_mod x B ltac:(lia)) as Edm. pose proof (Z.mod_pos_bound x B ltac:(lia)) as Ht.
  set (t := x mod B) in *. set (f := x / B) in *.
  assert (Ekey : (a1 * B + a0 - (f + a1) * d) * B =
    (B - d) * (a0 - n1 * (B - d)) + k * (a1 + n1) + d * t).
  { assert (Ex : d * x = (B * (B - d) - k) * (a1 + n1) + d * (a0 + n1 * (d - B))).
    { unfold x. rewrite <- Hm. ring. }
    assert (Et : d * t = d * x - d * (B * f)) by (rewrite Edm; ring).
    rewrite Et, Ex. ring. }
  assert (Hy : 0 <= a0 - n1 * (B - d) <= d) by (destruct Hn1 as [[-> ?]|[-> ?]]; lia).
  assert (Hlo : 0 <= (B - d) * (a0 - n1 * (B - d)) <= (B - d) * d).
  { split; [apply Z.mul_nonneg_nonneg|apply Z.mul_le_mono_nonneg_l]; lia. }
  assert (Hmid : 0 <= k * (a1 + n1) <= d * d).
  { split; [apply Z.mul_nonneg_nonneg|apply Z.mul_le_mono_nonneg]; lia. }
  assert (Hhi : 0 <= d * t <= d * (B - 1)).
  { split; [apply Z.mul_nonneg_nonneg|apply Z.mul_le_mono_nonneg_l]; lia. }
  set (e := a1 * B + a0 - (f + a1) * d) in *. clearbody e.
  split; [apply (Z.mul_le_mono_pos_r _ _ B)|apply (Z.mul_lt_mono_pos_r B)]; lia.
Qed.

Lemma udiv1norm_spec a1 a0 d :
  0 <= a1 < d -> limb a0 -> norm_limb d ->
  udiv1norm a1 a0 d (udiv1norm_init d) = ((a1 * B + a0) / d, (a1 * B + a0) mod d).
Proof.
  intros H1 H0 Hd. destruct (udiv1norm_init_spec d Hd) as (Hm & k & Hk & Em).
  set (m := udiv1norm_init d) in *. clearbody m. unfold udiv1norm. rewrite sign_mask, dlimb_join by done.
  pose proof (udiv1norm_estimate a1 a0 d m k _ H1 H0 Hd Hk Em ltac:(unfold limb in Hm; lia) eq_refl) as Hest.
  pose proof B_half. assert (Hdl : limb d) by (unfold norm_limb, limb in *; lia).
  set (n1 := if 2 ^ 63 <=? a0 then 1 else 0) in *. cbv zeta in Hest.
  assert (Hn : u64 (a1 - (if 2 ^ 63 <=? a0 then limb_ones else 0)) = a1 + n1 /\
    u64 (a0 + Z.land (if 2 ^ 63 <=? a0 then limb_ones else 0) d) = a0 + n1 * (d - B)).
  { unfold n1, norm_limb, limb, limb_ones in *. destruct (Z.leb_spec (2 ^ 63) a0).
    - rewrite land_limb_ones by done. rewrite u64_sub, u64_add by lia.
      destruct (Z.ltb_spec (a1 - (B - 1)) 0), (Z.ltb_spec (a0 + d) B); lia.
    - rewrite Z.land_0_l, !u64_small by (change (2 ^ 64) with B; lia). lia. }
  destruct Hn as [-> ->]. clearbody n1. set (x := m * (a1 + n1) + (a0 + n1 * (d - B))) in *.
  destruct Hest as [Hx Hr]. clearbody x.
  destruct (dlimb_split x Hx) as (-> & _ & _). rewrite shiftr_B.
  set (n := a1 * B + a0) in *. set (q := x / B + a1) in *.
  assert (Hnb : 0 <= n < d * B) by (unfold n, limb in *; nia).
  assert (Hq : 0 <= q < B).
  { split; [unfold q; pose proof (Z.div_pos x B); lia|].
    apply (Z.mul_lt_mono_pos_r d); unfold norm_limb in Hd; lia. }
  rewrite (u64_small q) by (change (2 ^ 64) with B; lia).
  clearbody q n. unfold norm_limb in Hd.
  assert (Hdiv : forall q' r', n = d * q' + r' -> 0 <= r' < d -> (n / d, n mod d) = (q', r')).
  { intros q' r' E Hr'. f_equal; symmetry; [by apply (Z.div_unique_pos n d q' r')|by apply (Z.mod_unique_pos n d q' r')]. }
  destruct (Z_lt_le_dec (n - q * d) d) as [Hlt|Hge].
  - assert (Ha : u128 (n - q * d - d) = n - q * d - d + B * B).
    { rewrite u128_B. symmetry. apply (Z.mod_unique_pos _ (B * B) (-1)); nia. }
    assert (Hh : (n - q * d - d + B * B) / B = B - 1)
      by (symmetry; apply (Z.div_unique_pos _ B (B - 1) (n - q * d - d + B)); lia).
    assert (Hl : (n - q * d - d + B * B) mod B = n - q * d - d + B)
      by (symmetry; apply (Z.mod_unique_pos _ B (B - 1) (n - q * d - d + B)); lia).
    rewrite Ha, shiftr_B, Hh, (u64_small (B - 1)), (u64_B (n - q * d - d + B * B)), Hl
      by (change (2 ^ 64) with B; lia).
    change (B - 1) with limb_ones at 2. rewrite land_limb_ones by done.
    rewrite (Hdiv q (n - q * d)) by lia. f_equal; rewrite u64_add by lia.
    + destruct (Z.ltb_spec (q + 1 + (B - 1)) B); lia.
    + destruct (Z.ltb_spec (n - q * d - d + B + d) B); lia.
  - assert (Ha : u128 (n - q * d - d) = n - q * d - d).
    { rewrite u128_B. apply Z.mod_small. nia. }
    rewrite Ha, shiftr_B, Z.div_small, (u64_small 0), Z.land_0_l by (try change (2 ^ 64) with B; lia).
    assert (Hq1 : q + 1 < B).
    { apply (Z.mul_lt_mono_pos_r d); lia. }
    rewrite (Hdiv (q + 1) (n - q * d - d)) by lia.
    rewrite !u64_small by (rewrite ?u64_small; change (2 ^ 64) with B; lia). f_equal; lia.
Qed.

Lemma div1_loop_spec div d taba : forall r,
  (forall a1 a0, 0 <= a1 < d -> limb a0 -> div a1 a0 = ((a1 * B + a0) / d, (a1 * B + a0) mod d)) ->
  limb d -> limbs taba -> 0 <= r < d -> let '(qs, r') := div1_loop div taba r in
  limbs qs /\ length qs = length taba /\ 0 <= r' < d /\
  uval taba + pw (length taba) * r = uval qs * d + r'.
Proof.
  intros r Hdiv Hd. induction taba as [|a0 taba IH]; intros Ha Hr; cbn [div1_loop].
  { cbn [uval length]. rewrite pw_0. split_and!; try done; lia. }
  inv_subst Ha. specialize (IH ltac:(done) Hr). destruct (div1_loop div taba r) as [qs r1].
  destruct IH as (Hqs & Hlen & Hr1 & E). rewrite Hdiv by done.
  pose proof (Z.mod_pos_bound (r1 * B + a0) d ltac:(lia)). pose proof (Z.div_mod (r1 * B + a0) d ltac:(lia)).
  assert (Hq : limb ((r1 * B + a0) / d)).
  { unfold limb in *. split; [apply Z.div_pos; nia|apply Z.div_lt_upper_bound; nia]. }
  set (q := (r1 * B + a0) / d) in *. set (r2 := (r1 * B + a0) mod d) in *. clearbody q r2.
  cbn [uval length]. rewrite pw_S. split_and!; [by constructor|congruence|lia|lia|]. nia.
Qed.

Lemma mp_div1norm_spec taba d r :
  norm_limb d -> limbs taba -> 0 <= r < d -> let '(qs, r') := mp_div1norm taba d r in
  limbs qs /\ length qs = length taba /\ 0 <= r' < d /\
  uval taba + pw (length taba) * r = uval qs * d + r'.
Proof.
  intros Hd Ha Hr. assert (Hdl : limb d) by (unfold norm_limb, limb in *; lia).
  unfold mp_div1norm. destruct (_ <=? _)%nat; apply div1_loop_spec; try done; intros a1 a0 H1 H0.
  - by apply udiv1norm_spec.
  - by apply udiv1_spec.
Qed.

(** ** Comparison of arrays *)

Lemma cmp_loop_app ps qs : cmp_loop (ps ++ qs) = if cmp_loop ps =? 0 then cmp_loop qs else cmp_loop ps.
Proof.
  induction ps as [|[x y] ps IH]; cbn [cmp_loop app]; [done|].
  destruct (x =? y); [done|]. by destruct (x <? y).
Qed.

Lemma cmp_loop_spec a : forall b, limbs a -> limbs b -> length a = length b ->
  cmp_loop (rev (zip a b)) = Z.sgn (uval a - uval b).
Proof.
  induction a as [|x a IH]; intros [|y b] Ha Hb Hl; try discriminate Hl; [done|].
  injection Hl as Hl. inv_subst Ha. inv_subst Hb. cbn [zip zip_with rev uval]. rewrite cmp_loop_app.
  fold (zip a b). rewrite IH by done. cbn [cmp_loop]. unfold limb in *.
  destruct (Z.sgn_spec (uval a - uval b)) as [[Hs ->]|[[Hs ->]|[Hs ->]]]; cbn [Z.eqb].
  - symmetry. apply Z.sgn_pos. nia.
  - destruct (Z.eqb_spec x y); [subst; symmetry; apply Z.sgn_null; nia|].
    destruct (Z.ltb_spec x y); symmetry; [apply Z.sgn_neg|apply Z.sgn_pos]; nia.
  - symmetry. apply Z.sgn_neg. nia.
Qed.

Lemma first_quotient_spec a b : limbs a -> limbs b -> length a = length b ->
  first_quotient (rev (zip a b)) = if uval b <=? uval a then 1 else 0.
Proof.
  intros Ha Hb Hl. assert (E : forall ps, first_quotient ps = if cmp_loop ps =? -1 then 0 else 1).
  { induction ps as [|[x y] ps IH]; cbn [first_quotient cmp_loop]; [done|].
    destruct (x =? y); [done|]. by destruct (x <? y). }
  rewrite E, cmp_loop_spec by done.
  destruct (Z.sgn_spec (uval a - uval b)) as [[Hs ->]|[[Hs ->]|[Hs ->]]]; cbn [Z.eqb Pos.eqb];
    destruct (Z.leb_spec (uval b) (uval a)); try done; lia.
Qed.

(** ** Division of arrays *)

Lemma estimate_spec hi lo b1 b1_inv :
  norm_limb b1 -> 0 <= hi <= b1 -> limb lo -> b1_inv = 0 \/ b1_inv = udiv1norm_init b1 ->
  limb (estimate hi lo b1 b1_inv) /\ estimate hi lo b1 b1_inv * b1 <= hi * B + lo /\
  (if b1 <=? hi then estimate hi lo b1 b1_inv = B - 1
   else hi * B + lo < (estimate hi lo b1 b1_inv + 1) * b1).
Proof.
  intros Hb1 Hhi Hlo Hinv. pose proof B_pos. unfold estimate. unfold norm_limb in Hb1.
  destruct (Z.leb_spec b1 hi) as [Hge|Hlt].
  { unfold limb, limb_ones in *. split_and!; try done; nia. }
  assert (E : fst (if negb (b1_inv =? 0) then udiv1norm hi lo b1 b1_inv else udiv1 hi lo b1) = (hi * B + lo) / b1).
  { destruct (Z.eqb_spec b1_inv 0); cbn [negb].
    - by rewrite udiv1_spec by (unfold limb; done || lia).
    - destruct Hinv as [H0|H0]; [done|rewrite H0]. by rewrite udiv1norm_spec by (unfold norm_limb; done || lia). }
  assert (E' : (if negb (b1_inv =? 0) then fst (udiv1norm hi lo b1 b1_inv) else fst (udiv1 hi lo b1)) = (hi * B + lo) / b1)
    by (by destruct (negb (b1_inv =? 0))).
  rewrite E'. pose proof (Z.div_mod (hi * B + lo) b1 ltac:(lia)). pose proof (Z.mod_pos_bound (hi * B + lo) b1 ltac:(lia)).
  unfold limb in *. split_and!; [apply Z.div_pos; nia|apply Z.div_lt_upper_bound; nia|lia|lia].
Qed.

Lemma add_back_spec fuel : forall seg tabb top q,
  limbs seg -> limbs tabb -> length seg = length tabb -> limb top ->
  0 < uval tabb -> q < B ->
  let t := uval seg + pw (length tabb) * top - pw (S (length tabb)) in
  - Z.of_nat fuel * uval tabb <= t < 0 -> 0 <= t + q * uval tabb ->
  exists seg' top' q', add_back fuel seg tabb top q = Some (seg', top', q') /\
    limbs seg' /\ length seg' = length tabb /\ limb top' /\ 0 <= q' /\
    uval seg' + pw (length tabb) * top' = t + (q - q') * uval tabb /\
    0 <= t + (q - q') * uval tabb < uval tabb.
Proof.
  induction fuel as [|fuel IH]; intros seg tabb top q Hs Hb Hl Htop Hpos Hq t Ht Hqt; [lia|].
  assert (Hq1 : 1 <= q) by nia. cbn [add_back]. rewrite (u64_small (q - 1)) by (change (2 ^ 64) with B; lia).
  pose proof (mp_add_spec seg tabb 0) as Hadd. destruct (mp_add seg tabb 0) as [s1 c].
  destruct Hadd as (Hs1 & Hl1 & Hc & E); [done..|by left|]. rewrite Hl in E, Hl1.
  pose proof (uval_bounds s1 Hs1) as Hb1. rewrite Hl1 in Hb1. pose proof (pw_pos (length tabb)) as Hp.
  set (P := pw (length tabb)) in *. unfold t in Ht, Hqt. rewrite pw_S in *. fold P in t, Ht, Hqt. unfold limb in *.
  destruct Hc as [Hc|Hc]; subst c; cbn [Z.eqb negb].
  - assert (HP : P * top + P <= B * P) by nia.
    destruct (IH s1 tabb top (q - 1)) as (seg' & top' & q' & E' & H1 & H2 & H3 & H4 & H5 & H6);
      try done; try lia; [rewrite pw_S; fold P; lia..|].
    rewrite pw_S in H5, H6. fold P in H5, H6. exists seg', top', q'. split_and!; try done; unfold t; rewrite ?pw_S; fold P; nia.
  - rewrite u64_add by lia. destruct (Z.ltb_spec (top + 1) B) as [Hlt|Hge].
    + rewrite (proj2 (Z.eqb_neq (top + 1) 0)) by lia.
      assert (HP : P * (top + 1) + P <= B * P) by nia.
      destruct (IH s1 tabb (top + 1) (q - 1)) as (seg' & top' & q' & E' & H1 & H2 & H3 & H4 & H5 & H6);
        try done; try (unfold limb; lia); [rewrite pw_S; fold P; lia..|].
      rewrite pw_S in H5, H6. fold P in H5, H6. exists seg', top', q'. split_and!; try done; unfold t; rewrite ?pw_S; fold P; nia.
    + assert (top = B - 1) as -> by lia. replace (B - 1 + 1 - B) with 0 by lia. cbn [Z.eqb].
      exists s1, 0, (q - 1). split_and!; try done; unfold t; rewrite ?pw_S; fold P; try lia; nia.
Qed.

Lemma limb_at_lt tab i : limbs tab -> (i < length tab)%nat -> limb (limb_at tab i).
Proof.
  intros Ht Hi. unfold limb_at. destruct (lookup_lt_is_Some_2 tab i Hi) as [x Hx]. rewrite Hx. simpl.
  rewrite Forall_lookup in Ht. eauto.
Qed.

(** The top limb of an array. *)
Lemma uval_top tab : tab <> [] ->
  uval tab = uval (take (length tab - 1) tab) + pw (length tab - 1) * limb_at tab (length tab - 1).
Proof.
  intros Hne. destruct (exists_last Hne) as (l & x & ->). rewrite length_app. simpl.
  replace (length l + 1 - 1)%nat with (length l) by lia. unfold limb_at.
  rewrite lookup_app_r, Nat.sub_diag, take_app_length, uval_app by lia. simpl. lia.
Qed.

(** The quotient digit is at most two too large. *)
Lemma digit_estimate a s' lo hi b b' b1 beta q :
  0 <= s' < beta -> 0 <= b' < beta -> 0 < beta -> norm_limb b1 -> limb q ->
  a = s' + beta * lo + B * beta * hi -> b = b' + beta * b1 -> a < b * B ->
  q * b1 <= hi * B + lo -> (if b1 <=? hi then q = B - 1 else hi * B + lo < (q + 1) * b1) ->
  - 2 * b <= a - q * b < b.
Proof.
  intros Hs Hb' Hbeta Hb1 Hq Ea Eb Hlt Hle Hup. pose proof B_half. unfold limb, norm_limb in *.
  assert (Hq1 : q * b <= a + q * b').
  { assert (q * b1 * beta <= (hi * B + lo) * beta) by (apply Z.mul_le_mono_nonneg_r; lia). subst a b. lia. }
  assert (Hq2 : q * b' <= B * beta) by (apply Z.mul_le_mono_nonneg; lia).
  assert (Hq3 : B * beta <= 2 * b).
  { assert (2 ^ 63 * beta <= b1 * beta) by (apply Z.mul_le_mono_nonneg_r; lia). subst b. lia. }
  split; [lia|]. destruct (Z.leb_spec b1 hi).
  - subst q. lia.
  - assert ((hi * B + lo + 1) * beta <= (q + 1) * b1 * beta) by (apply Z.mul_le_mono_nonneg_r; lia).
    assert (0 <= (q + 1) * b') by (apply Z.mul_nonneg_nonneg; lia). subst a b. lia.
Qed.

Lemma div_round_spec seg tabb hi b1_inv :
  let nb := length tabb in let b1 := limb_at tabb (nb - 1) in
  let a := uval seg + pw nb * hi in
  limbs seg -> limbs tabb -> length seg = nb -> (0 < nb)%nat -> limb hi -> norm_limb b1 ->
  b1_inv = 0 \/ b1_inv = udiv1norm_init b1 -> a < uval tabb * B ->
  exists seg' q, div_round seg tabb hi b1_inv = Some (seg', 0, q) /\
    limbs seg' /\ length seg' = nb /\ limb q /\ a = q * uval tabb + uval seg' /\ uval seg' < uval tabb.
Proof.
  intros nb b1 a Hs Hb Hl Hnb Hhi Hb1 Hinv Ha.
  assert (Hbne : tabb <> []) by (intros E; unfold nb in Hnb; rewrite E in Hnb; simpl in Hnb; lia).
  assert (Hsne : seg <> []) by (intros E; rewrite E in Hl; simpl in Hl; lia).
  pose proof (uval_top tabb Hbne) as Eb. pose proof (uval_top seg Hsne) as Es. fold nb b1 in Eb. rewrite Hl in Es.
  set (lo := limb_at seg (nb - 1)) in *. set (beta := pw (nb - 1)) in *.
  assert (Hlo : limb lo) by (apply limb_at_lt; [done|lia]).
  assert (Hpw : pw nb = B * beta) by (unfold beta; rewrite <- pw_S; f_equal; lia).
  assert (Hbeta : 0 < beta) by apply pw_pos.
  destruct (Forall_take_drop limb (nb - 1) tabb Hb) as [Hbt _]. destruct (Forall_take_drop limb (nb - 1) seg Hs) as [Hst _].
  pose proof (uval_bounds _ Hbt) as Hbt'. pose proof (uval_bounds _ Hst) as Hst'. rewrite length_take in Hbt', Hst'.
  rewrite Nat.min_l in Hbt', Hst' by lia. fold beta in Hbt', Hst'.
  set (b' := uval (take (nb - 1) tabb)) in *. set (s' := uval (take (nb - 1) seg)) in *.
  assert (Hhi1 : hi <= b1).
  { unfold a in Ha. rewrite Es, Hpw in Ha. unfold limb in *. pose proof B_pos.
    destruct (Z_le_gt_dec hi b1) as [|Hgt]; [done|exfalso].
    assert (B * beta * (b1 + 1) <= B * beta * hi) by (apply Z.mul_le_mono_nonneg_l; nia).
    assert (uval tabb * B <= beta * (b1 + 1) * B) by (apply Z.mul_le_mono_nonneg_r; lia).
    assert (0 <= beta * lo) by (apply Z.mul_nonneg_nonneg; lia). lia. }
  destruct (estimate_spec hi lo b1 b1_inv Hb1 ltac:(unfold limb in Hhi; lia) Hlo Hinv) as (Hq & Hq1 & Hq2).
  unfold div_round. fold nb lo b1. set (q := estimate hi lo b1 b1_inv) in *. clearbody q.
  assert (Ea : a = s' + beta * lo + B * beta * hi) by (unfold a; rewrite Es, Hpw; lia).
  pose proof (digit_estimate a s' lo hi (uval tabb) b' b1 beta q Hst' Hbt' Hbeta Hb1 Hq Ea Eb Ha Hq1 Hq2) as Hest.
  pose proof (mp_sub_mul1_spec seg tabb q 0) as Hsub. destruct (mp_sub_mul1 seg tabb q 0) as [s1 r].
  destruct Hsub as (Hs1 & Hl1 & Hr & E1); [done..|unfold limb; pose proof B_pos; lia|]. fold nb in E1, Hl1.
  pose proof (uval_bounds s1 Hs1) as Hb1'. rewrite Hl1 in Hb1'.
  pose proof (uval_bounds tabb Hb) as Hbb. fold nb in Hbb. unfold limb in *.
  assert (Hpos : 0 < uval tabb).
  { rewrite Eb. assert (0 < beta * b1) by (apply Z.mul_pos_pos; unfold norm_limb in Hb1; lia). lia. }
  assert (Ha0 : 0 <= a).
  { unfold a. pose proof (uval_bounds seg Hs). assert (0 <= pw nb * hi)
      by (apply Z.mul_nonneg_nonneg; [pose proof (pw_pos nb)|]; lia). lia. }
  pose proof (pw_pos nb) as Hp. rewrite u64_sub by lia. clear Es Eb Hst' Hbt' Hq1 Hq2 Ea Hhi1.
  destruct (Z.ltb_spec (hi - r) 0) as [Hneg|Hnn].
  - rewrite (proj2 (Z.ltb_lt hi (hi - r + B))) by lia.
    assert (Et : uval s1 + pw nb * (hi - r + B) - pw (S nb) = a - q * uval tabb)
      by (rewrite pw_S; unfold a; lia).
    assert (Hneg' : pw nb * (hi - r + 1) <= 0) by (apply Z.mul_nonneg_nonpos; lia).
    assert (Hlow : - Z.of_nat 3 * uval tabb <= a - q * uval tabb < 0).
    { split; [lia|]. rewrite pw_S in Et. lia. }
    pose proof (add_back_spec 3 s1 tabb (hi - r + B) q Hs1 Hb Hl1 ltac:(unfold limb; lia) Hpos ltac:(lia)) as Hback.
    cbv zeta in Hback. fold nb in Hback. rewrite Et in Hback.
    destruct (Hback Hlow ltac:(lia)) as (s2 & top & q' & E2 & Hs2 & Hl2 & Htop & Hq' & Ev & Hv).
    pose proof (uval_bounds s2 Hs2) as Hb2. rewrite Hl2 in Hb2.
    assert (Htop0 : top = 0).
    { unfold limb in Htop. destruct (Z_le_gt_dec top 0); [lia|exfalso].
      assert (pw nb * 1 <= pw nb * top) by (apply Z.mul_le_mono_nonneg_l; lia). lia. }
    rewrite Htop0 in *. exists s2, q'. rewrite E2. split_and!; try done; try lia.
    apply (Z.lt_le_trans _ (q + 1)); [|lia]. apply (Z.mul_lt_mono_pos_r (uval tabb)); lia.
  - rewrite (proj2 (Z.ltb_ge hi (hi - r))) by lia.
    assert (Et : uval s1 + pw nb * (hi - r) = a - q * uval tabb) by (unfold a; lia).
    assert (Hz : hi - r = 0).
    { destruct (Z_le_gt_dec (hi - r) 0); [lia|exfalso].
      assert (pw nb * 1 <= pw nb * (hi - r)) by (apply Z.mul_le_mono_nonneg_l; lia). lia. }
    rewrite Hz in *. exists s1, q. split_and!; try done; lia.
Qed.

Section division.
(** A normalised divisor. *)
Context (tabb : list Z) (b1_inv : Z).
Let nb := length tabb.
Let b := uval tabb.
Context (Hb : limbs tabb) (Hnb : (0 < nb)%nat) (Hb1 : norm_limb (limb_at tabb (nb - 1)))
        (Hinv : b1_inv = 0 \/ b1_inv = udiv1norm_init (limb_at tabb (nb - 1))).

Lemma div_rounds_spec i : forall taba tabq,
  limbs taba -> (i + nb <= length taba)%nat -> uval (take nb (drop i taba)) < b ->
  exists qs taba', div_rounds i taba tabb b1_inv tabq = Some (qs ++ tabq, taba') /\
    limbs qs /\ length qs = i /\ limbs taba' /\ length taba' = length taba /\
    uval (take (i + nb) taba) = uval qs * b + uval (take nb taba') /\ uval (take nb taba') < b.
Proof.
  induction i as [|i IH]; intros taba tabq Ha Hlen Hlt; cbn [div_rounds].
  { exists [], taba. rewrite drop_0 in Hlt. split_and!; try done. }
  cbv zeta. fold nb. set (seg := take nb (drop i taba)). set (hi := limb_at taba (i + nb)).
  destruct (Forall_take_drop limb i taba Ha) as [Hti Hdi]. destruct (Forall_take_drop limb nb _ Hdi) as [Hseg _].
  assert (Hls : length seg = nb) by (unfold seg; rewrite length_take, length_drop; lia).
  assert (Hhi : limb hi) by (apply limb_at_lt; [done|lia]).
  destruct (lookup_lt_is_Some_2 taba i ltac:(lia)) as [x Hx].
  assert (Htop : drop nb (drop i taba) = hi :: drop (S (i + nb)) taba).
  { rewrite drop_drop. destruct (lookup_lt_is_Some_2 taba (i + nb) ltac:(lia)) as [y Hy].
    unfold hi, limb_at. rewrite Hy. simpl. by apply drop_S. }
  assert (Ea : uval seg + pw nb * hi = x + B * uval (take nb (drop (S i) taba))).
  { transitivity (uval (seg ++ [hi])); [rewrite uval_app, Hls; simpl; lia|].
    replace (seg ++ [hi]) with (take (S nb) (drop i taba)).
    - rewrite (drop_S taba x i Hx). simpl. done.
    - rewrite <- (take_drop nb (drop i taba)) at 1. fold seg. rewrite Htop.
      replace (S nb) with (length seg + 1)%nat by lia. by rewrite take_app_add. }
  assert (Hxl : limb x) by (rewrite Forall_lookup in Ha; eauto).
  destruct (div_round_spec seg tabb hi b1_inv) as (seg' & q & E & Hs' & Hl' & Hq & Ev & Hv);
    try done; [fold nb; unfold limb in Hxl; fold b; nia|].
  rewrite E. cbn [mbind option_bind]. fold nb in E, Ev, Hl'. fold b in Ev, Hv.
  set (taba1 := take i taba ++ seg' ++ [0] ++ drop (S (i + nb)) taba).
  assert (Hlt1 : length (take i taba) = i) by (rewrite length_take; lia).
  assert (Hlen1 : length taba1 = length taba).
  { unfold taba1. rewrite !length_app, Hlt1, Hl', length_drop. simpl. lia. }
  assert (Htake : take (i + nb) taba1 = take i taba ++ seg').
  { unfold taba1. rewrite app_assoc. apply take_app_length'. rewrite length_app. lia. }
  destruct (IH taba1 (q :: tabq)) as (qs & taba' & E' & Hqs & Hlq & Hta' & Hla' & Ev' & Hv').
  { unfold taba1. apply Forall_app. split; [done|]. apply Forall_app. split; [done|].
    constructor; [unfold limb; pose proof B_pos; lia|]. by apply Forall_take_drop. }
  { lia. }
  { unfold taba1. rewrite drop_app_length' by done. rewrite take_app_length' by done. done. }
  exists (qs ++ [q]), taba'. rewrite E', <- app_assoc. split; [done|].
  split; [apply Forall_app; split; [done|by constructor]|].
  split; [rewrite length_app, Hlq; simpl; lia|]. split; [done|]. split; [lia|]. split; [|done].
  rewrite uval_app, Hlq. cbn [uval].
  rewrite Htake, uval_app, Hlt1 in Ev'.
  assert (Et : uval (take (S i + nb) taba) = uval (take i taba) + pw i * (uval seg + pw nb * hi)).
  { replace (take (S i + nb) taba) with (take i taba ++ seg ++ [hi]).
    - rewrite !uval_app, Hlt1, Hls. simpl. lia.
    - rewrite <- (take_drop i taba) at 2. rewrite <- (take_drop nb (drop i taba)). fold seg. rewrite Htop.
      replace (S i + nb)%nat with (length (take i taba) + (length seg + 1))%nat by lia.
      by rewrite !take_app_add. }
  rewrite Et, Ev. nia.
Qed.
End division.

Lemma mp_divnorm_spec taba tabb :
  limbs taba -> limbs tabb -> tabb <> [] -> (length tabb <= length taba)%nat ->
  norm_limb (limb_at tabb (length tabb - 1)) ->
  exists q r, mp_divnorm taba tabb = Some (q, r) /\ limbs q /\ limbs r /\
    length q = S (length taba - length tabb) /\ length r = length taba /\
    uval taba = uval q * uval tabb + uval (take (length tabb) r) /\
    uval (take (length tabb) r) < uval tabb.
Proof.
  intros Ha Hb Hne Hlen Hb1. unfold mp_divnorm. set (nb := length tabb) in *.
  assert (Hnb : (0 < nb)%nat) by (destruct tabb; [done|simpl in *; lia]).
  destruct (Nat.eqb_spec nb 1) as [Hnb1|Hnb1].
  { destruct tabb as [|b1 [|]]; simpl in nb; try (unfold nb in *; lia). unfold nb in *. clear nb Hnb1.
    unfold limb_at in *. cbn [lookup list_lookup default] in *. simpl in Hb1. simpl (_ - 1)%nat. cbn [lookup list_lookup].
    pose proof (mp_div1norm_spec taba b1 0 Hb1 Ha ltac:(unfold norm_limb in Hb1; lia)) as H.
    simpl. destruct (mp_div1norm taba b1 0) as [qs r]. destruct H as (Hqs & Hlq & Hr & E).
    destruct taba as [|x taba]; [simpl in Hlen; lia|]. inv_subst Ha.
    exists qs, (r :: taba). cbn [length] in *. rewrite Z.mul_0_r, Z.add_0_r in E.
    split; [done|]. split; [done|]. split; [constructor; [unfold limb, norm_limb in *; lia|done]|].
    split; [lia|]. split; [done|]. rewrite E. change (take 0 taba) with (@nil Z). cbn [uval take]. rewrite !Z.mul_0_r, !Z.add_0_r. lia. }
  set (n := (length taba - nb)%nat). set (b1_inv := if (_ <=? _)%nat then _ else _).
  assert (Hinv : b1_inv = 0 \/ b1_inv = udiv1norm_init (limb_at tabb (nb - 1)))
    by (unfold b1_inv; destruct (_ <=? _)%nat; auto).
  destruct (Forall_take_drop limb n taba Ha) as [Hta Hda].
  assert (Hld : length (drop n taba) = nb) by (rewrite length_drop; lia).
  assert (Hlt : length (take n taba) = n) by (rewrite length_take; lia).
  rewrite first_quotient_spec by (done || lia).
  set (q := if uval tabb <=? uval (drop n taba) then 1 else 0).
  set (taba1 := if q =? 0 then taba else take n taba ++ (mp_sub (drop n taba) tabb 0).1).
  assert (H1 : limbs taba1 /\ length taba1 = length taba /\ take n taba1 = take n taba /\
    uval (drop n taba) = q * uval tabb + uval (drop n taba1) /\ uval (drop n taba1) < uval tabb).
  { unfold taba1, q. destruct (Z.leb_spec (uval tabb) (uval (drop n taba))) as [Hge|Hlt']; cbn [Z.eqb].
    - pose proof (mp_sub_spec (drop n taba) tabb 0) as Hs. destruct (mp_sub (drop n taba) tabb 0) as [s c].
      destruct Hs as (Hs & Hls & Hc & E); [done|done|lia|by left|]. cbn [fst].
      pose proof (uval_bounds s Hs). pose proof (uval_bounds _ Hda). pose proof (pw_pos nb).
      rewrite Hld in *. rewrite Hls in *.
      assert (c = 0) as -> by (destruct Hc; subst; lia).
      assert (Hbig : pw nb <= 2 * uval tabb).
      { rewrite (uval_top tabb Hne). fold nb. unfold norm_limb in Hb1. pose proof (pw_pos (nb - 1)).
        destruct (Forall_take_drop limb (nb - 1) tabb Hb) as [Htt _]. pose proof (uval_bounds _ Htt).
        replace nb with (S (nb - 1)) at 1 by lia. rewrite pw_S, B_half. nia. }
      rewrite drop_app_length', take_app_length' by done. split_and!; try lia; try done.
      + apply Forall_app. done.
      + rewrite length_app, Hlt, Hls. unfold n. lia.
    - split_and!; try done; lia. }
  destruct H1 as (Ht1 & Hl1 & Htk & Ev1 & Hv1).
  destruct (div_rounds_spec tabb b1_inv Hb Hnb Hb1 Hinv n taba1 [q]) as (qs & r & E & Hqs & Hlq & Hr & Hlr & Ev & Hv).
  { done. } { lia. }
  { rewrite take_ge by (rewrite length_drop; lia). done. }
  exists (qs ++ [q]), r. rewrite E. split; [done|]. split.
  { apply Forall_app. split; [done|]. constructor; [|constructor]. unfold limb, q. pose proof B_pos.
    destruct (_ <=? _); lia. }
  split; [done|]. split; [rewrite length_app, Hlq; simpl; fold nb; unfold n; lia|]. split; [lia|]. split; [|done].
  rewrite uval_app, Hlq. cbn [uval].
  rewrite take_ge in Ev by lia. rewrite (uval_take_drop n taba) by lia.
  rewrite (uval_take_drop n taba1), Htk in Ev by lia. fold nb in Ev. rewrite Ev1. nia.
Qed.

(** ** Shifts of arrays *)

Lemma mp_shl_spec s a : 0 < s < 64 -> forall l, limbs a -> 0 <= l < 2 ^ s ->
  let '(r, l') := mp_shl a s l in
  limbs r /\ length r = length a /\ 0 <= l' < 2 ^ s /\ uval a * 2 ^ s + l = uval r + pw (length a) * l'.
Proof.
  intros Hs. pose proof (pow2_pos s ltac:(lia)) as Hp. pose proof (pow2_pos (64 - s) ltac:(lia)) as Hm.
  pose proof (B_split s ltac:(lia)) as HB.
  induction a as [|v a IH]; intros l Ha Hl; cbn [mp_shl].
  { cbn [uval length]. rewrite pw_0. split_and!; try done; lia. }
  inv_subst Ha. rewrite limb_shl, Z.shiftr_div_pow2 by (done || lia).
  rewrite (lor_low s) by (try apply Z_mod_mult; lia). unfold limb in *.
  set (M := 2 ^ (64 - s)) in *. set (S2 := 2 ^ s) in *. clearbody M S2.
  pose proof (Z.div_mod v M ltac:(lia)) as Ev. pose proof (Z.mod_pos_bound v M Hm) as Hv.
  assert (Hq : 0 <= v / M < S2) by (split; [apply Z.div_pos; lia|apply Z.div_lt_upper_bound; lia]).
  set (q := v / M) in *. set (w := v mod M) in *. clearbody q w.
  specialize (IH q ltac:(done) Hq). destruct (mp_shl a s q) as [rs l'].
  destruct IH as (Hrs & Hlen & Hl' & E). cbn [uval length]. rewrite pw_S.
  split_and!; [constructor; [unfold limb; nia|done]|congruence|lia|lia|]. subst v. rewrite HB in *. nia.
Qed.

Lemma shr_loop_spec s tab : 0 < s < 64 -> forall high, limbs tab -> limb high ->
  let '(r, l) := shr_loop tab s high in
  limbs r /\ length r = length tab /\ limb l /\ l = match tab with [] => high | a :: _ => a end /\
  2 ^ s * uval r + l mod 2 ^ s = uval tab + pw (length tab) * (high mod 2 ^ s).
Proof.
  intros Hs. pose proof (pow2_pos s ltac:(lia)) as Hp. pose proof (pow2_pos (64 - s) ltac:(lia)) as Hm.
  pose proof (B_split s ltac:(lia)) as HB.
  induction tab as [|a tab IH]; intros high Ha Hh; cbn [shr_loop].
  { cbn [uval length]. rewrite pw_0. split_and!; try done; lia. }
  inv_subst Ha. specialize (IH high ltac:(done) Hh). destruct (shr_loop tab s high) as [rs l].
  destruct IH as (Hrs & Hlen & Hl & _ & E).
  rewrite limb_shl, Z.shiftr_div_pow2 by (done || lia). replace (64 - (64 - s)) with s by lia. unfold limb in *.
  assert (Hq : 0 <= a / 2 ^ s < 2 ^ (64 - s)).
  { split; [apply Z.div_pos; lia|]. apply Z.div_lt_upper_bound; [lia|]. rewrite <- HB. lia. }
  rewrite Z.lor_comm, (lor_low (64 - s)) by (try apply Z_mod_mult; lia).
  set (M := 2 ^ (64 - s)) in *. set (S2 := 2 ^ s) in *. clearbody M S2.
  pose proof (Z.div_mod a S2 ltac:(lia)) as Ea. pose proof (Z.mod_pos_bound a S2 Hp).
  pose proof (Z.mod_pos_bound l S2 Hp). set (q := a / S2) in *. set (w := l mod S2) in *. clearbody q w.
  set (t := a mod S2) in *. clearbody t. cbn [uval length]. rewrite pw_S.
  split_and!; [constructor; [unfold limb; nia|done]|congruence|lia|lia|done|]. nia.
Qed.

(** ** Signed values *)

Definition sval (a : JSBigInt) : Z := uval a - js_bigint_sign a * pw (length a).

Lemma sign_spec a :
  limbs a -> a <> [] -> js_bigint_sign a = if pw (length a) <=? 2 * uval a then 1 else 0.
Proof.
  intros Ha Hne. unfold js_bigint_sign.
  assert (Hlen : (0 < length a)%nat) by (destruct a; [done|simpl; lia]).
  rewrite sign_bit by (apply limb_at_lt; [done|lia]). rewrite (uval_top a Hne).
  destruct (Forall_take_drop limb (length a - 1) a Ha) as [Ht _]. pose proof (uval_bounds _ Ht) as Hb.
  rewrite length_take, Nat.min_l in Hb by lia.
  set (n := (length a - 1)%nat) in *. replace (length a) with (S n) by lia. rewrite pw_S, B_half.
  set (lo := uval (take n a)) in *. set (t := limb_at a n). pose proof (pw_pos n).
  destruct (Z.leb_spec (2 ^ 63) t), (Z.leb_spec (2 * 2 ^ 63 * pw n) (2 * (lo + pw n * t))); try done; exfalso.
  - assert (2 ^ 63 * pw n <= t * pw n) by (apply Z.mul_le_mono_nonneg_r; lia). lia.
  - assert ((t + 1) * pw n <= 2 ^ 63 * pw n) by (apply Z.mul_le_mono_nonneg_r; lia). lia.
Qed.

Lemma sign_bool a : limbs a -> a <> [] -> bit (js_bigint_sign a).
Proof. intros Ha Hne. rewrite sign_spec by done. destruct (_ <=? _); [by right|by left]. Qed.

Lemma sval_range a : limbs a -> a <> [] -> - pw (length a) <= 2 * sval a < pw (length a).
Proof.
  intros Ha Hne. unfold sval. rewrite sign_spec by done. pose proof (uval_bounds a Ha).
  destruct (Z.leb_spec (pw (length a)) (2 * uval a)); lia.
Qed.

(** The only value in range that an array can represent. *)
Lemma sval_unique r x k :
  limbs r -> r <> [] -> uval r = x + k * pw (length r) -> - pw (length r) <= 2 * x < pw (length r) ->
  sval r = x.
Proof.
  intros Hr Hne E Hx. pose proof (sval_range r Hr Hne) as Hs. unfold sval in *.
  set (c := js_bigint_sign r) in *. set (P := pw (length r)) in *. clearbody c. pose proof (pw_pos (length r)).
  fold P in H. assert (k - c = 0) by nia. nia.
Qed.

Lemma sval_sign a : limbs a -> a <> [] -> js_bigint_sign a = if sval a <? 0 then 1 else 0.
Proof.
  intros Ha Hne. pose proof (uval_bounds a Ha). pose proof (sign_spec a Ha Hne) as E. unfold sval.
  destruct (Z.leb_spec (pw (length a)) (2 * uval a)); rewrite E;
    [destruct (Z.ltb_spec (uval a - 1 * pw (length a)) 0)|destruct (Z.ltb_spec (uval a - 0 * pw (length a)) 0)]; lia.
Qed.

(** The limb that repeats the sign. *)
Lemma sign_limb a : limbs a -> a <> [] ->
  u64 (- js_bigint_sign a) = if js_bigint_sign a =? 0 then 0 else limb_ones.
Proof.
  intros Ha Hne. pose proof B_pos. destruct (sign_bool a Ha Hne) as [E|E]; rewrite E; simpl.
  - apply u64_small. change (2 ^ 64) with B. lia.
  - rewrite u64_sub by lia. unfold limb_ones. destruct (Z.ltb_spec (- (1)) 0); lia.
Qed.

Lemma sval_extend a k : limbs a -> a <> [] ->
  let e := u64 (- js_bigint_sign a) in
  sval (a ++ replicate k e) = sval a /\ uval (a ++ replicate k e) = sval a + js_bigint_sign a * pw (length a + k).
Proof.
  intros Ha Hne e. assert (He : e = if js_bigint_sign a =? 0 then 0 else limb_ones) by (by apply sign_limb).
  assert (Hu : uval (a ++ replicate k e) = sval a + js_bigint_sign a * pw (length a + k)).
  { rewrite uval_app, pw_add, He. unfold sval. destruct (sign_bool a Ha Hne) as [E|E]; rewrite E; simpl.
    - rewrite uval_zeros. lia.
    - rewrite uval_ones. lia. }
  split; [|done]. pose proof (sval_range a Ha Hne). pose proof (pw_pos (length a)). pose proof (pw_pos k).
  apply (sval_unique _ _ (js_bigint_sign a)).
  - apply Forall_app. split; [done|]. apply Forall_replicate. apply limb_u64.
  - by destruct a.
  - rewrite Hu, length_app, length_replicate. done.
  - rewrite length_app, length_replicate, pw_add. nia.
Qed.

(** ** Normal forms *)

Definition normalized (a : JSBigInt) : Prop :=
  forall k, length a = S (S k) -> needed (limb_at a k) (limb_at a (S k)) = true.

(** A BigInt of the engine. *)
Record bigint_ok (a : JSBigInt) : Prop := {
  bo_limbs : limbs a;
  bo_some : a <> [];
  bo_norm : normalized a;
}.

Lemma needed_false u v : limb u -> limb v ->
  needed u v = false <-> v = (if 2 ^ 63 <=? u then limb_ones else 0).
Proof.
  intros Hu Hv. unfold needed. rewrite sign_bit by done. pose proof B_pos.
  assert (Hones : limb_ones <> 0) by (unfold limb_ones; lia).
  assert (H1 : Z.land limb_ones 1 = 1) by reflexivity.
  rewrite orb_false_iff, andb_false_iff, !negb_false_iff, !Z.eqb_eq.
  destruct (2 ^ 63 <=? u); split; intros Hn.
  - destruct Hn as [[->|Hn] E]; [by rewrite Z.land_0_l in E|done].
  - rewrite Hn. auto.
  - destruct Hn as [[Hn|Hn] E]; [done|]. rewrite Hn, H1 in E. lia.
  - rewrite Hn, Z.land_0_l. auto.
Qed.

Lemma limb_at_take tab n i : (i < n)%nat -> limb_at (take n tab) i = limb_at tab i.
Proof. intros Hi. unfold limb_at. by rewrite lookup_take_lt. Qed.

Lemma limb_at_app_l a b i : (i < length a)%nat -> limb_at (a ++ b) i = limb_at a i.
Proof. intros Hi. unfold limb_at. by rewrite lookup_app_l. Qed.

Lemma limb_at_snoc a x : limb_at (a ++ [x]) (length a) = x.
Proof. unfold limb_at. by rewrite lookup_app_r, Nat.sub_diag by lia. Qed.

(** A top limb that is not needed does not change the value. *)
Lemma sval_redundant a v : limbs a -> a <> [] -> limb v ->
  needed (limb_at a (length a - 1)) v = false -> sval (a ++ [v]) = sval a.
Proof.
  intros Ha Hne Hv Hn. assert (Hlen : (0 < length a)%nat) by (destruct a; [done|simpl; lia]).
  pose proof (limb_at_lt a (length a - 1) Ha ltac:(lia)) as Ht.
  apply needed_false in Hn; [|done..].
  assert (Hv' : v = u64 (- js_bigint_sign a)).
  { rewrite (sign_limb a Ha Hne), Hn. unfold js_bigint_sign. rewrite sign_bit by done.
    by destruct (2 ^ 63 <=? _). }
  rewrite Hv'. by apply (sval_extend a 1).
Qed.

Lemma norm_len_SS k tab : norm_len (S (S k)) tab =
  if needed (limb_at tab k) (limb_at tab (S k)) then S (S k) else norm_len (S k) tab.
Proof. reflexivity. Qed.

Lemma norm_len_spec tab : limbs tab -> forall l, (0 < l <= length tab)%nat ->
  (0 < norm_len l tab <= l)%nat /\ sval (take (norm_len l tab) tab) = sval (take l tab) /\
  normalized (take (norm_len l tab) tab).
Proof.
  intros Ht. induction l as [|l IH]; intros Hl; [lia|]. destruct l as [|k].
  { cbn [norm_len]. split_and!; try done; try lia. intros j. rewrite length_take. lia. }
  rewrite norm_len_SS. destruct (needed (limb_at tab k) (limb_at tab (S k))) eqn:En.
  - split_and!; try done; try lia. intros j. rewrite length_take, Nat.min_l by lia. intros [= <-].
    by rewrite !limb_at_take by lia.
  - destruct (IH ltac:(lia)) as (H1 & H2 & H3). split_and!; try lia; [|done]. rewrite H2.
    assert (E : take (S (S k)) tab = take (S k) tab ++ [limb_at tab (S k)]).
    { unfold limb_at. destruct (lookup_lt_is_Some_2 tab (S k) ltac:(lia)) as [x Hx]. rewrite Hx. by apply take_S_r. }
    rewrite E. symmetry. destruct (Forall_take_drop limb (S k) tab Ht) as [Hk _].
    apply sval_redundant; [done| |by apply limb_at_lt; [|lia]|].
    + destruct tab; [simpl in Hl; lia|done].
    + rewrite length_take, Nat.min_l by lia. simpl (S k - 1)%nat. rewrite Nat.sub_0_r.
      by rewrite limb_at_take by lia.
Qed.

Lemma normalize_spec a : limbs a -> a <> [] ->
  bigint_ok (js_bigint_normalize a) /\ sval (js_bigint_normalize a) = sval a.
Proof.
  intros Ha Hne. assert (Hlen : (0 < length a)%nat) by (destruct a; [done|simpl; lia]).
  destruct (norm_len_spec a Ha (length a) ltac:(lia)) as (H1 & H2 & H3).
  unfold js_bigint_normalize, js_bigint_normalize1. rewrite (take_ge a (length a)) in H2 by done.
  split; [|done]. split; [by apply Forall_take_drop| |done].
  intros E. apply (f_equal length) in E. rewrite length_take in E. simpl in E. lia.
Qed.

(** A normal form of more than one limb has a value that needs them all. *)
Lemma norm_bound a n : bigint_ok a -> length a = S n -> n <> 0%nat ->
  pw n <= 2 * sval a \/ 2 * sval a < - pw n.
Proof.
  intros [Ha Hne Hn] Hlen Hn0. destruct (exists_last Hne) as (a' & v & ->).
  rewrite length_app in Hlen. simpl in Hlen. apply Forall_app in Ha as [Ha' Hv]. inv_subst Hv.
  assert (Hne' : a' <> []) by (intros ->; simpl in Hlen; lia).
  assert (Hl' : length a' = n) by lia.
  specialize (Hn (length a' - 1)%nat ltac:(rewrite length_app; simpl; lia)).
  rewrite limb_at_app_l in Hn by lia. replace (S (length a' - 1)) with (length a') in Hn by lia.
  rewrite limb_at_snoc in Hn.
  assert (Hnr : needed (limb_at a' (length a' - 1)) v <> false) by congruence.
  rewrite needed_false in Hnr by (done || (apply limb_at_lt; [done|lia])).
  pose proof (limb_at_lt a' (length a' - 1) Ha' ltac:(lia)) as Ht.
  assert (Es' : js_bigint_sign a' = if 2 ^ 63 <=? limb_at a' (length a' - 1) then 1 else 0) by (apply sign_bit, Ht).
  pose proof (sval_range a' Ha' Hne') as Hr. rewrite Hl' in Hr. pose proof (pw_pos n). pose proof B_pos.
  assert (Hs : bit (js_bigint_sign (a' ++ [v]))).
  { apply sign_bool; [apply Forall_app; split; [done|by constructor]|by destruct a']. }
  set (s := js_bigint_sign (a' ++ [v])) in *.
  assert (Esv : sval (a' ++ [v]) = sval a' + pw n * (v + js_bigint_sign a' - B * s)).
  { unfold sval. fold s. rewrite uval_app, length_app, Hl'. cbn [uval length].
    replace (n + 1)%nat with (S n) by lia. rewrite pw_S. ring. }
  destruct (Z_le_gt_dec (pw n) (2 * sval (a' ++ [v]))) as [|Hlt]; [by left|].
  destruct (Z_lt_ge_dec (2 * sval (a' ++ [v])) (- pw n)) as [|Hge]; [by right|exfalso; apply Hnr].
  assert (Hw : v + js_bigint_sign a' - B * s = 0).
  { set (w := v + js_bigint_sign a' - B * s) in *. clearbody w. nia. }
  unfold limb, limb_ones in *. rewrite Es' in Hw. clearbody s. destruct (2 ^ 63 <=? _), Hs as [-> | ->]; lia.
Qed.

Lemma sval_single v : limb v -> sval [v] = if 2 ^ 63 <=? v then v - B else v.
Proof.
  intros Hv. unfold sval, js_bigint_sign. cbn [length Nat.sub]. change (limb_at [v] 0) with v.
  rewrite sign_bit by done. cbn [uval]. rewrite pw_S, pw_0. destruct (2 ^ 63 <=? v); lia.
Qed.

Lemma single_ok v : limb v -> bigint_ok [v].
Proof. intros Hv. split; [by constructor|done|]. intros k. discriminate. Qed.

Lemma sval_zero a : bigint_ok a -> sval a = 0 <-> a = [0].
Proof.
  intros Ha. split; [|intros ->; reflexivity]. intros E.
  destruct (length a) as [|[|n]] eqn:Hl.
  - destruct a; [by destruct (bo_some _ Ha)|done].
  - destruct a as [|v [|]]; try done. pose proof (bo_limbs _ Ha) as Hv. inv_subst Hv.
    rewrite sval_single in E by done. unfold limb in *. destruct (2 ^ 63 <=? v); [lia|by subst].
  - pose proof (norm_bound a (S n) Ha Hl ltac:(done)). pose proof (pw_pos (S n)). lia.
Qed.

(** ** Results of the operations *)

Section operations.
Context (mem : Z -> bool).

(** An operation returns the integer [x], or fails because the result is too
    large ([big]) or memory is short. *)
Definition computes (x : Z) (big : Prop) (o : outcome JSBigInt) : Prop :=
  match o with
  | Ret r => bigint_ok r /\ sval r = x
  | Throw RangeError => big
  | Throw OutOfMemory => exists n, mem n = false
  | Throw _ => False
  end.

Lemma computes_weaken x (big big' : Prop) o : (big -> big') -> computes x big o -> computes x big' o.
Proof. intros H. destruct o as [|[]]; simpl; auto. Qed.

Definition too_big (l : Z) : Prop := JS_BIGINT_MAX_SIZE < l.

Lemma new_spec l x (big : Prop) (f : unit -> outcome JSBigInt) :
  (too_big l -> big) -> computes x big (f tt) ->
  computes x big (bind_outcome (js_bigint_new mem l) f).
Proof.
  intros Hb Hf. unfold js_bigint_new. destruct (Z.ltb_spec JS_BIGINT_MAX_SIZE l); [by apply Hb|].
  destruct (mem l) eqn:E; [done|]. simpl. eauto.
Qed.

Lemma new_si_spec v x : - 2 ^ 63 <= x < 2 ^ 63 -> u64 v = u64 x -> computes x False (js_bigint_new_si mem v).
Proof.
  intros Hx E. apply new_spec; [intros H; by vm_compute in H|]. pose proof B_half.
  split; [apply single_ok, limb_u64|]. rewrite E, sval_single by apply limb_u64. rewrite u64_sub by lia.
  destruct (Z.ltb_spec x 0); [destruct (Z.leb_spec (2 ^ 63) (x + B))|destruct (Z.leb_spec (2 ^ 63) x)]; lia.
Qed.

Lemma extend_spec r v big : limbs r -> r <> [] -> limb v -> computes (sval (r ++ [v])) big (js_bigint_extend mem r v).
Proof.
  intros Hr Hne Hv. unfold js_bigint_extend. destruct (needed _ v) eqn:En.
  - destruct (mem _) eqn:Em; [|simpl; eauto]. split; [|done]. split.
    + apply Forall_app. split; [done|by constructor].
    + by destruct r.
    + intros k. rewrite length_app. simpl. intros Hk. assert (k = (length r - 1)%nat) as -> by lia.
      rewrite limb_at_app_l by lia. replace (S (length r - 1)) with (length r) by lia. by rewrite limb_at_snoc.
  - rewrite (sval_redundant r v Hr Hne Hv En). by apply normalize_spec.
Qed.

(** *** Addition and subtraction *)

Lemma uval_not l : uval (limb_not <$> l) = pw (length l) - 1 - uval l.
Proof.
  induction l as [|x l IH]; [done|]. rewrite fmap_cons. cbn [uval length]. rewrite IH, pw_S. unfold limb_not, limb_ones. lia.
Qed.

Lemma limbs_not l : limbs l -> limbs (limb_not <$> l).
Proof. intros H. apply Forall_fmap. eapply Forall_impl; [done|]. unfold limb, limb_not, limb_ones. simpl. lia. Qed.

Lemma u64_congr x : exists j, u64 x = x + j * B.
Proof. exists (- (x / B)). rewrite u64_B. pose proof B_pos. pose proof (Z.div_mod x B). lia. Qed.

(** The operands extended to [n] limbs; the second one complemented for a
    subtraction. *)
Definition extended (a : JSBigInt) (n : nat) : list Z := a ++ replicate (n - length a) (u64 (- js_bigint_sign a)).
Definition operand (b : JSBigInt) (b_neg : Z) (n : nat) : list Z :=
  (fun y => Z.lxor y (u64 (- b_neg))) <$> extended b n.

Lemma add_extended a b b_neg :
  let n := (length a `max` length b)%nat in
  js_bigint_add mem a b b_neg =
    bind_outcome (js_bigint_new mem (Z.of_nat n)) (fun _ =>
      let '(r, carry) := mp_add (extended a n) (operand b b_neg n) b_neg in
      js_bigint_extend mem r
        (u64 (u64 (- js_bigint_sign a) + Z.lxor (u64 (- js_bigint_sign b)) (u64 (- b_neg)) + carry))).
Proof.
  intros n. unfold js_bigint_add. fold n. unfold bind_outcome. destruct (js_bigint_new mem (Z.of_nat n)); [|done].
  unfold operand, extended. rewrite fmap_app, fmap_replicate. set (f := fun y => Z.lxor y (u64 (- b_neg))).
  set (sa := u64 (- js_bigint_sign a)). set (sb := Z.lxor (u64 (- js_bigint_sign b)) (u64 (- b_neg))).
  change (f (u64 (- js_bigint_sign b))) with sb.
  destruct (Nat.ltb_spec (length b) (length a)) as [Hlt|Hge].
  - replace (length a `min` length b)%nat with (length (f <$> b)) by (rewrite length_fmap; lia).
    rewrite (take_ge (f <$> b)) by done. replace n with (length a) by lia. rewrite length_fmap.
    rewrite Nat.sub_diag. cbn [replicate]. rewrite app_nil_r.
    assert (E : mp_add a ((f <$> b) ++ replicate (length a - length b) sb) b_neg =
      let '(r1, c1) := mp_add (take (length b) a) (f <$> b) b_neg in
      let '(r2, c2) := mp_add (drop (length b) a) (replicate (length a - length b) sb) c1 in (r1 ++ r2, c2)).
    { rewrite <- mp_add_app, take_drop; [done|]. rewrite length_take, length_fmap. lia. }
    rewrite E. destruct (mp_add (take (length b) a) (f <$> b) b_neg) as [lo c].
    by destruct (mp_add (drop (length b) a) (replicate (length a - length b) sb) c).
  - replace (length a `min` length b)%nat with (length a) by lia. rewrite (take_ge a) by done.
    replace n with (length b) by lia. rewrite Nat.sub_diag. cbn [replicate]. rewrite app_nil_r.
    assert (E : mp_add (a ++ replicate (length b - length a) sa) (f <$> b) b_neg =
      let '(r1, c1) := mp_add a (take (length a) (f <$> b)) b_neg in
      let '(r2, c2) := mp_add (replicate (length b - length a) sa) (drop (length a) (f <$> b)) c1 in (r1 ++ r2, c2)).
    { rewrite <- mp_add_app, take_drop; [done|]. rewrite length_take, length_fmap. lia. }
    rewrite E. destruct (mp_add a (take (length a) (f <$> b)) b_neg) as [lo c].
    destruct (Nat.ltb_spec (length a) (length b)) as [Hlt|Hge'].
    + by destruct (mp_add (replicate (length b - length a) sa) (drop (length a) (f <$> b)) c).
    + rewrite (drop_ge (f <$> b)) by (rewrite length_fmap; lia).
      replace (length b - length a)%nat with 0%nat by lia. by cbn [replicate mp_add].
Qed.

Lemma extended_spec a n : limbs a -> a <> [] -> (length a <= n)%nat ->
  limbs (extended a n) /\ length (extended a n) = n /\ extended a n <> [] /\
  uval (extended a n) = sval a + js_bigint_sign a * pw n /\ sval (extended a n) = sval a.
Proof.
  intros Ha Hne Hn. destruct (sval_extend a (n - length a) Ha Hne) as [E1 E2].
  unfold extended. split_and!; try done.
  - apply Forall_app. split; [done|]. apply Forall_replicate, limb_u64.
  - rewrite length_app, length_replicate. lia.
  - by destruct a.
  - rewrite E2. repeat f_equal. lia.
Qed.

Lemma extended_range a n : limbs a -> a <> [] -> (length a <= n)%nat -> - pw n <= 2 * sval a < pw n.
Proof.
  intros Ha Hne Hn. destruct (extended_spec a n Ha Hne Hn) as (He & Hl & Hen & _ & Es).
  pose proof (sval_range _ He Hen) as H. by rewrite Es, Hl in H.
Qed.

(** The second operand, and the limb its sign extends to. *)
Lemma operand_spec b b_neg n : limbs b -> b <> [] -> (length b <= n)%nat -> bit b_neg ->
  limbs (operand b b_neg n) /\ length (operand b b_neg n) = n /\
  exists j, uval (operand b b_neg n) + b_neg = (if b_neg =? 0 then sval b else - sval b) + j * pw n /\
    exists i, Z.lxor (u64 (- js_bigint_sign b)) (u64 (- b_neg)) = - j + i * B.
Proof.
  intros Hb Hne Hn Hneg. destruct (extended_spec b n Hb Hne Hn) as (He & Hl & _ & Eu & _).
  pose proof (sign_limb b Hb Hne) as Es. pose proof B_pos.
  unfold operand. rewrite length_fmap. destruct Hneg as [-> | ->].
  - assert (E0 : u64 (- 0) = 0) by reflexivity. rewrite E0.
    assert (Ei : (fun y => Z.lxor y 0) <$> extended b n = extended b n).
    { rewrite <- (list_fmap_id (extended b n)) at 2. apply list_fmap_ext. intros. apply Z.lxor_0_r. }
    rewrite Ei. split_and!; try done. exists (js_bigint_sign b). cbn [Z.eqb]. split; [lia|].
    rewrite Z.lxor_0_r. destruct (u64_congr (- js_bigint_sign b)) as [j Ej]. exists j. lia.
  - assert (E1 : u64 (- (1)) = limb_ones) by reflexivity. rewrite E1.
    assert (Ei : (fun y => Z.lxor y limb_ones) <$> extended b n = limb_not <$> extended b n).
    { apply list_fmap_ext. intros i x Hx. apply lxor_limb_ones. rewrite Forall_lookup in He. eauto. }
    rewrite Ei. split; [by apply limbs_not|]. split; [done|]. exists (1 - js_bigint_sign b). cbn [Z.eqb].
    rewrite uval_not, Hl, Eu. split; [lia|]. rewrite lxor_limb_ones by apply limb_u64.
    destruct (u64_congr (- js_bigint_sign b)) as [j Ej]. exists (1 - j). unfold limb_not, limb_ones. lia.
Qed.

Lemma js_bigint_add_spec a b b_neg : bigint_ok a -> bigint_ok b -> bit b_neg ->
  computes (sval a + if b_neg =? 0 then sval b else - sval b)
    (too_big (len a `max` len b)) (js_bigint_add mem a b b_neg).
Proof.
  intros [Ha Hane _] [Hb Hbne _] Hneg. rewrite add_extended. set (n := (length a `max` length b)%nat).
  apply new_spec. { unfold too_big, len, n. lia. }
  destruct (extended_spec a n Ha Hane ltac:(lia)) as (Hea & Hla & _ & Ea & _).
  destruct (operand_spec b b_neg n Hb Hbne ltac:(lia) Hneg) as (Heb & Hlb & j & Eb & i & Ei).
  pose proof (mp_add_spec (extended a n) (operand b b_neg n) b_neg) as Hadd.
  destruct (mp_add (extended a n) (operand b b_neg n) b_neg) as [r c].
  destruct Hadd as (Hr & Hlr & Hc & E); [done|done|congruence|done|]. rewrite Hla in E, Hlr.
  destruct (u64_congr (- js_bigint_sign a)) as [ja Eja].
  set (v := u64 (u64 (- js_bigint_sign a) + Z.lxor (u64 (- js_bigint_sign b)) (u64 (- b_neg)) + c)).
  destruct (u64_congr (u64 (- js_bigint_sign a) + Z.lxor (u64 (- js_bigint_sign b)) (u64 (- b_neg)) + c)) as [jv Ejv].
  fold v in Ejv. assert (Hv : limb v) by apply limb_u64.
  assert (Hrne : r <> []) by (intros ->; simpl in Hlr; unfold n in Hlr; destruct a; [done|simpl in Hlr; lia]).
  set (x := sval a + _).
  assert (Hx : sval (r ++ [v]) = x); [|rewrite <- Hx; by apply extend_spec].
  pose proof (extended_range a n Ha Hane ltac:(lia)). pose proof (extended_range b n Hb Hbne ltac:(lia)).
  apply (sval_unique _ x (ja + i + jv)).
  - apply Forall_app. split; [done|by constructor].
  - by destruct r.
  - rewrite length_app, Hlr. cbn [length]. rewrite uval_app, Hlr. cbn [uval].
    replace (n + 1)%nat with (S n) by lia. rewrite pw_S. unfold x. rewrite Ejv, Eja, Ei. nia.
  - rewrite length_app, Hlr. cbn [length]. replace (n + 1)%nat with (S n) by lia. rewrite pw_S.
    pose proof (pw_pos n). assert (3 * pw n <= B * pw n).
    { apply Z.mul_le_mono_nonneg_r; [lia|]. rewrite B_half. lia. }
    unfold x. destruct (b_neg =? 0); lia.
Qed.

Lemma js_bigint_neg_spec a : bigint_ok a ->
  computes (- sval a) (too_big (len a)) (js_bigint_neg mem a).
Proof.
  intros Ha. pose proof B_pos. assert (H0 : limb 0) by (unfold limb; lia).
  eapply computes_weaken; [|unfold js_bigint_neg; replace (- sval a) with (sval [0] + - sval a);
    [apply (js_bigint_add_spec [0] a 1); [by apply single_ok|done|by right]|]].
  - unfold too_big, len. simpl. destruct a; [by destruct Ha|]. simpl. lia.
  - rewrite sval_single by done. simpl. lia.
Qed.

(** *** Multiplication *)

Lemma sub_at_spec i r b : limbs r -> limbs b -> length r = (i + length b)%nat ->
  limbs (sub_at i r b) /\ length (sub_at i r b) = length r /\
  exists k, uval (sub_at i r b) = uval r - pw i * uval b + k * pw (length r).
Proof.
  intros Hr Hb Hl. unfold sub_at. destruct (Forall_take_drop limb i r Hr) as [Ht Hd].
  assert (Hlt : length (take i r) = i) by (rewrite length_take; lia).
  assert (Hld : length (drop i r) = length b) by (rewrite length_drop; lia).
  pose proof (mp_sub_spec (drop i r) b 0) as Hs. destruct (mp_sub (drop i r) b 0) as [s c].
  destruct Hs as (Hs & Hls & Hc & E); [done|done|done|by left|]. cbn [fst].
  split; [by apply Forall_app|]. split; [rewrite length_app; lia|]. exists c.
  rewrite uval_app, Hlt, (uval_take_drop i r) by lia. rewrite Hl, pw_add. rewrite Hld in E. nia.
Qed.

(** The correction for a negative operand. *)
Lemma mul_correct (a : JSBigInt) i r b :
  limbs a -> a <> [] -> limbs r -> limbs b -> length r = (i + length b)%nat ->
  let r' := if js_bigint_sign a =? 0 then r else sub_at i r b in
  limbs r' /\ length r' = length r /\
  exists k, uval r' = uval r - js_bigint_sign a * (pw i * uval b) + k * pw (length r).
Proof.
  intros Ha Hne Hr Hb Hl r'. unfold r'. destruct (sign_bool a Ha Hne) as [E|E]; rewrite E; cbn [Z.eqb].
  - split_and!; try done. exists 0. lia.
  - destruct (sub_at_spec i r b Hr Hb Hl) as (H1 & H2 & k & H3). split_and!; try done. exists k. lia.
Qed.

Lemma js_bigint_mul_spec a b : bigint_ok a -> bigint_ok b ->
  computes (sval a * sval b) (too_big (len a + len b)) (js_bigint_mul mem a b).
Proof.
  intros [Ha Hane _] [Hb Hbne _]. unfold js_bigint_mul. apply new_spec; [done|].
  destruct (mp_mul_basecase_spec a b Ha Hb Hbne) as (Hr & Hl & E).
  set (r := mp_mul_basecase a b) in *. clearbody r.
  destruct (mul_correct a (length a) r b Ha Hane Hr Hb Hl) as (Hr1 & Hl1 & k1 & E1).
  set (r1 := if js_bigint_sign a =? 0 then r else sub_at (length a) r b) in *. clearbody r1.
  destruct (mul_correct b (length b) r1 a Hb Hbne Hr1 Ha ltac:(lia)) as (Hr2 & Hl2 & k2 & E2).
  set (r2 := if js_bigint_sign b =? 0 then r1 else sub_at (length b) r1 a) in *. clearbody r2.
  assert (Hne : r2 <> []) by (intros ->; destruct a; [done|]; simpl in *; lia).
  assert (Hx : sval r2 = sval a * sval b); [|rewrite <- Hx; by apply normalize_spec].
  pose proof (sval_range a Ha Hane) as Hra. pose proof (sval_range b Hb Hbne) as Hrb.
  pose proof (pw_pos (length a)). pose proof (pw_pos (length b)).
  apply (sval_unique _ _ (k1 + k2 - js_bigint_sign a * js_bigint_sign b)); try done;
    rewrite Hl2, Hl1, Hl, pw_add; set (P := pw (length a)) in *; set (Q := pw (length b)) in *.
  - rewrite E2, E1, E, Hl1, Hl, pw_add. fold P Q. unfold sval. fold P Q. ring.
  - set (x := sval a) in *. set (y := sval b) in *. clearbody x y P Q.
    assert (Hxy : Z.abs (2 * x * (2 * y)) <= P * Q).
    { rewrite Z.abs_mul. apply Z.mul_le_mono_nonneg; lia. }
    assert (0 < P * Q) by (by apply Z.mul_pos_pos). lia.
Qed.

(** *** Division *)

Lemma drop_zeros_SS n tab : drop_zeros (S (S n)) tab =
  if limb_at tab (S n) =? 0 then drop_zeros (S n) tab else S (S n).
Proof. reflexivity. Qed.

Lemma drop_zeros_spec tab : limbs tab -> forall n, (0 < n <= length tab)%nat ->
  let n' := drop_zeros n tab in
  (0 < n' <= n)%nat /\ uval (take n' tab) = uval (take n tab) /\
  (n' = 1%nat \/ limb_at tab (n' - 1) <> 0).
Proof.
  intros Ht. induction n as [|n IH]; intros Hn; [lia|]. destruct n as [|n].
  { cbn [drop_zeros]. cbv zeta. split; [lia|]. split; [done|by left]. }
  cbv zeta in *. rewrite drop_zeros_SS. destruct (Z.eqb_spec (limb_at tab (S n)) 0) as [E|E].
  - destruct (IH ltac:(lia)) as (H1 & H2 & H3). split; [lia|]. split; [|done]. rewrite H2.
    unfold limb_at in E. destruct (lookup_lt_is_Some_2 tab (S n) ltac:(lia)) as [x Hx]. rewrite Hx in E. simpl in E. subst x.
    rewrite (take_S_r tab (S n) 0 Hx), uval_app. cbn [uval]. lia.
  - split; [lia|]. split; [done|right]. by replace (S (S n) - 1)%nat with (S n) by lia.
Qed.

Lemma magnitude_spec a : limbs a -> a <> [] ->
  limbs (magnitude a) /\ magnitude a <> [] /\ (length (magnitude a) <= length a)%nat /\
  uval (magnitude a) = Z.abs (sval a) /\
  (length (magnitude a) = 1%nat \/ limb_at (magnitude a) (length (magnitude a) - 1) <> 0).
Proof.
  intros Ha Hne. assert (Hlen : (0 < length a)%nat) by (destruct a; [done|simpl; lia]).
  set (r := if js_bigint_sign a =? 0 then a else mp_neg a).
  change (magnitude a) with (take (drop_zeros (length r) r) r).
  assert (Hr : limbs r /\ length r = length a /\ uval r = Z.abs (sval a)).
  { pose proof (uval_bounds a Ha) as Hub. pose proof (sign_spec a Ha Hne) as Es. unfold r, sval.
    destruct (sign_bool a Ha Hne) as [E|E]; rewrite E in *; cbn [Z.eqb].
    - split_and!; [done|done|lia].
    - destruct (mp_neg_spec a Ha) as (Hn & Hl & k & Ek). split_and!; [done|done|].
      pose proof (uval_bounds _ Hn) as Hnb. rewrite Hl in Hnb.
      destruct (Z.leb_spec (pw (length a)) (2 * uval a)); [|done]. pose proof (pw_pos (length a)).
      assert (k = 1) as -> by nia. lia. }
  destruct Hr as (Hr & Hl & E). destruct (drop_zeros_spec r Hr (length r) ltac:(lia)) as (H1 & H2 & H3).
  set (n := drop_zeros (length r) r) in *. rewrite (take_ge r (length r)) in H2 by done.
  assert (Hlt : length (take n r) = n) by (rewrite length_take; lia). rewrite Hlt.
  split_and!; [by apply Forall_take_drop| |lia|by rewrite H2|].
  - intros E0. rewrite E0 in Hlt. simpl in Hlt. lia.
  - by rewrite limb_at_take by lia.
Qed.

Lemma sval_snoc0 l : limbs l -> limbs (l ++ [0]) /\ sval (l ++ [0]) = uval l /\
  limbs (mp_neg (l ++ [0])) /\ mp_neg (l ++ [0]) <> [] /\ sval (mp_neg (l ++ [0])) = - uval l.
Proof.
  intros Hl. pose proof B_pos. pose proof (uval_bounds l Hl). pose proof (pw_pos (length l)).
  assert (Hz : limbs (l ++ [0])) by (apply Forall_app; split; [done|repeat constructor; lia]).
  assert (Hu : uval (l ++ [0]) = uval l) by (rewrite uval_app; cbn [uval]; lia).
  assert (Hlen : length (l ++ [0]) = S (length l)) by (rewrite length_app; simpl; lia).
  destruct (mp_neg_spec (l ++ [0]) Hz) as (Hn & Hnl & k & Ek). rewrite Hu, Hlen in *.
  assert (Hnn : mp_neg (l ++ [0]) <> []) by (intros E; by rewrite E in Hnl).
  split_and!; try done.
  - apply (sval_unique _ _ 0); [done|by destruct l|lia|]. rewrite Hlen, pw_S. nia.
  - apply (sval_unique _ _ k); [done|done|by rewrite Hnl|]. rewrite Hnl, pw_S. nia.
Qed.

Lemma clz_spec t : 0 < t < B -> 0 <= js_limb_clz t < 64 /\ 2 ^ 63 <= t * 2 ^ js_limb_clz t /\
  t + 1 <= 2 ^ (64 - js_limb_clz t).
Proof.
  intros Ht. unfold js_limb_clz. pose proof (Z.log2_spec t ltac:(lia)) as [H1 H2].
  pose proof (Z.log2_nonneg t). assert (Z.log2 t < 64) by (apply Z.log2_lt_pow2; [lia|]; apply Ht).
  split; [lia|]. split.
  - replace (2 ^ 63) with (2 ^ Z.log2 t * 2 ^ (63 - Z.log2 t)) by (rewrite <- Z.pow_add_r by lia; f_equal; lia).
    apply Z.mul_le_mono_nonneg_r; [|done]. apply Z.pow_nonneg. lia.
  - replace (64 - (63 - Z.log2 t)) with (Z.succ (Z.log2 t)) by lia. lia.
Qed.

(** Both operands shifted so that the divisor has its top bit set. *)
Definition shifted (r tabb : list Z) (shift : Z) : list Z * list Z :=
  if shift =? 0 then (r, tabb)
  else
    let '(r, h) := mp_shl r shift 0 in
    (if h =? 0 then r else r ++ [h], fst (mp_shl tabb shift 0)).

Lemma shifted_spec r tabb :
  limbs r -> limbs tabb -> tabb <> [] -> limb_at tabb (length tabb - 1) <> 0 ->
  let shift := js_limb_clz (limb_at tabb (length tabb - 1)) in
  let '(r', tabb') := shifted r tabb shift in
  0 <= shift < 64 /\ limbs r' /\ limbs tabb' /\ length tabb' = length tabb /\
  (length r <= length r' <= S (length r))%nat /\ norm_limb (limb_at tabb' (length tabb' - 1)) /\
  uval r' = uval r * 2 ^ shift /\ uval tabb' = uval tabb * 2 ^ shift.
Proof.
  intros Hr Hb Hne Ht shift. assert (Hlen : (0 < length tabb)%nat) by (destruct tabb; [done|simpl; lia]).
  set (t := limb_at tabb (length tabb - 1)) in *.
  pose proof (limb_at_lt tabb (length tabb - 1) Hb ltac:(lia)) as Hlt. fold t in Hlt. unfold limb in Hlt.
  destruct (clz_spec t ltac:(lia)) as (Hs & Hs1 & Hs2). fold shift in Hs, Hs1, Hs2.
  set (n := (length tabb - 1)%nat) in *. pose proof (pw_pos n) as Hpn.
  destruct (Forall_take_drop limb n tabb Hb) as [Htl _]. pose proof (uval_bounds _ Htl) as Hlo.
  rewrite length_take, Nat.min_l in Hlo by lia. pose proof (uval_top tabb Hne) as Eu. fold n t in Eu.
  set (lo := uval (take n tabb)) in *. pose proof (pow2_pos shift ltac:(lia)) as Hp.
  unfold shifted. destruct (Z.eqb_spec shift 0) as [E0|E0].
  { rewrite E0 in *. rewrite Z.pow_0_r in *. change (length tabb - 1)%nat with n. fold t.
    split_and!; try done; try lia. unfold norm_limb. lia. }
  pose proof (mp_shl_spec shift r ltac:(lia) 0 Hr ltac:(lia)) as HR. destruct (mp_shl r shift 0) as [r1 h].
  destruct HR as (Hr1 & Hlr & Hh & ER).
  pose proof (mp_shl_spec shift tabb ltac:(lia) 0 Hb ltac:(lia)) as HT. destruct (mp_shl tabb shift 0) as [b1 g].
  destruct HT as (Hb1 & Hlb & Hg & ET). cbn [fst]. pose proof (uval_bounds _ Hb1) as Hub. rewrite Hlb in Hub.
  assert (Hpw : pw (length tabb) = B * pw n) by (rewrite <- pw_S; f_equal; lia).
  assert (Hsmall : uval tabb * 2 ^ shift < pw (length tabb)).
  { rewrite Hpw, (B_split shift), Eu by lia.
    assert ((t + 1) * pw n <= 2 ^ (64 - shift) * pw n) by (apply Z.mul_le_mono_nonneg_r; lia).
    assert ((lo + pw n * t) * 2 ^ shift < (2 ^ (64 - shift) * pw n) * 2 ^ shift)
      by (apply Z.mul_lt_mono_pos_r; lia). lia. }
  assert (g = 0) as -> by (pose proof (pw_pos (length tabb)); nia).
  assert (Hbne : b1 <> []) by (intros ->; simpl in Hlb; lia).
  assert (Hhl : limb h).
  { unfold limb. assert (2 ^ shift <= B); [|lia]. rewrite (B_split shift) by lia.
    pose proof (pow2_pos (64 - shift) ltac:(lia)). nia. }
  split; [done|]. split; [destruct (h =? 0); [done|by apply Forall_app; split; [|constructor]]|].
  split; [done|]. split; [done|]. split.
  { destruct (h =? 0); [lia|rewrite length_app; simpl; lia]. }
  split; [|split; [|lia]].
  - rewrite Hlb. fold n. pose proof (limb_at_lt b1 n Hb1 ltac:(lia)) as Htop. unfold limb in Htop. split; [|lia].
    pose proof (uval_top b1 Hbne) as Eb. rewrite Hlb in Eb. fold n in Eb.
    destruct (Forall_take_drop limb n b1 Hb1) as [Htl' _]. pose proof (uval_bounds _ Htl') as Hlo'.
    rewrite length_take, Nat.min_l in Hlo' by lia.
    destruct (Z_le_gt_dec (2 ^ 63) (limb_at b1 n)) as [|Hgt]; [done|exfalso].
    assert ((limb_at b1 n + 1) * pw n <= 2 ^ 63 * pw n) by (apply Z.mul_le_mono_nonneg_r; lia).
    assert (2 ^ 63 * pw n <= t * 2 ^ shift * pw n) by (apply Z.mul_le_mono_nonneg_r; lia).
    rewrite Eu in ET. nia.
  - destruct (Z.eqb_spec h 0) as [->|]; [lia|]. rewrite uval_app, Hlr. cbn [uval]. lia.
Qed.

(** The equation of [js_bigint_divrem] for a divisor that is not zero. *)
Lemma divrem_unfold a b is_rem : b <> [0] -> b <> [] -> js_bigint_divrem mem a b is_rem =
  bind_outcome (js_bigint_new mem (len a + 2)) (fun _ =>
    let r := magnitude a in
    if negb (mem (len b)) then Throw OutOfMemory else
    let tabb := magnitude b in
    if (length r <? length tabb)%nat then
      if is_rem then bind_outcome (js_bigint_new mem (len a)) (fun _ => Ret a)
      else js_bigint_new_si mem 0
    else
      let shift := js_limb_clz (limb_at tabb (length tabb - 1)) in
      let '(r', tabb') := shifted r tabb shift in
      bind_outcome (js_bigint_new mem (Z.of_nat (length r' - length tabb + 2))) (fun _ =>
        match mp_divnorm r' tabb' with
        | None => Throw Fault
        | Some (q, r) =>
            if is_rem then
              let r := take (length tabb) r in
              let r := (if shift =? 0 then r else fst (mp_shr r shift 0)) ++ [0] in
              Ret (js_bigint_normalize (if js_bigint_sign a =? 0 then r else mp_neg r))
            else
              let q := q ++ [0] in
              Ret (js_bigint_normalize
                     (if Z.lxor (js_bigint_sign a) (js_bigint_sign b) =? 0 then q else mp_neg q))
        end)).
Proof. intros H1 H2. destruct b as [|[|p|p] [|]]; try done. Qed.

Lemma nonnil_length {A} (l : list A) : l <> [] -> (0 < length l)%nat.
Proof. destruct l; [done|simpl; lia]. Qed.

(** Shifting the remainder back down. *)
Lemma unshift_spec l shift x : limbs l -> 0 <= shift < 64 -> uval l = x * 2 ^ shift ->
  let r := if shift =? 0 then l else fst (mp_shr l shift 0) in limbs r /\ uval r = x.
Proof.
  intros Hl Hs E. cbv zeta. destruct (Z.eqb_spec shift 0) as [->|H0]; [split; [done|lia]|].
  pose proof B_pos. pose proof (shr_loop_spec shift l ltac:(lia) 0 Hl) as Hsh. unfold mp_shr.
  destruct (shr_loop l shift 0) as [rs lo].
  destruct Hsh as (Hrs & _ & _ & _ & E'); [unfold limb; lia|]. cbn [fst]. split; [done|].
  rewrite Zmod_0_l, Z.mul_0_r, Z.add_0_r, E in E'. pose proof (pow2_pos shift ltac:(lia)) as Hp.
  pose proof (Z.mod_pos_bound lo (2 ^ shift) Hp).
  assert (x - uval rs = 0); [|lia]. assert ((x - uval rs) * 2 ^ shift = lo mod 2 ^ shift) by lia. nia.
Qed.

Lemma neg_if_spec l (c : bool) : limbs l ->
  let r := if c then l ++ [0] else mp_neg (l ++ [0]) in
  bigint_ok (js_bigint_normalize r) /\ sval (js_bigint_normalize r) = if c then uval l else - uval l.
Proof.
  intros Hl. destruct (sval_snoc0 l Hl) as (H1 & H2 & H3 & H4 & H5). destruct c; cbv zeta.
  - rewrite <- H2. apply normalize_spec; [done|by destruct l].
  - rewrite <- H5. by apply normalize_spec.
Qed.

(** A dividend whose magnitude has fewer limbs is smaller. *)
Lemma magnitude_lt a b : bigint_ok a -> bigint_ok b ->
  (length (magnitude a) < length (magnitude b))%nat -> Z.abs (sval a) < Z.abs (sval b).
Proof.
  intros [Ha Hane _] [Hb Hbne _] Hlt.
  destruct (magnitude_spec a Ha Hane) as (Hra & Hrane & _ & Ea & _).
  destruct (magnitude_spec b Hb Hbne) as (Hrb & Hrbne & _ & Eb & Ht).
  rewrite <- Ea, <- Eb. set (r := magnitude a) in *. set (t := magnitude b) in *. clearbody r t.
  assert (Hr0 : (0 < length r)%nat) by (destruct r; [done|simpl; lia]).
  destruct Ht as [Ht|Ht]; [lia|]. pose proof (uval_bounds r Hra) as Hub. pose proof (uval_top t Hrbne) as Et.
  set (n := (length t - 1)%nat) in *. destruct (Forall_take_drop limb n t Hrb) as [Htl _].
  pose proof (uval_bounds _ Htl) as Hlo. pose proof (limb_at_lt t n Hrb ltac:(lia)) as Hl. unfold limb in Hl.
  assert (pw (length r) <= pw n); [|nia]. replace n with (length r + (n - length r))%nat by lia.
  rewrite pw_add. pose proof (pw_pos (length r)). pose proof (pw_pos (n - length r)). nia.
Qed.

Lemma quot_rem_abs x y : y <> 0 ->
  Z.quot x y = (if Z.lxor (if x <? 0 then 1 else 0) (if y <? 0 then 1 else 0) =? 0
                then Z.abs x / Z.abs y else - (Z.abs x / Z.abs y)) /\
  Z.rem x y = (if (if x <? 0 then 1 else 0) =? 0 then Z.abs x mod Z.abs y else - (Z.abs x mod Z.abs y)).
Proof.
  intros Hy. rewrite <- (Z.quot_div_nonneg (Z.abs x)), <- (Z.rem_mod_nonneg (Z.abs x)) by lia.
  assert (Hl : (Z.lxor 1 1 =? 0) = true /\ (Z.lxor 1 0 =? 0) = false /\
               (Z.lxor 0 1 =? 0) = false /\ (Z.lxor 0 0 =? 0) = true) by done.
  destruct Hl as (L1 & L2 & L3 & L4).
  destruct (Z.ltb_spec x 0), (Z.ltb_spec y 0); rewrite ?L1, ?L2, ?L3, ?L4; cbn [Z.eqb];
    rewrite ?(Z.abs_neq x), ?(Z.abs_eq x), ?(Z.abs_neq y), ?(Z.abs_eq y) by lia;
    rewrite ?Z.quot_opp_l, ?Z.quot_opp_r, ?Z.rem_opp_l, ?Z.rem_opp_r by lia; lia.
Qed.

Lemma js_bigint_divrem_spec a b (is_rem : bool) : bigint_ok a -> bigint_ok b -> sval b <> 0 ->
  computes (if is_rem then Z.rem (sval a) (sval b) else Z.quot (sval a) (sval b)) (too_big (len a + 2))
    (js_bigint_divrem mem a b is_rem).
Proof.
  intros Ha Hb Hy0. pose proof Hy0 as Hb0. rewrite (sval_zero b Hb) in Hb0. rewrite divrem_unfold by (done || apply Hb).
  pose proof (magnitude_lt a b Ha Hb) as Hsmall. pose proof Ha as [Hal Hane _]. pose proof Hb as [Hbl Hbne _].
  destruct (magnitude_spec a Hal Hane) as (Hra & Hrane & Hrl & Ea & _).
  destruct (magnitude_spec b Hbl Hbne) as (Hrb & Hrbne & _ & Eb & Ht).
  destruct (quot_rem_abs (sval a) (sval b) Hy0) as [Eq Er].
  rewrite <- (sval_sign a), <- (sval_sign b) in Eq by done. rewrite <- (sval_sign a) in Er by done. apply new_spec; [done|].
  cbv zeta. destruct (mem (len b)) eqn:Em; [cbn [negb]|simpl; eauto].
  destruct (Nat.ltb_spec (length (magnitude a)) (length (magnitude b))) as [Hlt|Hge].
  { specialize (Hsmall Hlt). destruct is_rem.
    - apply new_spec; [unfold too_big; lia|]. split; [done|]. symmetry. by apply Z.rem_small_iff.
    - apply (computes_weaken _ False); [done|].
      replace (Z.quot (sval a) (sval b)) with 0 by (symmetry; by apply Z.quot_small_iff).
      by apply new_si_spec. }
  pose proof (shifted_spec (magnitude a) (magnitude b) Hra Hrb Hrbne) as Hsh. cbv zeta in Hsh.
  assert (Htop : limb_at (magnitude b) (length (magnitude b) - 1) <> 0).
  { destruct Ht as [Ht|Ht]; [|done]. intros E0. apply Hb0. apply sval_zero; [done|].
    pose proof (uval_top _ Hrbne) as Eu. rewrite E0, Ht, take_0 in Eu. change (uval []) with 0 in Eu. lia. }
  specialize (Hsh Htop). set (shift := js_limb_clz _) in *.
  destruct (shifted (magnitude a) (magnitude b) shift) as [r' tabb'].
  destruct Hsh as (Hs & Hr' & Hb' & Hlb & Hlr & Hnorm & Er' & Eb').
  apply new_spec. { unfold too_big, len. pose proof (nonnil_length _ Hrbne). lia. }
  destruct (mp_divnorm_spec r' tabb' Hr' Hb') as (q & r & -> & Hq & Hr & _ & _ & E & Hlt); [|lia|done|].
  { intros ->. symmetry in Hlb. by apply nil_length_inv in Hlb. }
  rewrite Hlb in E, Hlt. rewrite Er', Ea, Eb', Eb in E. rewrite Eb', Eb in Hlt.
  destruct (Forall_take_drop limb (length (magnitude b)) r Hr) as [Hrt _].
  pose proof (uval_bounds _ Hrt) as [Hr0 _]. pose proof (uval_bounds _ Hq) as [Hq0 _].
  pose proof (pow2_pos shift ltac:(lia)) as Hp.
  set (t := uval (take (length (magnitude b)) r)) in *. set (x := Z.abs (sval a)) in *.
  set (y := Z.abs (sval b)) in *.
  assert (Et : t = (x - uval q * y) * 2 ^ shift) by lia.
  assert (Hrange : 0 <= x - uval q * y < y) by (rewrite Et in Hlt, Hr0; nia).
  assert (Eq' : x / y = uval q) by (symmetry; apply (Z.div_unique_pos _ _ _ (x - uval q * y)); lia).
  assert (Em' : x mod y = x - uval q * y) by (rewrite Z.mod_eq, Eq'; lia).
  destruct is_rem.
  - destruct (unshift_spec _ shift _ Hrt Hs Et) as [Hl1 El1]. rewrite Er, Em', <- El1.
    by apply neg_if_spec.
  - rewrite Eq, Eq'. by apply neg_if_spec.
Qed.
End operations.
