(* ===== verification/BigIntOps.v ===== *)
(** * Bitwise operations, shifts, powers and comparison of BigInts

    The rest of the operations of [BigInt], each equal to the operation of
    [Z] on the values of its operands; and the properties of the component
    as a whole. *)
From S2P Require Import Prelude Native BigInt BigIntProps.

(** ** Bitwise operations *)

Definition logic_bit (op : logic_op) : bool -> bool -> bool :=
  match op with OP_or => orb | OP_and => andb | OP_xor => xorb end.

Lemma logic_spec op x y n : Z.testbit (logic_limb op x y) n = logic_bit op (Z.testbit x n) (Z.testbit y n).
Proof. destruct op; [apply Z.lor_spec|apply Z.land_spec|apply Z.lxor_spec]. Qed.

Lemma logic_comm op x y : logic_limb op x y = logic_limb op y x.
Proof. destruct op; [apply Z.lor_comm|apply Z.land_comm|apply Z.lxor_comm]. Qed.

Lemma testbit_join x u n : limb x -> 0 <= n ->
  Z.testbit (x + B * u) n = if n <? 64 then Z.testbit x n else Z.testbit u (n - 64).
Proof.
  intros Hx Hn. change B with (2 ^ 64) in *. unfold limb in Hx. change B with (2 ^ 64) in Hx.
  destruct (Z.ltb_spec n 64) as [Hlt|Hge].
  - rewrite <- (Z.mod_pow2_bits_low (x + _) 64 n), Z.mul_comm, Z_mod_plus_full, Z.mod_small by lia. done.
  - replace n with ((n - 64) + 64) at 1 by lia. rewrite <- Z.div_pow2_bits by lia.
    rewrite Z.mul_comm, Z.div_add, Z.div_small by lia. done.
Qed.

Lemma logic_limb_ok op x y : limb x -> limb y -> limb (logic_limb op x y).
Proof.
  intros Hx Hy. assert (E : logic_limb op x y = logic_limb op x y mod B); [|rewrite E; apply Z.mod_pos_bound; pose proof B_pos; lia].
  change B with (2 ^ 64). apply Z.bits_inj'. intros n Hn. destruct (Z.ltb_spec n 64).
  - by rewrite Z.mod_pow2_bits_low by lia.
  - rewrite Z.mod_pow2_bits_high, logic_spec by lia.
    pose proof (testbit_join x 0 n Hx Hn) as Ex. pose proof (testbit_join y 0 n Hy Hn) as Ey.
    rewrite Z.mul_0_r, Z.add_0_r in Ex, Ey. destruct (Z.ltb_spec n 64); [lia|].
    rewrite Ex, Ey, Z.bits_0. by destruct op.
Qed.

Lemma logic_join op x u y v : limb x -> limb y ->
  logic_limb op (x + B * u) (y + B * v) = logic_limb op x y + B * logic_limb op u v.
Proof.
  intros Hx Hy. apply Z.bits_inj'. intros n Hn.
  rewrite logic_spec, !testbit_join by (done || by apply logic_limb_ok).
  by destruct (n <? 64); rewrite logic_spec.
Qed.

Lemma logic_signs op (p q : bool) :
  logic_limb op (- Z.b2z p) (- Z.b2z q) = - Z.b2z (logic_bit op p q).
Proof. destruct op, p, q; reflexivity. Qed.

Lemma testbit_sign x : limb x -> Z.testbit x 63 = (2 ^ 63 <=? x).
Proof.
  intros Hx. change (Z.testbit x 63) with (Z.testbit x (0 + 63)). rewrite <- Z.shiftr_spec, sign_bit by done.
  by destruct (2 ^ 63 <=? x).
Qed.

Lemma sval_one x : limb x -> sval [x] = x + B * - Z.b2z (Z.testbit x 63).
Proof. intros Hx. rewrite sval_single, testbit_sign by done. destruct (2 ^ 63 <=? x); simpl Z.b2z; lia. Qed.

Lemma sval_cons x l : limbs l -> limb x -> l <> [] -> sval (x :: l) = x + B * sval l.
Proof.
  intros Hl Hx Hne. unfold sval, js_bigint_sign. cbn [length uval]. pose proof (nonnil_length l Hne).
  rewrite Nat.sub_succ, Nat.sub_0_r. unfold limb_at.
  destruct (length l) as [|n] eqn:E; [lia|]. cbn [lookup list_lookup]. change (S n - 1)%nat with (n - 0)%nat.
  rewrite (Nat.sub_0_r n), (pw_S (S n)). set (q := Z.shiftr _ 63). ring.
Qed.

Lemma logic_zip op a : forall b, limbs a -> limbs b -> length a = length b -> a <> [] ->
  limbs (zip_with (logic_limb op) a b) /\ zip_with (logic_limb op) a b <> [] /\
  sval (zip_with (logic_limb op) a b) = logic_limb op (sval a) (sval b).
Proof.
  induction a as [|x a IH]; intros [|y b] Ha Hb Hl Hne; try done. inv_subst Ha. inv_subst Hb.
  assert (Hxy : limb (logic_limb op x y)) by (by apply logic_limb_ok).
  destruct a as [|x' a].
  - destruct b; [|done]. cbn [zip_with]. split; [by constructor|]. split; [done|].
    rewrite !sval_one, logic_join, logic_signs, logic_spec by done. done.
  - destruct b as [|y' b]; [done|]. destruct (IH (y' :: b)) as (H1' & H2' & H3'); try done; [simpl in *; lia|].
    change (zip_with (logic_limb op) (x :: x' :: a) (y :: y' :: b))
      with (logic_limb op x y :: zip_with (logic_limb op) (x' :: a) (y' :: b)).
    split; [by constructor|]. split; [done|].
    rewrite (sval_cons _ (zip_with _ _ _)), (sval_cons x), (sval_cons y), H3' by done.
    by rewrite logic_join.
Qed.

Lemma zip_with_extend op b (v : Z) : forall a, (length b <= length a)%nat ->
  zip_with (logic_limb op) (take (length b) a) b ++ ((fun x => logic_limb op x v) <$> drop (length b) a) =
  zip_with (logic_limb op) a (b ++ replicate (length a - length b) v).
Proof.
  induction b as [|y b IH]; intros a Hl.
  - cbn [length]. rewrite drop_0, Nat.sub_0_r. induction a as [|x a IHa]; [done|].
    cbn. f_equal. apply IHa. simpl; lia.
  - destruct a as [|x a]; [simpl in Hl; lia|]. cbn. f_equal. apply IH. simpl in Hl. lia.
Qed.

Section operations.
Context (mem : Z -> bool).

Lemma js_bigint_logic_spec op a b : bigint_ok a -> bigint_ok b ->
  computes mem (logic_limb op (sval a) (sval b)) (too_big (len a `max` len b)) (js_bigint_logic mem a b op).
Proof.
  intros Ha Hb. unfold js_bigint_logic.
  assert (H : forall a b, bigint_ok a -> bigint_ok b -> (length b <= length a)%nat ->
    computes mem (logic_limb op (sval a) (sval b)) (too_big (len a `max` len b))
      (bind_outcome (js_bigint_new mem (len a)) (fun _ =>
        Ret (js_bigint_normalize (zip_with (logic_limb op) (take (length b) a) b ++
          ((fun x => logic_limb op x (u64 (- js_bigint_sign b))) <$> drop (length b) a)))))).
  { clear a b Ha Hb. intros a b [Ha Hane _] [Hb Hbne _] Hl. apply new_spec; [unfold too_big; lia|].
    rewrite zip_with_extend by done. destruct (sval_extend b (length a - length b) Hb Hbne) as [E _].
    destruct (logic_zip op a (b ++ replicate (length a - length b) (u64 (- js_bigint_sign b)))) as (H1 & H2 & H3); try done.
    - apply Forall_app. split; [done|]. apply Forall_replicate, limb_u64.
    - rewrite length_app, length_replicate. lia.
    - rewrite <- E, <- H3. by apply normalize_spec. }
  destruct (Nat.ltb_spec (length a) (length b)).
  - rewrite logic_comm, Z.max_comm. apply H; [done|done|lia].
  - by apply H.
Qed.

Lemma js_bigint_not_spec a : bigint_ok a ->
  computes mem (Z.lnot (sval a)) (too_big (len a)) (js_bigint_not mem a).
Proof.
  intros [Ha Hane Hn]. apply new_spec; [done|]. pose proof (limbs_not a Ha) as Hl.
  assert (Hne : limb_not <$> a <> []) by (by destruct a).
  split; [split; [done|done|]|].
  - intros k. rewrite length_fmap. intros Hk. specialize (Hn k Hk).
    apply not_false_iff_true. rewrite <- not_false_iff_true in Hn.
    assert (Hat : forall i, (i < length a)%nat -> limb_at (limb_not <$> a) i = limb_not (limb_at a i)).
    { intros i Hi. unfold limb_at. rewrite list_lookup_fmap. by destruct (lookup_lt_is_Some_2 a i Hi) as [x ->]. }
    rewrite !Hat by lia. pose proof (limb_at_lt a k Ha ltac:(lia)) as Hu. pose proof (limb_at_lt a (S k) Ha ltac:(lia)) as Hv.
    intros Hf. apply Hn. apply needed_false; [done|done|].
    apply needed_false in Hf; [|unfold limb, limb_not, limb_ones in *; lia..].
    pose proof B_half. unfold limb_not, limb_ones, limb in *.
    destruct (Z.leb_spec (2 ^ 63) (B - 1 - limb_at a k)), (Z.leb_spec (2 ^ 63) (limb_at a k)); lia.
  - pose proof (sval_range a Ha Hane) as Hr. unfold Z.lnot.
    assert (Hev : exists h, pw (length a) = 2 * h).
    { destruct a as [|x a]; [done|]. exists (2 ^ 63 * pw (length a)). cbn [length]. rewrite pw_S, B_half. ring. }
    destruct Hev as [h Hh].
    apply (sval_unique _ _ (1 - js_bigint_sign a)); [done|done| |rewrite length_fmap; lia].
    rewrite uval_not, length_fmap. unfold sval. lia.
Qed.

(** *** Shifts *)

Lemma shift_split k : 0 <= k ->
  2 ^ k = pw (Z.to_nat (k / JS_LIMB_BITS)) * 2 ^ (k mod JS_LIMB_BITS) /\ 0 <= k mod JS_LIMB_BITS < 64.
Proof.
  intros Hk. unfold JS_LIMB_BITS, pw. pose proof (Z.mod_pos_bound k 64 ltac:(lia)) as Hm. split; [|done].
  assert (0 <= k / 64) by (apply Z.div_pos; lia). change B with (2 ^ 64).
  rewrite Z2Nat.id, <- Z.pow_mul_r, <- Z.pow_add_r by lia. f_equal. apply Z.div_mod. lia.
Qed.

(** Limbs of zeros below multiply by a power of [B]. *)
Lemma sval_zeros d a : a <> [] -> limbs a ->
  limbs (replicate d 0 ++ a) /\ sval (replicate d 0 ++ a) = pw d * sval a.
Proof.
  intros Hne Ha. pose proof B_pos. pose proof (nonnil_length a Hne). split.
  - apply Forall_app. split; [|done]. apply Forall_replicate. unfold limb. lia.
  - unfold sval, js_bigint_sign. rewrite uval_app, uval_zeros, length_app, length_replicate, pw_add.
    replace (limb_at (replicate d 0 ++ a) (d + length a - 1)) with (limb_at a (length a - 1)).
    + set (q := Z.shiftr _ 63). ring.
    + unfold limb_at. rewrite lookup_app_r, length_replicate by (rewrite length_replicate; lia).
      do 2 f_equal. lia.
Qed.

Lemma js_bigint_shl_spec a k : bigint_ok a -> 0 <= k ->
  computes mem (Z.shiftl (sval a) k) (too_big (len a + k / JS_LIMB_BITS)) (js_bigint_shl mem a k).
Proof.
  intros Ha Hk. pose proof Ha as [Hl Hne Hn]. destruct (shift_split k Hk) as [Ek Hs].
  assert (Hd : 0 <= k / JS_LIMB_BITS) by (apply Z.div_pos; unfold JS_LIMB_BITS; lia).
  rewrite Z.shiftl_mul_pow2, Ek by done. set (d := Z.to_nat (k / JS_LIMB_BITS)) in *. set (s := k mod JS_LIMB_BITS) in *.
  destruct (decide (a = [0])) as [->|H0].
  { apply (computes_weaken _ _ False); [done|]. by apply new_si_spec. }
  assert (Es : js_bigint_shl mem a k =
    bind_outcome (js_bigint_new mem (len a + Z.of_nat d)) (fun _ =>
      if s =? 0 then Ret (replicate d 0 ++ a)
      else
        let '(r, l) := mp_shl a s 0 in
        let l := if js_bigint_sign a =? 0 then l else Z.lor l (u64 (Z.shiftl limb_ones s)) in
        js_bigint_extend mem (replicate d 0 ++ r) l)).
  { destruct a as [|[|p|p] [|]]; done. }
  rewrite Es. apply new_spec; [unfold d; rewrite Z2Nat.id by done; auto|].
  destruct (Z.eqb_spec s 0) as [E0|E0].
  - destruct (sval_zeros d a Hne Hl) as [H1 H2]. rewrite E0. split; [|rewrite H2; ring].
    split; [done|by destruct d, a|]. intros j. rewrite length_app, length_replicate. intros Hj.
    unfold limb_at. destruct a as [|x [|y a]]; [done| |].
    + simpl in Hj. rewrite lookup_app_l, lookup_app_r, length_replicate by (rewrite length_replicate; lia).
      rewrite lookup_replicate_2 by lia. replace (S j - d)%nat with 0%nat by lia. cbn.
      apply not_false_iff_true. intros Hf. inv_subst Hl. apply needed_false in Hf; [|done|done].
      apply H0. by rewrite Hf.
    + simpl in Hj. rewrite !lookup_app_r, !length_replicate by (rewrite length_replicate; lia).
      replace (S j - d)%nat with (S (j - d)) by lia. apply (Hn (j - d)%nat). simpl. lia.
  - pose proof (mp_shl_spec s a ltac:(lia) 0 Hl ltac:(pose proof (pow2_pos s); lia)) as H.
    destruct (mp_shl a s 0) as [r l]. destruct H as (Hr & Hlr & Hll & E).
    assert (Hp : 0 < 2 ^ s) by (apply pow2_pos; lia). assert (Hm : 0 < 2 ^ (64 - s)) by (apply pow2_pos; lia).
    pose proof (B_split s ltac:(lia)) as HB. pose proof B_pos.
    assert (Hrne : r <> []) by (intros ->; simpl in Hlr; by destruct a).
    set (l' := if js_bigint_sign a =? 0 then l else Z.lor l (u64 (Z.shiftl limb_ones s))).
    assert (El' : l' = l + js_bigint_sign a * (B - 2 ^ s)).
    { unfold l'. destruct (sign_bool a Hl Hne) as [Esg|Esg]; rewrite Esg; cbn [Z.eqb]; [lia|].
      rewrite limb_shl by (unfold limb, limb_ones; lia). unfold limb_ones.
      assert (Ho : (B - 1) mod 2 ^ (64 - s) = 2 ^ (64 - s) - 1).
      { symmetry. apply (Z.mod_unique_pos _ _ (2 ^ s - 1)); lia. }
      rewrite Ho, Z.lor_comm, (lor_low s) by (done || lia || by rewrite Z_mod_mult). lia. }
    assert (Hl' : limb l').
    { unfold limb. rewrite El'. destruct (sign_bool a Hl Hne) as [Esg|Esg]; rewrite Esg; nia. }
    replace (sval a * (pw d * 2 ^ s)) with (sval ((replicate d 0 ++ r) ++ [l'])).
    { apply extend_spec; [|by destruct d, r|done]. by apply sval_zeros. }
    rewrite <- app_assoc. assert (Hrl : limbs (r ++ [l'])) by (apply Forall_app; split; [done|by constructor]).
    destruct (sval_zeros d (r ++ [l'])) as [_ ->]; [by destruct r|done|].
    replace (sval (r ++ [l'])) with (sval a * 2 ^ s); [ring|]. symmetry.
    pose proof (sval_range a Hl Hne) as Hra. pose proof (pw_pos (length a)).
    assert (Hlen : length (r ++ [l']) = S (length a)) by (rewrite length_app; simpl; lia).
    apply (sval_unique _ _ (js_bigint_sign a)); [done|by destruct r| |]; rewrite Hlen, pw_S.
    + rewrite uval_app, Hlr. cbn [uval]. rewrite El'. unfold sval. lia.
    + set (P := pw (length a)) in *. set (x := sval a) in *. rewrite HB. clearbody P x. nia.
Qed.

Lemma drop_app_sval d a : limbs a -> (d < length a)%nat ->
  limbs (drop d a) /\ drop d a <> [] /\ js_bigint_sign (drop d a) = js_bigint_sign a /\
  sval (drop d a) = sval a / pw d.
Proof.
  intros Ha Hd. destruct (Forall_take_drop limb d a Ha) as [Ht Hdr]. pose proof (uval_bounds _ Ht) as Hb.
  rewrite length_take, Nat.min_l in Hb by lia.
  assert (Hl : length (drop d a) = (length a - d)%nat) by apply length_drop.
  assert (Hne : drop d a <> []) by (intros E; rewrite E in Hl; simpl in Hl; lia).
  assert (Hs : js_bigint_sign (drop d a) = js_bigint_sign a).
  { unfold js_bigint_sign, limb_at. rewrite Hl, lookup_drop. do 3 f_equal. lia. }
  split_and!; try done. apply (Z.div_unique_pos _ _ _ (uval (take d a))); [done|].
  unfold sval. rewrite Hs, Hl, (uval_take_drop d a) by lia.
  replace (pw (length a)) with (pw d * pw (length a - d)) by (rewrite <- pw_add; f_equal; lia). ring.
Qed.

Lemma js_bigint_shr_spec a k : bigint_ok a -> 0 <= k ->
  computes mem (Z.shiftr (sval a) k) (too_big (len a)) (js_bigint_shr mem a k).
Proof.
  intros [Ha Hne Hn] Hk. destruct (shift_split k Hk) as [Ek Hs]. unfold js_bigint_shr.
  assert (Hd : 0 <= k / JS_LIMB_BITS) by (apply Z.div_pos; unfold JS_LIMB_BITS; lia).
  rewrite Z.shiftr_div_pow2, Ek by done. set (d := Z.to_nat (k / JS_LIMB_BITS)) in *. set (s := k mod JS_LIMB_BITS) in *.
  pose proof (pow2_pos s ltac:(lia)) as Hp. pose proof (pw_pos d) as Hpd. pose proof (sval_range a Ha Hne) as Hr.
  destruct (Nat.leb_spec (length a) d) as [Hle|Hlt].
  - apply (computes_weaken _ _ False); [done|].
    assert (HP : pw (length a) <= pw d * 2 ^ s).
    { replace d with (length a + (d - length a))%nat by lia. rewrite pw_add.
      pose proof (pw_pos (length a)). pose proof (pw_pos (d - length a)).
      assert (1 <= pw (d - length a) * 2 ^ s) by nia. nia. }
    assert (E : sval a / (pw d * 2 ^ s) = - js_bigint_sign a).
    { symmetry. rewrite (sval_sign a Ha Hne). destruct (Z.ltb_spec (sval a) 0).
      - apply (Z.div_unique_pos _ _ _ (sval a + pw d * 2 ^ s)); lia.
      - apply (Z.div_unique_pos _ _ _ (sval a)); lia. }
    rewrite E. destruct (sign_bool a Ha Hne) as [E'|E']; rewrite E'; by apply new_si_spec.
  - destruct (drop_app_sval d a Ha Hlt) as (Hdl & Hdn & Hds & Hdv). rewrite <- Z.div_div, <- Hdv by lia.
    apply new_spec; [unfold too_big, len; lia|].
    destruct (Z.eqb_spec s 0) as [E0|E0].
    + rewrite E0, Z.div_1_r. split; [|done]. split; [done|done|]. intros j. rewrite length_drop. intros Hj.
      unfold limb_at. rewrite !lookup_drop, Nat.add_succ_r. apply Hn. lia.
    + unfold mp_shr. pose proof (shr_loop_spec s (drop d a) ltac:(lia) (u64 (- js_bigint_sign a)) Hdl (limb_u64 _)) as H.
      destruct (shr_loop (drop d a) s (u64 (- js_bigint_sign a))) as [r l]. destruct H as (Hrl & Hrn & _ & _ & E). cbn [fst].
      assert (Hrne : r <> []) by (intros ->; simpl in Hrn; by destruct (drop d a)).
      replace (sval (drop d a) / 2 ^ s) with (sval r); [by apply normalize_spec|].
      pose proof B_pos. pose proof (B_split s ltac:(lia)) as HB.
      assert (Hh : u64 (- js_bigint_sign a) mod 2 ^ s = js_bigint_sign a * (2 ^ s - 1)).
      { rewrite (sign_limb a Ha Hne). destruct (sign_bool a Ha Hne) as [Eg|Eg]; rewrite Eg; cbn [Z.eqb]; [by rewrite Zmod_0_l|].
        symmetry. unfold limb_ones. apply (Z.mod_unique_pos _ _ (2 ^ (64 - s) - 1)); lia. }
      rewrite Hh in E. pose proof (Z.mod_pos_bound l (2 ^ s) Hp). pose proof (sval_range _ Hdl Hdn) as Hdr.
      set (t := drop d a) in *. assert (Et : uval t = sval t + js_bigint_sign a * pw (length t)) by (unfold sval; rewrite Hds; ring).
      assert (Eq : sval t / 2 ^ s = uval r - js_bigint_sign a * pw (length t)).
      { symmetry. apply (Z.div_unique_pos _ _ _ (l mod 2 ^ s)); [done|]. rewrite Et in E. lia. }
      rewrite Eq. apply (sval_unique _ _ (js_bigint_sign a)); [done|done|rewrite Hrn; ring|].
      rewrite Hrn, <- Eq. pose proof (pw_pos (length t)).
      pose proof (Z_div_mod_eq_full (sval t) (2 ^ s)). pose proof (Z.mod_pos_bound (sval t) (2 ^ s) Hp).
      set (x := sval t) in *. clearbody x. assert (2 <= 2 ^ s) by (pose proof (Z.pow_le_mono_r 2 1 s); lia).
      destruct (Z.leb_spec 0 x).
      * pose proof (Z.div_pos x (2 ^ s)). nia.
      * nia.
Qed.

(** *** Comparison *)

(** A normal form with more limbs is further from zero. *)
Lemma longer_spec a b : bigint_ok a -> bigint_ok b -> (length a < length b)%nat ->
  if sval b <? 0 then sval b < sval a else sval a < sval b.
Proof.
  intros [Ha Hane _] Hb Hlt. pose proof (nonnil_length a Hane).
  pose proof (norm_bound b (length b - 1) Hb ltac:(lia) ltac:(lia)) as Hn.
  pose proof (sval_range a Ha Hane) as Hr. pose proof (pw_pos (length a)).
  assert (pw (length a) <= pw (length b - 1)).
  { replace (length b - 1)%nat with (length a + (length b - 1 - length a))%nat by lia. rewrite pw_add.
    pose proof (pw_pos (length b - 1 - length a)). nia. }
  destruct (Z.ltb_spec (sval b) 0); lia.
Qed.

Lemma js_bigint_cmp_spec a b : bigint_ok a -> bigint_ok b ->
  js_bigint_cmp a b = Z.sgn (sval a - sval b).
Proof.
  intros Ha Hb. pose proof Ha as [Hal Hane _]. pose proof Hb as [Hbl Hbne _]. unfold js_bigint_cmp.
  pose proof (sval_sign a Hal Hane) as Ea. pose proof (sval_sign b Hbl Hbne) as Eb.
  destruct (Z.eqb_spec (js_bigint_sign a) (js_bigint_sign b)) as [Es|Es]; cbn [negb].
  2: { rewrite Ea in *. rewrite Eb in Es. destruct (Z.ltb_spec (sval a) 0), (Z.ltb_spec (sval b) 0); try done; lia. }
  destruct (Nat.eqb_spec (length a) (length b)) as [El|El]; cbn [negb].
  - rewrite cmp_loop_spec by done. unfold sval. rewrite Es, El. f_equal. ring.
  - destruct (Nat.ltb_spec (length a) (length b)) as [Hlt|Hge].
    + pose proof (longer_spec a b Ha Hb Hlt) as Hl. rewrite Es, Eb. destruct (Z.ltb_spec (sval b) 0); lia.
    + pose proof (longer_spec b a Hb Ha ltac:(lia)) as Hl. rewrite Ea. destruct (Z.ltb_spec (sval a) 0); lia.
Qed.

(** *** Powers *)

(** The size, in bits, from which a power may be refused. *)
Definition pow_limit : Z := JS_BIGINT_MAX_SIZE * JS_LIMB_BITS - 66.
Definition huge (x : Z) : Prop := 2 ^ pow_limit <= Z.abs x.

Lemma pow_limit_val : pow_limit = 1048510.
Proof. reflexivity. Qed.

Lemma pw_pow2 n : pw n = 2 ^ (64 * Z.of_nat n).
Proof. unfold pw. change B with (2 ^ 64). by rewrite <- Z.pow_mul_r by lia. Qed.

Lemma size_bound a : bigint_ok a -> sval a <> 0 -> pw (length a - 1) <= 2 * Z.abs (sval a).
Proof.
  intros Ha H0. pose proof (nonnil_length a (bo_some _ Ha)).
  destruct (decide (length a = 1%nat)) as [E|E].
  - rewrite E. change (pw (1 - 1)) with 1. lia.
  - pose proof (norm_bound a (length a - 1) Ha ltac:(lia) ltac:(lia)). lia.
Qed.

Lemma mul_huge a b : bigint_ok a -> bigint_ok b -> sval a <> 0 -> sval b <> 0 ->
  too_big (len a + len b) -> huge (sval a * sval b).
Proof.
  intros Ha Hb Ha0 Hb0 Hbig. pose proof (size_bound a Ha Ha0) as H1. pose proof (size_bound b Hb Hb0) as H2.
  pose proof (nonnil_length a (bo_some _ Ha)). pose proof (nonnil_length b (bo_some _ Hb)).
  unfold huge. rewrite Z.abs_mul.
  assert (E : 4 * 2 ^ pow_limit <= pw (length a - 1) * pw (length b - 1)).
  { rewrite <- pw_add, pw_pow2. change 4 with (2 ^ 2). rewrite <- Z.pow_add_r by (rewrite ?pow_limit_val; lia).
    apply Z.pow_le_mono_r; [lia|]. unfold too_big, pow_limit, JS_LIMB_BITS, len in *. lia. }
  pose proof (pw_pos (length a - 1)). pose proof (pw_pos (length b - 1)).
  assert (pw (length a - 1) * pw (length b - 1) <= 2 * Z.abs (sval a) * (2 * Z.abs (sval b)))
    by (apply Z.mul_le_mono_nonneg; lia). lia.
Qed.

Lemma pow_abs_mono x m n : 1 <= Z.abs x -> 0 <= m <= n -> Z.abs (x ^ m) <= Z.abs (x ^ n).
Proof.
  intros Hx Hm. rewrite !Z.abs_pow. by apply Z.pow_le_mono_r; lia.
Qed.

Lemma huge_pow x n : 2 <= Z.abs x -> pow_limit <= n -> huge (x ^ n).
Proof.
  intros Hx Hn. unfold huge. rewrite Z.abs_pow. rewrite pow_limit_val in *. transitivity (2 ^ n).
  - apply Z.pow_le_mono_r; lia.
  - apply Z.pow_le_mono_l. lia.
Qed.

Lemma computes_bind x y (big big' : Prop) o f :
  computes mem x big o -> (big -> big') ->
  (forall r, bigint_ok r -> sval r = x -> computes mem y big' (f r)) ->
  computes mem y big' (bind_outcome o f).
Proof. intros Ho Hb Hf. destruct o as [r|e]; simpl in *; [destruct Ho; by apply Hf|]. destruct e; auto. Qed.

Lemma land_one x : Z.land x 1 = x mod 2.
Proof. change 1 with (Z.ones 1). by rewrite Z.land_ones by lia. Qed.

Lemma pow_loop_spec a e : bigint_ok a -> sval a <> 0 -> 0 <= e -> forall i r,
  bigint_ok r -> sval r = sval a ^ Z.shiftr e (Z.of_nat i) ->
  computes mem (sval a ^ e) (huge (sval a ^ e)) (pow_loop mem i a e r).
Proof.
  intros Ha Ha0 He. induction i as [|i IH]; intros r Hr Er; cbn [pow_loop].
  { rewrite Z.shiftr_0_r in Er. done. }
  set (h := Z.shiftr e (Z.of_nat (S i))) in *. set (h' := Z.shiftr e (Z.of_nat i)) in *.
  assert (Hh : h = h' / 2).
  { unfold h, h'. rewrite Nat2Z.inj_succ, <- Z.add_1_r, <- Z.shiftr_shiftr, (Z.shiftr_div_pow2 _ 1) by lia. done. }
  assert (Hh' : 0 <= h' <= e).
  { unfold h'. rewrite Z.shiftr_div_pow2 by lia. pose proof (pow2_pos (Z.of_nat i) ltac:(lia)).
    split; [by apply Z.div_pos|]. apply Z.div_le_upper_bound; [done|]. nia. }
  pose proof (land_one h') as Hb.
  pose proof (Z_div_mod_eq_full h' 2) as Hdm. pose proof (Z.mod_pos_bound h' 2 ltac:(lia)).
  assert (Hr0 : sval r <> 0) by (rewrite Er; apply Z.pow_nonzero; lia).
  assert (Esq : sval r * sval r = sval a ^ (2 * h)) by (rewrite Er, <- Z.pow_add_r by lia; f_equal; lia).
  assert (Hbnd : forall m, 0 <= m <= e -> huge (sval a ^ m) -> huge (sval a ^ e)).
  { unfold huge. intros m Hm Hg. pose proof (pow_abs_mono (sval a) m e). lia. }
  eapply (computes_bind (sval a ^ (2 * h)) _ (too_big (len r + len r))).
  { rewrite <- Esq. by apply js_bigint_mul_spec. }
  { intros Hbig. apply (Hbnd (2 * h)); [lia|]. rewrite <- Esq. by apply mul_huge. }
  intros r1 Hr1 Er1. rewrite Hb.
  assert (Hr10 : sval r1 <> 0) by (rewrite Er1; apply Z.pow_nonzero; lia).
  destruct (Z.eqb_spec (h' mod 2) 1) as [E1|E1].
  - assert (Em : sval r1 * sval a = sval a ^ h').
    { rewrite Er1. replace h' with (Z.succ (2 * h)) by lia. rewrite Z.pow_succ_r by lia. ring. }
    eapply (computes_bind (sval a ^ h') _ (too_big (len r1 + len a))).
    + rewrite <- Em. by apply js_bigint_mul_spec.
    + intros Hbig. apply (Hbnd h'); [lia|]. rewrite <- Em. by apply mul_huge.
    + intros r2 Hr2 Er2. by apply IH.
  - simpl bind_outcome. apply IH; [done|]. rewrite Er1. f_equal. lia.
Qed.

(** A nonnegative exponent of one limb, or one too large for any base. *)
Lemma exponent_spec b : bigint_ok b -> 0 < sval b ->
  (exists e, b = [e] /\ sval b = e /\ 0 < e < 2 ^ 63) \/ (2 <= length b)%nat /\ pow_limit <= sval b.
Proof.
  intros Hb Hpos. destruct b as [|e [|e' b]].
  - by destruct (bo_some _ Hb).
  - left. exists e. pose proof (bo_limbs _ Hb) as He. inv_subst He. rewrite sval_single in * by done.
    unfold limb in *. destruct (Z.leb_spec (2 ^ 63) e); [lia|]. split_and!; try done; lia.
  - right. split; [simpl; lia|]. pose proof (size_bound _ Hb ltac:(lia)) as Hs.
    assert (HB : B <= pw (length (e :: e' :: b) - 1)).
    { cbn [length]. rewrite Nat.sub_succ, Nat.sub_0_r, pw_S. pose proof (pw_pos (length b)). pose proof B_pos. nia. }
    rewrite pow_limit_val. pose proof B_half. pose proof B_large. lia.
Qed.

Lemma pow_general_spec a b : bigint_ok a -> bigint_ok b -> 2 <= Z.abs (sval a) -> 0 < sval b ->
  computes mem (sval a ^ sval b) (huge (sval a ^ sval b) \/ too_big (len a)) (pow_general mem a b).
Proof.
  intros Ha Hb Ha2 Hb0. destruct (exponent_spec b Hb Hb0) as [(e & -> & Ee & He)|[Hl He]].
  - unfold pow_general. rewrite Ee. destruct (Z.ltb_spec INT32_MAX e) as [Hm|Hm].
    { left. apply huge_pow; [done|]. rewrite pow_limit_val. unfold INT32_MAX in Hm. lia. }
    apply new_spec; [by right|]. eapply computes_weaken; [intros H; left; exact H|].
    pose proof (Z.log2_nonneg e). apply pow_loop_spec; [done|lia|lia|done|].
    replace (1 + Z.log2 e - 1) with (Z.log2 e) by lia. rewrite Z2Nat.id by done.
    assert (Esh : Z.shiftr e (Z.log2 e) = 1); [|by rewrite Esh, Z.pow_1_r].
    rewrite Z.shiftr_div_pow2 by done. pose proof (Z.log2_spec e ltac:(lia)) as [H1 H2].
    rewrite Z.pow_succ_r in H2 by done. symmetry. apply (Z.div_unique_pos _ _ _ (e - 2 ^ Z.log2 e)); lia.
  - assert (E : pow_general mem a b = Throw RangeError) by (destruct b as [|e [|e' b]]; simpl in Hl; try lia; done).
    rewrite E. left. by apply huge_pow.
Qed.

(** An array of zeros with one limb at [q]. *)
Lemma uval_insert q n v : (q < n)%nat -> limb v ->
  limbs (<[q := v]> (replicate n 0)) /\ uval (<[q := v]> (replicate n 0)) = pw q * v.
Proof.
  intros Hq Hv. pose proof B_pos. split.
  { apply Forall_insert; [|done]. apply Forall_replicate. unfold limb. lia. }
  replace n with (q + S (n - q - 1))%nat by lia. rewrite replicate_add, insert_app_r_alt by (rewrite length_replicate; lia).
  rewrite length_replicate, Nat.sub_diag. cbn [replicate]. rewrite uval_app, uval_zeros, length_replicate.
  change (<[0%nat := v]> (0 :: replicate (n - q - 1) 0)) with (v :: replicate (n - q - 1) 0).
  cbn [uval]. rewrite uval_zeros. ring.
Qed.

Lemma limb_at_insert q n v i : (q < n)%nat -> limb_at (<[q := v]> (replicate n 0)) i = if (q =? i)%nat then v else 0.
Proof.
  intros Hq. unfold limb_at. destruct (Nat.eqb_spec q i) as [->|Hne].
  - by rewrite list_lookup_insert_eq by (rewrite length_replicate; lia).
  - rewrite list_lookup_insert_ne by done. destruct (decide (i < n)%nat).
    + by rewrite lookup_replicate_2.
    + by rewrite lookup_ge_None_2 by (rewrite length_replicate; lia).
Qed.

(** The limbs of [2^e], or of [-2^e] when [neg] is 1. *)
Lemma power_limbs e neg : 0 <= e -> bit neg ->
  let r := <[Z.to_nat (e / JS_LIMB_BITS) := u64 (Z.shiftl (u64 (1 - 2 * neg)) (e mod JS_LIMB_BITS))]>
             (replicate (Z.to_nat ((e + JS_LIMB_BITS + 1 - neg) / JS_LIMB_BITS)) 0) in
  bigint_ok r /\ sval r = (1 - 2 * neg) * 2 ^ e.
Proof.
  intros He Hneg. destruct (shift_split e He) as [Ee Hm]. unfold JS_LIMB_BITS in *.
  pose proof (Z_div_mod_eq_full e 64) as Hdm. assert (Hq : 0 <= e / 64) by (apply Z.div_pos; lia).
  set (q := Z.to_nat (e / 64)) in *. set (m := e mod 64) in *.
  pose proof (pow2_pos m ltac:(lia)) as Hp. pose proof (pow2_pos (64 - m) ltac:(lia)) as Hp'.
  pose proof (B_split m ltac:(lia)) as HB. pose proof B_pos as HB2. pose proof B_half as HBh. pose proof B_large as [HBv _].
  assert (Hv : u64 (Z.shiftl (u64 (1 - 2 * neg)) m) = neg * B + (1 - 2 * neg) * 2 ^ m).
  { rewrite limb_shl by (apply limb_u64 || lia). destruct Hneg as [-> | ->].
    - rewrite u64_add by lia. destruct (Z.ltb_spec (1 - 2 * 0) B); [|lia].
      assert (1 < 2 ^ (64 - m)) by (apply Z.pow_gt_1; lia). rewrite Z.mod_small; lia.
    - rewrite u64_sub by lia. destruct (Z.ltb_spec (1 - 2 * 1) 0); [|lia].
      replace (1 - 2 * 1 + B) with (B - 1) by lia.
      assert (Ho : (B - 1) mod 2 ^ (64 - m) = 2 ^ (64 - m) - 1) by (symmetry; apply (Z.mod_unique_pos _ _ (2 ^ m - 1)); lia).
      rewrite Ho. lia. }
  rewrite Hv. set (v := neg * B + (1 - 2 * neg) * 2 ^ m) in *.
  assert (Hlv : limb v) by (rewrite <- Hv; apply limb_u64).
  set (n := Z.to_nat ((e + 64 + 1 - neg) / 64)).
  assert (Hn : Z.of_nat n = (e + 64 + 1 - neg) / 64).
  { unfold n. apply Z2Nat.id. apply Z.div_pos; destruct Hneg; lia. }
  assert (Hqn : Z.of_nat q = e / 64) by (unfold q; lia).
  pose proof (Z_div_mod_eq_full (e + 64 + 1 - neg) 64) as Hdn. pose proof (Z.mod_pos_bound (e + 64 + 1 - neg) 64 ltac:(lia)) as Hmn.
  assert (Hlt : (q < n)%nat) by (destruct Hneg; lia).
  destruct (uval_insert q n v Hlt Hlv) as [Hl Eu]. cbv zeta. set (r := <[q:=v]> (replicate n 0)) in *.
  assert (Hlen : length r = n) by (unfold r; by rewrite length_insert, length_replicate).
  assert (Hne : r <> []) by (intros E; rewrite E in Hlen; simpl in Hlen; lia).
  split; [split; [done|done|]|].
  - intros k. rewrite Hlen. intros Hk. unfold r. rewrite !limb_at_insert by lia.
    apply not_false_iff_true. assert (Hpm : 2 * 2 ^ m <= B).
    { rewrite HB. assert (2 <= 2 ^ (64 - m)) by (pose proof (Z.pow_le_mono_r 2 1 (64 - m)); lia). nia. }
    assert (H0 : limb 0) by (unfold limb; lia).
    destruct (Nat.eqb_spec q (S k)) as [Eq|Eq].
    + destruct (Nat.eqb_spec q k); [lia|]. rewrite needed_false by done. unfold v.
      destruct (Z.leb_spec (2 ^ 63) 0), Hneg as [-> | ->]; lia.
    + destruct (Nat.eqb_spec q k) as [<-|]; [|destruct Hneg; lia]. rewrite needed_false by done.
      destruct Hneg as [Hg|Hg]; [|lia]. assert (Hm63 : m = 63) by lia. unfold v. rewrite Hg, Hm63.
      unfold limb_ones. destruct (Z.leb_spec (2 ^ 63) (0 * B + (1 - 2 * 0) * 2 ^ 63)); lia.
  - pose proof (pw_pos q). apply (sval_unique _ _ neg); [done|done| |]; rewrite Hlen.
    + rewrite Eu, Ee. unfold v. destruct Hneg as [Hg|Hg]; rewrite Hg; [ring|].
      assert (n = S q) as -> by lia. rewrite pw_S. ring.
    + rewrite pw_pow2. assert (Hge : e + 2 - neg <= 64 * Z.of_nat n) by (destruct Hneg; lia).
      pose proof (Z.pow_le_mono_r 2 _ _ ltac:(lia) Hge) as Hle. pose proof (pow2_pos e He).
      destruct Hneg as [-> | ->].
      * replace (e + 2 - 0) with (Z.succ (Z.succ e)) in Hle by lia. rewrite !Z.pow_succ_r in Hle by lia. lia.
      * replace (e + 2 - 1) with (Z.succ e) in Hle by lia. rewrite Z.pow_succ_r in Hle by lia. lia.
Qed.

Lemma pow_sign x e : 0 <= e -> (- x) ^ e = (1 - 2 * Z.land e 1) * x ^ e.
Proof.
  intros He. rewrite land_one, Zmod_even. destruct (Z.even e) eqn:E.
  - apply Z.even_spec in E. rewrite Z.pow_opp_even by done. lia.
  - assert (Ho : Z.odd e = true) by (by rewrite <- Z.negb_even, E). apply Z.odd_spec in Ho.
    rewrite Z.pow_opp_odd by done. lia.
Qed.

Lemma pow_power_of_two_spec x v n (is_neg : bool) b : bigint_ok b -> 0 < sval b ->
  v = 2 ^ n -> 1 <= n <= 63 -> x = (if is_neg then - v else v) ->
  computes mem (x ^ sval b) (huge (x ^ sval b)) (pow_power_of_two mem v is_neg b).
Proof.
  intros Hb Hb0 Hv Hn Hx. pose proof (pow2_pos n ltac:(lia)) as Hp.
  assert (Hx2 : 2 <= Z.abs x).
  { pose proof (Z.pow_le_mono_r 2 1 n). destruct is_neg; lia. }
  destruct (exponent_spec b Hb Hb0) as [(e & -> & Ee & He)|[Hl He]].
  2: { assert (E : pow_power_of_two mem v is_neg b = Throw RangeError) by (destruct b as [|e [|e' b]]; simpl in Hl; try lia; done).
       rewrite E. by apply huge_pow. }
  unfold pow_power_of_two. rewrite Ee. destruct (Z.ltb_spec INT32_MAX e) as [Hm|Hm].
  { apply huge_pow; [done|]. rewrite pow_limit_val. unfold INT32_MAX in Hm. lia. }
  cbv zeta. assert (Hlog : JS_LIMB_BITS - 1 - js_limb_clz v = n).
  { unfold JS_LIMB_BITS, js_limb_clz. rewrite Hv, Z.log2_pow2; lia. }
  rewrite Hlog. set (neg := if is_neg then Z.land e 1 else 0).
  assert (Hneg : bit neg).
  { unfold neg, bit. destruct is_neg; [|by left]. rewrite land_one. pose proof (Z.mod_pos_bound e 2). lia. }
  assert (Ex : x ^ e = (1 - 2 * neg) * 2 ^ (e * n)).
  { rewrite Hx, (Z.mul_comm e), Z.pow_mul_r, <- Hv by lia. unfold neg. destruct is_neg; [apply pow_sign; lia|lia]. }
  assert (Hhuge : pow_limit <= e * n -> huge (x ^ e)).
  { intros H. unfold huge. rewrite Ex, Z.abs_mul, (Z.abs_eq (2 ^ _)) by (apply Z.pow_nonneg; lia).
    pose proof (Z.pow_le_mono_r 2 pow_limit (e * n)). destruct Hneg as [-> | ->]; lia. }
  destruct (Z.ltb_spec (JS_BIGINT_MAX_SIZE * JS_LIMB_BITS) (e * n)) as [Hbig|Hok].
  { apply Hhuge. unfold pow_limit. lia. }
  assert (He0 : 0 <= e * n) by nia.
  apply new_spec.
  - intros Hbig. apply Hhuge. unfold too_big, pow_limit, JS_LIMB_BITS in *.
    pose proof (Z_div_mod_eq_full (e * n + 64 + 1 - neg) 64). pose proof (Z.mod_pos_bound (e * n + 64 + 1 - neg) 64).
    destruct Hneg; lia.
  - destruct (power_limbs (e * n) neg He0 Hneg) as [H1 H2]. split; [done|]. by rewrite H2.
Qed.

Lemma pow_unfold a b : b <> [0] -> b <> [] -> js_bigint_sign b = 0 -> js_bigint_pow mem a b =
  match a with
  | [v] =>
      if v <=? 1 then js_bigint_new_si mem v
      else if v =? limb_ones then js_bigint_new_si mem (1 - 2 * Z.land (limb_at b 0) 1)
      else
        let is_neg := sint 64 v <? 0 in
        let v := if is_neg then u64 (- v) else v in
        if Z.land v (v - 1) =? 0 then pow_power_of_two mem v is_neg b else pow_general mem a b
  | _ => pow_general mem a b
  end.
Proof. intros H1 H2 E. unfold js_bigint_pow. rewrite E. destruct b as [|[|p|p] [|]]; done. Qed.

(** The parity of a BigInt is that of its first limb. *)
Lemma sval_parity b : limbs b -> b <> [] -> Z.land (limb_at b 0) 1 = Z.land (sval b) 1.
Proof.
  intros Hb Hne. destruct b as [|x b]; [done|]. inv_subst Hb. rewrite !land_one.
  change (limb_at (x :: b) 0) with x.
  assert (E : exists j, sval (x :: b) = x + 2 * j).
  { destruct b as [|y b]; [rewrite sval_one by done|rewrite sval_cons by done]; rewrite B_half.
    - exists (2 ^ 63 * - Z.b2z (Z.testbit x 63)). ring.
    - exists (2 ^ 63 * sval (y :: b)). ring. }
  destruct E as [j ->]. rewrite Z.mul_comm. by rewrite Z_mod_plus_full.
Qed.

Lemma js_bigint_pow_spec a b : bigint_ok a -> bigint_ok b -> 0 <= sval b ->
  computes mem (sval a ^ sval b) (huge (sval a ^ sval b) \/ too_big (len a)) (js_bigint_pow mem a b).
Proof.
  intros Ha Hb Hb0. pose proof Ha as [Hal Hane _]. pose proof Hb as [Hbl Hbne _].
  assert (Es : js_bigint_sign b = 0) by (rewrite sval_sign by done; destruct (Z.ltb_spec (sval b) 0); lia).
  destruct (decide (sval b = 0)) as [E0|E0].
  { rewrite E0. apply sval_zero in E0 as ->; [|done]. apply (computes_weaken _ _ False); [done|]. by apply new_si_spec. }
  assert (Hbz : b <> [0]) by (intros ->; by apply E0). rewrite pow_unfold by done.
  pose proof B_half as HB. pose proof B_large as [HBv _].
  destruct a as [|v [|v' a]]; [done| |].
  2: { apply pow_general_spec; [done|done| |lia].
       destruct (decide (sval (v :: v' :: a) = 0)) as [Z0|Z0]; [by apply sval_zero in Z0|].
       pose proof (size_bound _ Ha Z0) as Hs. cbn [length] in Hs.
       rewrite Nat.sub_succ, Nat.sub_0_r, pw_S in Hs. pose proof (pw_pos (length a)). nia. }
  inv_subst Hal. assert (Hv : limb v) by done. pose proof (sval_single v Hv) as Ev. unfold limb in Hv.
  destruct (Z.leb_spec v 1) as [Hv1|Hv1].
  { apply (computes_weaken _ _ False); [done|]. destruct (Z.leb_spec (2 ^ 63) v); [lia|]. rewrite Ev.
    assert (Ep : v ^ sval b = v); [|rewrite Ep; apply new_si_spec; [lia|done]].
    assert (v = 0 \/ v = 1) as [-> | ->] by lia; [apply Z.pow_0_l; lia|apply Z.pow_1_l; lia]. }
  unfold limb_ones. destruct (Z.eqb_spec v (B - 1)) as [->|Hv2].
  { apply (computes_weaken _ _ False); [done|]. destruct (Z.leb_spec (2 ^ 63) (B - 1)); [|lia]. rewrite Ev.
    replace (B - 1 - B) with (Z.opp 1) by lia. rewrite pow_sign, Z.pow_1_l, Z.mul_1_r, sval_parity by done.
    apply new_si_spec; [|done]. pose proof (land_one (sval b)). pose proof (Z.mod_pos_bound (sval b) 2). lia. }
  assert (Hsi : (sint 64 v <? 0) = (2 ^ 63 <=? v)).
  { unfold sint, u64. change (64 - 1) with 63. change (2 ^ 64) with B. rewrite Z.mod_small by done.
    destruct (Z.ltb_spec v (2 ^ 63)), (Z.leb_spec (2 ^ 63) v); try lia; apply Z.ltb_lt || apply Z.ltb_ge; lia. }
  rewrite Hsi. cbv zeta. set (is_neg := 2 ^ 63 <=? v) in *.
  set (m := if is_neg then u64 (- v) else v).
  assert (Em : sval [v] = if is_neg then - m else m).
  { rewrite Ev. unfold m, is_neg. destruct (Z.leb_spec (2 ^ 63) v); [|done].
    rewrite u64_sub by lia. destruct (Z.ltb_spec (- v) 0); lia. }
  assert (Hm : 2 <= m <= 2 ^ 63).
  { unfold m, is_neg. destruct (Z.leb_spec (2 ^ 63) v); [|lia].
    rewrite u64_sub by lia. destruct (Z.ltb_spec (- v) 0); lia. }
  clearbody m is_neg. destruct (Z.eqb_spec (Z.land m (m - 1)) 0) as [El|El].
  - eapply computes_weaken; [intros H; left; exact H|].
    apply power_of_two in El; [|lia]. apply (pow_power_of_two_spec _ _ (Z.log2 m)); try done; [lia|].
    split; [apply Z.log2_le_pow2; lia|]. apply Z.lt_succ_r, Z.log2_lt_pow2; [lia|]. change (2 ^ Z.succ 63) with (2 * 2 ^ 63). lia.
  - apply pow_general_spec; try done; [|lia]. rewrite Em. destruct is_neg; lia.
Qed.
End operations.

(** ** The representation is canonical *)

Lemma uval_inj a : forall b, limbs a -> limbs b -> length a = length b -> uval a = uval b -> a = b.
Proof.
  induction a as [|x a IH]; intros [|y b] Ha Hb Hl E; try done. inv_subst Ha. inv_subst Hb.
  cbn [uval] in E. unfold limb in *. assert (E' : uval a = uval b) by nia.
  rewrite E' in E. f_equal; [lia|]. apply IH; try done. simpl in Hl. lia.
Qed.

Lemma sval_inj a b : bigint_ok a -> bigint_ok b -> sval a = sval b -> a = b.
Proof.
  intros Ha Hb E. destruct (Nat.lt_trichotomy (length a) (length b)) as [Hl|[Hl|Hl]].
  - pose proof (longer_spec a b Ha Hb Hl) as H. destruct (sval b <? 0); lia.
  - apply uval_inj; [apply Ha|apply Hb|done|].
    assert (Es : js_bigint_sign a = js_bigint_sign b) by (rewrite !sval_sign, E by (apply Ha || apply Hb); done).
    unfold sval in E. rewrite Es, Hl in E. lia.
  - pose proof (longer_spec b a Hb Ha Hl) as H. destruct (sval a <? 0); lia.
Qed.

(** ** Properties *)

(** [C22] Addition, subtraction, negation and multiplication of BigInts return
    the integer the operation names, in normal form, for all operands; the
    only failures are a result array over [JS_BIGINT_MAX_SIZE] limbs and lack
    of memory. *)
Theorem bigint_ring_correct (mem : Z -> bool) (a b : JSBigInt) :
  bigint_ok a -> bigint_ok b ->
  computes mem (sval a + sval b) (too_big (len a `max` len b)) (js_bigint_add mem a b 0) /\
  computes mem (sval a - sval b) (too_big (len a `max` len b)) (js_bigint_add mem a b 1) /\
  computes mem (- sval a) (too_big (len a)) (js_bigint_neg mem a) /\
  computes mem (sval a * sval b) (too_big (len a + len b)) (js_bigint_mul mem a b).
Proof.
  intros Ha Hb. split_and!.
  - exact (js_bigint_add_spec mem a b 0 Ha Hb (or_introl eq_refl)).
  - exact (js_bigint_add_spec mem a b 1 Ha Hb (or_intror eq_refl)).
  - by apply js_bigint_neg_spec.
  - by apply js_bigint_mul_spec.
Qed.

(** Concrete operands: [2^64] needs a second limb, [-5] one. *)
Definition big_example : JSBigInt := [0; 1].
Definition neg_five : JSBigInt := [limb_ones - 4].

Lemma big_example_ok : bigint_ok big_example.
Proof. split; [repeat constructor; vm_compute; done|done|]. intros k [= <-]. reflexivity. Qed.

Lemma neg_five_ok : bigint_ok neg_five.
Proof. apply single_ok. split; vm_compute; done. Qed.

Lemma bigint_ring_correct_witness :
  computes (fun _ => true) (2 ^ 64 * -5) (too_big 3) (js_bigint_mul (fun _ => true) big_example neg_five).
Proof.
  change (2 ^ 64 * -5) with (sval big_example * sval neg_five).
  apply (bigint_ring_correct (fun _ => true) big_example neg_five big_example_ok neg_five_ok).
Defined.

(** Division: by zero it is a RangeError; otherwise the quotient is
    truncated towards zero and the remainder has the sign of the dividend,
    both exact and in normal form, whatever the number of limbs. *)
Theorem bigint_divrem_correct (mem : Z -> bool) (a b : JSBigInt) (is_rem : bool) :
  bigint_ok a -> bigint_ok b ->
  if sval b =? 0 then js_bigint_divrem mem a b is_rem = Throw RangeError
  else computes mem (if is_rem then Z.rem (sval a) (sval b) else Z.quot (sval a) (sval b))
         (too_big (len a + 2)) (js_bigint_divrem mem a b is_rem).
Proof.
  intros Ha Hb. destruct (Z.eqb_spec (sval b) 0) as [E|E].
  - apply sval_zero in E as ->; done.
  - by apply js_bigint_divrem_spec.
Qed.

Lemma bigint_divrem_correct_witness :
  computes (fun _ => true) (Z.rem (2 ^ 64) (-5)) (too_big 4)
    (js_bigint_divrem (fun _ => true) big_example neg_five true).
Proof.
  exact (bigint_divrem_correct (fun _ => true) big_example neg_five true big_example_ok neg_five_ok).
Defined.

(** [C23] The division of arrays always ends with an answer: the loop that
    adds the divisor back after a quotient digit was overestimated leaves
    after at most three additions in every round, and the digits and the rest
    satisfy the division equation. *)
Theorem divnorm_terminates (taba tabb : list Z) :
  Forall limb taba -> Forall limb tabb -> (0 < length tabb <= length taba)%nat ->
  2 ^ 63 <= limb_at tabb (length tabb - 1) ->
  exists q r, mp_divnorm taba tabb = Some (q, r) /\
    uval q = uval taba / uval tabb /\ uval (take (length tabb) r) = uval taba mod uval tabb.
Proof.
  intros Ha Hb Hl Ht. assert (Hne : tabb <> []) by (intros ->; simpl in Hl; lia).
  pose proof (limb_at_lt tabb (length tabb - 1) Hb ltac:(lia)) as Hlt.
  destruct (mp_divnorm_spec taba tabb) as (q & r & E & _ & Hr & _ & _ & Ev & Hlo); try done; [lia|by split; [|apply Hlt]|].
  exists q, r. split; [done|]. destruct (Forall_take_drop limb (length tabb) r Hr) as [Hrt _].
  pose proof (uval_bounds _ Hrt) as [Hr0 _].
  split; [apply (Z.div_unique_pos _ _ _ (uval (take (length tabb) r)))|apply (Z.mod_unique_pos _ _ (uval q))]; lia.
Qed.

(** A quotient digit that is overestimated. *)
Definition over_dividend : list Z := [3; 0; 2 ^ 63].
Definition over_divisor : list Z := [limb_ones; 2 ^ 63].

Lemma divnorm_terminates_witness : exists q r, mp_divnorm over_dividend over_divisor = Some (q, r) /\
  uval q = uval over_dividend / uval over_divisor /\
  uval (take 2 r) = uval over_dividend mod uval over_divisor.
Proof.
  apply (divnorm_terminates over_dividend over_divisor);
    [repeat constructor; vm_compute; done|repeat constructor; vm_compute; done|vm_compute; lia|vm_compute; done].
Defined.

(** The bitwise operations and shifts act on the infinite two's
    complement representation of the integers: [|], [&], [^] and [~] are
    those of [Z], a left shift multiplies by a power of two and a right shift
    rounds towards minus infinity, all results in normal form. *)
Theorem bigint_bitwise_correct (mem : Z -> bool) (a b : JSBigInt) (k : Z) :
  bigint_ok a -> bigint_ok b -> 0 <= k < 2 ^ 32 ->
  computes mem (Z.lor (sval a) (sval b)) (too_big (len a `max` len b)) (js_bigint_logic mem a b OP_or) /\
  computes mem (Z.land (sval a) (sval b)) (too_big (len a `max` len b)) (js_bigint_logic mem a b OP_and) /\
  computes mem (Z.lxor (sval a) (sval b)) (too_big (len a `max` len b)) (js_bigint_logic mem a b OP_xor) /\
  computes mem (- sval a - 1) (too_big (len a)) (js_bigint_not mem a) /\
  computes mem (sval a * 2 ^ k) (too_big (len a + k / JS_LIMB_BITS)) (js_bigint_shl mem a k) /\
  computes mem (sval a / 2 ^ k) (too_big (len a)) (js_bigint_shr mem a k).
Proof.
  intros Ha Hb [Hk _]. rewrite <- Z.shiftl_mul_pow2, <- Z.shiftr_div_pow2 by done. split_and!.
  - exact (js_bigint_logic_spec mem OP_or a b Ha Hb).
  - exact (js_bigint_logic_spec mem OP_and a b Ha Hb).
  - exact (js_bigint_logic_spec mem OP_xor a b Ha Hb).
  - exact (js_bigint_not_spec mem a Ha).
  - by apply js_bigint_shl_spec.
  - by apply js_bigint_shr_spec.
Qed.

Lemma bigint_bitwise_correct_witness :
  computes (fun _ => true) (-5 / 2 ^ 1) (too_big 1) (js_bigint_shr (fun _ => true) neg_five 1).
Proof.
  change (-5) with (sval neg_five).
  apply (bigint_bitwise_correct (fun _ => true) neg_five big_example 1 neg_five_ok big_example_ok). lia.
Defined.

(** Exponentiation: a negative exponent is a RangeError; otherwise the
    result is the exact power, and it is refused as too large only when the
    power has at least [2^20 - 66] bits or the base itself is over the size
    limit: square-and-multiply never overflows on an intermediate product
    when the result would fit. *)
Theorem bigint_pow_correct (mem : Z -> bool) (a b : JSBigInt) :
  bigint_ok a -> bigint_ok b ->
  if sval b <? 0 then js_bigint_pow mem a b = Throw RangeError
  else computes mem (sval a ^ sval b) (huge (sval a ^ sval b) \/ too_big (len a)) (js_bigint_pow mem a b).
Proof.
  intros Ha Hb. destruct (Z.ltb_spec (sval b) 0) as [Hn|Hn]; [|by apply js_bigint_pow_spec].
  unfold js_bigint_pow. rewrite (sval_sign b) by apply Hb.
  by destruct (Z.ltb_spec (sval b) 0); [|lia].
Qed.

Lemma bigint_pow_correct_witness :
  js_bigint_pow (fun _ => true) big_example neg_five = Throw RangeError /\
  computes (fun _ => true) ((-5) ^ 3) (huge ((-5) ^ 3) \/ too_big 1) (js_bigint_pow (fun _ => true) neg_five [3]).
Proof.
  split.
  - exact (bigint_pow_correct (fun _ => true) big_example neg_five big_example_ok neg_five_ok).
  - assert (H3 : bigint_ok [3]) by (apply single_ok; split; vm_compute; done).
    exact (bigint_pow_correct (fun _ => true) neg_five [3] neg_five_ok H3).
Defined.

(** Comparison orders BigInts as the integers they stand for, and 0
    means that the arrays are identical: every integer has one
    representation. *)
Theorem bigint_cmp_correct (a b : JSBigInt) :
  bigint_ok a -> bigint_ok b ->
  js_bigint_cmp a b = Z.sgn (sval a - sval b) /\ (js_bigint_cmp a b = 0 <-> a = b).
Proof.
  intros Ha Hb. rewrite js_bigint_cmp_spec by done. split; [done|]. split.
  - intros E. apply Z.sgn_null_iff in E. apply sval_inj; [done|done|lia].
  - intros ->. by rewrite Z.sub_diag.
Qed.

Lemma bigint_cmp_correct_witness : js_bigint_cmp neg_five big_example = Z.sgn (-5 - 2 ^ 64).
Proof.
  change (-5 - 2 ^ 64) with (sval neg_five - sval big_example).
  apply (bigint_cmp_correct neg_five big_example neg_five_ok big_example_ok).
Defined.
