(* ===== verification/Digits.v ===== *)
(** * Integers as text (src/dtoa.c)

    The conversions of machine integers to text in any radix from 2 to 36,
    digit by digit or two digits at a time, and the reference they are
    compared with: the digits of an integer, most significant first and
    without leading zeros. *)
From S2P Require Import Prelude Native.

(** ** Routines *)

(** The text [00 01 02 .. 99]. *)
Definition digits_pair : list Z :=
  bytes_of "00010203040506070809101112131415161718192021222324252627282930313233343536373839404142434445464748495051525354555657585960616263646566676869707172737475767778798081828384858687888990919293949596979899".

(** [digit + '0'], or [digit + 'a' - 10] from 10 on. *)
Definition digit_char (digit : Z) : Z :=
  if digit <? 10 then digit + chr "0" else digit + (chr "a" - 10).

(** The [len] low decimal digits of [n]: the loop runs down from the last
    position, so every round puts a digit in front. *)
Fixpoint u32toa_len (n : Z) (len : nat) (buf : list Z) : list Z :=
  match len with
  | O => buf
  | S len => u32toa_len (n / 10) len (n mod 10 + chr "0" :: buf)
  end.

Fixpoint u64toa_bin_len (n : Z) (radix_bits : Z) (len : nat) (buf : list Z) : list Z :=
  match len with
  | O => buf
  | S len =>
      let mask := Z.shiftl 1 radix_bits - 1 in
      u64toa_bin_len (Z.shiftr n radix_bits) radix_bits len (digit_char (Z.land n mask) :: buf)
  end.

Definition pair_at (r : Z) : Z := default 0 (digits_pair !! Z.to_nat r).

(** [*--q] puts a character in front of those written before.  [None] is a
    loop that does not end. *)
Fixpoint u32toa_loop (fuel : nat) (n : Z) (q : list Z) : option (list Z) :=
  match fuel with
  | O => None
  | S fuel =>
      if 100 <=? n then
        let r := n mod 100 * 2 in
        u32toa_loop fuel (n / 100) (pair_at r :: pair_at (r + 1) :: q)
      else if 10 <=? n then
        let r := n * 2 in Some (pair_at r :: pair_at (r + 1) :: q)
      else Some (n + chr "0" :: q)
  end.
Definition u32toa (n : Z) : option (list Z) := u32toa_loop 5 n [].

Definition u64toa (n : Z) : option (list Z) :=
  if n <? 4294967296 then u32toa n
  else
    let n1 := n / 1000000000 in
    let n := n mod 1000000000 in
    if 4294967296 <=? n1 then
      let n2 := n1 / 1000000000 in
      let n1 := n1 mod 1000000000 in
      let q := if 10 <=? n2 then [n2 / 10 + chr "0"; n2 mod 10 + chr "0"] else [n2 + chr "0"] in
      Some (q ++ u32toa_len n1 9 [] ++ u32toa_len n 9 [])
    else
      q ← u32toa n1;
      Some (q ++ u32toa_len n 9 []).

(** [clz64] of a nonzero word, [clz32] likewise. *)
Definition clz (w n : Z) : Z := w - 1 - Z.log2 n.

Fixpoint radix_loop (fuel : nat) (n radix : Z) (q : list Z) : option (list Z) :=
  match fuel with
  | O => None
  | S fuel =>
      let q := digit_char (n mod radix) :: q in
      let n := n / radix in
      if n =? 0 then Some q else radix_loop fuel n radix q
  end.

Definition u64toa_radix (n radix : Z) : option (list Z) :=
  if radix =? 10 then u64toa n
  else if Z.land radix (radix - 1) =? 0 then
    let radix_bits := 31 - clz 32 radix in
    let l := if n =? 0 then 1 else (64 - clz 64 n + radix_bits - 1) / radix_bits in
    Some (u64toa_bin_len n radix_bits (Z.to_nat l) [])
  else radix_loop 64 n radix [].

Definition i64toa_radix (n radix : Z) : option (list Z) :=
  if 0 <=? n then u64toa_radix n radix
  else
    s ← u64toa_radix (u64 (- n)) radix;
    Some (chr "-" :: s).

(** [i32toa], [i64toa]: base ten. *)
Definition i32toa (n : Z) : option (list Z) :=
  if 0 <=? n then u32toa n else s ← u32toa (u32 (- n)); Some (chr "-" :: s).
Definition i64toa (n : Z) : option (list Z) :=
  if 0 <=? n then u64toa n else s ← u64toa (u64 (- n)); Some (chr "-" :: s).

(** ** The digits of an integer *)

(** The value of digits, most significant first. *)
Definition dval (r : Z) (ds : list Z) : Z := fold_left (fun v d => v * r + d) ds 0.

Definition digits_in (r : Z) (ds : list Z) : Prop := Forall (fun d => 0 <= d < r) ds.

Record canonical (r n : Z) (ds : list Z) : Prop := {
  ca_digits : digits_in r ds;
  ca_value : dval r ds = n;
  ca_first : ds = [0] \/ exists d l, ds = d :: l /\ 0 < d;
}.

(** The last [k] digits of [n]. *)
Fixpoint fixed_digits (r : Z) (k : nat) (n : Z) : list Z :=
  match k with O => [] | S k => fixed_digits r k (n / r) ++ [n mod r] end.

(** All of them. *)
Fixpoint digits_loop (fuel : nat) (r n : Z) : list Z :=
  match fuel with
  | O => []
  | S fuel => if n <? r then [n] else digits_loop fuel r (n / r) ++ [n mod r]
  end.
Definition digits_of (r n : Z) : list Z := digits_loop (S (Z.to_nat (Z.log2 n))) r n.

(** The text of an integer. *)
Definition print_int (r n : Z) : list Z :=
  (if n <? 0 then [chr "-"] else []) ++ (digit_char <$> digits_of r (Z.abs n)).

Lemma dval_snoc r ds d : dval r (ds ++ [d]) = dval r ds * r + d.
Proof. unfold dval. by rewrite fold_left_app. Qed.

Lemma dval_app r a b : dval r (a ++ b) = dval r a * r ^ Z.of_nat (length b) + dval r b.
Proof.
  induction b as [|d b IH] using rev_ind; [rewrite app_nil_r; simpl; unfold dval at 3; simpl; lia|].
  rewrite app_assoc, !dval_snoc, IH, length_app. cbn [length].
  replace (Z.of_nat (length b + 1)) with (Z.succ (Z.of_nat (length b))) by lia.
  rewrite Z.pow_succ_r by lia. ring.
Qed.

Lemma dval_cons r d l : dval r (d :: l) = d * r ^ Z.of_nat (length l) + dval r l.
Proof. apply (dval_app r [d] l). Qed.

Section radix.
Context (r : Z) (Hr : 2 <= r).

Lemma pow_radix_pos k : 0 < r ^ Z.of_nat k.
Proof. apply Z.pow_pos_nonneg; lia. Qed.

Lemma dval_bounds ds : digits_in r ds -> 0 <= dval r ds < r ^ Z.of_nat (length ds).
Proof.
  induction ds as [|d ds IH] using rev_ind; intros H.
  - unfold dval. simpl. lia.
  - apply Forall_app in H as [H Hd]. inv_subst Hd. specialize (IH H).
    rewrite dval_snoc, length_app. cbn [length].
    replace (Z.of_nat (length ds + 1)) with (Z.succ (Z.of_nat (length ds))) by lia.
    rewrite Z.pow_succ_r by lia. nia.
Qed.

Lemma dval_inj a : forall b, digits_in r a -> digits_in r b -> length a = length b -> dval r a = dval r b -> a = b.
Proof.
  induction a as [|x a IH] using rev_ind; intros b Ha Hb Hl E.
  - by destruct b.
  - destruct b as [|y b _] using rev_ind; [rewrite length_app in Hl; simpl in Hl; lia|].
    apply Forall_app in Ha as [Ha Hx]. apply Forall_app in Hb as [Hb Hy]. inv_subst Hx. inv_subst Hy.
    rewrite !dval_snoc in E. rewrite !length_app in Hl. simpl in Hl.
    assert (E' : dval r a = dval r b) by nia. rewrite E' in E. f_equal; [apply IH; [done..|lia|done]|]. f_equal. lia.
Qed.

Lemma canonical_unique n a b : canonical r n a -> canonical r n b -> a = b.
Proof.
  assert (Hlen : forall a b, canonical r n a -> canonical r n b -> (length a <= length b)%nat).
  { clear a b. intros a b [Ha Ea Fa] [Hb Eb Fb]. pose proof (dval_bounds b Hb) as B.
    destruct Fa as [->|(d & l & -> & Hd)].
    - destruct Fb as [->|(? & ? & -> & _)]; simpl; lia.
    - rewrite dval_cons in Ea. inv_subst Ha. assert (H0 : 0 <= dval r l) by (by apply dval_bounds).
      destruct (Nat.le_gt_cases (length (d :: l)) (length b)) as [|Hgt]; [done|exfalso]. cbn [length] in Hgt.
      pose proof (pow_radix_pos (length l)).
      assert (r ^ Z.of_nat (length b) <= r ^ Z.of_nat (length l)) by (apply Z.pow_le_mono_r; lia). nia. }
  intros Ha Hb. apply dval_inj; [apply Ha|apply Hb| |].
  - pose proof (Hlen a b Ha Hb). pose proof (Hlen b a Hb Ha). lia.
  - destruct Ha, Hb. congruence.
Qed.

Lemma canonical_small n : 0 <= n < r -> canonical r n [n].
Proof.
  intros Hn. split; [by constructor| by unfold dval; simpl|].
  destruct (decide (n = 0)) as [->|]; [by left|right]. exists n, []. split; [done|lia].
Qed.

(** One more digit after the digits of a positive number. *)
Lemma canonical_app n m ds es : 0 < n -> canonical r n ds -> digits_in r es -> dval r es = m ->
  canonical r (n * r ^ Z.of_nat (length es) + m) (ds ++ es).
Proof.
  intros Hn [Hd Ev Hf] Hes Em. split; [by apply Forall_app|by rewrite dval_app, Ev, Em|].
  right. destruct Hf as [->|(d & l & -> & Hpos)].
  - exfalso. unfold dval in Ev. simpl in Ev. lia.
  - by exists d, (l ++ es).
Qed.

Lemma canonical_snoc n ds : r <= n -> canonical r (n / r) ds -> canonical r n (ds ++ [n mod r]).
Proof.
  intros Hn Hc. assert (0 < n / r) by (apply Z.div_str_pos; lia). pose proof (Z.mod_pos_bound n r ltac:(lia)).
  pose proof (canonical_app (n / r) (n mod r) ds [n mod r] ltac:(done) Hc ltac:(by constructor) eq_refl) as H1.
  cbn [length] in H1. rewrite Z.pow_1_r in H1. by replace (n / r * r + n mod r) with n in H1 by (rewrite Z.mul_comm; apply Z.div_mod; lia).
Qed.

Lemma digits_loop_canonical fuel : forall n, 0 <= n < 2 ^ Z.of_nat fuel -> (0 < fuel)%nat -> canonical r n (digits_loop fuel r n).
Proof.
  induction fuel as [|fuel IH]; intros n Hn Hf; [lia|]. cbn [digits_loop].
  destruct (Z.ltb_spec n r); [apply canonical_small; lia|]. apply canonical_snoc; [done|].
  rewrite Nat2Z.inj_succ, Z.pow_succ_r in Hn by lia.
  assert (n / r < 2 ^ Z.of_nat fuel) by (apply Z.div_lt_upper_bound; nia).
  apply IH; [split; [apply Z.div_pos; lia|done]|]. destruct fuel; [|lia]. simpl in *. lia.
Qed.

Lemma digits_of_canonical n : 0 <= n -> canonical r n (digits_of r n).
Proof.
  intros Hn. apply digits_loop_canonical; [|lia]. split; [done|]. pose proof (Z.log2_nonneg n).
  rewrite Nat2Z.inj_succ, Z2Nat.id by done. destruct (decide (n = 0)) as [->|]; [done|]. apply Z.log2_spec. lia.
Qed.

Lemma digits_unique n ds : 0 <= n -> canonical r n ds -> ds = digits_of r n.
Proof. intros Hn Hc. eapply canonical_unique; [exact Hc|]. by apply digits_of_canonical. Qed.

Lemma fixed_digits_spec k : forall n, 0 <= n ->
  digits_in r (fixed_digits r k n) /\ length (fixed_digits r k n) = k /\ dval r (fixed_digits r k n) = n mod r ^ Z.of_nat k.
Proof.
  induction k as [|k IH]; intros n Hn; cbn [fixed_digits].
  - split_and!; [constructor|done|]. rewrite Z.pow_0_r, Z.mod_1_r. done.
  - destruct (IH (n / r)) as (H1 & H2 & H3); [apply Z.div_pos; lia|].
    pose proof (Z.mod_pos_bound n r ltac:(lia)). split_and!.
    + apply Forall_app. split; [done|by constructor].
    + rewrite length_app, H2. simpl. lia.
    + rewrite dval_snoc, H3, Nat2Z.inj_succ, Z.pow_succ_r, Z.rem_mul_r by (pose proof (pow_radix_pos k); lia). lia.
Qed.

(** Digits of the quotient and of the rest by a power of the radix. *)
Lemma canonical_split k n ds : 0 < n / r ^ Z.of_nat k -> 0 <= n -> canonical r (n / r ^ Z.of_nat k) ds ->
  canonical r n (ds ++ fixed_digits r k n).
Proof.
  intros Hq Hn Hc. destruct (fixed_digits_spec k n Hn) as (H1 & H2 & H3).
  pose proof (canonical_app _ _ _ _ Hq Hc H1 H3) as H. rewrite H2 in H.
  replace (n / r ^ Z.of_nat k * r ^ Z.of_nat k + n mod r ^ Z.of_nat k) with n in H; [done|].
  pose proof (pow_radix_pos k). rewrite Z.mul_comm. apply Z.div_mod. lia.
Qed.

Lemma fixed_digits_mod k n : 0 <= n -> fixed_digits r k (n mod r ^ Z.of_nat k) = fixed_digits r k n.
Proof.
  intros Hn. pose proof (pow_radix_pos k). pose proof (Z.mod_pos_bound n (r ^ Z.of_nat k) ltac:(lia)).
  destruct (fixed_digits_spec k n Hn) as (H1 & H2 & H3).
  destruct (fixed_digits_spec k (n mod r ^ Z.of_nat k)) as (H4 & H5 & H6); [lia|].
  apply dval_inj; [done|done|congruence|]. rewrite H3, H6. by apply Zmod_mod.
Qed.
End radix.

(** ** The routines print the digits *)

Lemma digit_char_10 n : n < 10 -> digit_char n = n + chr "0".
Proof. intros H. unfold digit_char. by destruct (Z.ltb_spec n 10); [|lia]. Qed.

Lemma u32toa_len_spec len : forall n buf, 0 <= n ->
  u32toa_len n len buf = (digit_char <$> fixed_digits 10 len n) ++ buf.
Proof.
  induction len as [|len IH]; intros n buf Hn; [done|]. cbn [u32toa_len fixed_digits].
  rewrite IH by (apply Z.div_pos; lia). rewrite <- digit_char_10 by (apply Z.mod_pos_bound; lia).
  by rewrite fmap_app, <- app_assoc.
Qed.

Lemma u64toa_bin_len_spec bits len : forall n buf, 0 <= n -> 0 < bits ->
  u64toa_bin_len n bits len buf = (digit_char <$> fixed_digits (2 ^ bits) len n) ++ buf.
Proof.
  induction len as [|len IH]; intros n buf Hn Hb; [done|]. cbn [u64toa_bin_len fixed_digits].
  rewrite Z.shiftr_div_pow2, IH by (try apply Z.div_pos; try apply Z.pow_pos_nonneg; lia).
  rewrite Z.shiftl_1_l, land_pow2_pred by lia. by rewrite fmap_app, <- app_assoc.
Qed.

(** The table of pairs of digits. *)
Lemma pair_at_spec n : 0 <= n < 100 ->
  pair_at (n * 2) = digit_char (n / 10) /\ pair_at (n * 2 + 1) = digit_char (n mod 10).
Proof.
  intros Hn. pose proof (below_forallb 100 (fun n => (pair_at (n * 2) =? digit_char (n / 10)) &&
    (pair_at (n * 2 + 1) =? digit_char (n mod 10))) ltac:(vm_compute; reflexivity) n Hn) as H.
  cbv beta in H. apply andb_true_iff in H as [H1 H2]. by rewrite Z.eqb_eq in H1, H2.
Qed.

Lemma u32toa_loop_spec fuel : forall n q, 0 <= n < 100 ^ Z.of_nat fuel -> (0 < fuel)%nat ->
  u32toa_loop fuel n q = Some ((digit_char <$> digits_of 10 n) ++ q).
Proof.
  induction fuel as [|fuel IH]; intros n q Hn Hf; [lia|]. cbn [u32toa_loop].
  destruct (Z.leb_spec 100 n) as [H100|H100].
  - rewrite Nat2Z.inj_succ, Z.pow_succ_r in Hn by lia.
    assert (Hd : 0 <= n / 100 < 100 ^ Z.of_nat fuel) by (split; [apply Z.div_pos; lia|apply Z.div_lt_upper_bound; lia]).
    assert (0 < n / 100) by (apply Z.div_str_pos; lia).
    assert (0 < fuel)%nat by (destruct fuel; [simpl in *; lia|lia]).
    pose proof (Z.mod_pos_bound n 100 ltac:(lia)) as Hm. destruct (pair_at_spec (n mod 100) Hm) as [-> ->].
    rewrite IH by done. f_equal.
    rewrite <- (digits_unique 10 ltac:(lia) n (digits_of 10 (n / 100) ++ fixed_digits 10 2 n)); [|lia|].
    + rewrite fmap_app, <- app_assoc. do 2 f_equal. cbn [fixed_digits app].
      replace (n mod 100 / 10) with (n / 10 mod 10) by div_lia.
      by replace ((n mod 100) mod 10) with (n mod 10) by div_lia.
    + apply (canonical_split 10 ltac:(lia) 2); [done|lia|]. apply digits_of_canonical; lia.
  - destruct (Z.leb_spec 10 n) as [H10|H10].
    + destruct (pair_at_spec n ltac:(lia)) as [-> ->].
      rewrite <- (digits_unique 10 ltac:(lia) n [n / 10; n mod 10]); [done|lia|].
      apply (canonical_snoc 10 ltac:(lia) n [n / 10]); [done|]. apply canonical_small.
      split; [apply Z.div_pos; lia|apply Z.div_lt_upper_bound; lia].
    + rewrite <- digit_char_10 by lia. rewrite <- (digits_unique 10 ltac:(lia) n [n]); [done|lia|].
      apply canonical_small; lia.
Qed.

Lemma u32toa_spec n : 0 <= n < 2 ^ 32 -> u32toa n = Some (digit_char <$> digits_of 10 n).
Proof. intros Hn. unfold u32toa. rewrite u32toa_loop_spec, app_nil_r; [done| |lia]. simpl. lia. Qed.

(** A high part printed in full and nine digits after it. *)
Lemma nine_digits n s : 0 < n / 1000000000 -> 0 <= n -> s = digit_char <$> digits_of 10 (n / 1000000000) ->
  s ++ u32toa_len (n mod 1000000000) 9 [] = digit_char <$> digits_of 10 n.
Proof.
  intros Hq Hn ->. rewrite u32toa_len_spec, app_nil_r by (apply Z.mod_pos_bound; lia).
  change 1000000000 with (10 ^ Z.of_nat 9) in *. rewrite fixed_digits_mod, <- fmap_app by lia. f_equal.
  apply digits_unique; [lia|lia|]. apply canonical_split; [lia|done|done|]. apply digits_of_canonical; lia.
Qed.

Lemma u64toa_spec n : 0 <= n < 2 ^ 64 -> u64toa n = Some (digit_char <$> digits_of 10 n).
Proof.
  intros Hn. unfold u64toa. destruct (Z.ltb_spec n 4294967296) as [Hs|Hb]; [apply u32toa_spec; lia|].
  cbv zeta. set (n1 := n / 1000000000).
  assert (Hn1 : 0 < n1) by (apply Z.div_str_pos; lia).
  assert (Hn1' : n1 < 18446744074) by (apply Z.div_lt_upper_bound; lia).
  destruct (Z.leb_spec 4294967296 n1) as [H1|H1].
  - set (n2 := n1 / 1000000000). assert (0 < n2) by (apply Z.div_str_pos; lia).
    assert (n2 < 100) by (apply Z.div_lt_upper_bound; lia).
    f_equal. rewrite app_assoc. apply nine_digits; [done|lia|]. fold n1. apply nine_digits; [done|lia|]. fold n2.
    destruct (Z.leb_spec 10 n2).
    + assert (0 <= n2 / 10 < 10) by (split; [apply Z.div_pos; lia|apply Z.div_lt_upper_bound; lia]).
      pose proof (Z.mod_pos_bound n2 10 ltac:(lia)).
      rewrite <- (digits_unique 10 ltac:(lia) n2 [n2 / 10; n2 mod 10]); [cbn; by rewrite !digit_char_10 by lia|lia|].
      apply (canonical_snoc 10 ltac:(lia) n2 [n2 / 10]); [done|]. apply canonical_small; lia.
    + rewrite <- (digits_unique 10 ltac:(lia) n2 [n2]); [cbn; by rewrite !digit_char_10 by lia|lia|].
      apply canonical_small; lia.
  - rewrite u32toa_spec by lia. simpl. f_equal. by apply nine_digits; [|lia|].
Qed.

Lemma radix_loop_spec r fuel : 2 <= r -> forall n q, 0 <= n < 2 ^ Z.of_nat fuel -> (0 < fuel)%nat ->
  radix_loop fuel n r q = Some ((digit_char <$> digits_of r n) ++ q).
Proof.
  intros Hr. induction fuel as [|fuel IH]; intros n q Hn Hf; [lia|]. cbn [radix_loop].
  pose proof (Z.mod_pos_bound n r ltac:(lia)) as Hm. destruct (Z.eqb_spec (n / r) 0) as [E|E].
  - apply Z.div_small_iff in E; [|lia]. rewrite Z.mod_small by lia.
    rewrite <- (digits_unique r Hr n [n]); [done|lia|]. apply canonical_small; lia.
  - rewrite Nat2Z.inj_succ, Z.pow_succ_r in Hn by lia.
    assert (r <= n) by (destruct (Z.le_gt_cases r n); [done|]; exfalso; apply E; apply Z.div_small; lia).
    assert (0 < n / r) by (apply Z.div_str_pos; lia).
    assert (n / r < 2 ^ Z.of_nat fuel) by (apply Z.div_lt_upper_bound; nia).
    rewrite IH; [|lia|destruct fuel; [simpl in *; lia|lia]]. f_equal.
    rewrite <- (digits_unique r Hr n (digits_of r (n / r) ++ [n mod r])); [by rewrite fmap_app, <- app_assoc|lia|].
    apply canonical_snoc; [done|done|]. apply digits_of_canonical; lia.
Qed.

Lemma fixed_digits_cons r k : 2 <= r -> forall n, 0 <= n ->
  fixed_digits r (S k) n = (n / r ^ Z.of_nat k) mod r :: fixed_digits r k n.
Proof.
  intros Hr. induction k as [|k IH]; intros n Hn.
  - cbn. by rewrite Z.div_1_r.
  - change (fixed_digits r (S (S k)) n) with (fixed_digits r (S k) (n / r) ++ [n mod r]).
    rewrite IH by (apply Z.div_pos; lia). pose proof (pow_radix_pos r Hr k).
    rewrite Z.div_div, Nat2Z.inj_succ, Z.pow_succ_r by lia. done.
Qed.

(** As many digits as the size of the number needs. *)
Lemma fixed_canonical r k n : 2 <= r -> r ^ Z.of_nat k <= n < r ^ Z.of_nat (S k) ->
  fixed_digits r (S k) n = digits_of r n.
Proof.
  intros Hr Hn. pose proof (pow_radix_pos r Hr k) as Hp. apply digits_unique; [done|lia|].
  destruct (fixed_digits_spec r Hr (S k) n ltac:(lia)) as (H1 & _ & H3).
  split; [done|rewrite H3; apply Z.mod_small; lia|]. right. rewrite fixed_digits_cons by lia.
  eexists _, _. split; [done|]. rewrite Nat2Z.inj_succ, Z.pow_succ_r in Hn by lia.
  assert (0 < n / r ^ Z.of_nat k) by (apply Z.div_str_pos; lia).
  rewrite Z.mod_small; [done|]. split; [lia|]. apply Z.div_lt_upper_bound; lia.
Qed.

(** The number of digits in radix [2^bits]. *)
Lemma bit_digits bits n : 0 < bits -> 0 < n ->
  let k := Z.log2 n / bits in
  0 <= k /\ (2 ^ bits) ^ k <= n < (2 ^ bits) ^ Z.succ k.
Proof.
  intros Hb Hn. cbv zeta. pose proof (Z.log2_nonneg n). pose proof (Z.log2_spec n Hn) as [H1 H2].
  assert (Hk : 0 <= Z.log2 n / bits) by (apply Z.div_pos; lia). split; [done|].
  rewrite <- !Z.pow_mul_r by lia. pose proof (Z_div_mod_eq_full (Z.log2 n) bits) as E.
  pose proof (Z.mod_pos_bound (Z.log2 n) bits Hb). split.
  - transitivity (2 ^ Z.log2 n); [|done]. apply Z.pow_le_mono_r; lia.
  - eapply Z.lt_le_trans; [exact H2|]. apply Z.pow_le_mono_r; lia.
Qed.

Lemma u64toa_radix_spec n radix : 0 <= n < 2 ^ 64 -> 2 <= radix <= 36 ->
  u64toa_radix n radix = Some (digit_char <$> digits_of radix n).
Proof.
  intros Hn Hr. unfold u64toa_radix. destruct (Z.eqb_spec radix 10) as [->|_]; [by apply u64toa_spec|].
  destruct (Z.eqb_spec (Z.land radix (radix - 1)) 0) as [E|E].
  - apply power_of_two in E; [|lia]. unfold clz. set (bits := Z.log2 radix) in *.
    assert (Hb : 0 < bits) by (apply Z.log2_pos; lia).
    replace (31 - (32 - 1 - bits)) with bits by lia. rewrite E.
    rewrite u64toa_bin_len_spec, app_nil_r by lia. do 2 f_equal.
    destruct (Z.eqb_spec n 0) as [->|H0].
    { change (Z.to_nat 1) with 1%nat. cbn [fixed_digits app]. rewrite Zmod_0_l.
      apply digits_unique; [lia|lia|]. apply canonical_small. lia. }
    destruct (bit_digits bits n Hb ltac:(lia)) as [Hk Hd].
    replace ((64 - (64 - 1 - Z.log2 n) + bits - 1) / bits) with (Z.succ (Z.log2 n / bits))
      by (replace (64 - (64 - 1 - Z.log2 n) + bits - 1) with (Z.log2 n + 1 * bits) by lia; rewrite Z.div_add by lia; lia).
    rewrite Z2Nat.inj_succ by done. apply fixed_canonical; [rewrite <- E; lia|].
    by rewrite Nat2Z.inj_succ, Z2Nat.id by done.
  - rewrite radix_loop_spec, app_nil_r; [done|lia|done|lia].
Qed.

Lemma digits_of_length radix n b : 2 <= radix -> 0 <= n < 2 ^ b -> 0 < b -> Z.of_nat (length (digits_of radix n)) <= b.
Proof.
  intros Hr Hn Hb. pose proof (digits_of_canonical radix Hr n ltac:(lia)) as [Hd Ev Hf].
  destruct Hf as [->|(d & l & E & Hpos)]; [simpl; lia|]. rewrite E in *. inv_subst Hd.
  rewrite dval_cons in Hn. assert (0 <= dval radix l) by (apply dval_bounds; [lia|done]).
  cbn [length]. destruct (Z.le_gt_cases (Z.of_nat (S (length l))) b) as [|Hgt]; [done|exfalso].
  assert (radix ^ b <= radix ^ Z.of_nat (length l)) by (apply Z.pow_le_mono_r; lia).
  assert (2 ^ b <= radix ^ b) by (apply Z.pow_le_mono_l; lia). pose proof (pow2_pos b). nia.
Qed.

(** Printing integers.  Every 64-bit integer is printed in every radix
    from 2 to 36 as its digits without leading zeros, after a minus sign if it
    is negative: the fast paths (two digits per step, groups of nine digits,
    shifts for the powers of two) agree with the definition, and the text fits
    the 66 bytes its caller reserves. *)
Theorem i64toa_radix_prints (n radix : Z) :
  - 2 ^ 63 <= n < 2 ^ 63 -> 2 <= radix <= 36 ->
  i64toa_radix n radix = Some (print_int radix n) /\ (length (print_int radix n) <= 66)%nat /\
  i64toa n = Some (print_int 10 n) /\ (- 2 ^ 31 <= n < 2 ^ 31 -> i32toa n = Some (print_int 10 n)).
Proof.
  intros Hn Hr. unfold i64toa_radix, i64toa, i32toa, print_int.
  assert (Hl : Z.of_nat (length (digits_of radix (Z.abs n))) <= 64) by (apply digits_of_length; lia).
  destruct (Z.leb_spec 0 n), (Z.ltb_spec n 0); try lia.
  - rewrite Z.abs_eq in * by lia. rewrite u64toa_radix_spec, u64toa_spec by lia. split_and!; [done| |done|].
    + rewrite length_app, length_fmap. simpl. lia.
    + intros H32. by rewrite u32toa_spec by lia.
  - rewrite Z.abs_neq in * by lia. assert (u64 (- n) = - n) as -> by (apply Z.mod_small; lia).
    rewrite u64toa_radix_spec, u64toa_spec by lia. split_and!; [done| |done|].
    + rewrite length_app, length_fmap. simpl. lia.
    + intros H32. assert (u32 (- n) = - n) as -> by (apply Z.mod_small; lia). by rewrite u32toa_spec by lia.
Qed.

Lemma i64toa_radix_prints_witness :
  i64toa_radix (-255) 16 = Some (print_int 16 (-255)) /\ print_int 16 (-255) = bytes_of "-ff".
Proof. split; [apply (i64toa_radix_prints (-255) 16); lia|reflexivity]. Defined.
