(* ===== verification/BigIntConv.v ===== *)
(** * Conversions of BigInts (src/object/property_set_convert.inc.c)

    BigInts from and to machine integers, doubles and text.  A double is its
    64-bit pattern ([float64_as_uint64], [uint64_as_float64]); a C string is
    the list of its bytes, and reading its terminator gives 0. *)
From S2P Require Import Prelude Native BigInt Digits.

(** ** Machine integers *)

(** A BigInt in a buffer on the stack. *)
Definition js_bigint_set_si (a : Z) : JSBigInt := [u64 a].
Definition js_bigint_set_si64 (a : Z) : JSBigInt := js_bigint_set_si a.

Definition JS_SHORT_BIG_INT_MIN : Z := - 2 ^ 63.
Definition JS_SHORT_BIG_INT_MAX : Z := 2 ^ 63 - 1.

Definition js_bigint_get_si_sat (a : JSBigInt) : Z :=
  match a with
  | [v] => sint 64 v
  | _ => if js_bigint_sign a =? 0 then 2 ^ 63 - 1 else - 2 ^ 63
  end.

(** ** Doubles *)

(** The limbs of [abs(a)] and the carry out; [mask] is [-sgn]. *)
Fixpoint abs_limbs (tab : list Z) (mask carry : Z) : list Z * Z :=
  match tab with
  | [] => ([], carry)
  | x :: tab =>
      let v := u64 (Z.lxor x mask + carry) in
      let '(vs, carry) := abs_limbs tab mask (Z.b2z (v <? carry)) in (v :: vs, carry)
  end.

(** [t[0]] and [t[1]], the two high limbs of [abs(a)]: with one limb only,
    [t[0]] is 0. *)
Definition high_limbs (hi : list Z) : Z * Z :=
  match hi with [t0; t1] => (t0, t1) | [t1] => (0, t1) | _ => (0, 0) end.

Definition js_bigint_get_mant_exp (a : JSBigInt) : Z * Z :=
  let n1 := (length a - 2)%nat in
  let sgn := js_bigint_sign a in
  let mask := u64 (- sgn) in
  let '(low, carry) := abs_limbs (take n1 a) mask sgn in
  let low_bits := fold_left Z.lor low 0 in
  let '(a0, a1) := high_limbs (fst (abs_limbs (drop n1 a) mask carry)) in
  let a0 := Z.lor a0 (Z.b2z (negb (low_bits =? 0))) in
  let '(a1, a0, shift) :=
    if a1 =? 0 then (a0, 0, 64)
    else
      let shift := clz 64 a1 in
      if shift =? 0 then (a1, a0, shift)
      else (Z.lor (u64 (Z.shiftl a1 shift)) (Z.shiftr a0 (64 - shift)), u64 (Z.shiftl a0 shift), shift) in
  (Z.lor a1 (Z.b2z (negb (a0 =? 0))), len a * JS_LIMB_BITS - shift - 1).

Definition shr_rndn (a n : Z) : Z :=
  let addend := Z.land (Z.shiftr a n) 1 + (Z.shiftl 1 (n - 1) - 1) in
  Z.shiftr (u64 (a + addend)) n.

(** The 53-bit significand and the exponent of a positive integer, rounded to
    nearest, ties to even. *)
Definition round53 (m : Z) : Z * Z :=
  let e := Z.log2 m in
  if e <=? 52 then (m * 2 ^ (52 - e), e)
  else
    let d := 2 ^ (e - 52) in
    let q := m / d in
    let r := m mod d in
    let q := if (d <? 2 * r) || ((d =? 2 * r) && Z.odd q) then q + 1 else q in
    if q =? 2 ^ 53 then (2 ^ 52, e + 1) else (q, e).

(** The pattern with a sign, an unbiased exponent and a significand. *)
Definition pack (sgn e mant : Z) : Z :=
  Z.lor (Z.lor (u64 (Z.shiftl sgn 63)) (u64 (Z.shiftl (e + 1023) 52))) (Z.land mant (Z.shiftl 1 52 - 1)).

(** [(double)n] for an [int64_t]: round to nearest, ties to even. *)
Definition int64_to_double (n : Z) : Z :=
  if n =? 0 then 0
  else let '(mant, e) := round53 (Z.abs n) in pack (if n <? 0 then 1 else 0) e mant.

Definition js_bigint_to_float64 (a : JSBigInt) : Z :=
  match a with
  | [v] => int64_to_double (sint 64 v)
  | _ =>
      let sgn := js_bigint_sign a in
      let '(mant, e) := js_bigint_get_mant_exp a in
      let '(mant, e) :=
        if 1023 <? e then (0, 1024)
        else
          let mant := Z.lor (Z.shiftr mant 1) (Z.land mant 1) in
          let mant := shr_rndn mant 10 in
          let '(mant, e) := if Z.shiftl 1 53 <=? mant then (Z.shiftr mant 1, e + 1) else (mant, e) in
          (Z.land mant (Z.shiftl 1 52 - 1), e) in
      Z.lor (Z.lor (u64 (Z.shiftl sgn 63)) (u64 (Z.shiftl (e + 1023) 52))) mant
  end.

(** The result of [js_bigint_from_float64], by [*pres]. *)
Inductive from_float64 : Type :=
| FF_bigint (r : outcome JSBigInt)
| FF_not_integer
| FF_not_finite.

(** The fields of a double. *)
Definition f_sign (d : Z) : Z := Z.shiftr d 63.
Definition f_exp (d : Z) : Z := Z.land (Z.shiftr d 52) (Z.shiftl 1 11 - 1).
Definition f_mant (d : Z) : Z := Z.land d (Z.shiftl 1 52 - 1).

(** The value of a finite double, in units of [2^-1074], the smallest
    positive one. *)
Definition double_val (d : Z) : Z :=
  let x := if f_exp d =? 0 then f_mant d else (f_mant d + 2 ^ 52) * 2 ^ (f_exp d - 1) in
  if f_sign d =? 0 then x else - x.

Section conv.
Context (mem : Z -> bool).

Definition js_bigint_new_si64 (a : Z) : outcome JSBigInt := js_bigint_new_si mem a.

Definition js_bigint_new_ui64 (a : Z) : outcome JSBigInt :=
  if a <=? 2 ^ 63 - 1 then js_bigint_new_si64 a
  else let* _ := js_bigint_new mem ((65 + JS_LIMB_BITS - 1) / JS_LIMB_BITS) in Ret [a; 0].

(** From a signed 128-bit integer. *)
Definition js_bigint_new_di (a : Z) : outcome JSBigInt :=
  if a =? sint 64 a then let* _ := js_bigint_new mem 1 in Ret [u64 a]
  else let* _ := js_bigint_new mem 2 in Ret [u64 a; u64 (Z.shiftr a 64)].

Definition js_bigint_from_float64 (a : Z) : from_float64 :=
  let sgn := f_sign a in
  let e := f_exp a in
  let mant := f_mant a in
  if e =? 2047 then FF_not_finite
  else if (e =? 0) && (mant =? 0) then FF_bigint (js_bigint_new_si mem 0)
  else
    let e := e - 1023 in
    if e <? 0 then FF_not_integer
    else
      let mant := Z.lor mant (Z.shiftl 1 52) in
      let finish mant e :=
        let mant := if sgn =? 0 then mant else u64 (- mant) in
        FF_bigint (js_bigint_shl mem (js_bigint_set_si64 mant) e) in
      if e <? 52 then
        let shift := 52 - e in
        if Z.land mant (Z.shiftl 1 shift - 1) =? 0 then finish (Z.shiftr mant shift) 0
        else FF_not_integer
      else finish mant (e - 52).
End conv.

(** -1, 0, 1, or 2 when unordered. *)
Definition js_bigint_float64_cmp (a : JSBigInt) (b : Z) : Z :=
  let b_sign := f_sign b in
  let e := f_exp b in
  let mant := f_mant b in
  let a_sign := js_bigint_sign a in
  let a_zero := match a with [0] => true | _ => false end in
  if e =? 2047 then
    if negb (mant =? 0) then 2 else 2 * b_sign - 1
  else if (e =? 0) && (mant =? 0) then
    if a_zero then 0 else 1 - 2 * a_sign
  else if a_zero then 2 * b_sign - 1
  else if negb (a_sign =? b_sign) then 1 - 2 * a_sign
  else
    let e := e - 1023 in
    let '(a_mant, f) := js_bigint_get_mant_exp a in
    if negb (f =? e) then
      if f <? e then -1 else 1
    else
      let mant := Z.shiftl (Z.lor mant (Z.shiftl 1 52)) 11 in
      if a_mant <? mant then 2 * a_sign - 1
      else if mant <? a_mant then 1 - 2 * a_sign
      else 0.

(** ** Text *)

Definition to_digit (c : Z) : Z :=
  if (chr "0" <=? c) && (c <=? chr "9") then c - chr "0"
  else if (chr "A" <=? c) && (c <=? chr "Z") then c - chr "A" + 10
  else if (chr "a" <=? c) && (c <=? chr "z") then c - chr "a" + 10
  else 36.

Definition JS_LIMB_DIGITS : nat := 19.

(** [10^i]. *)
Definition js_pow_dec : list Z :=
  [1; 10; 100; 1000; 10000; 100000; 1000000; 10000000; 100000000; 1000000000;
   10000000000; 100000000000; 1000000000000; 10000000000000; 100000000000000;
   1000000000000000; 10000000000000000; 100000000000000000; 1000000000000000000;
   10000000000000000000].

(** The value of the next digits, at most [n] of them, how many they were,
    and the rest. *)
Fixpoint read_digits (n : nat) (radix : Z) (p : list Z) (v : Z) (i : nat) : Z * nat * list Z :=
  match n, p with
  | S n, x :: p' =>
      let c := to_digit x in
      if radix <=? c then (v, i, p) else read_digits n radix p' (u64 (v * 10 + c)) (S i)
  | _, _ => (v, i, p)
  end.

(** The decimal loop; [tab] is the part of the array in use, of which there
    are [n_limbs] limbs: [Fault] would be a write past its end or a loop that
    does not end. *)
Fixpoint dec_loop (fuel : nat) (n_limbs : Z) (p : list Z) (tab : list Z) : outcome (list Z) :=
  match fuel with
  | O => Throw Fault
  | S fuel =>
      let '(v, i, p) := read_digits JS_LIMB_DIGITS 10 p 0 0 in
      match i with
      | O => Ret tab
      | _ =>
          let tab :=
            match tab with
            | [0] => [v]
            | _ =>
                let '(rs, h) := mp_mul1 tab (default 0 (js_pow_dec !! i)) v in
                if h =? 0 then rs else rs ++ [h]
            end in
          if len tab <=? n_limbs then dec_loop fuel n_limbs p tab else Throw Fault
      end
  end.

(** [tab[pos] |= v]. *)
Definition or_at (pos : nat) (v : Z) (tab : list Z) : option (list Z) :=
  match tab !! pos with Some x => Some (<[pos := Z.lor x v]> tab) | None => None end.

(** The loop for a radix that is a power of two, on the digits from the
    last. *)
Fixpoint bin_loop (log2_radix radix : Z) (i : Z) (rp : list Z) (tab : list Z) : outcome (list Z) :=
  match rp with
  | [] => Ret tab
  | x :: rp =>
      let c := to_digit x in
      if radix <=? c then Throw Fault
      else
        let bit_pos := i * log2_radix in
        let shift := Z.land bit_pos (JS_LIMB_BITS - 1) in
        let pos := Z.to_nat (bit_pos / JS_LIMB_BITS) in
        match or_at pos (u64 (Z.shiftl c shift)) tab with
        | None => Throw Fault
        | Some tab =>
            if JS_LIMB_BITS <? shift + log2_radix then
              match or_at (S pos) (Z.shiftr c (JS_LIMB_BITS - shift)) tab with
              | None => Throw Fault
              | Some tab => bin_loop log2_radix radix (i + 1) rp tab
              end
            else bin_loop log2_radix radix (i + 1) rp tab
        end
  end.

Fixpoint skip_zeros (p : list Z) : list Z :=
  match p with c :: p' => if c =? chr "0" then skip_zeros p' else p | [] => [] end.

Section text.
Context (mem : Z -> bool).

Definition js_bigint_from_string (str : list Z) (radix : Z) : outcome JSBigInt :=
  let '(is_neg, p) :=
    match str with
    | c :: p => if c =? chr "-" then (true, p) else (false, str)
    | [] => (false, str)
    end in
  let p := skip_zeros p in
  let n_digits := Z.of_nat (length p) in
  if JS_BIGINT_MAX_SIZE * JS_LIMB_BITS <? n_digits then Throw RangeError
  else
    let log2_radix := 32 - clz 32 (radix - 1) in
    let n_bits := if radix =? 10 then (n_digits * 27 + 7) / 8 else n_digits * log2_radix in
    let n_limbs := Z.max 1 (n_bits / JS_LIMB_BITS + 1) in
    let* _ := js_bigint_new mem n_limbs in
    let* r :=
      if radix =? 10 then
        let* tab := dec_loop (S (length p)) n_limbs p [0] in
        if negb (Z.shiftr (limb_at tab (length tab - 1)) (JS_LIMB_BITS - 1) =? 0) then
          if len tab <? n_limbs then Ret (tab ++ [0]) else Throw Fault
        else Ret tab
      else bin_loop log2_radix radix 0 (rev p) (replicate (Z.to_nat n_limbs) 0) in
    let r := js_bigint_normalize r in
    if is_neg then js_bigint_neg mem r else Ret r.

(** [digits]. *)
Definition digits : list Z := bytes_of "0123456789abcdefghijklmnopqrstuvwxyz".
Definition digit_at (d : Z) : Z := default 0 (digits !! Z.to_nat d).

(** Backwards from [q]. *)
Fixpoint js_u64toa (fuel : nat) (n base : Z) (q : list Z) : option (list Z) :=
  match fuel with
  | O => None
  | S fuel =>
      let digit := n mod base in
      let n := n / base in
      let q := (if base =? 10 then chr "0" + digit else digit_at digit) :: q in
      if n =? 0 then Some q else js_u64toa fuel n base q
  end.

Fixpoint limb_to_a (n radix : Z) (len : nat) (q : list Z) : list Z :=
  match len with
  | O => q
  | S len =>
      let digit := n mod radix in
      limb_to_a (n / radix) radix len ((if radix =? 10 then digit + chr "0" else digit_at digit) :: q)
  end.

Definition digits_per_limb_table : list nat :=
  [64; 40; 32; 27; 24; 22; 21; 20; 19; 18; 17; 17; 16; 16; 16; 15; 15; 15; 14; 14; 14; 14; 13; 13; 13;
   13; 13; 13; 13; 12; 12; 12; 12; 12; 12]%nat.

Definition radix_base_table : list Z :=
  [0x0000000000000000; 0xa8b8b452291fe821; 0x0000000000000000; 0x6765c793fa10079d;
   0x41c21cb8e1000000; 0x3642798750226111; 0x8000000000000000; 0xa8b8b452291fe821;
   0x8ac7230489e80000; 0x4d28cb56c33fa539; 0x1eca170c00000000; 0x780c7372621bd74d;
   0x1e39a5057d810000; 0x5b27ac993df97701; 0x0000000000000000; 0x27b95e997e21d9f1;
   0x5da0e1e53c5c8000; 0xd2ae3299c1c4aedb; 0x16bcc41e90000000; 0x2d04b7fdd9c0ef49;
   0x5658597bcaa24000; 0xa0e2073737609371; 0x0c29e98000000000; 0x14adf4b7320334b9;
   0x226ed36478bfa000; 0x383d9170b85ff80b; 0x5a3c23e39c000000; 0x8e65137388122bcd;
   0xdd41bb36d259e000; 0x0aee5720ee830681; 0x1000000000000000; 0x172588ad4f5f0981;
   0x211e44f7d02c1000; 0x2ee56725f06e5c71; 0x41c21cb8e1000000].

Definition mp_div1 (taba : list Z) (b r : Z) : list Z * Z := div1_loop (fun a1 a0 => udiv1 a1 a0 b) taba r.

Definition js_limb_safe_clz (a : Z) : Z := if a =? 0 then JS_LIMB_BITS else js_limb_clz a.

(** Divide by the largest power of the radix that fits a limb and write the
    digits of the remainder, until one limb below that power is left. *)
Fixpoint dec_out (fuel : nat) (radix radix_base : Z) (per_limb : nat) (tab : list Z) (q : list Z) : option (list Z) :=
  match fuel with
  | O => None
  | S fuel =>
      let tab := take (drop_zeros (length tab) tab) tab in
      if (length tab =? 1)%nat && (limb_at tab 0 <? radix_base) then
        let v := limb_at tab 0 in
        if v =? 0 then Some q else js_u64toa 64 v radix q
      else
        let '(tab, v) := mp_div1 tab radix_base 0 in
        dec_out fuel radix radix_base per_limb tab (limb_to_a v radix per_limb q)
  end.

(** The digits of a power-of-two radix, from bit [i * log2_radix] up. *)
Fixpoint bin_out (n : nat) (log2_radix radix i : Z) (tab : list Z) (q : list Z) : list Z :=
  match n with
  | O => q
  | S n =>
      let bit_pos := i * log2_radix in
      let pos := Z.to_nat (bit_pos / JS_LIMB_BITS) in
      let shift := bit_pos mod JS_LIMB_BITS in
      let c := u32 (Z.shiftr (limb_at tab pos) shift) in
      let c := if (JS_LIMB_BITS <? shift + log2_radix) && (Z.of_nat (S pos) <? len tab)
               then u32 (Z.lor c (u64 (Z.shiftl (limb_at tab (S pos)) (JS_LIMB_BITS - shift)))) else c in
      bin_out n log2_radix radix (i + 1) tab (digit_at (Z.land c (radix - 1)) :: q)
  end.

(** [js_bigint_to_string1] on a BigInt of the heap; the text, or an
    exception.  [Fault] would be a text longer than its buffer of
    [n_digits + is_neg + 1] bytes. *)
Definition bigint_to_text (r : JSBigInt) (radix : Z) : outcome (list Z) :=
  match r with
  | [0] => Ret [chr "0"]
  | _ =>
      let is_binary_radix := Z.land radix (radix - 1) =? 0 in
      let is_neg := js_bigint_sign r in
      let* r :=
        if negb (is_neg =? 0) then js_bigint_neg mem r
        else if is_binary_radix then Ret r
        else let* _ := js_bigint_new mem (len r) in Ret r in
      let log2_radix := 31 - clz 32 radix in
      let n_bits := len r * JS_LIMB_BITS - js_limb_safe_clz (limb_at r (length r - 1)) in
      let n_digits := (n_bits + log2_radix - 1) / log2_radix in
      if negb (mem (n_digits + is_neg + 1)) then Throw OutOfMemory
      else
        let text :=
          if is_binary_radix then Some (bin_out (Z.to_nat n_digits) log2_radix radix 0 r [])
          else
            let i := Z.to_nat (radix - 2) in
            dec_out (S (64 * length r)) radix (default 0 (radix_base_table !! i))
              (default 0%nat (digits_per_limb_table !! i)) r [] in
        match text with
        | None => Throw Fault
        | Some q =>
            let q := if is_neg =? 0 then q else chr "-" :: q in
            if Z.of_nat (length q) <=? n_digits + is_neg then Ret q else Throw Fault
        end
  end.
End text.
