(* ===== verification/BigIntFloat.v ===== *)
(** * BigInts and doubles

    Conversion to a double rounds to nearest, ties to even; conversion from
    a double is exact; and the comparison of a BigInt with a double, with the
    case in which it answers the opposite. *)
From S2P Require Import Prelude Native BigInt BigIntProps BigIntOps Digits BigIntConv.

(** ** The significand of a BigInt *)

(** [floor(x / 2^k)], its low bit set when the division is not exact. *)
Definition sticky (x k : Z) : Z := Z.lor (x / 2 ^ k) (Z.b2z (negb (x mod 2 ^ k =? 0))).

Lemma lor_bit x c : bit c -> Z.lor x c = if c =? 0 then x else x + 1 - x mod 2.
Proof.
  intros [-> | ->]; cbn [Z.eqb]; [apply Z.lor_0_r|].
  assert (Hl : Z.lor (x / 2 * 2) 1 = x / 2 * 2 + 1) by (apply (lor_low 1); [lia|lia|apply Z_mod_mult]).
  pose proof (Z_div_mod_eq_full x 2). pose proof (Z.mod_pos_bound x 2 ltac:(lia)).
  assert (Hm : x mod 2 = 0 \/ x mod 2 = 1) by lia. destruct Hm as [E|E].
  - replace x with (x / 2 * 2) at 1 by lia. lia.
  - replace x with (Z.lor (x / 2 * 2) 1) at 1 by lia. rewrite <- Z.lor_assoc, Z.lor_diag. lia.
Qed.

Lemma shiftr_lor_bit x c k : bit c -> 0 < k -> Z.shiftr (Z.lor x c) k = Z.shiftr x k.
Proof.
  intros Hc Hk. rewrite Z.shiftr_lor. assert (Z.shiftr c k = 0) as ->; [|apply Z.lor_0_r].
  rewrite Z.shiftr_div_pow2 by lia. apply Z.div_small. pose proof (Z.pow_gt_1 2 k). destruct Hc; lia.
Qed.

Lemma mod_lor_bit x c k : bit c -> 0 < k -> (Z.lor x c) mod 2 ^ k = 0 <-> x mod 2 ^ k = 0 /\ c = 0.
Proof.
  intros Hc Hk. rewrite <- !land_pow2_pred, Z.land_lor_distr_l, Z.lor_eq_0_iff by lia.
  assert (E : Z.land c (2 ^ k - 1) = c); [|by rewrite E].
  rewrite land_pow2_pred by lia. apply Z.mod_small. pose proof (Z.pow_gt_1 2 k). destruct Hc; lia.
Qed.

Lemma b2z_negb_iff x y : (x = 0 <-> y = 0) -> Z.b2z (negb (x =? 0)) = Z.b2z (negb (y =? 0)).
Proof. intros H. destruct (Z.eqb_spec x 0), (Z.eqb_spec y 0); tauto. Qed.

Lemma lor_fold_zero l : forall acc, fold_left Z.lor l acc = 0 <-> acc = 0 /\ Forall (eq 0) l.
Proof.
  induction l as [|x l IH]; intros acc; cbn [fold_left].
  - split; [intros ->; split; [done|constructor]|tauto].
  - rewrite IH, Z.lor_eq_0_iff, Forall_cons. intuition congruence.
Qed.

Lemma uval_zero l : limbs l -> uval l = 0 <-> Forall (eq 0) l.
Proof.
  pose proof B_pos. induction l as [|x l IH]; intros Hl; cbn [uval]; [by split|].
  inv_subst Hl. pose proof (uval_bounds l ltac:(done)). rewrite Forall_cons, <- IH by done. unfold limb in *.
  split; [intros E; split; nia|intros [<- ->]; lia].
Qed.

(** The limbs of the absolute value, in one pass or in two. *)
Lemma abs_limbs_app a b mask c : abs_limbs (a ++ b) mask c =
  let '(va, c1) := abs_limbs a mask c in let '(vb, c2) := abs_limbs b mask c1 in (va ++ vb, c2).
Proof.
  revert c. induction a as [|x a IH]; intros c; cbn [app abs_limbs]; [by destruct (abs_limbs b mask c)|].
  cbv zeta. rewrite IH. destruct (abs_limbs a mask _) as [va c1]. by destruct (abs_limbs b mask c1).
Qed.

Lemma abs_limbs_spec tab : forall sgn c, limbs tab -> bit sgn -> bit c -> (sgn = 0 -> c = 0) ->
  let '(vs, c') := abs_limbs tab (if sgn =? 0 then 0 else limb_ones) c in
  limbs vs /\ length vs = length tab /\ bit c' /\
  uval vs + pw (length tab) * c' = (if sgn =? 0 then uval tab else pw (length tab) - 1 - uval tab) + c.
Proof.
  pose proof B_pos as HB. induction tab as [|x tab IH]; intros sgn c Ht Hs Hc H0; cbn [abs_limbs].
  - cbn [uval length]. rewrite pw_0. split_and!; try done. destruct (sgn =? 0); lia.
  - inv_subst Ht. set (y := Z.lxor x _). assert (Hy : limb y /\ y = if sgn =? 0 then x else B - 1 - x).
    { unfold y. destruct (sgn =? 0); [by rewrite Z.lxor_0_r|]. rewrite lxor_limb_ones by done.
      unfold limb_not, limb_ones, limb in *. lia. }
    destruct Hy as [Hy Ey]. clearbody y. unfold limb in Hy.
    assert (Hb : bit (Z.b2z (u64 (y + c) <? c))) by apply bit_b2z.
    assert (Ev : u64 (y + c) + B * Z.b2z (u64 (y + c) <? c) = y + c).
    { rewrite u64_add by (destruct Hc; lia). destruct (Z.ltb_spec (y + c) B).
      - destruct (Z.ltb_spec (y + c) c); simpl; lia.
      - destruct (Z.ltb_spec (y + c - B) c); simpl; destruct Hc; lia. }
    assert (H0' : sgn = 0 -> Z.b2z (u64 (y + c) <? c) = 0).
    { intros Es. rewrite (H0 Es). destruct (Z.ltb_spec (u64 (y + 0)) 0); [|done].
      pose proof (limb_u64 (y + 0)) as Hl. unfold limb in Hl. lia. }
    specialize (IH sgn (Z.b2z (u64 (y + c) <? c)) ltac:(done) Hs Hb H0').
    destruct (abs_limbs tab _ _) as [vs c']. destruct IH as (Hvs & Hlen & Hc' & Euv).
    cbn [uval length]. rewrite pw_S. split_and!; [constructor; [apply limb_u64|done]|lia|done|].
    assert (Hx : B * (uval vs + pw (length tab) * c') =
                 B * ((if sgn =? 0 then uval tab else pw (length tab) - 1 - uval tab) + Z.b2z (u64 (y + c) <? c)))
      by (by rewrite Euv).
    destruct (sgn =? 0); lia.
Qed.

Lemma abs_split a n : bigint_ok a -> (n <= length a)%nat ->
  let mask := u64 (- js_bigint_sign a) in
  let '(low, c) := abs_limbs (take n a) mask (js_bigint_sign a) in
  let hi := fst (abs_limbs (drop n a) mask c) in
  limbs low /\ limbs hi /\ length low = n /\ length hi = (length a - n)%nat /\
  uval low + pw n * uval hi = Z.abs (sval a).
Proof.
  intros [Ha Hne _] Hn mask. pose proof (sign_bool a Ha Hne) as Hs. unfold mask. rewrite (sign_limb a Ha Hne).
  destruct (Forall_take_drop limb n a Ha) as [Ht Hd].
  pose proof (abs_limbs_spec (take n a) (js_bigint_sign a) (js_bigint_sign a) Ht Hs Hs ltac:(done)) as H1.
  destruct (abs_limbs (take n a) _ _) as [low c]. destruct H1 as (Hl & Hll & Hc & E1).
  rewrite length_take, Nat.min_l in * by done.
  assert (Hc0 : js_bigint_sign a = 0 -> c = 0).
  { intros Es. rewrite Es in E1. cbn [Z.eqb] in E1. pose proof (uval_bounds _ Ht) as Hb.
    rewrite length_take, Nat.min_l in Hb by done. pose proof (uval_bounds _ Hl). pose proof (pw_pos n). destruct Hc; nia. }
  pose proof (abs_limbs_spec (drop n a) (js_bigint_sign a) c Hd Hs Hc Hc0) as H2.
  destruct (abs_limbs (drop n a) _ _) as [hi c2]. destruct H2 as (Hh & Hhl & Hc2 & E2). cbn [fst].
  rewrite length_drop in *. split_and!; try done.
  pose proof (uval_take_drop n a Hn) as Eu. pose proof (sval_sign a Ha Hne) as Esg.
  assert (Ep : pw (length a) = pw n * pw (length a - n)) by (rewrite <- pw_add; f_equal; lia).
  pose proof (uval_bounds _ Hl) as Bl. pose proof (uval_bounds _ Hh) as Bh. rewrite Hll in Bl. rewrite Hhl in Bh.
  pose proof (pw_pos n). pose proof (pw_pos (length a - n)). pose proof (sval_range a Ha Hne) as Hr.
  set (W := uval low + pw n * uval hi) in *.
  assert (E : W + pw (length a) * c2 = Z.abs (sval a)).
  { assert (E2' : pw n * (uval hi + pw (length a - n) * c2) = pw n * ((if js_bigint_sign a =? 0 then uval (drop n a)
       else pw (length a - n) - 1 - uval (drop n a)) + c)) by (by rewrite E2).
    unfold W. rewrite Ep. unfold sval in *. rewrite Ep in *. clear Hr. destruct (Z.ltb_spec (uval a - js_bigint_sign a * (pw n * pw (length a - n))) 0);
      rewrite Esg in *; cbn [Z.eqb] in *; lia. }
  assert (0 <= W) by (unfold W; nia). destruct Hc2 as [-> | ->]; [lia|]. pose proof (pw_pos (length a)). lia.
Qed.

(** The scaling argument: [X] holds the high bits of [M * 2^q]. *)
Lemma sticky_scale M X L p q k e : 0 <= p -> 0 <= q -> 0 <= k -> 0 <= e ->
  0 <= L < 2 ^ p -> M * 2 ^ q = L + 2 ^ p * X -> e + q = 63 + p + k ->
  sticky (M * 2 ^ 63) e = Z.lor (X / 2 ^ k) (Z.b2z (negb (L + 2 ^ p * (X mod 2 ^ k) =? 0))).
Proof.
  intros Hp Hq Hk He HL E Ee. unfold sticky. pose proof (pow2_pos p Hp) as Pp. pose proof (pow2_pos q Hq) as Pq.
  pose proof (pow2_pos k Hk) as Pk. pose proof (pow2_pos e He) as Pe.
  assert (HE : 2 ^ e * 2 ^ q = 2 ^ 63 * (2 ^ p * 2 ^ k)) by (rewrite <- !Z.pow_add_r by lia; f_equal; lia).
  pose proof (Z_div_mod_eq_full X (2 ^ k)) as Ed. pose proof (Z.mod_pos_bound X (2 ^ k) Pk) as Hm.
  set (f := X / 2 ^ k) in *. set (r := X mod 2 ^ k) in *. set (R := L + 2 ^ p * r).
  assert (HR : 0 <= R < 2 ^ p * 2 ^ k) by (unfold R; nia).
  assert (ER : (M * 2 ^ 63 - f * 2 ^ e) * 2 ^ q = 2 ^ 63 * R).
  { transitivity (2 ^ 63 * (M * 2 ^ q) - f * (2 ^ e * 2 ^ q)); [ring|]. rewrite E, HE, Ed. unfold R. ring. }
  assert (Hrange : 0 <= M * 2 ^ 63 - f * 2 ^ e < 2 ^ e).
  { assert (0 <= (M * 2 ^ 63 - f * 2 ^ e) * 2 ^ q < 2 ^ e * 2 ^ q) by (rewrite ER, HE; lia). nia. }
  assert (Ef : M * 2 ^ 63 / 2 ^ e = f) by (symmetry; apply (Z.div_unique_pos _ _ _ (M * 2 ^ 63 - f * 2 ^ e)); [done|ring]).
  rewrite Ef, Z.mod_eq, Ef by lia. f_equal. apply b2z_negb_iff. rewrite (Z.mul_comm (2 ^ e)). split; intros H0.
  - rewrite H0 in ER. lia.
  - rewrite H0 in ER. nia.
Qed.

(** The normalisation of two limbs and a sticky bit. *)
Definition norm_pair (t0 t1 st : Z) : Z * Z :=
  let a0 := Z.lor t0 st in
  let '(a1, a0, shift) :=
    if t1 =? 0 then (a0, 0, 64)
    else
      let shift := clz 64 t1 in
      if shift =? 0 then (t1, a0, shift)
      else (Z.lor (u64 (Z.shiftl t1 shift)) (Z.shiftr a0 (64 - shift)), u64 (Z.shiftl a0 shift), shift) in
  (Z.lor a1 (Z.b2z (negb (a0 =? 0))), shift).

Lemma norm_pair_spec t0 t1 L P : limb t0 -> limb t1 -> (t1 = 0 -> 2 ^ 63 <= t0) -> 0 <= L -> 0 < P ->
  let X := t0 + B * t1 in
  let '(m, shift) := norm_pair t0 t1 (Z.b2z (negb (L =? 0))) in
  0 <= shift <= 64 /\ Z.log2 X = 127 - shift /\
  m = Z.lor (X / 2 ^ (64 - shift)) (Z.b2z (negb (L + P * (X mod 2 ^ (64 - shift)) =? 0))).
Proof.
  intros H0 H1 Htop HL HP X. unfold norm_pair. set (st := Z.b2z (negb (L =? 0))).
  assert (Hst : bit st) by apply bit_b2z.
  assert (Est : st = 0 <-> L = 0) by (unfold st; destruct (Z.eqb_spec L 0); simpl; lia).
  unfold limb in *. pose proof B_half as HB. pose proof B_pos.
  destruct (Z.eqb_spec t1 0) as [->|Hne].
  - split; [lia|]. unfold X. rewrite Z.mul_0_r, Z.add_0_r. split.
    + apply Z.log2_unique; [lia|]. change (2 ^ Z.succ (127 - 64)) with (2 * 2 ^ 63). change (127 - 64) with 63. lia.
    + rewrite Z.lor_0_r, Z.div_1_r, Z.mod_1_r, Z.mul_0_r, Z.add_0_r. done.
  - unfold clz. pose proof (Z.log2_spec t1 ltac:(lia)) as [Hl1 Hl2]. pose proof (Z.log2_nonneg t1).
    assert (Hl : Z.log2 t1 < 64) by (apply Z.log2_lt_pow2; [lia|]; change (2 ^ 64) with B; lia).
    set (shift := 64 - 1 - Z.log2 t1). assert (Hlog : Z.log2 X = 127 - shift).
    { replace (127 - shift) with (64 + Z.log2 t1) by (unfold shift; lia). apply Z.log2_unique; [lia|].
      replace (Z.succ (64 + Z.log2 t1)) with (64 + Z.succ (Z.log2 t1)) by lia.
      rewrite !Z.pow_add_r by lia. change (2 ^ 64) with B. unfold X. nia. }
    assert (Hsh : 0 <= shift < 64) by (unfold shift; lia). clearbody shift.
    destruct (Z.eqb_spec shift 0) as [Es|Es].
    + split; [lia|]. split; [done|]. rewrite Es. change (2 ^ (64 - 0)) with B. unfold X. rewrite Z.mul_comm.
      rewrite Z.div_add, Z_mod_plus_full, Z.div_small, Z.mod_small by lia. cbn [Z.add]. f_equal.
      apply b2z_negb_iff. rewrite Z.lor_eq_0_iff, Est. split; [intros [-> ->]; lia|nia].
    + split; [lia|]. split; [done|]. set (k := 64 - shift) in *. assert (Hk : 0 < k < 64) by lia.
      pose proof (pow2_pos k ltac:(lia)) as Pk. pose proof (pow2_pos shift ltac:(lia)) as Ps.
      assert (HBk : B = 2 ^ shift * 2 ^ k) by (apply B_split; lia).
      rewrite shiftr_lor_bit, Z.shiftr_div_pow2 by (done || lia).
      assert (Hb1 : t1 < 2 ^ k).
      { assert (Hlt : Z.log2 X < k + 64) by lia. apply Z.log2_lt_pow2 in Hlt; [|unfold X; nia].
        rewrite Z.pow_add_r in Hlt by lia. change (2 ^ 64) with B in Hlt. unfold X in Hlt. nia. }
      rewrite limb_shl by (unfold limb; lia). fold k. rewrite Z.mod_small by lia.
      assert (Hd : 0 <= t0 / 2 ^ k < 2 ^ shift) by (split; [apply Z.div_pos; lia|apply Z.div_lt_upper_bound; lia]).
      rewrite (lor_low shift (t1 * 2 ^ shift) (t0 / 2 ^ k)) by (done || lia || apply Z_mod_mult).
      assert (EX : X = t0 + t1 * 2 ^ shift * 2 ^ k) by (unfold X; rewrite HBk; ring).
      rewrite EX, Z.div_add, Z_mod_plus_full, (Z.add_comm (t0 / _)) by lia. f_equal.
      apply b2z_negb_iff. unfold u64. rewrite Z.shiftl_mul_pow2 by lia. change (2 ^ 64) with B. rewrite HBk.
      rewrite (Z.mul_comm (Z.lor t0 st)), Z.mul_mod_distr_l by lia.
      pose proof (Z.mod_pos_bound t0 (2 ^ k) Pk). pose proof (mod_lor_bit t0 st k Hst ltac:(lia)) as Hml.
      rewrite Z.mul_eq_0, Hml, Est. split; [intros [?|[-> ->]]; lia|]. intros E. right. nia.
Qed.

Lemma mant_exp_unfold a : js_bigint_get_mant_exp a =
  let n1 := (length a - 2)%nat in
  let mask := u64 (- js_bigint_sign a) in
  let '(low, carry) := abs_limbs (take n1 a) mask (js_bigint_sign a) in
  let '(t0, t1) := high_limbs (fst (abs_limbs (drop n1 a) mask carry)) in
  let '(m, shift) := norm_pair t0 t1 (Z.b2z (negb (fold_left Z.lor low 0 =? 0))) in
  (m, len a * JS_LIMB_BITS - shift - 1).
Proof.
  unfold js_bigint_get_mant_exp, norm_pair. cbv zeta.
  destruct (abs_limbs (take _ a) _ _) as [low c]. destruct (high_limbs _) as [t0 t1].
  destruct (t1 =? 0); [done|]. by destruct (clz 64 t1 =? 0).
Qed.

(** The two high limbs hold the leading bits. *)
Lemma mant_exp_spec a : bigint_ok a -> sval a <> 0 ->
  js_bigint_get_mant_exp a = (sticky (Z.abs (sval a) * 2 ^ 63) (Z.log2 (Z.abs (sval a))), Z.log2 (Z.abs (sval a))).
Proof.
  intros Ha H0. pose proof (nonnil_length a (bo_some _ Ha)) as Hpos. rewrite mant_exp_unfold. cbv zeta.
  pose proof (abs_split a (length a - 2) Ha ltac:(lia)) as Hs. cbv zeta in Hs.
  pose proof (size_bound a Ha H0) as Hsize. set (M := Z.abs (sval a)) in *.
  destruct (abs_limbs (take _ a) _ _) as [low c]. destruct Hs as (Hlow & Hhi & Hll & Hlh & E).
  set (hi := fst _) in *. clearbody hi. set (n1 := (length a - 2)%nat) in *.
  assert (El : Z.b2z (negb (fold_left Z.lor low 0 =? 0)) = Z.b2z (negb (uval low =? 0))).
  { apply b2z_negb_iff. rewrite lor_fold_zero, uval_zero by done. intuition. }
  rewrite El. pose proof (uval_bounds low Hlow) as HL. rewrite Hll in HL. pose proof (pw_pos n1) as Pn. pose proof B_half as HB.
  assert (HM : 0 < M) by (unfold M; lia). pose proof (Z.log2_nonneg M) as Hlog.
  assert (Hfin : forall t0 t1 q, limb t0 -> limb t1 -> (t1 = 0 -> 2 ^ 63 <= t0) -> 0 <= q ->
    M * 2 ^ q = uval low + pw n1 * (t0 + B * t1) -> Z.of_nat (length a) * 64 = 128 + 64 * Z.of_nat n1 - q ->
    (let '(m, shift) := norm_pair t0 t1 (Z.b2z (negb (uval low =? 0))) in (m, len a * JS_LIMB_BITS - shift - 1)) =
    (sticky (M * 2 ^ 63) (Z.log2 M), Z.log2 M)).
  { intros t0 t1 q Ht0 Ht1 Htop Hq EM En.
    pose proof (norm_pair_spec t0 t1 (uval low) (pw n1) Ht0 Ht1 Htop ltac:(lia) Pn) as Hn. cbv zeta in Hn.
    destruct (norm_pair t0 t1 _) as [m shift]. destruct Hn as (Hsh & Hlx & ->).
    set (X := t0 + B * t1) in *. assert (HX : 0 < X) by (pose proof (pow2_pos q Hq); unfold limb in *; nia).
    assert (Elog : Z.log2 M = 127 - shift + 64 * Z.of_nat n1 - q).
    { assert (E1 : Z.log2 (M * 2 ^ q) = q + Z.log2 M) by (by apply Z.log2_mul_pow2).
      assert (E2 : Z.log2 (uval low + pw n1 * X) = 127 - shift + 64 * Z.of_nat n1); [|rewrite EM in E1; lia].
      rewrite <- Hlx. pose proof (Z.log2_spec X HX) as [X1 X2]. pose proof (Z.log2_nonneg X).
      rewrite pw_pow2 in *. apply Z.log2_unique; [lia|].
      replace (Z.succ (Z.log2 X + 64 * Z.of_nat n1)) with (Z.succ (Z.log2 X) + 64 * Z.of_nat n1) by lia.
      rewrite !Z.pow_add_r by lia. nia. }
    rewrite (sticky_scale M X (uval low) (64 * Z.of_nat n1) q (64 - shift)); try (rewrite <- pw_pow2); try lia.
    f_equal. unfold len, JS_LIMB_BITS. lia. }
  destruct (length a) as [|[|n]] eqn:Hla; [lia| |].
  - simpl in n1. subst n1. cbn in Hlh. destruct hi as [|t1 [|]]; try done. destruct low; [|done].
    cbn [high_limbs]. change (pw 0) with 1 in *. cbn [uval] in *. inv_subst Hhi.
    apply (Hfin 0 t1 64); [unfold limb; lia|done|lia|lia| |simpl; lia]. change (2 ^ 64) with B. lia.
  - assert (Hn : n1 = n) by (unfold n1; lia). clearbody n1. subst n1. assert (Hl2 : length hi = 2%nat) by lia.
    destruct hi as [|t0 [|t1 [|]]]; try done. destruct (Forall_cons_1 _ _ _ Hhi) as [Ht0 Hhi1]. destruct (Forall_cons_1 _ _ _ Hhi1) as [Ht1 _].
    cbn [high_limbs]. cbn [uval] in E. rewrite Z.mul_0_r, Z.add_0_r in E.
    apply (Hfin t0 t1 0); [done|done| |lia|rewrite Z.pow_0_r; lia|lia].
    intros ->. replace (S (S n) - 1)%nat with (S n) in Hsize by lia. rewrite pw_S in Hsize. unfold limb in *.
    destruct (Z.le_gt_cases (2 ^ 63) t0) as [|Hlt]; [done|exfalso].
    rewrite <- Hn in Hsize. assert ((t0 + 1) * pw (length low) <= 2 ^ 63 * pw (length low)) by (apply Z.mul_le_mono_nonneg_r; lia). rewrite HB in Hsize. lia.
Qed.

(** ** Conversion to a double *)

(** The nearest double, ties to even; infinity from [2^1024] on. *)
Definition Z_to_double (n : Z) : Z :=
  if n =? 0 then 0
  else
    let '(mant, e) := round53 (Z.abs n) in
    let sgn := if n <? 0 then 1 else 0 in
    if 1023 <? e then pack sgn 1024 0 else pack sgn e mant.

(** The quotient of [round53] before the renormalisation. *)
Definition rounded (m d : Z) : Z :=
  let q := m / d in
  let r := m mod d in
  if (d <? 2 * r) || ((d =? 2 * r) && Z.odd q) then q + 1 else q.

Lemma odd_mod2 q : Z.odd q = (q mod 2 =? 1).
Proof. rewrite Zmod_odd. by destruct (Z.odd q). Qed.

(** Whether the 11 bits [g] cut off, with the rest, round up. *)
Lemma round_up_case g q2 s rest d : 0 <= g < 2048 -> 0 <= q2 < 2 -> bit s -> (s = 0 <-> g mod 2 = 0 /\ rest = 0) ->
  0 <= rest < d ->
  (g / 2 + (if s =? 0 then 0 else 1 - (g / 2) mod 2) + q2 + 511) / 1024 =
  if (2048 * d <? 2 * (g * d + rest)) || ((2048 * d =? 2 * (g * d + rest)) && (q2 =? 1)) then 1 else 0.
Proof.
  intros Hg Hq Hs Hs0 Hr. pose proof (Z_div_mod_eq_full g 2) as Eg. pose proof (Z.mod_pos_bound g 2 ltac:(lia)) as Hb.
  pose proof (Z.mod_pos_bound (g / 2) 2 ltac:(lia)) as Hk2. pose proof (Z_div_mod_eq_full (g / 2) 2) as Ek.
  set (k := g / 2) in *. set (b := g mod 2) in *. set (k2 := k mod 2) in *. set (k4 := k / 2) in *. clearbody k b k2 k4.
  assert (Hsv : (s = 0 /\ b = 0 /\ rest = 0) \/ (s = 1 /\ (b <> 0 \/ rest <> 0))).
  { destruct Hs as [-> | ->]; [left|right]; [|split; [done|]].
    - destruct Hs0 as [H _]. destruct (H eq_refl). auto.
    - destruct (Z.eq_dec b 0), (Z.eq_dec rest 0); auto. destruct Hs0 as [_ H]. discriminate H; auto. }
  clear Hs Hs0. set (v := if s =? 0 then 0 else 1 - k2).
  assert (Hv : (s = 0 /\ v = 0) \/ (s = 1 /\ v = 1 - k2)).
  { unfold v. destruct Hsv as [(-> & _)|(-> & _)]; [left|right]; done. }
  clearbody v. destruct (Z.ltb_spec (2048 * d) (2 * (g * d + rest))) as [Hup|Hno]; cbn [orb].
  - assert (1024 <= g) by nia. assert (1024 < g \/ rest <> 0) by (destruct (Z.eq_dec rest 0); [left; nia|by right]).
    symmetry. apply (Z.div_unique_pos _ _ _ (k + v + q2 + 511 - 1024)); [|lia]. clear Hup. lia.
  - assert (Hg' : g <= 1024) by nia.
    destruct (Z.eqb_spec (2048 * d) (2 * (g * d + rest))) as [Et|Ent]; cbn [andb].
    + assert (E1 : (1024 - g) * d = rest) by lia.
      assert (Hg2 : g = 1024) by (destruct (Z.eq_dec g 1024); [done|exfalso]; assert (d <= (1024 - g) * d) by nia; lia).
      assert (Hr0 : rest = 0) by (rewrite <- E1, Hg2; lia). rewrite Hg2, Hr0 in *.
      assert (k + v + q2 + 511 = 1023 + q2) as -> by lia.
      destruct (Z.eqb_spec q2 1) as [->|]; [done|]. by assert (q2 = 0) as -> by lia.
    + assert (g < 1024) by nia. apply Z.div_small. clear Hno Ent. lia.
Qed.

(** The two roundings agree: 11 bits of a 64-bit significand with a sticky
    bit, and the exact quotient. *)
Lemma shr_rndn_spec f rest d : 2 ^ 63 <= f < 2 ^ 64 -> 0 <= rest < d ->
  let m := Z.lor f (Z.b2z (negb (rest =? 0))) in
  shr_rndn (Z.lor (Z.shiftr m 1) (Z.land m 1)) 10 = rounded (f * d + rest) (2 ^ 11 * d).
Proof.
  intros Hf Hr m. set (st := Z.b2z (negb (rest =? 0))) in *. assert (Hst : bit st) by apply bit_b2z.
  assert (Est : st = 0 <-> rest = 0) by (unfold st; destruct (Z.eqb_spec rest 0); simpl; lia).
  (* 63 bits and a sticky bit *)
  unfold m. rewrite shiftr_lor_bit by (done || lia). set (h := Z.shiftr f 1). set (s := Z.land (Z.lor f st) 1).
  assert (Hs : bit s /\ (s = 0 <-> f mod 2 = 0 /\ rest = 0)).
  { unfold s. rewrite land_one. pose proof (Z.mod_pos_bound (Z.lor f st) 2 ltac:(lia)).
    pose proof (mod_lor_bit f st 1 Hst ltac:(lia)) as Hm. change (2 ^ 1) with 2 in Hm. unfold bit. rewrite Est in Hm. split; [lia|done]. }
  destruct Hs as [Hsb Hs0]. clearbody s. assert (Eh : h = f / 2) by (unfold h; by rewrite Z.shiftr_div_pow2).
  clearbody h. clear m. clearbody st. unfold shr_rndn. rewrite land_one. set (w := Z.lor h s).
  assert (Ew : w = h + (if s =? 0 then 0 else 1 - h mod 2)) by (unfold w; rewrite lor_bit by done; destruct (s =? 0); lia).
  clearbody w. set (v := if s =? 0 then 0 else 1 - h mod 2) in Ew.
  assert (Hv : 0 <= v <= 1 - h mod 2) by (unfold v; pose proof (Z.mod_pos_bound h 2 ltac:(lia)); destruct (s =? 0); lia).
  set (g := f mod 2048) in *. set (q := f / 2048) in *.
  assert (Eg : h mod 1024 = g / 2 /\ h mod 2 = (g / 2) mod 2 /\ f mod 2 = g mod 2 /\ h / 1024 = q) by (unfold g, q; clear -Eh; div_lia).
  destruct Eg as (Eg1 & Eg2 & Eg3 & Eg4).
  assert (Hg : 0 <= g < 2048) by (apply Z.mod_pos_bound; lia).
  assert (Ewd : w / 1024 = q /\ w mod 1024 = g / 2 + v).
  { rewrite Ew, <- Eg4, <- Eg1. clear -Hv. clearbody v. div_lia. }
  destruct Ewd as [Ewq Ewr]. rewrite !Z.shiftr_div_pow2 by lia. change (2 ^ 10) with 1024. rewrite Ewq.
  change (Z.shiftl 1 (10 - 1) - 1) with 511. pose proof (Z.mod_pos_bound q 2 ltac:(lia)) as Hq2.
  assert (Hw : 0 <= w < 2 ^ 63 + 1) by (rewrite Ew, Eh; clear -Hf Hv Eh; clearbody v; div_lia).
  rewrite u64_small by lia.
  assert (Ed : (w + (q mod 2 + 511)) / 1024 = q + (g / 2 + v + q mod 2 + 511) / 1024).
  { rewrite <- Ewr. replace (w + (q mod 2 + 511)) with (w mod 1024 + q mod 2 + 511 + w / 1024 * 1024) by (pose proof (Z_div_mod_eq_full w 1024); lia).
    rewrite Z.div_add by lia. lia. }
  rewrite Ed. unfold rounded. change (2 ^ 11) with 2048.
  assert (Ef : f = 2048 * q + g) by (apply Z_div_mod_eq_full). clearbody q g.
  assert (EQ : (f * d + rest) / (2048 * d) = q) by (symmetry; apply (Z.div_unique_pos _ _ _ (g * d + rest)); nia).
  assert (ER : (f * d + rest) mod (2048 * d) = g * d + rest) by (symmetry; apply (Z.mod_unique_pos _ _ q); nia).
  rewrite EQ, ER, odd_mod2. unfold v. rewrite Eg2, (round_up_case g (q mod 2) s rest d) by (done || by rewrite <- Eg3).
  destruct (_ || _); lia.
Qed.

Lemma sint64_sval v : limb v -> sint 64 v = sval [v].
Proof.
  intros Hv. rewrite sval_single by done. unfold sint, limb in *. change (64 - 1) with 63. change (2 ^ 64) with B.
  rewrite Z.mod_small by done. destruct (Z.ltb_spec v (2 ^ 63)), (Z.leb_spec (2 ^ 63) v); lia.
Qed.

Lemma round53_large m : 53 <= Z.log2 m -> round53 m =
  let q := rounded m (2 ^ (Z.log2 m - 52)) in if q =? 2 ^ 53 then (2 ^ 52, Z.log2 m + 1) else (q, Z.log2 m).
Proof. intros H. unfold round53. by destruct (Z.leb_spec (Z.log2 m) 52); [lia|]. Qed.

Lemma rounded_range m d : 0 < d -> 2 ^ 52 * d <= m < 2 ^ 53 * d -> 2 ^ 52 <= rounded m d <= 2 ^ 53.
Proof.
  intros Hd Hm. assert (2 ^ 52 <= m / d < 2 ^ 53).
  { split; [apply Z.div_le_lower_bound; lia|apply Z.div_lt_upper_bound; lia]. }
  unfold rounded. destruct (_ || _); lia.
Qed.

Lemma pack_1024 sgn : pack sgn 1024 (2 ^ 52) = pack sgn 1024 0.
Proof. unfold pack. f_equal. Qed.

(** The significand of [M] rounds as [M] itself. *)
Lemma sticky_round M : 63 <= Z.log2 M ->
  let m := sticky (M * 2 ^ 63) (Z.log2 M) in
  shr_rndn (Z.lor (Z.shiftr m 1) (Z.land m 1)) 10 = rounded M (2 ^ (Z.log2 M - 52)) /\
  2 ^ 52 <= rounded M (2 ^ (Z.log2 M - 52)) <= 2 ^ 53.
Proof.
  intros Hlog m. assert (HM : 0 < M) by (destruct (Z.le_gt_cases M 0) as [H|]; [rewrite Z.log2_nonpos in Hlog by done; lia|done]).
  set (e := Z.log2 M) in *. pose proof (Z.log2_spec M HM) as [HM1 HM2]. fold e in HM1, HM2.
  pose proof (pow2_pos (e - 63) ltac:(lia)) as Hd. set (d := 2 ^ (e - 63)) in *.
  assert (Ed : 2 ^ (e - 52) = 2 ^ 11 * d) by (unfold d; rewrite <- Z.pow_add_r by lia; f_equal; lia).
  assert (Ee : 2 ^ e = 2 ^ 63 * d) by (unfold d; rewrite <- Z.pow_add_r by lia; f_equal; lia).
  rewrite Z.pow_succ_r in HM2 by lia. rewrite Ed. split; [|apply rounded_range; lia].
  unfold m, sticky. rewrite Ee, (Z.mul_comm M), Z.div_mul_cancel_l, Z.mul_mod_distr_l by lia.
  pose proof (Z_div_mod_eq_full M d) as Edm. pose proof (Z.mod_pos_bound M d Hd) as Hm.
  replace (Z.b2z (negb (2 ^ 63 * (M mod d) =? 0))) with (Z.b2z (negb (M mod d =? 0))) by (apply b2z_negb_iff; lia).
  replace (rounded M (2 ^ 11 * d)) with (rounded (M / d * d + M mod d) (2 ^ 11 * d)) by (f_equal; lia).
  apply shr_rndn_spec; [|done]. split; [apply Z.div_le_lower_bound; lia|apply Z.div_lt_upper_bound; lia].
Qed.

Lemma to_float64_large v v' a : bigint_ok (v :: v' :: a) ->
  js_bigint_to_float64 (v :: v' :: a) = Z_to_double (sval (v :: v' :: a)).
Proof.
  intros Ha.
  set (b := v :: v' :: a) in *. assert (H0 : sval b <> 0) by (intros E; by apply sval_zero in E).
  set (M := Z.abs (sval b)). assert (HM : 0 < M) by (unfold M; lia).
  assert (Hlog : 63 <= Z.log2 M).
  { apply Z.log2_le_pow2; [done|]. pose proof (size_bound b Ha H0) as Hs. unfold b in Hs. cbn [length] in Hs.
    rewrite Nat.sub_succ, Nat.sub_0_r, pw_S in Hs. pose proof (pw_pos (length a)). pose proof B_half. fold b M in Hs. nia. }
  change (js_bigint_to_float64 b) with
    (let '(mant, e) := js_bigint_get_mant_exp b in
     let '(mant, e) :=
       if 1023 <? e then (0, 1024)
       else
         let mant := shr_rndn (Z.lor (Z.shiftr mant 1) (Z.land mant 1)) 10 in
         let '(mant, e) := if Z.shiftl 1 53 <=? mant then (Z.shiftr mant 1, e + 1) else (mant, e) in
         (Z.land mant (Z.shiftl 1 52 - 1), e) in
     Z.lor (Z.lor (u64 (Z.shiftl (js_bigint_sign b) 63)) (u64 (Z.shiftl (e + 1023) 52))) mant).
  rewrite mant_exp_spec by done. fold M. unfold Z_to_double. destruct (Z.eqb_spec (sval b) 0); [done|]. fold M.
  rewrite (sval_sign b) by apply Ha. rewrite round53_large by lia. set (e := Z.log2 M) in *. cbv zeta.
  destruct (sticky_round M Hlog) as [Hr Hrnd]. fold e in Hr, Hrnd. cbv zeta in Hr.
  rewrite Hr. clear Hr. set (q := rounded M _) in *. clearbody q. rewrite !Z.shiftl_1_l.
  destruct (Z.ltb_spec 1023 e) as [Hbig|Hok].
  + destruct (Z.eqb_spec q (2 ^ 53)).
    * by destruct (Z.ltb_spec 1023 (e + 1)); [|lia].
    * by destruct (Z.ltb_spec 1023 e); [|lia].
  + destruct (Z.leb_spec (2 ^ 53) q), (Z.eqb_spec q (2 ^ 53)) as [->|]; try lia.
    * destruct (Z.ltb_spec 1023 (e + 1)); [|done].
      assert (e + 1 = 1024) as -> by lia. apply pack_1024.
    * by destruct (Z.ltb_spec 1023 e); [lia|].
Qed.

Lemma js_bigint_to_float64_spec a : bigint_ok a -> js_bigint_to_float64 a = Z_to_double (sval a).
Proof.
  intros Ha. destruct a as [|v [|v' a]]; [by destruct (bo_some _ Ha)| |by apply to_float64_large].
  unfold js_bigint_to_float64. pose proof (bo_limbs _ Ha) as Hv. inv_subst Hv. rewrite sint64_sval by done.
  pose proof (sval_range [v] ltac:(by constructor) ltac:(done)) as Hr. change (pw (length [v])) with (2 ^ 64) in Hr.
  unfold int64_to_double, Z_to_double. set (n := sval [v]) in *. clearbody n.
  destruct (Z.eqb_spec n 0) as [|Hn]; [done|].
  destruct (round53 (Z.abs n)) as [mant e] eqn:E.
  assert (He : e <= 64); [|by destruct (Z.ltb_spec 1023 e); [lia|]].
  assert (Z.log2 (Z.abs n) <= 63).
  { apply Z.lt_succ_r, Z.log2_lt_pow2; [lia|]. change (2 ^ Z.succ 63) with (2 ^ 64). lia. }
  unfold round53 in E. destruct (Z.leb_spec (Z.log2 (Z.abs n)) 52); [injection E; lia|].
  cbv zeta in E. destruct (_ =? 2 ^ 53); injection E; lia.
Qed.

(** ** Doubles as numbers *)

Notation double d := (0 <= d < 2 ^ 64).

Lemma fields_spec d : double d ->
  bit (f_sign d) /\ 0 <= f_exp d < 2048 /\ 0 <= f_mant d < 2 ^ 52 /\
  d = f_sign d * 2 ^ 63 + f_exp d * 2 ^ 52 + f_mant d.
Proof.
  intros Hd. unfold f_sign, f_exp, f_mant, bit. rewrite !Z.shiftl_1_l, !land_pow2_pred, !Z.shiftr_div_pow2 by lia.
  change (2 ^ 11) with 2048. div_lia.
Qed.

Lemma pack_spec s k m : bit s -> 0 <= k + 1023 < 2048 -> 0 <= m ->
  pack s k m = s * 2 ^ 63 + (k + 1023) * 2 ^ 52 + m mod 2 ^ 52.
Proof.
  intros Hs Hk Hm. unfold pack. rewrite !Z.shiftl_mul_pow2, Z.mul_1_l, land_pow2_pred by lia.
  rewrite !u64_small by (destruct Hs; lia). pose proof (Z.mod_pos_bound m (2 ^ 52) ltac:(lia)).
  rewrite (lor_low 63 (s * 2 ^ 63)), (lor_low 52) by (try apply Z_mod_mult; div_lia). done.
Qed.

Section doubles.
Context (mem : Z -> bool).

Lemma shl_mant m sgn k : 2 ^ 52 <= m < 2 ^ 53 \/ 0 < m < 2 ^ 53 -> bit sgn -> 0 <= k <= 1000 ->
  computes mem ((if sgn =? 0 then m else - m) * 2 ^ k) False
    (js_bigint_shl mem (js_bigint_set_si64 (if sgn =? 0 then m else u64 (- m))) k).
Proof.
  intros Hm Hs Hk. set (x := if sgn =? 0 then m else - m). unfold js_bigint_set_si64, js_bigint_set_si.
  assert (Eu : u64 (if sgn =? 0 then m else u64 (- m)) = u64 x) by (unfold x; destruct (sgn =? 0); [done|apply Zmod_mod]).
  rewrite Eu. assert (Ex : sval [u64 x] = x).
  { rewrite sval_single by apply limb_u64. pose proof B_half. pose proof B_large. rewrite u64_sub by (unfold x; destruct (sgn =? 0); lia).
    destruct (Z.ltb_spec x 0).
    - destruct (Z.leb_spec (2 ^ 63) (x + B)); unfold x in *; destruct (sgn =? 0); lia.
    - destruct (Z.leb_spec (2 ^ 63) x); unfold x in *; destruct (sgn =? 0); lia. }
  rewrite <- Z.shiftl_mul_pow2 by lia.
  pose proof (js_bigint_shl_spec mem [u64 x] k (single_ok _ (limb_u64 x)) ltac:(lia)) as H. rewrite Ex in H.
  eapply computes_weaken; [|exact H].
  unfold too_big, len, JS_LIMB_BITS. intros Hbig. change JS_BIGINT_MAX_SIZE with 16384 in Hbig. cbn [length] in Hbig.
  assert (k / 64 <= 1000 / 64) by (apply Z.div_le_mono; lia). change (1000 / 64) with 15 in *. lia.
Qed.

(** What a signed multiple of the unit stands for. *)
Lemma unit_multiple (s n U : Z) : 0 < U -> let v := if s =? 0 then n * U else - (n * U) in
  v mod U = 0 /\ v / U = if s =? 0 then n else - n.
Proof.
  intros HU v. assert (E : v = (if s =? 0 then n else - n) * U) by (unfold v; destruct (s =? 0); ring).
  rewrite E. split; [apply Z_mod_mult|]. apply Z.div_mul. lia.
Qed.

Lemma not_unit_multiple (s x U : Z) : 0 < U -> x mod U <> 0 -> (if s =? 0 then x else - x) mod U <> 0.
Proof.
  intros HU Hx. destruct (s =? 0); [done|]. intros E. apply Hx. rewrite <- (Z.opp_involutive x).
  by apply Z_mod_zero_opp_full.
Qed.

Definition from_float64_post (d : Z) (r : from_float64) : Prop :=
  match r with
  | FF_not_finite => f_exp d = 2047
  | FF_not_integer => f_exp d <> 2047 /\ double_val d mod 2 ^ 1074 <> 0
  | FF_bigint o => f_exp d <> 2047 /\ double_val d mod 2 ^ 1074 = 0 /\ computes mem (double_val d / 2 ^ 1074) False o
  end.

Lemma from_float64_spec d : double d -> from_float64_post d (js_bigint_from_float64 mem d).
Proof.
  intros Hd. destruct (fields_spec d Hd) as (Hs & He & Hm & _).
  unfold js_bigint_from_float64, from_float64_post, double_val.
  set (s := f_sign d) in *. set (e := f_exp d) in *. set (m := f_mant d) in *. clearbody s e m. clear Hd d.
  destruct (Z.eqb_spec e 2047) as [E|Hne]; [done|].
  assert (HU : 0 < 2 ^ 1074) by (apply pow2_pos; lia).
  assert (H52 : Z.lor m (Z.shiftl 1 52) = m + 2 ^ 52).
  { rewrite Z.lor_comm, Z.shiftl_1_l, (lor_low 52) by (done || lia). lia. }
  rewrite H52. clear H52. set (x := if e =? 0 then m else (m + 2 ^ 52) * 2 ^ (e - 1)). cbv zeta.
  destruct (Z.eqb_spec e 0) as [E0|H0]; cbn [andb]; [destruct (Z.eqb_spec m 0) as [Em|Em]|].
  - unfold x. rewrite Em. split; [done|]. destruct (unit_multiple s 0 (2 ^ 1074) HU) as [H1 H2]. rewrite Z.mul_0_l in *.
    rewrite H1, H2. split; [done|]. replace (if s =? 0 then 0 else - 0) with 0 by (by destruct (s =? 0)). by apply new_si_spec.
  - destruct (Z.ltb_spec (e - 1023) 0); [|lia]. split; [done|]. apply not_unit_multiple; [done|].
    assert (2 ^ 52 <= 2 ^ 1074) by (apply Z.pow_le_mono_r; lia). unfold x. rewrite Z.mod_small by lia. done.
  - unfold x. clear x. pose proof (pow2_pos (e - 1) ltac:(lia)) as Pe.
    destruct (Z.ltb_spec (e - 1023) 0) as [Hlt|Hge]; [|destruct (Z.ltb_spec (e - 1023) 52) as [Hs52|Hb]].
    + split; [done|]. apply not_unit_multiple; [done|]. rewrite Z.mod_small; [nia|]. split; [nia|].
      assert (2 ^ 53 * 2 ^ (e - 1) <= 2 ^ 1074) by (rewrite <- Z.pow_add_r by lia; apply Z.pow_le_mono_r; lia). nia.
    + set (sh := 52 - (e - 1023)). rewrite Z.shiftl_1_l, land_pow2_pred, Z.shiftr_div_pow2 by lia.
      assert (EU : 2 ^ 1074 = 2 ^ sh * 2 ^ (e - 1)) by (rewrite <- Z.pow_add_r by lia; f_equal; lia).
      pose proof (pow2_pos sh ltac:(lia)) as Psh. pose proof (Z_div_mod_eq_full (m + 2 ^ 52) (2 ^ sh)) as Ed.
      set (n := (m + 2 ^ 52) / 2 ^ sh) in *.
      destruct (Z.eqb_spec ((m + 2 ^ 52) mod 2 ^ sh) 0) as [Er|Er].
      * split; [done|]. replace ((m + 2 ^ 52) * 2 ^ (e - 1)) with (n * 2 ^ 1074) by (rewrite EU, Ed, Er; ring).
        destruct (unit_multiple s n (2 ^ 1074) HU) as [H1 H2]. rewrite H1, H2. split; [done|].
        rewrite <- (Z.mul_1_r (if s =? 0 then n else - n)), <- (Z.pow_0_r 2). apply shl_mant; [|done|lia].
        right. split; [nia|]. unfold n. apply Z.div_lt_upper_bound; [done|]. nia.
      * split; [done|]. apply not_unit_multiple; [done|]. rewrite EU, Z.mul_mod_distr_r by lia. nia.
    + split; [done|]. set (k := e - 1023 - 52).
      replace ((m + 2 ^ 52) * 2 ^ (e - 1)) with ((m + 2 ^ 52) * 2 ^ k * 2 ^ 1074)
        by (rewrite <- Z.mul_assoc, <- Z.pow_add_r by lia; do 2 f_equal; lia).
      destruct (unit_multiple s ((m + 2 ^ 52) * 2 ^ k) (2 ^ 1074) HU) as [H1 H2]. rewrite H1, H2. split; [done|].
      replace (if s =? 0 then (m + 2 ^ 52) * 2 ^ k else - ((m + 2 ^ 52) * 2 ^ k))
        with ((if s =? 0 then m + 2 ^ 52 else - (m + 2 ^ 52)) * 2 ^ k) by (destruct (s =? 0); ring).
      apply shl_mant; [lia|done|lia].
Qed.
End doubles.

(** An integer with at most 53 significant bits is its own rounding. *)
Lemma round53_exact M k n : 2 ^ 52 <= M < 2 ^ 53 -> 0 <= k -> 0 < n -> n * 2 ^ 52 = M * 2 ^ k -> round53 n = (M, k).
Proof.
  intros HM Hk Hn E. pose proof (pow2_pos k Hk) as Pk.
  assert (Elog : Z.log2 n = k).
  { apply Z.log2_unique; [done|]. rewrite Z.pow_succ_r by done. change (2 ^ 53) with (2 * 2 ^ 52) in HM. nia. }
  unfold round53. rewrite Elog. destruct (Z.leb_spec k 52) as [Hs|Hb].
  - f_equal. assert (E52 : 2 ^ 52 = 2 ^ k * 2 ^ (52 - k)) by (rewrite <- Z.pow_add_r by lia; f_equal; lia).
    apply (Z.mul_reg_r _ _ (2 ^ k)); [lia|]. rewrite <- E, E52. ring.
  - assert (Ed : 2 ^ k = 2 ^ (k - 52) * 2 ^ 52) by (rewrite <- Z.pow_add_r by lia; f_equal; lia).
    pose proof (pow2_pos (k - 52) ltac:(lia)) as Pd. set (d := 2 ^ (k - 52)) in *.
    assert (En : n = M * d) by (apply (Z.mul_reg_r _ _ (2 ^ 52)); [lia|]; rewrite E, Ed; ring).
    rewrite En, Z.div_mul, Z_mod_mult by lia. destruct (Z.ltb_spec d (2 * 0)), (Z.eqb_spec d (2 * 0)); try lia.
    cbn [orb andb]. by destruct (Z.eqb_spec M (2 ^ 53)); [lia|].
Qed.

(** Rounding the integer that a double is gives the double back. *)
Lemma Z_to_double_val d : double d -> f_exp d <> 2047 -> double_val d mod 2 ^ 1074 = 0 ->
  Z_to_double (double_val d / 2 ^ 1074) = if double_val d =? 0 then 0 else d.
Proof.
  intros Hd Hne Hmod. destruct (fields_spec d Hd) as (Hs & He & Hm & Ed).
  assert (HU : 0 < 2 ^ 1074) by (apply pow2_pos; lia).
  apply Z_div_exact_full_2 in Hmod; [|lia]. set (n := double_val d / 2 ^ 1074) in *.
  destruct (Z.eqb_spec (double_val d) 0) as [Ev|Ev].
  { assert (n = 0) as -> by nia. done. }
  assert (Hn : n <> 0) by (intros ->; lia). unfold double_val in Hmod, Ev. rewrite Ed.
  set (s := f_sign d) in *. set (e := f_exp d) in *. set (m := f_mant d) in *. clearbody s e m n. clear Ed Hd d.
  destruct (Z.eqb_spec e 0) as [E0|H0].
  { exfalso. assert (2 ^ 52 <= 2 ^ 1074) by (apply Z.pow_le_mono_r; lia). destruct (s =? 0); nia. }
  pose proof (pow2_pos (e - 1) ltac:(lia)) as Pe.
  assert (Hsg : (if n <? 0 then 1 else 0) = s).
  { destruct (Z.ltb_spec n 0), Hs as [-> | ->]; cbn [Z.eqb] in *; try done; nia. }
  assert (Habs : Z.abs n * 2 ^ 1074 = (m + 2 ^ 52) * 2 ^ (e - 1)).
  { rewrite <- (Z.abs_eq (2 ^ 1074)), <- Z.abs_mul, Z.mul_comm, <- Hmod by lia. destruct (s =? 0); rewrite ?Z.abs_opp, Z.abs_eq; nia. }
  assert (Hk : 0 <= e - 1023).
  { destruct (Z.le_gt_cases 0 (e - 1023)); [done|exfalso].
    assert (2 ^ 53 * 2 ^ (e - 1) <= 2 ^ 1074) by (rewrite <- Z.pow_add_r by lia; apply Z.pow_le_mono_r; lia). nia. }
  unfold Z_to_double. destruct (Z.eqb_spec n 0); [done|].
  assert (E52 : Z.abs n * 2 ^ 52 = (m + 2 ^ 52) * 2 ^ (e - 1023)).
  { apply (Z.mul_reg_r _ _ (2 ^ 1022)); [pose proof (pow2_pos 1022); lia|].
    rewrite <- !Z.mul_assoc, <- !Z.pow_add_r by lia. by replace (e - 1023 + 1022) with (e - 1) by lia. }
  rewrite (round53_exact (m + 2 ^ 52) (e - 1023) (Z.abs n)) by (done || lia).
  destruct (Z.ltb_spec 1023 (e - 1023)); [lia|]. rewrite pack_spec, Hsg by (rewrite ?Hsg; done || lia).
  assert ((m + 2 ^ 52) mod 2 ^ 52 = m) as -> by (rewrite Z.add_mod, Z_mod_same_full, Z.add_0_r, Zmod_mod, Z.mod_small; lia).
  replace (e - 1023 + 1023) with e by lia. done.
Qed.

(** ** Comparison with a double *)

Lemma sticky_cmp x k T : 0 <= k -> T mod 2 = 0 ->
  (sticky x k < T <-> x < T * 2 ^ k) /\ (sticky x k = T <-> x = T * 2 ^ k).
Proof.
  intros Hk HT. unfold sticky. pose proof (pow2_pos k Hk) as Pk. pose proof (Z_div_mod_eq_full x (2 ^ k)) as E.
  pose proof (Z.mod_pos_bound x (2 ^ k) Pk) as Hr. set (q := x / 2 ^ k) in *. set (r := x mod 2 ^ k) in *.
  rewrite lor_bit by apply bit_b2z. pose proof (Z_div_mod_eq_full q 2). pose proof (Z_div_mod_eq_full T 2).
  pose proof (Z.mod_pos_bound q 2 ltac:(lia)). clearbody q r.
  destruct (Z.eqb_spec r 0) as [Er|Er]; cbn [negb Z.b2z Z.eqb].
  - rewrite Er in *. split; nia.
  - assert (Hq : q < T <-> x < T * 2 ^ k) by nia. rewrite <- Hq. split; [lia|]. split; [lia|nia].
Qed.

(** The magnitudes compared through exponents and significands. *)
Lemma cmp_magnitudes M e m : 0 < M -> 1 <= e < 2047 -> 0 <= m < 2 ^ 52 ->
  let f := Z.log2 M in
  let bv := (m + 2 ^ 52) * 2 ^ (e - 1) in
  (f < e - 1023 -> M * 2 ^ 1074 < bv) /\ (e - 1023 < f -> bv < M * 2 ^ 1074) /\
  (f = e - 1023 -> (sticky (M * 2 ^ 63) f < (m + 2 ^ 52) * 2 ^ 11 <-> M * 2 ^ 1074 < bv) /\
                   (sticky (M * 2 ^ 63) f = (m + 2 ^ 52) * 2 ^ 11 <-> M * 2 ^ 1074 = bv)).
Proof.
  intros HM He Hm f bv. pose proof (Z.log2_nonneg M) as Hf. pose proof (Z.log2_spec M HM) as [HM1 HM2]. fold f in Hf, HM1, HM2.
  pose proof (pow2_pos (e - 1) ltac:(lia)) as Pe. pose proof (pow2_pos 1074 ltac:(lia)) as PU.
  assert (Hb1 : 2 ^ (e + 51) <= bv) by (replace (e + 51) with (52 + (e - 1)) by lia; rewrite Z.pow_add_r by lia; unfold bv; nia).
  assert (Hb2 : bv < 2 ^ (e + 52)) by (replace (e + 52) with (53 + (e - 1)) by lia; rewrite Z.pow_add_r by lia; unfold bv; nia).
  split; [|split].
  - intros Hlt. eapply Z.lt_le_trans; [|exact Hb1].
    assert (2 ^ Z.succ f * 2 ^ 1074 <= 2 ^ (e + 51)) by (rewrite <- Z.pow_add_r by lia; apply Z.pow_le_mono_r; lia). nia.
  - intros Hlt. eapply Z.lt_le_trans; [exact Hb2|].
    assert (2 ^ (e + 52) <= 2 ^ f * 2 ^ 1074) by (rewrite <- Z.pow_add_r by lia; apply Z.pow_le_mono_r; lia). nia.
  - intros Ef. destruct (sticky_cmp (M * 2 ^ 63) f ((m + 2 ^ 52) * 2 ^ 11) Hf) as [H1 H2].
    { change (2 ^ 11) with (1024 * 2). rewrite Z.mul_assoc. apply Z_mod_mult. }
    rewrite H1, H2. assert (PW : 0 < 2 ^ 1011) by (apply pow2_pos; lia).
    assert (E1 : M * 2 ^ 1074 = M * 2 ^ 63 * 2 ^ 1011) by (rewrite <- Z.mul_assoc, <- Z.pow_add_r by lia; done).
    assert (E2 : bv = (m + 2 ^ 52) * 2 ^ 11 * 2 ^ f * 2 ^ 1011).
    { unfold bv. rewrite <- !Z.mul_assoc, <- !Z.pow_add_r by lia. do 2 f_equal. lia. }
    rewrite E1, E2. split; [apply Z.mul_lt_mono_pos_r; done|]. split; [by intros ->|]. apply Z.mul_reg_r. lia.
Qed.

(** The same for every finite double that is not zero. *)
Lemma cmp_cases M e m : 0 < M -> 0 <= e < 2047 -> 0 <= m < 2 ^ 52 ->
  let f := Z.log2 M in
  let bv := if e =? 0 then m else (m + 2 ^ 52) * 2 ^ (e - 1) in
  0 < bv ->
  if f =? e - 1023 then
    (sticky (M * 2 ^ 63) f < (m + 2 ^ 52) * 2 ^ 11 <-> M * 2 ^ 1074 < bv) /\
    (sticky (M * 2 ^ 63) f = (m + 2 ^ 52) * 2 ^ 11 <-> M * 2 ^ 1074 = bv)
  else if f <? e - 1023 then M * 2 ^ 1074 < bv else bv < M * 2 ^ 1074.
Proof.
  intros HM He Hm f bv Hbv. pose proof (Z.log2_nonneg M) as Hf. fold f in Hf. unfold bv. destruct (Z.eqb_spec e 0) as [E0|E0].
  - destruct (Z.eqb_spec f (e - 1023)), (Z.ltb_spec f (e - 1023)); lia.
  - destruct (cmp_magnitudes M e m) as (H1 & H2 & H3); [done|lia|done|]. fold f in H1, H2, H3.
    destruct (Z.eqb_spec f (e - 1023)); [by apply H3|]. destruct (Z.ltb_spec f (e - 1023)); [by apply H1|apply H2; lia].
Qed.

Definition is_zero (a : JSBigInt) : bool := match a with [0] => true | _ => false end.

Lemma is_zero_spec a : bigint_ok a -> is_zero a = (sval a =? 0).
Proof.
  intros Ha. destruct (Z.eqb_spec (sval a) 0) as [E|E].
  - by apply sval_zero in E as ->.
  - destruct a as [|[|p|p] [|]]; done.
Qed.

Lemma cmp_unfold a b : js_bigint_float64_cmp a b =
  if f_exp b =? 2047 then if negb (f_mant b =? 0) then 2 else 2 * f_sign b - 1
  else if (f_exp b =? 0) && (f_mant b =? 0) then if is_zero a then 0 else 1 - 2 * js_bigint_sign a
  else if is_zero a then 2 * f_sign b - 1
  else if negb (js_bigint_sign a =? f_sign b) then 1 - 2 * js_bigint_sign a
  else
    let '(a_mant, f) := js_bigint_get_mant_exp a in
    if negb (f =? f_exp b - 1023) then if f <? f_exp b - 1023 then -1 else 1
    else
      let mant := Z.shiftl (Z.lor (f_mant b) (Z.shiftl 1 52)) 11 in
      if a_mant <? mant then 2 * js_bigint_sign a - 1
      else if mant <? a_mant then 1 - 2 * js_bigint_sign a
      else 0.
Proof. reflexivity. Qed.

(** Both operands negative and of different binary exponents. *)
Definition cmp_reversed (a : JSBigInt) (b : Z) : bool :=
  (sval a <? 0) && (double_val b <? 0) && negb (Z.log2 (Z.abs (sval a)) =? f_exp b - 1023).

(** The sign of the difference, for a finite double. *)
Definition exact_cmp (a : JSBigInt) (b : Z) : Z := Z.sgn (sval a * 2 ^ 1074 - double_val b).

(** Operands of the same sign, neither zero. *)
Lemma cmp_same_sign a b : bigint_ok a -> double b -> f_exp b <> 2047 -> sval a <> 0 ->
  ~ (f_exp b = 0 /\ f_mant b = 0) -> js_bigint_sign a = f_sign b ->
  js_bigint_float64_cmp a b = if cmp_reversed a b then - exact_cmp a b else exact_cmp a b.
Proof.
  intros Ha Hb Hfin H0 Hb0 Es. destruct (fields_spec b Hb) as (Hs & He & Hm & _).
  pose proof (sval_sign a (bo_limbs _ Ha) (bo_some _ Ha)) as Ea. rewrite cmp_unfold, (is_zero_spec a Ha).
  destruct (Z.eqb_spec (f_exp b) 2047); [done|]. destruct (Z.eqb_spec (sval a) 0); [done|].
  assert (Hz : (f_exp b =? 0) && (f_mant b =? 0) = false) by (apply andb_false_iff; rewrite !Z.eqb_neq; lia).
  rewrite Hz, Es, Z.eqb_refl. cbn [negb]. rewrite mant_exp_spec by done. unfold cmp_reversed, exact_cmp, double_val.
  set (M := Z.abs (sval a)). set (f := Z.log2 M). assert (HM : 0 < M) by (unfold M; lia).
  pose proof (Z.log2_nonneg M) as Hf. fold f in Hf. pose proof (pow2_pos 1074 ltac:(lia)) as PU.
  assert (Emant : Z.shiftl (Z.lor (f_mant b) (Z.shiftl 1 52)) 11 = (f_mant b + 2 ^ 52) * 2 ^ 11).
  { rewrite Z.shiftl_mul_pow2, Z.lor_comm, Z.shiftl_1_l, (lor_low 52) by (done || lia). f_equal. lia. }
  rewrite Emant. set (s := f_sign b) in *. set (e := f_exp b) in *. set (m := f_mant b) in *. clearbody s e m. cbv zeta.
  set (bv := if e =? 0 then m else (m + 2 ^ 52) * 2 ^ (e - 1)). assert (Hbv : 0 < bv).
  { unfold bv. destruct (Z.eqb_spec e 0); [lia|]. pose proof (pow2_pos (e - 1)). nia. }
  pose proof (cmp_cases M e m HM ltac:(lia) Hm Hbv) as Hcmp. cbv zeta in Hcmp. fold f bv in Hcmp.
  assert (Esa : sval a = if s =? 0 then M else - M).
  { rewrite <- Es, Ea. unfold M. destruct (Z.ltb_spec (sval a) 0); cbn [Z.eqb]; lia. }
  rewrite Esa. clearbody M f bv. clear Emant Hz Ea Esa Hb Hm Hb0 H0 Hfin Ha.
  destruct Hs as [-> | ->]; cbn [Z.eqb].
  - destruct (Z.ltb_spec M 0); [lia|]. cbn [andb]. destruct (Z.eqb_spec f (e - 1023)); cbn [negb].
    + destruct (Z.ltb_spec (sticky (M * 2 ^ 63) f) ((m + 2 ^ 52) * 2 ^ 11)), (Z.ltb_spec ((m + 2 ^ 52) * 2 ^ 11) (sticky (M * 2 ^ 63) f)); lia.
    + destruct (Z.ltb_spec f (e - 1023)); lia.
  - destruct (Z.ltb_spec (- M) 0); [|lia]. destruct (Z.ltb_spec (- bv) 0); [|lia]. cbn [andb].
    destruct (Z.eqb_spec f (e - 1023)); cbn [negb].
    + destruct (Z.ltb_spec (sticky (M * 2 ^ 63) f) ((m + 2 ^ 52) * 2 ^ 11)), (Z.ltb_spec ((m + 2 ^ 52) * 2 ^ 11) (sticky (M * 2 ^ 63) f)); lia.
    + destruct (Z.ltb_spec f (e - 1023)); lia.
Qed.

Lemma float64_cmp_spec a b : bigint_ok a -> double b ->
  js_bigint_float64_cmp a b =
  if f_exp b =? 2047 then if f_mant b =? 0 then 2 * f_sign b - 1 else 2
  else if cmp_reversed a b then - exact_cmp a b else exact_cmp a b.
Proof.
  intros Ha Hb. destruct (fields_spec b Hb) as (Hs & He & Hm & _).
  pose proof (sval_sign a (bo_limbs _ Ha) (bo_some _ Ha)) as Ea. pose proof (pow2_pos 1074 ltac:(lia)) as PU.
  destruct (Z.eqb_spec (f_exp b) 2047) as [E|Hne].
  { rewrite cmp_unfold. destruct (Z.eqb_spec (f_exp b) 2047); [|contradiction]. by destruct (f_mant b =? 0). }
  destruct (decide (f_exp b = 0 /\ f_mant b = 0)) as [[E0 E1]|Hnz].
  { assert (Ev : double_val b = 0) by (unfold double_val; rewrite E0, E1; by destruct (f_sign b =? 0)).
    rewrite cmp_unfold, (is_zero_spec a Ha), E0, E1. unfold cmp_reversed, exact_cmp. set (U := 2 ^ 1074) in *. clearbody U. rewrite Ev. cbn [Z.eqb andb Z.ltb Z.compare].
    rewrite andb_false_r. cbn [andb]. rewrite Ea. destruct (Z.eqb_spec (sval a) 0), (Z.ltb_spec (sval a) 0); try lia; nia. }
  assert (Hbv : if f_sign b =? 0 then 0 < double_val b else double_val b < 0).
  { unfold double_val. destruct (Z.eqb_spec (f_exp b) 0); [destruct Hs as [-> | ->]; cbn [Z.eqb]; lia|].
    pose proof (pow2_pos (f_exp b - 1) ltac:(lia)). destruct Hs as [-> | ->]; cbn [Z.eqb]; nia. }
  destruct (Z.eq_dec (sval a) 0) as [Z0|Z0].
  { rewrite cmp_unfold, (is_zero_spec a Ha). destruct (Z.eqb_spec (f_exp b) 2047); [contradiction|].
    assert (Hz : (f_exp b =? 0) && (f_mant b =? 0) = false) by (apply andb_false_iff; rewrite !Z.eqb_neq; lia).
    rewrite Hz. unfold cmp_reversed, exact_cmp. set (U := 2 ^ 1074) in *. clearbody U. rewrite Z0. cbn [Z.eqb Z.ltb Z.compare andb].
    destruct Hs as [Es|Es]; rewrite Es in *; cbn [Z.eqb] in Hbv; lia. }
  destruct (Z.eq_dec (js_bigint_sign a) (f_sign b)) as [Es|Es]; [by apply cmp_same_sign|].
  rewrite cmp_unfold, (is_zero_spec a Ha). destruct (Z.eqb_spec (f_exp b) 2047); [contradiction|]. destruct (Z.eqb_spec (sval a) 0); [contradiction|].
  assert (Hz : (f_exp b =? 0) && (f_mant b =? 0) = false) by (apply andb_false_iff; rewrite !Z.eqb_neq; lia).
  rewrite Hz. destruct (Z.eqb_spec (js_bigint_sign a) (f_sign b)); [contradiction|]. cbn [negb]. unfold cmp_reversed, exact_cmp. set (U := 2 ^ 1074) in *. clearbody U.
  rewrite Ea in *. destruct (Z.ltb_spec (sval a) 0), Hs as [E|E]; rewrite E in *; cbn [Z.eqb] in Hbv; try lia.
  - destruct (Z.ltb_spec (double_val b) 0); [lia|]. cbn [andb]. nia.
  - cbn [andb]. nia.
Qed.

(** ** Properties *)

(** Converting a BigInt to a Number rounds to the nearest double, ties
    to even, and gives an infinity from [2^1024 - 2^970] on, whatever the
    number of limbs: the two high limbs and the sticky bit carry enough
    information. *)
Theorem bigint_to_float64_rounds (a : JSBigInt) :
  bigint_ok a -> js_bigint_to_float64 a = Z_to_double (sval a).
Proof. apply js_bigint_to_float64_spec. Qed.

Lemma bigint_to_float64_rounds_witness : js_bigint_to_float64 big_example = Z_to_double (2 ^ 64).
Proof. exact (bigint_to_float64_rounds big_example big_example_ok). Defined.

(** From Number to BigInt and back.  Infinities and NaN, and doubles
    that are not integers, are told apart and rejected; an integer is
    converted exactly, and converting the BigInt to a Number gives the same
    double again, [-0] becoming [0]. *)
Theorem float64_bigint_roundtrip (mem : Z -> bool) (d : Z) :
  0 <= d < 2 ^ 64 ->
  match js_bigint_from_float64 mem d with
  | FF_not_finite => f_exp d = 2047
  | FF_not_integer => f_exp d <> 2047 /\ double_val d mod 2 ^ 1074 <> 0
  | FF_bigint (Ret r) =>
      bigint_ok r /\ sval r * 2 ^ 1074 = double_val d /\
      js_bigint_to_float64 r = (if double_val d =? 0 then 0 else d)
  | FF_bigint (Throw e) => e = OutOfMemory /\ exists n, mem n = false
  end.
Proof.
  intros Hd. pose proof (from_float64_spec mem d Hd) as H. unfold from_float64_post in H.
  destruct (js_bigint_from_float64 mem d) as [[r|e]| |]; try done; destruct H as (Hf & Hm & Hc).
  - destruct Hc as [Hr Er]. pose proof (pow2_pos 1074 ltac:(lia)). split; [done|]. split.
    + rewrite Er, Z.mul_comm. symmetry. apply Z_div_exact_full_2; [lia|done].
    + rewrite js_bigint_to_float64_spec, Er by done. by apply Z_to_double_val.
  - by destruct e.
Qed.

(** [2^64] and [0.5] as doubles. *)
Lemma float64_bigint_roundtrip_witness :
  bigint_ok [0; 1] /\ sval [0; 1] * 2 ^ 1074 = double_val (pack 0 64 0) /\
  js_bigint_to_float64 [0; 1] = pack 0 64 0 /\
  double_val (pack 0 (-1) 0) mod 2 ^ 1074 <> 0.
Proof.
  assert (H1 : 0 <= pack 0 64 0 < 2 ^ 64) by (vm_compute; split; [discriminate|reflexivity]).
  assert (H2 : 0 <= pack 0 (-1) 0 < 2 ^ 64) by (vm_compute; split; [discriminate|reflexivity]).
  pose proof (float64_bigint_roundtrip (fun _ => true) (pack 0 64 0) H1) as A.
  pose proof (float64_bigint_roundtrip (fun _ => true) (pack 0 (-1) 0) H2) as C.
  change (js_bigint_from_float64 (fun _ => true) (pack 0 64 0)) with (FF_bigint (Ret [0; 1])) in A.
  change (js_bigint_from_float64 (fun _ => true) (pack 0 (-1) 0)) with FF_not_integer in C.
  change (double_val (pack 0 64 0) =? 0) with false in A. cbv iota beta in A.
  destruct A as (A1 & A2 & A3), C as [_ C]. auto.
Defined.

(** [C24] Comparing a BigInt with a double.  NaN is unordered, infinities
    compare as such, and a finite double is compared exactly, except that
    two negative operands with different binary exponents are answered in
    reverse: [-1n < -4.5] holds for the engine. *)
Theorem bigint_float64_cmp_exact_or_reversed (a : JSBigInt) (b : Z) :
  bigint_ok a -> 0 <= b < 2 ^ 64 ->
  js_bigint_float64_cmp a b =
  if f_exp b =? 2047 then if f_mant b =? 0 then 2 * f_sign b - 1 else 2
  else if cmp_reversed a b then - exact_cmp a b else exact_cmp a b.
Proof. apply float64_cmp_spec. Qed.

(** [-1] and [-4.5]: the answer is "less", the exact comparison is
    "greater". *)
Lemma bigint_float64_cmp_exact_or_reversed_witness :
  js_bigint_float64_cmp [limb_ones] 0xC012000000000000 = - exact_cmp [limb_ones] 0xC012000000000000 /\
  exact_cmp [limb_ones] 0xC012000000000000 = 1.
Proof.
  assert (Ha : bigint_ok [limb_ones]) by (apply single_ok; split; vm_compute; done).
  split; [|vm_compute; reflexivity].
  apply (bigint_float64_cmp_exact_or_reversed [limb_ones] 0xC012000000000000 Ha). lia.
Defined.
