(* ===== verification/BigIntText.v ===== *)
(** * BigInts as text

    Printing a BigInt in any radix gives the digits of the integer and fits
    the buffer allocated for it; parsing gives the integer back and never
    writes past the limbs allocated for it. *)
From S2P Require Import Prelude Native BigInt BigIntProps BigIntOps Digits BigIntConv.

(** ** Printing *)

(** Bits [64 pos ..] of an array. *)
Lemma uval_div_pw tab : limbs tab -> forall pos, uval tab / pw pos = limb_at tab pos + B * (uval tab / pw (S pos)).
Proof.
  intros Ht pos. pose proof B_pos. pose proof (pw_pos pos) as Hp. pose proof (uval_bounds tab Ht) as Hu.
  set (y := uval tab / pw pos).
  assert (Ed : uval tab / pw (S pos) = y / B) by (rewrite pw_S, (Z.mul_comm B); unfold y; rewrite Z.div_div; lia).
  rewrite Ed.
  assert (Hl : limb_at tab pos = y mod B); [|rewrite Hl, Z.add_comm; apply Z_div_mod_eq_full].
  destruct (Nat.lt_ge_cases pos (length tab)) as [Hlt|Hge].
  - destruct (lookup_lt_is_Some_2 tab pos Hlt) as [x Hx]. unfold limb_at. rewrite Hx. simpl.
    pose proof (proj1 (Forall_lookup _ _) Ht pos x Hx) as Hlx. unfold limb in Hlx.
    pose proof (take_drop_middle tab pos x Hx) as E.
    assert (Ey : y = x + B * uval (drop (S pos) tab)).
    { unfold y. symmetry. apply (Z.div_unique_pos _ _ _ (uval (take pos tab))).
      - destruct (Forall_take_drop limb pos tab Ht) as [Htl _]. pose proof (uval_bounds _ Htl) as Hb.
        rewrite length_take, Nat.min_l in Hb by lia. done.
      - rewrite <- E at 1. rewrite uval_app, length_take, Nat.min_l by lia. cbn [uval]. ring. }
    rewrite Ey, Z.mul_comm, Z_mod_plus_full, Z.mod_small; done.
  - unfold limb_at. rewrite lookup_ge_None_2 by done. simpl.
    assert (y = 0) as ->; [|by rewrite Zmod_0_l]. apply Z.div_small. split; [lia|].
    assert (pw (length tab) <= pw pos); [|lia]. replace pos with (length tab + (pos - length tab))%nat by lia.
    rewrite pw_add. pose proof (pw_pos (length tab)). pose proof (pw_pos (pos - length tab)). nia.
Qed.

(** A digit of at most 32 bits that may span two limbs. *)
Lemma span_digit x y s b : limb x -> 0 <= y -> 0 <= s < 64 -> 0 < b <= 32 ->
  ((x + B * y) / 2 ^ s) mod 2 ^ b =
  if 64 <? s + b then (x / 2 ^ s + 2 ^ (64 - s) * y) mod 2 ^ b else (x / 2 ^ s) mod 2 ^ b.
Proof.
  intros Hx Hy Hs Hb. rewrite (B_split s) by lia. pose proof (pow2_pos s ltac:(lia)).
  replace (x + 2 ^ s * 2 ^ (64 - s) * y) with (x + 2 ^ (64 - s) * y * 2 ^ s) by ring. rewrite Z.div_add by lia.
  destruct (Z.ltb_spec 64 (s + b)); [done|].
  replace (2 ^ (64 - s)) with (2 ^ (64 - s - b) * 2 ^ b) by (rewrite <- Z.pow_add_r by lia; f_equal; lia).
  replace (2 ^ (64 - s - b) * 2 ^ b * y) with (2 ^ (64 - s - b) * y * 2 ^ b) by ring. by apply Z_mod_plus_full.
Qed.

Lemma digit_at_spec d : 0 <= d < 36 -> digit_at d = digit_char d.
Proof.
  intros Hd. apply Z.eqb_eq. apply (below_forallb 36 (fun d => digit_at d =? digit_char d)); [vm_compute; reflexivity|done].
Qed.

(** One digit of [bin_out]. *)
Lemma bin_digit tab b i : limbs tab -> 0 < b <= 5 -> 0 <= i ->
  let bit_pos := i * b in
  let pos := Z.to_nat (bit_pos / JS_LIMB_BITS) in
  let shift := bit_pos mod JS_LIMB_BITS in
  let c := u32 (Z.shiftr (limb_at tab pos) shift) in
  let c := if (JS_LIMB_BITS <? shift + b) && (Z.of_nat (S pos) <? len tab)
           then u32 (Z.lor c (u64 (Z.shiftl (limb_at tab (S pos)) (JS_LIMB_BITS - shift)))) else c in
  Z.land c (2 ^ b - 1) = (uval tab / (2 ^ b) ^ i) mod 2 ^ b.
Proof.
  intros Ht Hb Hi bit_pos pos shift. destruct (shift_split bit_pos ltac:(unfold bit_pos; nia)) as [Ep Hs].
  fold pos shift in Ep, Hs. rewrite <- Z.pow_mul_r, (Z.mul_comm b) by lia. fold bit_pos. rewrite Ep.
  pose proof (pw_pos pos) as Hpp. pose proof (pow2_pos shift ltac:(lia)) as Hps. pose proof (pow2_pos b ltac:(lia)) as Hpb.
  rewrite <- Z.div_div, (uval_div_pw tab Ht pos) by lia. pose proof (uval_bounds tab Ht) as Hu.
  assert (Hlim : forall k, limb (limb_at tab k)).
  { intros k. destruct (Nat.lt_ge_cases k (length tab)); [by apply limb_at_lt|].
    unfold limb_at. rewrite lookup_ge_None_2 by done. simpl. pose proof B_pos. unfold limb. lia. }
  pose proof (Hlim pos) as Hx. pose proof (Hlim (S pos)) as Hx'. set (x := limb_at tab pos) in *. set (x' := limb_at tab (S pos)) in *.
  rewrite (span_digit x _ shift b Hx) by (try apply Z.div_pos; try apply pw_pos; lia). unfold JS_LIMB_BITS.
  rewrite Z.shiftr_div_pow2 by lia.
  assert (Hu32 : forall z, Z.land (u32 z) (2 ^ b - 1) = z mod 2 ^ b).
  { intros z. rewrite land_pow2_pred by lia. unfold u32. rewrite (Z.mod_mod_divide z (2 ^ 32)); [done|].
    exists (2 ^ (32 - b)). rewrite <- Z.pow_add_r by lia. f_equal. lia. }
  destruct (Z.ltb_spec 64 (shift + b)) as [Hspan|Hin]; cbn [andb]; [|apply Hu32].
  assert (Hs1 : shift <> 0) by lia. pose proof (pow2_pos (64 - shift) ltac:(lia)) as Hp64.
  assert (Hsm : 0 <= x / 2 ^ shift < 2 ^ (64 - shift)).
  { unfold limb in Hx. rewrite (B_split shift) in Hx by lia. split; [apply Z.div_pos; lia|apply Z.div_lt_upper_bound; lia]. }
  rewrite (uval_div_pw tab Ht (S pos)). fold x'. set (y' := uval tab / pw (S (S pos))).
  assert (Emod : (x / 2 ^ shift + 2 ^ (64 - shift) * (x' + B * y')) mod 2 ^ b = (x / 2 ^ shift + 2 ^ (64 - shift) * x') mod 2 ^ b).
  { replace (x / 2 ^ shift + 2 ^ (64 - shift) * (x' + B * y')) with (x / 2 ^ shift + 2 ^ (64 - shift) * x' + 2 ^ (64 - shift) * y' * B) by ring.
    rewrite (B_split b) by lia. replace (2 ^ (64 - shift) * y' * (2 ^ b * 2 ^ (64 - b))) with (2 ^ (64 - shift) * y' * 2 ^ (64 - b) * 2 ^ b) by ring.
    by apply Z_mod_plus_full. }
  rewrite Emod. destruct (Z.ltb_spec (Z.of_nat (S pos)) (len tab)) as [Hl|Hl].
  - rewrite Hu32. assert (u32 (x / 2 ^ shift) = x / 2 ^ shift) as ->.
    { unfold u32. apply Z.mod_small. assert (2 ^ (64 - shift) <= 2 ^ 32) by (apply Z.pow_le_mono_r; lia). lia. }
    rewrite limb_shl by (done || lia). replace (64 - (64 - shift)) with shift by lia.
    rewrite Z.lor_comm, (lor_low (64 - shift)) by (try apply Z_mod_mult; done || lia).
    rewrite (Z.mul_comm (2 ^ (64 - shift))). rewrite Z.add_comm.
    assert (Hx2 : x' = x' mod 2 ^ shift + x' / 2 ^ shift * 2 ^ shift) by (pose proof (Z_div_mod_eq_full x' (2 ^ shift)); lia).
    rewrite Hx2 at 2. assert (HB : 2 ^ shift * 2 ^ (64 - shift) = 2 ^ (64 - b) * 2 ^ b) by (rewrite <- !Z.pow_add_r by lia; f_equal; lia).
    replace (x / 2 ^ shift + (x' mod 2 ^ shift + x' / 2 ^ shift * 2 ^ shift) * 2 ^ (64 - shift))
      with (x / 2 ^ shift + x' mod 2 ^ shift * 2 ^ (64 - shift) + x' / 2 ^ shift * 2 ^ (64 - b) * 2 ^ b)
      by (rewrite <- Z.mul_assoc, <- HB; ring).
    by rewrite Z_mod_plus_full.
  - rewrite Hu32. assert (x' = 0) as ->; [|by rewrite Z.mul_0_r, Z.add_0_r]. unfold x', limb_at.
    rewrite lookup_ge_None_2; [done|]. unfold len in Hl. lia.
Qed.

Lemma bin_out_spec tab b n : limbs tab -> 0 < b <= 5 -> forall i q, 0 <= i ->
  bin_out n b (2 ^ b) i tab q = (digit_char <$> fixed_digits (2 ^ b) n (uval tab / (2 ^ b) ^ i)) ++ q.
Proof.
  intros Ht Hb. induction n as [|n IH]; intros i q Hi; [done|]. cbn [bin_out fixed_digits].
  rewrite (bin_digit tab b i Ht Hb Hi). pose proof (pow2_pos b ltac:(lia)) as Hp.
  assert (2 ^ b <= 2 ^ 5) by (apply Z.pow_le_mono_r; lia).
  rewrite digit_at_spec by (pose proof (Z.mod_pos_bound (uval tab / (2 ^ b) ^ i) (2 ^ b) Hp); lia).
  pose proof (Z.pow_pos_nonneg (2 ^ b) i Hp Hi).
  assert (Ed : uval tab / (2 ^ b) ^ i / 2 ^ b = uval tab / (2 ^ b) ^ (i + 1)).
  { rewrite Z.div_div, Z.add_1_r, Z.pow_succ_r by lia. f_equal. ring. }
  rewrite IH, Ed by lia. by rewrite fmap_app, <- app_assoc.
Qed.

(** The number of significant bits of a positive BigInt. *)
Lemma n_bits_spec r : bigint_ok r -> 0 < sval r ->
  len r * JS_LIMB_BITS - js_limb_safe_clz (limb_at r (length r - 1)) = Z.log2 (sval r) + 1 /\ uval r = sval r.
Proof.
  intros Hr Hpos. pose proof Hr as [Hl Hne _]. pose proof (nonnil_length r Hne) as Hlen.
  assert (Es : js_bigint_sign r = 0) by (rewrite sval_sign by done; destruct (Z.ltb_spec (sval r) 0); lia).
  assert (Eu : uval r = sval r) by (unfold sval; rewrite Es; ring). split; [|done].
  pose proof (size_bound r Hr ltac:(lia)) as Hsize. pose proof (uval_top r Hne) as Et.
  set (n := (length r - 1)%nat) in *. destruct (Forall_take_drop limb n r Hl) as [Htl _]. pose proof (uval_bounds _ Htl) as Hb.
  rewrite length_take, Nat.min_l in Hb by lia. pose proof (limb_at_lt r n Hl ltac:(lia)) as Ht. unfold limb in Ht.
  set (t := limb_at r n) in *. rewrite Eu in Et. unfold js_limb_safe_clz, JS_LIMB_BITS, len, js_limb_clz.
  replace (Z.of_nat (length r)) with (Z.of_nat n + 1) by lia. rewrite pw_pow2 in *. set (P := 2 ^ (64 * Z.of_nat n)) in *.
  destruct (Z.eqb_spec t 0) as [E0|E0].
  - rewrite E0, Z.mul_0_r, Z.add_0_r in Et. assert (Hlog : Z.log2 (sval r) = 64 * Z.of_nat n - 1); [|lia].
    assert (Hn : n <> 0%nat) by (intros E; unfold P in *; rewrite E in *; simpl in *; lia).
    assert (EP : P = 2 * 2 ^ (64 * Z.of_nat n - 1)).
    { unfold P. rewrite <- Z.pow_succ_r by lia. f_equal. lia. }
    apply Z.log2_unique; [lia|]. rewrite Z.pow_succ_r by lia. lia.
  - pose proof (Z.log2_spec t ltac:(lia)) as [T1 T2]. pose proof (Z.log2_nonneg t).
    assert (Hlog : Z.log2 (sval r) = Z.log2 t + 64 * Z.of_nat n); [|lia].
    apply Z.log2_unique; [lia|]. rewrite <- Z.add_succ_l, !Z.pow_add_r by lia. fold P. nia.
Qed.

Lemma digits_length_le r n k : 2 <= r -> 0 <= n < r ^ Z.of_nat k -> (0 < k)%nat -> (length (digits_of r n) <= k)%nat.
Proof.
  intros Hr Hn Hk. pose proof (digits_of_canonical r Hr n ltac:(lia)) as [Hd Ev Hf].
  destruct Hf as [->|(d & l & E & Hpos)]; [simpl; lia|]. rewrite E in *. inv_subst Hd.
  rewrite dval_cons in Hn. assert (0 <= dval r l) by (apply dval_bounds; [lia|done]).
  cbn [length]. destruct (Nat.le_gt_cases (S (length l)) k) as [|Hgt]; [done|exfalso].
  assert (r ^ Z.of_nat k <= r ^ Z.of_nat (length l)) by (apply Z.pow_le_mono_r; lia).
  pose proof (pow_radix_pos r Hr (length l)). nia.
Qed.

(** The digit written for a value, by [limb_to_a] and [js_u64toa]. *)
Lemma out_digit radix d : 2 <= radix <= 36 -> 0 <= d < radix ->
  (if radix =? 10 then d + chr "0" else digit_at d) = digit_char d.
Proof.
  intros Hr Hd. destruct (Z.eqb_spec radix 10); [rewrite digit_char_10 by lia; done|]. apply digit_at_spec. lia.
Qed.

Lemma limb_to_a_spec radix k : 2 <= radix <= 36 -> forall n q, 0 <= n ->
  limb_to_a n radix k q = (digit_char <$> fixed_digits radix k n) ++ q.
Proof.
  intros Hr. induction k as [|k IH]; intros n q Hn; [done|]. cbn [limb_to_a fixed_digits].
  pose proof (Z.mod_pos_bound n radix ltac:(lia)). rewrite out_digit, IH by (done || (apply Z.div_pos; lia)).
  by rewrite fmap_app, <- app_assoc.
Qed.

Lemma js_u64toa_spec radix fuel : 2 <= radix <= 36 -> forall n q, 0 <= n < 2 ^ Z.of_nat fuel -> (0 < fuel)%nat ->
  js_u64toa fuel n radix q = Some ((digit_char <$> digits_of radix n) ++ q).
Proof.
  intros Hr n q Hn Hf. rewrite <- (radix_loop_spec radix fuel ltac:(lia) n q Hn Hf). clear Hf. revert n q Hn.
  induction fuel as [|fuel IH]; intros n q Hn; [done|]. cbn [js_u64toa radix_loop].
  pose proof (Z.mod_pos_bound n radix ltac:(lia)). rewrite (Z.add_comm (chr "0")), out_digit by done.
  destruct (n / radix =? 0); [done|]. apply IH. rewrite Nat2Z.inj_succ, Z.pow_succ_r in Hn by lia.
  split; [apply Z.div_pos; lia|]. apply Z.div_lt_upper_bound; nia.
Qed.

(** The tables hold powers of the radix that fit a limb. *)
Definition table_ok (j : Z) : bool :=
  let k := default 0%nat (digits_per_limb_table !! Z.to_nat j) in
  (Z.land (j + 2) (j + 1) =? 0) ||
  ((default 0 (radix_base_table !! Z.to_nat j) =? (j + 2) ^ Z.of_nat k) && (0 <? k)%nat && ((j + 2) ^ Z.of_nat k <? 2 ^ 64)).

Lemma tables_ok : forallb table_ok (seqZ 0 35) = true.
Proof. vm_compute. reflexivity. Qed.

Lemma radix_tables radix : 2 <= radix <= 36 -> Z.land radix (radix - 1) <> 0 ->
  let i := Z.to_nat (radix - 2) in
  let k := default 0%nat (digits_per_limb_table !! i) in
  default 0 (radix_base_table !! i) = radix ^ Z.of_nat k /\ (0 < k)%nat /\ radix ^ Z.of_nat k < 2 ^ 64.
Proof.
  intros Hr Hb i k. pose proof (below_forallb 35 table_ok tables_ok (radix - 2) ltac:(lia)) as H.
  unfold table_ok in H. fold i in H. fold k in H.
  replace (radix - 2 + 2) with radix in H by lia. replace (radix - 2 + 1) with (radix - 1) in H by lia.
  apply orb_true_iff in H as [H|H]; [by rewrite Z.eqb_eq in H|].
  rewrite !andb_true_iff, Z.eqb_eq, Nat.ltb_lt, Z.ltb_lt in H. tauto.
Qed.

Lemma mp_div1_spec taba d : limb d -> 0 < d -> limbs taba -> let '(qs, r) := mp_div1 taba d 0 in
  limbs qs /\ length qs = length taba /\ uval qs = uval taba / d /\ r = uval taba mod d.
Proof.
  intros Hd Hpos Ht. unfold mp_div1.
  pose proof (div1_loop_spec (fun a1 a0 => udiv1 a1 a0 d) d taba 0) as H.
  destruct (div1_loop _ taba 0) as [qs r]. destruct H as (H1 & H2 & H3 & H4); try done.
  { intros a1 a0 Ha1 Ha0. by apply udiv1_spec. }
  rewrite Z.mul_0_r, Z.add_0_r in H4. split_and!; [done|done|..].
  - apply (Z.div_unique_pos _ _ _ r); lia.
  - apply (Z.mod_unique_pos _ _ (uval qs)); lia.
Qed.

Definition out_digits (radix v : Z) : list Z := if v =? 0 then [] else digit_char <$> digits_of radix v.

(** The decimal output loop, for any radix whose power [radix^k] fits a
    limb. *)
Lemma dec_out_spec radix k : 2 <= radix <= 36 -> (0 < k)%nat -> radix ^ Z.of_nat k < 2 ^ 64 -> forall fuel tab q,
  limbs tab -> tab <> [] -> uval tab < 2 ^ Z.of_nat fuel -> (0 < fuel)%nat ->
  dec_out fuel radix (radix ^ Z.of_nat k) k tab q = Some (out_digits radix (uval tab) ++ q).
Proof.
  intros Hr Hk Hbase. set (base := radix ^ Z.of_nat k) in *.
  assert (Hb2 : 2 <= base).
  { unfold base. assert (radix ^ 1 <= radix ^ Z.of_nat k) by (apply Z.pow_le_mono_r; lia). lia. }
  induction fuel as [|fuel IH]; intros tab q Ht Hne Hlt Hf; [lia|]. cbn [dec_out]. pose proof (nonnil_length tab Hne) as Hlen.
  destruct (drop_zeros_spec tab Ht (length tab) ltac:(lia)) as (H1 & H2 & H3). rewrite (take_ge tab (length tab)) in H2 by done.
  set (n' := drop_zeros (length tab) tab) in *. destruct (Forall_take_drop limb n' tab Ht) as [Htk _].
  assert (Hl' : length (take n' tab) = n') by (rewrite length_take; lia).
  assert (H3' : n' = 1%nat \/ limb_at (take n' tab) (n' - 1) <> 0) by (rewrite limb_at_take by lia; done).
  rewrite <- H2 in *. set (t := take n' tab) in *. assert (Htne : t <> []) by (intros E; rewrite E in Hl'; simpl in Hl'; lia).
  clearbody t n'. clear H2 H3 Hlen H1 Ht Hne tab. rename Htk into Ht. pose proof (uval_bounds t Ht) as Hu.
  destruct ((length t =? 1)%nat && (limb_at t 0 <? base)) eqn:Ec.
  - apply andb_true_iff in Ec as [E1 E2]. rewrite Nat.eqb_eq in E1. rewrite Z.ltb_lt in E2.
    destruct t as [|v [|]]; try done. change (limb_at [v] 0) with v in *. cbn [uval]. rewrite Z.mul_0_r, Z.add_0_r.
    unfold out_digits. destruct (Z.eqb_spec v 0); [done|]. apply js_u64toa_spec; [done| |lia].
    inv_subst Ht. unfold limb in *. lia.
  - assert (Hge : base <= uval t).
    { apply andb_false_iff in Ec as [E1|E2].
      - rewrite Nat.eqb_neq in E1. destruct H3' as [?|Htop]; [lia|]. pose proof (uval_top t Htne) as Et.
        rewrite Hl' in Et. destruct (Forall_take_drop limb (n' - 1) t Ht) as [Htl _]. pose proof (uval_bounds _ Htl).
        pose proof (nonnil_length t Htne). pose proof (limb_at_lt t (n' - 1) Ht ltac:(lia)) as Hlt'. unfold limb in Hlt'.
        assert (B <= pw (n' - 1)).
        { destruct (n' - 1)%nat as [|j] eqn:Ej; [lia|]. rewrite pw_S. pose proof (pw_pos j). pose proof B_pos. nia. }
        change (2 ^ 64) with B in Hbase. nia.
      - rewrite Z.ltb_ge in E2. destruct t as [|v t]; [done|]. change (limb_at (v :: t) 0) with v in E2. cbn [uval].
        inv_subst Ht. pose proof (uval_bounds t ltac:(done)). pose proof B_pos. nia. }
    pose proof (mp_div1_spec t base) as Hd. destruct (mp_div1 t base 0) as [qs v].
    destruct Hd as (Hqs & Hql & Eq & Ev); [unfold limb; change (2 ^ 64) with B in Hbase; lia|lia|done|].
    pose proof (Z.mod_pos_bound (uval t) base ltac:(lia)) as Hm. assert (0 < uval t / base) by (apply Z.div_str_pos; lia).
    rewrite limb_to_a_spec by lia.
    rewrite Nat2Z.inj_succ, Z.pow_succ_r in Hlt by lia.
    pose proof (nonnil_length t Htne).
    rewrite IH; [| done | intros ->; simpl in Hql; lia | rewrite Eq; apply Z.div_lt_upper_bound; nia |
      destruct fuel; [change (2 ^ Z.of_nat 0) with 1 in Hlt; lia|lia] ].
    rewrite Eq, Ev, app_assoc. do 2 f_equal. unfold out_digits.
    destruct (Z.eqb_spec (uval t / base) 0); [lia|]. destruct (Z.eqb_spec (uval t) 0); [lia|].
    rewrite <- fmap_app. f_equal. unfold base. rewrite fixed_digits_mod by lia. apply digits_unique; [lia|lia|].
    apply canonical_split; [lia|done|lia|]. apply digits_of_canonical; [lia|]. fold base. lia.
Qed.

(** The number of digits that are reserved. *)
Definition text_digits (r : JSBigInt) (radix : Z) : Z :=
  let log2_radix := 31 - clz 32 radix in
  (len r * JS_LIMB_BITS - js_limb_safe_clz (limb_at r (length r - 1)) + log2_radix - 1) / log2_radix.

(** The characters that are written, without the sign. *)
Definition text_of (r : JSBigInt) (radix : Z) : option (list Z) :=
  let log2_radix := 31 - clz 32 radix in
  if Z.land radix (radix - 1) =? 0 then Some (bin_out (Z.to_nat (text_digits r radix)) log2_radix radix 0 r [])
  else
    let i := Z.to_nat (radix - 2) in
    dec_out (S (64 * length r)) radix (default 0 (radix_base_table !! i)) (default 0%nat (digits_per_limb_table !! i)) r [].

Lemma text_of_spec r radix : bigint_ok r -> 0 < sval r -> 2 <= radix <= 36 ->
  text_of r radix = Some (digit_char <$> digits_of radix (sval r)) /\
  Z.of_nat (length (digits_of radix (sval r))) <= text_digits r radix.
Proof.
  intros Hr Hpos Hrad. destruct (n_bits_spec r Hr Hpos) as [Hbits Eu]. unfold text_of, text_digits. rewrite Hbits. unfold clz.
  set (V := sval r) in *. set (l := Z.log2 radix). assert (Hl : 0 < l) by (apply Z.log2_pos; lia).
  replace (31 - (32 - 1 - l)) with l by lia.
  assert (Hl5 : l <= 5) by (apply Z.lt_succ_r, Z.log2_lt_pow2; [lia|]; change (2 ^ Z.succ 5) with 64; lia).
  pose proof (Z.log2_spec radix ltac:(lia)) as [Hr1 _]. fold l in Hr1.
  pose proof (Z.log2_nonneg V) as HlV. pose proof (bit_digits l V Hl Hpos) as Hbd. cbv zeta in Hbd. destruct Hbd as [Hk Hd].
  replace (Z.log2 V + 1 + l - 1) with (Z.log2 V + 1 * l) by lia. rewrite Z.div_add by lia. set (k := Z.log2 V / l) in *.
  replace (k + 1) with (Z.succ k) by lia. split.
  - destruct (Z.eqb_spec (Z.land radix (radix - 1)) 0) as [E|E].
    + apply power_of_two in E; [|lia]. fold l in E. rewrite E, bin_out_spec by (apply Hr || lia). f_equal.
      rewrite Z.pow_0_r, Z.div_1_r, Eu, app_nil_r, Z2Nat.inj_succ by done. f_equal. apply fixed_canonical; [rewrite <- E; lia|].
      by rewrite Nat2Z.inj_succ, Z2Nat.id by done.
    + destruct (radix_tables radix Hrad E) as (E1 & E2 & E3). rewrite E1.
      rewrite dec_out_spec; [| lia | done | done | apply Hr | apply Hr | | lia].
      * rewrite Eu, app_nil_r. unfold out_digits. by destruct (Z.eqb_spec V 0); [lia|].
      * pose proof (uval_bounds r (bo_limbs _ Hr)) as Hub. rewrite pw_pow2 in Hub.
        assert (2 ^ (64 * Z.of_nat (length r)) <= 2 ^ Z.of_nat (S (64 * length r))) by (apply Z.pow_le_mono_r; lia). lia.
  - assert (Hlen : (length (digits_of radix V) <= S (Z.to_nat k))%nat); [|lia]. apply digits_length_le; [lia| |lia].
    rewrite Nat2Z.inj_succ, Z2Nat.id by done. split; [lia|]. eapply Z.lt_le_trans; [apply Hd|].
    apply Z.pow_le_mono_l. pose proof (pow2_pos l ltac:(lia)). lia.
Qed.

Section text.
Context (mem : Z -> bool).

Lemma to_text_unfold r radix : r <> [0] -> r <> [] -> bigint_to_text mem r radix =
  let is_neg := js_bigint_sign r in
  bind_outcome
    (if negb (is_neg =? 0) then js_bigint_neg mem r
     else if Z.land radix (radix - 1) =? 0 then Ret r
     else bind_outcome (js_bigint_new mem (len r)) (fun _ => Ret r))
    (fun r =>
       if negb (mem (text_digits r radix + is_neg + 1)) then Throw OutOfMemory
       else match text_of r radix with
            | None => Throw Fault
            | Some q =>
                let q := if is_neg =? 0 then q else chr "-" :: q in
                if Z.of_nat (length q) <=? text_digits r radix + is_neg then Ret q else Throw Fault
            end).
Proof. intros H1 H2. destruct r as [|[|p|p] [|]]; done. Qed.

Definition prints (t : list Z) (big : Prop) (o : outcome (list Z)) : Prop :=
  match o with
  | Ret s => s = t
  | Throw RangeError => big
  | Throw OutOfMemory => exists n, mem n = false
  | Throw _ => False
  end.

Lemma prints_bind x t (big : Prop) o f : computes mem x big o ->
  (forall r, bigint_ok r -> sval r = x -> prints t big (f r)) -> prints t big (bind_outcome o f).
Proof. intros Ho Hf. destruct o as [r|e]; simpl in *; [destruct Ho; by apply Hf|]. by destruct e. Qed.

Lemma bigint_to_text_spec r radix : bigint_ok r -> 2 <= radix <= 36 ->
  prints (print_int radix (sval r)) (too_big (len r)) (bigint_to_text mem r radix).
Proof.
  intros Hr Hrad. destruct (decide (r = [0])) as [->|Hnz].
  { change (sval [0]) with 0. unfold print_int. change (Z.abs 0) with 0.
    rewrite <- (digits_unique radix ltac:(lia) 0 [0]); [done|lia|]. apply canonical_small. lia. }
  assert (H0 : sval r <> 0) by (intros E; apply Hnz; by apply sval_zero).
  rewrite to_text_unfold by (done || apply Hr). cbv zeta. pose proof (sval_sign r (bo_limbs _ Hr) (bo_some _ Hr)) as Es.
  apply (prints_bind (Z.abs (sval r))).
  { destruct (Z.ltb_spec (sval r) 0); rewrite Es; cbn [Z.eqb negb].
    - rewrite Z.abs_neq by lia. by apply js_bigint_neg_spec.
    - rewrite Z.abs_eq by lia. destruct (Z.land radix (radix - 1) =? 0); [done|]. by apply new_spec. }
  intros r' Hr' Er'. destruct (mem _) eqn:Em; cbn [negb]; [|simpl; eauto].
  destruct (text_of_spec r' radix Hr' ltac:(lia) Hrad) as [-> Hlen]. rewrite Er' in *. unfold print_int.
  destruct (Z.ltb_spec (sval r) 0); rewrite Es; cbn [Z.eqb app length].
  - destruct (Z.leb_spec (Z.of_nat (S (length (digit_char <$> digits_of radix (Z.abs (sval r)))))) (text_digits r' radix + 1)); [done|].
    rewrite length_fmap in *. lia.
  - destruct (Z.leb_spec (Z.of_nat (length (digit_char <$> digits_of radix (Z.abs (sval r))))) (text_digits r' radix + 0)); [done|].
    rewrite length_fmap in *. lia.
Qed.
End text.

(** ** Parsing *)

Lemma to_digit_char d : 0 <= d < 36 -> to_digit (digit_char d) = d.
Proof.
  intros Hd. apply Z.eqb_eq. apply (below_forallb 36 (fun d => to_digit (digit_char d) =? d)); [vm_compute; reflexivity|done].
Qed.

Definition pow_dec_ok (z : Z) : bool := default 0 (js_pow_dec !! Z.to_nat z) =? 10 ^ z.

Lemma pow_dec_spec i : (i <= 19)%nat -> default 0 (js_pow_dec !! i) = 10 ^ Z.of_nat i.
Proof.
  intros Hi. assert (Hall : forallb pow_dec_ok (seqZ 0 20) = true) by (vm_compute; reflexivity).
  pose proof (below_forallb 20 pow_dec_ok Hall (Z.of_nat i) ltac:(lia)) as H.
  unfold pow_dec_ok in H. rewrite Nat2Z.id in H. by apply Z.eqb_eq.
Qed.

Lemma read_digits_spec n : forall ds v i, digits_in 10 ds -> 0 <= v -> (v + 1) * 10 ^ Z.of_nat n <= 2 ^ 64 ->
  read_digits n 10 (digit_char <$> ds) v i =
  (v * 10 ^ Z.of_nat (length (take n ds)) + dval 10 (take n ds), (i + length (take n ds))%nat, digit_char <$> drop n ds).
Proof.
  induction n as [|n IH]; intros ds v i Hd Hv Hb.
  - cbn. rewrite Nat.add_0_r. unfold dval. simpl. f_equal. f_equal. lia.
  - destruct ds as [|d ds]; [cbn; rewrite Nat.add_0_r; unfold dval; simpl; do 2 f_equal; lia|].
    inv_subst Hd. cbn [fmap list_fmap read_digits]. change (list_fmap Z Z digit_char ds) with (digit_char <$> ds).
    rewrite to_digit_char by lia. destruct (Z.leb_spec 10 d); [lia|].
    rewrite Nat2Z.inj_succ, Z.pow_succ_r in Hb by lia. pose proof (Z.pow_pos_nonneg 10 (Z.of_nat n) ltac:(lia) ltac:(lia)).
    rewrite u64_small by nia. rewrite IH by (done || nia). cbn [take drop length]. rewrite dval_cons, Nat2Z.inj_succ, Z.pow_succ_r by lia.
    f_equal; [f_equal; [ring|lia]].
Qed.

(** The state of the decimal loop: no limb more than the value needs. *)
Record dec_inv (tab : list Z) (V : Z) : Prop := {
  di_limbs : limbs tab;
  di_some : tab <> [];
  di_value : uval tab = V;
  di_tight : length tab = 1%nat \/ pw (length tab - 1) <= V;
}.

(** Multiply by a power of ten and add the next digits. *)
Definition dec_step (tab : list Z) (i : nat) (v : Z) : list Z :=
  match tab with
  | [0] => [v]
  | _ =>
      let '(rs, h) := mp_mul1 tab (default 0 (js_pow_dec !! i)) v in
      if h =? 0 then rs else rs ++ [h]
  end.

Lemma dec_step_spec tab V i v : dec_inv tab V -> (i <= 19)%nat -> 0 <= v < 10 ^ Z.of_nat i ->
  dec_inv (dec_step tab i v) (V * 10 ^ Z.of_nat i + v).
Proof.
  intros [Ht Hne Ev Htight] Hi Hv. pose proof (Z.pow_pos_nonneg 10 (Z.of_nat i) ltac:(lia) ltac:(lia)) as Hp.
  assert (Hp64 : 10 ^ Z.of_nat i < B).
  { assert (10 ^ Z.of_nat i <= 10 ^ 19) by (apply Z.pow_le_mono_r; lia). pose proof B_half. pose proof B_large. lia. }
  pose proof (uval_bounds tab Ht) as Hu. destruct (decide (tab = [0])) as [->|Hnz].
  - assert (V = 0) as -> by (simpl in Ev; lia). split; [by constructor; [unfold limb; lia|]|done|cbn; lia|by left].
  - assert (Es : dec_step tab i v = let '(rs, h) := mp_mul1 tab (10 ^ Z.of_nat i) v in if h =? 0 then rs else rs ++ [h]).
    { rewrite <- pow_dec_spec by done. destruct tab as [|[|p|p] [|]]; done. }
    rewrite Es. pose proof (mp_mul1_spec tab (10 ^ Z.of_nat i) v Ht ltac:(unfold limb; lia) ltac:(unfold limb; lia)) as H.
    destruct (mp_mul1 tab _ v) as [rs h]. destruct H as (Hrs & Hl & Hh & E).
    assert (Hrne : rs <> []) by (intros ->; simpl in Hl; by destruct tab). pose proof (nonnil_length tab Hne).
    destruct (Z.eqb_spec h 0) as [Eh|Eh].
    + split; [done|done|rewrite Eh in E; lia|]. rewrite Hl. destruct Htight as [->|Hge]; [by left|right]. nia.
    + split.
      * apply Forall_app. split; [done|by constructor].
      * by destruct rs.
      * rewrite uval_app, Hl. cbn [uval]. lia.
      * right. rewrite length_app, Hl. cbn [length]. replace (length tab + 1 - 1)%nat with (length tab) by lia.
        unfold limb in Hh. pose proof (uval_bounds rs Hrs). nia.
Qed.

Lemma tight_len tab V n_bits : dec_inv tab V -> V < 2 ^ n_bits -> 0 <= n_bits -> len tab <= n_bits / JS_LIMB_BITS + 1.
Proof.
  intros [Ht Hne _ Htight] Hv Hb. unfold len, JS_LIMB_BITS. assert (0 <= n_bits / 64) by (apply Z.div_pos; lia).
  destruct Htight as [->|Hge]; [lia|]. rewrite pw_pow2 in Hge.
  assert (Hlt : 64 * Z.of_nat (length tab - 1) < n_bits) by (apply (Z.pow_lt_mono_r_iff 2); lia).
  assert (Z.of_nat (length tab - 1) <= n_bits / 64) by (apply Z.div_le_lower_bound; lia). lia.
Qed.

Lemma dec_loop_spec n_bits : 0 <= n_bits -> forall fuel ds tab V, digits_in 10 ds -> dec_inv tab V -> 0 <= V ->
  (length ds < fuel)%nat -> (V + 1) * 10 ^ Z.of_nat (length ds) <= 2 ^ n_bits ->
  exists tab', dec_loop fuel (n_bits / JS_LIMB_BITS + 1) (digit_char <$> ds) tab = Ret tab' /\
    dec_inv tab' (V * 10 ^ Z.of_nat (length ds) + dval 10 ds).
Proof.
  intros Hn. induction fuel as [|fuel IH]; intros ds tab V Hds Hinv HV Hf Hb; [lia|]. cbn [dec_loop].
  assert (H19 : (0 + 1) * 10 ^ Z.of_nat 19 <= 2 ^ 64) by (apply Z.leb_le; reflexivity).
  change JS_LIMB_DIGITS with 19%nat. rewrite (read_digits_spec 19 ds 0 0 Hds (Z.le_refl 0) H19).
  rewrite Z.mul_0_l, Z.add_0_l, Nat.add_0_l. set (es := take 19 ds) in *. set (rest := drop 19 ds).
  assert (Eds : ds = es ++ rest) by (symmetry; apply take_drop).
  assert (Hes : digits_in 10 es /\ digits_in 10 rest) by (apply Forall_app; by rewrite <- Eds).
  destruct Hes as [Hes Hrest]. pose proof (dval_bounds 10 ltac:(lia) es Hes) as Hv.
  assert (Hl19 : (length es <= 19)%nat) by (unfold es; rewrite length_take; lia).
  destruct (length es) as [|i] eqn:El.
  - destruct ds as [|d ds]; [|by unfold es in El; cbn in El]. exists tab. split; [done|]. cbn [length]. unfold dval. simpl.
    by rewrite Z.mul_1_r, Z.add_0_r.
  - change (match tab with
            | [0] => [dval 10 es]
            | _ => let '(rs, h) := mp_mul1 tab (default 0 (js_pow_dec !! S i)) (dval 10 es) in if h =? 0 then rs else rs ++ [h]
            end) with (dec_step tab (S i) (dval 10 es)).
    pose proof (dec_step_spec tab V (S i) (dval 10 es) Hinv Hl19 Hv) as Hinv'. set (tab' := dec_step _ _ _) in *.
    set (V' := V * 10 ^ Z.of_nat (S i) + dval 10 es) in *.
    pose proof (Z.pow_pos_nonneg 10 (Z.of_nat (length rest)) ltac:(lia) ltac:(lia)) as Hpr.
    assert (Hlen : length ds = (S i + length rest)%nat) by (rewrite Eds, length_app; lia).
    assert (Hb' : (V' + 1) * 10 ^ Z.of_nat (length rest) <= 2 ^ n_bits).
    { rewrite Hlen, Nat2Z.inj_add, Z.pow_add_r in Hb by lia.
      assert ((V' + 1) * 10 ^ Z.of_nat (length rest) <= (V + 1) * (10 ^ Z.of_nat (S i) * 10 ^ Z.of_nat (length rest))); [|lia].
      rewrite Z.mul_assoc. apply Z.mul_le_mono_nonneg_r; [lia|]. unfold V'. lia. }
    pose proof (Z.pow_pos_nonneg 10 (Z.of_nat (S i)) ltac:(lia) ltac:(lia)).
    assert (HV' : 0 <= V') by (unfold V'; nia).
    pose proof (tight_len tab' V' n_bits Hinv' ltac:(nia) Hn) as Hle.
    destruct (Z.leb_spec (len tab') (n_bits / JS_LIMB_BITS + 1)); [|lia].
    destruct (IH rest tab' V' Hrest Hinv' HV' ltac:(lia) Hb') as (t & Et & Ht). exists t. split; [done|].
    replace (V * 10 ^ Z.of_nat (length ds) + dval 10 ds) with (V' * 10 ^ Z.of_nat (length rest) + dval 10 rest); [done|].
    rewrite Hlen, Eds, dval_app, Nat2Z.inj_add, Z.pow_add_r by lia. unfold V'. ring.
Qed.

(** Eight decimal digits need 27 bits. *)
Lemma dec_bits n : 0 <= n -> 10 ^ n <= 2 ^ ((n * 27 + 7) / 8).
Proof.
  intros Hn. pose proof (Z_div_mod_eq_full (n * 27 + 7) 8) as E. pose proof (Z.mod_pos_bound (n * 27 + 7) 8 ltac:(lia)).
  set (b := (n * 27 + 7) / 8) in *. assert (Hb : 27 * n <= b * 8) by lia.
  apply (Z.pow_le_mono_l_iff _ _ 8); [lia|apply Z.pow_nonneg; lia|lia|].
  rewrite <- !Z.pow_mul_r, (Z.mul_comm n), Z.pow_mul_r by lia.
  transitivity ((2 ^ 27) ^ n); [apply Z.pow_le_mono_l; lia|]. rewrite <- Z.pow_mul_r by lia. apply Z.pow_le_mono_r; lia.
Qed.

Lemma uval_update tab pos x y : tab !! pos = Some x -> uval (<[pos := y]> tab) = uval tab + pw pos * (y - x).
Proof.
  intros Hx. pose proof (lookup_lt_Some _ _ _ Hx) as Hlt.
  rewrite <- (take_drop_middle tab pos x Hx) at 2. rewrite insert_take_drop by done.
  rewrite !uval_app, length_take, Nat.min_l by lia. cbn [uval]. ring.
Qed.

Lemma or_at_spec tab pos v s : limbs tab -> (pos < length tab)%nat -> uval tab < pw pos * 2 ^ s -> 0 <= s <= 64 ->
  limb v -> v mod 2 ^ s = 0 ->
  exists tab', or_at pos v tab = Some tab' /\ limbs tab' /\ length tab' = length tab /\ uval tab' = uval tab + pw pos * v.
Proof.
  intros Ht Hp Hu Hs Hv Hm. unfold or_at. destruct (lookup_lt_is_Some_2 tab pos Hp) as [x Hx]. rewrite Hx.
  pose proof (proj1 (Forall_lookup _ _) Ht pos x Hx) as Hlx. unfold limb in *. pose proof (pw_pos pos) as Hpp.
  assert (Hxs : x < 2 ^ s).
  { pose proof (uval_div_pw tab Ht pos) as E. unfold limb_at in E. rewrite Hx in E. cbn [default] in E. pose proof B_pos.
    pose proof (uval_bounds tab Ht). assert (0 <= uval tab / pw (S pos)) by (apply Z.div_pos; [lia|apply pw_pos]).
    assert (uval tab / pw pos < 2 ^ s) by (apply Z.div_lt_upper_bound; lia). simpl in E. nia. }
  assert (Hor : Z.lor x v = v + x) by (rewrite Z.lor_comm; by apply (lor_low s); [lia|lia|]).
  exists (<[pos := Z.lor x v]> tab). split; [done|]. split; [|split].
  - apply Forall_insert; [done|]. exact (logic_limb_ok OP_or x v Hlx Hv).
  - apply length_insert.
  - rewrite (uval_update tab pos x) by done. rewrite Hor. ring.
Qed.

(** The digits from the last; [i] of them are in the array. *)
Lemma bin_loop_spec b n_bits : 0 < b <= 5 -> forall rds i tab, digits_in (2 ^ b) rds -> limbs tab -> 0 <= i ->
  uval tab < (2 ^ b) ^ i -> len tab = n_bits / JS_LIMB_BITS + 1 -> (i + Z.of_nat (length rds)) * b <= n_bits ->
  exists tab', bin_loop b (2 ^ b) i (digit_char <$> rds) tab = Ret tab' /\ limbs tab' /\ length tab' = length tab /\
    uval tab' = uval tab + (2 ^ b) ^ i * dval (2 ^ b) (rev rds).
Proof.
  intros Hb. pose proof (pow2_pos b ltac:(lia)) as Hpb. assert (Hb32 : 2 ^ b <= 2 ^ 5) by (apply Z.pow_le_mono_r; lia).
  induction rds as [|c rds IH]; intros i tab Hds Ht Hi Hu Hlen Hn.
  { exists tab. unfold dval. simpl. split_and!; try done. lia. }
  inv_subst Hds. cbn [fmap list_fmap bin_loop]. change (list_fmap Z Z digit_char rds) with (digit_char <$> rds).
  rewrite to_digit_char by lia. destruct (Z.leb_spec (2 ^ b) c); [lia|]. cbn [length] in Hn.
  set (bp := i * b). destruct (shift_split bp ltac:(unfold bp; nia)) as [Ep Hs]. unfold JS_LIMB_BITS in *.
  assert (Eland : Z.land bp (64 - 1) = bp mod 64) by (change (64 - 1) with (2 ^ 6 - 1); rewrite land_pow2_pred by lia; done).
  rewrite Eland. pose proof (Z_div_mod_eq_full bp 64) as Edm. assert (Hq : 0 <= bp / 64) by (apply Z.div_pos; unfold bp; nia).
  set (pos := Z.to_nat (bp / 64)) in *. set (s := bp mod 64) in *.
  assert (Epow : (2 ^ b) ^ i = pw pos * 2 ^ s) by (rewrite <- Ep, <- Z.pow_mul_r by lia; f_equal; unfold bp; lia).
  rewrite Epow in *. pose proof (pw_pos pos) as Hpp. pose proof (pow2_pos s ltac:(lia)) as Hps.
  assert (Hbn : bp + b <= n_bits) by (unfold bp; nia).
  assert (Hpos : (pos < length tab)%nat).
  { assert (bp / 64 <= n_bits / 64) by (apply Z.div_le_mono; lia). unfold len in Hlen. lia. }
  assert (Hc : 0 <= c < B) by (pose proof B_half; pose proof B_large; lia).
  pose proof (limb_shl c s Hc ltac:(lia)) as Esh. pose proof (Z_div_mod_eq_full c (2 ^ (64 - s))) as Ecd.
  pose proof (pow2_pos (64 - s) ltac:(lia)) as Hp64. pose proof (Z.mod_pos_bound c (2 ^ (64 - s)) Hp64) as Hcm.
  assert (Hlo : 0 <= c mod 2 ^ (64 - s) * 2 ^ s <= B - 2 ^ s) by (rewrite (B_split s) by lia; nia).
  destruct (or_at_spec tab pos (u64 (Z.shiftl c s)) s) as (t1 & E1 & Ht1 & Hl1 & Eu1);
    [done|done|lia|lia|apply limb_u64|rewrite Esh; apply Z_mod_mult|]. rewrite E1, Esh in *. clear E1 Esh.
  assert (Hnext : exists t2, (if 64 <? s + b then or_at (S pos) (Z.shiftr c (64 - s)) t1 else Some t1) = Some t2 /\
    limbs t2 /\ length t2 = length tab /\ uval t2 = uval tab + pw pos * 2 ^ s * c).
  { destruct (Z.ltb_spec 64 (s + b)) as [Hspan|Hin].
    - rewrite Z.shiftr_div_pow2 by lia. destruct (or_at_spec t1 (S pos) (c / 2 ^ (64 - s)) 0) as (t2 & E2 & Ht2 & Hl2 & Eu2).
      + done.
      + assert (Z.of_nat (S pos) <= n_bits / 64) by (apply Z.div_le_lower_bound; lia). unfold len in Hlen. lia.
      + rewrite Z.pow_0_r, Z.mul_1_r, pw_S, Eu1.
        assert (pw pos * (c mod 2 ^ (64 - s) * 2 ^ s) <= pw pos * (B - 2 ^ s)) by (apply Z.mul_le_mono_nonneg_l; lia). lia.
      + lia.
      + unfold limb. split; [apply Z.div_pos; lia|]. apply Z.div_lt_upper_bound; nia.
      + apply Z.mod_1_r.
      + exists t2. split_and!; [done|done|lia|]. rewrite Eu2, Eu1, pw_S, (B_split s) by lia. rewrite Ecd at 3. ring.
    - exists t1. split_and!; [done|done|done|]. rewrite Eu1. rewrite Z.mod_small; [ring|].
      assert (2 ^ b <= 2 ^ (64 - s)) by (apply Z.pow_le_mono_r; lia). lia. }
  destruct Hnext as (t2 & E2 & Ht2 & Hl2 & Eu2).
  destruct (IH (i + 1) t2) as (t3 & E3 & Ht3 & Hl3 & Eu3); [done|done|lia| |by unfold len in *; rewrite Hl2|lia|].
  { rewrite Z.add_1_r, Z.pow_succ_r, Epow, Eu2 by lia. nia. }
  exists t3. split; [|split; [done|split; [lia|]]].
  - destruct (64 <? s + b); [|injection E2 as <-; done]. by rewrite E2.
  - rewrite Eu3, Eu2. cbn [rev]. rewrite dval_snoc, Z.add_1_r, Z.pow_succ_r, Epow by lia. ring.
Qed.

Fixpoint strip_zeros (ds : list Z) : list Z :=
  match ds with d :: ds' => if d =? 0 then strip_zeros ds' else ds | [] => [] end.

Lemma digit_char_range d : 0 <= d < 36 -> (digit_char d =? chr "0") = (d =? 0) /\ (digit_char d =? chr "-") = false.
Proof.
  intros Hd. assert (Hall : forallb (fun d => Bool.eqb (digit_char d =? chr "0") (d =? 0) && negb (digit_char d =? chr "-")) (seqZ 0 36) = true)
    by (vm_compute; reflexivity).
  pose proof (below_forallb 36 _ Hall d Hd) as H. cbv beta in H. apply andb_true_iff in H as [H1 H2].
  apply Bool.eqb_prop in H1. by apply negb_true_iff in H2.
Qed.

Lemma skip_zeros_spec r ds : 2 <= r <= 36 -> digits_in r ds ->
  skip_zeros (digit_char <$> ds) = digit_char <$> strip_zeros ds /\ digits_in r (strip_zeros ds) /\
  dval r (strip_zeros ds) = dval r ds /\ (length (strip_zeros ds) <= length ds)%nat.
Proof.
  intros Hr. induction ds as [|d ds IH]; intros Hd; [done|]. pose proof Hd as Hd'. inv_subst Hd.
  cbn [fmap list_fmap skip_zeros strip_zeros]. destruct (digit_char_range d ltac:(lia)) as [-> _].
  destruct (Z.eqb_spec d 0) as [->|]; [|split_and!; done]. destruct (IH ltac:(done)) as (H1' & H2' & H3' & H4').
  split_and!; [done|done| |simpl; lia]. rewrite dval_cons, H3'. lia.
Qed.

(** The radices of literals, with their bits per digit. *)
Definition text_radix (radix : Z) : Prop := radix = 2 \/ radix = 8 \/ radix = 10 \/ radix = 16.

Definition parse_bits (radix n_digits : Z) : Z :=
  if radix =? 10 then (n_digits * 27 + 7) / 8 else n_digits * (32 - clz 32 (radix - 1)).

Lemma parse_bits_spec radix n : text_radix radix -> 0 <= n ->
  0 <= parse_bits radix n <= 4 * n /\ radix ^ n <= 2 ^ parse_bits radix n.
Proof.
  intros Hr Hn. unfold parse_bits. destruct Hr as [->|[->|[->| ->]]]; cbn [Z.eqb Pos.eqb].
  - change (32 - clz 32 (2 - 1)) with 1. rewrite Z.mul_1_r. lia.
  - change (32 - clz 32 (8 - 1)) with 3. change 8 with (2 ^ 3) at 1. rewrite <- Z.pow_mul_r, (Z.mul_comm 3) by lia. lia.
  - split; [|by apply dec_bits]. div_lia.
  - change (32 - clz 32 (16 - 1)) with 4. change 16 with (2 ^ 4) at 1. rewrite <- Z.pow_mul_r, (Z.mul_comm 4) by lia. lia.
Qed.

Lemma rev_fmap {A C} (f : A -> C) l : rev (f <$> l) = f <$> rev l.
Proof. induction l as [|x l IH]; [done|]. cbn [rev fmap list_fmap]. by rewrite fmap_app, <- IH. Qed.

Section parse.
Context (mem : Z -> bool).

(** The limbs before normalisation. *)
Definition parse_limbs (radix : Z) (p : list Z) : outcome (list Z) :=
  let n_limbs := Z.max 1 (parse_bits radix (Z.of_nat (length p)) / JS_LIMB_BITS + 1) in
  if radix =? 10 then
    bind_outcome (dec_loop (S (length p)) n_limbs p [0]) (fun tab =>
      if negb (Z.shiftr (limb_at tab (length tab - 1)) (JS_LIMB_BITS - 1) =? 0) then
        if len tab <? n_limbs then Ret (tab ++ [0]) else Throw Fault
      else Ret tab)
  else bin_loop (32 - clz 32 (radix - 1)) radix 0 (rev p) (replicate (Z.to_nat n_limbs) 0).

Lemma sval_nonneg tab V : limbs tab -> tab <> [] -> uval tab = V -> 2 * V < pw (length tab) -> sval tab = V.
Proof. intros Ht Hne Ev Hb. pose proof (uval_bounds tab Ht). pose proof (pw_pos (length tab)). apply (sval_unique _ _ 0); [done|done|lia|lia]. Qed.

Lemma parse_limbs_spec radix ds : text_radix radix -> digits_in radix ds ->
  exists r, parse_limbs radix (digit_char <$> ds) = Ret r /\ limbs r /\ r <> [] /\ sval r = dval radix ds.
Proof.
  intros Hr Hds. unfold parse_limbs. rewrite length_fmap. set (n := Z.of_nat (length ds)).
  destruct (parse_bits_spec radix n Hr ltac:(lia)) as [Hbits Hpow]. set (bits := parse_bits radix n) in *.
  assert (Hq : 0 <= bits / JS_LIMB_BITS) by (apply Z.div_pos; unfold JS_LIMB_BITS; lia).
  rewrite Z.max_r by lia. assert (Hr2 : 2 <= radix <= 16) by (destruct Hr as [->|[->|[->| ->]]]; lia).
  pose proof (dval_bounds radix ltac:(lia) ds Hds) as Hv. fold n in Hv. set (V := dval radix ds) in *.
  destruct (Z.eqb_spec radix 10) as [E|E].
  - subst radix. assert (H0 : dec_inv [0] 0) by (pose proof B_pos; split; [constructor; [unfold limb; lia|constructor]|done|done|by left]).
    destruct (dec_loop_spec bits ltac:(lia) (S (length ds)) ds [0] 0 Hds H0 ltac:(lia) ltac:(lia) ltac:(fold n; lia)) as (tab & -> & Hinv).
    rewrite Z.mul_0_l, Z.add_0_l in Hinv. fold V in Hinv. cbn [bind_outcome]. pose proof Hinv as [Ht Hne Ev _].
    pose proof (nonnil_length tab Hne) as Hlen. pose proof (pw_pos (length tab)).
    change (Z.shiftr (limb_at tab (length tab - 1)) (JS_LIMB_BITS - 1)) with (js_bigint_sign tab).
    rewrite (sign_spec tab Ht Hne), Ev. fold V. destruct (Z.leb_spec (pw (length tab)) (2 * V)) as [Hbig|Hsmall]; cbn [Z.eqb negb].
    + assert (Hle : len tab < bits / JS_LIMB_BITS + 1).
      { rewrite pw_pow2 in Hbig. unfold len, JS_LIMB_BITS.
        assert (Hlt : 64 * Z.of_nat (length tab) < Z.succ bits) by (apply (Z.pow_lt_mono_r_iff 2); [lia|lia|]; rewrite Z.pow_succ_r; lia).
        assert (Z.of_nat (length tab) <= bits / 64) by (apply Z.div_le_lower_bound; lia). lia. }
      destruct (Z.ltb_spec (len tab) (bits / JS_LIMB_BITS + 1)); [|lia]. destruct (sval_snoc0 tab Ht) as (Hz1 & Hz2 & _).
      exists (tab ++ [0]). split_and!; [done|done|by destruct tab|]. by rewrite Hz2.
    + exists tab. split_and!; [done|done|done|]. by apply sval_nonneg.
  - assert (Hpr : exists b, 0 < b <= 5 /\ radix = 2 ^ b /\ 32 - clz 32 (radix - 1) = b /\ bits = n * b).
    { unfold bits, parse_bits. destruct Hr as [->|[->|[->| ->]]]; [exists 1|exists 3|done|exists 4]; split_and!; done || lia. }
    destruct Hpr as (b & Hb & Eb & Elog & Ebits). rewrite Elog. rewrite Eb in Hds |- *. rewrite rev_fmap.
    assert (Hz : limbs (replicate (Z.to_nat (bits / JS_LIMB_BITS + 1)) 0)).
    { apply Forall_replicate. pose proof B_pos. unfold limb. lia. }
    destruct (bin_loop_spec b bits Hb (rev ds) 0 (replicate (Z.to_nat (bits / JS_LIMB_BITS + 1)) 0)) as (tab & E1 & E2 & E3 & E4).
    + by apply Forall_rev.
    + done.
    + lia.
    + rewrite uval_zeros, Z.pow_0_r. lia.
    + unfold len. rewrite length_replicate. lia.
    + rewrite length_rev. fold n. lia.
    + exists tab. rewrite uval_zeros, Z.pow_0_r, Z.mul_1_l, Z.add_0_l, rev_involutive, <- Eb in E4. fold V in E4. rewrite length_replicate in E3.
      split_and!; [done|done| |].
      * intros ->. simpl in E3. lia.
      * apply sval_nonneg; [done| |done|]; [intros ->; simpl in E3; lia|]. rewrite E3, pw_pow2.
        assert (2 ^ Z.succ bits <= 2 ^ (64 * Z.of_nat (Z.to_nat (bits / JS_LIMB_BITS + 1)))).
        { apply Z.pow_le_mono_r; [lia|]. unfold JS_LIMB_BITS in *. pose proof (Z_div_mod_eq_full bits 64). pose proof (Z.mod_pos_bound bits 64). lia. }
        rewrite Z.pow_succ_r in * by lia. lia.
Qed.

Lemma from_string_unfold str radix : js_bigint_from_string mem str radix =
  let '(is_neg, p) :=
    match str with c :: p => if c =? chr "-" then (true, p) else (false, str) | [] => (false, str) end in
  let p := skip_zeros p in
  let n_digits := Z.of_nat (length p) in
  if JS_BIGINT_MAX_SIZE * JS_LIMB_BITS <? n_digits then Throw RangeError
  else
    bind_outcome (js_bigint_new mem (Z.max 1 (parse_bits radix n_digits / JS_LIMB_BITS + 1))) (fun _ =>
      bind_outcome (parse_limbs radix p) (fun r =>
        let r := js_bigint_normalize r in if is_neg then js_bigint_neg mem r else Ret r)).
Proof. reflexivity. Qed.

(** Parsing a numeral. *)
Lemma from_string_spec radix (is_neg : bool) ds : text_radix radix -> digits_in radix ds ->
  computes mem (if is_neg then - dval radix ds else dval radix ds) (2 ^ 18 <= Z.of_nat (length ds))
    (js_bigint_from_string mem ((if is_neg then [chr "-"] else []) ++ (digit_char <$> ds)) radix).
Proof.
  intros Hr Hds. assert (Hr2 : 2 <= radix <= 16) by (destruct Hr as [->|[->|[->| ->]]]; lia).
  rewrite from_string_unfold.
  assert (Esplit : match (if is_neg then [chr "-"] else []) ++ (digit_char <$> ds) with
     | c :: p => if c =? chr "-" then (true, p) else (false, (if is_neg then [chr "-"] else []) ++ (digit_char <$> ds))
     | [] => (false, (if is_neg then [chr "-"] else []) ++ (digit_char <$> ds)) end = (is_neg, digit_char <$> ds)).
  { destruct is_neg; cbn [app]; [by rewrite Z.eqb_refl|]. destruct ds as [|d ds]; [done|]. inv_subst Hds.
    cbn [fmap list_fmap]. by destruct (digit_char_range d ltac:(lia)) as [_ ->]. }
  rewrite Esplit. cbv zeta. destruct (skip_zeros_spec radix ds ltac:(lia) Hds) as (-> & Hes & Ev & Hlen).
  set (es := strip_zeros ds) in *. rewrite length_fmap, <- Ev. set (n := Z.of_nat (length es)).
  destruct (parse_bits_spec radix n Hr ltac:(lia)) as [Hbits Hpow].
  unfold JS_LIMB_BITS. change JS_BIGINT_MAX_SIZE with 16384.
  destruct (Z.ltb_spec (16384 * 64) n) as [Hbig|Hok]; [simpl; lia|].
  assert (0 <= parse_bits radix n / 64) by (apply Z.div_pos; lia). rewrite Z.max_r by lia.
  apply new_spec.
  { unfold too_big. change JS_BIGINT_MAX_SIZE with 16384. intros Hb.
    pose proof (Z_div_mod_eq_full (parse_bits radix n) 64). pose proof (Z.mod_pos_bound (parse_bits radix n) 64). lia. }
  destruct (parse_limbs_spec radix es Hr Hes) as (r & -> & Hrl & Hrne & Er). cbn [bind_outcome].
  destruct (normalize_spec r Hrl Hrne) as [Hok' Es]. rewrite Er in Es. set (r' := js_bigint_normalize r) in *.
  destruct is_neg; [|done]. rewrite <- Es. eapply computes_weaken; [|by apply js_bigint_neg_spec].
  unfold too_big. change JS_BIGINT_MAX_SIZE with 16384. intros Hb.
  pose proof (dval_bounds radix ltac:(lia) es Hes) as Hv. fold n in Hv.
  assert (Hnz : sval r' <> 0).
  { intros E0. apply sval_zero in E0; [|done]. rewrite E0 in Hb. unfold len in Hb. cbn [length] in Hb. lia. }
  pose proof (size_bound r' Hok' Hnz) as Hs. rewrite pw_pow2 in Hs. unfold len in Hb.
  assert (Hlt : 64 * Z.of_nat (length r' - 1) < Z.succ (4 * n)); [|lia].
  apply (Z.pow_lt_mono_r_iff 2); [lia|lia|]. rewrite Z.pow_succ_r by lia.
  assert (2 ^ parse_bits radix n <= 2 ^ (4 * n)) by (apply Z.pow_le_mono_r; lia). lia.
Qed.
End parse.

(** ** Properties *)

(** [C25] Printing a BigInt in a radix from 2 to 36 gives its digits without
    leading zeros after a minus sign if it is negative, for every BigInt: the
    loops end and the text never exceeds the bytes reserved for it.  It fails
    only for lack of memory, or when the array for the negation is too
    large. *)
Theorem bigint_to_text_correct (mem : Z -> bool) (r : JSBigInt) (radix : Z) :
  bigint_ok r -> 2 <= radix <= 36 ->
  match bigint_to_text mem r radix with
  | Ret t => t = print_int radix (sval r)
  | Throw RangeError => JS_BIGINT_MAX_SIZE < len r
  | Throw OutOfMemory => exists n, mem n = false
  | Throw _ => False
  end.
Proof. apply bigint_to_text_spec. Qed.

Lemma bigint_to_text_correct_witness :
  bigint_to_text (fun _ => true) big_example 10 = Ret (bytes_of "18446744073709551616") /\
  match bigint_to_text (fun _ => true) big_example 10 with
  | Ret t => t = print_int 10 (sval big_example)
  | Throw RangeError => JS_BIGINT_MAX_SIZE < len big_example
  | Throw OutOfMemory => exists n : Z, true = false
  | Throw _ => False
  end.
Proof.
  split; [vm_compute; reflexivity|].
  apply (bigint_to_text_correct (fun _ => true) big_example 10 big_example_ok). lia.
Defined.

(** Text round trip.  Parsing what printing a BigInt gives, in the
    radices of literals, returns the very same BigInt; more generally a
    numeral of any length, leading zeros included, denotes its value.  No
    limb is written past the array allocated from the number of digits.
    Numerals of 2^18 digits and more may be refused as too large. *)
Theorem bigint_text_roundtrip (mem : Z -> bool) (radix : Z) (is_neg : bool) (ds : list Z) (a : JSBigInt) :
  text_radix radix -> Forall (fun d => 0 <= d < radix) ds -> bigint_ok a ->
  match js_bigint_from_string mem ((if is_neg then [chr "-"] else []) ++ (digit_char <$> ds)) radix with
  | Ret r => bigint_ok r /\ sval r = if is_neg then - dval radix ds else dval radix ds
  | Throw RangeError => 2 ^ 18 <= Z.of_nat (length ds)
  | Throw OutOfMemory => exists n, mem n = false
  | Throw _ => False
  end /\
  match js_bigint_from_string mem (print_int radix (sval a)) radix with
  | Ret r => r = a
  | Throw RangeError => 2 ^ 18 <= Z.of_nat (length (print_int radix (sval a)))
  | Throw OutOfMemory => exists n, mem n = false
  | Throw _ => False
  end.
Proof.
  intros Hr Hds Ha. split; [exact (from_string_spec mem radix is_neg ds Hr Hds)|].
  assert (Hr2 : 2 <= radix <= 16) by (destruct Hr as [->|[->|[->| ->]]]; lia).
  destruct (digits_of_canonical radix ltac:(lia) (Z.abs (sval a)) ltac:(lia)) as [Hd Ev _].
  pose proof (from_string_spec mem radix (sval a <? 0) (digits_of radix (Z.abs (sval a))) Hr Hd) as H.
  rewrite Ev in H. unfold print_int. unfold computes in H.
  destruct (js_bigint_from_string mem _ radix) as [r|[]]; try done.
  - destruct H as [Hok E]. apply sval_inj; [done|done|]. rewrite E. destruct (Z.ltb_spec (sval a) 0); lia.
  - rewrite length_app, length_fmap. lia.
Qed.

Lemma bigint_text_roundtrip_witness :
  let mem : Z -> bool := fun _ => true in
  js_bigint_from_string mem (print_int 16 (sval big_example)) 16 = Ret big_example /\
  match js_bigint_from_string mem ((if true then [chr "-"] else []) ++ (digit_char <$> [0; 0; 4; 2])) 10 with
  | Ret r => bigint_ok r /\ sval r = if true then - dval 10 [0; 0; 4; 2] else dval 10 [0; 0; 4; 2]
  | Throw RangeError => 2 ^ 18 <= Z.of_nat (length [0; 0; 4; 2])
  | Throw OutOfMemory => exists n, mem n = false
  | Throw _ => False
  end.
Proof.
  intros mem. split; [vm_compute; reflexivity|].
  assert (Hr : text_radix 10) by (unfold text_radix; auto).
  assert (Hd : Forall (fun d => 0 <= d < 10) [0; 0; 4; 2]) by (repeat constructor; lia).
  destruct (bigint_text_roundtrip mem 10 true [0; 0; 4; 2] big_example Hr Hd big_example_ok) as [C _]. exact C.
Defined.
