(* ===== verification/Numeric.v ===== *)
(** * Numeric operators (src/object/property_set_convert.inc.c)

    The slow paths of the arithmetic, bitwise and comparison operators on
    numeric values: 32-bit integers, doubles, short BigInts (64-bit integers
    held in the value) and BigInts on the heap.  The operands are numeric
    already ([JS_ToNumericFree] returns such values unchanged); [Operators] has
    the conversions of other operands.  Every
    handler also gives the values it passes to [JS_FreeValue]: a heap BigInt
    must be released exactly once. *)
From S2P Require Import Prelude Native BigInt Digits BigIntConv.

(** ** Values *)

Inductive jsnum : Type :=
| V_int (v : Z)
| V_float64 (d : Z)
| V_short_big_int (v : Z)
| V_big_int (p : JSBigInt).

(** A result and the values released. *)
Definition handler (A : Type) : Type := outcome A * list jsnum.

Definition INT32_MIN : Z := - 2 ^ 31.

Definition JS_NewInt64 (val : Z) : jsnum :=
  if val =? sint 32 val then V_int val else V_float64 (int64_to_double val).

(** [d >= a && d <= b] for integers [a] and [b]: false for NaN and
    infinities. *)
Definition double_within (d a b : Z) : bool :=
  negb (f_exp d =? 2047) && (a * 2 ^ 1074 <=? double_val d) && (double_val d <=? b * 2 ^ 1074).

(** [(int32_t)d], [(int64_t)d]: towards zero. *)
Definition truncate (d : Z) : Z := Z.quot (double_val d) (2 ^ 1074).

Definition JS_NewFloat64 (d : Z) : jsnum :=
  if double_within d INT32_MIN INT32_MAX then
    let val := truncate d in
    if d =? int64_to_double val then V_int val else V_float64 d
  else V_float64 d.

Definition js_bigint_set_short (v : Z) : JSBigInt := js_bigint_set_si v.

Definition JS_CompactBigInt (p : JSBigInt) : jsnum :=
  match p with [v] => V_short_big_int (sint 64 v) | _ => V_big_int p end.

(** ** Conversions of operands *)

(** [ret] is an [int32_t]. *)
Definition JS_ToInt32Free (val : jsnum) : handler Z :=
  match val with
  | V_int v => (Ret v, [])
  | V_float64 d =>
      let e := f_exp d in
      let ret :=
        if e <=? 1023 + 30 then sint 32 (truncate d)
        else if e <=? 1023 + 30 + 53 then
          let v := Z.lor (f_mant d) (Z.shiftl 1 52) in
          let v := u64 (Z.shiftl v (e - 1023 - 52 + 32)) in
          let ret := sint 32 (Z.shiftr v 32) in
          if Z.shiftr d 63 =? 0 then ret else sint 32 (- ret)
        else 0 in
      (Ret ret, [])
  | _ => (Throw TypeError, [val])
  end.

Definition JS_ToInt64Free (val : jsnum) : handler Z :=
  match val with
  | V_int v => (Ret v, [])
  | V_float64 d =>
      let e := f_exp d in
      let ret :=
        if e <=? 1023 + 62 then sint 64 (truncate d)
        else if e <=? 1023 + 62 + 53 then
          let v := Z.lor (f_mant d) (Z.shiftl 1 52) in
          let ret := sint 64 (Z.shiftl v (e - 1023 - 52)) in
          if Z.shiftr d 63 =? 0 then ret else sint 64 (- ret)
        else 0 in
      (Ret ret, [])
  | _ => (Throw TypeError, [val])
  end.

Definition JS_ToFloat64Free (val : jsnum) : handler Z :=
  match val with
  | V_int v => (Ret (int64_to_double v), [])
  | V_float64 d => (Ret d, [])
  | _ => (Throw TypeError, [val])
  end.

(** ** Operators *)

Inductive unary_op : Type := OP_inc | OP_dec | OP_plus | OP_neg.
Inductive arith_op : Type := OP_sub | OP_mul | OP_div | OP_mod | OP_pow.
Inductive bin_logic_op : Type := L_or | L_and | L_xor | L_shl | L_sar.
Inductive rel_op : Type := OP_lt | OP_lte | OP_gt | OP_gte | OP_eq.

(** The operand as a BigInt: [slow_big_int] of every handler. *)
Definition as_bigint (op : jsnum) : option JSBigInt :=
  match op with
  | V_short_big_int v => Some (js_bigint_set_short v)
  | V_big_int p => Some p
  | _ => None
  end.

(** The tail common to the slow paths: the operands are released, then the
    result is compacted. *)
Definition big_result (r : outcome JSBigInt) (ops : list jsnum) : handler jsnum :=
  (match r with Ret r => Ret (JS_CompactBigInt r) | Throw e => Throw e end, ops).

Section numeric.
Context (mem : Z -> bool).

(** Double arithmetic: the C operators, [fmod] and [pow] of the C library. *)
Context (fadd fsub fmul fdiv fmod fpow : Z -> Z -> Z).

Definition JS_FLOAT64_NAN : Z := 0x7ff8000000000000.
Definition minus_zero : Z := 2 ^ 63.
Definition one : Z := Z.shiftl 1023 52.

(** [!isfinite(b) && fabs(a) == 1]. *)
Definition js_pow (a b : Z) : Z :=
  if (f_exp b =? 2047) && (Z.land a (2 ^ 63 - 1) =? one) then JS_FLOAT64_NAN else fpow a b.

Definition float_arith (op : arith_op) (d1 d2 : Z) : Z :=
  match op with
  | OP_sub => fsub d1 d2
  | OP_mul => fmul d1 d2
  | OP_div => fdiv d1 d2
  | OP_mod => fmod d1 d2
  | OP_pow => js_pow d1 d2
  end.

(** [-d]: the sign bit. *)
Definition fneg (d : Z) : Z := Z.lxor d (2 ^ 63).

(** A 128-bit intermediate result of two short BigInts. *)
Definition short_result (v : Z) : handler jsnum :=
  if (JS_SHORT_BIG_INT_MIN <=? v) && (v <=? JS_SHORT_BIG_INT_MAX) then (Ret (V_short_big_int v), [])
  else (let* r := js_bigint_new_di mem v in Ret (V_big_int r), []).

(** [2 * (op - OP_dec) - 1]. *)
Definition step_of (op : unary_op) : Z := match op with OP_inc => 1 | _ => -1 end.

(** [bigint_slow_case1]. *)
Definition unary_bigint (op : unary_op) (p1 : JSBigInt) (op1 : jsnum) : handler jsnum :=
  match op with
  | OP_plus => (Throw TypeError, [op1])
  | OP_inc | OP_dec => big_result (js_bigint_add mem p1 (js_bigint_set_si (step_of op)) 0) [op1]
  | OP_neg => big_result (js_bigint_neg mem p1) [op1]
  end.

Definition js_unary_arith_slow (op : unary_op) (op1 : jsnum) : handler jsnum :=
  match op1 with
  | V_int v =>
      match op with
      | OP_inc | OP_dec => (Ret (JS_NewInt64 (v + step_of op)), [])
      | OP_plus => (Ret (JS_NewInt64 v), [])
      | OP_neg => if v =? 0 then (Ret (V_float64 minus_zero), []) else (Ret (JS_NewInt64 (- v)), [])
      end
  | V_short_big_int v =>
      match op with
      | OP_plus => (Throw TypeError, [])
      | OP_inc =>
          if v =? JS_SHORT_BIG_INT_MAX then unary_bigint op (js_bigint_set_short v) op1
          else (Ret (V_short_big_int (v + 1)), [])
      | OP_dec =>
          if v =? JS_SHORT_BIG_INT_MIN then unary_bigint op (js_bigint_set_short v) op1
          else (Ret (V_short_big_int (v - 1)), [])
      | OP_neg =>
          if v =? JS_SHORT_BIG_INT_MIN then unary_bigint op (js_bigint_set_short v) op1
          else (Ret (V_short_big_int (- v)), [])
      end
  | V_big_int p1 => unary_bigint op p1 op1
  | V_float64 d =>
      (Ret (V_float64
              match op with
              | OP_inc | OP_dec => fadd d (int64_to_double (step_of op))
              | OP_plus => d
              | OP_neg => fneg d
              end), [])
  end.

Definition js_not_slow (op1 : jsnum) : handler jsnum :=
  match op1 with
  | V_short_big_int v => (Ret (V_short_big_int (Z.lnot v)), [])
  | V_big_int p => big_result (js_bigint_not mem p) [op1]
  | _ =>
      let '(r, fr) := JS_ToInt32Free op1 in
      (let* v1 := r in Ret (V_int (Z.lnot v1)), fr)
  end.

(** [slow_big_int] of [js_binary_arith_slow]. *)
Definition arith_bigint (op : arith_op) (p1 p2 : JSBigInt) : outcome JSBigInt :=
  match op with
  | OP_sub => js_bigint_add mem p1 p2 1
  | OP_mul => js_bigint_mul mem p1 p2
  | OP_div => js_bigint_divrem mem p1 p2 false
  | OP_mod => js_bigint_divrem mem p1 p2 true
  | OP_pow => js_bigint_pow mem p1 p2
  end.

(** Two operands, one of which is not a BigInt: [double] results. *)
Definition float_operands (op1 op2 : jsnum) (f : Z -> Z -> Z) : handler jsnum :=
  match JS_ToFloat64Free op1 with
  | (Throw e, fr1) => (Throw e, fr1 ++ [op2])
  | (Ret d1, fr1) =>
      match JS_ToFloat64Free op2 with
      | (Throw e, fr2) => (Throw e, fr1 ++ fr2)
      | (Ret d2, fr2) => (Ret (V_float64 (f d1 d2)), fr1 ++ fr2)
      end
  end.

(** Called for [-], [*], [/], [%] and [**]; [+] is [js_add_slow]. *)
Definition js_binary_arith_slow (op : arith_op) (op1 op2 : jsnum) : handler jsnum :=
  let slow p1 p2 := big_result (arith_bigint op p1 p2) [op1; op2] in
  match op1, op2 with
  | V_float64 d1, V_float64 d2 => (Ret (V_float64 (float_arith op d1 d2)), [])
  | V_short_big_int v1, V_short_big_int v2 =>
      let undivided := (v2 =? 0) || ((u64 v1 =? Z.shiftl 1 (JS_LIMB_BITS - 1)) && (v2 =? -1)) in
      match op with
      | OP_sub => short_result (v1 - v2)
      | OP_mul => short_result (v1 * v2)
      | OP_div =>
          if undivided then slow (js_bigint_set_short v1) (js_bigint_set_short v2)
          else (Ret (V_short_big_int (Z.quot v1 v2)), [])
      | OP_mod =>
          if undivided then slow (js_bigint_set_short v1) (js_bigint_set_short v2)
          else (Ret (V_short_big_int (Z.rem v1 v2)), [])
      | OP_pow => slow (js_bigint_set_short v1) (js_bigint_set_short v2)
      end
  | V_int v1, V_int v2 =>
      let dbl := float_arith op (int64_to_double v1) (int64_to_double v2) in
      match op with
      | OP_sub => (Ret (JS_NewInt64 (v1 - v2)), [])
      | OP_mul =>
          let v := v1 * v2 in
          if (v =? 0) && (Z.lor v1 v2 <? 0) then (Ret (V_float64 minus_zero), [])
          else (Ret (JS_NewInt64 v), [])
      | OP_div | OP_pow => (Ret (JS_NewFloat64 dbl), [])
      | OP_mod =>
          if (v1 <? 0) || (v2 <=? 0) then (Ret (JS_NewFloat64 dbl), [])
          else (Ret (JS_NewInt64 (Z.rem v1 v2)), [])
      end
  | _, _ =>
      match as_bigint op1, as_bigint op2 with
      | Some p1, Some p2 => slow p1 p2
      | _, _ => float_operands op1 op2 (float_arith op)
      end
  end.

Definition js_add_slow (op1 op2 : jsnum) : handler jsnum :=
  match op1, op2 with
  | V_float64 d1, V_float64 d2 => (Ret (V_float64 (fadd d1 d2)), [])
  | V_short_big_int v1, V_short_big_int v2 => short_result (v1 + v2)
  | V_int v1, V_int v2 => (Ret (JS_NewInt64 (v1 + v2)), [])
  | _, _ =>
      match as_bigint op1, as_bigint op2 with
      | Some p1, Some p2 => big_result (js_bigint_add mem p1 p2 0) [op1; op2]
      | _, _ => float_operands op1 op2 fadd
      end
  end.

(** [slow_big_int] of [js_binary_logic_slow]. *)
Definition logic_bigint (op : bin_logic_op) (p1 p2 : JSBigInt) : outcome JSBigInt :=
  let shifted (neg : bool) :=
    let shift := js_bigint_get_si_sat p2 in
    let shift := if INT32_MAX <? shift then INT32_MAX else if shift <? - INT32_MAX then - INT32_MAX else shift in
    let shift := if neg then - shift else shift in
    if 0 <=? shift then js_bigint_shl mem p1 shift else js_bigint_shr mem p1 (- shift) in
  match op with
  | L_and => js_bigint_logic mem p1 p2 OP_and
  | L_or => js_bigint_logic mem p1 p2 OP_or
  | L_xor => js_bigint_logic mem p1 p2 OP_xor
  | L_shl => shifted false
  | L_sar => shifted true
  end.

(** [bigint_shl]: [(js_dlimb_t)v1 << v2] is read back as a signed 128-bit
    integer. *)
Definition short_shl (v1 v2 : Z) : handler jsnum :=
  let vd := sint 128 (Z.shiftl v1 v2) in
  if (JS_SHORT_BIG_INT_MIN <=? vd) && (vd <=? JS_SHORT_BIG_INT_MAX) then (Ret (V_short_big_int (sint 64 vd)), [])
  else (let* r := js_bigint_new_di mem vd in Ret (V_big_int r), []).

(** Both operands short. *)
Definition short_logic (op : bin_logic_op) (v1 v2 : Z) (slow : handler jsnum) : handler jsnum :=
  let limit := JS_LIMB_BITS - 1 in
  match op with
  | L_and => (Ret (V_short_big_int (Z.land v1 v2)), [])
  | L_or => (Ret (V_short_big_int (Z.lor v1 v2)), [])
  | L_xor => (Ret (V_short_big_int (Z.lxor v1 v2)), [])
  | L_sar =>
      if limit <? v2 then slow
      else if v2 <? 0 then if v2 <? - limit then slow else short_shl v1 (- v2)
      else (Ret (V_short_big_int (Z.shiftr v1 v2)), [])
  | L_shl =>
      if limit <? v2 then slow
      else if v2 <? 0 then if v2 <? - limit then slow else (Ret (V_short_big_int (Z.shiftr v1 (- v2))), [])
      else short_shl v1 v2
  end.

(** Both operands as 32-bit words. *)
Definition int_logic (op : bin_logic_op) (v1 v2 : Z) : Z :=
  sint 32
    match op with
    | L_shl => u32 (Z.shiftl (u32 v1) (Z.land (u32 v2) 0x1f))
    | L_sar => Z.shiftr (sint 32 v1) (Z.land (u32 v2) 0x1f)
    | L_and => Z.land (u32 v1) (u32 v2)
    | L_or => Z.lor (u32 v1) (u32 v2)
    | L_xor => Z.lxor (u32 v1) (u32 v2)
    end.

Definition js_binary_logic_slow (op : bin_logic_op) (op1 op2 : jsnum) : handler jsnum :=
  let slow p1 p2 := big_result (logic_bigint op p1 p2) [op1; op2] in
  match op1, op2 with
  | V_short_big_int v1, V_short_big_int v2 =>
      short_logic op v1 v2 (slow (js_bigint_set_short v1) (js_bigint_set_short v2))
  | _, _ =>
      match as_bigint op1, as_bigint op2 with
      | Some p1, Some p2 => slow p1 p2
      | _, _ =>
          match JS_ToInt32Free op1 with
          | (Throw e, fr1) => (Throw e, fr1 ++ [op2])
          | (Ret v1, fr1) =>
              match JS_ToInt32Free op2 with
              | (Throw e, fr2) => (Throw e, fr1 ++ fr2)
              | (Ret v2, fr2) => (Ret (V_int (int_logic op v1 v2)), fr1 ++ fr2)
              end
          end
      end
  end.
End numeric.

(** ** Comparison *)

(** [op1] a BigInt or an int; [None] is the abort. *)
Definition JS_ToBigIntBuf (op1 : jsnum) : option JSBigInt :=
  match op1 with
  | V_int v => Some (js_bigint_set_si v)
  | V_short_big_int v => Some (js_bigint_set_short v)
  | V_big_int p => Some p
  | V_float64 _ => None
  end.

Definition small_int (op : jsnum) : option Z :=
  match op with V_int v | V_short_big_int v => Some v | _ => None end.

Definition rel_result (op : rel_op) (val : Z) : bool :=
  match op with
  | OP_lt => val <? 0
  | OP_lte => val <=? 0
  | OP_gt => 0 <? val
  | OP_gte => 0 <=? val
  | OP_eq => val =? 0
  end.

(** At least one operand is a BigInt. *)
Definition js_compare_bigint (op : rel_op) (op1 op2 : jsnum) : handler bool :=
  match small_int op1, small_int op2 with
  | Some v1, Some v2 =>
      (Ret (rel_result op (Z.b2z (v2 <? v1) - Z.b2z (v1 <? v2))), [])
  | _, _ =>
      match op1, op2 with
      | V_float64 d1, _ =>
          match JS_ToBigIntBuf op2 with
          | Some p2 =>
              let val := js_bigint_float64_cmp p2 d1 in
              if val =? 2 then (Ret false, [op1; op2]) else (Ret (rel_result op (- val)), [op1; op2])
          | None => (Throw Fault, [])
          end
      | _, V_float64 d2 =>
          match JS_ToBigIntBuf op1 with
          | Some p1 =>
              let val := js_bigint_float64_cmp p1 d2 in
              if val =? 2 then (Ret false, [op1; op2]) else (Ret (rel_result op val), [op1; op2])
          | None => (Throw Fault, [])
          end
      | _, _ =>
          match JS_ToBigIntBuf op1, JS_ToBigIntBuf op2 with
          | Some p1, Some p2 => (Ret (rel_result op (js_bigint_cmp p1 p2)), [op1; op2])
          | _, _ => (Throw Fault, [])
          end
      end
  end.
