(* ===== verification/NumericProps.v ===== *)
(** * Numeric operators on BigInts compute on integers

    The fast paths on short BigInts and the slow paths on limb arrays agree:
    a JavaScript BigInt, whichever of the two forms it has, is an integer,
    in one form only, and the operators are those of [Z].  Operands are
    released exactly once on every path. *)
From S2P Require Import Prelude Native BigInt BigIntProps BigIntOps Digits BigIntConv BigIntFloat Numeric.

(** ** Well-formed values *)

(** A BigInt that fits 64 bits is short. *)
Definition num_ok (v : jsnum) : Prop :=
  match v with
  | V_int v => INT32_MIN <= v <= INT32_MAX
  | V_float64 d => 0 <= d < 2 ^ 64
  | V_short_big_int v => JS_SHORT_BIG_INT_MIN <= v <= JS_SHORT_BIG_INT_MAX
  | V_big_int p => bigint_ok p /\ (1 < length p)%nat
  end.

(** The integer a BigInt stands for. *)
Definition big_val (v : jsnum) : option Z :=
  match v with
  | V_short_big_int v => Some v
  | V_big_int p => Some (sval p)
  | _ => None
  end.

(** Its number of limbs. *)
Definition limbs_of (v : jsnum) : Z := match v with V_big_int p => len p | _ => 1 end.

(** The values with a reference count. *)
Definition is_heap (v : jsnum) : bool := match v with V_big_int _ => true | _ => false end.
Definition heap_values (l : list jsnum) : list jsnum := filter (fun v => is_heap v = true) l.

Lemma short_limb v : JS_SHORT_BIG_INT_MIN <= v <= JS_SHORT_BIG_INT_MAX ->
  bigint_ok (js_bigint_set_short v) /\ sval (js_bigint_set_short v) = v.
Proof.
  unfold JS_SHORT_BIG_INT_MIN, JS_SHORT_BIG_INT_MAX. intros Hv. split; [apply single_ok, limb_u64|].
  unfold js_bigint_set_short, js_bigint_set_si. rewrite sval_single by apply limb_u64. pose proof B_half.
  rewrite u64_sub by lia. destruct (Z.ltb_spec v 0); [destruct (Z.leb_spec (2 ^ 63) (v + B))|destruct (Z.leb_spec (2 ^ 63) v)]; lia.
Qed.

Lemma as_bigint_spec v x : num_ok v -> big_val v = Some x ->
  exists p, as_bigint v = Some p /\ bigint_ok p /\ sval p = x /\ len p = limbs_of v.
Proof.
  destruct v as [| |v|p]; try done; intros Hok [= <-].
  - destruct (short_limb v Hok). by eexists.
  - destruct Hok. by eexists.
Qed.

Lemma sint_small w x : 0 < w -> - 2 ^ (w - 1) <= x < 2 ^ (w - 1) -> sint w x = x.
Proof.
  intros Hw Hx. unfold sint. assert (E : 2 ^ w = 2 * 2 ^ (w - 1)) by (rewrite <- Z.pow_succ_r by lia; f_equal; lia).
  destruct (Z.le_gt_cases 0 x).
  - rewrite Z.mod_small by lia. by destruct (Z.ltb_spec x (2 ^ (w - 1))); [|lia].
  - assert (x mod 2 ^ w = x + 2 ^ w) as -> by (symmetry; apply (Z.mod_unique_pos _ _ (-1)); lia).
    destruct (Z.ltb_spec (x + 2 ^ w) (2 ^ (w - 1))); lia.
Qed.

(** A normal form of two limbs or more does not fit 64 bits. *)
Lemma long_range p : bigint_ok p -> (1 < length p)%nat -> sval p < JS_SHORT_BIG_INT_MIN \/ JS_SHORT_BIG_INT_MAX < sval p.
Proof.
  intros Hp Hl. pose proof (norm_bound p (length p - 1) Hp ltac:(lia) ltac:(lia)) as Hn.
  assert (B <= pw (length p - 1)).
  { destruct (length p - 1)%nat as [|n] eqn:E; [lia|]. rewrite pw_S. pose proof (pw_pos n). pose proof B_pos. nia. }
  pose proof B_half. unfold JS_SHORT_BIG_INT_MIN, JS_SHORT_BIG_INT_MAX. lia.
Qed.

(** Every integer is one value. *)
Lemma big_val_inj v w x : num_ok v -> num_ok w -> big_val v = Some x -> big_val w = Some x -> v = w.
Proof.
  destruct v as [| |v|p], w as [| |w|q]; try done; simpl; intros Hv Hw [= Ev] [= Ew].
  - congruence.
  - destruct Hw as [Hq Hl]. pose proof (long_range q Hq Hl). lia.
  - destruct Hv as [Hp Hl]. pose proof (long_range p Hp Hl). lia.
  - destruct Hv, Hw. f_equal. apply sval_inj; congruence.
Qed.

Section props.
Context (mem : Z -> bool).
Context (fadd fsub fmul fdiv fmod fpow : Z -> Z -> Z).

(** A handler returns the BigInt [x], or fails because it is too large or
    memory is short. *)
Definition yields (x : Z) (big : Prop) (o : outcome jsnum) : Prop :=
  match o with
  | Ret v => num_ok v /\ big_val v = Some x
  | Throw RangeError => big
  | Throw OutOfMemory => exists n, mem n = false
  | Throw _ => False
  end.

Lemma yields_weaken x (big big' : Prop) o : (big -> big') -> yields x big o -> yields x big' o.
Proof. intros H. destruct o as [|[]]; simpl; auto. Qed.

Lemma big_result_spec x big r ops : computes mem x big r -> yields x big (fst (big_result r ops)).
Proof.
  intros H. destruct r as [r|e]; [|by destruct e]. destruct H as [Hr Er]. cbn [big_result fst yields].
  pose proof (bo_limbs _ Hr) as Hl. destruct r as [|v [|v' r]]; [by destruct (bo_some _ Hr)| |].
  - inv_subst Hl. cbn [JS_CompactBigInt]. rewrite sint64_sval by done. split; [|done].
    unfold num_ok, JS_SHORT_BIG_INT_MIN, JS_SHORT_BIG_INT_MAX. pose proof (sval_range [v] ltac:(by constructor) ltac:(done)) as Hs.
    change (pw (length [v])) with (2 ^ 64) in Hs. lia.
  - cbn [JS_CompactBigInt]. split; [|by rewrite <- Er]. split; [done|simpl; lia].
Qed.

Lemma new_di_spec v : - 2 ^ 127 <= v < 2 ^ 127 -> ~ (JS_SHORT_BIG_INT_MIN <= v <= JS_SHORT_BIG_INT_MAX) ->
  yields v False (let* r := js_bigint_new_di mem v in Ret (V_big_int r)).
Proof.
  unfold JS_SHORT_BIG_INT_MIN, JS_SHORT_BIG_INT_MAX. intros Hv Hout. unfold js_bigint_new_di.
  assert (Hne : v =? sint 64 v = false).
  { apply Z.eqb_neq. unfold sint. change (64 - 1) with 63. pose proof (Z.mod_pos_bound v (2 ^ 64) ltac:(lia)).
    destruct (Z.ltb_spec (v mod 2 ^ 64) (2 ^ 63)); lia. }
  rewrite Hne. unfold js_bigint_new. destruct (Z.ltb_spec JS_BIGINT_MAX_SIZE 2) as [H|_]; [by vm_compute in H|].
  destruct (mem 2) eqn:Em; [|simpl; eauto]. cbn [bind_outcome]. set (p := [u64 v; u64 (Z.shiftr v 64)]).
  assert (Hl : limbs p) by (repeat constructor; apply limb_u64).
  assert (Hsv : sval p = v).
  { apply (sval_unique _ _ (if v <? 0 then 1 else 0)); [done|done| |].
    - unfold p. cbn [uval length]. rewrite !pw_S, pw_0, Z.mul_1_r, Z.mul_0_r, Z.add_0_r, shiftr_B, !u64_B.
      pose proof (Z_div_mod_eq_full v B). pose proof B_half as HB.
      assert (Hd : - 2 ^ 63 <= v / B < 2 ^ 63).
      { split; [apply Z.div_le_lower_bound|apply Z.div_lt_upper_bound]; lia. }
      assert (Hneg : v < 0 <-> v / B < 0).
      { split; [intros; apply Z.div_lt_upper_bound; lia|]. intros. pose proof (Z.mod_pos_bound v B). nia. }
      destruct (Z.ltb_spec v 0).
      + assert ((v / B) mod B = v / B + B) as -> by (symmetry; apply (Z.mod_unique_pos _ _ (-1)); lia). nia.
      + rewrite (Z.mod_small (v / B)) by lia. nia.
    - change (pw (length p)) with (2 ^ 128). lia. }
  split; [|by cbn; rewrite Hsv]. split; [|simpl; lia]. split; [done|done|].
  intros k [= <-]. change (limb_at p 0) with (u64 v). change (limb_at p 1) with (u64 (Z.shiftr v 64)).
  apply not_false_iff_true. intros Hf.
  pose proof (sval_redundant [u64 v] (u64 (Z.shiftr v 64)) ltac:(by constructor; [apply limb_u64|]) ltac:(done) (limb_u64 _) Hf) as Er.
  change ([u64 v] ++ [u64 (Z.shiftr v 64)]) with p in Er. rewrite Hsv in Er.
  pose proof (sval_range [u64 v] ltac:(by constructor; [apply limb_u64|]) ltac:(done)) as Hs. change (pw (length [u64 v])) with (2 ^ 64) in Hs. lia.
Qed.

Lemma short_result_spec v : - 2 ^ 127 <= v < 2 ^ 127 ->
  yields v False (fst (short_result mem v)) /\ snd (short_result mem v) = [].
Proof.
  intros Hv. unfold short_result. destruct (Z.leb_spec JS_SHORT_BIG_INT_MIN v), (Z.leb_spec v JS_SHORT_BIG_INT_MAX);
    cbn [andb fst snd]; (split; [|done]); try (apply new_di_spec; [done|lia]). done.
Qed.

(** ** Arithmetic *)

Notation add := (js_add_slow mem fadd).
Notation arith := (js_binary_arith_slow mem fsub fmul fdiv fmod fpow).
Notation logic := (js_binary_logic_slow mem).

(** What [arith_bigint] computes, and when it is too large. *)
Definition arith_val (op : arith_op) (x y : Z) : Z :=
  match op with
  | OP_sub => x - y
  | OP_mul => x * y
  | OP_div => Z.quot x y
  | OP_mod => Z.rem x y
  | OP_pow => x ^ y
  end.

Definition arith_error (op : arith_op) (y : Z) : bool :=
  match op with OP_div | OP_mod => y =? 0 | OP_pow => y <? 0 | _ => false end.

Definition arith_big (op : arith_op) (x y lx ly : Z) : Prop :=
  match op with
  | OP_sub => JS_BIGINT_MAX_SIZE < lx `max` ly
  | OP_mul => JS_BIGINT_MAX_SIZE < lx + ly
  | OP_div | OP_mod => JS_BIGINT_MAX_SIZE < lx + 2
  | OP_pow => huge (x ^ y) \/ JS_BIGINT_MAX_SIZE < lx
  end.

Lemma arith_bigint_spec op p1 p2 : bigint_ok p1 -> bigint_ok p2 ->
  if arith_error op (sval p2) then arith_bigint mem op p1 p2 = Throw RangeError
  else computes mem (arith_val op (sval p1) (sval p2)) (arith_big op (sval p1) (sval p2) (len p1) (len p2)) (arith_bigint mem op p1 p2).
Proof.
  intros H1 H2. destruct op; cbn [arith_error arith_val arith_big arith_bigint].
  - exact (js_bigint_add_spec mem p1 p2 1 H1 H2 (or_intror eq_refl)).
  - by apply js_bigint_mul_spec.
  - destruct (Z.eqb_spec (sval p2) 0) as [E|E].
    + by apply sval_zero in E as ->.
    + exact (js_bigint_divrem_spec mem p1 p2 false H1 H2 E).
  - destruct (Z.eqb_spec (sval p2) 0) as [E|E].
    + by apply sval_zero in E as ->.
    + exact (js_bigint_divrem_spec mem p1 p2 true H1 H2 E).
  - destruct (Z.ltb_spec (sval p2) 0) as [Hn|Hn]; [|by apply js_bigint_pow_spec].
    unfold js_bigint_pow. rewrite (sval_sign p2) by apply H2. by destruct (Z.ltb_spec (sval p2) 0); [|lia].
Qed.

Definition arith_post (op : arith_op) (x y lx ly : Z) (o : outcome jsnum) : Prop :=
  if arith_error op y then o = Throw RangeError else yields (arith_val op x y) (arith_big op x y lx ly) o.

Lemma arith_slow_spec op p1 p2 ops : bigint_ok p1 -> bigint_ok p2 ->
  arith_post op (sval p1) (sval p2) (len p1) (len p2) (fst (big_result (arith_bigint mem op p1 p2) ops)).
Proof.
  intros H1 H2. unfold arith_post. pose proof (arith_bigint_spec op p1 p2 H1 H2) as H. destruct (arith_error op (sval p2)).
  - by rewrite H.
  - by apply big_result_spec.
Qed.

Lemma undivided_spec v1 v2 : JS_SHORT_BIG_INT_MIN <= v1 <= JS_SHORT_BIG_INT_MAX ->
  JS_SHORT_BIG_INT_MIN <= v2 <= JS_SHORT_BIG_INT_MAX ->
  (v2 =? 0) || ((u64 v1 =? Z.shiftl 1 (JS_LIMB_BITS - 1)) && (v2 =? -1)) = false ->
  v2 <> 0 /\ JS_SHORT_BIG_INT_MIN <= Z.quot v1 v2 <= JS_SHORT_BIG_INT_MAX /\ JS_SHORT_BIG_INT_MIN <= Z.rem v1 v2 <= JS_SHORT_BIG_INT_MAX.
Proof.
  unfold JS_SHORT_BIG_INT_MIN, JS_SHORT_BIG_INT_MAX. intros H1 H2 E. apply orb_false_iff in E as [E1 E2]. rewrite Z.eqb_neq in E1.
  change (Z.shiftl 1 (JS_LIMB_BITS - 1)) with (2 ^ 63) in E2.
  assert (Hex : ~ (v1 = - 2 ^ 63 /\ v2 = -1)) by (intros [-> ->]; by vm_compute in E2).
  pose proof (Z.quot_rem' v1 v2) as Eq. pose proof (Z.rem_bound_abs v1 v2 E1) as Hr. split; [done|].
  assert (Hq : Z.abs (Z.quot v1 v2) * Z.abs v2 <= Z.abs v1).
  { rewrite <- Z.abs_mul, Z.mul_comm. destruct (Z.le_gt_cases 0 v1).
    - pose proof (Z.rem_nonneg v1 v2 E1 ltac:(lia)). pose proof (Z.mul_quot_le v1 v2 ltac:(lia) E1). lia.
    - pose proof (Z.rem_nonpos v1 v2 E1 ltac:(lia)). pose proof (Z.mul_quot_ge v1 v2 ltac:(lia) E1). lia. }
  split; [|lia]. destruct (Z.eq_dec (Z.abs v2) 1) as [E3|E3].
  - assert (v2 = 1 \/ v2 = -1) as [-> | ->] by lia; [rewrite Z.quot_1_r; lia|].
    change (-1) with (- (1)) in *. rewrite Z.quot_opp_r, Z.quot_1_r by lia. lia.
  - assert (2 <= Z.abs v2) by lia. nia.
Qed.

Lemma arith_spec op op1 op2 x y : num_ok op1 -> num_ok op2 -> big_val op1 = Some x -> big_val op2 = Some y ->
  arith_post op x y (limbs_of op1) (limbs_of op2) (fst (arith op op1 op2)).
Proof.
  intros H1 H2 E1 E2. destruct (as_bigint_spec op1 x H1 E1) as (p1 & A1 & P1 & <- & <-).
  destruct (as_bigint_spec op2 y H2 E2) as (p2 & A2 & P2 & <- & <-).
  assert (Hslow : forall ops, arith_post op (sval p1) (sval p2) (len p1) (len p2) (fst (big_result (arith_bigint mem op p1 p2) ops)))
    by (intros; by apply arith_slow_spec).
  destruct op1 as [| |v1|q1], op2 as [| |v2|q2]; try done; injection A1 as <-; injection A2 as <-; [|exact (Hslow _)..].
  simpl in H1, H2. destruct (short_limb v1 H1) as [_ S1], (short_limb v2 H2) as [_ S2].
  assert (Hprod : - 2 ^ 127 <= v1 * v2 < 2 ^ 127) by (unfold JS_SHORT_BIG_INT_MIN, JS_SHORT_BIG_INT_MAX in *; nia).
  cbn [js_binary_arith_slow]. cbv zeta. set (u := (v2 =? 0) || _). destruct op; try exact (Hslow _).
  - unfold arith_post. rewrite S1, S2. cbn [arith_error arith_val]. eapply yields_weaken; [|apply short_result_spec]; [done|].
    unfold JS_SHORT_BIG_INT_MIN, JS_SHORT_BIG_INT_MAX in *. lia.
  - unfold arith_post. rewrite S1, S2. cbn [arith_error arith_val]. eapply yields_weaken; [|by apply short_result_spec]. done.
  - destruct u eqn:Eu; [exact (Hslow _)|]. destruct (undivided_spec v1 v2 H1 H2 Eu) as (Hv2 & Hq & _).
    unfold arith_post. rewrite S1, S2. cbn [arith_error arith_val]. by destruct (Z.eqb_spec v2 0).
  - destruct u eqn:Eu; [exact (Hslow _)|]. destruct (undivided_spec v1 v2 H1 H2 Eu) as (Hv2 & _ & Hr).
    unfold arith_post. rewrite S1, S2. cbn [arith_error arith_val]. by destruct (Z.eqb_spec v2 0).
Qed.

Lemma add_spec op1 op2 x y : num_ok op1 -> num_ok op2 -> big_val op1 = Some x -> big_val op2 = Some y ->
  yields (x + y) (JS_BIGINT_MAX_SIZE < limbs_of op1 `max` limbs_of op2) (fst (add op1 op2)).
Proof.
  intros H1 H2 E1 E2. destruct (as_bigint_spec op1 x H1 E1) as (p1 & A1 & P1 & <- & <-).
  destruct (as_bigint_spec op2 y H2 E2) as (p2 & A2 & P2 & <- & <-).
  assert (Hslow : forall ops, yields (sval p1 + sval p2) (JS_BIGINT_MAX_SIZE < len p1 `max` len p2) (fst (big_result (js_bigint_add mem p1 p2 0) ops))).
  { intros. apply big_result_spec. exact (js_bigint_add_spec mem p1 p2 0 P1 P2 (or_introl eq_refl)). }
  destruct op1 as [| |v1|q1], op2 as [| |v2|q2]; try done; injection A1 as <-; injection A2 as <-; [|exact (Hslow _)..].
  simpl in H1, H2. destruct (short_limb v1 H1) as [_ ->], (short_limb v2 H2) as [_ ->].
  eapply yields_weaken; [|apply short_result_spec]; [done|]. unfold JS_SHORT_BIG_INT_MIN, JS_SHORT_BIG_INT_MAX in *. lia.
Qed.

(** ** Unary operators *)

Notation unary := (js_unary_arith_slow mem fadd).

Definition unary_val (op : unary_op) (x : Z) : Z :=
  match op with OP_inc => x + 1 | OP_dec => x - 1 | OP_plus => x | OP_neg => - x end.

(** Unary plus is the one operator that refuses a BigInt. *)
Definition unary_post (op : unary_op) (x lx : Z) (o : outcome jsnum) : Prop :=
  match op with OP_plus => o = Throw TypeError | _ => yields (unary_val op x) (too_big lx) o end.

Lemma unary_slow_spec op p v : bigint_ok p -> unary_post op (sval p) (len p) (fst (unary_bigint mem op p v)).
Proof.
  intros Hp. assert (Hl : 1 <= len p) by (pose proof (bo_some _ Hp); unfold len; destruct p; [done|simpl; lia]).
  assert (Hstep : forall s, JS_SHORT_BIG_INT_MIN <= s <= JS_SHORT_BIG_INT_MAX ->
    yields (sval p + s) (too_big (len p)) (fst (big_result (js_bigint_add mem p (js_bigint_set_si s) 0) [v]))).
  { intros s Hs. apply big_result_spec. destruct (short_limb s Hs) as [Hok Es]. rewrite <- Es at 1.
    eapply computes_weaken; [|exact (js_bigint_add_spec mem p _ 0 Hp Hok (or_introl eq_refl))].
    unfold too_big. change (len (js_bigint_set_short s)) with 1. lia. }
  destruct op; cbn [unary_bigint unary_post unary_val].
  - by apply (Hstep 1).
  - by apply (Hstep (-1)).
  - done.
  - by apply big_result_spec, js_bigint_neg_spec.
Qed.

Lemma unary_spec op v x : num_ok v -> big_val v = Some x -> unary_post op x (limbs_of v) (fst (unary op v)).
Proof.
  intros Hv Ex. destruct (as_bigint_spec v x Hv Ex) as (p & A & P & Es & El).
  pose proof (unary_slow_spec op p v P) as Hslow. rewrite Es, El in Hslow.
  destruct v as [| |v|q]; try done; injection A as <-; [|exact Hslow].
  injection Ex as <-. unfold num_ok, JS_SHORT_BIG_INT_MIN, JS_SHORT_BIG_INT_MAX in Hv.
  cbn [js_unary_arith_slow]. unfold JS_SHORT_BIG_INT_MAX, JS_SHORT_BIG_INT_MIN.
  destruct op; [destruct (Z.eqb_spec v (2 ^ 63 - 1))|destruct (Z.eqb_spec v (- 2 ^ 63))|done|destruct (Z.eqb_spec v (- 2 ^ 63))];
    try exact Hslow; (split; [unfold num_ok, JS_SHORT_BIG_INT_MIN, JS_SHORT_BIG_INT_MAX; lia|done]).
Qed.

Lemma not_spec v x : num_ok v -> big_val v = Some x -> yields (Z.lnot x) (too_big (limbs_of v)) (fst (js_not_slow mem v)).
Proof.
  intros Hv Ex. destruct v as [| |v|q]; try done; injection Ex as <-; cbn [js_not_slow].
  - split; [|done]. unfold num_ok, JS_SHORT_BIG_INT_MIN, JS_SHORT_BIG_INT_MAX, Z.lnot in *. lia.
  - by apply big_result_spec, js_bigint_not_spec, Hv.
Qed.

(** ** Shifts *)

Definition clamp (x : Z) : Z :=
  if INT32_MAX <? x then INT32_MAX else if x <? - INT32_MAX then - INT32_MAX else x.

(** The shift count is saturated to 32 bits. *)
Lemma clamp_sat p : bigint_ok p -> clamp (js_bigint_get_si_sat p) = clamp (sval p).
Proof.
  intros Hp. destruct p as [|v [|w p]]; [by destruct (bo_some _ Hp)| |].
  - pose proof (bo_limbs _ Hp) as Hl. inv_subst Hl. cbn [js_bigint_get_si_sat]. by rewrite sint64_sval.
  - destruct (long_range _ Hp ltac:(simpl; lia)) as [H|H]; cbn [js_bigint_get_si_sat]; rewrite (sval_sign _) by apply Hp;
      unfold JS_SHORT_BIG_INT_MIN, JS_SHORT_BIG_INT_MAX, clamp, INT32_MAX in *.
    + repeat case_match; rewrite ?Z.ltb_lt, ?Z.ltb_ge, ?Z.eqb_neq, ?Z.eqb_eq in *; try done; lia.
    + repeat case_match; rewrite ?Z.ltb_lt, ?Z.ltb_ge, ?Z.eqb_neq, ?Z.eqb_eq in *; try done; lia.
Qed.

Lemma shl_range a k : bigint_ok a -> sval a <> 0 -> 0 <= k -> too_big (len a + k / JS_LIMB_BITS) ->
  js_bigint_shl mem a k = Throw RangeError.
Proof.
  unfold too_big. intros Ha H0 Hk Hbig. unfold js_bigint_shl, js_bigint_new.
  rewrite Z2Nat.id by (apply Z.div_pos; unfold JS_LIMB_BITS; lia).
  assert (JS_BIGINT_MAX_SIZE <? len a + k / JS_LIMB_BITS = true) as -> by lia.
  destruct a as [|[] []]; try done.
Qed.

Lemma shiftr_all x k : - 2 ^ k <= x < 2 ^ k -> 0 <= k -> Z.shiftr x k = if x <? 0 then -1 else 0.
Proof.
  intros Hx Hk. rewrite Z.shiftr_div_pow2 by done. pose proof (pow2_pos k Hk).
  destruct (Z.ltb_spec x 0); [symmetry; apply (Z.div_unique_pos _ _ _ (x + 2 ^ k)); lia|by apply Z.div_small; lia].
Qed.

(** The whole shift: a count of either sign, saturated. *)
Lemma shift_count_spec a y : bigint_ok a -> len a * JS_LIMB_BITS <= INT32_MAX ->
  computes mem (Z.shiftl (sval a) y) (too_big (len a + (y `max` 0) / JS_LIMB_BITS))
    (if 0 <=? clamp y then js_bigint_shl mem a (clamp y) else js_bigint_shr mem a (- clamp y)).
Proof.
  intros Ha Hlen. pose proof (sval_range a (bo_limbs _ Ha) (bo_some _ Ha)) as Hr. rewrite pw_pow2 in Hr.
  assert (Hsmall : forall k, INT32_MAX <= k -> - 2 ^ k <= sval a < 2 ^ k).
  { intros k Hk. unfold len, JS_LIMB_BITS in Hlen. pose proof (Z.pow_le_mono_r 2 (64 * Z.of_nat (length a)) k ltac:(lia) ltac:(lia)). lia. }
  assert (HM : 0 <= INT32_MAX) by done.
  unfold clamp. destruct (Z.ltb_spec INT32_MAX y); [|destruct (Z.ltb_spec y (- INT32_MAX)); [|destruct (Z.leb_spec 0 y)]].
  - destruct (Z.leb_spec 0 INT32_MAX); [|lia]. destruct (Z.eq_dec (sval a) 0) as [E|E].
    + replace (Z.shiftl (sval a) y) with (Z.shiftl (sval a) INT32_MAX) by (by rewrite E, !Z.shiftl_0_l).
      eapply computes_weaken; [|by apply js_bigint_shl_spec]. unfold too_big. intros Hb.
      assert (INT32_MAX / JS_LIMB_BITS <= (y `max` 0) / JS_LIMB_BITS) by (apply Z.div_le_mono; [done|lia]). lia.
    + rewrite shl_range; [|done..|]; unfold too_big.
      * assert (INT32_MAX / JS_LIMB_BITS <= (y `max` 0) / JS_LIMB_BITS) by (apply Z.div_le_mono; [done|lia]).
        change (INT32_MAX / JS_LIMB_BITS) with 33554431 in *. cbn [computes]. change JS_BIGINT_MAX_SIZE with 16384. unfold len. lia.
      * change (INT32_MAX / JS_LIMB_BITS) with 33554431 in *. change JS_BIGINT_MAX_SIZE with 16384. unfold len. lia.
  - destruct (Z.leb_spec 0 (- INT32_MAX)) as [Hc|_]; [done|]. rewrite Z.opp_involutive.
    replace (Z.shiftl (sval a) y) with (Z.shiftr (sval a) (- y)) by (unfold Z.shiftr; by rewrite Z.opp_involutive).
    rewrite shiftr_all by (try apply Hsmall; lia). rewrite <- (shiftr_all _ INT32_MAX) by (try apply Hsmall; lia).
    eapply computes_weaken; [|by apply js_bigint_shr_spec]. unfold too_big. rewrite Z.max_r by lia. by rewrite Z.add_0_r.
  - rewrite Z.max_l by lia. by apply js_bigint_shl_spec.
  - replace (Z.shiftl (sval a) y) with (Z.shiftr (sval a) (- y)) by (unfold Z.shiftr; by rewrite Z.opp_involutive).
    eapply computes_weaken; [|apply js_bigint_shr_spec; [done|lia]]. unfold too_big. rewrite Z.max_r by lia. by rewrite Z.add_0_r.
Qed.

(** ** Bitwise operators *)

Definition logic_val (op : bin_logic_op) (x y : Z) : Z :=
  match op with
  | L_or => Z.lor x y
  | L_and => Z.land x y
  | L_xor => Z.lxor x y
  | L_shl => Z.shiftl x y
  | L_sar => Z.shiftr x y
  end.

Definition logic_size (op : bin_logic_op) (y lx ly : Z) : Z :=
  match op with
  | L_or | L_and | L_xor => lx `max` ly
  | L_shl => lx + (y `max` 0) / JS_LIMB_BITS
  | L_sar => lx + ((- y) `max` 0) / JS_LIMB_BITS
  end.

Lemma clamp_opp y : - clamp y = clamp (- y).
Proof. unfold clamp, INT32_MAX. repeat case_match; rewrite ?Z.ltb_lt, ?Z.ltb_ge in *; lia. Qed.

Lemma logic_slow_spec op p1 p2 ops : bigint_ok p1 -> bigint_ok p2 -> len p1 * JS_LIMB_BITS <= INT32_MAX ->
  yields (logic_val op (sval p1) (sval p2)) (too_big (logic_size op (sval p2) (len p1) (len p2)))
    (fst (big_result (logic_bigint mem op p1 p2) ops)).
Proof.
  intros H1 H2 Hlen. apply big_result_spec. destruct op; cbn [logic_bigint logic_val logic_size].
  - exact (js_bigint_logic_spec mem OP_or p1 p2 H1 H2).
  - exact (js_bigint_logic_spec mem OP_and p1 p2 H1 H2).
  - exact (js_bigint_logic_spec mem OP_xor p1 p2 H1 H2).
  - cbv zeta. fold (clamp (js_bigint_get_si_sat p2)). rewrite clamp_sat by done. by apply shift_count_spec.
  - cbv zeta. fold (clamp (js_bigint_get_si_sat p2)). rewrite clamp_sat, clamp_opp by done. by apply shift_count_spec.
Qed.

Definition short (v : Z) : Prop := JS_SHORT_BIG_INT_MIN <= v <= JS_SHORT_BIG_INT_MAX.

(** 64 bits: the sign is in every bit from the 63rd up. *)
Lemma short_bits v : short v <-> forall n, 63 <= n -> Z.testbit v n = (v <? 0).
Proof.
  unfold short, JS_SHORT_BIG_INT_MIN, JS_SHORT_BIG_INT_MAX.
  assert (H : - 2 ^ 63 <= v <= 2 ^ 63 - 1 <-> Z.shiftr v 63 = if v <? 0 then -1 else 0).
  { split; [intros; apply shiftr_all; lia|]. rewrite Z.shiftr_div_pow2 by lia. intros E.
    pose proof (Z_div_mod_eq_full v (2 ^ 63)). pose proof (Z.mod_pos_bound v (2 ^ 63) ltac:(lia)).
    destruct (Z.ltb_spec v 0); lia. }
  rewrite H. split.
  - intros E n Hn. replace n with ((n - 63) + 63) by lia. rewrite <- Z.shiftr_spec, E by lia.
    destruct (v <? 0); [apply Z.bits_m1; lia|apply Z.bits_0].
  - intros E. apply Z.bits_inj'. intros n Hn. rewrite Z.shiftr_spec, E by lia.
    destruct (v <? 0); [by rewrite Z.bits_m1|by rewrite Z.bits_0].
Qed.

Lemma short_logic_val op x y : (op = L_or \/ op = L_and \/ op = L_xor) -> short x -> short y -> short (logic_val op x y).
Proof.
  rewrite !short_bits. intros Hop Hx Hy n Hn.
  destruct Hop as [-> |[-> | ->]]; cbn [logic_val]; rewrite ?Z.lor_spec, ?Z.land_spec, ?Z.lxor_spec, Hx, Hy by done.
  - pose proof (Z.lor_neg x y). destruct (Z.ltb_spec x 0), (Z.ltb_spec y 0), (Z.ltb_spec (Z.lor x y) 0); simpl; lia.
  - pose proof (Z.land_neg x y). destruct (Z.ltb_spec x 0), (Z.ltb_spec y 0), (Z.ltb_spec (Z.land x y) 0); simpl; lia.
  - pose proof (Z.lxor_nonneg x y). destruct (Z.ltb_spec x 0), (Z.ltb_spec y 0), (Z.ltb_spec (Z.lxor x y) 0); simpl; lia.
Qed.

Lemma short_shiftr x k : short x -> 0 <= k -> short (Z.shiftr x k).
Proof.
  unfold short, JS_SHORT_BIG_INT_MIN, JS_SHORT_BIG_INT_MAX. intros Hx Hk. rewrite Z.shiftr_div_pow2 by done.
  pose proof (pow2_pos k Hk). split; [apply Z.div_le_lower_bound; nia|].
  apply Z.lt_le_pred. apply Z.div_lt_upper_bound; nia.
Qed.

Lemma short_shl_spec x k big : short x -> 0 <= k <= 63 -> yields (Z.shiftl x k) big (fst (short_shl mem x k)).
Proof.
  unfold short, short_shl. intros Hx Hk. unfold JS_SHORT_BIG_INT_MIN, JS_SHORT_BIG_INT_MAX in Hx.
  assert (Hr : - 2 ^ 127 <= Z.shiftl x k < 2 ^ 127).
  { rewrite Z.shiftl_mul_pow2 by lia. pose proof (pow2_pos k ltac:(lia)). pose proof (Z.pow_le_mono_r 2 k 63 ltac:(lia) ltac:(lia)). nia. }
  rewrite (sint_small 128) by (change (128 - 1) with 127; lia).
  destruct (Z.leb_spec JS_SHORT_BIG_INT_MIN (Z.shiftl x k)), (Z.leb_spec (Z.shiftl x k) JS_SHORT_BIG_INT_MAX); cbn [andb fst];
    [|eapply yields_weaken; [|apply new_di_spec; [done|lia]]; done..].
  rewrite sint_small by (unfold JS_SHORT_BIG_INT_MIN, JS_SHORT_BIG_INT_MAX in *; lia). done.
Qed.

Lemma logic_op_spec op op1 op2 x y : num_ok op1 -> num_ok op2 -> big_val op1 = Some x -> big_val op2 = Some y ->
  limbs_of op1 * JS_LIMB_BITS <= INT32_MAX ->
  yields (logic_val op x y) (too_big (logic_size op y (limbs_of op1) (limbs_of op2))) (fst (logic op op1 op2)).
Proof.
  intros H1 H2 E1 E2 Hlen. destruct (as_bigint_spec op1 x H1 E1) as (p1 & A1 & P1 & S1 & L1).
  destruct (as_bigint_spec op2 y H2 E2) as (p2 & A2 & P2 & S2 & L2). rewrite <- L1 in *. rewrite <- L2.
  assert (Hslow : forall ops, yields (logic_val op x y) (too_big (logic_size op y (len p1) (len p2)))
    (fst (big_result (logic_bigint mem op p1 p2) ops))) by (intros; rewrite <- S1, <- S2; by apply logic_slow_spec).
  destruct op1 as [| |v1|q1], op2 as [| |v2|q2]; try done; injection A1 as <-; injection A2 as <-; [|exact (Hslow _)..].
  injection E1 as <-. injection E2 as <-. change (short v1) in H1. change (short v2) in H2.
  cbn [js_binary_logic_slow]. cbv zeta. set (slow := big_result _ _). unfold short_logic. cbv zeta.
  change (- (JS_LIMB_BITS - 1)) with (-63). change (JS_LIMB_BITS - 1) with 63. destruct op.
  - split; [|done]. apply (short_logic_val L_or); auto.
  - split; [|done]. apply (short_logic_val L_and); auto.
  - split; [|done]. apply (short_logic_val L_xor); auto.
  - destruct (Z.ltb_spec 63 v2); [apply Hslow|]. destruct (Z.ltb_spec v2 0); [destruct (Z.ltb_spec v2 (-63)); [apply Hslow|]|].
    + cbn [fst logic_val yields]. replace (Z.shiftl v1 v2) with (Z.shiftr v1 (- v2)) by (unfold Z.shiftr; by rewrite Z.opp_involutive).
      split; [|done]. apply short_shiftr; [done|lia].
    + apply short_shl_spec; [done|lia].
  - destruct (Z.ltb_spec 63 v2); [apply Hslow|]. destruct (Z.ltb_spec v2 0); [destruct (Z.ltb_spec v2 (-63)); [apply Hslow|]|].
    + apply short_shl_spec; [done|lia].
    + split; [|done]. by apply short_shiftr.
Qed.
End props.

(** ** Conversion of doubles to machine integers *)

Lemma sint_mod w x y : x mod 2 ^ w = y mod 2 ^ w -> sint w x = sint w y.
Proof. unfold sint. by intros ->. Qed.

Lemma sint_congr w x : 0 < w -> sint w x mod 2 ^ w = x mod 2 ^ w.
Proof.
  intros Hw. unfold sint. cbv zeta. pose proof (pow2_pos w ltac:(lia)). destruct (_ <? _); [by rewrite Z.mod_mod by lia|].
  replace (x mod 2 ^ w - 2 ^ w) with (x mod 2 ^ w + (-1) * 2 ^ w) by lia. by rewrite Z.mod_add, Z.mod_mod by lia.
Qed.

Lemma sint_opp w x : 0 < w -> sint w (- sint w x) = sint w (- x).
Proof.
  intros Hw. apply sint_mod. pose proof (pow2_pos w ltac:(lia)).
  rewrite <- !(Z.sub_0_l), Zminus_mod, sint_congr, <- Zminus_mod by done. done.
Qed.

(** The integer part of a double of at least one, on its fields. *)
Lemma truncate_large d : double d -> 1023 <= f_exp d < 2047 ->
  truncate d = let n := (f_mant d + 2 ^ 52) * 2 ^ (f_exp d - 1023) / 2 ^ 52 in if f_sign d =? 0 then n else - n.
Proof.
  intros Hd He. destruct (fields_spec d Hd) as (Hs & _ & Hm & _). unfold truncate, double_val.
  destruct (Z.eqb_spec (f_exp d) 0); [lia|].
  assert (E : (f_mant d + 2 ^ 52) * 2 ^ (f_exp d - 1) ÷ 2 ^ 1074 = (f_mant d + 2 ^ 52) * 2 ^ (f_exp d - 1023) / 2 ^ 52).
  { pose proof (pow2_pos (f_exp d - 1023) ltac:(lia)). pose proof (pow2_pos 1022 ltac:(lia)) as H1022.
    replace (f_exp d - 1) with (f_exp d - 1023 + 1022) by lia. change 1074 with (52 + 1022). rewrite !Z.pow_add_r by lia.
    rewrite Z.mul_assoc, Z.quot_mul_cancel_r by (clear -H1022; lia). rewrite Z.quot_div_nonneg; [done|nia|lia]. }
  destruct (f_sign d =? 0); [done|]. rewrite Z.quot_opp_l by (pose proof (pow2_pos 1074); lia). by rewrite E.
Qed.

(** An exponent that leaves no bit below [2^w]. *)
Lemma truncate_high d w : double d -> 0 < w -> 1023 + 52 + w <= f_exp d < 2047 -> truncate d mod 2 ^ w = 0.
Proof.
  intros Hd Hw He. rewrite truncate_large by (try done; lia). cbv zeta. pose proof (pow2_pos w ltac:(lia)).
  replace (f_exp d - 1023) with ((f_exp d - 1023 - 52 - w) + w + 52) by lia. rewrite !Z.pow_add_r by lia.
  rewrite !Z.mul_assoc, Z.div_mul by lia. set (a := _ * 2 ^ (f_exp d - 1023 - 52 - w)).
  destruct (f_sign d =? 0); [by rewrite Z_mod_mult|]. by rewrite <- Z.mul_opp_l, Z_mod_mult.
Qed.

Lemma mant_bit d : double d -> Z.lor (f_mant d) (Z.shiftl 1 52) = f_mant d + 2 ^ 52.
Proof.
  intros Hd. destruct (fields_spec d Hd) as (_ & _ & Hm & _). rewrite Z.shiftl_1_l, Z.lor_comm, (lor_low 52) by (done || lia). lia.
Qed.

Definition to_int (w d : Z) : Z := if f_exp d =? 2047 then 0 else sint w (truncate d).

Lemma to_int64_spec d : double d -> JS_ToInt64Free (V_float64 d) = (Ret (to_int 64 d), []).
Proof.
  intros Hd. destruct (fields_spec d Hd) as (Hs & He & Hm & _). unfold to_int. cbn [JS_ToInt64Free]. cbv zeta. rewrite mant_bit by done.
  do 2 f_equal. destruct (Z.leb_spec (f_exp d) (1023 + 62)); [by destruct (Z.eqb_spec (f_exp d) 2047); [lia|]|].
  destruct (Z.leb_spec (f_exp d) (1023 + 62 + 53)); destruct (Z.eqb_spec (f_exp d) 2047); try lia.
  - rewrite truncate_large by (done || lia). cbv zeta. fold (f_sign d). set (M := f_mant d + 2 ^ 52) in *.
    assert (E : M * 2 ^ (f_exp d - 1023) / 2 ^ 52 = Z.shiftl M (f_exp d - 1023 - 52)).
    { rewrite Z.shiftl_mul_pow2 by lia. replace (f_exp d - 1023) with (f_exp d - 1023 - 52 + 52) at 1 by lia.
      by rewrite Z.pow_add_r, Z.mul_assoc, Z.div_mul by lia. }
    rewrite E. destruct (f_sign d =? 0); [done|]. by apply sint_opp.
  - assert (E : truncate d mod 2 ^ 64 = 0) by (apply truncate_high; lia). rewrite (sint_mod 64 _ 0); [done|by rewrite E].
Qed.

Lemma to_int32_spec d : double d -> JS_ToInt32Free (V_float64 d) = (Ret (to_int 32 d), []).
Proof.
  intros Hd. destruct (fields_spec d Hd) as (Hs & He & Hm & _). unfold to_int. cbn [JS_ToInt32Free]. cbv zeta. rewrite mant_bit by done.
  do 2 f_equal. destruct (Z.leb_spec (f_exp d) (1023 + 30)); [by destruct (Z.eqb_spec (f_exp d) 2047); [lia|]|].
  destruct (Z.leb_spec (f_exp d) (1023 + 30 + 53)); destruct (Z.eqb_spec (f_exp d) 2047); try lia.
  - rewrite truncate_large by (done || lia). cbv zeta. fold (f_sign d). set (M := f_mant d + 2 ^ 52) in *. set (k := f_exp d - 1023) in *.
    assert (E : sint 32 (Z.shiftr (u64 (Z.shiftl M (k - 52 + 32))) 32) = sint 32 (M * 2 ^ k / 2 ^ 52)).
    { apply sint_mod. rewrite Z.shiftl_mul_pow2, Z.shiftr_div_pow2 by lia. unfold u64.
      rewrite (Z.mul_comm M). change (2 ^ 64) with (2 ^ 32 * 2 ^ 32). rewrite Z.rem_mul_r by lia.
      rewrite (Z.mul_comm (2 ^ 32)), Z.div_add by lia. rewrite Z.div_small by (apply Z.mod_pos_bound; lia).
      rewrite Z.add_0_l, Z.mod_mod by lia. f_equal. rewrite (Z.mul_comm _ M).
      rewrite <- (Z.div_mul_cancel_r (M * 2 ^ (k - 52 + 32)) (2 ^ 32) (2 ^ 20)), <- Z.mul_assoc, <- !Z.pow_add_r by lia.
      do 3 f_equal. lia. }
    rewrite E. destruct (f_sign d =? 0); [done|]. by apply sint_opp.
  - assert (E : truncate d mod 2 ^ 32 = 0) by (apply truncate_high; lia). rewrite (sint_mod 32 _ 0); [done|by rewrite E].
Qed.

(** ** Comparison *)

(** The exact value of an operand that is not a double. *)
Definition int_val (v : jsnum) : option Z :=
  match v with V_int v | V_short_big_int v => Some v | V_big_int p => Some (sval p) | V_float64 _ => None end.

Definition rel_holds (op : rel_op) (x y : Z) : bool :=
  match op with
  | OP_lt => x <? y
  | OP_lte => x <=? y
  | OP_gt => y <? x
  | OP_gte => y <=? x
  | OP_eq => x =? y
  end.

Lemma rel_result_sgn op x y : rel_result op (Z.sgn (x - y)) = rel_holds op x y.
Proof.
  pose proof (Z.sgn_spec (x - y)). destruct op; cbn [rel_result rel_holds];
    match goal with |- ?a = ?b => destruct a eqn:?, b eqn:? end; lia.
Qed.

Lemma rel_result_small op x y : rel_result op (Z.b2z (y <? x) - Z.b2z (x <? y)) = rel_holds op x y.
Proof.
  rewrite <- rel_result_sgn. f_equal. destruct (Z.ltb_spec y x), (Z.ltb_spec x y); simpl; lia.
Qed.

Lemma to_bigint_spec v x : num_ok v -> int_val v = Some x ->
  exists p, JS_ToBigIntBuf v = Some p /\ bigint_ok p /\ sval p = x.
Proof.
  destruct v as [v| |v|p]; try done; intros Hok [= <-].
  - assert (JS_SHORT_BIG_INT_MIN <= v <= JS_SHORT_BIG_INT_MAX)
      by (unfold num_ok, INT32_MIN, INT32_MAX, JS_SHORT_BIG_INT_MIN, JS_SHORT_BIG_INT_MAX in *; lia).
    destruct (short_limb v ltac:(done)). by eexists.
  - destruct (short_limb v Hok). by eexists.
  - destruct Hok. by eexists.
Qed.

Lemma compare_ints_spec op op1 op2 x y : num_ok op1 -> num_ok op2 -> int_val op1 = Some x -> int_val op2 = Some y ->
  fst (js_compare_bigint op op1 op2) = Ret (rel_holds op x y).
Proof.
  intros H1 H2 E1 E2. destruct (to_bigint_spec op1 x H1 E1) as (p1 & A1 & P1 & S1).
  destruct (to_bigint_spec op2 y H2 E2) as (p2 & A2 & P2 & S2). unfold js_compare_bigint. rewrite A1, A2.
  destruct op1 as [v1| |v1|q1], op2 as [v2| |v2|q2]; try done; cbn [small_int];
    try (cbn [fst]; do 2 f_equal; rewrite js_bigint_cmp_spec, S1, S2 by done; apply rel_result_sgn);
    injection E1 as <-; injection E2 as <-; cbn [fst]; by rewrite rel_result_small.
Qed.

(** ** Properties *)

(** [C26] The arithmetic operators on BigInts, in whichever of their two
    forms: the result is the exact sum, difference, product, quotient
    truncated towards zero, remainder with the sign of the dividend, or
    power; it is short exactly when it fits 64 bits, so that equal BigInts
    are equal values.  Division by zero and a negative exponent are
    RangeErrors, and the only other failures are a result over the size
    limit and memory exhaustion. *)
Theorem bigint_operators_exact (mem : Z -> bool) (fadd fsub fmul fdiv fmod fpow : Z -> Z -> Z) (op : arith_op) (op1 op2 : jsnum) (x y : Z) :
  num_ok op1 -> num_ok op2 -> big_val op1 = Some x -> big_val op2 = Some y ->
  yields mem (x + y) (too_big (limbs_of op1 `max` limbs_of op2)) (fst (js_add_slow mem fadd op1 op2)) /\
  arith_post mem op x y (limbs_of op1) (limbs_of op2) (fst (js_binary_arith_slow mem fsub fmul fdiv fmod fpow op op1 op2)) /\
  (forall w z, num_ok w -> big_val w = Some z -> (z = x <-> w = op1)).
Proof.
  intros H1 H2 E1 E2. split_and!; [by apply add_spec|by apply arith_spec|]. intros w z Hw Ez.
  split; [intros ->; by apply (big_val_inj w op1 x)|]. intros ->. congruence.
Qed.

Definition no_float (a b : Z) : Z := 0.

Lemma bigint_operators_exact_witness :
  fst (js_binary_arith_slow (fun _ => true) no_float no_float no_float no_float no_float OP_mul
         (V_short_big_int (2 ^ 62)) (V_short_big_int (-4))) = Ret (V_big_int [0; limb_ones]) /\
  yields (fun _ => true) (2 ^ 62 * -4) (too_big 2) (Ret (V_big_int [0; limb_ones])).
Proof.
  assert (H1 : num_ok (V_short_big_int (2 ^ 62))) by (split; vm_compute; done).
  assert (H2 : num_ok (V_short_big_int (-4))) by (split; vm_compute; done).
  destruct (bigint_operators_exact (fun _ => true) no_float no_float no_float no_float no_float no_float OP_mul
    (V_short_big_int (2 ^ 62)) (V_short_big_int (-4)) (2 ^ 62) (-4) H1 H2 eq_refl eq_refl) as (_ & H & _).
  split; [vm_compute; reflexivity|exact H].
Defined.

(** The unary and bitwise operators on BigInts: increment, decrement,
    negation and complement; and, or and exclusive or of the infinite two's
    complement; and shifts by any BigInt, of either sign, however large. The
    count is saturated to 32 bits, which no admissible operand can tell.
    Unary plus is a TypeError. *)
Theorem bigint_bit_operators_exact (mem : Z -> bool) (fadd : Z -> Z -> Z) (uop : unary_op) (lop : bin_logic_op) (op1 op2 : jsnum) (x y : Z) :
  num_ok op1 -> num_ok op2 -> big_val op1 = Some x -> big_val op2 = Some y ->
  limbs_of op1 * JS_LIMB_BITS <= INT32_MAX ->
  unary_post mem uop x (limbs_of op1) (fst (js_unary_arith_slow mem fadd uop op1)) /\
  yields mem (- x - 1) (too_big (limbs_of op1)) (fst (js_not_slow mem op1)) /\
  yields mem (logic_val lop x y) (too_big (logic_size lop y (limbs_of op1) (limbs_of op2)))
    (fst (js_binary_logic_slow mem lop op1 op2)).
Proof.
  intros H1 H2 E1 E2 Hlen. split_and!.
  - by apply unary_spec.
  - by apply not_spec.
  - by apply logic_op_spec.
Qed.

Lemma bigint_bit_operators_exact_witness :
  yields (fun _ => true) (Z.shiftr (-5) 70) (too_big 1)
    (fst (js_binary_logic_slow (fun _ => true) L_sar (V_short_big_int (-5)) (V_short_big_int 70))).
Proof.
  assert (H1 : num_ok (V_short_big_int (-5))) by (split; vm_compute; done).
  assert (H2 : num_ok (V_short_big_int 70)) by (split; vm_compute; done).
  destruct (bigint_bit_operators_exact (fun _ => true) no_float OP_inc L_sar
    (V_short_big_int (-5)) (V_short_big_int 70) (-5) 70 H1 H2 eq_refl eq_refl ltac:(vm_compute; done)) as (_ & _ & H).
  exact H.
Defined.

(** Ownership, once the operands are numeric: each handler, on every path,
    success or exception, passes each operand that lives on the heap to
    [JS_FreeValue] exactly once. *)
Ltac released_cases :=
  cbn [js_add_slow js_binary_arith_slow js_binary_logic_slow js_compare_bigint js_unary_arith_slow js_not_slow as_bigint
       small_int JS_ToBigIntBuf float_operands JS_ToFloat64Free JS_ToInt32Free];
  unfold short_result, short_logic, short_shl, unary_bigint, big_result; cbv zeta;
  repeat (case_match; simplify_eq); done.

Section released.
Context (mem : Z -> bool) (fadd fsub fmul fdiv fmod fpow : Z -> Z -> Z).

Lemma add_released n1 n2 : heap_values (snd (js_add_slow mem fadd n1 n2)) = heap_values [n1; n2].
Proof. destruct n1, n2; released_cases. Qed.

Lemma arith_released op n1 n2 :
  heap_values (snd (js_binary_arith_slow mem fsub fmul fdiv fmod fpow op n1 n2)) = heap_values [n1; n2].
Proof. destruct n1, n2; released_cases. Qed.

Lemma logic_released op n1 n2 : heap_values (snd (js_binary_logic_slow mem op n1 n2)) = heap_values [n1; n2].
Proof. destruct n1, n2; released_cases. Qed.

Lemma unary_released op n1 : heap_values (snd (js_unary_arith_slow mem fadd op n1)) = heap_values [n1].
Proof. destruct n1; released_cases. Qed.

Lemma not_released n1 : heap_values (snd (js_not_slow mem n1)) = heap_values [n1].
Proof. destruct n1; released_cases. Qed.
End released.

(** A comparison aborts on two doubles only. *)
Lemma compare_released op n1 n2 :
  match js_compare_bigint op n1 n2 with
  | (Ret _, released) => heap_values released = heap_values [n1; n2]
  | (Throw _, released) => released = [] /\ as_bigint n1 = None /\ as_bigint n2 = None
  end.
Proof. destruct n1, n2; released_cases. Qed.

(** A BigInt and a Number do not mix: every binary operator but the
    comparisons throws a TypeError, whichever side the BigInt is on. *)
Theorem mixed_operands_rejected (mem : Z -> bool) (fadd fsub fmul fdiv fmod fpow : Z -> Z -> Z)
    (op : arith_op) (lop : bin_logic_op) (op1 op2 : jsnum) :
  as_bigint op1 = None <-> as_bigint op2 <> None ->
  fst (js_add_slow mem fadd op1 op2) = Throw TypeError /\
  fst (js_binary_arith_slow mem fsub fmul fdiv fmod fpow op op1 op2) = Throw TypeError /\
  fst (js_binary_logic_slow mem lop op1 op2) = Throw TypeError.
Proof. destruct op1, op2; cbn [as_bigint]; intros [H1 H2]; try (by destruct (H1 eq_refl)); try (by discriminate H2); done. Qed.

Lemma mixed_operands_rejected_witness :
  fst (js_add_slow (fun _ => true) no_float (V_short_big_int 1) (V_int 1)) = Throw TypeError.
Proof.
  apply (mixed_operands_rejected (fun _ => true) no_float no_float no_float no_float no_float no_float OP_sub L_or
    (V_short_big_int 1) (V_int 1)). split; [discriminate|intros H; by destruct H].
Defined.

(** Conversion of a double to a 32-bit and to a 64-bit integer is
    truncation towards zero followed by reduction modulo [2^32] or [2^64] to
    the signed range, zero for NaN and the infinities: the shifts of the
    significand that replace [fmod] agree with it for every exponent. *)
Theorem to_int_truncates_modulo (d : Z) :
  0 <= d < 2 ^ 64 ->
  JS_ToInt32Free (V_float64 d) = (Ret (if f_exp d =? 2047 then 0 else sint 32 (Z.quot (double_val d) (2 ^ 1074))), []) /\
  JS_ToInt64Free (V_float64 d) = (Ret (if f_exp d =? 2047 then 0 else sint 64 (Z.quot (double_val d) (2 ^ 1074))), []).
Proof. intros Hd. split; [by apply to_int32_spec|by apply to_int64_spec]. Qed.

(** [-(2^33 + 2^32 + 5.5)]. *)
Lemma to_int_truncates_modulo_witness : JS_ToInt32Free (V_float64 0xC2080000002C0000) = (Ret (-5), []).
Proof.
  destruct (to_int_truncates_modulo 0xC2080000002C0000 ltac:(lia)) as [-> _]. vm_compute. reflexivity.
Defined.

(** Comparing two integers, ints or BigInts in either form, is exact;
    and NaN compares false with every BigInt under every relation. *)
Theorem compare_bigint_exact (op : rel_op) (op1 op2 : jsnum) (x : Z) :
  num_ok op1 -> num_ok op2 -> int_val op1 = Some x ->
  match op2 with
  | V_float64 d => f_exp d = 2047 -> f_mant d <> 0 ->
      fst (js_compare_bigint op op1 op2) = Ret false /\ fst (js_compare_bigint op op2 op1) = Ret false
  | V_int y | V_short_big_int y => fst (js_compare_bigint op op1 op2) = Ret (rel_holds op x y)
  | V_big_int q => fst (js_compare_bigint op op1 op2) = Ret (rel_holds op x (sval q))
  end.
Proof.
  intros H1 H2 E1. destruct op2 as [y|d|y|q]; try by apply compare_ints_spec. intros Ed Em.
  destruct (to_bigint_spec op1 x H1 E1) as (p & A & P & _).
  pose proof (float64_cmp_spec p d P H2) as E. rewrite Ed in E. apply Z.eqb_neq in Em. rewrite Em in E. cbn [Z.eqb Pos.eqb] in E.
  unfold js_compare_bigint. destruct op1; try done; cbn [small_int]; by rewrite A, E.
Qed.

Lemma compare_bigint_exact_witness :
  fst (js_compare_bigint OP_lt (V_int 7) (V_big_int big_example)) = Ret true.
Proof.
  assert (H2 : num_ok (V_big_int big_example)) by (split; [exact big_example_ok|vm_compute; lia]).
  pose proof (compare_bigint_exact OP_lt (V_int 7) (V_big_int big_example) 7 ltac:(split; vm_compute; done) H2 eq_refl) as H.
  vm_compute in H. vm_compute. exact H.
Defined.
