(* ===== verification/Operators.v ===== *)
(** * Operators on any values (src/object/property_set_convert.inc.c)

    The slow paths of the operators as the interpreter calls them: the
    operands are any values, on the stack, and are converted first, by code
    that runs scripts and may throw at any point.  The handlers of [Numeric]
    are what they do once the operands are numeric.

    The concern is ownership.  A conversion ([..Free]) takes its operand over
    and gives a new reference or an exception; every other function borrows
    its operands.  The model keeps a ledger: the references got (the operands
    of the stack, results of properties and calls, new values) and the ones
    released, by [JS_FreeValue] or by a function that takes them over. *)
From S2P Require Import Prelude Native BigInt Digits BigIntConv Numeric NumericProps.

Section operators.
(** Strings and ropes, objects, symbols; the world of the scripts. *)
Context {JSString JSObject JSSymbol W : Type}.

Inductive value : Type :=
| Num (n : jsnum)
| Bool (b : bool)
| Null
| Undefined
| Str (x : JSString)
| Obj (o : JSObject)
| Sym (y : JSSymbol).

(** The values that are references to the heap. *)
Definition counted (v : value) : bool :=
  match v with Num n => is_heap n | Str _ | Obj _ | Sym _ => true | _ => false end.

Record ledger := Ledger { world : W; got : list value; freed : list value }.

Definition own (v : value) (s : ledger) : ledger := Ledger (world s) (v :: got s) (freed s).
Definition JS_FreeValue (v : value) (s : ledger) : ledger := Ledger (world s) (got s) (v :: freed s).
Definition in_world (w : W) (s : ledger) : ledger := Ledger w (got s) (freed s).

Notation step A := (outcome A * ledger)%type.

(** ** What the handlers call *)

Inductive method_name : Type := Symbol_toPrimitive | toString | valueOf.

(** Properties, calls and conversions that run scripts. *)
Context (get_property : JSObject -> method_name -> W -> outcome value * W).
Context (is_function : value -> bool).
Context (call : value -> JSObject -> W -> outcome value * W).
Context (string_of : value -> W -> outcome JSString * W).
(** The name of a hint; the number and the BigInt a string stands for, NaN
    when there is none, or an exception; the concatenation of two strings. *)
Context (hint_name : JSString).
Context (string_number string_bigint : JSString -> outcome jsnum).
Context (string_concat : JSString -> JSString -> outcome JSString).
(** Comparisons, which borrow their operands. *)
Context (string_compare : JSString -> JSString -> Z) (js_strict_eq2 : value -> value -> bool) (JS_IsHTMLDDA : value -> bool).
(** The C operators on doubles and the allocator, as in [Numeric]. *)
Context (flt fle feq : Z -> Z -> bool) (mem : Z -> bool) (fadd fsub fmul fdiv fmod fpow : Z -> Z -> Z).

Definition JS_GetProperty (o : JSObject) (name : method_name) (s : ledger) : step value :=
  let '(r, w) := get_property o name (world s) in
  match r with Ret v => (Ret v, own v (in_world w s)) | Throw e => (Throw e, in_world w s) end.

(** The method is released after the call. *)
Definition JS_CallFree (m : value) (o : JSObject) (s : ledger) : step value :=
  let '(r, w) := call m o (world s) in
  let s := JS_FreeValue m (in_world w s) in
  match r with Ret v => (Ret v, own v s) | Throw e => (Throw e, s) end.

Definition is_object (v : value) : bool := match v with Obj _ => true | _ => false end.
Definition is_nullish (v : value) : bool := match v with Null | Undefined => true | _ => false end.

(** ** Conversions *)

(** The loop over the two methods. *)
Fixpoint ordinary_to_primitive (names : list method_name) (o : JSObject) (s : ledger) : step value :=
  match names with
  | [] => (Throw TypeError, JS_FreeValue (Obj o) s)
  | name :: names =>
      match JS_GetProperty o name s with
      | (Throw e, s) => (Throw e, JS_FreeValue (Obj o) s)
      | (Ret method, s) =>
          if is_function method then
            match JS_CallFree method o s with
            | (Throw e, s) => (Throw e, JS_FreeValue (Obj o) s)
            | (Ret ret, s) =>
                if negb (is_object ret) then (Ret ret, JS_FreeValue (Obj o) s)
                else ordinary_to_primitive names o (JS_FreeValue ret s)
            end
          else ordinary_to_primitive names o (JS_FreeValue method s)
      end
  end.

(** With [HINT_NUMBER] or [HINT_NONE]: [valueOf] before [toString]. *)
Definition JS_ToPrimitiveFree (val : value) (s : ledger) : step value :=
  match val with
  | Obj o =>
      match JS_GetProperty o Symbol_toPrimitive s with
      | (Throw e, s) => (Throw e, JS_FreeValue val s)
      | (Ret method, s) =>
          if negb (is_nullish method) then
            let arg := Str hint_name in
            let '(r, s) := JS_CallFree method o (own arg s) in
            let s := JS_FreeValue arg s in
            match r with
            | Throw e => (Throw e, JS_FreeValue val s)
            | Ret ret =>
                let s := JS_FreeValue val s in
                if negb (is_object ret) then (Ret ret, s) else (Throw TypeError, JS_FreeValue ret s)
            end
          else ordinary_to_primitive [valueOf; toString] o s
      end
  | _ => (Ret val, s)
  end.

(** [JS_ToNumberHintFree] with [TON_FLAG_NUMERIC], on a primitive. *)
Definition primitive_to_numeric (val : value) (s : ledger) : step jsnum :=
  match val with
  | Num n => (Ret n, s)
  | Bool b => (Ret (V_int (Z.b2z b)), s)
  | Null => (Ret (V_int 0), s)
  | Undefined => (Ret (V_float64 JS_FLOAT64_NAN), s)
  | Str x =>
      let s := JS_FreeValue val s in
      match string_number x with Ret n => (Ret n, own (Num n) s) | Throw e => (Throw e, s) end
  | Sym _ => (Throw TypeError, JS_FreeValue val s)
  | Obj _ => (Throw Fault, JS_FreeValue val s)
  end.

Definition JS_ToNumericFree (val : value) (s : ledger) : step jsnum :=
  match JS_ToPrimitiveFree val s with
  | (Throw e, s) => (Throw e, s)
  | (Ret val, s) => primitive_to_numeric val s
  end.

Definition JS_ToStringFree (val : value) (s : ledger) : step value :=
  let '(r, w) := string_of val (world s) in
  let s := JS_FreeValue val (in_world w s) in
  match r with Ret x => (Ret (Str x), own (Str x) s) | Throw e => (Throw e, s) end.

(** [JS_StringToBigInt]: a value that is no BigInt when the string is
    malformed or the conversion failed. *)
Definition JS_StringToBigInt (x : JSString) (s : ledger) : value * ledger :=
  let s := JS_FreeValue (Str x) s in
  match string_bigint x with Ret n => (Num n, own (Num n) s) | Throw _ => (Undefined, s) end.

(** Two conversions; the other operand is released when one of them fails. *)
Definition convert_both {A : Type} (conv : value -> ledger -> step A) (inj : A -> value)
    (op1 op2 : value) (s : ledger) : step (A * A) :=
  match conv op1 s with
  | (Throw e, s) => (Throw e, JS_FreeValue op2 s)
  | (Ret a1, s) =>
      match conv op2 s with
      | (Throw e, s) => (Throw e, JS_FreeValue (inj a1) s)
      | (Ret a2, s) => (Ret (a1, a2), s)
      end
  end.

Definition numeric_both := convert_both JS_ToNumericFree Num.
Definition primitive_both := convert_both JS_ToPrimitiveFree id.

(** ** Handlers

    A handler gives its outcome, what the slots of its operands hold then,
    and the ledger; on an exception they hold [undefined]. *)
Definition handled : Type := outcome value * list value * ledger.

Definition exception1 (e : js_error) (s : ledger) : handled := (Throw e, [Undefined], s).
Definition exception (e : js_error) (s : ledger) : handled := (Throw e, [Undefined; Undefined], s).
Definition result (v : value) (s : ledger) : handled := (Ret v, [v], s).

(** The outcome of a handler of [Numeric]. *)
Definition numeric (exn : js_error -> ledger -> handled) (h : handler jsnum) (s : ledger) : handled :=
  let '(r, released) := h in
  let s := foldr JS_FreeValue s (Num <$> released) in
  match r with Ret n => result (Num n) (own (Num n) s) | Throw e => exn e s end.

Definition js_unary_arith_slow (op : unary_op) (op1 : value) (s : ledger) : handled :=
  match JS_ToNumericFree op1 s with
  | (Throw e, s) => exception1 e s
  | (Ret n1, s) => numeric exception1 (Numeric.js_unary_arith_slow mem fadd op n1) s
  end.

(** The old value stays below the new one. *)
Definition js_post_inc_slow (op : unary_op) (op1 : value) (s : ledger) : handled :=
  match JS_ToNumericFree op1 s with
  | (Throw e, s) => exception1 e s
  | (Ret n1, s) =>
      let '(r, stack, s) := js_unary_arith_slow op (Num n1) (own (Num n1) s) in (r, Num n1 :: stack, s)
  end.

Definition js_not_slow (op1 : value) (s : ledger) : handled :=
  match JS_ToNumericFree op1 s with
  | (Throw e, s) => exception1 e s
  | (Ret n1, s) => numeric exception1 (Numeric.js_not_slow mem n1) s
  end.

Definition js_binary_arith_slow (op : arith_op) (op1 op2 : value) (s : ledger) : handled :=
  match numeric_both op1 op2 s with
  | (Throw e, s) => exception e s
  | (Ret (n1, n2), s) => numeric exception (Numeric.js_binary_arith_slow mem fsub fmul fdiv fmod fpow op n1 n2) s
  end.

Definition js_binary_logic_slow (op : bin_logic_op) (op1 op2 : value) (s : ledger) : handled :=
  match numeric_both op1 op2 s with
  | (Throw e, s) => exception e s
  | (Ret (n1, n2), s) => numeric exception (Numeric.js_binary_logic_slow mem op n1 n2) s
  end.

Definition is_str (v : value) : bool := match v with Str _ => true | _ => false end.

(** [JS_ConcatString]: it takes both operands over. *)
Definition JS_ConcatString (op1 op2 : value) (s : ledger) : handled :=
  let conv v s := if is_str v then (Ret v, s) else JS_ToStringFree v s in
  match convert_both conv id op1 op2 s with
  | (Throw e, s) => exception e s
  | (Ret (op1, op2), s) =>
      let s := JS_FreeValue op2 (JS_FreeValue op1 s) in
      match op1, op2 with
      | Str x1, Str x2 =>
          match string_concat x1 x2 with
          | Ret x => result (Str x) (own (Str x) s)
          | Throw e => exception e s
          end
      | _, _ => exception Fault s
      end
  end.

Definition js_add_slow (op1 op2 : value) (s : ledger) : handled :=
  match (if is_object op1 || is_object op2 then primitive_both op1 op2 s else (Ret (op1, op2), s)) with
  | (Throw e, s) => exception e s
  | (Ret (op1, op2), s) =>
      if is_str op1 || is_str op2 then JS_ConcatString op1 op2 s
      else
        match numeric_both op1 op2 s with
        | (Throw e, s) => exception e s
        | (Ret (n1, n2), s) => numeric exception (Numeric.js_add_slow mem fadd n1 n2) s
        end
  end.

Definition is_bigint (v : value) : bool :=
  match v with Num (V_short_big_int _) | Num (V_big_int _) => true | _ => false end.

Definition js_shr_slow (op1 op2 : value) (s : ledger) : handled :=
  match numeric_both op1 op2 s with
  | (Throw e, s) => exception e s
  | (Ret (n1, n2), s) =>
      if is_bigint (Num n1) || is_bigint (Num n2) then
        exception TypeError (JS_FreeValue (Num n2) (JS_FreeValue (Num n1) s))
      else
        match JS_ToInt32Free n1, JS_ToInt32Free n2 with
        | (Ret v1, _), (Ret v2, _) => result (Num (JS_NewInt64 (Z.shiftr (u32 v1) (Z.land (u32 v2) 0x1f)))) s
        | _, _ => exception Fault s
        end
  end.

(** ** Comparisons *)

(** A BigInt against a string: the string becomes a BigInt, or the
    comparison is false.  [None]: it is. *)
Definition bigint_strings (op1 op2 : value) (s : ledger) : option (value * value) * ledger :=
  let '(op1, s, bad) :=
    match op1 with Str x => let '(v, s) := JS_StringToBigInt x s in (v, s, negb (is_bigint v)) | _ => (op1, s, false) end in
  if bad : bool then (None, JS_FreeValue op2 (JS_FreeValue op1 s)) else
  let '(op2, s, bad) :=
    match op2 with Str x => let '(v, s) := JS_StringToBigInt x s in (v, s, negb (is_bigint v)) | _ => (op2, s, false) end in
  if bad : bool then (None, JS_FreeValue op2 (JS_FreeValue op1 s)) else (Some (op1, op2), s).

(** [JS_VALUE_GET_FLOAT64] or [JS_VALUE_GET_INT]. *)
Definition as_double (v : value) : Z :=
  match v with
  | Num (V_float64 d) => d
  | Num (V_int i) => int64_to_double i
  | Bool b => int64_to_double (Z.b2z b)
  | _ => int64_to_double 0
  end.

Definition plain_number (v : value) : bool :=
  match v with Num (V_int _) | Num (V_float64 _) | Bool _ | Null => true | _ => false end.

Definition double_rel (op : rel_op) (d1 d2 : Z) : bool :=
  match op with
  | OP_lt => flt d1 d2 | OP_lte => fle d1 d2 | OP_gt => flt d2 d1 | OP_gte | OP_eq => fle d2 d1
  end.

(** A BigInt comparison releases the operands it was given. *)
Definition compare_bigint (op : rel_op) (neg : bool) (op1 op2 : value) (s : ledger) : handled :=
  match op1, op2 with
  | Num n1, Num n2 =>
      let '(r, released) := js_compare_bigint op n1 n2 in
      let s := foldr JS_FreeValue s (Num <$> released) in
      match r with Ret b => result (Bool (xorb b neg)) s | Throw e => (Throw e, [op1; op2], s) end
  | _, _ => (Throw Fault, [op1; op2], s)
  end.

Definition js_relational_slow (op : rel_op) (op1 op2 : value) (s : ledger) : handled :=
  match primitive_both op1 op2 s with
  | (Throw e, s) => exception e s
  | (Ret (op1, op2), s) =>
      match op1, op2 with
      | Str x1, Str x2 =>
          result (Bool (rel_result op (string_compare x1 x2))) (JS_FreeValue op2 (JS_FreeValue op1 s))
      | _, _ =>
          if plain_number op1 && plain_number op2 then
            result (Bool (double_rel op (as_double op1) (as_double op2))) s
          else if (is_bigint op1 && is_str op2) || (is_bigint op2 && is_str op1) then
            match bigint_strings op1 op2 s with
            | (None, s) => result (Bool false) s
            | (Some (op1, op2), s) => compare_bigint op false op1 op2 s
            end
          else
            match numeric_both op1 op2 s with
            | (Throw e, s) => exception e s
            | (Ret (n1, n2), s) =>
                if is_bigint (Num n1) || is_bigint (Num n2) then compare_bigint op false (Num n1) (Num n2) s
                else result (Bool (double_rel op (as_double (Num n1)) (as_double (Num n2)))) s
            end
      end
  end.

Definition is_num (v : value) : bool := match v with Num _ => true | _ => false end.

(** [tag1 == tag2] for values that are not both numbers; strings and ropes
    are compared in the same way. *)
Definition same_tag (v1 v2 : value) : bool :=
  match v1, v2 with
  | Bool _, Bool _ | Null, Null | Undefined, Undefined | Str _, Str _ | Obj _, Obj _ | Sym _, Sym _ => true
  | _, _ => false
  end.

Definition free_both (op1 op2 : value) (s : ledger) : ledger := JS_FreeValue op2 (JS_FreeValue op1 s).

(** An object against a number, a string or a symbol. *)
Definition object_against (v1 v2 : value) : bool :=
  is_object v1 && (is_num v2 || is_str v2 || match v2 with Sym _ => true | _ => false end).

(** One round; [again] is [goto redo]. *)
Definition eq_round (again : value -> value -> ledger -> handled) (is_neq : bool) (op1 op2 : value) (s : ledger) : handled :=
  if is_num op1 && is_num op2 then
    match op1, op2 with
    | Num (V_int v1), Num (V_int v2) => result (Bool (xorb (v1 =? v2) is_neq)) s
    | _, _ =>
        if plain_number op1 && plain_number op2 then
          result (Bool (xorb (feq (as_double op1) (as_double op2)) is_neq)) s
        else compare_bigint OP_eq is_neq op1 op2 s
    end
  else if same_tag op1 op2 then
    result (Bool (xorb (js_strict_eq2 op1 op2) is_neq)) (free_both op1 op2 s)
  else if is_nullish op1 && is_nullish op2 then result (Bool (xorb true is_neq)) s
  else if (is_str op1 && is_num op2) || (is_str op2 && is_num op1) then
    if is_bigint op1 || is_bigint op2 then
      match bigint_strings op1 op2 s with
      | (None, s) => result (Bool (xorb false is_neq)) s
      | (Some (op1, op2), s) => result (Bool (xorb (js_strict_eq2 op1 op2) is_neq)) (free_both op1 op2 s)
      end
    else
      match numeric_both op1 op2 s with
      | (Throw e, s) => exception e s
      | (Ret (n1, n2), s) =>
          result (Bool (xorb (js_strict_eq2 (Num n1) (Num n2)) is_neq)) (free_both (Num n1) (Num n2) s)
      end
  else
    match op1, op2 with
    | Bool b, _ => again (Num (V_int (Z.b2z b))) op2 s
    | _, Bool b => again op1 (Num (V_int (Z.b2z b))) s
    | _, _ =>
        if object_against op1 op2 || object_against op2 op1 then
          match primitive_both op1 op2 s with
          | (Throw e, s) => exception e s
          | (Ret (op1, op2), s) => again op1 op2 s
          end
        else
          let res := (JS_IsHTMLDDA op1 && is_nullish op2) || (JS_IsHTMLDDA op2 && is_nullish op1) in
          result (Bool (xorb res is_neq)) (free_both op1 op2 s)
    end.

(** Each [redo] makes a boolean a number or an object a primitive. *)
Fixpoint eq_loop (fuel : nat) (is_neq : bool) (op1 op2 : value) (s : ledger) : handled :=
  match fuel with
  | O => (Throw Fault, [op1; op2], s)
  | S fuel => eq_round (eq_loop fuel is_neq) is_neq op1 op2 s
  end.

(** An object can become a boolean, and a boolean a number: two rounds for
    each operand, and the last one. *)
Definition js_eq_slow (is_neq : bool) (op1 op2 : value) (s : ledger) : handled := eq_loop 5 is_neq op1 op2 s.

(** ** The ledger *)

Definition refs (l : list value) : list value := filter (fun v => counted v = true) l.

(** Every reference got is released or still held, in [l], exactly once. *)
Definition balanced (l : list value) (s : ledger) : Prop := refs (got s) ≡ₚ refs (freed s ++ l).

Lemma value_refs_cons v l : refs (v :: l) = (if counted v then [v] else []) ++ refs l.
Proof.
  unfold refs. destruct (counted v) eqn:E; [by rewrite filter_cons_True|rewrite filter_cons_False; [done|congruence]].
Qed.

Lemma value_refs_app l l' : refs (l ++ l') = refs l ++ refs l'.
Proof. apply filter_app. Qed.

Lemma balanced_refs l l' s : refs l ≡ₚ refs l' -> balanced l s -> balanced l' s.
Proof. intros E. unfold balanced. rewrite !value_refs_app, E. done. Qed.

Lemma balanced_swap v w l s : balanced (v :: w :: l) s -> balanced (w :: v :: l) s.
Proof. apply balanced_refs. rewrite !value_refs_cons. apply Permutation_app_swap_app. Qed.

Lemma balanced_plain v l s : counted v = false -> balanced (v :: l) s <-> balanced l s.
Proof. intros E. split; apply balanced_refs; rewrite value_refs_cons, E; done. Qed.

Lemma balanced_own v l s : balanced l s -> balanced (v :: l) (own v s).
Proof.
  unfold balanced, own. cbn [got freed]. rewrite !value_refs_app, !value_refs_cons. intros ->.
  apply Permutation_app_swap_app.
Qed.

Lemma balanced_free v l s : balanced (v :: l) s -> balanced l (JS_FreeValue v s).
Proof.
  unfold balanced, JS_FreeValue. cbn [got freed]. rewrite !value_refs_app, !value_refs_cons. intros ->.
  rewrite <- app_assoc. apply Permutation_app_swap_app.
Qed.

Lemma balanced_world w l s : balanced l s -> balanced l (in_world w s).
Proof. done. Qed.

(** A step whose result is held on success. *)
Definition gives {A : Type} (inj : A -> value) (l : list value) (p : step A) : Prop :=
  match p with (Ret a, s) => balanced (inj a :: l) s | (Throw _, s) => balanced l s end.

(** A conversion takes its operand over. *)
Definition takes_over {A : Type} (inj : A -> value) (conv : value -> ledger -> step A) : Prop :=
  forall v l s, balanced (v :: l) s -> gives inj l (conv v s).

Lemma get_property_gives o name l s : balanced l s -> gives id l (JS_GetProperty o name s).
Proof.
  intros H. unfold JS_GetProperty. destruct (get_property _ _ _) as [[v|e] w]; [by apply balanced_own|done].
Qed.

Lemma call_gives m o l s : balanced (m :: l) s -> gives id l (JS_CallFree m o s).
Proof.
  intros H. unfold JS_CallFree. destruct (call _ _ _) as [[v|e] w]; [apply balanced_own|]; by apply balanced_free.
Qed.

Lemma ordinary_gives names o : forall l s, balanced (Obj o :: l) s -> gives id l (ordinary_to_primitive names o s).
Proof.
  induction names as [|name names IH]; intros l s H; cbn [ordinary_to_primitive]; [by apply balanced_free|].
  pose proof (get_property_gives o name _ s H) as Hg. destruct (JS_GetProperty o name s) as [[m|e] s1]; [|by apply balanced_free].
  destruct (is_function m); [|apply IH; by apply balanced_free].
  pose proof (call_gives m o _ s1 Hg) as Hc. destruct (JS_CallFree m o s1) as [[ret|e] s2]; [|by apply balanced_free].
  destruct (negb (is_object ret)); [apply balanced_free; by apply balanced_swap|apply IH; by apply balanced_free].
Qed.

Lemma primitive_gives : takes_over id JS_ToPrimitiveFree.
Proof.
  intros v l s H. destruct v as [| | | | |o|]; try done. cbn [JS_ToPrimitiveFree].
  pose proof (get_property_gives o Symbol_toPrimitive _ s H) as Hg.
  destruct (JS_GetProperty o _ s) as [[m|e] s1]; [|by apply balanced_free].
  destruct (is_nullish m) eqn:Em; cbn [negb].
  { apply ordinary_gives. apply (balanced_plain m); [by destruct m|done]. }
  assert (Ha : balanced (m :: Str hint_name :: Obj o :: l) (own (Str hint_name) s1))
    by (apply balanced_swap; by apply balanced_own).
  pose proof (call_gives m o _ _ Ha) as Hc. destruct (JS_CallFree m o _) as [[ret|e] s2]; cbn [gives] in Hc.
  - apply balanced_swap, balanced_free, balanced_swap, balanced_free in Hc.
    destruct (negb (is_object ret)); [done|by apply balanced_free].
  - by apply balanced_free, balanced_free.
Qed.

Lemma numeric_gives : takes_over Num JS_ToNumericFree.
Proof.
  intros v l s H. unfold JS_ToNumericFree. pose proof (primitive_gives v l s H) as Hp.
  destruct (JS_ToPrimitiveFree v s) as [[p|e] s1]; [|done]. cbn [gives id] in Hp.
  destruct p as [n|b| | |x|o|y]; cbn [primitive_to_numeric].
  - done.
  - apply balanced_plain; [done|]. by rewrite balanced_plain in Hp.
  - apply balanced_plain; [done|]. by rewrite balanced_plain in Hp.
  - apply balanced_plain; [done|]. by rewrite balanced_plain in Hp.
  - apply balanced_free in Hp. destruct (string_number x); [by apply balanced_own|done].
  - by apply balanced_free.
  - by apply balanced_free.
Qed.

Lemma string_gives : takes_over id (fun v s => if is_str v then (Ret v, s) else JS_ToStringFree v s).
Proof.
  intros v l s H. destruct (is_str v); [done|]. unfold JS_ToStringFree.
  destruct (string_of _ _) as [[x|e] w]; [apply balanced_own|]; by apply balanced_free.
Qed.

Lemma convert_both_gives {A : Type} (inj : A -> value) conv op1 op2 l s :
  takes_over inj conv -> balanced (op1 :: op2 :: l) s ->
  match convert_both conv inj op1 op2 s with
  | (Ret (a1, a2), s) => balanced (inj a1 :: inj a2 :: l) s
  | (Throw _, s) => balanced l s
  end.
Proof.
  intros Hc H. unfold convert_both. pose proof (Hc op1 _ s H) as H1.
  destruct (conv op1 s) as [[a1|e] s1]; [|by apply balanced_free]. cbn [gives] in H1. apply balanced_swap in H1.
  pose proof (Hc op2 _ s1 H1) as H2. destruct (conv op2 s1) as [[a2|e] s2]; [by apply balanced_swap|by apply balanced_free].
Qed.

(** ** The handlers *)

Definition handled_ok (l : list value) (p : handled) : Prop :=
  let '(_, stack, s) := p in balanced (stack ++ l) s.

Lemma exception_ok e l s : balanced l s -> handled_ok l (exception e s).
Proof. intros H. cbn. by rewrite !balanced_plain. Qed.

Lemma exception1_ok e l s : balanced l s -> handled_ok l (exception1 e s).
Proof. intros H. cbn. by rewrite !balanced_plain. Qed.

Lemma bool_ok b l s : balanced l s -> handled_ok l (result (Bool b) s).
Proof. intros H. cbn. by rewrite balanced_plain. Qed.

Lemma free_both_ok op1 op2 l s : balanced (op1 :: op2 :: l) s -> balanced l (free_both op1 op2 s).
Proof. intros H. by apply balanced_free, balanced_free. Qed.

Lemma free_list vs : forall l s, balanced (vs ++ l) s -> balanced l (foldr JS_FreeValue s vs).
Proof.
  induction vs as [|v vs IH]; intros l s H; [done|]. cbn [foldr]. apply balanced_free, IH.
  revert H. apply balanced_refs. change ((v :: vs) ++ l) with ([v] ++ vs ++ l).
  change (vs ++ v :: l) with (vs ++ [v] ++ l). rewrite !value_refs_app. apply Permutation_app_swap_app.
Qed.

Lemma refs_numbers ns : refs (Num <$> ns) = Num <$> heap_values ns.
Proof.
  induction ns as [|n ns IH]; [done|]. rewrite fmap_cons, value_refs_cons, IH. unfold heap_values. cbn [counted].
  destruct (is_heap n) eqn:E; [by rewrite filter_cons_True|rewrite filter_cons_False; [done|congruence]].
Qed.

(** A numeric handler that releases its operands once. *)
Lemma released_ok ns released l s :
  heap_values released = heap_values ns -> balanced ((Num <$> ns) ++ l) s ->
  balanced l (foldr JS_FreeValue s (Num <$> released)).
Proof.
  intros E H. apply free_list. revert H. apply balanced_refs. by rewrite !value_refs_app, !refs_numbers, E.
Qed.

Lemma numeric_ok exn h ns l s :
  (forall e l s, balanced l s -> handled_ok l (exn e s)) ->
  heap_values (snd h) = heap_values ns -> balanced ((Num <$> ns) ++ l) s -> handled_ok l (numeric exn h s).
Proof.
  intros He E H. destruct h as [r released]. cbn [snd] in E. pose proof (released_ok ns released l s E H) as Hr.
  unfold numeric. destruct r as [n|e]; [|by apply He]. cbn. by apply balanced_own.
Qed.

(** Which values the numeric handlers release. *)
Lemma shr_operands n1 n2 : is_bigint (Num n1) || is_bigint (Num n2) = false ->
  exists v1 v2 f1 f2, JS_ToInt32Free n1 = (Ret v1, f1) /\ JS_ToInt32Free n2 = (Ret v2, f2) /\ heap_values [n1; n2] = [].
Proof. destruct n1, n2; cbn; intros; try done; by eexists _, _, _, _. Qed.

Lemma unary_ok op op1 l s : balanced (op1 :: l) s -> handled_ok l (js_unary_arith_slow op op1 s).
Proof.
  intros H. unfold js_unary_arith_slow. pose proof (numeric_gives op1 l s H) as Hn.
  destruct (JS_ToNumericFree op1 s) as [[n1|e] s1]; [|by apply exception1_ok].
  apply (numeric_ok _ _ [n1]); [apply exception1_ok|apply unary_released|done].
Qed.

Lemma post_inc_ok op op1 l s : balanced (op1 :: l) s -> handled_ok l (js_post_inc_slow op op1 s).
Proof.
  intros H. unfold js_post_inc_slow. pose proof (numeric_gives op1 l s H) as Hn.
  destruct (JS_ToNumericFree op1 s) as [[n1|e] s1]; [|by apply exception1_ok].
  pose proof (unary_ok op (Num n1) (Num n1 :: l) _ (balanced_own (Num n1) _ _ Hn)) as Hu.
  destruct (js_unary_arith_slow op (Num n1) _) as [[r stack] s2]. cbn in Hu |- *. revert Hu. apply balanced_refs.
  change (Num n1 :: l) with ([Num n1] ++ l). change (Num n1 :: stack ++ l) with ([Num n1] ++ stack ++ l).
  rewrite !value_refs_app. apply Permutation_app_swap_app.
Qed.

Lemma not_ok op1 l s : balanced (op1 :: l) s -> handled_ok l (js_not_slow op1 s).
Proof.
  intros H. unfold js_not_slow. pose proof (numeric_gives op1 l s H) as Hn.
  destruct (JS_ToNumericFree op1 s) as [[n1|e] s1]; [|by apply exception1_ok].
  apply (numeric_ok _ _ [n1]); [apply exception1_ok|apply not_released|done].
Qed.

(** The binary operators on two numbers. *)
Lemma numeric_both_ok h op1 op2 l s :
  (forall n1 n2, heap_values (snd (h n1 n2)) = heap_values [n1; n2]) -> balanced (op1 :: op2 :: l) s ->
  handled_ok l match numeric_both op1 op2 s with
               | (Throw e, s) => exception e s
               | (Ret (n1, n2), s) => numeric exception (h n1 n2) s
               end.
Proof.
  intros Hh H. pose proof (convert_both_gives Num JS_ToNumericFree op1 op2 l s numeric_gives H) as Hc.
  unfold numeric_both. destruct (convert_both _ _ _ _ _) as [[[n1 n2]|e] s1]; [|by apply exception_ok].
  apply (numeric_ok _ _ [n1; n2]); [apply exception_ok|apply Hh|done].
Qed.

Lemma concat_ok op1 op2 l s : balanced (op1 :: op2 :: l) s -> handled_ok l (JS_ConcatString op1 op2 s).
Proof.
  intros H. unfold JS_ConcatString. pose proof (convert_both_gives id _ op1 op2 l s string_gives H) as Hc.
  destruct (convert_both _ _ _ _ _) as [[[v1 v2]|e] s1]; [|by apply exception_ok].
  apply balanced_free, balanced_free in Hc. destruct v1, v2; try by apply exception_ok.
  destruct (string_concat _ _); [by apply balanced_own|by apply exception_ok].
Qed.

Lemma add_ok op1 op2 l s : balanced (op1 :: op2 :: l) s -> handled_ok l (js_add_slow op1 op2 s).
Proof.
  intros H. unfold js_add_slow.
  assert (Hp : match (if is_object op1 || is_object op2 then primitive_both op1 op2 s else (Ret (op1, op2), s)) with
    | (Ret (v1, v2), s) => balanced (v1 :: v2 :: l) s | (Throw _, s) => balanced l s end).
  { destruct (_ || _); [|done]. exact (convert_both_gives id _ op1 op2 l s primitive_gives H). }
  destruct (if _ : bool then _ else _) as [[[v1 v2]|e] s1]; [|by apply exception_ok].
  destruct (_ || _); [by apply concat_ok|]. apply numeric_both_ok; [apply add_released|done].
Qed.

Lemma shr_ok op1 op2 l s : balanced (op1 :: op2 :: l) s -> handled_ok l (js_shr_slow op1 op2 s).
Proof.
  intros H. pose proof (convert_both_gives Num JS_ToNumericFree op1 op2 l s numeric_gives H) as Hc.
  unfold js_shr_slow, numeric_both. destruct (convert_both _ _ _ _ _) as [[[n1 n2]|e] s1]; [|by apply exception_ok].
  destruct (is_bigint (Num n1) || is_bigint (Num n2)) eqn:E; [by apply exception_ok, balanced_free, balanced_free|].
  destruct (shr_operands n1 n2 E) as (v1 & v2 & f1 & f2 & -> & -> & Hh). cbn [handled_ok result app].
  apply balanced_plain; [unfold JS_NewInt64; by case_match|]. revert Hc. apply balanced_refs.
  change (Num n1 :: Num n2 :: l) with ((Num <$> [n1; n2]) ++ l). by rewrite value_refs_app, refs_numbers, Hh.
Qed.

(** ** Comparisons *)

Lemma bigint_strings_ok op1 op2 l s : balanced (op1 :: op2 :: l) s ->
  match bigint_strings op1 op2 s with
  | (None, s) => balanced l s
  | (Some (v1, v2), s) => balanced (v1 :: v2 :: l) s
  end.
Proof.
  assert (Hs : forall x l s, balanced (Str x :: l) s -> let '(v, s) := JS_StringToBigInt x s in balanced (v :: l) s).
  { intros x l0 s0 H. unfold JS_StringToBigInt. apply balanced_free in H.
    destruct (string_bigint x); [by apply balanced_own|by apply balanced_plain]. }
  assert (Hconv : forall v l s, balanced (v :: l) s ->
    let '(v', s', _) := match v with Str x => let '(v, s) := JS_StringToBigInt x s in (v, s, negb (is_bigint v)) | _ => (v, s, false) end in
    balanced (v' :: l) s').
  { intros v l0 s0 H. destruct v; try done. specialize (Hs _ _ _ H). by destruct (JS_StringToBigInt _ _). }
  intros H. unfold bigint_strings. pose proof (Hconv op1 _ _ H) as H1.
  destruct (match op1 with Str _ => _ | _ => _ end) as [[v1 s1] bad1]. destruct bad1; [by apply balanced_free, balanced_free|].
  apply balanced_swap in H1. pose proof (Hconv op2 _ _ H1) as H2.
  destruct (match op2 with Str _ => _ | _ => _ end) as [[v2 s2] bad2]. apply balanced_swap in H2.
  destruct bad2; [by apply balanced_free, balanced_free|done].
Qed.

Lemma compare_bigint_ok op neg op1 op2 l s : balanced (op1 :: op2 :: l) s -> handled_ok l (compare_bigint op neg op1 op2 s).
Proof.
  intros H. unfold compare_bigint. destruct op1 as [n1| | | | | |]; try done. destruct op2 as [n2| | | | | |]; try done.
  pose proof (compare_released op n1 n2) as Hr. destruct (js_compare_bigint op n1 n2) as [[b|e] released].
  - apply bool_ok. by apply (released_ok [n1; n2]).
  - destruct Hr as [-> _]. done.
Qed.

Lemma plain_dropped op1 op2 l s : plain_number op1 && plain_number op2 = true -> balanced (op1 :: op2 :: l) s -> balanced l s.
Proof.
  intros E. apply balanced_refs. rewrite !value_refs_cons. destruct op1 as [[]| | | | | |]; destruct op2 as [[]| | | | | |]; simpl in E |- *; done.
Qed.

Lemma relational_ok op op1 op2 l s : balanced (op1 :: op2 :: l) s -> handled_ok l (js_relational_slow op op1 op2 s).
Proof.
  intros H. pose proof (convert_both_gives id _ op1 op2 l s primitive_gives H) as Hp.
  unfold js_relational_slow, primitive_both. destruct (convert_both _ _ _ _ _) as [[[v1 v2]|e] s1]; [|by apply exception_ok].
  cbn [id] in Hp. clear H op1 op2.
  assert (Hrest : handled_ok l (
    if plain_number v1 && plain_number v2 then result (Bool (double_rel op (as_double v1) (as_double v2))) s1
    else if (is_bigint v1 && is_str v2) || (is_bigint v2 && is_str v1) then
      match bigint_strings v1 v2 s1 with
      | (None, s) => result (Bool false) s
      | (Some (op1, op2), s) => compare_bigint op false op1 op2 s
      end
    else
      match numeric_both v1 v2 s1 with
      | (Throw e, s) => exception e s
      | (Ret (n1, n2), s) =>
          if is_bigint (Num n1) || is_bigint (Num n2) then compare_bigint op false (Num n1) (Num n2) s
          else result (Bool (double_rel op (as_double (Num n1)) (as_double (Num n2)))) s
      end)).
  { destruct (plain_number v1 && plain_number v2) eqn:E; [by apply bool_ok, (plain_dropped v1 v2)|].
    destruct (_ || _).
    - pose proof (bigint_strings_ok v1 v2 l s1 Hp) as Hb. destruct (bigint_strings _ _ _) as [[[w1 w2]|] s2];
        [by apply compare_bigint_ok|by apply bool_ok].
    - pose proof (convert_both_gives Num _ v1 v2 l s1 numeric_gives Hp) as Hn. unfold numeric_both.
      destruct (convert_both _ _ _ _ _) as [[[n1 n2]|e] s2]; [|by apply exception_ok].
      destruct (_ || _) eqn:Eb; [by apply compare_bigint_ok|].
      apply bool_ok, (plain_dropped (Num n1) (Num n2)); [by destruct n1, n2|done]. }
  destruct v1; try exact Hrest; destruct v2; try exact Hrest. by apply bool_ok, balanced_free, balanced_free.
Qed.

Lemma eq_round_ok again is_neq op1 op2 l s :
  (forall op1 op2 s, balanced (op1 :: op2 :: l) s -> handled_ok l (again op1 op2 s)) ->
  balanced (op1 :: op2 :: l) s -> handled_ok l (eq_round again is_neq op1 op2 s).
Proof.
  intros IH H. unfold eq_round.
  destruct (is_num op1 && is_num op2) eqn:En.
  { assert (Hc : handled_ok l (if plain_number op1 && plain_number op2 then result (Bool (xorb (feq (as_double op1) (as_double op2)) is_neq)) s
      else compare_bigint OP_eq is_neq op1 op2 s)).
    { destruct (plain_number op1 && plain_number op2) eqn:E; [by apply bool_ok, (plain_dropped op1 op2)|by apply compare_bigint_ok]. }
    destruct op1 as [[]| | | | | |]; try exact Hc; destruct op2 as [[]| | | | | |]; try exact Hc. by apply bool_ok, (plain_dropped (Num (V_int v)) (Num (V_int v0))). }
  destruct (same_tag op1 op2); [by apply bool_ok, free_both_ok|].
  destruct (is_nullish op1 && is_nullish op2) eqn:Eu.
  { apply bool_ok. revert H. apply balanced_refs. rewrite !value_refs_cons. destruct op1; try done; destruct op2; done. }
  destruct (_ || _).
  { destruct (is_bigint op1 || is_bigint op2).
    - pose proof (bigint_strings_ok op1 op2 l s H) as Hb. destruct (bigint_strings _ _ _) as [[[w1 w2]|] s2];
        [by apply bool_ok, free_both_ok|by apply bool_ok].
    - pose proof (convert_both_gives Num _ op1 op2 l s numeric_gives H) as Hn. unfold numeric_both.
      destruct (convert_both _ _ _ _ _) as [[[n1 n2]|e] s2]; [by apply bool_ok, free_both_ok|by apply exception_ok]. }
  assert (Hbool1 : forall b, balanced (Bool b :: op2 :: l) s -> handled_ok l (again (Num (V_int (Z.b2z b))) op2 s)).
  { intros b Hb. apply IH. apply balanced_plain; [done|]. by rewrite balanced_plain in Hb. }
  assert (Hbool2 : forall b, balanced (op1 :: Bool b :: l) s -> handled_ok l (again op1 (Num (V_int (Z.b2z b))) s)).
  { intros b Hb. apply IH. apply balanced_swap in Hb. rewrite balanced_plain in Hb by done. by apply balanced_swap, balanced_plain. }
  assert (Hrest : handled_ok l (if object_against op1 op2 || object_against op2 op1 then
      match primitive_both op1 op2 s with
      | (Throw e, s) => exception e s
      | (Ret (op1, op2), s) => again op1 op2 s
      end
    else let res := (JS_IsHTMLDDA op1 && is_nullish op2) || (JS_IsHTMLDDA op2 && is_nullish op1) in
         result (Bool (xorb res is_neq)) (free_both op1 op2 s))).
  { destruct (_ || _); [|by apply bool_ok, free_both_ok].
    pose proof (convert_both_gives id _ op1 op2 l s primitive_gives H) as Hp. unfold primitive_both.
    destruct (convert_both _ _ _ _ _) as [[[v1 v2]|e] s1]; [by apply IH|by apply exception_ok]. }
  destruct op1; try (by apply Hbool1); destruct op2; try (by apply Hbool2); exact Hrest.
Qed.

Lemma eq_loop_ok fuel : forall is_neq op1 op2 l s, balanced (op1 :: op2 :: l) s -> handled_ok l (eq_loop fuel is_neq op1 op2 s).
Proof. induction fuel as [|fuel IH]; intros is_neq op1 op2 l s H; [done|]. apply eq_round_ok; [|done]. intros. by apply IH. Qed.

(** *** The rounds of [redo] *)

(** The rounds an operand can still need. *)
Definition rounds (v : value) : nat := match v with Obj _ => 2 | Bool _ => 1 | _ => 0 end.

Lemma ordinary_not_object names o : forall s v s', ordinary_to_primitive names o s = (Ret v, s') -> is_object v = false.
Proof.
  induction names as [|name names IH]; intros s v s' E; cbn [ordinary_to_primitive] in E; [done|].
  destruct (JS_GetProperty _ _ _) as [[m|] s1]; [|done]. destruct (is_function m); [|by eapply IH].
  destruct (JS_CallFree _ _ _) as [[ret|] s2]; [|done]. destruct (is_object ret) eqn:Eo; cbn [negb] in E; [by eapply IH|by simplify_eq].
Qed.

Lemma primitive_not_object val s v s' : JS_ToPrimitiveFree val s = (Ret v, s') -> is_object v = false /\ (is_object val = false -> v = val).
Proof.
  destruct val; cbn [JS_ToPrimitiveFree]; try (intros [= <- <-]; done).
  destruct (JS_GetProperty _ _ _) as [[m|] s1]; [|done]. destruct (negb (is_nullish m)).
  - destruct (JS_CallFree _ _ _) as [[ret|] s2]; [|done]. destruct (is_object ret) eqn:Eo; [done|]. by intros [= <- <-].
  - intros E. split; [by eapply ordinary_not_object|done].
Qed.

Lemma primitive_rounds op1 op2 s v1 v2 s' : primitive_both op1 op2 s = (Ret (v1, v2), s') ->
  is_object op1 || is_object op2 = true -> (rounds v1 + rounds v2 < rounds op1 + rounds op2)%nat.
Proof.
  unfold primitive_both, convert_both. destruct (JS_ToPrimitiveFree op1 s) as [[w1|] s1] eqn:E1; [|done].
  destruct (JS_ToPrimitiveFree op2 s1) as [[w2|] s2] eqn:E2; [|done]. intros [= <- <- <-].
  apply primitive_not_object in E1 as [N1 K1], E2 as [N2 K2].
  assert (H : forall v w, is_object w = false -> (is_object v = false -> w = v) ->
    (rounds w <= rounds v /\ (is_object v = true -> rounds w < rounds v))%nat).
  { intros v w Hw Hk. destruct v; try (rewrite Hk by done; simpl; split; [lia|done]). destruct w; simpl in *; try done; lia. }
  destruct (H op1 w1 N1 K1) as [L1 S1], (H op2 w2 N2 K2) as [L2 S2]. intros [Ho|Ho]%orb_true_iff; [specialize (S1 Ho)|specialize (S2 Ho)]; lia.
Qed.

(** A round goes on with operands that need fewer rounds. *)
Lemma eq_round_ext again again' is_neq op1 op2 s :
  (forall v1 v2 s, (rounds v1 + rounds v2 < rounds op1 + rounds op2)%nat -> again v1 v2 s = again' v1 v2 s) ->
  eq_round again is_neq op1 op2 s = eq_round again' is_neq op1 op2 s.
Proof.
  intros IH. unfold eq_round.
  destruct (is_num op1 && is_num op2); [done|]. destruct (same_tag op1 op2); [done|].
  destruct (is_nullish op1 && is_nullish op2); [done|]. destruct (is_str op1 && is_num op2 || is_str op2 && is_num op1); [done|].
  destruct (object_against op1 op2 || object_against op2 op1) eqn:Eo.
  - assert (Hp : (let '(r, s) := primitive_both op1 op2 s in match r with Throw e => exception e s | Ret (v1, v2) => again v1 v2 s end) =
      (let '(r, s) := primitive_both op1 op2 s in match r with Throw e => exception e s | Ret (v1, v2) => again' v1 v2 s end)).
    { destruct (primitive_both op1 op2 s) as [[[v1 v2]|e] s1] eqn:Ep; [|done]. apply IH. eapply primitive_rounds; [exact Ep|].
      unfold object_against in Eo. destruct (is_object op1), (is_object op2); done. }
    destruct op1; try (apply IH; simpl; lia); destruct op2; try (apply IH; simpl; lia); exact Hp.
  - destruct op1; try (apply IH; simpl; lia); destruct op2; try (apply IH; simpl; lia); done.
Qed.

(** The loop ends: more rounds than the operands need change nothing. *)
Lemma eq_loop_ends fuel : forall is_neq op1 op2 s, (rounds op1 + rounds op2 < fuel)%nat ->
  eq_loop (S fuel) is_neq op1 op2 s = eq_loop fuel is_neq op1 op2 s.
Proof.
  induction fuel as [|fuel IH]; intros is_neq op1 op2 s Hf; [lia|].
  change (eq_round (eq_loop (S fuel) is_neq) is_neq op1 op2 s = eq_round (eq_loop fuel is_neq) is_neq op1 op2 s).
  apply eq_round_ext. intros v1 v2 s1 Hr. apply IH. lia.
Qed.

Definition start (w : W) (operands : list value) : ledger := Ledger w operands [].

Lemma start_balanced w operands : balanced operands (start w operands).
Proof. unfold balanced. reflexivity. Qed.
End operators.


(** A BigInt compared with a string whose conversion throws (no memory): the
    comparison does not throw, it answers false. *)
Theorem bigint_string_exception_ignored {JSString JSObject JSSymbol W : Type}
    (get_property : JSObject -> method_name -> W -> outcome value * W) (is_function : value -> bool)
    (call : value -> JSObject -> W -> outcome value * W) (hint_name : JSString)
    (string_number string_bigint : JSString -> outcome jsnum) (string_compare : JSString -> JSString -> Z)
    (js_strict_eq2 : value -> value -> bool) (JS_IsHTMLDDA : value -> bool) (flt fle feq : Z -> Z -> bool)
    (rop : rel_op) (v : Z) (x : JSString) (e : js_error) (s : @ledger JSString JSObject JSSymbol W) :
  string_bigint x = Throw e ->
  fst (fst (js_relational_slow get_property is_function call hint_name string_number string_bigint string_compare flt fle
    rop (Num (V_short_big_int v)) (Str x) s)) = Ret (Bool false) /\
  fst (fst (js_eq_slow get_property is_function call hint_name string_number string_bigint js_strict_eq2 JS_IsHTMLDDA feq
    false (Num (V_short_big_int v)) (Str x) s)) = Ret (Bool false).
Proof.
  intros E. cbv [js_relational_slow js_eq_slow primitive_both convert_both JS_ToPrimitiveFree eq_loop eq_round
    bigint_strings JS_StringToBigInt is_str is_bigint is_num plain_number same_tag is_nullish orb andb negb id].
  rewrite E. split; reflexivity.
Qed.

(** [object + 1n] where [valueOf] gives a BigInt on the heap: the object, the
    method, the converted BigInt and the sum are accounted for. *)
Example add_object_ledger :
  let get (o : nat) name (w : nat) := (match name with valueOf => Ret (Obj 7%nat) | _ => Ret Undefined end, w) in
  let run m (o : nat) (w : nat) := (Ret (Num (V_big_int [5; 1])) : outcome (@value nat nat unit), (w + 1)%nat) in
  js_add_slow get is_object run (fun _ w => (Throw UserException, w)) 0%nat (fun _ => Throw UserException)
    (fun _ _ => Throw UserException) (fun _ => true) no_float (Obj 3%nat) (Num (V_short_big_int 1))
    (start 0%nat [Obj 3%nat; Num (V_short_big_int 1)]) =
  (Ret (Num (V_big_int [6; 1])), [Num (V_big_int [6; 1])],
   Ledger 1%nat
     [Num (V_big_int [6; 1]); Num (V_big_int [5; 1]); Obj 7%nat; Undefined; Obj 3%nat; Num (V_short_big_int 1)]
     [Num (V_big_int [5; 1]); Num (V_short_big_int 1); Obj 3%nat; Obj 7%nat]).
Proof. vm_compute. reflexivity. Qed.
