(* ===== verification/Chains.v ===== *)
(** * Hash tables of chains threaded through records

    Atoms, shapes and the properties of a shape are found through tables of
    buckets: a bucket holds the index of its first entry, each entry the
    index of the next one, and 0 ends a chain.  The predicate [table] says
    that the chains of such a table hold each hashed entry once, in its
    bucket; it is kept when an entry is linked or unlinked. *)
From S2P Require Import Prelude.

(** ** Chains threaded through an array

    [nx] gives the index that follows an entry; 0 ends a chain. *)

Fixpoint chain (nx : nat -> option nat) (h : nat) (l : list nat) : Prop :=
  match l with
  | [] => h = 0%nat
  | i :: l => h = i /\ i <> 0%nat /\ exists n, nx i = Some n /\ chain nx n l
  end.

Lemma chain_ext nx nx' l : forall h, (forall i, i ∈ l -> nx' i = nx i) -> chain nx h l -> chain nx' h l.
Proof.
  induction l as [|i l IH]; intros h Hext; [done|]. intros (-> & Hi & n & En & Hc). split_and!; [done|done|].
  exists n. rewrite Hext by (by left). split; [done|]. apply IH; [|done]. intros j Hj. apply Hext. by right.
Qed.

Lemma chain_nonzero nx l : forall h i, chain nx h l -> i ∈ l -> i <> 0%nat.
Proof.
  induction l as [|j l IH]; intros h i Hc Hi; [by apply elem_of_nil in Hi|].
  destruct Hc as (-> & Hj & n & _ & Hc). apply elem_of_cons in Hi as [->|Hi]; eauto.
Qed.

Lemma chain_zero nx l : chain nx 0 l -> l = [].
Proof. destruct l as [|i l]; [done|]. intros (? & ? & _). congruence. Qed.

Lemma chain_app nx l1 : forall h l2, chain nx h (l1 ++ l2) ->
  exists m, chain nx m l2 /\ forall nx' l2', (forall i, i ∈ l1 -> nx' i = nx i) -> chain nx' m l2' -> chain nx' h (l1 ++ l2').
Proof.
  induction l1 as [|i l1 IH]; intros h l2 Hc; [exists h; simpl in *; auto|].
  destruct Hc as (-> & Hi & n & En & Hc). destruct (IH n l2 Hc) as (m & Hm & Hrep). exists m. split; [done|].
  intros nx' l2' Hext Hl2. split_and!; [done|done|]. exists n. rewrite Hext by (by left). split; [done|].
  apply Hrep; [|done]. intros j Hj. apply Hext. by right.
Qed.

(** A hash table: bucket [j] is the chain of the entries [i] with
    [bk i = Some j]. *)
Definition table (nx bk : nat -> option nat) (hs : list nat) (cs : list (list nat)) : Prop :=
  Forall2 (chain nx) hs cs /\ (forall j c, cs !! j = Some c -> NoDup c) /\
  forall i j, bk i = Some j <-> exists c, cs !! j = Some c /\ i ∈ c.

Lemma table_bucket nx bk hs cs j h : table nx bk hs cs -> hs !! j = Some h ->
  exists c, cs !! j = Some c /\ chain nx h c /\ NoDup c.
Proof.
  intros (Hc & Hn & _) Hj. destruct (Forall2_lookup_l _ _ _ _ _ Hc Hj) as (c & Ec & Hch). eauto.
Qed.

Lemma table_lt nx bk hs cs i j : table nx bk hs cs -> bk i = Some j -> (j < length hs)%nat.
Proof.
  intros (Hc & _ & Hb) Hi. apply Hb in Hi as (c & Ec & _). apply Forall2_length in Hc. rewrite Hc.
  by eapply lookup_lt_Some.
Qed.

(** A new entry at the head of its bucket. *)
Lemma table_insert nx bk nx' bk' hs cs i j h : table nx bk hs cs -> hs !! j = Some h -> i <> 0%nat ->
  bk i = None -> bk' i = Some j -> (forall k, k <> i -> bk' k = bk k) ->
  nx' i = Some h -> (forall k, k <> i -> is_Some (bk k) -> nx' k = nx k) ->
  exists cs', table nx' bk' (<[j := i]> hs) cs'.
Proof.
  intros Ht Hj Hi Hbi Hbi' Hb Hni Hnx. destruct (table_bucket _ _ _ _ _ _ Ht Hj) as (c & Ec & Hch & Hnd).
  destruct Ht as (Hc & Hn & Hm). exists (<[j := i :: c]> cs).
  assert (Hin : forall k c', cs !! k = Some c' -> forall m, m ∈ c' -> m <> i /\ nx' m = nx m).
  { intros k c' Ek m Hmc. assert (Hbm : bk m = Some k) by (apply Hm; eauto).
    assert (m <> i) by congruence. split; [done|]. by apply Hnx; [|eexists]. }
  split_and!.
  - apply Forall2_insert.
    + apply Forall2_same_length_lookup. split; [by eapply Forall2_length|]. intros k h' c' Ek Ek'.
      eapply chain_ext; [|eapply Forall2_lookup_lr; eauto]. intros m Hmc. by eapply Hin.
    + split_and!; [done|done|]. exists h. split; [done|]. eapply chain_ext; [|done]. intros m Hmc. by eapply Hin.
  - intros k c' Ek. destruct (decide (k = j)) as [->|Hne].
    + rewrite list_lookup_insert_eq in Ek by (eapply lookup_lt_Some; eauto). simplify_eq. constructor; [|done].
      intros Hic. by destruct (Hin j c Ec i Hic).
    + rewrite list_lookup_insert_ne in Ek by done. eauto.
  - intros k j'. destruct (decide (k = i)) as [->|Hne].
    + rewrite Hbi'. split.
      * intros [= <-]. exists (i :: c). split; [|by left]. apply list_lookup_insert_eq. by eapply lookup_lt_Some.
      * intros (c' & Ec' & Hic). destruct (decide (j' = j)) as [->|Hne]; [done|].
        rewrite list_lookup_insert_ne in Ec' by done. by destruct (Hin _ _ Ec' _ Hic).
    + rewrite Hb, Hm by done. split; intros (c' & Ec' & Hkc).
      * destruct (decide (j' = j)) as [->|]; [|exists c'; by rewrite list_lookup_insert_ne].
        simplify_eq. exists (i :: c). split; [|by right]. apply list_lookup_insert_eq. by eapply lookup_lt_Some.
      * destruct (decide (j' = j)) as [->|]; [|rewrite list_lookup_insert_ne in Ec' by done; eauto].
        rewrite list_lookup_insert_eq in Ec' by (eapply lookup_lt_Some; eauto). simplify_eq.
        apply elem_of_cons in Hkc as [->|Hkc]; [done|]. eauto.
Qed.

(** An entry taken out of its bucket, whose chain [nx'] relinks. *)
Lemma table_remove nx bk nx' bk' hs cs i j c1 c2 h' : table nx bk hs cs -> cs !! j = Some (c1 ++ i :: c2) ->
  bk' i = None -> (forall k, k <> i -> bk' k = bk k) ->
  (forall k m, k <> i -> bk k = Some m -> m <> j -> nx' k = nx k) ->
  chain nx' h' (c1 ++ c2) ->
  table nx' bk' (<[j := h']> hs) (<[j := c1 ++ c2]> cs).
Proof.
  intros (Hc & Hn & Hm) Ej Hbi Hb Hnx Hch. pose proof (lookup_lt_Some _ _ _ Ej) as Hlt.
  assert (Hnd : NoDup (c1 ++ i :: c2)) by eauto.
  assert (Hni : i ∉ c1 ++ c2).
  { rewrite NoDup_app in Hnd. destruct Hnd as (_ & Hd & Hnd). apply NoDup_cons in Hnd as [Hi _].
    rewrite elem_of_app. intros [Hin|Hin]; [|done]. apply (Hd i Hin). by left. }
  assert (Hbij : bk i = Some j) by (apply Hm; eexists; split; [done|]; apply elem_of_app; right; by left).
  split_and!.
  - apply Forall2_same_length_lookup. rewrite !length_insert. split; [by eapply Forall2_length|]. intros k a b Ea Eb.
    destruct (decide (k = j)) as [->|Hne].
    + rewrite list_lookup_insert_eq in Eb by done. rewrite list_lookup_insert_eq in Ea by (erewrite Forall2_length; eauto). by simplify_eq.
    + rewrite list_lookup_insert_ne in Ea by done. rewrite list_lookup_insert_ne in Eb by done. eapply chain_ext; [|eapply Forall2_lookup_lr; eauto].
      intros m Hmb. assert (Hbm : bk m = Some k) by (apply Hm; eauto). apply (Hnx m k); [|done|done]. congruence.
  - intros k c Ek. destruct (decide (k = j)) as [->|Hne].
    + rewrite list_lookup_insert_eq in Ek by done. simplify_eq. rewrite <- Permutation_middle in Hnd. by apply NoDup_cons in Hnd as [_ Hnd].
    + rewrite list_lookup_insert_ne in Ek by done. eauto.
  - intros k j'. destruct (decide (k = i)) as [->|Hne].
    + rewrite Hbi. split; [done|]. intros (c & Ec & Hic). destruct (decide (j' = j)) as [->|Hne].
      * rewrite list_lookup_insert_eq in Ec by done. by simplify_eq.
      * rewrite list_lookup_insert_ne in Ec by done. assert (bk i = Some j') by (apply Hm; eauto). congruence.
    + rewrite Hb, Hm by done. destruct (decide (j' = j)) as [->|Hnj].
      * rewrite list_lookup_insert_eq by done. rewrite Ej. split; intros (c & Ec & Hkc); simplify_eq.
        { eexists. split; [done|]. rewrite elem_of_app, elem_of_cons in Hkc. rewrite elem_of_app. naive_solver. }
        { eexists. split; [done|]. rewrite elem_of_app in Hkc. rewrite elem_of_app, elem_of_cons. naive_solver. }
      * by rewrite list_lookup_insert_ne.
Qed.

Definition within (D : list nat) (f : nat -> option nat) (i : nat) : option nat := if decide (i ∈ D) then f i else None.

Lemma within_ext D D' f i : (i ∈ D <-> i ∈ D') -> within D f i = within D' f i.
Proof. intros H. unfold within. destruct (decide (i ∈ D)), (decide (i ∈ D')); tauto. Qed.

Lemma NoDup_below (l : list nat) n : NoDup l -> Forall (fun i => i < n)%nat l -> (length l <= n)%nat.
Proof.
  intros Hl Hn. rewrite <- (length_seq n 0). apply submseteq_length, NoDup_submseteq; [done|].
  intros i Hi. apply elem_of_seq. rewrite Forall_forall in Hn. specialize (Hn i Hi). lia.
Qed.

Definition power2 (n : nat) : Prop := exists k, n = (2 ^ k)%nat.

(** The bucket of a hash in a table whose size is a power of two. *)
Lemma mask_lt h n : power2 n -> (Z.to_nat (Z.land h (Z.of_nat n - 1)) < n)%nat.
Proof.
  intros [k ->]. rewrite Nat2Z.inj_pow, land_pow2_pred by lia. change (Z.of_nat 2) with 2.
  pose proof (pow2_pos (Z.of_nat k) ltac:(lia)) as Hp. pose proof (Z.mod_pos_bound h _ Hp) as Hm.
  apply Nat2Z.inj_lt. rewrite Z2Nat.id, Nat2Z.inj_pow by lia. simpl. lia.
Qed.

(** All entries but [i]. *)
Definition others (i : nat) (f : nat -> option nat) (k : nat) : option nat := if decide (k = i) then None else f k.

Lemma table_ext nx nx' bk bk' hs cs : (forall i, is_Some (bk i) -> nx' i = nx i) -> (forall i, bk' i = bk i) ->
  table nx bk hs cs -> table nx' bk' hs cs.
Proof.
  intros Hn Hb (H1 & H2 & H3). split_and!; [|done|intros i j; by rewrite Hb].
  apply Forall2_same_length_lookup. split; [by eapply Forall2_length|]. intros j h c Ej Ej'.
  eapply chain_ext; [|eapply Forall2_lookup_lr; eauto]. intros i Hi. apply Hn. exists j. apply H3. eauto.
Qed.

Lemma NoDup_concat (cs : list (list nat)) : (forall j c, cs !! j = Some c -> NoDup c) ->
  (forall j j' c c' i, cs !! j = Some c -> cs !! j' = Some c' -> i ∈ c -> i ∈ c' -> j = j') -> NoDup (concat cs).
Proof.
  induction cs as [|c cs IH]; intros Hn Hd; [constructor|]. simpl. apply NoDup_app. split_and!.
  - by apply (Hn 0%nat).
  - intros i Hi Hc. apply list_elem_of_In, in_concat in Hc as (c' & Hc' & Hi'). rewrite <- list_elem_of_In in Hc'. rewrite <- list_elem_of_In in Hi'.
    apply list_elem_of_lookup in Hc' as [j Hj]. by specialize (Hd 0%nat (S j) c c' i eq_refl Hj Hi Hi').
  - apply IH; [intros j c' Hj; by apply (Hn (S j))|]. intros j j' a b i Hj Hj' Ha Hb.
    specialize (Hd (S j) (S j') a b i Hj Hj' Ha Hb). lia.
Qed.

Lemma elem_of_concat {A} (cs : list (list A)) i : i ∈ concat cs <-> exists j c, cs !! j = Some c /\ i ∈ c.
Proof.
  rewrite list_elem_of_In, in_concat. split.
  - intros (c & Hc & Hi). rewrite <- list_elem_of_In in Hc. rewrite <- list_elem_of_In in Hi. apply list_elem_of_lookup in Hc as [j Hj]. by exists j, c.
  - intros (j & c & Hj & Hi). exists c. rewrite <- !list_elem_of_In. split; [by eapply list_elem_of_lookup_2|done].
Qed.

(** Empty buckets are a table of nothing. *)
Lemma table_empty nx bk n : (forall i, bk i = None) -> table nx bk (replicate n 0%nat) (replicate n []).
Proof.
  intros Hb. split_and!.
  - apply Forall2_replicate. done.
  - intros j c Hj. apply lookup_replicate in Hj as [-> _]. constructor.
  - intros i j. rewrite Hb. split; [done|]. intros (c & Hc & Hi). apply lookup_replicate in Hc as [-> _]. by apply elem_of_nil in Hi.
Qed.


(** ** Unlinking *)

Lemma NoDup_split_elem (c1 c2 : list nat) i : NoDup (c1 ++ i :: c2) -> i ∉ c1 /\ i ∉ c2.
Proof.
  intros (_ & Hd & Hn)%NoDup_app. apply NoDup_cons in Hn as [H2 _]. split; [|done]. intros H1. apply (Hd i H1). by left.
Qed.

(** The chain of an entry, split there. *)
Lemma table_split nx bk hs cs i j : table nx bk hs cs -> bk i = Some j ->
  exists h c1 c2, hs !! j = Some h /\ cs !! j = Some (c1 ++ i :: c2) /\ chain nx h (c1 ++ i :: c2) /\ NoDup (c1 ++ i :: c2).
Proof.
  intros (Hc & Hn & Hb) Hi. apply Hb in Hi as (c & Ec & Hic). apply list_elem_of_split in Hic as (c1 & c2 & ->).
  destruct (Forall2_lookup_r _ _ _ _ _ Hc Ec) as (h & Eh & Hch). exists h, c1, c2. eauto.
Qed.

Lemma chain_next nx h c1 c2 i n : chain nx h (c1 ++ i :: c2) -> nx i = Some n -> chain nx n c2.
Proof.
  intros Hc Hn. destruct (chain_app nx c1 h _ Hc) as (m & (-> & _ & n' & En & Hc2) & _). congruence.
Qed.

(** The first entry of its bucket leaves it. *)
Lemma table_unlink_head nx bk nx' bk' hs cs i j n : table nx bk hs cs -> hs !! j = Some i -> bk i = Some j -> nx i = Some n ->
  bk' i = None -> (forall k, k <> i -> bk' k = bk k) -> (forall k, k <> i -> is_Some (bk k) -> nx' k = nx k) ->
  exists cs', table nx' bk' (<[j := n]> hs) cs'.
Proof.
  intros Ht Hj Hb Hn Hbi Hbk Hnx. destruct (table_split nx bk hs cs i j Ht Hb) as (h & c1 & c2 & Eh & Ec & Hc & Hnd).
  assert (h = i) as -> by congruence. destruct (NoDup_split_elem _ _ _ Hnd) as [Hn1 Hn2].
  assert (c1 = []) as ->. { destruct c1 as [|a c1]; [done|]. destruct Hc as (-> & _). set_solver. }
  exists (<[j := [] ++ c2]> cs). apply (table_remove nx bk nx' bk' hs cs i j [] c2 n); try done.
  - intros k m Hk Hm _. apply Hnx; [done|eauto].
  - eapply chain_ext; [|by eapply (chain_next nx i [])]. intros k Hk. apply Hnx; [set_solver|]. exists j. apply Ht. eexists. split; [exact Ec|]. set_solver.
Qed.

(** The entry that follows [k] leaves its bucket. *)
Lemma table_unlink_mid nx bk nx' bk' hs cs i k j n : table nx bk hs cs -> bk i = Some j -> bk k = Some j -> nx k = Some i -> nx i = Some n ->
  i <> 0%nat -> bk' i = None -> (forall a, a <> i -> bk' a = bk a) -> nx' k = Some n ->
  (forall a, a <> i -> a <> k -> is_Some (bk a) -> nx' a = nx a) -> exists cs', table nx' bk' hs cs'.
Proof.
  intros Ht Hbi Hbk Hnk Hni Hi0 Hbi' Hb' Hnk' Hnx. destruct (table_split nx bk hs cs k j Ht Hbk) as (h & c0 & c & Eh & Ec & Hc & Hnd).
  pose proof (chain_next nx h c0 c k i Hc Hnk) as Hci. destruct c as [|i' c2]; [simpl in Hci; lia|]. destruct Hci as (<- & _ & n' & En' & Hc2).
  assert (n' = n) as -> by congruence. destruct (NoDup_split_elem _ _ _ Hnd) as [Hk0 Hk2].
  assert (Hsplit : c0 ++ k :: i :: c2 = (c0 ++ [k]) ++ i :: c2) by (by rewrite <- (assoc_L (++))). rewrite Hsplit in Ec, Hnd.
  destruct (NoDup_split_elem _ _ _ Hnd) as [Hi1 Hi2].
  assert (Hbc : forall a, a ∈ (c0 ++ [k]) ++ i :: c2 -> is_Some (bk a)) by (intros a Ha; exists j; apply Ht; eauto).
  exists (<[j := (c0 ++ [k]) ++ c2]> cs). rewrite <- (list_insert_id hs j h Eh). apply (table_remove nx bk nx' bk' hs cs i j (c0 ++ [k]) c2 h); try done.
  - intros a m Ha Hm Hmj. apply Hnx; [done| |eauto]. congruence.
  - rewrite <- (assoc_L (++)). simpl. destruct (chain_app nx c0 h _ Hc) as (m & Hm & Hrep). destruct Hm as (-> & Hk00 & _). apply Hrep.
    + intros a Ha. apply Hnx; [set_solver|set_solver|]. apply Hbc. set_solver.
    + split_and!; [done|done|]. exists n. split; [done|]. eapply chain_ext; [|exact Hc2]. intros a Ha. apply Hnx; [set_solver|set_solver|]. apply Hbc. set_solver.
Qed.
