(* ===== verification/Atoms.v ===== *)
(** * Atoms: interned property names (src/value/atoms.inc.c, src/dyna-atom.h)

    An atom is an index in [atom_array]; the string it stands for is found
    there, and a hash table of chains threaded through the strings finds the
    index of a string.  Small integers are atoms without an entry.  Free
    entries form a list threaded through the array. *)
From S2P Require Import Prelude Native Digits.

(** ** Data *)

Definition JS_ATOM_TYPE_STRING : Z := 1.
Definition JS_ATOM_TYPE_GLOBAL_SYMBOL : Z := 2.
Definition JS_ATOM_TYPE_SYMBOL : Z := 3.
Definition JS_ATOM_TYPE_PRIVATE : Z := 4.

Definition JS_ATOM_HASH_MASK : Z := Z.shiftl 1 30 - 1.
Definition JS_ATOM_HASH_PRIVATE : Z := JS_ATOM_HASH_MASK.
Definition JS_ATOM_TAG_INT : Z := 2 ^ 31.
Definition JS_ATOM_MAX_INT : Z := JS_ATOM_TAG_INT - 1.
Definition JS_ATOM_MAX : Z := 2 ^ 30 - 1.

(** A string: its code units, 8 or 16 bits wide; [atom_type] is zero unless
    it is an atom, and [hash_next] is the next index of its chain, or the
    index of a symbol.  [ref_count] is in the block header. *)
Record JSString := mkString {
  chars : list Z;
  is_wide_char : bool;
  hash : Z;
  atom_type : Z;
  hash_next : nat;
  ref_count : Z;
}.

(** An entry of [atom_array]: a string, or the next free index with the low
    bit set. *)
Inductive atom_slot : Type :=
| S_free (next : nat)
| S_atom (p : nat).

#[export] Instance atom_slot_eq_dec : EqDecision atom_slot.
Proof. solve_decision. Defined.

(** The part of the runtime used here.  [strings] is the memory that holds
    the strings, [clock] counts allocations. *)
Record JSRuntime := mkRuntime {
  atom_hash : list nat;
  atom_count : Z;
  atom_count_resize : Z;
  atom_array : list atom_slot;
  atom_free_index : nat;
  strings : gmap nat JSString;
  clock : nat;
}.

Definition atom_hash_size (rt : JSRuntime) : Z := Z.of_nat (length (atom_hash rt)).
Definition atom_size (rt : JSRuntime) : Z := Z.of_nat (length (atom_array rt)).

(** The predefined atoms, in the order of the enumeration. *)
Definition js_atom_init : list string := [
  "null"; "false"; "true"; "if"; "else"; "return"; "var"; "this"; "delete"; "void"; "typeof"; "new"; "in";
  "instanceof"; "do"; "while"; "for"; "break"; "continue"; "switch"; "case"; "default"; "throw"; "try";
  "catch"; "finally"; "function"; "debugger"; "with"; "class"; "const"; "enum"; "export"; "extends"; "import";
  "super"; "implements"; "interface"; "let"; "package"; "private"; "protected"; "public"; "static"; "yield";
  "await"; ""; "keys"; "size"; "length"; "fileName"; "lineNumber"; "columnNumber"; "message"; "cause";
  "errors"; "error"; "suppressed"; "stack"; "name"; "toString"; "toLocaleString"; "valueOf"; "eval";
  "prototype"; "constructor"; "configurable"; "writable"; "enumerable"; "value"; "get"; "set"; "of";
  "__proto__"; "undefined"; "number"; "boolean"; "string"; "object"; "symbol"; "integer"; "unknown";
  "arguments"; "callee"; "caller"; "<eval>"; "<ret>"; "<var>"; "<arg_var>"; "<with>"; "lastIndex"; "target";
  "index"; "input"; "defineProperties"; "apply"; "join"; "concat"; "split"; "construct"; "getPrototypeOf";
  "setPrototypeOf"; "isExtensible"; "preventExtensions"; "has"; "deleteProperty"; "defineProperty";
  "getOwnPropertyDescriptor"; "ownKeys"; "add"; "done"; "next"; "values"; "source"; "flags"; "global";
  "unicode"; "raw"; "rawJSON"; "new.target"; "this.active_func"; "<home_object>"; "<computed_field>";
  "<static_computed_field>"; "<class_fields_init>"; "<brand>"; "#constructor"; "as"; "from"; "meta";
  "*default*"; "*"; "Module"; "then"; "resolve"; "reject"; "promise"; "proxy"; "revoke"; "async"; "exec";
  "groups"; "indices"; "status"; "reason"; "globalThis"; "bigint"; "-0"; "Infinity"; "-Infinity"; "NaN";
  "hasIndices"; "ignoreCase"; "multiline"; "dotAll"; "sticky"; "unicodeSets"; "not-equal"; "timed-out"; "ok";
  "toISOString"; "alphabet"; "lastChunkHandling"; "omitPadding"; "toJSON"; "maxByteLength"; "Object"; "Array";
  "Error"; "Number"; "String"; "Boolean"; "Symbol"; "Arguments"; "Math"; "JSON"; "Date"; "Function";
  "GeneratorFunction"; "ForInIterator"; "RegExp"; "ArrayBuffer"; "SharedArrayBuffer"; "Uint8ClampedArray";
  "Int8Array"; "Uint8Array"; "Int16Array"; "Uint16Array"; "Int32Array"; "Uint32Array"; "BigInt64Array";
  "BigUint64Array"; "Float16Array"; "Float32Array"; "Float64Array"; "DataView"; "BigInt"; "WeakRef";
  "FinalizationRegistry"; "DisposableStack"; "AsyncDisposableStack"; "Map"; "Set"; "WeakMap"; "WeakSet";
  "Iterator"; "Iterator Helper"; "Iterator Concat"; "Iterator Wrap"; "Map Iterator"; "Set Iterator";
  "Array Iterator"; "String Iterator"; "RegExp String Iterator"; "Generator"; "Proxy"; "Promise";
  "PromiseResolveFunction"; "PromiseRejectFunction"; "AsyncFunction"; "AsyncFunctionResolve";
  "AsyncFunctionReject"; "AsyncGeneratorFunction"; "AsyncGenerator"; "EvalError"; "RangeError";
  "ReferenceError"; "SyntaxError"; "TypeError"; "URIError"; "InternalError"; "AggregateError";
  "SuppressedError"; "<brand>"; "Symbol.toPrimitive"; "Symbol.iterator"; "Symbol.match"; "Symbol.matchAll";
  "Symbol.replace"; "Symbol.search"; "Symbol.split"; "Symbol.toStringTag"; "Symbol.isConcatSpreadable";
  "Symbol.hasInstance"; "Symbol.species"; "Symbol.unscopables"; "Symbol.asyncIterator"; "Symbol.dispose";
  "Symbol.asyncDispose"].

Definition JS_ATOM_END : nat := S (length js_atom_init).
Definition JS_ATOM_empty_string : nat := 47.
Definition JS_ATOM_Private_brand : nat := 234.
Definition JS_ATOM_Symbol_toPrimitive : nat := 235.

(** ** Updates of the state *)

Definition set_strings (rt : JSRuntime) (m : gmap nat JSString) : JSRuntime :=
  mkRuntime (atom_hash rt) (atom_count rt) (atom_count_resize rt) (atom_array rt) (atom_free_index rt) m (clock rt).

Definition set_ref (s : JSString) (n : Z) : JSString :=
  mkString (chars s) (is_wide_char s) (hash s) (atom_type s) (hash_next s) n.

Definition set_next (s : JSString) (n : nat) : JSString :=
  mkString (chars s) (is_wide_char s) (hash s) (atom_type s) n (ref_count s).

(** [js_rc(p)->ref_count += d]. *)
Definition add_ref (rt : JSRuntime) (p : nat) (d : Z) : option JSRuntime :=
  s ← strings rt !! p;
  Some (set_strings rt (<[p := set_ref s (ref_count s + d)]> (strings rt))).

Definition tick (rt : JSRuntime) : JSRuntime :=
  mkRuntime (atom_hash rt) (atom_count rt) (atom_count_resize rt) (atom_array rt) (atom_free_index rt) (strings rt) (S (clock rt)).

(** The string of an entry. *)
Definition get_atom (rt : JSRuntime) (i : nat) : option (nat * JSString) :=
  match atom_array rt !! i with
  | Some (S_atom p) => s ← strings rt !! p; Some (p, s)
  | _ => None
  end.

(** ** Integers *)

Definition __JS_AtomIsConst (v : Z) : bool := sint 32 v <? Z.of_nat JS_ATOM_END.
Definition __JS_AtomIsTaggedInt (v : Z) : bool := negb (Z.land v JS_ATOM_TAG_INT =? 0).
Definition __JS_AtomFromUInt32 (v : Z) : Z := Z.lor v JS_ATOM_TAG_INT.
Definition __JS_AtomToUInt32 (atom : Z) : Z := Z.land atom (2 ^ 32 - 1 - JS_ATOM_TAG_INT).

Definition is_num (c : Z) : bool := (48 <=? c) && (c <=? 57).

Fixpoint num_loop (n : Z) (p : list Z) : option Z :=
  match p with
  | [] => Some n
  | c :: p =>
      if negb (is_num c) then None
      else
        let n64 := n * 10 + (c - 48) in
        if negb (Z.shiftr n64 32 =? 0) then None else num_loop (u32 n64) p
  end.

Definition is_num_string (p : list Z) : option Z :=
  if (length p =? 0)%nat || (10 <? length p)%nat then None
  else
    match p with
    | [] => None
    | c :: p =>
        if negb (is_num c) then None
        else if c =? 48 then if (length (c :: p) =? 1)%nat then Some 0 else None
        else num_loop (c - 48) p
    end.

(** [hash_string8] and [hash_string16]: the same on code units. *)
Definition hash_string (str : list Z) (h : Z) : Z := fold_left (fun h c => u32 (h * 263 + c)) str h.

(** [js_string_memcmp(p, 0, str, 0, len) == 0] with equal lengths. *)
Definition same_chars (a b : list Z) : bool := bool_decide (a = b).

Section atoms.

(** Whether the allocation of a given rank succeeds. *)
Context (mem : nat -> bool).

(** ** Hash table *)

Definition bucket_of (h : Z) (size : nat) : nat := Z.to_nat (Z.land h (Z.of_nat size - 1)).

(** The inner loop of [JS_ResizeAtomHash]: the chain from [h] is moved to
    [new_hash]. *)
Fixpoint rehash_chain (fuel : nat) (arr : list atom_slot) (h : nat) (st : gmap nat JSString) (new_hash : list nat) :
    option (gmap nat JSString * list nat) :=
  match h, fuel with
  | O, _ => Some (st, new_hash)
  | _, O => None
  | _, S fuel =>
      match arr !! h with
      | Some (S_atom p) =>
          s ← st !! p;
          let hash_next1 := hash_next s in
          let j := bucket_of (hash s) (length new_hash) in
          n ← new_hash !! j;
          rehash_chain fuel arr hash_next1 (<[p := set_next s n]> st) (<[j := h]> new_hash)
      | _ => None
      end
  end.

Fixpoint rehash (arr : list atom_slot) (old : list nat) (st : gmap nat JSString) (new_hash : list nat) :
    option (gmap nat JSString * list nat) :=
  match old with
  | [] => Some (st, new_hash)
  | h :: old =>
      '(st, new_hash) ← rehash_chain (length arr) arr h st new_hash;
      rehash arr old st new_hash
  end.

(** The state is unchanged when memory is short. *)
Definition JS_ResizeAtomHash (rt : JSRuntime) (new_hash_size : nat) : option JSRuntime :=
  let rt' := tick rt in
  if mem (clock rt) then
    '(st, new_hash) ← rehash (atom_array rt) (atom_hash rt) (strings rt) (replicate new_hash_size 0%nat);
    Some (mkRuntime new_hash (atom_count rt) (Z.of_nat new_hash_size * 2) (atom_array rt) (atom_free_index rt) st (clock rt'))
  else Some rt'.

(** The loop of [js_get_atom_index]. *)
Fixpoint index_loop (fuel : nat) (rt : JSRuntime) (p i : nat) : option nat :=
  match fuel with
  | O => None
  | S fuel =>
      '(p1, s1) ← get_atom rt i;
      if (p1 =? p)%nat then Some i
      else if (i =? 0)%nat then None else index_loop fuel rt p (hash_next s1)
  end.

Definition js_get_atom_index (rt : JSRuntime) (p : nat) (s : JSString) : option nat :=
  if atom_type s =? JS_ATOM_TYPE_SYMBOL then Some (hash_next s)
  else
    i ← atom_hash rt !! bucket_of (hash s) (length (atom_hash rt));
    index_loop (S (length (atom_array rt))) rt p i.

(** The search for a registered atom: [Some 0] when there is none. *)
Fixpoint find_loop (fuel : nat) (rt : JSRuntime) (str : list Z) (h ty : Z) (i : nat) : option nat :=
  match i, fuel with
  | O, _ => Some 0%nat
  | _, O => None
  | _, S fuel =>
      '(p, s) ← get_atom rt i;
      if (hash s =? h) && (atom_type s =? ty) && (length (chars s) =? length str)%nat && same_chars (chars s) str
      then Some i
      else find_loop fuel rt str h ty (hash_next s)
  end.

(** ** Release *)

(** The predecessor of [p] in the chain from [i]: the loop of
    [JS_FreeAtomStruct], giving the index of [p] and the updated strings. *)
Fixpoint unlink_loop (fuel : nat) (rt : JSRuntime) (p i : nat) : option (nat * gmap nat JSString) :=
  match fuel with
  | O => None
  | S fuel =>
      if (i =? 0)%nat then None
      else
        '(p0, s0) ← get_atom rt i;
        let i := hash_next s0 in
        '(p1, s1) ← get_atom rt i;
        if (p1 =? p)%nat then Some (i, <[p0 := set_next s0 (hash_next s1)]> (strings rt))
        else unlink_loop fuel rt p i
  end.

(** The entry leaves its chain. *)
Definition unlink_atom (rt : JSRuntime) (p : nat) (s : JSString) : option (nat * list nat * gmap nat JSString) :=
  if atom_type s =? JS_ATOM_TYPE_SYMBOL then Some (hash_next s, atom_hash rt, strings rt)
  else
    let h0 := bucket_of (hash s) (length (atom_hash rt)) in
    i ← atom_hash rt !! h0;
    '(p1, s1) ← get_atom rt i;
    if (p1 =? p)%nat then Some (i, <[h0 := hash_next s1]> (atom_hash rt), strings rt)
    else
      '(i, st) ← unlink_loop (length (atom_array rt)) rt p i;
      Some (i, atom_hash rt, st).

Definition JS_FreeAtomStruct (rt : JSRuntime) (p : nat) : option JSRuntime :=
  s ← strings rt !! p;
  '(i, hs, st) ← unlink_atom rt p s;
  if negb (i <? length (atom_array rt))%nat then None
  else
    let st :=
      if (atom_type s =? JS_ATOM_TYPE_SYMBOL) && negb (hash s =? JS_ATOM_HASH_PRIVATE) && negb (hash s =? 0)
      then st else delete p st in
    if atom_count rt - 1 <? 0 then None
    else
      Some (mkRuntime hs (atom_count rt - 1) (atom_count_resize rt)
              (<[i := S_free (atom_free_index rt)]> (atom_array rt)) i st (clock rt)).

Definition js_free_string (rt : JSRuntime) (p : nat) : option JSRuntime :=
  rt ← add_ref rt p (-1);
  s ← strings rt !! p;
  if ref_count s <=? 0 then
    if atom_type s =? 0 then Some (set_strings rt (delete p (strings rt))) else JS_FreeAtomStruct rt p
  else Some rt.

Definition __JS_FreeAtom (rt : JSRuntime) (i : nat) : option JSRuntime :=
  '(p, _) ← get_atom rt i;
  rt ← add_ref rt p (-1);
  s ← strings rt !! p;
  if 0 <? ref_count s then Some rt else JS_FreeAtomStruct rt p.

(** ** Creation *)

(** [js_malloc] of a string. *)
Definition new_string (rt : JSRuntime) (s : JSString) : JSRuntime * option nat :=
  let rt' := tick rt in
  if mem (clock rt) then (set_strings rt' (<[clock rt := s]> (strings rt')), Some (clock rt))
  else (rt', None).

Definition js_alloc_string_rt (rt : JSRuntime) (str : list Z) (wide : bool) : JSRuntime * option nat :=
  new_string rt (mkString str wide 0 0 0 1).

(** The size of the array after [atom_size] entries, an [int] computation. *)
Definition next_atom_size (size : Z) : Z := 711 `max` Z.quot (sint 32 (size * 3)) 2.

(** New free entries from [start] on, the last of which ends the list. *)
Definition free_entries (start new_size : nat) : list atom_slot :=
  (fun i => S_free (if (i =? new_size - 1)%nat then 0 else S i)) <$> seq start (new_size - start).

(** The growth of [atom_array], and whether it succeeded.  The loop that
    links the new entries starts at the old size. *)
Definition grow_array (rt : JSRuntime) : JSRuntime * bool :=
  let new_size := next_atom_size (atom_size rt) in
  if JS_ATOM_MAX <? new_size then (rt, false)
  else
    let ok := mem (clock rt) in
    let rt := tick rt in
    if negb ok then (rt, false)
    else
      let '(rt, arr) :=
        match atom_array rt with
        | [] =>
            match new_string rt (mkString [] false 0 JS_ATOM_TYPE_SYMBOL 0 1) with
            | (rt, None) => (rt, None)
            | (rt, Some p) =>
                (mkRuntime (atom_hash rt) (atom_count rt + 1) (atom_count_resize rt) (atom_array rt) (atom_free_index rt) (strings rt) (clock rt),
                 Some [S_atom p])
            end
        | arr => (rt, Some arr)
        end in
      match arr with
      | None => (rt, false)
      | Some arr =>
          (mkRuntime (atom_hash rt) (atom_count rt) (atom_count_resize rt)
             (take (Z.to_nat new_size) arr ++ free_entries (length arr) (Z.to_nat new_size)) (length arr) (strings rt) (clock rt), true)
      end.

(** The string that becomes the atom: [str] itself unless it is an atom
    already, a copy otherwise, an empty wide string without [str]. *)
Definition atom_string (rt : JSRuntime) (str : option nat) (ty : Z) : option (JSRuntime * option nat) :=
  match str with
  | Some q =>
      s ← strings rt !! q;
      if atom_type s =? 0 then Some (rt, Some q)
      else
        match new_string rt (mkString (chars s) (is_wide_char s) 0 0 0 1) with
        | (rt, None) => Some (rt, None)
        | (rt, Some p) => rt ← js_free_string rt q; Some (rt, Some p)
        end
  | None => Some (new_string rt (mkString [] true 0 0 0 1))
  end.

(** The registration of the string [p] in a free entry. *)
Definition register_atom (rt : JSRuntime) (p : nat) (h ty : Z) : option (JSRuntime * nat) :=
  let i := atom_free_index rt in
  match atom_array rt !! i with
  | Some (S_free next) =>
      s ← strings rt !! p;
      let h1 := bucket_of h (length (atom_hash rt)) in
      if ty =? JS_ATOM_TYPE_SYMBOL then
        Some (mkRuntime (atom_hash rt) (atom_count rt + 1) (atom_count_resize rt) (<[i := S_atom p]> (atom_array rt)) next
                (<[p := mkString (chars s) (is_wide_char s) h ty i (ref_count s)]> (strings rt)) (clock rt), i)
      else
        hd ← atom_hash rt !! h1;
        let rt' :=
          mkRuntime (<[h1 := i]> (atom_hash rt)) (atom_count rt + 1) (atom_count_resize rt) (<[i := S_atom p]> (atom_array rt)) next
            (<[p := mkString (chars s) (is_wide_char s) h ty hd (ref_count s)]> (strings rt)) (clock rt) in
        if atom_count_resize rt <=? atom_count rt' then
          rt' ← JS_ResizeAtomHash rt' (length (atom_hash rt) * 2); Some (rt', i)
        else Some (rt', i)
  | _ => None
  end.

Definition free_opt (rt : JSRuntime) (str : option nat) : option JSRuntime :=
  match str with Some q => js_free_string rt q | None => Some rt end.

(** A new entry for [str]. *)
Definition new_entry (rt : JSRuntime) (str : option nat) (h ty : Z) : option (JSRuntime * nat) :=
  let '(rt, ok) := if (atom_free_index rt =? 0)%nat then grow_array rt else (rt, true) in
  if negb ok then rt ← free_opt rt str; Some (rt, 0%nat)
  else
    '(rt, p) ← atom_string rt str ty;
    match p with
    | None => rt ← free_opt rt str; Some (rt, 0%nat)
    | Some p => register_atom rt p h ty
    end.

(** [str] is consumed; 0 is an error. *)
Definition __JS_NewAtom (rt : JSRuntime) (str : option nat) (ty : Z) : option (JSRuntime * nat) :=
  if ty <? JS_ATOM_TYPE_SYMBOL then
    match str with
    | None => None
    | Some q =>
        s ← strings rt !! q;
        if atom_type s =? ty then
          i ← js_get_atom_index rt q s;
          rt ← if __JS_AtomIsConst (Z.of_nat i) then add_ref rt q (-1) else Some rt;
          Some (rt, i)
        else
          let h := Z.land (hash_string (chars s) ty) JS_ATOM_HASH_MASK in
          i0 ← atom_hash rt !! bucket_of h (length (atom_hash rt));
          i ← find_loop (length (atom_array rt)) rt (chars s) h ty i0;
          if negb (i =? 0)%nat then
            rt ← if __JS_AtomIsConst (Z.of_nat i) then Some rt
                 else '(p, _) ← get_atom rt i; add_ref rt p 1;
            rt ← js_free_string rt q;
            Some (rt, i)
          else new_entry rt (Some q) h ty
    end
  else new_entry rt str (if ty =? JS_ATOM_TYPE_SYMBOL then 0 else JS_ATOM_HASH_PRIVATE) JS_ATOM_TYPE_SYMBOL.

Definition __JS_NewAtomInit (rt : JSRuntime) (str : string) (ty : Z) : option (JSRuntime * nat) :=
  match js_alloc_string_rt rt (bytes_of str) false with
  | (rt, None) => Some (rt, 0%nat)
  | (rt, Some p) => __JS_NewAtom rt (Some p) ty
  end.

(** An ASCII string that needs no allocation when it is registered. *)
Fixpoint find8_loop (fuel : nat) (rt : JSRuntime) (str : list Z) (h : Z) (i : nat) : option nat :=
  match i, fuel with
  | O, _ => Some 0%nat
  | _, O => None
  | _, S fuel =>
      '(p, s) ← get_atom rt i;
      if (hash s =? h) && (atom_type s =? JS_ATOM_TYPE_STRING) && (length (chars s) =? length str)%nat &&
         negb (is_wide_char s) && same_chars (chars s) str
      then Some i
      else find8_loop fuel rt str h (hash_next s)
  end.

Definition __JS_FindAtom (rt : JSRuntime) (str : list Z) : option (JSRuntime * nat) :=
  let h := Z.land (hash_string str JS_ATOM_TYPE_STRING) JS_ATOM_HASH_MASK in
  i0 ← atom_hash rt !! bucket_of h (length (atom_hash rt));
  i ← find8_loop (length (atom_array rt)) rt str h i0;
  if (i =? 0)%nat then Some (rt, 0%nat)
  else
    rt ← if __JS_AtomIsConst (Z.of_nat i) then Some rt else '(p, _) ← get_atom rt i; add_ref rt p 1;
    Some (rt, i).

(** ** Initialisation *)

(** The type of the predefined atom [i]. *)
Definition init_type (i : nat) : Z :=
  if (i =? JS_ATOM_Private_brand)%nat then JS_ATOM_TYPE_PRIVATE
  else if (JS_ATOM_Symbol_toPrimitive <=? i)%nat then JS_ATOM_TYPE_SYMBOL
  else JS_ATOM_TYPE_STRING.

(** The error of any step is returned at once. *)
Fixpoint init_loop (rt : JSRuntime) (i : nat) (names : list string) : option (JSRuntime * bool) :=
  match names with
  | [] => Some (rt, true)
  | n :: names =>
      '(rt, a) ← __JS_NewAtomInit rt n (init_type i);
      if (a =? 0)%nat then Some (rt, false) else init_loop rt (S i) names
  end.

Definition JS_InitAtoms : option (JSRuntime * bool) :=
  let rt := mkRuntime [] 0 0 [] 0 ∅ 0 in
  if mem 0 then
    rt ← JS_ResizeAtomHash rt 512;
    init_loop rt 1 js_atom_init
  else Some (tick rt, false).

(** ** Atoms of integers and strings *)

Definition JS_DupAtom (rt : JSRuntime) (v : Z) : option JSRuntime :=
  if __JS_AtomIsConst v then Some rt
  else '(p, _) ← get_atom rt (Z.to_nat v); add_ref rt p 1.

Definition JS_FreeAtom (rt : JSRuntime) (v : Z) : option JSRuntime :=
  if __JS_AtomIsConst v then Some rt else __JS_FreeAtom rt (Z.to_nat v).

(** [p] is consumed. *)
Definition JS_NewAtomStr (rt : JSRuntime) (p : nat) : option (JSRuntime * Z) :=
  s ← strings rt !! p;
  let other := '(rt, i) ← __JS_NewAtom rt (Some p) JS_ATOM_TYPE_STRING; Some (rt, Z.of_nat i) in
  match is_num_string (chars s) with
  | Some n =>
      if n <=? JS_ATOM_MAX_INT then rt ← js_free_string rt p; Some (rt, __JS_AtomFromUInt32 n) else other
  | None => other
  end.

(** A string value, or an exception; the empty string is the predefined
    one. *)
Definition js_new_string8_len (rt : JSRuntime) (buf : list Z) : option (JSRuntime * option nat) :=
  match buf with
  | [] => '(p, _) ← get_atom rt JS_ATOM_empty_string; rt ← add_ref rt p 1; Some (rt, Some p)
  | _ => Some (js_alloc_string_rt rt buf false)
  end.

(** The atom of a string that is not a small integer. *)
Definition atom_of_digits (rt : JSRuntime) (buf : list Z) : option (JSRuntime * Z) :=
  '(rt, val) ← js_new_string8_len rt buf;
  match val with
  | None => Some (rt, 0)
  | Some p => '(rt, i) ← __JS_NewAtom rt (Some p) JS_ATOM_TYPE_STRING; Some (rt, Z.of_nat i)
  end.

Definition JS_NewAtomUInt32 (rt : JSRuntime) (n : Z) : option (JSRuntime * Z) :=
  if n <=? JS_ATOM_MAX_INT then Some (rt, __JS_AtomFromUInt32 n)
  else buf ← u32toa n; atom_of_digits rt buf.

Definition JS_NewAtomInt64 (rt : JSRuntime) (n : Z) : option (JSRuntime * Z) :=
  if u64 n <=? JS_ATOM_MAX_INT then Some (rt, __JS_AtomFromUInt32 (u32 n))
  else buf ← i64toa n; atom_of_digits rt buf.

(** ** Symbols *)

(** The symbol is a pointer to its string. *)
Definition JS_NewSymbol (rt : JSRuntime) (p : option nat) (ty : Z) : option (JSRuntime * option nat) :=
  '(rt, atom) ← __JS_NewAtom rt p ty;
  if (atom =? 0)%nat then Some (rt, None)
  else '(q, _) ← get_atom rt atom; Some (rt, Some q).

Definition JS_NewSymbolFromAtom (rt : JSRuntime) (descr ty : Z) : option (JSRuntime * option nat) :=
  if __JS_AtomIsTaggedInt descr || negb (descr <? atom_size rt) then None
  else
    '(p, _) ← get_atom rt (Z.to_nat descr);
    rt ← add_ref rt p 1;
    JS_NewSymbol rt (Some p) ty.

(** ** Reading atoms *)

Inductive JSAtomKindEnum : Type := JS_ATOM_KIND_STRING | JS_ATOM_KIND_SYMBOL | JS_ATOM_KIND_PRIVATE.

Definition JS_AtomGetKind (rt : JSRuntime) (v : Z) : option JSAtomKindEnum :=
  if __JS_AtomIsTaggedInt v then Some JS_ATOM_KIND_STRING
  else
    '(_, s) ← get_atom rt (Z.to_nat v);
    if atom_type s =? JS_ATOM_TYPE_STRING then Some JS_ATOM_KIND_STRING
    else if atom_type s =? JS_ATOM_TYPE_GLOBAL_SYMBOL then Some JS_ATOM_KIND_SYMBOL
    else if atom_type s =? JS_ATOM_TYPE_SYMBOL then
      if hash s =? JS_ATOM_HASH_PRIVATE then Some JS_ATOM_KIND_PRIVATE else Some JS_ATOM_KIND_SYMBOL
    else None.

(** A value holds a reference to its string. *)
Inductive atom_value : Type :=
| V_string (p : nat)
| V_symbol (p : nat)
| V_exception.

Definition __JS_AtomToValue (rt : JSRuntime) (atom : Z) (force_string : bool) : option (JSRuntime * atom_value) :=
  if __JS_AtomIsTaggedInt atom then
    buf ← u32toa (__JS_AtomToUInt32 atom);
    '(rt, val) ← js_new_string8_len rt buf;
    Some (rt, match val with Some p => V_string p | None => V_exception end)
  else if negb (atom <? atom_size rt) then None
  else
    '(p, s) ← get_atom rt (Z.to_nat atom);
    if atom_type s =? JS_ATOM_TYPE_STRING then rt ← add_ref rt p 1; Some (rt, V_string p)
    else if force_string then
      p ← if (length (chars s) =? 0)%nat && is_wide_char s
          then '(p, _) ← get_atom rt JS_ATOM_empty_string; Some p else Some p;
      rt ← add_ref rt p 1; Some (rt, V_string p)
    else rt ← add_ref rt p 1; Some (rt, V_symbol p).

Definition JS_AtomToValue (rt : JSRuntime) (atom : Z) : option (JSRuntime * atom_value) := __JS_AtomToValue rt atom false.
Definition JS_AtomToString (rt : JSRuntime) (atom : Z) : option (JSRuntime * atom_value) := __JS_AtomToValue rt atom true.

(** [val != -1] compares [uint32_t] values. *)
Definition JS_AtomIsArrayIndex (rt : JSRuntime) (atom : Z) : option (option Z) :=
  if __JS_AtomIsTaggedInt atom then Some (Some (__JS_AtomToUInt32 atom))
  else if negb (atom <? atom_size rt) then None
  else
    '(_, s) ← get_atom rt (Z.to_nat atom);
    if atom_type s =? JS_ATOM_TYPE_STRING then
      Some match is_num_string (chars s) with
           | Some val => if val =? 2 ^ 32 - 1 then None else Some val
           | None => None
           end
    else Some None.
End atoms.
