(* ===== verification/AtomTable.v ===== *)
(** * The atom table: chains, free list and their invariant

    The hash chains hold every registered string once and the free list holds
    the other entries: resizing, searching and releasing keep this. *)
From S2P Require Import Prelude Chains Native Digits Atoms.

(** ** The state *)

Definition slot (arr : list atom_slot) (st : gmap nat JSString) (i : nat) : option JSString :=
  match arr !! i with Some (S_atom p) => st !! p | _ => None end.

(** The following index in a chain, and in the free list. *)
Definition nx (arr : list atom_slot) (st : gmap nat JSString) (i : nat) : option nat := hash_next <$> slot arr st i.
Definition nx_free (arr : list atom_slot) (i : nat) : option nat :=
  match arr !! i with Some (S_free n) => Some n | _ => None end.

(** The bucket of an entry; symbols have none. *)
Definition hashed (s : JSString) : bool := atom_type s <? JS_ATOM_TYPE_SYMBOL.
Definition bk (n : nat) (arr : list atom_slot) (st : gmap nat JSString) (i : nat) : option nat :=
  s ← slot arr st i; if hashed s then Some (bucket_of (hash s) n) else None.

Definition distinct (arr : list atom_slot) : Prop :=
  forall i j p, arr !! i = Some (S_atom p) -> arr !! j = Some (S_atom p) -> i = j.

Lemma hash_bucket_lt h n : power2 n -> (bucket_of h n < n)%nat.
Proof. apply mask_lt. Qed.

Lemma slot_insert arr st i p s k : distinct arr -> arr !! i = Some (S_atom p) ->
  slot arr (<[p := s]> st) k = if decide (k = i) then Some s else slot arr st k.
Proof.
  intros Hd Hi. unfold slot. case_decide as Hk.
  - subst. by rewrite Hi, lookup_insert_eq.
  - destruct (arr !! k) as [[|q]|] eqn:Ek; [done| |done]. rewrite lookup_insert_ne; [done|]. intros ->. by apply Hk, (Hd k i q).
Qed.

Lemma slot_other arr st p s k : (forall j, arr !! j <> Some (S_atom p)) -> slot arr (<[p := s]> st) k = slot arr st k.
Proof.
  intros Hp. unfold slot. destruct (arr !! k) as [[|q]|] eqn:Ek; [done| |done]. rewrite lookup_insert_ne; [done|].
  intros ->. by apply (Hp k).
Qed.

(** ** Rehashing *)

(** Strings that differ at most in [hash_next]. *)
Definition relinked (st st' : gmap nat JSString) : Prop :=
  forall p, (fun s => set_next s 0) <$> st' !! p = (fun s => set_next s 0) <$> st !! p.

Lemma relinked_refl st : relinked st st.
Proof. done. Qed.
Lemma relinked_trans a b c : relinked a b -> relinked b c -> relinked a c.
Proof. intros H1 H2 p. by rewrite H2, H1. Qed.

Lemma relinked_update st p s n : st !! p = Some s -> relinked st (<[p := set_next s n]> st).
Proof.
  intros Hs q. destruct (decide (q = p)) as [->|]; [by rewrite lookup_insert_eq, Hs|by rewrite lookup_insert_ne].
Qed.

Lemma relinked_lookup st st' p s : relinked st st' -> st !! p = Some s -> exists n, st' !! p = Some (set_next s n).
Proof.
  intros H Hs. specialize (H p). rewrite Hs in H. destruct (st' !! p) as [s'|] eqn:E; [|done].
  injection H as H1 H2 H3 H4 H5. exists (hash_next s'). f_equal. destruct s, s'. simpl in *. by subst.
Qed.

Lemma relinked_sym st st' : relinked st st' -> relinked st' st.
Proof. intros H p. by rewrite H. Qed.

Lemma relinked_slot arr st st' i s : relinked st st' -> slot arr st i = Some s -> exists n, slot arr st' i = Some (set_next s n).
Proof. unfold slot. destruct (arr !! i) as [[|p]|]; try done. apply relinked_lookup. Qed.

Lemma relinked_bk n arr st st' i : relinked st st' -> bk n arr st' i = bk n arr st i.
Proof.
  intros H. unfold bk, slot. destruct (arr !! i) as [[|p]|]; try done. specialize (H p).
  destruct (st !! p) as [s|], (st' !! p) as [s'|]; try done. injection H as H1 H2 H3 H4 H5. simpl. unfold hashed. by rewrite H3, H4.
Qed.

Lemma rehash_chain_spec arr l : forall fuel h st nh D,
  distinct arr -> power2 (length nh) -> (length l <= fuel)%nat -> chain (nx arr st) h l -> NoDup (l ++ D) ->
  Forall (fun i => is_Some (bk (length nh) arr st i)) l ->
  (exists cs, table (nx arr st) (within D (bk (length nh) arr st)) nh cs) ->
  exists st' nh', rehash_chain fuel arr h st nh = Some (st', nh') /\ relinked st st' /\ length nh' = length nh /\
    (forall i, i ∉ l -> slot arr st' i = slot arr st i) /\
    exists cs', table (nx arr st') (within (l ++ D) (bk (length nh) arr st')) nh' cs'.
Proof.
  induction l as [|i l IH]; intros fuel h st nh D Hd Hp Hf Hc Hnd Hb [cs Ht].
  { simpl in Hc. subst h. exists st, nh. split_and!; [by destruct fuel|done|done|done|by exists cs]. }
  destruct Hc as (-> & Hi & n & En & Hc). destruct fuel as [|fuel]; [simpl in Hf; lia|].
  apply NoDup_cons in Hnd as [Hil Hnd]. apply Forall_cons in Hb as [[b Hbi] Hb].
  assert (Hs : exists p s, arr !! i = Some (S_atom p) /\ st !! p = Some s /\ slot arr st i = Some s).
  { unfold nx, slot in *. destruct (arr !! i) as [[|p]|]; try done. destruct (st !! p) as [s|] eqn:Es; [|done]. by exists p, s. }
  destruct Hs as (p & s & Ei & Es & Esl). assert (n = hash_next s) as -> by (unfold nx in En; rewrite Esl in En; by injection En).
  assert (Eb : b = bucket_of (hash s) (length nh)).
  { unfold bk in Hbi. rewrite Esl in Hbi. simpl in Hbi. destruct (hashed s); [by injection Hbi|done]. }
  destruct (nh !! b) as [m|] eqn:Em; [|apply lookup_ge_None in Em; pose proof (hash_bucket_lt (hash s) _ Hp); lia].
  set (st1 := <[p := set_next s m]> st). pose proof (relinked_update st p s m Es) as Hr1.
  assert (Hnx : forall k, nx arr st1 k = if decide (k = i) then Some m else nx arr st k).
  { intros k. unfold nx, st1. rewrite (slot_insert arr st i p) by done. by case_decide. }
  assert (Hbk1 : forall n k, bk n arr st1 k = bk n arr st k) by (intros; by apply relinked_bk).
  assert (Ht1 : exists cs1, table (nx arr st1) (within (i :: D) (bk (length nh) arr st1)) (<[b := i]> nh) cs1).
  { eapply (table_insert (nx arr st) (within D (bk (length nh) arr st))); eauto.
    - unfold within. rewrite decide_False; [done|]. set_solver.
    - unfold within. rewrite decide_True by set_solver. by rewrite Hbk1.
    - intros k Hk. unfold within. rewrite Hbk1. destruct (decide (k ∈ D)), (decide (k ∈ i :: D)); set_solver.
    - by rewrite Hnx, decide_True.
    - intros k Hk _. by rewrite Hnx, decide_False. }
  destruct (IH fuel (hash_next s) st1 (<[b := i]> nh) (i :: D)) as (st' & nh' & E & Hr & Hlen & Hother & cs' & Ht').
  { done. } { by rewrite length_insert. } { simpl in Hf. lia. }
  { eapply chain_ext; [|exact Hc]. intros k Hk. rewrite Hnx, decide_False; [done|]. set_solver. }
  { rewrite <- Permutation_middle. by constructor. }
  { rewrite length_insert. eapply Forall_impl; [exact Hb|]. intros k Hk. by rewrite Hbk1. }
  { by rewrite length_insert. }
  rewrite length_insert in *. exists st', nh'. split_and!; [|by eapply relinked_trans|done|..].
  - cbn [rehash_chain]. destruct i as [|i']; [done|]. rewrite Ei, Es. simpl. rewrite <- Eb, Em. exact E.
  - intros k Hk. rewrite Hother by set_solver. unfold st1. rewrite (slot_insert arr st i p), decide_False by set_solver. done.
  - exists cs'. destruct Ht' as (A1 & A2 & A3). split_and!; [done|done|]. intros k j. rewrite <- A3. unfold within.
    destruct (decide (k ∈ (i :: l) ++ D)), (decide (k ∈ l ++ i :: D)); set_solver.
Qed.

Lemma rehash_table_spec arr old : forall cs st nh D,
  distinct arr -> power2 (length nh) -> Forall2 (chain (nx arr st)) old cs -> NoDup (concat cs ++ D) ->
  Forall (fun i => is_Some (bk (length nh) arr st i)) (concat cs) ->
  Forall (fun i => i < length arr)%nat (concat cs) ->
  (exists cs0, table (nx arr st) (within D (bk (length nh) arr st)) nh cs0) ->
  exists st' nh' cs', rehash arr old st nh = Some (st', nh') /\ relinked st st' /\ length nh' = length nh /\
    (forall i, i ∉ concat cs -> slot arr st' i = slot arr st i) /\
    table (nx arr st') (within (concat cs ++ D) (bk (length nh) arr st')) nh' cs'.
Proof.
  induction old as [|h old IH]; intros cs st nh D Hd Hp Hc Hnd Hb Hlt Ht.
  { destruct Ht as [cs0 Ht]. inv_subst Hc. exists st, nh, cs0. by split_and!. }
  destruct cs as [|c cs]; [inversion Hc|]. apply Forall2_cons in Hc as [Hc1 Hc2]. simpl in *. rewrite <- (assoc_L (++)) in Hnd.
  apply Forall_app in Hb as [Hb1 Hb2], Hlt as [Hlt1 Hlt2]. pose proof Hnd as (Hndc & Hdisj & Hnd2)%NoDup_app.
  destruct (rehash_chain_spec arr c (length arr) h st nh D) as (st1 & nh1 & E1 & Hr1 & Hl1 & Ho1 & Ht1); try done.
  { by apply NoDup_below. }
  { apply NoDup_app. split_and!; [done| |by apply NoDup_app in Hnd2 as (_ & _ & ?)]. intros i Hi HD. apply (Hdisj i Hi). set_solver. }
  rewrite <- Hl1 in *.
  destruct (IH cs st1 nh1 (c ++ D)) as (st' & nh' & cs' & E & Hr & Hl & Ho & Ht'); try done.
  { apply Forall2_same_length_lookup. split; [by eapply Forall2_length|]. intros j h' c' Ej Ej'.
    eapply chain_ext; [|eapply Forall2_lookup_lr; eauto]. intros i Hi. unfold nx. rewrite Ho1; [done|]. intros Hic. apply (Hdisj i Hic).
    apply elem_of_app. left. apply list_elem_of_In, in_concat. exists c'. split; apply list_elem_of_In; [|done].
    by eapply list_elem_of_lookup_2. }
  { by rewrite (assoc_L (++)), (Permutation_app_comm (concat cs) c), <- (assoc_L (++)). }
  { eapply Forall_impl; [exact Hb2|]. intros i. by rewrite (relinked_bk _ _ st st1). }
  exists st', nh', cs'. split_and!; [|by eapply relinked_trans|done|..].
  - cbn [rehash]. rewrite E1. exact E.
  - intros i Hi. rewrite Ho by set_solver. apply Ho1. set_solver.
  - destruct Ht' as (A1 & A2 & A3). split_and!; [done|done|]. intros k j. rewrite <- A3.
    f_equiv. apply within_ext. set_solver.
Qed.

(** ** The invariant *)

(** A registered string at index [i]. *)
Definition slot_ok (i : nat) (s : JSString) : Prop :=
  (atom_type s = JS_ATOM_TYPE_SYMBOL /\ hash_next s = i /\ (hash s = 0 \/ hash s = JS_ATOM_HASH_PRIVATE)) \/
  ((atom_type s = JS_ATOM_TYPE_STRING \/ atom_type s = JS_ATOM_TYPE_GLOBAL_SYMBOL) /\
   hash s = Z.land (hash_string (chars s) (atom_type s)) JS_ATOM_HASH_MASK).

Definition is_atom (x : atom_slot) : bool := match x with S_atom _ => true | S_free _ => false end.
Definition natoms (arr : list atom_slot) : Z := Z.of_nat (length (filter (fun x => is_atom x = true) arr)).

Record atoms_ok (rt : JSRuntime) : Prop := {
  ao_size : power2 (length (atom_hash rt));
  ao_table : exists cs, table (nx (atom_array rt) (strings rt)) (bk (length (atom_hash rt)) (atom_array rt) (strings rt)) (atom_hash rt) cs;
  ao_free : exists fl, chain (nx_free (atom_array rt)) (atom_free_index rt) fl /\ NoDup fl /\
    forall i, i ∈ fl <-> exists n, atom_array rt !! i = Some (S_free n);
  ao_slot : forall i p, atom_array rt !! i = Some (S_atom p) -> exists s, strings rt !! p = Some s /\ slot_ok i s;
  ao_inj : distinct (atom_array rt);
  ao_home : forall p s, strings rt !! p = Some s -> atom_type s <> 0 -> exists i, atom_array rt !! i = Some (S_atom p);
  ao_unique : forall i j s t, slot (atom_array rt) (strings rt) i = Some s -> slot (atom_array rt) (strings rt) j = Some t ->
    hashed s = true -> atom_type s = atom_type t -> chars s = chars t -> i = j;
  ao_clock : forall p s, strings rt !! p = Some s -> (p < clock rt)%nat;
  ao_count : atom_count rt = natoms (atom_array rt);
}.

(** The references held by the rest of the program, as a multiset of
    strings: an atom with an entry is a reference to its string, like a
    string or symbol value.  The predefined atoms hold one more. *)
Definition pin (arr : list atom_slot) (p : nat) : Z := Z.b2z (bool_decide (S_atom p ∈ take JS_ATOM_END arr)).

Record refs_ok (rt : JSRuntime) (held : list nat) : Prop := {
  ro_count : forall p s, strings rt !! p = Some s -> ref_count s = countZ p held + pin (atom_array rt) p /\ 0 < ref_count s;
  ro_live : forall p, p ∈ held -> is_Some (strings rt !! p);
}.

Definition good (rt : JSRuntime) (held : list nat) : Prop := atoms_ok rt /\ refs_ok rt held.

(** What an atom stands for: symbols by their index. *)
Definition content (rt : JSRuntime) (i : nat) : option (Z * list Z) :=
  s ← slot (atom_array rt) (strings rt) i; Some (atom_type s, chars s).

Lemma get_atom_slot rt i p s : get_atom rt i = Some (p, s) <->
  atom_array rt !! i = Some (S_atom p) /\ strings rt !! p = Some s.
Proof.
  unfold get_atom. destruct (atom_array rt !! i) as [[|q]|]; try naive_solver.
  destruct (strings rt !! q) as [t|] eqn:E; simpl; naive_solver.
Qed.

Lemma slot_get rt i s : slot (atom_array rt) (strings rt) i = Some s ->
  exists p, get_atom rt i = Some (p, s) /\ atom_array rt !! i = Some (S_atom p) /\ strings rt !! p = Some s.
Proof. unfold slot, get_atom. destruct (atom_array rt !! i) as [[|p]|]; try done. intros E. exists p. rewrite E. by split_and!. Qed.

Lemma slot_Some (rt : JSRuntime) i p s : atom_array rt !! i = Some (S_atom p) -> strings rt !! p = Some s ->
  slot (atom_array rt) (strings rt) i = Some s.
Proof. unfold slot. by intros -> ->. Qed.

(** ** Changing strings only

    An update of the store that keeps what the table depends on. *)
Lemma natoms_pos arr i p : arr !! i = Some (S_atom p) -> 0 < natoms arr.
Proof.
  intros Hi. unfold natoms. assert (H : S_atom p ∈ filter (fun x => is_atom x = true) arr).
  { apply list_elem_of_filter. split; [done|]. by eapply list_elem_of_lookup_2. }
  destruct (filter _ arr); [by apply elem_of_nil in H|simpl; lia].
Qed.

(** Reference counts are not part of the table. *)
Lemma set_ref_ok rt p s n : atoms_ok rt -> strings rt !! p = Some s ->
  atoms_ok (set_strings rt (<[p := set_ref s n]> (strings rt))).
Proof.
  intros [H1 [cs H2] H3 H4 H5 H6 H7 H8 H9] Hs. set (st := <[p := set_ref s n]> (strings rt)).
  assert (Hsl : forall i, slot (atom_array rt) st i = slot (atom_array rt) (strings rt) i \/
    slot (atom_array rt) st i = Some (set_ref s n) /\ slot (atom_array rt) (strings rt) i = Some s).
  { intros i. unfold slot, st. destruct (atom_array rt !! i) as [[|q]|]; auto. destruct (decide (q = p)) as [->|].
    - right. by rewrite lookup_insert_eq, Hs.
    - left. by rewrite lookup_insert_ne. }
  split; simpl; try done.
  - exists cs. eapply table_ext; [| |exact H2]; intros i; unfold nx, bk; destruct (Hsl i) as [->|[-> ->]]; done.
  - intros i q Hi. destruct (H4 i q Hi) as (t & Ht & Hok). unfold st. destruct (decide (q = p)) as [->|].
    + rewrite lookup_insert_eq. exists (set_ref s n). simplify_eq. done.
    + rewrite lookup_insert_ne by done. eauto.
  - intros q t Ht Hty. unfold st in Ht. destruct (decide (q = p)) as [->|].
    + rewrite lookup_insert_eq in Ht. simplify_eq. eauto.
    + rewrite lookup_insert_ne in Ht by done. eauto.
  - intros i j a b Ha Hb. destruct (Hsl i) as [Ei|[Ei Ei']], (Hsl j) as [Ej|[Ej Ej']]; rewrite Ei in Ha; rewrite Ej in Hb; simplify_eq.
    + intros. by eapply (H7 i j).
    + intros. by eapply (H7 i j).
    + intros. by eapply (H7 i j).
    + intros. by eapply (H7 i j).
  - intros q t Ht. unfold st in Ht. destruct (decide (q = p)) as [->|].
    + eauto.
    + rewrite lookup_insert_ne in Ht by done. eauto.
Qed.

(** ** Resizing

    Relinking changes neither the content of the table nor its users. *)
Lemma relinked_ok rt hs st r n : atoms_ok rt -> relinked (strings rt) st -> power2 (length hs) -> (clock rt <= n)%nat ->
  (forall i s, slot (atom_array rt) (strings rt) i = Some s -> hashed s = false -> slot (atom_array rt) st i = Some s) ->
  (exists cs, table (nx (atom_array rt) st) (bk (length hs) (atom_array rt) st) hs cs) ->
  atoms_ok (mkRuntime hs (atom_count rt) r (atom_array rt) (atom_free_index rt) st n).
Proof.
  intros [H1 _ H3 H4 H5 H6 H7 H8 H9] Hr Hp Hn Hsym Ht. split; simpl; try done.
  - intros i p Hi. destruct (H4 i p Hi) as (s & Hs & Hok). destruct (relinked_lookup _ _ _ _ Hr Hs) as [m Hm].
    destruct Hok as [Hok|Hok]; [|exists (set_next s m); split; [done|by right]].
    exists s. assert (Hsl : slot (atom_array rt) st i = Some s).
    { apply Hsym; [by eapply slot_Some|]. destruct Hok as [Hty _]. unfold hashed. by rewrite Hty. }
    unfold slot in Hsl. rewrite Hi in Hsl. split; [done|by left].
  - intros p s Hs Hty. destruct (relinked_lookup _ _ _ _ (relinked_sym _ _ Hr) Hs) as [m Hm]. by apply (H6 p _ Hm).
  - intros i j s t Hi Hj. destruct (relinked_slot _ _ _ _ _ (relinked_sym _ _ Hr) Hi) as [m Hm].
    destruct (relinked_slot _ _ _ _ _ (relinked_sym _ _ Hr) Hj) as [m' Hm']. apply (H7 i j _ _ Hm Hm').
  - intros p s Hs. destruct (relinked_lookup _ _ _ _ (relinked_sym _ _ Hr) Hs) as [m Hm]. specialize (H8 p _ Hm). lia.
Qed.

Section resize.
Context (mem : nat -> bool).

Lemma resize_ok rt n : atoms_ok rt -> power2 n ->
  exists rt', JS_ResizeAtomHash mem rt n = Some rt' /\ atoms_ok rt' /\ atom_array rt' = atom_array rt /\
    relinked (strings rt) (strings rt') /\ (clock rt <= clock rt')%nat.
Proof.
  intros Hok Hn. pose proof Hok as [H1 [cs H2] H3 H4 H5 H6 H7 H8 H9]. unfold JS_ResizeAtomHash. destruct (mem (clock rt)).
  2: { exists (tick rt). split_and!; try done; [|simpl; lia]. split; try done; simpl; [by exists cs|]. intros p s Hp. specialize (H8 p s Hp). lia. }
  pose proof H2 as (T1 & T2 & T3). set (arr := atom_array rt) in *. set (st := strings rt) in *.
  assert (Hin : forall i, i ∈ concat cs <-> is_Some (bk (length (atom_hash rt)) arr st i)).
  { intros i. rewrite elem_of_concat. split; [intros (j & c & Hj & Hi); exists j; apply T3; eauto|].
    intros [j Hj]. apply T3 in Hj as (c & Hc & Hi). eauto. }
  assert (Hbk : forall m i, is_Some (bk (length (atom_hash rt)) arr st i) <-> is_Some (bk m arr st i)).
  { intros m i. unfold bk. destruct (slot arr st i) as [s|]; simpl; [|done]. by destruct (hashed s). }
  assert (Hlt : forall m i, is_Some (bk m arr st i) -> (i < length arr)%nat).
  { intros m i. unfold bk, slot. destruct (arr !! i) as [[|p]|] eqn:Ei; simpl; [by intros []|intros _; by eapply lookup_lt_Some|by intros []]. }
  destruct (rehash_table_spec arr (atom_hash rt) cs st (replicate n 0%nat) []) as (st' & nh' & cs' & E & Hr & Hl & Ho & Ht).
  - done.
  - by rewrite length_replicate.
  - done.
  - rewrite app_nil_r. apply NoDup_concat; [done|]. intros j j' c c' i Hj Hj' Hi Hi'.
    assert (bk (length (atom_hash rt)) arr st i = Some j) by (apply T3; eauto).
    assert (bk (length (atom_hash rt)) arr st i = Some j') by (apply T3; eauto). congruence.
  - apply Forall_forall. intros i Hi. apply Hbk, Hin, Hi.
  - apply Forall_forall. intros i Hi. eapply Hlt, Hin, Hi.
  - eexists. apply table_empty. intros i. unfold within. by rewrite decide_False by set_solver.
  - rewrite E. simpl. eexists. split_and!; [done|..]; simpl; [|done|done|lia].
    rewrite length_replicate in *. apply (relinked_ok rt); [done|done|by rewrite Hl|simpl; lia|..].
    + intros i s Hi Hs. rewrite Ho; [done|]. rewrite Hin. intros [j Hj]. unfold bk in Hj. fold arr st in Hi. rewrite Hi in Hj. simpl in Hj. by rewrite Hs in Hj.
    + exists cs'. rewrite Hl. eapply table_ext; [| |exact Ht]; [done|]. intros i. unfold within. rewrite app_nil_r.
      case_decide as Hi; [done|]. rewrite Hin, (Hbk n) in Hi. rewrite (relinked_bk _ _ st st') by done.
      by apply eq_None_not_Some.
Qed.

End resize.

(** ** Searching a chain *)

Definition matches (rt : JSRuntime) (h ty : Z) (str : list Z) (i : nat) : Prop :=
  exists s, slot (atom_array rt) (strings rt) i = Some s /\ hash s = h /\ atom_type s = ty /\ chars s = str.

Lemma nx_slot rt i n : nx (atom_array rt) (strings rt) i = Some n ->
  exists s, slot (atom_array rt) (strings rt) i = Some s /\ hash_next s = n.
Proof. unfold nx. destruct (slot _ _ i) as [s|]; [|done]. intros [= <-]. eauto. Qed.

Lemma find_loop_spec rt str h ty l : forall fuel i, (length l <= fuel)%nat -> chain (nx (atom_array rt) (strings rt)) i l ->
  exists r, find_loop fuel rt str h ty i = Some r /\
    (r = 0%nat /\ Forall (fun k => ~ matches rt h ty str k) l \/ r ∈ l /\ matches rt h ty str r).
Proof.
  induction l as [|i l IH]; intros fuel i0 Hf Hc.
  { simpl in Hc. subst. exists 0%nat. split; [by destruct fuel|]. by left. }
  destruct Hc as (-> & Hi & n & En & Hc). destruct fuel as [|fuel]; [simpl in Hf; lia|].
  apply nx_slot in En as (s & Es & <-). destruct (slot_get rt i s Es) as (p & Eg & _).
  cbn [find_loop]. destruct i as [|i']; [done|]. set (i := S i') in *. rewrite Eg. cbn [mbind option_bind].
  assert (Hm : (hash s =? h) && (atom_type s =? ty) && (length (chars s) =? length str)%nat && same_chars (chars s) str = true
    <-> matches rt h ty str i).
  { unfold matches, same_chars. rewrite !andb_true_iff, !Z.eqb_eq, Nat.eqb_eq, bool_decide_eq_true. rewrite Es. naive_solver. }
  destruct (_ && same_chars _ _).
  - exists i. split; [done|]. right. split; [by left|]. by apply Hm.
  - destruct (IH fuel (hash_next s) ltac:(simpl in Hf; lia) Hc) as (r & E & Hr). exists r. split; [done|].
    destruct Hr as [[-> Hr]|[Hr Hr']]; [left|right; by split; [right|]]. split; [done|]. constructor; [|done]. rewrite <- Hm. done.
Qed.

Lemma index_loop_spec rt p l : forall fuel i k, distinct (atom_array rt) -> (length l <= fuel)%nat ->
  chain (nx (atom_array rt) (strings rt)) i l -> k ∈ l -> atom_array rt !! k = Some (S_atom p) ->
  index_loop fuel rt p i = Some k.
Proof.
  induction l as [|i l IH]; intros fuel i0 k Hd Hf Hc Hk Hp; [by apply elem_of_nil in Hk|].
  destruct Hc as (-> & Hi & n & En & Hc). destruct fuel as [|fuel]; [simpl in Hf; lia|].
  apply nx_slot in En as (s & Es & <-). destruct (slot_get rt i s Es) as (q & Eg & Eq & _).
  cbn [index_loop]. rewrite Eg. cbn [mbind option_bind]. destruct (Nat.eqb_spec q p) as [->|Hne].
  - f_equal. by apply (Hd i k p).
  - destruct (Nat.eqb_spec i 0); [done|]. apply elem_of_cons in Hk as [->|Hk]; [congruence|].
    apply IH; [done|simpl in Hf; lia|done..].
Qed.

(** The chain of an entry, with room in the array for all of it. *)
Lemma bucket_chain rt i s : atoms_ok rt -> slot (atom_array rt) (strings rt) i = Some s -> hashed s = true ->
  exists h c, atom_hash rt !! bucket_of (hash s) (length (atom_hash rt)) = Some h /\ i ∈ c /\
    chain (nx (atom_array rt) (strings rt)) h c /\ NoDup c /\ (length c <= length (atom_array rt))%nat /\
    exists cs, table (nx (atom_array rt) (strings rt)) (bk (length (atom_hash rt)) (atom_array rt) (strings rt)) (atom_hash rt) cs /\
      cs !! bucket_of (hash s) (length (atom_hash rt)) = Some c.
Proof.
  intros [H1 [cs H2] _ _ _ _ _ _ _] Hi Hs. set (j := bucket_of _ _).
  assert (Hb : bk (length (atom_hash rt)) (atom_array rt) (strings rt) i = Some j) by (unfold bk; rewrite Hi; simpl; by rewrite Hs).
  destruct (atom_hash rt !! j) as [h|] eqn:Ej; [|apply lookup_ge_None in Ej; pose proof (table_lt _ _ _ _ _ _ H2 Hb); lia].
  destruct (table_bucket _ _ _ _ _ _ H2 Ej) as (c & Ec & Hc & Hn). exists h, c.
  assert (Hic : i ∈ c) by (apply H2 in Hb as (c' & Ec' & Hic); congruence).
  split_and!; try done; [|eauto]. apply NoDup_below; [done|]. apply Forall_forall. intros k Hk.
  assert (Hbk : bk (length (atom_hash rt)) (atom_array rt) (strings rt) k = Some j) by (apply H2; eauto).
  unfold bk, slot in Hbk. destruct (atom_array rt !! k) eqn:Ek; [|done]. by eapply lookup_lt_Some.
Qed.

Lemma slot_hashed i s : slot_ok i s -> hashed s = true ->
  (atom_type s = JS_ATOM_TYPE_STRING \/ atom_type s = JS_ATOM_TYPE_GLOBAL_SYMBOL) /\
  hash s = Z.land (hash_string (chars s) (atom_type s)) JS_ATOM_HASH_MASK.
Proof. unfold hashed. intros [(Ht & _)|H] Hs; [by rewrite Ht in Hs|done]. Qed.

Lemma slot_is_ok rt i s : atoms_ok rt -> slot (atom_array rt) (strings rt) i = Some s -> slot_ok i s.
Proof.
  intros Hok Hs. destruct (slot_get rt i s Hs) as (p & _ & Hp & Hs'). destruct (ao_slot _ Hok i p Hp) as (t & Ht & Hto). congruence.
Qed.

(** Looking up a string of a hashed type finds its atom, if any. *)
Lemma lookup_spec rt str ty : atoms_ok rt -> ty = JS_ATOM_TYPE_STRING \/ ty = JS_ATOM_TYPE_GLOBAL_SYMBOL ->
  let h := Z.land (hash_string str ty) JS_ATOM_HASH_MASK in
  exists i0 r, atom_hash rt !! bucket_of h (length (atom_hash rt)) = Some i0 /\
    find_loop (length (atom_array rt)) rt str h ty i0 = Some r /\
    (r = 0%nat /\ (forall i, content rt i <> Some (ty, str)) \/ r <> 0%nat /\ content rt r = Some (ty, str)).
Proof.
  intros Hok Hty h. destruct Hok as [H1 [cs H2] H3 H4 H5 H6 H7 H8 H9] eqn:EH. clear EH.
  pose proof (hash_bucket_lt h _ H1) as Hlt. destruct (lookup_lt_is_Some_2 _ _ Hlt) as [i0 E0].
  destruct (table_bucket _ _ _ _ _ _ H2 E0) as (c & Ec & Hc & Hn).
  assert (Hlen : (length c <= length (atom_array rt))%nat).
  { apply NoDup_below; [done|]. apply Forall_forall. intros k Hk.
    assert (Hbk : bk (length (atom_hash rt)) (atom_array rt) (strings rt) k = Some (bucket_of h (length (atom_hash rt)))) by (apply H2; eauto).
    unfold bk, slot in Hbk. destruct (atom_array rt !! k) eqn:Ek; [|done]. by eapply lookup_lt_Some. }
  destruct (find_loop_spec rt str h ty c (length (atom_array rt)) i0 Hlen Hc) as (r & Er & Hr).
  exists i0, r. split_and!; [done|done|]. destruct Hr as [[-> Hr]|[Hr (s & Es & _ & E2 & E3)]].
  - left. split; [done|]. intros i Hi. unfold content in Hi. destruct (slot _ _ i) as [s|] eqn:Es; [|done]. simpl in Hi. injection Hi as Et Ech.
    assert (Hh : hashed s = true) by (unfold hashed; rewrite Et; by destruct Hty; subst).
    destruct (slot_hashed i s (slot_is_ok rt i s Hok Es) Hh) as [_ Eh]. rewrite Et, Ech in Eh. fold h in Eh.
    rewrite Forall_forall in Hr. apply (Hr i); [|by exists s].
    assert (Hb : bk (length (atom_hash rt)) (atom_array rt) (strings rt) i = Some (bucket_of h (length (atom_hash rt))))
      by (unfold bk; rewrite Es; simpl; by rewrite Hh, Eh).
    apply H2 in Hb as (c' & Ec' & Hic). congruence.
  - right. split; [by eapply chain_nonzero|]. unfold content. rewrite Es. simpl. by rewrite E2, E3.
Qed.

(** ** Releasing an entry *)

Lemma unlink_loop_spec rt p i s k c2 : distinct (atom_array rt) -> atom_array rt !! i = Some (S_atom p) -> strings rt !! p = Some s ->
  forall c1 fuel h, chain (nx (atom_array rt) (strings rt)) h (c1 ++ k :: i :: c2) -> i ∉ c1 ++ [k] -> (length c1 < fuel)%nat ->
  exists q t, atom_array rt !! k = Some (S_atom q) /\ strings rt !! q = Some t /\
    unlink_loop fuel rt p h = Some (i, <[q := set_next t (hash_next s)]> (strings rt)).
Proof.
  intros Hd Hi Hs. assert (Eg : get_atom rt i = Some (p, s)) by by apply get_atom_slot.
  induction c1 as [|a c1 IH]; intros fuel h Hc Hn Hf; (destruct fuel as [|fuel]; [simpl in Hf; lia|]).
  - destruct Hc as (-> & Hk & n & En & Hc). apply nx_slot in En as (t & Et & <-).
    destruct (slot_get rt k t Et) as (q & Egk & Eq & Etq). exists q, t. split_and!; [done|done|].
    destruct Hc as (Hni & _). cbn [unlink_loop]. destruct (Nat.eqb_spec k 0); [done|]. rewrite Egk. cbn [mbind option_bind].
    rewrite Hni, Eg. cbn [mbind option_bind]. by rewrite Nat.eqb_refl.
  - destruct Hc as (-> & Ha & n & En & Hc). apply nx_slot in En as (t0 & Et0 & <-).
    destruct (slot_get rt a t0 Et0) as (q0 & Ega & _). simpl in Hn. apply not_elem_of_cons in Hn as [Hna Hn].
    destruct (IH fuel (hash_next t0) Hc Hn ltac:(simpl in Hf; lia)) as (q & t & Eq & Et & E). exists q, t. split_and!; [done|done|].
    cbn [unlink_loop]. destruct (Nat.eqb_spec a 0); [done|]. rewrite Ega. cbn [mbind option_bind].
    assert (Hm : hash_next t0 <> i /\ is_Some (nx (atom_array rt) (strings rt) (hash_next t0))).
    { destruct c1 as [|m c1]; destruct Hc as (-> & _ & n1 & En1 & _); (split; [set_solver|by eexists]). }
    destruct Hm as [Hmi [m Hm]]. apply nx_slot in Hm as (t1 & Et1 & _). destruct (slot_get rt _ t1 Et1) as (q1 & Eg1 & Eq1 & _).
    rewrite Eg1. cbn [mbind option_bind]. destruct (Nat.eqb_spec q1 p) as [->|]; [|done]. by destruct Hmi; apply (Hd _ _ p).
Qed.

(** [unlink_atom] as a whole: the strings are relinked, and the table that
    results is one of the other entries. *)
Lemma unlink_atom_spec rt i p s : atoms_ok rt -> atom_array rt !! i = Some (S_atom p) -> strings rt !! p = Some s ->
  exists hs st cs, unlink_atom rt p s = Some (i, hs, st) /\ relinked (strings rt) st /\ length hs = length (atom_hash rt) /\
    (forall k t, slot (atom_array rt) (strings rt) k = Some t -> hashed t = false -> slot (atom_array rt) st k = Some t) /\
    table (nx (atom_array rt) st) (others i (bk (length (atom_hash rt)) (atom_array rt) st)) hs cs.
Proof.
  intros Hok Hi Hs. pose proof (slot_Some rt i p s Hi Hs) as Esl. pose proof (ao_inj _ Hok) as Hd.
  pose proof (slot_is_ok rt i s Hok Esl) as Hso. unfold unlink_atom. destruct (hashed s) eqn:Hh.
  2: { assert (Ety : atom_type s = JS_ATOM_TYPE_SYMBOL).
       { unfold hashed in Hh. apply Z.ltb_ge in Hh. destruct Hso as [[? _]|[[E|E] _]]; [done|rewrite E in Hh; by vm_compute in Hh..]. }
       destruct Hso as [(_ & Hnx & _)|[[E|E] _]]; [|rewrite E in Ety; done..]. destruct (ao_table _ Hok) as [cs Ht].
       exists (atom_hash rt), (strings rt), cs. rewrite Ety. cbn [Z.eqb]. rewrite Z.eqb_refl, Hnx. split_and!; try done.
       eapply table_ext; [| |exact Ht]; [done|]. intros k. unfold others. case_decide; [|done]. subst. unfold bk. rewrite Esl. simpl. by rewrite Hh. }
  destruct (slot_hashed _ _ Hso Hh) as [Hty _]. assert (atom_type s =? JS_ATOM_TYPE_SYMBOL = false) as -> by (destruct Hty as [-> | ->]; done).
  destruct (bucket_chain rt i s Hok Esl Hh) as (h & c & Eh & Hic & Hc & Hnd & Hlen & cs & Ht & Ecs). set (j := bucket_of _ _) in *.
  apply list_elem_of_split in Hic as (c1 & c2 & ->). rewrite Eh. cbn [mbind option_bind].
  assert (Hn12 : i ∉ c1 /\ i ∉ c2).
  { apply NoDup_app in Hnd as (_ & Hd1 & Hn2). apply NoDup_cons in Hn2 as [? _]. split; [|done]. intros H1. apply (Hd1 i H1). by left. }
  destruct Hn12 as [Hn1 Hn2].
  assert (Hb : forall st, relinked (strings rt) st -> forall k, others i (bk (length (atom_hash rt)) (atom_array rt) st) k =
    if decide (k = i) then None else bk (length (atom_hash rt)) (atom_array rt) (strings rt) k).
  { intros st Hr k. unfold others. case_decide; [done|]. by apply relinked_bk. }
  destruct (decide (c1 = [])) as [->|Hc1].
  - destruct Hc as (-> & Hi0 & n & En & Hc). apply nx_slot in En as (s' & Es' & <-). rewrite Esl in Es'. injection Es' as <-.
    assert (get_atom rt i = Some (p, s)) as -> by by apply get_atom_slot. cbn [mbind option_bind]. rewrite Nat.eqb_refl.
    exists (<[j := hash_next s]> (atom_hash rt)), (strings rt), (<[j := [] ++ c2]> cs). split_and!; [done|done|by rewrite length_insert|done|].
    eapply (table_remove (nx (atom_array rt) (strings rt)) (bk (length (atom_hash rt)) (atom_array rt) (strings rt)) _ _ _ _ i j [] c2); try done.
    + by rewrite Hb, decide_True.
    + intros k Hk. by rewrite Hb, decide_False.
  - destruct (exists_last Hc1) as (c0 & k & ->). rewrite <- (assoc_L (++)) in *. simpl in *.
    assert (Hhead : exists p1 s1, get_atom rt h = Some (p1, s1) /\ p1 <> p).
    { assert (Hhk : h ∈ c0 ++ [k] /\ is_Some (nx (atom_array rt) (strings rt) h)).
      { destruct c0 as [|a c0]; destruct Hc as (-> & _ & n & En & _); (split; [set_solver|by eexists]). }
      destruct Hhk as [Hhk [m Hm]]. apply nx_slot in Hm as (s1 & Es1 & _). destruct (slot_get rt h s1 Es1) as (p1 & Eg1 & Ep1 & _).
      exists p1, s1. split; [done|]. intros ->. by assert (h = i) as -> by by apply (Hd h i p). }
    destruct Hhead as (p1 & s1 & -> & Hp1). cbn [mbind option_bind]. destruct (Nat.eqb_spec p1 p); [done|].
    destruct (unlink_loop_spec rt p i s k c2 Hd Hi Hs c0 (length (atom_array rt)) h Hc Hn1) as (q & t & Eq & Et & ->).
    { rewrite length_app in Hlen. simpl in Hlen. lia. }
    cbn [mbind option_bind]. set (st := <[q := _]> _). assert (Hr : relinked (strings rt) st) by by apply relinked_update.
    assert (Hsl : forall a, slot (atom_array rt) st a = if decide (a = k) then Some (set_next t (hash_next s)) else slot (atom_array rt) (strings rt) a)
      by (intros a; by apply slot_insert).
    assert (Htk : slot (atom_array rt) (strings rt) k = Some t) by by eapply slot_Some.
    assert (Hbk : bk (length (atom_hash rt)) (atom_array rt) (strings rt) k = Some j) by (apply Ht; eexists; split; [done|]; set_solver).
    exists (<[j := h]> (atom_hash rt)), st, (<[j := (c0 ++ [k]) ++ c2]> cs). split_and!.
    + by rewrite list_insert_id.
    + done.
    + by rewrite length_insert.
    + intros a t' Ha Ht'. rewrite Hsl. case_decide; [|done]. subst. rewrite Htk in Ha. injection Ha as ->.
      unfold bk in Hbk. rewrite Htk in Hbk. simpl in Hbk. by rewrite Ht' in Hbk.
    + eapply (table_remove (nx (atom_array rt) (strings rt)) (bk (length (atom_hash rt)) (atom_array rt) (strings rt)) _ _ _ _ i j (c0 ++ [k]) c2); try done.
      * by rewrite <- (assoc_L (++)).
      * by rewrite Hb, decide_True.
      * intros a Ha. by rewrite Hb, decide_False.
      * intros a m Ha Hm Hmj. unfold nx. rewrite Hsl, decide_False; [done|]. congruence.
      * rewrite <- (assoc_L (++)). simpl. destruct (chain_app _ c0 h _ Hc) as (m & Hm & Hrep). apply Hrep.
        { intros a Ha. unfold nx. rewrite Hsl, decide_False; [done|]. intros ->. apply NoDup_app in Hnd as (_ & Hd1 & _). apply (Hd1 k Ha). by left. }
        destruct Hm as (-> & Hk0 & n1 & En & (-> & Hi0 & n' & En' & Hc2)). split_and!; [done|done|]. exists (hash_next s).
        unfold nx at 1. rewrite Hsl, decide_True by done. split; [done|]. apply nx_slot in En' as (s' & Es' & <-).
        rewrite Esl in Es'. injection Es' as <-. eapply chain_ext; [|exact Hc2]. intros a Ha. unfold nx. rewrite Hsl, decide_False; [done|].
        intros ->. apply NoDup_app in Hnd as (_ & _ & Hd2). apply NoDup_cons in Hd2 as [Hk2 _]. set_solver.
Qed.

Lemma natoms_insert arr i x y : arr !! i = Some x ->
  natoms (<[i := y]> arr) = natoms arr - Z.b2z (is_atom x) + Z.b2z (is_atom y).
Proof.
  intros Hi. rewrite insert_take_drop by (by eapply lookup_lt_Some). rewrite <- (take_drop_middle arr i x Hi) at 3.
  unfold natoms. rewrite !filter_app, !filter_cons, !length_app. destruct x, y; simpl; lia.
Qed.

Lemma slot_freed arr st i p f k : distinct arr -> arr !! i = Some (S_atom p) ->
  slot (<[i := S_free f]> arr) (delete p st) k = if decide (k = i) then None else slot arr st k.
Proof.
  intros Hd Hi. unfold slot. case_decide as Hk.
  - subst. by rewrite list_lookup_insert_eq by (by eapply lookup_lt_Some).
  - rewrite list_lookup_insert_ne by done. destruct (arr !! k) as [[|q]|] eqn:Ek; [done| |done].
    rewrite lookup_delete_ne; [done|]. intros ->. by apply Hk, (Hd k i q).
Qed.

Lemma free_list_push arr f fl i p : chain (nx_free arr) f fl -> NoDup fl -> (forall k, k ∈ fl <-> exists n, arr !! k = Some (S_free n)) ->
  arr !! i = Some (S_atom p) -> i <> 0%nat ->
  exists fl', chain (nx_free (<[i := S_free f]> arr)) i fl' /\ NoDup fl' /\
    forall k, k ∈ fl' <-> exists n, <[i := S_free f]> arr !! k = Some (S_free n).
Proof.
  intros Hc Hn Hm Hi Hi0. pose proof (lookup_lt_Some _ _ _ Hi) as Hlt.
  assert (Hni : i ∉ fl) by (rewrite Hm; intros [n Hn']; congruence). exists (i :: fl). split_and!.
  - split_and!; [done|done|]. exists f. unfold nx_free at 1. rewrite list_lookup_insert_eq by done. split; [done|].
    eapply chain_ext; [|exact Hc]. intros k Hk. unfold nx_free. rewrite list_lookup_insert_ne; [done|]. intros ->. done.
  - by constructor.
  - intros k. rewrite elem_of_cons, Hm. destruct (decide (k = i)) as [->|Hne].
    + rewrite list_lookup_insert_eq by done. split; eauto.
    + rewrite list_lookup_insert_ne by done. naive_solver.
Qed.

Lemma free_atom_struct_ok rt i p s : atoms_ok rt -> atom_array rt !! i = Some (S_atom p) -> strings rt !! p = Some s -> i <> 0%nat ->
  exists rt', JS_FreeAtomStruct rt p = Some rt' /\ atoms_ok rt' /\
    atom_array rt' = <[i := S_free (atom_free_index rt)]> (atom_array rt) /\
    relinked (delete p (strings rt)) (strings rt') /\ clock rt' = clock rt.
Proof.
  intros Hok Hi Hs Hi0. destruct (unlink_atom_spec rt i p s Hok Hi Hs) as (hs & st & cs & E & Hr & Hl & Hsym & Ht).
  pose proof (slot_Some rt i p s Hi Hs) as Esl. pose proof (slot_is_ok rt i s Hok Esl) as Hso.
  destruct Hok as [H1 _ (fl & F1 & F2 & F3) H4 Hd H6 H7 H8 H9]. pose proof (lookup_lt_Some _ _ _ Hi) as Hlt.
  unfold JS_FreeAtomStruct. rewrite Hs. cbn [mbind option_bind]. rewrite E. cbn [mbind option_bind].
  destruct (Nat.ltb_spec i (length (atom_array rt))); [|lia]. cbn [negb].
  assert ((atom_type s =? JS_ATOM_TYPE_SYMBOL) && negb (hash s =? JS_ATOM_HASH_PRIVATE) && negb (hash s =? 0) = false) as ->.
  { destruct Hso as [(-> & _ & [-> | ->])|[[-> | ->] _]]; done. }
  pose proof (natoms_pos _ _ _ Hi). destruct (Z.ltb_spec (atom_count rt - 1) 0); [lia|]. eexists. split; [done|].
  pose proof (fun k => slot_freed (atom_array rt) st i p (atom_free_index rt) k Hd Hi) as Hslot.
  assert (Hslr : forall k t, slot (atom_array rt) st k = Some t -> exists m, slot (atom_array rt) (strings rt) k = Some (set_next t m))
    by (intros k t; apply relinked_slot; by apply relinked_sym).
  split_and!; simpl; [|done|by intros q; destruct (decide (q = p)) as [->|]; [rewrite !lookup_delete_eq|rewrite !lookup_delete_ne by done; apply Hr]|done].
  split; simpl.
  - by rewrite Hl.
  - exists cs. rewrite Hl. eapply table_ext; [| |exact Ht].
    + intros k. unfold others. case_decide; [by intros []|]. intros _. unfold nx. by rewrite Hslot, decide_False.
    + intros k. unfold others, bk. rewrite Hslot. by case_decide.
  - by apply (free_list_push _ _ fl _ p).
  - intros k q Hk. destruct (decide (k = i)) as [->|Hne]; [by rewrite list_lookup_insert_eq in Hk|].
    rewrite list_lookup_insert_ne in Hk by done. assert (q <> p) by (intros ->; by apply Hne, (Hd k i p)).
    rewrite lookup_delete_ne by done. destruct (H4 k q Hk) as (t & Ht' & Hto). destruct (relinked_lookup _ _ _ _ Hr Ht') as [m Hm].
    destruct Hto as [Hto|Hto]; [|exists (set_next t m); split; [done|by right]]. exists t. split; [|by left].
    assert (Hsl : slot (atom_array rt) st k = Some t).
    { apply Hsym; [by eapply slot_Some|]. unfold hashed. by rewrite (proj1 Hto). }
    unfold slot in Hsl. by rewrite Hk in Hsl.
  - intros a b q Ha Hb. destruct (decide (a = i)) as [->|]; [by rewrite list_lookup_insert_eq in Ha|].
    destruct (decide (b = i)) as [->|]; [by rewrite list_lookup_insert_eq in Hb|].
    rewrite list_lookup_insert_ne in Ha by done. rewrite list_lookup_insert_ne in Hb by done. by apply (Hd a b q).
  - intros q t Hq Hty. destruct (decide (q = p)) as [->|]; [by rewrite lookup_delete_eq in Hq|]. rewrite lookup_delete_ne in Hq by done.
    destruct (relinked_lookup _ _ _ _ (relinked_sym _ _ Hr) Hq) as [m Hm]. destruct (H6 q _ Hm Hty) as [k Hk]. exists k.
    rewrite list_lookup_insert_ne; [done|]. intros ->. congruence.
  - intros a b t u. rewrite !Hslot. case_decide; [done|]. case_decide; [done|]. intros Ha Hb.
    destruct (Hslr _ _ Ha) as [m Hm], (Hslr _ _ Hb) as [m' Hm']. apply (H7 a b _ _ Hm Hm').
  - intros q t Hq. destruct (decide (q = p)) as [->|]; [by rewrite lookup_delete_eq in Hq|]. rewrite lookup_delete_ne in Hq by done.
    destruct (relinked_lookup _ _ _ _ (relinked_sym _ _ Hr) Hq) as [m Hm]. by apply (H8 q _ Hm).
  - rewrite (natoms_insert _ _ _ _ Hi). simpl. lia.
Qed.
