(* ===== verification/AtomsProps.v ===== *)
(** * The atom table interns strings

    Reference counts are exact, and from the invariant of [AtomTable] the
    operations of [Atoms] are shown to intern: equal strings, whatever their
    width, have the same atom, and an atom lives exactly as long as it is
    referenced. *)
From S2P Require Import Prelude Chains Native Digits Atoms AtomTable.

Section proofs.
Context (mem : nat -> bool).

(** ** Dropping a reference *)

(** What an operation leaves alone: strings that live on keep their text,
    and atoms that live on keep their index. *)
Record frame (rt rt' : JSRuntime) : Prop := {
  fr_clock : (clock rt <= clock rt')%nat;
  fr_text : forall q s', (q < clock rt)%nat -> strings rt' !! q = Some s' ->
    exists s, strings rt !! q = Some s /\ chars s = chars s' /\ is_wide_char s = is_wide_char s';
  fr_index : forall k q s', atom_array rt !! k = Some (S_atom q) -> strings rt' !! q = Some s' ->
    atom_array rt' !! k = Some (S_atom q) /\ forall s, strings rt !! q = Some s -> atom_type s = atom_type s';
}.

Lemma frame_refl rt : frame rt rt.
Proof. split; [lia|eauto|]. intros k q s' Hk Hs. split; [done|]. intros s Hs'. congruence. Qed.

Lemma frame_trans a b c : atoms_ok a -> frame a b -> frame b c -> frame a c.
Proof.
  intros Hok [A1 A2 A3] [B1 B2 B3]. split; [lia|..].
  - intros q s' Hq Hs. destruct (B2 q s' ltac:(lia) Hs) as (s1 & Hs1 & E1 & E2). destruct (A2 q s1 Hq Hs1) as (s2 & Hs2 & E3 & E4).
    exists s2. split_and!; congruence.
  - intros k q s' Hk Hs. destruct (ao_slot _ Hok k q Hk) as (s0 & Hs0 & _). pose proof (ao_clock _ Hok q s0 Hs0) as Hlt.
    destruct (B2 q s' ltac:(lia) Hs) as (s1 & Hs1 & _). destruct (A3 k q s1 Hk Hs1) as [Hk1 Ht1].
    destruct (B3 k q s' Hk1 Hs) as [Hk2 Ht2]. split; [done|]. intros s Hs'. rewrite (Ht1 s Hs'). by apply Ht2.
Qed.

Lemma countZ_cons p q (l : list nat) : countZ p (q :: l) = (if decide (p = q) then 1 else 0) + countZ p l.
Proof. done. Qed.

Lemma pin_range arr p : 0 <= pin arr p <= 1.
Proof. unfold pin. destruct (bool_decide _); simpl; lia. Qed.

Lemma pin_zero arr i p : arr !! i = Some (S_atom p) -> pin arr p = 0 -> (JS_ATOM_END <= i)%nat.
Proof.
  intros Hi Hp. destruct (decide (i < JS_ATOM_END)%nat) as [Hlt|]; [|lia]. exfalso. unfold pin in Hp.
  rewrite bool_decide_eq_true_2 in Hp; [done|]. apply (list_elem_of_lookup_2 _ i). by rewrite lookup_take_lt.
Qed.

Lemma pin_free arr i f q : (JS_ATOM_END <= i)%nat -> pin (<[i := S_free f]> arr) q = pin arr q.
Proof. intros Hi. unfold pin. by rewrite take_insert_ge. Qed.

Lemma relinked_ref st st' q s' : relinked st st' -> st' !! q = Some s' -> exists s, st !! q = Some s /\ ref_count s = ref_count s' /\
  chars s = chars s' /\ is_wide_char s = is_wide_char s' /\ atom_type s = atom_type s'.
Proof. intros H Hs. destruct (relinked_lookup _ _ _ _ (relinked_sym _ _ H) Hs) as [n Hn]. by exists (set_next s' n). Qed.

Lemma add_ref_ok rt p s d : strings rt !! p = Some s -> atoms_ok rt ->
  exists rt', add_ref rt p d = Some rt' /\ rt' = set_strings rt (<[p := set_ref s (ref_count s + d)]> (strings rt)) /\ atoms_ok rt' /\ frame rt rt'.
Proof.
  intros Hs Hok. unfold add_ref. rewrite Hs. cbn [mbind option_bind]. eexists. split; [done|]. split; [done|]. split; [by apply set_ref_ok|].
  split; simpl; [lia|..].
  - intros q s' _ Hq. destruct (decide (q = p)) as [->|].
    + rewrite lookup_insert_eq in Hq. simplify_eq. eauto.
    + rewrite lookup_insert_ne in Hq by done. eauto.
  - intros k q s' Hk Hq. split; [done|]. intros t Ht. destruct (decide (q = p)) as [->|].
    + rewrite lookup_insert_eq in Hq. by simplify_eq.
    + rewrite lookup_insert_ne in Hq by done. congruence.
Qed.

(** A string that is not an atom is unknown to the table. *)
Lemma string_free_ok rt p s : atoms_ok rt -> strings rt !! p = Some s -> atom_type s = 0 ->
  atoms_ok (set_strings rt (delete p (strings rt))).
Proof.
  intros [H1 [cs H2] H3 H4 H5 H6 H7 H8 H9] Hs Hty.
  assert (Hne : forall k q, atom_array rt !! k = Some (S_atom q) -> q <> p).
  { intros k q Hk ->. destruct (H4 k p Hk) as (t & Ht & Hto). assert (t = s) as -> by congruence.
    destruct Hto as [(E & _)|[[E|E] _]]; rewrite Hty in E; by vm_compute in E. }
  assert (Hsl : forall k, slot (atom_array rt) (delete p (strings rt)) k = slot (atom_array rt) (strings rt) k).
  { intros k. unfold slot. destruct (atom_array rt !! k) as [[|q]|] eqn:Ek; try done. rewrite lookup_delete_ne; [done|]. by apply not_eq_sym, (Hne k). }
  split; simpl; try done.
  - exists cs. eapply table_ext; [| |exact H2]; intros k; unfold nx, bk; by rewrite Hsl.
  - intros k q Hk. rewrite lookup_delete_ne by (by apply not_eq_sym, (Hne k)). eauto.
  - intros q t Hq. destruct (decide (q = p)) as [->|]; [by rewrite lookup_delete_eq in Hq|]. rewrite lookup_delete_ne in Hq by done. eauto.
  - intros a b t u. rewrite !Hsl. apply H7.
  - intros q t Hq. destruct (decide (q = p)) as [->|]; [by rewrite lookup_delete_eq in Hq|]. rewrite lookup_delete_ne in Hq by done. eauto.
Qed.

(** The string [p] goes away for good. *)
Definition last_ref (rt : JSRuntime) (held : list nat) (p : nat) : Prop := countZ p held + pin (atom_array rt) p = 0.
#[export] Instance last_ref_dec rt held p : Decision (last_ref rt held p).
Proof. unfold last_ref. apply _. Defined.

Lemma release_atom_ok rt held p s : good rt (p :: held) -> strings rt !! p = Some s -> last_ref rt held p ->
  let rt1 := set_strings rt (<[p := set_ref s (ref_count s - 1)]> (strings rt)) in
  atom_type s <> 0 ->
  exists rt', JS_FreeAtomStruct rt1 p = Some rt' /\ good rt' held /\ frame rt rt' /\
    (exists i, atom_array rt !! i = Some (S_atom p) /\ i <> 0%nat /\ atom_array rt' = <[i := S_free (atom_free_index rt)]> (atom_array rt)) /\
    strings rt' !! p = None.
Proof.
  intros [Hok [R1 R2]] Hs Hlast rt1 Hty. destruct (ao_home _ Hok p s Hs Hty) as [i Hi].
  unfold last_ref in Hlast. pose proof (countZ_nonneg p held). pose proof (pin_range (atom_array rt) p).
  pose proof (pin_zero _ i p Hi ltac:(lia)) as Hie. assert (Hi0 : i <> 0%nat) by (unfold JS_ATOM_END in Hie; lia).
  set (s1 := set_ref s (ref_count s - 1)) in *.
  destruct (free_atom_struct_ok rt1 i p s1 (set_ref_ok rt p s _ Hok Hs) Hi ltac:(by apply lookup_insert_eq) Hi0) as (rt' & E & Hok' & Ha & Hr & Hc).
  simpl in Ha, Hc, Hr. unfold rt1 in Hr. simpl in Hr. rewrite delete_insert_eq in Hr.
  assert (Hp : strings rt' !! p = None).
  { specialize (Hr p). rewrite lookup_delete_eq in Hr. by destruct (strings rt' !! p). }
  assert (Hq : forall q s', strings rt' !! q = Some s' -> q <> p /\ exists s0, strings rt !! q = Some s0 /\ ref_count s0 = ref_count s' /\
    chars s0 = chars s' /\ is_wide_char s0 = is_wide_char s' /\ atom_type s0 = atom_type s').
  { intros q s' Hq. assert (q <> p) by congruence. split; [done|]. destruct (relinked_ref _ _ _ _ Hr Hq) as (s0 & Hs0 & Hrest).
    rewrite lookup_delete_ne in Hs0 by done. eauto. }
  exists rt'. split_and!; [done| | |by exists i|done].
  - split; [done|]. split.
    + intros q s' Hq'. destruct (Hq q s' Hq') as [Hne (s0 & Hs0 & <- & _)]. destruct (R1 q s0 Hs0) as [Hrc Hpos].
      rewrite Ha, pin_free by done. rewrite countZ_cons, decide_False in Hrc by done. lia.
    + intros q Hqh. assert (q <> p) by (intros ->; apply countZ_pos in Hqh; lia).
      destruct (R2 q ltac:(by right)) as [s0 Hs0]. assert (Hd : delete p (strings rt) !! q = Some s0) by (by rewrite lookup_delete_ne).
      destruct (relinked_lookup _ _ _ _ Hr Hd) as [n Hn]. by eexists.
  - split.
    + rewrite Hc. lia.
    + intros q s' _ Hq'. destruct (Hq q s' Hq') as [_ (s0 & Hs0 & _ & E1 & E2 & _)]. eauto.
    + intros k q s' Hk Hq'. destruct (Hq q s' Hq') as [Hne (s0 & Hs0 & _ & _ & _ & E3)]. rewrite Ha. split.
      * rewrite list_lookup_insert_ne; [done|]. intros ->. congruence.
      * intros t Ht. congruence.
Qed.

(** The reference [p] is given up, the string stays. *)
Lemma unref_good rt held p s : good rt (p :: held) -> strings rt !! p = Some s -> ~ last_ref rt held p ->
  good (set_strings rt (<[p := set_ref s (ref_count s - 1)]> (strings rt))) held.
Proof.
  intros [Hok [R1 R2]] Hs Hl. split; [by apply set_ref_ok|]. unfold last_ref in Hl. split; simpl.
  - intros q t Hq. destruct (decide (q = p)) as [->|].
    + rewrite lookup_insert_eq in Hq. injection Hq as <-. destruct (R1 p s Hs) as [Hrc _]. rewrite countZ_cons, decide_True in Hrc by done.
      pose proof (countZ_nonneg p held). pose proof (pin_range (atom_array rt) p). simpl. lia.
    + rewrite lookup_insert_ne in Hq by done. destruct (R1 q t Hq) as [Hrc ?]. rewrite countZ_cons, decide_False in Hrc by done. lia.
  - intros q Hq. destruct (decide (q = p)) as [->|]; [rewrite lookup_insert_eq; eauto|]. rewrite lookup_insert_ne by done. apply R2. by right.
Qed.

(** The outcome of giving up the reference [p]. *)
Record dropped (rt rt' : JSRuntime) (held : list nat) (p : nat) : Prop := {
  dr_good : good rt' held;
  dr_frame : frame rt rt';
  dr_gone : last_ref rt held p -> strings rt' !! p = None;
  dr_array : if decide (last_ref rt held p) then forall k q, atom_array rt' !! k = Some (S_atom q) <-> atom_array rt !! k = Some (S_atom q) /\ q <> p
             else atom_array rt' = atom_array rt;
  dr_size : length (atom_array rt') = length (atom_array rt);
  dr_free : atom_array rt <> [] -> atom_free_index rt <> 0%nat -> atom_free_index rt' <> 0%nat;
}.

Lemma ref_count_last rt held p s : good rt (p :: held) -> strings rt !! p = Some s ->
  ref_count s - 1 <= 0 <-> last_ref rt held p.
Proof.
  intros [_ [R1 _]] Hs. destruct (R1 p s Hs) as [Hrc _]. rewrite countZ_cons, decide_True in Hrc by done. unfold last_ref.
  pose proof (countZ_nonneg p held). pose proof (pin_range (atom_array rt) p). lia.
Qed.

Lemma unref_dropped rt held p s : good rt (p :: held) -> strings rt !! p = Some s -> ~ last_ref rt held p ->
  dropped rt (set_strings rt (<[p := set_ref s (ref_count s - 1)]> (strings rt))) held p.
Proof.
  intros Hg Hs Hl. destruct (add_ref_ok rt p s (-1) Hs (proj1 Hg)) as (rt' & _ & -> & _ & Hfr).
  split; [by apply unref_good|exact Hfr|done|by rewrite decide_False|done|done].
Qed.

Lemma struct_dropped rt held p s : good rt (p :: held) -> strings rt !! p = Some s -> last_ref rt held p -> atom_type s <> 0 ->
  exists rt', JS_FreeAtomStruct (set_strings rt (<[p := set_ref s (ref_count s - 1)]> (strings rt))) p = Some rt' /\ dropped rt rt' held p.
Proof.
  intros Hg Hs Hl Hty. destruct (release_atom_ok rt held p s Hg Hs Hl Hty) as (rt' & E & Hg' & Hfr & (i & Hi & Hi0 & Ha) & Hp).
  exists rt'. split; [done|]. split; [done|done|done| |by rewrite Ha, length_insert|].
  - rewrite decide_True by done. intros k q. rewrite Ha. pose proof (ao_inj _ (proj1 Hg)) as Hd. destruct (decide (k = i)) as [->|Hne].
    + rewrite list_lookup_insert_eq by (by eapply lookup_lt_Some). split; [done|]. intros [Hk Hq]. congruence.
    + rewrite list_lookup_insert_ne by done. split; [|by intros [? _]]. intros Hk. split; [done|]. intros ->. by apply Hne, (Hd k i p).
  - intros _ _ E0. destruct Hg' as [[_ _ (fl & F1 & _ & F3) _ _ _ _ _ _] _]. rewrite E0 in F1. apply chain_zero in F1 as ->.
    assert (Hin : i ∈ []) by (apply F3; exists (atom_free_index rt); rewrite Ha; apply list_lookup_insert_eq; by eapply lookup_lt_Some).
    by apply elem_of_nil in Hin.
Qed.

Lemma drop_string rt held p : good rt (p :: held) -> exists rt', js_free_string rt p = Some rt' /\ dropped rt rt' held p.
Proof.
  intros Hg. pose proof Hg as [Hok [R1 R2]]. destruct (R2 p ltac:(by left)) as [s Hs]. unfold js_free_string.
  destruct (add_ref_ok rt p s (-1) Hs Hok) as (rt1 & E & Ert & Hok1 & Hfr). rewrite E. cbn [mbind option_bind].
  replace (ref_count s + -1) with (ref_count s - 1) in Ert by lia.
  assert (Hs1 : strings rt1 !! p = Some (set_ref s (ref_count s - 1))) by (subst; apply lookup_insert_eq). rewrite Hs1. cbn [mbind option_bind].
  pose proof (ref_count_last rt held p s Hg Hs) as Hiff. cbn [ref_count set_ref atom_type].
  destruct (Z.leb_spec (ref_count s - 1) 0) as [Hle|Hgt].
  2: { exists rt1. split; [done|]. rewrite Ert. apply unref_dropped; [done|done|]. intros Hl. apply Hiff in Hl. lia. }
  assert (Hl : last_ref rt held p) by by apply Hiff.
  destruct (Z.eqb_spec (atom_type s) 0) as [Ht|Ht]; [|rewrite Ert; by apply struct_dropped].
  eexists. split; [done|]. assert (Hst : delete p (strings rt1) = delete p (strings rt)) by (rewrite Ert; simpl; apply delete_insert_eq).
  rewrite Hst. assert (Hrt : set_strings rt1 (delete p (strings rt)) = set_strings rt (delete p (strings rt))) by by rewrite Ert. rewrite Hrt.
  assert (Hq : forall q t, delete p (strings rt) !! q = Some t -> q <> p /\ strings rt !! q = Some t).
  { intros q t Hq. destruct (decide (q = p)) as [->|]; [by rewrite lookup_delete_eq in Hq|]. by rewrite lookup_delete_ne in Hq. }
  unfold last_ref in Hl. pose proof (countZ_nonneg p held). pose proof (pin_range (atom_array rt) p).
  assert (Hna : forall k, atom_array rt !! k <> Some (S_atom p)).
  { intros k Hk. destruct (ao_slot _ Hok k p Hk) as (t & Ht' & Hto). assert (t = s) as -> by congruence.
    destruct Hto as [(E' & _)|[[E'|E'] _]]; rewrite Ht in E'; by vm_compute in E'. }
  split; simpl; try done.
  - split; [by eapply string_free_ok|]. split; simpl.
    + intros q t Hqt. destruct (Hq q t Hqt) as [Hne Hqs]. destruct (R1 q t Hqs) as [Hrc ?]. rewrite countZ_cons, decide_False in Hrc by done. lia.
    + intros q Hqh. assert (q <> p) by (intros ->; apply countZ_pos in Hqh; lia). rewrite lookup_delete_ne by done. apply R2. by right.
  - split; simpl; [lia|..].
    + intros q t _ Hqt. destruct (Hq q t Hqt) as [_ Hqs]. eauto.
    + intros k q t Hk Hqt. destruct (Hq q t Hqt) as [_ Hqs]. split; [done|]. intros t' Ht'. congruence.
  - intros _. apply lookup_delete_eq.
  - case_decide; [|done]. intros k q. split; [|by intros [? _]]. intros Hk. split; [done|]. intros ->. by apply (Hna k).
Qed.

(** Atoms give up their reference in the same way. *)
Lemma drop_atom rt held i p : good rt (p :: held) -> atom_array rt !! i = Some (S_atom p) ->
  exists rt', __JS_FreeAtom rt i = Some rt' /\ dropped rt rt' held p.
Proof.
  intros Hg Hi. pose proof Hg as [Hok [R1 R2]]. destruct (ao_slot _ Hok i p Hi) as (s & Hs & Hso).
  unfold __JS_FreeAtom. assert (get_atom rt i = Some (p, s)) as -> by by apply get_atom_slot. cbn [mbind option_bind].
  destruct (add_ref_ok rt p s (-1) Hs Hok) as (rt1 & E & Ert & _). rewrite E. cbn [mbind option_bind].
  replace (ref_count s + -1) with (ref_count s - 1) in Ert by lia.
  assert (Hs1 : strings rt1 !! p = Some (set_ref s (ref_count s - 1))) by (subst; apply lookup_insert_eq). rewrite Hs1. cbn [mbind option_bind].
  pose proof (ref_count_last rt held p s Hg Hs) as Hiff. cbn [ref_count set_ref].
  destruct (Z.ltb_spec 0 (ref_count s - 1)) as [Hgt|Hle].
  - exists rt1. split; [done|]. rewrite Ert. apply unref_dropped; [done|done|]. intros Hl. apply Hiff in Hl. lia.
  - rewrite Ert. apply struct_dropped; [done|done|by apply Hiff|].
    destruct Hso as [(-> & _)|[[-> | ->] _]]; by vm_compute.
Qed.

(** ** Allocation *)

Lemma tick_good rt held : good rt held -> good (tick rt) held.
Proof.
  intros [[H1 H2 H3 H4 H5 H6 H7 H8 H9] [R1 R2]]. split; split; simpl; try done. intros p s Hp. specialize (H8 p s Hp). lia.
Qed.

Lemma tick_frame rt : frame rt (tick rt).
Proof. destruct (frame_refl rt). split; simpl; [lia|done|done]. Qed.

(** A fresh string that no entry knows. *)
Lemma add_string_ok rt s : atoms_ok rt -> atom_type s = 0 ->
  atoms_ok (set_strings (tick rt) (<[clock rt := s]> (strings rt))) /\
  frame rt (set_strings (tick rt) (<[clock rt := s]> (strings rt))) /\ pin (atom_array rt) (clock rt) = 0 /\ strings rt !! clock rt = None.
Proof.
  intros Hok Hty. pose proof Hok as [H1 [cs H2] H3 H4 H5 H6 H7 H8 H9]. set (p := clock rt).
  assert (Hp : strings rt !! p = None).
  { destruct (strings rt !! p) as [t|] eqn:E; [|done]. specialize (H8 p t E). unfold p in H8. lia. }
  assert (Hne : forall k, atom_array rt !! k <> Some (S_atom p)).
  { intros k Hk. destruct (H4 k p Hk) as (t & Ht & _). congruence. }
  assert (Hsl : forall k, slot (atom_array rt) (<[p := s]> (strings rt)) k = slot (atom_array rt) (strings rt) k)
    by (intros; by apply slot_other).
  split_and!; [split; simpl; try done|split; simpl| |done].
  - exists cs. eapply table_ext; [| |exact H2]; intros k; unfold nx, bk; by rewrite Hsl.
  - intros k q Hk. rewrite lookup_insert_ne by (intros ->; by apply (Hne k)). eauto.
  - intros q t Hq Ht. destruct (decide (q = p)) as [->|].
    + rewrite lookup_insert_eq in Hq. by simplify_eq.
    + rewrite lookup_insert_ne in Hq by done. eauto.
  - intros a b t u. rewrite !Hsl. apply H7.
  - intros q t Hq. destruct (decide (q = p)) as [->|]; [unfold p; lia|]. rewrite lookup_insert_ne in Hq by done. specialize (H8 q t Hq). lia.
  - lia.
  - intros q t Hlt Hq. rewrite lookup_insert_ne in Hq by (unfold p; lia). eauto.
  - intros k q t Hk Hq. split; [done|]. intros u Hu. rewrite lookup_insert_ne in Hq; [congruence|]. intros ->. by apply (Hne k).
  - unfold pin. rewrite bool_decide_eq_false_2; [done|]. intros Hin. apply list_elem_of_lookup in Hin as [k Hk].
    apply lookup_take_Some in Hk as [Hk _]. by apply (Hne k).
Qed.

Lemma new_string_ok rt held s rt' r : good rt held -> atom_type s = 0 -> ref_count s = 1 -> new_string mem rt s = (rt', r) ->
  atom_array rt' = atom_array rt /\ atom_hash rt' = atom_hash rt /\ atom_free_index rt' = atom_free_index rt /\ frame rt rt' /\
  match r with
  | Some p => good rt' (p :: held) /\ strings rt' = <[p := s]> (strings rt) /\ strings rt !! p = None /\ p = clock rt
  | None => good rt' held /\ strings rt' = strings rt /\ exists n, mem n = false
  end.
Proof.
  intros Hg Hty Hrc E. unfold new_string in E. destruct (mem (clock rt)) eqn:Em; injection E as <- <-.
  2: { split_and!; try done; [apply tick_frame|by apply tick_good|eauto]. }
  destruct Hg as [Hok [R1 R2]]. destruct (add_string_ok rt s Hok Hty) as (Hok' & Hfr & Hpin & Hp).
  split_and!; try done. split; [done|]. split; simpl.
  - intros q t Hq. destruct (decide (q = clock rt)) as [->|Hne].
    + rewrite lookup_insert_eq in Hq. injection Hq as <-. rewrite Hpin.
      assert (countZ (clock rt) held = 0) by (apply countZ_zero; intros Hin; destruct (R2 _ Hin); congruence). lia.
    + rewrite lookup_insert_ne in Hq by done. destruct (R1 q t Hq). lia.
  - intros q Hq. destruct (decide (q = clock rt)) as [->|]; [rewrite lookup_insert_eq; eauto|]. rewrite lookup_insert_ne by done.
    apply R2. by apply elem_of_cons in Hq as [->|].
Qed.

(** ** Growing the array *)

Lemma chain_seq nx m : forall a, a <> 0%nat -> (forall k, (a <= k < a + S m)%nat -> nx k = Some (if (k =? a + m)%nat then 0%nat else S k)) ->
  chain nx a (seq a (S m)).
Proof.
  induction m as [|m IH]; intros a Ha Hnx.
  - split_and!; [done|done|]. exists 0%nat. rewrite Hnx by lia. rewrite Nat.add_0_r, Nat.eqb_refl. done.
  - change (seq a (S (S m))) with (a :: seq (S a) (S m)). split_and!; [done|done|]. exists (S a). rewrite Hnx by lia.
    destruct (Nat.eqb_spec a (a + S m)); [lia|]. split; [done|]. apply IH; [lia|]. intros k Hk. rewrite Hnx by lia.
    by replace (S a + m)%nat with (a + S m)%nat by lia.
Qed.

Lemma free_entries_lookup a n k : (a <= k < n)%nat -> free_entries a n !! (k - a)%nat = Some (S_free (if (k =? n - 1)%nat then 0 else S k)).
Proof.
  intros Hk. unfold free_entries. rewrite list_lookup_fmap, lookup_seq_lt by lia. simpl. by replace (a + (k - a))%nat with k by lia.
Qed.

Lemma free_entries_atom a n p : S_atom p ∉ free_entries a n.
Proof. unfold free_entries. rewrite list_elem_of_fmap. by intros (k & Hk & _). Qed.

Lemma free_entries_length a n : length (free_entries a n) = (n - a)%nat.
Proof. unfold free_entries. by rewrite length_fmap, length_seq. Qed.

Lemma filter_free_entries a n : filter (fun x => is_atom x = true) (free_entries a n) = [].
Proof. unfold free_entries. induction (seq a (n - a)) as [|k l IH]; [done|]. simpl. by rewrite filter_cons_False by done. Qed.

Lemma extend_good rt held n : good rt held -> atom_free_index rt = 0%nat -> atom_array rt <> [] -> (length (atom_array rt) < n)%nat ->
  let rt' := mkRuntime (atom_hash rt) (atom_count rt) (atom_count_resize rt)
    (atom_array rt ++ free_entries (length (atom_array rt)) n) (length (atom_array rt)) (strings rt) (clock rt) in
  good rt' held /\ frame rt rt'.
Proof.
  intros [[H1 [cs H2] (fl & F1 & F2 & F3) H4 H5 H6 H7 H8 H9] [R1 R2]] Hf Hne Hn rt'.
  rewrite Hf in F1. apply chain_zero in F1 as ->. set (arr := atom_array rt) in *. set (arr' := arr ++ free_entries (length arr) n).
  assert (Hat : forall k q, arr' !! k = Some (S_atom q) <-> arr !! k = Some (S_atom q)).
  { intros k q. unfold arr'. rewrite lookup_app. destruct (arr !! k) as [x|] eqn:Ek; [done|]. split; [|done]. intros H.
    apply list_elem_of_lookup_2 in H. by apply free_entries_atom in H. }
  assert (Hsl : forall k, slot arr' (strings rt) k = slot arr (strings rt) k).
  { intros k. unfold slot. destruct (arr' !! k) as [[m|q]|] eqn:E'.
    - destruct (arr !! k) as [[|q]|] eqn:Ek; try done. apply Hat in Ek. congruence.
    - apply Hat in E'. by rewrite E'.
    - destruct (arr !! k) as [[|q]|] eqn:Ek; try done. apply Hat in Ek. congruence. }
  assert (Hpin : forall q, pin arr' q = pin arr q).
  { intros q. unfold pin, arr'. f_equal. apply bool_decide_ext. rewrite take_app, elem_of_app. split; [|by left].
    intros [H|H]; [done|]. apply list_elem_of_lookup in H as [m Hm]. apply lookup_take_Some in Hm as [Hm _].
    apply list_elem_of_lookup_2 in Hm. by apply free_entries_atom in Hm. }
  split; [split; split; simpl; try done|split; simpl; try done].
  - exists cs. eapply table_ext; [| |exact H2]; intros k; unfold nx, bk; fold arr'; by rewrite Hsl.
  - exists (seq (length arr) (S (n - length arr - 1))). fold arr'. split_and!.
    + apply chain_seq; [by destruct arr|]. intros k Hk. unfold nx_free, arr'. rewrite lookup_app_r by lia. rewrite free_entries_lookup by lia.
      do 2 f_equal. by replace (length arr + (n - length arr - 1))%nat with (n - 1)%nat by lia.
    + apply NoDup_seq.
    + intros k. rewrite elem_of_seq. split.
      * intros Hk. eexists. unfold arr'. rewrite lookup_app_r by lia. by rewrite free_entries_lookup by lia.
      * intros [m Hm]. unfold arr' in Hm. rewrite lookup_app in Hm. destruct (arr !! k) as [x|] eqn:Ek.
        { simplify_eq. assert (Hin : k ∈ []) by (apply F3; eauto). by apply elem_of_nil in Hin. }
        apply lookup_ge_None in Ek. apply lookup_lt_Some in Hm. unfold free_entries in Hm. rewrite length_fmap, length_seq in Hm. lia.
  - intros k q Hk. apply Hat in Hk. eauto.
  - intros a b q Ha Hb. apply Hat in Ha, Hb. eauto.
  - intros q t Hq Ht. destruct (H6 q t Hq Ht) as [k Hk]. exists k. by apply Hat.
  - intros a b t u. fold arr'. rewrite !Hsl. apply H7.
  - rewrite H9. unfold natoms. rewrite filter_app, length_app. f_equal.
    rewrite filter_free_entries. simpl. lia.
  - intros q t Hq. fold arr'. rewrite Hpin. by apply R1.
  - intros q t _ Hq. eauto.
  - intros k q t Hk Hq. split; [by apply Hat|]. intros u Hu. congruence.
Qed.

(** The entry of [JS_ATOM_NULL]. *)
Lemma null_good rt held p : good rt held -> atom_array rt = [] -> p = clock rt ->
  let rt' := mkRuntime (atom_hash rt) (atom_count rt + 1) (atom_count_resize rt) [S_atom p] (atom_free_index rt)
    (<[p := mkString [] false 0 JS_ATOM_TYPE_SYMBOL 0 1]> (strings rt)) (S (clock rt)) in
  good rt' held /\ frame rt rt' /\ atom_free_index rt = 0%nat.
Proof.
  intros [[H1 [cs H2] (fl & F1 & F2 & F3) H4 H5 H6 H7 H8 H9] [R1 R2]] Ha -> rt'. rewrite Ha in *.
  assert (fl = []) as ->. { destruct fl as [|i fl]; [done|]. destruct (proj1 (F3 i) ltac:(by left)) as [n Hn]. done. }
  simpl in F1. set (p := clock rt) in *. assert (Hp : strings rt !! p = None).
  { destruct (strings rt !! p) as [t|] eqn:E; [|done]. specialize (H8 p t E). unfold p in H8. lia. }
  assert (Hone : forall k q, [S_atom p] !! k = Some (S_atom q) -> k = 0%nat /\ q = p) by (intros [|k] q Hk; naive_solver).
  split_and!; [split; split; simpl; try done|split; simpl|done].
  - exists cs. eapply table_ext; [| |exact H2]; [intros k [j Hj]; by destruct k|].
    intros [|k]; unfold bk, slot; simpl; [by rewrite lookup_insert_eq|done].
  - exists []. split_and!; [done|done|]. intros k. split; [by intros ?%elem_of_nil|]. intros [n Hn]. by destruct k as [|[]].
  - intros k q Hk. destruct (Hone k q Hk) as [-> ->]. eexists. split; [apply lookup_insert_eq|]. left. by split_and!; [..|left].
  - intros a b q Hq Hb. destruct (Hone _ _ Hq), (Hone _ _ Hb). congruence.
  - intros q t Hq Ht. destruct (decide (q = p)) as [->|]; [by exists 0%nat|]. rewrite lookup_insert_ne in Hq by done.
    destruct (H6 q t Hq Ht) as [k Hk]. done.
  - intros [|a] [|b] t u; unfold slot; simpl; try done.
  - intros q t Hq. destruct (decide (q = p)) as [->|]; [unfold p; lia|]. rewrite lookup_insert_ne in Hq by done. specialize (H8 q t Hq). lia.
  - rewrite H9. done.
  - intros q t Hq. destruct (decide (q = p)) as [->|Hne].
    + rewrite lookup_insert_eq in Hq. injection Hq as <-. assert (countZ p held = 0) as -> by (apply countZ_zero; intros Hin; destruct (R2 _ Hin); congruence).
      unfold pin. rewrite bool_decide_eq_true_2; [done|]. by left.
    + rewrite lookup_insert_ne in Hq by done. destruct (R1 q t Hq) as [Hrc ?]. unfold pin in *. rewrite bool_decide_eq_false_2 in Hrc by (by intros ?%elem_of_nil).
      rewrite bool_decide_eq_false_2; [done|]. intros Hin. unfold JS_ATOM_END in Hin. simpl in Hin. apply list_elem_of_singleton in Hin. congruence.
  - intros q Hq. destruct (decide (q = p)) as [->|]; [rewrite lookup_insert_eq; eauto|]. rewrite lookup_insert_ne by done. by apply R2.
  - lia.
  - intros q t Hlt Hq. rewrite lookup_insert_ne in Hq by (unfold p; lia). eauto.
  - intros k q t Hk. by rewrite Ha in Hk.
Qed.

(** Up to this size the computation of the next one does not overflow. *)
Definition max_atom_size : Z := 715827882.

Lemma next_size_grows n : 0 <= n <= max_atom_size -> n < next_atom_size n /\ 711 <= next_atom_size n.
Proof.
  unfold max_atom_size, next_atom_size. intros Hn. assert (sint 32 (n * 3) = n * 3) as ->.
  { unfold sint. rewrite Z.mod_small by lia. change (32 - 1) with 31. destruct (Z.ltb_spec (n * 3) (2 ^ 31)); lia. }
  rewrite Z.quot_div_nonneg by lia. div_lia.
Qed.

(** The reasons for which an atom cannot be created. *)
Definition refused (rt : JSRuntime) : Prop := (exists n, mem n = false) \/ JS_ATOM_MAX < next_atom_size (atom_size rt).

Lemma grow_good rt held rt' ok : good rt held -> atom_free_index rt = 0%nat -> atom_size rt <= max_atom_size ->
  grow_array mem rt = (rt', ok) ->
  good rt' held /\ frame rt rt' /\ (forall k q, atom_array rt' !! k = Some (S_atom q) -> atom_array rt !! k = Some (S_atom q) \/ k = 0%nat) /\
  (if ok then atom_free_index rt' <> 0%nat /\ atom_size rt' <= JS_ATOM_MAX else refused rt).
Proof.
  intros Hg Hf Hsz E. unfold grow_array in E. pose proof (next_size_grows (atom_size rt) ltac:(split; [unfold atom_size; lia|done])) as [Hgt H711].
  destruct (Z.ltb_spec JS_ATOM_MAX (next_atom_size (atom_size rt))) as [Hbig|Hmax].
  { injection E as <- <-. split_and!; [done|apply frame_refl|auto|by right]. }
  pose proof (tick_good rt held Hg) as Hgt1. pose proof (tick_frame rt) as Hfr1.
  destruct (mem (clock rt)) eqn:Em; cbn [negb] in E.
  2: { injection E as <- <-. split_and!; [done|done|auto|left; eauto]. }
  set (n := Z.to_nat (next_atom_size (atom_size rt))) in *.
  assert (Hlen : forall a m, (m < n)%nat -> length a = m -> Z.of_nat (length (a ++ free_entries m n)) <= JS_ATOM_MAX).
  { intros a m Hm Ha. rewrite length_app, free_entries_length. unfold n in *. lia. }
  destruct (atom_array (tick rt)) as [|x arr] eqn:Ea.
  - destruct (new_string mem (tick rt) _) as [rt1 r] eqn:En. unfold new_string in En. destruct (mem (clock (tick rt))) eqn:Em2; injection En as <- <-.
    2: { injection E as <- <-. pose proof (tick_good _ _ Hgt1). split_and!; [done| |auto|left; eauto].
         eapply frame_trans; [apply Hg|exact Hfr1|apply tick_frame]. }
    destruct (null_good (tick rt) held _ Hgt1 Ea eq_refl) as (Hg2 & Hfr2 & _). cbn [length] in E.
    rewrite take_ge in E by (cbn [length]; unfold n; lia). injection E as <- <-.
    match type of Hg2 with good ?r _ => set (rt2 := r) in * end.
    destruct (extend_good rt2 held n Hg2 Hf ltac:(done)) as [Hg3 Hfr3]; [simpl; unfold n; lia|].
    split_and!; [exact Hg3|eapply frame_trans; [apply Hg|exact Hfr1|]; eapply frame_trans; [apply Hgt1|exact Hfr2|exact Hfr3]| |done|apply (Hlen [_]); [unfold n; lia|done]].
    intros [|k] q Hk; [by right|]. simpl in Hk. apply list_elem_of_lookup_2 in Hk. by apply free_entries_atom in Hk.
  - rewrite <- Ea in E. change (atom_array (tick rt)) with (atom_array rt) in *. unfold atom_size in *.
    rewrite take_ge in E by (unfold n; lia). injection E as <- <-.
    destruct (extend_good (tick rt) held n Hgt1 Hf) as [Hg3 Hfr3]; [simpl; congruence|simpl; unfold n; lia|].
    split_and!; [exact Hg3|eapply frame_trans; [apply Hg|exact Hfr1|exact Hfr3]| |simpl; by rewrite Ea|apply Hlen; [unfold n; lia|done]].
    intros k q Hk. left. simpl in Hk. rewrite lookup_app in Hk. destruct (atom_array rt !! k) eqn:Ek; [done|].
    apply list_elem_of_lookup_2 in Hk. by apply free_entries_atom in Hk.
Qed.

(** ** Registering a string *)

(** What an atom holds: predefined atoms and [JS_ATOM_NULL] hold nothing. *)
Definition atom_ref (rt : JSRuntime) (i : nat) : list nat :=
  if (i <? JS_ATOM_END)%nat then [] else match atom_array rt !! i with Some (S_atom p) => [p] | _ => [] end.

Lemma pin_set arr i p q f : arr !! i = Some (S_free f) -> q <> p -> pin (<[i := S_atom p]> arr) q = pin arr q.
Proof.
  intros Hi Hq. unfold pin. f_equal. apply bool_decide_ext. rewrite !list_elem_of_lookup. split; intros [k Hk]; exists k;
    apply lookup_take_Some in Hk as [Hk Hlt]; rewrite lookup_take_lt by done; destruct (decide (k = i)) as [->|].
  - rewrite list_lookup_insert_eq in Hk by (by eapply lookup_lt_Some). congruence.
  - by rewrite list_lookup_insert_ne in Hk.
  - congruence.
  - by rewrite list_lookup_insert_ne.
Qed.

Lemma pin_new arr i p : (forall k, arr !! k <> Some (S_atom p)) -> (i < length arr)%nat ->
  pin (<[i := S_atom p]> arr) p = if (i <? JS_ATOM_END)%nat then 1 else 0.
Proof.
  intros Hp Hi. unfold pin. destruct (Nat.ltb_spec i JS_ATOM_END) as [Hlt|Hge].
  - rewrite bool_decide_eq_true_2; [done|]. apply (list_elem_of_lookup_2 _ i). rewrite lookup_take_lt by done. by apply list_lookup_insert_eq.
  - rewrite take_insert_ge, bool_decide_eq_false_2; [done| |done]. intros Hin. apply list_elem_of_lookup in Hin as [k Hk].
    apply lookup_take_Some in Hk as [Hk _]. by apply (Hp k).
Qed.

(** No atom of a hashed type has this text yet. *)
Definition fresh_content (rt : JSRuntime) (ty : Z) (str : list Z) : Prop :=
  ty <> JS_ATOM_TYPE_SYMBOL -> forall i, content rt i <> Some (ty, str).

(** The way the new entry [i] is linked: symbols hold their index, other
    atoms head their chain. *)
Definition linked (rt : JSRuntime) (str : list Z) (h ty : Z) (i nxt : nat) (hs : list nat) : Prop :=
  (ty = JS_ATOM_TYPE_SYMBOL /\ hs = atom_hash rt /\ nxt = i /\ (h = 0 \/ h = JS_ATOM_HASH_PRIVATE)) \/
  ((ty = JS_ATOM_TYPE_STRING \/ ty = JS_ATOM_TYPE_GLOBAL_SYMBOL) /\ h = Z.land (hash_string str ty) JS_ATOM_HASH_MASK /\
   atom_hash rt !! bucket_of h (length (atom_hash rt)) = Some nxt /\
   hs = <[bucket_of h (length (atom_hash rt)) := i]> (atom_hash rt)).

Lemma linked_table rt p s h ty i nxt hs next : atoms_ok rt -> atom_array rt !! i = Some (S_free next) -> i <> 0%nat ->
  linked rt (chars s) h ty i nxt hs -> (forall k, atom_array rt !! k <> Some (S_atom p)) ->
  let s' := mkString (chars s) (is_wide_char s) h ty nxt (ref_count s) in
  let arr := <[i := S_atom p]> (atom_array rt) in
  let st := <[p := s']> (strings rt) in
  (forall k, slot arr st k = if decide (k = i) then Some s' else slot (atom_array rt) (strings rt) k) /\
  length hs = length (atom_hash rt) /\ exists cs, table (nx arr st) (bk (length hs) arr st) hs cs.
Proof.
  intros [H1 [cs H2] _ _ _ _ _ _ _] Hi Hi0 Hl Hp s' arr st.
  assert (Hsl : forall k, slot arr st k = if decide (k = i) then Some s' else slot (atom_array rt) (strings rt) k).
  { intros k. unfold slot, arr, st. case_decide as Hk.
    - subst. rewrite list_lookup_insert_eq by (by eapply lookup_lt_Some). apply lookup_insert_eq.
    - rewrite list_lookup_insert_ne by done. destruct (atom_array rt !! k) as [[|q]|] eqn:Ek; try done.
      rewrite lookup_insert_ne; [done|]. intros ->. by apply (Hp k). }
  assert (Hbi : bk (length (atom_hash rt)) (atom_array rt) (strings rt) i = None) by (unfold bk, slot; by rewrite Hi).
  split; [done|]. destruct Hl as [(-> & -> & -> & _)|(Hty & Eh & Enx & ->)].
  - split; [done|]. exists cs. eapply table_ext; [| |exact H2].
    + intros k [j Hj]. unfold nx. rewrite Hsl, decide_False; [done|]. intros ->. congruence.
    + intros k. unfold bk at 1. rewrite Hsl. case_decide; [|done]. subst. by rewrite Hbi.
  - rewrite length_insert. split; [done|].
    assert (Hh : hashed s' = true) by (unfold hashed; simpl; by destruct Hty as [-> | ->]).
    eapply (table_insert (nx (atom_array rt) (strings rt)) (bk (length (atom_hash rt)) (atom_array rt) (strings rt))); eauto.
    + unfold bk. rewrite Hsl, decide_True by done. simpl. by rewrite Hh.
    + intros k Hk. unfold bk. by rewrite Hsl, decide_False.
    + unfold nx. by rewrite Hsl, decide_True.
    + intros k Hk _. unfold nx. by rewrite Hsl, decide_False.
Qed.

Lemma link_good rt held p s h ty nxt hs next : good rt (p :: held) -> strings rt !! p = Some s -> atom_type s = 0 ->
  atom_array rt !! atom_free_index rt = Some (S_free next) -> atom_free_index rt <> 0%nat ->
  linked rt (chars s) h ty (atom_free_index rt) nxt hs -> fresh_content rt ty (chars s) ->
  let i := atom_free_index rt in
  let rt' := mkRuntime hs (atom_count rt + 1) (atom_count_resize rt) (<[i := S_atom p]> (atom_array rt)) next
    (<[p := mkString (chars s) (is_wide_char s) h ty nxt (ref_count s)]> (strings rt)) (clock rt) in
  good rt' (if (i <? JS_ATOM_END)%nat then held else p :: held) /\ frame rt rt'.
Proof.
  intros [Hok [R1 R2]] Hs Hty Hi Hi0 Hl Hfresh i rt'. pose proof Hok as [H1 _ (fl & F1 & F2 & F3) H4 H5 H6 H7 H8 H9].
  set (s' := mkString (chars s) (is_wide_char s) h ty nxt (ref_count s)). fold i in Hi, Hi0, Hl, F1. pose proof (lookup_lt_Some _ _ _ Hi) as Hlt.
  assert (Hne : forall k, atom_array rt !! k <> Some (S_atom p)).
  { intros k Hk. destruct (H4 k p Hk) as (t & Ht & Hto). assert (t = s) as -> by congruence.
    destruct Hto as [(E & _)|[[E|E] _]]; rewrite Hty in E; by vm_compute in E. }
  destruct (linked_table rt p s h ty i nxt hs next Hok Hi Hi0 Hl Hne) as (Hsl & Hlen & Ht). fold s' in Hsl, Ht.
  assert (Hfl : exists fl', fl = i :: fl' /\ chain (nx_free (atom_array rt)) next fl').
  { destruct fl as [|i' fl']; [simpl in F1; lia|]. destruct F1 as (-> & _ & n & En & Hc). unfold nx_free in En. rewrite Hi in En.
    injection En as <-. eauto. }
  destruct Hfl as (fl' & -> & Hc). apply NoDup_cons in F2 as [Hif Hnd].
  assert (Hat : forall k q, <[i := S_atom p]> (atom_array rt) !! k = Some (S_atom q) -> (k = i /\ q = p) \/ (k <> i /\ q <> p /\ atom_array rt !! k = Some (S_atom q))).
  { intros k q Hk. destruct (decide (k = i)) as [->|Hki]; [rewrite list_lookup_insert_eq in Hk by done; left; naive_solver|].
    rewrite list_lookup_insert_ne in Hk by done. right. split_and!; [done| |done]. intros ->. by apply (Hne k). }
  assert (Hso : slot_ok i s').
  { destruct Hl as [(-> & _ & -> & Hh)|(Hty' & -> & _)]; [by left|by right]. }
  assert (Hcont : forall k t, slot (atom_array rt) (strings rt) k = Some t -> hashed s' = true -> atom_type t = ty -> chars t <> chars s).
  { intros k t Hk Hh Htt Hch. apply (Hfresh ltac:(unfold hashed in Hh; simpl in Hh; intros ->; by vm_compute in Hh) k).
    unfold content. rewrite Hk. simpl. by rewrite Htt, Hch. }
  split; [split; split; simpl; try done|split; simpl; [lia|..]].
  - by rewrite Hlen.
  - exists fl'. split_and!; [|done|].
    + eapply chain_ext; [|exact Hc]. intros k Hk. unfold nx_free. rewrite list_lookup_insert_ne; [done|]. congruence.
    + intros k. destruct (decide (k = i)) as [->|Hki].
      * rewrite list_lookup_insert_eq by done. split; [done|]. by intros [].
      * rewrite list_lookup_insert_ne by done. rewrite <- F3, elem_of_cons. naive_solver.
  - intros k q Hk. destruct (Hat k q Hk) as [[-> ->]|(Hki & Hq & Hk')]; [exists s'; by rewrite lookup_insert_eq|].
    rewrite lookup_insert_ne by done. eauto.
  - intros a b q Ha Hb. destruct (Hat a q Ha) as [[-> ->]|(? & ? & ?)], (Hat b _ Hb) as [[-> ?]|(? & ? & ?)]; try done. by apply (H5 a b q).
  - intros q t Hq Htt. destruct (decide (q = p)) as [->|]; [exists i; by apply list_lookup_insert_eq|].
    rewrite lookup_insert_ne in Hq by done. destruct (H6 q t Hq Htt) as [k Hk]. exists k. rewrite list_lookup_insert_ne; [done|]. congruence.
  - intros a b t u. rewrite !Hsl. case_decide as Ea; case_decide as Eb; intros Ha Hb Hh Htt Hch.
    + congruence.
    + exfalso. injection Ha as <-. by apply (Hcont b u Hb Hh).
    + exfalso. injection Hb as <-. assert (hashed s' = true) by (unfold hashed in *; by rewrite <- Htt). by apply (Hcont a t Ha).
    + by apply (H7 a b t u).
  - intros q t Hq. destruct (decide (q = p)) as [->|]; [by apply (H8 p s)|]. rewrite lookup_insert_ne in Hq by done. eauto.
  - rewrite (natoms_insert _ _ _ _ Hi). simpl. lia.
  - intros q t Hq. destruct (decide (q = p)) as [->|Hqp].
    + rewrite lookup_insert_eq in Hq. injection Hq as <-. destruct (R1 p s Hs) as [Hrc ?]. rewrite countZ_cons, decide_True in Hrc by done.
      rewrite pin_new by done. assert (pin (atom_array rt) p = 0) as Hp0.
      { unfold pin. rewrite bool_decide_eq_false_2; [done|]. intros Hin. apply list_elem_of_lookup in Hin as [k Hk].
        apply lookup_take_Some in Hk as [Hk _]. by apply (Hne k). }
      simpl. destruct (i <? JS_ATOM_END)%nat; rewrite ?countZ_cons, ?decide_True by done; lia.
    + rewrite lookup_insert_ne in Hq by done. rewrite (pin_set _ _ _ _ next) by done. destruct (R1 q t Hq) as [Hrc ?].
      rewrite countZ_cons, decide_False in Hrc by done. destruct (i <? JS_ATOM_END)%nat; rewrite ?countZ_cons, ?decide_False by done; lia.
  - intros q Hq. destruct (decide (q = p)) as [->|]; [rewrite lookup_insert_eq; eauto|]. rewrite lookup_insert_ne by done.
    apply R2. destruct (i <? JS_ATOM_END)%nat; [by right|done].
  - intros q t Hq Hqt. destruct (decide (q = p)) as [->|]; [rewrite lookup_insert_eq in Hqt; simplify_eq; eauto|].
    rewrite lookup_insert_ne in Hqt by done. eauto.
  - intros k q t Hk Hqt. assert (k <> i) by congruence. assert (q <> p) by (intros ->; by apply (Hne k)).
    rewrite list_lookup_insert_ne by done. split; [done|]. intros u Hu. rewrite lookup_insert_ne in Hqt by done. congruence.
Qed.

Lemma good_perm rt l l' : l ≡ₚ l' -> good rt l -> good rt l'.
Proof.
  intros Hp [Hok [R1 R2]]. split; [done|]. split.
  - intros p s Hs. rewrite <- (countZ_Permutation p l l' Hp). by apply R1.
  - intros p. rewrite <- Hp. apply R2.
Qed.

Lemma content_frame rt rt' k q : atoms_ok rt -> atoms_ok rt' -> frame rt rt' ->
  atom_array rt !! k = Some (S_atom q) -> atom_array rt' !! k = Some (S_atom q) -> content rt' k = content rt k.
Proof.
  intros Hok Hok' [_ F2 F3] Hk Hk'. destruct (ao_slot _ Hok k q Hk) as (s & Hs & _), (ao_slot _ Hok' k q Hk') as (s' & Hs' & _).
  destruct (F2 q s' (ao_clock _ Hok q s Hs) Hs') as (s0 & Hs0 & E & _). assert (s0 = s) as -> by congruence.
  destruct (F3 k q s' Hk Hs') as [_ Ht]. unfold content. rewrite (slot_Some rt k q s), (slot_Some rt' k q s') by done.
  simpl. by rewrite E, (Ht s Hs).
Qed.

Lemma fresh_frame rt rt' ty str : atoms_ok rt -> atoms_ok rt' -> frame rt rt' ->
  (forall k q, atom_array rt' !! k = Some (S_atom q) -> atom_array rt !! k = Some (S_atom q) \/ k = 0%nat) ->
  fresh_content rt ty str -> fresh_content rt' ty str.
Proof.
  intros Hok Hok' Hfr Hat Hf Hty k Hk. destruct (slot (atom_array rt') (strings rt') k) as [s|] eqn:Es; [|unfold content in Hk; by rewrite Es in Hk].
  destruct (slot_get rt' k s Es) as (q & _ & Hkq & Hq). destruct (Hat k q Hkq) as [Hk0|Hk0].
  - apply (Hf Hty k). by rewrite <- (content_frame rt rt' k q).
  - subst k. pose proof (slot_is_ok rt' 0 s Hok' Es) as Hso. unfold content in Hk. rewrite Es in Hk. simpl in Hk. injection Hk as <- _.
    destruct (hashed s) eqn:Hh; [|by destruct Hso as [[? _]|[[E|E] _]]; [|unfold hashed in Hh; by rewrite E in Hh..]].
    destruct (bucket_chain rt' 0 s Hok' Es Hh) as (h & c & _ & Hin & Hc & _). by apply (chain_nonzero _ _ _ _ Hc) in Hin.
Qed.

Lemma resize_good rt held n : good rt held -> power2 n ->
  exists rt', JS_ResizeAtomHash mem rt n = Some rt' /\ good rt' held /\ frame rt rt' /\ atom_array rt' = atom_array rt.
Proof.
  intros [Hok [R1 R2]] Hn. destruct (resize_ok mem rt n Hok Hn) as (rt' & E & Hok' & Ha & Hr & Hc). exists rt'. split_and!; [done| | |done].
  - split; [done|]. split.
    + intros p s Hs. destruct (relinked_ref _ _ _ _ Hr Hs) as (s0 & Hs0 & <- & _). rewrite Ha. by apply R1.
    + intros p Hp. destruct (R2 p Hp) as [s Hs]. destruct (relinked_lookup _ _ _ _ Hr Hs) as [m Hm]. by eexists.
  - split; [done|..].
    + intros q s' _ Hs. destruct (relinked_ref _ _ _ _ Hr Hs) as (s0 & Hs0 & _ & E1 & E2 & _). eauto.
    + intros k q s' Hk Hs. rewrite Ha. split; [done|]. intros s Hs'. destruct (relinked_ref _ _ _ _ Hr Hs) as (s0 & Hs0 & _ & _ & _ & E3). congruence.
Qed.

(** The type and hash of a new atom. *)
Definition new_kind (str : list Z) (h ty : Z) : Prop :=
  (ty = JS_ATOM_TYPE_SYMBOL /\ (h = 0 \/ h = JS_ATOM_HASH_PRIVATE)) \/
  ((ty = JS_ATOM_TYPE_STRING \/ ty = JS_ATOM_TYPE_GLOBAL_SYMBOL) /\ h = Z.land (hash_string str ty) JS_ATOM_HASH_MASK).

Lemma register_good rt held p s h ty : good rt (p :: held) -> strings rt !! p = Some s -> atom_type s = 0 -> atom_free_index rt <> 0%nat ->
  new_kind (chars s) h ty -> fresh_content rt ty (chars s) ->
  let i := atom_free_index rt in
  exists rt', register_atom mem rt p h ty = Some (rt', i) /\ good rt' (if (i <? JS_ATOM_END)%nat then held else p :: held) /\ frame rt rt' /\
    (exists f, atom_array rt !! i = Some (S_free f)) /\ atom_array rt' = <[i := S_atom p]> (atom_array rt) /\ content rt' i = Some (ty, chars s).
Proof.
  intros Hg Hs Hty Hi0 Hk Hfresh i. pose proof (proj1 Hg) as Hok. destruct (ao_free _ Hok) as (fl & F1 & _ & F3).
  assert (Hfree : exists next, atom_array rt !! i = Some (S_free next)).
  { apply F3. destruct fl as [|i' fl]; [done|]. destruct F1 as (E & _). unfold i. rewrite E. by left. }
  destruct Hfree as [next Hi]. pose proof (lookup_lt_Some _ _ _ Hi) as Hlt.
  assert (Hpost : forall rt' st, atom_array rt' = <[i := S_atom p]> (atom_array rt) -> strings rt' = st ->
    (exists n, st !! p = Some (mkString (chars s) (is_wide_char s) h ty n (ref_count s))) -> content rt' i = Some (ty, chars s)).
  { intros rt' st Ha <- [n Hn]. unfold content, slot. rewrite Ha, list_lookup_insert_eq by done. by rewrite Hn. }
  unfold register_atom. fold i. rewrite Hi, Hs. cbn [mbind option_bind]. destruct Hk as [[-> Hh]|[Hty' Eh]].
  - rewrite Z.eqb_refl. eexists. split; [done|].
    destruct (link_good rt held p s h JS_ATOM_TYPE_SYMBOL i (atom_hash rt) next Hg Hs Hty Hi Hi0 ltac:(left; done) Hfresh) as [Hg' Hfr'].
    split_and!; [exact Hg'|exact Hfr'|eauto|done|]. eapply Hpost; [done|done|]. exists i. apply lookup_insert_eq.
  - assert (ty =? JS_ATOM_TYPE_SYMBOL = false) as -> by (by destruct Hty' as [-> | ->]).
    pose proof (hash_bucket_lt h _ (ao_size _ Hok)) as Hb. destruct (lookup_lt_is_Some_2 _ _ Hb) as [hd Ehd]. rewrite Ehd. cbn [mbind option_bind].
    destruct (link_good rt held p s h ty hd (<[bucket_of h (length (atom_hash rt)) := i]> (atom_hash rt)) next Hg Hs Hty Hi Hi0 ltac:(right; done) Hfresh) as [Hg' Hfr'].
    fold i in Hg', Hfr'. match type of Hg' with good ?r _ => set (rt1 := r) in * end. cbn [atom_count rt1].
    destruct (_ <=? _).
    + destruct (resize_good rt1 _ (length (atom_hash rt) * 2) Hg') as (rt2 & E2 & Hg2 & Hfr2 & Ha2).
      { destruct (ao_size _ Hok) as [k ->]. exists (S k). simpl. lia. }
      rewrite E2. cbn [mbind option_bind]. exists rt2. split_and!; [done|exact Hg2|eapply frame_trans; eauto|eauto|by rewrite Ha2|].
      transitivity (content rt1 i); [|eapply Hpost; [done|done|]; exists hd; apply lookup_insert_eq].
      apply (content_frame rt1 rt2 i p); [apply Hg'|apply Hg2|done|..]; rewrite ?Ha2; by apply list_lookup_insert_eq.
    + exists rt1. split_and!; [done|exact Hg'|exact Hfr'|eauto|done|]. eapply Hpost; [done|done|]. exists hd. apply lookup_insert_eq.
Qed.

(** ** Creating an atom *)

Definition opt_ref (str : option nat) : list nat := match str with Some q => [q] | None => [] end.
Definition opt_text (rt : JSRuntime) (str : option nat) : list Z :=
  match str with Some q => match strings rt !! q with Some s => chars s | None => [] end | None => [] end.

Lemma drop_opt rt held str : good rt (opt_ref str ++ held) ->
  exists rt', free_opt rt str = Some rt' /\ good rt' held /\ frame rt rt' /\
    forall k q, atom_array rt' !! k = Some (S_atom q) -> atom_array rt !! k = Some (S_atom q).
Proof.
  intros Hg. destruct str as [q|]; [|exists rt; split_and!; [done|done|apply frame_refl|done]].
  destruct (drop_string rt held q Hg) as (rt' & E & [D1 D2 _ D4 _ _]). exists rt'. split_and!; [done|done|done|].
  intros k p Hk. case_decide; [by apply D4 in Hk as [Hk _]|by rewrite <- D4].
Qed.

Lemma atom_string_good rt held str ty : good rt (opt_ref str ++ held) -> atom_array rt <> [] -> atom_free_index rt <> 0%nat ->
  exists rt' r, atom_string mem rt str ty = Some (rt', r) /\ frame rt rt' /\
    (forall k q, atom_array rt' !! k = Some (S_atom q) -> atom_array rt !! k = Some (S_atom q)) /\ atom_size rt' = atom_size rt /\
    match r with
    | Some p => good rt' (p :: held) /\ atom_free_index rt' <> 0%nat /\
        exists s, strings rt' !! p = Some s /\ atom_type s = 0 /\ chars s = opt_text rt str
    | None => good rt' (opt_ref str ++ held) /\ exists n, mem n = false
    end.
Proof.
  intros Hg Hne Hf. destruct str as [q|]; cbn [atom_string opt_ref opt_text app] in *.
  2: { destruct (new_string mem rt _) as [rt' r] eqn:E. destruct (new_string_ok rt held (mkString [] true 0 0 0 1) rt' r Hg eq_refl eq_refl E) as (A1 & A2 & A3 & A4 & A5).
       exists rt', r. split_and!; [done|done|by rewrite A1|unfold atom_size; by rewrite A1|]. destruct r as [p|]; [|by destruct A5 as (? & _ & ?)].
       destruct A5 as (G & St & _). split_and!; [done|by rewrite A3|]. eexists. rewrite St, lookup_insert_eq. done. }
  pose proof Hg as [Hok [R1 R2]]. destruct (R2 q ltac:(by left)) as [s Hs]. rewrite Hs. cbn [mbind option_bind].
  destruct (Z.eqb_spec (atom_type s) 0) as [Ht|Ht].
  { exists rt, (Some q). split_and!; [done|apply frame_refl|done|done|done|done|]. eauto. }
  destruct (new_string mem rt _) as [rt1 r] eqn:E. destruct (new_string_ok rt (q :: held) (mkString (chars s) (is_wide_char s) 0 0 0 1) rt1 r Hg eq_refl eq_refl E) as (A1 & A2 & A3 & A4 & A5).
  destruct r as [p|]; [|by exists rt1, None; unfold atom_size; rewrite A1; destruct A5 as (? & _ & ?); split_and!].
  destruct A5 as (G1 & St & Hpn & _). assert (G1' : good rt1 (q :: p :: held)) by (eapply good_perm; [apply Permutation_swap|exact G1]).
  destruct (drop_string rt1 (p :: held) q G1') as (rt2 & E2 & [D1 D2 D3 D4 D5 D6]). rewrite E2. cbn [mbind option_bind].
  exists rt2, (Some p).
  assert (Hat : forall k q', atom_array rt2 !! k = Some (S_atom q') -> atom_array rt !! k = Some (S_atom q')).
  { intros k q' Hk. rewrite <- A1. case_decide; [by apply D4 in Hk as [Hk _]|by rewrite <- D4]. }
  split_and!; [done|by eapply frame_trans|done|unfold atom_size; by rewrite D5, A1|done|apply D6; congruence|].
  destruct (ro_live _ _ (proj2 D1) p ltac:(by left)) as [s2 Hs2]. exists s2. split; [done|].
  assert (Hp1 : strings rt1 !! p = Some (mkString (chars s) (is_wide_char s) 0 0 0 1)) by (rewrite St; apply lookup_insert_eq).
  destruct (fr_text _ _ D2 p s2 (ao_clock _ (proj1 G1) p _ Hp1) Hs2) as (s1 & Hs1 & E1 & _).
  rewrite Hp1 in Hs1. injection Hs1 as <-. split; [|by rewrite <- E1].
  destruct (Z.eq_dec (atom_type s2) 0) as [|Hn]; [done|]. destruct (ao_home _ (proj1 D1) p s2 Hs2 Hn) as [k Hk]. apply Hat in Hk.
  destruct (ao_slot _ Hok k p Hk) as (t & Htt & _). congruence.
Qed.

(** The atom that is returned: an index whose string is held unless the atom
    is predefined; 0 when the creation failed. *)
Record created (rt rt' : JSRuntime) (held : list nat) (ty : Z) (str : list Z) (i : nat) : Prop := {
  cr_good : good rt' (atom_ref rt' i ++ held);
  cr_frame : frame rt rt';
  cr_fail : i = 0%nat -> refused rt;
  cr_small : Z.of_nat i <= JS_ATOM_MAX;
  cr_content : i <> 0%nat -> content rt' i = Some (ty, str);
  cr_entries : forall k q, atom_array rt' !! k = Some (S_atom q) -> atom_array rt !! k = Some (S_atom q) \/ k = i \/ k = 0%nat;
}.

Lemma new_entry_good rt held str h ty : good rt (opt_ref str ++ held) -> atom_size rt <= max_atom_size ->
  new_kind (opt_text rt str) h ty -> fresh_content rt ty (opt_text rt str) ->
  exists rt' i, new_entry mem rt str h ty = Some (rt', i) /\ created rt rt' held ty (opt_text rt str) i /\
    (i <> 0%nat -> forall k q, atom_array rt !! k = Some (S_atom q) -> is_Some (strings rt' !! q) -> k <> i).
Proof.
  intros Hg Hsz Hk Hfresh. unfold new_entry.
  destruct (if (atom_free_index rt =? 0)%nat then grow_array mem rt else (rt, true)) as [rt1 ok] eqn:E1.
  assert (H1 : good rt1 (opt_ref str ++ held) /\ frame rt rt1 /\
    (forall k q, atom_array rt1 !! k = Some (S_atom q) -> atom_array rt !! k = Some (S_atom q) \/ k = 0%nat) /\
    (if ok then atom_free_index rt1 <> 0%nat /\ atom_size rt1 <= JS_ATOM_MAX else refused rt)).
  { destruct (Nat.eqb_spec (atom_free_index rt) 0) as [E0|E0]; [by apply grow_good|]. injection E1 as <- <-. split_and!; [done|apply frame_refl|auto|done|unfold max_atom_size in Hsz; change JS_ATOM_MAX with 1073741823; lia]. }
  destruct H1 as (G1 & F1 & A1 & Hok1). pose proof (proj1 Hg) as Hok.
  assert (Hnull : forall rt', good rt' held -> good rt' (atom_ref rt' 0 ++ held)) by done.
  destruct ok; cbn [negb].
  2: { destruct (drop_opt rt1 held str G1) as (rt2 & E2 & G2 & F2 & A2). rewrite E2. cbn [mbind option_bind]. exists rt2, 0%nat.
       split_and!; [done| |done]. split; [by apply Hnull|by eapply frame_trans|done|done|done|].
       intros k q Hkq. destruct (A1 k q (A2 k q Hkq)); auto. }
  destruct Hok1 as [Hok1 Hsz1].
  assert (Hne1 : atom_array rt1 <> []).
  { intros Ea. destruct (ao_free _ (proj1 G1)) as (fl & C1 & _ & C3). destruct fl as [|i fl]; [done|].
    destruct (proj1 (C3 i) ltac:(by left)) as [n Hn]. by rewrite Ea in Hn. }
  destruct (atom_string_good rt1 held str ty G1 Hne1 Hok1) as (rt2 & r & E2 & F2 & A2 & Hsz2 & Hr). rewrite E2. cbn [mbind option_bind].
  assert (F12 : frame rt rt2) by by eapply frame_trans.
  assert (A12 : forall k q, atom_array rt2 !! k = Some (S_atom q) -> atom_array rt !! k = Some (S_atom q) \/ k = 0%nat) by eauto.
  assert (Htext : opt_text rt1 str = opt_text rt str).
  { destruct str as [q|]; [|done]. simpl. destruct (ro_live _ _ (proj2 G1) q ltac:(by left)) as [s1 Hs1]. rewrite Hs1.
    destruct (ro_live _ _ (proj2 Hg) q ltac:(by left)) as [s0 Hs0]. rewrite Hs0.
    destruct (fr_text _ _ F1 q s1 (ao_clock _ Hok q s0 Hs0) Hs1) as (s0' & Hs0' & E & _). congruence. }
  destruct r as [p|].
  2: { destruct Hr as [G2 Hm]. destruct (drop_opt rt2 held str G2) as (rt3 & E3 & G3 & F3 & A3). rewrite E3. cbn [mbind option_bind].
       exists rt3, 0%nat. split_and!; [done| |done]. split; [by apply Hnull|by eapply frame_trans|by left|done|done|].
       intros k q Hkq. destruct (A12 k q (A3 k q Hkq)); auto. }
  destruct Hr as (G2 & Hf2 & s & Hs & Hty & Hch). rewrite Htext in Hch.
  assert (Hfr2 : fresh_content rt2 ty (opt_text rt str)) by (eapply fresh_frame; [exact Hok|apply G2|done|exact A12|done]).
  rewrite <- Hch in *. destruct (register_good rt2 held p s h ty G2 Hs Hty Hf2 Hk Hfr2) as (rt3 & E3 & G3 & F3 & (f & Hfi) & Ha3 & Hc3).
  set (i := atom_free_index rt2) in *. assert (Hi3 : atom_array rt3 !! i = Some (S_atom p)) by (rewrite Ha3; apply list_lookup_insert_eq; by eapply lookup_lt_Some).
  exists rt3, i. split_and!; [done| |].
  - split; [|by eapply frame_trans|done| |done|].
    + unfold atom_ref. rewrite Hi3. by destruct (i <? JS_ATOM_END)%nat.
    + apply lookup_lt_Some in Hfi. unfold atom_size in *. lia.
    + intros k q Hkq. rewrite Ha3 in Hkq. destruct (decide (k = i)) as [->|]; [auto|]. rewrite list_lookup_insert_ne in Hkq by done.
      destruct (A12 k q Hkq); auto.
  - intros _ k q Hkq [s3 Hs3] ->. destruct (ao_slot _ Hok i q Hkq) as (s0 & Hs0 & _).
    pose proof (ao_clock _ Hok q s0 Hs0) as Hlt. pose proof (fr_clock _ _ F12).
    destruct (fr_text _ _ F3 q s3 ltac:(lia) Hs3) as (s2 & Hs2 & _). destruct (fr_index _ _ F12 i q s2 Hkq Hs2) as [Hi2 _]. congruence.
Qed.

Lemma is_const i : Z.of_nat i < 2 ^ 31 -> __JS_AtomIsConst (Z.of_nat i) = (i <? JS_ATOM_END)%nat.
Proof.
  intros Hi. unfold __JS_AtomIsConst. assert (sint 32 (Z.of_nat i) = Z.of_nat i) as ->.
  { unfold sint. rewrite Z.mod_small by lia. change (32 - 1) with 31. destruct (Z.ltb_spec (Z.of_nat i) (2 ^ 31)); lia. }
  destruct (Nat.ltb_spec i JS_ATOM_END), (Z.ltb_spec (Z.of_nat i) (Z.of_nat JS_ATOM_END)); lia.
Qed.

Lemma index_small rt i x : atom_size rt <= max_atom_size -> atom_array rt !! i = Some x -> Z.of_nat i < 2 ^ 31.
Proof. unfold atom_size, max_atom_size. intros Hs Hi. apply lookup_lt_Some in Hi. lia. Qed.

Lemma index_max rt i x : atom_size rt <= max_atom_size -> atom_array rt !! i = Some x -> Z.of_nat i <= JS_ATOM_MAX.
Proof. unfold atom_size, max_atom_size. change JS_ATOM_MAX with 1073741823. intros Hs Hi. apply lookup_lt_Some in Hi. lia. Qed.

Lemma pin_one arr i p : arr !! i = Some (S_atom p) -> (i < JS_ATOM_END)%nat -> pin arr p = 1.
Proof.
  intros Hi Hlt. unfold pin. rewrite bool_decide_eq_true_2; [done|]. apply (list_elem_of_lookup_2 _ i). by rewrite lookup_take_lt.
Qed.

Lemma dup_good rt held p s : good rt held -> strings rt !! p = Some s ->
  exists rt', add_ref rt p 1 = Some rt' /\ good rt' (p :: held) /\ frame rt rt' /\ atom_array rt' = atom_array rt.
Proof.
  intros [Hok [R1 R2]] Hs. destruct (add_ref_ok rt p s 1 Hs Hok) as (rt' & E & -> & Hok' & Hfr). eexists. split; [exact E|]. split_and!; [|done|done].
  split; [done|]. split; cbn [set_strings strings atom_array].
  - intros q t Hq. rewrite countZ_cons. destruct (decide (q = p)) as [->|].
    + rewrite lookup_insert_eq in Hq. injection Hq as <-. destruct (R1 p s Hs). simpl. lia.
    + rewrite lookup_insert_ne in Hq by done. destruct (R1 q t Hq). lia.
  - intros q Hq. destruct (decide (q = p)) as [->|]; [rewrite lookup_insert_eq; eauto|]. rewrite lookup_insert_ne by done.
    apply R2. by apply elem_of_cons in Hq as [->|].
Qed.

Lemma hashed_type s ty : ty = JS_ATOM_TYPE_STRING \/ ty = JS_ATOM_TYPE_GLOBAL_SYMBOL -> atom_type s = ty -> hashed s = true.
Proof. unfold hashed. by intros [-> | ->] ->. Qed.

Lemma same_content rt i k ty str : atoms_ok rt -> ty = JS_ATOM_TYPE_STRING \/ ty = JS_ATOM_TYPE_GLOBAL_SYMBOL ->
  content rt i = Some (ty, str) -> content rt k = Some (ty, str) -> i = k.
Proof.
  intros Hok Hty Hi Hk. unfold content in *. destruct (slot _ _ i) as [s|] eqn:Ei; [|done]. destruct (slot _ _ k) as [t|] eqn:Ek; [|done].
  simpl in *. injection Hi as Ei1 Ei2. injection Hk as Ek1 Ek2. apply (ao_unique _ Hok i k s t); try congruence. by eapply hashed_type.
Qed.

(** [str] is the atom: its index, and the reference moves to the atom. *)
Lemma self_atom_good rt held q s : good rt (q :: held) -> strings rt !! q = Some s -> hashed s = true -> atom_type s <> 0 -> atom_size rt <= max_atom_size ->
  exists rt' i, (i ← js_get_atom_index rt q s; rt ← if __JS_AtomIsConst (Z.of_nat i) then add_ref rt q (-1) else Some rt; Some (rt, i)) = Some (rt', i) /\
    created rt rt' held (atom_type s) (chars s) i /\ content rt i = Some (atom_type s, chars s).
Proof.
  intros Hg Hs Hh Ht0 Hsz. pose proof (proj1 Hg) as Hok. destruct (ao_home _ Hok q s Hs Ht0) as [i Hi]. pose proof (slot_Some rt i q s Hi Hs) as Esl.
  destruct (bucket_chain rt i s Hok Esl Hh) as (h & c & Eh & Hin & Hc & _ & Hlen & _).
  assert (E : js_get_atom_index rt q s = Some i).
  { unfold js_get_atom_index. unfold hashed in Hh. destruct (Z.eqb_spec (atom_type s) JS_ATOM_TYPE_SYMBOL) as [E|_]; [rewrite E in Hh; by vm_compute in Hh|].
    rewrite Eh. cbn [mbind option_bind]. eapply index_loop_spec; [apply Hok| |exact Hc|exact Hin|done]. lia. }
  rewrite E. cbn [mbind option_bind]. rewrite is_const by (by eapply index_small). pose proof (chain_nonzero _ _ _ _ Hc Hin) as Hi0.
  assert (Hcont : content rt i = Some (atom_type s, chars s)) by (unfold content; by rewrite Esl).
  destruct (Nat.ltb_spec i JS_ATOM_END) as [Hlt|Hge].
  - destruct (add_ref_ok rt q s (-1) Hs Hok) as (rt' & E' & Ert & _ & Hfr). rewrite E'. cbn [mbind option_bind]. exists rt', i. split_and!; [done| |done].
    replace (ref_count s + -1) with (ref_count s - 1) in Ert by lia.
    assert (Hg' : good rt' held).
    { rewrite Ert. apply unref_good; [done|done|]. unfold last_ref. rewrite (pin_one _ i) by done. pose proof (countZ_nonneg q held). lia. }
    assert (Ha : atom_array rt' = atom_array rt) by by rewrite Ert.
    split; [|done|done|by eapply index_max| |intros k p Hk; left; by rewrite <- Ha].
    + unfold atom_ref. by destruct (Nat.ltb_spec i JS_ATOM_END); [|lia].
    + intros _. rewrite <- Hcont. apply (content_frame rt rt' i q); [done|apply Hg'|done|done|by rewrite Ha].
  - exists rt, i. split_and!; [done| |done]. split; [|apply frame_refl|done|by eapply index_max|done|auto].
    unfold atom_ref. rewrite Hi. by destruct (Nat.ltb_spec i JS_ATOM_END); [lia|].
Qed.

(** Another string with the same text is the atom: [str] is released. *)
Lemma found_atom_good rt held q s ty i : good rt (q :: held) -> strings rt !! q = Some s -> atom_type s <> ty ->
  ty = JS_ATOM_TYPE_STRING \/ ty = JS_ATOM_TYPE_GLOBAL_SYMBOL -> i <> 0%nat -> content rt i = Some (ty, chars s) -> atom_size rt <= max_atom_size ->
  exists rt', (rt ← if __JS_AtomIsConst (Z.of_nat i) then Some rt else '(p, _) ← get_atom rt i; add_ref rt p 1;
               rt ← js_free_string rt q; Some (rt, i)) = Some (rt', i) /\
    created rt rt' held ty (chars s) i.
Proof.
  intros Hg Hs Hne Hty Hi0 Hcont Hsz. pose proof (proj1 Hg) as Hok. unfold content in Hcont. destruct (slot _ _ i) as [t|] eqn:Es; [|done].
  simpl in Hcont. injection Hcont as Ht Hch. destruct (slot_get rt i t Es) as (p & Eg & Hi & Hp). assert (Hpq : p <> q) by (intros ->; congruence).
  rewrite is_const by (by eapply index_small). rewrite Eg. cbn [mbind option_bind].
  assert (Hdrop : forall rt1 hl, good rt1 (q :: hl) -> frame rt rt1 -> atom_array rt1 = atom_array rt ->
    (hl = if (i <? JS_ATOM_END)%nat then held else p :: held) ->
    exists rt', (rt ← js_free_string rt1 q; Some (rt, i)) = Some (rt', i) /\ created rt rt' held ty (chars s) i).
  { intros rt1 hl G1 F1 Ha1 Ehl. destruct (drop_string rt1 hl q G1) as (rt2 & E2 & [D1 D2 _ D4 _ _]). rewrite E2. cbn [mbind option_bind].
    exists rt2. split; [done|]. assert (F2 : frame rt rt2) by by eapply frame_trans.
    assert (Hi2 : atom_array rt2 !! i = Some (S_atom p)) by (case_decide; [apply D4; by rewrite Ha1|by rewrite D4, Ha1]).
    split; [|done|done|by eapply index_max| |].
    - unfold atom_ref. rewrite Hi2. destruct (i <? JS_ATOM_END)%nat; by subst hl.
    - intros _. rewrite (content_frame rt rt2 i p) by (done || apply D1). unfold content. rewrite Es. simpl. by rewrite Ht, Hch.
    - intros k p' Hk. left. rewrite <- Ha1. case_decide; [by apply D4 in Hk as [Hk _]|by rewrite <- D4]. }
  destruct (i <? JS_ATOM_END)%nat eqn:Ei; cbn [mbind option_bind].
  - apply (Hdrop rt held); [done|apply frame_refl|done|done].
  - destruct (dup_good rt (q :: held) p t Hg Hp) as (rt1 & E1 & G1 & F1 & Ha1). rewrite E1. cbn [mbind option_bind].
    apply (Hdrop rt1 (p :: held)); [|done|done|done]. eapply good_perm; [apply Permutation_swap|done].
Qed.

(** A string or a global symbol. *)
Lemma new_atom_good rt held q s ty : good rt (q :: held) -> strings rt !! q = Some s ->
  ty = JS_ATOM_TYPE_STRING \/ ty = JS_ATOM_TYPE_GLOBAL_SYMBOL -> atom_size rt <= max_atom_size ->
  exists rt' i, __JS_NewAtom mem rt (Some q) ty = Some (rt', i) /\ created rt rt' held ty (chars s) i /\
    (forall k, content rt k = Some (ty, chars s) -> i = k).
Proof.
  intros Hg Hs Hty Hsz. pose proof (proj1 Hg) as Hok. unfold __JS_NewAtom. assert (ty <? JS_ATOM_TYPE_SYMBOL = true) as -> by (by destruct Hty as [-> | ->]).
  rewrite Hs. cbn [mbind option_bind]. destruct (Z.eqb_spec (atom_type s) ty) as [E|Hne].
  { destruct (self_atom_good rt held q s Hg Hs) as (rt' & i & E1 & Hcr & Hc); [by eapply hashed_type|rewrite E; by destruct Hty as [-> | ->]|done|]. rewrite E in *.
    exists rt', i. split_and!; [done|done|]. intros k. by apply same_content. }
  destruct (lookup_spec rt (chars s) ty Hok Hty) as (i0 & r & E0 & Er & Hr). rewrite E0. cbn [mbind option_bind]. rewrite Er. cbn [mbind option_bind].
  destruct Hr as [[-> Hno]|[Hr0 Hc]].
  - cbn [Nat.eqb negb]. assert (Htx : opt_text rt (Some q) = chars s) by (simpl; by rewrite Hs).
    destruct (new_entry_good rt held (Some q) (Z.land (hash_string (chars s) ty) JS_ATOM_HASH_MASK) ty Hg Hsz) as (rt' & i & E & Hcr & _).
    { rewrite Htx. by right. } { intros _. by rewrite Htx. }
    exists rt', i. rewrite <- Htx at 2. split_and!; [done|done|]. intros k Hk. by destruct (Hno k).
  - destruct (Nat.eqb_spec r 0) as [|_]; [done|]. cbn [negb].
    destruct (found_atom_good rt held q s ty r Hg Hs Hne Hty Hr0 Hc Hsz) as (rt' & E & Hcr). exists rt', r. split_and!; [done|done|].
    intros k. by apply same_content.
Qed.

(** A symbol is never an existing atom. *)
Lemma new_symbol_good rt held str ty : good rt (opt_ref str ++ held) -> JS_ATOM_TYPE_SYMBOL <= ty -> atom_size rt <= max_atom_size ->
  exists rt' i, __JS_NewAtom mem rt str ty = Some (rt', i) /\ created rt rt' held JS_ATOM_TYPE_SYMBOL (opt_text rt str) i /\
    (i <> 0%nat -> forall k q, atom_array rt !! k = Some (S_atom q) -> is_Some (strings rt' !! q) -> k <> i).
Proof.
  intros Hg Hty Hsz. unfold __JS_NewAtom. destruct (Z.ltb_spec ty JS_ATOM_TYPE_SYMBOL); [lia|].
  apply new_entry_good; [done|done| |intros Hn; by destruct Hn]. left. split; [done|]. destruct (ty =? JS_ATOM_TYPE_SYMBOL); auto.
Qed.
End proofs.

(** ** Integers as atoms *)

(** The text of a natural number. *)
Definition print_nat (n : Z) : list Z := digit_char <$> digits_of 10 n.

Lemma num_loop_spec p : forall n m, 0 <= n < 2 ^ 32 ->
  num_loop n p = Some m <-> Forall (fun c => is_num c = true) p /\ m = fold_left (fun v d => v * 10 + d) ((fun c => c - 48) <$> p) n /\ m < 2 ^ 32.
Proof.
  assert (Hmono : forall l v, Forall (fun c => is_num c = true) l -> 0 <= v -> v <= fold_left (fun v d => v * 10 + d) ((fun c => c - 48) <$> l) v).
  { induction l as [|c l IH]; intros v Hl Hv; cbn [fmap list_fmap fold_left]; [lia|]. apply Forall_cons in Hl as [Hc Hl]. unfold is_num in Hc. specialize (IH (v * 10 + (c - 48)) Hl ltac:(lia)). lia. }
  induction p as [|c p IH]; intros n m Hn; cbn [num_loop fmap list_fmap fold_left].
  { split; [intros [= <-]; split; [apply Forall_nil_2|split; [done|lia]]|]. by intros (_ & -> & _). }
  rewrite Forall_cons. destruct (is_num c) eqn:Ec; cbn [negb]; [|split; [done|]; by intros ([? _] & _)].
  assert (Hc : 48 <= c <= 57) by (unfold is_num in Ec; lia). rewrite Z.shiftr_div_pow2 by lia.
  destruct (Z.eqb_spec ((n * 10 + (c - 48)) / 2 ^ 32) 0) as [E|E]; cbn [negb].
  - assert (Hlt : n * 10 + (c - 48) < 2 ^ 32) by div_lia. rewrite u32_small by lia. rewrite IH by lia. tauto.
  - split; [done|]. intros ([_ Hp] & -> & Hm). pose proof (Hmono p (n * 10 + (c - 48)) Hp ltac:(lia)). destruct E. apply Z.div_small. lia.
Qed.

Lemma digit_chars ds : digits_in 10 ds -> (fun c => c - 48) <$> (digit_char <$> ds) = ds /\ Forall (fun c => is_num c = true) (digit_char <$> ds).
Proof.
  induction 1 as [|d ds Hd _ [IH1 IH2]]; [by split; [|constructor]|]. cbn [fmap list_fmap]. rewrite digit_char_10 by lia. change (chr "0") with 48. split.
  - f_equal; [lia|exact IH1].
  - constructor; [unfold is_num; lia|exact IH2].
Qed.

Lemma num_chars l : Forall (fun c => is_num c = true) l -> exists ds, digits_in 10 ds /\ l = digit_char <$> ds /\ (fun c => c - 48) <$> l = ds.
Proof.
  intros Hl. exists ((fun c => c - 48) <$> l). assert (Hd : digits_in 10 ((fun c => c - 48) <$> l)).
  { unfold digits_in. rewrite Forall_fmap. eapply Forall_impl; [exact Hl|]. intros c Hc. unfold is_num in Hc. simpl. lia. }
  split_and!; [done| |done]. rewrite <- list_fmap_compose. symmetry. rewrite <- (list_fmap_id l) at 2. apply list_fmap_ext.
  intros k c Hk. rewrite Forall_lookup in Hl. specialize (Hl k c Hk). unfold is_num in Hl. simpl. rewrite digit_char_10 by lia. change (chr "0") with 48. lia.
Qed.

(** A string is a number exactly when it is what the number prints as. *)
Lemma is_num_string_spec str n : is_num_string str = Some n <-> 0 <= n < 2 ^ 32 /\ str = print_nat n.
Proof.
  assert (Hcanon : forall n, 0 <= n -> canonical 10 n (digits_of 10 n)) by (intros; apply digits_of_canonical; lia).
  unfold is_num_string, print_nat. split.
  - destruct ((length str =? 0)%nat || (10 <? length str)%nat); [done|]. destruct str as [|c p]; [done|].
    destruct (is_num c) eqn:Ec; cbn [negb]; [|done]. destruct (Z.eqb_spec c 48) as [->|Hc].
    + destruct p as [|c' p]; simpl; [|done]. intros [= <-]. done.
    + intros Hl. assert (Hcr : 49 <= c <= 57) by (unfold is_num in Ec; lia). apply num_loop_spec in Hl as (Hp & Hm & Hb); [|lia].
      destruct (num_chars (c :: p) ltac:(by constructor)) as (ds & Hds & Es & Eds). cbn [fmap list_fmap] in Eds.
      assert (Hv : dval 10 ds = n) by (rewrite <- Eds; unfold dval; simpl; by rewrite Hm). pose proof (dval_bounds 10 ltac:(lia) ds Hds).
      split; [lia|]. rewrite Es. f_equal. apply digits_unique; [lia|lia|]. split; [done|done|]. right. eexists _, _. split; [by rewrite <- Eds|lia].
  - intros [Hn ->]. destruct (Hcanon n ltac:(lia)) as [Hd Hv Hf]. destruct (digit_chars _ Hd) as [E1 E2].
    assert (Hlen : (length (digits_of 10 n) <= 10)%nat).
    { destruct Hf as [->|(d & l & E & Hpos)]; [simpl; lia|]. rewrite E in *. rewrite dval_cons in Hv. inv_subst Hd.
      assert (0 <= dval 10 l) by (apply dval_bounds; [lia|done]). simpl. destruct (decide (10 <= length l)%nat) as [Hl|]; [|lia].
      pose proof (Z.pow_le_mono_r 10 10 (Z.of_nat (length l)) ltac:(lia) ltac:(lia)). nia. }
    destruct Hf as [E|(d & l & E & Hpos)]; rewrite E in *.
    + unfold dval in Hv. simpl in Hv. by subst.
    + cbn [fmap list_fmap length] in *. rewrite length_fmap. destruct (Nat.eqb_spec (S (length l)) 0); [lia|]. destruct (Nat.ltb_spec 10 (S (length l))); [lia|].
      cbn [orb]. apply Forall_cons in Hd as [Hd _], E2 as [Ec E2]. rewrite Ec. cbn [negb]. injection E1 as Ed El. rewrite digit_char_10 in * by lia. change (chr "0") with 48 in *.
      destruct (Z.eqb_spec (d + 48) 48); [lia|]. apply num_loop_spec; [lia|]. split_and!; [done| |lia].
      unfold dval in *. rewrite El. simpl. by replace (d + 48 - 48) with d by lia.
Qed.

Lemma tag_spec n : 0 <= n < 2 ^ 31 ->
  __JS_AtomFromUInt32 n = 2 ^ 31 + n /\ __JS_AtomIsTaggedInt (2 ^ 31 + n) = true /\ __JS_AtomToUInt32 (2 ^ 31 + n) = n /\
  __JS_AtomIsConst (2 ^ 31 + n) = true.
Proof.
  intros Hn. assert (E : 2 ^ 31 + n = Z.lor (2 ^ 31) n) by (symmetry; by apply (lor_low 31)).
  unfold __JS_AtomFromUInt32, __JS_AtomIsTaggedInt, __JS_AtomToUInt32, __JS_AtomIsConst, JS_ATOM_TAG_INT. split_and!.
  - by rewrite Z.lor_comm.
  - rewrite E, Z.land_comm, Z.land_lor_distr_r, Z.land_diag. apply negb_true_iff, Z.eqb_neq. intros H0.
    apply Z.lor_eq_0_iff in H0 as [H0 _]. lia.
  - replace (2 ^ 32 - 1 - 2 ^ 31) with (2 ^ 31 - 1) by lia. rewrite land_pow2_pred by lia.
    replace (2 ^ 31 + n) with (n + 1 * 2 ^ 31) by lia. rewrite Z.mod_add, Z.mod_small by lia. done.
  - unfold sint. rewrite Z.mod_small by lia. change (32 - 1) with 31. destruct (Z.ltb_spec (2 ^ 31 + n) (2 ^ 31)); [lia|]. apply Z.ltb_lt. pose proof (Nat2Z.is_nonneg JS_ATOM_END). lia.
Qed.

Lemma untagged i : 0 <= i < 2 ^ 31 -> __JS_AtomIsTaggedInt i = false.
Proof.
  intros Hi. unfold __JS_AtomIsTaggedInt, JS_ATOM_TAG_INT. apply negb_false_iff, Z.eqb_eq. apply Z.bits_inj'. intros k Hk.
  rewrite Z.land_spec, Z.pow2_bits_eqb, Z.bits_0 by lia. destruct (Z.eqb_spec 31 k) as [<-|]; [|by rewrite andb_false_r].
  rewrite <- (Z.mod_small i (2 ^ 31)) by lia. by rewrite Z.mod_pow2_bits_high by lia.
Qed.

(** ** What an atom stands for *)

(** The string of an atom: a small integer, or a registered string. *)
Definition atom_text (rt : JSRuntime) (a : Z) : option (list Z) :=
  if __JS_AtomIsTaggedInt a then Some (print_nat (__JS_AtomToUInt32 a))
  else '(ty, str) ← content rt (Z.to_nat a); if ty =? JS_ATOM_TYPE_STRING then Some str else None.

Definition atom_refs (rt : JSRuntime) (a : Z) : list nat :=
  if __JS_AtomIsTaggedInt a then [] else atom_ref rt (Z.to_nat a).

(** Small integers are never registered. *)
Definition keyed (rt : JSRuntime) : Prop :=
  forall i str n, content rt i = Some (JS_ATOM_TYPE_STRING, str) -> is_num_string str = Some n -> JS_ATOM_MAX_INT < n.

(** The invariant of the whole component. *)
Definition interned (rt : JSRuntime) (held : list nat) : Prop := good rt held /\ keyed rt.

Definition is_jsatom (a : Z) : Prop := 0 <= a < 2 ^ 32.

Lemma jsatom_cases a : is_jsatom a -> (0 <= a < 2 ^ 31 /\ __JS_AtomIsTaggedInt a = false) \/
  exists n, 0 <= n < 2 ^ 31 /\ a = 2 ^ 31 + n /\ __JS_AtomIsTaggedInt a = true /\ __JS_AtomToUInt32 a = n.
Proof.
  unfold is_jsatom. intros Ha. destruct (Z.lt_ge_cases a (2 ^ 31)) as [H|H]; [left; split; [lia|apply untagged; lia]|].
  right. exists (a - 2 ^ 31). destruct (tag_spec (a - 2 ^ 31) ltac:(lia)) as (_ & E1 & E2 & _).
  replace (2 ^ 31 + (a - 2 ^ 31)) with a in * by lia. split_and!; [lia|lia|lia|done|done].
Qed.

Lemma print_nat_num n : 0 <= n < 2 ^ 32 -> is_num_string (print_nat n) = Some n.
Proof. intros Hn. by apply is_num_string_spec. Qed.

Lemma text_content rt a str : __JS_AtomIsTaggedInt a = false -> atom_text rt a = Some str ->
  content rt (Z.to_nat a) = Some (JS_ATOM_TYPE_STRING, str).
Proof.
  unfold atom_text. intros ->. destruct (content rt (Z.to_nat a)) as [[ty t]|]; [|done]. simpl.
  destruct (Z.eqb_spec ty JS_ATOM_TYPE_STRING); [|done]. by intros [= <-]; subst.
Qed.

(** Equal strings have equal atoms. *)
Lemma atom_text_inj rt held a b str : interned rt held -> is_jsatom a -> is_jsatom b ->
  atom_text rt a = Some str -> atom_text rt b = Some str -> a = b.
Proof.
  intros [[Hok _] Hk] Ha Hb Ea Eb.
  assert (Hmix : forall n i, 0 <= n < 2 ^ 31 -> content rt i = Some (JS_ATOM_TYPE_STRING, print_nat n) -> False).
  { intros n i Hn Hi. specialize (Hk i _ n Hi (print_nat_num n ltac:(lia))). unfold JS_ATOM_MAX_INT, JS_ATOM_TAG_INT in Hk. lia. }
  destruct (jsatom_cases a Ha) as [[Ra Ta]|(n & Hn & -> & Ta & Ua)], (jsatom_cases b Hb) as [[Rb Tb]|(m & Hm & -> & Tb & Ub)].
  - pose proof (same_content rt _ _ _ _ Hok (or_introl eq_refl) (text_content rt a str Ta Ea) (text_content rt b str Tb Eb)). lia.
  - exfalso. unfold atom_text in Eb. rewrite Tb, Ub in Eb. injection Eb as <-. eapply Hmix; [exact Hm|]. by apply text_content.
  - exfalso. unfold atom_text in Ea. rewrite Ta, Ua in Ea. injection Ea as <-. eapply Hmix; [exact Hn|]. by apply text_content.
  - unfold atom_text in Ea, Eb. rewrite Ta, Ua in Ea. rewrite Tb, Ub in Eb.
    pose proof (print_nat_num n ltac:(lia)). pose proof (print_nat_num m ltac:(lia)). congruence.
Qed.

(** [JS_ATOM_NULL] is a symbol. *)
Lemma null_content rt str : atoms_ok rt -> content rt 0 <> Some (JS_ATOM_TYPE_STRING, str).
Proof.
  intros Hok Hc. unfold content in Hc. destruct (slot _ _ 0) as [s|] eqn:Es; [|done]. simpl in Hc. injection Hc as Ht _.
  destruct (bucket_chain rt 0 s Hok Es ltac:(by eapply hashed_type; [left|])) as (h & c & _ & Hin & Hch & _).
  by apply (chain_nonzero _ _ _ _ Hch) in Hin.
Qed.

Lemma keyed_entries rt rt' i : atoms_ok rt -> atoms_ok rt' -> frame rt rt' -> keyed rt ->
  (forall k q, atom_array rt' !! k = Some (S_atom q) -> atom_array rt !! k = Some (S_atom q) \/ k = i \/ k = 0%nat) ->
  (forall str n, content rt' i = Some (JS_ATOM_TYPE_STRING, str) -> is_num_string str = Some n -> JS_ATOM_MAX_INT < n) -> keyed rt'.
Proof.
  intros Hok Hok' Hfr Hk Hat Hi k str n Hc Hn. destruct (slot (atom_array rt') (strings rt') k) as [s|] eqn:Es; [|unfold content in Hc; by rewrite Es in Hc].
  destruct (slot_get rt' k s Es) as (q & _ & Hkq & _). destruct (Hat k q Hkq) as [Hk0|[->| ->]]; [|by apply (Hi str)|].
  - apply (Hk k str); [|done]. rewrite <- Hc. symmetry. by apply (content_frame rt rt' k q).
  - by apply null_content in Hc.
Qed.

Lemma text_frame rt rt' k q : atoms_ok rt -> atoms_ok rt' -> frame rt rt' -> 0 <= k < 2 ^ 31 ->
  atom_array rt !! Z.to_nat k = Some (S_atom q) -> atom_array rt' !! Z.to_nat k = Some (S_atom q) -> atom_text rt' k = atom_text rt k.
Proof.
  intros Hok Hok' Hfr Hk H1 H2. unfold atom_text. rewrite untagged by done. by rewrite (content_frame rt rt' _ q).
Qed.

(** ** Interning a string *)

(** The outcome of interning [str] in the state [rt]. *)
Record interns (mem : nat -> bool) (rt rt' : JSRuntime) (held : list nat) (str : list Z) (a : Z) : Prop := {
  in_atom : is_jsatom a;
  in_state : interned rt' (atom_refs rt' a ++ held);
  in_frame : frame rt rt';
  in_fail : a = 0 -> refused mem rt;
  in_text : a <> 0 -> atom_text rt' a = Some str;
  in_same : forall b, is_jsatom b -> atom_text rt b = Some str -> a = b;
}.

(** A text that is not that of a small integer. *)
Lemma intern_string mem rt held p s : interned rt (p :: held) -> strings rt !! p = Some s -> atom_size rt <= max_atom_size ->
  (forall n, is_num_string (chars s) = Some n -> JS_ATOM_MAX_INT < n) ->
  exists rt' i, __JS_NewAtom mem rt (Some p) JS_ATOM_TYPE_STRING = Some (rt', i) /\ interns mem rt rt' held (chars s) (Z.of_nat i).
Proof.
  intros [Hg Hk] Hs Hsz Hother. pose proof (proj1 Hg) as Hok.
  destruct (new_atom_good mem rt held p s JS_ATOM_TYPE_STRING Hg Hs (or_introl eq_refl) Hsz) as (rt' & i & E & [C1 C2 C3 C4 C5 C6] & Huniq).
  change JS_ATOM_MAX with 1073741823 in C4. pose proof (untagged (Z.of_nat i) ltac:(lia)) as Et.
  exists rt', i. split; [done|]. split.
  - unfold is_jsatom. lia.
  - unfold atom_refs. rewrite Et, Nat2Z.id. split; [done|]. eapply (keyed_entries rt rt' i); [done|apply C1|done|done|done|]. intros str n Hc Hn.
    destruct (decide (i = 0%nat)) as [->|Hi].
    + apply null_content in Hc; [done|apply C1].
    + rewrite (C5 Hi) in Hc. injection Hc as <-. by apply Hother.
  - done.
  - intros Hi. apply C3. lia.
  - intros Hi. unfold atom_text. rewrite Et, Nat2Z.id, C5 by lia. done.
  - intros b Hb Eb. destruct (jsatom_cases b Hb) as [[Rb Tb]|(m & Hm & -> & Tb & Ub)].
    + rewrite (Huniq (Z.to_nat b)); [lia|]. by apply text_content.
    + exfalso. unfold atom_text in Eb. rewrite Tb, Ub in Eb. injection Eb as Eb.
      specialize (Hother m ltac:(rewrite <- Eb; apply print_nat_num; lia)). unfold JS_ATOM_MAX_INT, JS_ATOM_TAG_INT in Hother. lia.
Qed.

Lemma intern_spec mem rt held p s : interned rt (p :: held) -> strings rt !! p = Some s -> atom_size rt <= max_atom_size ->
  exists rt' a, JS_NewAtomStr mem rt p = Some (rt', a) /\ interns mem rt rt' held (chars s) a.
Proof.
  intros Hint Hs Hsz. pose proof Hint as [Hg Hk]. pose proof (proj1 Hg) as Hok.
  unfold JS_NewAtomStr. rewrite Hs. cbn [mbind option_bind]. cbv zeta.
  destruct (match is_num_string (chars s) with Some n => n <=? JS_ATOM_MAX_INT | None => false end) eqn:Hnum.
  - destruct (is_num_string (chars s)) as [n|] eqn:En; [|done]. rewrite Hnum. apply Z.leb_le in Hnum. apply is_num_string_spec in En as [Hn Hch].
    unfold JS_ATOM_MAX_INT, JS_ATOM_TAG_INT in Hnum. destruct (tag_spec n ltac:(lia)) as (E1 & E2 & E3 & _).
    destruct (drop_string rt held p Hg) as (rt' & E & [D1 D2 _ D4 _ _]). rewrite E. cbn [mbind option_bind]. exists rt', (2 ^ 31 + n).
    rewrite E1. split; [done|].
    assert (Htx : forall r, atom_text r (2 ^ 31 + n) = Some (chars s)) by (intros r; unfold atom_text; by rewrite E2, E3, Hch).
    split; [unfold is_jsatom; lia| |done|lia|by rewrite Htx|].
    + unfold atom_refs. rewrite E2. split; [done|]. eapply (keyed_entries rt rt' 0); [done|apply D1|done|done| |].
      * intros k q Hkq. left. case_decide; [by apply D4 in Hkq as [? _]|by rewrite <- D4].
      * intros str m Hc _. apply null_content in Hc; [done|apply D1].
    + intros b Hb Eb. eapply (atom_text_inj rt (p :: held)); [done|unfold is_jsatom; lia|done|apply Htx|exact Eb].
  - destruct (intern_string mem rt held p s Hint Hs Hsz) as (rt' & i & E & Hin); [intros n En; rewrite En in Hnum; lia|].
    exists rt', (Z.of_nat i). split; [|done]. rewrite E. cbn [mbind option_bind]. destruct (is_num_string (chars s)) as [n|]; [|done]. by rewrite Hnum.
Qed.
