(* ===== verification/AtomsInit.v ===== *)
(** * The predefined atoms

    [JS_InitAtoms] numbers the strings of dyna-atom.h in their order, so that
    the enumeration constants are the atoms of their strings.  The entries of
    the array are used from the first on while none is released. *)
From S2P Require Import Prelude Chains Native Digits Atoms AtomTable AtomsProps.

(** ** The names *)

Fixpoint distinct_names (l : list string) : bool :=
  match l with
  | [] => true
  | n :: l => negb (existsb (String.eqb n) l) && distinct_names l
  end.

Lemma distinct_names_inj l : distinct_names l = true -> forall a b n, l !! a = Some n -> l !! b = Some n -> a = b.
Proof.
  induction l as [|m l IH]; [done|]. simpl. intros [Hm Hl]%andb_true_iff [|a] [|b] n Ha Hb; simpl in *; [done|..|f_equal; by apply (IH Hl a b n)];
    exfalso; first [injection Ha as -> | injection Hb as ->]; apply negb_true_iff, not_true_iff_false in Hm; apply Hm, existsb_exists; exists n;
    rewrite String.eqb_refl, <- list_elem_of_In; split; try done; by eapply list_elem_of_lookup_2.
Qed.

Lemma bytes_of_inj a b : bytes_of a = bytes_of b -> a = b.
Proof.
  intros H. rewrite <- (String.string_of_list_ascii_of_string a), <- (String.string_of_list_ascii_of_string b). f_equal.
  apply (list_fmap_eq_inj (fun c => Z.of_nat (Ascii.nat_of_ascii c))); [|exact H]. intros x y Hxy. apply Nat2Z.inj in Hxy.
  by rewrite <- (Ascii.ascii_nat_embedding x), <- (Ascii.ascii_nat_embedding y), Hxy.
Qed.

Lemma string_names_distinct : distinct_names (take 233 js_atom_init) = true.
Proof. vm_compute. reflexivity. Qed.

Lemma names_not_numbers : forallb (fun n => match is_num_string (bytes_of n) with Some _ => false | None => true end) js_atom_init = true.
Proof. vm_compute. reflexivity. Qed.

Lemma atom_end_value : JS_ATOM_END = 250%nat.
Proof. reflexivity. Qed.

(** What the predefined atom [k] stands for. *)
Definition predefined (k : nat) : option (Z * list Z) :=
  n ← js_atom_init !! (k - 1)%nat; Some (init_type k `min` JS_ATOM_TYPE_SYMBOL, bytes_of n).

(** The next entry to be used is [i], and those after it follow. *)
Definition room (rt : JSRuntime) (i : nat) : Prop :=
  (i = 1%nat /\ atom_array rt = [] /\ atom_free_index rt = 0%nat) \/
  (length (atom_array rt) = 711%nat /\ atom_free_index rt = i /\ i <> 0%nat /\
   forall k, (i <= k < 711)%nat -> atom_array rt !! k = Some (S_free (if (k =? 710)%nat then 0 else S k))).

Section init.
Context (mem : nat -> bool).

Lemma resize_room rt n rt' i : JS_ResizeAtomHash mem rt n = Some rt' -> room rt i -> room rt' i.
Proof.
  unfold JS_ResizeAtomHash. destruct (mem (clock rt)); [|by intros [= <-]].
  destruct (rehash _ _ _ _) as [[st nh]|]; [|done]. by intros [= <-].
Qed.

Lemma resize_array rt n rt' : JS_ResizeAtomHash mem rt n = Some rt' -> atom_array rt' = atom_array rt.
Proof.
  unfold JS_ResizeAtomHash. destruct (mem (clock rt)); [|by intros [= <-]].
  destruct (rehash _ _ _ _) as [[st nh]|]; [|done]. by intros [= <-].
Qed.

Lemma grow_room rt i rt' : room rt i -> atom_free_index rt = 0%nat -> grow_array mem rt = (rt', true) -> room rt' i /\ atom_free_index rt' = i.
Proof.
  intros [(-> & Ha & _)|(_ & E & Hi & _)] Hf; [|congruence]. unfold grow_array, atom_size. rewrite Ha. change (next_atom_size _) with 711.
  change (JS_ATOM_MAX <? 711) with false. cbv iota. destruct (mem (clock rt)); cbn [negb]; [|done].
  change (atom_array (tick rt)) with (atom_array rt). rewrite Ha. unfold new_string. destruct (mem (clock (tick rt))); [|done].
  intros E. apply pair_eq in E as [<- _]. split; [|done]. right. cbn [atom_array atom_free_index]. rewrite take_ge by (simpl; lia). split_and!; [|done|done|].
  - rewrite length_app, free_entries_length. simpl. lia.
  - intros k Hk. rewrite lookup_app_r by (simpl; lia). cbn [length]. rewrite free_entries_lookup by lia.
    by replace (Z.to_nat 711 - 1)%nat with 710%nat by lia.
Qed.

Lemma register_room rt i p h ty rt' a : room rt i -> (i < 710)%nat -> atom_free_index rt = i ->
  register_atom mem rt p h ty = Some (rt', a) -> a = i /\ room rt' (S i) /\
    forall k x, atom_array rt !! k = Some (S_atom x) -> atom_array rt' !! k = Some (S_atom x).
Proof.
  intros Hr Hlt Hf. assert (Hr2 : room rt i) by done. destruct Hr as [(-> & _ & E)|(Hl & _ & Hi & Hk)]; [congruence|].
  unfold register_atom. rewrite Hf, Hk by lia. destruct (Nat.eqb_spec i 710); [lia|].
  destruct (strings rt !! p) as [s|]; [|done]. cbn [mbind option_bind].
  assert (Hins : forall hs c r st cl, room (mkRuntime hs c r (<[i := S_atom p]> (atom_array rt)) (S i) st cl) (S i)).
  { intros. right. cbn [atom_array atom_free_index]. rewrite length_insert. split_and!; [done|done|done|]. intros k Hk'. rewrite list_lookup_insert_ne by lia. apply Hk. lia. }
  assert (Hat : forall k x, atom_array rt !! k = Some (S_atom x) -> <[i := S_atom p]> (atom_array rt) !! k = Some (S_atom x)).
  { intros k x Hx. rewrite list_lookup_insert_ne; [done|]. intros ->. rewrite Hk in Hx by lia. congruence. }
  destruct (ty =? JS_ATOM_TYPE_SYMBOL); [by intros [= <- <-]|]. destruct (atom_hash rt !! _); [|done]. cbn [mbind option_bind].
  destruct (_ <=? _); [|by intros [= <- <-]]. destruct (JS_ResizeAtomHash _ _ _) as [rt2|] eqn:E; [|done]. cbn [mbind option_bind].
  intros [= <- <-]. split_and!; [done|by eapply resize_room|]. intros k x Hx. rewrite (resize_array _ _ _ E). by apply Hat.
Qed.

(** A string made before the growth stays. *)
Lemma grow_strings rt q s rt' : (q < clock rt)%nat -> strings rt !! q = Some s -> grow_array mem rt = (rt', true) -> strings rt' !! q = Some s.
Proof.
  intros Hq Hs E. unfold grow_array in E. destruct (_ <? _); [done|]. destruct (mem (clock rt)); [|done]. cbn [negb] in E.
  destruct (atom_array (tick rt)) as [|x l]; [|by apply pair_eq in E as [<- _]].
  unfold new_string in E. destruct (mem (clock (tick rt))); [|done]. apply pair_eq in E as [<- _]. cbn [strings set_strings tick clock].
  rewrite lookup_insert_ne by lia. done.
Qed.

Lemma new_entry_room rt i q s h ty rt' a : room rt i -> (i < 710)%nat -> (q < clock rt)%nat -> strings rt !! q = Some s -> atom_type s = 0 ->
  new_entry mem rt (Some q) h ty = Some (rt', a) -> a <> 0%nat -> a = i /\ room rt' (S i) /\
    forall k x, atom_array rt !! k = Some (S_atom x) -> atom_array rt' !! k = Some (S_atom x).
Proof.
  intros Hr Hlt Hq Hs Ht. unfold new_entry.
  destruct (if (atom_free_index rt =? 0)%nat then grow_array mem rt else (rt, true)) as [rt1 ok] eqn:E1.
  destruct ok; cbn [negb]; [|destruct (free_opt rt1 (Some q)); [|done]; by intros [= <- <-]].
  assert (H1 : room rt1 i /\ atom_free_index rt1 = i /\ strings rt1 !! q = Some s /\
    forall k x, atom_array rt !! k = Some (S_atom x) -> atom_array rt1 !! k = Some (S_atom x)).
  { destruct (Nat.eqb_spec (atom_free_index rt) 0) as [E0|E0].
    - destruct (grow_room rt i rt1 Hr E0 E1). split_and!; [done|done|by eapply grow_strings|].
      intros k x Hx. destruct Hr as [(_ & Ha & _)|(_ & E & Hi & _)]; [by rewrite Ha in Hx|congruence].
    - injection E1 as <-. split_and!; [done| |done|done]. by destruct Hr as [(_ & _ & ?)|(_ & ? & _)]. }
  destruct H1 as (Hr1 & Hf1 & Hs1 & Ha1). cbn [atom_string]. rewrite Hs1. cbn [mbind option_bind]. rewrite Ht. cbn [Z.eqb]. cbv iota.
  cbn [mbind option_bind]. intros E _. destruct (register_room rt1 i q h ty rt' a Hr1 Hlt Hf1 E) as (-> & Hr' & Ha'). eauto.
Qed.
(** The atoms before [i] are the predefined ones, and there are no others. *)
Definition listed (rt : JSRuntime) (i : nat) : Prop :=
  forall k, k <> 0%nat -> content rt k = if (k <? i)%nat then predefined k else None.

Lemma predefined_inj j k str : (j < 234)%nat -> (k < 234)%nat -> j <> 0%nat -> k <> 0%nat ->
  predefined j = Some (JS_ATOM_TYPE_STRING, str) -> predefined k = Some (JS_ATOM_TYPE_STRING, str) -> j = k.
Proof.
  unfold predefined. intros Hj Hk Hj0 Hk0. destruct (js_atom_init !! (j - 1)%nat) as [a|] eqn:Ea; [|done].
  destruct (js_atom_init !! (k - 1)%nat) as [b|] eqn:Eb; [|done]. simpl. intros [= _ H1] [= _ H2]. rewrite <- H2 in H1. apply bytes_of_inj in H1 as ->.
  assert (j - 1 = k - 1)%nat; [|lia]. apply (distinct_names_inj _ string_names_distinct _ _ b); by rewrite lookup_take_lt by lia.
Qed.

Lemma init_type_string k : init_type k `min` JS_ATOM_TYPE_SYMBOL = JS_ATOM_TYPE_STRING -> (k < 234)%nat.
Proof.
  unfold init_type, JS_ATOM_Private_brand, JS_ATOM_Symbol_toPrimitive. destruct (Nat.eqb_spec k 234); [done|]. destruct (Nat.leb_spec 235 k); [done|]. lia.
Qed.

(** The name [n] is new when its turn comes. *)
Lemma init_fresh rt i n : atoms_ok rt -> listed rt i -> js_atom_init !! (i - 1)%nat = Some n -> i <> 0%nat ->
  fresh_content rt (init_type i `min` JS_ATOM_TYPE_SYMBOL) (bytes_of n).
Proof.
  intros Hok Hl Hn Hi Hty k Hk.
  assert (Hs : init_type i `min` JS_ATOM_TYPE_SYMBOL = JS_ATOM_TYPE_STRING).
  { unfold init_type in *. destruct (_ =? _)%nat; [done|]. by destruct (_ <=? _)%nat. }
  rewrite Hs in Hk. destruct (decide (k = 0%nat)) as [->|Hk0]; [by apply null_content in Hk|]. rewrite (Hl k Hk0) in Hk.
  destruct (Nat.ltb_spec k i) as [Hlt|]; [|done].
  assert (Hi' : predefined i = Some (JS_ATOM_TYPE_STRING, bytes_of n)) by (unfold predefined; rewrite Hn; simpl; by rewrite Hs).
  pose proof (init_type_string i Hs). assert (k = i); [|lia]. by apply (predefined_inj k i (bytes_of n)); [lia|..].
Qed.

Lemma room_size rt i : room rt i -> atom_size rt <= max_atom_size /\ next_atom_size (atom_size rt) <= JS_ATOM_MAX.
Proof. unfold atom_size. intros [(_ & -> & _)|(-> & _)]; by split. Qed.

(** Creating the string leaves the table alone. *)
Lemma new_string_content rt s rt' p : atoms_ok rt -> new_string mem rt s = (rt', Some p) -> forall k, content rt' k = content rt k.
Proof.
  intros Hok E k. unfold new_string in E. destruct (mem (clock rt)); [|done]. apply pair_eq in E as [<- [= <-]].
  unfold content. cbn [atom_array strings set_strings tick]. rewrite slot_other; [done|]. intros j Hj.
  destruct (ao_slot _ Hok j _ Hj) as (u & Hu & _). pose proof (ao_clock _ Hok _ u Hu). lia.
Qed.

(** Neither kind of predefined atom is found in the table. *)
Lemma init_new_entry rt p s ty : atoms_ok rt -> strings rt !! p = Some s -> atom_type s = 0 -> fresh_content rt (ty `min` JS_ATOM_TYPE_SYMBOL) (chars s) ->
  ty = JS_ATOM_TYPE_STRING \/ JS_ATOM_TYPE_SYMBOL <= ty ->
  exists h, __JS_NewAtom mem rt (Some p) ty = new_entry mem rt (Some p) h (ty `min` JS_ATOM_TYPE_SYMBOL) /\ new_kind (chars s) h (ty `min` JS_ATOM_TYPE_SYMBOL).
Proof.
  intros Hok Hs Ht Hf [->|Hty]; unfold __JS_NewAtom.
  - change (JS_ATOM_TYPE_STRING <? JS_ATOM_TYPE_SYMBOL) with true. rewrite Hs. cbn [mbind option_bind]. rewrite Ht.
    change (0 =? JS_ATOM_TYPE_STRING) with false. cbv iota. change (JS_ATOM_TYPE_STRING `min` JS_ATOM_TYPE_SYMBOL) with JS_ATOM_TYPE_STRING in *.
    destruct (lookup_spec rt (chars s) JS_ATOM_TYPE_STRING Hok (or_introl eq_refl)) as (i0 & r & -> & Er & Hr). cbn [mbind option_bind].
    rewrite Er. cbn [mbind option_bind]. destruct Hr as [[-> _]|[_ Hc]]; [|by destruct (Hf ltac:(done) r)].
    eexists. split; [done|]. right. split; [by left|done].
  - destruct (Z.ltb_spec ty JS_ATOM_TYPE_SYMBOL); [lia|]. rewrite Z.min_r by done. eexists. split; [done|]. left. split; [done|].
    destruct (ty =? JS_ATOM_TYPE_SYMBOL); auto.
Qed.

Lemma listed_step rt rt' i a ty str : atoms_ok rt -> atoms_ok rt' -> listed rt i -> created mem rt rt' [] ty str a -> a = i -> i <> 0%nat ->
  predefined i = Some (ty, str) -> (forall k x, atom_array rt !! k = Some (S_atom x) -> atom_array rt' !! k = Some (S_atom x)) -> listed rt' (S i).
Proof.
  intros Hok Hok' Hl [_ C2 _ _ C5 C6] -> Hi0 Hp Hat k Hk. destruct (Nat.ltb_spec k (S i)) as [Hlt|Hge].
  - destruct (decide (k = i)) as [->|Hne]; [by rewrite (C5 Hi0)|]. specialize (Hl k Hk). destruct (Nat.ltb_spec k i); [|lia]. rewrite <- Hl.
    destruct (atom_array rt !! k) as [[f|q]|] eqn:Ek.
    2: by apply (content_frame rt rt' k q); [..|apply Hat].
    all: assert (Hnone : predefined k = None) by (rewrite <- Hl; unfold content, slot; by rewrite Ek).
    all: unfold predefined in Hnone, Hp; destruct (js_atom_init !! (i - 1)%nat) as [n|] eqn:En; [|done]; apply lookup_lt_Some in En.
    all: destruct (lookup_lt_is_Some_2 js_atom_init (k - 1)%nat ltac:(lia)) as [m Em]; by rewrite Em in Hnone.
  - destruct (content rt' k) as [c|] eqn:Ec; [|done]. unfold content in Ec. destruct (slot (atom_array rt') (strings rt') k) as [s|] eqn:Es; [|done].
    destruct (slot_get rt' k s Es) as (q & _ & Hq & _). destruct (C6 k q Hq) as [Hq'|[?|?]]; [|lia|lia].
    destruct (ao_slot _ Hok k q Hq') as (t & Ht & _). specialize (Hl k Hk). destruct (Nat.ltb_spec k i); [lia|].
    unfold content in Hl. by rewrite (slot_Some rt k q t Hq' Ht) in Hl.
Qed.

Lemma init_step rt i n : interned rt [] -> room rt i -> listed rt i -> js_atom_init !! (i - 1)%nat = Some n -> i <> 0%nat ->
  exists rt' a, __JS_NewAtomInit mem rt n (init_type i) = Some (rt', a) /\ (a = 0%nat -> exists m, mem m = false) /\
    (a <> 0%nat -> interned rt' [] /\ room rt' (S i) /\ listed rt' (S i)).
Proof.
  intros [Hg Hk] Hr Hl Hn Hi0. pose proof (lookup_lt_Some _ _ _ Hn) as Hlt. pose proof atom_end_value as Hend. unfold JS_ATOM_END in Hend.
  unfold __JS_NewAtomInit, js_alloc_string_rt. set (s := mkString (bytes_of n) false 0 0 0 1).
  destruct (new_string mem rt s) as [rt1 r] eqn:E. destruct (new_string_ok mem rt [] s rt1 r Hg eq_refl eq_refl E) as (A1 & A2 & A3 & A4 & A5).
  destruct r as [p|]; [|exists rt1, 0%nat; split_and!; [done|by destruct A5 as (_ & _ & ?)|done]]. destruct A5 as (G1 & St & _ & Hp).
  pose proof (new_string_content rt s rt1 p (proj1 Hg) E) as Hc1. assert (Hl1 : listed rt1 i) by (intros k Hk0; rewrite Hc1; by apply Hl).
  assert (Hs1 : strings rt1 !! p = Some s) by (rewrite St; apply lookup_insert_eq).
  assert (Hr1 : room rt1 i) by (unfold room in *; by rewrite A1, A3). pose proof (room_size rt1 i Hr1) as [Hsz Hmax].
  pose proof (init_fresh rt1 i n (proj1 G1) Hl1 Hn Hi0) as Hf.
  destruct (init_new_entry rt1 p s (init_type i) (proj1 G1) Hs1 eq_refl Hf) as (h & -> & Hkind).
  { unfold init_type. destruct (_ =? _)%nat; [by right|]. destruct (_ <=? _)%nat; [by right|by left]. }
  set (ty := init_type i `min` JS_ATOM_TYPE_SYMBOL) in *. assert (Htx : opt_text rt1 (Some p) = bytes_of n) by (simpl; by rewrite Hs1).
  destruct (new_entry_good mem rt1 [] (Some p) h ty G1 Hsz ltac:(by rewrite Htx) ltac:(by rewrite Htx)) as (rt' & a & E' & Hcr & _). rewrite Htx in Hcr.
  exists rt', a. split_and!; [done|intros Ha; destruct (cr_fail _ _ _ _ _ _ _ Hcr Ha) as [|]; [done|lia]|]. intros Ha.
  destruct (new_entry_room rt1 i p s h ty rt' a Hr1 ltac:(lia) (ao_clock _ (proj1 G1) p s Hs1) Hs1 eq_refl E' Ha) as (-> & Hr' & Hat).
  assert (Hg' : good rt' []) by (pose proof (cr_good _ _ _ _ _ _ _ Hcr) as G; unfold atom_ref in G; by destruct (Nat.ltb_spec i JS_ATOM_END); [|unfold JS_ATOM_END in *; lia]).
  split_and!; [|done|eapply (listed_step rt1); [apply G1|apply Hg'|done|exact Hcr|done|done| |done]; unfold predefined; by rewrite Hn].
  split; [done|]. eapply (keyed_entries rt1 rt' i); [apply G1|apply Hg'|apply Hcr| |apply Hcr|].
  - intros k str m. rewrite Hc1. apply Hk.
  - intros str m Hc Hm. rewrite (cr_content _ _ _ _ _ _ _ Hcr Ha) in Hc. injection Hc as _ <-.
    pose proof names_not_numbers as Hnn. rewrite forallb_forall in Hnn. specialize (Hnn n ltac:(apply list_elem_of_In; by eapply list_elem_of_lookup_2)).
    by rewrite Hm in Hnn.
Qed.

Lemma init_loop_spec names : forall rt i, interned rt [] -> room rt i -> listed rt i -> drop (i - 1) js_atom_init = names -> i <> 0%nat ->
  exists rt' ok, init_loop mem rt i names = Some (rt', ok) /\
    if (ok : bool) then interned rt' [] /\ listed rt' JS_ATOM_END /\ atom_size rt' <= 711 else exists m, mem m = false.
Proof.
  induction names as [|n names IH]; intros rt i Hint Hr Hl Hd Hi0; cbn [init_loop].
  - exists rt, true. split_and!; [done|done| |].
    + intros k Hk. rewrite (Hl k Hk). apply (f_equal length) in Hd. rewrite length_drop in Hd. cbn [length] in Hd.
      unfold predefined, JS_ATOM_END. destruct (js_atom_init !! (k - 1)%nat) as [m|] eqn:Em; [|by destruct (_ <? _)%nat, (_ <? _)%nat].
      apply lookup_lt_Some in Em. destruct (Nat.ltb_spec k i), (Nat.ltb_spec k (S (length js_atom_init))); try done; lia.
    + unfold atom_size. destruct Hr as [(_ & -> & _)|(-> & _)]; done.
  - assert (Hn : js_atom_init !! (i - 1)%nat = Some n) by (rewrite <- (Nat.add_0_r (i - 1)), <- lookup_drop, Hd; done).
    destruct (init_step rt i n Hint Hr Hl Hn Hi0) as (rt1 & a & -> & H0 & H1). cbn [mbind option_bind].
    destruct (Nat.eqb_spec a 0) as [->|Ha]; [exists rt1, false; split; [done|by apply H0]|]. destruct (H1 Ha) as (I1 & R1 & L1).
    apply IH; [done|done|done| |done]. replace (S i - 1)%nat with (1 + (i - 1))%nat by lia. by rewrite Nat.add_comm, <- drop_drop, Hd.
Qed.
End init.

(** ** Start of the runtime *)

Lemma no_atoms n r c : power2 n -> interned (mkRuntime (replicate n 0%nat) 0 r [] 0 ∅ c) [].
Proof.
  intros Hn. split; [split; split; simpl; try done|by intros i str m Hc].
  - by rewrite length_replicate.
  - eexists. by apply table_empty.
  - exists []. split_and!; [done|constructor|]. intros i. split; [by intros ?%elem_of_nil|by intros [m Hm]].
  - by intros p ?%elem_of_nil.
Qed.

Lemma init_spec mem : exists rt ok, JS_InitAtoms mem = Some (rt, ok) /\
  if (ok : bool) then interned rt [] /\ listed rt JS_ATOM_END /\ atom_size rt <= 711 else exists n, mem n = false.
Proof.
  unfold JS_InitAtoms. destruct (mem 0%nat) eqn:E0; [|by eexists _, false; split; [done|exists 0%nat]].
  unfold JS_ResizeAtomHash. cbn [clock atom_array atom_hash strings]. rewrite E0. cbn [rehash mbind option_bind].
  apply init_loop_spec; [apply no_atoms; by exists 9%nat|by left| |done|done].
  intros k Hk. unfold content, slot. cbn [atom_array]. rewrite lookup_nil. by destruct (Nat.ltb_spec k 1); [lia|].
Qed.

(** The state of a fresh runtime. *)
Definition initial : JSRuntime := match JS_InitAtoms (fun _ => true) with Some (rt, _) => rt | None => mkRuntime [] 0 0 [] 0 ∅ 0 end.

Lemma initial_spec : interned initial [] /\ listed initial JS_ATOM_END /\ atom_size initial <= 711.
Proof.
  unfold initial. destruct (init_spec (fun _ => true)) as (rt & ok & -> & H). destruct ok; [done|by destruct H].
Qed.

(** Predefined atoms.  The initialisation of a runtime either runs out
    of memory or leaves a sound table in which the atoms are exactly the
    names of dyna-atom.h, each at the index of its enumeration constant and
    with the type its position says, and nothing refers to them. *)
Theorem predefined_atoms (mem : nat -> bool) :
  exists rt ok, JS_InitAtoms mem = Some (rt, ok) /\
    (ok = false -> exists n, mem n = false) /\
    (ok = true -> interned rt [] /\
      (forall k name, js_atom_init !! k = Some name ->
        content rt (S k) = Some (init_type (S k) `min` JS_ATOM_TYPE_SYMBOL, bytes_of name)) /\
      (forall k, (JS_ATOM_END <= k)%nat -> content rt k = None)).
Proof.
  destruct (init_spec mem) as (rt & ok & E & H). exists rt, ok. split; [done|]. destruct ok; [|done]. split; [done|]. intros _.
  destruct H as (Hi & Hl & _). split_and!; [done|..].
  - intros k n Hn. rewrite (Hl (S k) ltac:(done)). pose proof (lookup_lt_Some _ _ _ Hn). unfold JS_ATOM_END.
    destruct (Nat.ltb_spec (S k) (S (length js_atom_init))); [|lia]. unfold predefined. replace (S k - 1)%nat with k by lia. by rewrite Hn.
  - intros k Hk. rewrite (Hl k); [|unfold JS_ATOM_END in Hk; lia]. by destruct (Nat.ltb_spec k JS_ATOM_END); [lia|].
Qed.
