(* ===== verification/AtomsUse.v ===== *)
(** * Using atoms

    The contract of the atom functions: interning, release, the text of an
    atom, and array indices.  The proofs rest on the table's invariant
    ([AtomTable]) and on the effect of each step ([AtomsProps]); the concrete
    states of the witnesses come from the initialisation ([AtomsInit]). *)
From S2P Require Import Prelude Chains Native Digits Atoms AtomTable AtomsProps AtomsInit.

(** ** Live atoms *)

(** An atom that may be used: a small integer or a registered entry. *)
Definition live_atom (rt : JSRuntime) (a : Z) : Prop :=
  is_jsatom a /\ (__JS_AtomIsTaggedInt a = false -> is_Some (content rt (Z.to_nat a))).

(** Other references keep it alive. *)
Definition shared (rt : JSRuntime) (held : list nat) (a : Z) : Prop := forall p, p ∈ atom_refs rt a -> p ∈ held.

Lemma content_entry rt k c : content rt k = Some c -> exists p s, atom_array rt !! k = Some (S_atom p) /\ strings rt !! p = Some s /\ c = (atom_type s, chars s).
Proof.
  unfold content. destruct (slot (atom_array rt) (strings rt) k) as [s|] eqn:Es; [|done]. intros [= <-].
  destruct (slot_get rt k s Es) as (p & _ & Hp & Hs). eauto.
Qed.

Lemma text_live rt a str : is_jsatom a -> atom_text rt a = Some str -> live_atom rt a.
Proof. intros Ha Ht. split; [done|]. intros Hn. rewrite (text_content rt a str Hn Ht). eauto. Qed.

(** Contents after a reference to [p] is dropped. *)
Lemma dropped_content rt rt' held p : good rt (p :: held) -> dropped rt rt' held p ->
  forall k, content rt' k = if decide (last_ref rt held p /\ atom_array rt !! k = Some (S_atom p)) then None else content rt k.
Proof.
  intros Hg [D1 D2 _ D4 _ _] k. pose proof (proj1 Hg) as Hok. pose proof (proj1 D1) as Hok'.
  assert (Hnone : forall r, atoms_ok r -> (forall q, atom_array r !! k <> Some (S_atom q)) -> content r k = None).
  { intros r Hr Hn. destruct (content r k) as [c|] eqn:Ec; [|done]. apply content_entry in Ec as (q & _ & Hq & _). by destruct (Hn q). }
  destruct (decide (_ /\ _)) as [[Hl Hk]|Hd].
  - apply Hnone; [done|]. intros q Hq. rewrite decide_True in D4 by done. apply D4 in Hq as [Hq Hne]. congruence.
  - destruct (atom_array rt !! k) as [[f|q]|] eqn:Ek.
    2: { apply (content_frame rt rt' k q); [done..|]. destruct (decide (last_ref rt held p)) as [Hl|Hl]; [|by rewrite D4]. apply D4. split; [done|]. intros ->. by apply Hd. }
    all: rewrite (Hnone rt Hok) by congruence; apply Hnone; [done|]; intros q Hq;
      (case_decide; [apply D4 in Hq as [Hq _]|rewrite D4 in Hq]; congruence).
Qed.

Lemma keyed_less rt rt' : (forall k c, content rt' k = Some c -> content rt k = Some c) -> keyed rt -> keyed rt'.
Proof. intros H Hk i str n Hc. by apply (Hk i), H. Qed.

(** Only the pinned entries are never released. *)
Lemma last_ref_entry rt held k p : atoms_ok rt -> atom_array rt !! k = Some (S_atom p) -> (JS_ATOM_END <= k)%nat ->
  last_ref rt held p <-> p ∉ held.
Proof.
  intros Hok Hk Hge. unfold last_ref. assert (pin (atom_array rt) p = 0) as ->.
  { unfold pin. rewrite bool_decide_eq_false_2; [done|]. intros Hin. apply list_elem_of_lookup in Hin as [j Hj].
    apply lookup_take_Some in Hj as [Hj Hlt]. pose proof (ao_inj _ Hok j k p Hj Hk). lia. }
  rewrite Z.add_0_r. split; [intros H Hin; apply countZ_pos in Hin; lia|apply countZ_zero].
Qed.

Lemma atom_const a : is_jsatom a -> __JS_AtomIsConst a = __JS_AtomIsTaggedInt a || (Z.to_nat a <? JS_ATOM_END)%nat.
Proof.
  intros Ha. destruct (jsatom_cases a Ha) as [[Hr Ht]|(n & Hn & -> & Ht & _)].
  - rewrite Ht. rewrite <- (Z2Nat.id a) at 1 by lia. rewrite is_const by lia. done.
  - rewrite Ht. by destruct (tag_spec n Hn) as (_ & _ & _ & ->).
Qed.

(** Freeing an atom drops the reference it holds. *)
Lemma free_atom_spec (rt : JSRuntime) (held : list nat) (a : Z) :
  live_atom rt a -> interned rt (atom_refs rt a ++ held) ->
  exists rt', JS_FreeAtom rt a = Some rt' /\ interned rt' held /\ frame rt rt' /\
    (forall k, k <> Z.to_nat a -> content rt' k = content rt k) /\
    (shared rt held a -> content rt' (Z.to_nat a) = content rt (Z.to_nat a)) /\
    (~ shared rt held a -> content rt' (Z.to_nat a) = None).
Proof.
  intros [Ha Hlive] [Hg Hk]. unfold JS_FreeAtom, shared, atom_refs in *. rewrite (atom_const a Ha).
  destruct (__JS_AtomIsTaggedInt a) eqn:Et; cbn [orb]; [|unfold atom_ref in *; destruct (Nat.ltb_spec (Z.to_nat a) JS_ATOM_END) as [Hlt|Hge]].
  1,2: exists rt; split_and!; [done|done|apply frame_refl|done|done|intros Hn; destruct Hn; by intros p ?%elem_of_nil].
  destruct (Hlive eq_refl) as [c Hc]. apply content_entry in Hc as (p & s & Hp & Hs & _). rewrite Hp in *. cbn [app] in Hg.
  destruct (drop_atom rt held (Z.to_nat a) p Hg Hp) as (rt' & E & Hd). pose proof (dropped_content rt rt' held p Hg Hd) as Hcont.
  pose proof (last_ref_entry rt held (Z.to_nat a) p (proj1 Hg) Hp Hge) as Hlast. exists rt'. split_and!; [done| |apply Hd|..].
  - split; [apply Hd|]. eapply keyed_less; [|exact Hk]. intros k c'. rewrite Hcont. by case_decide.
  - intros k Hne. rewrite Hcont. case_decide as Hb; [|done]. destruct Hb as [_ Hb]. by destruct Hne, (ao_inj _ (proj1 Hg) k (Z.to_nat a) p).
  - intros Hsh. rewrite Hcont, decide_False; [done|]. rewrite Hlast. intros [Hn _]. apply Hn, Hsh. by left.
  - intros Hsh. rewrite Hcont, decide_True; [done|]. rewrite Hlast. split; [|done]. intros Hin. apply Hsh. by intros q ->%list_elem_of_singleton.
Qed.

(** [C33] Release.  Freeing an atom gives up exactly the caller's reference:
    every other atom keeps its contents, and the atom itself keeps its own
    when it is a small integer, a predefined atom or still referenced;
    otherwise its entry is free again. *)
Theorem atom_release (rt : JSRuntime) (held : list nat) (a : Z) :
  live_atom rt a -> interned rt (atom_refs rt a ++ held) ->
  exists rt', JS_FreeAtom rt a = Some rt' /\ interned rt' held /\ frame rt rt' /\
    (forall k, k <> Z.to_nat a -> content rt' k = content rt k) /\
    (shared rt held a -> content rt' (Z.to_nat a) = content rt (Z.to_nat a)) /\
    (~ shared rt held a -> content rt' (Z.to_nat a) = None).
Proof. apply free_atom_spec. Qed.

(** ** Text *)

(** A small integer or a registered entry. *)
Lemma text_cases rt a str : is_jsatom a -> atom_text rt a = Some str ->
  (exists n, 0 <= n < 2 ^ 31 /\ __JS_AtomIsTaggedInt a = true /\ __JS_AtomToUInt32 a = n /\ str = print_nat n) \/
  (__JS_AtomIsTaggedInt a = false /\ exists p s, get_atom rt (Z.to_nat a) = Some (p, s) /\ strings rt !! p = Some s /\ atom_type s = JS_ATOM_TYPE_STRING /\ chars s = str).
Proof.
  intros Ha Ht. destruct (jsatom_cases a Ha) as [[Hr Hn]|(n & Hn & _ & Hg & Hu)].
  - right. split; [done|]. apply text_content in Ht; [|done]. apply content_entry in Ht as (p & s & Hp & Hs & Hc). injection Hc as Hty ->.
    exists p, s. split_and!; [by apply get_atom_slot|done|done|done].
  - left. exists n. split_and!; [lia|lia|done|done|]. unfold atom_text in Ht. rewrite Hg, Hu in Ht. by injection Ht.
Qed.

(** An untagged atom is an index of the array. *)
Lemma index_lt rt a x : 0 <= a -> get_atom rt (Z.to_nat a) = Some x -> a < atom_size rt.
Proof. destruct x as [p s]. intros Ha [Hp _]%get_atom_slot. apply lookup_lt_Some in Hp. unfold atom_size. lia. Qed.

Lemma new_string8_spec mem rt held buf : interned rt held -> buf <> [] -> exists rt' r, js_new_string8_len mem rt buf = Some (rt', r) /\ frame rt rt' /\
  atom_array rt' = atom_array rt /\ (forall k, content rt' k = content rt k) /\
  match r with Some p => interned rt' (p :: held) /\ exists s, strings rt' !! p = Some s /\ chars s = buf | None => interned rt' held /\ exists n, mem n = false end.
Proof.
  intros [Hg Hk] Hb. unfold js_new_string8_len, js_alloc_string_rt. set (s := mkString buf false 0 0 0 1).
  destruct (new_string mem rt s) as [rt' r] eqn:E. exists rt', r. split; [by destruct buf|].
  destruct (new_string_ok mem rt held s rt' r Hg eq_refl eq_refl E) as (A1 & A2 & A3 & A4 & A5).
  assert (Hc : forall k, content rt' k = content rt k).
  { intros k. destruct r as [p|]; [by apply (new_string_content mem rt s rt' p (proj1 Hg))|]. unfold content. destruct A5 as (_ & -> & _). by rewrite A1. }
  assert (Hk' : keyed rt') by (intros k str n; rewrite Hc; apply Hk). split_and!; [done|done|done|]. destruct r as [p|].
  - destruct A5 as (G & St & _). split; [by split|]. exists s. by rewrite St, lookup_insert_eq.
  - destruct A5 as (G & _ & Hm). done.
Qed.

Lemma text_same rt rt' a : (forall k, content rt' k = content rt k) -> atom_text rt' a = atom_text rt a.
Proof. intros H. unfold atom_text. by rewrite H. Qed.

Lemma dup_interned rt held p s : interned rt held -> strings rt !! p = Some s ->
  exists rt', add_ref rt p 1 = Some rt' /\ interned rt' (p :: held) /\ frame rt rt' /\ atom_array rt' = atom_array rt /\
    (forall k, content rt' k = content rt k) /\ exists s', strings rt' !! p = Some s' /\ chars s' = chars s.
Proof.
  intros [Hg Hk] Hs. destruct (dup_good rt held p s Hg Hs) as (rt' & E & G & F & A). exists rt'.
  assert (Hc : forall k, content rt' k = content rt k).
  { intros k. unfold add_ref in E. rewrite Hs in E. injection E as <-. unfold content. cbn [set_strings atom_array strings].
    unfold slot. destruct (atom_array rt !! k) as [[|q]|]; [done| |done]. destruct (decide (q = p)) as [->|]; [by rewrite lookup_insert_eq, Hs|by rewrite lookup_insert_ne]. }
  split_and!; [done|split; [done|]|done|done|done|].
  - intros k str n. rewrite Hc. apply Hk.
  - unfold add_ref in E. rewrite Hs in E. injection E as <-. eexists. split; [apply lookup_insert_eq|done].
Qed.

Lemma print_nat_cons n : 0 <= n < 2 ^ 32 -> print_nat n <> [].
Proof. intros Hn E. pose proof (print_nat_num n Hn) as H. by rewrite E in H. Qed.

(** The string of an atom, with a new reference. *)
Lemma to_string_spec mem rt held a str : interned rt held -> is_jsatom a -> atom_text rt a = Some str ->
  exists rt1 v, JS_AtomToString mem rt a = Some (rt1, v) /\ frame rt rt1 /\ atom_array rt1 = atom_array rt /\ (forall k, content rt1 k = content rt k) /\
    match v with
    | V_string p => interned rt1 (p :: held) /\ exists s, strings rt1 !! p = Some s /\ chars s = str
    | V_symbol _ => False
    | V_exception => interned rt1 held /\ exists n, mem n = false
    end.
Proof.
  intros Hint Ha Ht. unfold JS_AtomToString, __JS_AtomToValue.
  destruct (text_cases rt a str Ha Ht) as [(n & Hn & Hg & Hu & ->)|(Hg & p & s & Eg & Hs & Hty & <-)]; rewrite Hg.
  - rewrite Hu, u32toa_spec by lia. cbn [mbind option_bind]. fold (print_nat n).
    destruct (new_string8_spec mem rt held (print_nat n) Hint) as (rt1 & r & -> & F & A & C & H); [apply print_nat_cons; lia|]. cbn [mbind option_bind].
    eexists _, _. split; [done|]. split_and!; [done|done|done|]. by destruct r as [p|].
  - destruct Ha as [Ha _]. pose proof (index_lt rt a (p, s) Ha Eg) as Hlt. apply Z.ltb_lt in Hlt as ->. cbn [negb]. rewrite Eg. cbn [mbind option_bind].
    rewrite Hty, Z.eqb_refl. destruct (dup_interned rt held p s Hint Hs) as (rt1 & -> & I & F & A & C & s' & Hs' & Hch). cbn [mbind option_bind].
    eexists _, _. split; [done|]. split_and!; [done|done|done|done|eauto].
Qed.

(** [C32] Interning, as long as the table of atoms has at most
    [max_atom_size] = 715827882 entries (above it the size of the larger
    table overflows an [int]).  Registering a string never fails otherwise
    than for lack of memory or of room.  It returns the atom that stands for the
    string, the existing one if there is one, whatever its width: a small
    integer when the text is the decimal form of one.  The reference to the
    string becomes a reference to the atom, every other reference stays
    accounted for, and the atoms and strings still in use are unchanged. *)
Theorem atoms_intern (mem : nat -> bool) (rt : JSRuntime) (held : list nat) (p : nat) (s : JSString) :
  interned rt (p :: held) -> strings rt !! p = Some s -> atom_size rt <= max_atom_size ->
  exists rt' a, JS_NewAtomStr mem rt p = Some (rt', a) /\ is_jsatom a /\
    interned rt' (atom_refs rt' a ++ held) /\ frame rt rt' /\
    (a = 0 -> refused mem rt) /\ (a <> 0 -> atom_text rt' a = Some (chars s)) /\
    (forall b, is_jsatom b -> atom_text rt b = Some (chars s) -> a = b).
Proof.
  intros Hint Hs Hsz. destruct (intern_spec mem rt held p s Hint Hs Hsz) as (rt' & a & E & []). exists rt', a. by split_and!.
Qed.

(** Text of an atom.  The string of an atom is the text it was
    registered for, with a reference of its own, and registering that string
    gives the atom again, without a new entry.  Only the string of a small
    integer needs memory. *)
Theorem atom_string_roundtrip (mem : nat -> bool) (rt : JSRuntime) (held : list nat) (a : Z) (str : list Z) :
  interned rt held -> atom_size rt <= max_atom_size -> is_jsatom a -> atom_text rt a = Some str ->
  exists rt1 v, JS_AtomToString mem rt a = Some (rt1, v) /\ frame rt rt1 /\
    match v with
    | V_string p =>
        interned rt1 (p :: held) /\ (exists s, strings rt1 !! p = Some s /\ chars s = str) /\
        exists rt2, JS_NewAtomStr mem rt1 p = Some (rt2, a) /\ interned rt2 (atom_refs rt2 a ++ held)
    | V_symbol _ => False
    | V_exception => interned rt1 held /\ exists n, mem n = false
    end.
Proof.
  intros Hint Hsz Ha Ht. destruct (to_string_spec mem rt held a str Hint Ha Ht) as (rt1 & v & E & F & A & C & H). exists rt1, v. split; [done|]. split; [done|].
  destruct v as [p| |]; [|done|done]. destruct H as (I1 & s & Hs & Hch). split_and!; [done|eauto|].
  destruct (intern_spec mem rt1 held p s I1 Hs) as (rt2 & a2 & E2 & [Ha2 I2 _ _ _ Hu]); [unfold atom_size in *; by rewrite A|].
  rewrite (Hu a Ha) in E2, I2 by (rewrite (text_same rt rt1 a C), Ht; by rewrite Hch). eauto.
Qed.

(** ** Array indices *)


Lemma array_index_spec (rt : JSRuntime) (held : list nat) (a : Z) :
  interned rt held -> live_atom rt a ->
  exists r, JS_AtomIsArrayIndex rt a = Some r /\
    forall n, r = Some n <-> 0 <= n < 2 ^ 32 - 1 /\ atom_text rt a = Some (print_nat n).
Proof.
  intros Hint [Ha Hlive]. unfold JS_AtomIsArrayIndex, atom_text. destruct (__JS_AtomIsTaggedInt a) eqn:Et.
  - destruct (jsatom_cases a Ha) as [[_ Hn]|(n & Hn & _ & _ & Hu)]; [congruence|]. rewrite Hu. eexists. split; [done|]. intros m. split.
    + intros [= <-]. split; [lia|done].
    + intros [Hm [= Hp]]. pose proof (print_nat_num n ltac:(lia)). pose proof (print_nat_num m ltac:(lia)). congruence.
  - destruct (Hlive eq_refl) as [c Hc]. rewrite Hc. apply content_entry in Hc as (p & s & Hp & Hs & ->).
    assert (Eg : get_atom rt (Z.to_nat a) = Some (p, s)) by by apply get_atom_slot.
    pose proof (index_lt rt a (p, s) (proj1 Ha) Eg) as Hlt. apply Z.ltb_lt in Hlt as ->. cbn [negb]. rewrite Eg. cbn [mbind option_bind].
    destruct (atom_type s =? JS_ATOM_TYPE_STRING); [|eexists; split; [done|]; intros n; by split; [|intros [_ ?]]].
    eexists. split; [done|]. intros n. destruct (is_num_string (chars s)) as [m|] eqn:Em.
    + apply is_num_string_spec in Em as [Hm Hch]. rewrite Hch. destruct (Z.eqb_spec m (2 ^ 32 - 1)) as [->|Hne].
      * split; [done|]. intros [Hn [= Hp']]. pose proof (print_nat_num n ltac:(lia)). pose proof (print_nat_num (2 ^ 32 - 1) ltac:(lia)).
        assert (n = 2 ^ 32 - 1); [congruence|lia].
      * split; [intros [= <-]; split; [lia|done]|]. intros [Hn [= Hp']]. pose proof (print_nat_num n ltac:(lia)). pose proof (print_nat_num m ltac:(lia)). congruence.
    + split; [done|]. intros [Hn [= Hp']]. rewrite Hp', print_nat_num in Em by lia. done.
Qed.

(** The atom of a text that is not that of a small integer. *)
Lemma digits_atom mem rt held buf : interned rt held -> atom_size rt <= max_atom_size -> buf <> [] ->
  (forall n, is_num_string buf = Some n -> JS_ATOM_MAX_INT < n) ->
  exists rt' a, atom_of_digits mem rt buf = Some (rt', a) /\ is_jsatom a /\ interned rt' (atom_refs rt' a ++ held) /\ frame rt rt' /\
    (a = 0 -> refused mem rt) /\ (a <> 0 -> atom_text rt' a = Some buf).
Proof.
  intros Hint Hsz Hb Hnum. unfold atom_of_digits. destruct (new_string8_spec mem rt held buf Hint Hb) as (rt1 & r & -> & F & A & C & H). cbn [mbind option_bind].
  destruct r as [p|].
  - destruct H as (I1 & s & Hs & <-). destruct (intern_string mem rt1 held p s I1 Hs) as (rt2 & i & -> & [X1 X2 X3 X4 X5 X6]);
      [unfold atom_size in *; by rewrite A|done|]. cbn [mbind option_bind]. exists rt2, (Z.of_nat i). split_and!; [done|done|done| | |done].
    + eapply frame_trans; [apply Hint|exact F|exact X3].
    + intros H0. destruct (X4 H0) as [|Hbig]; [by left|right]. unfold atom_size in *. by rewrite <- A.
  - destruct H as (I1 & Hm). exists rt1, 0. split_and!; [done|done|exact I1|done|by left|done].
Qed.

(** Array indices.  An atom is taken for an array index exactly when
    its text is the decimal form of an integer below [2^32 - 1]. *)
Theorem array_index_exact (rt : JSRuntime) (held : list nat) (a : Z) :
  interned rt held -> live_atom rt a ->
  exists r, JS_AtomIsArrayIndex rt a = Some r /\
    forall n, r = Some n <-> 0 <= n < 2 ^ 32 - 1 /\ atom_text rt a = Some (print_nat n).
Proof. apply array_index_spec. Qed.

(** Integers as atoms.  The atom of a 32-bit integer has its decimal
    form as text, whether it is tagged or registered, and is recognised as
    the array index it was made from; [2^32 - 1] is not an index. *)
Theorem uint32_atom_roundtrip (mem : nat -> bool) (rt : JSRuntime) (held : list nat) (n : Z) :
  interned rt held -> atom_size rt <= max_atom_size -> 0 <= n < 2 ^ 32 ->
  exists rt' a, JS_NewAtomUInt32 mem rt n = Some (rt', a) /\ interned rt' (atom_refs rt' a ++ held) /\ frame rt rt' /\
    (a = 0 -> refused mem rt) /\
    (a <> 0 -> atom_text rt' a = Some (print_nat n) /\
      JS_AtomIsArrayIndex rt' a = Some (if n =? 2 ^ 32 - 1 then None else Some n)).
Proof.
  intros Hint Hsz Hn.
  assert (Hidx : forall rt' a l, interned rt' l -> is_jsatom a -> atom_text rt' a = Some (print_nat n) ->
    JS_AtomIsArrayIndex rt' a = Some (if n =? 2 ^ 32 - 1 then None else Some n)).
  { intros rt' a l I Ha Ht. destruct (array_index_spec rt' l a I (text_live _ _ _ Ha Ht)) as (r & -> & Hr). f_equal. rewrite Ht in Hr.
    destruct (Z.eqb_spec n (2 ^ 32 - 1)) as [->|Hne]; [|apply Hr; split; [lia|done]]. destruct r as [m|]; [|done].
    destruct (proj1 (Hr m) eq_refl) as [Hm [= Hp]]. pose proof (print_nat_num m ltac:(lia)) as H1. rewrite <- Hp, print_nat_num in H1 by lia. injection H1 as <-. lia. }
  unfold JS_NewAtomUInt32. destruct (Z.leb_spec n JS_ATOM_MAX_INT) as [Hle|Hgt]; unfold JS_ATOM_MAX_INT, JS_ATOM_TAG_INT in *.
  - destruct (tag_spec n ltac:(lia)) as (-> & E2 & E3 & _). exists rt, (2 ^ 31 + n).
    assert (Ht : atom_text rt (2 ^ 31 + n) = Some (print_nat n)) by (unfold atom_text; by rewrite E2, E3).
    split_and!; [done|unfold atom_refs; by rewrite E2|apply frame_refl|lia|]. intros _. split; [done|]. eapply Hidx; [done|unfold is_jsatom; lia|done].
  - rewrite u32toa_spec by lia. cbn [mbind option_bind]. fold (print_nat n).
    destruct (digits_atom mem rt held (print_nat n) Hint Hsz) as (rt' & a & E & Ha & I & F & H0 & Ht).
    { apply print_nat_cons; lia. } { intros m. rewrite print_nat_num by lia. intros [= <-]. unfold JS_ATOM_MAX_INT, JS_ATOM_TAG_INT. lia. }
    exists rt', a. split_and!; [done|done|done|done|]. intros Hz. split; [by apply Ht|]. eapply Hidx; [exact I|done|by apply Ht].
Qed.

(** ** Growth of the array *)

(** The sizes the array goes through.  From the 36th on, the [int]
    computation of the next size overflows and the array would shrink. *)
Lemma atom_size_progression :
  Forall (fun k => Nat.iter k next_atom_size 0 <= max_atom_size) (seq 0 36) /\
  Nat.iter 36 next_atom_size 0 = 1034394552 /\ 1034394552 <= JS_ATOM_MAX /\ next_atom_size 1034394552 = 711.
Proof. split_and!; [|vm_compute; congruence..]. apply Forall_forall. intros k Hk. apply elem_of_seq in Hk. do 36 (destruct k as [|k]; [vm_compute; congruence|]). lia. Qed.

(** ** Examples *)

Definition all_mem : nat -> bool := fun _ => true.

(** A fresh runtime in which the string "abc" has just been made. *)
Definition abc_string : JSString := mkString (bytes_of "abc") false 0 0 0 1.
Definition abc_ref : nat := clock initial.
Definition abc_state : JSRuntime := fst (new_string all_mem initial abc_string).

Lemma abc_ready : interned abc_state [abc_ref] /\ strings abc_state !! abc_ref = Some abc_string /\ atom_size abc_state <= 711.
Proof.
  unfold abc_state, abc_ref. destruct initial_spec as (Hint & _ & Hsz). revert Hint Hsz. generalize initial as rt. intros rt [Hg Hk] Hsz.
  assert (E : new_string all_mem rt abc_string = (fst (new_string all_mem rt abc_string), Some (clock rt))) by done.
  destruct (new_string_ok all_mem rt [] abc_string _ _ Hg eq_refl eq_refl E) as (A & _ & _ & _ & G & St & _).
  pose proof (new_string_content all_mem rt abc_string _ _ (proj1 Hg) E) as Hc.
  split_and!; [split; [done|]| |unfold atom_size in *; by rewrite A].
  - intros k str n. rewrite Hc. apply Hk.
  - rewrite St. apply lookup_insert_eq.
Qed.

Lemma room_left rt : atom_size rt <= 711 -> atom_size rt <= max_atom_size /\ ~ refused all_mem rt.
Proof.
  intros H. split; [unfold max_atom_size; lia|]. intros [[n Hn]|Hb]; [done|]. unfold next_atom_size, sint, atom_size in *. rewrite Z.mod_small in Hb by lia.
  change (32 - 1) with 31 in Hb. destruct (Z.ltb_spec (Z.of_nat (length (atom_array rt)) * 3) (2 ^ 31)); [|lia].
  change JS_ATOM_MAX with 1073741823 in Hb. rewrite Z.quot_div_nonneg in Hb by lia. pose proof (Z.div_le_mono (Z.of_nat (length (atom_array rt)) * 3) 2133 2 ltac:(lia) ltac:(lia)). change (2133 / 2) with 1066 in *. lia.
Qed.

(** Its atom. *)
Definition abc_atom : JSRuntime * Z := match JS_NewAtomStr all_mem abc_state abc_ref with Some r => r | None => (initial, 0) end.

Lemma abc_atom_spec : interned (fst abc_atom) (atom_refs (fst abc_atom) (snd abc_atom) ++ []) /\
  is_jsatom (snd abc_atom) /\ atom_text (fst abc_atom) (snd abc_atom) = Some (bytes_of "abc").
Proof.
  destruct abc_ready as (Hint & Hs & Hsz). destruct (room_left _ Hsz) as [Hmax Hno].
  destruct (intern_spec all_mem abc_state [] abc_ref abc_string Hint Hs Hmax) as (rt' & a & E & [X1 X2 _ X4 X5 _]).
  unfold abc_atom. rewrite E. split_and!; [exact X2|exact X1|]. apply X5. intros H0. exact (Hno (X4 H0)).
Qed.

Lemma length_text : atom_text initial 50 = Some (bytes_of "length").
Proof. unfold atom_text. change (__JS_AtomIsTaggedInt 50) with false. cbv iota. destruct initial_spec as (_ & Hl & _). rewrite (Hl (Z.to_nat 50) ltac:(by vm_compute)). by vm_compute. Qed.

Lemma atoms_intern_witness : exists rt' a, JS_NewAtomStr all_mem abc_state abc_ref = Some (rt', a) /\ a <> 0 /\ atom_text rt' a = Some (bytes_of "abc").
Proof.
  destruct abc_ready as (Hint & Hs & Hsz). destruct (room_left _ Hsz) as [Hmax Hno].
  destruct (atoms_intern all_mem abc_state [] abc_ref abc_string Hint Hs Hmax) as (rt' & a & E & _ & _ & _ & H0 & Ht & _).
  assert (Ha : a <> 0) by (intros Ha; exact (Hno (H0 Ha))). exists rt', a. split; [exact E|]. split; [exact Ha|]. exact (Ht Ha).
Defined.

Lemma atom_release_witness : exists rt', JS_FreeAtom (fst abc_atom) (snd abc_atom) = Some rt' /\ interned rt' [].
Proof.
  destruct abc_atom_spec as (Hint & Ha & Ht).
  destruct (atom_release (fst abc_atom) [] (snd abc_atom) (text_live _ _ _ Ha Ht) Hint) as (rt' & E & I & _). exists rt'. split; [exact E|exact I].
Defined.

Lemma atom_string_roundtrip_witness : exists rt1 v, JS_AtomToString all_mem initial 50 = Some (rt1, v) /\ v <> V_exception /\
  match v with V_string p => exists rt2, JS_NewAtomStr all_mem rt1 p = Some (rt2, 50) | _ => True end.
Proof.
  destruct initial_spec as (Hint & _ & Hsz). destruct (room_left _ Hsz) as [Hmax _].
  destruct (atom_string_roundtrip all_mem initial [] 50 (bytes_of "length") Hint Hmax ltac:(by unfold is_jsatom) length_text) as (rt1 & v & E & _ & H).
  exists rt1, v. split; [exact E|]. destruct v as [p| |].
  - destruct H as (_ & _ & rt2 & E2 & _). split; [intros Hv; discriminate Hv|]. exists rt2. exact E2.
  - destruct H.
  - destruct H as [_ [n Hn]]. discriminate Hn.
Defined.

Lemma array_index_exact_witness : exists r, JS_AtomIsArrayIndex initial 50 = Some r /\ (r = Some 0 <-> 0 <= 0 < 2 ^ 32 - 1 /\ atom_text initial 50 = Some (print_nat 0)).
Proof.
  destruct initial_spec as (Hint & _ & _).
  destruct (array_index_exact initial [] 50 Hint (text_live _ 50 _ ltac:(by unfold is_jsatom) length_text)) as (r & E & Hr).
  exists r. split; [exact E|exact (Hr 0)].
Defined.

Lemma uint32_atom_roundtrip_witness : exists rt' a, JS_NewAtomUInt32 all_mem initial 3000000000 = Some (rt', a) /\ JS_AtomIsArrayIndex rt' a = Some (Some 3000000000).
Proof.
  destruct initial_spec as (Hint & _ & Hsz). destruct (room_left _ Hsz) as [Hmax Hno].
  destruct (uint32_atom_roundtrip all_mem initial [] 3000000000 Hint Hmax ltac:(lia)) as (rt' & a & E & _ & _ & H0 & Ht).
  assert (Ha : a <> 0) by (intros Ha; exact (Hno (H0 Ha))). exists rt', a. split; [exact E|]. exact (proj2 (Ht Ha)).
Defined.
