(* ===== verification/Shapes.v ===== *)
(** * Shapes and own properties (src/object/shapes_objects_gc.inc.c,
      src/object/property_get.inc.c, src/object/property_set_convert.inc.c)

    The layout of an object, its prototype and the list of its property names
    and flags, is a shape.  Shapes are shared by the objects created in the
    same way: they are found in a hash table of the runtime, and copied
    before a change when they are shared.  The contents of the properties are
    in the object. *)
From S2P Require Import Prelude.

(** ** Data *)

Definition JS_PROP_INITIAL_SIZE : nat := 2.
Definition JS_PROP_INITIAL_HASH_SIZE : nat := 4.

Definition JS_PROP_CONFIGURABLE : Z := Z.shiftl 1 0.
Definition JS_PROP_WRITABLE : Z := Z.shiftl 1 1.
Definition JS_PROP_ENUMERABLE : Z := Z.shiftl 1 2.
Definition JS_PROP_C_W_E : Z := Z.lor (Z.lor JS_PROP_CONFIGURABLE JS_PROP_WRITABLE) JS_PROP_ENUMERABLE.
Definition JS_PROP_TMASK : Z := Z.shiftl 3 4.

(** A property of a shape; [JS_ATOM_NULL], 0, is a deleted one.  [hash_next]
    and [flags] are bit fields. *)
Record JSShapeProperty := mkProp {
  sp_hash_next : nat;
  sp_flags : Z;
  sp_atom : Z;
}.

(** The array [prop] has [prop_count] elements and room for [prop_size];
    [hash_table] has [prop_hash_mask + 1].  Addresses are positive numbers
    and 0 is [NULL]. *)
Record JSShape := mkShape {
  sh_ref_count : Z;
  sh_is_hashed : bool;
  sh_hash : Z;
  sh_hash_table : list nat;
  sh_prop_size : nat;
  sh_prop : list JSShapeProperty;
  sh_deleted_prop_count : nat;
  sh_shape_hash_next : nat;
  sh_proto : nat;
}.

Definition prop_count (sh : JSShape) : nat := length (sh_prop sh).

(** [prop] is the whole allocated array, with the slots not yet written. *)
Record JSObject (V : Type) := mkObject {
  o_shape : nat;
  o_prop : list (option V);
  o_is_exotic : bool;
}.
Arguments mkObject {V}.
Arguments o_shape {V}.
Arguments o_prop {V}.
Arguments o_is_exotic {V}.

(** What the shapes use of the atom table. *)
Class AtomStore (A : Type) := {
  dup_atom : A -> Z -> option A;
  free_atom : A -> Z -> option A;
}.

(** The runtime.  [proto_dups] and [proto_frees] are the references to
    prototypes taken and given back so far, and [freed] the property
    contents passed to [free_property] with their flags. *)
Record JSRuntime (V A : Type) := mkRuntime {
  shape_hash_bits : Z;
  rt_shape_hash : list nat;
  shape_hash_count : Z;
  shapes : gmap nat JSShape;
  objects : gmap nat (JSObject V);
  atoms : A;
  proto_dups : list nat;
  proto_frees : list nat;
  freed : list (Z * option V);
  clock : nat;
}.
Arguments mkRuntime {V A}.
Arguments shape_hash_bits {V A}.
Arguments rt_shape_hash {V A}.
Arguments shape_hash_count {V A}.
Arguments shapes {V A}.
Arguments objects {V A}.
Arguments atoms {V A}.
Arguments proto_dups {V A}.
Arguments proto_frees {V A}.
Arguments freed {V A}.
Arguments clock {V A}.

(** ** Updates *)

Definition set_ref (sh : JSShape) (n : Z) : JSShape :=
  mkShape n (sh_is_hashed sh) (sh_hash sh) (sh_hash_table sh) (sh_prop_size sh) (sh_prop sh) (sh_deleted_prop_count sh)
    (sh_shape_hash_next sh) (sh_proto sh).
Definition set_hashed (sh : JSShape) (b : bool) (h : Z) : JSShape :=
  mkShape (sh_ref_count sh) b h (sh_hash_table sh) (sh_prop_size sh) (sh_prop sh) (sh_deleted_prop_count sh)
    (sh_shape_hash_next sh) (sh_proto sh).
Definition set_hash_next (sh : JSShape) (n : nat) : JSShape :=
  mkShape (sh_ref_count sh) (sh_is_hashed sh) (sh_hash sh) (sh_hash_table sh) (sh_prop_size sh) (sh_prop sh)
    (sh_deleted_prop_count sh) n (sh_proto sh).
(** The table and the properties. *)
Definition set_props (sh : JSShape) (size : nat) (t : list nat) (l : list JSShapeProperty) (d : nat) : JSShape :=
  mkShape (sh_ref_count sh) (sh_is_hashed sh) (sh_hash sh) t size l d (sh_shape_hash_next sh) (sh_proto sh).

Definition set_next (pr : JSShapeProperty) (n : nat) : JSShapeProperty := mkProp n (sp_flags pr) (sp_atom pr).

(** A value of the 26-bit field. *)
Definition u26 (n : nat) : nat := Z.to_nat (Z.of_nat n mod 2 ^ 26).

Section shapes.
Context {V A : Type} `{AtomStore A}.
(** Whether the allocation of a given rank succeeds, the address of an object
    as a number, and the value [JS_UNDEFINED]. *)
Context (mem : nat -> bool) (addr : nat -> Z) (undefined : V).
Notation JSRuntime := (JSRuntime V A).
Notation JSObject := (JSObject V).

Definition set_shapes (rt : JSRuntime) (m : gmap nat JSShape) : JSRuntime :=
  mkRuntime (shape_hash_bits rt) (rt_shape_hash rt) (shape_hash_count rt) m (objects rt) (atoms rt) (proto_dups rt) (proto_frees rt) (freed rt) (clock rt).
Definition set_table (rt : JSRuntime) (t : list nat) (n : Z) (m : gmap nat JSShape) : JSRuntime :=
  mkRuntime (shape_hash_bits rt) t n m (objects rt) (atoms rt) (proto_dups rt) (proto_frees rt) (freed rt) (clock rt).
Definition set_objects (rt : JSRuntime) (m : gmap nat JSObject) : JSRuntime :=
  mkRuntime (shape_hash_bits rt) (rt_shape_hash rt) (shape_hash_count rt) (shapes rt) m (atoms rt) (proto_dups rt) (proto_frees rt) (freed rt) (clock rt).
Definition set_atoms (rt : JSRuntime) (a : A) : JSRuntime :=
  mkRuntime (shape_hash_bits rt) (rt_shape_hash rt) (shape_hash_count rt) (shapes rt) (objects rt) a (proto_dups rt) (proto_frees rt) (freed rt) (clock rt).
Definition dup_proto (rt : JSRuntime) (p : nat) : JSRuntime :=
  if (p =? 0)%nat then rt
  else mkRuntime (shape_hash_bits rt) (rt_shape_hash rt) (shape_hash_count rt) (shapes rt) (objects rt) (atoms rt) (p :: proto_dups rt) (proto_frees rt) (freed rt) (clock rt).
Definition free_proto (rt : JSRuntime) (p : nat) : JSRuntime :=
  if (p =? 0)%nat then rt
  else mkRuntime (shape_hash_bits rt) (rt_shape_hash rt) (shape_hash_count rt) (shapes rt) (objects rt) (atoms rt) (proto_dups rt) (p :: proto_frees rt) (freed rt) (clock rt).
Definition free_property (rt : JSRuntime) (v : option V) (flags : Z) : JSRuntime :=
  mkRuntime (shape_hash_bits rt) (rt_shape_hash rt) (shape_hash_count rt) (shapes rt) (objects rt) (atoms rt) (proto_dups rt) (proto_frees rt) (freed rt ++ [(flags, v)]) (clock rt).
Definition tick (rt : JSRuntime) : JSRuntime :=
  mkRuntime (shape_hash_bits rt) (rt_shape_hash rt) (shape_hash_count rt) (shapes rt) (objects rt) (atoms rt) (proto_dups rt) (proto_frees rt) (freed rt) (S (clock rt)).

(** [js_malloc]: a new address, or [NULL]. *)
Definition js_malloc (rt : JSRuntime) : JSRuntime * nat := (tick rt, if mem (clock rt) then clock rt else 0%nat).

(** The contents of an array after [js_realloc] to [n] elements. *)
Definition realloc {X : Type} (l : list (option X)) (n : nat) : list (option X) := take n l ++ replicate (n - length l) None.

Definition put_shape (rt : JSRuntime) (p : nat) (sh : JSShape) : JSRuntime := set_shapes rt (<[p := sh]> (shapes rt)).
Definition put_object (rt : JSRuntime) (p : nat) (o : JSObject) : JSRuntime := set_objects rt (<[p := o]> (objects rt)).

Definition set_o_shape (o : JSObject) (p : nat) : JSObject := mkObject p (o_prop o) (o_is_exotic o).
Definition set_o_prop (o : JSObject) (l : list (option V)) : JSObject := mkObject (o_shape o) l (o_is_exotic o).

(** ** Hash table of the shapes *)

Definition shape_hash (h val : Z) : Z := u32 (u32 (h + val) * 0x9e370001).
Definition get_shape_hash (h hash_bits : Z) : Z := Z.shiftr h (32 - hash_bits).
Definition shape_initial_hash (proto : nat) : Z :=
  let a := if (proto =? 0)%nat then 0 else addr proto in
  shape_hash (shape_hash 1 (u32 a)) (u32 (Z.shiftr a 32)).

Definition init_shape_hash (a : A) : JSRuntime * bool :=
  let rt := mkRuntime 4 [] 0 ∅ ∅ a [] [] [] 1 in
  if mem (clock rt) then
    (mkRuntime 4 (replicate 16 0%nat) 0 ∅ ∅ a [] [] [] 2, true)
  else (tick rt, false).

(** The inner and outer loops of [resize_shape_hash]. *)
Fixpoint resize_chain (fuel : nat) (bits : Z) (sh : nat) (m : gmap nat JSShape) (t : list nat) : option (gmap nat JSShape * list nat) :=
  match sh, fuel with
  | O, _ => Some (m, t)
  | _, O => None
  | _, S fuel =>
      s ← m !! sh;
      let h := Z.to_nat (get_shape_hash (sh_hash s) bits) in
      n ← t !! h;
      resize_chain fuel bits (sh_shape_hash_next s) (<[sh := set_hash_next s n]> m) (<[h := sh]> t)
  end.

Fixpoint resize_loop (fuel : nat) (bits : Z) (old : list nat) (m : gmap nat JSShape) (t : list nat) : option (gmap nat JSShape * list nat) :=
  match old with
  | [] => Some (m, t)
  | sh :: old =>
      '(m, t) ← resize_chain fuel bits sh m t;
      resize_loop fuel bits old m t
  end.

Definition resize_shape_hash (rt : JSRuntime) (new_bits : Z) : option JSRuntime :=
  let '(rt, a) := js_malloc rt in
  if (a =? 0)%nat then Some rt
  else
    '(m, t) ← resize_loop (clock rt) new_bits (rt_shape_hash rt) (shapes rt) (replicate (Z.to_nat (Z.shiftl 1 new_bits)) 0%nat);
    Some (mkRuntime new_bits t (shape_hash_count rt) m (objects rt) (atoms rt) (proto_dups rt) (proto_frees rt) (freed rt) (clock rt)).

Definition js_shape_hash_link (rt : JSRuntime) (p : nat) : option JSRuntime :=
  sh ← shapes rt !! p;
  let h := Z.to_nat (get_shape_hash (sh_hash sh) (shape_hash_bits rt)) in
  n ← rt_shape_hash rt !! h;
  Some (set_table rt (<[h := p]> (rt_shape_hash rt)) (shape_hash_count rt + 1) (<[p := set_hash_next sh n]> (shapes rt))).

(** [prev] is the shape whose link is looked at, after the head [h]. *)
Fixpoint unlink_shape (fuel : nat) (rt : JSRuntime) (p h prev cur : nat) : option JSRuntime :=
  match fuel with
  | O => None
  | S fuel =>
      s ← shapes rt !! cur;
      if (cur =? p)%nat then
        if (prev =? 0)%nat then Some (set_table rt (<[h := sh_shape_hash_next s]> (rt_shape_hash rt)) (shape_hash_count rt - 1) (shapes rt))
        else
          s0 ← shapes rt !! prev;
          Some (set_table rt (rt_shape_hash rt) (shape_hash_count rt - 1) (<[prev := set_hash_next s0 (sh_shape_hash_next s)]> (shapes rt)))
      else unlink_shape fuel rt p h cur (sh_shape_hash_next s)
  end.

Definition js_shape_hash_unlink (rt : JSRuntime) (p : nat) : option JSRuntime :=
  sh ← shapes rt !! p;
  let h := Z.to_nat (get_shape_hash (sh_hash sh) (shape_hash_bits rt)) in
  cur ← rt_shape_hash rt !! h;
  unlink_shape (clock rt) rt p h 0 cur.

(** ** Creation and release of shapes *)

(** The result is [NULL] without memory, here and below. *)
Definition js_new_shape_nohash (rt : JSRuntime) (proto hash_size prop_size : nat) : JSRuntime * nat :=
  let '(rt, p) := js_malloc rt in
  if (p =? 0)%nat then (rt, 0%nat)
  else (put_shape (dup_proto rt proto) p (mkShape 1 false 0 (replicate hash_size 0%nat) prop_size [] 0 0 proto), p).

Definition js_new_shape2 (rt : JSRuntime) (proto hash_size prop_size : nat) : option (JSRuntime * nat) :=
  rt ← if Z.of_nat (length (rt_shape_hash rt)) <? 2 * (shape_hash_count rt + 1)
       then resize_shape_hash rt (shape_hash_bits rt + 1) else Some rt;
  let '(rt, p) := js_new_shape_nohash rt proto hash_size prop_size in
  if (p =? 0)%nat then Some (rt, 0%nat)
  else
    sh ← shapes rt !! p;
    rt ← js_shape_hash_link (put_shape rt p (set_hashed sh true (shape_initial_hash proto))) p;
    Some (rt, p).

Definition js_new_shape (rt : JSRuntime) (proto : nat) : option (JSRuntime * nat) :=
  js_new_shape2 rt proto JS_PROP_INITIAL_HASH_SIZE JS_PROP_INITIAL_SIZE.

Definition dup_atoms (a : A) (l : list JSShapeProperty) : option A :=
  foldl (fun a pr => a ← a; dup_atom a (sp_atom pr)) (Some a) l.

Definition free_atoms (a : A) (l : list JSShapeProperty) : option A :=
  foldl (fun a pr => a ← a; free_atom a (sp_atom pr)) (Some a) l.

Definition js_clone_shape (rt : JSRuntime) (sh1 : nat) : option (JSRuntime * nat) :=
  s1 ← shapes rt !! sh1;
  let '(rt, p) := js_malloc rt in
  if (p =? 0)%nat then Some (rt, 0%nat)
  else
    let rt := dup_proto (put_shape rt p (set_hashed (set_ref s1 1) false (sh_hash s1))) (sh_proto s1) in
    a ← dup_atoms (atoms rt) (sh_prop s1);
    Some (set_atoms rt a, p).

Definition js_dup_shape (rt : JSRuntime) (p : nat) : option JSRuntime :=
  sh ← shapes rt !! p; Some (put_shape rt p (set_ref sh (sh_ref_count sh + 1))).

Definition js_free_shape0 (rt : JSRuntime) (p : nat) : option JSRuntime :=
  sh ← shapes rt !! p;
  if negb (sh_ref_count sh =? 0) then None
  else
    rt ← if sh_is_hashed sh then js_shape_hash_unlink rt p else Some rt;
    let rt := free_proto rt (sh_proto sh) in
    a ← free_atoms (atoms rt) (sh_prop sh);
    Some (set_shapes (set_atoms rt a) (delete p (shapes rt))).

Definition js_free_shape (rt : JSRuntime) (p : nat) : option JSRuntime :=
  sh ← shapes rt !! p;
  let rt := put_shape rt p (set_ref sh (sh_ref_count sh - 1)) in
  if sh_ref_count sh - 1 <=? 0 then js_free_shape0 rt p else Some rt.

(** ** Tables of properties *)

(** [h = atom & mask]. *)
Definition prop_bucket (atom : Z) (n : nat) : nat := Z.to_nat (Z.land atom (Z.of_nat n - 1)).

(** The properties from index [i] on are put in the table [t]; deleted ones
    are left alone. *)
Fixpoint rehash_props (i : nat) (l : list JSShapeProperty) (t : list nat) : option (list JSShapeProperty * list nat) :=
  match l with
  | [] => Some ([], t)
  | pr :: l =>
      if sp_atom pr =? 0 then
        '(l, t) ← rehash_props (S i) l t; Some (pr :: l, t)
      else
        let h := prop_bucket (sp_atom pr) (length t) in
        n ← t !! h;
        '(l, t) ← rehash_props (S i) l (<[h := S i]> t);
        Some (set_next pr (u26 n) :: l, t)
  end.

(** [while (new_hash_size < new_size) new_hash_size = 2 * new_hash_size]. *)
Fixpoint grow_hash_size (fuel n size : nat) : nat :=
  match fuel with
  | O => n
  | S fuel => if (n <? size)%nat then grow_hash_size fuel (2 * n) size else n
  end.

(** [while ((new_hash_size / 2) >= new_size) new_hash_size = new_hash_size / 2]. *)
Fixpoint shrink_hash_size (fuel n size : nat) : nat :=
  match fuel with
  | O => n
  | S fuel => if (size <=? n / 2)%nat then shrink_hash_size fuel (n / 2) size else n
  end.

(** The object whose array is resized, and its update. *)
Definition set_owner (rt : JSRuntime) (p : option nat) (f : JSObject -> JSObject) : option JSRuntime :=
  match p with
  | None => Some rt
  | Some p => o ← objects rt !! p; Some (put_object rt p (f o))
  end.

(** The result is the new address of the shape, stored in the object. *)
Definition resize_properties (rt : JSRuntime) (psh : nat) (p : option nat) (count : nat) : option (JSRuntime * nat) :=
  sh ← shapes rt !! psh;
  let new_size := (count `max` (sh_prop_size sh * 3 / 2))%nat in
  let '(rt, ok) :=
    match p with
    | None => (Some rt, true)
    | Some _ =>
        let '(rt, a) := js_malloc rt in
        if (a =? 0)%nat then (Some rt, false) else (set_owner rt p (fun o => set_o_prop o (realloc (o_prop o) new_size)), true)
    end in
  rt ← rt;
  if negb ok then Some (rt, 0%nat)
  else
    let new_hash_size := grow_hash_size new_size (length (sh_hash_table sh)) new_size in
    let '(rt, q) := js_malloc rt in
    if (q =? 0)%nat then Some (rt, 0%nat)
    else
      '(l, t) ← if negb (new_hash_size =? length (sh_hash_table sh))%nat
                then rehash_props 0 (sh_prop sh) (replicate new_hash_size 0%nat) else Some (sh_prop sh, sh_hash_table sh);
      let sh := set_ref (set_props sh new_size t l (sh_deleted_prop_count sh)) 1 in
      rt ← set_owner (set_shapes rt (<[q := sh]> (delete psh (shapes rt)))) p (fun o => set_o_shape o q);
      Some (rt, q).

(** The loop of [compact_properties] over the properties and the contents:
    those that are kept. *)
Definition live_props (l : list JSShapeProperty) : list JSShapeProperty := filter (fun pr => sp_atom pr <> 0) l.

Fixpoint live_values (l : list JSShapeProperty) (v : list (option V)) : list (option V) :=
  match l, v with
  | pr :: l, x :: v => if sp_atom pr =? 0 then live_values l v else x :: live_values l v
  | _, _ => []
  end.

Definition compact_properties (rt : JSRuntime) (p : nat) : option (JSRuntime * bool) :=
  o ← objects rt !! p;
  sh ← shapes rt !! o_shape o;
  let new_size := (JS_PROP_INITIAL_SIZE `max` (prop_count sh - sh_deleted_prop_count sh))%nat in
  if sh_is_hashed sh || negb (new_size <=? sh_prop_size sh)%nat then None
  else
    let new_hash_size := shrink_hash_size (length (sh_hash_table sh)) (length (sh_hash_table sh)) new_size in
    let '(rt, q) := js_malloc rt in
    if (q =? 0)%nat then Some (rt, false)
    else
      '(l, t) ← rehash_props 0 (live_props (sh_prop sh)) (replicate new_hash_size 0%nat);
      if negb (length l =? prop_count sh - sh_deleted_prop_count sh)%nat then None
      else
        let vals := live_values (sh_prop sh) (o_prop o) in
        let vals := vals ++ drop (length vals) (o_prop o) in
        let rt := set_shapes rt (<[q := set_ref (set_props sh new_size t l 0) 1]> (delete (o_shape o) (shapes rt))) in
        let '(rt, a) := js_malloc rt in
        Some (put_object rt p (mkObject q (if (a =? 0)%nat then vals else realloc vals new_size) (o_is_exotic o)), true).

(** ** Lookup *)

Fixpoint find_prop (fuel : nat) (l : list JSShapeProperty) (atom : Z) (h : nat) : option (option nat) :=
  match h, fuel with
  | O, _ => Some None
  | _, O => None
  | S i, S fuel =>
      pr ← l !! i;
      if sp_atom pr =? atom then Some (Some i) else find_prop fuel l atom (sp_hash_next pr)
  end.

(** The index of the property. *)
Definition find_own_property (rt : JSRuntime) (p : nat) (atom : Z) : option (option nat) :=
  o ← objects rt !! p;
  sh ← shapes rt !! o_shape o;
  h ← sh_hash_table sh !! prop_bucket atom (length (sh_hash_table sh));
  find_prop (prop_count sh) (sh_prop sh) atom h.

Fixpoint find_proto_shape (fuel : nat) (m : gmap nat JSShape) (h : Z) (proto sh1 : nat) : option nat :=
  match sh1, fuel with
  | O, _ => Some 0%nat
  | _, O => None
  | _, S fuel =>
      s ← m !! sh1;
      if (sh_hash s =? h) && (sh_proto s =? proto)%nat && (prop_count s =? 0)%nat then Some sh1
      else find_proto_shape fuel m h proto (sh_shape_hash_next s)
  end.

Definition find_hashed_shape_proto (rt : JSRuntime) (proto : nat) : option nat :=
  let h := shape_initial_hash proto in
  sh1 ← rt_shape_hash rt !! Z.to_nat (get_shape_hash h (shape_hash_bits rt));
  find_proto_shape (clock rt) (shapes rt) h proto sh1.

(** The same names and flags. *)
Definition same_prop (a b : JSShapeProperty) : bool := (sp_atom a =? sp_atom b) && (sp_flags a =? sp_flags b).

Fixpoint same_props (l1 l : list JSShapeProperty) : bool :=
  match l1, l with
  | [], [] => true
  | a :: l1, b :: l => same_prop a b && same_props l1 l
  | _, _ => false
  end.

Fixpoint find_prop_shape (fuel : nat) (m : gmap nat JSShape) (h : Z) (sh : JSShape) (atom flags : Z) (sh1 : nat) : option nat :=
  match sh1, fuel with
  | O, _ => Some 0%nat
  | _, O => None
  | _, S fuel =>
      s ← m !! sh1;
      if (sh_hash s =? h) && (sh_proto s =? sh_proto sh)%nat && (prop_count s =? prop_count sh + 1)%nat &&
         same_props (sh_prop s) (sh_prop sh ++ [mkProp 0 flags atom]) then Some sh1
      else find_prop_shape fuel m h sh atom flags (sh_shape_hash_next s)
  end.

Definition find_hashed_shape_prop (rt : JSRuntime) (sh : JSShape) (atom flags : Z) : option nat :=
  let h := shape_hash (shape_hash (sh_hash sh) atom) flags in
  sh1 ← rt_shape_hash rt !! Z.to_nat (get_shape_hash h (shape_hash_bits rt));
  find_prop_shape (clock rt) (shapes rt) h sh atom flags sh1.

(** ** Changing the properties of an object *)

(** [p] is the object that has the shape, if any.  The result is the address
    of the shape, or 0 for an error. *)
Definition add_shape_property (rt : JSRuntime) (psh : nat) (p : option nat) (atom flags : Z) : option (JSRuntime * nat) :=
  sh ← shapes rt !! psh;
  rt ← if sh_is_hashed sh then js_shape_hash_unlink rt psh else Some rt;
  let new_shape_hash := shape_hash (shape_hash (sh_hash sh) atom) flags in
  '(rt, q) ← if (sh_prop_size sh <=? prop_count sh)%nat then resize_properties rt psh p (prop_count sh + 1) else Some (rt, psh);
  if (q =? 0)%nat then
    rt ← if sh_is_hashed sh then js_shape_hash_link rt psh else Some rt;
    Some (rt, 0%nat)
  else
    rt ← if sh_is_hashed sh then
           s ← shapes rt !! q;
           js_shape_hash_link (put_shape rt q (set_hashed s true new_shape_hash)) q
         else Some rt;
    s ← shapes rt !! q;
    a ← dup_atom (atoms rt) atom;
    let h := prop_bucket atom (length (sh_hash_table s)) in
    n ← sh_hash_table s !! h;
    let l := sh_prop s ++ [mkProp (u26 n) (Z.land flags 63) atom] in
    Some (put_shape (set_atoms rt a) q (set_props s (sh_prop_size s) (<[h := length l]> (sh_hash_table s)) l (sh_deleted_prop_count s)), q).

(** The index of the new property, whose content is not initialised; [None]
    for an error. *)
Definition add_property (rt : JSRuntime) (p : nat) (prop flags : Z) : option (JSRuntime * option nat) :=
  o ← objects rt !! p;
  sh ← shapes rt !! o_shape o;
  let add rt psh :=
    s ← shapes rt !! psh;
    if negb (sh_ref_count s =? 1) then None
    else
      '(rt, q) ← add_shape_property rt psh (Some p) prop flags;
      if (q =? 0)%nat then Some (rt, None)
      else s ← shapes rt !! q; Some (rt, Some (prop_count s - 1)%nat) in
  if sh_is_hashed sh then
    new_sh ← find_hashed_shape_prop rt sh prop flags;
    if negb (new_sh =? 0)%nat then
      s ← shapes rt !! new_sh;
      let '(rt, ok) :=
        if negb (sh_prop_size s =? sh_prop_size sh)%nat then
          let '(rt, a) := js_malloc rt in
          if (a =? 0)%nat then (rt, false) else (put_object rt p (set_o_prop o (realloc (o_prop o) (sh_prop_size s))), true)
        else (rt, true) in
      if negb ok then Some (rt, None)
      else
        rt ← js_dup_shape rt new_sh;
        o1 ← objects rt !! p;
        rt ← js_free_shape (put_object rt p (set_o_shape o1 new_sh)) (o_shape o);
        Some (rt, Some (prop_count s - 1)%nat)
    else if negb (sh_ref_count sh =? 1) then
      '(rt, q) ← js_clone_shape rt (o_shape o);
      if (q =? 0)%nat then Some (rt, None)
      else
        s ← shapes rt !! q;
        rt ← js_shape_hash_link (put_shape rt q (set_hashed s true (sh_hash s))) q;
        rt ← js_free_shape rt (o_shape o);
        add (put_object rt p (set_o_shape o q)) q
    else add rt (o_shape o)
  else add rt (o_shape o).

(** Whether the shape may now be changed in place. *)
Definition js_shape_prepare_update (rt : JSRuntime) (p : nat) : option (JSRuntime * bool) :=
  o ← objects rt !! p;
  sh ← shapes rt !! o_shape o;
  if sh_is_hashed sh then
    if negb (sh_ref_count sh =? 1) then
      '(rt, q) ← js_clone_shape rt (o_shape o);
      if (q =? 0)%nat then Some (rt, false)
      else
        rt ← js_free_shape rt (o_shape o);
        Some (put_object rt p (set_o_shape o q), true)
    else
      rt ← js_shape_hash_unlink rt (o_shape o);
      s ← shapes rt !! o_shape o;
      Some (put_shape rt (o_shape o) (set_hashed s false (sh_hash s)), true)
  else Some (rt, true).

(** The flags of the property of index [i]. *)
Definition js_update_property_flags (rt : JSRuntime) (p i : nat) (flags : Z) : option (JSRuntime * bool) :=
  o ← objects rt !! p;
  sh ← shapes rt !! o_shape o;
  pr ← sh_prop sh !! i;
  if negb (flags =? sp_flags pr) then
    '(rt, ok) ← js_shape_prepare_update rt p;
    if negb ok then Some (rt, false)
    else
      o ← objects rt !! p;
      sh ← shapes rt !! o_shape o;
      pr ← sh_prop sh !! i;
      Some (put_shape rt (o_shape o)
              (set_props sh (sh_prop_size sh) (sh_hash_table sh) (<[i := mkProp (sp_hash_next pr) (Z.land flags 63) (sp_atom pr)]> (sh_prop sh))
                 (sh_deleted_prop_count sh)), true)
  else Some (rt, true).

(** The property found and the one before it in its chain. *)
Fixpoint find_with_prev (fuel : nat) (l : list JSShapeProperty) (atom : Z) (lpr : option nat) (h : nat) : option (option (nat * option nat)) :=
  match h, fuel with
  | O, _ => Some None
  | _, O => None
  | S i, S fuel =>
      pr ← l !! i;
      if sp_atom pr =? atom then Some (Some (i, lpr)) else find_with_prev fuel l atom (Some i) (sp_hash_next pr)
  end.

(** [D_exotic]: the property is not in the shape and the exotic handlers of
    the object decide. *)
Inductive delete_result : Type := D_true | D_false | D_exception | D_exotic.

(** The property [i] leaves the table and its content is freed. *)
Definition remove_property (rt : JSRuntime) (p : nat) (atom : Z) (i : nat) (lpr : option nat) : option JSRuntime :=
  o ← objects rt !! p;
  sh ← shapes rt !! o_shape o;
  pr ← sh_prop sh !! i;
  '(t, l) ← match lpr with
            | Some k => lp ← sh_prop sh !! k; Some (sh_hash_table sh, <[k := set_next lp (sp_hash_next pr)]> (sh_prop sh))
            | None => Some (<[prop_bucket atom (length (sh_hash_table sh)) := sp_hash_next pr]> (sh_hash_table sh), sh_prop sh)
            end;
  v ← o_prop o !! i;
  a ← free_atom (atoms rt) (sp_atom pr);
  let rt := set_atoms (free_property rt v (sp_flags pr)) a in
  let rt := put_shape rt (o_shape o) (set_props sh (sh_prop_size sh) t (<[i := mkProp (sp_hash_next pr) 0 0]> l) (S (sh_deleted_prop_count sh))) in
  Some (put_object rt p (set_o_prop o (<[i := Some undefined]> (o_prop o)))).

Definition delete_property (rt : JSRuntime) (p : nat) (atom : Z) : option (JSRuntime * delete_result) :=
  o ← objects rt !! p;
  sh ← shapes rt !! o_shape o;
  h ← sh_hash_table sh !! prop_bucket atom (length (sh_hash_table sh));
  r ← find_with_prev (prop_count sh) (sh_prop sh) atom None h;
  match r with
  | None => Some (rt, if o_is_exotic o then D_exotic else D_true)
  | Some (i, lpr) =>
      pr ← sh_prop sh !! i;
      if Z.land (sp_flags pr) JS_PROP_CONFIGURABLE =? 0 then Some (rt, D_false)
      else
        '(rt, ok) ← js_shape_prepare_update rt p;
        if negb ok then Some (rt, D_exception)
        else
          rt ← remove_property rt p atom i lpr;
          o ← objects rt !! p;
          sh ← shapes rt !! o_shape o;
          rt ← if (8 <=? sh_deleted_prop_count sh)%nat && (prop_count sh / 2 <=? sh_deleted_prop_count sh)%nat
               then '(rt, _) ← compact_properties rt p; Some rt else Some rt;
          Some (rt, D_true)
  end.

(** ** Objects *)

(** An ordinary object (class [JS_CLASS_OBJECT]); the reference to the shape
    is consumed. *)
Definition JS_NewObjectFromShape (rt : JSRuntime) (sh : nat) : option (JSRuntime * nat) :=
  s ← shapes rt !! sh;
  let '(rt, p) := js_malloc rt in
  if (p =? 0)%nat then rt ← js_free_shape rt sh; Some (rt, 0%nat)
  else
    let '(rt, a) := js_malloc rt in
    if (a =? 0)%nat then rt ← js_free_shape rt sh; Some (rt, 0%nat)
    else Some (put_object rt p (mkObject sh (replicate (sh_prop_size s) None) false), p).

Definition JS_NewObjectProtoClass (rt : JSRuntime) (proto : nat) : option (JSRuntime * nat) :=
  sh ← find_hashed_shape_proto rt proto;
  if negb (sh =? 0)%nat then
    rt ← js_dup_shape rt sh; JS_NewObjectFromShape rt sh
  else
    '(rt, sh) ← js_new_shape rt proto;
    if (sh =? 0)%nat then Some (rt, 0%nat) else JS_NewObjectFromShape rt sh.

Definition JS_NewObjectProtoClassAlloc (rt : JSRuntime) (proto n_alloc_props : nat) : option (JSRuntime * nat) :=
  let '(n, hash_size) :=
    if (n_alloc_props <=? JS_PROP_INITIAL_SIZE)%nat then (JS_PROP_INITIAL_SIZE, JS_PROP_INITIAL_HASH_SIZE)
    else (n_alloc_props, (2 ^ (S (Nat.log2 (n_alloc_props - 1))))%nat) in
  let '(rt, sh) := js_new_shape_nohash rt proto hash_size n in
  if (sh =? 0)%nat then Some (rt, 0%nat) else JS_NewObjectFromShape rt sh.

(** Writing the content of a property: [pr->u.value = v]. *)
Definition set_value (rt : JSRuntime) (p i : nat) (v : V) : option JSRuntime :=
  o ← objects rt !! p;
  _ ← o_prop o !! i;
  Some (put_object rt p (set_o_prop o (<[i := Some v]> (o_prop o)))).

(** The part of [free_object] that releases the properties and the shape. *)
Definition free_object (rt : JSRuntime) (p : nat) : option JSRuntime :=
  o ← objects rt !! p;
  sh ← shapes rt !! o_shape o;
  let rt := foldl (fun rt '(pr, v) => free_property rt v (sp_flags pr)) rt (zip (sh_prop sh) (o_prop o)) in
  js_free_shape (set_objects rt (delete p (objects rt))) (o_shape o).

(** ** Constructors that create their fields at once *)

Record JSCtorPresize := mkPresize {
  cp_fields : list Z;
  cp_cached_shape : nat;
}.

(** One field along the prototype chain. *)
Fixpoint field_safe (fuel : nat) (rt : JSRuntime) (atom : Z) (p1 : nat) : option bool :=
  match p1, fuel with
  | O, _ => Some true
  | _, O => None
  | _, S fuel =>
      o ← objects rt !! p1;
      if o_is_exotic o then Some false
      else
        r ← find_own_property rt p1 atom;
        sh ← shapes rt !! o_shape o;
        match r with
        | Some i =>
            pr ← sh_prop sh !! i;
            Some (negb (negb (Z.land (sp_flags pr) JS_PROP_TMASK =? 0) || (Z.land (sp_flags pr) JS_PROP_WRITABLE =? 0)))
        | None => field_safe fuel rt atom (sh_proto sh)
        end
  end.

Fixpoint js_ctor_presize_proto_safe (rt : JSRuntime) (proto : nat) (fields : list Z) : option bool :=
  match fields with
  | [] => Some true
  | atom :: fields =>
      b ← field_safe (clock rt) rt atom proto;
      if b : bool then js_ctor_presize_proto_safe rt proto fields else Some false
  end.

(** The fields are added to the object [tp]; [false] for an error. *)
Fixpoint add_fields (rt : JSRuntime) (tp : nat) (fields : list Z) : option (JSRuntime * bool) :=
  match fields with
  | [] => Some (rt, true)
  | f :: fields =>
      '(rt, r) ← add_property rt tp f JS_PROP_C_W_E;
      match r with
      | None => Some (rt, false)
      | Some i => rt ← set_value rt tp i undefined; add_fields rt tp fields
      end
  end.

Definition js_ctor_presize_build_shape (rt : JSRuntime) (cp : JSCtorPresize) (proto : nat) : option (JSRuntime * JSCtorPresize * nat) :=
  hit ← if (cp_cached_shape cp =? 0)%nat then Some false
        else s ← shapes rt !! cp_cached_shape cp; Some (sh_proto s =? proto)%nat;
  if hit : bool then Some (rt, cp, cp_cached_shape cp)
  else
    '(rt, tp) ← JS_NewObjectProtoClass rt proto;
    if (tp =? 0)%nat then Some (rt, cp, 0%nat)
    else
      '(rt, ok) ← add_fields rt tp (cp_fields cp);
      if negb ok then rt ← free_object rt tp; Some (rt, cp, 0%nat)
      else
        rt ← if (cp_cached_shape cp =? 0)%nat then Some rt else js_free_shape rt (cp_cached_shape cp);
        o ← objects rt !! tp;
        rt ← js_dup_shape rt (o_shape o);
        rt ← free_object rt tp;
        Some (rt, mkPresize (cp_fields cp) (o_shape o), o_shape o).

Definition js_ctor_presize_new_this (rt : JSRuntime) (cp : JSCtorPresize) (proto : nat) : option (JSRuntime * JSCtorPresize * nat) :=
  safe ← js_ctor_presize_proto_safe rt proto (cp_fields cp);
  '(rt, cp, sh) ← if safe : bool then js_ctor_presize_build_shape rt cp proto else Some (rt, cp, 0%nat);
  if (sh =? 0)%nat then
    '(rt, p) ← JS_NewObjectProtoClass rt proto; Some (rt, cp, p)
  else
    rt ← js_dup_shape rt sh;
    '(rt, p) ← JS_NewObjectFromShape rt sh;
    if (p =? 0)%nat then Some (rt, cp, 0%nat)
    else
      rt ← foldl (fun rt i => rt ← rt; set_value rt p i undefined) (Some rt) (seq 0 (length (cp_fields cp)));
      Some (rt, cp, p).
End shapes.
