(* ===== verification/ShapeTable.v ===== *)
(** * The tables of shapes

    The properties of a shape are found through its own hash table, and the
    shapes through that of the runtime.  Both are tables of chains. *)
From S2P Require Import Prelude Chains Shapes.

(** ** The properties of one shape

    Entry [S i] of a chain is the property [i]. *)

Definition pnx (l : list JSShapeProperty) (i : nat) : option nat :=
  match i with O => None | S k => sp_hash_next <$> l !! k end.

Definition pbk (n : nat) (l : list JSShapeProperty) (i : nat) : option nat :=
  match i with
  | O => None
  | S k => pr ← l !! k; if sp_atom pr =? 0 then None else Some (prop_bucket (sp_atom pr) n)
  end.

Definition prop_table (t : list nat) (l : list JSShapeProperty) : Prop :=
  exists cs, table (pnx l) (pbk (length t) l) t cs.

(** No name is there twice. *)
Definition distinct_atoms (l : list JSShapeProperty) : Prop :=
  forall i j a b, l !! i = Some a -> l !! j = Some b -> sp_atom a = sp_atom b -> sp_atom a <> 0 -> i = j.

Definition names (l : list JSShapeProperty) : list (Z * Z) := (fun pr => (sp_atom pr, sp_flags pr)) <$> l.

Lemma u26_small n : Z.of_nat n < 2 ^ 26 -> u26 n = n.
Proof. intros H. unfold u26. rewrite Z.mod_small by lia. lia. Qed.

(** Bucket heads and links are indices of properties, or 0. *)
Lemma pnx_lt l i n : pnx l i = Some n -> (i <= length l)%nat.
Proof. destruct i as [|k]; [done|]. simpl. destruct (l !! k) eqn:E; [|done]. apply lookup_lt_Some in E. intros _. lia. Qed.

Lemma chain_head_le l h c : chain (pnx l) h c -> (h <= length l)%nat.
Proof. destruct c as [|i c]; simpl; [lia|]. intros (-> & _ & n & En & _). by eapply pnx_lt. Qed.

Lemma table_head_le l t j h : prop_table t l -> t !! j = Some h -> (h <= length l)%nat.
Proof. intros [cs Ht] Hj. destruct (table_bucket _ _ _ _ _ _ Ht Hj) as (c & _ & Hc & _). by eapply chain_head_le. Qed.

Lemma names_lookup l l' i pr : names l' = names l -> l !! i = Some pr -> exists pr', l' !! i = Some pr' /\ sp_atom pr' = sp_atom pr /\ sp_flags pr' = sp_flags pr.
Proof.
  intros H Hi. assert (E : names l' !! i = Some (sp_atom pr, sp_flags pr)) by (rewrite H; unfold names; by rewrite list_lookup_fmap, Hi).
  unfold names in E. rewrite list_lookup_fmap in E. destruct (l' !! i) as [pr'|]; [|done]. injection E as E1 E2. eauto.
Qed.

Lemma names_length l l' : names l' = names l -> length l' = length l.
Proof. intros H. apply (f_equal length) in H. unfold names in H. by rewrite !length_fmap in H. Qed.

Lemma names_atoms l l' : names l' = names l -> distinct_atoms l -> distinct_atoms l'.
Proof.
  intros H Hd i j a b Ha Hb. destruct (names_lookup l' l i a (eq_sym H) Ha) as (a0 & Ha0 & E1 & _), (names_lookup l' l j b (eq_sym H) Hb) as (b0 & Hb0 & E2 & _).
  intros Hab Hn. apply (Hd i j a0 b0); congruence.
Qed.

(** A property at the end, heading its chain. *)
Lemma prop_table_add l t atom flags n : prop_table t l -> power2 (length t) -> atom <> 0 -> t !! prop_bucket atom (length t) = Some n ->
  Z.of_nat (length l) < 2 ^ 26 ->
  prop_table (<[prop_bucket atom (length t) := S (length l)]> t) (l ++ [mkProp (u26 n) flags atom]).
Proof.
  intros Ht Hp Ha Hn Hl. pose proof (table_head_le l t _ n Ht Hn) as Hle. rewrite u26_small by lia. destruct Ht as [cs Ht]. unfold prop_table. rewrite length_insert.
  set (l' := l ++ _). assert (Hlk : forall k, (k < length l)%nat -> l' !! k = l !! k) by (intros; unfold l'; by rewrite lookup_app_l).
  assert (Hlast : l' !! length l = Some (mkProp n flags atom)) by (unfold l'; by rewrite list_lookup_middle).
  assert (Hbig : forall k, (length l < k)%nat -> l' !! k = None) by (intros; unfold l'; apply lookup_ge_None; rewrite length_app; simpl; lia).
  eapply (table_insert (pnx l) (pbk (length t) l)); [exact Ht|exact Hn|done| | | | |].
  - simpl. by rewrite (lookup_ge_None_2 l) by lia.
  - simpl. rewrite Hlast. simpl. destruct (Z.eqb_spec atom 0); [done|]. done.
  - intros [|k] Hk; [done|]. simpl. destruct (decide (k < length l)%nat); [by rewrite Hlk|]. rewrite Hbig by lia. by rewrite (lookup_ge_None_2 l) by lia.
  - simpl. by rewrite Hlast.
  - intros [|k] Hk; [done|]. simpl. intros [b Hb]. destruct (l !! k) eqn:E; [|done]. apply lookup_lt_Some in E as Hk'. rewrite Hlk by lia. by rewrite E.
Qed.

(** A deleted property at the end. *)
Lemma prop_table_skip l t pr : prop_table t l -> sp_atom pr = 0 -> prop_table t (l ++ [pr]).
Proof.
  intros [cs Ht] Ha. exists cs. eapply table_ext; [| |exact Ht].
  - intros [|k] [b Hb]; [done|]. simpl in *. destruct (l !! k) eqn:E; [|done]. by rewrite lookup_app_l, E by (by eapply lookup_lt_Some).
  - intros [|k]; [done|]. simpl. rewrite lookup_app. destruct (l !! k) eqn:E; [done|]. destruct (decide (k - length l = 0)%nat) as [->|]; simpl.
    + by rewrite Ha.
    + by rewrite lookup_ge_None_2 by (simpl; lia).
Qed.

Lemma rehash_props_spec l : forall pre t, prop_table t pre -> power2 (length t) -> Z.of_nat (length pre + length l) < 2 ^ 26 ->
  exists l' t', rehash_props (length pre) l t = Some (l', t') /\ names l' = names l /\ length t' = length t /\ prop_table t' (pre ++ l').
Proof.
  induction l as [|pr l IH]; intros pre t Ht Hp Hl; cbn [rehash_props length] in *.
  { exists [], t. rewrite app_nil_r. by split_and!. }
  assert (Hlen : forall x : JSShapeProperty, length (pre ++ [x]) = S (length pre)) by (intros; rewrite length_app; simpl; lia).
  destruct (Z.eqb_spec (sp_atom pr) 0) as [Ha|Ha].
  - destruct (IH (pre ++ [pr]) t) as (l' & t' & E & Hn & Hl' & Ht'); [by apply prop_table_skip|done|rewrite Hlen; lia|]. rewrite Hlen in E. rewrite E.
    cbn [mbind option_bind]. exists (pr :: l'), t'. split_and!; [done|by apply (f_equal (cons _))|done|by rewrite <- (assoc_L (++)) in Ht'].
  - destruct (lookup_lt_is_Some_2 t _ (mask_lt (sp_atom pr) _ Hp)) as [n Hn]. fold (prop_bucket (sp_atom pr) (length t)) in Hn. rewrite Hn. cbn [mbind option_bind].
    destruct (IH (pre ++ [mkProp (u26 n) (sp_flags pr) (sp_atom pr)]) (<[prop_bucket (sp_atom pr) (length t) := S (length pre)]> t))
      as (l' & t' & E & Hnm & Hl' & Ht'); [apply prop_table_add; [done|done|done|done|lia]|by rewrite length_insert|rewrite Hlen; lia|].
    rewrite Hlen in E. rewrite E. cbn [mbind option_bind]. rewrite length_insert in Hl'. eexists _, t'. split; [done|]. split_and!; [|done|by rewrite <- (assoc_L (++)) in Ht'].
    by apply (f_equal (cons _)).
Qed.

Lemma prop_table_empty n : prop_table (replicate n 0%nat) [].
Proof. eexists. apply table_empty. by intros [|k]. Qed.

(** ** Searching and unlinking a property *)

(** The chain a property of this name would be in. *)
Lemma prop_chain t l atom : prop_table t l -> power2 (length t) ->
  exists h c, t !! prop_bucket atom (length t) = Some h /\ chain (pnx l) h c /\ (length c <= length l)%nat /\
    (forall i pr, l !! i = Some pr -> sp_atom pr = atom -> atom <> 0 -> S i ∈ c) /\
    (forall i, S i ∈ c -> exists pr, l !! i = Some pr /\ sp_atom pr <> 0 /\ pbk (length t) l (S i) = Some (prop_bucket atom (length t))).
Proof.
  intros [cs Ht] Hp. destruct (lookup_lt_is_Some_2 t _ (mask_lt atom _ Hp)) as [h Hh]. fold (prop_bucket atom (length t)) in Hh.
  destruct (table_bucket _ _ _ _ _ _ Ht Hh) as (c & Ec & Hc & Hnd). exists h, c.
  assert (Hin : forall i, i ∈ c -> pbk (length t) l i = Some (prop_bucket atom (length t))) by (intros i Hi; apply Ht; eauto).
  assert (Hpr : forall i, S i ∈ c -> exists pr, l !! i = Some pr /\ sp_atom pr <> 0).
  { intros i Hi. specialize (Hin _ Hi). simpl in Hin. destruct (l !! i) as [pr|]; [|done]. exists pr. split; [done|]. simpl in Hin. by destruct (Z.eqb_spec (sp_atom pr) 0). }
  split_and!; [done|done| | |].
  - apply Nat.succ_le_mono. rewrite <- (length_seq (S (length l)) 0). assert (Hsub : 0%nat :: c ⊆+ seq 0 (S (length l))).
    { apply NoDup_submseteq; [constructor; [intros H0; by apply (chain_nonzero _ _ _ _ Hc) in H0|done]|].
      intros i Hi. apply elem_of_seq. apply elem_of_cons in Hi as [->|Hi]; [lia|]. destruct i as [|i]; [lia|]. destruct (Hpr i Hi) as (pr & E & _). apply lookup_lt_Some in E. lia. }
    apply submseteq_length in Hsub. done.
  - intros i pr Hi <- Ha. assert (Hb : pbk (length t) l (S i) = Some (prop_bucket (sp_atom pr) (length t))).
    { simpl. rewrite Hi. simpl. by destruct (Z.eqb_spec (sp_atom pr) 0). }
    apply Ht in Hb as (c' & Ec' & Hc'). congruence.
  - intros i Hi. destruct (Hpr i Hi) as (pr & E & Ha). eauto.
Qed.

Lemma find_with_prev_spec l atom c : forall fuel h lpr, chain (pnx l) h c -> (length c <= fuel)%nat ->
  match lpr with Some k => pnx l (S k) = Some h | None => True end ->
  (forall i, S i ∈ c -> exists pr, l !! i = Some pr) ->
  exists r, find_with_prev fuel l atom lpr h = Some r /\
    match r with
    | None => forall i pr, S i ∈ c -> l !! i = Some pr -> sp_atom pr <> atom
    | Some (i, q) => (exists pr, l !! i = Some pr /\ sp_atom pr = atom) /\ S i ∈ c /\
        match q with Some k => pnx l (S k) = Some (S i) /\ (S k ∈ c \/ lpr = Some k) | None => h = S i /\ lpr = None end
    end.
Proof.
  induction c as [|i c IH]; intros fuel h lpr Hc Hf Hl Hin.
  { simpl in Hc. subst h. exists None. split; [by destruct fuel|]. by intros i pr ?%elem_of_nil. }
  destruct Hc as (-> & Hi & n & En & Hc). destruct fuel as [|fuel]; [simpl in Hf; lia|]. destruct i as [|i]; [done|].
  destruct (Hin i ltac:(by left)) as [pr Hpr]. cbn [find_with_prev]. rewrite Hpr. cbn [mbind option_bind].
  assert (n = sp_hash_next pr) as -> by (simpl in En; rewrite Hpr in En; by injection En).
  destruct (Z.eqb_spec (sp_atom pr) atom) as [Ha|Ha].
  - exists (Some (i, lpr)). split; [done|]. split_and!; [by exists pr|by left|]. destruct lpr as [k|]; [split; [done|by right]|done].
  - destruct (IH fuel (sp_hash_next pr) (Some i) Hc ltac:(simpl in Hf; lia)) as (r & E & Hr); [done|intros k Hk; apply Hin; by right|].
    exists r. split; [done|]. destruct r as [[k q]|].
    + destruct Hr as (H1 & H2 & H3). split_and!; [done|by right|]. destruct q as [q|].
      * destruct H3 as [H3 H4]. split; [done|]. left. destruct H4 as [H4|[= ->]]; [by right|by left].
      * by destruct H3.
    + intros k p Hk Hp. apply elem_of_cons in Hk as [[= ->]|Hk]; [congruence|]. by apply (Hr k p).
Qed.

Lemma find_prop_prev l atom fuel : forall h lpr, find_prop fuel l atom h = (r ← find_with_prev fuel l atom lpr h; Some (option_map fst r)).
Proof.
  induction fuel as [|fuel IH]; intros [|i] lpr; cbn [find_prop find_with_prev]; try done. destruct (l !! i) as [pr|]; [|done]. cbn [mbind option_bind].
  destruct (sp_atom pr =? atom); [done|]. apply IH.
Qed.

(** The result of the search in a shape. *)
Definition found (l : list JSShapeProperty) (atom : Z) (r : option nat) : Prop :=
  match r with
  | Some i => exists pr, l !! i = Some pr /\ sp_atom pr = atom
  | None => forall i pr, l !! i = Some pr -> sp_atom pr <> atom
  end.

Lemma find_prop_spec t l atom : prop_table t l -> power2 (length t) -> atom <> 0 ->
  exists h r, t !! prop_bucket atom (length t) = Some h /\ find_prop (length l) l atom h = Some r /\ found l atom r.
Proof.
  intros Ht Hp Ha. destruct (prop_chain t l atom Ht Hp) as (h & c & Hh & Hc & Hlen & H1 & H2).
  destruct (find_with_prev_spec l atom c (length l) h None Hc Hlen I) as (r & E & Hr); [intros i Hi; destruct (H2 i Hi) as (pr & ? & _); eauto|].
  exists h, (option_map fst r). split_and!; [done|by rewrite (find_prop_prev l atom _ h None), E|]. destruct r as [[i q]|]; simpl; [by destruct Hr|].
  intros i pr Hi Hat. apply (Hr i pr); [|done|done]. by apply (H1 i pr).
Qed.

(** The property [i] is unlinked: from its predecessor or from its bucket. *)
Definition unlinked (t : list nat) (l : list JSShapeProperty) (atom : Z) (i : nat) (lpr : option nat) (n : nat) : list nat * list JSShapeProperty :=
  match lpr with
  | Some k => (t, alter (fun lp => set_next lp n) k l)
  | None => (<[prop_bucket atom (length t) := n]> t, l)
  end.

Lemma prop_table_remove t l atom i pr lpr : prop_table t l -> power2 (length t) -> l !! i = Some pr -> sp_atom pr = atom -> atom <> 0 ->
  match lpr with
  | Some k => pnx l (S k) = Some (S i) /\ pbk (length t) l (S k) = Some (prop_bucket atom (length t))
  | None => t !! prop_bucket atom (length t) = Some (S i)
  end ->
  let '(t', l') := unlinked t l atom i lpr (sp_hash_next pr) in
  length t' = length t /\ prop_table t' (<[i := mkProp (sp_hash_next pr) 0 0]> l') /\ l' !! i = Some pr /\ names l' = names l.
Proof.
  intros [cs Ht] Hp Hi Hat Ha Hl. set (j := prop_bucket atom (length t)) in *.
  assert (Hbi : pbk (length t) l (S i) = Some j) by (simpl; rewrite Hi; simpl; rewrite Hat; by destruct (Z.eqb_spec atom 0)).
  assert (Hni : pnx l (S i) = Some (sp_hash_next pr)) by (simpl; by rewrite Hi).
  pose proof (lookup_lt_Some _ _ _ Hi) as Hlt.
  destruct lpr as [k|]; cbn [unlinked].
  - destruct Hl as [Hnk Hbk]. simpl in Hnk. destruct (l !! k) as [lp|] eqn:Hk; [|done]. injection Hnk as Hnk.
    assert (Hik : i <> k).
    { intros ->. destruct (table_split _ _ _ _ _ _ Ht Hbi) as (h & c1 & c2 & _ & _ & Hc & Hnd). assert (lp = pr) as -> by congruence.
      rewrite Hnk in Hni. pose proof (chain_next _ _ _ _ _ _ Hc Hni) as Hc2.
      destruct c2 as [|a c2]; simpl in Hc2; [lia|]. destruct Hc2 as (<- & _). destruct (NoDup_split_elem _ _ _ Hnd) as [_ Hn2]. apply Hn2. by left. }
    set (l' := alter _ k l). assert (Hl'k : l' !! k = Some (set_next lp (sp_hash_next pr))) by (unfold l'; by rewrite list_lookup_alter_eq, Hk).
    assert (Hl'o : forall a, a <> k -> l' !! a = l !! a) by (intros; unfold l'; by rewrite list_lookup_alter_ne).
    split_and!; [done| |by rewrite Hl'o|].
    + set (l2 := <[i := _]> l'). assert (Hl2i : l2 !! i = Some (mkProp (sp_hash_next pr) 0 0)) by (unfold l2; apply list_lookup_insert_eq; unfold l'; by rewrite length_alter).
      assert (Hl2o : forall a, a <> i -> l2 !! a = l' !! a) by (intros; unfold l2; by rewrite list_lookup_insert_ne).
      eapply (table_unlink_mid (pnx l) (pbk (length t) l) _ _ t cs (S i) (S k) j (sp_hash_next pr)); try done.
      * simpl. rewrite Hk. simpl. by rewrite Hnk.
      * simpl. by rewrite Hl2i.
      * intros [|a] Hne; [done|]. simpl. rewrite Hl2o by congruence. destruct (decide (a = k)) as [->|]; [|by rewrite Hl'o]. by rewrite Hl'k, Hk.
      * simpl. by rewrite Hl2o, Hl'k by done.
      * intros [|a] Hne Hne2 _; [done|]. simpl. by rewrite Hl2o, Hl'o by congruence.
    + unfold names, l'. apply list_eq. intros a. rewrite !list_lookup_fmap. destruct (decide (a = k)) as [->|]; [by rewrite list_lookup_alter_eq, Hk|by rewrite list_lookup_alter_ne].
  - rewrite length_insert. split_and!; [done| |done|done]. unfold prop_table. rewrite length_insert. set (l2 := <[i := _]> l).
    assert (Hl2i : l2 !! i = Some (mkProp (sp_hash_next pr) 0 0)) by (unfold l2; by apply list_lookup_insert_eq).
    assert (Hl2o : forall a, a <> i -> l2 !! a = l !! a) by (intros; unfold l2; by rewrite list_lookup_insert_ne).
    eapply (table_unlink_head (pnx l) (pbk (length t) l) _ _ t cs (S i) j (sp_hash_next pr)); try done.
    + simpl. by rewrite Hl2i.
    + intros [|a] Hne; [done|]. simpl. by rewrite Hl2o by congruence.
    + intros [|a] Hne _; [done|]. simpl. by rewrite Hl2o by congruence.
Qed.

(** ** The shapes of the runtime *)

Definition snx (m : gmap nat JSShape) (i : nat) : option nat := sh_shape_hash_next <$> m !! i.

Definition shape_bucket (bits : Z) (sh : JSShape) : nat := Z.to_nat (get_shape_hash (sh_hash sh) bits).

Definition sbk (bits : Z) (m : gmap nat JSShape) (i : nat) : option nat :=
  s ← m !! i; if sh_is_hashed s then Some (shape_bucket bits s) else None.

(** Addresses are below [n]; the table [t] holds the hashed shapes, except
    [e] which is being changed. *)
Record shape_table (n e : nat) (bits : Z) (t : list nat) (m : gmap nat JSShape) : Prop := {
  st_bits : 0 <= bits <= 32;
  st_size : length t = Z.to_nat (2 ^ bits);
  st_addr : forall p sh, m !! p = Some sh -> p <> 0%nat /\ (p < n)%nat /\ 0 <= sh_hash sh < 2 ^ 32;
  st_table : exists cs, table (snx m) (others e (sbk bits m)) t cs;
}.

Lemma bucket_lt bits h : 0 <= bits <= 32 -> 0 <= h < 2 ^ 32 -> (Z.to_nat (get_shape_hash h bits) < Z.to_nat (2 ^ bits))%nat.
Proof.
  intros Hb Hh. unfold get_shape_hash. rewrite Z.shiftr_div_pow2 by lia. pose proof (pow2_pos bits ltac:(lia)). pose proof (pow2_pos (32 - bits) ltac:(lia)).
  assert (h / 2 ^ (32 - bits) < 2 ^ bits). { apply Z.div_lt_upper_bound; [done|]. rewrite <- Z.pow_add_r by lia. replace (32 - bits + bits) with 32 by lia. apply Hh. }
  assert (0 <= h / 2 ^ (32 - bits)) by (apply Z.div_pos; lia). lia.
Qed.

(** Only the links of the table differ. *)
Definition same_but_link (a b : JSShape) : Prop := set_hash_next a 0 = set_hash_next b 0.

Definition rechained (m m' : gmap nat JSShape) : Prop :=
  forall p, (fun s => set_hash_next s 0) <$> m' !! p = (fun s => set_hash_next s 0) <$> m !! p.

Lemma rechained_refl m : rechained m m.
Proof. done. Qed.
Lemma rechained_trans a b c : rechained a b -> rechained b c -> rechained a c.
Proof. intros H1 H2 p. by rewrite H2, H1. Qed.
Lemma rechained_sym a b : rechained a b -> rechained b a.
Proof. intros H p. by rewrite H. Qed.

Lemma rechained_lookup m m' p s : rechained m m' -> m !! p = Some s -> exists n, m' !! p = Some (set_hash_next s n).
Proof.
  intros H Hs. specialize (H p). rewrite Hs in H. destruct (m' !! p) as [s'|]; [|done]. exists (sh_shape_hash_next s'). f_equal.
  injection H as H1 H2 H3 H4 H5 H6 H7 H8. destruct s, s'. simpl in *. by subst.
Qed.

Lemma rechained_update m p s n : m !! p = Some s -> rechained m (<[p := set_hash_next s n]> m).
Proof. intros Hs q. destruct (decide (q = p)) as [->|]; [by rewrite lookup_insert_eq, Hs|by rewrite lookup_insert_ne]. Qed.

Lemma rechained_sbk bits m m' i : rechained m m' -> sbk bits m' i = sbk bits m i.
Proof.
  intros H. unfold sbk. destruct (m !! i) as [s|] eqn:E; [destruct (rechained_lookup _ _ _ _ H E) as [n ->]; done|].
  specialize (H i). rewrite E in H. by destruct (m' !! i).
Qed.

Lemma snx_insert m p s n i : snx (<[p := set_hash_next s n]> m) i = if decide (i = p) then Some n else snx m i.
Proof. unfold snx. case_decide; [subst; by rewrite lookup_insert_eq|by rewrite lookup_insert_ne]. Qed.

Lemma shape_chain n e bits t m j h : shape_table n e bits t m -> t !! j = Some h ->
  exists c, chain (snx m) h c /\ (length c <= n)%nat /\ NoDup c /\ forall i, i ∈ c <-> others e (sbk bits m) i = Some j.
Proof.
  intros [_ _ Ha [cs Ht]] Hj. destruct (table_bucket _ _ _ _ _ _ Ht Hj) as (c & Ec & Hc & Hnd). exists c.
  assert (Hm : forall i, i ∈ c <-> others e (sbk bits m) i = Some j).
  { intros i. split; [intros Hi; apply Ht; eauto|]. intros Hi. apply Ht in Hi as (c' & Ec' & Hi). congruence. }
  split_and!; [done| |done|done]. apply NoDup_below; [done|]. apply Forall_forall. intros i Hi. apply Hm in Hi. unfold others, sbk in Hi.
  case_decide; [done|]. destruct (m !! i) as [s|] eqn:E; [|done]. by destruct (Ha i s E) as (_ & ? & _).
Qed.

(** ** Resizing *)

Lemma resize_chain_spec bits l : forall fuel h m t D,
  (length l <= fuel)%nat -> chain (snx m) h l -> NoDup (l ++ D) -> Forall (fun i => exists j, sbk bits m i = Some j /\ (j < length t)%nat) l ->
  (exists cs, table (snx m) (within D (sbk bits m)) t cs) ->
  exists m' t', resize_chain fuel bits h m t = Some (m', t') /\ rechained m m' /\ length t' = length t /\
    (forall i, i ∉ l -> m' !! i = m !! i) /\ exists cs', table (snx m') (within (l ++ D) (sbk bits m')) t' cs'.
Proof.
  induction l as [|i l IH]; intros fuel h m t D Hf Hc Hnd Hb [cs Ht].
  { simpl in Hc. subst h. exists m, t. split_and!; [by destruct fuel|done|done|done|by exists cs]. }
  destruct Hc as (-> & Hi & n & En & Hc). destruct fuel as [|fuel]; [simpl in Hf; lia|].
  apply NoDup_cons in Hnd as [Hil Hnd]. apply Forall_cons in Hb as [(b & Hbi & Hbl) Hb].
  assert (exists s, m !! i = Some s /\ sh_shape_hash_next s = n /\ b = shape_bucket bits s) as (s & Es & <- & Eb).
  { unfold snx in En. unfold sbk in Hbi. destruct (m !! i) as [s|]; [|done]. injection En as <-. simpl in Hbi. destruct (sh_is_hashed s); [|done]. injection Hbi as <-. eauto. }
  destruct (lookup_lt_is_Some_2 t b Hbl) as [k Hk]. set (m1 := <[i := set_hash_next s k]> m). pose proof (rechained_update m i s k Es) as Hr1.
  assert (Hbk1 : forall a, sbk bits m1 a = sbk bits m a) by (intros; by apply rechained_sbk).
  assert (Ht1 : exists cs1, table (snx m1) (within (i :: D) (sbk bits m1)) (<[b := i]> t) cs1).
  { eapply (table_insert (snx m) (within D (sbk bits m))); eauto.
    - unfold within. rewrite decide_False; [done|]. set_solver.
    - unfold within. rewrite decide_True by set_solver. by rewrite Hbk1.
    - intros a Ha. unfold within. rewrite Hbk1. destruct (decide (a ∈ D)), (decide (a ∈ i :: D)); set_solver.
    - unfold m1. by rewrite snx_insert, decide_True.
    - intros a Ha _. unfold m1. by rewrite snx_insert, decide_False. }
  destruct (IH fuel (sh_shape_hash_next s) m1 (<[b := i]> t) (i :: D)) as (m' & t' & E & Hr & Hlen & Hother & cs' & Ht'); [simpl in Hf; lia| | | |done|].
  { eapply chain_ext; [|exact Hc]. intros a Ha. unfold m1. rewrite snx_insert, decide_False; [done|]. set_solver. }
  { rewrite <- Permutation_middle. by constructor. }
  { rewrite length_insert. eapply Forall_impl; [exact Hb|]. intros a (j & Hj & Hjl). exists j. by rewrite Hbk1. }
  rewrite length_insert in *. exists m', t'. split_and!; [|by eapply rechained_trans|done|..].
  - cbn [resize_chain]. destruct i as [|i']; [done|]. rewrite Es. cbn [mbind option_bind]. unfold shape_bucket in Eb. rewrite <- Eb, Hk. exact E.
  - intros a Ha. rewrite Hother by set_solver. unfold m1. rewrite lookup_insert_ne by set_solver. done.
  - exists cs'. destruct Ht' as (A1 & A2 & A3). split_and!; [done|done|]. intros a j. rewrite <- A3. unfold within.
    destruct (decide (a ∈ (i :: l) ++ D)), (decide (a ∈ l ++ i :: D)); set_solver.
Qed.

Lemma resize_loop_spec bits fuel old : forall cs m t D,
  Forall2 (chain (snx m)) old cs -> NoDup (concat cs ++ D) -> Forall (fun i => exists j, sbk bits m i = Some j /\ (j < length t)%nat) (concat cs) ->
  Forall (fun i => i < fuel)%nat (concat cs) -> (exists cs0, table (snx m) (within D (sbk bits m)) t cs0) ->
  exists m' t' cs', resize_loop fuel bits old m t = Some (m', t') /\ rechained m m' /\ length t' = length t /\
    table (snx m') (within (concat cs ++ D) (sbk bits m')) t' cs'.
Proof.
  induction old as [|h old IH]; intros cs m t D Hc Hnd Hb Hlt Ht.
  { destruct Ht as [cs0 Ht]. inv_subst Hc. exists m, t, cs0. by split_and!. }
  destruct cs as [|c cs]; [inversion Hc|]. apply Forall2_cons in Hc as [Hc1 Hc2]. simpl in *. rewrite <- (assoc_L (++)) in Hnd.
  apply Forall_app in Hb as [Hb1 Hb2], Hlt as [Hlt1 Hlt2]. pose proof Hnd as (Hndc & Hdisj & Hnd2)%NoDup_app.
  destruct (resize_chain_spec bits c fuel h m t D) as (m1 & t1 & E1 & Hr1 & Hl1 & Ho1 & Ht1); try done.
  { by apply NoDup_below. }
  { apply NoDup_app. split_and!; [done| |by apply NoDup_app in Hnd2 as (_ & _ & ?)]. intros i Hi HD. apply (Hdisj i Hi). set_solver. }
  rewrite <- Hl1 in *.
  destruct (IH cs m1 t1 (c ++ D)) as (m' & t' & cs' & E & Hr & Hl & Ht'); try done.
  { apply Forall2_same_length_lookup. split; [by eapply Forall2_length|]. intros j h' c' Ej Ej'.
    eapply chain_ext; [|eapply Forall2_lookup_lr; eauto]. intros i Hi. unfold snx. rewrite Ho1; [done|]. intros Hic. apply (Hdisj i Hic).
    apply elem_of_app. left. apply elem_of_concat. eauto. }
  { by rewrite (assoc_L (++)), (Permutation_app_comm (concat cs) c), <- (assoc_L (++)). }
  { eapply Forall_impl; [exact Hb2|]. intros i (j & Hj & Hjl). exists j. by rewrite (rechained_sbk _ m m1). }
  exists m', t', cs'. split_and!; [|by eapply rechained_trans|done|].
  - cbn [resize_loop]. rewrite E1. exact E.
  - destruct Ht' as (A1 & A2 & A3). split_and!; [done|done|]. intros k j. rewrite <- A3. f_equiv. apply within_ext. set_solver.
Qed.

Section table.
Context {V A : Type}.
Implicit Types rt : JSRuntime V A.

Definition table_ok (e : nat) rt : Prop := shape_table (clock rt) e (shape_hash_bits rt) (rt_shape_hash rt) (shapes rt).

Lemma link_spec rt p sh : table_ok p rt -> shapes rt !! p = Some sh -> sh_is_hashed sh = true ->
  exists rt' t n, js_shape_hash_link rt p = Some rt' /\ rt' = set_table rt t (shape_hash_count rt + 1) (<[p := set_hash_next sh n]> (shapes rt)) /\ table_ok 0 rt'.
Proof.
  intros [T1 T2 T3 [cs T4]] Hs Hh. unfold js_shape_hash_link. rewrite Hs. cbn [mbind option_bind]. destruct (T3 p sh Hs) as (Hp0 & Hpc & Hhr).
  destruct (lookup_lt_is_Some_2 (rt_shape_hash rt) _ ltac:(rewrite T2; apply bucket_lt; [exact T1|exact Hhr])) as [n Hn]. rewrite Hn. cbn [mbind option_bind].
  eexists _, _, n. split; [done|]. split; [done|]. set (j := Z.to_nat (get_shape_hash _ _)) in *. split; cbn [clock shape_hash_bits rt_shape_hash shapes set_table].
  - done.
  - by rewrite length_insert.
  - intros q s Hq. destruct (decide (q = p)) as [->|]; [rewrite lookup_insert_eq in Hq; injection Hq as <-; exact (T3 p sh Hs)|].
    rewrite lookup_insert_ne in Hq by done. by apply T3.
  - assert (Hb : forall k, sbk (shape_hash_bits rt) (<[p := set_hash_next sh n]> (shapes rt)) k = sbk (shape_hash_bits rt) (shapes rt) k) by (intros; by apply rechained_sbk, rechained_update).
    eapply (table_insert (snx (shapes rt)) (others p (sbk (shape_hash_bits rt) (shapes rt))) _ _ _ cs p j n); try done.
    + unfold others. by rewrite decide_True.
    + unfold others. rewrite decide_False by done. rewrite Hb. unfold sbk. rewrite Hs. simpl. by rewrite Hh.
    + intros k Hk. unfold others. rewrite Hb. destruct (decide (k = p)); [done|]. case_decide as Hk0; [|done]. subst k. unfold sbk.
      destruct (shapes rt !! 0%nat) as [s0|] eqn:E0; [|done]. by destruct (T3 0%nat s0 E0) as (? & _).
    + rewrite snx_insert. by rewrite decide_True.
    + intros k Hk _. rewrite snx_insert. by rewrite decide_False.
Qed.

(** The walk to [p] from [cur], whose predecessor is [prev]. *)
Lemma unlink_shape_spec rt p sh h c : forall fuel prev cur, chain (snx (shapes rt)) cur c -> p ∈ c -> (length c <= fuel)%nat -> shapes rt !! p = Some sh ->
  match prev with O => True | _ => snx (shapes rt) prev = Some cur end ->
  exists rt', unlink_shape fuel rt p h prev cur = Some rt' /\
    ((prev = 0%nat /\ cur = p /\ rt' = set_table rt (<[h := sh_shape_hash_next sh]> (rt_shape_hash rt)) (shape_hash_count rt - 1) (shapes rt)) \/
     exists k s0, (k = prev \/ k ∈ c) /\ k <> 0%nat /\ snx (shapes rt) k = Some p /\ shapes rt !! k = Some s0 /\
       rt' = set_table rt (rt_shape_hash rt) (shape_hash_count rt - 1) (<[k := set_hash_next s0 (sh_shape_hash_next sh)]> (shapes rt))).
Proof.
  induction c as [|i c IH]; intros fuel prev cur Hc Hp Hf Hs Hprev; [by apply elem_of_nil in Hp|].
  destruct Hc as (-> & Hi & n & En & Hc). destruct fuel as [|fuel]; [simpl in Hf; lia|]. cbn [unlink_shape].
  assert (exists s, shapes rt !! i = Some s /\ sh_shape_hash_next s = n) as (s & Es & Esn) by (unfold snx in En; destruct (shapes rt !! i) as [s|]; [injection En as <-; eauto|done]).
  rewrite Es. cbn [mbind option_bind]. destruct (Nat.eqb_spec i p) as [->|Hne].
  - assert (s = sh) as -> by congruence. destruct prev as [|k]; cbn [Nat.eqb].
    + eexists. split; [done|]. by left.
    + unfold snx in Hprev. destruct (shapes rt !! S k) as [s0|] eqn:E0; [|done]. cbn [mbind option_bind]. eexists. split; [done|]. right.
      exists (S k), s0. split_and!; [by left|done|by unfold snx; rewrite E0|done|done].
  - apply elem_of_cons in Hp as [->|Hp]; [done|]. rewrite Esn.
    destruct (IH fuel i n Hc Hp ltac:(simpl in Hf; lia) Hs) as (rt' & E & Hr); [by destruct i|]. exists rt'. split; [done|]. right.
    destruct Hr as [(-> & _)|(k & s0 & Hk & Hk0 & Hrest)]; [done|]. exists k, s0. split; [|done]. right. destruct Hk as [->|Hk]; [by left|by right].
Qed.

Lemma unlink_spec rt p sh : table_ok 0 rt -> shapes rt !! p = Some sh -> sh_is_hashed sh = true ->
  exists rt' t m, js_shape_hash_unlink rt p = Some rt' /\ rt' = set_table rt t (shape_hash_count rt - 1) m /\ rechained (shapes rt) m /\ m !! p = Some sh /\ table_ok p rt'.
Proof.
  intros Hok Hs Hh. pose proof Hok as [T1 T2 T3 [cs T4]]. destruct (T3 p sh Hs) as (Hp0 & Hpc & Hhr). unfold js_shape_hash_unlink. rewrite Hs. cbn [mbind option_bind].
  destruct (lookup_lt_is_Some_2 (rt_shape_hash rt) _ ltac:(rewrite T2; apply bucket_lt; [exact T1|exact Hhr])) as [cur Hcur]. rewrite Hcur. cbn [mbind option_bind].
  set (j := Z.to_nat (get_shape_hash _ _)) in *. destruct (shape_chain _ _ _ _ _ j cur Hok Hcur) as (c & Hc & Hlen & Hnd & Hin).
  assert (Hz : forall k, others 0 (sbk (shape_hash_bits rt) (shapes rt)) k = sbk (shape_hash_bits rt) (shapes rt) k).
  { intros k. unfold others. case_decide as Hk; [|done]. subst k. unfold sbk. destruct (shapes rt !! 0%nat) as [s0|] eqn:E0; [|done]. by destruct (T3 0%nat s0 E0). }
  assert (Hbp : sbk (shape_hash_bits rt) (shapes rt) p = Some j) by (unfold sbk; rewrite Hs; simpl; by rewrite Hh).
  destruct (unlink_shape_spec rt p sh j c (clock rt) 0 cur Hc) as (rt' & E & Hr); [apply Hin; by rewrite Hz|done|done|done|].
  assert (Hnp : snx (shapes rt) p = Some (sh_shape_hash_next sh)) by (unfold snx; by rewrite Hs).
  destruct Hr as [(_ & -> & ->)|(k & s0 & Hk & Hk0 & Hsk & Es0 & ->)].
  - eexists _, _, _. split; [done|]. split; [done|]. split_and!; [done|done|]. split; cbn [clock shape_hash_bits rt_shape_hash shapes set_table]; [done|by rewrite length_insert|done|].
    eapply (table_unlink_head (snx (shapes rt)) (others 0 (sbk (shape_hash_bits rt) (shapes rt))) _ _ _ cs p j); try done.
    + by rewrite Hz.
    + unfold others. by rewrite decide_True.
    + intros k Hk. rewrite Hz. unfold others. by rewrite decide_False.
  - assert (Hkp : k <> p).
    { intros ->. assert (Hpc' : p ∈ c) by (apply Hin; by rewrite Hz). apply list_elem_of_split in Hpc' as (c1 & c2 & ->). pose proof (chain_next _ _ _ _ _ _ Hc Hsk) as Hc2.
      destruct c2 as [|a c2]; [done|]. destruct Hc2 as (<- & _). destruct (NoDup_split_elem _ _ _ Hnd) as [_ Hn]. apply Hn. by left. }
    assert (Hkc : k ∈ c) by (destruct Hk as [->|]; [done|done]). apply Hin in Hkc as Hbk.
    assert (Hr : rechained (shapes rt) (<[k := set_hash_next s0 (sh_shape_hash_next sh)]> (shapes rt))) by by apply rechained_update.
    eexists _, _, _. split; [done|]. split; [done|]. split_and!; [done|by rewrite lookup_insert_ne|]. split; cbn [clock shape_hash_bits rt_shape_hash shapes set_table]; [done|done| |].
    + intros q s Hq. destruct (decide (q = k)) as [->|]; [rewrite lookup_insert_eq in Hq; injection Hq as <-; exact (T3 k s0 Es0)|].
      rewrite lookup_insert_ne in Hq by done. by apply T3.
    + eapply (table_unlink_mid (snx (shapes rt)) (others 0 (sbk (shape_hash_bits rt) (shapes rt))) _ _ _ cs p k j (sh_shape_hash_next sh)); try done.
      * by rewrite Hz.
      * unfold others. by rewrite decide_True.
      * intros a Ha. rewrite Hz. unfold others. rewrite decide_False by done. by apply rechained_sbk.
      * by rewrite snx_insert, decide_True.
      * intros a Ha Hak _. by rewrite snx_insert, decide_False.
Qed.

Lemma others_zero rt : table_ok 0 rt -> forall k, others 0 (sbk (shape_hash_bits rt) (shapes rt)) k = sbk (shape_hash_bits rt) (shapes rt) k.
Proof.
  intros [_ _ T3 _] k. unfold others. case_decide as Hk; [|done]. subst k. unfold sbk. destruct (shapes rt !! 0%nat) as [s0|] eqn:E0; [|done]. by destruct (T3 0%nat s0 E0).
Qed.

Lemma tick_table rt e : table_ok e rt -> table_ok e (tick rt).
Proof. intros [T1 T2 T3 T4]. split; cbn [clock shape_hash_bits rt_shape_hash shapes tick]; try done. intros p sh Hp. destruct (T3 p sh Hp) as (? & ? & ?). split_and!; [done|lia|lia|lia]. Qed.

Lemma resize_shape_hash_spec mem rt : table_ok 0 rt -> shape_hash_bits rt < 32 ->
  exists rt' bits t m, resize_shape_hash mem rt (shape_hash_bits rt + 1) = Some rt' /\ table_ok 0 rt' /\ rechained (shapes rt) m /\
    rt' = mkRuntime bits t (shape_hash_count rt) m (objects rt) (atoms rt) (proto_dups rt) (proto_frees rt) (freed rt) (S (clock rt)).
Proof.
  intros Hok Hb. pose proof Hok as [T1 T2 T3 [cs T4]]. unfold resize_shape_hash, js_malloc. destruct (mem (clock rt)) eqn:Em.
  2: { eexists _, _, _, _. split; [done|]. split_and!; [by apply tick_table| |done]. done. }
  assert (Hc0 : clock rt <> 0%nat \/ shapes rt = ∅ /\ clock rt = 0%nat).
  { destruct (decide (clock rt = 0%nat)) as [E|]; [right; split; [|done]|by left]. apply map_eq. intros p. rewrite lookup_empty.
    destruct (shapes rt !! p) as [sh|] eqn:Ep; [|done]. destruct (T3 p sh Ep). lia. }
  destruct (Nat.eqb_spec (clock rt) 0) as [E0|E0].
  { eexists _, _, _, _. split; [done|]. split_and!; [by apply tick_table| |done]. done. }
  cbn [clock tick rt_shape_hash shapes]. set (bits := shape_hash_bits rt + 1). set (t0 := replicate _ 0%nat).
  assert (Hlen : length t0 = Z.to_nat (2 ^ bits)) by (unfold t0; rewrite length_replicate, Z.shiftl_mul_pow2 by lia; f_equal; lia).
  assert (Hin : forall i, i ∈ concat cs <-> is_Some (sbk (shape_hash_bits rt) (shapes rt) i)).
  { intros i. rewrite elem_of_concat. setoid_rewrite <- (others_zero rt Hok). split; [intros (j & c & Hj & Hi); exists j; apply T4; eauto|].
    intros [j Hj]. apply T4 in Hj as (c & Hc & Hi). eauto. }
  assert (Hbk : forall i, is_Some (sbk (shape_hash_bits rt) (shapes rt) i) <-> exists j, sbk bits (shapes rt) i = Some j /\ (j < length t0)%nat).
  { intros i. rewrite Hlen. unfold sbk. destruct (shapes rt !! i) as [s|] eqn:Es; simpl; [|naive_solver]. destruct (sh_is_hashed s); [|naive_solver].
    split; [intros _|eauto]. eexists. split; [done|]. apply bucket_lt; [unfold bits; lia|by destruct (T3 _ _ Es) as (_ & _ & ?)]. }
  destruct (resize_loop_spec bits (S (clock rt)) (rt_shape_hash rt) cs (shapes rt) t0 []) as (m' & t' & cs' & E & Hr & Hl & Ht).
  - apply T4.
  - rewrite app_nil_r. apply NoDup_concat; [apply T4|]. intros j j' c c' i Hj Hj' Hi Hi'. destruct T4 as (_ & _ & T4).
    assert (others 0 (sbk (shape_hash_bits rt) (shapes rt)) i = Some j) by (apply T4; eauto).
    assert (others 0 (sbk (shape_hash_bits rt) (shapes rt)) i = Some j') by (apply T4; eauto). congruence.
  - apply Forall_forall. intros i Hi. apply Hbk, Hin, Hi.
  - apply Forall_forall. intros i Hi. apply Hin in Hi as [j Hj]. unfold sbk in Hj. destruct (shapes rt !! i) as [s|] eqn:Es; [|done]. apply T3 in Es as (_ & ? & _). lia.
  - eexists. apply table_empty. intros i. unfold within. by rewrite decide_False by set_solver.
  - rewrite E. cbn [mbind option_bind]. eexists _, _, _, _. split; [done|]. split_and!; [|done|done].
    assert (Ha' : forall p sh, m' !! p = Some sh -> p <> 0%nat /\ (p < S (clock rt))%nat /\ 0 <= sh_hash sh < 2 ^ 32).
    { intros p sh Hp. destruct (rechained_lookup _ _ _ _ (rechained_sym _ _ Hr) Hp) as [n Hn]. destruct (T3 p _ Hn) as (? & ? & ?). simpl in *; split_and!; [done|lia|lia|lia]. }
    split; cbn [clock shape_hash_bits rt_shape_hash shapes]; [unfold bits; lia|by rewrite Hl|exact Ha'|].
    exists cs'. eapply table_ext; [done| |exact Ht]. intros i. unfold within, others. rewrite app_nil_r. destruct (decide (i = 0%nat)) as [->|].
    + unfold sbk. destruct (m' !! 0%nat) as [s0|] eqn:E0'; [by destruct (Ha' 0%nat s0 E0')|]. by case_decide.
    + case_decide as Hi; [done|]. rewrite Hin, Hbk in Hi. rewrite (rechained_sbk bits (shapes rt) m') by done.
      destruct (sbk bits (shapes rt) i) as [j|] eqn:Ej; [|done]. destruct Hi. exists j. split; [done|]. rewrite Hlen. unfold sbk in Ej.
      destruct (shapes rt !! i) as [s|] eqn:Es; [|done]. simpl in Ej. destruct (sh_is_hashed s); [|done]. injection Ej as <-. apply bucket_lt; [unfold bits; lia|by destruct (T3 _ _ Es) as (_ & _ & ?)].
Qed.

(** ** Searching the table: the shapes found are hashed ones *)

Lemma find_proto_shape_spec m h proto c : forall fuel cur, chain (snx m) cur c -> (length c <= fuel)%nat ->
  exists r, find_proto_shape fuel m h proto cur = Some r /\
    (r = 0%nat \/ r ∈ c /\ exists s, m !! r = Some s /\ sh_hash s = h /\ sh_proto s = proto /\ sh_prop s = []).
Proof.
  induction c as [|i c IH]; intros fuel cur Hc Hf; [simpl in Hc; subst; exists 0%nat; split; [by destruct fuel|by left]|].
  destruct Hc as (-> & Hi & n & En & Hc). destruct fuel as [|fuel]; [simpl in Hf; lia|].
  assert (exists s, m !! i = Some s /\ sh_shape_hash_next s = n) as (s & Es & Esn) by (unfold snx in En; destruct (m !! i) as [s|]; [injection En as <-; eauto|done]).
  cbn [find_proto_shape]. destruct i as [|i']; [done|]. rewrite Es. cbn [mbind option_bind]. destruct (_ && _) eqn:Et.
  - exists (S i'). split; [done|]. right. split; [by left|]. exists s. rewrite !andb_true_iff in Et. destruct Et as [[E1 E2] E3]. unfold prop_count in E3.
    apply Z.eqb_eq in E1. apply Nat.eqb_eq in E2, E3. destruct (sh_prop s); done.
  - rewrite Esn. destruct (IH fuel n Hc ltac:(simpl in Hf; lia)) as (r & E & Hr). exists r. split; [done|]. destruct Hr as [?|[? ?]]; [by left|right; split; [by right|done]].
Qed.

Lemma find_prop_shape_spec m h sh atom flags c : forall fuel cur, chain (snx m) cur c -> (length c <= fuel)%nat ->
  exists r, find_prop_shape fuel m h sh atom flags cur = Some r /\
    (r = 0%nat \/ r ∈ c /\ exists s, m !! r = Some s /\ sh_hash s = h /\ sh_proto s = sh_proto sh /\ same_props (sh_prop s) (sh_prop sh ++ [mkProp 0 flags atom]) = true).
Proof.
  induction c as [|i c IH]; intros fuel cur Hc Hf; [simpl in Hc; subst; exists 0%nat; split; [by destruct fuel|by left]|].
  destruct Hc as (-> & Hi & n & En & Hc). destruct fuel as [|fuel]; [simpl in Hf; lia|].
  assert (exists s, m !! i = Some s /\ sh_shape_hash_next s = n) as (s & Es & Esn) by (unfold snx in En; destruct (m !! i) as [s|]; [injection En as <-; eauto|done]).
  cbn [find_prop_shape]. destruct i as [|i']; [done|]. rewrite Es. cbn [mbind option_bind]. destruct (_ && _) eqn:Et.
  - exists (S i'). split; [done|]. right. split; [by left|]. exists s. rewrite !andb_true_iff in Et. destruct Et as [[[E1 E2] E3] E4].
    apply Z.eqb_eq in E1. apply Nat.eqb_eq in E2. done.
  - rewrite Esn. destruct (IH fuel n Hc ltac:(simpl in Hf; lia)) as (r & E & Hr). exists r. split; [done|]. destruct Hr as [?|[? ?]]; [by left|right; split; [by right|done]].
Qed.

Lemma same_props_names l : forall l', same_props l l' = true -> names l = names l'.
Proof.
  induction l as [|a l IH]; intros [|b l'] H; try done. cbn [same_props] in H. apply andb_true_iff in H as [H1 H2]. unfold same_prop in H1.
  apply andb_true_iff in H1 as [Ha Hb]. apply Z.eqb_eq in Ha, Hb. unfold names in *. cbn [fmap list_fmap]. rewrite Ha, Hb. f_equal. by apply IH.
Qed.
End table.
