(* ===== verification/ShapesProps.v ===== *)
(** * Objects and their shapes: the invariant

    Reference counts of shapes, prototypes and atoms are exact, a shape that
    is not in the table has one owner, and the tables are sound.  Each step
    of an operation on properties is shown to keep this; [caches] are the
    references to shapes held outside objects, and [aheld] the references to
    atoms held outside shapes. *)
From S2P Require Import Prelude Native Chains Shapes ShapeTable.

(** ** What shapes rely on from the atom table *)

(** [atoms_hold a l]: the store is sound and [l] are the references to atoms
    that are held. *)
Class AtomLaws (A : Type) `{AtomStore A} := {
  atoms_hold : A -> list Z -> Prop;
  atoms_hold_perm : forall a l l', l ≡ₚ l' -> atoms_hold a l -> atoms_hold a l';
  dup_held : forall a l x, atoms_hold a l -> x ∈ l -> exists a', dup_atom a x = Some a' /\ atoms_hold a' (x :: l);
  free_held : forall a l x, atoms_hold a (x :: l) -> exists a', free_atom a x = Some a' /\ atoms_hold a' l;
  dup_null : forall a l, atoms_hold a l -> exists a', dup_atom a 0 = Some a' /\ atoms_hold a' l;
  free_null : forall a l, atoms_hold a l -> exists a', free_atom a 0 = Some a' /\ atoms_hold a' l;
}.

(** ** Sums over a map *)

Definition flat {X Y : Type} (f : X -> list Y) (m : gmap nat X) : list Y := map_to_list m ≫= (fun kv => f (snd kv)).

Section flat.
Context {X Y : Type} (f : X -> list Y).
Implicit Types m : gmap nat X.

Lemma flat_insert m p x : m !! p = None -> flat f (<[p := x]> m) ≡ₚ f x ++ flat f m.
Proof. intros Hp. unfold flat. rewrite map_to_list_insert by done. done. Qed.

Lemma flat_delete m p x : m !! p = Some x -> flat f m ≡ₚ f x ++ flat f (delete p m).
Proof. intros Hp. rewrite <- (insert_delete_id m p x Hp) at 1. apply flat_insert, lookup_delete_eq. Qed.

Lemma flat_update m p x : flat f (<[p := x]> m) ≡ₚ f x ++ flat f (delete p m).
Proof. rewrite <- insert_delete_eq. apply flat_insert, lookup_delete_eq. Qed.

Lemma flat_same m m' : (forall p, f <$> m' !! p = f <$> m !! p) -> flat f m' ≡ₚ flat f m.
Proof.
  revert m'. induction m as [|p x m Hp IH] using map_ind; intros m' H.
  - assert (m' = ∅) as ->; [|done]. apply map_eq. intros q. specialize (H q). rewrite lookup_empty in *. by destruct (m' !! q).
  - pose proof (H p) as Hx. rewrite lookup_insert_eq in Hx. destruct (m' !! p) as [y|] eqn:Ey; [|done]. injection Hx as Hy.
    rewrite (flat_delete m' p y Ey), flat_insert, Hy by done. f_equiv. apply IH. intros q. destruct (decide (q = p)) as [->|Hq]; [by rewrite lookup_delete_eq, Hp|].
    specialize (H q). rewrite lookup_insert_ne in H by done. by rewrite lookup_delete_ne.
Qed.

Lemma flat_elem m p x y : m !! p = Some x -> y ∈ f x -> y ∈ flat f m.
Proof. intros Hp Hy. rewrite (flat_delete m p x Hp). apply elem_of_app. by left. Qed.

Lemma elem_flat m y : y ∈ flat f m -> exists p x, m !! p = Some x /\ y ∈ f x.
Proof.
  intros H. unfold flat in H. apply list_elem_of_bind in H as ([p x] & Hy & Hin). exists p, x. split; [by apply elem_of_map_to_list|done].
Qed.
End flat.

(** ** The invariant *)

Definition shape_atoms (l : list JSShapeProperty) : list Z := filter (fun a => a <> 0) (sp_atom <$> l).
Definition proto_ref (p : nat) : list nat := if (p =? 0)%nat then [] else [p].
Definition deleted_count (l : list JSShapeProperty) : nat := length (filter (fun pr => sp_atom pr = 0) l).

Record shape_ok (sh : JSShape) : Prop := {
  sk_size : power2 (length (sh_hash_table sh));
  sk_table : prop_table (sh_hash_table sh) (sh_prop sh);
  sk_atoms : distinct_atoms (sh_prop sh);
  sk_room : (prop_count sh <= sh_prop_size sh)%nat;
  sk_deleted : sh_deleted_prop_count sh = deleted_count (sh_prop sh);
  sk_max : Z.of_nat (prop_count sh) < 2 ^ 26;
}.

(** All but the links of the table of shapes. *)
Definition alike (a b : JSShape) : Prop := set_hashed (set_hash_next a 0) false 0 = set_hashed (set_hash_next b 0) false 0.

Section invariant.
Context {V A : Type} `{AtomLaws A}.
Implicit Types rt : JSRuntime V A.

Definition obj_shapes rt : list nat := flat (fun o => [o_shape o]) (objects rt).
Definition live_atoms rt : list Z := flat (fun s => shape_atoms (sh_prop s)) (shapes rt).
Definition live_protos rt : list nat := flat (fun s => proto_ref (sh_proto s)) (shapes rt).

(** The references to the shape [p]. *)
Definition shape_refs rt (caches : list nat) (p : nat) : Z := countZ p (obj_shapes rt) + countZ p caches.

Record core rt (caches : list nat) (aheld : list Z) : Prop := {
  co_obj : forall p o, objects rt !! p = Some o -> p <> 0%nat /\ (p < clock rt)%nat;
  co_shape : forall p sh, shapes rt !! p = Some sh -> shape_ok sh;
  co_refs : forall p sh, shapes rt !! p = Some sh -> sh_ref_count sh = shape_refs rt caches p /\ 0 < sh_ref_count sh;
  co_single : forall p sh, shapes rt !! p = Some sh -> sh_is_hashed sh = false -> sh_ref_count sh = 1;
  co_live : forall p, p ∈ obj_shapes rt ++ caches -> is_Some (shapes rt !! p);
  co_room : forall p o sh, objects rt !! p = Some o -> shapes rt !! o_shape o = Some sh -> (sh_prop_size sh <= length (o_prop o))%nat;
  co_atoms : atoms_hold (atoms rt) (live_atoms rt ++ aheld);
  co_protos : proto_dups rt ≡ₚ proto_frees rt ++ live_protos rt;
  co_clock : clock rt <> 0%nat;
}.

Definition ok rt (caches : list nat) (aheld : list Z) : Prop := table_ok 0 rt /\ core rt caches aheld.

Lemma core_perm rt c c' a : c ≡ₚ c' -> core rt c a -> core rt c' a.
Proof.
  intros Hc [C1 C2 C3 C4 C5 C6 C7 C8 C9]. split; try done.
  - intros p sh Hp. destruct (C3 p sh Hp) as [E ?]. unfold shape_refs in *. by rewrite <- (countZ_Permutation p c c' Hc).
  - intros p. rewrite <- Hc. apply C5.
Qed.

Lemma obj_shape_live rt c a p o : core rt c a -> objects rt !! p = Some o -> exists sh, shapes rt !! o_shape o = Some sh.
Proof.
  intros Hc Hp. apply (co_live _ _ _ Hc). apply elem_of_app. left. eapply flat_elem; [exact Hp|]. by left.
Qed.

(** *** Changes of the table of shapes *)

Definition all_alike (m m' : gmap nat JSShape) : Prop :=
  forall p, (fun s => set_hashed (set_hash_next s 0) false 0) <$> m' !! p = (fun s => set_hashed (set_hash_next s 0) false 0) <$> m !! p.

Lemma rechained_alike m m' : rechained m m' -> all_alike m m'.
Proof. intros Hr p. specialize (Hr p). destruct (m' !! p), (m !! p); try done. simpl in *. injection Hr as E1 E2 E3 E4 E5 E6 E7 E8. f_equal. unfold set_hashed. simpl. by f_equal. Qed.

Lemma alike_trans m1 m2 m3 : all_alike m1 m2 -> all_alike m2 m3 -> all_alike m1 m3.
Proof. intros H1 H2 p. by rewrite H2, H1. Qed.

Lemma alike_lookup m m' p s' : all_alike m m' -> m' !! p = Some s' -> exists s, m !! p = Some s /\
  sh_ref_count s' = sh_ref_count s /\ sh_hash_table s' = sh_hash_table s /\ sh_prop_size s' = sh_prop_size s /\ sh_prop s' = sh_prop s /\
  sh_deleted_prop_count s' = sh_deleted_prop_count s /\ sh_proto s' = sh_proto s.
Proof. intros Hr Hs. specialize (Hr p). rewrite Hs in Hr. destruct (m !! p) as [s|]; [|done]. exists s. simpl in Hr. injection Hr as E1 E2 E3 E4 E5 E6. by split_and!. Qed.

Lemma alike_lookup_1 m m' p s : all_alike m m' -> m !! p = Some s -> exists s', m' !! p = Some s'.
Proof. intros Hr Hs. specialize (Hr p). rewrite Hs in Hr. destruct (m' !! p) as [s'|]; [|done]. eauto. Qed.

Lemma core_alike rt rt' c a : core rt c a -> all_alike (shapes rt) (shapes rt') ->
  (forall p s', shapes rt' !! p = Some s' -> sh_is_hashed s' = false -> sh_ref_count s' = 1) ->
  objects rt' = objects rt -> atoms rt' = atoms rt -> proto_dups rt' = proto_dups rt -> proto_frees rt' = proto_frees rt -> (clock rt <= clock rt')%nat ->
  core rt' c a.
Proof.
  intros [C1 C2 C3 C4 C5 C6 C7 C8 C9] Hal Hsg Eo Ea Ed Ef Hcl.
  assert (Hos : obj_shapes rt' = obj_shapes rt) by (unfold obj_shapes; by rewrite Eo).
  split.
  - intros p o. rewrite Eo. intros Hp. destruct (C1 p o Hp). lia.
  - intros p s' Hp. destruct (alike_lookup _ _ _ _ Hal Hp) as (s & Hs & E1 & E2 & E3 & E4 & E5 & E6). destruct (C2 p s Hs) as [K1 K2 K3 K4 K5 K6].
    split; unfold prop_count in *; by rewrite ?E2, ?E3, ?E4, ?E5.
  - intros p s' Hp. destruct (alike_lookup _ _ _ _ Hal Hp) as (s & Hs & E1 & _). unfold shape_refs. rewrite E1, Hos. by apply C3.
  - done.
  - intros p Hp. rewrite Hos in Hp. destruct (C5 p Hp) as [s Hs]. destruct (alike_lookup_1 _ _ _ _ Hal Hs) as [s' Hs']. eauto.
  - intros p o s'. rewrite Eo. intros Hp Hs. destruct (alike_lookup _ _ _ _ Hal Hs) as (s & Hs0 & _ & _ & E3 & _). rewrite E3. by eapply C6.
  - rewrite Ea. eapply atoms_hold_perm; [|exact C7]. f_equiv. symmetry. apply flat_same. intros p. specialize (Hal p).
    destruct (shapes rt' !! p), (shapes rt !! p); try done. simpl in *. injection Hal as E1 E2 E3 E4 E5 E6. by rewrite E4.
  - rewrite Ed, Ef, C8. f_equiv. symmetry. apply flat_same. intros p. specialize (Hal p).
    destruct (shapes rt' !! p), (shapes rt !! p); try done. simpl in *. injection Hal as E1 E2 E3 E4 E5 E6. by rewrite E6.
  - lia.
Qed.

(** *** Objects and shapes come and go *)

(** The object [p] is gone and its reference to the shape is ours. *)
Lemma core_take_object rt c a p o : core rt c a -> objects rt !! p = Some o -> core (set_objects rt (delete p (objects rt))) (o_shape o :: c) a.
Proof.
  intros [C1 C2 C3 C4 C5 C6 C7 C8 C9] Hp. assert (Hos : obj_shapes rt ≡ₚ o_shape o :: flat (fun o => [o_shape o]) (delete p (objects rt))) by by apply (flat_delete (fun o => [o_shape o])).
  split; try done; cbn [objects shapes set_objects].
  - intros q o' Hq. apply lookup_delete_Some in Hq as [_ Hq]. by apply (C1 q o').
  - intros q sh Hq. destruct (C3 q sh Hq) as [E ?]. split; [|done]. rewrite E. unfold shape_refs. rewrite (countZ_Permutation q _ _ Hos). simpl. unfold obj_shapes. cbn [objects set_objects]. lia.
  - intros q Hq. apply C5. rewrite Hos. unfold obj_shapes in Hq. cbn [objects set_objects] in Hq. rewrite <- Permutation_middle in Hq. done.
  - intros q o' sh Hq. apply lookup_delete_Some in Hq as [_ Hq]. by apply (C6 q o').
Qed.

(** A new object takes over our reference to its shape. *)
Lemma core_put_object rt c a p o sh : core rt (o_shape o :: c) a -> objects rt !! p = None -> p <> 0%nat -> (p < clock rt)%nat ->
  shapes rt !! o_shape o = Some sh -> (sh_prop_size sh <= length (o_prop o))%nat -> core (put_object rt p o) c a.
Proof.
  intros [C1 C2 C3 C4 C5 C6 C7 C8 C9] Hp Hp0 Hlt Hsh Hr. assert (Hos : obj_shapes (put_object rt p o) ≡ₚ o_shape o :: obj_shapes rt) by by apply (flat_insert (fun o => [o_shape o])).
  split; try done; cbn [objects shapes put_object set_objects clock].
  - intros q o' Hq. destruct (decide (q = p)) as [->|]; [done|]. rewrite lookup_insert_ne in Hq by done. by apply (C1 q o').
  - intros q s Hq. destruct (C3 q s Hq) as [E ?]. split; [|done]. rewrite E. unfold shape_refs. rewrite (countZ_Permutation q _ _ Hos). simpl. lia.
  - intros q Hq. apply C5. rewrite Hos in Hq. by rewrite <- Permutation_middle.
  - intros q o' s Hq. destruct (decide (q = p)) as [->|].
    + rewrite lookup_insert_eq in Hq. injection Hq as <-. intros Hs. assert (s = sh) as -> by congruence. done.
    + rewrite lookup_insert_ne in Hq by done. by apply (C6 q o').
Qed.

(** The object [p] is replaced by [o]; the reference to its old shape is
    ours. *)
Lemma core_set_object rt c a p o0 o sh : core rt (o_shape o :: c) a -> objects rt !! p = Some o0 ->
  shapes rt !! o_shape o = Some sh -> (sh_prop_size sh <= length (o_prop o))%nat -> core (put_object rt p o) (o_shape o0 :: c) a.
Proof.
  intros Hc Hp Hsh Hr. destruct (co_obj _ _ _ Hc p o0 Hp) as [Hp0 Hlt].
  pose proof (core_take_object rt _ a p o0 Hc Hp) as H1. apply (core_perm _ _ (o_shape o :: o_shape o0 :: c)) in H1; [|apply Permutation_swap].
  pose proof (core_put_object _ (o_shape o0 :: c) a p o sh H1 (lookup_delete_eq _ _) Hp0 Hlt Hsh Hr) as H2.
  unfold put_object in *. cbn [objects set_objects] in H2. rewrite insert_delete_eq in H2. exact H2.
Qed.

(** A new shape, to which we have the only reference. *)
Lemma core_new_shape rt rt' c a p s : core rt c a -> shapes rt !! p = None -> shape_ok s -> sh_ref_count s = 1 ->
  shapes rt' = <[p := s]> (shapes rt) -> objects rt' = objects rt -> atoms_hold (atoms rt') (shape_atoms (sh_prop s) ++ live_atoms rt ++ a) ->
  proto_dups rt' ≡ₚ proto_ref (sh_proto s) ++ proto_dups rt -> proto_frees rt' = proto_frees rt -> (clock rt <= clock rt')%nat -> core rt' (p :: c) a.
Proof.
  intros [C1 C2 C3 C4 C5 C6 C7 C8 C9] Hp Hok Hrc Es Eo Ha Hd Ef Hcl.
  assert (Hno : p ∉ obj_shapes rt ++ c) by (intros Hin; destruct (C5 p Hin); congruence).
  assert (Hos : obj_shapes rt' = obj_shapes rt) by (unfold obj_shapes; by rewrite Eo).
  assert (Hq : forall q t, shapes rt' !! q = Some t -> q = p /\ t = s \/ q <> p /\ shapes rt !! q = Some t).
  { intros q t. rewrite Es. destruct (decide (q = p)) as [->|]; [rewrite lookup_insert_eq; intros [= <-]; by left|rewrite lookup_insert_ne by done; by right]. }
  split.
  - intros q o. rewrite Eo. intros Ho. destruct (C1 q o Ho). lia.
  - intros q t Ht. destruct (Hq q t Ht) as [[-> ->]|[_ Ht']]; [done|]. by eapply C2.
  - intros q t Ht. unfold shape_refs. rewrite Hos. simpl. destruct (Hq q t Ht) as [[-> ->]|[Hne Ht']].
    + rewrite decide_True by done. apply not_elem_of_app in Hno as [H1 H2]. apply countZ_zero in H1, H2. lia.
    + rewrite decide_False by done. destruct (C3 q t Ht') as [E ?]. unfold shape_refs in E. lia.
  - intros q t Ht Hh. destruct (Hq q t Ht) as [[-> ->]|[_ Ht']]; [done|]. by eapply C4.
  - intros q. rewrite Hos, <- Permutation_middle, elem_of_cons. rewrite Es. intros [->|Hin]; [rewrite lookup_insert_eq; eauto|].
    rewrite lookup_insert_ne by congruence. by apply C5.
  - intros q o t. rewrite Eo. intros Ho Ht. destruct (Hq _ t Ht) as [[E _]|[_ Ht']]; [|by eapply C6].
    destruct Hno. apply elem_of_app. left. rewrite <- E. eapply flat_elem; [exact Ho|]. by left.
  - eapply atoms_hold_perm; [|exact Ha]. rewrite (assoc_L (++)). f_equiv. unfold live_atoms. rewrite Es. by rewrite (flat_insert _ _ p s Hp).
  - rewrite Ef, Hd, C8. unfold live_protos. rewrite Es, (flat_insert _ _ p s Hp). rewrite !(assoc_L (++)). f_equiv. apply Permutation_app_comm.
  - lia.
Qed.

(** The shape to which we had the only reference is released. *)
Lemma core_delete_shape rt rt' c a p s : core rt (p :: c) a -> shapes rt !! p = Some s -> sh_ref_count s = 1 ->
  shapes rt' = delete p (shapes rt) -> objects rt' = objects rt -> atoms_hold (atoms rt') (flat (fun s => shape_atoms (sh_prop s)) (delete p (shapes rt)) ++ a) ->
  proto_dups rt' = proto_dups rt -> proto_frees rt' ≡ₚ proto_ref (sh_proto s) ++ proto_frees rt -> clock rt' = clock rt -> core rt' c a.
Proof.
  intros [C1 C2 C3 C4 C5 C6 C7 C8 C9] Hp Hrc Es Eo Ha Hd Ef Hcl.
  assert (Hos : obj_shapes rt' = obj_shapes rt) by (unfold obj_shapes; by rewrite Eo).
  assert (Hno : p ∉ obj_shapes rt ++ c).
  { destruct (C3 p s Hp) as [E _]. unfold shape_refs in E. simpl in E. rewrite decide_True in E by done. pose proof (countZ_nonneg p (obj_shapes rt)). pose proof (countZ_nonneg p c).
    apply not_elem_of_app. split; apply countZ_zero; lia. }
  assert (Hq : forall q t, shapes rt' !! q = Some t -> q <> p /\ shapes rt !! q = Some t) by (intros q t; rewrite Es; intros [? ?]%lookup_delete_Some; by split).
  split; rewrite ?Hd, ?Hcl; try done.
  - intros q o. rewrite Eo. apply C1.
  - intros q t Ht. destruct (Hq q t Ht) as [_ Ht']. by eapply C2.
  - intros q t Ht. destruct (Hq q t Ht) as [Hne Ht']. destruct (C3 q t Ht') as [E ?]. unfold shape_refs in *. rewrite Hos. simpl in E. rewrite decide_False in E by done. lia.
  - intros q t Ht Hh. destruct (Hq q t Ht) as [_ Ht']. by eapply C4.
  - intros q. rewrite Hos. intros Hin. rewrite Es, lookup_delete_ne by (intros ->; done). apply C5. rewrite <- Permutation_middle. by right.
  - intros q o t. rewrite Eo. intros Ho Ht. destruct (Hq _ t Ht) as [_ Ht']. by eapply C6.
  - unfold live_atoms. by rewrite Es.
  - rewrite C8, Ef. unfold live_protos. rewrite Es, (flat_delete _ (shapes rt) p s Hp). rewrite !(assoc_L (++)). f_equiv. apply Permutation_app_comm.
Qed.

(** A shape is changed in place. *)
Lemma core_set_shape rt rt' c a p s s' : core rt c a -> shapes rt !! p = Some s -> shape_ok s' -> sh_ref_count s' = sh_ref_count s -> sh_proto s' = sh_proto s ->
  (sh_is_hashed s' = false -> sh_ref_count s = 1) ->
  (forall q o, objects rt' !! q = Some o -> o_shape o = p -> (sh_prop_size s' <= length (o_prop o))%nat) ->
  (forall q, o_shape <$> objects rt' !! q = o_shape <$> objects rt !! q) -> (forall q o, o_shape o <> p -> objects rt' !! q = Some o -> objects rt !! q = Some o) ->
  shapes rt' = <[p := s']> (shapes rt) -> atoms_hold (atoms rt') (shape_atoms (sh_prop s') ++ flat (fun s => shape_atoms (sh_prop s)) (delete p (shapes rt)) ++ a) ->
  proto_dups rt' = proto_dups rt -> proto_frees rt' = proto_frees rt -> (clock rt <= clock rt')%nat -> core rt' c a.
Proof.
  intros [C1 C2 C3 C4 C5 C6 C7 C8 C9] Hp Hok Hrc Hpr Hsg Hrm Hos Hob Es Ha Hd Ef Hcl.
  assert (Hoss : obj_shapes rt' ≡ₚ obj_shapes rt).
  { apply flat_same. intros q. specialize (Hos q). destruct (objects rt' !! q), (objects rt !! q); try done. simpl in *. by injection Hos as ->. }
  assert (Hq : forall q t, shapes rt' !! q = Some t -> q = p /\ t = s' \/ q <> p /\ shapes rt !! q = Some t).
  { intros q t. rewrite Es. destruct (decide (q = p)) as [->|]; [rewrite lookup_insert_eq; intros [= <-]; by left|rewrite lookup_insert_ne by done; by right]. }
  split; rewrite ?Hd, ?Ef; try done.
  - intros q o Ho. specialize (Hos q). rewrite Ho in Hos. destruct (objects rt !! q) as [o1|] eqn:E1; [|done]. destruct (C1 q o1 E1). lia.
  - intros q t Ht. destruct (Hq q t Ht) as [[-> ->]|[_ Ht']]; [done|]. by eapply C2.
  - intros q t Ht. unfold shape_refs. rewrite (countZ_Permutation q _ _ Hoss). destruct (Hq q t Ht) as [[-> ->]|[_ Ht']]; [rewrite Hrc; by apply (C3 p s)|by apply (C3 q t)].
  - intros q t Ht Hh. destruct (Hq q t Ht) as [[-> ->]|[_ Ht']]; [rewrite Hrc; by apply Hsg|by eapply C4].
  - intros q. rewrite Hoss, Es. intros Hin. destruct (decide (q = p)) as [->|]; [rewrite lookup_insert_eq; eauto|]. rewrite lookup_insert_ne by done. by apply C5.
  - intros q o t Ho Ht. destruct (Hq _ t Ht) as [[E ->]|[Hne Ht']]; [by eapply Hrm|]. eapply C6; [by apply Hob|done].
  - eapply atoms_hold_perm; [|exact Ha]. rewrite (assoc_L (++)). f_equiv. unfold live_atoms. rewrite Es. by rewrite flat_update.
  - rewrite C8. f_equiv. unfold live_protos. rewrite Es, flat_update, (flat_delete _ (shapes rt) p s Hp). by rewrite Hpr.
  - lia.
Qed.

(** *** Lists of atoms *)

Lemma foldl_None {X Y} (f : X -> Y -> option X) l : foldl (fun a x => a ← a; f a x) None l = None.
Proof. by induction l. Qed.

Lemma shape_atoms_cons pr l : shape_atoms (pr :: l) = if sp_atom pr =? 0 then shape_atoms l else sp_atom pr :: shape_atoms l.
Proof.
  unfold shape_atoms. cbn [fmap list_fmap]. rewrite filter_cons. destruct (Z.eqb_spec (sp_atom pr) 0); [by rewrite decide_False by tauto|by rewrite decide_True].
Qed.

Lemma free_atoms_spec l : forall st rest, atoms_hold st (shape_atoms l ++ rest) -> exists st', free_atoms st l = Some st' /\ atoms_hold st' rest.
Proof.
  unfold free_atoms. induction l as [|pr l IH]; intros st rest Hh; [by exists st|]. cbn [foldl mbind option_bind]. rewrite shape_atoms_cons in Hh.
  destruct (Z.eqb_spec (sp_atom pr) 0) as [E|E].
  - rewrite E. destruct (free_null st _ Hh) as (st1 & -> & H1). by apply IH.
  - destruct (free_held st _ _ Hh) as (st1 & -> & H1). by apply IH.
Qed.

Lemma dup_atoms_spec l : forall st rest, atoms_hold st rest -> (forall x, x ∈ shape_atoms l -> x ∈ rest) ->
  exists st', dup_atoms st l = Some st' /\ atoms_hold st' (shape_atoms l ++ rest).
Proof.
  unfold dup_atoms. induction l as [|pr l IH]; intros st rest Hh Hin; [by exists st|]. cbn [foldl mbind option_bind]. rewrite shape_atoms_cons in *.
  destruct (Z.eqb_spec (sp_atom pr) 0) as [E|E].
  - rewrite E. destruct (dup_null st _ Hh) as (st1 & -> & H1). by apply IH.
  - destruct (dup_held st _ (sp_atom pr) Hh) as (st1 & -> & H1); [apply Hin; by left|]. destruct (IH st1 (sp_atom pr :: rest) H1) as (st2 & E2 & H2); [intros x Hx; right; apply Hin; by right|].
    exists st2. split; [done|]. eapply atoms_hold_perm; [|exact H2]. by rewrite <- Permutation_middle.
Qed.

(** *** The table under changes that keep the links *)

Lemma table_put rt e p s s' : table_ok e rt -> shapes rt !! p = Some s -> sh_shape_hash_next s' = sh_shape_hash_next s -> sh_is_hashed s' = sh_is_hashed s -> sh_hash s' = sh_hash s ->
  table_ok e (put_shape rt p s').
Proof.
  intros [T1 T2 T3 [cs T4]] Hp E1 E2 E3. split; cbn [clock shape_hash_bits rt_shape_hash shapes put_shape set_shapes]; [done|done| |].
  - intros q t Hq. destruct (decide (q = p)) as [->|]; [rewrite lookup_insert_eq in Hq; injection Hq as <-; rewrite E3; by apply T3|]. rewrite lookup_insert_ne in Hq by done. by apply T3.
  - exists cs. eapply table_ext; [| |exact T4]; intros k; [intros _|]; unfold snx, others, sbk; (destruct (decide (k = p)) as [->|]; [rewrite lookup_insert_eq, Hp; simpl; unfold shape_bucket; by rewrite ?E1, ?E2, ?E3|by rewrite lookup_insert_ne]).
Qed.

(** The shape outside the table may be anything. *)
Lemma table_put_exempt rt p s : table_ok p rt -> p <> 0%nat -> (p < clock rt)%nat -> 0 <= sh_hash s < 2 ^ 32 -> table_ok p (put_shape rt p s).
Proof.
  intros [T1 T2 T3 [cs T4]] Hp0 Hlt Hh. split; cbn [clock shape_hash_bits rt_shape_hash shapes put_shape set_shapes]; [done|done| |].
  - intros q t Hq. destruct (decide (q = p)) as [->|]; [rewrite lookup_insert_eq in Hq; by injection Hq as <-|]. rewrite lookup_insert_ne in Hq by done. by apply T3.
  - exists cs. eapply table_ext; [| |exact T4]; intros k.
    + intros [j Hj]. unfold others in Hj. case_decide; [done|]. unfold snx. by rewrite lookup_insert_ne.
    + unfold others. case_decide; [done|]. unfold sbk. by rewrite lookup_insert_ne.
Qed.

Lemma table_delete rt p : table_ok p rt -> table_ok 0 (set_shapes rt (delete p (shapes rt))).
Proof.
  intros [T1 T2 T3 [cs T4]]. split; cbn [clock shape_hash_bits rt_shape_hash shapes set_shapes]; [done|done| |].
  - intros q t [_ Hq]%lookup_delete_Some. by apply T3.
  - exists cs. eapply table_ext; [| |exact T4]; intros k.
    + intros [j Hj]. unfold others in Hj. case_decide; [done|]. unfold snx. by rewrite lookup_delete_ne.
    + unfold others, sbk. destruct (decide (k = p)) as [->|]; [rewrite lookup_delete_eq; by case_decide|]. rewrite lookup_delete_ne by done. case_decide as Hk; [|done]. subst k.
      destruct (shapes rt !! 0%nat) as [s0|] eqn:E0; [|done]. by destruct (T3 0%nat s0 E0).
Qed.

Lemma table_unhashed rt p s : shapes rt !! p = Some s -> sh_is_hashed s = false -> table_ok 0 rt <-> table_ok p rt.
Proof.
  intros Hp Hh. assert (Hb : sbk (shape_hash_bits rt) (shapes rt) p = None) by (unfold sbk; rewrite Hp; simpl; by rewrite Hh). split; intros [T1 T2 T3 [cs T4]].
  all: assert (Hz : sbk (shape_hash_bits rt) (shapes rt) 0 = None) by (unfold sbk; destruct (shapes rt !! 0%nat) as [s0|] eqn:E0; [by destruct (T3 0%nat s0 E0)|done]).
  all: split; try done; exists cs; eapply table_ext; [done| |exact T4]; intros k; unfold others; repeat case_decide; congruence.
Qed.

(** A shape that does not exist yet. *)
Lemma table_fresh rt p : shapes rt !! p = None -> table_ok 0 rt -> table_ok p rt.
Proof.
  intros Hp [T1 T2 T3 [cs T4]]. assert (Hb : sbk (shape_hash_bits rt) (shapes rt) p = None) by (unfold sbk; by rewrite Hp).
  assert (Hz : sbk (shape_hash_bits rt) (shapes rt) 0 = None) by (unfold sbk; destruct (shapes rt !! 0%nat) as [s0|] eqn:E0; [by destruct (T3 0%nat s0 E0)|done]).
  split; try done. exists cs. eapply table_ext; [done| |exact T4]. intros k. unfold others. repeat case_decide; congruence.
Qed.

(** *** What an operation leaves alone *)

(** Shapes that live on keep their meaning, except [e]. *)
Definition like (s s' : JSShape) : Prop := sh_proto s' = sh_proto s /\ names (sh_prop s') = names (sh_prop s) /\ sh_prop_size s' = sh_prop_size s /\ sh_is_hashed s' = sh_is_hashed s.

Definition stable (e : nat) rt rt' : Prop :=
  forall q s', q <> e -> (q < clock rt)%nat -> shapes rt' !! q = Some s' -> exists s, shapes rt !! q = Some s /\ like s s'.

Definition raw (l : list JSShapeProperty) (v : list (option V)) : list (Z * Z * option V) := zip_with (fun pr x => (sp_atom pr, sp_flags pr, x)) l v.

(** An object as its prototype and its properties, deleted ones included. *)
Definition view rt (p : nat) : option (nat * list (Z * Z * option V)) :=
  o ← objects rt !! p; sh ← shapes rt !! o_shape o; Some (sh_proto sh, raw (sh_prop sh) (o_prop o)).

Lemma raw_names l l' v : names l' = names l -> raw l' v = raw l v.
Proof.
  revert l' v. induction l as [|a l IH]; intros [|b l'] [|x v] E; try done. unfold names in *. cbn [fmap list_fmap] in E. injection E as E1 E2 E3. simpl. by rewrite E1, E2, (IH l' v E3).
Qed.

Lemma stable_trans e rt1 rt2 rt3 : (clock rt1 <= clock rt2)%nat -> stable e rt1 rt2 -> stable e rt2 rt3 -> stable e rt1 rt3.
Proof.
  intros Hcl H1 H2 q s3 Hq Hlt Hs. destruct (H2 q s3 Hq ltac:(lia) Hs) as (s2 & Hs2 & A1 & A2 & A3 & A4). destruct (H1 q s2 Hq Hlt Hs2) as (s1 & Hs1 & B1 & B2 & B3 & B4).
  exists s1. split; [done|]. split_and!; congruence.
Qed.

Lemma rechained_stable e rt rt' : rechained (shapes rt) (shapes rt') -> stable e rt rt'.
Proof.
  intros Hr q s' _ _ Hs. destruct (rechained_lookup _ _ _ _ (rechained_sym _ _ Hr) Hs) as [k Hk]. by exists (set_hash_next s' k).
Qed.

Lemma stable_refl e rt : stable e rt rt.
Proof. intros q s' _ _ Hs. by exists s'. Qed.

Lemma view_stable e rt rt' c a c' a' p : ok rt c a -> core rt' c' a' -> stable e rt rt' -> objects rt' !! p = objects rt !! p ->
  (forall o, objects rt !! p = Some o -> o_shape o <> e) -> view rt' p = view rt p.
Proof.
  intros [Ht Hc] Hc' Hst Ho He. unfold view. rewrite Ho. destruct (objects rt !! p) as [o|] eqn:Ep; [|done]. cbn [mbind option_bind].
  destruct (obj_shape_live rt c a p o Hc Ep) as [s Hs]. destruct (obj_shape_live rt' c' a' p o Hc' ltac:(by rewrite Ho)) as [s' Hs'].
  destruct (st_addr _ _ _ _ _ Ht _ s Hs) as (_ & Hlt & _). destruct (Hst _ s' (He o eq_refl) Hlt Hs') as (s0 & Hs0 & E1 & E2 & _).
  assert (s0 = s) as -> by congruence. rewrite Hs, Hs'. cbn [mbind option_bind]. by rewrite E1, (raw_names _ _ _ E2).
Qed.

(** The shapes referenced from outside objects are kept as they are. *)
Definition kept rt rt' (c : list nat) : Prop := forall q s, q ∈ c -> shapes rt !! q = Some s -> exists s', shapes rt' !! q = Some s' /\ like s s'.

Lemma kept_refl rt c : kept rt rt c.
Proof. intros q s _ Hs. by exists s. Qed.

Lemma kept_trans rt1 rt2 rt3 c : kept rt1 rt2 c -> kept rt2 rt3 c -> kept rt1 rt3 c.
Proof.
  intros H1 H2 q s Hq Hs. destruct (H1 q s Hq Hs) as (s2 & Hs2 & A1 & A2 & A3 & A4). destruct (H2 q s2 Hq Hs2) as (s3 & Hs3 & B1 & B2 & B3 & B4). exists s3. split; [done|]. split_and!; congruence.
Qed.

Lemma stable_kept e rt rt' c a c' a' : ok rt c a -> core rt' c' a' -> stable e rt rt' -> forall c0, (forall q, q ∈ c0 -> q ∈ c' /\ q <> e) -> kept rt rt' c0.
Proof.
  intros [Ht _] Hc' Hst c0 Hin q s Hq Hs. destruct (Hin q Hq) as [Hq' Hne]. destruct (co_live _ _ _ Hc' q ltac:(apply elem_of_app; by right)) as [s' Hs']. exists s'. split; [done|].
  destruct (st_addr _ _ _ _ _ Ht q s Hs) as (_ & Hlt & _). destruct (Hst q s' Hne Hlt Hs') as (s0 & Hs0 & Hl). by assert (s0 = s) as <- by congruence.
Qed.
End invariant.
