(* ===== verification/ShapesOps.v ===== *)
(** * Steps on shapes

    The effect of creating, sharing, copying, releasing and resizing a shape
    on the invariant of [ShapesProps]. *)
From S2P Require Import Prelude Native Chains Shapes ShapeTable ShapesProps.

Section steps.
Context {V A : Type} `{AtomLaws A} (mem : nat -> bool) (addr : nat -> Z).
Implicit Types rt : JSRuntime V A.

(** Objects are untouched and shapes keep their meaning. *)
Record quiet rt rt' : Prop := {
  qu_objects : objects rt' = objects rt;
  qu_freed : freed rt' = freed rt;
  qu_clock : (clock rt <= clock rt')%nat;
  qu_stable : stable 0 rt rt';
}.

Lemma quiet_refl rt : quiet rt rt.
Proof. split; [done|done|done|apply stable_refl]. Qed.

Lemma quiet_trans rt1 rt2 rt3 : quiet rt1 rt2 -> quiet rt2 rt3 -> quiet rt1 rt3.
Proof. intros [A1 A2 A3 A4] [B1 B2 B3 B4]. split; [congruence|congruence|lia|by eapply stable_trans]. Qed.

(** Only a new shape has changed since. *)
Lemma quiet_fresh rt rt1 rt2 p : quiet rt rt1 -> (clock rt <= p)%nat -> objects rt2 = objects rt1 -> freed rt2 = freed rt1 -> (clock rt1 <= clock rt2)%nat -> stable p rt1 rt2 -> quiet rt rt2.
Proof.
  intros [Q1 Q2 Q3 Q4] Hp Eo Ef Hc Hs. split; [congruence|congruence|lia|]. intros q s2 Hq Hlt Hq2. destruct (Hs q s2 ltac:(lia) ltac:(lia) Hq2) as (s1 & Hs1 & A1 & A2 & A3 & A4).
  destruct (Q4 q s1 Hq Hlt Hs1) as (s & Hs0 & B1 & B2 & B3 & B4). exists s. split; [done|]. split_and!; congruence.
Qed.

(** ** References *)

Lemma core_set_ref rt c c' a p s n : core rt c a -> shapes rt !! p = Some s -> 0 < n -> (sh_is_hashed s = false -> n = 1) ->
  (forall q, countZ q c' = countZ q c + (if decide (q = p) then n - sh_ref_count s else 0)) -> (forall q, q ∈ c' -> q ∈ c \/ q = p) ->
  core (put_shape rt p (set_ref s n)) c' a.
Proof.
  intros [C1 C2 C3 C4 C5 C6 C7 C8 C9] Hp Hn Hh Hc Hin.
  assert (Hq : forall q t, <[p := set_ref s n]> (shapes rt) !! q = Some t -> q = p /\ t = set_ref s n \/ q <> p /\ shapes rt !! q = Some t).
  { intros q t. destruct (decide (q = p)) as [->|]; [rewrite lookup_insert_eq; intros [= <-]; by left|rewrite lookup_insert_ne by done; by right]. }
  assert (Hfl : forall {Y} (f : JSShape -> list Y), f (set_ref s n) = f s -> flat f (<[p := set_ref s n]> (shapes rt)) ≡ₚ flat f (shapes rt)).
  { intros Y f Hf. rewrite flat_update, (flat_delete f (shapes rt) p s Hp). by rewrite Hf. }
  split; cbn [objects shapes put_shape set_shapes clock]; try done.
  - intros q t Ht. destruct (Hq q t Ht) as [[-> ->]|[_ Ht']]; [|by eapply C2]. destruct (C2 p s Hp). by split.
  - intros q t Ht. unfold shape_refs, obj_shapes. cbn [objects put_shape set_shapes]. rewrite Hc. destruct (Hq q t Ht) as [[-> ->]|[Hne Ht']].
    + rewrite decide_True by done. destruct (C3 p s Hp) as [E _]. unfold shape_refs, obj_shapes in E. simpl. lia.
    + rewrite decide_False by done. destruct (C3 q t Ht') as [E ?]. unfold shape_refs, obj_shapes in E. lia.
  - intros q t Ht Hh'. destruct (Hq q t Ht) as [[-> ->]|[_ Ht']]; [by apply Hh|by eapply C4].
  - intros q Hqin. destruct (decide (q = p)) as [->|]; [rewrite lookup_insert_eq; eauto|]. rewrite lookup_insert_ne by done. apply C5.
    apply elem_of_app in Hqin as [?|Hqc]; apply elem_of_app; [by left|right]. by destruct (Hin q Hqc).
  - intros q o t Ho Ht. destruct (Hq _ t Ht) as [[E ->]|[_ Ht']]; [|by eapply C6]. simpl. apply (C6 q o s Ho). by rewrite E.
  - eapply atoms_hold_perm; [|exact C7]. f_equiv. symmetry. unfold live_atoms. by apply Hfl.
  - rewrite C8. apply Permutation_app; [done|]. unfold live_protos. symmetry. by apply (Hfl _ (fun s => proto_ref (sh_proto s))).
Qed.

Lemma put_ref_quiet rt p s n : shapes rt !! p = Some s -> quiet rt (put_shape rt p (set_ref s n)).
Proof.
  intros Hp. split; [done|done|done|]. intros q s' _ _ Hq. cbn [shapes put_shape set_shapes] in Hq. destruct (decide (q = p)) as [->|].
  - rewrite lookup_insert_eq in Hq. injection Hq as <-. by exists s.
  - rewrite lookup_insert_ne in Hq by done. by exists s'.
Qed.

Lemma dup_shape_spec rt c a p s : ok rt c a -> shapes rt !! p = Some s -> sh_is_hashed s = true ->
  exists rt', js_dup_shape rt p = Some rt' /\ ok rt' (p :: c) a /\ quiet rt rt' /\ shapes rt' !! p = Some (set_ref s (sh_ref_count s + 1)).
Proof.
  intros [Ht Hc] Hp Hh. unfold js_dup_shape. rewrite Hp. cbn [mbind option_bind]. eexists. split; [done|]. split_and!; [split| |].
  - by eapply table_put.
  - destruct (co_refs _ _ _ Hc p s Hp) as [_ Hpos]. apply (core_set_ref rt c (p :: c)); [done|done|lia|congruence| |].
    + intros q. simpl. case_decide; lia.
    + intros q [->|Hq]%elem_of_cons; auto.
  - by apply put_ref_quiet.
  - apply lookup_insert_eq.
Qed.

(** The last reference goes: the shape leaves the table, and its references
    to the prototype and the atoms are given back. *)
Lemma free_shape0_spec rt c a p s : ok rt (p :: c) a -> shapes rt !! p = Some s -> sh_ref_count s = 1 ->
  exists rt', js_free_shape0 (put_shape rt p (set_ref s 0)) p = Some rt' /\ ok rt' c a /\ quiet rt rt'.
Proof.
  intros [Ht Hc] Hp Hrc. set (rt1 := put_shape rt p (set_ref s 0)). assert (Hp1 : shapes rt1 !! p = Some (set_ref s 0)) by apply lookup_insert_eq.
  unfold js_free_shape0. rewrite Hp1. cbn [mbind option_bind sh_ref_count set_ref Z.eqb negb sh_is_hashed].
  assert (Hunl : exists rt2 t n m, (if sh_is_hashed s then js_shape_hash_unlink rt1 p else Some rt1) = Some rt2 /\ rt2 = set_table rt1 t n m /\
    rechained (shapes rt1) m /\ table_ok p rt2).
  { assert (Ht1 : table_ok 0 rt1) by by eapply table_put. destruct (sh_is_hashed s) eqn:Hh.
    - destruct (unlink_spec rt1 p (set_ref s 0) Ht1 Hp1 Hh) as (rt2 & t & m & E & E2 & Hr & _ & Ht2). by exists rt2, t, (shape_hash_count rt1 - 1), m.
    - exists rt1, (rt_shape_hash rt1), (shape_hash_count rt1), (shapes rt1). split_and!; [done|done|done|]. by eapply table_unhashed. }
  destruct Hunl as (rt2 & t & n & m & -> & E2 & Hr & Ht2). cbn [mbind option_bind].
  (* the state as it was, rechained *)
  set (rt0 := set_table rt t n (<[p := s]> m)).
  assert (Hal : all_alike (shapes rt) (shapes rt0)).
  { intros q. unfold rt0. cbn [shapes set_table]. destruct (decide (q = p)) as [->|]; [by rewrite lookup_insert_eq, Hp|]. rewrite lookup_insert_ne by done.
    assert (Hq : shapes rt1 !! q = shapes rt !! q) by (unfold rt1; cbn [shapes put_shape set_shapes]; by rewrite lookup_insert_ne). rewrite <- Hq. by apply rechained_alike. }
  assert (Hc0 : core rt0 (p :: c) a).
  { eapply core_alike; [exact Hc|exact Hal| |done..]. intros q s' Hq Hhq. destruct (alike_lookup _ _ _ _ Hal Hq) as (s0 & Hs0 & E1 & _). rewrite E1.
    unfold rt0 in Hq. cbn [shapes set_table] in Hq. destruct (decide (q = p)) as [->|]; [by assert (s0 = s) as -> by congruence|]. rewrite lookup_insert_ne in Hq by done.
    destruct (rechained_lookup _ _ _ _ (rechained_sym _ _ Hr) Hq) as [k Hk]. unfold rt1 in Hk. cbn [shapes put_shape set_shapes] in Hk. rewrite lookup_insert_ne in Hk by done.
    apply (co_single _ _ _ Hc q s0 Hs0). assert (s0 = set_hash_next s' k) as -> by congruence. done. }
  assert (Hdel : delete p m = delete p (shapes rt0)) by (unfold rt0; cbn [shapes set_table]; by rewrite delete_insert_eq).
  pose proof (co_atoms _ _ _ Hc0) as Hat. assert (Hat2 : atoms_hold (atoms rt) (shape_atoms (sh_prop s) ++ flat (fun s => shape_atoms (sh_prop s)) (delete p m) ++ a)).
  { eapply atoms_hold_perm; [|exact Hat]. rewrite (assoc_L (++)). f_equiv. unfold live_atoms. rewrite (flat_delete _ (shapes rt0) p s) by apply lookup_insert_eq. by rewrite Hdel. }
  destruct (free_atoms_spec (sh_prop s) (atoms rt) _ Hat2) as (st' & Est & Hst).
  assert (Eat : atoms (free_proto rt2 (sh_proto s)) = atoms rt) by (rewrite E2; unfold free_proto; by destruct (_ =? _)%nat).
  cbn [sh_proto set_ref sh_prop]. rewrite Eat, Est. cbn [mbind option_bind]. eexists. split; [done|].
  assert (Esh : shapes (free_proto rt2 (sh_proto s)) = m) by (rewrite E2; unfold free_proto; by destruct (_ =? _)%nat). rewrite Esh.
  split; [split|].
  - assert (Ht3 : table_ok 0 (set_shapes rt2 (delete p (shapes rt2)))) by by apply table_delete. rewrite E2 in Ht3 |- *. unfold table_ok in *. unfold free_proto. by destruct (_ =? _)%nat.
  - eapply (core_delete_shape rt0 _ c a p s); [done|apply lookup_insert_eq|done|by rewrite <- Hdel| | | | |]; rewrite ?E2; unfold free_proto, proto_ref; try (by destruct (_ =? _)%nat).
    cbn [atoms set_atoms set_shapes]. by rewrite <- Hdel.
  - rewrite E2. split; try (unfold free_proto; by destruct (_ =? _)%nat). intros q s' _ _ Hq. cbn [shapes set_shapes] in Hq. apply lookup_delete_Some in Hq as [Hne Hq].
    destruct (rechained_lookup _ _ _ _ (rechained_sym _ _ Hr) Hq) as [n' Hn']. unfold rt1 in Hn'. cbn [shapes put_shape set_shapes] in Hn'. rewrite lookup_insert_ne in Hn' by done. by exists (set_hash_next s' n').
Qed.

Lemma free_shape_spec rt c a p : ok rt (p :: c) a -> exists rt', js_free_shape rt p = Some rt' /\ ok rt' c a /\ quiet rt rt'.
Proof.
  intros Hok. pose proof Hok as [Ht Hc]. destruct (co_live _ _ _ Hc p ltac:(apply elem_of_app; right; by left)) as [s Hp]. unfold js_free_shape. rewrite Hp. cbn [mbind option_bind].
  destruct (co_refs _ _ _ Hc p s Hp) as [Hrc Hpos]. unfold shape_refs in Hrc. simpl in Hrc. rewrite decide_True in Hrc by done.
  pose proof (countZ_nonneg p (obj_shapes rt)). pose proof (countZ_nonneg p c). destruct (Z.leb_spec (sh_ref_count s - 1) 0) as [Hle|Hgt].
  - replace (sh_ref_count s - 1) with 0 by lia. apply free_shape0_spec; [done|done|lia].
  - eexists. split; [done|]. split; [split; [by eapply table_put|]|by apply put_ref_quiet]. apply (core_set_ref rt (p :: c) c); [done|done|lia| | |].
    + intros Hh. rewrite (co_single _ _ _ Hc p s Hp Hh) in Hgt. lia.
    + intros q. simpl. case_decide; lia.
    + intros q Hq. left. by right.
Qed.

(** ** Creation *)

Definition short : Prop := exists n, mem n = false.

Lemma tick_ok rt c a : ok rt c a -> ok (tick rt) c a.
Proof.
  intros [Ht Hc]. split; [by apply tick_table|]. eapply core_alike; [exact Hc|done| |done..|simpl; lia]. intros p s. apply (co_single _ _ _ Hc).
Qed.

Lemma tick_quiet rt : quiet rt (tick rt).
Proof. split; [done|done|simpl; lia|apply (stable_refl 0 rt)]. Qed.

Lemma fresh_shape rt c a : ok rt c a -> shapes rt !! clock rt = None.
Proof. intros [Ht _]. destruct (shapes rt !! clock rt) as [s|] eqn:E; [|done]. destruct (st_addr _ _ _ _ _ Ht _ s E) as (_ & ? & _). lia. Qed.

(** A shape at the new address [clock rt], outside the table. *)
Lemma add_shape_ok rt rt' c a s : ok rt c a -> shape_ok s -> sh_ref_count s = 1 -> sh_is_hashed s = false -> 0 <= sh_hash s < 2 ^ 32 ->
  shapes rt' = <[clock rt := s]> (shapes rt) -> objects rt' = objects rt -> atoms_hold (atoms rt') (shape_atoms (sh_prop s) ++ live_atoms rt ++ a) ->
  proto_dups rt' ≡ₚ proto_ref (sh_proto s) ++ proto_dups rt -> proto_frees rt' = proto_frees rt -> freed rt' = freed rt -> clock rt' = S (clock rt) ->
  shape_hash_bits rt' = shape_hash_bits rt -> rt_shape_hash rt' = rt_shape_hash rt ->
  ok rt' (clock rt :: c) a /\ quiet rt rt'.
Proof.
  intros Hok Hs Hrc Hh Hhr Es Eo Ha Hd Ef Efr Ecl Eb Et. pose proof (fresh_shape rt c a Hok) as Hp. destruct Hok as [Ht Hc]. split; [split|].
  - assert (Ht1 : table_ok (clock rt) (put_shape (tick rt) (clock rt) s)).
    { apply table_put_exempt; [|apply (co_clock _ _ _ Hc)|simpl; lia|done]. by apply tick_table, table_fresh. }
    apply (table_unhashed _ (clock rt) s) in Ht1; [|apply lookup_insert_eq|done]. unfold table_ok in *. cbn [clock shape_hash_bits rt_shape_hash shapes put_shape set_shapes tick] in Ht1.
    by rewrite Ecl, Eb, Et, Es.
  - eapply (core_new_shape rt rt' c a (clock rt) s); try done. rewrite Ecl. lia.
  - split; [done|done|lia|]. intros q s' _ Hlt. rewrite Es, lookup_insert_ne by lia. intros Hq. by exists s'.
Qed.

Lemma empty_shape_ok n size h proto : power2 n -> shape_ok (mkShape 1 false h (replicate n 0%nat) size [] 0 0 proto).
Proof.
  intros Hn. split; cbn [sh_hash_table sh_prop sh_prop_size sh_deleted_prop_count prop_count]; unfold prop_count; cbn [sh_prop length].
  - by rewrite length_replicate.
  - apply prop_table_empty.
  - by intros i j a b Ha.
  - lia.
  - done.
  - lia.
Qed.

Lemma new_shape_nohash_spec rt c a proto hs ps : ok rt c a -> power2 hs ->
  exists rt' p, js_new_shape_nohash mem rt proto hs ps = (rt', p) /\ quiet rt rt' /\
    shape_hash_bits rt' = shape_hash_bits rt /\
    ((p = 0%nat /\ ok rt' c a /\ short) \/
     (p <> 0%nat /\ (clock rt <= p < clock rt')%nat /\ ok rt' (p :: c) a /\ shapes rt' !! p = Some (mkShape 1 false 0 (replicate hs 0%nat) ps [] 0 0 proto))).
Proof.
  intros Hok Hn. pose proof (co_clock _ _ _ (proj2 Hok)) as Hc0. unfold js_new_shape_nohash, js_malloc. destruct (mem (clock rt)) eqn:Em.
  2: { eexists _, _. split; [done|]. split_and!; [apply tick_quiet|done|]. left. split_and!; [done|by apply tick_ok|by exists (clock rt)]. }
  destruct (Nat.eqb_spec (clock rt) 0); [done|]. eexists _, _. split; [done|]. set (s := mkShape 1 _ _ _ _ _ _ _ _).
  assert (H1 : ok (put_shape (dup_proto (tick rt) proto) (clock rt) s) (clock rt :: c) a /\ quiet rt (put_shape (dup_proto (tick rt) proto) (clock rt) s)).
  { apply (add_shape_ok rt _ c a s); [done|by apply empty_shape_ok|done|done|simpl; lia|..]; unfold dup_proto, proto_ref; cbn [sh_proto s]; try (by destruct (proto =? 0)%nat).
    destruct (proto =? 0)%nat; apply (co_atoms _ _ _ (proj2 Hok)). }
  destruct H1 as [H1 H2]. assert (Ecl : clock (put_shape (dup_proto (tick rt) proto) (clock rt) s) = S (clock rt)) by (unfold dup_proto; by destruct (proto =? 0)%nat).
  split_and!; [done|unfold dup_proto; by destruct (proto =? 0)%nat|]. right. split_and!; [done|lia|lia|done|apply lookup_insert_eq].
Qed.

Lemma shape_hash_range h v : 0 <= shape_hash h v < 2 ^ 32.
Proof. unfold shape_hash, u32. apply Z.mod_pos_bound. lia. Qed.

(** Putting a shape that is outside the table in it, under the hash [h]. *)
Lemma hash_shape_spec rt c a p s h : table_ok p rt -> core rt c a -> shapes rt !! p = Some s -> 0 <= h < 2 ^ 32 ->
  exists rt' n, js_shape_hash_link (put_shape rt p (set_hashed s true h)) p = Some rt' /\ ok rt' c a /\ (objects rt' = objects rt /\ freed rt' = freed rt /\ atoms rt' = atoms rt /\ clock rt' = clock rt) /\ stable p rt rt' /\
    shapes rt' = <[p := set_hash_next (set_hashed s true h) n]> (shapes rt).
Proof.
  intros Ht Hc Hp Hr. set (rt1 := put_shape rt p (set_hashed s true h)). destruct (st_addr _ _ _ _ _ Ht p s Hp) as (Hp0 & Hlt & _).
  assert (Ht1 : table_ok p rt1) by (by apply table_put_exempt).
  destruct (link_spec rt1 p (set_hashed s true h) Ht1) as (rt' & t & n & E & Ert & Ht'); [apply lookup_insert_eq|done|]. exists rt', n. split; [done|].
  assert (Es : shapes rt' = <[p := set_hash_next (set_hashed s true h) n]> (shapes rt)) by (rewrite Ert; cbn [shapes set_table rt1 put_shape set_shapes]; by rewrite insert_insert_eq).
  assert (Hal : all_alike (shapes rt) (shapes rt')).
  { intros q. rewrite Es. destruct (decide (q = p)) as [->|]; [by rewrite lookup_insert_eq, Hp|by rewrite !lookup_insert_ne]. }
  split_and!; [split; [done|]|by rewrite Ert..| |done].
  - eapply core_alike; [exact Hc|exact Hal| |by rewrite Ert..]. intros q s' Hq Hhq. destruct (alike_lookup _ _ _ _ Hal Hq) as (s0 & Hs0 & E1 & _). rewrite E1.
    rewrite Es in Hq. destruct (decide (q = p)) as [->|]; [rewrite lookup_insert_eq in Hq; injection Hq as <-; done|].
    rewrite !lookup_insert_ne in Hq by done. apply (co_single _ _ _ Hc q s0); [done|]. congruence.
  - intros q s' Hq _ Hs'. rewrite Es, lookup_insert_ne in Hs' by done. by exists s'.
Qed.

Lemma new_shape_spec rt c a proto : ok rt c a -> shape_hash_bits rt < 32 ->
  exists rt' p, js_new_shape mem addr rt proto = Some (rt', p) /\ quiet rt rt' /\
    ((p = 0%nat /\ ok rt' c a /\ short) \/
     (p <> 0%nat /\ (p < clock rt')%nat /\ ok rt' (p :: c) a /\ exists s, shapes rt' !! p = Some s /\ sh_proto s = proto /\ sh_prop s = [] /\ sh_prop_size s = JS_PROP_INITIAL_SIZE /\ sh_is_hashed s = true)).
Proof.
  intros Hok Hb. unfold js_new_shape, js_new_shape2.
  assert (H1 : exists rt1, (if Z.of_nat (length (rt_shape_hash rt)) <? 2 * (shape_hash_count rt + 1) then resize_shape_hash mem rt (shape_hash_bits rt + 1) else Some rt) = Some rt1 /\
    ok rt1 c a /\ quiet rt rt1).
  { destruct (_ <? _); [|exists rt; split_and!; [done|done|apply quiet_refl]]. destruct Hok as [Ht Hc].
    destruct (resize_shape_hash_spec mem rt Ht Hb) as (rt1 & bits & t & m & E & Ht1 & Hr & Ert). exists rt1. split; [done|].
    assert (Hal : all_alike (shapes rt) (shapes rt1)) by (rewrite Ert; by apply rechained_alike).
    split; [split; [done|]|split; [by rewrite Ert..|rewrite Ert; simpl; lia|apply rechained_stable; by rewrite Ert]].
    eapply core_alike; [exact Hc|exact Hal| |by rewrite Ert..|rewrite Ert; simpl; lia]. intros q s' Hq Hhq. rewrite Ert in Hq. cbn [shapes] in Hq.
    destruct (rechained_lookup _ _ _ _ (rechained_sym _ _ Hr) Hq) as [k Hk]. apply (co_single _ _ _ Hc q _ Hk). done. }
  destruct H1 as (rt1 & -> & Hok1 & Hq1). cbn [mbind option_bind].
  destruct (new_shape_nohash_spec rt1 c a proto JS_PROP_INITIAL_HASH_SIZE JS_PROP_INITIAL_SIZE Hok1 ltac:(by exists 2%nat)) as (rt2 & p & E2 & Hq2 & _ & Hp). rewrite E2.
  pose proof (quiet_trans _ _ _ Hq1 Hq2) as Hq12. destruct Hp as [(-> & Hok2 & Hs)|(Hp0 & Hlt & Hok2 & Hp)].
  { exists rt2, 0%nat. split; [done|]. split; [done|]. by left. }
  destruct (Nat.eqb_spec p 0); [done|]. rewrite Hp. cbn [mbind option_bind].
  destruct (hash_shape_spec rt2 (p :: c) a p _ (shape_initial_hash addr proto) (proj1 (table_unhashed _ _ _ Hp eq_refl) (proj1 Hok2)) (proj2 Hok2) Hp) as (rt3 & n' & -> & Hok3 & (Eo3 & Ef3 & _ & Ec3) & Hst3 & Hn); [apply shape_hash_range|].
  cbn [mbind option_bind]. exists rt3, p. split; [done|]. split; [eapply quiet_fresh; [exact Hq12| |exact Eo3|exact Ef3|by rewrite Ec3|exact Hst3]; pose proof (qu_clock _ _ Hq1); lia|]. right. split_and!; [done|rewrite Ec3; lia|done|]. eexists. rewrite Hn. split; [apply lookup_insert_eq|done].
Qed.

Lemma clone_spec rt c a p s : ok rt c a -> shapes rt !! p = Some s ->
  exists rt' q, js_clone_shape mem rt p = Some (rt', q) /\ quiet rt rt' /\ shape_hash_bits rt' = shape_hash_bits rt /\
    ((q = 0%nat /\ ok rt' c a /\ short) \/
     (q <> 0%nat /\ ok rt' (q :: c) a /\ shapes rt' !! q = Some (set_hashed (set_ref s 1) false (sh_hash s)) /\ shapes rt' !! p = Some s /\ (clock rt <= q)%nat)).
Proof.
  intros Hok Hp. pose proof (co_clock _ _ _ (proj2 Hok)) as Hc0. unfold js_clone_shape, js_malloc. rewrite Hp. cbn [mbind option_bind]. destruct (mem (clock rt)) eqn:Em.
  2: { eexists _, _. split; [done|]. split_and!; [apply tick_quiet|done|]. left. split_and!; [done|by apply tick_ok|by exists (clock rt)]. }
  destruct (Nat.eqb_spec (clock rt) 0); [done|]. set (s' := set_hashed _ _ _). set (rt1 := put_shape (tick rt) (clock rt) s').
  assert (Eat : atoms (dup_proto rt1 (sh_proto s)) = atoms rt) by (unfold dup_proto; by destruct (_ =? _)%nat). rewrite Eat.
  destruct (dup_atoms_spec (sh_prop s) (atoms rt) _ (co_atoms _ _ _ (proj2 Hok))) as (st & -> & Hst).
  { intros x Hx. apply elem_of_app. left. by eapply flat_elem. }
  cbn [mbind option_bind]. eexists _, _. split; [done|]. destruct (st_addr _ _ _ _ _ (proj1 Hok) p s Hp) as (_ & Hlt & Hhr).
  assert (H1 : ok (set_atoms (dup_proto rt1 (sh_proto s)) st) (clock rt :: c) a /\ quiet rt (set_atoms (dup_proto rt1 (sh_proto s)) st)).
  { apply (add_shape_ok rt _ c a s'); [done| |done|done|done|..]; unfold dup_proto, proto_ref; cbn [sh_proto s' set_hashed set_ref]; try (by destruct (_ =? _)%nat).
    destruct (co_shape _ _ _ (proj2 Hok) p s Hp). by split. }
  destruct H1 as [H1 H2].
  assert (Esh : shapes (set_atoms (dup_proto rt1 (sh_proto s)) st) = <[clock rt := s']> (shapes rt)) by (unfold dup_proto; by destruct (_ =? _)%nat). rewrite Esh.
  split_and!; [done|unfold dup_proto; by destruct (_ =? _)%nat|]. right.
  split_and!; [done|done|apply lookup_insert_eq|rewrite lookup_insert_ne by lia; done|done].
Qed.

(** ** Moving a shape to a larger block *)

Lemma core_move_shape rt rt' c a p q s s' : core rt (p :: c) a -> shapes rt !! p = Some s -> sh_ref_count s = 1 -> shapes rt !! q = None ->
  shape_ok s' -> sh_ref_count s' = 1 -> sh_proto s' = sh_proto s -> names (sh_prop s') = names (sh_prop s) \/ shape_atoms (sh_prop s') = shape_atoms (sh_prop s) ->
  shapes rt' = <[q := s']> (delete p (shapes rt)) -> objects rt' = objects rt -> atoms rt' = atoms rt ->
  proto_dups rt' = proto_dups rt -> proto_frees rt' = proto_frees rt -> (clock rt <= clock rt')%nat -> core rt' (q :: c) a.
Proof.
  intros [C1 C2 C3 C4 C5 C6 C7 C8 C9] Hp Hrc Hq Hok Hrc' Hpr Hnm Es Eo Ea Ed Ef Hcl.
  assert (Hos : obj_shapes rt' = obj_shapes rt) by (unfold obj_shapes; by rewrite Eo).
  assert (Hno : p ∉ obj_shapes rt ++ c).
  { destruct (C3 p s Hp) as [E _]. unfold shape_refs in E. simpl in E. rewrite decide_True in E by done. pose proof (countZ_nonneg p (obj_shapes rt)). pose proof (countZ_nonneg p c).
    apply not_elem_of_app. split; apply countZ_zero; lia. }
  assert (Hnq : q ∉ obj_shapes rt ++ c). { intros Hin. destruct (C5 q); [rewrite <- Permutation_middle; by right|]. congruence. }
  assert (Hat : shape_atoms (sh_prop s') = shape_atoms (sh_prop s)).
  { destruct Hnm as [Hnm|Hnm]; [|done]. unfold shape_atoms. f_equal. apply (f_equal (fmap fst)) in Hnm. unfold names in Hnm. by rewrite <- !list_fmap_compose in Hnm. }
  assert (Hk : forall k t, shapes rt' !! k = Some t -> k = q /\ t = s' \/ k <> q /\ k <> p /\ shapes rt !! k = Some t).
  { intros k t. rewrite Es. destruct (decide (k = q)) as [->|]; [rewrite lookup_insert_eq; intros [= <-]; by left|]. rewrite lookup_insert_ne by done. intros [? ?]%lookup_delete_Some. right. by split_and!. }
  assert (Hfl : forall {Y} (f : JSShape -> list Y), f s' = f s -> flat f (shapes rt') ≡ₚ flat f (shapes rt)).
  { intros Y f Hf. rewrite Es, flat_insert by (rewrite lookup_delete_ne; [done|congruence]). rewrite (flat_delete f (shapes rt) p s Hp). by rewrite Hf. }
  split; rewrite ?Ed, ?Ef; try done.
  - intros k o. rewrite Eo. intros Ho. destruct (C1 k o Ho). lia.
  - intros k t Ht. destruct (Hk k t Ht) as [[-> ->]|(_ & _ & Ht')]; [done|by eapply C2].
  - intros k t Ht. unfold shape_refs. rewrite Hos. simpl. destruct (Hk k t Ht) as [[-> ->]|(Hne & Hnp & Ht')].
    + rewrite decide_True by done. apply not_elem_of_app in Hnq as [H1 H2]. apply countZ_zero in H1, H2. lia.
    + rewrite decide_False by done. destruct (C3 k t Ht') as [E ?]. unfold shape_refs in E. simpl in E. rewrite decide_False in E by done. lia.
  - intros k t Ht Hh. destruct (Hk k t Ht) as [[-> ->]|(_ & _ & Ht')]; [done|by eapply C4].
  - intros k. rewrite Hos, <- Permutation_middle, elem_of_cons, Es. intros [->|Hin]; [rewrite lookup_insert_eq; eauto|].
    rewrite lookup_insert_ne by congruence. rewrite lookup_delete_ne by congruence. apply C5. rewrite <- Permutation_middle. by right.
  - intros k o t. rewrite Eo. intros Ho Ht. destruct (Hk _ t Ht) as [[E _]|(_ & _ & Ht')]; [|by eapply C6]. destruct Hnq. apply elem_of_app. left. rewrite <- E. eapply flat_elem; [exact Ho|]. by left.
  - rewrite Ea. eapply atoms_hold_perm; [|exact C7]. f_equiv. symmetry. by apply (Hfl _ (fun s => shape_atoms (sh_prop s))).
  - rewrite C8. f_equiv. symmetry. apply (Hfl _ (fun s => proto_ref (sh_proto s))). by rewrite Hpr.
  - lia.
Qed.

Lemma grow_power2 fuel : forall n size, power2 n -> power2 (grow_hash_size fuel n size).
Proof. induction fuel as [|fuel IH]; intros n size Hn; [done|]. cbn [grow_hash_size]. destruct (n <? size)%nat; [|done]. apply IH. destruct Hn as [k ->]. by exists (S k). Qed.

Lemma shrink_power2 fuel : forall n size, power2 n -> (2 <= size)%nat -> power2 (shrink_hash_size fuel n size).
Proof.
  induction fuel as [|fuel IH]; intros n size Hn Hs; [done|]. cbn [shrink_hash_size]. destruct (Nat.leb_spec size (n / 2)); [|done]. apply IH; [|done].
  destruct Hn as [[|k] ->]; [simpl in *; lia|]. exists k. rewrite Nat.pow_succ_r', Nat.mul_comm. by rewrite Nat.div_mul by lia.
Qed.

Lemma raw_take l v n : (length l <= n)%nat -> raw (V := V) l (take n v) = raw l v.
Proof. revert v n. induction l as [|a l IH]; intros v n Hn; [done|]. destruct v as [|x v]; [by rewrite take_nil|]. destruct n as [|n]; [simpl in Hn; lia|]. simpl. f_equal. apply IH. simpl in Hn. lia. Qed.

Lemma raw_app_r l v w : (length l <= length v)%nat -> raw (V := V) l (v ++ w) = raw l v.
Proof. revert v. induction l as [|a l IH]; intros v Hv; [done|]. destruct v as [|x v]; [simpl in Hv; lia|]. simpl. f_equal. apply IH. simpl in Hv. lia. Qed.

Lemma realloc_length {X} (l : list (option X)) n : length (realloc l n) = n.
Proof. unfold realloc. rewrite length_app, length_take, length_replicate. lia. Qed.

Lemma raw_realloc l (v : list (option V)) n : (length l <= n)%nat -> (length l <= length v)%nat -> raw l (realloc v n) = raw l v.
Proof. intros Hn Hv. unfold realloc. rewrite raw_app_r by (rewrite length_take; lia). by apply raw_take. Qed.

(** The new contents of the tables of a shape that is copied. *)
Lemma resized_shape_ok s size n l t : shape_ok s -> power2 n -> (prop_count s <= size)%nat ->
  (if negb (n =? length (sh_hash_table s))%nat then rehash_props 0 (sh_prop s) (replicate n 0%nat) else Some (sh_prop s, sh_hash_table s)) = Some (l, t) ->
  shape_ok (set_ref (set_props s size t l (sh_deleted_prop_count s)) 1) /\ names l = names (sh_prop s).
Proof.
  intros [K1 K2 K3 K4 K5 K6] Hn Hs E. assert (Hl : names l = names (sh_prop s) /\ power2 (length t) /\ prop_table t l).
  { destruct (negb _); [|by injection E as <- <-]. destruct (rehash_props_spec (sh_prop s) [] (replicate n 0%nat)) as (l' & t' & E' & Hnm & Hlen & Ht); [apply prop_table_empty|by rewrite length_replicate|done|].
    change (length []) with 0%nat in E'. rewrite E in E'. injection E' as <- <-. rewrite length_replicate in Hlen. split_and!; [done|by rewrite Hlen|done]. }
  destruct Hl as (Hnm & Hp & Ht). split; [|done]. pose proof (names_length _ _ Hnm) as Hll. split; unfold prop_count in *; cbn [sh_hash_table sh_prop sh_prop_size sh_deleted_prop_count set_ref set_props].
  - done.
  - done.
  - by eapply names_atoms.
  - by rewrite Hll.
  - rewrite K5. unfold deleted_count. clear - Hnm. revert l Hnm. induction (sh_prop s) as [|a l0 IH]; intros [|b l] E; try done.
    unfold names in E. cbn [fmap list_fmap] in E. injection E as E1 E2 E3. rewrite !filter_cons, E1. specialize (IH l E3). case_decide; simpl; lia.
  - by rewrite Hll.
Qed.

Lemma rehash_total s n : shape_ok s -> power2 n -> exists l t,
  (if negb (n =? length (sh_hash_table s))%nat then rehash_props 0 (sh_prop s) (replicate n 0%nat) else Some (sh_prop s, sh_hash_table s)) = Some (l, t).
Proof.
  intros [K1 K2 K3 K4 K5 K6] Hn. destruct (negb _); [|eauto].
  destruct (rehash_props_spec (sh_prop s) [] (replicate n 0%nat)) as (l & t & E & _); [apply prop_table_empty|by rewrite length_replicate|done|]. eauto.
Qed.

(** Replacing an object is taking it and putting the new one. *)
Lemma put_taken rt m o (x : JSObject V) : put_object (set_shapes (set_objects rt (delete o (objects rt))) m) o x = put_object (set_shapes rt m) o x.
Proof. unfold put_object, set_objects, set_shapes. simpl. f_equal. apply insert_delete_eq. Qed.

Lemma put_taken0 rt o (x : JSObject V) : put_object (set_objects rt (delete o (objects rt))) o x = put_object rt o x.
Proof. unfold put_object, set_objects. simpl. f_equal. apply insert_delete_eq. Qed.

(** The object [o], alone on its shape, gets the shape [s'] at the new
    address [q]. *)
Lemma move_owner rt c a o ob s q s' v : table_ok (o_shape ob) rt -> core rt c a -> objects rt !! o = Some ob -> shapes rt !! o_shape ob = Some s -> sh_ref_count s = 1 ->
  q <> 0%nat -> (q < clock rt)%nat -> shapes rt !! q = None -> 0 <= sh_hash s' < 2 ^ 32 ->
  shape_ok s' -> sh_ref_count s' = 1 -> sh_proto s' = sh_proto s -> names (sh_prop s') = names (sh_prop s) \/ shape_atoms (sh_prop s') = shape_atoms (sh_prop s) -> (sh_prop_size s' <= length v)%nat ->
  let rt' := put_object (set_shapes rt (<[q := s']> (delete (o_shape ob) (shapes rt)))) o (mkObject q v (o_is_exotic ob)) in
  table_ok q rt' /\ core rt' c a.
Proof.
  intros Ht Hc Ho Hs Hrc Hq0 Hqc Hqn Hhr Hok Hrc' Hpr Hnm Hsz rt'. split.
  - assert (Ht2 : table_ok q (set_shapes rt (delete (o_shape ob) (shapes rt)))).
    { apply table_fresh; [|by apply table_delete]. cbn [shapes set_shapes]. rewrite lookup_delete_ne; [done|congruence]. }
    pose proof (table_put_exempt _ q s' Ht2 Hq0 Hqc Hhr) as Ht3. exact Ht3.
  - destruct (co_obj _ _ _ Hc o ob Ho) as [Ho0 Hoc]. pose proof (core_take_object rt c a o ob Hc Ho) as H1.
    pose proof (core_move_shape _ (set_shapes (set_objects rt (delete o (objects rt))) (<[q := s']> (delete (o_shape ob) (shapes rt)))) c a (o_shape ob) q s s'
      H1 Hs Hrc Hqn Hok Hrc' Hpr Hnm eq_refl eq_refl eq_refl eq_refl eq_refl (le_n _)) as H2.
    pose proof (core_put_object _ c a o (mkObject q v (o_is_exotic ob)) s' H2 ltac:(apply lookup_delete_eq) Ho0 Hoc ltac:(apply lookup_insert_eq) Hsz) as H3.
    rewrite put_taken in H3. exact H3.
Qed.

(** The outcome of making room in the shape of [o]. *)
Record room_made rt rt' (c : list nat) (a : list Z) (o : nat) (ob : JSObject V) (s : JSShape) (q : nat) (s' : JSShape) : Prop := {
  rm_table : table_ok q rt';
  rm_core : core rt' c a;
  rm_shape : shapes rt' !! q = Some s';
  rm_obj : exists v, objects rt' !! o = Some (mkObject q v (o_is_exotic ob)) /\ raw (sh_prop s) v = raw (sh_prop s) (o_prop ob);
  rm_others : forall k, k <> o -> objects rt' !! k = objects rt !! k;
  rm_stable : stable q rt rt';
  rm_freed : freed rt' = freed rt;
  rm_clock : (clock rt <= clock rt')%nat;
  rm_names : names (sh_prop s') = names (sh_prop s);
  rm_proto : sh_proto s' = sh_proto s;
  rm_hashed : sh_is_hashed s' = sh_is_hashed s /\ sh_hash s' = sh_hash s;
  rm_ref : sh_ref_count s' = 1;
  rm_new : q = o_shape ob \/ (clock rt <= q)%nat;
}.

(** Only the array of the object is larger. *)
Lemma resized_object rt c a o ob s n : table_ok (o_shape ob) rt -> core rt c a -> objects rt !! o = Some ob -> shapes rt !! o_shape ob = Some s -> sh_ref_count s = 1 ->
  (sh_prop_size s <= n)%nat ->
  room_made rt (put_object rt o (set_o_prop ob (realloc (o_prop ob) n))) c a o ob s (o_shape ob) s.
Proof.
  intros Ht Hc Ho Hs Hrc Hn. set (ob' := set_o_prop ob (realloc (o_prop ob) n)).
  assert (Hc' : core (put_object rt o ob') c a).
  { destruct (co_obj _ _ _ Hc o ob Ho) as [Ho0 Hoc]. pose proof (core_take_object rt c a o ob Hc Ho) as H1.
    pose proof (core_put_object _ c a o ob' s H1 ltac:(apply lookup_delete_eq) Ho0 Hoc Hs) as H2. rewrite put_taken0 in H2.
    apply H2. unfold ob'. cbn [o_prop set_o_prop]. by rewrite realloc_length. }
  pose proof (sk_room _ (co_shape _ _ _ Hc _ s Hs)) as Hr. pose proof (co_room _ _ _ Hc o ob s Ho Hs) as Hr2. unfold prop_count in Hr.
  split; try done.
  - exists (realloc (o_prop ob) n). split; [apply lookup_insert_eq|]. apply raw_realloc; lia.
  - intros k Hk. cbn [objects put_object set_objects]. by rewrite lookup_insert_ne.
  - intros k s1 _ _ Hk. by exists s1.
  - by left.
Qed.

Lemma resize_properties_spec rt c a o ob s : table_ok (o_shape ob) rt -> core rt c a -> objects rt !! o = Some ob -> shapes rt !! o_shape ob = Some s -> sh_ref_count s = 1 ->
  (sh_prop_size s <= prop_count s)%nat ->
  exists rt' q, resize_properties mem rt (o_shape ob) (Some o) (prop_count s + 1) = Some (rt', q) /\
    ((q = 0%nat /\ short /\ room_made rt rt' c a o ob s (o_shape ob) s) \/
     (q <> 0%nat /\ exists s', room_made rt rt' c a o ob s q s' /\ (prop_count s + 1 <= sh_prop_size s')%nat)).
Proof.
  intros Ht Hc Ho Hs Hrc Hfull. pose proof (co_clock _ _ _ Hc) as Hc0. unfold resize_properties. rewrite Hs. cbn [mbind option_bind].
  set (new_size := ((prop_count s + 1) `max` (sh_prop_size s * 3 / 2))%nat).
  assert (Htk : table_ok (o_shape ob) (tick rt) /\ core (tick rt) c a).
  { split; [by apply tick_table|]. eapply core_alike; [exact Hc|done| |done..|simpl; lia]. intros p s0. apply (co_single _ _ _ Hc). }
  destruct Htk as [Ht1 Hc1]. assert (Hid : forall rt1, objects rt1 = objects rt -> shapes rt1 = shapes rt -> freed rt1 = freed rt -> (clock rt <= clock rt1)%nat ->
    forall rt2 q s', room_made rt1 rt2 c a o ob s q s' -> room_made rt rt2 c a o ob s q s').
  { intros rt1 E1 E2 E3 Hcl rt2 q s' []. split; try done; [intros k Hk; rewrite <- E1; auto| |congruence|lia|destruct rm_new0; [by left|right; lia]].
    intros k s1 Hk Hlt Hs1. rewrite <- E2. apply (rm_stable0 k s1 Hk); [lia|done]. }
  unfold js_malloc. destruct (mem (clock rt)) eqn:Em.
  2: { change ((0 =? 0)%nat) with true. cbv iota. cbn [mbind option_bind negb]. eexists _, _. split; [done|]. left. split_and!; [done|by exists (clock rt)|].
       split; try done; [by exists (o_prop ob); destruct ob|by intros k s1 _ _ Hk; exists s1|simpl; lia|by left]. }
  destruct (Nat.eqb_spec (clock rt) 0); [done|]. cbn [set_owner objects tick]. rewrite Ho. cbn [mbind option_bind negb].
  set (ob1 := set_o_prop ob (realloc (o_prop ob) new_size)). set (rt1 := put_object (tick rt) o ob1).
  assert (H1 : room_made (tick rt) rt1 c a o ob s (o_shape ob) s) by (apply resized_object; [done|done|done|done|done|unfold new_size; lia]).
  cbn [clock rt1 put_object set_objects tick]. destruct (mem (S (clock rt))) eqn:Em2; cbn [Nat.eqb].
  2: { change ((0 =? 0)%nat) with true. cbv iota. eexists _, _. split; [done|]. left. split_and!; [done|by exists (S (clock rt))|]. eapply (Hid (tick rt)); [done|done|done|simpl; lia|].
       destruct H1. split; try done; [by apply tick_table| |simpl in *; lia].
       eapply core_alike; [exact rm_core0|done| |done..|simpl; lia]. intros p s0. apply (co_single _ _ _ rm_core0). }
  pose proof (co_shape _ _ _ Hc _ s Hs) as Hsok. pose proof (grow_power2 new_size _ new_size (sk_size _ Hsok)) as Hp2. set (hn := grow_hash_size _ _ _) in *.
  destruct (rehash_total s hn Hsok Hp2) as (l & t & E). rewrite E. cbn [mbind option_bind].
  destruct (resized_shape_ok s new_size hn l t Hsok Hp2 ltac:(unfold new_size; lia) E) as [Hok' Hnm]. set (s' := set_ref _ 1) in *.
  cbn [set_owner]. match goal with |- context [objects ?r !! o] => assert (Eo : objects r !! o = Some ob1) by apply lookup_insert_eq end.
  rewrite Eo. cbn [mbind option_bind]. eexists _, _. split; [done|]. right. split; [lia|].
  assert (Hfresh : shapes rt !! S (clock rt) = None).
  { destruct (shapes rt !! S (clock rt)) as [s0|] eqn:E0; [|done]. destruct (st_addr _ _ _ _ _ Ht _ s0 E0) as (_ & ? & _). lia. }
  assert (Ht2 : table_ok (o_shape ob) (tick rt1)) by (apply tick_table, H1).
  assert (Hc2 : core (tick rt1) c a) by (eapply core_alike; [apply H1|done| |done..|simpl; lia]; intros p s0; apply (co_single _ _ _ (rm_core _ _ _ _ _ _ _ _ _ H1))).
  destruct (st_addr _ _ _ _ _ Ht _ s Hs) as (_ & Hlt & Hhr).
  destruct (move_owner (tick rt1) c a o ob1 s (S (clock rt)) s' (realloc (o_prop ob) new_size)) as [Ht3 Hc3]; try done.
  { simpl. lia. } { by left. } { rewrite realloc_length. cbn [s' sh_prop_size set_ref set_props]. lia. }
  exists s'. split; [|cbn [s' sh_prop_size set_ref set_props]; unfold new_size; lia].
  set (rt3 := put_object (set_shapes (tick rt1) _) o _) in Ht3, Hc3.
  match goal with |- room_made _ ?r _ _ _ _ _ _ _ => assert (Er : r = rt3) end.
  { unfold rt3, rt1, put_object. cbn [objects set_objects set_shapes tick]. by rewrite !insert_insert_eq. }
  rewrite Er. pose proof (sk_room _ Hsok) as Hr. pose proof (co_room _ _ _ Hc o ob s Ho Hs) as Hr2. unfold prop_count in Hr. split; try done.
  - apply lookup_insert_eq.
  - eexists. split; [apply lookup_insert_eq|]. apply raw_realloc; unfold new_size, prop_count; lia.
  - intros k Hk. unfold rt3, rt1. cbn [objects put_object set_objects set_shapes tick]. by rewrite !lookup_insert_ne.
  - intros k s1 Hk _ Hs1. unfold rt3, rt1 in Hs1. cbn [shapes put_object set_objects set_shapes tick] in Hs1. rewrite lookup_insert_ne in Hs1 by done. apply lookup_delete_Some in Hs1 as [_ Hs1]. by exists s1.
  - unfold rt3, rt1. simpl. lia.
  - right. lia.
Qed.
End steps.
