(* ===== verification/ObjectProps.v ===== *)
(** * Properties of objects

    Adding, changing and deleting properties, and creating and freeing
    objects, from the steps on shapes of [ShapesOps]. *)
From S2P Require Import Prelude Native Chains Shapes ShapeTable ShapesProps ShapesOps.

Section objects.
Context {V A : Type} `{AtomLaws A} (mem : nat -> bool) (addr : nat -> Z) (undefined : V).
Implicit Types rt : JSRuntime V A.

(** ** Owners *)

(** A shape referenced once belongs to one object. *)
Lemma unique_owner rt c a o ob s : core rt c a -> objects rt !! o = Some ob -> shapes rt !! o_shape ob = Some s -> sh_ref_count s = 1 ->
  o_shape ob ∉ c /\ forall k ok, k <> o -> objects rt !! k = Some ok -> o_shape ok <> o_shape ob.
Proof.
  intros Hc Ho Hs Hrc. destruct (co_refs _ _ _ Hc _ s Hs) as [Href _]. unfold shape_refs, obj_shapes in Href.
  rewrite (countZ_Permutation _ _ _ (flat_delete (fun o => [o_shape o]) (objects rt) o ob Ho)) in Href. simpl in Href. rewrite decide_True in Href by done.
  set (rest := flat (fun o => [o_shape o]) (delete o (objects rt))) in *. pose proof (countZ_nonneg (o_shape ob) rest). pose proof (countZ_nonneg (o_shape ob) c). split.
  - apply countZ_zero. lia.
  - intros k ok Hk Hok E. assert (Hin : o_shape ob ∈ rest) by (eapply flat_elem; [rewrite lookup_delete_ne by done; exact Hok|rewrite <- E; by left]). apply countZ_pos in Hin. lia.
Qed.

(** Whether the shape of [o] is in the table. *)
Definition in_table rt (o : nat) : option bool := ob ← objects rt !! o; s ← shapes rt !! o_shape ob; Some (sh_is_hashed s).

Lemma in_table_eq rt o ob s : objects rt !! o = Some ob -> shapes rt !! o_shape ob = Some s -> in_table rt o = Some (sh_is_hashed s).
Proof. intros Ho Hs. unfold in_table. rewrite Ho. cbn [mbind option_bind]. by rewrite Hs. Qed.

(** The objects other than [o] are left alone, and so are the shapes
    referenced from outside objects. *)
Record spares rt rt' (c : list nat) (o : nat) : Prop := {
  sp_view : forall k, k <> o -> view rt' k = view rt k;
  sp_exotic : forall k, k <> o -> o_is_exotic <$> objects rt' !! k = o_is_exotic <$> objects rt !! k;
  sp_clock : (clock rt <= clock rt')%nat;
  sp_kept : kept rt rt' c;
}.

(** Nothing can be observed. *)
Record silent rt rt' (c : list nat) : Prop := {
  si_view : forall k, view rt' k = view rt k;
  si_exotic : forall k, o_is_exotic <$> objects rt' !! k = o_is_exotic <$> objects rt !! k;
  si_freed : freed rt' = freed rt;
  si_clock : (clock rt <= clock rt')%nat;
  si_kept : kept rt rt' c;
}.

Lemma spares_refl rt c o : spares rt rt c o.
Proof. split; [done|done|done|apply kept_refl]. Qed.

Lemma spares_trans rt1 rt2 rt3 c o : spares rt1 rt2 c o -> spares rt2 rt3 c o -> spares rt1 rt3 c o.
Proof.
  intros [A1 A2 A3 A4] [B1 B2 B3 B4]. split; [intros k Hk; by rewrite B1, A1|intros k Hk; by rewrite B2, A2|lia|by eapply kept_trans].
Qed.

Lemma silent_refl rt c : silent rt rt c.
Proof. split; [done|done|done|done|apply kept_refl]. Qed.

Lemma silent_spares rt rt' c o : silent rt rt' c -> spares rt rt' c o.
Proof. intros [S1 S2 S3 S4 S5]. by split. Qed.

Lemma silent_trans rt1 rt2 rt3 c : silent rt1 rt2 c -> silent rt2 rt3 c -> silent rt1 rt3 c.
Proof.
  intros [A1 A2 A3 A4 A5] [B1 B2 B3 B4 B5]. split; [intros k; by rewrite B1, A1|intros k; by rewrite B2, A2|congruence|lia|by eapply kept_trans].
Qed.

(** Only the shape [e] has changed, and it is not that of another object. *)
Lemma stable_spares e rt rt' c c' a a' o : ok rt c a -> core rt' c' a' -> (forall q, q ∈ c -> q ∈ c') -> stable e rt rt' -> (forall k, k <> o -> objects rt' !! k = objects rt !! k) -> (clock rt <= clock rt')%nat ->
  e ∉ c -> (forall k ok, k <> o -> objects rt !! k = Some ok -> o_shape ok <> e) -> spares rt rt' c o.
Proof.
  intros Hok Hc' Hin Hst Ho Hcl He Hne. split; [|intros k Hk; by rewrite Ho|done|].
  - intros k Hk. eapply (view_stable e rt rt'); [exact Hok|exact Hc'|done|by apply Ho|]. intros obk Hobk. by apply (Hne k).
  - eapply (stable_kept e); [exact Hok|exact Hc'|done|]. intros q Hq. split; [by apply Hin|]. intros ->. done.
Qed.

Lemma dead_shape rt c a e : core rt c a -> shapes rt !! e = None -> e ∉ c /\ forall k ok, objects rt !! k = Some ok -> o_shape ok <> e.
Proof.
  intros Hc He. split.
  - intros Hin. destruct (co_live _ _ _ Hc e ltac:(apply elem_of_app; by right)). congruence.
  - intros k obk Hk E. destruct (obj_shape_live rt c a k obk Hc Hk). congruence.
Qed.

Lemma shape_zero rt c a : ok rt c a -> shapes rt !! 0%nat = None.
Proof. intros [Ht _]. destruct (shapes rt !! 0%nat) as [s|] eqn:E; [|done]. by destruct (st_addr _ _ _ _ _ Ht _ s E). Qed.

(** The same for a shape that did not exist. *)
Lemma stable_spares_new e rt rt' c c' a a' o : ok rt c a -> core rt' c' a' -> (forall q, q ∈ c -> q ∈ c') -> stable e rt rt' -> (forall k, k <> o -> objects rt' !! k = objects rt !! k) -> (clock rt <= clock rt')%nat ->
  shapes rt !! e = None -> spares rt rt' c o.
Proof. intros Hok Hc' Hin Hst Ho Hcl He. destruct (dead_shape rt c a e (proj2 Hok) He) as [H1 H2]. eapply stable_spares; try done. intros k obk _. apply H2. Qed.

Lemma quiet_view rt rt' c a c' a' k : ok rt c a -> core rt' c' a' -> quiet rt rt' -> view rt' k = view rt k.
Proof.
  intros Hok Hc' [Q1 _ _ Q4]. eapply view_stable; [exact Hok|exact Hc'|exact Q4|by rewrite Q1|]. apply (dead_shape rt c a 0 (proj2 Hok)). by eapply shape_zero.
Qed.

Lemma quiet_silent rt rt' c a c' a' : ok rt c a -> core rt' c' a' -> (forall q, q ∈ c -> q ∈ c') -> quiet rt rt' -> silent rt rt' c.
Proof.
  intros Hok Hc' Hin Hq. split; [intros k; by eapply quiet_view|intros k; by rewrite (qu_objects _ _ Hq)|apply Hq|apply Hq|].
  eapply (stable_kept 0); [exact Hok|exact Hc'|apply Hq|]. intros q Hqc. split; [by apply Hin|]. intros ->. by destruct (dead_shape rt c a 0 (proj2 Hok) (shape_zero _ _ _ Hok)).
Qed.

Lemma silent_tick rt c a : ok rt c a -> silent rt (tick rt) c.
Proof. intros Hok. eapply quiet_silent; [exact Hok|apply tick_ok, Hok|done|apply tick_quiet]. Qed.

(** ** Adding a property *)

Lemma deleted_count_app l l' : deleted_count (l ++ l') = (deleted_count l + deleted_count l')%nat.
Proof. unfold deleted_count. by rewrite filter_app, length_app. Qed.

Lemma shape_atoms_app l l' : shape_atoms (l ++ l') = shape_atoms l ++ shape_atoms l'.
Proof. unfold shape_atoms. by rewrite fmap_app, filter_app. Qed.

Lemma add_prop_ok s atom flags n : shape_ok s -> atom <> 0 -> found (sh_prop s) atom None -> (prop_count s + 1 <= sh_prop_size s)%nat -> Z.of_nat (prop_count s) + 1 < 2 ^ 26 ->
  sh_hash_table s !! prop_bucket atom (length (sh_hash_table s)) = Some n ->
  shape_ok (set_props s (sh_prop_size s) (<[prop_bucket atom (length (sh_hash_table s)) := length (sh_prop s ++ [mkProp (u26 n) flags atom])]> (sh_hash_table s))
    (sh_prop s ++ [mkProp (u26 n) flags atom]) (sh_deleted_prop_count s)).
Proof.
  intros [K1 K2 K3 K4 K5 K6] Ha Hf Hr Hm Hn. unfold prop_count in *. split; unfold prop_count; cbn [sh_hash_table sh_prop sh_prop_size sh_deleted_prop_count set_props].
  - by rewrite length_insert.
  - rewrite length_app. cbn [length]. rewrite Nat.add_1_r. apply prop_table_add; [done|done|done|done|lia].
  - intros i j x y Hx Hy Hxy Hnz. apply lookup_snoc_Some in Hx, Hy. destruct Hx as [[Hi Hx]|[-> <-]], Hy as [[Hj Hy]|[-> <-]]; [by apply (K3 i j x y)| | |done].
    + exfalso. by apply (Hf i x).
    + exfalso. by apply (Hf j y).
  - rewrite length_app. simpl. lia.
  - rewrite deleted_count_app, K5. unfold deleted_count at 3. rewrite filter_cons_False by (simpl; done). simpl. lia.
  - rewrite length_app. simpl. lia.
Qed.

Lemma raw_snoc l pr (v : list (option V)) x : v !! length l = Some x -> raw (l ++ [pr]) v = raw l v ++ [(sp_atom pr, sp_flags pr, x)].
Proof.
  revert v. induction l as [|a l IH]; intros v Hx; (destruct v as [|y v]; [done|]); simpl in *; [by injection Hx as ->|]. f_equal. by apply IH.
Qed.

Lemma stable_same e rt rt' : shapes rt' = shapes rt -> stable e rt rt'.
Proof. intros E q s' _ _. rewrite E. intros Hq. by exists s'. Qed.

Lemma stable_weaken e e' rt rt' : stable 0 rt rt' -> table_ok e' rt' -> stable e rt rt'.
Proof. intros Hs Ht q s' _ Hlt Hq. apply (Hs q s'); [|done|done]. by destruct (st_addr _ _ _ _ _ Ht q s' Hq). Qed.

(** The end of [add_shape_property]: the shape [q], with room for one more
    property, is put back in the table and gets the property. *)
Lemma add_tail_spec rt c a o ob q s atom flags h : table_ok q rt -> core rt c a -> shapes rt !! q = Some s -> objects rt !! o = Some ob -> o_shape ob = q -> sh_ref_count s = 1 ->
  (prop_count s + 1 <= sh_prop_size s)%nat -> Z.of_nat (prop_count s) + 1 < 2 ^ 26 -> atom <> 0 -> found (sh_prop s) atom None -> atom ∈ a -> 0 <= flags < 64 -> 0 <= h < 2 ^ 32 ->
  exists rt' s', (rt ← if sh_is_hashed s then s ← shapes rt !! q; js_shape_hash_link (put_shape rt q (set_hashed s true h)) q else Some rt;
      s ← shapes rt !! q; st ← dup_atom (atoms rt) atom; n ← sh_hash_table s !! prop_bucket atom (length (sh_hash_table s));
      let l := sh_prop s ++ [mkProp (u26 n) (Z.land flags 63) atom] in
      Some (put_shape (set_atoms rt st) q (set_props s (sh_prop_size s) (<[prop_bucket atom (length (sh_hash_table s)) := length l]> (sh_hash_table s)) l (sh_deleted_prop_count s)), q)) = Some (rt', q) /\
    ok rt' c a /\ objects rt' = objects rt /\ freed rt' = freed rt /\ clock rt' = clock rt /\ stable q rt rt' /\
    shapes rt' !! q = Some s' /\ sh_proto s' = sh_proto s /\ names (sh_prop s') = names (sh_prop s) ++ [(atom, flags)] /\ sh_prop_size s' = sh_prop_size s /\ sh_is_hashed s' = sh_is_hashed s.
Proof.
  intros Ht Hc Hs Ho Hq Hrc Hroom Hmax Ha Hf Hin Hfl Hh.
  assert (H1 : exists rt1 s1, (if sh_is_hashed s then s ← shapes rt !! q; js_shape_hash_link (put_shape rt q (set_hashed s true h)) q else Some rt) = Some rt1 /\ ok rt1 c a /\
    objects rt1 = objects rt /\ freed rt1 = freed rt /\ clock rt1 = clock rt /\ shapes rt1 = <[q := s1]> (shapes rt) /\ atoms rt1 = atoms rt /\
    sh_prop s1 = sh_prop s /\ sh_hash_table s1 = sh_hash_table s /\ sh_prop_size s1 = sh_prop_size s /\ sh_proto s1 = sh_proto s /\ sh_ref_count s1 = sh_ref_count s /\ sh_is_hashed s1 = sh_is_hashed s).
  { destruct (sh_is_hashed s) eqn:Eh.
    - rewrite Hs. cbn [mbind option_bind]. destruct (hash_shape_spec rt c a q s h Ht Hc Hs Hh) as (rt1 & n & -> & Hok1 & (Q1 & Q2 & Eat & Ecl) & Q4 & Es). eexists rt1, _. split; [done|]. by split_and!.
    - exists rt, s. split_and!; try done; [by split; [eapply table_unhashed|]|by rewrite insert_id]. }
  destruct H1 as (rt1 & s1 & -> & Hok1 & Eo1 & Ef1 & Ec1 & Es1 & Ea1 & P1 & P2 & P3 & P4 & P5 & P6). cbn [mbind option_bind].
  assert (Hs1 : shapes rt1 !! q = Some s1) by (rewrite Es1; apply lookup_insert_eq). rewrite Hs1. cbn [mbind option_bind].
  destruct (dup_held (atoms rt1) _ atom (co_atoms _ _ _ (proj2 Hok1)) ltac:(apply elem_of_app; by right)) as (st & -> & Hst). cbn [mbind option_bind].
  pose proof (co_shape _ _ _ (proj2 Hok1) q s1 Hs1) as Hsok. destruct (lookup_lt_is_Some_2 (sh_hash_table s1) _ (mask_lt atom _ (sk_size _ Hsok))) as [n Hn].
  fold (prop_bucket atom (length (sh_hash_table s1))) in Hn. rewrite Hn. cbn [mbind option_bind]. cbv zeta.
  assert (Hf63 : Z.land flags 63 = flags) by (change 63 with (2 ^ 6 - 1); rewrite land_pow2_pred by lia; apply Z.mod_small; lia). rewrite Hf63.
  unfold prop_count in *.
  pose proof (add_prop_ok s1 atom flags n Hsok Ha ltac:(by rewrite P1) ltac:(unfold prop_count; rewrite P1, P3; done) ltac:(unfold prop_count; by rewrite P1) Hn) as Hok'.
  set (s' := set_props s1 _ _ _ _) in *. set (rt' := put_shape (set_atoms rt1 st) q s'). exists rt', s'. split; [done|]. split_and!; try done.
  - split.
    + assert (Ht' : table_ok 0 (put_shape rt1 q s')) by (by eapply table_put; [apply Hok1|exact Hs1|..]). exact Ht'.
    + eapply (core_set_shape rt1 rt' c a q s1 s'); try done; [apply Hok1| | |].
      * intros _. by rewrite P5.
      * intros k ok Hk Hshape. cbn [s' sh_prop_size set_props]. eapply (co_room _ _ _ (proj2 Hok1)); [exact Hk|]. by rewrite Hshape.
      * cbn [s' sh_prop set_props]. rewrite shape_atoms_app. eapply atoms_hold_perm; [|exact Hst]. unfold live_atoms. rewrite (flat_delete _ (shapes rt1) q s1 Hs1).
        unfold shape_atoms at 4. cbn [fmap list_fmap sp_atom]. rewrite filter_cons_True by done. rewrite filter_nil. rewrite <- !(assoc_L (++)). cbn [app]. apply Permutation_middle.
  - intros k sk Hk _ Hsk. unfold rt' in Hsk. cbn [shapes put_shape set_shapes set_atoms] in Hsk. rewrite lookup_insert_ne, Es1, lookup_insert_ne in Hsk by done. by exists sk.
  - apply lookup_insert_eq.
  - cbn [s' sh_prop set_props]. unfold names. rewrite fmap_app, P1. done.
Qed.

(** The outcome of adding a property to [o]. *)
Record added rt rt' (c : list nat) (a : list Z) (o : nat) (atom flags : Z) (i : nat) : Prop := {
  ad_ok : ok rt' c a;
  ad_spares : spares rt rt' c o;
  ad_freed : freed rt' = freed rt;
  ad_view : exists proto l x, view rt o = Some (proto, l) /\ view rt' o = Some (proto, l ++ [(atom, flags, x)]) /\ i = length l;
  ad_exotic : o_is_exotic <$> objects rt' !! o = o_is_exotic <$> objects rt !! o;
  ad_table : in_table rt' o = in_table rt o;
}.

(** Nothing happened, for lack of memory. *)
Record failed rt rt' (c : list nat) (a : list Z) : Prop := {
  fa_ok : ok rt' c a;
  fa_silent : silent rt rt' c;
  fa_short : short mem;
}.

Lemma raw_length rt c a o ob s : core rt c a -> objects rt !! o = Some ob -> shapes rt !! o_shape ob = Some s -> length (raw (sh_prop s) (o_prop ob)) = prop_count s.
Proof.
  intros Hc Ho Hs. pose proof (sk_room _ (co_shape _ _ _ Hc _ s Hs)). pose proof (co_room _ _ _ Hc o ob s Ho Hs). unfold raw, prop_count in *. rewrite length_zip_with. lia.
Qed.

Lemma room_view rt rt' c a o ob s q s' : objects rt !! o = Some ob -> shapes rt !! o_shape ob = Some s -> room_made rt rt' c a o ob s q s' -> view rt' o = view rt o.
Proof.
  intros Ho Hs [R1 R2 R3 (v & R4 & R4') R5 R6 R7 R8 R9 R10 R11 R12 R13]. unfold view. rewrite R4, Ho. cbn [mbind option_bind o_shape o_prop]. rewrite R3, Hs. cbn [mbind option_bind].
  by rewrite R10, (raw_names _ _ _ R9), R4'.
Qed.

Lemma put_shape_id rt p s : shapes rt !! p = Some s -> put_shape rt p s = rt.
Proof. destruct rt as [x1 x2 x3 m x5 x6 x7 x8 x9 x10]. unfold put_shape, set_shapes. simpl. intros Hs. by rewrite insert_id. Qed.

(** The shape of [o] leaves the table when it is there. *)
Lemma unlink_step rt c a p s : ok rt c a -> shapes rt !! p = Some s ->
  exists rt1, (if sh_is_hashed s then js_shape_hash_unlink rt p else Some rt) = Some rt1 /\ table_ok p rt1 /\ core rt1 c a /\ quiet rt rt1 /\
    shapes rt1 !! p = Some s /\ all_alike (shapes rt) (shapes rt1) /\ clock rt1 = clock rt.
Proof.
  intros [Ht Hc] Hs. destruct (sh_is_hashed s) eqn:Hh.
  - destruct (unlink_spec rt p s Ht Hs Hh) as (rt1 & t & m & E & Ert & Hr & Hm & Ht1). exists rt1. split; [done|]. split; [done|].
    assert (Hal : all_alike (shapes rt) (shapes rt1)) by (rewrite Ert; by apply rechained_alike).
    split_and!; [|split; [by rewrite Ert..|apply rechained_stable; by rewrite Ert]|by rewrite Ert|done|by rewrite Ert].
    eapply core_alike; [exact Hc|exact Hal| |by rewrite Ert..]. intros q s' Hq Hhq. rewrite Ert in Hq. cbn [shapes set_table] in Hq.
    destruct (rechained_lookup _ _ _ _ (rechained_sym _ _ Hr) Hq) as [k Hk]. apply (co_single _ _ _ Hc q _ Hk). done.
  - exists rt. split_and!; [done|by eapply table_unhashed|done|apply quiet_refl|done|done|done].
Qed.

Lemma add_shape_property_spec rt c a o ob s atom flags : ok rt c a -> objects rt !! o = Some ob -> shapes rt !! o_shape ob = Some s -> sh_ref_count s = 1 ->
  Z.of_nat (prop_count s) + 1 < 2 ^ 26 -> atom <> 0 -> found (sh_prop s) atom None -> atom ∈ a -> 0 <= flags < 64 ->
  exists rt' q, add_shape_property mem rt (o_shape ob) (Some o) atom flags = Some (rt', q) /\
    ((q = 0%nat /\ failed rt rt' c a) \/
     (q <> 0%nat /\ added rt rt' c a o atom flags (prop_count s) /\ exists s', shapes rt' !! q = Some s' /\ prop_count s' = S (prop_count s))).
Proof.
  intros Hok Ho Hs Hrc Hmax Ha Hf Hin Hfl. destruct (st_addr _ _ _ _ _ (proj1 Hok) _ s Hs) as (Hp0 & Hpc & _).
  destruct (unlink_step rt c a (o_shape ob) s Hok Hs) as (rt1 & E1 & Ht1 & Hc1 & [Q1 Q2 Q3 Q4] & Hs1 & Hal1 & Ecl1). unfold add_shape_property. rewrite Hs. cbn [mbind option_bind]. rewrite E1. cbn [mbind option_bind].
  assert (Ho1 : objects rt1 !! o = Some ob) by by rewrite Q1.
  assert (H2 : exists rt2 q, (if (sh_prop_size s <=? prop_count s)%nat then resize_properties mem rt1 (o_shape ob) (Some o) (prop_count s + 1) else Some (rt1, o_shape ob)) = Some (rt2, q) /\
    ((q = 0%nat /\ short mem /\ room_made rt1 rt2 c a o ob s (o_shape ob) s) \/
     (q <> 0%nat /\ exists s', room_made rt1 rt2 c a o ob s q s' /\ (prop_count s + 1 <= sh_prop_size s')%nat))).
  { destruct (Nat.leb_spec (sh_prop_size s) (prop_count s)) as [Hfull|Hroom]; [by apply resize_properties_spec|]. exists rt1, (o_shape ob). split; [done|]. right. split; [done|].
    exists s. split; [|lia]. split; try done; [by exists (o_prop ob); destruct ob|apply stable_refl|by left]. }
  destruct H2 as (rt2 & q & -> & H2). cbn [mbind option_bind].
  assert (Hv1 : view rt1 o = view rt o) by (eapply quiet_view; [exact Hok|exact Hc1|by split]).
  assert (Hex : forall rt2 q s', room_made rt1 rt2 c a o ob s q s' -> o_is_exotic <$> objects rt2 !! o = o_is_exotic <$> objects rt !! o) by (intros r2 q' s' []; destruct rm_obj as (v & -> & _); by rewrite Ho).
  destruct H2 as [(-> & Hsh & Hrm)|(Hq0 & s' & Hrm & Hroom)].
  - cbn [Nat.eqb]. pose proof Hrm as [R1 R2 R3 _ R5 R6 R7 R8 _ _ _ _ _].
    assert (H3 : exists rt3, (if sh_is_hashed s then js_shape_hash_link rt2 (o_shape ob) else Some rt2) = Some rt3 /\ ok rt3 c a /\ quiet rt2 rt3).
    { destruct (sh_is_hashed s) eqn:Hh; [|exists rt2; split_and!; [done|split; [by eapply table_unhashed|done]|apply quiet_refl]].
      assert (Eid : put_shape rt2 (o_shape ob) (set_hashed s true (sh_hash s)) = rt2).
      { apply put_shape_id. rewrite R3. destruct s; simpl in *; by subst. }
      destruct (st_addr _ _ _ _ _ (proj1 Hok) _ s Hs) as (_ & _ & Hhr). destruct (hash_shape_spec rt2 c a (o_shape ob) s (sh_hash s) R1 R2 R3 Hhr) as (rt3 & n & E3 & Hok3 & (O1 & O2 & _ & O3) & _ & Es3).
      rewrite Eid in E3. exists rt3. split_and!; [done|done|]. split; [done|done|by rewrite O3|]. intros k t _ _ Hk. rewrite Es3 in Hk. destruct (decide (k = o_shape ob)) as [->|].
      - rewrite lookup_insert_eq in Hk. injection Hk as <-. by exists s.
      - rewrite lookup_insert_ne in Hk by done. by exists t. }
    destruct H3 as (rt3 & -> & Hok3 & [P1 P2 P3 P4]). cbn [mbind option_bind]. exists rt3, 0%nat. split; [done|]. left. split; [done|]. split; [done| |done].
    destruct (unique_owner rt c a o ob s (proj2 Hok) Ho Hs Hrc) as [Hnc Huni].
    assert (Hsp : spares rt rt3 c o).
    { eapply (stable_spares (o_shape ob)); [exact Hok|apply Hok3|done| |intros k Hk; by rewrite P1, R5, Q1|lia|done|done].
      eapply (stable_trans _ _ rt1); [lia|by eapply stable_weaken|]. eapply (stable_trans _ _ rt2); [lia|exact R6|]. eapply stable_weaken; [done|apply Hok3]. }
    split; [| |congruence|lia|apply Hsp].
    + intros k. destruct (decide (k = o)) as [->|Hk]; [|by apply Hsp].
      rewrite <- Hv1, <- (room_view _ _ _ _ _ _ _ _ _ Ho1 Hs1 Hrm). unfold view. rewrite P1. destruct (rm_obj _ _ _ _ _ _ _ _ _ Hrm) as (v & Ev & _). rewrite Ev. cbn [mbind option_bind o_shape].
      destruct (obj_shape_live rt3 c a o (mkObject (o_shape ob) v (o_is_exotic ob)) (proj2 Hok3)) as [s3 Hs3]; [by rewrite P1|]. cbn [o_shape] in Hs3.
      destruct (P4 _ s3 Hp0 ltac:(lia) Hs3) as (s2 & Hs2 & L1 & L2 & _). rewrite Hs2, Hs3. cbn [mbind option_bind]. by rewrite L1, (raw_names _ _ _ L2).
    + intros k. destruct (decide (k = o)) as [->|Hk]; [rewrite P1; by eapply Hex|by apply Hsp].
  - destruct (Nat.eqb_spec q 0); [done|]. pose proof Hrm as [R1 R2 R3 (v & R4 & R4') R5 R6 R7 R8 R9 R10 [R11 R11'] R12 R13]. pose proof (names_length _ _ R9) as Hlen.
    rewrite <- R11. destruct (add_tail_spec rt2 c a o _ q s' atom flags (shape_hash (shape_hash (sh_hash s) atom) flags) R1 R2 R3 R4 eq_refl R12) as (rt3 & s3 & E3 & Hok3 & T1 & T2 & T3 & T4 & T5 & T6 & T7 & T8 & T9); try done.
    { unfold prop_count in *. by rewrite Hlen. } { unfold prop_count in *. by rewrite Hlen. }
    { intros i pr Hi E. destruct (names_lookup _ _ i pr (eq_sym R9) Hi) as (pr0 & Hi0 & Eat & _). apply (Hf i pr0 Hi0). congruence. } { apply shape_hash_range. }
    exists rt3, q. split; [exact E3|]. right. split; [done|].
    assert (Hst : stable q rt rt3).
    { eapply (stable_trans _ _ rt1); [lia|by eapply stable_weaken|]. eapply (stable_trans _ _ rt2); [lia|exact R6|exact T4]. }
    split.
    + split; [done| |congruence| |rewrite T1; by eapply Hex|].
      * assert (Hobj : forall k, k <> o -> objects rt3 !! k = objects rt !! k) by (intros k Hk; by rewrite T1, R5, Q1). destruct R13 as [->|Hge].
        { destruct (unique_owner rt c a o ob s (proj2 Hok) Ho Hs Hrc) as [Hnc Huni]. eapply (stable_spares (o_shape ob)); [exact Hok|apply Hok3|done|done|done|lia|done|done]. }
        { eapply (stable_spares_new q); [exact Hok|apply Hok3|done|done|done|lia|]. destruct (shapes rt !! q) as [sq|] eqn:Eq; [|done]. destruct (st_addr _ _ _ _ _ (proj1 Hok) _ sq Eq). lia. }
      * pose proof (co_room _ _ _ R2 o _ s' R4 R3) as Hr. cbn [o_prop] in Hr. destruct (lookup_lt_is_Some_2 v (prop_count s) ltac:(lia)) as [x Hx].
        exists (sh_proto s), (raw (sh_prop s) (o_prop ob)), x. split_and!.
        { unfold view. rewrite Ho. cbn [mbind option_bind]. by rewrite Hs. }
        { unfold view. rewrite T1, R4. cbn [mbind option_bind o_shape o_prop]. rewrite T5. cbn [mbind option_bind]. rewrite T6, R10. do 2 f_equal.
          assert (Hnm3 : names (sh_prop s3) = names (sh_prop s ++ [mkProp 0 flags atom])) by (rewrite T7, R9; unfold names; by rewrite fmap_app).
          rewrite (raw_names _ _ _ Hnm3), (raw_snoc _ _ _ x) by done. by rewrite R4'. }
        { symmetry. by eapply raw_length; [apply Hok|..]. }
      * rewrite (in_table_eq rt o ob s Ho Hs). erewrite in_table_eq; [|by rewrite T1|exact T5]. by rewrite T9, R11.
    + exists s3. split; [done|]. unfold prop_count. apply (f_equal length) in T7. unfold names in T7. rewrite length_app, !length_fmap in T7. simpl in T7. rewrite T7, Hlen. lia.
Qed.

(** *** The shape with one more property *)

Lemma find_hashed_shape_prop_spec rt c a s atom flags : ok rt c a -> 0 <= flags < 64 ->
  exists r, find_hashed_shape_prop rt s atom flags = Some r /\
    (r = 0%nat \/ r <> 0%nat /\ exists s', shapes rt !! r = Some s' /\ sh_is_hashed s' = true /\ sh_proto s' = sh_proto s /\ names (sh_prop s') = names (sh_prop s) ++ [(atom, flags)]).
Proof.
  intros [Ht Hc] Hfl. unfold find_hashed_shape_prop. set (h := shape_hash _ _). pose proof (shape_hash_range (shape_hash (sh_hash s) atom) flags) as Hh. fold h in Hh. destruct Ht as [T1 T2 T3 T4] eqn:ET.
  destruct (lookup_lt_is_Some_2 (rt_shape_hash rt) (Z.to_nat (get_shape_hash h (shape_hash_bits rt)))) as [cur Hcur]; [rewrite T2; by apply bucket_lt|]. rewrite Hcur. cbn [mbind option_bind].
  destruct (shape_chain _ _ _ _ _ _ cur Ht Hcur) as (l & Hl & Hlen & _ & Hin). destruct (find_prop_shape_spec (shapes rt) h s atom flags l (clock rt) cur Hl Hlen) as (r & E & Hr).
  exists r. split; [done|]. destruct Hr as [->|(Hrl & s' & Hs' & _ & Hp & Hsame)]; [by left|right]. pose proof (chain_nonzero _ _ _ _ Hl Hrl) as Hr0. split; [done|]. exists s'. split; [done|].
  apply Hin in Hrl. unfold others in Hrl. rewrite decide_False in Hrl by done. unfold sbk in Hrl. rewrite Hs' in Hrl. simpl in Hrl.
  split_and!; [by destruct (sh_is_hashed s')|done|]. apply same_props_names in Hsame. rewrite Hsame. unfold names. by rewrite fmap_app.
Qed.

Lemma dup_put_object rt p o (x : JSObject V) : js_dup_shape (put_object rt o x) p = (rt ← js_dup_shape rt p; Some (put_object rt o x)).
Proof. unfold js_dup_shape. cbn [shapes put_object set_objects]. by destruct (shapes rt !! p). Qed.

Lemma put_object_twice rt o (x y : JSObject V) : put_object (put_object rt o x) o y = put_object rt o y.
Proof. unfold put_object, set_objects. simpl. f_equal. apply insert_insert_eq. Qed.

(** [o] joins the objects of the shape [q] that has one more property. *)
Lemma join_shape_spec rt c a o ob s q s' atom flags v : ok rt c a -> objects rt !! o = Some ob -> shapes rt !! o_shape ob = Some s ->
  sh_is_hashed s = true -> shapes rt !! q = Some s' -> sh_is_hashed s' = true -> sh_proto s' = sh_proto s -> names (sh_prop s') = names (sh_prop s) ++ [(atom, flags)] ->
  (sh_prop_size s' <= length v)%nat -> raw (sh_prop s) v = raw (sh_prop s) (o_prop ob) ->
  exists rt', (rt ← js_dup_shape (put_object rt o (set_o_prop ob v)) q; o1 ← objects rt !! o; js_free_shape (put_object rt o (set_o_shape o1 q)) (o_shape ob)) = Some rt' /\
    added rt rt' c a o atom flags (prop_count s' - 1).
Proof.
  intros Hok Ho Hs Hhs Hq Hh Hpr Hnm Hv Hraw. rewrite dup_put_object. destruct (dup_shape_spec rt c a q s' Hok Hq Hh) as (rt1 & -> & Hok1 & Hq1 & Hs1). cbn [mbind option_bind].
  assert (Eo : objects (put_object rt1 o (set_o_prop ob v)) !! o = Some (set_o_prop ob v)) by apply lookup_insert_eq. rewrite Eo. cbn [mbind option_bind]. rewrite put_object_twice.
  change (set_o_shape (set_o_prop ob v) q) with (mkObject q v (o_is_exotic ob)). set (ob' := mkObject q v (o_is_exotic ob)). destruct Hok1 as [Ht1 Hc1].
  assert (Hc2 : core (put_object rt1 o ob') (o_shape ob :: c) a) by (eapply core_set_object; [exact Hc1|by rewrite (qu_objects _ _ Hq1)|exact Hs1|done]).
  destruct (free_shape_spec (put_object rt1 o ob') c a (o_shape ob)) as (rt3 & -> & Hok3 & [P1 P2 P3 P4]); [by split|]. exists rt3. split; [done|].
  assert (Hst : stable 0 rt rt3) by (eapply (stable_trans _ _ rt1); [apply Hq1|apply Hq1|exact P4]). destruct Hq1 as [Q1 Q2 Q3 Q4]. cbn [objects put_object set_objects freed clock] in *.
  assert (Hobj : forall k, k <> o -> objects rt3 !! k = objects rt !! k) by (intros k Hk; rewrite P1, lookup_insert_ne, Q1 by done; done).
  assert (Ho3 : objects rt3 !! o = Some ob') by (rewrite P1; apply lookup_insert_eq).
  split; [done| |congruence| |by rewrite Ho3, Ho|].
  - eapply (stable_spares_new 0); [exact Hok|apply Hok3|done|done|done|lia|by eapply shape_zero].
  - destruct (st_addr _ _ _ _ _ (proj1 Hok) _ s' Hq) as (Hq0 & Hqc & _). destruct (obj_shape_live rt3 c a o ob' (proj2 Hok3) Ho3) as [s3 Hs3]. cbn [ob' o_shape] in Hs3. destruct (Hst q s3 Hq0 Hqc Hs3) as (s0 & Hs0 & L1 & L2 & _). assert (s0 = s') as -> by congruence.
    pose proof (sk_room _ (co_shape _ _ _ (proj2 Hok) _ s' Hq)) as Hr. pose proof Hnm as Hlen. apply (f_equal length) in Hlen. unfold names in Hlen. rewrite length_app, !length_fmap in Hlen. cbn [length] in Hlen.
    unfold prop_count in *. destruct (lookup_lt_is_Some_2 v (length (sh_prop s)) ltac:(lia)) as [x Hx]. exists (sh_proto s), (raw (sh_prop s) (o_prop ob)), x. split_and!.
    + unfold view. rewrite Ho. cbn [mbind option_bind]. by rewrite Hs.
    + unfold view. rewrite Ho3. cbn [mbind option_bind ob' o_shape o_prop]. rewrite Hs3. cbn [mbind option_bind]. rewrite L1, Hpr. do 2 f_equal.
      assert (Hnm3 : names (sh_prop s3) = names (sh_prop s ++ [mkProp 0 flags atom])) by (rewrite L2, Hnm; unfold names; by rewrite fmap_app).
      rewrite (raw_names _ _ _ Hnm3), (raw_snoc _ _ _ x) by done. by rewrite Hraw.
    + rewrite (raw_length rt c a o ob s (proj2 Hok) Ho Hs). unfold prop_count. lia.
  - destruct (st_addr _ _ _ _ _ (proj1 Hok) _ s' Hq) as (Hq0 & Hqc & _). destruct (obj_shape_live rt3 c a o ob' (proj2 Hok3) Ho3) as [s3 Hs3]. rewrite (in_table_eq rt3 o ob' s3 Ho3 Hs3), (in_table_eq rt o ob s Ho Hs), Hhs.
    destruct (Hst q s3 Hq0 Hqc Hs3) as (s0 & Hs0 & _ & _ & _ & ->). f_equal. congruence.
Qed.

(** [o] gets a copy of its shared shape, hashed or not. *)
Lemma own_copy_spec rt c a o ob s : ok rt c a -> objects rt !! o = Some ob -> shapes rt !! o_shape ob = Some s -> sh_is_hashed s = true -> sh_ref_count s <> 1 ->
  forall q s' rt1, ok rt1 (q :: c) a -> quiet rt rt1 -> shapes rt1 !! q = Some s' -> (clock rt <= q)%nat -> sh_proto s' = sh_proto s -> names (sh_prop s') = names (sh_prop s) -> sh_prop_size s' = sh_prop_size s ->
  exists rt', js_free_shape rt1 (o_shape ob) = Some rt' /\ let rt2 := put_object rt' o (set_o_shape ob q) in
    ok rt2 c a /\ silent rt rt2 c /\ objects rt2 !! o = Some (set_o_shape ob q) /\ shapes rt2 !! q = Some s'.
Proof.
  intros Hok Ho Hs Hh Hrc q s' rt1 Hok1 Hq1 Hs' Hge L1 L2 L3. destruct (st_addr _ _ _ _ _ (proj1 Hok) _ s Hs) as (Hp0 & Hpc & _). destruct Hq1 as [Q1 Q2 Q3 Q4].
  assert (Ho1 : objects rt1 !! o = Some ob) by by rewrite Q1. destruct (obj_shape_live rt1 (q :: c) a o ob (proj2 Hok1) Ho1) as [s1 Hs1].
  assert (Hc2 : core (put_object rt1 o (set_o_shape ob q)) (o_shape ob :: c) a).
  { eapply (core_set_object rt1 c a o ob (set_o_shape ob q) s'); [apply Hok1|done|done|]. rewrite L3. apply (co_room _ _ _ (proj2 Hok) o ob s Ho Hs). }
  destruct (free_shape_spec (put_object rt1 o (set_o_shape ob q)) c a (o_shape ob)) as (rt2 & E2 & Hok2 & [P1 P2 P3 P4]); [split; [apply Hok1|done]|].
  assert (Hrc1 : sh_ref_count s1 = sh_ref_count s).
  { destruct (co_refs _ _ _ (proj2 Hok1) _ s1 Hs1) as [-> _], (co_refs _ _ _ (proj2 Hok) _ s Hs) as [-> _]. unfold shape_refs, obj_shapes. rewrite Q1. simpl. rewrite decide_False by lia. lia. }
  destruct (co_refs _ _ _ (proj2 Hok) _ s Hs) as [_ Hpos].
  assert (Ecl : js_free_shape rt1 (o_shape ob) = Some (put_shape rt1 (o_shape ob) (set_ref s1 (sh_ref_count s1 - 1)))).
  { unfold js_free_shape. rewrite Hs1. cbn [mbind option_bind]. destruct (Z.leb_spec (sh_ref_count s1 - 1) 0); [lia|done]. }
  assert (Ert : rt2 = put_object (put_shape rt1 (o_shape ob) (set_ref s1 (sh_ref_count s1 - 1))) o (set_o_shape ob q)).
  { unfold js_free_shape in E2. cbn [shapes put_object set_objects] in E2. rewrite Hs1 in E2. cbn [mbind option_bind] in E2. destruct (Z.leb_spec (sh_ref_count s1 - 1) 0); [lia|]. by injection E2 as <-. }
  eexists. split; [exact Ecl|]. cbv zeta. rewrite <- Ert. cbn [objects put_object set_objects freed clock] in P1, P2, P3.
  assert (Ho2 : objects rt2 !! o = Some (set_o_shape ob q)) by (rewrite P1; apply lookup_insert_eq).
  assert (Hs2 : shapes rt2 !! q = Some s') by (rewrite Ert; cbn [shapes put_object set_objects put_shape set_shapes]; rewrite lookup_insert_ne by lia; done).
  assert (Hsp : spares rt rt2 c o).
  { eapply (stable_spares_new 0); [exact Hok|apply Hok2|done| | |lia|by eapply shape_zero].
    - eapply (stable_trans _ _ rt1); [done|done|exact P4].
    - intros k Hk. rewrite P1, lookup_insert_ne, Q1 by done. done. }
  split_and!; [done| |done|done]. split; [| |congruence|lia|apply Hsp]; intros k; (destruct (decide (k = o)) as [->|Hk]; [|by apply Hsp]).
  - unfold view. rewrite Ho2, Ho. cbn [mbind option_bind o_shape o_prop set_o_shape]. rewrite Hs2, Hs. cbn [mbind option_bind]. by rewrite L1, (raw_names _ _ _ L2).
  - by rewrite Ho2, Ho.
Qed.

Lemma added_after rt rt1 rt2 c a o atom flags i : silent rt rt1 c -> in_table rt1 o = in_table rt o -> added rt1 rt2 c a o atom flags i -> added rt rt2 c a o atom flags i.
Proof.
  intros Hsi Hin [D1 D2 D5 D6 D7 D8]. pose proof Hsi as [S1 S2 S3 S4 S5]. split; [done| |congruence| |by rewrite D7|by rewrite D8].
  - eapply spares_trans; [by apply silent_spares|done].
  - by rewrite S1 in D6.
Qed.

Lemma failed_after rt rt1 rt2 c a : silent rt rt1 c -> failed rt1 rt2 c a -> failed rt rt2 c a.
Proof. intros Hsi [D1 D2 D3]. split; [done|by eapply silent_trans|done]. Qed.

Lemma put_object_id rt o ob : objects rt !! o = Some ob -> put_object rt o ob = rt.
Proof. destruct rt as [x1 x2 x3 x4 m x6 x7 x8 x9 x10]. unfold put_object, set_objects. simpl. intros Ho. by rewrite insert_id. Qed.

(** The outcome of [add_property]. *)
Definition add_outcome rt rt' c a o atom flags (r : option nat) : Prop :=
  match r with Some i => added rt rt' c a o atom flags i | None => failed rt rt' c a end.

Lemma add_in_place_spec rt c a o ob s atom flags : ok rt c a -> objects rt !! o = Some ob -> shapes rt !! o_shape ob = Some s -> sh_ref_count s = 1 ->
  Z.of_nat (prop_count s) + 1 < 2 ^ 26 -> atom <> 0 -> found (sh_prop s) atom None -> atom ∈ a -> 0 <= flags < 64 ->
  exists rt' r, (s ← shapes rt !! o_shape ob; if negb (sh_ref_count s =? 1) then None
      else '(rt, q) ← add_shape_property mem rt (o_shape ob) (Some o) atom flags;
           if (q =? 0)%nat then Some (rt, None) else s ← shapes rt !! q; Some (rt, Some (prop_count s - 1)%nat)) = Some (rt', r) /\
    add_outcome rt rt' c a o atom flags r.
Proof.
  intros Hok Ho Hs Hrc Hmax Ha Hf Hin Hfl. rewrite Hs. cbn [mbind option_bind]. rewrite Hrc. cbn [Z.eqb Pos.eqb negb].
  destruct (add_shape_property_spec rt c a o ob s atom flags Hok Ho Hs Hrc Hmax Ha Hf Hin Hfl) as (rt' & q & -> & Hq). cbn [mbind option_bind].
  destruct Hq as [(-> & Hq)|(Hq0 & Hq & s' & Hs' & Hn)]; [by exists rt', None|]. destruct (Nat.eqb_spec q 0); [done|]. rewrite Hs'. cbn [mbind option_bind].
  exists rt', (Some (prop_count s)). split; [|done]. rewrite Hn. do 3 f_equal. lia.
Qed.

Lemma add_joining_spec rt c a o ob s q s' atom flags : ok rt c a -> objects rt !! o = Some ob -> shapes rt !! o_shape ob = Some s ->
  sh_is_hashed s = true -> shapes rt !! q = Some s' -> sh_is_hashed s' = true -> sh_proto s' = sh_proto s -> names (sh_prop s') = names (sh_prop s) ++ [(atom, flags)] ->
  exists rt' r, (let '(rt, ok) :=
        if negb (sh_prop_size s' =? sh_prop_size s)%nat then
          let '(rt, a) := js_malloc mem rt in
          if (a =? 0)%nat then (rt, false) else (put_object rt o (set_o_prop ob (realloc (o_prop ob) (sh_prop_size s'))), true)
        else (rt, true) in
      if negb ok then Some (rt, None)
      else rt ← js_dup_shape rt q; o1 ← objects rt !! o; rt ← js_free_shape (put_object rt o (set_o_shape o1 q)) (o_shape ob); Some (rt, Some (prop_count s' - 1)%nat)) = Some (rt', r) /\
    add_outcome rt rt' c a o atom flags r.
Proof.
  intros Hok Ho Hs Hhs Hq Hh Hpr Hnm. pose proof (co_room _ _ _ (proj2 Hok) o ob s Ho Hs) as Hroom. pose proof (sk_room _ (co_shape _ _ _ (proj2 Hok) _ s Hs)) as Hr.
  pose proof (sk_room _ (co_shape _ _ _ (proj2 Hok) _ s' Hq)) as Hr'. apply (f_equal length) in Hnm as Hlen. unfold names in Hlen. rewrite length_app, !length_fmap in Hlen. cbn [length] in Hlen. unfold prop_count in *.
  destruct (Nat.eqb_spec (sh_prop_size s') (sh_prop_size s)) as [Esz|_]; cbn [negb].
  - destruct (join_shape_spec rt c a o ob s q s' atom flags (o_prop ob) Hok Ho Hs Hhs Hq Hh Hpr Hnm) as (rt' & E & Had); [lia|done|].
    replace (set_o_prop ob (o_prop ob)) with ob in E by (by destruct ob). rewrite (put_object_id rt o ob Ho) in E. exists rt', (Some (prop_count s' - 1)%nat). split; [|done].
    destruct (js_dup_shape rt q) as [r1|]; [|done]. cbn [mbind option_bind] in *. destruct (objects r1 !! o) as [o1|]; [|done]. cbn [mbind option_bind] in *. by rewrite E.
  - unfold js_malloc. destruct (mem (clock rt)) eqn:Em.
    2: { change (0 =? 0)%nat with true. cbv iota. cbn [negb]. exists (tick rt), None. split; [done|]. split; [by apply tick_ok|by eapply silent_tick|by exists (clock rt)]. }
    destruct (Nat.eqb_spec (clock rt) 0) as [E0|_]; [by destruct (co_clock _ _ _ (proj2 Hok))|]. cbn [negb].
    destruct (join_shape_spec (tick rt) c a o ob s q s' atom flags (realloc (o_prop ob) (sh_prop_size s')) (tick_ok _ _ _ Hok) Ho Hs Hhs Hq Hh Hpr Hnm) as (rt' & E & Had).
    { by rewrite realloc_length. } { apply raw_realloc; lia. }
    exists rt', (Some (prop_count s' - 1)%nat). split; [|by eapply added_after; [eapply silent_tick, Hok|done|]].
    destruct (js_dup_shape (put_object (tick rt) o _) q) as [r1|]; [|done]. cbn [mbind option_bind] in *. destruct (objects r1 !! o) as [o1|]; [|done]. cbn [mbind option_bind] in *. by rewrite E.
Qed.

Lemma add_property_spec rt c a o ob s atom flags : ok rt c a -> objects rt !! o = Some ob -> shapes rt !! o_shape ob = Some s ->
  Z.of_nat (prop_count s) + 1 < 2 ^ 26 -> atom <> 0 -> found (sh_prop s) atom None -> atom ∈ a -> 0 <= flags < 64 ->
  exists rt' r, add_property mem rt o atom flags = Some (rt', r) /\ add_outcome rt rt' c a o atom flags r.
Proof.
  intros Hok Ho Hs Hmax Ha Hf Hin Hfl. unfold add_property. rewrite Ho. cbn [mbind option_bind]. rewrite Hs. cbn [mbind option_bind].
  assert (Hplace : sh_ref_count s = 1 -> exists rt' r, (if negb (sh_ref_count s =? 1) then None
      else '(rt, q) ← add_shape_property mem rt (o_shape ob) (Some o) atom flags;
           if (q =? 0)%nat then Some (rt, None) else s ← shapes rt !! q; Some (rt, Some (prop_count s - 1)%nat)) = Some (rt', r) /\ add_outcome rt rt' c a o atom flags r).
  { intros Hrc. pose proof (add_in_place_spec rt c a o ob s atom flags Hok Ho Hs Hrc Hmax Ha Hf Hin Hfl) as Hp. by rewrite Hs in Hp. }
  destruct (sh_is_hashed s) eqn:Hh; [|by apply Hplace, (co_single _ _ _ (proj2 Hok) _ s Hs)].
  destruct (find_hashed_shape_prop_spec rt c a s atom flags Hok Hfl) as (r & -> & Hr). cbn [mbind option_bind]. destruct Hr as [->|(Hr0 & s' & Hs' & Hh' & Hpr & Hnm)].
  - cbn [Nat.eqb negb]. destruct (Z.eqb_spec (sh_ref_count s) 1) as [Hrc|Hrc]; [by apply Hplace|]. cbn [negb].
    destruct (clone_spec mem rt c a (o_shape ob) s Hok Hs) as (rt1 & q & -> & Hq1 & _ & H1). cbn [mbind option_bind].
    destruct H1 as [(-> & Hok1 & Hsh)|(Hq0 & Hok1 & Hs1 & _ & Hge)].
    { exists rt1, None. split; [done|]. split; [done|eapply quiet_silent; [exact Hok|apply Hok1|done|done]|done]. }
    destruct (Nat.eqb_spec q 0); [done|]. rewrite Hs1. cbn [mbind option_bind]. destruct (st_addr _ _ _ _ _ (proj1 Hok) _ s Hs) as (_ & _ & Hhr).
    destruct (hash_shape_spec rt1 (q :: c) a q _ (sh_hash s) (proj1 (table_unhashed _ _ _ Hs1 eq_refl) (proj1 Hok1)) (proj2 Hok1) Hs1 Hhr) as (rt2 & n' & E2 & Hok2 & (Eo2 & Ef2 & _ & Ec2) & Hst2 & Es2).
    cbn [sh_hash set_hashed set_ref] in E2 |- *. rewrite E2. cbn [mbind option_bind]. set (s2 := set_hash_next _ n') in Es2.
    assert (Hs2 : shapes rt2 !! q = Some s2) by (rewrite Es2; apply lookup_insert_eq).
    destruct (own_copy_spec rt c a o ob s Hok Ho Hs Hh Hrc q s2 rt2 Hok2 (quiet_fresh _ _ _ _ Hq1 Hge Eo2 Ef2 ltac:(by rewrite Ec2) Hst2) Hs2 Hge) as (rt3 & -> & Hok3 & Hsi & V6 & V7); [done|done|done|]. cbn [mbind option_bind].
    destruct (add_in_place_spec (put_object rt3 o (set_o_shape ob q)) c a o (set_o_shape ob q) s2 atom flags) as (rt4 & r & E4 & H4); try done.
    exists rt4, r. split; [exact E4|].
    destruct r as [i|]; [eapply added_after; [done| |done]|by eapply failed_after].
    rewrite (in_table_eq rt o ob s Ho Hs), Hh. by erewrite in_table_eq; [|exact V6|exact V7].
  - destruct (Nat.eqb_spec r 0); [done|]. cbn [negb]. rewrite Hs'. cbn [mbind option_bind]. by apply add_joining_spec.
Qed.

(** ** Changing properties in place *)

(** [o] has its shape for itself, outside the table, with the properties of
    [s]. *)
Record sole rt rt' (c : list nat) (a : list Z) (o : nat) (ob : JSObject V) (s : JSShape) (ob' : JSObject V) (s' : JSShape) : Prop := {
  so_ok : ok rt' c a;
  so_silent : silent rt rt' c;
  so_obj : objects rt' !! o = Some ob';
  so_shape : shapes rt' !! o_shape ob' = Some s';
  so_prop : o_prop ob' = o_prop ob /\ o_is_exotic ob' = o_is_exotic ob;
  so_unhashed : sh_is_hashed s' = false;
  so_same : sh_hash_table s' = sh_hash_table s /\ sh_prop s' = sh_prop s /\ sh_prop_size s' = sh_prop_size s /\ sh_deleted_prop_count s' = sh_deleted_prop_count s /\ sh_proto s' = sh_proto s;
}.

Lemma so_single rt rt' c a o ob s ob' s' : sole rt rt' c a o ob s ob' s' -> sh_ref_count s' = 1.
Proof. intros Hs. apply (co_single _ _ _ (proj2 (so_ok _ _ _ _ _ _ _ _ _ Hs)) _ _ (so_shape _ _ _ _ _ _ _ _ _ Hs)), (so_unhashed _ _ _ _ _ _ _ _ _ Hs). Qed.

Lemma js_shape_prepare_update_spec rt c a o ob s : ok rt c a -> objects rt !! o = Some ob -> shapes rt !! o_shape ob = Some s ->
  exists rt' b, js_shape_prepare_update mem rt o = Some (rt', b) /\
    if b : bool then exists ob' s', sole rt rt' c a o ob s ob' s' else failed rt rt' c a.
Proof.
  intros Hok Ho Hs. unfold js_shape_prepare_update. rewrite Ho. cbn [mbind option_bind]. rewrite Hs. cbn [mbind option_bind].
  destruct (sh_is_hashed s) eqn:Hh; [|exists rt, true; split; [done|]; exists ob, s; split; try done; apply silent_refl].
  destruct (Z.eqb_spec (sh_ref_count s) 1) as [Hrc|Hrc]; cbn [negb].
  - destruct (unlink_step rt c a (o_shape ob) s Hok Hs) as (rt1 & E1 & Ht1 & Hc1 & Hq1 & Hs1 & Hal1 & Ecl1). rewrite Hh in E1. rewrite E1. cbn [mbind option_bind]. rewrite Hs1. cbn [mbind option_bind].
    eexists _, true. split; [done|]. set (s' := set_hashed s false (sh_hash s)). set (rt2 := put_shape rt1 (o_shape ob) s').
    destruct (st_addr _ _ _ _ _ Ht1 _ s Hs1) as (Hp0 & Hpc & Hhr). assert (Hs2 : shapes rt2 !! o_shape ob = Some s') by apply lookup_insert_eq.
    assert (Hok2 : ok rt2 c a).
    { split.
      - apply (table_unhashed rt2 (o_shape ob) s'); [done|done|]. by apply table_put_exempt.
      - eapply (core_set_shape rt1 rt2 c a (o_shape ob) s s'); try done.
        + destruct (co_shape _ _ _ Hc1 _ s Hs1). by split.
        + intros k obk Hk E. cbn [s' sh_prop_size set_hashed]. eapply (co_room _ _ _ Hc1); [exact Hk|]. by rewrite E.
        + eapply atoms_hold_perm; [|apply (co_atoms _ _ _ Hc1)]. unfold live_atoms. rewrite (flat_delete _ (shapes rt1) (o_shape ob) s Hs1). by rewrite <- (assoc_L (++)). }
    assert (Eo2 : objects rt2 = objects rt) by apply (qu_objects _ _ Hq1). assert (Ho2 : objects rt2 !! o = Some ob) by by rewrite Eo2.
    assert (Hsp : spares rt rt2 c o).
    { destruct (unique_owner rt c a o ob s (proj2 Hok) Ho Hs Hrc) as [Hnc Huni]. eapply (stable_spares (o_shape ob)); [exact Hok|apply Hok2|done| |intros k _; by rewrite Eo2|apply Hq1|done|done].
      eapply (stable_trans _ _ rt1); [apply Hq1|eapply stable_weaken; [apply Hq1|exact Ht1]|]. intros q t Hq _ Hqt. unfold rt2 in Hqt. cbn [shapes put_shape set_shapes] in Hqt. rewrite lookup_insert_ne in Hqt by done. by exists t. }
    exists ob, s'. split; try done. split; [|intros k; by rewrite Eo2|apply Hq1|apply Hq1|apply Hsp].
    intros k. destruct (decide (k = o)) as [->|Hk]; [|by apply Hsp]. unfold view. rewrite Ho2, Ho. cbn [mbind option_bind]. by rewrite Hs2, Hs.
  - destruct (clone_spec mem rt c a (o_shape ob) s Hok Hs) as (rt1 & q & -> & Hq1 & _ & H1). cbn [mbind option_bind].
    destruct H1 as [(-> & Hok1 & Hsh)|(Hq0 & Hok1 & Hs1 & _ & Hge)].
    { exists rt1, false. split; [done|]. split; [done|eapply quiet_silent; [exact Hok|apply Hok1|done|done]|done]. }
    destruct (Nat.eqb_spec q 0); [done|]. set (s1 := set_hashed _ _ _) in Hs1.
    destruct (own_copy_spec rt c a o ob s Hok Ho Hs Hh Hrc q s1 rt1 Hok1 Hq1 Hs1 Hge) as (rt3 & -> & Hok3 & Hsi & V6 & V7); [done|done|done|]. cbn [mbind option_bind].
    eexists _, true. split; [done|]. exists (set_o_shape ob q), s1. by split.
Qed.

Lemma names_insert_flags l i pr pr' : l !! i = Some pr -> shape_atoms (<[i := mkProp (sp_hash_next pr) pr' (sp_atom pr)]> l) = shape_atoms l.
Proof.
  intros Hi. unfold shape_atoms. f_equal. rewrite list_fmap_insert. apply list_insert_id. by rewrite list_lookup_fmap, Hi.
Qed.

Lemma deleted_count_atoms l : deleted_count l = length (filter (fun a => a = 0) (sp_atom <$> l)).
Proof. unfold deleted_count. induction l as [|pr l IH]; [done|]. cbn [fmap list_fmap]. rewrite !filter_cons. destruct (decide (sp_atom pr = 0)); simpl; congruence. Qed.

(** The flags are a matter of the names only. *)
Lemma set_flags_ok s i pr flags : shape_ok s -> sh_prop s !! i = Some pr ->
  shape_ok (set_props s (sh_prop_size s) (sh_hash_table s) (<[i := mkProp (sp_hash_next pr) flags (sp_atom pr)]> (sh_prop s)) (sh_deleted_prop_count s)).
Proof.
  intros [K1 K2 K3 K4 K5 K6] Hi. set (l' := <[i := _]> (sh_prop s)).
  assert (Hl : forall k, (sp_hash_next <$> l' !! k) = (sp_hash_next <$> sh_prop s !! k) /\ (sp_atom <$> l' !! k) = (sp_atom <$> sh_prop s !! k)).
  { intros k. unfold l'. destruct (decide (k = i)) as [->|]; [|by rewrite list_lookup_insert_ne]. rewrite list_lookup_insert_eq by (by eapply lookup_lt_Some). by rewrite Hi. }
  split; unfold prop_count in *; cbn [sh_hash_table sh_prop sh_prop_size sh_deleted_prop_count set_props]; fold l'.
  - done.
  - destruct K2 as [cs K2]. exists cs. eapply table_ext; [| |exact K2].
    + intros [|k] _; [done|]. simpl. apply Hl.
    + intros [|k]; [done|]. simpl. destruct (Hl k) as [_ E]. destruct (l' !! k), (sh_prop s !! k); try done. simpl in *. by injection E as ->.
  - intros x y p q Hx Hy Hpq Hn. destruct (Hl x) as [_ Ex], (Hl y) as [_ Ey]. rewrite Hx in Ex. rewrite Hy in Ey.
    destruct (sh_prop s !! x) as [p0|] eqn:Ep; [|done]. destruct (sh_prop s !! y) as [q0|] eqn:Eq; [|done]. injection Ex as Ex. injection Ey as Ey. apply (K3 x y p0 q0); congruence.
  - unfold l'. by rewrite length_insert.
  - rewrite K5, !deleted_count_atoms. do 2 f_equal. unfold l'. rewrite list_fmap_insert. symmetry. apply list_insert_id. by rewrite list_lookup_fmap, Hi.
  - unfold l'. by rewrite length_insert.
Qed.
End objects.
