(* ===== verification/ObjectChange.v ===== *)
(** * Changing and deleting properties

    Both first give the object a shape of its own, outside the table, and
    then change it in place. *)
From S2P Require Import Prelude Native Chains Shapes ShapeTable ShapesProps ShapesOps ObjectProps.

Section change.
Context {V A : Type} `{AtomLaws A} (mem : nat -> bool) (addr : nat -> Z) (undefined : V).
Implicit Types rt : JSRuntime V A.

(** ** In place *)

(** The object [o], alone on its shape, and its shape are rewritten. *)
Lemma in_place rt rt' c a o ob s ob' s' : ok rt c a -> objects rt !! o = Some ob -> shapes rt !! o_shape ob = Some s -> sh_ref_count s = 1 ->
  shape_ok s' -> sh_ref_count s' = 1 -> sh_is_hashed s' = sh_is_hashed s -> sh_hash s' = sh_hash s -> sh_shape_hash_next s' = sh_shape_hash_next s -> sh_proto s' = sh_proto s ->
  o_shape ob' = o_shape ob -> (sh_prop_size s' <= length (o_prop ob'))%nat ->
  atoms_hold (atoms rt') (shape_atoms (sh_prop s') ++ flat (fun s => shape_atoms (sh_prop s)) (delete (o_shape ob) (shapes rt)) ++ a) ->
  shapes rt' = <[o_shape ob := s']> (shapes rt) -> objects rt' = <[o := ob']> (objects rt) ->
  shape_hash_bits rt' = shape_hash_bits rt -> rt_shape_hash rt' = rt_shape_hash rt -> proto_dups rt' = proto_dups rt -> proto_frees rt' = proto_frees rt -> clock rt' = clock rt ->
  ok rt' c a /\ spares rt rt' c o.
Proof.
  intros Hok Ho Hs Hrc Hok' Hrc' E1 E2 E3 E4 E5 Hsz Hat Es Eo Eb Et Ed Ef Ec. destruct (unique_owner rt c a o ob s (proj2 Hok) Ho Hs Hrc) as [_ Huni].
  assert (Hoth : forall k, k <> o -> objects rt' !! k = objects rt !! k) by (intros k Hk; rewrite Eo, lookup_insert_ne by done; done).
  assert (Hok2 : ok rt' c a).
  { split.
    - pose proof (table_put rt 0 (o_shape ob) s s' (proj1 Hok) Hs E3 E1 E2) as Ht. unfold table_ok in *. rewrite Ec, Eb, Et, Es. exact Ht.
    - eapply (core_set_shape rt rt' c a (o_shape ob) s s'); try done; [apply Hok|congruence| | | |lia].
      + intros k obk Hk E. destruct (decide (k = o)) as [->|Hne]; [rewrite Eo, lookup_insert_eq in Hk; by injection Hk as <-|].
        rewrite Hoth in Hk by done. by destruct (Huni k obk Hne Hk).
      + intros k. destruct (decide (k = o)) as [->|Hne]; [rewrite Eo, lookup_insert_eq, Ho; simpl; by rewrite E5|by rewrite Hoth].
      + intros k obk Hne Hk. destruct (decide (k = o)) as [->|Hko]; [rewrite Eo, lookup_insert_eq in Hk; injection Hk as <-; congruence|by rewrite <- Hoth]. }
  split; [done|]. destruct (unique_owner rt c a o ob s (proj2 Hok) Ho Hs Hrc) as [Hnc _]. eapply (stable_spares (o_shape ob)); [exact Hok|apply Hok2|done| |done|lia|done|done].
  intros q t Hq _ Hqt. rewrite Es, lookup_insert_ne in Hqt by done. by exists t.
Qed.

(** The atoms of the shapes, with those of one shape first. *)
Lemma atoms_first rt c a p s : core rt c a -> shapes rt !! p = Some s ->
  atoms_hold (atoms rt) (shape_atoms (sh_prop s) ++ flat (fun s => shape_atoms (sh_prop s)) (delete p (shapes rt)) ++ a).
Proof.
  intros Hc Hs. eapply atoms_hold_perm; [|apply (co_atoms _ _ _ Hc)]. unfold live_atoms. rewrite (flat_delete _ (shapes rt) p s Hs). by rewrite <- (assoc_L (++)).
Qed.

Lemma raw_lookup l (v : list (option V)) i : raw l v !! i = (pr ← l !! i; x ← v !! i; Some (sp_atom pr, sp_flags pr, x)).
Proof. unfold raw. rewrite lookup_zip_with. by destruct (l !! i), (v !! i). Qed.

Lemma raw_insert l (v : list (option V)) i pr x : (i < length v)%nat -> raw (<[i := pr]> l) (<[i := x]> v) = <[i := (sp_atom pr, sp_flags pr, x)]> (raw l v).
Proof.
  intros Hi. apply list_eq. intros k. rewrite raw_lookup. destruct (decide (k = i)) as [->|Hne].
  - rewrite (list_lookup_insert_eq v) by done. destruct (decide (i < length l)%nat).
    + rewrite !list_lookup_insert_eq by (unfold raw; rewrite ?length_zip_with; lia). done.
    + rewrite list_insert_ge by lia. rewrite lookup_ge_None_2 by lia. symmetry. apply lookup_ge_None_2. rewrite length_insert. unfold raw. rewrite length_zip_with. lia.
  - rewrite !list_lookup_insert_ne by done. by rewrite raw_lookup.
Qed.

(** ** Flags *)

Record reflagged rt rt' (c : list nat) (a : list Z) (o i : nat) (flags : Z) : Prop := {
  rf_ok : ok rt' c a;
  rf_spares : spares rt rt' c o;
  rf_freed : freed rt' = freed rt;
  rf_view : exists proto l atom f x, view rt o = Some (proto, l) /\ l !! i = Some (atom, f, x) /\ view rt' o = Some (proto, <[i := (atom, flags, x)]> l);
  rf_exotic : o_is_exotic <$> objects rt' !! o = o_is_exotic <$> objects rt !! o;
}.

Lemma prop_value rt c a o ob s i pr : core rt c a -> objects rt !! o = Some ob -> shapes rt !! o_shape ob = Some s -> sh_prop s !! i = Some pr ->
  exists x, o_prop ob !! i = Some x /\ raw (sh_prop s) (o_prop ob) !! i = Some (sp_atom pr, sp_flags pr, x).
Proof.
  intros Hc Ho Hs Hi. pose proof (sk_room _ (co_shape _ _ _ Hc _ s Hs)). pose proof (co_room _ _ _ Hc o ob s Ho Hs). apply lookup_lt_Some in Hi as Hlt. unfold prop_count in *.
  destruct (lookup_lt_is_Some_2 (o_prop ob) i ltac:(lia)) as [x Hx]. exists x. split; [done|]. by rewrite raw_lookup, Hi, Hx.
Qed.

Lemma view_eq rt o ob s : objects rt !! o = Some ob -> shapes rt !! o_shape ob = Some s -> view rt o = Some (sh_proto s, raw (sh_prop s) (o_prop ob)).
Proof. intros Ho Hs. unfold view. rewrite Ho. cbn [mbind option_bind]. by rewrite Hs. Qed.

Lemma js_update_property_flags_spec rt c a o ob s i pr flags : ok rt c a -> objects rt !! o = Some ob -> shapes rt !! o_shape ob = Some s -> sh_prop s !! i = Some pr -> 0 <= flags < 64 ->
  exists rt' b, js_update_property_flags mem rt o i flags = Some (rt', b) /\ if b : bool then reflagged rt rt' c a o i flags else failed mem rt rt' c a.
Proof.
  intros Hok Ho Hs Hi Hfl. unfold js_update_property_flags. rewrite Ho. cbn [mbind option_bind]. rewrite Hs. cbn [mbind option_bind]. rewrite Hi. cbn [mbind option_bind].
  destruct (prop_value rt c a o ob s i pr (proj2 Hok) Ho Hs Hi) as (x & Hx & Hraw). pose proof (view_eq rt o ob s Ho Hs) as Hview.
  destruct (Z.eqb_spec flags (sp_flags pr)) as [->|_]; cbn [negb].
  { exists rt, true. split; [done|]. split; [done|apply spares_refl|done| |done]. eexists _, _, _, _, _. split; [exact Hview|]. split; [exact Hraw|]. by rewrite list_insert_id. }
  destruct (js_shape_prepare_update_spec mem rt c a o ob s Hok Ho Hs) as (rt1 & b & -> & Hb). cbn [mbind option_bind]. destruct b; cbn [negb]; [|by exists rt1, false].
  destruct Hb as (ob1 & s1 & Hso). pose proof (so_single _ _ _ _ _ _ _ _ _ Hso) as Hrc1. destruct Hso as [Hok1 Hsi Ho1 Hs1 [Ep Ex] Hh (Et & El & Esz & Ed & Epr)].
  rewrite Ho1. cbn [mbind option_bind]. rewrite Hs1. cbn [mbind option_bind]. rewrite El, Hi. cbn [mbind option_bind].
  assert (Hf63 : Z.land flags 63 = flags) by (change 63 with (2 ^ 6 - 1); rewrite land_pow2_pred by lia; apply Z.mod_small; lia). rewrite Hf63. rewrite <- El.
  eexists _, true. split; [done|]. rewrite <- El in Hi. pose proof (set_flags_ok s1 i pr flags (co_shape _ _ _ (proj2 Hok1) _ s1 Hs1) Hi) as Hok'. set (s' := set_props s1 _ _ _ _) in *.
  destruct (in_place rt1 (put_shape rt1 (o_shape ob1) s') c a o ob1 s1 ob1 s') as [Hok2 Hsp]; try done.
  { cbn [s' sh_prop_size set_props]. apply (co_room _ _ _ (proj2 Hok1) o ob1 s1 Ho1 Hs1). }
  { cbn [s' sh_prop set_props]. rewrite (names_insert_flags _ i pr flags Hi). apply (atoms_first rt1 c a); [apply Hok1|done]. }
  { cbn [objects put_shape set_shapes]. by rewrite insert_id. }
  split; [done|eapply spares_trans; [by apply silent_spares|exact Hsp]|apply (si_freed _ _ _ Hsi)| |].
  - eexists _, _, _, _, _. split; [exact Hview|]. split; [exact Hraw|]. erewrite (view_eq _ o ob1 s'); [|exact Ho1|apply lookup_insert_eq]. cbn [s' sh_proto set_props sh_prop]. rewrite Epr. do 2 f_equal.
    pose proof (lookup_lt_Some _ _ _ Hx) as Hlt. rewrite <- Ep in Hx, Hlt. rewrite <- (list_insert_id (o_prop ob1) i x Hx) at 1. rewrite raw_insert by done. cbn [sp_atom sp_flags]. by rewrite El, Ep.
  - cbn [objects put_shape set_shapes]. apply (si_exotic _ _ _ Hsi).
Qed.

(** ** Removing a property *)

Lemma prop_search t l atom : prop_table t l -> power2 (length t) -> atom <> 0 ->
  exists h r, t !! prop_bucket atom (length t) = Some h /\ find_with_prev (length l) l atom None h = Some r /\
    match r with
    | None => found l atom None
    | Some (i, lpr) => (exists pr, l !! i = Some pr /\ sp_atom pr = atom) /\
        match lpr with
        | Some k => pnx l (S k) = Some (S i) /\ pbk (length t) l (S k) = Some (prop_bucket atom (length t))
        | None => t !! prop_bucket atom (length t) = Some (S i)
        end
    end.
Proof.
  intros Ht Hp Ha. destruct (prop_chain t l atom Ht Hp) as (h & c & Hh & Hc & Hlen & H1 & H2).
  destruct (find_with_prev_spec l atom c (length l) h None Hc Hlen I) as (r & E & Hr); [intros i Hi; destruct (H2 i Hi) as (pr & ? & _); eauto|].
  exists h, r. split_and!; [done|done|]. destruct r as [[i lpr]|].
  - destruct Hr as (Hpr & Hi & Hq). split; [done|]. destruct lpr as [k|]; [|by destruct Hq as [-> _]]. destruct Hq as [Hk [Hkc|?]]; [|done]. split; [done|]. by destruct (H2 k Hkc) as (_ & _ & _ & ?).
  - intros i pr Hi Hat. apply (Hr i pr); [by apply (H1 i pr)|done|done].
Qed.

Lemma alter_insert {X} (f : X -> X) (l : list X) k x : l !! k = Some x -> alter f k l = <[k := f x]> l.
Proof.
  intros Hk. apply list_eq. intros i. destruct (decide (i = k)) as [->|].
  - rewrite list_lookup_alter_eq, Hk, list_lookup_insert_eq by (by eapply lookup_lt_Some). done.
  - by rewrite list_lookup_alter_ne, list_lookup_insert_ne.
Qed.

Lemma shape_atoms_names l l' : names l' = names l -> shape_atoms l' = shape_atoms l /\ deleted_count l' = deleted_count l.
Proof.
  intros Hn. assert (E : sp_atom <$> l' = sp_atom <$> l) by (apply (f_equal (fmap fst)) in Hn; unfold names in Hn; by rewrite <- !list_fmap_compose in Hn).
  unfold shape_atoms. by rewrite !deleted_count_atoms, E.
Qed.

Lemma blanked l i pr n : l !! i = Some pr -> sp_atom pr <> 0 -> shape_atoms l ≡ₚ sp_atom pr :: shape_atoms (<[i := mkProp n 0 0]> l) /\ deleted_count (<[i := mkProp n 0 0]> l) = S (deleted_count l).
Proof.
  intros Hi Ha. rewrite <- (take_drop_middle l i pr Hi). assert (Hlen : length (take i l) = i) by (rewrite length_take; apply lookup_lt_Some in Hi; lia).
  rewrite insert_app_r_alt by lia. rewrite Hlen, Nat.sub_diag. cbn [insert list_insert]. rewrite !shape_atoms_app, !deleted_count_app, !shape_atoms_cons. cbn [sp_atom].
  destruct (Z.eqb_spec (sp_atom pr) 0); [done|]. cbn [Z.eqb]. split; [by rewrite Permutation_middle|]. unfold deleted_count. rewrite !filter_cons. cbn [sp_atom]. rewrite decide_True by done. rewrite decide_False by done. simpl. lia.
Qed.

Lemma blanked_distinct l i n : distinct_atoms l -> distinct_atoms (<[i := mkProp n 0 0]> l).
Proof.
  intros Hd x y p q Hx Hy Hpq Hn. assert (Hk : forall k r, <[i := mkProp n 0 0]> l !! k = Some r -> sp_atom r <> 0 -> l !! k = Some r).
  { intros k r Hr Hr0. destruct (decide (k = i)) as [->|]; [|by rewrite list_lookup_insert_ne in Hr]. apply list_lookup_insert_Some in Hr as [(_ & <- & _)|(? & _)]; done. }
  apply (Hd x y p q); [by apply Hk|apply Hk; [done|congruence]|done|done].
Qed.

(** What is left of the object whose property [i] is removed. *)
Record removed rt rt' (c : list nat) (a : list Z) (o i : nat) (f : Z) (x : option V) (s : JSShape) : Prop := {
  re_ok : ok rt' c a;
  re_spares : spares rt rt' c o;
  re_freed : freed rt' = freed rt ++ [(f, x)];
  re_view : exists proto l, view rt o = Some (proto, l) /\ view rt' o = Some (proto, <[i := (0, 0, Some undefined)]> l);
  re_exotic : o_is_exotic <$> objects rt' !! o = o_is_exotic <$> objects rt !! o;
  re_shape : exists ob' s', objects rt' !! o = Some ob' /\ shapes rt' !! o_shape ob' = Some s' /\ sh_is_hashed s' = false;
}.

Lemma remove_property_spec rt c a o ob s atom i pr x lpr : ok rt c a -> objects rt !! o = Some ob -> shapes rt !! o_shape ob = Some s -> sh_is_hashed s = false ->
  sh_prop s !! i = Some pr -> sp_atom pr = atom -> atom <> 0 -> o_prop ob !! i = Some x ->
  match lpr with
  | Some k => pnx (sh_prop s) (S k) = Some (S i) /\ pbk (length (sh_hash_table s)) (sh_prop s) (S k) = Some (prop_bucket atom (length (sh_hash_table s)))
  | None => sh_hash_table s !! prop_bucket atom (length (sh_hash_table s)) = Some (S i)
  end ->
  exists rt', remove_property undefined rt o atom i lpr = Some rt' /\ removed rt rt' c a o i (sp_flags pr) x s.
Proof.
  intros Hok Ho Hs Hh Hi Hat Ha Hx Hl. pose proof (co_shape _ _ _ (proj2 Hok) _ s Hs) as Hsok. pose proof (co_single _ _ _ (proj2 Hok) _ s Hs Hh) as Hrc. destruct Hsok as [K1 K2 K3 K4 K5 K6].
  pose proof (prop_table_remove _ _ atom i pr lpr K2 K1 Hi Hat Ha Hl) as Hrem. unfold remove_property. rewrite Ho. cbn [mbind option_bind]. rewrite Hs. cbn [mbind option_bind]. rewrite Hi. cbn [mbind option_bind].
  assert (Eun : match lpr with
     | Some k => lp ← sh_prop s !! k; Some (sh_hash_table s, <[k := set_next lp (sp_hash_next pr)]> (sh_prop s))
     | None => Some (<[prop_bucket atom (length (sh_hash_table s)) := sp_hash_next pr]> (sh_hash_table s), sh_prop s)
     end = Some (unlinked (sh_hash_table s) (sh_prop s) atom i lpr (sp_hash_next pr))).
  { destruct lpr as [k|]; [|done]. destruct Hl as [Hk _]. simpl in Hk. destruct (sh_prop s !! k) as [lp|] eqn:Ek; [|done]. cbn [mbind option_bind unlinked]. by rewrite (alter_insert _ _ _ _ Ek). }
  rewrite Eun. destruct (unlinked _ _ _ _ _ _) as [t l]. destruct Hrem as (Hlt & Htab & Hli & Hnm). cbn [mbind option_bind]. rewrite Hx. cbn [mbind option_bind].
  destruct (shape_atoms_names _ _ Hnm) as [Eat Edc]. destruct (blanked l i pr (sp_hash_next pr) Hli ltac:(congruence)) as [Hperm Hdc]. pose proof (atoms_first rt c a _ s (proj2 Hok) Hs) as Hhold. rewrite <- Eat in Hhold.
  assert (Hhold2 : atoms_hold (atoms rt) (atom :: shape_atoms (<[i := mkProp (sp_hash_next pr) 0 0]> l) ++ flat (fun s => shape_atoms (sh_prop s)) (delete (o_shape ob) (shapes rt)) ++ a)).
  { eapply atoms_hold_perm; [|exact Hhold]. by rewrite Hperm, Hat. }
  destruct (free_held (atoms rt) _ atom Hhold2) as (st & Est & Hst).
  rewrite Hat, Est. cbn [mbind option_bind]. eexists. split; [done|]. set (s' := set_props s _ t _ _). set (ob' := set_o_prop ob _).
  pose proof (co_room _ _ _ (proj2 Hok) o ob s Ho Hs) as Hroom. pose proof (names_length _ _ Hnm) as Hll. unfold prop_count in *.
  match goal with |- removed _ ?r _ _ _ _ _ _ _ => destruct (in_place rt r c a o ob s ob' s') as [Hok2 Hsp]; try done end.
  { split; unfold prop_count; cbn [s' sh_hash_table sh_prop sh_prop_size sh_deleted_prop_count set_props]; rewrite ?length_insert, ?Hll; try done; [by rewrite Hlt|apply blanked_distinct; by eapply names_atoms|by rewrite Hdc, Edc, K5]. }
  { cbn [s' ob' sh_prop_size set_props o_prop set_o_prop]. by rewrite length_insert. }
  split; try done.
  - erewrite (view_eq rt o ob s Ho Hs). eexists _, _. split; [done|]. erewrite (view_eq _ o ob' s'); [|apply lookup_insert_eq|apply lookup_insert_eq]. cbn [s' ob' sh_proto sh_prop set_props o_prop set_o_prop].
    rewrite raw_insert by (by eapply lookup_lt_Some). cbn [sp_atom sp_flags]. by rewrite (raw_names _ _ _ Hnm).
  - cbn [objects put_object set_objects]. rewrite lookup_insert_eq, Ho. done.
  - exists ob', s'. split_and!; [apply lookup_insert_eq|apply lookup_insert_eq|done].
Qed.

(** ** Compaction *)

(** The properties that are not deleted. *)
Definition live (l : list (Z * Z * option V)) : list (Z * Z * option V) := filter (fun x => x.1.1 <> 0) l.

Lemma live_props_cons pr l : live_props (pr :: l) = if sp_atom pr =? 0 then live_props l else pr :: live_props l.
Proof. unfold live_props. rewrite filter_cons. destruct (Z.eqb_spec (sp_atom pr) 0); [by rewrite decide_False by tauto|by rewrite decide_True]. Qed.

Lemma live_props_length l : (length (live_props l) + deleted_count l = length l)%nat.
Proof.
  induction l as [|pr l IH]; [done|]. rewrite live_props_cons. unfold deleted_count in *. rewrite filter_cons. destruct (Z.eqb_spec (sp_atom pr) 0).
  - rewrite decide_True by done. simpl. lia.
  - rewrite decide_False by done. simpl. lia.
Qed.

Lemma live_props_atoms l : shape_atoms (live_props l) = shape_atoms l /\ deleted_count (live_props l) = 0%nat.
Proof.
  induction l as [|pr l [IH1 IH2]]; [done|]. rewrite live_props_cons, shape_atoms_cons. destruct (Z.eqb_spec (sp_atom pr) 0) as [E|E]; [done|]. rewrite shape_atoms_cons.
  destruct (Z.eqb_spec (sp_atom pr) 0); [done|]. rewrite IH1. split; [done|]. unfold deleted_count in *. by rewrite filter_cons, decide_False.
Qed.

Lemma live_props_found l atom : found l atom None -> found (live_props l) atom None.
Proof.
  intros Hf i pr Hi. apply list_elem_of_lookup_2 in Hi. unfold live_props in Hi. apply list_elem_of_filter in Hi as [_ Hi]. apply list_elem_of_lookup in Hi as [k Hk]. by eapply Hf.
Qed.

Lemma distinct_cons pr l : distinct_atoms (pr :: l) <-> distinct_atoms l /\ (sp_atom pr <> 0 -> found l (sp_atom pr) None).
Proof.
  split.
  - intros Hd. split.
    + intros i j x y Hx Hy Hxy Hn. by injection (Hd (S i) (S j) x y Hx Hy Hxy Hn).
    + intros Hn i x Hx E. by pose proof (Hd 0%nat (S i) pr x eq_refl Hx (eq_sym E) Hn).
  - intros [Hd Hf] [|i] [|j] x y Hx Hy Hxy Hn; simpl in *; try done.
    + injection Hx as ->. by destruct (Hf Hn j y Hy).
    + injection Hy as ->. destruct (Hf ltac:(congruence) i x Hx). done.
    + f_equal. by apply (Hd i j x y).
Qed.

Lemma live_props_distinct l : distinct_atoms l -> distinct_atoms (live_props l).
Proof.
  induction l as [|pr l IH]; [done|]. rewrite live_props_cons, distinct_cons. intros [Hd Hf]. destruct (Z.eqb_spec (sp_atom pr) 0); [by apply IH|]. apply distinct_cons. split; [by apply IH|].
  intros Hn. by apply live_props_found, Hf.
Qed.

Lemma live_values_length l (v : list (option V)) : (length l <= length v)%nat -> length (live_values l v) = length (live_props l).
Proof.
  revert v. induction l as [|pr l IH]; intros v Hv; [done|]. destruct v as [|x v]; [simpl in Hv; lia|]. rewrite live_props_cons. cbn [live_values]. simpl in Hv.
  destruct (sp_atom pr =? 0); simpl; rewrite IH by lia; done.
Qed.

Lemma raw_live l (v : list (option V)) : (length l <= length v)%nat -> raw (live_props l) (live_values l v) = live (raw l v).
Proof.
  revert v. induction l as [|pr l IH]; intros v Hv; [done|]. destruct v as [|x v]; [simpl in Hv; lia|]. rewrite live_props_cons. cbn [live_values raw zip_with]. unfold live. rewrite filter_cons. cbn [fst]. simpl in Hv.
  destruct (Z.eqb_spec (sp_atom pr) 0).
  - rewrite decide_False by tauto. apply IH. lia.
  - rewrite decide_True by done. simpl. f_equal. apply IH. lia.
Qed.

Lemma compacted_ok s size n l t : shape_ok s -> power2 n -> (length (live_props (sh_prop s)) <= size)%nat -> rehash_props 0 (live_props (sh_prop s)) (replicate n 0%nat) = Some (l, t) ->
  shape_ok (set_ref (set_props s size t l 0) 1) /\ names l = names (live_props (sh_prop s)).
Proof.
  intros [K1 K2 K3 K4 K5 K6] Hn Hs E. pose proof (live_props_length (sh_prop s)) as Hll. unfold prop_count in *.
  destruct (rehash_props_spec (live_props (sh_prop s)) [] (replicate n 0%nat)) as (l' & t' & E' & Hnm & Hlen & Ht); [apply prop_table_empty|by rewrite length_replicate|simpl; lia|].
  change (length []) with 0%nat in E'. rewrite E in E'. injection E' as <- <-. rewrite length_replicate in Hlen. split; [|done]. pose proof (names_length _ _ Hnm) as Hlen2.
  split; unfold prop_count; cbn [sh_hash_table sh_prop sh_prop_size sh_deleted_prop_count set_ref set_props].
  - by rewrite Hlen.
  - done.
  - eapply names_atoms; [exact Hnm|]. by apply live_props_distinct.
  - by rewrite Hlen2.
  - destruct (shape_atoms_names _ _ Hnm) as [_ ->]. by destruct (live_props_atoms (sh_prop s)) as [_ ->].
  - rewrite Hlen2. lia.
Qed.

(** The deleted properties are dropped, or nothing happens. *)
Record compacted rt rt' (c : list nat) (a : list Z) (o : nat) : Prop := {
  cp_ok : ok rt' c a;
  cp_spares : spares rt rt' c o;
  cp_freed : freed rt' = freed rt;
  cp_view : exists proto l l', view rt o = Some (proto, l) /\ view rt' o = Some (proto, l') /\ (l' = live l \/ l' = l /\ short mem);
  cp_exotic : o_is_exotic <$> objects rt' !! o = o_is_exotic <$> objects rt !! o;
}.

Lemma compact_properties_spec rt c a o ob s : ok rt c a -> objects rt !! o = Some ob -> shapes rt !! o_shape ob = Some s -> sh_is_hashed s = false -> (2 <= sh_prop_size s)%nat ->
  exists rt' b, compact_properties mem rt o = Some (rt', b) /\ compacted rt rt' c a o.
Proof.
  intros Hok Ho Hs Hh Hsz. pose proof (co_shape _ _ _ (proj2 Hok) _ s Hs) as Hsok. pose proof (co_single _ _ _ (proj2 Hok) _ s Hs Hh) as Hrc. pose proof (co_room _ _ _ (proj2 Hok) o ob s Ho Hs) as Hroom.
  pose proof (sk_room _ Hsok) as Hcnt. pose proof (sk_deleted _ Hsok) as Hdel. pose proof (live_props_length (sh_prop s)) as Hll. unfold prop_count in *.
  unfold compact_properties. rewrite Ho. cbn [mbind option_bind]. rewrite Hs. cbn [mbind option_bind]. unfold prop_count. rewrite Hh. cbn [orb].
  set (new_size := (JS_PROP_INITIAL_SIZE `max` (length (sh_prop s) - sh_deleted_prop_count s))%nat). assert (Hns : (2 <= new_size)%nat /\ (new_size <= sh_prop_size s)%nat /\ (length (live_props (sh_prop s)) <= new_size)%nat) by (unfold new_size, JS_PROP_INITIAL_SIZE; lia).
  destruct Hns as (Hn2 & Hnle & Hnl). destruct (Nat.leb_spec new_size (sh_prop_size s)); [|lia]. cbn [negb]. unfold js_malloc at 1. destruct (mem (clock rt)) eqn:Em.
  2: { change (0 =? 0)%nat with true. cbv iota. exists (tick rt), false. split; [done|]. pose proof (silent_tick rt c a Hok) as Hsi. pose proof (view_eq rt o ob s Ho Hs) as Hv.
       split; [by apply tick_ok|by apply silent_spares|done| |done]. eexists _, _, _. split; [exact Hv|]. split; [by rewrite (si_view _ _ _ Hsi)|]. right. split; [done|by exists (clock rt)]. }
  destruct (Nat.eqb_spec (clock rt) 0) as [E0|_]; [by destruct (co_clock _ _ _ (proj2 Hok))|]. pose proof (shrink_power2 (length (sh_hash_table s)) (length (sh_hash_table s)) new_size (sk_size _ Hsok) Hn2) as Hp2. set (hn := shrink_hash_size _ _ _) in *.
  destruct (rehash_props_spec (live_props (sh_prop s)) [] (replicate hn 0%nat)) as (l & t & E & _); [apply prop_table_empty|by rewrite length_replicate|pose proof (sk_max _ Hsok); unfold prop_count in *; simpl; lia|]. change (length []) with 0%nat in E.
  rewrite E. cbn [mbind option_bind]. destruct (compacted_ok s new_size hn l t Hsok Hp2 Hnl E) as [Hok' Hnm]. set (s' := set_ref _ 1) in *. rewrite (names_length _ _ Hnm).
  destruct (Nat.eqb_spec (length (live_props (sh_prop s))) (length (sh_prop s) - sh_deleted_prop_count s)); [|lia]. cbn [negb].
  set (vals := live_values (sh_prop s) (o_prop ob)). pose proof (live_values_length (sh_prop s) (o_prop ob) ltac:(lia)) as Hvl. fold vals in Hvl. set (w := vals ++ drop (length vals) (o_prop ob)).
  assert (Hw : length w = length (o_prop ob)) by (unfold w; rewrite length_app, length_drop; lia).
  match goal with |- context [js_malloc mem ?r] => set (rt1 := r) end. unfold js_malloc. set (v := if (_ =? 0)%nat then w else _).
  assert (Hv : (new_size <= length v)%nat /\ raw l v = live (raw (sh_prop s) (o_prop ob))).
  { assert (Hr0 : raw l w = live (raw (sh_prop s) (o_prop ob))) by (rewrite (raw_names _ _ _ Hnm); unfold w; rewrite raw_app_r by lia; apply raw_live; lia).
    unfold v. destruct (_ =? 0)%nat; [split; [lia|done]|]. rewrite realloc_length. split; [done|]. rewrite raw_realloc; [done|rewrite (names_length _ _ Hnm); lia|rewrite (names_length _ _ Hnm); lia]. }
  clearbody v. destruct Hv as [Hlv Hraw]. eexists _, true. split; [done|]. pose proof (fresh_shape rt c a Hok) as Hfresh. destruct (st_addr _ _ _ _ _ (proj1 Hok) _ s Hs) as (_ & Hpc & Hhr).
  pose proof (tick_ok _ _ _ (tick_ok _ _ _ Hok)) as Hok2.
  destruct (move_owner (tick (tick rt)) c a o ob s (clock rt) s' v) as [Ht3 Hc3]; try done.
  { by apply (table_unhashed (tick (tick rt)) (o_shape ob) s Hs Hh), Hok2. } { apply Hok2. } { apply (co_clock _ _ _ (proj2 Hok)). } { simpl. lia. }
  { right. cbn [s' sh_prop set_ref set_props]. destruct (shape_atoms_names _ _ Hnm) as [-> _]. apply live_props_atoms. }
  set (rt3 := put_object _ o _) in Ht3, Hc3. assert (Hs3 : shapes rt3 !! clock rt = Some s') by apply lookup_insert_eq. assert (Ho3 : objects rt3 !! o = Some (mkObject (clock rt) v (o_is_exotic ob))) by apply lookup_insert_eq.
  assert (Hok3 : ok rt3 c a) by (split; [by apply (table_unhashed rt3 (clock rt) s' Hs3)|done]). match goal with |- compacted _ ?r _ _ _ => change r with rt3 end.
  assert (Hoth : forall k, k <> o -> objects rt3 !! k = objects rt !! k) by (intros k Hk; unfold rt3; cbn [objects put_object set_objects set_shapes tick]; by rewrite lookup_insert_ne).
  split; [done| |done| |by rewrite Ho3, Ho].
  - eapply (stable_spares_new 0); [exact Hok|done|done| |done|simpl; lia|by eapply shape_zero].
    intros q t0 _ Hlt Hq. unfold rt3 in Hq. cbn [shapes put_object set_objects set_shapes tick] in Hq. rewrite lookup_insert_ne in Hq by lia. apply lookup_delete_Some in Hq as [_ Hq]. by exists t0.
  - eexists _, _, _. split; [by apply (view_eq rt o ob s)|]. split; [erewrite (view_eq rt3 o _ s' Ho3 Hs3); cbn [s' sh_proto sh_prop set_ref set_props o_prop]; by rewrite Hraw|by left].
Qed.

(** A table of two buckets, so a mask of 1, is reached from the initial four. *)
Lemma compact_mask_one : shrink_hash_size 4 JS_PROP_INITIAL_HASH_SIZE JS_PROP_INITIAL_SIZE = 2%nat.
Proof. reflexivity. Qed.

(** ** Deletion *)

(** The property [i] is no longer there, its content is freed, and the other
    properties are in the same order. *)
Record erased rt rt' (c : list nat) (a : list Z) (o i : nat) (f : Z) (x : option V) : Prop := {
  er_ok : ok rt' c a;
  er_spares : spares rt rt' c o;
  er_freed : freed rt' = freed rt ++ [(f, x)];
  er_view : exists proto l l', view rt o = Some (proto, l) /\ view rt' o = Some (proto, l') /\ live l' = live (<[i := (0, 0, Some undefined)]> l);
  er_exotic : o_is_exotic <$> objects rt' !! o = o_is_exotic <$> objects rt !! o;
}.

Lemma live_idemp l : live (live l) = live l.
Proof. unfold live. apply list_filter_filter_l. done. Qed.

Lemma erase_spec rt c a o ob s atom i pr x lpr : ok rt c a -> objects rt !! o = Some ob -> shapes rt !! o_shape ob = Some s -> sh_is_hashed s = false ->
  sh_prop s !! i = Some pr -> sp_atom pr = atom -> atom <> 0 -> o_prop ob !! i = Some x ->
  match lpr with
  | Some k => pnx (sh_prop s) (S k) = Some (S i) /\ pbk (length (sh_hash_table s)) (sh_prop s) (S k) = Some (prop_bucket atom (length (sh_hash_table s)))
  | None => sh_hash_table s !! prop_bucket atom (length (sh_hash_table s)) = Some (S i)
  end ->
  exists rt', (rt ← remove_property undefined rt o atom i lpr; o0 ← objects rt !! o; sh ← shapes rt !! o_shape o0;
      rt ← if (8 <=? sh_deleted_prop_count sh)%nat && (prop_count sh / 2 <=? sh_deleted_prop_count sh)%nat then '(rt, _) ← compact_properties mem rt o; Some rt else Some rt;
      Some (rt, D_true)) = Some (rt', D_true) /\ erased rt rt' c a o i (sp_flags pr) x.
Proof.
  intros Hok Ho Hs Hh Hi Hat Ha Hx Hl. destruct (remove_property_spec rt c a o ob s atom i pr x lpr Hok Ho Hs Hh Hi Hat Ha Hx Hl) as (rt1 & -> & Hrm). cbn [mbind option_bind].
  destruct Hrm as [Hok1 Hsp1 Hfr1 (proto & l & Hv & Hv1) Hex1 (ob1 & s1 & Ho1 & Hs1 & Hh1)]. rewrite Ho1. cbn [mbind option_bind]. rewrite Hs1. cbn [mbind option_bind].
  destruct (_ && _) eqn:Hb.
  - apply andb_true_iff in Hb as [Hb _]. apply Nat.leb_le in Hb. pose proof (co_shape _ _ _ (proj2 Hok1) _ s1 Hs1) as Hsok. pose proof (live_props_length (sh_prop s1)). pose proof (sk_room _ Hsok). rewrite (sk_deleted _ Hsok) in Hb. unfold prop_count in *.
    destruct (compact_properties_spec rt1 c a o ob1 s1 Hok1 Ho1 Hs1 Hh1 ltac:(lia)) as (rt2 & b & -> & [Hok2 Hsp2 Hfr2 (p2 & l2 & l3 & Hv2 & Hv3 & Hor) Hex2]). cbn [mbind option_bind]. exists rt2. split; [done|].
    split; [done|by eapply spares_trans|congruence| |congruence]. exists proto, l, l3. rewrite Hv1 in Hv2. injection Hv2 as <- <-. split_and!; [done|done|]. destruct Hor as [->|[-> _]]; [apply live_idemp|done].
  - exists rt1. split; [done|]. split; try done. eexists proto, l, _. split_and!; [done|exact Hv1|done].
Qed.

(** The outcome of [delete_property] for the search result [r] in the shape
    [s]. *)
Definition delete_outcome rt rt' (c : list nat) (a : list Z) (o : nat) (ob : JSObject V) (s : JSShape) (atom : Z) (r : delete_result) : Prop :=
  match r with
  | D_exotic => o_is_exotic ob = true /\ found (sh_prop s) atom None /\ rt' = rt
  | D_false => (exists i pr, sh_prop s !! i = Some pr /\ sp_atom pr = atom /\ Z.land (sp_flags pr) JS_PROP_CONFIGURABLE = 0) /\ rt' = rt
  | D_exception => failed mem rt rt' c a
  | D_true =>
      (o_is_exotic ob = false /\ found (sh_prop s) atom None /\ rt' = rt) \/
      exists i pr x, sh_prop s !! i = Some pr /\ sp_atom pr = atom /\ Z.land (sp_flags pr) JS_PROP_CONFIGURABLE <> 0 /\ o_prop ob !! i = Some x /\ erased rt rt' c a o i (sp_flags pr) x
  end.

Lemma delete_property_spec rt c a o ob s atom : ok rt c a -> objects rt !! o = Some ob -> shapes rt !! o_shape ob = Some s -> atom <> 0 ->
  exists rt' r, delete_property mem undefined rt o atom = Some (rt', r) /\ delete_outcome rt rt' c a o ob s atom r.
Proof.
  intros Hok Ho Hs Ha. pose proof (co_shape _ _ _ (proj2 Hok) _ s Hs) as Hsok. destruct (prop_search (sh_hash_table s) (sh_prop s) atom (sk_table _ Hsok) (sk_size _ Hsok) Ha) as (h & r & Hh & E & Hr).
  unfold delete_property, prop_count. rewrite Ho. cbn [mbind option_bind]. rewrite Hs. cbn [mbind option_bind]. rewrite Hh. cbn [mbind option_bind]. rewrite E. cbn [mbind option_bind].
  destruct r as [[i lpr]|]; [|exists rt; destruct (o_is_exotic ob) eqn:Hx; [by exists D_exotic|exists D_true; split; [done|by left]]].
  destruct Hr as ((pr & Hi & Hat) & Hl). rewrite Hi. cbn [mbind option_bind]. destruct (Z.eqb_spec (Z.land (sp_flags pr) JS_PROP_CONFIGURABLE) 0) as [Hc|Hc].
  { exists rt, D_false. split; [done|]. split; [by exists i, pr|done]. }
  destruct (prop_value rt c a o ob s i pr (proj2 Hok) Ho Hs Hi) as (x & Hx & _).
  destruct (js_shape_prepare_update_spec mem rt c a o ob s Hok Ho Hs) as (rt1 & b & -> & Hb). cbn [mbind option_bind]. destruct b; cbn [negb]; [|by exists rt1, D_exception].
  destruct Hb as (ob1 & s1 & [Hok1 Hsi Ho1 Hs1 [Ep Ex] Hh1 (Et & El & Esz & Ed & Epr)]).
  destruct (erase_spec rt1 c a o ob1 s1 atom i pr x lpr) as (rt2 & E2 & [R1 R2 R3 R4 R5]); try done; [by rewrite El|by rewrite Ep|by rewrite El, Et|].
  exists rt2, D_true. split; [exact E2|]. right. exists i, pr, x. split_and!; try done. pose proof Hsi as [V1 V2 V3 V4 V5]. split; [done| |congruence| |by rewrite R5].
  - eapply spares_trans; [by apply silent_spares|exact R2].
  - by rewrite V1 in R4.
Qed.
End change.
