(* ===== verification/Objects.v ===== *)
(** * Objects: creation, lookup and release

    The functions that create an object find a shape for it or make one; the
    constructors that know their fields keep such a shape in a cache. *)
From S2P Require Import Prelude Native Chains Shapes ShapeTable ShapesProps ShapesOps ObjectProps ObjectChange.

Section create.
Context {V A : Type} `{AtomLaws A} (mem : nat -> bool) (addr : nat -> Z) (undefined : V).
Implicit Types rt : JSRuntime V A.

(** ** Lookup *)

Lemma find_own_property_spec rt c a o ob s atom : ok rt c a -> objects rt !! o = Some ob -> shapes rt !! o_shape ob = Some s -> atom <> 0 ->
  exists r, find_own_property rt o atom = Some r /\ found (sh_prop s) atom r.
Proof.
  intros Hok Ho Hs Ha. pose proof (co_shape _ _ _ (proj2 Hok) _ s Hs) as Hsok. destruct (find_prop_spec (sh_hash_table s) (sh_prop s) atom (sk_table _ Hsok) (sk_size _ Hsok) Ha) as (h & r & Hh & E & Hr).
  exists r. split; [|done]. unfold find_own_property. rewrite Ho. cbn [mbind option_bind]. rewrite Hs. cbn [mbind option_bind]. rewrite Hh. cbn [mbind option_bind]. done.
Qed.

(** ** Creation *)

(** The object [p] is new. *)
Record created rt rt' (c : list nat) (a : list Z) (p : nat) (proto : nat) (l : list (Z * Z * option V)) : Prop := {
  cr_ok : ok rt' c a;
  cr_new : p <> 0%nat /\ objects rt !! p = None;
  cr_spares : spares rt rt' c p;
  cr_freed : freed rt' = freed rt;
  cr_view : view rt' p = Some (proto, l);
  cr_exotic : o_is_exotic <$> objects rt' !! p = Some false;
}.

Lemma fresh_object rt c a n : core rt c a -> (clock rt <= n)%nat -> objects rt !! n = None.
Proof. intros Hc Hn. destruct (objects rt !! n) as [ob|] eqn:E; [|done]. destruct (co_obj _ _ _ Hc n ob E). lia. Qed.

Lemma JS_NewObjectFromShape_spec rt c a sh s : ok rt (sh :: c) a -> shapes rt !! sh = Some s ->
  exists rt' p, JS_NewObjectFromShape mem rt sh = Some (rt', p) /\
    ((p = 0%nat /\ ok rt' c a /\ quiet rt rt' /\ short mem) \/
     (created rt rt' c a p (sh_proto s) (raw (sh_prop s) (replicate (sh_prop_size s) None)) /\ shapes rt' = shapes rt /\
      objects rt' !! p = Some (mkObject sh (replicate (sh_prop_size s) None) false))).
Proof.
  intros Hok Hs. pose proof (co_clock _ _ _ (proj2 Hok)) as Hc0. unfold JS_NewObjectFromShape. rewrite Hs. cbn [mbind option_bind].
  assert (Hfail : forall r, ok r (sh :: c) a -> quiet rt r -> short mem -> exists rt' p, (rt ← js_free_shape r sh; Some (rt, 0%nat)) = Some (rt', p) /\ p = 0%nat /\ ok rt' c a /\ quiet rt rt' /\ short mem).
  { intros r Hr Hq Hm. destruct (free_shape_spec r c a sh Hr) as (rt' & -> & Hok' & Hq'). exists rt', 0%nat. split_and!; try done. by eapply quiet_trans. }
  unfold js_malloc at 1. destruct (mem (clock rt)) eqn:Em.
  2: { change (0 =? 0)%nat with true. cbv iota. destruct (Hfail (tick rt)) as (rt' & p & E & Hp); [by apply tick_ok|apply tick_quiet|by exists (clock rt)|]. exists rt', p. split; [done|by left]. }
  destruct (Nat.eqb_spec (clock rt) 0); [done|]. unfold js_malloc. destruct (mem (clock (tick rt))) eqn:Em2.
  2: { change (0 =? 0)%nat with true. cbv iota. destruct (Hfail (tick (tick rt))) as (rt' & p & E & Hp); [by apply tick_ok, tick_ok|by eapply quiet_trans; apply tick_quiet|by exists (clock (tick rt))|]. exists rt', p. split; [done|by left]. }
  cbn [clock tick]. cbn [Nat.eqb]. eexists _, _. split; [done|]. right. pose proof (tick_ok _ _ _ (tick_ok _ _ _ Hok)) as Hok2. set (ob := mkObject sh _ false).
  pose proof (fresh_object rt _ a (clock rt) (proj2 Hok) (le_n _)) as Hfr.
  assert (Hc2 : core (put_object (tick (tick rt)) (clock rt) ob) c a).
  { eapply (core_put_object _ c a (clock rt) ob s); [apply Hok2|exact Hfr|done|simpl; lia|exact Hs|]. cbn [ob o_prop]. by rewrite length_replicate. }
  set (rt' := put_object _ _ ob) in *. assert (Ho' : objects rt' !! clock rt = Some ob) by apply lookup_insert_eq. split_and!; [|done|done].
  assert (Hok' : ok rt' c a) by (split; [apply Hok2|done]). split; [done|done| |done|by apply (view_eq rt' _ ob s)|by rewrite Ho'].
  assert (Hoth : forall k, k <> clock rt -> objects rt' !! k = objects rt !! k) by (intros k Hk; unfold rt'; cbn [objects put_object set_objects tick]; by rewrite lookup_insert_ne).
  split; [intros k Hk|intros k Hk; by rewrite Hoth|simpl; lia|intros q s0 _ Hq; by exists s0]. eapply (view_stable 0 rt rt'); [exact Hok|done|by apply stable_same|by apply Hoth|].
  apply (dead_shape rt _ a 0 (proj2 Hok)). by eapply shape_zero.
Qed.

Lemma find_hashed_shape_proto_spec rt c a proto : ok rt c a ->
  exists r, find_hashed_shape_proto addr rt proto = Some r /\
    (r = 0%nat \/ r <> 0%nat /\ exists s, shapes rt !! r = Some s /\ sh_is_hashed s = true /\ sh_proto s = proto /\ sh_prop s = []).
Proof.
  intros [Ht Hc]. unfold find_hashed_shape_proto. set (h := shape_initial_hash addr proto). assert (Hh : 0 <= h < 2 ^ 32) by apply shape_hash_range. destruct Ht as [T1 T2 T3 T4] eqn:ET.
  destruct (lookup_lt_is_Some_2 (rt_shape_hash rt) (Z.to_nat (get_shape_hash h (shape_hash_bits rt)))) as [cur Hcur]; [rewrite T2; by apply bucket_lt|]. rewrite Hcur. cbn [mbind option_bind].
  destruct (shape_chain _ _ _ _ _ _ cur Ht Hcur) as (l & Hl & Hlen & _ & Hin). destruct (find_proto_shape_spec (shapes rt) h proto l (clock rt) cur Hl Hlen) as (r & E & Hr).
  exists r. split; [done|]. destruct Hr as [->|(Hrl & s & Hs & _ & Hp & Hnil)]; [by left|right]. pose proof (chain_nonzero _ _ _ _ Hl Hrl) as Hr0. split; [done|]. exists s. split_and!; try done.
  apply Hin in Hrl. unfold others in Hrl. rewrite decide_False in Hrl by done. unfold sbk in Hrl. rewrite Hs in Hrl. simpl in Hrl. by destruct (sh_is_hashed s).
Qed.

(** After steps on shapes only. *)
Lemma created_after rt rt1 rt2 c c1 a p proto l : ok rt c a -> ok rt1 c1 a -> (forall q, q ∈ c -> q ∈ c1) -> quiet rt rt1 -> created rt1 rt2 c a p proto l -> created rt rt2 c a p proto l.
Proof.
  intros Hok Hok1 Hin Hq [D1 [D2 D3] D4 D5 D6 D7]. split; [done| | |rewrite D5; apply Hq|done|done].
  - split; [done|]. by rewrite <- (qu_objects _ _ Hq).
  - eapply spares_trans; [eapply silent_spares, quiet_silent; [exact Hok|apply Hok1|done|done]|done].
Qed.

Lemma quiet_failed rt rt1 c a : ok rt c a -> ok rt1 c a -> quiet rt rt1 -> short mem -> failed mem rt rt1 c a.
Proof. intros Hok Hok1 Hq Hs. split; [done|eapply quiet_silent; [exact Hok|apply Hok1|done|done]|done]. Qed.

(** The outcome of creating an object. *)
Definition new_outcome rt rt' (c : list nat) (a : list Z) (p proto : nat) (l : list (Z * Z * option V)) : Prop :=
  p = 0%nat /\ failed mem rt rt' c a \/ created rt rt' c a p proto l.

Lemma JS_NewObjectProtoClass_spec rt c a proto : ok rt c a -> shape_hash_bits rt < 32 ->
  exists rt' p, JS_NewObjectProtoClass mem addr rt proto = Some (rt', p) /\ new_outcome rt rt' c a p proto [] /\ (p <> 0%nat -> in_table rt' p = Some true).
Proof.
  intros Hok Hb. unfold JS_NewObjectProtoClass. destruct (find_hashed_shape_proto_spec rt c a proto Hok) as (r & -> & Hr). cbn [mbind option_bind].
  assert (Hmake : forall rt1 q s, ok rt1 (q :: c) a -> quiet rt rt1 -> shapes rt1 !! q = Some s -> sh_proto s = proto -> sh_prop s = [] -> sh_is_hashed s = true ->
    exists rt' p, JS_NewObjectFromShape mem rt1 q = Some (rt', p) /\ new_outcome rt rt' c a p proto [] /\ (p <> 0%nat -> in_table rt' p = Some true)).
  { intros rt1 q s Hok1 Hq1 Hs Hp Hnil Hh. destruct (JS_NewObjectFromShape_spec rt1 c a q s Hok1 Hs) as (rt2 & p & -> & H2). exists rt2, p. split; [done|]. destruct H2 as [(-> & Hok2 & Hq2 & Hm)|(Hcr & Es & Eo)].
    - split; [|done]. left. split; [done|]. apply quiet_failed; [done|done|by eapply quiet_trans|done].
    - rewrite Hp, Hnil in Hcr. split; [right; eapply created_after; [exact Hok|exact Hok1|by right|done|done]|]. intros _. erewrite in_table_eq; [|exact Eo|cbn [o_shape]; rewrite Es; exact Hs]. by rewrite Hh. }
  destruct Hr as [->|(Hr0 & s & Hs & Hh & Hp & Hnil)].
  - cbn [Nat.eqb negb]. destruct (new_shape_spec mem addr rt c a proto Hok Hb) as (rt1 & q & -> & Hq1 & H1). cbn [mbind option_bind]. destruct H1 as [(-> & Hok1 & Hm)|(Hq0 & Hlt & Hok1 & s & Hs & Hp & Hnil & _ & Hh)].
    + exists rt1, 0%nat. split; [done|]. split; [|done]. left. split; [done|]. by apply quiet_failed.
    + destruct (Nat.eqb_spec q 0); [done|]. by apply (Hmake rt1 q s).
  - destruct (Nat.eqb_spec r 0); [done|]. cbn [negb]. destruct (dup_shape_spec rt c a r s Hok Hs Hh) as (rt1 & -> & Hok1 & Hq1 & Hs1). cbn [mbind option_bind]. by apply (Hmake rt1 r _ Hok1 Hq1 Hs1).
Qed.

Lemma JS_NewObjectProtoClassAlloc_spec rt c a proto n : ok rt c a ->
  exists rt' p, JS_NewObjectProtoClassAlloc mem rt proto n = Some (rt', p) /\ new_outcome rt rt' c a p proto [] /\
    (p <> 0%nat -> exists ob, objects rt' !! p = Some ob /\ (n <= length (o_prop ob))%nat).
Proof.
  intros Hok. unfold JS_NewObjectProtoClassAlloc. set (z := if (n <=? JS_PROP_INITIAL_SIZE)%nat then _ else _).
  assert (Hz : power2 z.2 /\ (n <= z.1)%nat) by (unfold z; destruct (Nat.leb_spec n JS_PROP_INITIAL_SIZE); cbn [fst snd]; (split; [|done]); [by exists 2%nat|by exists (S (Nat.log2 (n - 1)))]).
  destruct z as [m hs]. destruct Hz as [Hp2 Hn]. simpl in Hp2, Hn.
  destruct (new_shape_nohash_spec mem rt c a proto hs m Hok Hp2) as (rt1 & q & -> & Hq1 & _ & H1). destruct H1 as [(-> & Hok1 & Hm)|(Hq0 & Hlt & Hok1 & Hs)].
  { exists rt1, 0%nat. split; [done|]. split; [|done]. left. split; [done|]. by apply quiet_failed. }
  destruct (Nat.eqb_spec q 0); [done|]. destruct (JS_NewObjectFromShape_spec rt1 c a q _ Hok1 Hs) as (rt2 & p & -> & H2). exists rt2, p. split; [done|]. destruct H2 as [(-> & Hok2 & Hq2 & Hm)|(Hcr & Es & Eo)].
  - split; [|done]. left. split; [done|]. apply quiet_failed; [done|done|by eapply quiet_trans|done].
  - split; [right; eapply created_after; [exact Hok|exact Hok1|by right|done|done]|]. intros _. eexists. split; [exact Eo|]. cbn [o_prop sh_prop_size]. by rewrite length_replicate.
Qed.

(** ** Contents *)

Record rewritten rt rt' (c : list nat) (a : list Z) (o i : nat) (v : V) : Prop := {
  rw_ok : ok rt' c a;
  rw_spares : spares rt rt' c o;
  rw_freed : freed rt' = freed rt;
  rw_view : exists proto l atom f x, view rt o = Some (proto, l) /\ l !! i = Some (atom, f, x) /\ view rt' o = Some (proto, <[i := (atom, f, Some v)]> l);
  rw_exotic : o_is_exotic <$> objects rt' !! o = o_is_exotic <$> objects rt !! o;
  rw_table : in_table rt' o = in_table rt o;
}.

Lemma set_value_spec rt c a o ob s i pr v : ok rt c a -> objects rt !! o = Some ob -> shapes rt !! o_shape ob = Some s -> sh_prop s !! i = Some pr ->
  exists rt', set_value rt o i v = Some rt' /\ rewritten rt rt' c a o i v.
Proof.
  intros Hok Ho Hs Hi. destruct (prop_value rt c a o ob s i pr (proj2 Hok) Ho Hs Hi) as (x & Hx & Hraw). unfold set_value. rewrite Ho. cbn [mbind option_bind]. rewrite Hx. cbn [mbind option_bind]. eexists. split; [done|].
  set (ob' := set_o_prop ob _). set (rt' := put_object rt o ob'). pose proof (co_room _ _ _ (proj2 Hok) o ob s Ho Hs) as Hroom. destruct (co_obj _ _ _ (proj2 Hok) o ob Ho) as [Ho0 Hoc].
  assert (Ho' : objects rt' !! o = Some ob') by apply lookup_insert_eq.
  assert (Hoth : forall k, k <> o -> objects rt' !! k = objects rt !! k) by (intros k Hk; unfold rt'; cbn [objects put_object set_objects]; by rewrite lookup_insert_ne).
  assert (Hc' : core rt' c a).
  { pose proof (core_take_object rt c a o ob (proj2 Hok) Ho) as H1. pose proof (core_put_object _ c a o ob' s H1 ltac:(apply lookup_delete_eq) Ho0 Hoc Hs) as H2. rewrite put_taken0 in H2. apply H2. cbn [ob' o_prop set_o_prop]. by rewrite length_insert. }
  split; [split; [apply Hok|done]| |done| |by rewrite Ho', Ho|].
  - eapply (stable_spares_new 0); [exact Hok|done|done|by apply stable_same|done|done|by eapply shape_zero].
  - eexists _, _, _, _, _. split; [by apply (view_eq rt o ob s)|]. split; [exact Hraw|]. erewrite (view_eq rt' o ob' s Ho' Hs). cbn [ob' o_prop set_o_prop]. rewrite <- (list_insert_id (sh_prop s) i pr Hi) at 1.
    by rewrite raw_insert by (by eapply lookup_lt_Some).
  - by rewrite (in_table_eq rt o ob s Ho Hs), (in_table_eq rt' o ob' s Ho' Hs).
Qed.

(** ** Release *)

(** [o] is gone, with the contents of its properties. *)
Record released rt rt' (c : list nat) (a : list Z) (o : nat) : Prop := {
  rl_ok : ok rt' c a;
  rl_objects : objects rt' = delete o (objects rt);
  rl_views : forall k, k <> o -> view rt' k = view rt k;
  rl_freed : exists proto l, view rt o = Some (proto, l) /\ freed rt' = freed rt ++ ((fun x => (x.1.2, x.2)) <$> l);
  rl_clock : (clock rt <= clock rt')%nat;
  rl_kept : kept rt rt' c;
}.

Lemma free_properties rt l v : exists rt' fr, foldl (fun rt '(pr, v) => free_property rt v (sp_flags pr)) rt (zip l v) = rt' /\
  fr = freed rt ++ ((fun x : Z * Z * option V => (x.1.2, x.2)) <$> raw l v) /\
  rt' = mkRuntime (shape_hash_bits rt) (rt_shape_hash rt) (shape_hash_count rt) (shapes rt) (objects rt) (atoms rt) (proto_dups rt) (proto_frees rt) fr (clock rt).
Proof.
  revert rt v. induction l as [|pr l IH]; intros rt v; [exists rt, (freed rt); split_and!; [done|by rewrite app_nil_r|by destruct rt]|].
  destruct v as [|x v]; [exists rt, (freed rt); split_and!; [done|by rewrite app_nil_r|by destruct rt]|]. destruct (IH (free_property rt x (sp_flags pr)) v) as (rt' & fr & E & Ef & Ert). exists rt', fr. split_and!; [exact E| |exact Ert].
  rewrite Ef. simpl. by rewrite <- (assoc_L (++)).
Qed.

Lemma free_object_spec rt c a o ob s : ok rt c a -> objects rt !! o = Some ob -> shapes rt !! o_shape ob = Some s ->
  exists rt', free_object rt o = Some rt' /\ released rt rt' c a o.
Proof.
  intros Hok Ho Hs. unfold free_object. rewrite Ho. cbn [mbind option_bind]. rewrite Hs. cbn [mbind option_bind]. destruct (free_properties rt (sh_prop s) (o_prop ob)) as (rt1 & fr & -> & Ef & Ert).
  set (rt2 := set_objects rt1 (delete o (objects rt1))). assert (Eo1 : objects rt1 = objects rt) by by rewrite Ert. assert (Es1 : shapes rt1 = shapes rt) by by rewrite Ert. assert (Ec1 : clock rt1 = clock rt) by by rewrite Ert.
  assert (Hok2 : ok rt2 (o_shape ob :: c) a).
  { pose proof (core_take_object rt c a o ob (proj2 Hok) Ho) as H1. destruct Hok as [Ht _]. unfold rt2. rewrite Eo1. split.
    - unfold table_ok in *. rewrite Ert. exact Ht.
    - eapply core_alike; [exact H1| |..]; rewrite ?Ert; try done. intros p s0. cbn [shapes set_objects]. apply (co_single _ _ _ H1). }
  destruct (free_shape_spec rt2 c a (o_shape ob) Hok2) as (rt3 & -> & Hok3 & [P1 P2 P3 P4]). exists rt3. split; [done|]. cbn [rt2 objects set_objects freed clock] in P1, P2, P3. rewrite Eo1 in P1.
  assert (Hst : stable 0 rt rt3) by (intros q t Hq Hlt Hqt; destruct (P4 q t Hq) as (t0 & Ht0 & Hl); [cbn [rt2 clock set_objects]; lia|done|]; exists t0; split; [|done]; by rewrite <- Es1).
  split; [done|done| | |lia|].
  - intros k Hne. eapply (view_stable 0 rt rt3); [exact Hok|apply Hok3|done|by rewrite P1, lookup_delete_ne|]. apply (dead_shape rt c a 0 (proj2 Hok)). by eapply shape_zero.
  - eexists _, _. split; [by apply (view_eq rt o ob s)|]. by rewrite P2, <- Ef, Ert.
  - eapply (stable_kept 0); [exact Hok|apply Hok3|done|]. intros q Hq. split; [done|]. intros ->. by destruct (dead_shape rt c a 0 (proj2 Hok) (shape_zero _ _ _ Hok)).
Qed.
End create.
