(* ===== verification/Presize.v ===== *)
(** * Constructors that create their fields at once

    [js_ctor_presize_new_this] gives an instance all its fields from a cached
    shape.  The instance is the one that adding the fields one by one makes,
    and it is used only where a store to a field would add a property. *)
From S2P Require Import Prelude Native Chains Shapes ShapeTable ShapesProps ShapesOps ObjectProps ObjectChange Objects.

(** ** The number of bits of the table

    Only the creation of a shape makes the table larger. *)

(** Follows a computation that returned a value. *)
Ltac unbind E :=
  repeat lazymatch type of E with
  | mbind _ ?x = Some _ => let Ex := fresh "Ex" in destruct x eqn:Ex; [cbn [mbind option_bind] in E|discriminate E]
  | (if ?b then _ else _) = Some _ => destruct b eqn:?
  | (let '(_, _) := ?x in _) = Some _ => destruct x eqn:?
  | match ?x with Some _ => _ | None => _ end = Some _ => destruct x eqn:?
  | None = Some _ => discriminate E
  | Some _ = Some _ => injection E; clear E; intros; subst
  end.

Section bits.
Context {V A : Type} `{AtomStore A} (mem : nat -> bool) (addr : nat -> Z) (undefined : V).
Implicit Types rt : JSRuntime V A.

Lemma link_bits rt p rt' : js_shape_hash_link rt p = Some rt' -> shape_hash_bits rt' = shape_hash_bits rt.
Proof. unfold js_shape_hash_link. intros E. by unbind E. Qed.

Lemma unlink_shape_bits fuel rt p h rt' : forall prev cur, unlink_shape fuel rt p h prev cur = Some rt' -> shape_hash_bits rt' = shape_hash_bits rt.
Proof. induction fuel as [|fuel IH]; intros prev cur E; [done|]. cbn [unlink_shape] in E. unbind E; [done|done|]. by eapply IH. Qed.

Lemma unlink_bits rt p rt' : js_shape_hash_unlink rt p = Some rt' -> shape_hash_bits rt' = shape_hash_bits rt.
Proof. unfold js_shape_hash_unlink. intros E. unbind E. by eapply unlink_shape_bits. Qed.

Lemma free_proto_bits rt p : shape_hash_bits (free_proto rt p) = shape_hash_bits rt.
Proof. unfold free_proto. by destruct (_ =? _)%nat. Qed.

Lemma dup_proto_bits rt p : shape_hash_bits (dup_proto rt p) = shape_hash_bits rt.
Proof. unfold dup_proto. by destruct (_ =? _)%nat. Qed.

Lemma unlink_if_bits (b : bool) rt p rt' : (if b then js_shape_hash_unlink rt p else Some rt) = Some rt' -> shape_hash_bits rt' = shape_hash_bits rt.
Proof. destruct b; [apply unlink_bits|by intros [= <-]]. Qed.

Lemma link_if_bits (b : bool) rt p rt' : (if b then js_shape_hash_link rt p else Some rt) = Some rt' -> shape_hash_bits rt' = shape_hash_bits rt.
Proof. destruct b; [apply link_bits|by intros [= <-]]. Qed.

Lemma free_shape_bits rt p rt' : js_free_shape rt p = Some rt' -> shape_hash_bits rt' = shape_hash_bits rt.
Proof.
  unfold js_free_shape, js_free_shape0. intros E. unbind E; [|done]. cbn [shape_hash_bits set_shapes set_atoms]. rewrite free_proto_bits. exact (unlink_if_bits _ _ _ _ Ex1).
Qed.

Lemma clone_bits rt p rt' q : js_clone_shape mem rt p = Some (rt', q) -> shape_hash_bits rt' = shape_hash_bits rt.
Proof. unfold js_clone_shape, js_malloc. intros E. unbind E; [done|]. cbn [shape_hash_bits set_atoms]. by rewrite dup_proto_bits. Qed.

Lemma resize_properties_bits rt p o n rt' q : resize_properties mem rt p (Some o) n = Some (rt', q) -> shape_hash_bits rt' = shape_hash_bits rt.
Proof.
  unfold resize_properties, js_malloc, set_owner. intros E. destruct (shapes rt !! p) as [s|]; [|done]. cbn [mbind option_bind] in E.
  destruct ((if mem (clock rt) then clock rt else 0) =? 0)%nat; cbn [mbind option_bind negb] in E; [by injection E as <- <-|]. destruct (objects (tick rt) !! o); [|done]. cbn [mbind option_bind negb] in E.
  unbind E; try done. match goal with Ey : mbind _ _ = Some _ |- _ => unbind Ey end. done.
Qed.

Lemma add_shape_property_bits rt p o atom flags rt' q : add_shape_property mem rt p (Some o) atom flags = Some (rt', q) -> shape_hash_bits rt' = shape_hash_bits rt.
Proof.
  unfold add_shape_property. intros E. destruct (shapes rt !! p) as [s|]; [|done]. cbn [mbind option_bind] in E.
  destruct (if sh_is_hashed s then _ else _) as [rt1|] eqn:E1; [|done]. cbn [mbind option_bind] in E. apply unlink_if_bits in E1. rewrite <- E1. clear E1.
  destruct (if (sh_prop_size s <=? prop_count s)%nat then _ else _) as [[rt2 q2]|] eqn:E2; [|done]. cbn [mbind option_bind] in E.
  assert (Eb : shape_hash_bits rt2 = shape_hash_bits rt1) by (destruct (_ <=? _)%nat; [by eapply resize_properties_bits|by injection E2 as <- <-]). rewrite <- Eb. clear Eb E2. unbind E.
  - by eapply link_if_bits.
  - cbn [shape_hash_bits put_shape set_shapes set_atoms]. destruct (sh_is_hashed s); unbind Ex; [by apply link_bits in Ex|done].
Qed.

Lemma add_property_bits rt o atom flags rt' r : add_property mem rt o atom flags = Some (rt', r) -> shape_hash_bits rt' = shape_hash_bits rt.
Proof.
  unfold add_property. intros E. destruct (objects rt !! o) as [ob|]; [|done]. cbn [mbind option_bind] in E. destruct (shapes rt !! o_shape ob) as [s|] eqn:Es; [|done]. cbn [mbind option_bind] in E.
  assert (Hadd : forall rt1 p rt2 r2, (s ← shapes rt1 !! p; if negb (sh_ref_count s =? 1) then None else '(rt, q) ← add_shape_property mem rt1 p (Some o) atom flags;
      if (q =? 0)%nat then Some (rt, None) else s ← shapes rt !! q; Some (rt, Some (prop_count s - 1)%nat)) = Some (rt2, r2) -> shape_hash_bits rt2 = shape_hash_bits rt1).
  { intros rt1 p rt2 r2 E2. unbind E2; by eapply add_shape_property_bits. }
  assert (Hp : (if negb (sh_ref_count s =? 1) then None else '(rt, q) ← add_shape_property mem rt (o_shape ob) (Some o) atom flags;
      if (q =? 0)%nat then Some (rt, None) else s ← shapes rt !! q; Some (rt, Some (prop_count s - 1)%nat)) = Some (rt', r) -> shape_hash_bits rt' = shape_hash_bits rt).
  { intros E2. apply (Hadd rt (o_shape ob) rt' r). rewrite Es. exact E2. }
  destruct (sh_is_hashed s); [|by apply Hp]. destruct (find_hashed_shape_prop rt s atom flags) as [new|]; [|done]. cbn [mbind option_bind] in E. destruct (negb (new =? 0)%nat).
  - destruct (shapes rt !! new) as [s'|]; [|done]. cbn [mbind option_bind] in E. destruct (if negb (sh_prop_size s' =? sh_prop_size s)%nat then _ else _) as [rt1 b] eqn:E1.
    assert (Eb : shape_hash_bits rt1 = shape_hash_bits rt) by (unfold js_malloc in E1; destruct (negb _); [destruct (_ =? 0)%nat|]; by injection E1 as <- <-). rewrite <- Eb. unfold js_dup_shape in E. unbind E; [done|].
    match goal with Ef : js_free_shape _ _ = Some _ |- _ => apply free_shape_bits in Ef; rewrite Ef end. match goal with Ed : mbind _ _ = Some _ |- _ => unbind Ed end. done.
  - destruct (negb _); [|by apply Hp]. destruct (js_clone_shape mem rt (o_shape ob)) as [[rt1 q]|] eqn:E1; [|done]. cbn [mbind option_bind] in E. apply clone_bits in E1. rewrite <- E1. destruct (_ =? 0)%nat; [by injection E as <- <-|].
    destruct (shapes rt1 !! q) as [s1|]; [|done]. cbn [mbind option_bind] in E. destruct (js_shape_hash_link _ q) as [rt2|] eqn:E2; [|done]. cbn [mbind option_bind] in E. apply link_bits in E2. cbn [shape_hash_bits put_shape set_shapes] in E2. rewrite <- E2.
    destruct (js_free_shape rt2 _) as [rt3|] eqn:E3; [|done]. cbn [mbind option_bind] in E. apply free_shape_bits in E3. rewrite <- E3. by apply Hadd in E.
Qed.

Lemma add_fields_bits fields : forall rt o rt' b, add_fields mem undefined rt o fields = Some (rt', b) -> shape_hash_bits rt' = shape_hash_bits rt.
Proof.
  induction fields as [|f fields IH]; intros rt o rt' b E; cbn [add_fields] in E; [by injection E as <- <-|].
  destruct (add_property mem rt o f JS_PROP_C_W_E) as [[rt1 r]|] eqn:E1; [|done]. cbn [mbind option_bind] in E. apply add_property_bits in E1. rewrite <- E1. destruct r as [i|]; [|by injection E as <- <-].
  destruct (set_value rt1 o i undefined) as [rt2|] eqn:E2; [|done]. cbn [mbind option_bind] in E. apply IH in E. rewrite E. unfold set_value in E2. by unbind E2.
Qed.

Lemma free_object_bits rt o rt' : free_object rt o = Some rt' -> shape_hash_bits rt' = shape_hash_bits rt.
Proof.
  unfold free_object. intros E. unbind E. apply free_shape_bits in E. rewrite E. cbn [shape_hash_bits set_objects]. destruct (free_properties rt (sh_prop j0) (o_prop j)) as (rt1 & fr & -> & _ & ->). done.
Qed.

Lemma from_shape_bits rt p rt' q : JS_NewObjectFromShape mem rt p = Some (rt', q) -> shape_hash_bits rt' = shape_hash_bits rt.
Proof. unfold JS_NewObjectFromShape, js_malloc. intros E. unbind E; [by apply free_shape_bits in Ex0|by apply free_shape_bits in Ex0|done]. Qed.

Lemma new_shape_bits rt proto rt' q : js_new_shape mem addr rt proto = Some (rt', q) -> shape_hash_bits rt' <= shape_hash_bits rt + 1.
Proof.
  unfold js_new_shape, js_new_shape2. intros E. destruct (if _ <? _ then _ else _) as [rt1|] eqn:E1; [|done]. cbn [mbind option_bind] in E.
  assert (Hb : shape_hash_bits rt1 <= shape_hash_bits rt + 1) by (destruct (_ <? _); [unfold resize_shape_hash, js_malloc in E1|]; unbind E1; simpl; lia).
  unfold js_new_shape_nohash, js_malloc in E. destruct ((if mem (clock rt1) then clock rt1 else 0) =? 0)%nat; [injection E as <- <-; simpl; lia|].
  destruct (_ =? 0)%nat in E; [injection E as <- <-; cbn [shape_hash_bits put_shape set_shapes]; rewrite dup_proto_bits; simpl; lia|]. unbind E. match goal with Ef : js_shape_hash_link _ _ = Some _ |- _ => apply link_bits in Ef; rewrite Ef end.
  cbn [shape_hash_bits put_shape set_shapes]. rewrite dup_proto_bits. simpl. lia.
Qed.

Lemma new_object_bits rt proto rt' q : JS_NewObjectProtoClass mem addr rt proto = Some (rt', q) -> shape_hash_bits rt' <= shape_hash_bits rt + 1.
Proof.
  unfold JS_NewObjectProtoClass, js_dup_shape. intros E. destruct (find_hashed_shape_proto addr rt proto) as [r|]; [|done]. cbn [mbind option_bind] in E. destruct (negb _).
  - destruct (shapes rt !! r) as [s|]; [|done]. cbn [mbind option_bind] in E. apply from_shape_bits in E. rewrite E. simpl. lia.
  - destruct (js_new_shape mem addr rt proto) as [[rt1 p]|] eqn:E1; [|done]. cbn [mbind option_bind] in E. apply new_shape_bits in E1. destruct (_ =? 0)%nat; [by injection E as <- <-|]. apply from_shape_bits in E. lia.
Qed.
End bits.

Section presize.
Context {V A : Type} `{AtomLaws A} (mem : nat -> bool) (addr : nat -> Z) (undefined : V).
Implicit Types rt : JSRuntime V A.

(** ** Adding the fields one by one *)

Definition field_props (fields : list Z) : list (Z * Z * option V) := (fun f => (f, JS_PROP_C_W_E, Some undefined)) <$> fields.

Definition atom_in (l : list (Z * Z * option V)) (atom : Z) : Prop := exists f x, (atom, f, x) ∈ l.

Lemma view_inv rt c a o proto l : core rt c a -> view rt o = Some (proto, l) ->
  exists ob s, objects rt !! o = Some ob /\ shapes rt !! o_shape ob = Some s /\ sh_proto s = proto /\ raw (sh_prop s) (o_prop ob) = l /\ prop_count s = length l.
Proof.
  intros Hc Hv. unfold view in Hv. destruct (objects rt !! o) as [ob|] eqn:Ho; [|done]. cbn [mbind option_bind] in Hv. destruct (shapes rt !! o_shape ob) as [s|] eqn:Hs; [|done]. cbn [mbind option_bind] in Hv.
  injection Hv as <- <-. exists ob, s. split_and!; try done. symmetry. by eapply raw_length.
Qed.

Lemma raw_found rt c a o ob s atom : core rt c a -> objects rt !! o = Some ob -> shapes rt !! o_shape ob = Some s -> ~ atom_in (raw (sh_prop s) (o_prop ob)) atom -> found (sh_prop s) atom None.
Proof.
  intros Hc Ho Hs Hn i pr Hi E. destruct (prop_value rt c a o ob s i pr Hc Ho Hs Hi) as (x & _ & Hr). destruct Hn. exists (sp_flags pr), x. rewrite <- E. by eapply list_elem_of_lookup_2.
Qed.

Lemma cwe_range : 0 <= JS_PROP_C_W_E < 64.
Proof. done. Qed.

Lemma insert_last {X} (l : list X) x y : <[length l := y]> (l ++ [x]) = l ++ [y].
Proof. rewrite insert_app_r_alt by done. by rewrite Nat.sub_diag. Qed.

(** One field. *)
Lemma add_field_spec rt c a o proto l f : ok rt c a -> view rt o = Some (proto, l) -> Z.of_nat (length l) + 1 < 2 ^ 26 -> f <> 0 -> ~ atom_in l f -> f ∈ a ->
  exists rt1 r, add_property mem rt o f JS_PROP_C_W_E = Some (rt1, r) /\
    match r with
    | None => failed mem rt rt1 c a
    | Some i => exists rt2, set_value rt1 o i undefined = Some rt2 /\ ok rt2 c a /\ spares rt rt2 c o /\ freed rt2 = freed rt /\ view rt2 o = Some (proto, l ++ field_props [f]) /\ in_table rt2 o = in_table rt o /\
        o_is_exotic <$> objects rt2 !! o = o_is_exotic <$> objects rt !! o
    end.
Proof.
  intros Hok Hv Hmax Hf Hn Hin. destruct (view_inv rt c a o proto l (proj2 Hok) Hv) as (ob & s & Ho & Hs & Hp & Hl & Hcnt).
  assert (Hfd : found (sh_prop s) f None) by (eapply raw_found; [apply Hok|exact Ho|exact Hs|by rewrite Hl]).
  destruct (add_property_spec mem rt c a o ob s f JS_PROP_C_W_E Hok Ho Hs ltac:(rewrite Hcnt; lia) Hf Hfd Hin cwe_range) as (rt1 & r & E & Hr). exists rt1, r. split; [done|]. destruct r as [i|]; [|done].
  destruct Hr as [Hok1 Hsp1 Hfr1 (p1 & l1 & x & Hv0 & Hv1 & Hi) Hex1 Htb1]. rewrite Hv in Hv0. injection Hv0 as <- <-. subst i.
  destruct (view_inv rt1 c a o _ _ (proj2 Hok1) Hv1) as (ob1 & s1 & Ho1 & Hs1 & _ & Hl1 & Hcnt1). rewrite length_app in Hcnt1. cbn [length] in Hcnt1.
  destruct (lookup_lt_is_Some_2 (sh_prop s1) (length l)) as [pr Hpr]; [unfold prop_count in Hcnt1; lia|].
  destruct (set_value_spec rt1 c a o ob1 s1 (length l) pr undefined Hok1 Ho1 Hs1 Hpr) as (rt2 & -> & [Hok2 Hsp2 Hfr2 (p2 & l2 & at2 & f2 & x2 & Hv2 & Hl2 & Hv2') Hex2 Htb2]).
  exists rt2. split; [done|]. rewrite Hv1 in Hv2. injection Hv2 as <- <-. rewrite list_lookup_middle in Hl2 by done. injection Hl2 as <- <- <-. rewrite insert_last in Hv2'.
  split_and!; [done|by eapply spares_trans|congruence|done|congruence|congruence].
Qed.

Lemma add_fields_spec fields : forall rt c a o proto l, ok rt c a -> view rt o = Some (proto, l) -> Z.of_nat (length l + length fields) < 2 ^ 26 ->
  Forall (fun f => f <> 0 /\ ~ atom_in l f /\ f ∈ a) fields -> NoDup fields ->
  exists rt' b d, add_fields mem undefined rt o fields = Some (rt', b) /\ ok rt' c a /\ spares rt rt' c o /\ freed rt' = freed rt /\ view rt' o = Some (proto, l ++ field_props d) /\
    o_is_exotic <$> objects rt' !! o = o_is_exotic <$> objects rt !! o /\
    if b : bool then d = fields /\ in_table rt' o = in_table rt o else short mem.
Proof.
  induction fields as [|f fields IH]; intros rt c a o proto l Hok Hv Hmax Hf Hnd; cbn [add_fields length] in *.
  { exists rt, true, []. rewrite app_nil_r. split_and!; try done. apply spares_refl. }
  apply Forall_cons in Hf as [(Hf0 & Hfl & Hfa) Hf]. apply NoDup_cons in Hnd as [Hnf Hnd].
  destruct (add_field_spec rt c a o proto l f Hok Hv ltac:(lia) Hf0 Hfl Hfa) as (rt1 & r & -> & Hr). cbn [mbind option_bind]. destruct r as [i|].
  - destruct Hr as (rt2 & -> & Hok2 & Hsp2 & Hfr2 & Hv2 & Htb2 & Hex2). cbn [mbind option_bind].
    destruct (IH rt2 c a o proto _ Hok2 Hv2) as (rt3 & b & d & -> & Hok3 & Hsp3 & Hfr3 & Hv3 & Hex3 & Hb); [rewrite length_app; simpl; lia| |done|].
    { apply Forall_forall. intros g Hg. rewrite Forall_forall in Hf. destruct (Hf g Hg) as (? & Hn & ?). split_and!; [done| |done]. intros (fl & x & Hin). apply elem_of_app in Hin as [Hin|Hin]; [apply Hn; by exists fl, x|].
      cbn [field_props fmap list_fmap] in Hin. apply list_elem_of_singleton in Hin. injection Hin as -> _ _. done. }
    exists rt3, b, (f :: d). split_and!; try done; [by eapply spares_trans|congruence| |congruence|destruct b; [destruct Hb as [-> ?]; split; [done|congruence]|done]].
    rewrite Hv3, <- (assoc_L (++)). done.
  - destruct Hr as [F1 F2 F3]. pose proof F2 as [S1 S2 S3 S4 S5]. exists rt1, false, []. rewrite app_nil_r, S1. by split_and!.
Qed.

(** ** The cached shape *)

Definition field_names (fields : list Z) : list (Z * Z) := (fun f => (f, JS_PROP_C_W_E)) <$> fields.

(** What the cache of the constructor holds. *)
Definition cache_ok rt (cp : JSCtorPresize) : Prop :=
  cp_cached_shape cp <> 0%nat -> exists s, shapes rt !! cp_cached_shape cp = Some s /\ sh_is_hashed s = true /\ names (sh_prop s) = field_names (cp_fields cp).

Definition cache_refs (cp : JSCtorPresize) : list nat := if (cp_cached_shape cp =? 0)%nat then [] else [cp_cached_shape cp].

(** The contents of the fields of the objects made and dropped on the way. *)
Definition only_undefined (l : list (Z * option V)) : Prop := Forall (fun x => x = (JS_PROP_C_W_E, Some undefined)) l.

Lemma field_props_freed d : only_undefined ((fun x => (x.1.2, x.2)) <$> field_props d).
Proof. unfold only_undefined, field_props. apply Forall_fmap, Forall_fmap. apply Forall_forall. done. Qed.

Lemma names_raw l (v : list (option V)) : (length l <= length v)%nat -> names l = (fun x => (x.1.1, x.1.2)) <$> raw l v.
Proof. revert v. induction l as [|pr l IH]; intros [|x v] Hl; simpl in *; try done; [lia|]. unfold names in *. cbn [fmap list_fmap]. f_equal. apply IH. lia. Qed.

(** Releasing the throwaway object. *)
Lemma drop_object rt rt1 c c0 a o proto l : ok rt1 c a -> objects rt !! o = None -> spares rt rt1 c0 o -> view rt1 o = Some (proto, l) ->
  exists rt2, free_object rt1 o = Some rt2 /\ ok rt2 c a /\ (forall k, view rt2 k = view rt k) /\ (forall k, o_is_exotic <$> objects rt2 !! k = o_is_exotic <$> objects rt !! k) /\ (clock rt <= clock rt2)%nat /\
    freed rt2 = freed rt1 ++ ((fun x => (x.1.2, x.2)) <$> l) /\ kept rt1 rt2 c.
Proof.
  intros Hok1 Hn [A1 A2 A3 A4] Hv. destruct (view_inv rt1 c a o proto l (proj2 Hok1) Hv) as (ob & s & Ho & Hs & _).
  destruct (free_object_spec rt1 c a o ob s Hok1 Ho Hs) as (rt2 & E & [L1 L2 L3 (p2 & l2 & L4 & L5) L6 L7]). exists rt2. split; [done|]. rewrite Hv in L4. injection L4 as <- <-. split_and!; [done| | |lia|done|done].
  - intros k. destruct (decide (k = o)) as [->|Hne]; [|by rewrite L3, A1]. unfold view. by rewrite L2, lookup_delete_eq, Hn.
  - intros k. destruct (decide (k = o)) as [->|Hne]; [by rewrite L2, lookup_delete_eq, Hn|]. by rewrite L2, lookup_delete_ne, A2.
Qed.

Lemma cache_kept rt rt' c cp : cache_ok rt cp -> kept rt rt' (cache_refs cp ++ c) -> cache_ok rt' cp.
Proof.
  intros Hc Hk Hn. destruct (Hc Hn) as (s & Hs & Hh & Hnm). destruct (Hk (cp_cached_shape cp) s) as (s' & Hs' & L1 & L2 & L3 & L4); [|done|exists s'; split_and!; [done|congruence|congruence]].
  unfold cache_refs. destruct (Nat.eqb_spec (cp_cached_shape cp) 0); [done|]. by left.
Qed.

(** The outcome of a step that makes and drops objects. *)
Record same_heap rt rt' : Prop := {
  sm_view : forall k, view rt' k = view rt k;
  sm_exotic : forall k, o_is_exotic <$> objects rt' !! k = o_is_exotic <$> objects rt !! k;
  sm_clock : (clock rt <= clock rt')%nat;
  sm_freed : exists fr, freed rt' = freed rt ++ fr /\ only_undefined fr;
}.

Lemma silent_same rt rt' c : silent rt rt' c -> same_heap rt rt'.
Proof. intros [S1 S2 S3 S4 S5]. split; [done|done|done|]. exists []. rewrite app_nil_r. split; [done|by apply Forall_nil]. Qed.

Definition good_fields (a : list Z) (fields : list Z) : Prop := Forall (fun f => f <> 0 /\ f ∈ a) fields /\ NoDup fields /\ Z.of_nat (length fields) < 2 ^ 26.

Lemma view_names rt c a o proto fields : core rt c a -> view rt o = Some (proto, field_props fields) ->
  exists ob s, objects rt !! o = Some ob /\ shapes rt !! o_shape ob = Some s /\ sh_proto s = proto /\ names (sh_prop s) = field_names fields.
Proof.
  intros Hc Hv. destruct (view_inv rt c a o proto _ Hc Hv) as (ob & s & Ho & Hs & Hp & Hr & Hn). exists ob, s. split_and!; try done.
  pose proof (sk_room _ (co_shape _ _ _ Hc _ s Hs)). pose proof (co_room _ _ _ Hc o ob s Ho Hs). unfold prop_count in *. rewrite (names_raw _ (o_prop ob)) by lia. rewrite Hr. unfold field_props, field_names. by rewrite <- list_fmap_compose.
Qed.

(** The reference of the cache moves to the shape of the object [tp]. *)
Lemma recache_spec rt c a cp tp proto : ok rt (cache_refs cp ++ c) a -> view rt tp = Some (proto, field_props (cp_fields cp)) -> in_table rt tp = Some true ->
  exists rt1 ob rt2, (if (cp_cached_shape cp =? 0)%nat then Some rt else js_free_shape rt (cp_cached_shape cp)) = Some rt1 /\ objects rt1 !! tp = Some ob /\ js_dup_shape rt1 (o_shape ob) = Some rt2 /\
    ok rt2 (o_shape ob :: c) a /\ quiet rt rt2 /\ o_shape ob <> 0%nat /\ shape_hash_bits rt2 = shape_hash_bits rt /\
    exists s, shapes rt2 !! o_shape ob = Some s /\ sh_is_hashed s = true /\ sh_proto s = proto /\ names (sh_prop s) = field_names (cp_fields cp).
Proof.
  intros Hok Hv Htab. destruct (view_names rt _ a tp proto _ (proj2 Hok) Hv) as (ob & s & Ho & Hs & Hp & Hnm). rewrite (in_table_eq rt tp ob s Ho Hs) in Htab. injection Htab as Hh.
  assert (H1 : exists rt1, (if (cp_cached_shape cp =? 0)%nat then Some rt else js_free_shape rt (cp_cached_shape cp)) = Some rt1 /\ ok rt1 c a /\ quiet rt rt1 /\ shape_hash_bits rt1 = shape_hash_bits rt).
  { unfold cache_refs in Hok. destruct (cp_cached_shape cp =? 0)%nat; [exists rt; split_and!; [done|done|apply quiet_refl|done]|].
    destruct (free_shape_spec rt c a _ Hok) as (rt1 & E & Hok1 & Hq1). exists rt1. split_and!; [done|done|done|by eapply free_shape_bits]. }
  destruct H1 as (rt1 & -> & Hok1 & Hq1 & Hb1). destruct (st_addr _ _ _ _ _ (proj1 Hok) _ s Hs) as (Hs0 & Hsc & _).
  assert (Ho1 : objects rt1 !! tp = Some ob) by (by rewrite (qu_objects _ _ Hq1)). destruct (obj_shape_live rt1 c a tp ob (proj2 Hok1) Ho1) as [s1 Hs1].
  destruct (qu_stable _ _ Hq1 _ s1 Hs0 Hsc Hs1) as (s0 & Es0 & L1 & L2 & L3 & L4). assert (s0 = s) as -> by congruence.
  destruct (dup_shape_spec rt1 c a _ s1 Hok1 Hs1 ltac:(congruence)) as (rt2 & E2 & Hok2 & Hq2 & Hs2). exists rt1, ob, rt2. split_and!; try done; [by eapply quiet_trans| |].
  - unfold js_dup_shape in E2. rewrite Hs1 in E2. injection E2 as <-. done.
  - eexists. split; [exact Hs2|]. cbn [sh_is_hashed sh_proto sh_prop set_ref]. split_and!; congruence.
Qed.

Lemma presize_build_spec rt c a cp proto : ok rt (cache_refs cp ++ c) a -> cache_ok rt cp -> good_fields a (cp_fields cp) -> shape_hash_bits rt < 32 ->
  exists rt' cp' q, js_ctor_presize_build_shape mem addr undefined rt cp proto = Some (rt', cp', q) /\ cp_fields cp' = cp_fields cp /\ ok rt' (cache_refs cp' ++ c) a /\ cache_ok rt' cp' /\ kept rt rt' c /\
    same_heap rt rt' /\ shape_hash_bits rt' <= shape_hash_bits rt + 1 /\
    (q = 0%nat /\ short mem \/ q <> 0%nat /\ q = cp_cached_shape cp' /\ exists s, shapes rt' !! q = Some s /\ sh_proto s = proto).
Proof.
  intros Hok Hca (Hf & Hnd & Hlen) Hb. unfold js_ctor_presize_build_shape.
  assert (Hhit : exists hit : bool, (if (cp_cached_shape cp =? 0)%nat then Some false else s ← shapes rt !! cp_cached_shape cp; Some (sh_proto s =? proto)%nat) = Some hit /\
    (hit = true -> cp_cached_shape cp <> 0%nat /\ exists s, shapes rt !! cp_cached_shape cp = Some s /\ sh_proto s = proto)).
  { destruct (Nat.eqb_spec (cp_cached_shape cp) 0) as [E|E]; [by exists false|]. destruct (Hca E) as (s & Hs & _). rewrite Hs. cbn [mbind option_bind]. exists (sh_proto s =? proto)%nat. split; [done|].
    destruct (Nat.eqb_spec (sh_proto s) proto); [|done]. intros _. split; [done|]. by exists s. }
  destruct Hhit as (hit & -> & Hhit). cbn [mbind option_bind]. destruct hit.
  { destruct (Hhit eq_refl) as [Hn Hs]. exists rt, cp, (cp_cached_shape cp). split_and!; try done; [apply kept_refl|eapply silent_same, (silent_refl _ c)|lia|]. right. by split_and!. }
  destruct (JS_NewObjectProtoClass_spec mem addr rt (cache_refs cp ++ c) a proto Hok Hb) as (rt1 & tp & E1 & H1 & Htab). rewrite E1. cbn [mbind option_bind]. apply new_object_bits in E1 as Hb1.
  assert (Hkc : forall r1 r2 : JSRuntime V A, kept r1 r2 (cache_refs cp ++ c) -> kept r1 r2 c) by (intros r1 r2 Hk q s Hq; apply Hk, elem_of_app; by right).
  destruct H1 as [(-> & [F1 F2 F3])|[Hok1 [Htp Hfresh] Hsp1 Hfr1 Hv1 _]].
  { exists rt1, cp, 0%nat. split_and!; try done; [eapply cache_kept; [done|apply F2]|apply Hkc, F2|by eapply silent_same|by left]. }
  destruct (Nat.eqb_spec tp 0); [done|].
  destruct (add_fields_spec (cp_fields cp) rt1 (cache_refs cp ++ c) a tp proto [] Hok1 Hv1) as (rt2 & b & d & E2 & Hok2 & Hsp2 & Hfr2 & Hv2 & _ & Hb2); [simpl; lia| |done|].
  { eapply Forall_impl; [exact Hf|]. intros f [? ?]. split_and!; [done| |done]. by intros (? & ? & ?%elem_of_nil). }
  rewrite E2. cbn [mbind option_bind]. apply add_fields_bits in E2 as Eb2. simpl in Hv2. pose proof (spares_trans _ _ _ _ _ Hsp1 Hsp2) as Hsp. destruct b; cbn [negb].
  - destruct Hb2 as [-> Htab2]. rewrite Htab in Htab2 by done. destruct (recache_spec rt2 c a cp tp proto Hok2 Hv2 Htab2) as (rt3 & ob & rt4 & -> & Ho3 & E4 & Hok4 & Hq4 & Hq0 & Eb4 & s4 & Hs4 & Hh4 & Hp4 & Hnm4).
    cbn [mbind option_bind]. rewrite Ho3. cbn [mbind option_bind]. rewrite E4. cbn [mbind option_bind].
    assert (Hk4 : kept rt2 rt4 c).
    { eapply (stable_kept 0); [exact Hok2|apply Hok4|apply Hq4|]. intros q Hq. split; [by right|]. intros ->. destruct (dead_shape rt2 _ a 0 (proj2 Hok2) (shape_zero _ _ _ Hok2)) as [Hn _]. apply Hn, elem_of_app. by right. }
    assert (Hsp4 : spares rt rt4 c tp).
    { destruct Hsp as [S1 S2 S3 S4]. split; [|intros k Hk; by rewrite (qu_objects _ _ Hq4), S2|pose proof (qu_clock _ _ Hq4); lia|by eapply kept_trans; [apply Hkc|]].
      intros k Hk. rewrite <- S1 by done. eapply quiet_view; [exact Hok2|apply Hok4|done]. }
    assert (Hv4 : view rt4 tp = Some (proto, field_props (cp_fields cp))) by (rewrite <- Hv2; eapply quiet_view; [exact Hok2|apply Hok4|done]).
    destruct (drop_object rt rt4 (o_shape ob :: c) c a tp _ _ Hok4 Hfresh Hsp4 Hv4) as (rt5 & E5 & Hok5 & V1 & V2 & V3 & V4 & V5). rewrite E5. cbn [mbind option_bind]. apply free_object_bits in E5 as Eb5.
    destruct (V5 _ s4 ltac:(by left) Hs4) as (s5 & Hs5 & L1 & L2 & L3 & L4). eexists rt5, _, (o_shape ob). split; [done|]. cbn [cp_fields cp_cached_shape]. split_and!; [done| | | | |lia|].
    + unfold cache_refs. cbn [cp_cached_shape]. destruct (Nat.eqb_spec (o_shape ob) 0); [done|]. exact Hok5.
    + intros _. cbn [cp_fields cp_cached_shape]. exists s5. split_and!; [done|congruence|congruence].
    + eapply kept_trans; [apply Hsp4|]. intros q s Hq. apply V5. by right.
    + split; [done|done|done|]. eexists. split; [|apply (field_props_freed (cp_fields cp))]. rewrite V4, (qu_freed _ _ Hq4), Hfr2, Hfr1. done.
    + right. split_and!; [done|done|]. exists s5. split; [done|congruence].
  - destruct (drop_object rt rt2 _ _ a tp _ _ Hok2 Hfresh Hsp Hv2) as (rt5 & E5 & Hok5 & V1 & V2 & V3 & V4 & V5). rewrite E5. cbn [mbind option_bind]. apply free_object_bits in E5 as Eb5.
    pose proof (kept_trans _ _ _ _ (sp_kept _ _ _ _ Hsp) V5) as Hk. exists rt5, cp, 0%nat. split_and!; try done; [by eapply cache_kept|by apply Hkc| |lia|by left].
    split; [done|done|done|]. eexists. split; [|apply (field_props_freed d)]. by rewrite V4, Hfr2, Hfr1.
Qed.

(** ** The check of the prototype chain *)

Inductive proto_chain rt : nat -> list nat -> Prop :=
| proto_chain_nil : proto_chain rt 0 []
| proto_chain_cons p ob s l : p <> 0%nat -> objects rt !! p = Some ob -> shapes rt !! o_shape ob = Some s -> proto_chain rt (sh_proto s) l -> proto_chain rt p (p :: l).

Lemma proto_chain_fun rt p l : proto_chain rt p l -> forall l', proto_chain rt p l' -> l' = l.
Proof.
  induction 1 as [|p ob s l Hp Ho Hs Hl IH]; intros l' H'; inversion H'; subst; try done. f_equal. apply IH. congruence.
Qed.

Lemma proto_chain_suffix rt p l : proto_chain rt p l -> forall l1 q l2, l = l1 ++ q :: l2 -> proto_chain rt q (q :: l2).
Proof.
  induction 1 as [|p ob s l Hp Ho Hs Hl IH]; intros l1 q l2 E; [by destruct l1|]. destruct l1 as [|x l1]; simplify_eq/=; [by econstructor|by eapply IH].
Qed.

Lemma proto_chain_NoDup rt p l : proto_chain rt p l -> NoDup l.
Proof.
  induction 1 as [|p ob s l Hp Ho Hs Hl IH]; [constructor|]. constructor; [|done]. intros Hin. apply list_elem_of_split in Hin as (l1 & l2 & ->).
  pose proof (proto_chain_suffix _ _ _ Hl l1 p l2 eq_refl) as H1. assert (H2 : proto_chain rt p (p :: l1 ++ p :: l2)) by by econstructor.
  apply (proto_chain_fun _ _ _ H1) in H2. apply (f_equal length) in H2. simpl in H2. rewrite length_app in H2. simpl in H2. lia.
Qed.

Lemma proto_chain_length rt c a p l : core rt c a -> proto_chain rt p l -> (length l <= clock rt)%nat.
Proof.
  intros Hc Hl. rewrite <- (length_seq (clock rt) 0). apply submseteq_length, NoDup_submseteq; [by eapply proto_chain_NoDup|]. intros x Hx. apply elem_of_seq.
  induction Hl as [|p ob s l Hp Ho Hs Hl IH]; [by apply elem_of_nil in Hx|]. apply elem_of_cons in Hx as [->|Hx]; [|by apply IH]. destruct (co_obj _ _ _ Hc p ob Ho). lia.
Qed.

Definition owns rt (q : nat) (atom f : Z) : Prop := exists proto l x, view rt q = Some (proto, l) /\ (atom, f, x) ∈ l.

(** A store to [atom] through the prototypes [l] adds an own property: no
    object on the way is exotic, and the first that has the property has it
    as a writable data property. *)
Inductive assignable rt (atom : Z) : list nat -> Prop :=
| assignable_none : assignable rt atom []
| assignable_shadow q l f : o_is_exotic <$> objects rt !! q = Some false -> owns rt q atom f -> Z.land f JS_PROP_TMASK = 0 -> Z.land f JS_PROP_WRITABLE <> 0 -> assignable rt atom (q :: l)
| assignable_next q l : o_is_exotic <$> objects rt !! q = Some false -> (forall f, ~ owns rt q atom f) -> assignable rt atom l -> assignable rt atom (q :: l).

Lemma owns_found rt c a q ob s atom r : core rt c a -> objects rt !! q = Some ob -> shapes rt !! o_shape ob = Some s -> atom <> 0 -> found (sh_prop s) atom r ->
  match r with
  | Some i => exists pr, sh_prop s !! i = Some pr /\ forall f, owns rt q atom f <-> f = sp_flags pr
  | None => forall f, ~ owns rt q atom f
  end.
Proof.
  intros Hc Ho Hs Ha Hr. assert (Hown : forall f, owns rt q atom f <-> exists i pr, sh_prop s !! i = Some pr /\ sp_atom pr = atom /\ f = sp_flags pr).
  { intros f. unfold owns. rewrite (view_eq rt q ob s Ho Hs). split.
    - intros (p & l & x & E & Hin). injection E as <- <-. apply list_elem_of_lookup in Hin as [i Hi]. rewrite raw_lookup in Hi. destruct (sh_prop s !! i) as [pr|] eqn:Ei; [|done]. cbn [mbind option_bind] in Hi.
      destruct (o_prop ob !! i); [|done]. cbn [mbind option_bind] in Hi. injection Hi as <- <- <-. by exists i, pr.
    - intros (i & pr & Hi & <- & ->). destruct (prop_value rt c a q ob s i pr Hc Ho Hs Hi) as (x & _ & Hx). eexists _, _, x. split; [done|]. by eapply list_elem_of_lookup_2. }
  destruct r as [i|].
  - destruct Hr as (pr & Hi & Hat). exists pr. split; [done|]. intros f. rewrite Hown. split; [|intros ->; by exists i, pr].
    intros (j & pr' & Hj & Hat' & ->). assert (j = i) as -> by (apply (sk_atoms _ (co_shape _ _ _ Hc _ s Hs) j i pr' pr); congruence). congruence.
  - intros f. rewrite Hown. intros (i & pr & Hi & Hat & _). by apply (Hr i pr).
Qed.

Lemma field_safe_spec rt c a atom l : ok rt c a -> atom <> 0 -> forall p fuel, proto_chain rt p l -> (length l <= fuel)%nat ->
  exists b, field_safe fuel rt atom p = Some b /\ (b = true <-> assignable rt atom l).
Proof.
  intros Hok Ha. induction l as [|q l IH]; intros p fuel Hp Hf; inversion Hp as [|? ob s ? Hp0 Ho Hs Hl]; subst.
  { exists true. split; [by destruct fuel|]. split; [constructor|done]. }
  destruct fuel as [|fuel]; [simpl in Hf; lia|]. cbn [field_safe]. destruct q as [|q']; [done|]. set (q := S q') in *. rewrite Ho. cbn [mbind option_bind].
  assert (Hx : o_is_exotic <$> objects rt !! q = Some (o_is_exotic ob)) by by rewrite Ho. destruct (o_is_exotic ob) eqn:Ex.
  { exists false. split; [done|]. split; [done|]. inversion 1; congruence. }
  destruct (find_own_property_spec rt c a q ob s atom Hok Ho Hs Ha) as (r & -> & Hr). cbn [mbind option_bind]. rewrite Hs. cbn [mbind option_bind].
  pose proof (owns_found rt c a q ob s atom r (proj2 Hok) Ho Hs Ha Hr) as Hown. destruct r as [i|].
  - destruct Hown as (pr & Hi & Hown). rewrite Hi. cbn [mbind option_bind]. eexists. split; [done|]. rewrite negb_true_iff, orb_false_iff, negb_false_iff, Z.eqb_eq, Z.eqb_neq. split.
    + intros [H1 H2]. eapply assignable_shadow; [done|by apply Hown|done|done].
    + inversion 1 as [|? ? f _ Hf0 Hm Hw|? ? _ Hno _]; subst; [|by destruct (Hno (sp_flags pr)); apply Hown]. apply Hown in Hf0 as ->. done.
  - destruct (IH (sh_proto s) fuel Hl ltac:(simpl in Hf; lia)) as (b & -> & Hb). exists b. split; [done|]. rewrite Hb. split; [by apply assignable_next|].
    inversion 1 as [|? ? f _ Hf0|]; subst; [by destruct (Hown f)|done].
Qed.

Lemma presize_proto_safe_spec rt c a proto l fields : ok rt c a -> proto_chain rt proto l -> Forall (fun f => f <> 0) fields ->
  exists b, js_ctor_presize_proto_safe rt proto fields = Some b /\ (b = true <-> Forall (fun f => assignable rt f l) fields).
Proof.
  intros Hok Hl. induction fields as [|f fields IH]; intros Hf; cbn [js_ctor_presize_proto_safe]; [exists true; split; [done|]; split; [by constructor|done]|].
  apply Forall_cons in Hf as [Hf0 Hf]. destruct (field_safe_spec rt c a f l Hok Hf0 proto (clock rt) Hl (proto_chain_length _ _ _ _ _ (proj2 Hok) Hl)) as (b & -> & Hb). cbn [mbind option_bind]. destruct b.
  - destruct (IH Hf) as (b & -> & Hb2). exists b. split; [done|]. rewrite Forall_cons, Hb2. split; [intros H1; split; [by apply Hb|done]|by intros [_ ?]].
  - exists false. split; [done|]. rewrite Forall_cons. split; [done|]. intros [H1 _]. by apply Hb.
Qed.

(** ** The new object *)

Lemma fill_spec rt c a p proto l n : ok rt c a -> view rt p = Some (proto, l) -> (n <= length l)%nat ->
  exists rt', foldl (fun r i => r ← r; set_value r p i undefined) (Some rt) (seq 0 n) = Some rt' /\ ok rt' c a /\ spares rt rt' c p /\ freed rt' = freed rt /\ shape_hash_bits rt' = shape_hash_bits rt /\
    view rt' p = Some (proto, ((fun x => (x.1.1, x.1.2, Some undefined)) <$> take n l) ++ drop n l) /\ o_is_exotic <$> objects rt' !! p = o_is_exotic <$> objects rt !! p.
Proof.
  intros Hok Hv. induction n as [|n IH]; intros Hn; [exists rt; split_and!; try done; apply spares_refl|].
  destruct (IH ltac:(lia)) as (rt1 & E1 & Hok1 & Hsp1 & Hfr1 & Hb1 & Hv1 & Hx1). rewrite seq_S, foldl_app, E1. cbn [foldl mbind option_bind]. rewrite Nat.add_0_l.
  destruct (view_inv rt1 c a p proto _ (proj2 Hok1) Hv1) as (ob & s & Ho & Hs & _ & _ & Hcnt).
  assert (Hlen : length (((fun x : Z * Z * option V => (x.1.1, x.1.2, Some undefined)) <$> take n l)) = n) by (rewrite length_fmap, length_take; lia).
  destruct (lookup_lt_is_Some_2 (sh_prop s) n) as [pr Hpr]; [unfold prop_count in Hcnt; rewrite Hcnt, length_app, Hlen, length_drop; lia|].
  destruct (set_value_spec rt1 c a p ob s n pr undefined Hok1 Ho Hs Hpr) as (rt2 & E2 & [Hok2 Hsp2 Hfr2 (p2 & l2 & at2 & f2 & x2 & Hv2 & Hl2 & Hv2') Hex2 Htb2]). rewrite E2. exists rt2.
  rewrite Hv1 in Hv2. injection Hv2 as <- <-. destruct (lookup_lt_is_Some_2 l n ltac:(lia)) as [y Hy]. rewrite lookup_app_r, Hlen, Nat.sub_diag, lookup_drop, Nat.add_0_r, Hy in Hl2 by lia. injection Hl2 as ->.
  split_and!; [done|done|by eapply spares_trans|congruence|unfold set_value in E2; unbind E2; exact Hb1| |congruence]. rewrite Hv2'. do 2 f_equal. rewrite insert_app_r_alt by lia. rewrite Hlen, Nat.sub_diag.
  rewrite (drop_S l _ n Hy), (take_S_r l n _ Hy), fmap_app, <- (assoc_L (++)). done.
Qed.

Lemma empty_fields_view (s : JSShape) fields (v : list (option V)) : names (sh_prop s) = field_names fields -> (prop_count s <= length v)%nat ->
  (fun x : Z * Z * option V => (x.1.1, x.1.2, Some undefined)) <$> raw (sh_prop s) v = field_props fields.
Proof.
  intros Hn Hl. unfold prop_count in Hl. pose proof (names_raw _ _ Hl) as Hr. rewrite Hn in Hr. apply (f_equal (fmap (fun x => (x.1, x.2, Some undefined)))) in Hr. unfold field_names, field_props in *.
  rewrite <- !list_fmap_compose in Hr. symmetry. exact Hr.
Qed.

(** A plain object with no fields, or the instance with all of them. *)
Definition this_view rt rt' (p proto : nat) (chain : list nat) (fields : list Z) : Prop :=
  view rt' p = Some (proto, field_props fields) /\ Forall (fun f => assignable rt f chain) fields \/
  view rt' p = Some (proto, []) /\ (~ Forall (fun f => assignable rt f chain) fields \/ short mem).

Record this_made rt rt' (c : list nat) (a : list Z) (p proto : nat) (chain : list nat) (cp cp' : JSCtorPresize) : Prop := {
  tm_ok : ok rt' (cache_refs cp' ++ c) a;
  tm_cache : cp_fields cp' = cp_fields cp /\ cache_ok rt' cp';
  tm_others : forall k, k <> p -> view rt' k = view rt k /\ o_is_exotic <$> objects rt' !! k = o_is_exotic <$> objects rt !! k;
  tm_kept : kept rt rt' c;
  tm_freed : exists fr, freed rt' = freed rt ++ fr /\ only_undefined fr;
  tm_this : p = 0%nat /\ short mem \/
    p <> 0%nat /\ objects rt !! p = None /\ o_is_exotic <$> objects rt' !! p = Some false /\ this_view rt rt' p proto chain (cp_fields cp);
}.

(** The plain object, after [rt1] has been reached. *)
Lemma plain_this_spec rt rt1 c a cp cp1 proto chain : ok rt1 (cache_refs cp1 ++ c) a -> cp_fields cp1 = cp_fields cp -> cache_ok rt1 cp1 -> same_heap rt rt1 -> kept rt rt1 c -> shape_hash_bits rt1 < 32 ->
  ~ Forall (fun f => assignable rt f chain) (cp_fields cp) \/ short mem ->
  exists rt' p, JS_NewObjectProtoClass mem addr rt1 proto = Some (rt', p) /\ this_made rt rt' c a p proto chain cp cp1.
Proof.
  intros Hok1 Hcf Hca [M1 M2 M3 (fr & M4 & M5)] Hk Hb Hwhy. destruct (JS_NewObjectProtoClass_spec mem addr rt1 (cache_refs cp1 ++ c) a proto Hok1 Hb) as (rt' & p & -> & Hp & _). exists rt', p. split; [done|].
  assert (Hkc : forall r1 r2 : JSRuntime V A, kept r1 r2 (cache_refs cp1 ++ c) -> kept r1 r2 c) by (intros r1 r2 Hkk q s Hq; apply Hkk, elem_of_app; by right).
  destruct Hp as [(-> & [F1 [S1 S2 S3 S4 S5] F3])|[Hok' [Hp0 Hfresh] [S1 S2 S3 S4] Hfr Hv Hx]].
  - split; [done|split; [done|by eapply cache_kept]| |eapply kept_trans; [done|by apply Hkc]| |by left].
    + intros k _. by rewrite S1, S2, M1, M2.
    + exists fr. by rewrite S3.
  - split; [done|split; [done|by eapply cache_kept]| |eapply kept_trans; [done|by apply Hkc]| |right].
    + intros k Hne. by rewrite S1, S2, M1, M2.
    + exists fr. by rewrite Hfr.
    + split_and!; [done| |done|by right]. specialize (M2 p). rewrite Hfresh in M2. by destruct (objects rt !! p).
Qed.

(** The instance from the cached shape. *)
Lemma sized_this_spec rt rt1 c a cp cp1 proto chain s : ok rt1 (cache_refs cp1 ++ c) a -> cp_fields cp1 = cp_fields cp -> cache_ok rt1 cp1 -> same_heap rt rt1 -> kept rt rt1 c ->
  cp_cached_shape cp1 <> 0%nat -> shapes rt1 !! cp_cached_shape cp1 = Some s -> sh_proto s = proto -> Forall (fun f => assignable rt f chain) (cp_fields cp) ->
  exists rt' p, (rt ← js_dup_shape rt1 (cp_cached_shape cp1); '(rt, p) ← JS_NewObjectFromShape mem rt (cp_cached_shape cp1);
      if (p =? 0)%nat then Some (rt, cp1, 0%nat)
      else rt ← foldl (fun r i => r ← r; set_value r p i undefined) (Some rt) (seq 0 (length (cp_fields cp1))); Some (rt, cp1, p)) = Some (rt', cp1, p) /\ this_made rt rt' c a p proto chain cp cp1.
Proof.
  intros Hok1 Hcf Hca [M1 M2 M3 (fr & M4 & M5)] Hk Hc0 Hs Hp Hall. destruct (Hca Hc0) as (s0 & Hs0 & Hh & Hnm). assert (s0 = s) as -> by congruence. clear Hs0.
  destruct (dup_shape_spec rt1 _ a _ s Hok1 Hs Hh) as (rt2 & -> & Hok2 & Hq2 & Hs2). cbn [mbind option_bind]. pose proof (quiet_silent rt1 rt2 _ _ _ _ Hok1 (proj2 Hok2) ltac:(by right) Hq2) as [T1 T2 T3 T4 T5].
  destruct (JS_NewObjectFromShape_spec mem rt2 (cache_refs cp1 ++ c) a _ _ Hok2 Hs2) as (rt3 & p & -> & H3). cbn [mbind option_bind].
  assert (Hkc : forall r1 r2 : JSRuntime V A, kept r1 r2 (cache_refs cp1 ++ c) -> kept r1 r2 c) by (intros r1 r2 Hkk q s0 Hq; apply Hkk, elem_of_app; by right).
  destruct H3 as [(-> & Hok3 & Hq3 & Hm)|([Hok3 [Hp0 Hfresh] Hsp3 Hfr3 Hv3 Hx3] & _ & _)].
  - cbn [Nat.eqb]. exists rt3, 0%nat. split; [done|]. pose proof (quiet_silent rt1 rt3 _ _ _ _ Hok1 (proj2 Hok3) ltac:(done) (quiet_trans _ _ _ Hq2 Hq3)) as [S1 S2 S3 S4 S5].
    split; [done|split; [done|by eapply cache_kept]| |eapply kept_trans; [done|by apply Hkc]| |by left].
    + intros k _. by rewrite S1, S2, M1, M2.
    + exists fr. by rewrite S3.
  - destruct (Nat.eqb_spec p 0); [done|]. cbn [sh_proto sh_prop sh_prop_size set_ref] in Hv3. set (l3 := raw (sh_prop s) _) in Hv3.
    assert (Hroom : (prop_count s <= length (replicate (sh_prop_size s) (@None V)))%nat) by (rewrite length_replicate; apply (sk_room _ (co_shape _ _ _ (proj2 Hok1) _ s Hs))).
    assert (Hl3 : length l3 = length (cp_fields cp1)).
    { apply (f_equal length) in Hnm. unfold names, field_names in Hnm. rewrite !length_fmap in Hnm. unfold l3, raw. rewrite length_zip_with. unfold prop_count in Hroom. lia. }
    destruct (fill_spec rt3 _ a p _ l3 (length (cp_fields cp1)) Hok3 Hv3 ltac:(lia)) as (rt4 & -> & Hok4 & Hsp4 & Hfr4 & _ & Hv4 & Hx4). cbn [mbind option_bind]. exists rt4, p. split; [done|].
    pose proof (spares_trans _ _ _ _ _ Hsp3 Hsp4) as [S1 S2 S3 S4]. rewrite <- Hl3, firstn_all, drop_all, app_nil_r in Hv4. unfold l3 in Hv4. rewrite (empty_fields_view s (cp_fields cp1) _ Hnm Hroom) in Hv4.
    pose proof (kept_trans _ _ _ _ T5 S4) as Hk4. split; [done|split; [done|by eapply cache_kept]| |eapply kept_trans; [done|by apply Hkc]| |right].
    + intros k Hne. by rewrite S1, S2, T1, T2, M1, M2.
    + exists fr. split; [|done]. by rewrite Hfr4, Hfr3, T3.
    + split_and!; [done| |by rewrite Hx4|left; split; [by rewrite Hv4, Hp, Hcf|done]]. rewrite (qu_objects _ _ Hq2) in Hfresh. specialize (M2 p). rewrite Hfresh in M2. by destruct (objects rt !! p).
Qed.

Lemma presize_new_this_spec rt c a cp proto chain : ok rt (cache_refs cp ++ c) a -> cache_ok rt cp -> good_fields a (cp_fields cp) -> proto_chain rt proto chain -> shape_hash_bits rt < 31 ->
  exists rt' cp' p, js_ctor_presize_new_this mem addr undefined rt cp proto = Some (rt', cp', p) /\ this_made rt rt' c a p proto chain cp cp'.
Proof.
  intros Hok Hca Hgf Hch Hb. unfold js_ctor_presize_new_this.
  destruct (presize_proto_safe_spec rt _ a proto chain (cp_fields cp) Hok Hch) as (safe & -> & Hsafe); [destruct Hgf as [Hf _]; eapply Forall_impl; [exact Hf|]; by intros f [? _]|]. cbn [mbind option_bind]. destruct safe.
  - destruct (presize_build_spec rt c a cp proto Hok Hca Hgf ltac:(lia)) as (rt1 & cp1 & q & -> & Hcf & Hok1 & Hca1 & Hk1 & Hsm & Hb1 & Hq). cbn [mbind option_bind]. destruct Hq as [(-> & Hm)|(Hq0 & -> & s & Hs & Hp)].
    + cbn [Nat.eqb]. destruct (plain_this_spec rt rt1 c a cp cp1 proto chain) as (rt' & p & -> & Hth); try done; [lia|by right|]. by exists rt', cp1, p.
    + destruct (Nat.eqb_spec (cp_cached_shape cp1) 0); [done|]. destruct (sized_this_spec rt rt1 c a cp cp1 proto chain s) as (rt' & p & E & Hth); try done; [by apply Hsafe|]. by exists rt', cp1, p.
  - cbn [mbind option_bind Nat.eqb]. destruct (plain_this_spec rt rt c a cp cp proto chain) as (rt' & p & -> & Hth); try done; [eapply silent_same, (silent_refl _ c)|apply kept_refl|lia|left; intros Hall; by apply Hsafe in Hall|]. by exists rt', cp, p.
Qed.
End presize.
