(* ===== verification/ObjectHeap.v ===== *)
(** * Objects as their own lists of properties

    What the operations promise: every object has a prototype and an ordered
    list of properties of its own.  Shapes, their sharing and copying, the
    hash tables and the compaction of deleted properties do not show. *)
From S2P Require Import Prelude Native Chains Shapes ShapeTable ShapesProps ShapesOps ObjectProps ObjectChange Objects Presize.

(** ** The abstract heap *)

Section spec.
Context {V : Type}.

Definition props : Type := list (Z * Z * option V).
Definition heap : Type := nat -> option (nat * props).

Definition upd (h : heap) (o : nat) (x : option (nat * props)) : heap := fun k => if (k =? o)%nat then x else h k.

Definition same (h h' : heap) : Prop := forall k, h' k = h k.

(** The operations; properties are named by their atom. *)
Inductive op : Type :=
| Op_new (proto : nat)
| Op_alloc (proto n : nat)
| Op_add (o : nat) (atom flags : Z) (v : V)
| Op_flags (o : nat) (atom flags : Z)
| Op_value (o : nat) (atom : Z) (v : V)
| Op_delete (o : nat) (atom : Z)
| Op_free (o : nat).

Inductive result : Type := R_object (p : nat) | R_done | R_missing | R_refused | R_exotic | R_nomem.

(** [o] has the property [e] between [l1] and [l2]. *)
Definition has (h : heap) (o proto : nat) (l1 : props) (e : Z * Z * option V) (l2 : props) : Prop := h o = Some (proto, l1 ++ e :: l2).

Definition lacks (h : heap) (o : nat) (atom : Z) : Prop := exists proto l, h o = Some (proto, l) /\ ~ atom_in l atom.

Definition spec (x : op) (h : heap) (r : result) (h' : heap) : Prop :=
  match x, r with
  | _, R_nomem => same h h'
  | Op_new proto, R_object p | Op_alloc proto _, R_object p => p <> 0%nat /\ h p = None /\ same (upd h p (Some (proto, []))) h'
  | Op_add o atom flags v, R_done => exists proto l, h o = Some (proto, l) /\ same (upd h o (Some (proto, l ++ [(atom, flags, Some v)]))) h'
  | Op_flags o atom flags, R_done => exists proto l1 f x l2, has h o proto l1 (atom, f, x) l2 /\ same (upd h o (Some (proto, l1 ++ (atom, flags, x) :: l2))) h'
  | Op_value o atom v, R_done => exists proto l1 f x l2, has h o proto l1 (atom, f, x) l2 /\ same (upd h o (Some (proto, l1 ++ (atom, f, Some v) :: l2))) h'
  | Op_flags o atom _, R_missing | Op_value o atom _, R_missing => lacks h o atom /\ same h h'
  | Op_delete o atom, R_done =>
      lacks h o atom /\ same h h' \/
      exists proto l1 f x l2, has h o proto l1 (atom, f, x) l2 /\ Z.land f JS_PROP_CONFIGURABLE <> 0 /\ same (upd h o (Some (proto, l1 ++ l2))) h'
  | Op_delete o atom, R_refused => (exists proto l1 f x l2, has h o proto l1 (atom, f, x) l2 /\ Z.land f JS_PROP_CONFIGURABLE = 0) /\ same h h'
  | Op_delete o atom, R_exotic => lacks h o atom /\ same h h'
  | Op_free o, R_done => same (upd h o None) h'
  | _, _ => False
  end.
End spec.
Arguments props : clear implicits.
Arguments heap : clear implicits.
Arguments op : clear implicits.

(** ** The operations of the engine *)

Section run.
Context {V A : Type} `{AtomLaws A} (mem : nat -> bool) (addr : nat -> Z) (undefined : V).
Implicit Types rt : JSRuntime V A.

Definition heap_of rt : heap V := fun o => '(proto, l) ← view rt o; Some (proto, live l).

Definition created_result (r : option (JSRuntime V A * nat)) : option (JSRuntime V A * result) :=
  '(rt, p) ← r; Some (rt, if (p =? 0)%nat then R_nomem else R_object p).

Definition run (x : op V) rt : option (JSRuntime V A * result) :=
  match x with
  | Op_new proto => created_result (JS_NewObjectProtoClass mem addr rt proto)
  | Op_alloc proto n => created_result (JS_NewObjectProtoClassAlloc mem rt proto n)
  | Op_add o atom flags v =>
      '(rt, r) ← add_property mem rt o atom flags;
      match r with None => Some (rt, R_nomem) | Some i => rt ← set_value rt o i v; Some (rt, R_done) end
  | Op_flags o atom flags =>
      r ← find_own_property rt o atom;
      match r with None => Some (rt, R_missing) | Some i => '(rt, b) ← js_update_property_flags mem rt o i flags; Some (rt, if b : bool then R_done else R_nomem) end
  | Op_value o atom v =>
      r ← find_own_property rt o atom;
      match r with None => Some (rt, R_missing) | Some i => rt ← set_value rt o i v; Some (rt, R_done) end
  | Op_delete o atom =>
      '(rt, r) ← delete_property mem undefined rt o atom;
      Some (rt, match r with D_true => R_done | D_false => R_refused | D_exception => R_nomem | D_exotic => R_exotic end)
  | Op_free o => rt ← free_object rt o; Some (rt, R_done)
  end.

(** When an operation may be used: its object exists, its atom is held, a
    property that is added is not there yet, and the counts fit their
    fields. *)
Definition admissible (a : list Z) (x : op V) rt : Prop :=
  match x with
  | Op_new _ => shape_hash_bits rt < 32
  | Op_alloc _ _ => True
  | Op_add o atom flags _ => atom <> 0 /\ atom ∈ a /\ 0 <= flags < 64 /\ lacks (heap_of rt) o atom /\ forall proto l, view rt o = Some (proto, l) -> Z.of_nat (length l) + 1 < 2 ^ 26
  | Op_flags o atom flags => atom <> 0 /\ 0 <= flags < 64 /\ is_Some (heap_of rt o)
  | Op_value o atom _ => atom <> 0 /\ is_Some (heap_of rt o)
  | Op_delete o atom => atom <> 0 /\ is_Some (heap_of rt o)
  | Op_free o => is_Some (heap_of rt o)
  end.

Lemma heap_of_view rt rt' k : view rt' k = view rt k -> heap_of rt' k = heap_of rt k.
Proof. intros E. unfold heap_of. by rewrite E. Qed.

Lemma silent_same_heap rt rt' c : silent rt rt' c -> same (heap_of rt) (heap_of rt').
Proof. intros [S1 _ _ _ _] k. by apply heap_of_view. Qed.

Lemma spares_upd rt rt' c o proto l : spares rt rt' c o -> view rt' o = Some (proto, l) -> same (upd (heap_of rt) o (Some (proto, live l))) (heap_of rt').
Proof. intros [S1 _ _ _] Hv k. unfold upd. destruct (Nat.eqb_spec k o) as [->|Hk]; [unfold heap_of; by rewrite Hv|by apply heap_of_view, S1]. Qed.

Lemma live_app (l l' : list (Z * Z * option V)) : live (l ++ l') = live l ++ live l'.
Proof. apply filter_app. Qed.

Lemma live_cons atom f x (l : list (Z * Z * option V)) : atom <> 0 -> live ((atom, f, x) :: l) = (atom, f, x) :: live l.
Proof. intros Ha. unfold live. by rewrite filter_cons_True. Qed.

Lemma live_cons0 f x (l : list (Z * Z * option V)) : live ((0, f, x) :: l) = live l.
Proof. unfold live. rewrite filter_cons_False; [done|]. cbn [fst]. tauto. Qed.

Lemma live_at (l : list (Z * Z * option V)) i atom f x : l !! i = Some (atom, f, x) -> atom <> 0 -> live l = live (take i l) ++ (atom, f, x) :: live (drop (S i) l).
Proof. intros Hi Ha. rewrite <- (take_drop_middle l i _ Hi) at 1. by rewrite live_app, live_cons. Qed.

Lemma live_insert (l : list (Z * Z * option V)) i atom f x : (i < length l)%nat -> atom <> 0 -> live (<[i := (atom, f, x)]> l) = live (take i l) ++ (atom, f, x) :: live (drop (S i) l).
Proof. intros Hi Ha. rewrite insert_take_drop by done. by rewrite live_app, live_cons. Qed.

Lemma live_erase (l : list (Z * Z * option V)) i f x : (i < length l)%nat -> live (<[i := (0, f, x)]> l) = live (take i l) ++ live (drop (S i) l).
Proof. intros Hi. rewrite insert_take_drop by done. by rewrite live_app, live_cons0. Qed.

Lemma atom_in_live (l : list (Z * Z * option V)) atom : atom <> 0 -> atom_in (live l) atom <-> atom_in l atom.
Proof.
  intros Ha. unfold atom_in, live. split; intros (f & x & Hin); exists f, x; [by apply list_elem_of_filter in Hin as [_ ?]|]. by apply list_elem_of_filter.
Qed.

(** What the search finds, in the abstract heap. *)
Lemma found_lacks rt c a o ob s atom : ok rt c a -> objects rt !! o = Some ob -> shapes rt !! o_shape ob = Some s -> atom <> 0 -> found (sh_prop s) atom None -> lacks (heap_of rt) o atom.
Proof.
  intros Hok Ho Hs Ha Hf. unfold lacks, heap_of. rewrite (view_eq rt o ob s Ho Hs). cbn [mbind option_bind]. eexists _, _. split; [done|]. rewrite atom_in_live by done.
  intros (f & x & Hin). apply list_elem_of_lookup in Hin as [i Hi]. rewrite raw_lookup in Hi. destruct (sh_prop s !! i) as [pr|] eqn:Ei; [|done]. cbn [mbind option_bind] in Hi.
  destruct (o_prop ob !! i); [|done]. cbn [mbind option_bind] in Hi. injection Hi as E _ _. by apply (Hf i pr).
Qed.

Lemma found_has rt c a o ob s atom i pr : ok rt c a -> objects rt !! o = Some ob -> shapes rt !! o_shape ob = Some s -> atom <> 0 -> sh_prop s !! i = Some pr -> sp_atom pr = atom ->
  exists x l, view rt o = Some (sh_proto s, l) /\ o_prop ob !! i = Some x /\ l !! i = Some (atom, sp_flags pr, x) /\ has (heap_of rt) o (sh_proto s) (live (take i l)) (atom, sp_flags pr, x) (live (drop (S i) l)).
Proof.
  intros Hok Ho Hs Ha Hi Hat. destruct (prop_value rt c a o ob s i pr (proj2 Hok) Ho Hs Hi) as (x & Hx & Hr). rewrite Hat in Hr. exists x, (raw (sh_prop s) (o_prop ob)).
  pose proof (view_eq rt o ob s Ho Hs) as Hv. split_and!; try done. unfold has, heap_of. rewrite Hv. cbn [mbind option_bind]. by rewrite <- (live_at _ i atom).
Qed.

Lemma heap_object rt c a o : core rt c a -> is_Some (heap_of rt o) -> exists ob s, objects rt !! o = Some ob /\ shapes rt !! o_shape ob = Some s.
Proof.
  intros Hc [x Hx]. unfold heap_of in Hx. destruct (view rt o) as [[proto l]|] eqn:Hv; [|done]. destruct (view_inv rt c a o proto l Hc Hv) as (ob & s & Ho & Hs & _). by exists ob, s.
Qed.

(** The outcome of one operation. *)
Definition refines (c : list nat) (a : list Z) (x : op V) rt : Prop :=
  exists rt' r, run x rt = Some (rt', r) /\ ok rt' c a /\ spec x (heap_of rt) r (heap_of rt') /\ kept rt rt' c /\ (r = R_nomem -> short mem).

Lemma created_refines rt rt' c a p proto : ok rt c a -> new_outcome mem rt rt' c a p proto [] ->
  exists r, (if (p =? 0)%nat then R_nomem else R_object p) = r /\ ok rt' c a /\ kept rt rt' c /\ (r = R_nomem -> short mem) /\
    match r with R_object p => p <> 0%nat /\ heap_of rt p = None /\ same (upd (heap_of rt) p (Some (proto, []))) (heap_of rt') | R_nomem => same (heap_of rt) (heap_of rt') | _ => False end.
Proof.
  intros Hok [(-> & [F1 F2 F3])|[Hok' [Hp Hn] Hsp Hfr Hv Hx]].
  - exists R_nomem. split_and!; try done; [apply F2|by eapply silent_same_heap].
  - exists (R_object p). destruct (Nat.eqb_spec p 0); [done|]. split_and!; try done; [apply Hsp|unfold heap_of, view; by rewrite Hn|exact (spares_upd rt rt' c p proto [] Hsp Hv)].
Qed.

Lemma run_new c a rt proto : ok rt c a -> admissible a (Op_new proto) rt -> refines c a (Op_new proto) rt.
Proof.
  intros Hok Hb. destruct (JS_NewObjectProtoClass_spec mem addr rt c a proto Hok Hb) as (rt' & p & E & Ho & _). destruct (created_refines rt rt' c a p proto Hok Ho) as (r & Er & Hok' & Hk & Hm & Hr).
  exists rt', r. split; [cbn [run]; unfold created_result; by rewrite E, <- Er|]. by split_and!.
Qed.

Lemma run_alloc c a rt proto n : ok rt c a -> refines c a (Op_alloc proto n) rt.
Proof.
  intros Hok. destruct (JS_NewObjectProtoClassAlloc_spec mem rt c a proto n Hok) as (rt' & p & E & Ho & _). destruct (created_refines rt rt' c a p proto Hok Ho) as (r & Er & Hok' & Hk & Hm & Hr).
  exists rt', r. split; [cbn [run]; unfold created_result; by rewrite E, <- Er|]. by split_and!.
Qed.

Lemma failed_refines rt rt' c a x : failed mem rt rt' c a -> ok rt' c a /\ spec x (heap_of rt) R_nomem (heap_of rt') /\ kept rt rt' c /\ (R_nomem = R_nomem -> short mem).
Proof. intros [F1 F2 F3]. split_and!; try done; [destruct x; by eapply silent_same_heap|apply F2]. Qed.

(** Writing the content of the property [i] of [o]. *)
Lemma write_refines rt c a o proto l i atom f x v : ok rt c a -> view rt o = Some (proto, l) -> l !! i = Some (atom, f, x) -> atom <> 0 ->
  exists rt', set_value rt o i v = Some rt' /\ ok rt' c a /\ spares rt rt' c o /\ view rt' o = Some (proto, <[i := (atom, f, Some v)]> l).
Proof.
  intros Hok Hv Hi Ha. destruct (view_inv rt c a o proto l (proj2 Hok) Hv) as (ob & s & Ho & Hs & _ & _ & Hcnt). destruct (lookup_lt_is_Some_2 (sh_prop s) i) as [pr Hpr]; [unfold prop_count in Hcnt; rewrite Hcnt; by eapply lookup_lt_Some|].
  destruct (set_value_spec rt c a o ob s i pr v Hok Ho Hs Hpr) as (rt' & E & [Hok' Hsp Hfr (p2 & l2 & at2 & f2 & x2 & Hv2 & Hl2 & Hv2') _ _]). exists rt'. split_and!; try done. rewrite Hv in Hv2. injection Hv2 as <- <-. rewrite Hi in Hl2. by injection Hl2 as <- <- <-.
Qed.

Lemma run_add c a rt o atom flags v : ok rt c a -> admissible a (Op_add o atom flags v) rt -> refines c a (Op_add o atom flags v) rt.
Proof.
  intros Hok (Ha & Hin & Hfl & (proto & l & Hh & Hn) & Hmax). destruct (view rt o) as [[p0 l0]|] eqn:Hv; [|unfold heap_of in Hh; by rewrite Hv in Hh].
  unfold heap_of in Hh. rewrite Hv in Hh. injection Hh as <- <-. rewrite atom_in_live in Hn by done. destruct (view_inv rt c a o p0 l0 (proj2 Hok) Hv) as (ob & s & Ho & Hs & _ & Hr & Hcnt).
  destruct (add_property_spec mem rt c a o ob s atom flags Hok Ho Hs ltac:(rewrite Hcnt; by eapply Hmax) Ha) as (rt1 & r & E & Hadd); [eapply raw_found; [apply Hok|exact Ho|exact Hs|by rewrite Hr]|done|done|].
  unfold refines. cbn [run]. rewrite E. cbn [mbind option_bind]. destruct r as [i|]; [|exists rt1, R_nomem; split; [done|]; by apply failed_refines].
  destruct Hadd as [Hok1 Hsp1 Hfr1 (p1 & l1 & x & Hv0 & Hv1 & ->) _ _]. rewrite Hv in Hv0. injection Hv0 as <- <-.
  destruct (write_refines rt1 c a o p0 _ (length l0) atom flags x v Hok1 Hv1 ltac:(by rewrite list_lookup_middle) Ha) as (rt2 & -> & Hok2 & Hsp2 & Hv2). cbn [mbind option_bind]. exists rt2, R_done. rewrite insert_last in Hv2.
  pose proof (spares_trans _ _ _ _ _ Hsp1 Hsp2) as Hsp. split_and!; try done; [|apply Hsp]. exists p0, (live l0). split; [unfold heap_of; by rewrite Hv|].
  pose proof (spares_upd rt rt2 c o _ _ Hsp Hv2) as Hu. by rewrite live_app, (live_cons _ _ _ []) in Hu by done.
Qed.

Lemma run_flags c a rt o atom flags : ok rt c a -> admissible a (Op_flags o atom flags) rt -> refines c a (Op_flags o atom flags) rt.
Proof.
  intros Hok (Ha & Hfl & Hh). destruct (heap_object rt c a o (proj2 Hok) Hh) as (ob & s & Ho & Hs). destruct (find_own_property_spec rt c a o ob s atom Hok Ho Hs Ha) as (r & E & Hr).
  unfold refines. cbn [run]. rewrite E. cbn [mbind option_bind]. destruct r as [i|].
  - destruct Hr as (pr & Hi & Hat). destruct (found_has rt c a o ob s atom i pr Hok Ho Hs Ha Hi Hat) as (x & l & Hv & Hx & Hl & Hhas).
    destruct (js_update_property_flags_spec mem rt c a o ob s i pr flags Hok Ho Hs Hi Hfl) as (rt' & b & -> & Hb). cbn [mbind option_bind]. destruct b; [|exists rt', R_nomem; split; [done|]; by apply failed_refines].
    destruct Hb as [Hok' Hsp Hfr (p2 & l2 & at2 & f2 & x2 & Hv2 & Hl2 & Hv2') _]. rewrite Hv in Hv2. injection Hv2 as <- <-. rewrite Hl in Hl2. injection Hl2 as <- <- <-. exists rt', R_done. split_and!; try done; [|apply Hsp].
    eexists _, _, _, _, _. split; [exact Hhas|]. pose proof (spares_upd rt rt' c o _ _ Hsp Hv2') as Hu. by rewrite live_insert in Hu by (done || by eapply lookup_lt_Some).
  - exists rt, R_missing. split_and!; try done; [|apply kept_refl]. split; [by eapply found_lacks|done].
Qed.

Lemma run_value c a rt o atom v : ok rt c a -> admissible a (Op_value o atom v) rt -> refines c a (Op_value o atom v) rt.
Proof.
  intros Hok (Ha & Hh). destruct (heap_object rt c a o (proj2 Hok) Hh) as (ob & s & Ho & Hs). destruct (find_own_property_spec rt c a o ob s atom Hok Ho Hs Ha) as (r & E & Hr).
  unfold refines. cbn [run]. rewrite E. cbn [mbind option_bind]. destruct r as [i|].
  - destruct Hr as (pr & Hi & Hat). destruct (found_has rt c a o ob s atom i pr Hok Ho Hs Ha Hi Hat) as (x & l & Hv & Hx & Hl & Hhas).
    destruct (write_refines rt c a o _ l i atom _ x v Hok Hv Hl Ha) as (rt' & -> & Hok' & Hsp & Hv'). cbn [mbind option_bind]. exists rt', R_done. split_and!; try done; [|apply Hsp].
    eexists _, _, _, _, _. split; [exact Hhas|]. pose proof (spares_upd rt rt' c o _ _ Hsp Hv') as Hu. by rewrite live_insert in Hu by (done || by eapply lookup_lt_Some).
  - exists rt, R_missing. split_and!; try done; [|apply kept_refl]. split; [by eapply found_lacks|done].
Qed.

Lemma run_delete c a rt o atom : ok rt c a -> admissible a (Op_delete o atom) rt -> refines c a (Op_delete o atom) rt.
Proof.
  intros Hok (Ha & Hh). destruct (heap_object rt c a o (proj2 Hok) Hh) as (ob & s & Ho & Hs). destruct (delete_property_spec mem undefined rt c a o ob s atom Hok Ho Hs Ha) as (rt' & r & E & Hr).
  unfold refines. cbn [run]. rewrite E. cbn [mbind option_bind]. eexists rt', _. split; [done|]. destruct r; cbn [delete_outcome] in Hr.
  - destruct Hr as [(_ & Hf & ->)|(i & pr & x & Hi & Hat & Hc & Hx & [R1 R2 R3 (p2 & l2 & l3 & R4 & R5 & R6) R7])].
    + split_and!; try done; [|apply kept_refl]. left. split; [by eapply found_lacks|done].
    + split_and!; try done; [|apply R2]. right. destruct (found_has rt c a o ob s atom i pr Hok Ho Hs Ha Hi Hat) as (x' & l & Hv & _ & Hl & Hhas). rewrite Hv in R4. injection R4 as <- <-.
      eexists _, _, _, _, _. split; [exact Hhas|]. split; [done|]. pose proof (spares_upd rt rt' c o _ _ R2 R5) as Hu. by rewrite R6, live_erase in Hu by (by eapply lookup_lt_Some).
  - destruct Hr as [(i & pr & Hi & Hat & Hc) ->]. split_and!; try done; [|apply kept_refl]. split; [|done]. destruct (found_has rt c a o ob s atom i pr Hok Ho Hs Ha Hi Hat) as (x & l & Hv & _ & Hl & Hhas). eexists _, _, _, _, _. split; [exact Hhas|done].
  - by apply failed_refines.
  - destruct Hr as (_ & Hf & ->). split_and!; try done; [|apply kept_refl]. split; [by eapply found_lacks|done].
Qed.

Lemma run_free c a rt o : ok rt c a -> admissible a (Op_free o) rt -> refines c a (Op_free o) rt.
Proof.
  intros Hok Hh. destruct (heap_object rt c a o (proj2 Hok) Hh) as (ob & s & Ho & Hs). destruct (free_object_spec rt c a o ob s Hok Ho Hs) as (rt' & E & [L1 L2 L3 _ _ L6]). unfold refines. cbn [run]. rewrite E. cbn [mbind option_bind].
  exists rt', R_done. split_and!; try done. intros k. unfold upd. destruct (Nat.eqb_spec k o) as [->|Hk]; [unfold heap_of, view; by rewrite L2, lookup_delete_eq|by apply heap_of_view, L3].
Qed.

Lemma run_refines c a x rt : ok rt c a -> admissible a x rt -> refines c a x rt.
Proof. destruct x; [apply run_new|intros Hok _; by apply run_alloc|apply run_add|apply run_flags|apply run_value|apply run_delete|apply run_free]. Qed.
End run.
