(* ===== verification/AtomObjects.v ===== *)
(** * Objects on the atom table

    The atom table provides what the shapes rely on: property names are held
    by the shapes that have them. *)
From S2P Require Import Prelude Native Chains Digits Atoms AtomTable AtomsProps AtomsInit AtomsUse Shapes ShapesProps.

#[export] Instance atom_store : AtomStore Atoms.JSRuntime := { dup_atom := JS_DupAtom; free_atom := JS_FreeAtom }.

(** The references of a list of atoms, and those of [others]. *)
Definition hold_refs (rt : Atoms.JSRuntime) (l : list Z) (others : list nat) : list nat := (l ≫= atom_refs rt) ++ others.

Definition atoms_held (others : list nat) (rt : Atoms.JSRuntime) (l : list Z) : Prop :=
  interned rt (hold_refs rt l others) /\ Forall (live_atom rt) l.

Lemma atoms_held_perm others rt l l' : l ≡ₚ l' -> atoms_held others rt l -> atoms_held others rt l'.
Proof.
  intros Hp [[Hg Hk] Hl]. split; [|by rewrite <- Hp]. split; [|done]. eapply good_perm; [|exact Hg]. unfold hold_refs. f_equiv. by rewrite Hp.
Qed.

Lemma const_refs rt a : is_jsatom a -> __JS_AtomIsConst a = true -> atom_refs rt a = [].
Proof. intros Ha. rewrite (atom_const a Ha). unfold atom_refs, atom_ref. destruct (__JS_AtomIsTaggedInt a); [done|]. cbn [orb]. by intros ->. Qed.

Lemma dup_atom_held others rt l x : atoms_held others rt l -> x ∈ l -> exists rt', JS_DupAtom rt x = Some rt' /\ atoms_held others rt' (x :: l).
Proof.
  intros [Hi Hl] Hx. rewrite Forall_forall in Hl. destruct (Hl x Hx) as [Hx0 Hlive]. unfold JS_DupAtom. destruct (__JS_AtomIsConst x) eqn:Ec.
  { exists rt. split; [done|]. split; [|apply Forall_cons; split; [by apply Hl|by apply Forall_forall]]. unfold hold_refs. cbn [mbind list_bind]. by rewrite (const_refs rt x Hx0 Ec). }
  rewrite (atom_const x Hx0) in Ec. apply orb_false_iff in Ec as [Et Hge]. destruct (Hlive Et) as [c Hc]. apply content_entry in Hc as (p & s & Hp & Hs & _).
  assert (get_atom rt (Z.to_nat x) = Some (p, s)) as -> by by apply get_atom_slot. cbn [mbind option_bind]. destruct (dup_interned rt _ p s Hi Hs) as (rt' & E & Hi' & _ & Ea & Hcont & _). exists rt'. split; [done|].
  assert (Hr : forall y, atom_refs rt' y = atom_refs rt y) by (intros y; unfold atom_refs, atom_ref; by rewrite Ea).
  assert (Hlv : forall y, live_atom rt y -> live_atom rt' y) by (intros y [? Hy]; split; [done|]; by rewrite Hcont).
  split.
  - unfold hold_refs. rewrite (list_bind_ext (atom_refs rt') (atom_refs rt) _ (x :: l)) by done. cbn [mbind list_bind]. assert (atom_refs rt x = [p]) as -> by (unfold atom_refs, atom_ref; by rewrite Et, Hge, Hp). exact Hi'.
  - apply Forall_cons. split; [by apply Hlv, Hl|]. apply Forall_forall. intros y Hy. by apply Hlv, Hl.
Qed.

Lemma free_atom_held others rt l x : atoms_held others rt (x :: l) -> exists rt', JS_FreeAtom rt x = Some rt' /\ atoms_held others rt' l.
Proof.
  intros [Hi Hl]. apply Forall_cons in Hl as [Hx Hl]. unfold hold_refs in Hi. cbn [mbind list_bind] in Hi. rewrite <- (assoc_L (++)) in Hi. fold (hold_refs rt l others) in Hi.
  destruct (free_atom_spec rt (hold_refs rt l others) x Hx Hi) as (rt' & E & Hi' & Hfr & Hc1 & Hc2 & _). exists rt'. split; [done|]. rewrite Forall_forall in Hl.
  assert (Hin : forall y p, y ∈ l -> p ∈ atom_refs rt y -> p ∈ hold_refs rt l others) by (intros y p Hy Hp; apply elem_of_app; left; apply list_elem_of_bind; eauto).
  assert (Hr : forall y, y ∈ l -> atom_refs rt' y = atom_refs rt y).
  { intros y Hy. destruct (Hl y Hy) as [Hy0 Hlive]. pose proof (Hin y) as Hiny. unfold atom_refs, atom_ref in *. destruct (__JS_AtomIsTaggedInt y) eqn:Et; [done|]. destruct (Z.to_nat y <? JS_ATOM_END)%nat; [done|].
    destruct (Hlive eq_refl) as [c Hc]. apply content_entry in Hc as (p & s & Hp & Hs & _). rewrite Hp in *. destruct (ro_live _ _ (proj2 (proj1 Hi')) p ltac:(apply Hiny; [done|by left])) as [s' Hs'].
    by destruct (fr_index _ _ Hfr _ p s' Hp Hs') as [-> _]. }
  split.
  - assert (Eh : hold_refs rt' l others = hold_refs rt l others); [|by rewrite Eh]. unfold hold_refs. f_equal. clear - Hr. induction l as [|y l IH]; [done|]. cbn [mbind list_bind]. rewrite Hr by by left. f_equal. apply IH. intros z Hz. apply Hr. by right.
  - apply Forall_forall. intros y Hy. destruct (Hl y Hy) as [Hy0 Hlive]. split; [done|]. intros Et. destruct (decide (Z.to_nat y = Z.to_nat x)) as [Exy|Hne]; [|rewrite Hc1 by done; by apply Hlive].
    rewrite Exy, Hc2; [rewrite <- Exy; by apply Hlive|]. intros p Hp. apply (Hin y p Hy). unfold atom_refs in *. rewrite Et, Exy. by destruct (__JS_AtomIsTaggedInt x); [apply elem_of_nil in Hp|].
Qed.

Lemma null_held others rt l : atoms_held others rt l -> (exists rt', JS_DupAtom rt 0 = Some rt' /\ atoms_held others rt' l) /\ (exists rt', JS_FreeAtom rt 0 = Some rt' /\ atoms_held others rt' l).
Proof. intros Hh. assert (Ec : __JS_AtomIsConst 0 = true) by by vm_compute. unfold JS_DupAtom, JS_FreeAtom. rewrite Ec. split; by exists rt. Qed.

Definition atom_laws (others : list nat) : AtomLaws Atoms.JSRuntime := {|
  atoms_hold := atoms_held others;
  atoms_hold_perm := fun rt l l' => atoms_held_perm others rt l l';
  dup_held := dup_atom_held others;
  free_held := free_atom_held others;
  dup_null := fun rt l Hh => proj1 (null_held others rt l Hh);
  free_null := fun rt l Hh => proj2 (null_held others rt l Hh);
|}.
