(* ===== verification/ObjectsUse.v ===== *)
(** * Using objects

    The contract of the operations on own properties, from the simulation of
    [ObjectHeap], and their behaviour over whole runs.  The examples run on
    the atom table of a fresh runtime ([AtomObjects]). *)
From S2P Require Import Prelude Native Chains Digits Atoms AtomTable AtomsProps AtomsInit AtomsUse.
From S2P Require Import Shapes ShapeTable ShapesProps ShapesOps ObjectProps ObjectChange Objects Presize ObjectHeap AtomObjects.

Section claims.
Context {V A : Type} `{AtomLaws A} (mem : nat -> bool) (addr : nat -> Z) (undefined : V).
Implicit Types rt : JSRuntime V A.

(** ** Runs *)

Lemma flat_empty {X Y : Type} (f : X -> list Y) : flat f ∅ = [].
Proof. unfold flat. by rewrite map_to_list_empty. Qed.

Lemma fresh_runtime_ok (st : A) a : atoms_hold st a -> snd (init_shape_hash (V := V) mem st) = true -> ok (fst (init_shape_hash (V := V) mem st)) [] a.
Proof.
  intros Hst. unfold init_shape_hash. destruct (mem (clock _)) eqn:Em; [|done]. intros _. cbn [fst]. split; split; cbn [clock shape_hash_bits rt_shape_hash shapes objects atoms proto_dups proto_frees]; try done.
  - eexists. apply table_empty. intros k. unfold others, sbk. rewrite lookup_empty. by case_decide.
  - intros p Hp. unfold obj_shapes in Hp. cbn [objects] in Hp. rewrite flat_empty in Hp. by apply elem_of_nil in Hp.
Qed.

(** The states reached from a fresh runtime that keeps the atoms [a]. *)
Inductive reachable (a : list Z) : JSRuntime V A -> Prop :=
| reach_init st : atoms_hold st a -> snd (init_shape_hash (V := V) mem st) = true -> reachable a (fst (init_shape_hash mem st))
| reach_step rt x rt' r : reachable a rt -> admissible a x rt -> run mem addr undefined x rt = Some (rt', r) -> reachable a rt'.

Lemma reachable_heap_ok a rt : reachable a rt -> ok rt [] a.
Proof.
  induction 1 as [st Hst Hi|rt x rt' r Hr IH Hadm E]; [by apply fresh_runtime_ok|]. destruct (run_refines mem addr undefined [] a x rt IH Hadm) as (rt2 & r2 & E2 & Hok & _). congruence.
Qed.

(** [C6] Well-formedness.  In every state reached from a fresh runtime by
    creating objects and adding, changing, deleting and freeing, with or
    without memory running out, each shape is counted exactly by the objects
    that have it, a shape outside the table has one owner, every property is
    found through the hash chains, names are distinct, the property array of
    an object covers its shape, and the references to atoms and prototypes
    are those of the shapes. *)
Theorem shapes_well_formed (a : list Z) rt : reachable a rt -> ok rt [] a.
Proof. apply reachable_heap_ok. Qed.

(** [C5] Refinement.  Every operation ends, keeps the invariant, and acts as
    on a heap where each object has its own ordered list of properties:
    adding appends to the list of that object, changing flags or a value
    touches one entry, deleting removes the entry only if it is configurable,
    and no other object changes although shapes are shared.  Without memory
    nothing happens, and the operation says so only then.  Shapes held in
    caches keep their meaning. *)
Theorem objects_refine (c : list nat) (a : list Z) (x : op V) rt : ok rt c a -> admissible a x rt ->
  exists rt' r, run mem addr undefined x rt = Some (rt', r) /\ ok rt' c a /\ spec x (heap_of rt) r (heap_of rt') /\ kept rt rt' c /\ (r = R_nomem -> short mem).
Proof. apply run_refines. Qed.

(** ** Contents *)

(** The contents an operation gives up. *)
Definition given_up rt (x : op V) (r : result) : list (Z * option V) -> Prop :=
  match x, r with
  | Op_delete o atom, R_done => fun fr => lacks (heap_of rt) o atom /\ fr = [] \/ exists proto l1 f y l2, has (heap_of rt) o proto l1 (atom, f, y) l2 /\ fr = [(f, y)]
  | Op_free o, _ => fun fr => exists proto l, view rt o = Some (proto, l) /\ fr = (fun e => (e.1.2, e.2)) <$> l
  | _, _ => fun fr => fr = []
  end.

Lemma nothing_freed rt rt' : freed rt' = freed rt -> exists fr, freed rt' = freed rt ++ fr /\ fr = [].
Proof. intros E. exists []. by rewrite app_nil_r. Qed.

Lemma new_freed rt rt' c a p proto l : new_outcome mem rt rt' c a p proto l -> freed rt' = freed rt.
Proof. intros [(_ & [_ F2 _])|[_ _ _ Hfr _ _]]; [apply F2|done]. Qed.

(** [C7] Contents.  The contents an operation gives up are exactly that of
    the property it deletes, or those of all properties of the object it
    frees, each once and with its flags; no other operation frees a content. *)
Theorem contents_released_once (c : list nat) (a : list Z) (x : op V) rt rt' (r : result) : ok rt c a -> admissible a x rt -> run mem addr undefined x rt = Some (rt', r) ->
  exists fr, freed rt' = freed rt ++ fr /\ given_up rt x r fr.
Proof.
  intros Hok Hadm E. destruct x as [proto|proto n|o atom flags v|o atom flags|o atom v|o atom|o]; cbn [run admissible given_up] in *.
  - destruct (JS_NewObjectProtoClass_spec mem addr rt c a proto Hok Hadm) as (rt1 & p & E1 & Ho & _). unfold created_result in E. rewrite E1 in E. injection E as <- <-. by eapply nothing_freed, new_freed.
  - destruct (JS_NewObjectProtoClassAlloc_spec mem rt c a proto n Hok) as (rt1 & p & E1 & Ho & _). unfold created_result in E. rewrite E1 in E. injection E as <- <-. by eapply nothing_freed, new_freed.
  - apply nothing_freed. destruct Hadm as (Ha & Hin & Hfl & (proto & l & Hh & Hn) & Hmax). destruct (heap_object rt c a o (proj2 Hok) ltac:(by rewrite Hh)) as (ob & s & Ho & Hs).
    pose proof (view_eq rt o ob s Ho Hs) as Hv. unfold heap_of in Hh. rewrite Hv in Hh. injection Hh as <- <-. rewrite atom_in_live in Hn by done.
    destruct (add_property_spec mem rt c a o ob s atom flags Hok Ho Hs) as (rt1 & i & E1 & Hadd); try done; [rewrite <- (raw_length rt c a o ob s (proj2 Hok) Ho Hs); by eapply Hmax|by eapply raw_found; [apply Hok|exact Ho|exact Hs|]|].
    rewrite E1 in E. cbn [mbind option_bind] in E. destruct i as [i|]; [|injection E as <- <-; apply Hadd]. destruct Hadd as [_ _ Hfr _ _ _]. destruct (set_value rt1 o i v) as [rt2|] eqn:E2; [|done]. injection E as <- <-. rewrite <- Hfr. unfold set_value in E2. by unbind E2.
  - apply nothing_freed. destruct Hadm as (Ha & Hfl & Hh). destruct (heap_object rt c a o (proj2 Hok) Hh) as (ob & s & Ho & Hs). destruct (find_own_property_spec rt c a o ob s atom Hok Ho Hs Ha) as (i & E1 & Hi).
    rewrite E1 in E. cbn [mbind option_bind] in E. destruct i as [i|]; [|by injection E as <- <-]. destruct Hi as (pr & Hi & _). destruct (js_update_property_flags_spec mem rt c a o ob s i pr flags Hok Ho Hs Hi Hfl) as (rt1 & b & E2 & Hb).
    rewrite E2 in E. injection E as <- <-. destruct b; [by destruct Hb|apply Hb].
  - apply nothing_freed. destruct (find_own_property rt o atom) as [[i|]|]; cbn [mbind option_bind] in E; [|by injection E as <- <-|done]. destruct (set_value rt o i v) as [rt2|] eqn:E2; [|done]. injection E as <- <-. unfold set_value in E2. by unbind E2.
  - destruct Hadm as (Ha & Hh). destruct (heap_object rt c a o (proj2 Hok) Hh) as (ob & s & Ho & Hs). destruct (delete_property_spec mem undefined rt c a o ob s atom Hok Ho Hs Ha) as (rt1 & d & E1 & Hd). rewrite E1 in E. injection E as <- <-.
    destruct d; cbn [delete_outcome] in Hd.
    + destruct Hd as [(_ & Hf & ->)|(i & pr & y & Hi & Hat & _ & Hy & [_ _ Hfr _ _])]; [exists []; rewrite app_nil_r; split; [done|left; split; [by eapply found_lacks|done]]|].
      eexists. split; [exact Hfr|]. right. destruct (found_has rt c a o ob s atom i pr Hok Ho Hs Ha Hi Hat) as (y' & l & _ & Hy' & _ & Hhas). assert (y' = y) as -> by congruence. eauto 10.
    + destruct Hd as [_ ->]. by apply nothing_freed.
    + apply nothing_freed. apply Hd.
    + destruct Hd as (_ & _ & ->). by apply nothing_freed.
  - destruct (heap_object rt c a o (proj2 Hok) Hadm) as (ob & s & Ho & Hs). destruct (free_object_spec rt c a o ob s Hok Ho Hs) as (rt1 & E1 & [_ _ _ (proto & l & Hv & Hfr) _ _]). rewrite E1 in E. injection E as <- <-. eexists. split; [exact Hfr|]. eauto.
Qed.

(** ** Nothing is kept *)

(** [C8] No leak.  When the last object is gone no shape is left, every
    reference taken to a prototype has been given back, and the references to
    atoms are those held before. *)
Theorem shapes_no_leak (a : list Z) rt : reachable a rt -> objects rt = ∅ -> shapes rt = ∅ /\ proto_dups rt ≡ₚ proto_frees rt /\ atoms_hold (atoms rt) a.
Proof.
  intros Hr Ho. pose proof (reachable_heap_ok a rt Hr) as Hok.
  destruct Hok as [Ht [C1 C2 C3 C4 C5 C6 C7 C8 C9]]. assert (Hs : shapes rt = ∅).
  { apply map_eq. intros p. rewrite lookup_empty. destruct (shapes rt !! p) as [s|] eqn:Es; [|done]. destruct (C3 p s Es) as [E Hpos]. unfold shape_refs, obj_shapes in E. rewrite Ho, flat_empty in E. simpl in E. lia. }
  split_and!; [done| |].
  - unfold live_protos in C8. by rewrite Hs, flat_empty, app_nil_r in C8.
  - unfold live_atoms in C7. by rewrite Hs, flat_empty in C7.
Qed.

(** ** Constructors *)

(** [C9] Pre-sized instances.  [js_ctor_presize_new_this] returns, with no
    effect on other objects, either the object that creating an empty object
    and adding the fields one by one gives, and then every field could be
    stored through the prototype chain, or an empty object, and then a field
    could not or memory ran out; it fails only without memory.  The cached
    shape stays that of the fields. *)
Theorem presize_indistinguishable (c : list nat) (a : list Z) rt (cp : JSCtorPresize) (proto : nat) (chain : list nat) :
  ok rt (cache_refs cp ++ c) a -> cache_ok rt cp -> good_fields a (cp_fields cp) -> proto_chain rt proto chain -> shape_hash_bits rt < 31 ->
  exists rt' cp' p, js_ctor_presize_new_this mem addr undefined rt cp proto = Some (rt', cp', p) /\ this_made mem undefined rt rt' c a p proto chain cp cp' /\
    (Forall (fun f => assignable rt f chain) (cp_fields cp) -> ~ short mem ->
      exists rt1 q rt2, JS_NewObjectProtoClass mem addr rt proto = Some (rt1, q) /\ add_fields mem undefined rt1 q (cp_fields cp) = Some (rt2, true) /\ view rt' p = view rt2 q).
Proof.
  intros Hok Hca Hgf Hch Hb. destruct (presize_new_this_spec mem addr undefined rt c a cp proto chain Hok Hca Hgf Hch Hb) as (rt' & cp' & p & E & Hm). exists rt', cp', p. split; [done|]. split; [done|]. intros Hall Hmem.
  destruct (tm_this _ _ _ _ _ _ _ _ _ _ _ Hm) as [[_ Hs]|(_ & _ & _ & [[Hv _]|[_ [Hn|Hs]]])]; [done| |done|done]. destruct Hgf as (Hf & Hnd & Hlen).
  destruct (JS_NewObjectProtoClass_spec mem addr rt (cache_refs cp ++ c) a proto Hok ltac:(lia)) as (rt1 & q & E1 & H1 & _). destruct H1 as [(_ & [_ _ Hs])|[Hok1 _ _ _ Hv1 _]]; [done|].
  destruct (add_fields_spec mem undefined (cp_fields cp) rt1 (cache_refs cp ++ c) a q proto [] Hok1 Hv1) as (rt2 & b & d & E2 & _ & _ & _ & Hv2 & _ & Hb2); [simpl; lia| |done|].
  { eapply Forall_impl; [exact Hf|]. intros f [? ?]. split_and!; [done| |done]. by intros (? & ? & ?%elem_of_nil). }
  destruct b; [|done]. destruct Hb2 as [-> _]. exists rt1, q, rt2. split_and!; [done|done|]. by rewrite Hv, Hv2.
Qed.
End claims.

(** ** Examples

    A fresh runtime, an empty object, and one with the property [length]. *)

#[local] Instance table_laws : AtomLaws Atoms.JSRuntime := atom_laws [].

Definition addr16 : nat -> Z := fun p => 16 * Z.of_nat p.
Definition length_atom : Z := 50.
Definition start : JSRuntime Z Atoms.JSRuntime := fst (init_shape_hash all_mem initial).
Definition empty_object : JSRuntime Z Atoms.JSRuntime * nat := match JS_NewObjectProtoClass all_mem addr16 start 0 with Some r => r | None => (start, 0%nat) end.
Definition add_length : op Z := Op_add (snd empty_object) length_atom JS_PROP_C_W_E 3.
Definition with_length : JSRuntime Z Atoms.JSRuntime := match run all_mem addr16 0 add_length (fst empty_object) with Some r => fst r | None => start end.

Lemma never_short : ~ short all_mem.
Proof. intros [n Hn]. discriminate Hn. Qed.

Lemma length_held : atoms_hold initial [length_atom].
Proof.
  split; [|apply Forall_cons; split; [|apply Forall_nil; exact I]].
  - assert (E : hold_refs initial [length_atom] [] = []).
    { unfold hold_refs. cbn [mbind list_bind]. rewrite (const_refs initial length_atom); [reflexivity|unfold is_jsatom, length_atom; lia|vm_compute; reflexivity]. }
    rewrite E. apply initial_spec.
  - apply (text_live _ _ (bytes_of "length")); [unfold is_jsatom, length_atom; lia|exact length_text].
Qed.

Lemma start_reachable : reachable all_mem addr16 0 [length_atom] start.
Proof. apply (reach_init all_mem addr16 0 [length_atom] initial); [exact length_held|reflexivity]. Qed.

Lemma start_ok : ok start [] [length_atom].
Proof. exact (reachable_heap_ok _ _ _ _ _ start_reachable). Qed.

Lemma empty_object_spec : JS_NewObjectProtoClass all_mem addr16 start 0 = Some empty_object /\ ok (fst empty_object) [] [length_atom] /\ view (fst empty_object) (snd empty_object) = Some (0%nat, []).
Proof.
  destruct (JS_NewObjectProtoClass_spec all_mem addr16 start [] [length_atom] 0 start_ok ltac:(reflexivity)) as (rt & p & E & Ho & _).
  assert (Ee : empty_object = (rt, p)) by (unfold empty_object; rewrite E; reflexivity). rewrite Ee. destruct Ho as [(_ & [_ _ Hs])|[H1 _ _ _ H2 _]]; [destruct (never_short Hs)|]. split; [exact E|]. split; [exact H1|exact H2].
Qed.

Lemma add_length_admissible : admissible [length_atom] add_length (fst empty_object).
Proof.
  destruct empty_object_spec as (_ & _ & Hv). split; [discriminate|]. split; [left|]. split; [exact cwe_range|]. split.
  - exists 0%nat, []. split; [unfold heap_of; rewrite Hv; reflexivity|]. intros (f & x & Hin). apply elem_of_nil in Hin. exact Hin.
  - intros proto l Hl. rewrite Hv in Hl. injection Hl as _ <-. cbn [length]. lia.
Qed.

Lemma with_length_spec : exists r, run all_mem addr16 0 add_length (fst empty_object) = Some (with_length, r) /\ ok with_length [] [length_atom] /\ heap_of with_length (snd empty_object) = Some (0%nat, [(length_atom, JS_PROP_C_W_E, Some 3)]).
Proof.
  destruct empty_object_spec as (_ & Hok & Hv). destruct (run_refines all_mem addr16 0 [] [length_atom] add_length (fst empty_object) Hok add_length_admissible) as (rt & r & E & Hok' & Hs & _ & Hm).
  assert (Ew : with_length = rt) by (unfold with_length; rewrite E; reflexivity). rewrite Ew. exists r. split; [exact E|]. split; [exact Hok'|]. destruct r; try (destruct Hs; fail); [|destruct (never_short (Hm eq_refl))].
  destruct Hs as (proto & l & Hh & Hs). unfold heap_of in Hh. rewrite Hv in Hh. injection Hh as <- <-. rewrite (Hs (snd empty_object)). unfold upd. rewrite Nat.eqb_refl. reflexivity.
Qed.

Lemma shapes_well_formed_witness : ok start [] [length_atom].
Proof. exact (shapes_well_formed all_mem addr16 0 [length_atom] start start_reachable). Defined.

Lemma objects_refine_witness : exists rt r, run all_mem addr16 0 add_length (fst empty_object) = Some (rt, r) /\ r = R_done /\ heap_of rt (snd empty_object) = Some (0%nat, [(length_atom, JS_PROP_C_W_E, Some 3)]).
Proof.
  destruct empty_object_spec as (_ & Hok & Hv). destruct (objects_refine all_mem addr16 0 [] [length_atom] add_length (fst empty_object) Hok add_length_admissible) as (rt & r & E & _ & Hs & _ & Hm).
  exists rt, r. split; [exact E|]. destruct r; try (destruct Hs; fail); [|destruct (never_short (Hm eq_refl))]. split; [reflexivity|].
  destruct Hs as (proto & l & Hh & Hs). unfold heap_of in Hh. rewrite Hv in Hh. injection Hh as <- <-. rewrite (Hs (snd empty_object)). unfold upd. rewrite Nat.eqb_refl. reflexivity.
Defined.

Lemma contents_released_once_witness : exists rt, run all_mem addr16 0 (Op_delete (snd empty_object) length_atom) with_length = Some (rt, R_done) /\ freed rt = freed with_length ++ [(JS_PROP_C_W_E, Some 3)].
Proof.
  destruct with_length_spec as (_ & _ & Hok & Hh). set (x := Op_delete (snd empty_object) length_atom).
  assert (Hadm : admissible [length_atom] x with_length) by (split; [discriminate|rewrite Hh; eexists; reflexivity]).
  destruct (run_refines all_mem addr16 0 [] [length_atom] x with_length Hok Hadm) as (rt & r & E & _ & Hs & _ & Hm).
  destruct (contents_released_once all_mem addr16 0 [] [length_atom] x with_length rt r Hok Hadm E) as (fr & Hfr & Hg). exists rt.
  assert (Hone : forall proto l1 f y l2, has (heap_of with_length) (snd empty_object) proto l1 (length_atom, f, y) l2 -> f = JS_PROP_C_W_E /\ y = Some 3).
  { intros proto l1 f y l2 Hhas. unfold has in Hhas. rewrite Hh in Hhas. destruct l1 as [|e l1]; [injection Hhas as _ <- <- _; split; reflexivity|]. injection Hhas as _ _ Hl. destruct l1; discriminate Hl. }
  assert (Hno : ~ lacks (heap_of with_length) (snd empty_object) length_atom).
  { intros (proto & l & Hl & Hn). rewrite Hh in Hl. injection Hl as _ <-. apply Hn. exists JS_PROP_C_W_E, (Some 3). left. }
  destruct r; cbn [x spec] in Hs; try (destruct Hs; fail).
  - split; [exact E|]. cbn [x given_up] in Hg. destruct Hg as [[Hl _]|(proto & l1 & f & y & l2 & Hhas & ->)]; [destruct (Hno Hl)|]. destruct (Hone _ _ _ _ _ Hhas) as [<- <-]. exact Hfr.
  - destruct Hs as [(proto & l1 & f & y & l2 & Hhas & Hc) _]. destruct (Hone _ _ _ _ _ Hhas) as [-> _]. discriminate Hc.
  - destruct Hs as [Hl _]. destruct (Hno Hl).
  - destruct (never_short (Hm eq_refl)).
Defined.

Lemma shapes_no_leak_witness : shapes start = ∅ /\ atoms_hold (atoms start) [length_atom].
Proof. destruct (shapes_no_leak all_mem addr16 0 [length_atom] start start_reachable eq_refl) as (H1 & _ & H2). split; [exact H1|exact H2]. Defined.

(** A constructor with the field [length]. *)
Definition ctor : JSCtorPresize := mkPresize [length_atom] 0.

Lemma presize_indistinguishable_witness : exists rt cp p, js_ctor_presize_new_this all_mem addr16 0 start ctor 0 = Some (rt, cp, p) /\ view rt p = Some (0%nat, [(length_atom, JS_PROP_C_W_E, Some 0)]).
Proof.
  assert (Hgf : good_fields [length_atom] (cp_fields ctor)).
  { split; [apply Forall_cons; split; [split; [discriminate|left]|apply Forall_nil; exact I]|]. split; [apply NoDup_singleton|reflexivity]. }
  assert (Hca : cache_ok start ctor) by (intros Hn; destruct Hn; reflexivity).
  destruct (presize_indistinguishable all_mem addr16 0 [] [length_atom] start ctor 0 [] start_ok Hca Hgf (proto_chain_nil _) ltac:(reflexivity)) as (rt & cp & p & E & Hm & _). exists rt, cp, p. split; [exact E|].
  destruct (tm_this _ _ _ _ _ _ _ _ _ _ _ Hm) as [[_ Hs]|(_ & _ & _ & [[Hv _]|[_ [Hn|Hs]]])]; [destruct (never_short Hs)|exact Hv| |destruct (never_short Hs)].
  destruct Hn. apply Forall_cons. split; [apply assignable_none|apply Forall_nil; exact I].
Defined.
