(* ===== verification/Sort.v ===== *)
(** * Sorting (src/cutils.c)

    [rqsort] sorts an array with a quicksort that partitions into smaller,
    equal and greater elements, keeps its segments on a stack of 50 entries,
    sorts small segments by insertion, and falls back on [heapsortx] when a
    segment is too deep.  The array is a list and addresses are indices; an
    access outside the array, or a 51st entry of the stack, is [None].  The
    comparison may have a state of its own and answer anything. *)
From S2P Require Import Prelude.

Section sort.
Context {X C : Type} (cmp : X -> X -> C -> Z * C).

(** The array and the state of the comparison. *)
Notation state := (list X * C)%type.

Definition compare (i j : nat) (st : state) : option (Z * state) :=
  x ← st.1 !! i; y ← st.1 !! j;
  let '(c, s) := cmp x y st.2 in Some (c, (st.1, s)).

Definition swap (i j : nat) (st : state) : option state :=
  x ← st.1 !! i; y ← st.1 !! j;
  Some (<[i := y]> (<[j := x]> st.1), st.2).

(** [swap_block]: the [k] elements from [a] and from [b] are exchanged. *)
Fixpoint swap_block (k a b : nat) (st : state) : option state :=
  match k with
  | O => Some st
  | S k => st ← swap a b st; swap_block k (S a) (S b) st
  end.

(** ** Heap sort *)

(** The loop [for (r = i; (c = r * 2 + size) < n; r = c)]. *)
Fixpoint sift (fuel base r n : nat) (st : state) : option state :=
  match fuel with
  | O => None
  | S fuel =>
      let c := (r * 2 + 1)%nat in
      if (c <? n)%nat then
        '(c, st) ← if (c <? n - 1)%nat then
                     '(v, st) ← compare (base + c) (base + c + 1) st;
                     Some (if v <=? 0 then (c + 1)%nat else c, st)
                   else Some (c, st);
        '(v, st) ← compare (base + r) (base + c) st;
        if 0 <? v then Some st
        else st ← swap (base + r) (base + c) st; sift fuel base c n st
      else Some st
  end.

(** [while (i > 0)]: the heap is built from the last parent down. *)
Fixpoint heapify (i base n : nat) (st : state) : option state :=
  match i with
  | O => Some st
  | S i => st ← sift n base i n st; heapify i base n st
  end.

(** [for (i = n - size; i > 0; i -= size)]: the largest goes to the end. *)
Fixpoint extract (i base : nat) (st : state) : option state :=
  match i with
  | O => Some st
  | S i' => st ← swap base (base + i) st; st ← sift i base 0 i st; extract i' base st
  end.

Definition heapsortx (base nmemb : nat) (st : state) : option state :=
  if (1 <? nmemb)%nat then
    st ← heapify (nmemb / 2) base nmemb st;
    extract (nmemb - 1) base st
  else Some st.

(** ** Quicksort *)

Definition med3 (a b c : nat) (st : state) : option (nat * state) :=
  '(v, st) ← compare a b st;
  if v <? 0 then
    '(v, st) ← compare b c st;
    if v <? 0 then Some (b, st)
    else '(v, st) ← compare a c st; Some (if v <? 0 then c else a, st)
  else
    '(v, st) ← compare b c st;
    if 0 <? v then Some (b, st)
    else '(v, st) ← compare a c st; Some (if v <? 0 then a else c, st).

(** Indices are relative to the segment at [ptr], whose first element is the
    pivot.  The first inner loop moves [i] up, the second [j] down. *)
Fixpoint scan_up (fuel ptr i lt j : nat) (st : state) : option (nat * nat * state) :=
  match fuel with
  | O => None
  | S fuel =>
      if (i <? j)%nat then
        '(c, st) ← compare ptr (ptr + i) st;
        if 0 <=? c then
          if c =? 0 then st ← swap (ptr + lt) (ptr + i) st; scan_up fuel ptr (i + 1) (lt + 1) j st
          else scan_up fuel ptr (i + 1) lt j st
        else Some (i, lt, st)
      else Some (i, lt, st)
  end.

Fixpoint scan_down (fuel ptr i j gt : nat) (st : state) : option (nat * nat * state) :=
  match fuel with
  | O => None
  | S fuel =>
      let j := (j - 1)%nat in
      if (i <? j)%nat then
        '(c, st) ← compare ptr (ptr + j) st;
        if c <=? 0 then
          if c =? 0 then st ← swap (ptr + (gt - 1)) (ptr + j) st; scan_down fuel ptr i j (gt - 1) st
          else scan_down fuel ptr i j gt st
        else Some (j, gt, st)
      else Some (j, gt, st)
  end.

Fixpoint partition_loop (fuel ptr i lt j gt : nat) (st : state) : option (nat * nat * nat * state) :=
  match fuel with
  | O => None
  | S fuel =>
      '(i, lt, st) ← scan_up (S j) ptr i lt j st;
      '(j, gt, st) ← scan_down (S j) ptr i j gt st;
      if (j <=? i)%nat then Some (i, lt, gt, st)
      else st ← swap (ptr + i) (ptr + j) st; partition_loop fuel ptr (i + 1) lt j gt st
  end.

(** One round on the segment at [ptr]: the numbers of elements before and up
    to the middle part. *)
Definition partition (ptr nmemb : nat) (st : state) : option (nat * nat * state) :=
  let m4 := (nmemb / 4)%nat in
  '(m, st) ← med3 (ptr + m4) (ptr + 2 * m4) (ptr + 3 * m4) st;
  st ← swap ptr m st;
  '(i, lt, gt, st) ← partition_loop nmemb ptr 1 1 nmemb nmemb st;
  let span := (lt `min` (i - lt))%nat in
  st ← swap_block span ptr (ptr + i - span) st;
  let span := ((nmemb - gt) `min` (gt - i))%nat in
  st ← swap_block span (ptr + i) (ptr + nmemb - span) st;
  Some ((i - lt)%nat, (nmemb - (gt - i))%nat, st).

(** A segment on the stack: base, count and depth. *)
Notation segment := (nat * nat * nat)%type.

Definition push (x : segment) (stack : list segment) : option (list segment) :=
  if (length stack <? 50)%nat then Some (x :: stack) else None.

(** [while (nmemb > 6)]; the result is the segment left for the insertion
    sort.  There are at most 50 rounds. *)
Fixpoint rounds (fuel ptr nmemb depth : nat) (stack : list segment) (st : state) : option (nat * nat * list segment * state) :=
  if (nmemb <=? 6)%nat then Some (ptr, nmemb, stack, st)
  else
    match fuel with
    | O => st ← heapsortx ptr nmemb st; Some (ptr, 0%nat, stack, st)
    | S fuel =>
        let depth := (depth + 1)%nat in
        '(lt, gt, st) ← partition ptr nmemb st;
        if (nmemb - gt <? lt)%nat then
          stack ← push (ptr, lt, depth) stack;
          rounds fuel (ptr + gt) (nmemb - gt) depth stack st
        else
          stack ← push ((ptr + gt)%nat, (nmemb - gt)%nat, depth) stack;
          rounds fuel ptr lt depth stack st
    end.

(** The inner loop of the insertion sort, for the element [j]. *)
Fixpoint insert_down (j ptr : nat) (st : state) : option state :=
  match j with
  | O => Some st
  | S j' =>
      '(c, st) ← compare (ptr + j') (ptr + j) st;
      if 0 <? c then st ← swap (ptr + j) (ptr + j') st; insert_down j' ptr st
      else Some st
  end.

Fixpoint insertion (k i ptr : nat) (st : state) : option state :=
  match k with
  | O => Some st
  | S k => st ← insert_down i ptr st; insertion k (i + 1) ptr st
  end.

(** [while (sp > stack)]. *)
Fixpoint sort_loop (fuel : nat) (stack : list segment) (st : state) : option state :=
  match stack, fuel with
  | [], _ => Some st
  | _, O => None
  | (ptr, nmemb, depth) :: stack, S fuel =>
      '(ptr, nmemb, stack, st) ← rounds (50 - depth) ptr nmemb depth stack st;
      st ← insertion (nmemb - 1) 1 ptr st;
      sort_loop fuel stack st
  end.

Definition rqsort (l : list X) (s : C) : option state :=
  if (length l <? 2)%nat then Some (l, s)
  else
    stack ← push (0%nat, length l, 0%nat) [];
    sort_loop (length l + 1) stack (l, s).
End sort.
