(* ===== verification/SortProps.v ===== *)
(** * Sorting: correctness

    With any comparison the sort ends, stays inside the array and the stack,
    and permutes the array; with a comparison that orders the elements the
    result is in order. *)
From S2P Require Import Prelude Sort.

(** ** Changes inside a segment *)

Section inside.
Context {X : Type}.
Implicit Types l : list X.

(** [l'] permutes the [n] elements of [l] at [b]. *)
Record inside (b n : nat) (l l' : list X) : Prop := {
  in_perm : l' ≡ₚ l;
  in_out : forall k, (k < b \/ b + n <= k)%nat -> l' !! k = l !! k;
}.

Lemma inside_refl b n l : inside b n l l.
Proof. by split. Qed.

Lemma inside_trans b n l1 l2 l3 : inside b n l1 l2 -> inside b n l2 l3 -> inside b n l1 l3.
Proof. intros [A1 A2] [B1 B2]. split; [by rewrite B1|intros k Hk; by rewrite B2, A2]. Qed.

Lemma inside_length b n l l' : inside b n l l' -> length l' = length l.
Proof. intros [Hp _]. by rewrite Hp. Qed.

Lemma inside_widen b n b' n' l l' : (b' <= b)%nat -> (b + n <= b' + n')%nat -> inside b n l l' -> inside b' n' l l'.
Proof. intros H1 H2 [A1 A2]. split; [done|intros k Hk; apply A2; lia]. Qed.

(** The segment as a list. *)
Definition seg (b n : nat) (l : list X) : list X := take n (drop b l).

Lemma seg_lookup b n l k : (k < n)%nat -> seg b n l !! k = l !! (b + k)%nat.
Proof. intros Hk. unfold seg. rewrite lookup_take_lt by done. by rewrite lookup_drop. Qed.

Lemma seg_length b n l : (b + n <= length l)%nat -> length (seg b n l) = n.
Proof. intros H. unfold seg. rewrite length_take, length_drop. lia. Qed.

Lemma inside_seg b n l l' : (b + n <= length l)%nat -> inside b n l l' -> seg b n l' ≡ₚ seg b n l.
Proof.
  intros Hn Hin. pose proof (inside_length _ _ _ _ Hin) as Hlen. destruct Hin as [Hp Ho].
  assert (E1 : take b l' = take b l) by (apply list_eq; intros k; destruct (decide (k < b)%nat); [rewrite !lookup_take_lt by done; apply Ho; lia|by rewrite !lookup_take_ge by lia]).
  assert (E2 : drop (b + n) l' = drop (b + n) l) by (apply list_eq; intros k; rewrite !lookup_drop; apply Ho; lia).
  assert (Hsplit : forall m : list X, take b m ++ seg b n m ++ drop (b + n) m = m) by (intros m; unfold seg; rewrite <- drop_drop, take_drop; by rewrite take_drop).
  rewrite <- (Hsplit l), <- (Hsplit l'), E1, E2 in Hp. apply Permutation_app_inv_l in Hp. by apply Permutation_app_inv_r in Hp.
Qed.

(** What holds of all elements of the segment still does. *)
Lemma inside_forall b n l l' (P : X -> Prop) : (b + n <= length l)%nat -> inside b n l l' ->
  (forall k x, (b <= k < b + n)%nat -> l !! k = Some x -> P x) -> forall k x, (b <= k < b + n)%nat -> l' !! k = Some x -> P x.
Proof.
  intros Hn Hin HP k x Hk Hx. assert (Hseg : seg b n l' !! (k - b)%nat = Some x) by (rewrite seg_lookup by lia; replace (b + (k - b))%nat with k by lia; done).
  apply list_elem_of_lookup_2 in Hseg. rewrite (inside_seg b n l l' Hn Hin) in Hseg. apply list_elem_of_lookup in Hseg as [j Hj]. pose proof (lookup_lt_Some _ _ _ Hj) as Hlt. rewrite seg_length in Hlt by done.
  rewrite seg_lookup in Hj by done. apply (HP (b + j)%nat); [lia|done].
Qed.

(** *** Exchanging two elements *)

Definition exchange (i j k : nat) : nat := if (k =? i)%nat then j else if (k =? j)%nat then i else k.

Lemma swap_list_lookup l i j x y : l !! i = Some x -> l !! j = Some y -> forall k, <[i := y]> (<[j := x]> l) !! k = l !! exchange i j k.
Proof.
  intros Hi Hj k. unfold exchange. pose proof (lookup_lt_Some _ _ _ Hi). pose proof (lookup_lt_Some _ _ _ Hj). destruct (Nat.eqb_spec k i) as [->|].
  - rewrite list_lookup_insert_eq by (rewrite length_insert; done). done.
  - rewrite list_lookup_insert_ne by done. destruct (Nat.eqb_spec k j) as [->|]; [by rewrite list_lookup_insert_eq|by rewrite list_lookup_insert_ne].
Qed.

Lemma swap_list_perm l i j x y : l !! i = Some x -> l !! j = Some y -> <[i := y]> (<[j := x]> l) ≡ₚ l.
Proof.
  intros Hi Hj. destruct (decide (i = j)) as [->|Hne].
  - assert (x = y) as -> by congruence. by rewrite (list_insert_id l), (list_insert_id l).
  - pose proof (lookup_lt_Some _ _ _ Hi). pose proof (lookup_lt_Some _ _ _ Hj). apply Permutation_inj. split; [by rewrite !length_insert|].
    exists (exchange i j). split; [|intros k; by rewrite (swap_list_lookup l i j x y)]. unfold exchange. intros a b. repeat case_match; rewrite ?Nat.eqb_eq, ?Nat.eqb_neq in *; lia.
Qed.
End inside.

(** ** Comparisons *)

(** The answers order the elements. *)
Record weak_order {X : Type} (c : X -> X -> Z) : Prop := {
  wo_sym : forall x y, Z.sgn (c y x) = - Z.sgn (c x y);
  wo_trans : forall x y z, c x y <= 0 -> c y z <= 0 -> c x z <= 0;
}.

Section proofs.
Context {X C : Type} (cmp : X -> X -> C -> Z * C) (c : X -> X -> Z).
Implicit Types (l : list X) (s : C).

Definition faithful : Prop := (forall x y s, (cmp x y s).1 = c x y) /\ weak_order c.

Definition rng l (a b : nat) (P : X -> Prop) : Prop := forall k x, (a <= k < b)%nat -> l !! k = Some x -> P x.

Lemma rng_same l l' a b P : (forall k, (a <= k < b)%nat -> l' !! k = l !! k) -> rng l a b P -> rng l' a b P.
Proof. intros Hs Hr k x Hk. rewrite Hs by done. by apply Hr. Qed.

Lemma rng_sub l a b a' b' P : (a <= a')%nat -> (b' <= b)%nat -> rng l a b P -> rng l a' b' P.
Proof. intros H1 H2 Hr k x Hk. apply Hr. lia. Qed.

Lemma rng_nil l a b P : (b <= a)%nat -> rng l a b P.
Proof. intros H k x Hk. lia. Qed.

Lemma rng_snoc l a b P x : rng l a b P -> l !! b = Some x -> P x -> rng l a (b + 1) P.
Proof. intros Hr Hx HP k y Hk Hy. destruct (decide (k = b)) as [->|]; [congruence|]. apply (Hr k y); [lia|done]. Qed.

Lemma rng_cons l a b P x : rng l (a + 1) b P -> l !! a = Some x -> P x -> rng l a b P.
Proof. intros Hr Hx HP k y Hk Hy. destruct (decide (k = a)) as [->|]; [congruence|]. apply (Hr k y); [lia|done]. Qed.

Lemma compare_at_spec l s i j : (i < length l)%nat -> (j < length l)%nat ->
  exists v s' x y, compare cmp i j (l, s) = Some (v, (l, s')) /\ l !! i = Some x /\ l !! j = Some y /\ (faithful -> v = c x y).
Proof.
  intros Hi Hj. destruct (lookup_lt_is_Some_2 l i Hi) as [x Hx], (lookup_lt_is_Some_2 l j Hj) as [y Hy]. unfold compare. cbn [fst snd]. rewrite Hx. cbn [mbind option_bind]. rewrite Hy. cbn [mbind option_bind].
  destruct (cmp x y s) as [v s'] eqn:E. exists v, s', x, y. split_and!; try done. intros [Hf _]. specialize (Hf x y s). by rewrite E in Hf.
Qed.

Lemma swap_spec l s i j : (i < length l)%nat -> (j < length l)%nat ->
  exists l', swap i j (l, s) = Some (l', s) /\ (forall k, l' !! k = l !! exchange i j k) /\ l' ≡ₚ l /\ length l' = length l.
Proof.
  intros Hi Hj. destruct (lookup_lt_is_Some_2 l i Hi) as [x Hx], (lookup_lt_is_Some_2 l j Hj) as [y Hy]. unfold swap. cbn [fst snd]. rewrite Hx. cbn [mbind option_bind]. rewrite Hy. cbn [mbind option_bind].
  eexists. split; [done|]. split_and!; [by apply swap_list_lookup|by apply swap_list_perm|by rewrite !length_insert].
Qed.

Lemma exchange_l i j : exchange i j i = j.
Proof. unfold exchange. by rewrite Nat.eqb_refl. Qed.

Lemma exchange_r i j : exchange i j j = i.
Proof. unfold exchange. rewrite Nat.eqb_refl. by destruct (Nat.eqb_spec j i). Qed.

Lemma exchange_ne i j k : k <> i -> k <> j -> exchange i j k = k.
Proof. intros H1 H2. unfold exchange. destruct (Nat.eqb_spec k i); [done|]. by destruct (Nat.eqb_spec k j). Qed.

Lemma swap_inside l l' i j b n : (forall k, l' !! k = l !! exchange i j k) -> l' ≡ₚ l -> (b <= i < b + n)%nat -> (b <= j < b + n)%nat -> inside b n l l'.
Proof. intros Hk Hp Hi Hj. split; [done|]. intros k Hout. rewrite Hk, exchange_ne by lia. done. Qed.

(** ** The partition *)

Definition eqp (p x : X) : Prop := c p x = 0.
Definition less (p x : X) : Prop := 0 < c p x.
Definition more (p x : X) : Prop := c p x < 0.

Lemma scan_up_spec ptr j p : forall fuel l s i lt, (ptr + j <= length l)%nat -> (1 <= lt <= i)%nat -> (i <= j)%nat -> (j - i < fuel)%nat -> l !! ptr = Some p ->
  exists i' lt' l' s', scan_up cmp fuel ptr i lt j (l, s) = Some (i', lt', (l', s')) /\ (i <= i' <= j)%nat /\ (lt <= lt' <= i')%nat /\ inside (ptr + 1) (j - 1) l l' /\
    (forall k, (ptr + i' <= k)%nat -> l' !! k = l !! k) /\
    (faithful -> rng l (ptr + 1) (ptr + lt) (eqp p) -> rng l (ptr + lt) (ptr + i) (less p) ->
      rng l' (ptr + 1) (ptr + lt') (eqp p) /\ rng l' (ptr + lt') (ptr + i') (less p) /\ ((i' < j)%nat -> exists x, l' !! (ptr + i')%nat = Some x /\ more p x)).
Proof.
  induction fuel as [|fuel IH]; intros l s i lt Hlen Hlt Hij Hf Hp; [lia|]. cbn [scan_up]. destruct (Nat.ltb_spec i j) as [Hi|Hi].
  2: { exists i, lt, l, s. split_and!; try done; try lia. intros _ H1 H2. split_and!; [done|done|lia]. }
  destruct (compare_at_spec l s ptr (ptr + i)) as (v & s1 & x & y & -> & Hx & Hy & Hv); [lia|lia|]. cbn [mbind option_bind]. assert (x = p) as -> by congruence.
  destruct (Z.leb_spec 0 v) as [Hv0|Hv0].
  2: { exists i, lt, l, s1. split_and!; try done; try lia. intros Hfa H1 H2. split_and!; [done|done|]. intros _. exists y. split; [done|]. unfold more. rewrite <- Hv by done. done. }
  destruct (Z.eqb_spec v 0) as [->|Hvn].
  - destruct (swap_spec l s1 (ptr + lt) (ptr + i)) as (l1 & -> & Hk1 & Hp1 & Hl1); [lia|lia|]. cbn [mbind option_bind].
    destruct (IH l1 s1 (i + 1)%nat (lt + 1)%nat) as (i' & lt' & l' & s' & -> & B1 & B2 & B3 & B4 & B5); [lia|lia|lia|lia|rewrite Hk1, exchange_ne by lia; done|].
    exists i', lt', l', s'. split_and!; try done; try lia.
    + eapply inside_trans; [|exact B3]. eapply swap_inside; [exact Hk1|done|lia|lia].
    + intros k Hk. rewrite B4 by done. rewrite Hk1, exchange_ne by lia. done.
    + intros Hfa H1 H2. apply B5; [done| |].
      * replace (ptr + (lt + 1))%nat with (ptr + lt + 1)%nat by lia. eapply (rng_snoc _ _ _ _ y); [|by rewrite Hk1, exchange_l|unfold eqp; by rewrite <- Hv].
        eapply rng_same; [|exact H1]. intros k Hk. by rewrite Hk1, exchange_ne by lia.
      * destruct (decide (lt = i)) as [->|Hne]; [apply rng_nil; lia|]. destruct (lookup_lt_is_Some_2 l (ptr + lt) ltac:(lia)) as [z Hz]. replace (ptr + (i + 1))%nat with (ptr + i + 1)%nat by lia.
        eapply (rng_snoc _ _ _ _ z); [|by rewrite Hk1, exchange_r|by apply (H2 (ptr + lt)%nat); [lia|]].
        eapply rng_same; [|eapply (rng_sub _ _ _ (ptr + (lt + 1)) (ptr + i)); [| |exact H2]; lia]. intros k Hk. by rewrite Hk1, exchange_ne by lia.
  - destruct (IH l s1 (i + 1)%nat lt) as (i' & lt' & l' & s' & -> & B1 & B2 & B3 & B4 & B5); [lia|lia|lia|lia|done|]. exists i', lt', l', s'. split_and!; try done; try lia.
    intros Hfa H1 H2. apply B5; [done|done|]. replace (ptr + (i + 1))%nat with (ptr + i + 1)%nat by lia. eapply (rng_snoc _ _ _ _ y); [done|done|]. unfold less. rewrite <- Hv by done. lia.
Qed.

Lemma scan_down_spec ptr i n p : forall fuel l s j gt, (ptr + n <= length l)%nat -> (1 <= i <= j)%nat -> (j <= gt <= n)%nat -> (j - i < fuel)%nat -> l !! ptr = Some p ->
  exists j' gt' l' s', scan_down cmp fuel ptr i j gt (l, s) = Some (j', gt', (l', s')) /\ (i - 1 <= j' < j)%nat /\ (j' < i -> j' = (j - 1)%nat /\ l' = l /\ gt' = gt)%nat /\ (j' + 1 <= gt' <= gt)%nat /\
    inside (ptr + i) (n - i) l l' /\ (forall k, (k <= ptr + j')%nat -> l' !! k = l !! k) /\
    (faithful -> rng l (ptr + j) (ptr + gt) (more p) -> rng l (ptr + gt) (ptr + n) (eqp p) ->
      rng l' (ptr + j' + 1) (ptr + gt') (more p) /\ rng l' (ptr + gt') (ptr + n) (eqp p) /\ ((i < j')%nat -> exists x, l' !! (ptr + j')%nat = Some x /\ less p x)).
Proof.
  induction fuel as [|fuel IH]; intros l s j gt Hlen Hij Hgt Hf Hp; [lia|]. cbn [scan_down]. destruct (Nat.ltb_spec i (j - 1)) as [Hi|Hi].
  2: { exists (j - 1)%nat, gt, l, s. split_and!; try done; try lia. intros _ H1 H2. split_and!; [|done|lia]. replace (ptr + (j - 1) + 1)%nat with (ptr + j)%nat by lia. done. }
  destruct (compare_at_spec l s ptr (ptr + (j - 1))) as (v & s1 & x & y & -> & Hx & Hy & Hv); [lia|lia|]. cbn [mbind option_bind]. assert (x = p) as -> by congruence.
  destruct (Z.leb_spec v 0) as [Hv0|Hv0].
  2: { exists (j - 1)%nat, gt, l, s1. split_and!; try done; try lia. intros Hfa H1 H2. split_and!; [replace (ptr + (j - 1) + 1)%nat with (ptr + j)%nat by lia; done|done|]. intros _. exists y. split; [done|]. unfold less. rewrite <- Hv by done. done. }
  destruct (Z.eqb_spec v 0) as [->|Hvn].
  - destruct (swap_spec l s1 (ptr + (gt - 1)) (ptr + (j - 1))) as (l1 & -> & Hk1 & Hp1 & Hl1); [lia|lia|]. cbn [mbind option_bind].
    destruct (IH l1 s1 (j - 1)%nat (gt - 1)%nat) as (j' & gt' & l' & s' & -> & B1 & B2 & B3 & B4 & B5 & B6); [lia|lia|lia|lia|rewrite Hk1, exchange_ne by lia; done|].
    exists j', gt', l', s'. split_and!; try done; try lia.
    + eapply inside_trans; [|exact B4]. eapply swap_inside; [exact Hk1|done|lia|lia].
    + intros k Hk. rewrite B5 by done. rewrite Hk1, exchange_ne by lia. done.
    + intros Hfa H1 H2. apply B6; [done| |].
      * destruct (decide (gt = j)) as [->|Hne]; [apply rng_nil; lia|]. destruct (lookup_lt_is_Some_2 l (ptr + (gt - 1)) ltac:(lia)) as [z Hz].
        eapply (rng_cons _ _ _ _ z); [|by rewrite Hk1, exchange_r|by apply (H1 (ptr + (gt - 1))%nat); [lia|]].
        eapply rng_same; [|eapply (rng_sub _ _ _ (ptr + (j - 1) + 1) (ptr + (gt - 1))); [| |exact H1]; lia]. intros k Hk. by rewrite Hk1, exchange_ne by lia.
      * eapply (rng_cons _ _ _ _ y); [|by rewrite Hk1, exchange_l|unfold eqp; by rewrite <- Hv].
        eapply rng_same; [|eapply (rng_sub _ _ _ (ptr + (gt - 1) + 1) (ptr + n)); [| |exact H2]; lia]. intros k Hk. by rewrite Hk1, exchange_ne by lia.
  - destruct (IH l s1 (j - 1)%nat gt) as (j' & gt' & l' & s' & -> & B1 & B2 & B3 & B4 & B5 & B6); [lia|lia|lia|lia|done|]. exists j', gt', l', s'. split_and!; try done; try lia.
    intros Hfa H1 H2. apply B6; [done| |done]. eapply (rng_cons _ _ _ _ y); [eapply rng_sub; [| |exact H1]; lia|done|]. unfold more. rewrite <- Hv by done. lia.
Qed.
(** The four parts of the segment around its first element, the pivot. *)
Record parts (ptr n i lt gt : nat) (p : X) l : Prop := {
  pt_eq1 : rng l (ptr + 1) (ptr + lt) (eqp p);
  pt_less : rng l (ptr + lt) (ptr + i) (less p);
  pt_more : rng l (ptr + i) (ptr + gt) (more p);
  pt_eq2 : rng l (ptr + gt) (ptr + n) (eqp p);
}.

Lemma partition_loop_spec ptr n p : forall fuel l s i lt j gt, (ptr + n <= length l)%nat -> (1 <= lt <= i)%nat -> (i <= j)%nat -> (j <= gt <= n)%nat -> (j - i < fuel)%nat -> l !! ptr = Some p ->
  exists i' lt' gt' l' s', partition_loop cmp fuel ptr i lt j gt (l, s) = Some (i', lt', gt', (l', s')) /\ (1 <= lt' <= i')%nat /\ (i' <= gt' <= n)%nat /\ inside (ptr + 1) (n - 1) l l' /\
    (faithful -> rng l (ptr + 1) (ptr + lt) (eqp p) -> rng l (ptr + lt) (ptr + i) (less p) -> rng l (ptr + j) (ptr + gt) (more p) -> rng l (ptr + gt) (ptr + n) (eqp p) ->
      parts ptr n i' lt' gt' p l').
Proof.
  induction fuel as [|fuel IH]; intros l s i lt j gt Hlen Hlt Hij Hgt Hf Hp; [lia|]. cbn [partition_loop].
  destruct (scan_up_spec ptr j p (S j) l s i lt) as (i1 & lt1 & l1 & s1 & -> & U1 & U2 & U3 & U4 & U5); [lia|lia|lia|lia|done|]. cbn [mbind option_bind].
  assert (Hl1 : length l1 = length l) by (by eapply inside_length). assert (Hp1 : l1 !! ptr = Some p) by (rewrite (in_out _ _ _ _ U3) by lia; done).
  destruct (scan_down_spec ptr i1 n p (S j) l1 s1 j gt) as (j1 & gt1 & l2 & s2 & -> & D1 & D2 & D3 & D4 & D5 & D6); [lia|lia|lia|lia|done|]. cbn [mbind option_bind].
  assert (Hl2 : length l2 = length l1) by (by eapply inside_length).
  assert (Hin : inside (ptr + 1) (n - 1) l l2) by (eapply inside_trans; [eapply inside_widen; [| |exact U3]; lia|eapply inside_widen; [| |exact D4]; lia]).
  assert (Hsame : forall k, (k < ptr + i1)%nat -> l2 !! k = l1 !! k) by (intros k Hk; apply (in_out _ _ _ _ D4); lia).
  assert (Hparts : faithful -> rng l (ptr + 1) (ptr + lt) (eqp p) -> rng l (ptr + lt) (ptr + i) (less p) -> rng l (ptr + j) (ptr + gt) (more p) -> rng l (ptr + gt) (ptr + n) (eqp p) ->
    rng l2 (ptr + 1) (ptr + lt1) (eqp p) /\ rng l2 (ptr + lt1) (ptr + i1) (less p) /\ ((i1 < j)%nat -> (i1 <= j1)%nat -> exists x, l2 !! (ptr + i1)%nat = Some x /\ more p x) /\
    rng l2 (ptr + j1 + 1) (ptr + gt1) (more p) /\ rng l2 (ptr + gt1) (ptr + n) (eqp p) /\ ((i1 < j1)%nat -> exists x, l2 !! (ptr + j1)%nat = Some x /\ less p x)).
  { intros Hfa H1 H2 H3 H4. destruct (U5 Hfa H1 H2) as (A1 & A2 & A3). destruct (D6 Hfa) as (B1 & B2 & B3); [eapply rng_same; [|exact H3]; intros; apply U4; lia|eapply rng_same; [|exact H4]; intros; apply U4; lia|].
    split_and!; try done; [eapply rng_same; [|exact A1]; intros; apply Hsame; lia|eapply rng_same; [|exact A2]; intros; apply Hsame; lia|].
    intros K1 K2. rewrite D5 by lia. by apply A3. }
  destruct (Nat.leb_spec j1 i1) as [Hx|Hx].
  - exists i1, lt1, gt1, l2, s2. split_and!; try done; try lia. intros Hfa H1 H2 H3 H4. destruct (Hparts Hfa H1 H2 H3 H4) as (A1 & A2 & A3 & A4 & A5 & A6). split; [done|done| |done].
    destruct (decide (j1 = i1)) as [->|Hne]; [|eapply rng_sub; [| |exact A4]; lia]. destruct A3 as (x & Hx1 & Hx2); [lia|lia|]. by eapply rng_cons.
  - destruct (swap_spec l2 s2 (ptr + i1) (ptr + j1)) as (l3 & -> & Hk3 & Hp3 & Hl3); [lia|lia|]. cbn [mbind option_bind].
    destruct (IH l3 s2 (i1 + 1)%nat lt1 j1 gt1) as (i' & lt' & gt' & l' & s' & -> & B1 & B2 & B3 & B4); [lia|lia|lia|lia|lia|rewrite Hk3, exchange_ne by lia; rewrite Hsame by lia; done|].
    exists i', lt', gt', l', s'. split_and!; try done; try lia; [eapply inside_trans; [exact Hin|]; eapply inside_trans; [|exact B3]; eapply swap_inside; [exact Hk3|done|lia|lia]|].
    intros Hfa H1 H2 H3 H4. destruct (Hparts Hfa H1 H2 H3 H4) as (A1 & A2 & A3 & A4 & A5 & A6). destruct A3 as (x & Hx1 & Hx2); [lia|lia|]. destruct A6 as (y & Hy1 & Hy2); [lia|].
    assert (E : forall k, k <> (ptr + i1)%nat -> k <> (ptr + j1)%nat -> l3 !! k = l2 !! k) by (intros k K1 K2; by rewrite Hk3, exchange_ne).
    apply B4; [done| | | |].
    + eapply rng_same; [|exact A1]. intros; apply E; lia.
    + replace (ptr + (i1 + 1))%nat with (ptr + i1 + 1)%nat by lia. eapply (rng_snoc _ _ _ _ y); [|by rewrite Hk3, exchange_l|done]. eapply rng_same; [|exact A2]. intros; apply E; lia.
    + eapply (rng_cons _ _ _ _ x); [|by rewrite Hk3, exchange_r|done]. eapply rng_same; [|exact A4]. intros; apply E; lia.
    + eapply rng_same; [|exact A5]. intros; apply E; lia.
Qed.

(** *** Moving the equal elements to the middle *)

Definition exchange_blocks (k a b m : nat) : nat :=
  if (a <=? m)%nat && (m <? a + k)%nat then (b + (m - a))%nat
  else if (b <=? m)%nat && (m <? b + k)%nat then (a + (m - b))%nat else m.

Lemma swap_block_spec s : forall k a b l, (a + k <= b)%nat -> (b + k <= length l)%nat ->
  exists l', swap_block k a b (l, s) = Some (l', s) /\ (forall m, l' !! m = l !! exchange_blocks k a b m) /\ l' ≡ₚ l.
Proof.
  induction k as [|k IH]; intros a b l Hab Hb; cbn [swap_block].
  - exists l. split_and!; try done. intros m. unfold exchange_blocks. f_equal. nat_cases.
  - destruct (swap_spec l s a b) as (l1 & -> & Hk1 & Hp1 & Hl1); [lia|lia|]. cbn [mbind option_bind]. destruct (IH (S a) (S b) l1) as (l' & -> & Hk & Hp); [lia|lia|].
    exists l'. split_and!; [done| |by rewrite Hp]. intros m. rewrite Hk, Hk1. f_equal. unfold exchange_blocks, exchange. nat_cases.
Qed.
Lemma rng_from l l' (f : nat -> nat) a b a' b' P : (forall k, l' !! k = l !! f k) -> (forall k, (a' <= k < b')%nat -> (a <= f k < b)%nat) -> rng l a b P -> rng l' a' b' P.
Proof. intros Hf Hk Hr k x Hx. rewrite Hf. apply Hr. by apply Hk. Qed.

Lemma rng_app l a b d P : rng l a b P -> rng l b d P -> rng l a d P.
Proof. intros H1 H2 k x Hk. destruct (decide (k < b)%nat); [apply H1; lia|apply H2; lia]. Qed.

Lemma exchange_blocks_ne k a b m : (m < a \/ b + k <= m)%nat -> (a + k <= b)%nat -> exchange_blocks k a b m = m.
Proof. intros H1 H2. unfold exchange_blocks. nat_cases. Qed.

(** Exchanging the smaller of two adjacent parts with the far end of the
    other one exchanges the parts. *)
Lemma blocks_rotate l l' k a b d P Q : (a <= b <= d)%nat -> k = ((b - a) `min` (d - b))%nat -> (forall m, l' !! m = l !! exchange_blocks k a (d - k) m) -> rng l a b P -> rng l b d Q ->
  rng l' a (a + (d - b)) Q /\ rng l' (a + (d - b)) d P.
Proof.
  intros H1 Hk Hm HP HQ. split; [eapply rng_from; [exact Hm| |exact HQ]|eapply rng_from; [exact Hm| |exact HP]]; clear Hm HP HQ; intros m Hr; unfold exchange_blocks; nat_cases.
Qed.

Lemma exchange_blocks_inside l l' k a b ptr n : (forall m, l' !! m = l !! exchange_blocks k a b m) -> l' ≡ₚ l -> (ptr <= a)%nat -> (a + k <= b)%nat -> (b + k <= ptr + n)%nat -> inside ptr n l l'.
Proof. intros Hk Hp H1 H2 H3. split; [done|]. intros m Hm. rewrite Hk. f_equal. unfold exchange_blocks. nat_cases. Qed.

Lemma med3_spec l s a b d : (a < length l)%nat -> (b < length l)%nat -> (d < length l)%nat ->
  exists m s', med3 cmp a b d (l, s) = Some (m, (l, s')) /\ (m = a \/ m = b \/ m = d).
Proof.
  intros Ha Hb Hd. unfold med3. destruct (compare_at_spec l s a b Ha Hb) as (v & s1 & x & y & -> & _). cbn [mbind option_bind]. destruct (compare_at_spec l s1 b d Hb Hd) as (v2 & s2 & x2 & y2 & E2 & _).
  destruct (compare_at_spec l s2 a d Ha Hd) as (v3 & s3 & x3 & y3 & E3 & _). destruct (v <? 0); rewrite E2; cbn [mbind option_bind].
  - destruct (v2 <? 0); [by eauto 10|]. rewrite E3. cbn [mbind option_bind]. destruct (v3 <? 0); eauto 10.
  - destruct (0 <? v2); [by eauto 10|]. rewrite E3. cbn [mbind option_bind]. destruct (v3 <? 0); eauto 10.
Qed.

(** The comments of the source: first four parts, then three. *)
Lemma partition_spec ptr n l s : (ptr + n <= length l)%nat -> (4 <= n)%nat ->
  exists lt gt l' s', partition cmp ptr n (l, s) = Some (lt, gt, (l', s')) /\ (lt < gt <= n)%nat /\ inside ptr n l l' /\
    (faithful -> exists p, rng l' ptr (ptr + lt) (less p) /\ rng l' (ptr + lt) (ptr + gt) (eqp p) /\ rng l' (ptr + gt) (ptr + n) (more p)).
Proof.
  intros Hlen Hn. unfold partition. assert (H4 : (n / 4 < n /\ 2 * (n / 4) < n /\ 3 * (n / 4) < n)%nat) by (pose proof (Nat.div_mod_eq n 4); pose proof (Nat.mod_upper_bound n 4); lia).
  set (q := (n / 4)%nat) in *. destruct (med3_spec l s (ptr + q) (ptr + 2 * q) (ptr + 3 * q)) as (m & s1 & -> & Hm); [lia|lia|lia|]. cbn [mbind option_bind].
  destruct (swap_spec l s1 ptr m) as (l1 & -> & Hk1 & Hp1 & Hl1); [lia|lia|]. cbn [mbind option_bind].
  assert (I1 : inside ptr n l l1) by (eapply swap_inside; [exact Hk1|done|lia|lia]). destruct (lookup_lt_is_Some_2 l1 ptr ltac:(lia)) as [p Hpiv].
  destruct (partition_loop_spec ptr n p n l1 s1 1 1 n n) as (i & lt & gt & l2 & s2 & -> & B1 & B2 & B3 & B4); [lia|lia|lia|lia|lia|done|]. cbn [mbind option_bind].
  assert (Hl2 : length l2 = length l1) by (by eapply inside_length). assert (Hpiv2 : l2 !! ptr = Some p) by (rewrite (in_out _ _ _ _ B3) by lia; done).
  set (k1 := (lt `min` (i - lt))%nat) in *. set (k2 := ((n - gt) `min` (gt - i))%nat) in *.
  destruct (swap_block_spec s2 k1 ptr (ptr + i - k1) l2) as (l3 & -> & Hk3 & Hp3); [lia|lia|]. cbn [mbind option_bind]. assert (Hl3 : length l3 = length l2) by (by rewrite Hp3).
  destruct (swap_block_spec s2 k2 (ptr + i) (ptr + n - k2) l3) as (l4 & -> & Hk4 & Hp4); [lia|lia|]. cbn [mbind option_bind].
  eexists _, _, l4, s2. split; [done|]. split; [lia|]. split.
  - eapply inside_trans; [exact I1|]. eapply inside_trans; [eapply inside_widen; [| |exact B3]; lia|]. eapply inside_trans; [eapply exchange_blocks_inside; [exact Hk3|done|lia|lia|lia]|]. eapply exchange_blocks_inside; [exact Hk4|done|lia|lia|lia].
  - intros Hfa. destruct (B4 Hfa) as [P1 P2 P3 P4]; try (apply rng_nil; lia). exists p.
    assert (P1' : rng l2 ptr (ptr + lt) (eqp p)) by (eapply rng_cons; [exact P1|done|]; destruct Hfa as [_ [Hs _]]; specialize (Hs p p); unfold eqp; lia).
    destruct (blocks_rotate l2 l3 k1 ptr (ptr + lt) (ptr + i) (eqp p) (less p)) as [Q1 Q2]; [lia|lia|intros k; rewrite Hk3; f_equal; f_equal; lia|done|done|].
    assert (O3 : forall k, (ptr + i <= k)%nat -> l3 !! k = l2 !! k) by (intros k Hk; rewrite Hk3, exchange_blocks_ne by lia; done).
    destruct (blocks_rotate l3 l4 k2 (ptr + i) (ptr + gt) (ptr + n) (more p) (eqp p)) as [R1 R2]; [lia|lia|intros k; rewrite Hk4; f_equal; f_equal; lia|eapply rng_same; [|exact P3]; intros; apply O3; lia|eapply rng_same; [|exact P4]; intros; apply O3; lia|].
    assert (O4 : forall k, (k < ptr + i)%nat -> l4 !! k = l3 !! k) by (intros k Hk; rewrite Hk4, exchange_blocks_ne by lia; done).
    split_and!.
    + eapply rng_same; [|eapply rng_sub; [| |exact Q1]; lia]. intros; apply O4; lia.
    + apply (rng_app _ _ (ptr + i)); [|eapply rng_sub; [| |exact R1]; lia]. eapply rng_same; [|eapply rng_sub; [| |exact Q2]; lia]. intros; apply O4; lia.
    + eapply rng_sub; [| |exact R2]; lia.
Qed.
End proofs.
