(* ===== verification/SortHeap.v ===== *)
(** * Sorting: the heap sort

    [heapsortx] sorts its segment: the sift restores the heap below one
    element, and the largest of the heap is moved to its end. *)
From S2P Require Import Prelude Sort SortProps.

Section heapsort.
Context {X C : Type} (cmp : X -> X -> C -> Z * C) (c : X -> X -> Z).
Implicit Types (l : list X) (s : C).

(** The element at [i] is not after the one at [j]. *)
Definition hle l (i j : nat) : Prop := forall x y, l !! i = Some x -> l !! j = Some y -> c x y <= 0.

Definition sorted_in l (b n : nat) : Prop := forall i j, (b <= i)%nat -> (i < j)%nat -> (j < b + n)%nat -> hle l i j.

Lemma hle_refl l i : weak_order c -> hle l i i.
Proof. intros Hw x y Hx Hy. assert (x = y) as <- by congruence. pose proof (wo_sym c Hw x x). lia. Qed.

Lemma hle_trans l i j k : weak_order c -> (j < length l)%nat -> hle l i j -> hle l j k -> hle l i k.
Proof. intros Hw Hj H1 H2 x y Hx Hy. destruct (lookup_lt_is_Some_2 l j Hj) as [z Hz]. by apply (wo_trans c Hw x z y); [apply H1|apply H2]. Qed.

Lemma hle_same l l' i j i' j' : l' !! i' = l !! i -> l' !! j' = l !! j -> hle l i j -> hle l' i' j'.
Proof. intros H1 H2 H x y. rewrite H1, H2. apply H. Qed.

(** ** Heaps *)

Definition child (k d : nat) : Prop := d = (2 * k + 1)%nat \/ d = (2 * k + 2)%nat.

Definition heap_from (a base n : nat) l : Prop := forall k d, (a <= k)%nat -> child k d -> (d < n)%nat -> hle l (base + d) (base + k).

(** A heap but for the element at [r]. *)
Record heap_except (a base n r : nat) l : Prop := {
  he_heap : forall k d, (a <= k)%nat -> k <> r -> child k d -> (d < n)%nat -> hle l (base + d) (base + k);
  he_above : forall q d, (a <= q)%nat -> child q r -> child r d -> (d < n)%nat -> hle l (base + d) (base + q);
}.

Lemma heap_root base n l : weak_order c -> (base + n <= length l)%nat -> heap_from 0 base n l -> forall k, (k < n)%nat -> hle l (base + k) (base + 0).
Proof.
  intros Hw Hlen Hh k. induction k as [k IH] using lt_wf_ind. intros Hk. destruct k as [|k]; [by apply hle_refl|].
  assert (Hd : (k = 2 * (k / 2) \/ k = 2 * (k / 2) + 1)%nat) by (pose proof (Nat.div_mod_eq k 2); pose proof (Nat.mod_upper_bound k 2); lia).
  apply (hle_trans _ _ (base + k / 2)); [done|lia| |apply IH; lia]. apply Hh; [lia| |done]. unfold child. lia.
Qed.

(** The larger child of [r]. *)
Lemma choose_spec base n r l s : (base + n <= length l)%nat -> (r * 2 + 1 < n)%nat ->
  exists d s', (if (r * 2 + 1 <? n - 1)%nat then
      '(v, st) ← compare cmp (base + (r * 2 + 1)) (base + (r * 2 + 1) + 1) (l, s); Some (if v <=? 0 then (r * 2 + 1 + 1)%nat else (r * 2 + 1)%nat, st)
    else Some ((r * 2 + 1)%nat, (l, s))) = Some (d, (l, s')) /\ child r d /\ (d < n)%nat /\
    (faithful cmp c -> forall e, child r e -> (e < n)%nat -> hle l (base + e) (base + d)).
Proof.
  intros Hlen Hr. destruct (Nat.ltb_spec (r * 2 + 1) (n - 1)) as [Hlt|Hge].
  - destruct (compare_at_spec cmp c l s (base + (r * 2 + 1)) (base + (r * 2 + 1) + 1)) as (v & s' & x & y & -> & Hx & Hy & Hv); [lia|lia|]. cbn [mbind option_bind].
    exists (if v <=? 0 then (r * 2 + 1 + 1)%nat else (r * 2 + 1)%nat), s'. unfold child. split; [done|]. split; [destruct (v <=? 0); lia|]. split; [destruct (v <=? 0); lia|].
    intros Hfa e He Hen. specialize (Hv Hfa). destruct Hfa as [_ Hw]. destruct (Z.leb_spec v 0) as [Hv0|Hv0].
    + destruct (decide (e = r * 2 + 1)%nat) as [->|]; [|replace e with (r * 2 + 1 + 1)%nat by lia; by apply hle_refl]. replace (base + (r * 2 + 1 + 1))%nat with (base + (r * 2 + 1) + 1)%nat by lia. intros x' y' Hx' Hy'. rewrite Hx in Hx'. rewrite Hy in Hy'. simplify_eq. lia.
    + destruct (decide (e = r * 2 + 1)%nat) as [->|]; [by apply hle_refl|]. replace (base + e)%nat with (base + (r * 2 + 1) + 1)%nat by lia. intros y' x' Hy' Hx'. assert (x' = x /\ y' = y) as [-> ->] by (split; congruence). pose proof (wo_sym c Hw y x). lia.
  - exists (r * 2 + 1)%nat, s. unfold child. split; [done|]. split; [lia|]. split; [lia|]. intros [_ Hw] e He Hen. replace e with (r * 2 + 1)%nat by lia. by apply hle_refl.
Qed.

Lemma sift_step base n a r d l l' : faithful cmp c -> (base + n <= length l)%nat -> (a <= r)%nat -> child r d -> (d < n)%nat -> (forall k, l' !! k = l !! exchange (base + r) (base + d) k) ->
  (forall e, child r e -> (e < n)%nat -> hle l (base + e) (base + d)) -> hle l (base + r) (base + d) -> heap_except a base n r l -> heap_except a base n d l'.
Proof.
  intros [_ Hw] Hlen Har Hrd Hd Hk Hbig Hrd' [H1 H2]. assert (Hdr : (r < d)%nat) by (unfold child in *; lia).
  assert (Ed : l' !! (base + d)%nat = l !! (base + r)%nat) by (rewrite Hk, exchange_r; done). assert (Er : l' !! (base + r)%nat = l !! (base + d)%nat) by (rewrite Hk, exchange_l; done).
  assert (Eo : forall k, k <> r -> k <> d -> l' !! (base + k)%nat = l !! (base + k)%nat) by (intros k K1 K2; rewrite Hk, exchange_ne by lia; done).
  split.
  - intros k e Hka Hkd Hke He. destruct (decide (k = r)) as [->|Hkr].
    + destruct (decide (e = d)) as [->|Hed]; [by eapply hle_same|]. eapply hle_same; [apply Eo; [unfold child in *; lia|done]|exact Er|]. by apply Hbig.
    + assert (e <> d) by (unfold child in *; lia). destruct (decide (e = r)) as [->|Her]; [eapply hle_same; [exact Er|by apply Eo|]; by apply H2|]. eapply hle_same; [by apply Eo|by apply Eo|]. by apply H1.
  - intros q e Hq Hqd Hde He. assert (q = r) as -> by (unfold child in *; lia). eapply hle_same; [apply Eo; unfold child in *; lia|exact Er|]. apply H1; try done; unfold child in *; lia.
Qed.

Lemma sift_spec base n a : forall fuel r l s, (base + n <= length l)%nat -> (r < n)%nat -> (n - r <= fuel)%nat -> (a <= r)%nat ->
  exists l' s', sift cmp fuel base r n (l, s) = Some (l', s') /\ inside base n l l' /\ (faithful cmp c -> heap_except a base n r l -> heap_from a base n l').
Proof.
  induction fuel as [|fuel IH]; intros r l s Hlen Hr Hf Har; [lia|]. cbn [sift]. destruct (Nat.ltb_spec (r * 2 + 1) n) as [Hc|Hc].
  2: { exists l, s. split; [done|]. split; [apply inside_refl|]. intros _ [H1 H2] k d Hk Hkd Hd. destruct (decide (k = r)) as [->|]; [unfold child in *; lia|]. by apply H1. }
  destruct (choose_spec base n r l s Hlen Hc) as (d & s1 & -> & Hrd & Hd & Hbig). cbn [mbind option_bind].
  destruct (compare_at_spec cmp c l s1 (base + r) (base + d)) as (v & s2 & x & y & -> & Hx & Hy & Hv); [lia|lia|]. cbn [mbind option_bind]. destruct (Z.ltb_spec 0 v) as [Hv0|Hv0].
  - exists l, s2. split; [done|]. split; [apply inside_refl|]. intros Hfa [H1 H2] k e Hk Hke He. destruct (decide (k = r)) as [->|]; [|by apply H1].
    apply (hle_trans _ _ (base + d)); [apply Hfa|lia|by apply Hbig|]. intros y' x' Hy' Hx'. assert (x' = x /\ y' = y) as [-> ->] by (split; congruence). rewrite Hv in Hv0 by done. pose proof (wo_sym c (proj2 Hfa) y x). lia.
  - destruct (swap_spec l s2 (base + r) (base + d)) as (l1 & -> & Hk1 & Hp1 & Hl1); [lia|lia|]. cbn [mbind option_bind].
    destruct (IH d l1 s2) as (l' & s' & -> & B1 & B2); [lia|lia|unfold child in *; lia|unfold child in *; lia|]. exists l', s'. split; [done|]. split; [eapply inside_trans; [|exact B1]; eapply swap_inside; [exact Hk1|done|lia|lia]|].
    intros Hfa He. apply B2; [done|]. eapply sift_step; try done; [by apply Hbig|]. intros x' y' Hx' Hy'. assert (x' = x /\ y' = y) as [-> ->] by (split; congruence). rewrite <- Hv by done. lia.
Qed.

Lemma heapify_spec base n : forall i l s, (base + n <= length l)%nat -> (i <= n)%nat ->
  exists l' s', heapify cmp i base n (l, s) = Some (l', s') /\ inside base n l l' /\ (faithful cmp c -> heap_from i base n l -> heap_from 0 base n l').
Proof.
  induction i as [|i IH]; intros l s Hlen Hi; cbn [heapify]; [exists l, s; split; [done|]; split; [apply inside_refl|done]|].
  destruct (sift_spec base n i n i l s) as (l1 & s1 & -> & A1 & A2); [lia|lia|lia|lia|]. cbn [mbind option_bind]. pose proof (inside_length _ _ _ _ A1).
  destruct (IH l1 s1) as (l' & s' & -> & B1 & B2); [lia|lia|]. exists l', s'. split; [done|]. split; [by eapply inside_trans|]. intros Hfa Hh. apply B2; [done|]. apply A2; [done|].
  split; [intros k d Hk Hne; apply Hh; lia|]. intros q d Hq Hqi. unfold child in Hqi. lia.
Qed.

(** What is left of the heap is not after what was extracted, which is in
    order. *)
Definition extracted (base n i : nat) l : Prop := forall a b, (base <= a)%nat -> (a < b)%nat -> (base + i < b)%nat -> (b < base + n)%nat -> hle l a b.

Lemma extract_spec base n : forall i l s, (base + n <= length l)%nat -> (i < n)%nat ->
  exists l' s', extract cmp i base (l, s) = Some (l', s') /\ inside base n l l' /\
    (faithful cmp c -> heap_from 0 base (i + 1) l -> extracted base n i l -> sorted_in l' base n).
Proof.
  induction i as [|i IH]; intros l s Hlen Hi; cbn [extract]; [exists l, s; split; [done|]; split; [apply inside_refl|]; intros _ _ He a b Ha Hab Hb; apply He; lia|].
  destruct (swap_spec l s base (base + S i)) as (l1 & -> & Hk1 & Hp1 & Hl1); [lia|lia|]. cbn [mbind option_bind].
  destruct (sift_spec base (S i) 0 (S i) 0 l1 s) as (l2 & s2 & -> & A1 & A2); [lia|lia|lia|lia|]. cbn [mbind option_bind]. pose proof (inside_length _ _ _ _ A1).
  destruct (IH l2 s2) as (l' & s' & -> & B1 & B2); [lia|lia|]. exists l', s'. split; [done|]. split.
  { eapply inside_trans; [eapply (swap_inside l l1 base (base + S i) base n); [exact Hk1|done|lia|lia]|]. eapply inside_trans; [eapply inside_widen; [| |exact A1]; lia|exact B1]. }
  intros Hfa Hh He. assert (Eo : forall k, (0 < k)%nat -> k <> S i -> l1 !! (base + k)%nat = l !! (base + k)%nat) by (intros k K1 K2; rewrite Hk1, exchange_ne by lia; done).
  apply B2; [done| |].
  - replace (i + 1)%nat with (S i) by lia. apply A2; [done|]. split; [|intros q d _ Hq; unfold child in Hq; lia]. intros k d _ Hk Hkd Hd. eapply hle_same; [apply Eo; unfold child in *; lia|apply Eo; unfold child in *; lia|]. apply Hh; [lia|done|lia].
  - assert (Hmax : forall b y, (base + i < b)%nat -> (b < base + n)%nat -> l1 !! b = Some y -> rng l1 base (base + S i) (fun x => c x y <= 0)).
    { intros b y Hb Hbn Hy k x Hk Hx. destruct (decide (b = base + S i)%nat) as [->|Hbi].
      - rewrite Hk1, exchange_r in Hy. rewrite Hk1 in Hx. assert (Hm : exists m, exchange base (base + S i) k = (base + m)%nat /\ (m < i + 1 + 1)%nat).
        { exists (exchange base (base + S i) k - base)%nat. unfold exchange. nat_cases. }
        destruct Hm as (m & Em & Hm). rewrite Em in Hx. replace (base + S i)%nat with (base + (i + 1))%nat in * by lia. apply (heap_root base (S i + 1) l (proj2 Hfa) ltac:(lia) Hh m ltac:(lia)); [done|]. by replace (base + 0)%nat with base by lia.
      - rewrite Hk1, exchange_ne in Hy by lia. rewrite Hk1 in Hx. apply (He (exchange base (base + S i) k) b); try done; try lia; unfold exchange; nat_cases. }
    intros a b Ha Hab Hb Hbn x y Hx Hy. rewrite (in_out _ _ _ _ A1) in Hy by lia. destruct (decide (a < base + S i)%nat) as [Hai|Hai].
    + revert Hx. apply (inside_forall base (S i) l1 l2 (fun x => c x y <= 0)); [lia|done| |lia]. apply (Hmax b y); [lia|done|done].
    + rewrite (in_out _ _ _ _ A1) in Hx by lia. rewrite Hk1, exchange_ne in Hy by lia. destruct (decide (a = base + S i)%nat) as [->|].
      * rewrite Hk1, exchange_r in Hx. apply (He base b); try done; lia.
      * rewrite Hk1, exchange_ne in Hx by lia. apply (He a b); try done; lia.
Qed.

Lemma heapsortx_spec base n l s : (base + n <= length l)%nat ->
  exists l' s', heapsortx cmp base n (l, s) = Some (l', s') /\ inside base n l l' /\ (faithful cmp c -> sorted_in l' base n).
Proof.
  intros Hlen. unfold heapsortx. destruct (Nat.ltb_spec 1 n) as [Hn|Hn]; [|exists l, s; split; [done|]; split; [apply inside_refl|]; intros _ a b Ha Hab Hb; lia].
  assert (Hd : (n / 2 <= n /\ n <= 2 * (n / 2) + 1)%nat) by (pose proof (Nat.div_mod_eq n 2); pose proof (Nat.mod_upper_bound n 2); lia).
  destruct (heapify_spec base n (n / 2) l s) as (l1 & s1 & -> & A1 & A2); [lia|lia|]. cbn [mbind option_bind]. pose proof (inside_length _ _ _ _ A1).
  destruct (extract_spec base n (n - 1) l1 s1) as (l' & s' & -> & B1 & B2); [lia|lia|]. exists l', s'. split; [done|]. split; [by eapply inside_trans|].
  intros Hfa. apply B2; [done| |intros a b Ha Hab Hb; lia]. replace (n - 1 + 1)%nat with n by lia. apply A2; [done|]. intros k d Hk Hkd Hdn. unfold child in Hkd. lia.
Qed.
End heapsort.
