(* ===== verification/SortLoop.v ===== *)
(** * Sorting: the quicksort

    The segments that remain to be sorted are apart, what lies in different
    segments is in order, and the stack never holds more segments than the
    depth of the one in progress. *)
From S2P Require Import Prelude Sort SortProps SortHeap.

Section quicksort.
Context {X C : Type} (cmp : X -> X -> C -> Z * C) (c : X -> X -> Z).
Implicit Types (l : list X) (s : C).

(** ** Insertion sort of small segments *)

Lemma insert_down_spec ptr m : forall j l s, (ptr + m < length l)%nat -> (j <= m)%nat ->
  exists l' s', insert_down cmp j ptr (l, s) = Some (l', s') /\ inside ptr (m + 1) l l' /\
    (faithful cmp c -> (forall a b, (a < b)%nat -> (b <= m)%nat -> b <> j -> hle c l (ptr + a) (ptr + b)) -> sorted_in c l' ptr (m + 1)).
Proof.
  assert (Hdone : forall j l, weak_order c -> (ptr + m < length l)%nat -> (j <= m)%nat -> (forall a b, (a < b)%nat -> (b <= m)%nat -> b <> j -> hle c l (ptr + a) (ptr + b)) ->
    ((0 < j)%nat -> hle c l (ptr + (j - 1)) (ptr + j)) -> sorted_in c l ptr (m + 1)).
  { intros j l Hw Hlen Hj Ho Hlast a b Ha Hab Hb. replace a with (ptr + (a - ptr))%nat by lia. replace b with (ptr + (b - ptr))%nat by lia. destruct (decide (b - ptr = j)%nat) as [Ej|]; [|apply Ho; lia].
    rewrite Ej. destruct (decide (a - ptr = j - 1)%nat) as [->|]; [apply Hlast; lia|]. apply (hle_trans _ _ _ (ptr + (j - 1))); [done|lia|apply Ho; lia|apply Hlast; lia]. }
  induction j as [|j IH]; intros l s Hlen Hj; cbn [insert_down].
  - exists l, s. split; [done|]. split; [apply inside_refl|]. intros [_ Hw] Ho. apply (Hdone 0%nat); try done. lia.
  - destruct (compare_at_spec cmp c l s (ptr + j) (ptr + S j)) as (v & s1 & x & y & -> & Hx & Hy & Hv); [lia|lia|]. cbn [mbind option_bind]. destruct (Z.ltb_spec 0 v) as [Hv0|Hv0].
    + destruct (swap_spec l s1 (ptr + S j) (ptr + j)) as (l1 & -> & Hk1 & Hp1 & Hl1); [lia|lia|]. cbn [mbind option_bind]. destruct (IH l1 s1) as (l' & s' & -> & B1 & B2); [lia|lia|].
      exists l', s'. split; [done|]. split; [eapply inside_trans; [|exact B1]; eapply swap_inside; [exact Hk1|done|lia|lia]|]. intros Hfa Ho. apply B2; [done|].
      assert (El : l1 !! (ptr + S j)%nat = l !! (ptr + j)%nat) by (rewrite Hk1, exchange_l; done). assert (Er : l1 !! (ptr + j)%nat = l !! (ptr + S j)%nat) by (rewrite Hk1, exchange_r; done).
      assert (Eo : forall k, k <> j -> k <> S j -> l1 !! (ptr + k)%nat = l !! (ptr + k)%nat) by (intros k K1 K2; rewrite Hk1, exchange_ne by lia; done).
      assert (Hyx : hle c l (ptr + S j) (ptr + j)) by (intros y' x' Hy' Hx'; assert (x' = x /\ y' = y) as [-> ->] by (split; congruence); rewrite Hv in Hv0 by done; pose proof (wo_sym c (proj2 Hfa) y x); lia).
      intros a b Hab Hb Hbj. destruct (decide (b = S j)) as [->|Hbs].
      * destruct (decide (a = j)) as [->|]; [by eapply hle_same|]. eapply hle_same; [apply Eo; lia|exact El|]. apply Ho; lia.
      * destruct (decide (a = j)) as [->|]; [eapply hle_same; [exact Er|by apply Eo|]; apply Ho; lia|]. destruct (decide (a = S j)) as [->|]; [eapply hle_same; [exact El|by apply Eo|]; apply Ho; lia|].
        eapply hle_same; [by apply Eo|by apply Eo|]. apply Ho; lia.
    + exists l, s1. split; [done|]. split; [apply inside_refl|]. intros Hfa Ho. apply (Hdone (S j)); try done; [apply Hfa|]. intros _ x' y' Hx' Hy'. replace (S j - 1)%nat with j in Hx' by lia.
      assert (x' = x /\ y' = y) as [-> ->] by (split; congruence). rewrite <- Hv by done. done.
Qed.

Lemma insertion_spec ptr : forall k i l s, (ptr + (i + k) <= length l)%nat ->
  exists l' s', insertion cmp k i ptr (l, s) = Some (l', s') /\ inside ptr (i + k) l l' /\ (faithful cmp c -> sorted_in c l ptr i -> sorted_in c l' ptr (i + k)).
Proof.
  induction k as [|k IH]; intros i l s Hlen; cbn [insertion]; [exists l, s; rewrite Nat.add_0_r; split; [done|]; split; [apply inside_refl|done]|].
  destruct (insert_down_spec ptr i i l s) as (l1 & s1 & -> & A1 & A2); [lia|lia|]. cbn [mbind option_bind]. pose proof (inside_length _ _ _ _ A1).
  destruct (IH (i + 1)%nat l1 s1) as (l' & s' & -> & B1 & B2); [lia|]. exists l', s'. replace (i + S k)%nat with (i + 1 + k)%nat by lia. split; [done|]. split; [eapply inside_trans; [eapply inside_widen; [| |exact A1]; lia|done]|].
  intros Hfa Hs. apply B2; [done|]. apply A2; [done|]. intros a b Hab Hb Hbi. apply Hs; lia.
Qed.

(** ** The segments that remain *)

Definition within (k : nat) (x : nat * nat) : Prop := (x.1 <= k)%nat /\ (k < x.1 + x.2)%nat.
Definition apart (x y : nat * nat) : Prop := (x.1 + x.2 <= y.1)%nat \/ (y.1 + y.2 <= x.1)%nat.

Fixpoint all_apart (segs : list (nat * nat)) : Prop :=
  match segs with
  | [] => True
  | x :: segs => Forall (apart x) segs /\ all_apart segs
  end.

Record pending (segs : list (nat * nat)) l : Prop := {
  pd_bound : Forall (fun x => x.1 + x.2 <= length l)%nat segs;
  pd_apart : all_apart segs;
  pd_order : faithful cmp c -> forall i j, (i < j)%nat -> (exists x, x ∈ segs /\ within i x /\ within j x) \/ hle c l i j;
}.

Lemma all_apart_app u v : all_apart u -> all_apart v -> (forall x y, x ∈ u -> y ∈ v -> apart x y) -> all_apart (u ++ v).
Proof.
  induction u as [|x u IH]; [done|]. intros [H1 H2] H3 H4. cbn. split; [|apply IH; [done|done|intros; apply H4; [by apply elem_of_cons; right|done]]].
  apply Forall_app. split; [done|]. apply Forall_forall. intros y Hy. apply H4; [by apply elem_of_cons; left|done].
Qed.

(** A segment is changed, and replaced by parts of it. *)
Lemma pending_refine b n segs l l' new : pending ((b, n) :: segs) l -> inside b n l l' -> Forall (fun x => b <= x.1 /\ x.1 + x.2 <= b + n)%nat new -> all_apart new ->
  (faithful cmp c -> forall i j, (b <= i)%nat -> (i < j)%nat -> (j < b + n)%nat -> (exists x, x ∈ new /\ within i x /\ within j x) \/ hle c l' i j) -> pending (new ++ segs) l'.
Proof.
  intros [Hb [Ha1 Ha2] Ho] Hin Hnew Hap Hord. pose proof (inside_length _ _ _ _ Hin) as Hlen. apply Forall_cons in Hb as [Hb1 Hb2]. cbn [fst snd] in Hb1. rewrite Forall_forall in Hnew. rewrite Forall_forall in Ha1.
  split.
  - rewrite Hlen. apply Forall_app. split; [|done]. apply Forall_forall. intros x Hx. specialize (Hnew x Hx). lia.
  - apply all_apart_app; [done|done|]. intros x y Hx Hy. specialize (Hnew x Hx). specialize (Ha1 y Hy). unfold apart in *. cbn [fst snd] in *. lia.
  - intros Hfa i j Hij.
    assert (Hout : forall i j, (i < j)%nat -> ~ (within i (b, n) /\ within j (b, n)) -> (exists x, x ∈ segs /\ within i x /\ within j x) \/ hle c l i j).
    { intros i' j' Hij' Hno. destruct (Ho Hfa i' j' Hij') as [(x & Hx & H1 & H2)|]; [|by right]. apply elem_of_cons in Hx as [->|Hx]; [by destruct Hno|]. left. by exists x. }
    assert (Hcase : (exists x, x ∈ segs /\ within i x /\ within j x) \/ (b <= i /\ j < b + n)%nat \/ hle c l' i j).
    { destruct (decide (b <= i /\ i < b + n)%nat) as [Hi|Hi], (decide (b <= j /\ j < b + n)%nat) as [Hj|Hj].
      - right. left. lia.
      - right. right. intros x y Hx Hy. rewrite (in_out _ _ _ _ Hin) in Hy by lia. revert Hx. apply (inside_forall b n l l' (fun x => c x y <= 0)); [done|done| |lia].
        intros k z Hk Hz. destruct (Hout k j ltac:(lia)) as [(w & Hw & H1 & H2)|Hh]; [unfold within; cbn [fst snd]; lia| |by apply Hh]. specialize (Ha1 w Hw). unfold apart, within in *. cbn [fst snd] in *. lia.
      - right. right. intros x y Hx Hy. rewrite (in_out _ _ _ _ Hin) in Hx by lia. revert Hy. apply (inside_forall b n l l' (fun y => c x y <= 0)); [done|done| |lia].
        intros k z Hk Hz. destruct (Hout i k ltac:(lia)) as [(w & Hw & H1 & H2)|Hh]; [unfold within; cbn [fst snd]; lia| |by apply Hh]. specialize (Ha1 w Hw). unfold apart, within in *. cbn [fst snd] in *. lia.
      - destruct (Hout i j Hij) as [?|Hh]; [unfold within; cbn [fst snd]; lia|by left|]. right. right. eapply hle_same; [apply (in_out _ _ _ _ Hin); lia|apply (in_out _ _ _ _ Hin); lia|done]. }
    destruct Hcase as [(x & Hx & H1 & H2)|[[H1 H2]|]]; [left; exists x; split; [by apply elem_of_app; right|done]| |by right].
    destruct (Hord Hfa i j H1 Hij H2) as [(x & Hx & H3 & H4)|]; [|by right]. left. exists x. split; [by apply elem_of_app; left|done].
Qed.

Lemma pending_swap x y segs l : pending (x :: y :: segs) l -> pending (y :: x :: segs) l.
Proof.
  intros [H1 [H2 [H3 H4]] H5]. apply Forall_cons in H1 as [? H1]. apply Forall_cons in H1 as [? H1]. apply Forall_cons in H2 as [H6 H2]. split.
  - by repeat constructor.
  - cbn. split_and!; try done. constructor; [unfold apart in *; lia|done].
  - intros Hfa i j Hij. destruct (H5 Hfa i j Hij) as [(z & Hz & H7)|]; [|by right]. left. exists z. split; [set_solver|done].
Qed.

Lemma pending_sorted b n segs l l' : pending ((b, n) :: segs) l -> inside b n l l' -> (faithful cmp c -> sorted_in c l' b n) -> pending segs l' /\ pending ((b, 0%nat) :: segs) l'.
Proof.
  intros Hp Hin Hs. split.
  - apply (pending_refine b n segs l l' []); try done. intros Hfa i j H1 H2 H3. right. by apply Hs.
  - apply (pending_refine b n segs l l' [(b, 0%nat)]); try done; [repeat constructor; cbn; lia|]. intros Hfa i j H1 H2 H3. right. by apply Hs.
Qed.

Lemma pending_partition b n segs l l' lt gt : pending ((b, n) :: segs) l -> inside b n l l' -> (lt < gt <= n)%nat ->
  (faithful cmp c -> exists p, rng l' b (b + lt) (less c p) /\ rng l' (b + lt) (b + gt) (eqp c p) /\ rng l' (b + gt) (b + n) (more c p)) ->
  pending ((b, lt) :: ((b + gt)%nat, (n - gt)%nat) :: segs) l'.
Proof.
  intros Hp Hin Hlt Hparts. apply (pending_refine b n segs l l' [(b, lt); ((b + gt)%nat, (n - gt)%nat)]); try done.
  - repeat constructor; cbn [fst snd]; lia.
  - repeat constructor. cbn [fst snd]. lia.
  - intros Hfa i j H1 H2 H3. destruct (Hparts Hfa) as (p & P1 & P2 & P3). destruct Hfa as [_ Hw].
    destruct (decide (j < b + lt)%nat); [left; exists (b, lt); split; [set_solver|unfold within; cbn [fst snd]; lia]|].
    destruct (decide (b + gt <= i)%nat); [left; exists ((b + gt)%nat, (n - gt)%nat); split; [set_solver|unfold within; cbn [fst snd]; lia]|].
    right. intros x y Hx Hy. apply (wo_trans c Hw x p y).
    + pose proof (wo_sym c Hw p x). destruct (decide (i < b + lt)%nat); [specialize (P1 i x ltac:(lia) Hx); unfold less in P1; lia|]. specialize (P2 i x ltac:(lia) Hx). unfold eqp in P2. lia.
    + destruct (decide (j < b + gt)%nat); [specialize (P2 j y ltac:(lia) Hy); unfold eqp in P2; lia|]. specialize (P3 j y ltac:(lia) Hy). unfold more in P3. lia.
Qed.

(** ** The loops *)

Fixpoint depths (stack : list (nat * nat * nat)) : Prop :=
  match stack with
  | [] => True
  | x :: stack => (length stack <= x.2)%nat /\ (x.2 <= 50)%nat /\ depths stack
  end.

(** Bounds the number of segments still to be taken from the stack. *)
Definition weight (stack : list (nat * nat * nat)) : nat := sum_list_with (fun x => x.1.2 + 1)%nat stack.

Lemma push_spec x stack : (length stack < 50)%nat -> push x stack = Some (x :: stack).
Proof. intros H. unfold push. by destruct (Nat.ltb_spec (length stack) 50); [|lia]. Qed.

Lemma rounds_spec : forall fuel ptr n depth stack l s, fuel = (50 - depth)%nat -> (depth <= 50)%nat -> (length stack <= depth)%nat -> depths stack -> pending ((ptr, n) :: map fst stack) l ->
  exists ptr' n' stack' l' s', rounds cmp fuel ptr n depth stack (l, s) = Some (ptr', n', stack', (l', s')) /\ depths stack' /\ pending ((ptr', n') :: map fst stack') l' /\ l' ≡ₚ l /\
    (n' + 1 + weight stack' <= n + 1 + weight stack)%nat.
Proof.
  induction fuel as [|fuel IH]; intros ptr n depth stack l s Hf Hd Hst Hds Hp; cbn [rounds]; destruct (Nat.leb_spec n 6) as [Hn|Hn]; try (exists ptr, n, stack, l, s; by split_and!).
  - destruct (heapsortx_spec cmp c ptr n l s) as (l' & s' & -> & A1 & A2); [pose proof (pd_bound _ _ Hp) as Hb; by apply Forall_cons in Hb as [Hb _]|]. cbn [mbind option_bind].
    exists ptr, 0%nat, stack, l', s'. split_and!; [done|done|by eapply pending_sorted|apply A1|lia].
  - destruct (partition_spec cmp c ptr n l s) as (lt & gt & l1 & s1 & -> & A1 & A2 & A3); [pose proof (pd_bound _ _ Hp) as Hb; by apply Forall_cons in Hb as [Hb _]|lia|]. cbn [mbind option_bind].
    pose proof (pending_partition _ _ _ _ _ _ _ Hp A2 A1 A3) as Hp1. pose proof (in_perm _ _ _ _ A2) as Hperm. destruct (Nat.ltb_spec (n - gt) lt) as [Hc|Hc]; rewrite push_spec by lia; cbn [mbind option_bind].
    + destruct (IH (ptr + gt)%nat (n - gt)%nat (depth + 1)%nat ((ptr, lt, (depth + 1)%nat) :: stack) l1 s1) as (p' & n' & st' & l' & s' & -> & B1 & B2 & B3 & B4); [lia|lia|cbn; lia|cbn; split_and!; [lia|lia|done]|by apply pending_swap|].
      exists p', n', st', l', s'. split_and!; [done|done|done|by rewrite B3|]. cbn [weight sum_list_with fst snd] in B4. unfold weight in *. cbn in B4. lia.
    + destruct (IH ptr lt (depth + 1)%nat (((ptr + gt)%nat, (n - gt)%nat, (depth + 1)%nat) :: stack) l1 s1) as (p' & n' & st' & l' & s' & -> & B1 & B2 & B3 & B4); [lia|lia|cbn; lia|cbn; split_and!; [lia|lia|done]|done|].
      exists p', n', st', l', s'. split_and!; [done|done|done|by rewrite B3|]. unfold weight in *. cbn in B4. lia.
Qed.

Lemma sort_loop_spec : forall fuel stack l s, (weight stack <= fuel)%nat -> depths stack -> pending (map fst stack) l ->
  exists l' s', sort_loop cmp fuel stack (l, s) = Some (l', s') /\ l' ≡ₚ l /\ pending [] l'.
Proof.
  induction fuel as [|fuel IH]; intros stack l s Hw Hds Hp; (destruct stack as [|[[ptr n] depth] stack]; [exists l, s; by split_and!|]); [cbn in Hw; lia|]. cbn [sort_loop]. cbn in Hds. destruct Hds as (D1 & D2 & D3).
  destruct (rounds_spec (50 - depth) ptr n depth stack l s) as (p & m & st & l1 & s1 & -> & B1 & B2 & B3 & B4); try done. cbn [mbind option_bind].
  assert (Hb : (p + m <= length l1)%nat) by (pose proof (pd_bound _ _ B2) as Hb; by apply Forall_cons in Hb as [Hb _]).
  destruct (decide (m = 0)%nat) as [->|Hm].
  - cbn [Nat.sub insertion mbind option_bind]. destruct (pending_sorted p 0 _ l1 l1 B2) as [B5 _]; [apply inside_refl|intros _ a b; lia|]. destruct (IH st l1 s1) as (l' & s' & -> & C1 & C2); [unfold weight in *; cbn in Hw; lia|done|done|].
    exists l', s'. split_and!; [done|by rewrite C1|done].
  - destruct (insertion_spec p (m - 1) 1 l1 s1) as (l2 & s2 & -> & A1 & A2); [lia|]. cbn [mbind option_bind]. replace (1 + (m - 1))%nat with m in * by lia.
    destruct (pending_sorted p m _ l1 l2 B2 A1) as [B5 _]; [intros Hfa; apply A2; [done|intros a b; lia]|]. destruct (IH st l2 s2) as (l' & s' & -> & C1 & C2); [unfold weight in *; cbn in Hw; lia|done|done|].
    exists l', s'. split_and!; [done|rewrite C1; rewrite (in_perm _ _ _ _ A1); done|done].
Qed.

Lemma hle_sorted l : (forall i j, (i < j)%nat -> hle c l i j) -> StronglySorted (fun x y => c x y <= 0) l.
Proof.
  induction l as [|x l IH]; intros H; constructor.
  - apply IH. intros i j Hij. apply (H (S i) (S j)). lia.
  - apply Forall_forall. intros y Hy. apply list_elem_of_lookup in Hy as [j Hj]. by apply (H 0%nat (S j) ltac:(lia)).
Qed.

Lemma rqsort_spec l s : exists l' s', rqsort cmp l s = Some (l', s') /\ l' ≡ₚ l /\ (faithful cmp c -> forall i j, (i < j)%nat -> hle c l' i j).
Proof.
  unfold rqsort. destruct (Nat.ltb_spec (length l) 2) as [Hl|Hl].
  - exists l, s. split_and!; [done|done|]. intros _ i j Hij x y _ Hy. apply lookup_lt_Some in Hy as ?. lia.
  - rewrite push_spec by (cbn; lia). cbn [mbind option_bind].
    destruct (sort_loop_spec (length l + 1) [(0%nat, length l, 0%nat)] l s) as (l' & s' & -> & H1 & H2); [unfold weight; cbn; lia|cbn; lia| |].
    + split; [by repeat constructor|done|]. intros _ i j Hij. destruct (decide (j < length l)%nat); [|right; intros x y _ Hy; apply lookup_lt_Some in Hy; lia]. left. exists (0%nat, length l). split; [by apply elem_of_cons; left|unfold within; cbn [fst snd]; lia].
    + exists l', s'. split_and!; [done|done|]. intros Hfa i j Hij. destruct (pd_order _ _ H2 Hfa i j Hij) as [(x & Hx & _)|]; [by apply elem_of_nil in Hx|done].
Qed.
End quicksort.

(** ** The contract of the sort *)

(** [C28] Whatever the comparison answers, even inconsistently or depending on
    earlier calls, the sort ends, never leaves the array, never needs more
    than the 50 entries of its stack, and the result is a permutation of the
    array. *)
Theorem rqsort_safe_under_any_comparison {X C : Type} (cmp : X -> X -> C -> Z * C) (l : list X) (s : C) :
  exists l' s', rqsort cmp l s = Some (l', s') /\ l' ≡ₚ l.
Proof. destruct (rqsort_spec cmp (fun _ _ => 0) l s) as (l' & s' & ? & ? & _). eauto. Qed.

(** [C29] With a comparison that answers as a weak order does, the result is in
    order: no element is followed by one that the comparison puts before it. *)
Theorem rqsort_sorts {X C : Type} (cmp : X -> X -> C -> Z * C) (c : X -> X -> Z) (l : list X) (s : C) : faithful cmp c ->
  exists l' s', rqsort cmp l s = Some (l', s') /\ l' ≡ₚ l /\ StronglySorted (fun x y => c x y <= 0) l'.
Proof.
  intros Hfa. destruct (rqsort_spec cmp c l s) as (l' & s' & H1 & H2 & H3). exists l', s'. split_and!; [done|done|]. apply hle_sorted. by apply H3.
Qed.

(** Twelve numbers with ties, compared by their tens. *)
Lemma rqsort_sorts_witness :
  exists l' s', rqsort (fun x y n => (x / 10 - y / 10, n + 1)) [53; 12; 90; 11; 55; 7; 30; 91; 34; 8; 70; 10] 0 = Some (l', s') /\ l' ≡ₚ [53; 12; 90; 11; 55; 7; 30; 91; 34; 8; 70; 10] /\
    StronglySorted (fun x y => x / 10 - y / 10 <= 0) l'.
Proof.
  apply (rqsort_sorts (fun x y n => (x / 10 - y / 10, n + 1)) (fun x y => x / 10 - y / 10)). split; [reflexivity|]. split.
  - intros x y. rewrite <- Z.sgn_opp. f_equal. lia.
  - intros x y z. lia.
Defined.
