(* ===== verification/CharRange.v ===== *)
(** * Sets of characters (src/libunicode.c, src/libunicode.h)

    A [CharRange] is a buffer of points; the first [len] of them are the
    bounds of half-open intervals, in increasing order.  The buffer has its
    real size: what lies behind [len] is left over or not initialised
    ([junk]), an access outside is [None].  The host allocator may fail;
    [mem t] is its answer to the [t]-th request.  A result is the return
    value ([true] for 0), the range and the number of requests so far. *)
From S2P Require Import Prelude Sort.

Record CharRange := { len : nat; points : list Z }.

(** The points in use. *)
Definition used (cr : CharRange) : list Z := take (len cr) (points cr).

Definition cr_init : CharRange := {| len := 0; points := [] |}.

(** An [int] sum; overflow is undefined. *)
Definition int_sum (n k : nat) : option nat :=
  if Z.of_nat (n + k) <? 2 ^ 31 then Some (n + k)%nat else None.

Section alloc.
Context (mem : nat -> bool) (junk : Z).

Notation result := (bool * CharRange * nat)%type.

Definition cr_realloc (cr : CharRange) (size : nat) (t : nat) : result :=
  if (length (points cr) <? size)%nat then
    let new_size := Z.of_nat size `max` Z.quot (sint 32 (Z.of_nat (length (points cr)) * 3)) 2 in
    if mem t then (true, {| len := len cr; points := points cr ++ replicate (Z.to_nat new_size - length (points cr)) junk |}, (t + 1)%nat)
    else (false, cr, (t + 1)%nat)
  else (true, cr, t).

(** A store to the buffer. *)
Definition store (l : list Z) (i : nat) (v : Z) : option (list Z) :=
  if (i <? length l)%nat then Some (<[i := v]> l) else None.

(** [memcpy]/[memmove] of [v] to position [i]. *)
Definition store_all (l : list Z) (i : nat) (v : list Z) : option (list Z) :=
  if (i + length v <=? length l)%nat then Some (take i l ++ v ++ drop (i + length v) l) else None.

(** [memcpy] reads [len] points of [cr1]. *)
Definition cr_copy (cr cr1 : CharRange) (t : nat) : option result :=
  let '(ok, cr, t) := cr_realloc cr (len cr1) t in
  if ok then
    pts ← store_all (points cr) 0 (used cr1);
    Some (true, {| len := len cr1; points := pts |}, t)
  else Some (false, cr, t).

Definition cr_add_point (cr : CharRange) (v : Z) (t : nat) : option result :=
  '(ok, cr, t) ← if (length (points cr) <=? len cr)%nat then n ← int_sum (len cr) 1; Some (cr_realloc cr n t) else Some (true, cr, t);
  if ok : bool then
    pts ← store (points cr) (len cr) v;
    Some (true, {| len := len cr + 1; points := pts |}, t)
  else Some (false, cr, t).

Definition cr_add_interval (cr : CharRange) (c1 c2 : Z) (t : nat) : option result :=
  n ← int_sum (len cr) 2;
  '(ok, cr, t) ← if (length (points cr) <? n)%nat then Some (cr_realloc cr n t) else Some (true, cr, t);
  if ok : bool then
    pts ← store (points cr) (len cr) c1;
    pts ← store pts (len cr + 1) c2;
    Some (true, {| len := len cr + 2; points := pts |}, t)
  else Some (false, cr, t).

(** ** Compression *)

(** [while ((j + 3) < len && pt[j + 1] == pt[j + 2]) j += 2;] *)
Fixpoint run_end (fuel : nat) (pt : list Z) (n j : nat) : option nat :=
  match fuel with
  | O => None
  | S fuel =>
      if (j + 3 <? n)%nat then
        x ← pt !! (j + 1)%nat; y ← pt !! (j + 2)%nat;
        if x =? y then run_end fuel pt n (j + 2) else Some j
      else Some j
  end.

(** The outer loop, in place: the new length. *)
Fixpoint compress_loop (fuel : nat) (pt : list Z) (n i k : nat) : option (list Z * nat) :=
  match fuel with
  | O => None
  | S fuel =>
      if (i + 1 <? n)%nat then
        x ← pt !! i; y ← pt !! (i + 1)%nat;
        if x =? y then compress_loop fuel pt n (i + 2) k
        else
          j ← run_end n pt n i;
          pt ← store pt k x;
          z ← pt !! (j + 1)%nat;
          pt ← store pt (k + 1) z;
          compress_loop fuel pt n (j + 2) (k + 2)
      else Some (pt, k)
  end.

Definition cr_compress (cr : CharRange) : option CharRange :=
  '(pt, k) ← compress_loop (len cr + 1) (points cr) (len cr) 0 0;
  Some {| len := k; points := pt |}.

(** ** Set operations *)

Inductive CharRangeOpEnum := CR_OP_UNION | CR_OP_INTER | CR_OP_XOR | CR_OP_SUB.

(** The next point in increasing order and the indices after it; [None] ends
    the loop. *)
Definition next_point (a b : list Z) (a_idx b_idx : nat) : option (Z * nat * nat) :=
  match a !! a_idx, b !! b_idx with
  | Some x, Some y =>
      if x <? y then Some (x, (a_idx + 1)%nat, b_idx)
      else if x =? y then Some (x, (a_idx + 1)%nat, (b_idx + 1)%nat)
      else Some (y, a_idx, (b_idx + 1)%nat)
  | Some x, None => Some (x, (a_idx + 1)%nat, b_idx)
  | None, Some y => Some (y, a_idx, (b_idx + 1)%nat)
  | None, None => None
  end.

Definition is_in (op : CharRangeOpEnum) (a b : bool) : bool :=
  match op with
  | CR_OP_UNION => a || b
  | CR_OP_INTER => a && b
  | CR_OP_XOR => xorb a b
  | CR_OP_SUB => a && negb b
  end.

Fixpoint op_loop (fuel : nat) (op : CharRangeOpEnum) (a b : list Z) (a_idx b_idx : nat) (cr : CharRange) (t : nat) : option result :=
  match fuel with
  | O => None
  | S fuel =>
      match next_point a b a_idx b_idx with
      | None => Some (true, cr, t)
      | Some (v, a_idx, b_idx) =>
          if negb (eqb (is_in op (Nat.odd a_idx) (Nat.odd b_idx)) (Nat.odd (len cr))) then
            '(ok, cr, t) ← cr_add_point cr v t;
            if ok : bool then op_loop fuel op a b a_idx b_idx cr t else Some (false, cr, t)
          else op_loop fuel op a b a_idx b_idx cr t
      end
  end.

(** The arrays of points [a] and [b] are given with their lengths. *)
Definition cr_op (cr : CharRange) (a b : list Z) (op : CharRangeOpEnum) (t : nat) : option result :=
  '(ok, cr, t) ← op_loop (length a + length b + 1) op a b 0 0 cr t;
  if ok : bool then cr ← cr_compress cr; Some (true, cr, t) else Some (false, cr, t).

Definition cr_op1 (cr : CharRange) (b : list Z) (op : CharRangeOpEnum) (t : nat) : option result :=
  cr_op cr_init (used cr) b op t.

Definition cr_union_interval (cr : CharRange) (c1 c2 : Z) (t : nat) : option result :=
  cr_op1 cr [c1; u32 (c2 + 1)] CR_OP_UNION t.

Definition cr_invert (cr : CharRange) (t : nat) : option result :=
  n ← int_sum (len cr) 2;
  let '(ok, cr, t) := cr_realloc cr n t in
  if ok then
    pts ← store_all (points cr) 1 (used cr);
    pts ← store pts 0 0;
    pts ← store pts (len cr + 1) UINT32_MAX;
    cr ← cr_compress {| len := len cr + 2; points := pts |};
    Some (true, cr, t)
  else Some (false, cr, t).
End alloc.

(** ** Intervals in any order *)

Definition point_cmp (p1 p2 : Z * Z) (s : unit) : Z * unit :=
  ((if p2.1 <? p1.1 then 1 else 0) - (if p1.1 <? p2.1 then 1 else 0), s).

(** The array as elements of two points. *)
Fixpoint pairs (l : list Z) : list (Z * Z) :=
  match l with
  | x :: y :: l => (x, y) :: pairs l
  | _ => []
  end.

Definition unpairs (l : list (Z * Z)) : list Z := l ≫= fun p => [p.1; p.2].

Definition cr_sort (cr : CharRange) : option (list Z) :=
  '(l, _) ← rqsort point_cmp (pairs (take (2 * (len cr / 2)) (points cr))) tt;
  Some (unpairs l ++ drop (2 * (len cr / 2)) (points cr)).

(** [while (i < cr->len)]: the intervals that meet the current one. *)
Fixpoint merge_end (fuel : nat) (pt : list Z) (n i : nat) (e : Z) : option (nat * Z) :=
  match fuel with
  | O => None
  | S fuel =>
      if (i <? n)%nat then
        start1 ← pt !! i; end1 ← pt !! (i + 1)%nat;
        if e <? start1 then Some (i, e)
        else if end1 <=? e then merge_end fuel pt n (i + 2) e
        else merge_end fuel pt n (i + 2) end1
      else Some (i, e)
  end.

Fixpoint overlap_loop (fuel : nat) (pt : list Z) (n i j : nat) : option (list Z * nat) :=
  match fuel with
  | O => None
  | S fuel =>
      if (i <? n)%nat then
        x ← pt !! i; y ← pt !! (i + 1)%nat;
        '(i, y) ← merge_end (n + 1) pt n (i + 2) y;
        pt ← store pt j x;
        pt ← store pt (j + 1) y;
        overlap_loop fuel pt n i (j + 2)
      else Some (pt, j)
  end.

Definition cr_sort_and_remove_overlap (cr : CharRange) : option CharRange :=
  pt ← cr_sort cr;
  '(pt, j) ← overlap_loop (len cr + 1) pt (len cr) 0 0;
  Some {| len := j; points := pt |}.
