(* ===== verification/CharRangeProps.v ===== *)
(** * Sets of characters: what the operations compute

    Points in increasing order stand for a set: a character is in it when the
    number of points up to it is odd.  The operations compute on these sets
    and return the one list of points in strictly increasing order for the
    result. *)
From S2P Require Import Prelude Sort SortProps SortHeap SortLoop CharRange.

(** ** The set of a list of points *)

Fixpoint covers (l : list Z) (c : Z) : bool :=
  match l with
  | [] => false
  | x :: l => xorb (x <=? c) (covers l c)
  end.

Lemma covers_app l r c : covers (l ++ r) c = xorb (covers l c) (covers r c).
Proof. induction l as [|x l IH]; cbn; [by destruct (covers r c)|]. by rewrite IH, xorb_assoc. Qed.

Lemma covers_above l c : Forall (fun x => x <= c) l -> covers l c = Nat.odd (length l).
Proof.
  induction l as [|x l IH]; intros H; [done|]. apply Forall_cons in H as [H1 H2]. cbn [covers length]. rewrite IH by done. destruct (Z.leb_spec x c); [|lia]. rewrite Nat.odd_succ, <- Nat.negb_odd. by destruct (Nat.odd (length l)).
Qed.

Lemma covers_below l c : Forall (fun x => c < x) l -> covers l c = false.
Proof. induction l as [|x l IH]; intros H; [done|]. apply Forall_cons in H as [H1 H2]. cbn. rewrite IH by done. by destruct (Z.leb_spec x c); [lia|]. Qed.

(** Strictly increasing lists of even length are determined by their set. *)
Lemma covers_inj l : forall l', StronglySorted Z.lt l -> StronglySorted Z.lt l' -> (forall c, covers l c = covers l' c) -> l = l'.
Proof.
  induction l as [|x l IH]; intros [|y l'] H1 H2 He; [done| | |].
  - apply StronglySorted_inv in H2 as [_ H2]. specialize (He y). cbn in He. rewrite covers_below in He by done. by rewrite Z.leb_refl in He.
  - apply StronglySorted_inv in H1 as [_ H1]. specialize (He x). cbn in He. rewrite covers_below in He by done. by rewrite Z.leb_refl in He.
  - apply StronglySorted_inv in H1 as [H1 H3], H2 as [H2 H4]. assert (Hb : forall z l, Forall (Z.lt z) l -> covers (z :: l) z = true) by (intros z k Hk; cbn; rewrite covers_below by done; by rewrite Z.leb_refl).
    assert (Hn : forall z w l, z < w -> Forall (Z.lt w) l -> covers (w :: l) z = false) by (intros z w k Hz Hk; apply covers_below; constructor; [done|]; eapply Forall_impl; [exact Hk|]; cbn; lia).
    assert (x = y) as -> by (destruct (Z.lt_trichotomy x y) as [Hl|[?|Hl]]; [|done|]; [specialize (He x)|specialize (He y)]; [rewrite Hb, (Hn x y) in He by done|rewrite Hb, (Hn y x) in He by done]; done).
    f_equal. apply IH; [done|done|]. intros c. specialize (He c). cbn in He. by destruct (y <=? c), (covers l c), (covers l' c).
Qed.

Lemma unpairs_cons p ps : unpairs (p :: ps) = p.1 :: p.2 :: unpairs ps.
Proof. done. Qed.

Lemma pairs_unpairs ps : pairs (unpairs ps) = ps.
Proof. induction ps as [|[x y] ps IH]; [done|]. rewrite unpairs_cons. cbn [pairs fst snd]. by rewrite IH. Qed.

Lemma unpairs_pairs l : Nat.even (length l) = true -> unpairs (pairs l) = l.
Proof.
  revert l. fix IH 1. intros [|x [|y l]] H; [done|done|]. cbn [pairs]. rewrite unpairs_cons. cbn [fst snd]. rewrite IH; [done|]. exact H.
Qed.

Lemma length_unpairs ps : length (unpairs ps) = (2 * length ps)%nat.
Proof. induction ps as [|p ps IH]; [done|]. rewrite unpairs_cons. cbn [length]. lia. Qed.

(** ** Compression *)

(** The loop of [cr_compress] on a list of intervals; [cur] is the one being
    extended. *)
Fixpoint squeeze (cur : option (Z * Z)) (ps : list (Z * Z)) : list (Z * Z) :=
  match ps, cur with
  | [], None => []
  | [], Some p => [p]
  | (x, y) :: ps, Some (a, b) =>
      if b =? x then squeeze (Some (a, y)) ps
      else (a, b) :: (if x =? y then squeeze None ps else squeeze (Some (x, y)) ps)
  | (x, y) :: ps, None => if x =? y then squeeze None ps else squeeze (Some (x, y)) ps
  end.

Definition cur_points (cur : option (Z * Z)) : list Z := match cur with Some p => [p.1; p.2] | None => [] end.

Lemma squeeze_covers ps c : forall cur, covers (unpairs (squeeze cur ps)) c = covers (cur_points cur ++ unpairs ps) c.
Proof.
  induction ps as [|[x y] ps IH]; intros [[a b]|]; cbn [squeeze cur_points]; try done.
  - destruct (Z.eqb_spec b x) as [->|].
    + rewrite IH. rewrite unpairs_cons. cbn. by destruct (a <=? c), (x <=? c), (y <=? c), (covers (unpairs ps) c).
    + rewrite !unpairs_cons. cbn [app fst snd covers]. f_equal. f_equal. destruct (Z.eqb_spec x y) as [->|]; rewrite IH; cbn [cur_points app covers fst snd]; [by destruct (y <=? c), (covers (unpairs ps) c)|done].
  - rewrite !unpairs_cons. destruct (Z.eqb_spec x y) as [->|]; rewrite IH; cbn [cur_points app covers fst snd]; [by destruct (y <=? c), (covers (unpairs ps) c)|done].
Qed.

Lemma squeeze_elem ps : forall cur z, z ∈ unpairs (squeeze cur ps) -> z ∈ cur_points cur ++ unpairs ps.
Proof.
  induction ps as [|[x y] ps IH]; intros [[a b]|] z; cbn [squeeze cur_points]; try done.
  - destruct (b =? x); [intros Hz; apply IH in Hz; revert Hz; rewrite unpairs_cons; cbn; set_solver|]. rewrite !unpairs_cons. cbn [fst snd app]. rewrite !elem_of_cons. intros [->|[->|Hz]]; [set_solver|set_solver|].
    destruct (x =? y); apply IH in Hz; cbn in Hz; set_solver.
  - rewrite unpairs_cons. cbn [fst snd app]. destruct (x =? y); intros Hz; apply IH in Hz; cbn in Hz; set_solver.
Qed.

Lemma squeeze_sorted ps : forall cur, (forall a b, cur = Some (a, b) -> a < b) -> StronglySorted Z.le (cur_points cur ++ unpairs ps) -> StronglySorted Z.lt (unpairs (squeeze cur ps)).
Proof.
  assert (Hge : forall x y ps z, StronglySorted Z.le (x :: y :: unpairs ps) -> z ∈ x :: y :: unpairs ps -> x <= z).
  { intros x y qs z Hs Hz. apply StronglySorted_inv in Hs as [_ Hs]. rewrite Forall_forall in Hs. apply elem_of_cons in Hz as [->|Hz]; [lia|by apply Hs]. }
  induction ps as [|[x y] ps IH]; intros [[a b]|] Hc Hs; cbn [squeeze].
  - specialize (Hc a b eq_refl). repeat constructor. done.
  - constructor.
  - specialize (Hc a b eq_refl). cbn [cur_points app fst snd] in Hs. rewrite unpairs_cons in Hs. cbn [fst snd] in Hs. apply StronglySorted_inv in Hs as [Hs1 Ha]. apply StronglySorted_inv in Hs1 as [Hs2 Hb]. apply StronglySorted_inv in Hs2 as Hs3. destruct Hs3 as [Hs3 Hx].
    rewrite !Forall_cons in Ha. rewrite !Forall_cons in Hb. rewrite !Forall_cons in Hx. destruct Ha as (A1 & A2 & A3 & A4), Hb as (B1 & B2 & B3), Hx as (X1 & X2).
    destruct (Z.eqb_spec b x) as [->|Hne]; [apply IH; [intros ? ? [= <- <-]; lia|]; cbn [cur_points app fst snd]; constructor; [done|]; by rewrite Forall_cons|].
    rewrite unpairs_cons. cbn [fst snd]. assert (Hrest : forall z, z ∈ unpairs (if x =? y then squeeze None ps else squeeze (Some (x, y)) ps) -> b < z).
    { intros z Hz. assert (x <= z); [|lia]. apply (Hge x y ps); [by constructor; [|rewrite Forall_cons]|]. destruct (x =? y); apply squeeze_elem in Hz; cbn in Hz; set_solver. }
    constructor; [constructor|].
    + destruct (Z.eqb_spec x y) as [->|]; apply IH; cbn [cur_points app fst snd]; [done|by apply StronglySorted_inv in Hs3 as [? _]|intros ? ? [= <- <-]; lia|done].
    + apply Forall_forall. exact Hrest.
    + rewrite Forall_cons. split; [done|]. apply Forall_forall. intros z Hz. specialize (Hrest z Hz). lia.
  - cbn [cur_points app] in Hs. rewrite unpairs_cons in Hs. cbn [fst snd] in Hs. apply StronglySorted_inv in Hs as Hs1. destruct Hs1 as [Hs1 Hx]. rewrite Forall_cons in Hx. destruct Hx as [Hx _].
    destruct (Z.eqb_spec x y) as [->|]; apply IH; cbn [cur_points app fst snd]; [done|by apply StronglySorted_inv in Hs1 as [? _]|intros ? ? [= <- <-]; lia|done].
Qed.

(** *** The loop in place *)

Lemma store_spec l i v : (i < length l)%nat -> store l i v = Some (<[i := v]> l).
Proof. intros H. unfold store. by destruct (Nat.ltb_spec i (length l)); [|lia]. Qed.

Lemma drop_take_same {A} (l l' : list A) m n : (forall k, (m <= k)%nat -> l' !! k = l !! k) -> drop m (take n l') = drop m (take n l).
Proof. intros H. apply list_eq. intros k. rewrite !lookup_drop. destruct (decide (m + k < n)%nat); [rewrite !lookup_take_lt by done; apply H; lia|by rewrite !lookup_take_ge by lia]. Qed.

Lemma take_two {A} (l : list A) k x y : (k + 1 < length l)%nat -> take (k + 2) (<[(k + 1)%nat := y]> (<[k := x]> l)) = take k l ++ [x; y].
Proof.
  intros H. apply list_eq. intros i. destruct (decide (i < k + 2)%nat) as [Hi|Hi].
  - rewrite lookup_take_lt by done. destruct (decide (i < k)%nat) as [Hk|Hk].
    + rewrite lookup_app_l by (rewrite length_take; lia). rewrite lookup_take_lt by done. by rewrite !list_lookup_insert_ne by lia.
    + rewrite lookup_app_r by (rewrite length_take; lia). rewrite length_take, Nat.min_l by lia. destruct (decide (i = k)) as [->|].
      * rewrite list_lookup_insert_ne by lia. rewrite list_lookup_insert_eq by lia. by rewrite Nat.sub_diag.
      * replace i with (k + 1)%nat by lia. rewrite list_lookup_insert_eq by (rewrite length_insert; lia). by replace (k + 1 - k)%nat with 1%nat by lia.
  - rewrite lookup_take_ge by lia. rewrite lookup_ge_None_2; [done|]. rewrite length_app, length_take. cbn. lia.
Qed.

Lemma pairs_at pt n i x y : (i + 1 < n)%nat -> pt !! i = Some x -> pt !! (i + 1)%nat = Some y -> pairs (drop i (take n pt)) = (x, y) :: pairs (drop (i + 2) (take n pt)).
Proof.
  intros Hi Hx Hy. rewrite (drop_S (take n pt) x i) by (rewrite lookup_take_lt by lia; done). rewrite (drop_S (take n pt) y (S i)) by (rewrite lookup_take_lt by lia; rewrite <- Hy; f_equal; lia). cbn [pairs]. f_equal. f_equal. f_equal. lia.
Qed.

Lemma pairs_end pt n i : (n <= i + 1)%nat -> pairs (drop i (take n pt)) = [].
Proof.
  intros H. assert (Hl : (length (drop i (take n pt)) <= 1)%nat) by (rewrite length_drop, length_take; lia). destruct (drop i (take n pt)) as [|x [|y l]]; [done|done|cbn in Hl; lia].
Qed.

Lemma run_end_spec pt n : (n <= length pt)%nat -> forall fuel j b, (j + 1 < n)%nat -> (n <= fuel + j)%nat -> pt !! (j + 1)%nat = Some b ->
  exists j' b', run_end fuel pt n j = Some j' /\ (j <= j')%nat /\ (j' + 1 < n)%nat /\ pt !! (j' + 1)%nat = Some b' /\
    forall a, squeeze (Some (a, b)) (pairs (drop (j + 2) (take n pt))) = (a, b') :: squeeze None (pairs (drop (j' + 2) (take n pt))).
Proof.
  intros Hn. induction fuel as [|fuel IH]; intros j b Hj Hf Hb; [lia|]. cbn [run_end]. destruct (Nat.ltb_spec (j + 3) n) as [H3|H3].
  - rewrite Hb. cbn [mbind option_bind]. destruct (lookup_lt_is_Some_2 pt (j + 2) ltac:(lia)) as [x Hx]. rewrite Hx. cbn [mbind option_bind]. destruct (lookup_lt_is_Some_2 pt (j + 2 + 1) ltac:(lia)) as [y Hy].
    rewrite (pairs_at pt n (j + 2) x y) by (done || lia). destruct (Z.eqb_spec b x) as [->|Hne].
    + destruct (IH (j + 2)%nat y) as (j' & b' & -> & H1 & H2 & H4 & H5); [lia|lia|done|]. exists j', b'. split_and!; try done; [lia|]. intros a. cbn [squeeze]. by rewrite Z.eqb_refl, H5.
    + exists j, b. split_and!; try done. intros a. rewrite (pairs_at pt n (j + 2) x y) by (done || lia). cbn [squeeze]. by destruct (Z.eqb_spec b x).
  - exists j, b. split_and!; try done. intros a. by rewrite pairs_end by lia.
Qed.

Lemma compress_loop_spec n : forall fuel pt i k, (n <= length pt)%nat -> (i <= n)%nat -> (k <= i)%nat -> (n + 1 <= fuel + i)%nat ->
  exists pt' k', compress_loop fuel pt n i k = Some (pt', k') /\ length pt' = length pt /\ (k' <= n)%nat /\ take k' pt' = take k pt ++ unpairs (squeeze None (pairs (drop i (take n pt)))).
Proof.
  induction fuel as [|fuel IH]; intros pt i k Hn Hi Hk Hf; [lia|]. cbn [compress_loop]. destruct (Nat.ltb_spec (i + 1) n) as [H1|H1].
  2: { exists pt, k. split_and!; try done; [lia|]. rewrite pairs_end by lia. cbn. by rewrite app_nil_r. }
  destruct (lookup_lt_is_Some_2 pt i ltac:(lia)) as [x Hx], (lookup_lt_is_Some_2 pt (i + 1) ltac:(lia)) as [y Hy]. rewrite Hx. cbn [mbind option_bind]. rewrite Hy. cbn [mbind option_bind]. rewrite (pairs_at pt n i x y) by done. cbn [squeeze].
  destruct (Z.eqb_spec x y) as [->|Hne]; [apply IH; lia|].
  destruct (run_end_spec pt n Hn n i y H1 ltac:(lia) Hy) as (j & b & -> & Hij & Hj & Hb & Hsq). cbn [mbind option_bind]. rewrite store_spec by lia. cbn [mbind option_bind]. rewrite list_lookup_insert_ne by lia. rewrite Hb. cbn [mbind option_bind]. rewrite store_spec by (rewrite length_insert; lia). cbn [mbind option_bind].
  set (pt1 := <[(k + 1)%nat:=b]> (<[k:=x]> pt)). destruct (IH pt1 (j + 2)%nat (k + 2)%nat) as (pt' & k' & -> & L1 & L2 & L3); [unfold pt1; rewrite !length_insert; lia|lia|lia|lia|].
  exists pt', k'. split_and!; [done|rewrite L1; unfold pt1; by rewrite !length_insert|done|]. rewrite L3, Hsq. unfold pt1 at 1. rewrite take_two by lia. rewrite <- app_assoc. rewrite unpairs_cons. cbn [app fst snd]. do 3 f_equal. f_equal. f_equal. f_equal.
  apply drop_take_same. intros q Hq. unfold pt1. by rewrite !list_lookup_insert_ne by lia.
Qed.

(** A list of points as the engine keeps it. *)
Record cr_ok (cr : CharRange) : Prop := {
  ok_len : (len cr <= length (points cr))%nat;
  ok_even : Nat.even (len cr) = true;
  ok_sorted : StronglySorted Z.lt (used cr);
}.

Lemma length_used cr : (len cr <= length (points cr))%nat -> length (used cr) = len cr.
Proof. intros H. unfold used. rewrite length_take. lia. Qed.

Lemma cr_compress_spec cr : (len cr <= length (points cr))%nat -> Nat.even (len cr) = true -> StronglySorted Z.le (used cr) ->
  exists cr', cr_compress cr = Some cr' /\ cr_ok cr' /\ (forall c, covers (used cr') c = covers (used cr) c) /\ (forall z, z ∈ used cr' -> z ∈ used cr) /\ (len cr' <= len cr)%nat.
Proof.
  intros Hl He Hs. unfold cr_compress. destruct (compress_loop_spec (len cr) (len cr + 1) (points cr) 0 0) as (pt & k & -> & H1 & H2 & H3); [lia|lia|lia|lia|]. cbn [mbind option_bind]. eexists. split; [done|].
  cbn [take app drop] in H3. change (take (len cr) (points cr)) with (used cr) in H3. assert (Hp : unpairs (pairs (used cr)) = used cr) by (apply unpairs_pairs; by rewrite length_used).
  assert (E : used {| len := k; points := pt |} = unpairs (squeeze None (pairs (used cr)))) by exact H3. assert (Hk : length (used {| len := k; points := pt |}) = k) by (apply length_used; cbn; lia). split_and!.
  - split; cbn [len points]; [lia| |].
    + rewrite <- Hk, E, length_unpairs. by rewrite Nat.even_mul.
    + rewrite E. apply squeeze_sorted; [done|]. cbn. by rewrite Hp.
  - intros c. rewrite E, squeeze_covers. cbn. by rewrite Hp.
  - intros z. rewrite E. intros Hz. apply squeeze_elem in Hz. cbn in Hz. by rewrite Hp in Hz.
  - done.
Qed.

(** ** Allocation *)

Section ops.
Context (mem : nat -> bool) (junk : Z).

Definition fits (cr : CharRange) : Prop := (len cr <= length (points cr))%nat.

(** A request between [t] and [t'] was refused. *)
Definition refused (t t' : nat) : Prop := exists u, (t <= u < t')%nat /\ mem u = false.

Lemma refused_weaken t t' u u' : (u <= t)%nat -> (t' <= u')%nat -> refused t t' -> refused u u'.
Proof. intros H1 H2 (v & Hv & Hm). exists v. split; [lia|done]. Qed.

Lemma cr_realloc_spec cr size t : fits cr -> exists ok cr' t', cr_realloc mem junk cr size t = (ok, cr', t') /\ (t <= t')%nat /\ len cr' = len cr /\ used cr' = used cr /\ (length (points cr) <= length (points cr'))%nat /\
  (if ok then (size <= length (points cr'))%nat else refused t t').
Proof.
  intros Hf. unfold cr_realloc. destruct (Nat.ltb_spec (length (points cr)) size) as [Hs|Hs]; [|exists true, cr, t; by split_and!].
  destruct (mem t) eqn:E; [|exists false, cr, (t + 1)%nat; split_and!; try done; [lia|exists t; split; [lia|done]]]. eexists true, _, (t + 1)%nat. split; [done|]. cbn [len points]. split_and!; [lia|done| |rewrite length_app; lia|rewrite length_app, length_replicate; lia].
  unfold used. cbn [len points]. rewrite take_app_le by done. done.
Qed.

Lemma int_sum_spec n k : Z.of_nat (n + k) < 2 ^ 31 -> int_sum n k = Some (n + k)%nat.
Proof. intros H. unfold int_sum. by destruct (Z.ltb_spec (Z.of_nat (n + k)) (2 ^ 31)); [|lia]. Qed.

Lemma take_snoc {A} (l : list A) k v : (k < length l)%nat -> take (k + 1) (<[k := v]> l) = take k l ++ [v].
Proof.
  intros H. rewrite Nat.add_1_r. rewrite (take_S_r _ _ v) by (by apply list_lookup_insert_eq). f_equal. apply take_insert_ge. done.
Qed.

Lemma cr_add_point_spec cr v t : fits cr -> Z.of_nat (len cr + 1) < 2 ^ 31 -> exists ok cr' t', cr_add_point mem junk cr v t = Some (ok, cr', t') /\ (t <= t')%nat /\ fits cr' /\
  (if ok then len cr' = (len cr + 1)%nat /\ used cr' = used cr ++ [v] else refused t t' /\ used cr' = used cr).
Proof.
  intros Hf Hb. unfold cr_add_point, fits in *.
  assert (Hr : exists ok cr1 t1, (if (length (points cr) <=? len cr)%nat then n ← int_sum (len cr) 1; Some (cr_realloc mem junk cr n t) else Some (true, cr, t)) = Some (ok, cr1, t1) /\ (t <= t1)%nat /\ len cr1 = len cr /\ used cr1 = used cr /\
    (length (points cr) <= length (points cr1))%nat /\ (if ok : bool then (len cr < length (points cr1))%nat else refused t t1)).
  { destruct (Nat.leb_spec (length (points cr)) (len cr)) as [H|H]; [|exists true, cr, t; by split_and!]. rewrite int_sum_spec by done. cbn [mbind option_bind]. destruct (cr_realloc_spec cr (len cr + 1) t Hf) as (ok & cr1 & t1 & -> & ? & ? & ? & ? & Hok).
    exists ok, cr1, t1. split_and!; try done. destruct ok; [lia|done]. }
  destruct Hr as (ok & cr1 & t1 & -> & Ht & E1 & E2 & E3 & Hok). cbn [mbind option_bind]. destruct ok; [|exists false, cr1, t1; split_and!; try done; lia]. rewrite store_spec by lia. cbn [mbind option_bind].
  eexists true, _, t1. split; [done|]. cbn [len points]. rewrite length_insert. split_and!; [done|lia|lia|]. unfold used at 1. cbn [len points]. rewrite take_snoc by lia. change (take (len cr1) (points cr1)) with (used cr1). by rewrite E2.
Qed.

Lemma cr_add_interval_spec cr c1 c2 t : fits cr -> Z.of_nat (len cr + 2) < 2 ^ 31 -> exists ok cr' t', cr_add_interval mem junk cr c1 c2 t = Some (ok, cr', t') /\ (t <= t')%nat /\ fits cr' /\
  (if ok then len cr' = (len cr + 2)%nat /\ used cr' = used cr ++ [c1; c2] else refused t t' /\ used cr' = used cr).
Proof.
  intros Hf Hb. unfold cr_add_interval, fits in *. rewrite int_sum_spec by done. cbn [mbind option_bind].
  assert (Hr : exists ok cr1 t1, (if (length (points cr) <? len cr + 2)%nat then Some (cr_realloc mem junk cr (len cr + 2) t) else Some (true, cr, t)) = Some (ok, cr1, t1) /\ (t <= t1)%nat /\ len cr1 = len cr /\ used cr1 = used cr /\
    (length (points cr) <= length (points cr1))%nat /\ (if ok : bool then (len cr + 2 <= length (points cr1))%nat else refused t t1)).
  { destruct (Nat.ltb_spec (length (points cr)) (len cr + 2)) as [H|H]; [|exists true, cr, t; by split_and!]. destruct (cr_realloc_spec cr (len cr + 2) t Hf) as (ok & cr1 & t1 & -> & ? & ? & ? & ? & Hok). by exists ok, cr1, t1. }
  destruct Hr as (ok & cr1 & t1 & -> & Ht & E1 & E2 & E3 & Hok). cbn [mbind option_bind]. destruct ok; [|exists false, cr1, t1; split_and!; try done; lia]. rewrite store_spec by lia. cbn [mbind option_bind]. rewrite store_spec by (rewrite length_insert; lia). cbn [mbind option_bind].
  eexists true, _, t1. split; [done|]. cbn [len points]. rewrite !length_insert. split_and!; [done|lia|lia|]. unfold used at 1. cbn [len points]. rewrite take_two by lia. change (take (len cr1) (points cr1)) with (used cr1). by rewrite E2.
Qed.

(** ** Merging two lists of points *)


(** The points before the indices are not after those behind them, and give
    the points found so far. *)
Record merging (op : CharRangeOpEnum) (a b : list Z) (i j : nat) (cr : CharRange) : Prop := {
  mg_fits : fits cr;
  mg_len : (len cr <= i + j)%nat;
  mg_idx : (i <= length a)%nat /\ (j <= length b)%nat;
  mg_sorted : StronglySorted Z.le (used cr);
  mg_before : forall x y, x ∈ used cr ++ take i a ++ take j b -> y ∈ drop i a ++ drop j b -> x <= y;
  mg_parity : Nat.odd (len cr) = is_in op (Nat.odd i) (Nat.odd j);
  mg_elem : forall x, x ∈ used cr -> x ∈ take i a ++ take j b;
  mg_covers : forall c, covers (used cr) c = is_in op (covers (take i a) c) (covers (take j b) c);
}.
Lemma take_drop_at {A} (l : list A) i x : l !! i = Some x -> take (i + 1) l = take i l ++ [x] /\ drop i l = x :: drop (i + 1) l.
Proof. intros H. rewrite Nat.add_1_r. split; [by apply take_S_r|by apply drop_S]. Qed.

Lemma sorted_drop l i x : StronglySorted Z.le l -> l !! i = Some x -> forall y, y ∈ drop i l -> x <= y.
Proof.
  revert i. induction l as [|z l IH]; intros i Hs Hx y Hy; [done|]. apply StronglySorted_inv in Hs as [Hs Hz]. destruct i as [|i]; [|by apply (IH i)]. cbn in Hx. injection Hx as ->. cbn in Hy. apply elem_of_cons in Hy as [->|Hy]; [lia|]. rewrite Forall_forall in Hz. by apply Hz.
Qed.

(** The points taken by one step, [da] from [a] and [db] from [b]. *)
Lemma next_point_some a b i j v i' j' : StronglySorted Z.le a -> StronglySorted Z.le b -> next_point a b i j = Some (v, i', j') ->
  exists da db, i' = (i + length da)%nat /\ j' = (j + length db)%nat /\ take i' a = take i a ++ da /\ take j' b = take j b ++ db /\ drop i a = da ++ drop i' a /\ drop j b = db ++ drop j' b /\
    Forall (eq v) (da ++ db) /\ v ∈ da ++ db /\ (forall y, y ∈ drop i a ++ drop j b -> v <= y).
Proof.
  intros Ha Hb. unfold next_point. destruct (a !! i) as [x|] eqn:Ea, (b !! j) as [y|] eqn:Eb; [| | |done].
  - pose proof (take_drop_at _ _ _ Ea) as [A1 A2]. pose proof (take_drop_at _ _ _ Eb) as [B1 B2]. pose proof (sorted_drop _ _ _ Ha Ea) as A3. pose proof (sorted_drop _ _ _ Hb Eb) as B3.
    destruct (Z.ltb_spec x y); [|destruct (Z.eqb_spec x y) as [->|]]; intros [= <- <- <-].
    + exists [x], []. cbn [length app]. rewrite Nat.add_0_r, app_nil_r. split_and!; try done; [by constructor|set_solver|]. intros z Hz. apply elem_of_app in Hz as [Hz|Hz]; [by apply A3|]. specialize (B3 z Hz). lia.
    + exists [y], [y]. cbn [length app]. split_and!; try done; [by repeat constructor|set_solver|]. intros z Hz. apply elem_of_app in Hz as [Hz|Hz]; [by apply A3|by apply B3].
    + exists [], [y]. cbn [length app]. rewrite Nat.add_0_r, app_nil_r. split_and!; try done; [by constructor|set_solver|]. intros z Hz. apply elem_of_app in Hz as [Hz|Hz]; [|by apply B3]. specialize (A3 z Hz). lia.
  - pose proof (take_drop_at _ _ _ Ea) as [A1 A2]. pose proof (sorted_drop _ _ _ Ha Ea) as A3. apply lookup_ge_None in Eb. intros [= <- <- <-]. exists [x], []. cbn [length app]. rewrite Nat.add_0_r, app_nil_r. split_and!; try done; [by constructor|set_solver|].
    intros z Hz. apply elem_of_app in Hz as [Hz|Hz]; [by apply A3|]. rewrite drop_ge in Hz by done. by apply elem_of_nil in Hz.
  - pose proof (take_drop_at _ _ _ Eb) as [B1 B2]. pose proof (sorted_drop _ _ _ Hb Eb) as B3. apply lookup_ge_None in Ea. intros [= <- <- <-]. exists [], [y]. cbn [length app]. rewrite Nat.add_0_r, app_nil_r. split_and!; try done; [by constructor|set_solver|].
    intros z Hz. apply elem_of_app in Hz as [Hz|Hz]; [|by apply B3]. rewrite drop_ge in Hz by done. by apply elem_of_nil in Hz.
Qed.

Lemma sorted_snoc l v : StronglySorted Z.le l -> (forall x, x ∈ l -> x <= v) -> StronglySorted Z.le (l ++ [v]).
Proof.
  induction l as [|x l IH]; intros Hs Hv; [by repeat constructor|]. apply StronglySorted_inv in Hs as [Hs Hx]. cbn. constructor; [apply IH; [done|intros; apply Hv; by apply elem_of_cons; right]|]. apply Forall_app. split; [done|]. constructor; [|done]. apply Hv. by apply elem_of_cons; left.
Qed.

Lemma merging_step op a b i j cr cr' v i' j' : StronglySorted Z.le a -> StronglySorted Z.le b -> next_point a b i j = Some (v, i', j') -> merging op a b i j cr -> fits cr' ->
  (if negb (eqb (is_in op (Nat.odd i') (Nat.odd j')) (Nat.odd (len cr))) then len cr' = (len cr + 1)%nat /\ used cr' = used cr ++ [v] else cr' = cr) -> merging op a b i' j' cr'.
Proof.
  intros Ha Hb Hn [M1 M2 [M3 M3'] M4 M5 M6 M8 M7] Hf Hcr. destruct (next_point_some a b i j v i' j' Ha Hb Hn) as (da & db & Ei & Ej & Ta & Tb & Da & Db & Hv & Hin & Hmin). rewrite Forall_forall in Hv.
  assert (Hv' : v ∈ drop i a ++ drop j b) by (rewrite Da, Db; set_solver).
  assert (Hlen : (len cr' <= len cr + 1)%nat /\ (i + j + 1 <= i' + j')%nat) by (split; [destruct (negb _); [lia|subst cr'; lia]|]; assert (length (da ++ db) <> 0)%nat by (destruct (da ++ db); [by apply elem_of_nil in Hin|done]); rewrite length_app in *; lia).
  assert (Hu : forall x, x ∈ used cr' -> x ∈ used cr \/ x = v) by (intros x; destruct (negb _); [destruct Hcr as [_ ->]; set_solver|subst cr'; auto]).
  assert (Hpre : forall x, x ∈ used cr' ++ take i' a ++ take j' b -> x <= v).
  { intros x. rewrite Ta, Tb, !elem_of_app. intros [Hx|[[Hx|Hx]|[Hx|Hx]]]; [apply Hu in Hx as [Hx| ->]; [|lia]; apply M5; [set_solver|done]|apply M5; [set_solver|done]|rewrite (Hv x) by set_solver; lia|apply M5; [set_solver|done]|rewrite (Hv x) by set_solver; lia]. }
  assert (Hpar : Nat.odd (len cr') = is_in op (Nat.odd i') (Nat.odd j')).
  { destruct (eqb _ _) eqn:E; cbn in Hcr; [subst cr'; by apply eqb_prop in E|]. destruct Hcr as [-> _]. apply eqb_false_iff in E. rewrite Nat.add_1_r, Nat.odd_succ, <- Nat.negb_odd. by destruct (Nat.odd (len cr)), (is_in op (Nat.odd i') (Nat.odd j')). }
  split; try done; [lia| | | | |].
  - assert (length (drop i a) = length (da ++ drop i' a) /\ length (drop j b) = length (db ++ drop j' b)) as [La Lb] by (by rewrite <- Da, <- Db). rewrite !length_app, !length_drop in *. lia.
  - destruct (negb _); [destruct Hcr as [_ ->]|by subst cr']. apply sorted_snoc; [done|]. intros x Hx. apply M5; [set_solver|done].
  - intros x y Hx Hy. specialize (Hpre x Hx). assert (v <= y); [|lia]. apply Hmin. rewrite Da, Db. set_solver.
  - intros x Hx. rewrite Ta, Tb. apply Hu in Hx as [Hx| ->]; [apply M8 in Hx|]; set_solver.
  - intros c. destruct (Z.leb_spec v c) as [Hc|Hc].
    + assert (Hall : forall l, (forall x, x ∈ l -> x ∈ used cr' ++ take i' a ++ take j' b) -> Forall (fun x => x <= c) l) by (intros l Hl; apply Forall_forall; intros x Hx; specialize (Hpre x (Hl x Hx)); lia).
      assert (Lb : length (drop j b) = length (db ++ drop j' b)) by (by rewrite <- Db). assert (La : length (drop i a) = length (da ++ drop i' a)) by (by rewrite <- Da). rewrite length_app, !length_drop in La, Lb.
      rewrite !covers_above by (apply Hall; set_solver). rewrite length_used by done. rewrite !length_take, !Nat.min_l by lia. done.
    + assert (Hz : forall l, (forall x, x ∈ l -> x = v) -> covers l c = false) by (intros l Hl; apply covers_below, Forall_forall; intros x Hx; rewrite (Hl x Hx); done).
      rewrite Ta, Tb, !covers_app, (Hz da), (Hz db), !xorb_false_r, <- M7 by (intros x Hx; symmetry; apply Hv; set_solver). destruct (negb _); [destruct Hcr as [_ ->]|by subst cr']. rewrite covers_app, (Hz [v]), xorb_false_r; [done|set_solver].
Qed.
Lemma op_loop_spec op a b : StronglySorted Z.le a -> StronglySorted Z.le b -> Z.of_nat (length a + length b) < 2 ^ 31 -> forall fuel i j cr t, merging op a b i j cr -> (length a + length b < fuel + (i + j))%nat ->
  exists ok cr' t', op_loop mem junk fuel op a b i j cr t = Some (ok, cr', t') /\ (t <= t')%nat /\ fits cr' /\ (if ok then merging op a b (length a) (length b) cr' else refused t t').
Proof.
  intros Ha Hb Hlen. induction fuel as [|fuel IH]; intros i j cr t M Hf; [destruct (mg_idx _ _ _ _ _ _ M); lia|]. cbn [op_loop]. destruct (next_point a b i j) as [[[v i'] j']|] eqn:En.
  - assert (Hadv : (i + j + 1 <= i' + j')%nat /\ (i' <= length a)%nat /\ (j' <= length b)%nat).
    { destruct (mg_idx _ _ _ _ _ _ M). destruct (next_point_some a b i j v i' j' Ha Hb En) as (da & db & Ei & Ej & _ & _ & Da & Db & _ & Hin & _). assert (length (da ++ db) <> 0)%nat by (destruct (da ++ db); [by apply elem_of_nil in Hin|done]).
      assert (length (drop i a) = length (da ++ drop i' a) /\ length (drop j b) = length (db ++ drop j' b)) as [La Lb] by (by rewrite <- Da, <- Db). rewrite !length_app, !length_drop in *. lia. }
    destruct (negb _) eqn:E.
    + destruct (cr_add_point_spec cr v t (mg_fits _ _ _ _ _ _ M)) as (ok & cr1 & t1 & -> & H1 & H2 & H3); [pose proof (mg_len _ _ _ _ _ _ M); destruct (mg_idx _ _ _ _ _ _ M); lia|]. cbn [mbind option_bind]. destruct ok; [|exists false, cr1, t1; split_and!; try done; apply H3].
      destruct (IH i' j' cr1 t1) as (ok & cr2 & t2 & -> & H4 & H5 & H6); [eapply merging_step; try done; by rewrite E|lia|]. exists ok, cr2, t2. split_and!; try done; [lia|]. destruct ok; [done|]. eapply refused_weaken; [| |exact H6]; lia.
    + apply IH; [|lia]. eapply merging_step; try done; [apply M|by rewrite E].
  - exists true, cr, t. split_and!; try done; [apply M|]. unfold next_point in En. destruct (a !! i) as [x|] eqn:Ea, (b !! j) as [y|] eqn:Eb; try done; [by destruct (x <? y); [|destruct (x =? y)]|]. apply lookup_ge_None in Ea, Eb. destruct (mg_idx _ _ _ _ _ _ M).
    replace (length a) with i by lia. by replace (length b) with j by lia.
Qed.

(** What a successful operation gives, and that only the allocator fails. *)
Definition gives (P : CharRange -> Prop) (t : nat) (r : option (bool * CharRange * nat)) : Prop :=
  exists ok cr t', r = Some (ok, cr, t') /\ (t <= t')%nat /\ fits cr /\ (if ok : bool then P cr else refused t t').

Lemma gives_impl (P Q : CharRange -> Prop) t r : (forall cr, P cr -> Q cr) -> gives P t r -> gives Q t r.
Proof. intros H (ok & cr & t' & -> & H1 & H2 & H3). exists ok, cr, t'. split_and!; try done. destruct ok; [by apply H|done]. Qed.

Lemma cr_op_spec cr a b op t : len cr = 0%nat -> StronglySorted Z.le a -> StronglySorted Z.le b -> Nat.even (length a) = true -> Nat.even (length b) = true -> Z.of_nat (length a + length b) < 2 ^ 31 ->
  gives (fun cr' => cr_ok cr' /\ (forall c, covers (used cr') c = is_in op (covers a c) (covers b c)) /\ (forall z, z ∈ used cr' -> z ∈ a ++ b) /\ (len cr' <= length a + length b)%nat) t (cr_op mem junk cr a b op t).
Proof.
  intros H0 Ha Hb Ea Eb Hlen. unfold cr_op. destruct (op_loop_spec op a b Ha Hb Hlen (length a + length b + 1) 0 0 cr t) as (ok & cr1 & t1 & -> & H1 & H2 & H3); [|lia|].
  { split; [unfold fits; lia|lia|lia|unfold used; rewrite H0; apply SSorted_nil| | | |]; [intros x y; unfold used; rewrite H0; cbn; intros Hx; by apply elem_of_nil in Hx|rewrite H0; by destruct op|intros x; unfold used; rewrite H0; cbn; done|intros c; unfold used; rewrite H0; by destruct op]. }
  cbn [mbind option_bind]. destruct ok; [|exists false, cr1, t1; by split_and!].
  pose proof (mg_parity _ _ _ _ _ _ H3) as Hpar. rewrite <- !Nat.negb_even, Ea, Eb in Hpar. destruct (cr_compress_spec cr1) as (cr2 & -> & C1 & C2 & C3 & C4); [done| |apply H3|]; [by destruct (Nat.even (len cr1)), op|].
  cbn [mbind option_bind]. exists true, cr2, t1. split; [done|]. split; [done|]. split; [apply C1|]. pose proof (mg_covers _ _ _ _ _ _ H3) as Hc. pose proof (mg_elem _ _ _ _ _ _ H3) as He. rewrite !firstn_all in Hc. rewrite !firstn_all in He.
  pose proof (mg_len _ _ _ _ _ _ H3). split_and!; [done|intros c; by rewrite C2, Hc|intros z Hz; by apply He, C3|lia].
Qed.

Lemma sorted_le l : StronglySorted Z.lt l -> StronglySorted Z.le l.
Proof. induction 1 as [|x l Hs IH Hx]; constructor; [done|]. eapply Forall_impl; [exact Hx|]. cbn. lia. Qed.

Lemma cr_op1_spec cr b op t : cr_ok cr -> StronglySorted Z.le b -> Nat.even (length b) = true -> Z.of_nat (len cr + length b) < 2 ^ 31 ->
  gives (fun cr' => cr_ok cr' /\ (forall c, covers (used cr') c = is_in op (covers (used cr) c) (covers b c)) /\ (forall z, z ∈ used cr' -> z ∈ used cr ++ b) /\ (len cr' <= len cr + length b)%nat) t (cr_op1 mem junk cr b op t).
Proof.
  intros [H1 H2 H3] Hb Eb Hlen. pose proof (length_used cr H1) as Hl. unfold cr_op1. eapply gives_impl; [|apply cr_op_spec; try done; [by apply sorted_le|congruence|lia]]. cbn beta. intros cr' (A1 & A2 & A3 & A4). split_and!; try done. lia.
Qed.

Lemma covers_interval c1 c2 c : c1 <= c2 -> covers [c1; c2] c = (c1 <=? c) && (c <? c2).
Proof. intros H. cbn. destruct (Z.leb_spec c1 c), (Z.leb_spec c2 c), (Z.ltb_spec c c2); try lia; done. Qed.

Lemma cr_union_interval_spec cr c1 c2 t : cr_ok cr -> 0 <= c1 -> c1 <= c2 -> c2 < UINT32_MAX -> Z.of_nat (len cr + 2) < 2 ^ 31 ->
  gives (fun cr' => cr_ok cr' /\ (forall c, covers (used cr') c = covers (used cr) c || ((c1 <=? c) && (c <=? c2))) /\ (forall z, z ∈ used cr' -> z ∈ used cr ++ [c1; c2 + 1])) t (cr_union_interval mem junk cr c1 c2 t).
Proof.
  intros Hok H0 Hc Hm Hlen. unfold cr_union_interval. unfold UINT32_MAX in Hm. assert (Eu : u32 (c2 + 1) = c2 + 1) by (unfold u32; rewrite Z.mod_small; lia). rewrite Eu.
  eapply gives_impl; [|apply cr_op1_spec; [done|repeat constructor; lia|done|done]]. intros cr' (A1 & A2 & A3 & _). split_and!; [done| |done]. intros c. rewrite A2, covers_interval by lia. cbn [is_in]. do 2 f_equal. destruct (Z.ltb_spec c (c2 + 1)), (Z.leb_spec c c2); (lia || done).
Qed.

Lemma store_all_spec l i v : (i + length v <= length l)%nat -> store_all l i v = Some (take i l ++ v ++ drop (i + length v) l).
Proof. intros H. unfold store_all. by destruct (Nat.leb_spec (i + length v) (length l)); [|lia]. Qed.

Lemma cr_copy_spec cr cr1 t : fits cr -> cr_ok cr1 -> gives (fun cr' => cr_ok cr' /\ used cr' = used cr1) t (cr_copy mem junk cr cr1 t).
Proof.
  intros Hf [H1 H2 H3]. unfold cr_copy. destruct (cr_realloc_spec cr (len cr1) t Hf) as (ok & cr2 & t2 & -> & B1 & B2 & B3 & B4 & B5). destruct ok; [|exists false, cr2, t2; split_and!; try done; unfold fits in *; lia]. pose proof (length_used cr1 H1) as Hl.
  rewrite store_all_spec by lia. change (take 0 (points cr2) ++ used cr1 ++ drop (0 + length (used cr1)) (points cr2)) with (used cr1 ++ drop (0 + length (used cr1)) (points cr2)). cbn [mbind option_bind]. assert (E : used {| len := len cr1; points := used cr1 ++ drop (0 + length (used cr1)) (points cr2) |} = used cr1) by (unfold used at 1; cbn [len points]; by rewrite take_app_le, take_ge by lia).
  eexists true, _, t2. split; [done|]. split; [done|]. split; [unfold fits; cbn [len points]; rewrite length_app; lia|]. split; [|exact E]. split; cbn [len points]; [rewrite length_app; lia|done|by rewrite E].
Qed.

Lemma cr_invert_spec cr t : fits cr -> Nat.even (len cr) = true -> StronglySorted Z.le (used cr) -> (forall z, z ∈ used cr -> 0 <= z <= UINT32_MAX) -> Z.of_nat (len cr + 2) < 2 ^ 31 ->
  gives (fun cr' => cr_ok cr' /\ (forall c, 0 <= c < UINT32_MAX -> covers (used cr') c = negb (covers (used cr) c)) /\ (forall z, z ∈ used cr' -> 0 <= z <= UINT32_MAX) /\ (len cr' <= len cr + 2)%nat) t (cr_invert mem junk cr t).
Proof.
  intros H1 H2 H3 Hr Hlen. unfold fits in H1. unfold cr_invert. rewrite int_sum_spec by done. cbn [mbind option_bind]. destruct (cr_realloc_spec cr (len cr + 2) t H1) as (ok & cr1 & t1 & -> & B1 & B2 & B3 & B4 & B5). destruct ok; [|exists false, cr1, t1; split_and!; try done; unfold fits; lia].
  pose proof (length_used cr H1) as Hl. rewrite store_all_spec by (rewrite B3; lia). cbn [mbind option_bind]. rewrite B3, B2. set (pts := take 1 (points cr1) ++ used cr ++ drop (1 + length (used cr)) (points cr1)).
  assert (Lp : length pts = length (points cr1)) by (unfold pts; rewrite !length_app, length_take, length_drop; lia). rewrite store_spec by lia. cbn [mbind option_bind]. rewrite store_spec by (rewrite length_insert; lia). cbn [mbind option_bind].
  set (cr2 := {| len := len cr + 2; points := <[(len cr + 1)%nat:=UINT32_MAX]> (<[0%nat:=0]> pts) |}).
  assert (E : used cr2 = 0 :: used cr ++ [UINT32_MAX]).
  { destruct (points cr1) as [|p ps] eqn:Ep; [cbn in B5; lia|]. unfold used at 1, cr2, pts. cbn [len points take app]. cbn [length] in B5. change (<[0%nat:=0]> (p :: take 0 ps ++ used cr ++ drop (1 + length (used cr)) (p :: ps))) with (0 :: (used cr ++ drop (length (used cr)) ps)).
    replace (len cr + 2)%nat with (len cr + 1 + 1)%nat by lia. rewrite take_snoc by (cbn [length]; rewrite length_app, length_drop; lia). rewrite Nat.add_1_r. cbn [take]. rewrite take_app_le, take_ge by lia. done. }
  assert (M0 : 0 <= UINT32_MAX) by (unfold UINT32_MAX; lia).
  destruct (cr_compress_spec cr2) as (cr3 & -> & C1 & C2 & C3 & C4).
  - unfold cr2. cbn [len points]. rewrite !length_insert. lia.
  - unfold cr2. cbn [len]. rewrite Nat.even_add, H2. done.
  - rewrite E. constructor; [apply sorted_snoc; [done|intros x Hx; by apply Hr]|]. apply Forall_forall. intros x Hx. apply elem_of_app in Hx as [Hx|Hx]; [by apply Hr|]. apply list_elem_of_singleton in Hx as ->. done.
  - cbn [mbind option_bind]. exists true, cr3, t1. split; [done|]. split; [done|]. split; [apply C1|]. split_and!; [done| | |exact C4].
    + intros c Hc. rewrite C2, E. cbn [covers]. rewrite covers_app. cbn [covers]. destruct (Z.leb_spec 0 c), (Z.leb_spec UINT32_MAX c); try lia. by destruct (covers (used cr) c).
    + intros z Hz. apply C3 in Hz. rewrite E in Hz. apply elem_of_cons in Hz as [->|Hz]; [lia|]. apply elem_of_app in Hz as [Hz|Hz]; [by apply Hr|]. apply list_elem_of_singleton in Hz as ->. lia.
Qed.
End ops.
