(* ===== verification/CharRangeSort.v ===== *)
(** * Sets of characters: intervals in any order

    [cr_sort_and_remove_overlap] turns intervals in any order, with overlaps,
    into the points of their union.  It relies on the contract of the sort
    only. *)
From S2P Require Import Prelude Sort SortProps SortHeap SortLoop CharRange CharRangeProps.

(** The union of intervals. *)
Definition in_some (ps : list (Z * Z)) (c : Z) : bool := existsb (fun p => (p.1 <=? c) && (c <? p.2)) ps.

Lemma existsb_perm {A} (f : A -> bool) l l' : l ≡ₚ l' -> existsb f l = existsb f l'.
Proof. induction 1 as [|x l l' _ IH|x y l|l1 l2 l3 _ IH1 _ IH2]; cbn; [done|by rewrite IH|by destruct (f x), (f y)|congruence]. Qed.

(** ** Joining intervals sorted by their start *)

Fixpoint join_from (s e : Z) (ps : list (Z * Z)) : list (Z * Z) :=
  match ps with
  | [] => [(s, e)]
  | (x, y) :: ps => if e <? x then (s, e) :: join_from x y ps else if y <=? e then join_from s e ps else join_from s y ps
  end.

Definition join_all (ps : list (Z * Z)) : list (Z * Z) :=
  match ps with
  | [] => []
  | (x, y) :: ps => join_from x y ps
  end.

Lemma merge_end_spec pt n : (n <= length pt)%nat -> forall fuel i e m, n = (i + 2 * m)%nat -> (m < fuel)%nat ->
  exists i' e' m', merge_end fuel pt n i e = Some (i', e') /\ n = (i' + 2 * m')%nat /\ (i <= i')%nat /\ forall s, join_from s e (pairs (drop i (take n pt))) = (s, e') :: join_all (pairs (drop i' (take n pt))).
Proof.
  intros Hn. induction fuel as [|fuel IH]; intros i e m Em Hf; [lia|]. cbn [merge_end]. destruct (Nat.ltb_spec i n) as [Hi|Hi]; [|exists i, e, m; split_and!; try done; intros s; by rewrite pairs_end by lia].
  destruct m as [|m]; [lia|]. destruct (lookup_lt_is_Some_2 pt i ltac:(lia)) as [x Hx], (lookup_lt_is_Some_2 pt (i + 1) ltac:(lia)) as [y Hy]. rewrite Hx. cbn [mbind option_bind]. rewrite Hy. cbn [mbind option_bind].
  pose proof (pairs_at pt n i x y ltac:(lia) Hx Hy) as Ep. destruct (e <? x) eqn:E1; [exists i, e, (S m); split_and!; try done; intros s; rewrite Ep; cbn [join_from join_all]; by rewrite E1|].
  destruct (y <=? e) eqn:E2.
  - destruct (IH (i + 2)%nat e m) as (i' & e' & m' & -> & H1 & H2 & H3); [lia|lia|]. exists i', e', m'. split_and!; try done; [lia|]. intros s. rewrite Ep. cbn [join_from]. by rewrite E1, E2, H3.
  - destruct (IH (i + 2)%nat y m) as (i' & e' & m' & -> & H1 & H2 & H3); [lia|lia|]. exists i', e', m'. split_and!; try done; [lia|]. intros s. rewrite Ep. cbn [join_from]. by rewrite E1, E2, H3.
Qed.

Lemma overlap_loop_spec n : forall fuel pt i j m, (n <= length pt)%nat -> n = (i + 2 * m)%nat -> (j <= i)%nat -> (m < fuel)%nat ->
  exists pt' j', overlap_loop fuel pt n i j = Some (pt', j') /\ length pt' = length pt /\ (j' <= n)%nat /\ take j' pt' = take j pt ++ unpairs (join_all (pairs (drop i (take n pt)))).
Proof.
  induction fuel as [|fuel IH]; intros pt i j m Hn Em Hj Hf; [lia|]. cbn [overlap_loop]. destruct (Nat.ltb_spec i n) as [Hi|Hi].
  2: { exists pt, j. split_and!; try done; [lia|]. rewrite pairs_end by lia. cbn. by rewrite app_nil_r. }
  destruct m as [|m]; [lia|]. destruct (lookup_lt_is_Some_2 pt i ltac:(lia)) as [x Hx], (lookup_lt_is_Some_2 pt (i + 1) ltac:(lia)) as [y Hy]. rewrite Hx. cbn [mbind option_bind]. rewrite Hy. cbn [mbind option_bind]. rewrite (pairs_at pt n i x y) by (done || lia). cbn [join_all].
  destruct (merge_end_spec pt n Hn (n + 1) (i + 2) y m) as (i' & e & m' & -> & H1 & H2 & H3); [lia|lia|]. cbn [mbind option_bind]. rewrite store_spec by lia. cbn [mbind option_bind]. rewrite store_spec by (rewrite length_insert; lia). cbn [mbind option_bind].
  set (pt1 := <[(j + 1)%nat:=e]> (<[j:=x]> pt)). destruct (IH pt1 i' (j + 2)%nat m') as (pt' & j' & -> & L1 & L2 & L3); [unfold pt1; rewrite !length_insert; lia|done|lia|lia|].
  exists pt', j'. split_and!; [done|rewrite L1; unfold pt1; by rewrite !length_insert|done|]. rewrite L3, H3. unfold pt1 at 1. rewrite take_two by lia. rewrite <- app_assoc. rewrite unpairs_cons. cbn [app fst snd]. do 3 f_equal. f_equal. f_equal. f_equal.
  apply drop_take_same. intros q Hq. unfold pt1. by rewrite !list_lookup_insert_ne by lia.
Qed.

(** Intervals that are not empty, each starting no earlier than [s]. *)
Definition starts_from (s : Z) (ps : list (Z * Z)) : Prop := Forall (fun p => s <= p.1 < p.2) ps.

Lemma join_from_elem ps : forall s e z, z ∈ unpairs (join_from s e ps) -> z ∈ s :: e :: unpairs ps.
Proof.
  induction ps as [|[x y] ps IH]; intros s e z; cbn [join_from]; [done|]. rewrite unpairs_cons. cbn [fst snd]. destruct (e <? x); [rewrite unpairs_cons; cbn [fst snd]; rewrite !elem_of_cons; intros [->|[->|Hz]]; [auto|auto|]; apply IH in Hz; set_solver|].
  destruct (y <=? e); intros Hz; apply IH in Hz; set_solver.
Qed.

Lemma join_from_spec ps : forall s e, s < e -> starts_from s ps -> StronglySorted (fun p q => p.1 <= q.1) ps ->
  StronglySorted Z.lt (unpairs (join_from s e ps)) /\ (forall z, z ∈ unpairs (join_from s e ps) -> s <= z) /\ (forall c, covers (unpairs (join_from s e ps)) c = in_some ((s, e) :: ps) c).
Proof.
  induction ps as [|[x y] ps IH]; intros s e Hse Hst Hs; cbn [join_from].
  - split_and!; [repeat constructor; done|intros z Hz; cbn in Hz; set_solver by lia|]. intros c. cbn. rewrite orb_false_r. destruct (Z.leb_spec s c), (Z.leb_spec e c), (Z.ltb_spec c e); (lia || done).
  - apply Forall_cons in Hst as [Hx Hst]. cbn [fst snd] in Hx. apply StronglySorted_inv in Hs as [Hs Hxs]. cbn [fst] in Hxs.
    destruct (Z.ltb_spec e x) as [H1|H1]; [|destruct (Z.leb_spec y e) as [H2|H2]].
    + destruct (IH x y) as (A1 & A2 & A3); [lia| |done|]; [apply Forall_forall; intros p Hp; rewrite Forall_forall in Hxs; rewrite Forall_forall in Hst; specialize (Hxs p Hp); specialize (Hst p Hp); cbn in Hxs; lia|].
      rewrite unpairs_cons. cbn [fst snd]. split_and!.
      * constructor; [constructor; [done|]|]; [|constructor; [lia|]]; apply Forall_forall; intros z Hz; specialize (A2 z Hz); lia.
      * intros z. rewrite !elem_of_cons. intros [->|[->|Hz]]; [lia|lia|]. specialize (A2 z Hz). lia.
      * intros c. cbn [covers in_some existsb fst snd]. change (existsb _ ps) with (in_some ps c). rewrite A3. cbn [in_some existsb fst snd]. change (existsb _ ps) with (in_some ps c).
        destruct (Z.leb_spec e c); [destruct (Z.leb_spec s c), (Z.ltb_spec c e); try lia; cbn; by destruct ((x <=? c) && (c <? y) || in_some ps c)|].
        assert (Hz : in_some ((x, y) :: ps) c = false). { rewrite <- A3. apply covers_below, Forall_forall. intros z Hz. specialize (A2 z Hz). lia. }
        cbn [in_some existsb fst snd] in Hz. change (existsb _ ps) with (in_some ps c) in Hz. rewrite Hz. destruct (Z.leb_spec s c), (Z.ltb_spec c e); (lia || done).
    + destruct (IH s e) as (A1 & A2 & A3); try done. split_and!; try done. intros c. rewrite A3. cbn [in_some existsb fst snd]. change (existsb _ ps) with (in_some ps c).
      destruct (Z.leb_spec s c), (Z.ltb_spec c e), (Z.leb_spec x c), (Z.ltb_spec c y); try lia; done.
    + destruct (IH s y) as (A1 & A2 & A3); [lia|done|done|]. split_and!; try done. intros c. rewrite A3. cbn [in_some existsb fst snd]. change (existsb _ ps) with (in_some ps c).
      destruct (Z.leb_spec s c), (Z.ltb_spec c e), (Z.leb_spec x c), (Z.ltb_spec c y); try lia; done.
Qed.

(** ** The sort *)

Definition point_order (p q : Z * Z) : Z := (if q.1 <? p.1 then 1 else 0) - (if p.1 <? q.1 then 1 else 0).

Lemma point_cmp_faithful : faithful point_cmp point_order.
Proof.
  split; [done|]. split.
  - intros p q. unfold point_order. destruct (Z.ltb_spec q.1 p.1), (Z.ltb_spec p.1 q.1); (lia || done).
  - intros p q r. unfold point_order. destruct (Z.ltb_spec q.1 p.1), (Z.ltb_spec p.1 q.1), (Z.ltb_spec r.1 q.1), (Z.ltb_spec q.1 r.1), (Z.ltb_spec p.1 r.1), (Z.ltb_spec r.1 p.1); lia.
Qed.

Lemma cr_sort_spec cr : fits cr -> Nat.even (len cr) = true ->
  exists ps pt, cr_sort cr = Some pt /\ ps ≡ₚ pairs (used cr) /\ StronglySorted (fun p q => p.1 <= q.1) ps /\ length pt = length (points cr) /\ take (len cr) pt = unpairs ps.
Proof.
  intros Hf He. unfold cr_sort. assert (E : (2 * (len cr / 2) = len cr)%nat) by (apply Nat.even_spec in He as [k ->]; rewrite (Nat.mul_comm 2 k), Nat.div_mul; lia). rewrite E.
  destruct (rqsort_spec point_cmp point_order (pairs (used cr)) tt) as (ps & s' & H1 & H2 & H3). unfold used in H1. rewrite H1. cbn [mbind option_bind].
  assert (Hl : length (unpairs ps) = len cr). { assert (Hp : length (unpairs (pairs (used cr))) = len cr) by (rewrite unpairs_pairs by (by rewrite length_used); by rewrite length_used). rewrite length_unpairs in Hp |- *. by rewrite H2. }
  eexists ps, _. split; [done|]. split_and!; [done| |rewrite length_app, length_drop; unfold fits in Hf; lia|rewrite take_app_le by lia; by rewrite take_ge by lia].
  pose proof (hle_sorted _ _ (H3 point_cmp_faithful)) as Hs. clear -Hs. induction Hs as [|p l Hs IH Hp]; constructor; [done|]. eapply Forall_impl; [exact Hp|]. intros q Hq. cbn in Hq. unfold point_order in Hq. destruct (Z.ltb_spec q.1 p.1), (Z.ltb_spec p.1 q.1); lia.
Qed.

(** The union of the intervals, in any order, that are not empty. *)
Lemma cr_sort_and_remove_overlap_spec cr : fits cr -> Nat.even (len cr) = true -> Forall (fun p => p.1 < p.2) (pairs (used cr)) ->
  exists cr', cr_sort_and_remove_overlap cr = Some cr' /\ cr_ok cr' /\ (len cr' <= len cr)%nat /\ (forall c, covers (used cr') c = in_some (pairs (used cr)) c) /\ (forall z, z ∈ used cr' -> z ∈ used cr).
Proof.
  intros Hf He Hne. unfold cr_sort_and_remove_overlap. destruct (cr_sort_spec cr Hf He) as (ps & pt & -> & S1 & S2 & S3 & S4). cbn [mbind option_bind]. apply Nat.even_spec in He as Hm. destruct Hm as [m Hm].
  unfold fits in Hf. destruct (overlap_loop_spec (len cr) (len cr + 1) pt 0 0 m) as (pt' & j & -> & L1 & L2 & L3); [lia|lia|lia|lia|]. cbn [mbind option_bind]. rewrite S4, drop_0, pairs_unpairs in L3. cbn [take app] in L3.
  set (cr' := {| len := j; points := pt' |}). assert (E : used cr' = unpairs (join_all ps)) by exact L3. exists cr'. split; [done|].
  assert (Hps : Forall (fun p => p.1 < p.2) ps) by (rewrite S1; done). assert (Hj : length (used cr') = j) by (apply length_used; cbn; lia).
  assert (Hspec : StronglySorted Z.lt (used cr') /\ (forall c, covers (used cr') c = in_some ps c) /\ (forall z, z ∈ used cr' -> z ∈ unpairs ps)).
  { rewrite E. destruct ps as [|[x y] ps]; [split_and!; [apply SSorted_nil|done|done]|]. cbn [join_all]. apply Forall_cons in Hps as [Hxy Hps]. apply StronglySorted_inv in S2 as [S2 Hx]. destruct (join_from_spec ps x y) as (A1 & A2 & A3); [done| |done|].
    - apply Forall_forall. intros p Hp. rewrite Forall_forall in Hx. rewrite Forall_forall in Hps. specialize (Hx p Hp). specialize (Hps p Hp). cbn in Hx. lia.
    - split_and!; [done|done|]. intros z Hz. apply join_from_elem in Hz. done. }
  destruct Hspec as (P1 & P2 & P3). split; [|split_and!; [done| |]].
  - split; [cbn; lia| |done]. change (len cr') with j. rewrite <- Hj, E, length_unpairs. by rewrite Nat.even_mul.
  - intros c. rewrite P2. by apply existsb_perm.
  - intros z Hz. apply P3 in Hz. rewrite <- (unpairs_pairs (used cr)) by (by rewrite length_used). unfold unpairs in *. rewrite list_elem_of_bind in Hz |- *. destruct Hz as (p & H1 & H2). exists p. split; [done|]. by rewrite <- S1.
Qed.
