(* ===== verification/CaseConv.v ===== *)
(** * Case conversion of characters and of sets (src/libunicode.c)

    Conversion of a character through the tables, canonicalisation for the
    matching of regular expressions without case, and the canonicalisation of
    a set of characters.  An access outside a table, or a failing [assert], is
    [None]. *)
From S2P Require Import Prelude Sort CharRange CaseTables.

Inductive run_type :=
  | RUN_TYPE_U | RUN_TYPE_L | RUN_TYPE_UF | RUN_TYPE_LF | RUN_TYPE_UL | RUN_TYPE_LSU | RUN_TYPE_U2L_399_EXT2
  | RUN_TYPE_UF_D20 | RUN_TYPE_UF_D1_EXT | RUN_TYPE_U_EXT | RUN_TYPE_LF_EXT | RUN_TYPE_UF_EXT2 | RUN_TYPE_LF_EXT2 | RUN_TYPE_UF_EXT3.

#[export] Instance run_type_eq_dec : EqDecision run_type.
Proof. solve_decision. Defined.

(** Numbers above the last constant fall in the default case. *)
Definition run_type_of (n : Z) : run_type :=
  default RUN_TYPE_UF_EXT3 ([RUN_TYPE_U; RUN_TYPE_L; RUN_TYPE_UF; RUN_TYPE_LF; RUN_TYPE_UL; RUN_TYPE_LSU; RUN_TYPE_U2L_399_EXT2;
    RUN_TYPE_UF_D20; RUN_TYPE_UF_D1_EXT; RUN_TYPE_U_EXT; RUN_TYPE_LF_EXT; RUN_TYPE_UF_EXT2; RUN_TYPE_LF_EXT2; RUN_TYPE_UF_EXT3] !! Z.to_nat n).

(** The fields of an entry. *)
Definition run_code (v : Z) : Z := Z.shiftr v (32 - 17).
Definition run_len (v : Z) : Z := Z.land (Z.shiftr v (32 - 17 - 7)) 0x7f.
Definition run_ty (v : Z) : Z := Z.land (Z.shiftr v (32 - 17 - 7 - 4)) 0xf.

Definition at_index (l : list Z) (i : Z) : option Z := if i <? 0 then None else l !! Z.to_nat i.

(** ** Conversion of a character *)

(** To upper case, to lower case, case folding. *)
Notation to_upper := 0.
Notation to_lower := 1.
Notation folding := 2.

Section entry.
Context (lre_case_conv1 : Z -> Z -> option Z).

(** The characters that [c], in the run of the entry [idx] with value [v],
    is converted to. *)
Definition lre_case_conv_entry (c conv_type idx v : Z) : option (list Z) :=
  let is_lower := if conv_type =? 0 then 0 else 1 in
  let type := run_ty v in
  low ← at_index case_conv_table2 idx;
  let data := Z.lor (Z.shiftl (Z.land v 0xf) 8) low in
  let code := run_code v in
  match run_type_of type with
  | RUN_TYPE_U | RUN_TYPE_L | RUN_TYPE_UF | RUN_TYPE_LF =>
      if (conv_type =? Z.land type 1) || ((2 <=? type) && (conv_type =? 2)) then
        w ← at_index case_conv_table1 data; Some [u32 (c - code + run_code w)]
      else Some [c]
  | RUN_TYPE_UL =>
      let a := u32 (c - code) in
      if negb (Z.land a 1 =? 1 - is_lower) then Some [c] else Some [u32 (Z.lxor a 1 + code)]
  | RUN_TYPE_LSU =>
      let a := u32 (c - code) in
      if a =? 1 then Some [u32 (c + (2 * is_lower - 1))]
      else if a =? (1 - is_lower) * 2 then Some [u32 (c + (2 * is_lower - 1) * 2)]
      else Some [c]
  | RUN_TYPE_U2L_399_EXT2 =>
      if is_lower =? 0 then e ← at_index case_conv_ext (Z.shiftr data 6); Some [u32 (c - code + e); 0x399]
      else e ← at_index case_conv_ext (Z.land data 0x3f); Some [u32 (c - code + e)]
  | RUN_TYPE_UF_D20 => if conv_type =? 1 then Some [c] else Some [u32 (data + (if conv_type =? 2 then 0x20 else 0))]
  | RUN_TYPE_UF_D1_EXT =>
      if conv_type =? 1 then Some [c] else e ← at_index case_conv_ext data; Some [u32 (e + (if conv_type =? 2 then 1 else 0))]
  | RUN_TYPE_U_EXT | RUN_TYPE_LF_EXT =>
      if negb (is_lower =? type - 9) then Some [c] else e ← at_index case_conv_ext data; Some [e]
  | RUN_TYPE_LF_EXT2 =>
      if is_lower =? 0 then Some [c]
      else e ← at_index case_conv_ext (Z.shiftr data 6); f ← at_index case_conv_ext (Z.land data 0x3f); Some [u32 (c - code + e); f]
  | RUN_TYPE_UF_EXT2 =>
      if conv_type =? 1 then Some [c]
      else
        e ← at_index case_conv_ext (Z.shiftr data 6); f ← at_index case_conv_ext (Z.land data 0x3f);
        let res := [u32 (c - code + e); f] in
        if conv_type =? 2 then mapM (fun r => lre_case_conv1 r 1) res else Some res
  | RUN_TYPE_UF_EXT3 =>
      if conv_type =? 1 then Some [c]
      else
        e ← at_index case_conv_ext (Z.shiftr data 8); f ← at_index case_conv_ext (Z.land (Z.shiftr data 4) 0xf); g ← at_index case_conv_ext (Z.land data 0xf);
        if conv_type =? 2 then mapM (fun r => lre_case_conv1 r 1) [e; f; g] else Some [e; f; g]
  end.
End entry.

(** The binary search for the run of [c]: its index and value, or nothing. *)
Fixpoint find_run (fuel : nat) (c idx_min idx_max : Z) : option (option (Z * Z)) :=
  match fuel with
  | O => None
  | S fuel =>
      if idx_min <=? idx_max then
        let idx := (idx_max + idx_min) / 2 in
        v ← at_index case_conv_table1 idx;
        if c <? run_code v then find_run fuel c idx_min (idx - 1)
        else if run_code v + run_len v <=? c then find_run fuel c (idx + 1) idx_max
        else Some (Some (idx, v))
      else Some None
  end.

Definition countof_table1 : Z := Z.of_nat (length case_conv_table1).

(** There are fewer than 400 entries. *)
Definition search (c : Z) : option (option (Z * Z)) := find_run 400 c 0 (countof_table1 - 1).

Definition ascii_upper (c : Z) : Z := if (chr "a" <=? c) && (c <=? chr "z") then c - chr "a" + chr "A" else c.
Definition ascii_lower (c : Z) : Z := if (chr "A" <=? c) && (c <=? chr "Z") then c - chr "A" + chr "a" else c.

(** The conversion calls itself for the lower case of its results, which
    needs no further call. *)
Fixpoint lre_case_conv (depth : nat) (c conv_type : Z) : option (list Z) :=
  match depth with
  | O => None
  | S depth =>
      if c <? 128 then Some [if conv_type =? 0 then ascii_upper c else ascii_lower c]
      else
        r ← search c;
        match r with
        | Some (idx, v) => lre_case_conv_entry (fun c t => l ← lre_case_conv depth c t; head l) c conv_type idx v
        | None => Some [c]
        end
  end.

Definition lre_case_conv1 (c conv_type : Z) : option Z := l ← lre_case_conv 1 c conv_type; head l.

(** ** Canonicalisation *)

Definition lre_case_folding_entry (c idx v : Z) (is_unicode : bool) : option Z :=
  if is_unicode then
    res ← lre_case_conv_entry lre_case_conv1 c folding idx v;
    match res with
    | [r] => Some r
    | _ => Some (if c =? 0xfb06 then 0xfb05 else if c =? 0x01fd3 then 0x390 else if c =? 0x01fe3 then 0x3b0 else c)
    end
  else if c <? 128 then Some (ascii_upper c)
  else
    res ← lre_case_conv_entry lre_case_conv1 c to_upper idx v;
    match res with
    | [r] => Some (if 128 <=? r then r else c)
    | _ => Some c
    end.

Definition lre_canonicalize (c : Z) (is_unicode : bool) : option Z :=
  if c <? 128 then Some (if is_unicode then ascii_lower c else ascii_upper c)
  else
    r ← search c;
    match r with
    | Some (idx, v) => lre_case_folding_entry c idx v is_unicode
    | None => Some c
    end.

(** ** Canonicalisation of a set *)

Notation CASE_U := 1.
Notation CASE_L := 2.
Notation CASE_F := 4.

(** The masks of run types for upper case, lower case and folding. *)
Definition MR (l : list Z) : Z := foldr (fun x m => Z.lor (Z.shiftl 1 x) m) 0 l.
Definition tab_run_mask : list Z := [MR [0; 2; 4; 5; 6; 7; 8; 9; 11; 13]; MR [1; 3; 4; 5; 6; 10; 12]; MR [2; 3; 4; 5; 6; 10; 12; 7; 8; 10; 11; 13]].

Definition case_run_mask (case_mask : Z) : Z :=
  foldl (fun mask i => if Z.testbit case_mask (Z.of_nat i) then Z.lor mask (nth i tab_run_mask 0) else mask) 0 [0%nat; 1%nat; 2%nat].

Section canonicalize.
Context (mem : nat -> bool) (junk : Z).

Notation result := (bool * CharRange * nat)%type.

(** [for(i = 0; i < len; i += 2)]: every second character. *)
Fixpoint add_alternate (k : nat) (cr : CharRange) (code : Z) (t : nat) : option result :=
  match k with
  | O => Some (true, cr, t)
  | S k =>
      '(ok, cr, t) ← cr_add_interval mem junk cr code (code + 1) t;
      if ok : bool then add_alternate k cr (code + 2) t else Some (false, cr, t)
  end.

Definition add_if (b : bool) (cr : CharRange) (c1 c2 : Z) (t : nat) : option result :=
  if b then cr_add_interval mem junk cr c1 c2 t else Some (true, cr, t).

(** One entry of the table. *)
Definition case1_entry (cr : CharRange) (case_mask v : Z) (t : nat) : option result :=
  let code := run_code v in
  let len := run_len v in
  let upper := negb (Z.land case_mask CASE_U =? 0) in
  let both := upper && negb (Z.land case_mask (Z.lor CASE_L CASE_F) =? 0) in
  if Z.testbit (case_run_mask case_mask) (run_ty v) then
    match run_type_of (run_ty v), both with
    | RUN_TYPE_UL, false => add_alternate (Z.to_nat ((len + 1) / 2)) cr (code + (if upper then 1 else 0)) t
    | RUN_TYPE_LSU, false =>
        '(ok, cr, t) ← add_if (negb upper) cr code (code + 1) t;
        if ok : bool then
          '(ok, cr, t) ← cr_add_interval mem junk cr (code + 1) (code + 2) t;
          if ok : bool then add_if upper cr (code + 2) (code + 3) t else Some (false, cr, t)
        else Some (false, cr, t)
    | _, _ => cr_add_interval mem junk cr code (code + len) t
    end
  else Some (true, cr, t).

Fixpoint case1_loop (tab : list Z) (cr : CharRange) (case_mask : Z) (t : nat) : option result :=
  match tab with
  | [] => Some (true, cr, t)
  | v :: tab =>
      '(ok, cr, t) ← case1_entry cr case_mask v t;
      if ok : bool then case1_loop tab cr case_mask t else Some (false, cr, t)
  end.

Definition unicode_case1 (cr : CharRange) (case_mask : Z) (t : nat) : option result :=
  if case_mask =? 0 then Some (true, cr, t) else case1_loop case_conv_table1 cr case_mask t.

(** The locals of the loop over the characters: the interval being built
    ([d_start] is [UINT32_MAX] at first), the index in the table, and the
    intervals found. *)
Record folding_state := { d_start : Z; d_end : Z; idx : Z; cr_result : CharRange; clock : nat }.

(** [for(;;)]: the table is searched forward for the run of [c]. *)
Fixpoint advance (fuel : nat) (c idx : Z) : option (Z * Z) :=
  match fuel with
  | O => None
  | S fuel =>
      v ← at_index case_conv_table1 idx;
      if (run_code v <=? c) && (c <? run_code v + run_len v) then Some (idx, v) else advance fuel c (idx + 1)
  end.

(** One character; the result of [cr_add_interval] is not looked at. *)
Definition fold_char (is_unicode : bool) (c : Z) (s : folding_state) : option folding_state :=
  '(i, v) ← advance 400 c (idx s);
  d ← lre_case_folding_entry c i v is_unicode;
  if d_start s =? UINT32_MAX then Some {| d_start := d; d_end := u32 (d + 1); idx := i; cr_result := cr_result s; clock := clock s |}
  else if d_end s =? d then Some {| d_start := d_start s; d_end := u32 (d_end s + 1); idx := i; cr_result := cr_result s; clock := clock s |}
  else
    '(_, cr, t) ← cr_add_interval mem junk (cr_result s) (d_start s) (d_end s) (clock s);
    Some {| d_start := d; d_end := u32 (d + 1); idx := i; cr_result := cr; clock := t |}.

Fixpoint fold_chars (is_unicode : bool) (k : nat) (c : Z) (s : folding_state) : option folding_state :=
  match k with
  | O => Some s
  | S k => s ← fold_char is_unicode c s; fold_chars is_unicode k (c + 1) s
  end.

Fixpoint fold_intervals (is_unicode : bool) (l : list (Z * Z)) (s : folding_state) : option folding_state :=
  match l with
  | [] => Some s
  | (start, end_) :: l => s ← fold_chars is_unicode (Z.to_nat (end_ - start)) start s; fold_intervals is_unicode l s
  end.

(** A step of the function: what follows is done when it succeeds; when it
    fails, -1 is returned and the range is as it was. *)
Definition or_fail (cr : CharRange) (r : option result) (k : CharRange -> nat -> option result) : option result :=
  '(ok, x, t) ← r;
  if ok : bool then k x t else Some (false, cr, t).

Definition cr_regexp_canonicalize (cr : CharRange) (is_unicode : bool) (t : nat) : option result :=
  or_fail cr (unicode_case1 cr_init (if is_unicode then CASE_F else CASE_U) t) (fun cr_mask t =>
  or_fail cr (cr_op mem junk cr_init (used cr_mask) (used cr) CR_OP_INTER t) (fun cr_inter t =>
  or_fail cr (cr_invert mem junk cr_mask t) (fun cr_mask t =>
  or_fail cr (cr_op mem junk cr_init (used cr_mask) (used cr) CR_OP_INTER t) (fun cr_sub t =>
  s ← fold_intervals is_unicode (pairs (used cr_inter)) {| d_start := UINT32_MAX; d_end := UINT32_MAX; idx := 0; cr_result := cr_init; clock := t |};
  or_fail cr (if d_start s =? UINT32_MAX then Some (true, cr_result s, clock s) else cr_add_interval mem junk (cr_result s) (d_start s) (d_end s) (clock s)) (fun cr_result t =>
  cr_result ← cr_sort_and_remove_overlap cr_result;
  cr_op mem junk {| len := 0; points := points cr |} (used cr_result) (used cr_sub) CR_OP_UNION t))))).
End canonicalize.
