(* ===== verification/CaseConvProps.v ===== *)
(** * Case conversion: runs, masks and the search for them

    Facts of the tables are established by evaluation; the searches are shown
    to find the run of a character. *)
From S2P Require Import Prelude Sort SortProps SortHeap SortLoop CharRange CharRangeProps CharRangeSort CaseTables CaseConv.

(** ** The runs *)

Definition in_run (c v : Z) : Prop := run_code v <= c < run_code v + run_len v.

Lemma run_len_nonneg v : 0 <= run_len v.
Proof. unfold run_len. apply Z.land_nonneg. right. lia. Qed.

Definition all_chars : list (Z * Z * Z) :=
  imap (fun i v => (Z.of_nat i, v)) case_conv_table1 ≫= fun iv => (fun c => (iv.1, iv.2, c)) <$> seqZ (run_code iv.2) (run_len iv.2).

Lemma at_index_some l i v : at_index l i = Some v -> 0 <= i /\ l !! Z.to_nat i = Some v.
Proof. unfold at_index. destruct (Z.ltb_spec i 0); [done|]. intros; split; [lia|done]. Qed.

Lemma at_index_lt l i : 0 <= i < Z.of_nat (length l) -> exists v, at_index l i = Some v.
Proof. intros H. unfold at_index. destruct (Z.ltb_spec i 0); [lia|]. apply lookup_lt_is_Some_2. lia. Qed.

Lemma all_chars_elem i v c : at_index case_conv_table1 i = Some v -> in_run c v -> (i, v, c) ∈ all_chars.
Proof.
  intros Hi Hc. apply at_index_some in Hi as [H0 Hi]. unfold all_chars. apply list_elem_of_bind. exists (i, v). split.
  - apply list_elem_of_fmap. exists c. split; [done|]. cbn [snd]. apply elem_of_seqZ. unfold in_run in Hc. lia.
  - apply list_elem_of_lookup. exists (Z.to_nat i). rewrite list_lookup_imap, Hi. cbn. by rewrite Z2Nat.id.
Qed.

(** A decidable property of all characters in runs, by evaluation. *)
Lemma all_chars_forallb (f : Z * Z * Z -> bool) : forallb f all_chars = true -> forall i v c, at_index case_conv_table1 i = Some v -> in_run c v -> f (i, v, c) = true.
Proof. intros H i v c Hi Hc. rewrite forallb_forall in H. apply H, list_elem_of_In. by apply all_chars_elem. Qed.

(** ** The binary search *)

Lemma find_run_total c : forall fuel lo hi, 0 <= lo <= hi + 1 -> hi < countof_table1 -> hi - lo + 1 < Z.of_nat fuel ->
  exists r, find_run fuel c lo hi = Some r /\ (forall i v, r = Some (i, v) -> at_index case_conv_table1 i = Some v /\ in_run c v).
Proof.
  induction fuel as [|fuel IH]; intros lo hi Hlo Hhi Hf; [lia|]. cbn [find_run]. destruct (Z.leb_spec lo hi) as [Hle|Hle]; [|by exists None].
  assert (Hm : lo <= (hi + lo) / 2 <= hi) by div_lia. destruct (at_index_lt case_conv_table1 ((hi + lo) / 2)) as [v Hv]; [unfold countof_table1 in Hhi; lia|]. rewrite Hv. cbn [mbind option_bind].
  destruct (Z.ltb_spec c (run_code v)); [apply IH; lia|]. destruct (Z.leb_spec (run_code v + run_len v) c); [apply IH; lia|]. eexists. split; [done|]. intros i w [= <- <-]. split; [done|]. by split.
Qed.

Lemma search_total c : exists r, search c = Some r /\ (forall i v, r = Some (i, v) -> at_index case_conv_table1 i = Some v /\ in_run c v).
Proof. apply find_run_total; [vm_compute; done|unfold countof_table1; lia|]. vm_compute. done. Qed.

Lemma search_found i v c : at_index case_conv_table1 i = Some v -> in_run c v -> search c = Some (Some (i, v)).
Proof.
  intros Hi Hc. assert (H : forallb (fun x => bool_decide (search x.2 = Some (Some (x.1.1, x.1.2)))) all_chars = true) by (vm_compute; reflexivity).
  pose proof (all_chars_forallb _ H i v c Hi Hc) as E. by apply bool_decide_eq_true in E.
Qed.

(** A character is in at most one run. *)
Lemma run_unique i v j w c : at_index case_conv_table1 i = Some v -> in_run c v -> at_index case_conv_table1 j = Some w -> in_run c w -> i = j /\ v = w.
Proof. intros H1 H2 H3 H4. pose proof (search_found _ _ _ H1 H2) as E1. pose proof (search_found _ _ _ H3 H4) as E2. rewrite E1 in E2. by injection E2 as <- <-. Qed.

Lemma runs_increasing i v j w : at_index case_conv_table1 i = Some v -> at_index case_conv_table1 j = Some w -> i < j -> run_code v + run_len v <= run_code w.
Proof.
  intros Hi Hj Hij. apply at_index_some in Hi as [Hi0 Hi], Hj as [Hj0 Hj].
  assert (Hs : Sorted (fun v w => run_code v + run_len v <= run_code w) case_conv_table1) by (apply (bool_decide_unpack _); vm_compute; exact I).
  apply Sorted_StronglySorted in Hs; [|intros x y z H1 H2; pose proof (run_len_nonneg y); lia].
  revert i j Hi0 Hj0 Hi Hj Hij. induction Hs as [|x l Hs IH Hx]; intros i j Hi0 Hj0 Hi Hj Hij; [by rewrite lookup_nil in Hi|].
  destruct (decide (i = 0)) as [->|].
  - cbn in Hi. injection Hi as ->. rewrite Forall_forall in Hx. apply Hx. apply list_elem_of_lookup. exists (Z.to_nat (j - 1)). rewrite <- Hj. replace (Z.to_nat j) with (S (Z.to_nat (j - 1))) by lia. done.
  - apply (IH (i - 1) (j - 1)); [lia|lia| | |lia]; [rewrite <- Hi; replace (Z.to_nat i) with (S (Z.to_nat (i - 1))) by lia|rewrite <- Hj; replace (Z.to_nat j) with (S (Z.to_nat (j - 1))) by lia]; done.
Qed.

(** The forward search. *)
Lemma advance_spec c i v : at_index case_conv_table1 i = Some v -> in_run c v -> forall fuel k, 0 <= k <= i -> i - k < Z.of_nat fuel -> advance fuel c k = Some (i, v).
Proof.
  intros Hi Hc. pose proof (at_index_some _ _ _ Hi) as [H0 Hl]. apply lookup_lt_Some in Hl. induction fuel as [|fuel IH]; intros k Hk Hf; [lia|]. cbn [advance]. destruct (at_index_lt case_conv_table1 k) as [w Hw]; [lia|]. rewrite Hw. cbn [mbind option_bind].
  destruct (decide (k = i)) as [->|Hne].
  - assert (w = v) as -> by congruence. unfold in_run in Hc. destruct (Z.leb_spec (run_code v) c), (Z.ltb_spec c (run_code v + run_len v)); (lia || done).
  - pose proof (runs_increasing k w i v Hw Hi ltac:(lia)). unfold in_run in Hc. destruct (Z.leb_spec (run_code w) c), (Z.ltb_spec c (run_code w + run_len w)); try lia; apply IH; lia.
Qed.

(** ** Canonical characters *)

(** The characters of the tables lie below this one. *)
Definition char_bound : Z := 0x20000.

Definition run_check (u : bool) (x : Z * Z * Z) : bool :=
  match lre_case_folding_entry x.2 x.1.1 x.1.2 u with
  | Some d => (0 <=? x.2) && (x.2 <? char_bound) && bool_decide (lre_canonicalize x.2 u = Some d) && bool_decide (lre_canonicalize d u = Some d) && (0 <=? d) && (d <? char_bound)
  | None => false
  end.

Lemma run_checked u : forallb (run_check u) all_chars = true.
Proof. destruct u; vm_compute; reflexivity. Qed.

Lemma canonical_run u i v c : at_index case_conv_table1 i = Some v -> in_run c v ->
  0 <= c < char_bound /\ exists d, lre_case_folding_entry c i v u = Some d /\ lre_canonicalize c u = Some d /\ lre_canonicalize d u = Some d /\ 0 <= d < char_bound.
Proof.
  intros Hi Hc. pose proof (all_chars_forallb _ (run_checked u) i v c Hi Hc) as E. unfold run_check in E. cbn [fst snd] in E. destruct (lre_case_folding_entry c i v u) as [d|]; [|done].
  apply andb_true_iff in E as [E E6]. apply andb_true_iff in E as [E E5]. apply andb_true_iff in E as [E E4]. apply andb_true_iff in E as [E E3]. apply andb_true_iff in E as [E1 E2]. apply bool_decide_eq_true in E3, E4. split; [lia|]. exists d. split_and!; (done || lia).
Qed.

Lemma canonical_ascii u c : 0 <= c < 128 -> exists d, lre_canonicalize c u = Some d /\ lre_canonicalize d u = Some d /\ 0 <= d < 128.
Proof.
  intros Hc. unfold lre_canonicalize. destruct (Z.ltb_spec c 128); [|lia]. assert (Hb : forall x, 0 <= x < 128 -> 0 <= ascii_lower x < 128 /\ ascii_lower (ascii_lower x) = ascii_lower x /\ 0 <= ascii_upper x < 128 /\ ascii_upper (ascii_upper x) = ascii_upper x).
  { intros x Hx. unfold ascii_lower, ascii_upper. change (chr "a") with 97. change (chr "z") with 122. change (chr "A") with 65. change (chr "Z") with 90. repeat (case_match; try lia). }
  specialize (Hb c Hc). destruct u; eexists; (split; [done|]); cbn [negb]; (split; [|lia]); [destruct (Z.ltb_spec (ascii_lower c) 128)|destruct (Z.ltb_spec (ascii_upper c) 128)]; try lia; f_equal; lia.
Qed.

Lemma canonical_other u c : 128 <= c -> (forall i v, at_index case_conv_table1 i = Some v -> ~ in_run c v) -> lre_canonicalize c u = Some c.
Proof.
  intros Hc Hno. unfold lre_canonicalize. destruct (Z.ltb_spec c 128); [lia|]. destruct (search_total c) as (r & E & Hr). rewrite E. cbn [mbind option_bind]. destruct r as [[i v]|]; [|done]. destruct (Hr i v eq_refl) as [H1 H2]. by destruct (Hno i v H1).
Qed.

(** ** The characters that a conversion changes *)

Definition alternate (k : nat) (code : Z) : list (Z * Z) := (fun i => (code + 2 * i, code + 2 * i + 1)) <$> seqZ 0 (Z.of_nat k).

Definition entry_intervals (case_mask v : Z) : list (Z * Z) :=
  let code := run_code v in
  let len := run_len v in
  let upper := negb (Z.land case_mask CASE_U =? 0) in
  let both := upper && negb (Z.land case_mask (Z.lor CASE_L CASE_F) =? 0) in
  if Z.testbit (case_run_mask case_mask) (run_ty v) then
    match run_type_of (run_ty v), both with
    | RUN_TYPE_UL, false => alternate (Z.to_nat ((len + 1) / 2)) (code + (if upper then 1 else 0))
    | RUN_TYPE_LSU, false => (if upper then [] else [(code, code + 1)]) ++ [(code + 1, code + 2)] ++ (if upper then [(code + 2, code + 3)] else [])
    | _, _ => [(code, code + len)]
    end
  else [].

Definition case_intervals (case_mask : Z) : list (Z * Z) := case_conv_table1 ≫= entry_intervals case_mask.

Definition mask_of (u : bool) : Z := if u then CASE_F else CASE_U.
Definition mask_points (u : bool) : list Z := unpairs (case_intervals (mask_of u)).

(** Each interval is non-empty, in increasing order, and inside the runs. *)
Lemma mask_sorted u : StronglySorted Z.le (mask_points u) /\ Forall (fun z => 0 <= z <= char_bound) (mask_points u) /\ (length (mask_points u) <= 2000)%nat.
Proof.
  assert (H : forall u, Sorted Z.le (mask_points u) /\ Forall (fun z => 0 <= z <= char_bound) (mask_points u) /\ (length (mask_points u) <= 2000)%nat) by (intros []; apply (bool_decide_unpack _); vm_compute; exact I).
  destruct (H u) as (H1 & H2 & H3). split_and!; [|done|done]. apply Sorted_StronglySorted; [|done]. intros x y z. lia.
Qed.

Lemma sorted_covers ps c : StronglySorted Z.le (unpairs ps) -> covers (unpairs ps) c = in_some ps c.
Proof.
  induction ps as [|[x y] ps IH]; [done|]. rewrite unpairs_cons. cbn [fst snd]. intros Hs. apply StronglySorted_inv in Hs as [Hs1 Hx]. apply StronglySorted_inv in Hs1 as [Hs Hy]. cbn [covers]. rewrite Forall_cons in Hx. destruct Hx as [Hxy Hx].
  cbn [in_some existsb fst snd]. change (existsb _ ps) with (in_some ps c). rewrite IH by done. destruct (Z.ltb_spec c y) as [Hc|Hc].
  - assert (Hz : in_some ps c = false) by (rewrite <- IH by done; apply covers_below; eapply Forall_impl; [exact Hy|]; cbn; lia). rewrite Hz. destruct (Z.leb_spec x c), (Z.leb_spec y c); (lia || done).
  - destruct (Z.leb_spec x c), (Z.leb_spec y c); try lia. by destruct (in_some ps c).
Qed.

(** The characters of intervals, in order. *)
Definition chars_of (ps : list (Z * Z)) : list Z := ps ≫= fun p => seqZ p.1 (p.2 - p.1).

Lemma chars_of_elem ps c : c ∈ chars_of ps <-> in_some ps c = true.
Proof.
  unfold chars_of, in_some. rewrite list_elem_of_bind, existsb_exists. split; intros (p & H1 & H2); exists p; [rewrite elem_of_seqZ in H1; rewrite <- list_elem_of_In, andb_true_iff, Z.leb_le, Z.ltb_lt; split; [done|lia]|]. rewrite <- list_elem_of_In in H1. rewrite andb_true_iff, Z.leb_le, Z.ltb_lt in H2. rewrite elem_of_seqZ. split; [lia|done].
Qed.

(** The characters of the mask are in runs, and the others are canonical. *)
Lemma masked_in_run u c : covers (mask_points u) c = true -> exists i v, at_index case_conv_table1 i = Some v /\ in_run c v.
Proof.
  intros Hc. unfold mask_points in Hc. rewrite sorted_covers in Hc by (apply mask_sorted). apply chars_of_elem in Hc.
  assert (H : forall u, forallb (fun c => match search c with Some (Some _) => true | _ => false end) (chars_of (case_intervals (mask_of u))) = true) by (intros []; vm_compute; reflexivity).
  specialize (H u). rewrite forallb_forall in H. specialize (H c). rewrite <- list_elem_of_In in H. specialize (H Hc). destruct (search_total c) as (r & E & Hr). rewrite E in H. destruct r as [[i v]|]; [|done]. exists i, v. by apply Hr.
Qed.

Definition unmasked_check (m : list Z) (u : bool) (c : Z) : bool := covers m c || bool_decide (lre_canonicalize c u = Some c).

Lemma unmasked_checked u : forallb (unmasked_check (mask_points u) u) (seqZ 0 128 ++ (snd <$> all_chars)) = true.
Proof. destruct u; vm_compute; reflexivity. Qed.

Lemma unmasked_canonical u c : 0 <= c -> covers (mask_points u) c = false -> lre_canonicalize c u = Some c.
Proof.
  intros H0 Hc. pose proof (unmasked_checked u) as Hall. rewrite forallb_forall in Hall. specialize (Hall c). rewrite <- list_elem_of_In in Hall. unfold unmasked_check in Hall. rewrite Hc, orb_false_l, bool_decide_eq_true, elem_of_app, elem_of_seqZ in Hall.
  destruct (decide (c < 128)) as [Hlt|Hge]; [apply Hall; lia|]. destruct (search_total c) as (r & E & Hr). destruct r as [[i v]|].
  - destruct (Hr i v eq_refl) as [H1 H2]. apply Hall. right. apply list_elem_of_fmap. exists (i, v, c). split; [done|]. by apply all_chars_elem.
  - apply canonical_other; [lia|]. intros i v H1 H2. rewrite (search_found i v c H1 H2) in E. done.
Qed.
