(* ===== verification/CaseConvSets.v ===== *)
(** * Canonicalisation of a set of characters

    [cr_regexp_canonicalize] computes the image of a set under
    [lre_canonicalize], when no allocation is refused. *)
From S2P Require Import Prelude Sort SortProps SortHeap SortLoop CharRange CharRangeProps CharRangeSort CaseTables CaseConv CaseConvProps.

Section sets.
Context (mem : nat -> bool) (junk : Z).

(** ** Adding intervals one after the other *)

(** The points [l] are added at the end. *)
Definition adds (cr : CharRange) (l : list Z) (t : nat) (r : option (bool * CharRange * nat)) : Prop :=
  gives mem (fun cr' => len cr' = (len cr + length l)%nat /\ used cr' = used cr ++ l) t r.

Lemma adds_nil cr t : fits cr -> adds cr [] t (Some (true, cr, t)).
Proof. intros Hf. exists true, cr, t. split; [done|]. split; [done|]. split; [done|]. split; [cbn; lia|by rewrite app_nil_r]. Qed.

Lemma adds_interval cr c1 c2 t : fits cr -> Z.of_nat (len cr + 2) < 2 ^ 31 -> adds cr [c1; c2] t (cr_add_interval mem junk cr c1 c2 t).
Proof.
  intros Hf Hb. destruct (cr_add_interval_spec mem junk cr c1 c2 t Hf Hb) as (ok & cr' & t' & -> & H1 & H2 & H3). exists ok, cr', t'. split; [done|]. split; [done|]. split; [done|]. destruct ok; [exact H3|apply H3].
Qed.

Lemma adds_bind cr l1 l2 t r k : adds cr l1 t r -> (forall cr1 t1, fits cr1 -> len cr1 = (len cr + length l1)%nat -> adds cr1 l2 t1 (k cr1 t1)) ->
  adds cr (l1 ++ l2) t ('(ok, cr, t) ← r; if ok : bool then k cr t else Some (false, cr, t)).
Proof.
  intros (ok & cr1 & t1 & -> & H1 & H2 & H3) Hk. cbn [mbind option_bind]. destruct ok; [|exists false, cr1, t1; by split_and!]. destruct H3 as [H3 H4]. destruct (Hk cr1 t1 H2 H3) as (ok & cr2 & t2 & -> & K1 & K2 & K3).
  exists ok, cr2, t2. split; [done|]. split; [lia|]. split; [done|]. destruct ok; [|eapply refused_weaken; [| |exact K3]; lia]. destruct K3 as [K3 K4]. rewrite length_app, K4, H4, app_assoc. split; [lia|done].
Qed.

Lemma add_alternate_spec k : forall cr code t, fits cr -> Z.of_nat (len cr + 2 * k) < 2 ^ 31 -> adds cr (unpairs (alternate k code)) t (add_alternate mem junk k cr code t).
Proof.
  induction k as [|k IH]; intros cr code t Hf Hb; [by apply adds_nil|]. cbn [add_alternate].
  assert (E : unpairs (alternate (S k) code) = [code; code + 1] ++ unpairs (alternate k (code + 2))).
  { unfold alternate. rewrite seqZ_cons by lia. rewrite fmap_cons, unpairs_cons. cbn [fst snd app]. replace (code + 2 * 0) with code by lia. do 2 f_equal. replace (Z.pred (Z.of_nat (S k))) with (Z.of_nat k) by lia. rewrite <- (Z.add_0_r (Z.succ 0)), <- fmap_add_seqZ, <- list_fmap_compose. f_equal. apply list_fmap_ext. intros i x _. cbn. f_equal; lia. }
  rewrite E. apply (adds_bind _ [code; code + 1]); [apply adds_interval; [done|lia]|]. intros cr1 t1 Hf1 Hl1. apply IH; [done|]. cbn [length] in Hl1. lia.
Qed.

Lemma add_if_spec (b : bool) cr c1 c2 t : fits cr -> Z.of_nat (len cr + 2) < 2 ^ 31 -> adds cr (if b then [c1; c2] else []) t (add_if mem junk b cr c1 c2 t).
Proof. intros Hf Hb. unfold add_if. destruct b; [by apply adds_interval|by apply adds_nil]. Qed.

Lemma run_len_bound v : run_len v <= 127.
Proof. unfold run_len. rewrite (Z.land_ones _ 7) by lia. pose proof (Z.mod_pos_bound (Z.shiftr v (32 - 17 - 7)) (2 ^ 7) ltac:(lia)). lia. Qed.

Lemma case1_entry_spec cr case_mask v t : fits cr -> Z.of_nat (len cr + 200) < 2 ^ 31 -> adds cr (unpairs (entry_intervals case_mask v)) t (case1_entry mem junk cr case_mask v t).
Proof.
  intros Hf Hb. unfold case1_entry, entry_intervals. destruct (Z.testbit _ _); [|by apply adds_nil]. set (upper := negb (Z.land case_mask CASE_U =? 0)). set (both := upper && _).
  assert (Hrun : adds cr (unpairs [(run_code v, run_code v + run_len v)]) t (cr_add_interval mem junk cr (run_code v) (run_code v + run_len v) t)) by (apply adds_interval; [done|lia]).
  destruct (run_type_of (run_ty v)), both; try exact Hrun.
  - apply add_alternate_spec; [done|]. pose proof (run_len_bound v). pose proof (run_len_nonneg v). assert (Z.to_nat ((run_len v + 1) / 2) <= 64)%nat by div_lia. lia.
  - assert (E : unpairs ((if upper then [] else [(run_code v, run_code v + 1)]) ++ [(run_code v + 1, run_code v + 2)] ++ (if upper then [(run_code v + 2, run_code v + 3)] else [])) =
      (if negb upper then [run_code v; run_code v + 1] else []) ++ [run_code v + 1; run_code v + 2] ++ (if upper then [run_code v + 2; run_code v + 3] else [])) by (by destruct upper).
    rewrite E. apply adds_bind; [apply add_if_spec; [done|lia]|]. intros cr1 t1 Hf1 Hl1. assert (len cr1 <= len cr + 2)%nat by (destruct upper; cbn in Hl1; lia). apply adds_bind; [apply adds_interval; [done|lia]|]. intros cr2 t2 Hf2 Hl2. cbn [length] in Hl2. apply add_if_spec; [done|lia].
Qed.

Lemma entry_intervals_length case_mask v : (length (unpairs (entry_intervals case_mask v)) <= 200)%nat.
Proof.
  rewrite length_unpairs. unfold entry_intervals. destruct (Z.testbit _ _); [|cbn; lia]. set (upper := negb (Z.land case_mask CASE_U =? 0)). set (both := upper && _).
  destruct (run_type_of (run_ty v)), both; try (cbn; lia); [|destruct upper; cbn; lia]. unfold alternate. rewrite length_fmap, length_seqZ. pose proof (run_len_bound v). pose proof (run_len_nonneg v). assert (Z.to_nat ((run_len v + 1) / 2) <= 64)%nat by div_lia. lia.
Qed.

Lemma unpairs_app p q : unpairs (p ++ q) = unpairs p ++ unpairs q.
Proof. unfold unpairs. by rewrite bind_app. Qed.

Lemma case1_loop_spec case_mask tab : forall cr t, fits cr -> Z.of_nat (len cr + length (unpairs (tab ≫= entry_intervals case_mask)) + 200) < 2 ^ 31 ->
  adds cr (unpairs (tab ≫= entry_intervals case_mask)) t (case1_loop mem junk tab cr case_mask t).
Proof.
  induction tab as [|v tab IH]; intros cr t Hf Hb; [by apply adds_nil|]. cbn [case1_loop]. rewrite bind_cons, unpairs_app in Hb |- *. rewrite length_app in Hb. apply adds_bind; [apply case1_entry_spec; [done|lia]|]. intros cr1 t1 Hf1 Hl1. apply IH; [done|]. lia.
Qed.

Lemma unicode_case1_spec u t : gives mem (fun cr => used cr = mask_points u) t (unicode_case1 mem junk cr_init (mask_of u) t).
Proof.
  unfold unicode_case1. assert (mask_of u =? 0 = false) as -> by (by destruct u). eapply gives_impl; [|apply (case1_loop_spec (mask_of u) case_conv_table1 cr_init t)].
  - intros cr [_ ->]. done.
  - unfold fits. cbn. lia.
  - pose proof (proj2 (proj2 (mask_sorted u))) as H. unfold mask_points, case_intervals in H. cbn [len cr_init]. lia.
Qed.
(** ** The characters of the mask, one after the other *)

Fixpoint fold_list (u : bool) (cs : list Z) (s : folding_state) : option folding_state :=
  match cs with
  | [] => Some s
  | c :: cs => s ← fold_char mem junk u c s; fold_list u cs s
  end.

Lemma fold_list_app u cs cs' s : fold_list u (cs ++ cs') s = s ← fold_list u cs s; fold_list u cs' s.
Proof. revert s. induction cs as [|c cs IH]; intros s; [done|]. cbn [app fold_list]. destruct (fold_char mem junk u c s) as [s1|]; [apply IH|done]. Qed.

Lemma fold_chars_list u k : forall c s, fold_chars mem junk u k c s = fold_list u (seqZ c (Z.of_nat k)) s.
Proof.
  induction k as [|k IH]; intros c s; [done|]. rewrite seqZ_cons by lia. cbn [fold_chars fold_list]. replace (Z.pred (Z.of_nat (S k))) with (Z.of_nat k) by lia. destruct (fold_char mem junk u c s) as [s1|]; [|done]. cbn [mbind option_bind]. by rewrite IH, Z.add_1_r.
Qed.

Lemma fold_intervals_list u ps : forall s, fold_intervals mem junk u ps s = fold_list u (chars_of ps) s.
Proof.
  induction ps as [|[x y] ps IH]; intros s; [done|]. cbn [fold_intervals]. unfold chars_of. rewrite bind_cons, fold_list_app, fold_chars_list. cbn [fst snd].
  assert (E : seqZ x (Z.of_nat (Z.to_nat (y - x))) = seqZ x (y - x)) by (unfold seqZ; by rewrite Nat2Z.id). rewrite E. destruct (fold_list u (seqZ x (y - x)) s) as [s1|]; [|done]. cbn [mbind option_bind]. apply IH.
Qed.

(** The interval being built. *)
Definition pending_interval (s : folding_state) : list (Z * Z) := if d_start s =? UINT32_MAX then [] else [(d_start s, d_end s)].

(** All intervals found so far. *)
Definition found (s : folding_state) : list (Z * Z) := pairs (used (cr_result s)) ++ pending_interval s.

Record folding_ok (s : folding_state) : Prop := {
  fo_fits : fits (cr_result s);
  fo_even : Nat.even (len (cr_result s)) = true;
  fo_found : Forall (fun p => 0 <= p.1 < p.2 /\ p.2 <= char_bound) (found s);
  fo_idx : 0 <= idx s;
}.

Lemma pairs_app l l' : Nat.even (length l) = true -> pairs (l ++ l') = pairs l ++ pairs l'.
Proof. revert l. fix IH 1. intros [|x [|y l]] H; [done|done|]. cbn [pairs app]. by rewrite IH. Qed.

Lemma in_some_app ps qs c : in_some (ps ++ qs) c = in_some ps c || in_some qs c.
Proof. unfold in_some. apply existsb_app. Qed.

Lemma fold_char_spec u c s i v : folding_ok s -> at_index case_conv_table1 i = Some v -> in_run c v -> idx s <= i -> Z.of_nat (len (cr_result s) + 2) < 2 ^ 31 ->
  exists s' d, fold_char mem junk u c s = Some s' /\ lre_canonicalize c u = Some d /\ folding_ok s' /\ idx s' = i /\ (clock s <= clock s')%nat /\ (len (cr_result s') <= len (cr_result s) + 2)%nat /\
    (~ refused mem (clock s) (clock s') -> forall e, in_some (found s') e = in_some (found s) e || (e =? d)).
Proof.
  intros [F1 F2 F3 F4] Hi Hc Hidx Hb. unfold fold_char. pose proof (at_index_some _ _ _ Hi) as [Hi0 Hil]. apply lookup_lt_Some in Hil. assert (Hn : (length case_conv_table1 < 400)%nat) by (apply Nat.ltb_lt; vm_compute; reflexivity).
  rewrite (advance_spec c i v Hi Hc) by lia. cbn [mbind option_bind]. destruct (canonical_run u i v c Hi Hc) as (_ & d & -> & Hd & _ & Hdb). cbn [mbind option_bind]. assert (Hu : u32 (d + 1) = d + 1) by (unfold u32, char_bound in *; rewrite Z.mod_small; lia).
  assert (Hmax : d =? UINT32_MAX = false) by (unfold UINT32_MAX, char_bound in *; apply Z.eqb_neq; lia). unfold found in F3. apply Forall_app in F3 as [F3 F3p].
  assert (Hone : forall e, in_some [(d, d + 1)] e = (e =? d)) by (intros e; cbn; rewrite orb_false_r; destruct (Z.leb_spec d e), (Z.ltb_spec e (d + 1)), (Z.eqb_spec e d); (lia || done)).
  unfold pending_interval in F3p. destruct (Z.eqb_spec (d_start s) UINT32_MAX) as [Hs|Hs]; [|destruct (Z.eqb_spec (d_end s) d) as [He|He]].
  - eexists _, d. split; [done|]. split; [done|]. cbn [idx clock cr_result]. split_and!; [|done|done|lia|].
    + split; cbn [cr_result idx]; try done. unfold found, pending_interval. cbn [cr_result d_start d_end]. rewrite Hmax, Hu. apply Forall_app. split; [done|]. constructor; [cbn; lia|done].
    + intros _ e. unfold found, pending_interval. cbn [cr_result d_start d_end]. rewrite Hmax, Hu, Hs, Z.eqb_refl, app_nil_r, in_some_app, Hone. done.
  - apply Forall_cons in F3p as [F3p _]. cbn [fst snd] in F3p. apply Z.eqb_neq in Hs as Hs'. eexists _, d. split; [done|]. split; [done|]. cbn [idx clock cr_result]. rewrite He, Hu. split_and!; [|done|done|lia|].
    + split; cbn [cr_result idx]; try done. unfold found, pending_interval. cbn [cr_result d_start d_end]. rewrite Hs'. apply Forall_app. split; [done|]. constructor; [cbn; lia|done].
    + intros _ e. unfold found, pending_interval. cbn [cr_result d_start d_end]. rewrite Hs', !in_some_app, <- orb_assoc. f_equal. cbn. rewrite He. destruct (Z.leb_spec (d_start s) e), (Z.ltb_spec e (d + 1)), (Z.ltb_spec e d), (Z.eqb_spec e d); (lia || done).
  - apply Forall_cons in F3p as [F3p _]. cbn [fst snd] in F3p. apply Z.eqb_neq in Hs as Hs'. destruct (cr_add_interval_spec mem junk (cr_result s) (d_start s) (d_end s) (clock s) F1 Hb) as (ok & cr' & t' & -> & A1 & A2 & A3). cbn [mbind option_bind].
    pose proof (length_used _ F1) as Hl. pose proof (length_used _ A2) as Hl'. rewrite <- Hl in F2.
    assert (A4 : Nat.even (len cr') = true /\ (len cr' <= len (cr_result s) + 2)%nat /\ Forall (fun p => 0 <= p.1 < p.2 /\ p.2 <= char_bound) (pairs (used cr')) /\ (~ refused mem (clock s) t' -> used cr' = used (cr_result s) ++ [d_start s; d_end s])).
    { destruct ok; destruct A3 as [A3 A4].
      - rewrite A3, A4, pairs_app by done. split_and!; [rewrite Nat.even_add, <- Hl, F2; done|lia| |done]. apply Forall_app. split; [done|]. constructor; [cbn; lia|done].
      - rewrite <- Hl', A4. split_and!; [done|lia|done|done]. }
    destruct A4 as (A4 & A5 & A6 & A7). eexists _, d. split; [done|]. split; [done|]. cbn [idx clock cr_result]. split_and!; [|done|done|lia|].
    + split; cbn [cr_result idx]; try done. unfold found, pending_interval. cbn [cr_result d_start d_end]. rewrite Hmax, Hu. apply Forall_app. split; [done|]. constructor; [cbn; lia|done].
    + intros Hno e. unfold found, pending_interval. cbn [cr_result d_start d_end]. rewrite (A7 Hno), Hmax, Hu, Hs', pairs_app, !in_some_app, Hone by done. done.
Qed.
Lemma run_order c c' i v i' v' : at_index case_conv_table1 i = Some v -> in_run c v -> at_index case_conv_table1 i' = Some v' -> in_run c' v' -> c < c' -> i <= i'.
Proof. intros H1 H2 H3 H4 Hc. destruct (Z.le_gt_cases i i') as [|Hlt]; [done|]. pose proof (runs_increasing i' v' i v H3 H1 Hlt). unfold in_run in *. lia. Qed.

Lemma fold_list_spec u cs : forall s, folding_ok s -> StronglySorted Z.lt cs -> (forall c, c ∈ cs -> exists i v, at_index case_conv_table1 i = Some v /\ in_run c v /\ idx s <= i) ->
  Z.of_nat (len (cr_result s) + 2 * length cs) < 2 ^ 31 ->
  exists s', fold_list u cs s = Some s' /\ folding_ok s' /\ (clock s <= clock s')%nat /\ (len (cr_result s') <= len (cr_result s) + 2 * length cs)%nat /\
    (~ refused mem (clock s) (clock s') -> forall e, in_some (found s') e = true <-> in_some (found s) e = true \/ exists c, c ∈ cs /\ lre_canonicalize c u = Some e).
Proof.
  induction cs as [|c cs IH]; intros s Hok Hs Hrun Hb.
  - exists s. split_and!; try done; [lia|]. intros _ e. split; [auto|]. intros [?|(c & Hc & _)]; [done|by apply elem_of_nil in Hc].
  - cbn [fold_list]. apply StronglySorted_inv in Hs as [Hs Hc]. destruct (Hrun c) as (i & v & Hi & Hcv & Hidx); [by apply elem_of_cons; left|]. cbn [length] in Hb.
    destruct (fold_char_spec u c s i v Hok Hi Hcv Hidx) as (s1 & d & -> & Hd & Hok1 & Hi1 & Ht1 & Hl1 & Hf1); [lia|]. cbn [mbind option_bind].
    destruct (IH s1 Hok1 Hs) as (s2 & -> & Hok2 & Ht2 & Hl2 & Hf2); [|lia|].
    { intros c' Hc'. destruct (Hrun c') as (i' & v' & Hi' & Hcv' & _); [by apply elem_of_cons; right|]. exists i', v'. split_and!; try done. rewrite Hi1. rewrite Forall_forall in Hc. by apply (run_order c c' i v i' v'); [| | | |apply Hc]. }
    exists s2. split_and!; try done; [lia|cbn [length]; lia|]. intros Hno e. rewrite Hf2 by (intros Hr; apply Hno; eapply refused_weaken; [| |exact Hr]; lia). rewrite Hf1 by (intros Hr; apply Hno; eapply refused_weaken; [| |exact Hr]; lia).
    rewrite orb_true_iff, Z.eqb_eq. split.
    + intros [[?| ->]|(c' & Hc' & E)]; [auto|right; exists c; split; [by apply elem_of_cons; left|done]|right; exists c'; split; [by apply elem_of_cons; right|done]].
    + intros [?|(c' & Hc' & E)]; [auto|]. apply elem_of_cons in Hc' as [->|Hc']; [left; right; congruence|right; by exists c'].
Qed.

(** *** The characters in order *)

Lemma seqZ_sorted x n : StronglySorted Z.lt (seqZ x n).
Proof.
  destruct (Z.le_gt_cases n 0) as [Hn|Hn]; [by rewrite seqZ_nil; [apply SSorted_nil|]|]. rewrite <- (Z2Nat.id n) by lia. generalize (Z.to_nat n) as k. clear. intros k. revert x. induction k as [|k IH]; intros x; [apply SSorted_nil|]. rewrite seqZ_cons by lia. constructor; [replace (Z.pred (Z.of_nat (S k))) with (Z.of_nat k) by lia; apply IH|].
  apply Forall_forall. intros y Hy. apply elem_of_seqZ in Hy. lia.
Qed.

Lemma chars_of_sorted ps : StronglySorted Z.lt (unpairs ps) -> StronglySorted Z.lt (chars_of ps).
Proof.
  induction ps as [|[x y] ps IH]; intros Hs; [apply SSorted_nil|]. rewrite unpairs_cons in Hs. cbn [fst snd] in Hs. apply StronglySorted_inv in Hs as [Hs Hx]. apply StronglySorted_inv in Hs as [Hs Hy]. unfold chars_of. rewrite bind_cons. cbn [fst snd].
  apply StronglySorted_app. split_and!; [|apply seqZ_sorted|by apply IH]. intros c d Hc Hd. apply elem_of_seqZ in Hc. apply list_elem_of_bind in Hd as (p & Hd & Hp). apply elem_of_seqZ in Hd. rewrite Forall_forall in Hy. assert (y < p.1); [|lia]. apply Hy. unfold unpairs. apply list_elem_of_bind. exists p. split; [by apply elem_of_cons; left|done].
Qed.

Lemma increasing_length l : forall a b, a <= b -> StronglySorted Z.lt l -> Forall (fun z => a <= z < b) l -> Z.of_nat (length l) <= b - a.
Proof.
  induction l as [|x l IH]; intros a b Hab Hs Hf; [cbn; lia|]. apply StronglySorted_inv in Hs as [Hs Hx]. apply Forall_cons in Hf as [Hx' Hf]. cbn [length]. specialize (IH (x + 1) b ltac:(lia) Hs). assert (Z.of_nat (length l) <= b - (x + 1)); [|lia]. apply IH.
  apply Forall_forall. intros z Hz. rewrite Forall_forall in Hx. rewrite Forall_forall in Hf. specialize (Hx z Hz). specialize (Hf z Hz). lia.
Qed.

(** ** The set *)

Lemma covers_range l c : Nat.even (length l) = true -> (forall z, z ∈ l -> 0 <= z <= UINT32_MAX) -> covers l c = true -> 0 <= c < UINT32_MAX.
Proof.
  intros He Hr Hc. split.
  - destruct (Z.le_gt_cases 0 c) as [|Hlt]; [done|]. rewrite covers_below in Hc; [done|]. apply Forall_forall. intros z Hz. specialize (Hr z Hz). lia.
  - destruct (Z.lt_ge_cases c UINT32_MAX) as [|Hge]; [done|]. rewrite covers_above, <- Nat.negb_even, He in Hc; [done|]. apply Forall_forall. intros z Hz. specialize (Hr z Hz). lia.
Qed.

(** The range for the characters of the mask that are in the set. *)
Lemma fold_mask u cr_inter t : cr_ok cr_inter -> (forall c, covers (used cr_inter) c = true -> covers (mask_points u) c = true) ->
  exists s, fold_intervals mem junk u (pairs (used cr_inter)) {| d_start := UINT32_MAX; d_end := UINT32_MAX; idx := 0; cr_result := cr_init; clock := t |} = Some s /\ folding_ok s /\ (t <= clock s)%nat /\
    Z.of_nat (len (cr_result s)) <= 2 * char_bound /\ (~ refused mem t (clock s) -> forall e, in_some (found s) e = true <-> exists c, covers (used cr_inter) c = true /\ lre_canonicalize c u = Some e).
Proof.
  intros [H1 H2 H3] Hm. rewrite fold_intervals_list. pose proof (length_used _ H1) as Hl. assert (Hp : unpairs (pairs (used cr_inter)) = used cr_inter) by (apply unpairs_pairs; by rewrite Hl).
  assert (Hcov : forall c, c ∈ chars_of (pairs (used cr_inter)) <-> covers (used cr_inter) c = true) by (intros c; rewrite chars_of_elem, <- sorted_covers, Hp; [done|rewrite Hp; by apply sorted_le]).
  assert (Hruns : forall c, c ∈ chars_of (pairs (used cr_inter)) -> exists i v, at_index case_conv_table1 i = Some v /\ in_run c v) by (intros c Hc; apply (masked_in_run u), Hm, Hcov, Hc).
  assert (Hlen : Z.of_nat (length (chars_of (pairs (used cr_inter)))) <= char_bound - 0).
  { apply increasing_length; [unfold char_bound; lia|apply chars_of_sorted; by rewrite Hp|]. apply Forall_forall. intros c Hc. destruct (Hruns c Hc) as (i & v & Hi & Hv). by destruct (canonical_run u i v c Hi Hv). }
  destruct (fold_list_spec u (chars_of (pairs (used cr_inter))) {| d_start := UINT32_MAX; d_end := UINT32_MAX; idx := 0; cr_result := cr_init; clock := t |}) as (s & -> & F1 & F2 & F3 & F4).
  - split; cbn [cr_result idx]; [unfold fits; cbn; lia|done|by apply Forall_nil|lia].
  - apply chars_of_sorted. by rewrite Hp.
  - intros c Hc. destruct (Hruns c Hc) as (i & v & Hi & Hv). exists i, v. split_and!; try done. by apply at_index_some in Hi as [? _].
  - cbn [cr_result cr_init len]. unfold char_bound in Hlen. lia.
  - exists s. cbn [clock cr_result cr_init len] in *. split_and!; try done; [lia|]. intros Hno e. rewrite F4 by done. split.
    + intros [Hf|(c & Hc & E)]; [done|]. exists c. by rewrite <- Hcov.
    + intros (c & Hc & E). right. exists c. by rewrite Hcov.
Qed.
(** It returns; -1 only if an allocation was refused, and [R] holds if none
    was. *)
Definition ends (R : CharRange -> Prop) (t : nat) (r : option (bool * CharRange * nat)) : Prop :=
  exists ok cr t', r = Some (ok, cr, t') /\ (t <= t')%nat /\ (ok = false -> refused mem t t') /\ (~ refused mem t t' -> ok = true /\ R cr).

Lemma gives_ends (P R : CharRange -> Prop) t r : (forall cr, P cr -> R cr) -> gives mem P t r -> ends R t r.
Proof.
  intros HR (ok & cr & t' & -> & H1 & H2 & H3). exists ok, cr, t'. split; [done|]. split; [done|]. destruct ok.
  - split; [done|]. intros _. split; [done|by apply HR].
  - split; [done|]. intros Hno. by destruct Hno.
Qed.

Lemma or_fail_ends (P R : CharRange -> Prop) cr t r k : gives mem P t r -> (forall x t1, fits x -> P x -> ends R t1 (k x t1)) -> ends R t (or_fail cr r k).
Proof.
  intros (ok & x & t1 & -> & H1 & H2 & H3) Hk. unfold or_fail. cbn [mbind option_bind]. destruct ok; [|exists false, cr, t1; split_and!; try done; by intros []].
  destruct (Hk x t1 H2 H3) as (ok & cr' & t' & -> & K1 & K2 & K3). exists ok, cr', t'. split; [done|]. split; [lia|]. split.
  - intros Hf. eapply refused_weaken; [| |by apply K2]; lia.
  - intros Hno. apply K3. intros Hr. apply Hno. eapply refused_weaken; [| |exact Hr]; lia.
Qed.

Lemma ends_later (R : CharRange -> Prop) t t1 r : (t <= t1)%nat -> ends (fun cr => ~ refused mem t t1 -> R cr) t1 r -> ends R t r.
Proof.
  intros Ht (ok & cr & t' & -> & H1 & H2 & H3). exists ok, cr, t'. split; [done|]. split; [lia|]. split; [intros Hf; eapply refused_weaken; [| |by apply H2]; lia|]. intros Hno.
  assert (A : ~ refused mem t1 t') by (intros Hr; apply Hno; eapply refused_weaken; [| |exact Hr]; lia). destruct (H3 A) as [-> HR]. split; [done|]. apply HR. intros Hr. apply Hno. eapply refused_weaken; [| |exact Hr]; lia.
Qed.

(** The image of the set. *)
Definition is_image (cr : CharRange) (u : bool) (cr' : CharRange) : Prop :=
  cr_ok cr' /\ (forall z, z ∈ used cr' -> 0 <= z <= UINT32_MAX) /\
  (forall d, covers (used cr') d = true <-> exists c, covers (used cr) c = true /\ lre_canonicalize c u = Some d).

(** The last interval is added, and the result joined with the characters
    outside of the mask. *)
Lemma finish_ends cr u cr_inter cr_sub t : cr_ok cr -> (forall z, z ∈ used cr -> 0 <= z <= UINT32_MAX) -> Z.of_nat (len cr) < 2 ^ 30 ->
  cr_ok cr_inter -> (forall c, covers (used cr_inter) c = covers (mask_points u) c && covers (used cr) c) ->
  cr_ok cr_sub -> (forall c, covers (used cr_sub) c = true <-> covers (mask_points u) c = false /\ covers (used cr) c = true) -> (forall z, z ∈ used cr_sub -> 0 <= z <= UINT32_MAX) -> Z.of_nat (len cr_sub) <= Z.of_nat (len cr) + 2002 ->
  ends (is_image cr u) t (s ← fold_intervals mem junk u (pairs (used cr_inter)) {| d_start := UINT32_MAX; d_end := UINT32_MAX; idx := 0; cr_result := cr_init; clock := t |};
    or_fail cr (if d_start s =? UINT32_MAX then Some (true, cr_result s, clock s) else cr_add_interval mem junk (cr_result s) (d_start s) (d_end s) (clock s)) (fun cr_result t =>
    cr_result ← cr_sort_and_remove_overlap cr_result;
    cr_op mem junk {| len := 0; points := points cr |} (used cr_result) (used cr_sub) CR_OP_UNION t)).
Proof.
  intros Hok Hr Hlen Hok1 Hc1 Hok2 Hc2 Hr2 Hl2. destruct (fold_mask u cr_inter t Hok1) as (s & -> & [F1 F2 F3 F4] & Ft & Fl & Fe); [intros c; rewrite Hc1; intros E; by apply andb_true_iff in E as [? _]|]. cbn [mbind option_bind]. apply (ends_later _ _ (clock s)); [done|].
  assert (Hb : char_bound = 131072) by reflexivity. pose proof (length_used _ F1) as Hlu.
  apply (or_fail_ends (fun x => pairs (used x) = found s /\ Nat.even (len x) = true /\ Z.of_nat (len x) <= 262146)).
  { unfold found, pending_interval. destruct (d_start s =? UINT32_MAX); [exists true, (cr_result s), (clock s); rewrite app_nil_r; split; [done|]; split; [done|]; split; [done|]; split; [done|]; split; [done|lia]|]. eapply gives_impl; [|apply adds_interval; [done|lia]]. cbn [length]. intros x [E1 E2]. rewrite E2, E1. split_and!; [by rewrite pairs_app by (by rewrite Hlu)|rewrite Nat.even_add, F2; done|lia]. }
  intros x t1 Hx (X1 & X2 & X3). destruct (cr_sort_and_remove_overlap_spec x Hx X2) as (y & -> & Y1 & Y2 & Y3 & Y4); [rewrite X1; eapply Forall_impl; [exact F3|]; cbn; lia|]. cbn [mbind option_bind].
  pose proof (length_used y (ok_len _ Y1)) as Ly. pose proof (length_used cr_sub (ok_len _ Hok2)) as Lsub.
  eapply gives_ends; [|apply cr_op_spec; [done|apply sorted_le, Y1|apply sorted_le, Hok2|rewrite Ly; apply Y1|rewrite Lsub; apply Hok2|lia]]. cbn beta. intros cr' (C1 & C2 & C3 & _) Hno. split_and!; [done| |].
  - intros z Hz. apply C3, elem_of_app in Hz as [Hz|Hz]; [|by apply Hr2]. apply Y4 in Hz. rewrite <- (unpairs_pairs (used x)), X1 in Hz by (by rewrite length_used). unfold unpairs in Hz. apply list_elem_of_bind in Hz as (p & Hz & Hp). rewrite Forall_forall in F3. specialize (F3 p Hp). unfold char_bound, UINT32_MAX in *. set_solver by lia.
  - intros d. rewrite C2. cbn [is_in]. rewrite orb_true_iff, Y3, X1, Fe by done. rewrite Hc2. pose proof (length_used cr (ok_len _ Hok)) as Lcr. split.
    + intros [(c & Hc & E)|[Hm Hd]]; [exists c; split; [|done]; rewrite Hc1 in Hc; by apply andb_true_iff in Hc as [_ ?]|]. exists d. split; [done|]. apply unmasked_canonical; [|done]. eapply (covers_range (used cr)); [rewrite Lcr; apply Hok|done|done].
    + intros (c & Hc & E). destruct (covers (mask_points u) c) eqn:Hm; [left; exists c; rewrite Hc1, Hm, Hc; done|]. right. assert (0 <= c) by (eapply (covers_range (used cr)); [rewrite Lcr; apply Hok|done|done]). rewrite (unmasked_canonical u c) in E by done. injection E as <-. done.
Qed.

Lemma cr_regexp_canonicalize_ends cr u t : cr_ok cr -> (forall z, z ∈ used cr -> 0 <= z <= UINT32_MAX) -> Z.of_nat (len cr) < 2 ^ 30 -> ends (is_image cr u) t (cr_regexp_canonicalize mem junk cr u t).
Proof.
  intros Hok Hr Hlen. unfold cr_regexp_canonicalize. destruct (mask_sorted u) as (M1 & M2 & M3). assert (Me : Nat.even (length (mask_points u)) = true) by (unfold mask_points; rewrite length_unpairs, Nat.even_mul; done). pose proof (length_used cr (ok_len _ Hok)) as Lcr.
  eapply or_fail_ends; [apply (unicode_case1_spec u)|]. cbn beta. intros cr_mask t1 Fm Em. pose proof (length_used _ Fm) as Lm. rewrite Em in Lm.
  eapply or_fail_ends; [rewrite Em; apply cr_op_spec; [done|done|apply sorted_le, Hok|done|rewrite Lcr; apply Hok|lia]|]. cbn beta. intros cr_inter t2 _ (I1 & I2 & _).
  eapply or_fail_ends; [apply cr_invert_spec; [done|by rewrite <- Lm|by rewrite Em|rewrite Em; intros z Hz; rewrite Forall_forall in M2; specialize (M2 z Hz); unfold char_bound, UINT32_MAX in *; lia|lia]|]. cbn beta. intros cr_mask' t3 Fm' (N1 & N2 & N3 & N4). rewrite Em in N2. pose proof (length_used _ Fm') as Lm'.
  eapply or_fail_ends; [apply cr_op_spec; [done|apply sorted_le, N1|apply sorted_le, Hok|rewrite Lm'; apply N1|rewrite Lcr; apply Hok|lia]|]. cbn beta. intros cr_sub t4 _ (S1 & S2 & S3 & S4).
  apply finish_ends; try done; [|intros z Hz; apply S3, elem_of_app in Hz as [Hz|Hz]; [by apply N3|by apply Hr]|lia].
  intros c. rewrite S2. cbn [is_in]. rewrite andb_true_iff. split; intros [H1 H2]; (assert (Hc : 0 <= c < UINT32_MAX) by (eapply (covers_range (used cr)); [rewrite Lcr; apply Hok|done|done])); (split; [|done]); rewrite N2 in * by done; by destruct (covers (mask_points u) c).
Qed.
End sets.
