(* ===== verification/CharSets.v ===== *)
(** * Using sets of characters

    The contract of the set operations, of the case conversion of a character
    and of the canonicalisation of a set. *)
From S2P Require Import Prelude Sort SortProps SortHeap SortLoop CharRange CharRangeProps CharRangeSort CaseTables CaseConv CaseConvProps CaseConvSets.

(** A range as [libregexp] builds it: points in strictly increasing order, an
    even number of them, all characters below the maximum. *)
Definition char_set (cr : CharRange) : Prop := cr_ok cr /\ (forall z, z ∈ used cr -> 0 <= z <= UINT32_MAX) /\ Z.of_nat (len cr) < 2 ^ 30.

(** What a set operation returns: -1 only if an allocation was refused, or the
    one range, in the strict order, for the set [S]. *)
Definition returns (mem : nat -> bool) (S : Z -> bool) (t : nat) (r : option (bool * CharRange * nat)) : Prop :=
  gives mem (fun cr => cr_ok cr /\ (forall c, 0 <= c < UINT32_MAX -> covers (used cr) c = S c) /\ (forall cr', cr_ok cr' -> (forall c, covers (used cr') c = covers (used cr) c) -> used cr' = used cr)) t r.

Lemma gives_returns mem (P : CharRange -> Prop) S t r : (forall cr, P cr -> cr_ok cr /\ forall c, 0 <= c < UINT32_MAX -> covers (used cr) c = S c) -> gives mem P t r -> returns mem S t r.
Proof.
  intros HP Hg. eapply gives_impl; [|exact Hg]. intros cr H. destruct (HP cr H) as [H1 H2]. split_and!; [done|done|]. intros cr' H3 H4. apply covers_inj; [apply H3|apply H1|done].
Qed.

Section contract.
Context (mem : nat -> bool) (junk : Z).

(** [C30] Ranges of characters are sets: union, intersection, symmetric
    difference and difference, adding an interval, complement and copy return
    exactly the set they name, in the one representation that has strictly
    increasing points, or -1 and then an allocation was refused. *)
Theorem ranges_are_sets cr cr2 op c1 c2 t : char_set cr -> char_set cr2 -> 0 <= c1 -> c1 <= c2 -> c2 < UINT32_MAX ->
  returns mem (fun c => is_in op (covers (used cr) c) (covers (used cr2) c)) t (cr_op1 mem junk cr (used cr2) op t) /\
  returns mem (fun c => covers (used cr) c || ((c1 <=? c) && (c <=? c2))) t (cr_union_interval mem junk cr c1 c2 t) /\
  returns mem (fun c => negb (covers (used cr) c)) t (cr_invert mem junk cr t) /\
  returns mem (covers (used cr2)) t (cr_copy mem junk cr cr2 t).
Proof.
  intros (H1 & H2 & H3) (K1 & K2 & K3) Hc0 Hc1 Hc2. pose proof (length_used _ (ok_len _ K1)) as Hl. split_and!.
  - eapply gives_returns; [|apply cr_op1_spec; [done|apply sorted_le, K1|rewrite Hl; apply K1|lia]]. cbn beta. intros cr' (A1 & A2 & _). split; [done|]. intros; apply A2.
  - eapply gives_returns; [|apply cr_union_interval_spec; [done|done|done|done|lia]]. cbn beta. intros cr' (A1 & A2 & _). split; [done|]. intros; apply A2.
  - eapply gives_returns; [|apply cr_invert_spec; [apply H1|apply H1|apply sorted_le, H1|done|lia]]. cbn beta. intros cr' (A1 & A2 & _). by split.
  - eapply gives_returns; [|apply cr_copy_spec; [apply H1|done]]. cbn beta. intros cr' (A1 & ->). by split.
Qed.

(** Intervals in any order, overlapping or touching, become the strictly
    increasing points of their union; the sort is used through its contract
    only. *)
Theorem overlaps_removed cr : fits cr -> Nat.even (len cr) = true -> Forall (fun p => p.1 < p.2) (pairs (used cr)) ->
  exists cr', cr_sort_and_remove_overlap cr = Some cr' /\ cr_ok cr' /\ forall c, covers (used cr') c = true <-> exists p, p ∈ pairs (used cr) /\ p.1 <= c < p.2.
Proof.
  intros H1 H2 H3. destruct (cr_sort_and_remove_overlap_spec cr H1 H2 H3) as (cr' & A1 & A2 & _ & A3 & _). exists cr'. split_and!; [done|done|]. intros c. rewrite A3. unfold in_some. rewrite existsb_exists.
  split; intros (p & P1 & P2); exists p; [rewrite list_elem_of_In; split; [done|lia]|rewrite <- list_elem_of_In; split; [done|lia]].
Qed.

(** [C31] Canonicalising a set gives the set of the canonical characters of its
    elements, for both kinds of regular expressions: the function ends without
    a failing assertion, returns -1 only if an allocation was refused, and if
    none was, the result is exactly the image under [lre_canonicalize]. *)
Theorem canonical_set_is_image cr u t : char_set cr ->
  exists ok cr' t', cr_regexp_canonicalize mem junk cr u t = Some (ok, cr', t') /\ (ok = false -> refused mem t t') /\
    (~ refused mem t t' -> ok = true /\ cr_ok cr' /\ forall d, covers (used cr') d = true <-> exists c, covers (used cr) c = true /\ lre_canonicalize c u = Some d).
Proof.
  intros (H1 & H2 & H3). destruct (cr_regexp_canonicalize_ends mem junk cr u t H1 H2 H3) as (ok & cr' & t' & E & _ & A1 & A2). exists ok, cr', t'. split_and!; [done|done|]. intros Hno. destruct (A2 Hno) as (-> & B1 & _ & B2). by split_and!.
Qed.
End contract.

(** ** One character *)

Definition conv_check (c : Z) : bool :=
  forallb (fun ty => match lre_case_conv 2 c ty with Some res => (1 <=? length res)%nat && (length res <=? 3)%nat && forallb (fun d => (0 <=? d) && (d <? char_bound)) res | None => false end) [0; 1; 2].

Lemma conv_checked : forallb conv_check (seqZ 0 128 ++ (snd <$> all_chars)) = true.
Proof. vm_compute. reflexivity. Qed.

Lemma conv_other c ty : 128 <= c -> search c = Some None -> lre_case_conv 2 c ty = Some [c].
Proof. intros Hc Hs. unfold lre_case_conv. destruct (Z.ltb_spec c 128); [lia|]. by rewrite Hs. Qed.

(** The conversion of any character to upper case, to lower case or by case
    folding stays inside the tables, needs no deeper recursion than one call,
    and yields one to three characters, as many as the callers' buffers hold;
    the canonical character exists and is its own canonical character. *)
Theorem case_conversion_total c ty u : 0 <= c -> 0 <= ty <= 2 ->
  (exists res, lre_case_conv 2 c ty = Some res /\ (1 <= length res <= 3)%nat) /\
  (exists d, lre_canonicalize c u = Some d /\ lre_canonicalize d u = Some d).
Proof.
  intros Hc Hty. destruct (search_total c) as (r & E & Hr). split.
  - assert (Hin : c ∈ seqZ 0 128 ++ (snd <$> all_chars) \/ (128 <= c /\ search c = Some None)).
    { destruct (decide (c < 128)); [left; apply elem_of_app; left; apply elem_of_seqZ; lia|]. destruct r as [[i v]|]; [|right; split; [lia|done]]. destruct (Hr i v eq_refl) as [H1 H2]. left. apply elem_of_app. right. apply list_elem_of_fmap. exists (i, v, c). split; [done|]. by apply all_chars_elem. }
    destruct Hin as [Hin|[H1 H2]]; [|exists [c]; split; [by apply conv_other|cbn; lia]]. pose proof conv_checked as Hall. rewrite forallb_forall in Hall. specialize (Hall c). rewrite <- list_elem_of_In in Hall. specialize (Hall Hin). unfold conv_check in Hall.
    rewrite forallb_forall in Hall. specialize (Hall ty). assert (Hi : In ty [0; 1; 2]) by (cbn; lia). specialize (Hall Hi). destruct (lre_case_conv 2 c ty) as [res|]; [|done]. exists res. split; [done|]. rewrite !andb_true_iff, !Nat.leb_le in Hall. lia.
  - destruct (decide (c < 128)) as [Hlt|Hge]; [destruct (canonical_ascii u c) as (d & H1 & H2 & _); [lia|]; by exists d|]. destruct r as [[i v]|].
    + destruct (Hr i v eq_refl) as [H1 H2]. destruct (canonical_run u i v c H1 H2) as (_ & d & _ & A1 & A2 & _). by exists d.
    + assert (Ec : lre_canonicalize c u = Some c) by (apply canonical_other; [lia|]; intros i v H1 H2; rewrite (search_found i v c H1 H2) in E; done). by exists c.
Qed.

(** ** Examples *)

(** Lower-case letters of three scripts. *)
Definition letters : CharRange := {| len := 6; points := [0x61; 0x7b; 0x3b1; 0x3b2; 0x430; 0x431; 99] |}.

Lemma letters_ok : char_set letters.
Proof.
  split_and!; [split; [cbn; lia|done|repeat constructor]| |cbn; lia]. unfold UINT32_MAX, letters, used. cbn [len points take]. set_solver by lia.
Qed.

Lemma ranges_are_sets_witness : returns (fun _ => true) (fun c => negb (covers (used letters) c)) 0 (cr_invert (fun _ => true) 7 letters 0).
Proof. apply (ranges_are_sets (fun _ => true) 7 letters letters CR_OP_XOR 0x41 0x5a 0 letters_ok letters_ok); [lia|lia|unfold UINT32_MAX; lia]. Defined.

Lemma overlaps_removed_witness : exists cr', cr_sort_and_remove_overlap {| len := 6; points := [40; 50; 10; 20; 15; 40] |} = Some cr' /\ cr_ok cr' /\
  forall c, covers (used cr') c = true <-> exists p, p ∈ [(40, 50); (10, 20); (15, 40)] /\ p.1 <= c < p.2.
Proof. apply (overlaps_removed {| len := 6; points := [40; 50; 10; 20; 15; 40] |}); [unfold fits; cbn; lia|done|repeat constructor]. Defined.

Lemma canonical_set_is_image_witness : exists ok cr' t', cr_regexp_canonicalize (fun _ => true) 7 letters false 0 = Some (ok, cr', t') /\ (ok = false -> refused (fun _ => true) 0 t') /\
  (~ refused (fun _ => true) 0 t' -> ok = true /\ cr_ok cr' /\ forall d, covers (used cr') d = true <-> exists c, covers (used letters) c = true /\ lre_canonicalize c false = Some d).
Proof. apply (canonical_set_is_image (fun _ => true) 7 letters false 0 letters_ok). Defined.

Lemma case_conversion_total_witness : (exists res, lre_case_conv 2 0xdf 0 = Some res /\ (1 <= length res <= 3)%nat) /\ (exists d, lre_canonicalize 0xdf true = Some d /\ lre_canonicalize d true = Some d).
Proof. apply (case_conversion_total 0xdf 0 true); lia. Defined.

(** The set of the letters a, alpha and the Cyrillic a. *)
Definition three_letters : CharRange := {| len := 6; points := [0x61; 0x62; 0x3b1; 0x3b2; 0x430; 0x431] |}.

(** An allocation refused inside the loop over the characters goes
    unnoticed: canonicalising the letters a, alpha and the Cyrillic a with the
    twenty-third request refused reports success, and the capital A, the
    canonical character of a, is missing. *)
Theorem canonical_set_may_lose_characters : exists mem junk cr' t', cr_regexp_canonicalize mem junk three_letters false 0 = Some (true, cr', t') /\
  covers (used three_letters) 0x61 = true /\ lre_canonicalize 0x61 false = Some 0x41 /\ covers (used cr') 0x41 = false.
Proof. exists (fun t => negb (t =? 22)%nat), 0. eexists _, _. split; [vm_compute; reflexivity|]. split_and!; vm_compute; reflexivity. Qed.
