(* ===== verification/Ropes.v ===== *)
(** * Strings and ropes (src/runtime/class.inc.c)

    Concatenation of long strings makes a rope: a binary tree with strings at
    its leaves, of depth at most [JS_STRING_ROPE_MAX_DEPTH]; a tree that would
    be deeper is rebalanced.  A string is its length field, its width and its
    code units.  [None] is an access outside of an array, a failing [assert]
    or the end of the fuel, [Some None] an exception.  The allocator answers
    the [t]-th request by [mem t]; a result has the number of requests so far. *)
From S2P Require Import Prelude.

Definition JS_STRING_LEN_MAX : Z := 2 ^ 30 - 1.
Definition JS_STRING_ROPE_SHORT_LEN : Z := 512.
Definition JS_STRING_ROPE_SHORT2_LEN : Z := 8192.
Definition JS_STRING_ROPE_MAX_DEPTH : Z := 60.
(** The fields before the characters, packed into three words. *)
Definition sizeof_JSString : Z := 12.

Record JSString := mkString { len : Z; is_wide_char : bool; chars : list Z }.

(** Strings and ropes; a rope has its length, width and depth. *)
Inductive JSValue :=
  | V_string (p : JSString)
  | V_rope (r_len : Z) (r_wide : bool) (depth : Z) (r_left r_right : JSValue).

Definition string_rope_get_len (v : JSValue) : Z := match v with V_string p => len p | V_rope n _ _ _ _ => n end.
Definition rope_wide (v : JSValue) : bool := match v with V_string p => is_wide_char p | V_rope _ w _ _ _ => w end.
Definition rope_depth (v : JSValue) : Z := match v with V_string _ => 0 | V_rope _ _ d _ _ => d end.

Definition empty_string : JSValue := V_string (mkString 0 false []).

Section alloc.
Context (mem : nat -> bool).

Notation result := (option (option JSValue * nat)).

(** ** Concatenation of strings *)

Definition JS_ConcatString1 (p1 p2 : JSString) (t : nat) : option JSValue * nat :=
  if JS_STRING_LEN_MAX <? len p1 + len p2 then (None, t)
  else if mem t then (Some (V_string (mkString (len p1 + len p2) (is_wide_char p1 || is_wide_char p2) (chars p1 ++ chars p2))), (t + 1)%nat)
  else (None, (t + 1)%nat).

(** The second string is written behind the first one when nothing else
    refers to it ([ref_count]) and its block is large enough ([size1]). *)
Definition JS_ConcatStringInPlace (ref_count size1 : Z) (p1 : JSString) (op2 : JSValue) : option JSString :=
  match op2 with
  | V_string p2 =>
      if len p2 =? 0 then Some p1
      else if negb (ref_count =? 1) then None
      else if is_wide_char p1 then
        if sizeof_JSString + Z.shiftl (len p1 + len p2) 1 <=? size1 then Some (mkString (len p1 + len p2) true (chars p1 ++ chars p2)) else None
      else if negb (is_wide_char p2) then
        if sizeof_JSString + len p1 + len p2 + 1 <=? size1 then Some (mkString (len p1 + len p2) false (chars p1 ++ chars p2)) else None
      else None
  | V_rope _ _ _ _ _ => None
  end.

Definition JS_ConcatString2 (ref_count size1 : Z) (p1 p2 : JSString) (t : nat) : option JSValue * nat :=
  match JS_ConcatStringInPlace ref_count size1 p1 (V_string p2) with
  | Some p => (Some (V_string p), t)
  | None => JS_ConcatString1 p1 p2 t
  end.

(** ** Ropes *)

Section rope.
(** The rebalancing of a rope that is too deep. *)
Context (rebalance : JSValue -> nat -> result).

Definition new_string_rope (op1 op2 : JSValue) (t : nat) : result :=
  let n := u32 (string_rope_get_len op1 + string_rope_get_len op2) in
  if JS_STRING_LEN_MAX <? n then Some (None, t)
  else if mem t then
    let d := u8 (rope_depth op1 `max` rope_depth op2 + 1) in
    let res := V_rope n (rope_wide op1 || rope_wide op2) d op1 op2 in
    if JS_STRING_ROPE_MAX_DEPTH <? d then rebalance res (t + 1)%nat
    else Some (Some res, (t + 1)%nat)
  else Some (None, (t + 1)%nat).

Definition ROPE_N_BUCKETS : nat := 44.

(** Fibonacci numbers from F_2 on. *)
Definition rope_bucket_len : list Z :=
  [1; 2; 3; 5; 8; 13; 21; 34; 55; 89; 144; 233; 377; 610; 987; 1597; 2584; 4181; 6765; 10946; 17711; 28657; 46368; 75025;
   121393; 196418; 317811; 514229; 832040; 1346269; 2178309; 3524578; 5702887; 9227465; 14930352; 24157817;
   39088169; 63245986; 102334155; 165580141; 267914296; 433494437; 701408733; 1134903170].

(** A bucket is empty ([JS_NULL]) or holds a string or rope. *)
Notation buckets := (list (option JSValue)).

(** [while (len >= rope_bucket_len[i + 1])]: the ropes in the buckets before
    the one for [n] are joined.  The result is the index and the rope, or an
    exception. *)
Fixpoint collect (fuel : nat) (bk : buckets) (n : Z) (i : nat) (a : option JSValue) (t : nat) : option (buckets * nat * option (option JSValue) * nat) :=
  match fuel with
  | O => None
  | S fuel =>
      f ← rope_bucket_len !! (i + 1)%nat;
      if f <=? n then
        b ← bk !! i;
        match b, a with
        | None, _ => collect fuel bk n (i + 1) a t
        | Some b, None => collect fuel (<[i := None]> bk) n (i + 1) (Some b) t
        | Some b, Some a =>
            '(r, t) ← new_string_rope b a t;
            match r with
            | Some a => collect fuel (<[i := None]> bk) n (i + 1) (Some a) t
            | None => Some (<[i := None]> bk, i, None, t)
            end
        end
      else Some (bk, i, Some a, t)
  end.

(** [while (!JS_IsNull(buckets[i]))], and the store that follows. *)
Fixpoint carry (fuel : nat) (bk : buckets) (i : nat) (a : JSValue) (t : nat) : option (buckets * bool * nat) :=
  match fuel with
  | O => None
  | S fuel =>
      b ← bk !! i;
      match b with
      | None => Some (<[i := Some a]> bk, true, t)
      | Some b =>
          '(r, t) ← new_string_rope b a t;
          match r with
          | Some a => carry fuel (<[i := None]> bk) (i + 1) a t
          | None => Some (<[i := None]> bk, false, t)
          end
      end
  end.

(** One leaf. *)
Definition insert_leaf (bk : buckets) (p : JSString) (t : nat) : option (buckets * bool * nat) :=
  if len p =? 0 then Some (bk, true, t)
  else
    '(bk, i, a, t) ← collect ROPE_N_BUCKETS bk (len p) 0 None t;
    match a with
    | None => Some (bk, false, t)
    | Some None => carry ROPE_N_BUCKETS bk i (V_string p) t
    | Some (Some a) =>
        '(r, t) ← new_string_rope a (V_string p) t;
        match r with
        | Some a => carry ROPE_N_BUCKETS bk i a t
        | None => Some (bk, false, t)
        end
    end.

(** The leaves in order; what the calls for the two sides return is not
    looked at. *)
Fixpoint js_rebalancee_string_rope_rec (bk : buckets) (v : JSValue) (t : nat) : option (buckets * bool * nat) :=
  match v with
  | V_string p => insert_leaf bk p t
  | V_rope _ _ _ v_left v_right =>
      '(bk, _, t) ← js_rebalancee_string_rope_rec bk v_left t;
      '(bk, _, t) ← js_rebalancee_string_rope_rec bk v_right t;
      Some (bk, true, t)
  end.

(** The ropes of all buckets are joined, from the first one on. *)
Fixpoint join_buckets (bk : buckets) (a : option JSValue) (t : nat) : option (option (option JSValue) * nat) :=
  match bk with
  | [] => Some (Some a, t)
  | None :: bk => join_buckets bk a t
  | Some b :: bk =>
      match a with
      | None => join_buckets bk (Some b) t
      | Some a =>
          '(r, t) ← new_string_rope b a t;
          match r with
          | Some a => join_buckets bk (Some a) t
          | None => Some (None, t)
          end
      end
  end.

Definition rebalance_with (rope : JSValue) (t : nat) : result :=
  '(bk, ok, t) ← js_rebalancee_string_rope_rec (replicate ROPE_N_BUCKETS None) rope t;
  if ok : bool then
    '(r, t) ← join_buckets bk None t;
    match r with
    | None => Some (None, t)
    | Some None => Some (Some empty_string, t)
    | Some (Some a) => Some (Some a, t)
    end
  else Some (None, t).
End rope.

(** Rebalancing makes ropes, which may be rebalanced in their turn: [fuel]
    bounds these nested calls. *)
Fixpoint js_rebalancee_string_rope (fuel : nat) (rope : JSValue) (t : nat) : result :=
  match fuel with
  | O => None
  | S fuel => rebalance_with (js_rebalancee_string_rope fuel) rope t
  end.

Definition js_new_string_rope (fuel : nat) : JSValue -> JSValue -> nat -> result := new_string_rope (js_rebalancee_string_rope fuel).

(** The operands are strings or ropes; [ref_count] and [size1] are those of
    the first one when it is a string.  A side of a rope that is used again
    has been given a second reference. *)
Definition JS_ConcatString (fuel : nat) (ref_count size1 : Z) (op1 op2 : JSValue) (t : nat) : result :=
  match op2 with
  | V_string p2 =>
      if len p2 =? 0 then Some (Some op1, t)
      else if len p2 <=? JS_STRING_ROPE_SHORT_LEN then
        match op1 with
        | V_string p1 =>
            if len p1 <=? JS_STRING_ROPE_SHORT2_LEN then Some (JS_ConcatString2 ref_count size1 p1 p2 t)
            else js_new_string_rope fuel op1 op2 t
        | V_rope _ _ _ v_left (V_string p) =>
            if len p <=? JS_STRING_ROPE_SHORT_LEN then
              match JS_ConcatString2 2 size1 p p2 t with
              | (Some val, t) => js_new_string_rope fuel v_left val t
              | (None, t) => Some (None, t)
              end
            else js_new_string_rope fuel op1 op2 t
        | _ => js_new_string_rope fuel op1 op2 t
        end
      else js_new_string_rope fuel op1 op2 t
  | V_rope _ _ _ v_left v_right =>
      match op1 with
      | V_string p1 =>
          if len p1 =? 0 then Some (Some op2, t)
          else
            match v_left with
            | V_string p =>
                if len p <=? JS_STRING_ROPE_SHORT_LEN then
                  match JS_ConcatString2 ref_count size1 p1 p t with
                  | (Some val, t) => js_new_string_rope fuel val v_right t
                  | (None, t) => Some (None, t)
                  end
                else js_new_string_rope fuel op1 op2 t
            | V_rope _ _ _ _ _ => js_new_string_rope fuel op1 op2 t
            end
      | V_rope _ _ _ _ _ => js_new_string_rope fuel op1 op2 t
      end
  end.
End alloc.

(** ** Access and comparison *)

(** [string_get] of the leaf that holds the position. *)
Fixpoint string_rope_get (v : JSValue) (i : Z) : option Z :=
  match v with
  | V_string p => if i <? 0 then None else chars p !! Z.to_nat i
  | V_rope _ _ _ l r => if i <? string_rope_get_len l then string_rope_get l i else string_rope_get r (u32 (i - string_rope_get_len l))
  end.

(** An iterator is its stack, of at most [JS_STRING_ROPE_MAX_DEPTH] entries. *)
Definition string_rope_iter_init (v : JSValue) : list JSValue := [v].

(** [for(;;)]: down the left sides; the right ones wait on the stack. *)
Fixpoint iter_descend (v : JSValue) (stack : list JSValue) : option (option JSString * list JSValue) :=
  match v with
  | V_string p => Some (Some p, stack)
  | V_rope _ _ _ l r => if Z.of_nat (length stack) <? JS_STRING_ROPE_MAX_DEPTH then iter_descend l (r :: stack) else None
  end.

Definition string_rope_iter_next (stack : list JSValue) : option (option JSString * list JSValue) :=
  match stack with
  | [] => Some (None, [])
  | v :: stack => iter_descend v stack
  end.

(** The difference of the first units that differ: [memcmp], [memcmp16] and
    [memcmp16_8], the sign of which is used. *)
Fixpoint memcmp (l1 l2 : list Z) : Z :=
  match l1, l2 with
  | x :: l1, y :: l2 => if x =? y then memcmp l1 l2 else x - y
  | _, _ => 0
  end.

(** [n] units from [pos] on. *)
Definition units (p : JSString) (pos n : Z) : option (list Z) :=
  if (0 <=? pos) && (0 <=? n) && (pos + n <=? Z.of_nat (length (chars p))) then Some (take (Z.to_nat n) (drop (Z.to_nat pos) (chars p))) else None.

Definition js_string_memcmp (p1 : JSString) (pos1 : Z) (p2 : JSString) (pos2 n : Z) : option Z :=
  l1 ← units p1 pos1 n; l2 ← units p2 pos2 n;
  Some (if negb (is_wide_char p1) && is_wide_char p2 then - memcmp l2 l1 else memcmp l1 l2).

(** [same] tells whether the two are one object. *)
Definition js_string_eq (same : bool) (p1 p2 : JSString) : option bool :=
  if negb (len p1 =? len p2) then Some false
  else if same then Some true
  else res ← js_string_memcmp p1 0 p2 0 (len p1); Some (res =? 0).

Definition js_string_compare (p1 p2 : JSString) : option Z :=
  res ← js_string_memcmp p1 0 p2 0 (len p1 `min` len p2);
  Some (if res =? 0 then if len p1 =? len p2 then 0 else if len p1 <? len p2 then -1 else 1 else res).

(** [if (pos >= p->len)]: the next leaf. *)
Definition iter_step (p : JSString) (pos : Z) (it : list JSValue) : option (option JSString * Z * list JSValue) :=
  if len p <=? pos then '(p, it) ← string_rope_iter_next it; Some (p, 0, it) else Some (Some p, pos, it).

(** [while (len != 0)]; the result is that of a comparison that differs. *)
Fixpoint compare_loop (fuel : nat) (p1 : option JSString) (pos1 : Z) (it1 : list JSValue) (p2 : option JSString) (pos2 : Z) (it2 : list JSValue) (n : Z) : option (option Z) :=
  match fuel with
  | O => None
  | S fuel =>
      if n =? 0 then Some None
      else
        q1 ← p1; q2 ← p2;
        let l := ((len q1 - pos1) `min` (len q2 - pos2)) `min` n in
        res ← js_string_memcmp q1 pos1 q2 pos2 l;
        if negb (res =? 0) then Some (Some res)
        else
          '(p1, pos1, it1) ← iter_step q1 (pos1 + l) it1;
          '(p2, pos2, it2) ← iter_step q2 (pos2 + l) it2;
          compare_loop fuel p1 pos1 it1 p2 pos2 it2 (n - l)
  end.

Fixpoint leaf_count (v : JSValue) : nat :=
  match v with
  | V_string _ => 1
  | V_rope _ _ _ l r => leaf_count l + leaf_count r
  end.

(** Every round but the last one uses up a leaf. *)
Definition js_string_rope_compare (op1 op2 : JSValue) (eq_only : bool) : option Z :=
  let len1 := string_rope_get_len op1 in
  let len2 := string_rope_get_len op2 in
  if eq_only && negb (len1 =? len2) then Some 1
  else
    '(p1, it1) ← string_rope_iter_next (string_rope_iter_init op1);
    '(p2, it2) ← string_rope_iter_next (string_rope_iter_init op2);
    r ← compare_loop (leaf_count op1 + leaf_count op2 + 1) p1 0 it1 p2 0 it2 (len1 `min` len2);
    match r with
    | Some res => Some res
    | None => Some (if len1 =? len2 then 0 else if len1 <? len2 then -1 else 1)
    end.
