(* ===== verification/RopesProps.v ===== *)
(** * Ropes: text and balance

    A rope stands for the text of its leaves.  Rebalancing keeps the text,
    stays inside its buckets, and the rope in bucket [i] has depth at most
    [2 * i]. *)
From S2P Require Import Prelude Ropes.

(** ** The text of a rope *)

Fixpoint text (v : JSValue) : list Z :=
  match v with
  | V_string p => chars p
  | V_rope _ _ _ l r => text l ++ text r
  end.

(** The units fit the width of the string. *)
Definition string_ok (p : JSString) : Prop :=
  len p = Z.of_nat (length (chars p)) /\ len p <= JS_STRING_LEN_MAX /\ Forall (fun c => 0 <= c < (if is_wide_char p then 2 ^ 16 else 2 ^ 8)) (chars p).

(** The fields of a rope, up to its depth; a rope that has been made flat
    keeps its depth and its width. *)
Definition rope_fields (n : Z) (w : bool) (d : Z) (l r : JSValue) : Prop :=
  n = string_rope_get_len l + string_rope_get_len r /\ n <= JS_STRING_LEN_MAX /\ implb (rope_wide l || rope_wide r) w = true /\ rope_depth l `max` rope_depth r + 1 <= d.

Fixpoint rope_ok (v : JSValue) : Prop :=
  match v with
  | V_string p => string_ok p
  | V_rope n w d l r => rope_fields n w d l r /\ d <= JS_STRING_ROPE_MAX_DEPTH /\ rope_ok l /\ rope_ok r
  end.

(** A rope that may be too deep by its root. *)
Definition rope_built (v : JSValue) : Prop :=
  match v with
  | V_string p => string_ok p
  | V_rope n w d l r => rope_fields n w d l r /\ rope_ok l /\ rope_ok r
  end.

Lemma rope_ok_built v : rope_ok v -> rope_built v.
Proof. destruct v; [done|]. intros (H1 & _ & H2 & H3). done. Qed.

Lemma text_length v : rope_built v -> string_rope_get_len v = Z.of_nat (length (text v)).
Proof.
  assert (H : forall v, rope_ok v -> string_rope_get_len v = Z.of_nat (length (text v))).
  { induction v0 as [p|n w d l IHl r IHr]; [intros H; apply H|]. intros ((-> & _) & _ & H1 & H2). cbn [text string_rope_get_len]. rewrite length_app, IHl, IHr by done. lia. }
  destruct v as [p|n w d l r]; [intros Hs; apply Hs|]. intros ((-> & _) & H1 & H2). cbn [text string_rope_get_len]. rewrite length_app, (H l), (H r) by done. lia.
Qed.

Lemma rope_len v : rope_ok v -> 0 <= string_rope_get_len v <= JS_STRING_LEN_MAX.
Proof. intros H. split; [rewrite text_length by (by apply rope_ok_built); lia|]. destruct v; [apply H|]. destruct H as ((_ & H & _) & _). done. Qed.

Lemma rope_depth_range v : rope_ok v -> 0 <= rope_depth v <= JS_STRING_ROPE_MAX_DEPTH.
Proof.
  induction v as [p|n w d l IHl r IHr]; [unfold JS_STRING_ROPE_MAX_DEPTH; cbn; lia|]. intros ((_ & _ & _ & Hd) & H & H1 & H2). specialize (IHl H1). specialize (IHr H2). cbn [rope_depth]. lia.
Qed.

(** ** Making a rope *)

Section balance.
Context (reb : JSValue -> nat -> option (option JSValue * nat)).

(** What is expected of a rebalancing that returns. *)
Definition rebalances : Prop := forall v t r t', rope_built v -> reb v t = Some (r, t') -> exists v', r = Some v' /\ rope_ok v' /\ text v' = text v.

Context (Hreb : rebalances).

Notation nr := (new_string_rope (fun _ => true) reb).

Lemma new_rope_spec x y t : rope_ok x -> rope_ok y -> string_rope_get_len x + string_rope_get_len y <= JS_STRING_LEN_MAX ->
  match nr x y t with
  | None => JS_STRING_ROPE_MAX_DEPTH < rope_depth x `max` rope_depth y + 1
  | Some (None, _) => False
  | Some (Some v, _) => rope_ok v /\ text v = text x ++ text y /\ (rope_depth x `max` rope_depth y + 1 <= JS_STRING_ROPE_MAX_DEPTH -> rope_depth v = rope_depth x `max` rope_depth y + 1)
  end.
Proof.
  intros Hx Hy Hl. pose proof (rope_len _ Hx). pose proof (rope_len _ Hy). pose proof (rope_depth_range _ Hx) as Dx. pose proof (rope_depth_range _ Hy) as Dy. unfold JS_STRING_LEN_MAX, JS_STRING_ROPE_MAX_DEPTH in *. unfold new_string_rope.
  replace (u32 (string_rope_get_len x + string_rope_get_len y)) with (string_rope_get_len x + string_rope_get_len y) by (unfold u32; rewrite Z.mod_small; lia). replace (u8 (rope_depth x `max` rope_depth y + 1)) with (rope_depth x `max` rope_depth y + 1) by (unfold u8; rewrite Z.mod_small; lia).
  destruct (Z.ltb_spec JS_STRING_LEN_MAX (string_rope_get_len x + string_rope_get_len y)) as [H1|H1]; [unfold JS_STRING_LEN_MAX in H1; lia|].
  assert (Hf : rope_fields (string_rope_get_len x + string_rope_get_len y) (rope_wide x || rope_wide y) (rope_depth x `max` rope_depth y + 1) x y) by (unfold rope_fields, JS_STRING_LEN_MAX; split_and!; [done|lia|by destruct (rope_wide x || rope_wide y)|lia]).
  destruct (Z.ltb_spec JS_STRING_ROPE_MAX_DEPTH (rope_depth x `max` rope_depth y + 1)) as [H2|H2]; unfold JS_STRING_ROPE_MAX_DEPTH in H2.
  - destruct (reb _ (t + 1)%nat) as [[r t']|] eqn:E; [|lia]. apply Hreb in E as (v & -> & H3 & H4); [|done]. split_and!; [done|done|lia].
  - split_and!; [|done|done]. cbn [rope_ok]. split_and!; [done|unfold JS_STRING_ROPE_MAX_DEPTH; lia|done|done].
Qed.

(** ** The buckets *)

(** Bucket [i] holds a text of at least this length. *)
Definition fib (i : nat) : Z := default 0 (rope_bucket_len !! i).

Lemma fib_table i : (i < 44)%nat -> rope_bucket_len !! i = Some (fib i).
Proof. intros H. unfold fib. destruct (lookup_lt_is_Some_2 rope_bucket_len i) as [x ->]; [exact H|done]. Qed.

Lemma fib_facts i : (i + 1 < 44)%nat -> 0 < fib i < fib (i + 1) /\ fib (i + 1) <= 2 * fib i.
Proof.
  intros H. assert (Hall : forallb (fun i => (0 <? fib i) && (fib i <? fib (i + 1)) && (fib (i + 1) <=? 2 * fib i)) (seq 0 43) = true) by (vm_compute; reflexivity).
  rewrite forallb_forall in Hall. specialize (Hall i). rewrite in_seq in Hall. specialize (Hall ltac:(lia)). lia.
Qed.

Lemma fib_mono i j : (i <= j)%nat -> (j < 44)%nat -> fib i <= fib j.
Proof. intros Hij Hj. induction j as [|j IH]; [by replace i with 0%nat by lia|]. destruct (decide (i = S j)) as [->|]; [lia|]. pose proof (fib_facts j ltac:(lia)). replace (j + 1)%nat with (S j) in * by lia. specialize (IH ltac:(lia) ltac:(lia)). lia. Qed.

(** The text in the buckets, which runs from the last bucket to the first. *)
Fixpoint btext (bk : list (option JSValue)) : list Z :=
  match bk with
  | [] => []
  | b :: bk => btext bk ++ from_option text [] b
  end.

Lemma btext_app bk bk' : btext (bk ++ bk') = btext bk' ++ btext bk.
Proof. induction bk as [|b bk IH]; cbn; [by rewrite app_nil_r|]. by rewrite IH, app_assoc. Qed.

Lemma btext_none n : btext (replicate n None) = [].
Proof. induction n as [|n IH]; [done|]. cbn. by rewrite IH. Qed.

(** [N] bounds the length of the whole text; up to [small] characters the
    depth of bucket [i] is at most [2 * i]. *)
Context (N : Z) (HN : N <= JS_STRING_LEN_MAX).

Definition small : Prop := N < fib 30.

Definition bucket_ok (i : nat) (b : option JSValue) : Prop :=
  match b with
  | None => True
  | Some v => rope_ok v /\ fib i <= string_rope_get_len v /\ (small -> rope_depth v <= 2 * Z.of_nat i)
  end.

Definition buckets_ok (bk : list (option JSValue)) : Prop := length bk = 44%nat /\ forall i b, bk !! i = Some b -> bucket_ok i b.

(** All buckets before [i] are empty. *)
Definition clear_below (i : nat) (bk : list (option JSValue)) : Prop := forall j, (j < i)%nat -> bk !! j = Some None.

Lemma clear_below_btext i bk : clear_below i bk -> (i <= length bk)%nat -> btext bk = btext (drop i bk).
Proof.
  revert bk. induction i as [|i IH]; intros bk Hc Hi; [done|]. destruct bk as [|b bk]; [done|]. specialize (Hc 0%nat ltac:(lia)) as H0. cbn in H0. injection H0 as ->. cbn. rewrite app_nil_r. apply IH; [|cbn in Hi; lia]. intros j Hj. by apply (Hc (S j)); lia.
Qed.

Lemma btext_at i bk b : bk !! i = Some b -> clear_below i bk -> btext bk = btext (drop (i + 1) bk) ++ from_option text [] b.
Proof.
  intros Hb Hc. pose proof (lookup_lt_Some _ _ _ Hb). rewrite (clear_below_btext i) by (done || lia). rewrite (drop_S bk b i Hb). cbn [btext]. by rewrite Nat.add_1_r.
Qed.

Lemma clear_below_S i bk : clear_below i bk -> bk !! i = Some None -> clear_below (i + 1) bk.
Proof. intros H1 H2 j Hj. destruct (decide (j = i)) as [->|]; [done|]. apply H1. lia. Qed.

Lemma clear_insert i bk : (i < length bk)%nat -> clear_below i bk -> clear_below (i + 1) (<[i := None]> bk).
Proof. intros H1 H2 j Hj. destruct (decide (j = i)) as [->|]; [by apply list_lookup_insert_eq|]. rewrite list_lookup_insert_ne by done. apply H2. lia. Qed.

Lemma buckets_insert i b bk : buckets_ok bk -> bucket_ok i b -> buckets_ok (<[i := b]> bk).
Proof.
  intros [H1 H2] Hb. split; [by rewrite length_insert|]. intros j c Hc. destruct (decide (j = i)) as [->|Hne]; [|rewrite list_lookup_insert_ne in Hc by done; by apply H2].
  pose proof (lookup_lt_Some _ _ _ Hc) as Hl. rewrite length_insert in Hl. rewrite list_lookup_insert_eq in Hc by done. by injection Hc as <-.
Qed.

Lemma drop_insert_same {A} i (x : A) l : drop (i + 1) (<[i := x]> l) = drop (i + 1) l.
Proof. apply list_eq. intros k. by rewrite !lookup_drop, list_lookup_insert_ne by lia. Qed.

Lemma fib_bounds : JS_STRING_LEN_MAX < fib 43 /\ fib 0 = 1.
Proof. split; vm_compute; reflexivity. Qed.

Lemma small_index i : (i < 44)%nat -> fib i <= N -> small -> (i < 30)%nat.
Proof. intros Hi Hf Hs. unfold small in Hs. destruct (decide (i < 30)%nat) as [|Hge]; [done|]. pose proof (fib_mono 30 i ltac:(lia) Hi). lia. Qed.

(** The rope joined so far. *)
Definition joined_ok (i : nat) (a : option JSValue) : Prop :=
  match a with
  | None => True
  | Some v => rope_ok v /\ (small -> rope_depth v <= 2 * Z.of_nat i - 1)
  end.

Definition atext (a : option JSValue) : list Z := from_option text [] a.

Lemma collect_spec n : forall fuel bk i a t, buckets_ok bk -> clear_below i bk -> (i <= 42)%nat -> (43 <= fuel + i)%nat -> n <= JS_STRING_LEN_MAX -> fib i <= n -> joined_ok i a -> Z.of_nat (length (btext bk ++ atext a)) + n <= N ->
  match collect (fun _ => true) reb fuel bk n i a t with
  | None => ~ small
  | Some (bk', i', r, _) => exists a', r = Some a' /\ buckets_ok bk' /\ clear_below i' bk' /\ (i' <= 42)%nat /\ fib i' <= n /\ joined_ok i' a' /\ btext bk' ++ atext a' = btext bk ++ atext a
  end.
Proof.
  induction fuel as [|fuel IH]; intros bk i a t Hbk Hc Hi Hf Hn Hfi Ha Htot; [lia|]. cbn [collect]. rewrite (fib_table (i + 1)) by lia. cbn [mbind option_bind].
  destruct (Z.leb_spec (fib (i + 1)) n) as [Hle|Hgt]; [|exists a; by split_and!]. assert (Hi1 : (i + 1 <= 42)%nat) by (destruct (decide (i = 42)%nat) as [->|]; [|lia]; pose proof fib_bounds as [H43 _]; replace (42 + 1)%nat with 43%nat in Hle by lia; lia).
  destruct Hbk as [Hlen Hok]. destruct (lookup_lt_is_Some_2 bk i ltac:(lia)) as [b Hb]. rewrite Hb. cbn [mbind option_bind]. pose proof (Hok i b Hb) as Hbi. pose proof (btext_at i bk b Hb Hc) as Et.
  assert (Hins : buckets_ok (<[i:=None]> bk)) by (by apply buckets_insert). assert (Hcl : clear_below (i + 1) (<[i:=None]> bk)) by (apply clear_insert; [lia|done]).
  assert (Et' : btext (<[i:=None]> bk) = btext (drop (i + 1) bk)) by (rewrite (btext_at i (<[i:=None]> bk) None), drop_insert_same; [cbn; by rewrite app_nil_r|apply list_lookup_insert_eq; lia|intros j Hj; apply Hcl; lia]).
  destruct b as [b|]; [|apply IH; try done; try lia; [by apply clear_below_S|destruct a as [v|]; [|done]; destruct Ha as [Ha1 Ha2]; split; [done|]; intros Hs; specialize (Ha2 Hs); lia]].
  cbn [from_option] in Et. destruct Hbi as (B1 & B2 & B3). destruct a as [a|].
  - destruct Ha as [A1 A2]. assert (Hl : string_rope_get_len b + string_rope_get_len a <= N) by (rewrite (text_length b), (text_length a) by (by apply rope_ok_built); rewrite Et in Htot; rewrite !length_app in Htot; cbn [atext from_option] in Htot; pose proof (proj2 (fib_facts i ltac:(lia))); pose proof (fib_facts i ltac:(lia)); lia).
    pose proof (new_rope_spec b a t B1 A1 ltac:(lia)) as Hnr. assert (Hsi : small -> (i < 30)%nat) by (apply small_index; [lia|]; pose proof (rope_len _ A1); lia).
    destruct (nr b a t) as [[[v|] t1]|]; [|done|intros Hs; specialize (B3 Hs); specialize (A2 Hs); specialize (Hsi Hs); unfold JS_STRING_ROPE_MAX_DEPTH in *; lia]. cbn [mbind option_bind]. destruct Hnr as (V1 & V2 & V3).
    assert (Ex : btext (<[i:=None]> bk) ++ atext (Some v) = btext bk ++ atext (Some a)) by (rewrite Et', Et; cbn [atext from_option]; by rewrite V2, app_assoc).
    specialize (IH (<[i:=None]> bk) (i + 1)%nat (Some v) t1 Hins Hcl Hi1 ltac:(lia) Hn Hle). rewrite Ex in IH. apply IH; [|done]. split; [done|]. intros Hs. specialize (B3 Hs). specialize (A2 Hs). specialize (Hsi Hs). unfold JS_STRING_ROPE_MAX_DEPTH in *. lia.
  - assert (Ex : btext (<[i:=None]> bk) ++ atext (Some b) = btext bk ++ atext None) by (rewrite Et', Et; cbn [atext from_option]; by rewrite app_nil_r).
    specialize (IH (<[i:=None]> bk) (i + 1)%nat (Some b) t Hins Hcl Hi1 ltac:(lia) Hn Hle). rewrite Ex in IH. apply IH; [|done]. split; [done|]. intros Hs. specialize (B3 Hs). lia.
Qed.

Lemma carry_spec : forall fuel bk i a t, buckets_ok bk -> clear_below i bk -> (i <= 43)%nat -> (44 <= fuel + i)%nat -> rope_ok a -> fib i <= string_rope_get_len a -> (small -> rope_depth a <= 2 * Z.of_nat i) -> Z.of_nat (length (btext bk ++ text a)) <= N ->
  match carry (fun _ => true) reb fuel bk i a t with
  | None => ~ small
  | Some (bk', ok, _) => ok = true /\ buckets_ok bk' /\ btext bk' = btext bk ++ text a
  end.
Proof.
  induction fuel as [|fuel IH]; intros bk i a t Hbk Hc Hi Hf Ha Hfi Hd Htot; [lia|]. cbn [carry]. pose proof Hbk as [Hlen Hok]. destruct (lookup_lt_is_Some_2 bk i ltac:(lia)) as [b Hb]. rewrite Hb. cbn [mbind option_bind]. pose proof (Hok i b Hb) as Hbi. pose proof (btext_at i bk b Hb Hc) as Et.
  pose proof fib_bounds as [H43 _]. pose proof (rope_len _ Ha) as Hla. assert (Hi1 : (i <= 42)%nat) by (destruct (decide (i = 43)%nat) as [->|]; [lia|lia]).
  destruct b as [b|].
  - cbn [from_option] in Et. destruct Hbi as (B1 & B2 & B3). pose proof (rope_len _ B1).
    assert (Hl : string_rope_get_len b + string_rope_get_len a <= N) by (rewrite (text_length b), (text_length a) by (by apply rope_ok_built); rewrite Et in Htot; rewrite !length_app in Htot; lia).
    pose proof (new_rope_spec b a t B1 Ha ltac:(lia)) as Hnr. assert (Hsi : small -> (i < 30)%nat) by (apply small_index; [lia|]; lia).
    destruct (nr b a t) as [[[v|] t1]|]; [|done|intros Hs; specialize (B3 Hs); specialize (Hd Hs); specialize (Hsi Hs); unfold JS_STRING_ROPE_MAX_DEPTH in *; lia]. cbn [mbind option_bind]. destruct Hnr as (V1 & V2 & V3).
    assert (Hcl : clear_below (i + 1) (<[i:=None]> bk)) by (apply clear_insert; [lia|done]).
    assert (Et' : btext (<[i:=None]> bk) = btext (drop (i + 1) bk)) by (rewrite (btext_at i (<[i:=None]> bk) None), drop_insert_same; [cbn; by rewrite app_nil_r|apply list_lookup_insert_eq; lia|intros j Hj; apply Hcl; lia]).
    assert (Ex : btext (<[i:=None]> bk) ++ text v = btext bk ++ text a) by (rewrite Et', Et, V2; by rewrite app_assoc). assert (Hlv : string_rope_get_len v = string_rope_get_len b + string_rope_get_len a) by (rewrite !text_length by (by apply rope_ok_built); rewrite V2, length_app; lia).
    specialize (IH (<[i:=None]> bk) (i + 1)%nat v t1). rewrite Ex in IH. apply IH; try done; try lia; [by apply buckets_insert|pose proof (fib_facts i ltac:(lia)); lia|]. intros Hs. specialize (B3 Hs). specialize (Hd Hs). specialize (Hsi Hs). unfold JS_STRING_ROPE_MAX_DEPTH in *. lia.
  - split; [done|]. split; [by apply buckets_insert|]. assert (Hi' : (i < length bk)%nat) by lia. rewrite (btext_at i _ (Some a)), drop_insert_same; [rewrite Et; cbn; by rewrite app_nil_r|by apply list_lookup_insert_eq|]. intros j Hj. rewrite list_lookup_insert_ne by lia. by apply Hc.
Qed.

Lemma insert_leaf_spec bk p t : buckets_ok bk -> string_ok p -> Z.of_nat (length (btext bk ++ chars p)) <= N ->
  match insert_leaf (fun _ => true) reb bk p t with
  | None => ~ small
  | Some (bk', ok, _) => ok = true /\ buckets_ok bk' /\ btext bk' = btext bk ++ chars p
  end.
Proof.
  intros Hbk (P1 & P2 & P3) Htot. unfold insert_leaf. pose proof fib_bounds as [_ H0]. destruct (Z.eqb_spec (len p) 0) as [E|Hne]; [split_and!; try done; destruct (chars p); [by rewrite app_nil_r|cbn in P1; lia]|].
  pose proof (collect_spec (len p) ROPE_N_BUCKETS bk 0 None t Hbk) as Hc. destruct (collect _ _ _ _ _ _ _ _) as [[[[bk1 i] r] t1]|]; cbn [mbind option_bind]; (cbn [atext from_option] in Hc; rewrite app_nil_r in Hc; rewrite length_app in Htot).
  2: { apply Hc; try done; try lia; [intros j; lia|unfold ROPE_N_BUCKETS; lia]. }
  destruct Hc as (a & -> & H1 & H2 & H3 & H4 & H5 & H6); try done; try lia; [intros j; lia|unfold ROPE_N_BUCKETS; lia|].
  assert (Hp : rope_ok (V_string p)) by (by split_and!). destruct a as [a|]; cbn [atext from_option] in H6.
  - destruct H5 as [A1 A2]. assert (Hla : string_rope_get_len a + len p <= N) by (rewrite (text_length a) by (by apply rope_ok_built); rewrite <- H6, length_app in Htot; lia).
    pose proof (new_rope_spec a (V_string p) t1 A1 Hp ltac:(cbn; lia)) as Hnr. cbn [rope_depth] in Hnr. assert (Hsi : small -> (i < 30)%nat) by (apply small_index; [lia|]; pose proof (rope_len _ A1); lia). pose proof (rope_depth_range _ A1).
    destruct (nr a (V_string p) t1) as [[[v|] t2]|]; [|done|intros Hs; specialize (A2 Hs); specialize (Hsi Hs); unfold JS_STRING_ROPE_MAX_DEPTH in *; lia]. cbn [mbind option_bind]. destruct Hnr as (V1 & V2 & V3).
    assert (Ex : btext bk1 ++ text v = btext bk ++ chars p) by (rewrite V2, app_assoc, H6; done). pose proof (carry_spec ROPE_N_BUCKETS bk1 i v t2) as Hk. rewrite Ex in Hk. apply Hk; try done; try (unfold ROPE_N_BUCKETS; lia); [|intros Hs; specialize (A2 Hs); specialize (Hsi Hs); unfold JS_STRING_ROPE_MAX_DEPTH in *; lia|rewrite length_app; lia].
    rewrite text_length by (by apply rope_ok_built). rewrite V2, length_app. cbn [text]. lia.
  - rewrite app_nil_r in H6. pose proof (carry_spec ROPE_N_BUCKETS bk1 i (V_string p) t1) as Hk. rewrite H6 in Hk. cbn [text] in Hk. apply Hk; try done; try (unfold ROPE_N_BUCKETS; lia); [cbn; lia|rewrite length_app; lia].
Qed.

Lemma rec_spec v : forall bk t, buckets_ok bk -> rope_ok v -> Z.of_nat (length (btext bk ++ text v)) <= N ->
  match js_rebalancee_string_rope_rec (fun _ => true) reb bk v t with
  | None => ~ small
  | Some (bk', ok, _) => ok = true /\ buckets_ok bk' /\ btext bk' = btext bk ++ text v
  end.
Proof.
  induction v as [p|n w d l IHl r IHr]; intros bk t Hbk Hv Htot; [by apply insert_leaf_spec|]. destruct Hv as (_ & _ & Hl & Hr). cbn [js_rebalancee_string_rope_rec text] in *. rewrite app_assoc, length_app in Htot.
  specialize (IHl bk t Hbk Hl ltac:(lia)). destruct (js_rebalancee_string_rope_rec _ _ bk l t) as [[[bk1 ok1] t1]|]; [|done]. destruct IHl as (_ & L1 & L2). cbn [mbind option_bind].
  specialize (IHr bk1 t1 L1 Hr). rewrite L2, length_app in IHr. specialize (IHr ltac:(lia)). destruct (js_rebalancee_string_rope_rec _ _ bk1 r t1) as [[[bk2 ok2] t2]|]; [|done]. destruct IHr as (_ & R1 & R2). cbn [mbind option_bind]. split_and!; [done|done|]. by rewrite R2, app_assoc.
Qed.

Lemma join_spec bk : forall i a t, (forall j b, bk !! j = Some b -> bucket_ok (i + j) b) -> (i + length bk = 44)%nat -> joined_ok i a -> Z.of_nat (length (btext bk ++ atext a)) <= N ->
  match join_buckets (fun _ => true) reb bk a t with
  | None => ~ small
  | Some (r, _) => exists a', r = Some a' /\ atext a' = btext bk ++ atext a /\ match a' with Some v => rope_ok v | None => True end
  end.
Proof.
  induction bk as [|b bk IH]; intros i a t Hok Hlen Ha Htot; cbn [join_buckets].
  - exists a. split_and!; [done|done|]. destruct a; [apply Ha|done].
  - assert (Hok' : forall j c, bk !! j = Some c -> bucket_ok (S i + j) c) by (intros j c Hc; replace (S i + j)%nat with (i + S j)%nat by lia; by apply Hok). specialize (Hok 0%nat b eq_refl) as Hb. replace (i + 0)%nat with i in Hb by lia. cbn [length] in Hlen. cbn [btext] in Htot |- *. fold (atext b) in Htot |- *.
    destruct b as [b|]; [|cbn [atext from_option] in Htot |- *; rewrite app_nil_r in Htot |- *; apply (IH (S i)); try done; [lia|]; destruct a as [v|]; [|done]; destruct Ha as [Ha1 Ha2]; split; [done|]; intros Hs; specialize (Ha2 Hs); lia].
    destruct Hb as (B1 & B2 & B3). pose proof (rope_len _ B1). destruct a as [a|].
    + destruct Ha as [A1 A2]. cbn [atext from_option] in Htot |- *. rewrite !length_app in Htot. assert (Hl : string_rope_get_len b + string_rope_get_len a <= N) by (rewrite (text_length b), (text_length a) by (by apply rope_ok_built); lia).
      pose proof (new_rope_spec b a t B1 A1 ltac:(lia)) as Hnr. pose proof (rope_len _ A1). assert (Hsi : small -> (i < 30)%nat) by (apply small_index; lia).
      destruct (nr b a t) as [[[v|] t1]|]; [|done|intros Hs; specialize (B3 Hs); specialize (A2 Hs); specialize (Hsi Hs); unfold JS_STRING_ROPE_MAX_DEPTH in *; lia]. cbn [mbind option_bind]. destruct Hnr as (V1 & V2 & V3).
      pose proof (IH (S i) (Some v) t1 Hok' ltac:(lia)) as K. cbn [atext from_option] in K. rewrite V2, app_assoc in K. apply K; [|rewrite !length_app; lia]. split; [done|]. intros Hs. specialize (B3 Hs). specialize (A2 Hs). specialize (Hsi Hs). unfold JS_STRING_ROPE_MAX_DEPTH in *. lia.
    + cbn [atext from_option] in Htot |- *. rewrite app_nil_r in Htot |- *. apply (IH (S i) (Some b)); try done; [lia|]. split; [done|]. intros Hs. specialize (B3 Hs). lia.
Qed.

Lemma buckets_start : buckets_ok (replicate ROPE_N_BUCKETS None).
Proof. split; [done|]. intros i b Hb. apply lookup_replicate in Hb as [-> _]. done. Qed.

Lemma join_all_spec bk t l : buckets_ok bk -> btext bk = l -> Z.of_nat (length l) <= N ->
  match '(r, t) ← join_buckets (fun _ => true) reb bk None t;
    match r with
    | None => Some (None, t)
    | Some None => Some (Some empty_string, t)
    | Some (Some a) => Some (Some a, t)
    end with
  | None => ~ small
  | Some (r, _) => exists v', r = Some v' /\ rope_ok v' /\ text v' = l
  end.
Proof.
  intros [H1 H2] <- Hn. pose proof (join_spec bk 0 None t) as Hj. cbn [atext from_option] in Hj. rewrite app_nil_r in Hj. specialize (Hj H2 H1 I Hn). destruct (join_buckets _ _ bk None t) as [[r t1]|]; [|done]. cbn [mbind option_bind]. destruct Hj as (a & -> & J1 & J2).
  destruct a as [a|]; cbn [atext from_option] in J1; [by exists a|]. exists empty_string. split_and!; [done| |done]. cbn. unfold string_ok, JS_STRING_LEN_MAX. cbn. split_and!; [done|lia|constructor].
Qed.

Lemma rebalance_with_spec v t : rope_built v -> string_rope_get_len v <= N ->
  match rebalance_with (fun _ => true) reb v t with
  | None => ~ small
  | Some (r, _) => exists v', r = Some v' /\ rope_ok v' /\ text v' = text v
  end.
Proof.
  intros Hv Hn. pose proof (text_length v Hv) as Hl. unfold rebalance_with. destruct v as [p|n w d l r].
  - pose proof (rec_spec (V_string p) (replicate ROPE_N_BUCKETS None) t) as Hr. rewrite btext_none in Hr. specialize (Hr buckets_start Hv ltac:(cbn [app]; lia)).
    destruct (js_rebalancee_string_rope_rec _ _ _ _ _) as [[[bk ok] t1]|]; [|done]. destruct Hr as (-> & R1 & R2). cbn [mbind option_bind]. apply join_all_spec; [done|done|lia].
  - destruct Hv as (Hf & Hl1 & Hr1). cbn [js_rebalancee_string_rope_rec text] in *. pose proof (rec_spec l (replicate ROPE_N_BUCKETS None) t buckets_start Hl1) as HL. rewrite btext_none in HL. rewrite length_app in Hl. specialize (HL ltac:(cbn [app]; lia)).
    destruct (js_rebalancee_string_rope_rec _ _ _ l t) as [[[bk1 ok1] t1]|]; [|done]. destruct HL as (_ & L1 & L2). cbn [mbind option_bind app] in *. pose proof (rec_spec r bk1 t1 L1 Hr1) as HR. rewrite L2, length_app in HR. specialize (HR ltac:(lia)).
    destruct (js_rebalancee_string_rope_rec _ _ bk1 r t1) as [[[bk2 ok2] t2]|]; [|done]. destruct HR as (_ & R1 & R2). cbn [mbind option_bind]. apply join_all_spec; [done|done|rewrite length_app; lia].
Qed.
End balance.
