(* ===== verification/RopesCompare.v ===== *)
(** * Comparison of ropes

    The iterator gives the leaves of a rope in order and stays in its stack;
    the comparison of two ropes leaf by leaf is the lexicographic comparison
    of their texts. *)
From S2P Require Import Prelude Ropes RopesProps.

(** The order of strings by code units: -1, 0 or 1. *)
Fixpoint text_compare (l1 l2 : list Z) : Z :=
  match l1, l2 with
  | [], [] => 0
  | [], _ :: _ => -1
  | _ :: _, [] => 1
  | x :: l1, y :: l2 => if x =? y then text_compare l1 l2 else if x <? y then -1 else 1
  end.

(** ** Runs of code units *)

Lemma memcmp_antisym l1 l2 : - memcmp l2 l1 = memcmp l1 l2.
Proof. revert l2. induction l1 as [|x l1 IH]; intros [|y l2]; try done. cbn. destruct (Z.eqb_spec y x), (Z.eqb_spec x y); try lia. apply IH. Qed.

Lemma memcmp_app a b c d : length a = length c -> memcmp (a ++ b) (c ++ d) = if memcmp a c =? 0 then memcmp b d else memcmp a c.
Proof. revert c. induction a as [|x a IH]; intros [|y c] Hl; try done. cbn. destruct (Z.eqb_spec x y); [apply IH; by injection Hl|]. destruct (Z.eqb_spec (x - y) 0); [lia|done]. Qed.

Lemma text_compare_memcmp l1 l2 : text_compare l1 l2 =
  if memcmp l1 l2 =? 0 then if Z.of_nat (length l1) =? Z.of_nat (length l2) then 0 else if Z.of_nat (length l1) <? Z.of_nat (length l2) then -1 else 1
  else Z.sgn (memcmp l1 l2).
Proof.
  revert l2. induction l1 as [|x l1 IH]; intros [|y l2]; try done; cbn [text_compare memcmp]. destruct (Z.eqb_spec x y) as [->|Hne].
  - rewrite IH. cbn [length]. destruct (memcmp l1 l2 =? 0); [|done]. rewrite !Nat2Z.inj_succ. destruct (Z.eqb_spec (Z.of_nat (length l1)) (Z.of_nat (length l2))), (Z.eqb_spec (Z.succ (Z.of_nat (length l1))) (Z.succ (Z.of_nat (length l2)))), (Z.ltb_spec (Z.of_nat (length l1)) (Z.of_nat (length l2))), (Z.ltb_spec (Z.succ (Z.of_nat (length l1))) (Z.succ (Z.of_nat (length l2)))); lia.
  - destruct (Z.eqb_spec (x - y) 0); [lia|]. destruct (Z.ltb_spec x y); lia.
Qed.

Lemma text_compare_eq l1 l2 : text_compare l1 l2 = 0 <-> l1 = l2.
Proof.
  revert l2. induction l1 as [|x l1 IH]; intros [|y l2]; try done; cbn [text_compare]. destruct (Z.eqb_spec x y) as [->|Hne]; [rewrite IH; naive_solver|]. split; [destruct (_ <? _); lia|congruence].
Qed.

(** ** The iterator *)

(** Every entry of the stack has room for its depth above it. *)
Fixpoint stack_ok (s : list JSValue) : Prop :=
  match s with
  | [] => True
  | v :: s => rope_ok v /\ Z.of_nat (length s) + rope_depth v <= JS_STRING_ROPE_MAX_DEPTH /\ stack_ok s
  end.

Fixpoint stack_text (s : list JSValue) : list Z := match s with [] => [] | v :: s => text v ++ stack_text s end.
Fixpoint stack_leaves (s : list JSValue) : nat := match s with [] => 0%nat | v :: s => (leaf_count v + stack_leaves s)%nat end.

Lemma iter_descend_spec v : forall s, rope_ok v -> Z.of_nat (length s) + rope_depth v <= JS_STRING_ROPE_MAX_DEPTH -> stack_ok s ->
  exists p s', iter_descend v s = Some (Some p, s') /\ string_ok p /\ stack_ok s' /\ chars p ++ stack_text s' = text v ++ stack_text s /\ (1 + stack_leaves s' = leaf_count v + stack_leaves s)%nat.
Proof.
  induction v as [p|n w d l IHl r IHr]; intros s Hv Hd Hs; [by exists p, s|]. destruct Hv as ((_ & _ & _ & Hd0) & _ & Hl & Hr). cbn [iter_descend text leaf_count rope_depth] in *. pose proof (rope_depth_range _ Hl). pose proof (rope_depth_range _ Hr).
  rewrite (proj2 (Z.ltb_lt _ _)) by lia. destruct (IHl (r :: s)) as (p & s' & E & P1 & P2 & P3 & P4); [done|cbn [length]; lia|cbn [stack_ok]; split_and!; (done || lia)|]. exists p, s'. split_and!; [done|done|done| |].
  - rewrite P3. cbn [stack_text]. by rewrite app_assoc.
  - rewrite P4. cbn [stack_leaves]. lia.
Qed.

(** ** The comparison *)

(** A place in a rope: a leaf, a position in it and the iterator. *)
Definition place_ok (p : option JSString) (pos : Z) (it : list JSValue) : Prop :=
  match p with
  | Some p => string_ok p /\ 0 <= pos <= len p /\ stack_ok it
  | None => True
  end.

Definition rest (p : option JSString) (pos : Z) (it : list JSValue) : list Z :=
  match p with
  | Some p => drop (Z.to_nat pos) (chars p) ++ stack_text it
  | None => []
  end.

Definition leaves_left (p : option JSString) (it : list JSValue) : nat := match p with Some _ => 1 + stack_leaves it | None => 0 end.

Lemma iter_next_spec s : stack_ok s -> exists p s', string_rope_iter_next s = Some (p, s') /\ place_ok p 0 s' /\ rest p 0 s' = stack_text s /\ leaves_left p s' = stack_leaves s.
Proof.
  intros Hs. destruct s as [|v s]; [by exists None, []|]. destruct Hs as (Hv & Hd & Hs). destruct (iter_descend_spec v s Hv Hd Hs) as (p & s' & E & P1 & P2 & P3 & P4). exists (Some p), s'. cbn [string_rope_iter_next]. split_and!; [done| |done|done]. split_and!; [done|lia|destruct P1; lia|done].
Qed.

Lemma iter_step_spec p pos it : string_ok p -> 0 <= pos <= len p -> stack_ok it ->
  exists p' pos' it', iter_step p pos it = Some (p', pos', it') /\ place_ok p' pos' it' /\ rest p' pos' it' = rest (Some p) pos it /\ (leaves_left p' it' + (if (len p <=? pos)%Z then 1 else 0) = leaves_left (Some p) it)%nat.
Proof.
  intros Hp Hpos Hit. unfold iter_step. destruct (Z.leb_spec (len p) pos) as [Hle|Hgt].
  - destruct (iter_next_spec it Hit) as (p' & s' & E & P1 & P2 & P3). rewrite E. exists p', 0, s'. cbn [mbind option_bind]. split_and!; [done|done| |cbn; lia]. rewrite P2. cbn [rest]. destruct Hp as (L & _). rewrite drop_ge by lia. done.
  - exists (Some p), pos, it. split_and!; (done || cbn; lia).
Qed.

Lemma units_spec p pos n : string_ok p -> 0 <= pos -> 0 <= n -> pos + n <= len p -> units p pos n = Some (take (Z.to_nat n) (drop (Z.to_nat pos) (chars p))).
Proof. intros (L & _) H1 H2 H3. unfold units. rewrite (proj2 (Z.leb_le 0 pos)), (proj2 (Z.leb_le 0 n)), (proj2 (Z.leb_le _ _)) by lia. done. Qed.

Lemma string_memcmp_spec p1 pos1 p2 pos2 n : string_ok p1 -> string_ok p2 -> 0 <= pos1 -> 0 <= pos2 -> 0 <= n -> pos1 + n <= len p1 -> pos2 + n <= len p2 ->
  js_string_memcmp p1 pos1 p2 pos2 n = Some (memcmp (take (Z.to_nat n) (drop (Z.to_nat pos1) (chars p1))) (take (Z.to_nat n) (drop (Z.to_nat pos2) (chars p2)))).
Proof. intros. unfold js_string_memcmp. rewrite !units_spec by done. cbn [mbind option_bind]. destruct (_ && _); [by rewrite memcmp_antisym|done]. Qed.

(** The next [n] units of a place inside a leaf. *)
Lemma rest_split p pos it n : string_ok p -> 0 <= pos -> 0 <= n -> pos + n <= len p -> rest (Some p) pos it = take (Z.to_nat n) (drop (Z.to_nat pos) (chars p)) ++ rest (Some p) (pos + n) it.
Proof. intros (L & _) H1 H2 H3. cbn [rest]. rewrite Z2Nat.inj_add by lia. rewrite <- drop_drop, app_assoc, take_drop. done. Qed.

Lemma rest_piece_length p pos n : string_ok p -> 0 <= pos -> 0 <= n -> pos + n <= len p -> length (take (Z.to_nat n) (drop (Z.to_nat pos) (chars p))) = Z.to_nat n.
Proof. intros (L & _) H1 H2 H3. rewrite length_take, length_drop. lia. Qed.

Lemma memcmp_take_app a b c d n : length a = length c -> (length a <= n)%nat ->
  memcmp (take n (a ++ b)) (take n (c ++ d)) = if memcmp a c =? 0 then memcmp (take (n - length a) b) (take (n - length a) d) else memcmp a c.
Proof. intros Hl Hn. rewrite !take_app, (take_ge a), (take_ge c), <- Hl by lia. by apply memcmp_app. Qed.

Lemma compare_loop_spec : forall fuel p1 pos1 it1 p2 pos2 it2 n, place_ok p1 pos1 it1 -> place_ok p2 pos2 it2 ->
  0 <= n -> n <= Z.of_nat (length (rest p1 pos1 it1)) -> n <= Z.of_nat (length (rest p2 pos2 it2)) -> (leaves_left p1 it1 + leaves_left p2 it2 < fuel)%nat ->
  let m := memcmp (take (Z.to_nat n) (rest p1 pos1 it1)) (take (Z.to_nat n) (rest p2 pos2 it2)) in
  compare_loop fuel p1 pos1 it1 p2 pos2 it2 n = Some (if m =? 0 then None else Some m).
Proof.
  induction fuel as [|fuel IH]; intros p1 pos1 it1 p2 pos2 it2 n H1 H2 Hn L1 L2 Hf; [lia|]. cbn [compare_loop]. destruct (Z.eqb_spec n 0) as [->|Hne]; [done|].
  destruct p1 as [p1|]; [|cbn in L1; lia]. destruct p2 as [p2|]; [|cbn in L2; lia]. cbn [mbind option_bind]. destruct H1 as (A1 & A2 & A3), H2 as (B1 & B2 & B3). set (l := ((len p1 - pos1) `min` (len p2 - pos2)) `min` n).
  rewrite string_memcmp_spec by (done || lia). cbn [mbind option_bind]. rewrite (rest_split p1 pos1 it1 l), (rest_split p2 pos2 it2 l) in * by (done || lia).
  pose proof (rest_piece_length p1 pos1 l A1 ltac:(lia) ltac:(lia) ltac:(lia)) as E1. pose proof (rest_piece_length p2 pos2 l B1 ltac:(lia) ltac:(lia) ltac:(lia)) as E2. set (u1 := take (Z.to_nat l) (drop (Z.to_nat pos1) (chars p1))) in *. set (u2 := take (Z.to_nat l) (drop (Z.to_nat pos2) (chars p2))) in *.
  cbv zeta. rewrite memcmp_take_app by lia. rewrite E1, <- Z2Nat.inj_sub by lia. rewrite length_app, E1 in L1. rewrite length_app, E2 in L2. destruct (memcmp u1 u2 =? 0) eqn:Em; cbn [negb]; [|by rewrite Em].
  destruct (iter_step_spec p1 (pos1 + l) it1 A1 ltac:(lia) A3) as (p1' & pos1' & it1' & S1 & S2 & S3 & S4). rewrite S1. cbn [mbind option_bind].
  destruct (iter_step_spec p2 (pos2 + l) it2 B1 ltac:(lia) B3) as (p2' & pos2' & it2' & T1 & T2 & T3 & T4). rewrite T1. cbn [mbind option_bind]. rewrite <- S3, <- T3 in *.
  destruct (Z.eq_dec (n - l) 0) as [E|Hl].
  - rewrite E. destruct fuel; [cbn in Hf; lia|]. done.
  - apply IH; try done; try lia. destruct (Z.leb_spec (len p1) (pos1 + l)), (Z.leb_spec (len p2) (pos2 + l)); lia.
Qed.

Lemma iter_start v : rope_ok v -> exists p s, string_rope_iter_next (string_rope_iter_init v) = Some (p, s) /\ place_ok p 0 s /\ rest p 0 s = text v /\ leaves_left p s = leaf_count v.
Proof.
  intros Hv. pose proof (rope_depth_range _ Hv). destruct (iter_next_spec [v]) as (p & s & E & P1 & P2 & P3); [cbn; split_and!; (done || lia)|]. exists p, s. cbn [stack_text stack_leaves] in *. rewrite app_nil_r in P2. split_and!; [done|done|done|lia].
Qed.

Lemma memcmp_take_min a b : memcmp (take (Z.to_nat (Z.of_nat (length a) `min` Z.of_nat (length b))) a) (take (Z.to_nat (Z.of_nat (length a) `min` Z.of_nat (length b))) b) = memcmp a b.
Proof. revert b. induction a as [|x a IH]; intros [|y b]; try done. cbn [length]. rewrite !Nat2Z.inj_succ, <- Z.succ_min_distr, Z2Nat.inj_succ by lia. cbn [take memcmp]. destruct (x =? y); [apply IH|done]. Qed.

Lemma rope_compare_spec op1 op2 eq_only : rope_ok op1 -> rope_ok op2 ->
  exists r, js_string_rope_compare op1 op2 eq_only = Some r /\ (if eq_only then (r = 0 <-> text op1 = text op2) else Z.sgn r = text_compare (text op1) (text op2)).
Proof.
  intros H1 H2. unfold js_string_rope_compare. pose proof (text_length op1 (rope_ok_built _ H1)) as E1. pose proof (text_length op2 (rope_ok_built _ H2)) as E2. rewrite E1, E2.
  destruct (eq_only && negb (Z.of_nat (length (text op1)) =? Z.of_nat (length (text op2)))) eqn:Eb; [destruct eq_only; [|done]; cbn in Eb; exists 1; split; [done|]; split; [done|]; intros Et; rewrite Et, Z.eqb_refl in Eb; done|].
  destruct (iter_start op1 H1) as (p1 & s1 & -> & A1 & A2 & A3). destruct (iter_start op2 H2) as (p2 & s2 & -> & B1 & B2 & B3). cbn [mbind option_bind].
  pose proof (compare_loop_spec (leaf_count op1 + leaf_count op2 + 1) p1 0 s1 p2 0 s2 (Z.of_nat (length (text op1)) `min` Z.of_nat (length (text op2))) A1 B1) as Hc. rewrite A2, B2, A3, B3 in Hc. cbv zeta in Hc. rewrite Hc by lia. cbn [mbind option_bind].
  rewrite memcmp_take_min. pose proof (text_compare_memcmp (text op1) (text op2)) as Ht. pose proof (text_compare_eq (text op1) (text op2)) as He. destruct (memcmp (text op1) (text op2) =? 0) eqn:E0.
  - rewrite <- Ht. exists (text_compare (text op1) (text op2)). split; [done|]. destruct eq_only; [done|]. rewrite Ht. repeat case_match; done.
  - exists (memcmp (text op1) (text op2)). split; [done|]. destruct eq_only; [|done]. rewrite <- He, Ht. lia.
Qed.

Lemma rope_get_spec v : forall i, rope_ok v -> 0 <= i < string_rope_get_len v -> string_rope_get v i = text v !! Z.to_nat i.
Proof.
  induction v as [p|n w d l IHl r IHr]; intros i Hv Hi; cbn [string_rope_get text] in *; [by rewrite (proj2 (Z.ltb_ge _ _)) by lia|].
  pose proof (rope_len _ Hv) as Hn. destruct Hv as ((-> & _) & _ & Hl & Hr). pose proof (rope_len _ Hl). pose proof (rope_len _ Hr). cbn [string_rope_get_len] in *. pose proof (text_length l (rope_ok_built _ Hl)) as El. destruct (Z.ltb_spec i (string_rope_get_len l)).
  - rewrite IHl by (done || lia). symmetry. apply lookup_app_l. lia.
  - replace (u32 (i - string_rope_get_len l)) with (i - string_rope_get_len l) by (unfold u32, JS_STRING_LEN_MAX in *; rewrite Z.mod_small; lia). rewrite IHr by (done || lia). rewrite lookup_app_r by lia. f_equal. lia.
Qed.

(** Two strings that are not ropes. *)
Lemma string_compare_spec p1 p2 : string_ok p1 -> string_ok p2 -> exists r, js_string_compare p1 p2 = Some r /\ Z.sgn r = text_compare (chars p1) (chars p2).
Proof.
  intros H1 H2. pose proof (rope_len (V_string p1) H1). pose proof (rope_len (V_string p2) H2). cbn [string_rope_get_len] in *. unfold js_string_compare. rewrite string_memcmp_spec by (done || lia). cbn [mbind option_bind]. rewrite !drop_0, (proj1 H1), (proj1 H2), memcmp_take_min.
  rewrite text_compare_memcmp. eexists. split; [reflexivity|]. repeat case_match; lia.
Qed.

Lemma string_eq_spec same p1 p2 : string_ok p1 -> string_ok p2 -> (same = true -> p1 = p2) -> js_string_eq same p1 p2 = Some (bool_decide (chars p1 = chars p2)).
Proof.
  intros H1 H2 Hs. pose proof (rope_len (V_string p1) H1). unfold js_string_eq. destruct (Z.eqb_spec (len p1) (len p2)) as [E|Hne]; cbn [negb]; [|rewrite bool_decide_eq_false_2; [done|]; intros Ec; apply Hne; by rewrite (proj1 H1), (proj1 H2), Ec].
  destruct same; [by rewrite bool_decide_eq_true_2 by (by rewrite Hs)|]. cbn [string_rope_get_len] in *. rewrite string_memcmp_spec by (done || lia). cbn [mbind option_bind]. f_equal. pose proof (text_compare_eq (chars p1) (chars p2)) as He. rewrite text_compare_memcmp in He. rewrite <- (proj1 H1), <- (proj1 H2), E, Z.eqb_refl in He.
  rewrite !drop_0, !take_ge by (destruct H1, H2; lia). destruct (Z.eqb_spec (memcmp (chars p1) (chars p2)) 0); symmetry; [apply bool_decide_eq_true_2; tauto|apply bool_decide_eq_false_2]. rewrite <- He. lia.
Qed.

(** [C37] Ropes are compared by their texts: for any two well-formed ropes
    [js_string_rope_compare] returns, without passing the end of a leaf or
    of the 60 entries of an iterator's stack, a number with the sign of the
    lexicographic comparison of the two texts, whatever the leaves they are
    cut into; the comparison for equality alone is zero exactly when the
    texts are the same; and [string_rope_get] is the unit of the text at
    that position.  Two strings are compared in the same way. *)
Theorem rope_comparison op1 op2 (H1 : rope_ok op1) (H2 : rope_ok op2) :
  (exists r, js_string_rope_compare op1 op2 false = Some r /\ Z.sgn r = text_compare (text op1) (text op2)) /\
  (exists r, js_string_rope_compare op1 op2 true = Some r /\ (r = 0 <-> text op1 = text op2)) /\
  (forall i, 0 <= i < string_rope_get_len op1 -> string_rope_get op1 i = text op1 !! Z.to_nat i) /\
  (forall p1 p2, op1 = V_string p1 -> op2 = V_string p2 -> (exists r, js_string_compare p1 p2 = Some r /\ Z.sgn r = text_compare (chars p1) (chars p2)) /\ forall same, (same = true -> p1 = p2) -> js_string_eq same p1 p2 = Some (bool_decide (chars p1 = chars p2))).
Proof.
  split_and!; [exact (rope_compare_spec op1 op2 false H1 H2)|exact (rope_compare_spec op1 op2 true H1 H2)|intros i Hi; by apply rope_get_spec|]. intros p1 p2 -> ->. split; [by apply string_compare_spec|]. intros same Hs. by apply string_eq_spec.
Qed.

(** Two ropes for "abcd", cut in different ways, one of them wide. *)
Definition rope_ab_cd : JSValue := V_rope 4 false 1 (V_string (mkString 2 false [97; 98])) (V_string (mkString 2 false [99; 100])).
Definition rope_a_bcd : JSValue := V_rope 4 true 2 (V_rope 1 false 1 (V_string (mkString 1 false [97])) (V_string (mkString 0 false []))) (V_string (mkString 3 true [98; 99; 100])).

Lemma rope_ab_cd_ok : rope_ok rope_ab_cd /\ rope_ok rope_a_bcd.
Proof. cbn. unfold rope_fields, string_ok, JS_STRING_LEN_MAX, JS_STRING_ROPE_MAX_DEPTH. cbn. split_and!; (done || lia || (repeat constructor; cbn; lia)). Qed.

Lemma rope_comparison_witness : rope_ok rope_ab_cd /\ rope_ok rope_a_bcd /\ js_string_rope_compare rope_ab_cd rope_a_bcd true = Some 0.
Proof.
  destruct rope_ab_cd_ok as [H1 H2]. split; [done|]. split; [done|]. destruct (rope_comparison _ _ H1 H2) as (_ & (r & -> & Hr) & _). f_equal. by apply Hr.
Defined.
