(* ===== verification/RopesUse.v ===== *)
(** * Concatenation of strings and ropes

    The text of a concatenation, its termination below [2178309] characters,
    and what happens beyond that length and when memory runs out. *)
From S2P Require Import Prelude Ropes RopesProps.

Notation granted := (fun _ : nat => true).

(** ** Rebalancing *)

Lemma rebalances_fuel fuel : rebalances (js_rebalancee_string_rope granted fuel).
Proof.
  induction fuel as [|fuel IH]; intros v t r t' Hv; [done|]. cbn [js_rebalancee_string_rope]. intros E.
  pose proof (rebalance_with_spec (js_rebalancee_string_rope granted fuel) IH JS_STRING_LEN_MAX ltac:(done) v t Hv) as H.
  rewrite E in H. apply H. destruct v as [p|n w d l r0]; [apply Hv|]. apply Hv.
Qed.

Lemma new_rope_fuel_spec fuel x y t : rope_ok x -> rope_ok y -> string_rope_get_len x + string_rope_get_len y <= JS_STRING_LEN_MAX ->
  match js_new_string_rope granted fuel x y t with
  | None => (0 < fuel)%nat -> ~ string_rope_get_len x + string_rope_get_len y < fib 30
  | Some (r, _) => exists v, r = Some v /\ rope_ok v /\ text v = text x ++ text y
  end.
Proof.
  intros Hx Hy Hl. pose proof (new_rope_spec _ (rebalances_fuel fuel) x y t Hx Hy Hl) as H. unfold js_new_string_rope in *.
  destruct (new_string_rope _ _ x y t) as [[[v|] t']|] eqn:E; [exists v; tauto|done|]. intros Hf Hs. destruct fuel as [|fuel]; [lia|].
  revert E. unfold new_string_rope. pose proof (rope_len _ Hx). pose proof (rope_len _ Hy). pose proof (rope_depth_range _ Hx). pose proof (rope_depth_range _ Hy). unfold JS_STRING_LEN_MAX, JS_STRING_ROPE_MAX_DEPTH in *.
  replace (u32 (string_rope_get_len x + string_rope_get_len y)) with (string_rope_get_len x + string_rope_get_len y) by (unfold u32; rewrite Z.mod_small; lia). replace (u8 (rope_depth x `max` rope_depth y + 1)) with (rope_depth x `max` rope_depth y + 1) by (unfold u8; rewrite Z.mod_small; lia).
  case_match; [done|]. case_match; [|done]. cbn [js_rebalancee_string_rope]. intros E.
  assert (Hb : rope_built (V_rope (string_rope_get_len x + string_rope_get_len y) (rope_wide x || rope_wide y) (rope_depth x `max` rope_depth y + 1) x y)) by (unfold rope_built, rope_fields; split_and!; first [done|by destruct (rope_wide x || rope_wide y)]).
  pose proof (rebalance_with_spec _ (rebalances_fuel fuel) (string_rope_get_len x + string_rope_get_len y) Hl _ (t + 1)%nat Hb ltac:(done)) as K. rewrite E in K. by apply K.
Qed.

Lemma new_rope_too_long mem fuel x y t : 0 <= string_rope_get_len x -> 0 <= string_rope_get_len y -> JS_STRING_LEN_MAX < string_rope_get_len x + string_rope_get_len y < 2 ^ 32 -> js_new_string_rope mem fuel x y t = Some (None, t).
Proof.
  intros Hx Hy Hl. unfold js_new_string_rope, new_string_rope. replace (u32 (string_rope_get_len x + string_rope_get_len y)) with (string_rope_get_len x + string_rope_get_len y) by (unfold u32; rewrite Z.mod_small; lia).
  by rewrite (proj2 (Z.ltb_lt _ _)) by lia.
Qed.

(** ** Concatenation *)

(** [q] is the string of [p1] and [p2]. *)
Definition joins (p1 p2 q : JSString) : Prop := len q = len p1 + len p2 /\ chars q = chars p1 ++ chars p2 /\ (len q <= JS_STRING_LEN_MAX -> string_ok q).

Lemma string_cat_joins p1 p2 : string_ok p1 -> string_ok p2 -> joins p1 p2 (mkString (len p1 + len p2) (is_wide_char p1 || is_wide_char p2) (chars p1 ++ chars p2)).
Proof.
  intros (A1 & A2 & A3) (B1 & B2 & B3). split_and!; [done|done|]. cbn. intros H. unfold string_ok. cbn. rewrite length_app. split_and!; [lia|done|]. apply Forall_app. split.
  - eapply Forall_impl; [exact A3|]. cbn. intros c. destruct (is_wide_char p1), (is_wide_char p2); cbn; lia.
  - eapply Forall_impl; [exact B3|]. cbn. intros c. destruct (is_wide_char p1), (is_wide_char p2); cbn; lia.
Qed.

Lemma text_nil_string p : string_ok p -> len p = 0 -> chars p = [].
Proof. intros (H & _) E. destruct (chars p); [done|]. cbn in H. lia. Qed.

(** In place or in a new block, the string is that of the two; only the
    second may be refused. *)
Lemma concat2_spec mem ref_count size1 p1 p2 t : string_ok p1 -> string_ok p2 ->
  match JS_ConcatString2 mem ref_count size1 p1 p2 t with
  | (Some v, _) => exists q, v = V_string q /\ joins p1 p2 q
  | (None, _) => JS_STRING_LEN_MAX < len p1 + len p2 \/ mem t = false
  end.
Proof.
  intros H1 H2. pose proof (string_cat_joins p1 p2 H1 H2) as Hj. unfold JS_ConcatString2, JS_ConcatStringInPlace, JS_ConcatString1 in *.
  destruct (Z.eqb_spec (len p2) 0) as [E|Hne]; [exists p1; split; [done|]; unfold joins; rewrite (text_nil_string p2), app_nil_r by done; split_and!; [lia|done|done]|].
  destruct (ref_count =? 1), (is_wide_char p1), (is_wide_char p2); cbn [negb orb] in *; repeat case_match; simplify_eq/=; try (eexists; split; [reflexivity|exact Hj]); first [by right|by left; lia].
Qed.

(** What a concatenation gives, when every allocation is granted. *)
Definition concat_result (fuel : nat) (op1 op2 : JSValue) (r : option (option JSValue * nat)) : Prop :=
  if JS_STRING_LEN_MAX <? string_rope_get_len op1 + string_rope_get_len op2 then exists t, r = Some (None, t)
  else
    match r with
    | None => (0 < fuel)%nat -> ~ string_rope_get_len op1 + string_rope_get_len op2 < fib 30
    | Some (r, _) => exists v, r = Some v /\ rope_ok v /\ text v = text op1 ++ text op2
    end.

Lemma concat_result_new fuel op1 op2 t : rope_ok op1 -> rope_ok op2 -> concat_result fuel op1 op2 (js_new_string_rope granted fuel op1 op2 t).
Proof.
  intros H1 H2. unfold concat_result. pose proof (rope_len _ H1). pose proof (rope_len _ H2). destruct (Z.ltb_spec JS_STRING_LEN_MAX (string_rope_get_len op1 + string_rope_get_len op2)) as [H3|H3].
  - exists t. unfold JS_STRING_LEN_MAX in *. apply new_rope_too_long; unfold JS_STRING_LEN_MAX; lia.
  - by apply new_rope_fuel_spec.
Qed.

(** The result for other operands with the same text is this result. *)
Lemma concat_result_text fuel op1 op2 op1' op2' r : string_rope_get_len op1' + string_rope_get_len op2' = string_rope_get_len op1 + string_rope_get_len op2 -> text op1' ++ text op2' = text op1 ++ text op2 ->
  concat_result fuel op1' op2' r -> concat_result fuel op1 op2 r.
Proof. unfold concat_result. by intros -> ->. Qed.

(** Two strings are joined first, and what is made of them comes next. *)
Lemma concat_result_leaf fuel op1 op2 p1 p2 ref_count size1 t K : string_ok p1 -> string_ok p2 -> len p1 + len p2 <= string_rope_get_len op1 + string_rope_get_len op2 ->
  (forall q t, joins p1 p2 q -> concat_result fuel op1 op2 (K (V_string q) t)) ->
  concat_result fuel op1 op2 match JS_ConcatString2 granted ref_count size1 p1 p2 t with (Some val, t) => K val t | (None, t) => Some (None, t) end.
Proof.
  intros H1 H2 Hl HK. pose proof (concat2_spec granted ref_count size1 p1 p2 t H1 H2) as H. destruct (JS_ConcatString2 _ _ _ _ _ _) as [[v|] t']; [destruct H as (q & -> & Hq); by apply HK|].
  destruct H as [H|H]; [|done]. unfold concat_result. rewrite (proj2 (Z.ltb_lt _ _)) by lia. by exists t'.
Qed.

Lemma concat_result_same fuel op1 op2 v t : rope_ok v -> text v = text op1 ++ text op2 -> string_rope_get_len op1 + string_rope_get_len op2 = string_rope_get_len v -> concat_result fuel op1 op2 (Some (Some v, t)).
Proof. intros H1 H2 H3. unfold concat_result. rewrite H3. pose proof (rope_len _ H1). rewrite (proj2 (Z.ltb_ge _ _)) by lia. by exists v. Qed.

(** A rope of other parts of the same text, which are ropes unless the text
    is too long. *)
Lemma concat_result_parts fuel op1 op2 x y t : 0 <= string_rope_get_len x -> 0 <= string_rope_get_len y -> string_rope_get_len x + string_rope_get_len y = string_rope_get_len op1 + string_rope_get_len op2 -> string_rope_get_len op1 + string_rope_get_len op2 < 2 ^ 32 ->
  text x ++ text y = text op1 ++ text op2 -> (string_rope_get_len x + string_rope_get_len y <= JS_STRING_LEN_MAX -> rope_ok x /\ rope_ok y) -> concat_result fuel op1 op2 (js_new_string_rope granted fuel x y t).
Proof.
  intros Hx Hy Hl Hw Ht Hok. destruct (Z.le_gt_cases (string_rope_get_len op1 + string_rope_get_len op2) JS_STRING_LEN_MAX) as [Hle|Hgt].
  - apply (concat_result_text fuel op1 op2 x y); [done|done|]. destruct Hok; [lia|]. by apply concat_result_new.
  - unfold concat_result. rewrite (proj2 (Z.ltb_lt _ _)) by lia. exists t. apply new_rope_too_long; lia.
Qed.

Lemma concat_empty_l fuel p1 op2 t : string_ok p1 -> rope_ok op2 -> len p1 = 0 -> concat_result fuel (V_string p1) op2 (Some (Some op2, t)).
Proof. intros H1 H2 E. apply concat_result_same; [done|cbn; by rewrite (text_nil_string p1)|cbn; lia]. Qed.

Lemma concat_empty_r fuel op1 p2 t : rope_ok op1 -> string_ok p2 -> len p2 = 0 -> concat_result fuel op1 (V_string p2) (Some (Some op1, t)).
Proof. intros H1 H2 E. apply concat_result_same; [done|cbn; by rewrite (text_nil_string p2), app_nil_r|cbn; lia]. Qed.

Lemma concat_spec fuel ref_count size1 op1 op2 t : rope_ok op1 -> rope_ok op2 -> concat_result fuel op1 op2 (JS_ConcatString granted fuel ref_count size1 op1 op2 t).
Proof.
  intros H1 H2. pose proof (rope_len _ H1) as L1. pose proof (rope_len _ H2) as L2. assert (Hw : string_rope_get_len op1 + string_rope_get_len op2 < 2 ^ 32) by (unfold JS_STRING_LEN_MAX in *; lia). pose proof (concat_result_new fuel op1 op2 t H1 H2) as Hnew.
  destruct op2 as [p2|n2 w2 d2 l2 r2]; cbn [JS_ConcatString].
  - destruct (Z.eqb_spec (len p2) 0) as [E|Hne]; [by apply concat_empty_r|]. cbn [string_rope_get_len] in L2, Hw.
    destruct (Z.leb_spec (len p2) JS_STRING_ROPE_SHORT_LEN) as [S2|]; [|done]. destruct op1 as [p1|n1 w1 d1 l1 r1]; cbn [string_rope_get_len] in L1, Hw.
    + destruct (Z.leb_spec (len p1) JS_STRING_ROPE_SHORT2_LEN) as [S1|]; [|done]. pose proof (concat2_spec granted ref_count size1 p1 p2 t H1 H2) as H. unfold JS_STRING_ROPE_SHORT_LEN, JS_STRING_ROPE_SHORT2_LEN in *. destruct (JS_ConcatString2 _ _ _ _ _ _) as [[v|] t'].
      * destruct H as (q & -> & J1 & J2 & J3). apply concat_result_same; [|done|done]. apply J3. unfold JS_STRING_LEN_MAX. lia.
      * destruct H as [H|H]; [|done]. unfold JS_STRING_LEN_MAX in H. lia.
    + destruct r1 as [p|]; [|done]. destruct (_ <=? _); [|done]. destruct H1 as ((-> & _) & _ & Hl1 & Hp). pose proof (rope_len _ Hl1). pose proof (rope_len _ Hp). cbn [string_rope_get_len] in *.
      apply concat_result_leaf; [done|done|cbn; lia|]. intros q t' (J1 & J2 & J3). apply concat_result_parts; cbn [string_rope_get_len text]; try lia; [by rewrite J2, app_assoc|]. intros Hq. split; [done|]. apply J3. lia.
  - destruct op1 as [p1|]; [|done]. destruct (Z.eqb_spec (len p1) 0) as [E|Hne]; [by apply concat_empty_l|]. destruct l2 as [p|]; [|done]. destruct (_ <=? _); [|done]. destruct H2 as ((-> & _) & _ & Hp & Hr2). pose proof (rope_len _ Hr2). pose proof (rope_len _ Hp). cbn [string_rope_get_len] in *.
    apply concat_result_leaf; [done|done|cbn; lia|]. intros q t' (J1 & J2 & J3). apply concat_result_parts; cbn [string_rope_get_len text]; try lia; [by rewrite J2, app_assoc|]. intros Hq. split; [|done]. apply J3. lia.
Qed.

(** [C34] Concatenation: when every allocation is granted, the concatenation
    of two well-formed ropes of together fewer than 2178309 characters
    returns, with at most one rebalancing, a well-formed rope of depth at most
    60 whose text is the first text followed by the second, whether the
    strings are joined in place, in a new block, or in a rope; a longer one,
    up to [JS_STRING_LEN_MAX], has that text if it returns; beyond that
    length it throws. *)
Theorem concatenation fuel ref_count size1 op1 op2 t (H1 : rope_ok op1) (H2 : rope_ok op2) :
  let n := string_rope_get_len op1 + string_rope_get_len op2 in
  let res := JS_ConcatString granted fuel ref_count size1 op1 op2 t in
  (n < 2178309 -> (0 < fuel)%nat -> exists v t', res = Some (Some v, t') /\ rope_ok v /\ rope_depth v <= JS_STRING_ROPE_MAX_DEPTH /\ text v = text op1 ++ text op2) /\
  (n <= JS_STRING_LEN_MAX -> forall r t', res = Some (r, t') -> exists v, r = Some v /\ rope_ok v /\ text v = text op1 ++ text op2) /\
  (JS_STRING_LEN_MAX < n -> exists t', res = Some (None, t')).
Proof.
  cbv zeta. pose proof (concat_spec fuel ref_count size1 op1 op2 t H1 H2) as H. unfold concat_result in H. split_and!.
  - intros Hn Hf. rewrite (proj2 (Z.ltb_ge _ _)) in H by (unfold JS_STRING_LEN_MAX; lia). destruct (JS_ConcatString _ _ _ _ _ _ _) as [[r t']|]; [|by destruct (H Hf)]. destruct H as (v & -> & Hv & Ht). exists v, t'. split_and!; [done|done|by apply rope_depth_range|done].
  - intros Hn r t' E. rewrite (proj2 (Z.ltb_ge _ _)), E in H by lia. done.
  - intros Hn. by rewrite (proj2 (Z.ltb_lt _ _)) in H by lia.
Qed.

(** ** Ropes made by concatenation *)

Inductive made : JSValue -> Prop :=
  | made_string p : string_ok p -> made (V_string p)
  | made_concat fuel ref_count size1 op1 op2 t v t' : made op1 -> made op2 -> JS_ConcatString granted fuel ref_count size1 op1 op2 t = Some (Some v, t') -> made v.

Lemma made_ok v : made v -> rope_ok v.
Proof.
  induction 1 as [p Hp|fuel rc size1 op1 op2 t v t' _ IH1 _ IH2 E]; [done|]. pose proof (concat_spec fuel rc size1 op1 op2 t IH1 IH2) as H. unfold concat_result in H. rewrite E in H. case_match; [by destruct H|]. destruct H as (v' & [= <-] & H & _). done.
Qed.

(** A program that makes strings and concatenates them. *)
Inductive script := Str (n : Z) | Cat (a b : script).

Section script.
(** The characters of a string of length [n] and one byte for each. *)
Context (ch : Z -> list Z).

Definition str (n : Z) : JSString := mkString n false (ch n).

Fixpoint run (e : script) : option JSValue :=
  match e with
  | Str n => Some (V_string (str n))
  | Cat a b =>
      x ← run a; y ← run b;
      '(r, _) ← JS_ConcatString granted 1 2 0 x y 0;
      r
  end.

Fixpoint sizes (e : script) : list Z := match e with Str n => [n] | Cat a b => sizes a ++ sizes b end.

Lemma run_made e v : (forall n, n ∈ sizes e -> string_ok (str n)) -> run e = Some v -> made v.
Proof.
  revert v. induction e as [n|a IHa b IHb]; intros v Hs; cbn [run sizes] in *; [intros [= <-]; apply made_string, Hs; set_solver|].
  destruct (run a) as [x|]; [|done]. destruct (run b) as [y|]; [|done]. cbn [mbind option_bind]. destruct (JS_ConcatString _ _ _ _ _ _ _) as [[r t]|] eqn:E; [|done]. cbn [mbind option_bind]. intros ->.
  eapply made_concat; [apply IHa; [set_solver|done]|apply IHb; [set_solver|done]|exact E].
Qed.

(** A rope whose leaves grow like the bucket sizes, with a single character
    between any two of them. *)
Definition small_part : script :=
  fold_left (fun v w => Cat (Str w) (Cat v (Str 1))) [377; 1; 233; 1; 144; 1; 89; 1; 55; 1; 34; 1; 21; 1; 13; 1; 8; 1; 5; 1; 3; 1; 2] (Cat (Str 1) (Str 610)).
Definition large_part : script :=
  Cat (fold_left (fun v w => Cat (Cat v (Str 1)) (Str w)) [1597; 2584; 4181; 6765; 10946; 17711; 28657; 46368; 75025; 121393; 196418; 317811; 514229; 832040; 1346269; 2178309; 3524578] (Cat (Str 1) (Str 987))) (Str 1).
(** A rope of depth 60. *)
Definition deep_part : script := Cat (Nat.iter 29 (fun v => Cat (Str 1) (Cat v (Str 1))) (Cat (Str 1) (Str 513))) (Str 1).

Definition run_or_empty (e : script) : JSValue := default empty_string (run e).

Definition runaway_left : JSValue := Eval vm_compute in run_or_empty (Cat small_part large_part).
Definition runaway_right : JSValue := Eval vm_compute in run_or_empty deep_part.

(** The rope that is too deep, and the one its rebalancing asks for. *)
Definition runaway_rope : JSValue := V_rope 9228089 false 61 runaway_left runaway_right.
Definition runaway_again : JSValue :=
  Eval vm_compute in match rebalance_with granted (fun v t => Some (Some v, t)) runaway_rope 0 with Some (Some v, _) => v | _ => empty_string end.

Lemma runaway_parts : run (Cat small_part large_part) = Some runaway_left /\ run deep_part = Some runaway_right.
Proof. split; vm_compute; reflexivity. Qed.

Lemma runaway_start fuel ref_count size1 t : JS_ConcatString granted fuel ref_count size1 runaway_left runaway_right t = js_rebalancee_string_rope granted fuel runaway_rope (t + 1)%nat.
Proof.
  unfold JS_ConcatString, runaway_left at 1, runaway_right at 1. cbv match. unfold js_new_string_rope. generalize (js_rebalancee_string_rope granted fuel) as reb. intros reb. vm_compute. reflexivity.
Qed.

Lemma runaway_first reb t : (forall t, reb runaway_again t = None) -> rebalance_with granted reb runaway_rope t = None.
Proof. intros H. vm_compute. vm_compute in H. rewrite H. reflexivity. Qed.

Lemma runaway_next reb t : (forall t, reb runaway_again t = None) -> rebalance_with granted reb runaway_again t = None.
Proof. intros H. vm_compute. vm_compute in H. rewrite H. reflexivity. Qed.
End script.

Definition letters (n : Z) : list Z := replicate (Z.to_nat n) 97.

Lemma letter_string_ok n : 0 <= n <= JS_STRING_LEN_MAX -> string_ok (str letters n).
Proof. intros H. unfold string_ok, str, letters. cbn [len chars is_wide_char]. rewrite length_replicate. split_and!; [lia|lia|]. apply Forall_replicate. lia. Qed.

Lemma letters_made e v : forallb (fun n => (0 <=? n) && (n <=? JS_STRING_LEN_MAX)) (sizes e) = true -> run letters e = Some v -> made v.
Proof. intros H. apply run_made. intros n Hn. apply letter_string_ok. rewrite forallb_forall in H. specialize (H n ltac:(by apply list_elem_of_In)). lia. Qed.

Lemma runaway_never fuel t : js_rebalancee_string_rope granted fuel (runaway_again letters) t = None.
Proof. revert t. induction fuel as [|fuel IH]; intros t; [done|]. cbn [js_rebalancee_string_rope]. by apply runaway_next. Qed.

Lemma runaway_concat fuel ref_count size1 t : JS_ConcatString granted fuel ref_count size1 (runaway_left letters) (runaway_right letters) t = None.
Proof.
  rewrite runaway_start. destruct fuel as [|fuel]; [done|]. cbn [js_rebalancee_string_rope]. apply runaway_first. intros t'. apply runaway_never.
Qed.

(** [C35] The depth bound is not kept up for ever: two ropes made by 140 or so
    concatenations of ordinary strings, of 9228089 characters together, and
    an allocator that grants everything, exist for which the concatenation
    returns for no bound on the nested calls.  The leaves fill all buckets
    with unbalanced ropes, the rope joined of them has depth 61 again, and
    rebalancing it does the same with the same rope: the C functions
    call one another until the stack is used up. *)
Theorem concatenation_may_not_return :
  exists op1 op2, made op1 /\ made op2 /\ string_rope_get_len op1 + string_rope_get_len op2 = 9228089 /\
    forall fuel ref_count size1 t, JS_ConcatString granted fuel ref_count size1 op1 op2 t = None.
Proof.
  exists (runaway_left letters), (runaway_right letters). destruct (runaway_parts letters) as [E1 E2]. split; [eapply letters_made; [|exact E1]; vm_compute; reflexivity|]. split; [eapply letters_made; [|exact E2]; vm_compute; reflexivity|].
  split; [reflexivity|]. intros. apply runaway_concat.
Qed.

(** ** Memory that runs out *)

Definition deep_rope : JSValue := run_or_empty letters deep_part.

(** The length of the text that comes back when the request [j] is refused. *)
Definition length_without (j : nat) : option Z :=
  match JS_ConcatString (fun k => negb (k =? j)%nat) 1 2 0 deep_rope (V_string (str letters 513)) 0 with
  | Some (Some v, _) => Some (Z.of_nat (length (text v)))
  | _ => None
  end.

Lemma length_without_short : forallb (fun j => match length_without j with Some n => n <? 573 + 513 | None => false end) (seq 1 59) = true.
Proof. vm_compute. reflexivity. Qed.

Lemma deep_rope_run : run letters deep_part = Some deep_rope /\ string_rope_get_len deep_rope = 573.
Proof. split; vm_compute; reflexivity. Qed.

(** ** Rebalancing when allocations are refused *)

Definition osize (o : option JSValue) : nat := match o with Some v => length (text v) | None => 0 end.
Definition bsize (bk : list (option JSValue)) : nat := sum_list_with osize bk.

Lemma bsize_insert i b o bk : bk !! i = Some b -> (bsize (<[i := o]> bk) + osize b = bsize bk + osize o)%nat.
Proof.
  unfold bsize. revert i. induction bk as [|c bk IH]; intros [|i] E; [done|done| |]; cbn in E.
  - simplify_eq. cbn [insert list_insert sum_list_with]. lia.
  - specialize (IH i E). change (<[S i := o]> (c :: bk)) with (c :: <[i := o]> bk). cbn [sum_list_with]. lia.
Qed.

Section loss.
Context (mem : nat -> bool) (reb : JSValue -> nat -> option (option JSValue * nat)).
(** A rebalancing adds nothing to the text. *)
Context (Hreb : forall v t r t', rope_built v -> reb v t = Some (Some r, t') -> rope_ok r /\ (length (text r) <= length (text v))%nat).

Definition oropeok (o : option JSValue) : Prop := match o with Some v => rope_ok v | None => True end.

Lemma new_rope_size x y t v t' : rope_ok x -> rope_ok y -> new_string_rope mem reb x y t = Some (Some v, t') ->
  rope_ok v /\ (length (text v) <= length (text x) + length (text y))%nat.
Proof.
  intros Hx Hy. pose proof (rope_len _ Hx). pose proof (rope_len _ Hy). pose proof (rope_depth_range _ Hx). pose proof (rope_depth_range _ Hy).
  unfold new_string_rope, JS_STRING_LEN_MAX, JS_STRING_ROPE_MAX_DEPTH in *.
  replace (u32 (string_rope_get_len x + string_rope_get_len y)) with (string_rope_get_len x + string_rope_get_len y) by (unfold u32; rewrite Z.mod_small; lia).
  replace (u8 (rope_depth x `max` rope_depth y + 1)) with (rope_depth x `max` rope_depth y + 1) by (unfold u8; rewrite Z.mod_small; lia).
  destruct (Z.ltb_spec (2 ^ 30 - 1) (string_rope_get_len x + string_rope_get_len y)); [done|]. destruct (mem t); [|done].
  assert (Hf : rope_fields (string_rope_get_len x + string_rope_get_len y) (rope_wide x || rope_wide y) (rope_depth x `max` rope_depth y + 1) x y)
    by (unfold rope_fields, JS_STRING_LEN_MAX; split_and!; [done|lia|by destruct (rope_wide x || rope_wide y)|lia]).
  destruct (Z.ltb_spec 60 (rope_depth x `max` rope_depth y + 1)).
  - intros E. apply Hreb in E as [E1 E2]; [|done]. cbn [text] in E2. rewrite length_app in E2. done.
  - intros [= <- <-]. split; [cbn [rope_ok]; unfold JS_STRING_ROPE_MAX_DEPTH; done|]. cbn [text]. rewrite length_app. lia.
Qed.

Lemma collect_size fuel : forall bk n i a t bk' i' r t', Forall oropeok bk -> oropeok a ->
  collect mem reb fuel bk n i a t = Some (bk', i', r, t') ->
  Forall oropeok bk' /\ (match r with Some a' => oropeok a' | None => True end) /\ (bsize bk' + from_option osize 0 r <= bsize bk + osize a)%nat.
Proof.
  induction fuel as [|fuel IH]; intros bk n i a t bk' i' r t' Hbk Ha E; [done|]. cbn [collect] in E.
  destruct (rope_bucket_len !! _) as [f|]; [|done]. cbn [mbind option_bind] in E.
  destruct (f <=? n); [|simplify_eq; by split_and!]. destruct (bk !! i) as [b|] eqn:Eb; [|done]. cbn [mbind option_bind] in E.
  pose proof (Forall_lookup_1 _ _ _ _ Hbk Eb) as Hb. destruct b as [b|]; [|exact (IH _ _ _ _ _ _ _ _ _ Hbk Ha E)].
  pose proof (bsize_insert i (Some b) None bk Eb) as Hi. cbn [osize] in Hi.
  assert (Hbk' : Forall oropeok (<[i := None]> bk)) by (by apply Forall_insert).
  destruct a as [a|]; [|destruct (IH _ _ _ _ _ _ _ _ _ Hbk' Hb E) as (I1 & I2 & I3); cbn [osize] in *; split_and!; [done|done|lia]].
  destruct (new_string_rope mem reb b a t) as [[[v|] t1]|] eqn:En; cbn [mbind option_bind] in E; [|simplify_eq; split_and!; [done|done|cbn; lia]|done].
  apply new_rope_size in En as [N1 N2]; [|done|done].
  destruct (IH _ _ _ _ _ _ _ _ _ Hbk' (N1 : oropeok (Some v)) E) as (I1 & I2 & I3). cbn [osize] in *. split_and!; [done|done|lia].
Qed.

Lemma carry_size fuel : forall bk i a t bk' ok t', Forall oropeok bk -> rope_ok a ->
  carry mem reb fuel bk i a t = Some (bk', ok, t') ->
  Forall oropeok bk' /\ (bsize bk' <= bsize bk + if ok then length (text a) else 0)%nat.
Proof.
  induction fuel as [|fuel IH]; intros bk i a t bk' ok t' Hbk Ha E; [done|]. cbn [carry] in E.
  destruct (bk !! i) as [b|] eqn:Eb; [|done]. cbn [mbind option_bind] in E.
  pose proof (Forall_lookup_1 _ _ _ _ Hbk Eb) as Hb.
  destruct b as [b|]; [|simplify_eq; pose proof (bsize_insert i None (Some a) bk Eb); cbn [osize] in *; split; [by apply Forall_insert|lia]].
  pose proof (bsize_insert i (Some b) None bk Eb) as Hi. cbn [osize] in Hi.
  assert (Hbk' : Forall oropeok (<[i := None]> bk)) by (by apply Forall_insert).
  destruct (new_string_rope mem reb b a t) as [[[v|] t1]|] eqn:En; cbn [mbind option_bind] in E; [|simplify_eq; split; [done|lia]|done].
  apply new_rope_size in En as [N1 N2]; [|done|done]. destruct (IH _ _ _ _ _ _ _ Hbk' N1 E) as [I1 I2]. split; [done|]. destruct ok; lia.
Qed.

(** A leaf whose insertion fails is lost. *)
Lemma insert_leaf_size bk p t bk' ok t' : Forall oropeok bk -> string_ok p -> insert_leaf mem reb bk p t = Some (bk', ok, t') ->
  Forall oropeok bk' /\ (bsize bk' <= bsize bk + length (chars p))%nat /\ (ok = false -> (bsize bk' < bsize bk + length (chars p))%nat).
Proof.
  intros Hbk Hp E. unfold insert_leaf in E. destruct (Z.eqb_spec (len p) 0) as [|Hne]; [simplify_eq; split_and!; [done|lia|done]|].
  assert (Hpos : (0 < length (chars p))%nat) by (destruct Hp as (Hl & _); lia).
  destruct (collect _ _ _ _ _ _ _ _) as [[[[bk1 i] r] t1]|] eqn:Ec; [|done]. cbn [mbind option_bind] in E.
  apply collect_size in Ec as (C1 & C2 & C3); [|done|done]. cbn [osize] in C3.
  destruct r as [[a|]|]; cbn [from_option osize] in C3; [| |simplify_eq; split_and!; [done|lia|lia]].
  - destruct (new_string_rope mem reb a _ t1) as [[[v|] t2]|] eqn:En; cbn [mbind option_bind] in E; [|simplify_eq; split_and!; [done|lia|lia]|done].
    apply new_rope_size in En as [N1 N2]; [|done|done]. cbn [text] in N2. destruct (carry_size _ _ _ _ _ _ _ _ C1 N1 E) as [I1 I2].
    split; [done|]. destruct ok; split; [lia|done|lia|lia].
  - destruct (carry_size _ _ _ (V_string p) _ _ _ _ C1 Hp E) as [I1 I2]. cbn [text] in I2. split; [done|]. destruct ok; split; [lia|done|lia|lia].
Qed.

(** Whether the insertion of some leaf fails. *)
Fixpoint leaf_refused (bk : list (option JSValue)) (v : JSValue) (t : nat) : bool :=
  match v with
  | V_string p => match insert_leaf mem reb bk p t with Some (_, ok, _) => negb ok | None => false end
  | V_rope _ _ _ l r =>
      leaf_refused bk l t ||
      match js_rebalancee_string_rope_rec mem reb bk l t with Some (bk, _, t) => leaf_refused bk r t | None => false end
  end.

Lemma rec_size v : forall bk t bk' ok t', Forall oropeok bk -> rope_ok v -> js_rebalancee_string_rope_rec mem reb bk v t = Some (bk', ok, t') ->
  Forall oropeok bk' /\ (bsize bk' <= bsize bk + length (text v))%nat /\ (leaf_refused bk v t = true -> (bsize bk' < bsize bk + length (text v))%nat).
Proof.
  induction v as [p|n w d l IHl r IHr]; intros bk t bk' ok t' Hbk Hv E.
  - destruct (insert_leaf_size _ _ _ _ _ _ Hbk Hv E) as (I1 & I2 & I3). split_and!; [done|done|]. cbn [leaf_refused]. cbn [js_rebalancee_string_rope_rec] in E. rewrite E. intros H%negb_true_iff. by apply I3.
  - destruct Hv as (_ & _ & Hl & Hr). cbn [js_rebalancee_string_rope_rec leaf_refused text] in E |- *. rewrite length_app.
    destruct (js_rebalancee_string_rope_rec _ _ bk l t) as [[[bk1 ?] t1]|] eqn:E1; [|done]. cbn [mbind option_bind] in E.
    destruct (js_rebalancee_string_rope_rec _ _ bk1 r t1) as [[[bk2 ?] t2]|] eqn:E2; [|done]. simplify_eq/=.
    destruct (IHl _ _ _ _ _ Hbk Hl E1) as (L1 & L2 & L3). destruct (IHr _ _ _ _ _ L1 Hr E2) as (R1 & R2 & R3).
    split_and!; [done|lia|]. intros [H|H]%orb_true_iff; [specialize (L3 H)|specialize (R3 H)]; lia.
Qed.

Lemma join_size bk : forall a t r t', Forall oropeok bk -> oropeok a -> join_buckets mem reb bk a t = Some (Some r, t') ->
  oropeok r /\ (osize r <= bsize bk + osize a)%nat.
Proof.
  induction bk as [|b bk IH]; intros a t r t' Hbk Ha E; cbn [join_buckets] in E; [simplify_eq; cbn; split; [done|lia]|].
  apply Forall_cons in Hbk as [Hb Hbk]. unfold bsize in *. cbn [sum_list_with].
  destruct b as [b|]; [|destruct (IH _ _ _ _ Hbk Ha E); split; [done|cbn [osize]; lia]].
  destruct a as [a|]; [|destruct (IH _ _ _ _ Hbk Hb E); split; [done|cbn [osize] in *; lia]].
  destruct (new_string_rope mem reb b a t) as [[[v|] t1]|] eqn:En; cbn [mbind option_bind] in E; [|by simplify_eq|done].
  apply new_rope_size in En as [N1 N2]; [|done|done]. destruct (IH _ _ _ _ Hbk (N1 : oropeok (Some v)) E) as [I1 I2]. split; [done|]. cbn [osize] in *. lia.
Qed.

Lemma rebalance_size v t r t' : rope_built v -> rebalance_with mem reb v t = Some (Some r, t') ->
  rope_ok r /\ (length (text r) <= length (text v))%nat /\ (leaf_refused (replicate ROPE_N_BUCKETS None) v t = true -> (length (text r) < length (text v))%nat).
Proof.
  intros Hv E. unfold rebalance_with in E. set (bk0 := replicate ROPE_N_BUCKETS None) in *.
  assert (H0 : Forall oropeok bk0) by (by apply Forall_replicate). assert (S0 : bsize bk0 = 0%nat) by reflexivity.
  destruct (js_rebalancee_string_rope_rec _ _ bk0 v t) as [[[bk ok] t1]|] eqn:Er; [|done]. cbn [mbind option_bind] in E.
  assert (Hrec : Forall oropeok bk /\ (bsize bk <= length (text v))%nat /\ (leaf_refused bk0 v t = true -> (bsize bk < length (text v))%nat)).
  { destruct v as [p|n w d x y].
    - destruct (rec_size (V_string p) bk0 t bk ok t1 H0 Hv Er) as (I1 & I2 & I3). rewrite S0 in *. done.
    - destruct Hv as (_ & Hx & Hy). cbn [js_rebalancee_string_rope_rec leaf_refused text] in Er |- *. rewrite length_app.
      destruct (js_rebalancee_string_rope_rec _ _ bk0 x t) as [[[bk1 ?] t2]|] eqn:E1; [|done]. cbn [mbind option_bind] in Er.
      destruct (js_rebalancee_string_rope_rec _ _ bk1 y t2) as [[[bk2 ?] t3]|] eqn:E2; [|done]. injection Er as <- <- <-.
      destruct (rec_size _ _ _ _ _ _ H0 Hx E1) as (L1 & L2 & L3). destruct (rec_size _ _ _ _ _ _ L1 Hy E2) as (R1 & R2 & R3).
      split_and!; [done|lia|]. intros [H|H]%orb_true_iff; [specialize (L3 H)|specialize (R3 H)]; lia. }
  destruct Hrec as (Hbk & Hle & Hlt). destruct ok; [|done].
  destruct (join_buckets _ _ bk None t1) as [[[a|] t2]|] eqn:Ej; cbn [mbind option_bind] in E; [|done|done].
  destruct (join_size bk None t1 a t2 Hbk I Ej) as [J1 J2]. cbn [osize] in J2.
  destruct a as [a|]; simplify_eq; cbn [osize] in J2.
  - split_and!; [done|lia|]. intros H. specialize (Hlt H). lia.
  - split_and!; [cbn; unfold string_ok, JS_STRING_LEN_MAX; cbn; split_and!; [done|lia|constructor]|cbn; lia|]. intros H. specialize (Hlt H). cbn. lia.
Qed.
End loss.

Lemma rebalance_fuel_size mem fuel : forall v t r t', rope_built v -> js_rebalancee_string_rope mem fuel v t = Some (Some r, t') ->
  rope_ok r /\ (length (text r) <= length (text v))%nat.
Proof.
  induction fuel as [|fuel IH]; intros v t r t' Hv E; [done|].
  destruct (rebalance_size mem _ IH v t r t' Hv E) as (H1 & H2 & _). done.
Qed.

(** [C36] An allocation refused while a rope is rebalanced loses text, and is
    not reported.  Whatever allocations are refused: when the insertion of a
    leaf into the buckets fails, the value the rebalancing returns, if it
    returns one, has lost part of the text, since the results of the two
    recursive calls are not looked at; it returns an exception only when an
    allocation is refused later, in the loop that joins the buckets.  This
    happens: there are a rope and a string of 513 characters for which,
    whichever of the 59 requests after the first is the one refused, the
    concatenation returns a value that has lost part of the text. *)
Theorem rebalancing_loses_text :
  (forall mem fuel n w d l r t, rope_built (V_rope n w d l r) ->
    leaf_refused mem (js_rebalancee_string_rope mem fuel) (replicate ROPE_N_BUCKETS None) (V_rope n w d l r) t = true ->
    forall res t', js_rebalancee_string_rope mem (S fuel) (V_rope n w d l r) t = Some (res, t') ->
    match res with
    | Some v => (length (text v) < length (text (V_rope n w d l r)))%nat
    | None => exists bk t1, js_rebalancee_string_rope_rec mem (js_rebalancee_string_rope mem fuel) (replicate ROPE_N_BUCKETS None) (V_rope n w d l r) t = Some (bk, true, t1) /\
        join_buckets mem (js_rebalancee_string_rope mem fuel) bk None t1 = Some (None, t')
    end) /\
  exists op1 op2, made op1 /\ made op2 /\
    forall j, (1 <= j < 60)%nat -> exists v t, JS_ConcatString (fun k => negb (k =? j)%nat) 1 2 0 op1 op2 0 = Some (Some v, t) /\ (length (text v) < length (text op1 ++ text op2))%nat.
Proof.
  split.
  { intros mem fuel n w d l r t Hv Hd res t' E. destruct res as [v|].
    - exact (proj2 (proj2 (rebalance_size mem _ (rebalance_fuel_size mem fuel) _ t v t' Hv E)) Hd).
    - cbn [js_rebalancee_string_rope] in E. unfold rebalance_with in E. cbn [js_rebalancee_string_rope_rec] in E |- *.
      destruct (js_rebalancee_string_rope_rec _ _ _ l t) as [[[bk1 ?] t1]|]; [|done]. cbn [mbind option_bind] in E |- *.
      destruct (js_rebalancee_string_rope_rec _ _ bk1 r t1) as [[[bk2 ?] t2]|]; [|done]. cbn [mbind option_bind] in E |- *.
      exists bk2, t2. split; [done|]. destruct (join_buckets _ _ bk2 None t2) as [[[[a|]|] t3]|]; simplify_eq/=; done. }
  destruct deep_rope_run as [E L]. assert (Hm : made deep_rope) by (eapply letters_made; [|exact E]; vm_compute; reflexivity). assert (Hs : string_ok (str letters 513)) by (apply letter_string_ok; unfold JS_STRING_LEN_MAX; lia).
  exists deep_rope, (V_string (str letters 513)). split; [done|]. split; [by apply made_string|]. intros j Hj. pose proof length_without_short as H. rewrite forallb_forall in H. specialize (H j ltac:(apply in_seq; lia)). unfold length_without in H.
  destruct (JS_ConcatString _ _ _ _ _ _ _) as [[[v|] t]|]; [|done|done]. exists v, t. split; [done|]. rewrite length_app. pose proof (text_length deep_rope (rope_ok_built _ (made_ok _ Hm))) as L1. pose proof (text_length (V_string (str letters 513)) Hs) as L2. cbn [string_rope_get_len text] in L2 |- *. cbn [str len] in L2. lia.
Qed.

(** The rope of depth 60 and a long string, by a rebalancing. *)
Lemma concatenation_witness : exists v t, JS_ConcatString granted 1 2 0 deep_rope (V_string (str letters 513)) 0 = Some (Some v, t) /\ rope_depth v <= 60 /\ Z.of_nat (length (text v)) = 573 + 513.
Proof.
  assert (H1 : rope_ok deep_rope) by (apply made_ok; eapply letters_made; [|exact (proj1 deep_rope_run)]; vm_compute; reflexivity). assert (H2 : rope_ok (V_string (str letters 513))) by (apply letter_string_ok; unfold JS_STRING_LEN_MAX; lia).
  destruct (concatenation 1 2 0 deep_rope (V_string (str letters 513)) 0 H1 H2) as [Hc _]. destruct Hc as (v & t & E & Hv & Hd & Ht); [vm_compute; reflexivity|lia|].
  exists v, t. split; [exact E|]. split; [exact Hd|]. rewrite Ht, length_app. vm_compute. reflexivity.
Defined.
