(* ===== verification/RopesFlat.v ===== *)
(** * Flat ropes (src/runtime/class.inc.c)

    A rope with the empty string on its right is taken for one that has been
    made flat, and its left side for a string.  Concatenation makes no other
    rope of that shape. *)
From S2P Require Import Prelude Ropes RopesProps RopesUse.

Definition is_string (v : JSValue) : bool := match v with V_string _ => true | V_rope _ _ _ _ _ => false end.

(** The test of [js_linearize_string_rope] on the right side. *)
Definition is_empty_string (v : JSValue) : bool := match v with V_string p => len p =? 0 | V_rope _ _ _ _ _ => false end.

(** A flat rope has a string on its left and nothing on its right. *)
Definition is_flat (v : JSValue) : bool :=
  match v with V_rope _ _ _ l r => is_string l && is_empty_string r | V_string _ => false end.

(** In the whole of a rope, nothing on the right means a string on the left. *)
Fixpoint flat_left (v : JSValue) : Prop :=
  match v with
  | V_string _ => True
  | V_rope _ _ _ l r => (is_empty_string r = true -> is_string l = true) /\ flat_left l /\ flat_left r
  end.

(** ** Rebalancing makes no such rope *)

(** What the buckets hold. *)
Definition part (v : JSValue) : Prop := rope_ok v /\ text v <> [] /\ flat_left v.
Definition opart (o : option JSValue) : Prop := match o with Some v => part v | None => True end.

Lemma part_not_empty v : part v -> is_empty_string v = false.
Proof.
  intros (Hv & Ht & _). destruct v as [p|]; [|done]. cbn in *. destruct Hv as (Hl & _).
  destruct (Z.eqb_spec (len p) 0); [|done]. destruct (chars p); [done|]. cbn in Hl. lia.
Qed.

Lemma part_string p : string_ok p -> len p <> 0 -> part (V_string p).
Proof. intros Hp Hl. split; [done|]. split; [|done]. cbn. intros E. destruct Hp as (Hn & _). rewrite E in Hn. cbn in Hn. lia. Qed.

Section flat.
Context (reb : JSValue -> nat -> option (option JSValue * nat)).
Context (Hreb : rebalances reb).
Context (Hflat : forall v t r t', rope_built v -> reb v t = Some (Some r, t') -> flat_left r).

Notation nr := (new_string_rope granted reb).

(** A rope of two sides, rebalanced or not. *)
Lemma new_rope_flat x y t v t' : rope_ok x -> rope_ok y -> flat_left x -> flat_left y ->
  (is_empty_string y = true -> is_string x = true) -> nr x y t = Some (Some v, t') ->
  rope_ok v /\ text v = text x ++ text y /\ flat_left v.
Proof.
  intros Hx Hy Fx Fy Hxy E. pose proof (rope_len _ Hx) as Lx. pose proof (rope_len _ Hy) as Ly.
  assert (Hl : string_rope_get_len x + string_rope_get_len y <= JS_STRING_LEN_MAX).
  { unfold new_string_rope in E. rewrite u32_small in E by (unfold JS_STRING_LEN_MAX in *; lia).
    destruct (Z.ltb_spec JS_STRING_LEN_MAX (string_rope_get_len x + string_rope_get_len y)); [done|lia]. }
  pose proof (new_rope_spec reb Hreb x y t Hx Hy Hl) as Hs. rewrite E in Hs. destruct Hs as (S1 & S2 & _).
  split; [done|]. split; [done|]. unfold new_string_rope in E. destruct (_ <? _); [done|].
  pose proof (rope_depth_range _ Hx). pose proof (rope_depth_range _ Hy).
  rewrite u32_small in E by (unfold JS_STRING_LEN_MAX in *; lia).
  unfold u8 in E. rewrite Z.mod_small in E by (unfold JS_STRING_ROPE_MAX_DEPTH in *; lia).
  destruct (_ <? _); [|by simplify_eq].
  eapply Hflat; [|exact E]. cbn. split; [|done].
  unfold rope_fields. split_and!; [done|lia|by destruct (rope_wide x || rope_wide y)|lia].
Qed.

Lemma new_rope_part x y t v t' : part x -> part y -> nr x y t = Some (Some v, t') -> part v.
Proof.
  intros Px Py E. pose proof (part_not_empty y Py) as Hy. destruct Px as (Hx & Tx & Fx). destruct Py as (Hy' & Ty & Fy).
  destruct (new_rope_flat x y t v t') as (S1 & S2 & S3); try done; [congruence|].
  split; [done|]. split; [|done]. rewrite S2. intros [? _]%app_nil. done.
Qed.

Lemma insert_part i o bk : Forall opart bk -> opart o -> Forall opart (<[i := o]> bk).
Proof. intros H Ho. by apply Forall_insert. Qed.

Lemma collect_part fuel : forall bk n i a t bk' i' r t', Forall opart bk -> opart a ->
  collect granted reb fuel bk n i a t = Some (bk', i', r, t') ->
  Forall opart bk' /\ match r with Some a' => opart a' | None => True end.
Proof.
  induction fuel as [|fuel IH]; intros bk n i a t bk' i' r t' Hbk Ha E; [done|]. cbn [collect] in E.
  destruct (rope_bucket_len !! _) as [f|]; [|done]. cbn [mbind option_bind] in E.
  destruct (f <=? n); [|by simplify_eq]. destruct (bk !! i) as [b|] eqn:Eb; [|done]. cbn [mbind option_bind] in E.
  pose proof (Forall_lookup_1 _ _ _ _ Hbk Eb) as Hb. destruct b as [b|]; [|by eapply (IH _ _ _ _ _ _ _ _ _ Hbk Ha E)].
  pose proof (insert_part i None bk Hbk I) as Hbk'. destruct a as [a|]; [|by eapply (IH _ _ _ _ _ _ _ _ _ Hbk' Hb E)].
  destruct (nr b a t) as [[[v|] t1]|] eqn:En; cbn [mbind option_bind] in E; [|by simplify_eq|done].
  eapply IH; [exact Hbk'| |exact E]. exact (new_rope_part _ _ _ _ _ Hb Ha En).
Qed.

Lemma carry_part fuel : forall bk i a t bk' ok t', Forall opart bk -> part a ->
  carry granted reb fuel bk i a t = Some (bk', ok, t') -> Forall opart bk'.
Proof.
  induction fuel as [|fuel IH]; intros bk i a t bk' ok t' Hbk Ha E; [done|]. cbn [carry] in E.
  destruct (bk !! i) as [b|] eqn:Eb; [|done]. cbn [mbind option_bind] in E.
  pose proof (Forall_lookup_1 _ _ _ _ Hbk Eb) as Hb.
  destruct b as [b|]; [|simplify_eq; by apply insert_part].
  pose proof (insert_part i None bk Hbk I) as Hbk'.
  destruct (nr b a t) as [[[v|] t1]|] eqn:En; cbn [mbind option_bind] in E; [|by simplify_eq|done].
  eapply IH; [exact Hbk'| |exact E]. exact (new_rope_part _ _ _ _ _ Hb Ha En).
Qed.

Lemma insert_leaf_part bk p t bk' ok t' : Forall opart bk -> string_ok p ->
  insert_leaf granted reb bk p t = Some (bk', ok, t') -> Forall opart bk'.
Proof.
  intros Hbk Hp E. unfold insert_leaf in E. destruct (Z.eqb_spec (len p) 0) as [|Hne]; [by simplify_eq|].
  pose proof (part_string p Hp Hne) as Pp.
  destruct (collect _ _ _ _ _ _ _ _) as [[[[bk1 i] r] t1]|] eqn:Ec; [|done]. cbn [mbind option_bind] in E.
  apply collect_part in Ec as [C1 C2]; [|done|done].
  destruct r as [[a|]|]; [|exact (carry_part _ _ _ _ _ _ _ _ C1 Pp E)|by simplify_eq].
  destruct (nr a _ t1) as [[[v|] t2]|] eqn:En; cbn [mbind option_bind] in E; [|by simplify_eq|done].
  eapply carry_part; [exact C1| |exact E]. exact (new_rope_part _ _ _ _ _ C2 Pp En).
Qed.

Lemma rec_part v : forall bk t bk' ok t', Forall opart bk -> rope_ok v ->
  js_rebalancee_string_rope_rec granted reb bk v t = Some (bk', ok, t') -> Forall opart bk'.
Proof.
  induction v as [p|n w d l IHl r IHr]; intros bk t bk' ok t' Hbk Hv E; [by eapply insert_leaf_part; eauto|].
  destruct Hv as (_ & _ & Hl & Hr). cbn [js_rebalancee_string_rope_rec] in E.
  destruct (js_rebalancee_string_rope_rec _ _ bk l t) as [[[bk1 ?] t1]|] eqn:E1; [|done]. cbn [mbind option_bind] in E.
  destruct (js_rebalancee_string_rope_rec _ _ bk1 r t1) as [[[bk2 ?] t2]|] eqn:E2; [|done]. simplify_eq/=.
  eapply IHr; [|exact Hr|exact E2]. exact (IHl _ _ _ _ _ Hbk Hl E1).
Qed.

Lemma join_part bk : forall a t r t', Forall opart bk -> opart a ->
  join_buckets granted reb bk a t = Some (Some r, t') -> opart r.
Proof.
  induction bk as [|b bk IH]; intros a t r t' Hbk Ha E; cbn [join_buckets] in E; [by simplify_eq|].
  apply Forall_cons in Hbk as [Hb Hbk]. destruct b as [b|]; [|exact (IH _ _ _ _ Hbk Ha E)]. destruct a as [a|]; [|exact (IH _ _ _ _ Hbk Hb E)].
  destruct (nr b a t) as [[[v|] t1]|] eqn:En; cbn [mbind option_bind] in E; [|by simplify_eq|done].
  eapply IH; [exact Hbk| |exact E]. exact (new_rope_part _ _ _ _ _ Hb Ha En).
Qed.

Lemma rebalance_with_flat v t r t' : rope_built v ->
  rebalance_with granted reb v t = Some (Some r, t') -> flat_left r.
Proof.
  intros Hv E. unfold rebalance_with in E.
  destruct (js_rebalancee_string_rope_rec _ _ _ v t) as [[[bk ok] t1]|] eqn:Er; [|done]. cbn [mbind option_bind] in E.
  assert (Hbk : Forall opart bk).
  { assert (H0 : Forall opart (replicate ROPE_N_BUCKETS None)) by (by apply Forall_replicate).
    destruct v as [p|n w d x y]; [by eapply insert_leaf_part; eauto|].
    destruct Hv as (_ & Hx & Hy). cbn [js_rebalancee_string_rope_rec] in Er.
    destruct (js_rebalancee_string_rope_rec _ _ _ x t) as [[[bk1 ?] t2]|] eqn:E1; [|done]. cbn [mbind option_bind] in Er.
    destruct (js_rebalancee_string_rope_rec _ _ bk1 y t2) as [[[bk2 ?] t3]|] eqn:E2; [|done]. simplify_eq/=.
    eapply rec_part; [|exact Hy|exact E2]. exact (rec_part _ _ _ _ _ _ H0 Hx E1). }
  destruct ok; [|by simplify_eq].
  destruct (join_buckets _ _ bk None t1) as [[[a|] t2]|] eqn:Ej; cbn [mbind option_bind] in E; [|by simplify_eq|done].
  apply join_part in Ej; [|done|done]. destruct a as [a|]; simplify_eq; [apply Ej|done].
Qed.
End flat.

Lemma rebalance_flat fuel : forall v t r t', rope_built v ->
  js_rebalancee_string_rope granted fuel v t = Some (Some r, t') -> flat_left r.
Proof.
  induction fuel as [|fuel IH]; intros v t r t' Hv E; [done|].
  by apply (rebalance_with_flat _ (rebalances_fuel fuel) IH v t r t').
Qed.

(** ** Nor does concatenation *)

Lemma concat_flat fuel ref_count size1 op1 op2 t v t' :
  rope_ok op1 -> rope_ok op2 -> flat_left op1 -> flat_left op2 ->
  JS_ConcatString granted fuel ref_count size1 op1 op2 t = Some (Some v, t') -> flat_left v.
Proof.
  intros H1 H2 F1 F2.
  assert (Hnew : forall x y t, rope_ok x -> rope_ok y -> flat_left x -> flat_left y ->
    (is_empty_string y = true -> is_string x = true) ->
    js_new_string_rope granted fuel x y t = Some (Some v, t') -> flat_left v).
  { intros x y t0 Hx Hy Fx Fy Hxy E. by apply (new_rope_flat _ (rebalances_fuel fuel) (rebalance_flat fuel) x y t0 v t'). }
  assert (Hcat : forall p1 p2 rc t0 q t1, string_ok p1 -> string_ok p2 -> JS_ConcatString2 granted rc size1 p1 p2 t0 = (Some q, t1) ->
    exists s, q = V_string s /\ joins p1 p2 s).
  { intros p1 p2 rc t0 q t1 Hp1 Hp2 E. pose proof (concat2_spec granted rc size1 p1 p2 t0 Hp1 Hp2) as H. by rewrite E in H. }
  assert (Hlong : forall x y t0, JS_STRING_LEN_MAX < string_rope_get_len x + string_rope_get_len y < 2 ^ 32 ->
    0 <= string_rope_get_len x -> 0 <= string_rope_get_len y -> js_new_string_rope granted fuel x y t0 <> Some (Some v, t')).
  { intros x y t0 Hl Hx Hy. by rewrite new_rope_too_long. }
  destruct op2 as [p2|n2 w2 d2 l2 r2]; cbn [JS_ConcatString].
  - destruct (Z.eqb_spec (len p2) 0) as [E0|Hne]; [by intros [= <- _]|].
    assert (Hp2 : is_empty_string (V_string p2) = false) by (cbn; by apply Z.eqb_neq).
    assert (Hdirect : forall t, js_new_string_rope granted fuel op1 (V_string p2) t = Some (Some v, t') -> flat_left v)
      by (intros t0; apply Hnew; try done; congruence).
    destruct (len p2 <=? _); [|apply Hdirect]. destruct op1 as [p1|n1 w1 d1 l1 [p|]]; [| |apply Hdirect].
    + destruct (len p1 <=? _); [|apply Hdirect]. destruct (JS_ConcatString2 _ _ _ _ _ _) as [[q|] t1] eqn:E; [|done].
      destruct (Hcat _ _ _ _ _ _ H1 H2 E) as (s & -> & _). by intros [= <- _].
    + destruct (len p <=? _); [|apply Hdirect]. destruct H1 as ((Hn & Hm & _) & _ & Hl1 & Hp). destruct F1 as (_ & F1 & _).
      destruct (JS_ConcatString2 _ _ _ _ _ _) as [[q|] t1] eqn:E; [|done].
      destruct (Hcat _ _ _ _ _ _ Hp H2 E) as (s & -> & J1 & J2 & J3).
      pose proof (rope_len _ Hl1) as L1. pose proof (rope_len _ Hp) as Lp. pose proof (rope_len _ H2) as L2. cbn [string_rope_get_len] in *.
      destruct (Z.le_gt_cases (string_rope_get_len l1 + len s) JS_STRING_LEN_MAX) as [Hle|Hgt].
      * apply Hnew; try done; [apply J3; lia|]. cbn. intros Hs%Z.eqb_eq. lia.
      * intros Hr. exfalso. eapply Hlong; [| | |exact Hr]; cbn [string_rope_get_len]; unfold JS_STRING_LEN_MAX in *; lia.
  - assert (Hdirect : forall t, js_new_string_rope granted fuel op1 (V_rope n2 w2 d2 l2 r2) t = Some (Some v, t') -> flat_left v)
      by (intros t0; by apply Hnew).
    destruct op1 as [p1|]; [|apply Hdirect]. destruct (Z.eqb_spec (len p1) 0) as [E0|Hne]; [by intros [= <- _]|].
    destruct l2 as [p|]; [|apply Hdirect]. destruct (len p <=? _); [|apply Hdirect].
    destruct H2 as ((Hn & Hm & _) & _ & Hp & Hr2). destruct F2 as (_ & _ & F2).
    destruct (JS_ConcatString2 _ _ _ _ _ _) as [[q|] t1] eqn:E; [|done].
    destruct (Hcat _ _ _ _ _ _ H1 Hp E) as (s & -> & J1 & J2 & J3).
    pose proof (rope_len _ Hr2) as L1. pose proof (rope_len _ Hp) as Lp. pose proof (rope_len _ H1) as L2. cbn [string_rope_get_len] in *.
    destruct (Z.le_gt_cases (len s + string_rope_get_len r2) JS_STRING_LEN_MAX) as [Hle|Hgt].
    + apply Hnew; try done. apply J3. lia.
    + intros Hr. exfalso. eapply Hlong; [| | |exact Hr]; cbn [string_rope_get_len]; unfold JS_STRING_LEN_MAX in *; lia.
Qed.

(** Every rope that concatenations have made, all allocations granted. *)
Lemma made_flat v : made v -> flat_left v.
Proof.
  induction 1 as [p Hp|fuel rc size1 op1 op2 t v t' M1 IH1 M2 IH2 E]; [done|].
  by apply (concat_flat fuel rc size1 op1 op2 t v t' (made_ok _ M1) (made_ok _ M2)).
Qed.
