(* ===== verification/Strings.v ===== *)
(** * String buffers and UTF-8 (src/runtime/class.inc.c, src/cutils.c)

    A string is built in a [StringBuffer]: a block of memory that is
    reallocated as it grows and changed from one to two bytes per unit when a
    wide character arrives.  Blocks are lists of bytes (without the header of
    the string), so that the change of width happens byte by byte as in the
    code.  [None] is an access outside of a block or of the input. *)
From S2P Require Import Prelude Ropes.

(** ** Blocks *)

(** [str->u.str8[i] = c] and [str->u.str16[i] = c]. *)
Definition put8 (i c : Z) (B : list Z) : option (list Z) :=
  if (0 <=? i) && (i <? Z.of_nat (length B)) then Some (<[Z.to_nat i := u8 c]> B) else None.

Definition put16 (i c : Z) (B : list Z) : option (list Z) :=
  if (0 <=? i) && (2 * i + 1 <? Z.of_nat (length B)) then
    Some (<[Z.to_nat (2 * i + 1) := u8 (Z.shiftr c 8)]> (<[Z.to_nat (2 * i) := u8 c]> B))
  else None.

Definition put (wide : bool) (i c : Z) (B : list Z) : option (list Z) := if wide then put16 i c B else put8 i c B.

(** A loop of such stores. *)
Fixpoint put_all (wide : bool) (i : Z) (l : list Z) (B : list Z) : option (list Z) :=
  match l with
  | [] => Some B
  | c :: l => B ← put wide i c B; put_all wide (i + 1) l B
  end.

(** The units of a block. *)
Fixpoint decode16 (n : nat) (B : list Z) : list Z :=
  match n, B with
  | S n, lo :: hi :: B => (lo + 256 * hi) :: decode16 n B
  | _, _ => []
  end.

Definition decode (wide : bool) (n : Z) (B : list Z) : list Z := if wide then decode16 (Z.to_nat n) B else take (Z.to_nat n) B.

Section alloc.
(** The allocator answers the [t]-th request by [mem t], with the block
    [blocks t n] for [n] bytes, the header included. *)
Context (mem : nat -> bool) (blocks : nat -> Z -> list Z).

Definition js_malloc (n : Z) (t : nat) : option (list Z) := if mem t then Some (blocks t n) else None.

(** The contents move into the new block. *)
Definition js_realloc (B : list Z) (n : Z) (t : nat) : option (list Z) :=
  if mem t then let F := blocks t n in Some (take (length F) B ++ drop (length B) F) else None.

Definition js_alloc_string (max_len : Z) (wide : bool) (t : nat) : option (list Z) :=
  js_malloc (u64 (sizeof_JSString + sint 32 (Z.shiftl max_len (Z.b2z wide)) + 1 - Z.b2z wide)) t.

(** ** String buffers *)

Record StringBuffer := mkBuffer { sb_str : option (list Z); sb_len : Z; sb_size : Z; sb_wide : bool; error_status : bool }.

Notation result := (option (bool * StringBuffer * nat)).

Definition string_buffer_init2 (size : Z) (wide : bool) (t : nat) : bool * StringBuffer * nat :=
  match js_alloc_string size wide t with
  | None => (false, mkBuffer None 0 0 wide true, (t + 1)%nat)
  | Some B => (true, mkBuffer (Some B) 0 size wide false, (t + 1)%nat)
  end.

Definition string_buffer_init (size : Z) (t : nat) : bool * StringBuffer * nat := string_buffer_init2 size false t.

Definition string_buffer_set_error (s : StringBuffer) : StringBuffer := mkBuffer None 0 0 (sb_wide s) true.

(** [for(i = s->len; i-- > 0;) str->u.str16[i] = str->u.str8[i]] *)
Fixpoint widen_loop (n : nat) (B : list Z) : option (list Z) :=
  match n with
  | O => Some B
  | S n => c ← B !! n; B ← put16 (Z.of_nat n) c B; widen_loop n B
  end.

(** The bytes of a block behind the ones asked for. *)
Definition slack (n : Z) (B : list Z) : Z := if n <? sizeof_JSString + Z.of_nat (length B) then sizeof_JSString + Z.of_nat (length B) - n else 0.

Definition string_buffer_widen (s : StringBuffer) (size : Z) (t : nat) : result :=
  if error_status s then Some (false, s, t)
  else
    B ← sb_str s;
    let n := u64 (sizeof_JSString + sint 32 (Z.shiftl size 1)) in
    match js_realloc B n t with
    | None => Some (false, string_buffer_set_error s, (t + 1)%nat)
    | Some B =>
        let size := sint 32 (size + Z.shiftr (slack n B) 1) in
        B ← widen_loop (Z.to_nat (sb_len s)) B;
        Some (true, mkBuffer (Some B) (sb_len s) size true false, (t + 1)%nat)
    end.

Definition string_buffer_realloc (s : StringBuffer) (new_len c : Z) (t : nat) : result :=
  if error_status s then Some (false, s, t)
  else if JS_STRING_LEN_MAX <? new_len then Some (false, string_buffer_set_error s, t)
  else
    let new_size := (new_len `max` Z.quot (sint 32 (sb_size s * 3)) 2) `min` JS_STRING_LEN_MAX in
    if negb (sb_wide s) && (0x100 <=? c) then string_buffer_widen s new_size t
    else
      B ← sb_str s;
      let w := Z.b2z (sb_wide s) in
      let n := u64 (sizeof_JSString + sint 32 (Z.shiftl new_size w) + 1 - w) in
      match js_realloc B n t with
      | None => Some (false, string_buffer_set_error s, (t + 1)%nat)
      | Some B =>
          let size := sint 32 (new_size + Z.shiftr (slack n B) w) `min` JS_STRING_LEN_MAX in
          Some (true, mkBuffer (Some B) (sb_len s) size (sb_wide s) false, (t + 1)%nat)
      end.

(** [s->str->u.str8[s->len++] = c] or [s->str->u.str16[s->len++] = c]. *)
Definition put_unit (s : StringBuffer) (c : Z) : option StringBuffer :=
  B ← sb_str s; B ← put (sb_wide s) (sb_len s) c B;
  Some (mkBuffer (Some B) (sb_len s + 1) (sb_size s) (sb_wide s) (error_status s)).

(** [if (unlikely(s->len >= s->size))] *)
Definition reserve_unit (s : StringBuffer) (c : Z) (t : nat) : result :=
  if sb_size s <=? sb_len s then string_buffer_realloc s (sb_len s + 1) c t else Some (true, s, t).

Definition string_buffer_putc16_slow (s : StringBuffer) (c : Z) (t : nat) : result :=
  '(ok, s, t) ← reserve_unit s c t;
  if ok : bool then
    if sb_wide s || (c <? 0x100) then s ← put_unit s c; Some (true, s, t)
    else
      '(ok, s, t) ← string_buffer_widen s (sb_size s) t;
      if ok : bool then s ← put_unit s c; Some (true, s, t) else Some (false, s, t)
  else Some (false, s, t).

Definition string_buffer_putc8 (s : StringBuffer) (c : Z) (t : nat) : result :=
  '(ok, s, t) ← reserve_unit s c t;
  if ok : bool then s ← put_unit s c; Some (true, s, t) else Some (false, s, t).

Definition string_buffer_putc16 (s : StringBuffer) (c : Z) (t : nat) : result :=
  if (sb_len s <? sb_size s) && (sb_wide s || (c <? 0x100)) then s ← put_unit s c; Some (true, s, t)
  else string_buffer_putc16_slow s c t.

Definition get_hi_surrogate (c : Z) : Z := u32 (Z.shiftr c 10 - Z.shiftr 0x10000 10 + 0xD800).
Definition get_lo_surrogate (c : Z) : Z := Z.lor (Z.land c 0x3FF) 0xDC00.
Definition from_surrogate (hi lo : Z) : Z := u32 (0x10000 + 0x400 * (hi - 0xD800) + (lo - 0xDC00)).
Definition is_hi_surrogate (c : Z) : bool := Z.shiftr c 10 =? Z.shiftr 0xD800 10.
Definition is_lo_surrogate (c : Z) : bool := Z.shiftr c 10 =? Z.shiftr 0xDC00 10.

Definition string_buffer_putc_slow (s : StringBuffer) (c : Z) (t : nat) : result :=
  if 0x10000 <=? c then
    '(ok, s, t) ← string_buffer_putc16 s (get_hi_surrogate c) t;
    if ok : bool then string_buffer_putc16 s (get_lo_surrogate c) t else Some (false, s, t)
  else string_buffer_putc16 s c t.

Definition string_buffer_putc (s : StringBuffer) (c : Z) (t : nat) : result :=
  if (sb_len s <? sb_size s) && sb_wide s && (c <? 0x10000) then s ← put_unit s c; Some (true, s, t)
  else if (sb_len s <? sb_size s) && sb_wide s && (sb_len s + 1 <? sb_size s) then
    s ← put_unit s (get_hi_surrogate c); s ← put_unit s (get_lo_surrogate c); Some (true, s, t)
  else if (sb_len s <? sb_size s) && negb (sb_wide s) && (c <? 0x100) then s ← put_unit s c; Some (true, s, t)
  else string_buffer_putc_slow s c t.

(** The units [l], which follow those of the buffer. *)
Definition put_units (s : StringBuffer) (l : list Z) : option StringBuffer :=
  let n := Z.of_nat (length l) in
  if n =? 0 then Some s
  else
    B ← sb_str s; B ← put_all (sb_wide s) (sb_len s) l B;
    Some (mkBuffer (Some B) (sb_len s + n) (sb_size s) (sb_wide s) (error_status s)).

Definition string_buffer_write8 (s : StringBuffer) (p : list Z) (t : nat) : result :=
  let n := Z.of_nat (length p) in
  '(ok, s, t) ← (if sb_size s <? sb_len s + n then string_buffer_realloc s (sb_len s + n) 0 t else Some (true, s, t));
  if ok : bool then s ← put_units s p; Some (true, s, t) else Some (false, s, t).

Definition string_buffer_write16 (s : StringBuffer) (p : list Z) (t : nat) : result :=
  let n := Z.of_nat (length p) in
  let c := foldl Z.lor 0 p in
  '(ok, s, t) ←
    (if sb_size s <? sb_len s + n then string_buffer_realloc s (sb_len s + n) c t
     else if negb (sb_wide s) && (0x100 <=? c) then string_buffer_widen s (sb_size s) t
     else Some (true, s, t));
  if ok : bool then s ← put_units s p; Some (true, s, t) else Some (false, s, t).

Definition string_buffer_concat (s : StringBuffer) (p : JSString) (from to : Z) (t : nat) : result :=
  if to <=? from then Some (true, s, t)
  else
    l ← units p from (to - from);
    if is_wide_char p then string_buffer_write16 s l t else string_buffer_write8 s l t.

(** A string or a rope. *)
Fixpoint string_buffer_concat_value (s : StringBuffer) (v : JSValue) (t : nat) : result :=
  if error_status s then Some (false, s, t)
  else
    match v with
    | V_rope _ _ _ l r =>
        '(ok, s, t) ← string_buffer_concat_value s l t;
        if ok : bool then string_buffer_concat_value s r t else Some (false, s, t)
    | V_string p => string_buffer_concat s p 0 (len p) t
    end.

(** [while (count-- > 0)] *)
Fixpoint fill_loop (count : nat) (s : StringBuffer) (c : Z) (t : nat) : result :=
  match count with
  | O => Some (true, s, t)
  | S count =>
      '(ok, s, t) ← string_buffer_putc16 s c t;
      if ok : bool then fill_loop count s c t else Some (false, s, t)
  end.

Definition string_buffer_fill (s : StringBuffer) (c count : Z) (t : nat) : result :=
  '(ok, s, t) ← (if sb_size s <? sb_len s + count then string_buffer_realloc s (sb_len s + count) c t else Some (true, s, t));
  if ok : bool then fill_loop (Z.to_nat count) s c t else Some (false, s, t).

Definition string_buffer_end (s : StringBuffer) (t : nat) : option (option JSValue * nat) :=
  if error_status s then Some (None, t)
  else if sb_len s =? 0 then Some (Some empty_string, t)
  else
    B ← sb_str s;
    let w := Z.b2z (sb_wide s) in
    let '(B, t) :=
      if sb_len s <? sb_size s then
        (default B (js_realloc B (u64 (sizeof_JSString + sint 32 (Z.shiftl (sb_len s) w) + 1 - w)) t), (t + 1)%nat)
      else (B, t) in
    B ← (if sb_wide s then Some B else put8 (sb_len s) 0 B);
    Some (Some (V_string (mkString (sb_len s) (sb_wide s) (decode (sb_wide s) (sb_len s) B))), t).

(** 'rope' must be a rope: its string, and the rope when it stays in use
    ([ref_count > 1]). *)
Definition js_linearize_string_rope (rope : JSValue) (ref_count : Z) (t : nat) : option (option JSValue * JSValue * nat) :=
  match rope with
  | V_string _ => None
  | V_rope n w d l r =>
      if (match r with V_string p => len p =? 0 | V_rope _ _ _ _ _ => false end) then Some (Some l, rope, t)
      else
        let '(ok, b, t) := string_buffer_init2 n w t in
        if ok : bool then
          '(ok, b, t) ← string_buffer_concat_value b rope t;
          if ok : bool then
            '(ret, t) ← string_buffer_end b t;
            match ret with
            | Some v => Some (ret, if 1 <? ref_count then V_rope n w d v empty_string else rope, t)
            | None => Some (None, rope, t)
            end
          else Some (None, rope, t)
        else Some (None, rope, t)
  end.

(** ** New strings *)

Definition js_new_string8_len (buf : list Z) (t : nat) : option (option JSValue * nat) :=
  let n := Z.of_nat (length buf) in
  if n <=? 0 then Some (Some empty_string, t)
  else
    match js_alloc_string n false t with
    | None => Some (None, (t + 1)%nat)
    | Some B => B ← put_all false 0 (buf ++ [0]) B; Some (Some (V_string (mkString n false (decode false n B))), (t + 1)%nat)
    end.

Definition js_new_string16_len (buf : list Z) (t : nat) : option (option JSValue * nat) :=
  let n := Z.of_nat (length buf) in
  match js_alloc_string n true t with
  | None => Some (None, (t + 1)%nat)
  | Some B => B ← put_all true 0 buf B; Some (Some (V_string (mkString n true (decode true n B))), (t + 1)%nat)
  end.

Definition js_sub_string (p : JSString) (start end_ : Z) (t : nat) : option (option JSValue * nat) :=
  let n := end_ - start in
  if (start =? 0) && (end_ =? len p) then Some (Some (V_string p), t)
  else if n <=? 0 then Some (Some empty_string, t)
  else
    l ← units p start n;
    if is_wide_char p && (0xFF <? foldl Z.lor 0 l) then js_new_string16_len l t else js_new_string8_len l t.

(** A C string, a string and a C string. *)
Definition JS_ConcatString3 (str1 : list Z) (p : JSString) (str3 : list Z) (t : nat) : option (option JSValue * nat) :=
  let '(ok, b, t) := string_buffer_init2 (Z.of_nat (length str1) + len p + Z.of_nat (length str3)) (is_wide_char p) t in
  if ok : bool then
    '(_, b, t) ← string_buffer_write8 b str1 t;
    '(_, b, t) ← string_buffer_concat b p 0 (len p) t;
    '(_, b, t) ← string_buffer_write8 b str3 t;
    string_buffer_end b t
  else Some (None, t).

(** ** UTF-8 *)

Definition unicode_to_utf8 (c : Z) : list Z :=
  if c <? 0x80 then [u8 c]
  else
    (if c <? 0x800 then [u8 (Z.lor (Z.shiftr c 6) 0xc0)]
     else
       (if c <? 0x10000 then [u8 (Z.lor (Z.shiftr c 12) 0xe0)]
        else
          (if c <? 0x00200000 then [u8 (Z.lor (Z.shiftr c 18) 0xf0)]
           else
             (if c <? 0x04000000 then [u8 (Z.lor (Z.shiftr c 24) 0xf8)]
              else [u8 (Z.lor (Z.shiftr c 30) 0xfc); u8 (Z.lor (Z.land (Z.shiftr c 24) 0x3f) 0x80)])
             ++ [u8 (Z.lor (Z.land (Z.shiftr c 18) 0x3f) 0x80)])
          ++ [u8 (Z.lor (Z.land (Z.shiftr c 12) 0x3f) 0x80)])
       ++ [u8 (Z.lor (Z.land (Z.shiftr c 6) 0x3f) 0x80)])
    ++ [u8 (Z.lor (Z.land c 0x3f) 0x80)].

Definition utf8_min_code : list Z := [0x80; 0x800; 0x10000; 0x00200000; 0x04000000].
Definition utf8_first_code_mask : list Z := [0x1f; 0xf; 0x7; 0x3; 0x1].

(** The bytes that follow the first one. *)
Definition utf8_follow (c : Z) : option nat :=
  if (0xc0 <=? c) && (c <=? 0xdf) then Some 1%nat
  else if (0xe0 <=? c) && (c <=? 0xef) then Some 2%nat
  else if (0xf0 <=? c) && (c <=? 0xf7) then Some 3%nat
  else if (0xf8 <=? c) && (c <=? 0xfb) then Some 4%nat
  else if (0xfc <=? c) && (c <=? 0xfd) then Some 5%nat
  else None.

(** [for(i = 0; i < l; i++)]; [Some None] is the error. *)
Fixpoint follow_loop (l : nat) (c : Z) (p : list Z) : option (option (Z * list Z)) :=
  match l with
  | O => Some (Some (c, p))
  | S l =>
      match p with
      | [] => None
      | b :: p => if (b <? 0x80) || (0xc0 <=? b) then Some None else follow_loop l (Z.lor (Z.shiftl c 6) (Z.land b 0x3f)) p
      end
  end.

(** The code and the bytes behind it, or the error -1. *)
Definition unicode_from_utf8 (p : list Z) (max_len : Z) : option (option (Z * list Z)) :=
  match p with
  | [] => None
  | c :: p =>
      if c <? 0x80 then Some (Some (c, p))
      else
        match utf8_follow c with
        | None => Some None
        | Some l =>
            if max_len - 1 <? Z.of_nat l then Some None
            else
              mask ← utf8_first_code_mask !! (l - 1)%nat;
              r ← follow_loop l (Z.land c mask) p;
              match r with
              | None => Some None
              | Some (c, p) => m ← utf8_min_code !! (l - 1)%nat; Some (if c <? m then None else Some (c, p))
              end
        end
  end.

Fixpoint count_ascii (p : list Z) : nat :=
  match p with
  | [] => 0
  | c :: p => if c <? 128 then S (count_ascii p) else 0
  end.

(** [while (p < p_end && ( *p >= 0x80 && *p < 0xc0)) p++] *)
Fixpoint skip_follow (p : list Z) : list Z :=
  match p with
  | [] => []
  | c :: p' => if (0x80 <=? c) && (c <? 0xc0) then skip_follow p' else p
  end.

Definition skip_invalid (p : list Z) : list Z :=
  match skip_follow p with
  | [] => []
  | _ :: p => skip_follow p
  end.

(** [while (p < p_end)]; what the buffer functions return is not looked at,
    the buffer keeps the error. *)
Fixpoint new_string_loop (fuel : nat) (b : StringBuffer) (p : list Z) (t : nat) : option (StringBuffer * nat) :=
  match fuel with
  | O => None
  | S fuel =>
      match p with
      | [] => Some (b, t)
      | c :: p' =>
          if c <? 128 then
            '(_, b, t) ← string_buffer_putc8 b c t; new_string_loop fuel b p' t
          else
            r ← unicode_from_utf8 p (sint 32 (Z.of_nat (length p)));
            match r with
            | Some (c, p_next) =>
                if c <? 0x10000 then
                  '(_, b, t) ← string_buffer_putc16 b c t; new_string_loop fuel b p_next t
                else if c <=? 0x10FFFF then
                  '(_, b, t) ← string_buffer_putc16 b (get_hi_surrogate c) t;
                  '(_, b, t) ← string_buffer_putc16 b (get_lo_surrogate c) t; new_string_loop fuel b p_next t
                else
                  '(_, b, t) ← string_buffer_putc16 b 0xfffd t; new_string_loop fuel b (skip_invalid p) t
            | None =>
                '(_, b, t) ← string_buffer_putc16 b 0xfffd t; new_string_loop fuel b (skip_invalid p) t
            end
      end
  end.

Definition JS_NewStringLen (buf : list Z) (t : nat) : option (option JSValue * nat) :=
  let len1 := count_ascii buf in
  if JS_STRING_LEN_MAX <? Z.of_nat len1 then Some (None, t)
  else if (len1 =? length buf)%nat then js_new_string8_len buf t
  else
    let '(ok, b, t) := string_buffer_init (sint 32 (Z.of_nat (length buf))) t in
    if ok : bool then
      '(_, b, t) ← string_buffer_write8 b (take len1 buf) t;
      '(b, t) ← new_string_loop (length buf + 1) b (drop len1 buf) t;
      string_buffer_end b t
    else Some (None, t).

(** The bytes are stored one after the other from [q] on. *)
Definition emit (q : Z) (B l : list Z) : option (Z * list Z) := B ← put_all false q l B; Some (q + Z.of_nat (length l), B).

(** One byte per unit. *)
Fixpoint cstring8_loop (src : list Z) (q : Z) (B : list Z) : option (Z * list Z) :=
  match src with
  | [] => Some (q, B)
  | c :: src =>
      '(q, B) ← emit q B (if c <? 0x80 then [c] else [Z.lor (Z.shiftr c 6) 0xc0; Z.lor (Z.land c 0x3f) 0x80]);
      cstring8_loop src q B
  end.

(** Two bytes per unit; a pair of surrogates is one character unless
    [cesu8]. *)
Fixpoint cstring16_loop (cesu8 : bool) (src : list Z) (q : Z) (B : list Z) : option (Z * list Z) :=
  match src with
  | [] => Some (q, B)
  | c :: src =>
      if c <? 0x80 then '(q, B) ← emit q B [c]; cstring16_loop cesu8 src q B
      else
        match src with
        | c1 :: src' =>
            if is_hi_surrogate c && negb cesu8 && is_lo_surrogate c1 then
              '(q, B) ← emit q B (unicode_to_utf8 (from_surrogate c c1)); cstring16_loop cesu8 src' q B
            else '(q, B) ← emit q B (unicode_to_utf8 c); cstring16_loop cesu8 src q B
        | [] => '(q, B) ← emit q B (unicode_to_utf8 c); cstring16_loop cesu8 src q B
        end
  end.

(** The bytes before the final zero. *)
Definition JS_ToCStringLen2 (str : JSString) (cesu8 : bool) (t : nat) : option (option (list Z) * nat) :=
  let finish '(q, B) := B ← put8 q 0 B; Some (Some (decode false q B), (t + 1)%nat) in
  if negb (is_wide_char str) then
    let count := foldr (fun c n => Z.shiftr c 7 + n) 0 (chars str) in
    if count =? 0 then Some (Some (chars str), t)
    else
      match js_alloc_string (len str + count) false t with
      | None => Some (None, (t + 1)%nat)
      | Some B => qB ← cstring8_loop (chars str) 0 B; finish qB
      end
  else
    match js_alloc_string (sint 32 (len str * 3)) false t with
    | None => Some (None, (t + 1)%nat)
    | Some B => qB ← cstring16_loop cesu8 (chars str) 0 B; finish qB
    end.
End alloc.
