(* ===== verification/StringsProps.v ===== *)
(** * String buffers: the text in the block

    A block holds the units of the text, one or two bytes each, at its
    beginning.  Every append keeps it so, inside the block; a buffer that
    could not grow keeps its error. *)
From S2P Require Import Prelude Ropes RopesProps RopesCompare Strings.

(** ** Units and bytes *)

Definition unit_ok (wide : bool) (c : Z) : Prop := 0 <= c < (if wide then 2 ^ 16 else 2 ^ 8).

Definition unit_bytes (wide : bool) : nat := if wide then 2 else 1.

Fixpoint enc16 (l : list Z) : list Z := match l with [] => [] | c :: l => c mod 256 :: c / 256 :: enc16 l end.

Definition enc (wide : bool) (l : list Z) : list Z := if wide then enc16 l else l.

Lemma enc16_length l : length (enc16 l) = (2 * length l)%nat.
Proof. induction l; cbn [enc16 length]; lia. Qed.

Lemma enc_length wide l : length (enc wide l) = (unit_bytes wide * length l)%nat.
Proof. destruct wide; cbn; [rewrite enc16_length|]; lia. Qed.

Lemma enc16_app l1 l2 : enc16 (l1 ++ l2) = enc16 l1 ++ enc16 l2.
Proof. induction l1; cbn; congruence. Qed.

Lemma enc_app wide l1 l2 : enc wide (l1 ++ l2) = enc wide l1 ++ enc wide l2.
Proof. destruct wide; [apply enc16_app|done]. Qed.

Lemma unit_ok_wide wide c : unit_ok wide c -> 0 <= c < 2 ^ 16.
Proof. unfold unit_ok. destruct wide; lia. Qed.

Lemma decode16_enc l rest : decode16 (length l) (enc16 l ++ rest) = l.
Proof. induction l as [|c l IH]; [done|]. cbn [enc16 app length decode16]. rewrite IH. f_equal. pose proof (Z.div_mod c 256 ltac:(lia)). lia. Qed.

Lemma decode_enc wide l rest n : n = Z.of_nat (length l) -> decode wide n (enc wide l ++ rest) = l.
Proof. intros ->. unfold decode. rewrite Nat2Z.id. destruct wide; [apply decode16_enc|]. cbn. by rewrite take_app_length. Qed.

Lemma u8_small c : 0 <= c < 256 -> u8 c = c.
Proof. intros H. unfold u8. apply Z.mod_small. lia. Qed.

Lemma u8_high c : 0 <= c < 2 ^ 16 -> u8 (Z.shiftr c 8) = c / 256.
Proof. intros H. rewrite Z.shiftr_div_pow2 by lia. apply u8_small. change (2 ^ 8) with 256. split; [apply Z.div_pos; lia|apply Z.div_lt_upper_bound; lia]. Qed.

(** A store of the next unit. *)
Lemma put_spec wide l rest c i : i = Z.of_nat (length l) -> unit_ok wide c -> (unit_bytes wide <= length rest)%nat -> put wide i c (enc wide l ++ rest) = Some (enc wide (l ++ [c]) ++ drop (unit_bytes wide) rest).
Proof.
  intros -> Hc Hr. unfold put, put8, put16. pose proof (enc_length wide l) as El. destruct wide; cbn [enc unit_bytes] in *; rewrite length_app.
  - rewrite (proj2 (Z.leb_le _ _)), (proj2 (Z.ltb_lt _ _)) by lia. cbn [andb]. destruct rest as [|x [|y rest]]; cbn in Hr; try lia. f_equal. rewrite u8_high by done. unfold u8.
    replace (Z.to_nat (2 * Z.of_nat (length l))) with (length (enc16 l) + 0)%nat by lia. replace (Z.to_nat (2 * Z.of_nat (length l) + 1)) with (length (enc16 l) + 1)%nat by lia. rewrite !insert_app_r. cbn [insert list_insert]. rewrite enc16_app. cbn [enc16 app]. rewrite <- app_assoc. cbn [app drop]. done.
  - rewrite (proj2 (Z.leb_le _ _)), (proj2 (Z.ltb_lt _ _)) by lia. cbn [andb]. destruct rest as [|x rest]; cbn in Hr; try lia. f_equal. rewrite u8_small by (unfold unit_ok in Hc; lia). replace (Z.to_nat (Z.of_nat (length l))) with (length l + 0)%nat by lia. rewrite insert_app_r. cbn. by rewrite <- app_assoc.
Qed.

Lemma put_all_spec wide p : forall l rest i, i = Z.of_nat (length l) -> Forall (unit_ok wide) p -> (unit_bytes wide * length p <= length rest)%nat -> put_all wide i p (enc wide l ++ rest) = Some (enc wide (l ++ p) ++ drop (unit_bytes wide * length p) rest).
Proof.
  induction p as [|c p IH]; intros l rest i Hi Hp Hr; cbn [put_all length].
  - by rewrite Nat.mul_0_r, app_nil_r, drop_0.
  - apply Forall_cons_1 in Hp as [Hc Hp]. cbn [length] in Hr. rewrite put_spec by (done || lia). cbn [mbind option_bind]. rewrite IH; [|rewrite length_app; cbn; lia|done|rewrite length_drop; lia]. rewrite <- app_assoc, drop_drop. cbn [app]. do 2 f_equal. f_equal. lia.
Qed.

(** ** The change of width *)

(** Before unit [n - 1] is moved the first [n] bytes are the old ones, and
    from byte [2 * n] on the new units stand. *)
Lemma widen_loop_spec n : forall B l, (n <= length l)%nat -> Forall (unit_ok false) l -> take n B = take n l -> (2 * length l <= length B)%nat ->
  exists B', widen_loop n B = Some B' /\ length B' = length B /\ drop (2 * n) B' = drop (2 * n) B /\ take (2 * n) B' = enc16 (take n l).
Proof.
  induction n as [|n IH]; intros B l Hn Hl HB Hlen; [by exists B|]. cbn [widen_loop]. destruct (lookup_lt_is_Some_2 l n ltac:(lia)) as [c Hc].
  assert (Hb : B !! n = Some c) by (rewrite <- (lookup_take_lt B (S n)) by lia; rewrite HB; by rewrite lookup_take_lt by lia). rewrite Hb. cbn [mbind option_bind]. unfold put16. rewrite (proj2 (Z.leb_le _ _)), (proj2 (Z.ltb_lt _ _)) by lia. cbn [andb mbind option_bind].
  assert (Hcr : 0 <= c < 256) by (rewrite Forall_lookup in Hl; specialize (Hl _ _ Hc); unfold unit_ok in Hl; lia). rewrite u8_high by lia. rewrite (u8_small c) by lia. replace (Z.to_nat (2 * Z.of_nat n)) with (2 * n)%nat by lia. replace (Z.to_nat (2 * Z.of_nat n + 1)) with (2 * n + 1)%nat by lia. set (B1 := <[(2 * n + 1)%nat := c / 256]> (<[(2 * n)%nat := c]> B)).
  assert (H1 : take n B1 = take n l) by (unfold B1; rewrite !take_insert_ge by lia; replace n with (n `min` S n)%nat at 1 2 by lia; rewrite <- !take_take, HB; done).
  destruct (IH B1 l ltac:(lia) Hl H1) as (B' & E & L & D & T); [unfold B1; rewrite !length_insert; lia|]. assert (LB : length B1 = length B) by (unfold B1; by rewrite !length_insert). exists B'. split; [done|]. split; [lia|].
  assert (Hd : drop (2 * S n) B' = drop (2 * S n) B) by (replace (2 * S n)%nat with (2 * n + 2)%nat by lia; rewrite <- !drop_drop, D; unfold B1; rewrite !drop_drop; rewrite !drop_insert_lt by lia; done). split; [done|].
  rewrite (take_S_r _ _ _ Hc), enc16_app, <- T. cbn [enc16]. rewrite Z.mod_small by lia. apply list_eq. intros k. destruct (decide (k < 2 * n)%nat) as [Hk|Hk].
  - rewrite lookup_take_lt by lia. rewrite lookup_app_l by (rewrite length_take; lia). by rewrite lookup_take_lt.
  - destruct (decide (k < 2 * S n)%nat) as [Hk2|Hk2]; [|rewrite lookup_take_ge by lia; symmetry; apply lookup_ge_None_2; rewrite length_app, length_take; cbn; lia].
    rewrite lookup_take_lt by lia. rewrite lookup_app_r by (rewrite length_take; lia). replace (B' !! k) with (drop (2 * n) B' !! (k - 2 * n)%nat) by (rewrite lookup_drop; f_equal; lia). rewrite D, lookup_drop, length_take. replace ((2 * n) `min` length B')%nat with (2 * n)%nat by lia. replace (2 * n + (k - 2 * n))%nat with k by lia.
    assert (Hk' : k = (2 * n)%nat \/ k = (2 * n + 1)%nat) by lia. unfold B1. destruct Hk' as [->| ->].
    + rewrite list_lookup_insert_ne by lia. rewrite list_lookup_insert_eq by lia. by rewrite Nat.sub_diag.
    + rewrite list_lookup_insert_eq by (rewrite length_insert; lia). by replace (2 * n + 1 - 2 * n)%nat with 1%nat by lia.
Qed.

Lemma widen_spec l rest : Forall (unit_ok false) l -> (length l <= length rest)%nat -> exists rest', widen_loop (length l) (l ++ rest) = Some (enc16 l ++ rest') /\ length (enc16 l ++ rest') = length (l ++ rest).
Proof.
  intros Hl Hr. destruct (widen_loop_spec (length l) (l ++ rest) l) as (B & E & L & D & T); [lia|done|by rewrite take_app_length, take_ge by lia|rewrite length_app; lia|].
  rewrite (take_ge l) in T by lia. exists (drop (2 * length l) B). rewrite <- T, take_drop. done.
Qed.

(** ** The invariant of a buffer *)

Section buffer.
Context (mem : nat -> bool) (blocks : nat -> Z -> list Z).
(** A block has at least the bytes that were asked for. *)
Hypothesis blocks_size : forall t n, n <= sizeof_JSString + Z.of_nat (length (blocks t n)).

(** The buffer holds [l], and its block has room for [k] units, for the
    [size] units it admits, and for the final zero of a narrow string. *)
Definition holds (s : StringBuffer) (l : list Z) (k : Z) : Prop :=
  error_status s = false /\ sb_len s = Z.of_nat (length l) /\ Forall (unit_ok (sb_wide s)) l /\ sb_len s <= k /\
  (sb_wide s = false -> sb_size s <= JS_STRING_LEN_MAX) /\
  exists rest, sb_str s = Some (enc (sb_wide s) l ++ rest) /\ Z.of_nat (unit_bytes (sb_wide s)) * (k `max` sb_size s) + 1 - Z.b2z (sb_wide s) <= Z.of_nat (length (enc (sb_wide s) l ++ rest)).

Definition sb_ok (s : StringBuffer) (l : list Z) : Prop := holds s l (Z.of_nat (length l)).

Definition failed (s : StringBuffer) : Prop := error_status s = true /\ sb_str s = None /\ sb_len s = 0 /\ sb_size s = 0.

(** A request from [t] on was refused before [t']. *)
Definition refused (t t' : nat) : Prop := exists k, (t <= k < t')%nat /\ mem k = false.

Lemma refused_mono t1 t2 t3 t4 : refused t2 t3 -> (t1 <= t2)%nat -> (t3 <= t4)%nat -> refused t1 t4.
Proof. intros (k & Hk & Hm) H1 H2. exists k. split; [lia|done]. Qed.

(** What a buffer is after the text [l], of which [total] units have been
    asked for, has been appended. *)
Definition outcome (t : nat) (total : Z) (l : list Z) (r : option (bool * StringBuffer * nat)) : Prop :=
  match r with
  | Some (true, s, t') => sb_ok s l /\ (t <= t')%nat
  | Some (false, s, t') => failed s /\ (t <= t')%nat /\ (refused t t' \/ JS_STRING_LEN_MAX < total)
  | None => False
  end.

Lemma set_error_failed s : failed (string_buffer_set_error s).
Proof. done. Qed.

Lemma holds_weaken s l k k' : holds s l k -> Z.of_nat (length l) <= k' <= k -> holds s l k'.
Proof.
  intros (H1 & H2 & H3 & H4 & H5 & rest & H6 & H7) Hk. split_and!; [done|done|done|lia|done|]. exists rest. split; [done|]. destruct (sb_wide s); cbn [unit_bytes Z.b2z] in *; lia.
Qed.

Lemma holds_sb_ok s l k : holds s l k -> sb_ok s l.
Proof. intros H. apply (holds_weaken s l k); [done|]. destruct H as (_ & E & _ & H & _). lia. Qed.

(** Room up to the admitted size. *)
Lemma sb_ok_room s l k : sb_ok s l -> Z.of_nat (length l) <= k <= sb_size s -> holds s l k.
Proof.
  intros (H1 & H2 & H3 & H4 & H5 & rest & H6 & H7) Hk. split_and!; [done|done|done|lia|done|]. exists rest. split; [done|]. destruct (sb_wide s); cbn [unit_bytes Z.b2z] in *; lia.
Qed.

(** ** Growing *)

Lemma sint32_small x : - 2 ^ 31 <= x < 2 ^ 31 -> sint 32 x = x.
Proof. intros H. unfold sint. cbv zeta. change (32 - 1) with 31. destruct (Z.ltb_spec (x mod 2 ^ 32) (2 ^ 31)); pose proof (Z.div_mod x (2 ^ 32) ltac:(lia)); pose proof (Z.mod_pos_bound x (2 ^ 32) ltac:(lia)); nia. Qed.

Lemma request_size x : 0 <= x < 2 ^ 31 -> forall w, u64 (sizeof_JSString + sint 32 x + 1 - Z.b2z w) = sizeof_JSString + x + 1 - Z.b2z w.
Proof. intros H w. rewrite sint32_small by lia. unfold u64, sizeof_JSString. rewrite Z.mod_small; [done|]. destruct w; cbn; lia. Qed.

Lemma sint32_le x : 0 <= x -> sint 32 x <= x.
Proof. intros H. unfold sint. cbv zeta. pose proof (Z.mod_le x (2 ^ 32) H ltac:(lia)). pose proof (Z.mod_pos_bound x (2 ^ 32) ltac:(lia)). case_match; lia. Qed.

Lemma realloc_block_spec B n t l rest : B = l ++ rest -> sizeof_JSString + Z.of_nat (length l) <= n ->
  match js_realloc mem blocks B n t with
  | Some B' => mem t = true /\ (exists rest', B' = l ++ rest') /\ n <= sizeof_JSString + Z.of_nat (length B')
  | None => mem t = false
  end.
Proof.
  intros -> Hn. unfold js_realloc. pose proof (blocks_size t n) as Hb. destruct (mem t); [|done]. set (F := blocks t n) in *. split; [done|]. split.
  - exists (take (length F - length l) rest ++ drop (length (l ++ rest)) F). rewrite take_app, take_ge by (unfold sizeof_JSString in *; lia). by rewrite app_assoc.
  - rewrite !length_app, length_take, length_drop, length_app. lia.
Qed.

Lemma slack_le n B : n <= sizeof_JSString + Z.of_nat (length B) -> 0 <= slack n B <= sizeof_JSString + Z.of_nat (length B) - n.
Proof. intros H. unfold slack. case_match; lia. Qed.

Lemma refused_now t : mem t = false -> refused t (t + 1).
Proof. intros H. exists t. split; [lia|done]. Qed.

(** The buffer becomes wide, with room for [size] units. *)
Lemma widen_buffer_spec s l size t : sb_ok s l -> sb_wide s = false -> Z.of_nat (length l) <= size <= JS_STRING_LEN_MAX ->
  match string_buffer_widen mem blocks s size t with
  | Some (true, s', t') => holds s' l size /\ sb_wide s' = true /\ t' = (t + 1)%nat
  | Some (false, s', t') => failed s' /\ t' = (t + 1)%nat /\ refused t t'
  | None => False
  end.
Proof.
  intros (H1 & H2 & H3 & H4 & H5 & rest & H6 & H7) Hw Hs. unfold string_buffer_widen. rewrite H1, H6, H2, Nat2Z.id. cbn [mbind option_bind]. rewrite Hw in *. unfold JS_STRING_LEN_MAX in *. rewrite Z.shiftl_mul_pow2, Z.pow_1_r by lia.
  assert (En : u64 (sizeof_JSString + sint 32 (size * 2)) = sizeof_JSString + size * 2) by (rewrite sint32_small by lia; unfold u64, sizeof_JSString; rewrite Z.mod_small; lia). rewrite En. cbn [enc] in *.
  pose proof (realloc_block_spec (l ++ rest) (sizeof_JSString + size * 2) t l rest eq_refl ltac:(lia)) as Hr. destruct (js_realloc _ _ _ _ _) as [B|]; [|split; [done|]; split; [done|by apply refused_now]]. destruct Hr as (_ & (rest' & ->) & Hb). rewrite length_app in Hb.
  destruct (widen_spec l rest' H3 ltac:(lia)) as (rest2 & E & L). rewrite E. cbn [mbind option_bind]. split_and!; [|done|done]. pose proof (slack_le (sizeof_JSString + size * 2) (l ++ rest') ltac:(rewrite length_app; lia)) as Hsl. unfold holds. cbn [error_status sb_len sb_wide sb_size sb_str unit_bytes Z.b2z enc]. split_and!; [done|done| |lia|done|].
  - eapply Forall_impl; [exact H3|]. intros c Hc. unfold unit_ok in *. lia.
  - exists rest2. split; [done|]. rewrite L. rewrite length_app in Hsl |- *. rewrite Z.shiftr_div_pow2, Z.pow_1_r by lia. pose proof (sint32_le (size + slack (sizeof_JSString + size * 2) (l ++ rest') / 2) ltac:(pose proof (Z.div_pos (slack (sizeof_JSString + size * 2) (l ++ rest')) 2); lia)). pose proof (Z.mul_div_le (slack (sizeof_JSString + size * 2) (l ++ rest')) 2 ltac:(lia)). lia.
Qed.

(** The buffer has room for [new_len] units, of the width that [c] needs. *)
Lemma realloc_buffer_spec s l new_len c t : sb_ok s l -> Z.of_nat (length l) <= new_len ->
  match string_buffer_realloc mem blocks s new_len c t with
  | Some (true, s', t') => holds s' l new_len /\ sb_wide s' = sb_wide s || (0x100 <=? c) /\ (t <= t')%nat
  | Some (false, s', t') => failed s' /\ (t <= t')%nat /\ (refused t t' \/ JS_STRING_LEN_MAX < new_len)
  | None => False
  end.
Proof.
  intros Hok Hn. pose proof Hok as (H1 & H2 & H3 & H4 & H5 & rest & H6 & H7). unfold string_buffer_realloc. rewrite H1. destruct (Z.ltb_spec JS_STRING_LEN_MAX new_len) as [Hm|Hm]; [split; [done|]; split; [done|by right]|].
  set (new_size := (new_len `max` Z.quot (sint 32 (sb_size s * 3)) 2) `min` JS_STRING_LEN_MAX). assert (Hns : new_len <= new_size <= JS_STRING_LEN_MAX) by lia. destruct (negb (sb_wide s) && (0x100 <=? c)) eqn:Ew.
  - apply andb_true_iff in Ew as [Ew1 Ew2]. apply negb_true_iff in Ew1. rewrite Ew2, Ew1. pose proof (widen_buffer_spec s l new_size t Hok Ew1 ltac:(lia)) as Hw. destruct (string_buffer_widen _ _ _ _ _) as [[[[] s'] t']|]; [|destruct Hw as (? & -> & ?); split_and!; [done|lia|by left]|done]. destruct Hw as (W1 & -> & ->). split_and!; [|done|lia]. apply (holds_weaken _ _ new_size); [done|lia].
  - rewrite H6. cbn [mbind option_bind]. assert (Hwide : sb_wide s || (0x100 <=? c) = sb_wide s) by (destruct (sb_wide s), (0x100 <=? c); done). rewrite Hwide. rewrite Z.shiftl_mul_pow2 by (destruct (sb_wide s); cbn; lia).
    assert (Hp : new_size * 2 ^ Z.b2z (sb_wide s) = Z.of_nat (unit_bytes (sb_wide s)) * new_size) by (destruct (sb_wide s); cbn [unit_bytes Z.b2z]; lia). rewrite Hp, request_size by (unfold JS_STRING_LEN_MAX in *; destruct (sb_wide s); cbn [unit_bytes]; lia).
    pose proof (realloc_block_spec (enc (sb_wide s) l ++ rest) (sizeof_JSString + Z.of_nat (unit_bytes (sb_wide s)) * new_size + 1 - Z.b2z (sb_wide s)) t (enc (sb_wide s) l) rest eq_refl) as Hr. rewrite enc_length in Hr. specialize (Hr ltac:(destruct (sb_wide s); cbn [unit_bytes Z.b2z]; lia)).
    destruct (js_realloc _ _ _ _ _) as [B|]; [|split_and!; [done|lia|left; by apply refused_now]]. destruct Hr as (_ & (rest' & ->) & Hb). pose proof (slack_le _ _ Hb) as Hsl. split_and!; [|done|lia]. unfold holds. cbn [error_status sb_len sb_wide sb_size sb_str]. split_and!; [done|done|done|lia|lia|]. exists rest'. split; [done|].
    set (sl := slack _ _) in *. rewrite Z.shiftr_div_pow2 by (destruct (sb_wide s); cbn; lia). destruct (sb_wide s); cbn [unit_bytes Z.b2z] in *; rewrite ?Z.pow_1_r, ?Z.pow_0_r, ?Z.div_1_r in *.
    + pose proof (sint32_le (new_size + sl / 2) ltac:(pose proof (Z.div_pos sl 2); lia)). pose proof (Z.mul_div_le sl 2 ltac:(lia)). lia.
    + pose proof (sint32_le (new_size + sl) ltac:(lia)). lia.
Qed.

(** ** Appending *)

Lemma put_units_spec s l p : holds s l (Z.of_nat (length (l ++ p))) -> Forall (unit_ok (sb_wide s)) p -> exists s', put_units s p = Some s' /\ sb_ok s' (l ++ p) /\ sb_wide s' = sb_wide s /\ sb_size s' = sb_size s.
Proof.
  intros (H1 & H2 & H3 & H4 & H5 & rest & H6 & H7) Hp. unfold put_units. rewrite length_app in *. destruct (Z.eqb_spec (Z.of_nat (length p)) 0) as [E|Hne].
  - destruct p; [|done]. exists s. rewrite app_nil_r. split_and!; [done| |done|done]. unfold sb_ok, holds. split_and!; [done|done|done|lia|done|]. exists rest. split; [done|]. cbn [length] in H7. rewrite Nat.add_0_r in H7. done.
  - rewrite H6. cbn [mbind option_bind]. pose proof (enc_length (sb_wide s) l) as El. rewrite length_app in H7. rewrite put_all_spec; [|done|done|destruct (sb_wide s); cbn [unit_bytes Z.b2z] in *; lia]. cbn [mbind option_bind]. eexists. split; [reflexivity|]. split_and!; [|done|done].
    unfold sb_ok, holds. cbn [error_status sb_len sb_wide sb_size sb_str]. rewrite length_app. split_and!; [done|lia|by apply Forall_app|lia|done|]. eexists. split; [reflexivity|]. rewrite length_app, enc_length, length_drop, length_app. destruct (sb_wide s); cbn [unit_bytes Z.b2z] in *; lia.
Qed.

Lemma put_unit_spec s l c : holds s l (Z.of_nat (length l) + 1) -> unit_ok (sb_wide s) c -> exists s', put_unit s c = Some s' /\ sb_ok s' (l ++ [c]) /\ sb_wide s' = sb_wide s /\ sb_size s' = sb_size s.
Proof.
  intros Hs Hc. destruct (put_units_spec s l [c]) as (s' & E & R); [rewrite length_app; cbn [length]; by rewrite Nat2Z.inj_add|by constructor|]. exists s'. split; [|done]. unfold put_units in E. cbn [length] in E. change (Z.of_nat 1) with 1 in E. cbn [Z.eqb] in E. unfold put_unit. destruct (sb_str s) as [B|]; [|done]. cbn [mbind option_bind put_all] in *. destruct (put _ _ _ _); done.
Qed.

(** Room for one more unit, of the width that it needs. *)
Lemma unit_ok_of_wide w c : 0 <= c < 2 ^ 16 -> w || (c <? 0x100) = true -> unit_ok w c.
Proof. intros H E. unfold unit_ok. destruct w; cbn in E; lia. Qed.

Lemma reserve_unit_spec s l c t : sb_ok s l ->
  match reserve_unit mem blocks s c t with
  | Some (true, s', t') => holds s' l (Z.of_nat (length l) + 1) /\ (sb_wide s' = sb_wide s || (0x100 <=? c) \/ (s' = s /\ sb_len s < sb_size s)) /\ (t <= t')%nat
  | Some (false, s', t') => failed s' /\ (t <= t')%nat /\ (refused t t' \/ JS_STRING_LEN_MAX < Z.of_nat (length l) + 1)
  | None => False
  end.
Proof.
  intros Hok. pose proof Hok as (_ & H2 & _). unfold reserve_unit. destruct (Z.leb_spec (sb_size s) (sb_len s)) as [Hle|Hlt].
  - rewrite H2. pose proof (realloc_buffer_spec s l (Z.of_nat (length l) + 1) c t Hok ltac:(lia)) as Hr. destruct (string_buffer_realloc _ _ _ _ _ _) as [[[[] s'] t']|]; [|done|done]. destruct Hr as (R1 & R2 & R3). split_and!; [done|by left|done].
  - split_and!; [|by right|lia]. apply sb_ok_room; [done|lia].
Qed.

Lemma outcome_put s l c t0 t total : holds s l (Z.of_nat (length l) + 1) -> unit_ok (sb_wide s) c -> (t0 <= t)%nat -> outcome t0 total (l ++ [c]) (s ← put_unit s c; Some (true, s, t)).
Proof. intros H1 H2 H3. destruct (put_unit_spec s l c H1 H2) as (s' & -> & R & _). done. Qed.

Lemma putc16_slow_spec s l c t : sb_ok s l -> 0 <= c < 2 ^ 16 -> outcome t (Z.of_nat (length l) + 1) (l ++ [c]) (string_buffer_putc16_slow mem blocks s c t).
Proof.
  intros Hok Hc. unfold string_buffer_putc16_slow. pose proof (reserve_unit_spec s l c t Hok) as Hr. destruct (reserve_unit _ _ _ _ _) as [[[[] s1] t1]|]; cbn [mbind option_bind]; [|done|done]. destruct Hr as (R1 & R2 & R3).
  destruct (sb_wide s1 || (c <? 0x100)) eqn:Ew; [apply outcome_put; [done|by apply unit_ok_of_wide|done]|]. apply orb_false_iff in Ew as [Ew Ec].
  assert (Hsz : sb_len s1 < sb_size s1) by (destruct R2 as [R2|[-> R2]]; [rewrite Ew in R2; destruct (sb_wide s), (Z.leb_spec 0x100 c); (done || lia)|done]).
  pose proof (holds_sb_ok _ _ _ R1) as Hok1. pose proof Hok1 as (_ & H2 & _ & _ & H5 & _). pose proof (widen_buffer_spec s1 l (sb_size s1) t1 Hok1 Ew ltac:(specialize (H5 Ew); lia)) as Hw. destruct (string_buffer_widen _ _ _ _ _) as [[[[] s2] t2]|]; cbn [mbind option_bind]; [|destruct Hw as (W1 & -> & W3); split_and!; [done|lia|left; eapply refused_mono; [exact W3|lia|lia]]|done].
  destruct Hw as (W1 & W2 & ->). apply outcome_put; [apply (holds_weaken _ _ (sb_size s1)); [done|lia]|rewrite W2; done|lia].
Qed.

Lemma putc16_spec s l c t : sb_ok s l -> 0 <= c < 2 ^ 16 -> outcome t (Z.of_nat (length l) + 1) (l ++ [c]) (string_buffer_putc16 mem blocks s c t).
Proof.
  intros Hok Hc. unfold string_buffer_putc16. destruct (_ && _) eqn:E; [|by apply putc16_slow_spec]. apply andb_true_iff in E as [E1 E2]. pose proof Hok as (_ & H2 & _). apply outcome_put; [apply sb_ok_room; [done|lia]|by apply unit_ok_of_wide|lia].
Qed.

Lemma putc8_spec s l c t : sb_ok s l -> 0 <= c < 2 ^ 8 -> outcome t (Z.of_nat (length l) + 1) (l ++ [c]) (string_buffer_putc8 mem blocks s c t).
Proof.
  intros Hok Hc. unfold string_buffer_putc8. pose proof (reserve_unit_spec s l c t Hok) as Hr. destruct (reserve_unit _ _ _ _ _) as [[[[] s1] t1]|]; cbn [mbind option_bind]; [|done|done]. destruct Hr as (R1 & _ & R3). apply outcome_put; [done|unfold unit_ok; destruct (sb_wide s1); lia|done].
Qed.

(** One operation after another. *)
Lemma outcome_mono t t0 total total' l r : outcome t total l r -> (t0 <= t)%nat -> total <= total' -> outcome t0 total' l r.
Proof. destruct r as [[[[] s] t']|]; cbn; [intros [H1 H2]; split; [done|lia]| |done]. intros (H1 & H2 & H3) ? ?. split_and!; [done|lia|]. destruct H3 as [H3|H3]; [left; eapply refused_mono; [done|lia|lia]|right; lia]. Qed.

Lemma outcome_bind t total l1 l2 (r : option (bool * StringBuffer * nat)) (k : StringBuffer -> nat -> option (bool * StringBuffer * nat)) : outcome t total l1 r -> (forall s t1, sb_ok s l1 -> (t <= t1)%nat -> outcome t total l2 (k s t1)) ->
  outcome t total l2 ('(ok, s, t) ← r; if ok : bool then k s t else Some (false, s, t)).
Proof. intros H K. destruct r as [[[[] s] t1]|]; cbn [mbind option_bind]; [destruct H as [H1 H2]; by apply K|done|done]. Qed.

(** The code units of a character. *)
Definition char_units (c : Z) : list Z := if 0x10000 <=? c then [get_hi_surrogate c; get_lo_surrogate c] else [c].

Lemma surrogates_value c : 0x10000 <= c <= 0x10FFFF -> get_hi_surrogate c = 0xD800 + (c - 0x10000) / 1024 /\ get_lo_surrogate c = 0xDC00 + c mod 1024 /\ 0xD800 <= get_hi_surrogate c < 0xDC00 /\ 0xDC00 <= get_lo_surrogate c < 0xE000.
Proof.
  intros H. assert (E1 : get_hi_surrogate c = 0xD800 + (c - 0x10000) / 1024).
  { unfold get_hi_surrogate, u32. change (Z.shiftr 0x10000 10) with 64. rewrite Z.shiftr_div_pow2 by lia. change (2 ^ 10) with 1024. replace (c - 0x10000) with (c + (-64) * 1024) by lia. rewrite Z.div_add by lia. pose proof (Z.div_le_lower_bound c 1024 64 ltac:(lia) ltac:(lia)). pose proof (Z.div_lt_upper_bound c 1024 1088 ltac:(lia) ltac:(lia)). rewrite Z.mod_small by lia. lia. }
  assert (E2 : get_lo_surrogate c = 0xDC00 + c mod 1024).
  { unfold get_lo_surrogate. change 0x3FF with (2 ^ 10 - 1). rewrite land_pow2_pred by lia. rewrite Z.lor_comm, (lor_low 10); [done|lia|apply Z.mod_pos_bound; lia|reflexivity]. }
  rewrite E1, E2. pose proof (Z.mod_pos_bound c 1024 ltac:(lia)). pose proof (Z.div_pos (c - 0x10000) 1024 ltac:(lia) ltac:(lia)). pose proof (Z.div_lt_upper_bound (c - 0x10000) 1024 1024 ltac:(lia) ltac:(lia)). split_and!; lia.
Qed.

Lemma char_units_ok c : 0 <= c <= 0x10FFFF -> Forall (fun u => 0 <= u < 2 ^ 16) (char_units c).
Proof. intros H. unfold char_units. destruct (Z.leb_spec 0x10000 c); [pose proof (surrogates_value c ltac:(lia)); repeat constructor; lia|repeat constructor; lia]. Qed.

Lemma putc_slow_spec s l c t : sb_ok s l -> 0 <= c <= 0x10FFFF -> outcome t (Z.of_nat (length (l ++ char_units c))) (l ++ char_units c) (string_buffer_putc_slow mem blocks s c t).
Proof.
  intros Hok Hc. unfold string_buffer_putc_slow, char_units. destruct (Z.leb_spec 0x10000 c) as [Hge|Hlt].
  - pose proof (surrogates_value c ltac:(lia)) as (_ & _ & Hh & Hl). change [get_hi_surrogate c; get_lo_surrogate c] with ([get_hi_surrogate c] ++ [get_lo_surrogate c]). rewrite app_assoc. apply (outcome_bind _ _ (l ++ [get_hi_surrogate c])); [eapply outcome_mono; [apply putc16_spec; [done|lia]|lia|rewrite !length_app; cbn [length]; lia]|]. intros s1 t1 Hs Ht.
    eapply outcome_mono; [apply putc16_spec; [done|lia]|lia|rewrite !length_app; cbn [length]; lia].
  - eapply outcome_mono; [apply putc16_spec; [done|lia]|lia|rewrite !length_app; cbn [length]; lia].
Qed.

Lemma putc_spec s l c t : sb_ok s l -> 0 <= c <= 0x10FFFF -> outcome t (Z.of_nat (length (l ++ char_units c))) (l ++ char_units c) (string_buffer_putc mem blocks s c t).
Proof.
  intros Hok Hc. pose proof Hok as (_ & H2 & _). unfold string_buffer_putc. destruct (Z.ltb_spec (sb_len s) (sb_size s)) as [Hlt|]; [|by apply putc_slow_spec]. cbn [andb]. assert (Hroom : holds s l (Z.of_nat (length l) + 1)) by (apply sb_ok_room; [done|lia]).
  destruct (sb_wide s) eqn:Ew; cbn [andb negb].
  - destruct (Z.ltb_spec c 0x10000) as [Hs|Hs]; [unfold char_units; rewrite (proj2 (Z.leb_gt _ _)) by lia; apply outcome_put; [done|rewrite Ew; unfold unit_ok; lia|lia]|]. destruct (Z.ltb_spec (sb_len s + 1) (sb_size s)) as [Hsz|]; [|by apply putc_slow_spec].
    pose proof (surrogates_value c ltac:(lia)) as (_ & _ & Hh & Hl). destruct (put_unit_spec s l (get_hi_surrogate c) Hroom) as (s1 & -> & R1 & R2 & R3); [rewrite Ew; unfold unit_ok; lia|]. cbn [mbind option_bind]. unfold char_units. rewrite (proj2 (Z.leb_le _ _)) by lia.
    change [get_hi_surrogate c; get_lo_surrogate c] with ([get_hi_surrogate c] ++ [get_lo_surrogate c]). rewrite app_assoc. apply outcome_put; [|rewrite R2, Ew; unfold unit_ok; lia|lia]. apply sb_ok_room; [done|]. rewrite R3, length_app. cbn [length]. lia.
  - destruct (Z.ltb_spec c 0x100); [|by apply putc_slow_spec]. unfold char_units. rewrite (proj2 (Z.leb_gt _ _)) by lia. apply outcome_put; [done|rewrite Ew; unfold unit_ok; lia|lia].
Qed.

(** Several units at once. *)
Lemma put_all_outcome s l p t0 t total : holds s l (Z.of_nat (length (l ++ p))) -> Forall (unit_ok (sb_wide s)) p -> (t0 <= t)%nat -> outcome t0 total (l ++ p) (s ← put_units s p; Some (true, s, t)).
Proof. intros H1 H2 H3. destruct (put_units_spec s l p H1 H2) as (s' & -> & R & _). done. Qed.

Lemma write8_spec s l p t : sb_ok s l -> Forall (unit_ok false) p -> outcome t (Z.of_nat (length (l ++ p))) (l ++ p) (string_buffer_write8 mem blocks s p t).
Proof.
  intros Hok Hp. pose proof Hok as (_ & H2 & _). unfold string_buffer_write8. assert (En : sb_len s + Z.of_nat (length p) = Z.of_nat (length (l ++ p))) by (rewrite length_app; lia). rewrite En.
  assert (Hpw : forall w, Forall (unit_ok w) p) by (intros w; eapply Forall_impl; [exact Hp|]; unfold unit_ok; intros c ?; destruct w; lia).
  destruct (Z.ltb_spec (sb_size s) (Z.of_nat (length (l ++ p)))) as [Hlt|Hge]; cbn [mbind option_bind]; [|apply put_all_outcome; [apply sb_ok_room; [done|lia]|done|lia]].
  pose proof (realloc_buffer_spec s l (Z.of_nat (length (l ++ p))) 0 t Hok ltac:(lia)) as Hr. destruct (string_buffer_realloc _ _ _ _ _ _) as [[[[] s1] t1]|]; cbn [mbind option_bind]; [|done|done]. destruct Hr as (R1 & _ & R3). by apply put_all_outcome.
Qed.

Lemma foldl_lor_bound p : forall a, Forall (fun c => 0 <= c) p -> 0 <= a -> 0 <= foldl Z.lor a p /\ (foldl Z.lor a p < 256 <-> a < 256 /\ Forall (fun c => c < 256) p).
Proof.
  assert (H2 : forall a b, 0 <= a -> 0 <= b -> (Z.lor a b < 256 <-> a < 256 /\ b < 256)).
  { intros a b Ha Hb. destruct (decide (a = 0)) as [->|]; [rewrite Z.lor_0_l; lia|]. destruct (decide (b = 0)) as [->|]; [rewrite Z.lor_0_r; lia|]. change 256 with (2 ^ 8).
    assert (Hn : 0 < Z.lor a b) by (assert (Z.lor a b <> 0) by (rewrite Z.lor_eq_0_iff; lia); pose proof (proj2 (Z.lor_nonneg a b) (conj Ha Hb)); lia). rewrite (Z.log2_lt_pow2 (Z.lor a b)), (Z.log2_lt_pow2 a), (Z.log2_lt_pow2 b), Z.log2_lor by lia. lia. }
  induction p as [|c p IH]; intros a Hp Ha; [split; [done|]; split; [by intros|by intros []]|]. apply Forall_cons_1 in Hp as [Hc Hp]. cbn [foldl]. assert (Hac : 0 <= Z.lor a c) by (by apply Z.lor_nonneg). destruct (IH (Z.lor a c) Hp Hac) as [I1 I2]. split; [done|]. rewrite I2, H2, Forall_cons by done. tauto.
Qed.

Lemma write16_spec s l p t : sb_ok s l -> Forall (unit_ok true) p -> outcome t (Z.of_nat (length (l ++ p))) (l ++ p) (string_buffer_write16 mem blocks s p t).
Proof.
  intros Hok Hp. pose proof Hok as (_ & H2 & _ & _ & H5 & _). unfold string_buffer_write16. assert (En : sb_len s + Z.of_nat (length p) = Z.of_nat (length (l ++ p))) by (rewrite length_app; lia). rewrite En.
  destruct (foldl_lor_bound p 0) as [F1 F2]; [eapply Forall_impl; [exact Hp|]; unfold unit_ok; intros; lia|lia|]. set (c := foldl Z.lor 0 p) in *.
  assert (Hpw : forall w, w = true \/ c < 0x100 -> Forall (unit_ok w) p) by (intros [] Hw; [done|]; destruct Hw as [|Hw]; [done|]; apply F2 in Hw as [_ Hw]; eapply Forall_impl; [apply Forall_and; split; [exact Hp|exact Hw]|]; unfold unit_ok; intros; cbn in *; lia).
  destruct (Z.ltb_spec (sb_size s) (Z.of_nat (length (l ++ p)))) as [Hlt|Hge].
  - pose proof (realloc_buffer_spec s l (Z.of_nat (length (l ++ p))) c t Hok ltac:(lia)) as Hr. destruct (string_buffer_realloc _ _ _ _ _ _) as [[[[] s1] t1]|]; cbn [mbind option_bind]; [|done|done]. destruct Hr as (R1 & R2 & R3). apply put_all_outcome; [done| |done]. apply Hpw. rewrite R2. destruct (Z.leb_spec 0x100 c); [left; by rewrite orb_true_r|by right].
  - destruct (sb_wide s) eqn:Ew; cbn [negb andb]; cbn [mbind option_bind]; [apply put_all_outcome; [apply sb_ok_room; [done|rewrite length_app in *; lia]|rewrite Ew; done|lia]|]. destruct (Z.leb_spec 0x100 c) as [Hc|Hc]; [|cbn [mbind option_bind]; apply put_all_outcome; [apply sb_ok_room; [done|rewrite length_app in *; lia]|rewrite Ew; apply Hpw; by right|lia]].
    pose proof (widen_buffer_spec s l (sb_size s) t Hok Ew ltac:(specialize (H5 eq_refl); rewrite length_app in *; lia)) as Hw. destruct (string_buffer_widen _ _ _ _ _) as [[[[] s1] t1]|]; cbn [mbind option_bind]; [|destruct Hw as (W1 & -> & W3); split_and!; [done|lia|by left]|done].
    destruct Hw as (W1 & W2 & ->). apply put_all_outcome; [apply (holds_weaken _ _ (sb_size s)); [done|rewrite length_app in *; lia]|rewrite W2; done|lia].
Qed.

Definition sub_text (p : JSString) (from to : Z) : list Z := take (Z.to_nat (to - from)) (drop (Z.to_nat from) (chars p)).

Lemma string_units_ok p : string_ok p -> Forall (unit_ok (is_wide_char p)) (chars p).
Proof. intros (_ & _ & H). exact H. Qed.

Lemma concat_buffer_spec s l p from to t : sb_ok s l -> string_ok p -> 0 <= from -> to <= len p -> outcome t (Z.of_nat (length (l ++ sub_text p from to))) (l ++ sub_text p from to) (string_buffer_concat mem blocks s p from to t).
Proof.
  intros Hok Hp Hf Ht. unfold string_buffer_concat. destruct (Z.leb_spec to from) as [Hle|Hlt]; [unfold sub_text; replace (Z.to_nat (to - from)) with 0%nat by lia; rewrite take_0, app_nil_r; by split|].
  rewrite units_spec by (done || lia). cbn [mbind option_bind]. fold (sub_text p from to). assert (Hu : Forall (unit_ok (is_wide_char p)) (sub_text p from to)) by (apply Forall_take, Forall_drop; by apply string_units_ok).
  destruct (is_wide_char p); [by apply write16_spec|by apply write8_spec].
Qed.

Lemma concat_value_spec v : forall s l t, sb_ok s l -> rope_ok v -> outcome t (Z.of_nat (length (l ++ text v))) (l ++ text v) (string_buffer_concat_value mem blocks s v t).
Proof.
  induction v as [p|n w d x IHx y IHy]; intros s l t Hok Hv; cbn [string_buffer_concat_value]; rewrite (proj1 Hok).
  - pose proof (concat_buffer_spec s l p 0 (len p) t Hok Hv ltac:(lia) ltac:(lia)) as H. unfold sub_text in H. rewrite drop_0, take_ge in H by (destruct Hv; lia). done.
  - destruct Hv as (_ & _ & Hx & Hy). cbn [text]. rewrite app_assoc. apply (outcome_bind _ _ (l ++ text x)); [eapply outcome_mono; [by apply IHx|lia|rewrite !length_app; lia]|]. intros s1 t1 Hs Ht. eapply outcome_mono; [by apply IHy|lia|lia].
Qed.

Lemma fill_loop_spec n : forall s l c t, sb_ok s l -> 0 <= c < 2 ^ 16 -> outcome t (Z.of_nat (length (l ++ replicate n c))) (l ++ replicate n c) (fill_loop mem blocks n s c t).
Proof.
  induction n as [|n IH]; intros s l c t Hok Hc; cbn [fill_loop replicate]; [rewrite app_nil_r; by split|]. replace (l ++ c :: replicate n c) with ((l ++ [c]) ++ replicate n c) by (by rewrite <- app_assoc).
  apply (outcome_bind _ _ (l ++ [c])); [eapply outcome_mono; [by apply putc16_spec|lia|rewrite !length_app; cbn [length]; lia]|]. intros s1 t1 Hs Ht. eapply outcome_mono; [by apply IH|lia|lia].
Qed.

Lemma fill_buffer_spec s l c count t : sb_ok s l -> 0 <= c < 2 ^ 16 -> 0 <= count -> outcome t (Z.of_nat (length (l ++ replicate (Z.to_nat count) c))) (l ++ replicate (Z.to_nat count) c) (string_buffer_fill mem blocks s c count t).
Proof.
  intros Hok Hc Hp. pose proof Hok as (_ & H2 & _). unfold string_buffer_fill. apply (outcome_bind _ _ l); [|intros s1 t1 Hs Ht; eapply outcome_mono; [by apply fill_loop_spec|lia|lia]].
  destruct (Z.ltb_spec (sb_size s) (sb_len s + count)) as [Hlt|Hge]; [|by split].
  pose proof (realloc_buffer_spec s l (sb_len s + count) c t Hok ltac:(lia)) as Hr. destruct (string_buffer_realloc _ _ _ _ _ _) as [[[[] s1] t1]|]; [destruct Hr as (R1 & _ & R3); split; [by eapply holds_sb_ok|done]| |done].
  destruct Hr as (R1 & R2 & R3). split_and!; [done|done|]. destruct R3; [by left|right]. rewrite length_app, length_replicate. lia.
Qed.

(** ** Begin and end *)

Lemma init_buffer_spec size wide t : 0 <= size <= JS_STRING_LEN_MAX ->
  match string_buffer_init2 mem blocks size wide t with
  | (true, s, t') => sb_ok s [] /\ t' = (t + 1)%nat
  | (false, s, t') => failed s /\ t' = (t + 1)%nat /\ refused t t'
  end.
Proof.
  intros Hs. unfold string_buffer_init2, js_alloc_string, js_malloc. unfold JS_STRING_LEN_MAX in *. assert (Hp : Z.shiftl size (Z.b2z wide) = Z.of_nat (unit_bytes wide) * size) by (rewrite Z.shiftl_mul_pow2 by (destruct wide; cbn; lia); destruct wide; cbn [unit_bytes Z.b2z]; lia).
  rewrite Hp, request_size by (destruct wide; cbn [unit_bytes]; lia). destruct (mem t) eqn:Em; [|split; [done|]; split; [done|by apply refused_now]]. split; [|done]. pose proof (blocks_size t (sizeof_JSString + Z.of_nat (unit_bytes wide) * size + 1 - Z.b2z wide)) as Hb. set (B := blocks _ _) in *.
  unfold sb_ok, holds, JS_STRING_LEN_MAX. cbn [error_status sb_len sb_wide sb_size sb_str length]. split_and!; [done|done|constructor|lia|lia|]. exists B. rewrite (Z.max_r (Z.of_nat 0) size) by lia. destruct wide; cbn [enc enc16 app]; (split; [done|lia]).
Qed.

Lemma end_spec s l t : sb_ok s l -> Z.of_nat (length l) <= JS_STRING_LEN_MAX -> exists p t', string_buffer_end mem blocks s t = Some (Some (V_string p), t') /\ string_ok p /\ chars p = l /\ (t <= t')%nat /\ (is_wide_char p = true -> sb_wide s = true).
Proof.
  intros (H1 & H2 & H3 & H4 & H5 & rest & H6 & H7) Hl. unfold string_buffer_end. rewrite H1, H2. destruct (Z.eqb_spec (Z.of_nat (length l)) 0) as [E|Hne]; [destruct l; [|done]; eexists _, t; split; [reflexivity|]; split_and!; [|done|lia|done]; unfold string_ok, JS_STRING_LEN_MAX; cbn; split_and!; [done|lia|constructor]|].
  rewrite H6. cbn [mbind option_bind]. assert (Hs : string_ok (mkString (Z.of_nat (length l)) (sb_wide s) l)) by (split_and!; [done|done|exact H3]). set (w := sb_wide s) in *.
  assert (Hfin : forall t' rest', (t <= t')%nat -> Z.of_nat (length l) * Z.of_nat (unit_bytes w) + 1 - Z.b2z w <= Z.of_nat (length (enc w l ++ rest')) ->
    exists p t'', (B ← (if w then Some (enc w l ++ rest') else put8 (Z.of_nat (length l)) 0 (enc w l ++ rest')); Some (Some (V_string (mkString (Z.of_nat (length l)) w (decode w (Z.of_nat (length l)) B))), t')) = Some (Some (V_string p), t'') /\ string_ok p /\ chars p = l /\ (t <= t'')%nat /\ (is_wide_char p = true -> w = true)).
  { intros t' rest' Ht Hr. destruct w; cbn [mbind option_bind].
    - rewrite decode_enc by done. eexists _, t'. split; [reflexivity|]. split_and!; [exact Hs|done|done|done].
    - rewrite length_app, enc_length in Hr. pose proof (put_spec false l rest' 0 (Z.of_nat (length l)) eq_refl ltac:(unfold unit_ok; lia) ltac:(cbn [unit_bytes Z.b2z] in *; lia)) as Hp. cbn [put] in Hp. rewrite Hp. cbn [mbind option_bind]. rewrite enc_app, <- app_assoc, decode_enc by done. eexists _, t'. split; [reflexivity|]. split_and!; [exact Hs|done|done|done]. }
  destruct (Z.ltb_spec (Z.of_nat (length l)) (sb_size s)) as [Hlt|Hge].
  - assert (Hp : Z.shiftl (Z.of_nat (length l)) (Z.b2z w) = Z.of_nat (length l) * Z.of_nat (unit_bytes w)) by (rewrite Z.shiftl_mul_pow2 by (destruct w; cbn; lia); destruct w; cbn [unit_bytes Z.b2z]; lia). rewrite Hp, request_size by (unfold JS_STRING_LEN_MAX in *; destruct w; cbn [unit_bytes]; lia).
    pose proof (realloc_block_spec (enc w l ++ rest) (sizeof_JSString + Z.of_nat (length l) * Z.of_nat (unit_bytes w) + 1 - Z.b2z w) t (enc w l) rest eq_refl) as Hr. rewrite enc_length in Hr. specialize (Hr ltac:(destruct w; cbn [unit_bytes Z.b2z]; lia)). destruct (js_realloc _ _ _ _ _) as [B|]; cbn [default].
    + destruct Hr as (_ & (rest' & ->) & Hb). apply Hfin; [lia|]. lia.
    + apply Hfin; [lia|]. destruct w; cbn [unit_bytes Z.b2z] in *; lia.
  - apply Hfin; [lia|]. destruct w; cbn [unit_bytes Z.b2z] in *; lia.
Qed.

(** A buffer with an error keeps it. *)
Lemma failed_realloc s n c t : failed s -> string_buffer_realloc mem blocks s n c t = Some (false, s, t).
Proof. intros (H & _). unfold string_buffer_realloc. by rewrite H. Qed.

Lemma failed_putc16 s c t : failed s -> string_buffer_putc16 mem blocks s c t = Some (false, s, t).
Proof. intros Hf. pose proof Hf as (H1 & H2 & H3 & H4). unfold string_buffer_putc16, string_buffer_putc16_slow, reserve_unit. rewrite H3, H4. cbn [Z.ltb Z.leb Z.compare andb]. by rewrite failed_realloc. Qed.

Lemma failed_putc8 s c t : failed s -> string_buffer_putc8 mem blocks s c t = Some (false, s, t).
Proof. intros Hf. pose proof Hf as (H1 & H2 & H3 & H4). unfold string_buffer_putc8, reserve_unit. rewrite H3, H4. cbn [Z.leb Z.compare]. by rewrite failed_realloc. Qed.

Lemma failed_end s t : failed s -> string_buffer_end mem blocks s t = Some (None, t).
Proof. intros (H & _). unfold string_buffer_end. by rewrite H. Qed.
End buffer.
