(* ===== verification/StringsUtf8.v ===== *)
(** * UTF-8: characters and bytes

    A character is read back from the bytes it is written as; the text that
    any bytes stand for; strings to bytes. *)
From S2P Require Import Prelude Ropes RopesProps RopesCompare Strings StringsProps.

(** ** One character *)

Lemma land_mask x k m : 0 <= k -> m = 2 ^ k - 1 -> Z.land x m = x mod 2 ^ k.
Proof. intros Hk ->. by apply land_pow2_pred. Qed.

Lemma follow_byte x : u8 (Z.lor (Z.land x 0x3f) 0x80) = 128 + x mod 64.
Proof.
  rewrite (land_mask x 6) by (done || lia). change (2 ^ 6) with 64. pose proof (Z.mod_pos_bound x 64 ltac:(lia)). rewrite Z.lor_comm, (lor_low 6) by (done || lia). apply u8_small. lia.
Qed.

Lemma first_byte x base k : 0 <= k <= 7 -> 0 <= x < 2 ^ k -> base mod 2 ^ k = 0 -> 0 <= base -> base + 2 ^ k <= 256 -> u8 (Z.lor x base) = base + x.
Proof. intros Hk Hx Hb Hp Hm. rewrite Z.lor_comm, (lor_low k) by (done || lia). apply u8_small. lia. Qed.

(** The bytes of a character, by its size. *)
Definition utf8_bytes (c : Z) : list Z :=
  if c <? 0x80 then [c]
  else if c <? 0x800 then [192 + c / 64; 128 + c mod 64]
  else if c <? 0x10000 then [224 + c / 64 / 64; 128 + (c / 64) mod 64; 128 + c mod 64]
  else [240 + c / 64 / 64 / 64; 128 + (c / 64 / 64) mod 64; 128 + (c / 64) mod 64; 128 + c mod 64].

Lemma div64_2 c : c / 4096 = c / 64 / 64.
Proof. by rewrite Z.div_div by lia. Qed.

Lemma div64_3 c : c / 262144 = c / 64 / 64 / 64.
Proof. by rewrite !Z.div_div by lia. Qed.

Lemma to_utf8_bytes c : 0 <= c <= 0x10FFFF -> unicode_to_utf8 c = utf8_bytes c.
Proof.
  intros Hc. unfold unicode_to_utf8, utf8_bytes. rewrite !Z.shiftr_div_pow2 by lia. change (2 ^ 6) with 64. change (2 ^ 12) with 4096. change (2 ^ 18) with 262144. rewrite !follow_byte.
  destruct (Z.ltb_spec c 0x80); [by rewrite u8_small by lia|]. destruct (Z.ltb_spec c 0x800); [cbn [app]; f_equal; apply (first_byte _ _ 5); try done; try lia; split; [apply Z.div_pos; lia|apply Z.div_lt_upper_bound; lia]|].
  destruct (Z.ltb_spec c 0x10000); [cbn [app]; rewrite div64_2; f_equal; apply (first_byte _ _ 4); try done; try lia; rewrite <- div64_2; split; [apply Z.div_pos; lia|apply Z.div_lt_upper_bound; lia]|].
  rewrite (proj2 (Z.ltb_lt c 0x00200000)) by lia. cbn [app]. rewrite div64_3, div64_2. f_equal. apply (first_byte _ _ 3); try done; try lia. rewrite <- div64_3. split; [apply Z.div_pos; lia|apply Z.div_lt_upper_bound; lia].
Qed.

Lemma follow_step n x y p : 0 <= y < 64 -> follow_loop (S n) x ((128 + y) :: p) = follow_loop n (x * 64 + y) p.
Proof.
  intros Hy. cbn [follow_loop]. rewrite (proj2 (Z.ltb_ge _ _)), (proj2 (Z.leb_gt _ _)) by lia. cbn [orb]. f_equal. rewrite (land_mask _ 6) by (done || lia). change (2 ^ 6) with 64. replace (128 + y) with (y + 2 * 64) by lia. rewrite Z.mod_add, Z.mod_small by lia. rewrite lor_shiftl_low by lia. done.
Qed.

Lemma from_utf8_bytes c rest n : 0 <= c <= 0x10FFFF -> Z.of_nat (length (utf8_bytes c)) <= n -> unicode_from_utf8 (utf8_bytes c ++ rest) n = Some (Some (c, rest)).
Proof.
  intros Hc Hn. unfold utf8_bytes in *. assert (Hm : forall x, 0 <= x mod 64 < 64) by (intros; apply Z.mod_pos_bound; lia). assert (Hd : forall x, x / 64 * 64 + x mod 64 = x) by (intros x; pose proof (Z.div_mod x 64 ltac:(lia)); lia).
  destruct (Z.ltb_spec c 0x80) as [H0|H0]; [cbn [app unicode_from_utf8]; by rewrite (proj2 (Z.ltb_lt _ _)) by lia|].
  destruct (Z.ltb_spec c 0x800) as [H1|H1].
  { assert (0 <= c / 64 < 32) by (split; [apply Z.div_pos; lia|apply Z.div_lt_upper_bound; lia]). cbn [app unicode_from_utf8 length] in *. rewrite (proj2 (Z.ltb_ge _ _)) by lia. unfold utf8_follow. rewrite (proj2 (Z.leb_le 0xc0 _)), (proj2 (Z.leb_le _ 0xdf)) by lia. cbn [andb]. rewrite (proj2 (Z.ltb_ge _ _)) by lia. cbn [Nat.sub utf8_first_code_mask utf8_min_code lookup list_lookup mbind option_bind].
    rewrite (land_mask _ 5) by (done || lia). change (2 ^ 5) with 32. replace (192 + c / 64) with (c / 64 + 6 * 32) by lia. rewrite Z.mod_add, Z.mod_small by lia. rewrite follow_step by apply Hm. cbn [follow_loop]. rewrite Hd. cbn [mbind option_bind]. rewrite (proj2 (Z.ltb_ge _ _)) by lia. done. }
  destruct (Z.ltb_spec c 0x10000) as [H2|H2].
  { assert (0 <= c / 64 / 64 < 16) by (rewrite <- div64_2; split; [apply Z.div_pos; lia|apply Z.div_lt_upper_bound; lia]). cbn [app unicode_from_utf8 length] in *. rewrite (proj2 (Z.ltb_ge _ _)) by lia. unfold utf8_follow. rewrite (proj2 (Z.leb_gt _ 0xdf)), andb_false_r by lia. rewrite (proj2 (Z.leb_le 0xe0 _)), (proj2 (Z.leb_le _ 0xef)) by lia. cbn [andb]. rewrite (proj2 (Z.ltb_ge _ _)) by lia. cbn [Nat.sub utf8_first_code_mask utf8_min_code lookup list_lookup mbind option_bind].
    rewrite (land_mask _ 4) by (done || lia). change (2 ^ 4) with 16. replace (224 + c / 64 / 64) with (c / 64 / 64 + 14 * 16) by lia. rewrite Z.mod_add, Z.mod_small by lia. rewrite !follow_step by apply Hm. cbn [follow_loop]. rewrite !Hd. cbn [mbind option_bind]. rewrite (proj2 (Z.ltb_ge _ _)) by lia. done. }
  assert (0 <= c / 64 / 64 / 64 < 8) by (rewrite <- div64_3; split; [apply Z.div_pos; lia|apply Z.div_lt_upper_bound; lia]). cbn [app unicode_from_utf8 length] in *. rewrite (proj2 (Z.ltb_ge _ _)) by lia. unfold utf8_follow. rewrite (proj2 (Z.leb_gt _ 0xdf)), (proj2 (Z.leb_gt _ 0xef)), !andb_false_r by lia. rewrite (proj2 (Z.leb_le 0xf0 _)), (proj2 (Z.leb_le _ 0xf7)) by lia. cbn [andb]. rewrite (proj2 (Z.ltb_ge _ _)) by lia. cbn [Nat.sub utf8_first_code_mask utf8_min_code lookup list_lookup mbind option_bind].
  rewrite (land_mask _ 3) by (done || lia). change (2 ^ 3) with 8. replace (240 + c / 64 / 64 / 64) with (c / 64 / 64 / 64 + 30 * 8) by lia. rewrite Z.mod_add, Z.mod_small by lia. rewrite !follow_step by apply Hm. cbn [follow_loop]. rewrite !Hd. cbn [mbind option_bind]. rewrite (proj2 (Z.ltb_ge _ _)) by lia. done.
Qed.

Lemma utf8_bytes_ok c : 0 <= c <= 0x10FFFF -> Forall (unit_ok false) (utf8_bytes c) /\ (c < 0x10000 -> (length (utf8_bytes c) <= 3)%nat) /\ (length (utf8_bytes c) <= 4)%nat.
Proof.
  intros Hc. unfold utf8_bytes. assert (Hm : forall x, 0 <= x mod 64 < 64) by (intros; apply Z.mod_pos_bound; lia). pose proof (Hm c). pose proof (Hm (c / 64)). pose proof (Hm (c / 64 / 64)).
  destruct (Z.ltb_spec c 0x80); [split_and!; [repeat constructor; unfold unit_ok; lia|cbn; lia|cbn; lia]|]. destruct (Z.ltb_spec c 0x800); [assert (0 <= c / 64 < 32) by (split; [apply Z.div_pos; lia|apply Z.div_lt_upper_bound; lia]); split_and!; [repeat constructor; unfold unit_ok; lia|cbn; lia|cbn; lia]|].
  destruct (Z.ltb_spec c 0x10000); [assert (0 <= c / 64 / 64 < 16) by (rewrite <- div64_2; split; [apply Z.div_pos; lia|apply Z.div_lt_upper_bound; lia]); split_and!; [repeat constructor; unfold unit_ok; lia|cbn; lia|cbn; lia]|].
  assert (0 <= c / 64 / 64 / 64 < 8) by (rewrite <- div64_3; split; [apply Z.div_pos; lia|apply Z.div_lt_upper_bound; lia]). split_and!; [repeat constructor; unfold unit_ok; lia|lia|cbn; lia].
Qed.

(** ** Strings to bytes *)

(** The bytes of a text. *)
Fixpoint utf8_text (cesu8 : bool) (l : list Z) : list Z :=
  match l with
  | [] => []
  | c :: l =>
      match l with
      | c1 :: l' =>
          if is_hi_surrogate c && negb cesu8 && is_lo_surrogate c1 then utf8_bytes (from_surrogate c c1) ++ utf8_text cesu8 l'
          else utf8_bytes c ++ utf8_text cesu8 l
      | [] => utf8_bytes c
      end
  end.

Lemma surrogate_range c : 0 <= c -> (is_hi_surrogate c = true <-> 0xD800 <= c < 0xDC00) /\ (is_lo_surrogate c = true <-> 0xDC00 <= c < 0xE000).
Proof.
  intros Hc. unfold is_hi_surrogate, is_lo_surrogate. change (Z.shiftr 0xD800 10) with 54. change (Z.shiftr 0xDC00 10) with 55. rewrite !Z.shiftr_div_pow2 by lia. change (2 ^ 10) with 1024. pose proof (Z.div_mod c 1024 ltac:(lia)). pose proof (Z.mod_pos_bound c 1024 ltac:(lia)). rewrite !Z.eqb_eq. split; split; lia.
Qed.

Lemma pair_char c c1 : 0xD800 <= c < 0xDC00 -> 0xDC00 <= c1 < 0xE000 -> 0x10000 <= from_surrogate c c1 <= 0x10FFFF /\ char_units (from_surrogate c c1) = [c; c1].
Proof.
  intros H1 H2. assert (E : from_surrogate c c1 = 0x10000 + (c - 0xD800) * 1024 + (c1 - 0xDC00)) by (unfold from_surrogate, u32; rewrite Z.mod_small by lia; lia). assert (Hr : 0x10000 <= from_surrogate c c1 <= 0x10FFFF) by lia. split; [done|].
  unfold char_units. rewrite (proj2 (Z.leb_le _ _)) by lia. destruct (surrogates_value _ Hr) as (-> & -> & _). rewrite E. f_equal.
  - replace (0x10000 + (c - 0xD800) * 1024 + (c1 - 0xDC00) - 0x10000) with ((c1 - 0xDC00) + (c - 0xD800) * 1024) by lia. rewrite Z.div_add, Z.div_small by lia. lia.
  - f_equal. replace (0x10000 + (c - 0xD800) * 1024 + (c1 - 0xDC00)) with ((c1 - 0xDC00) + (c - 0xD800 + 64) * 1024) by lia. rewrite Z.mod_add, Z.mod_small by lia. lia.
Qed.

Lemma pair_case c c1 (cesu8 : bool) : 0 <= c -> 0 <= c1 -> is_hi_surrogate c && negb cesu8 && is_lo_surrogate c1 = true -> 0xD800 <= c < 0xDC00 /\ 0xDC00 <= c1 < 0xE000.
Proof. intros H1 H2 E. apply andb_true_iff in E as [E E2]. apply andb_true_iff in E as [E1 _]. split; [by apply surrogate_range|by apply surrogate_range]. Qed.

(** Induction over a text by its characters. *)
Lemma text_ind (P : list Z -> Prop) : P [] -> (forall c l, (forall l', (length l' <= length l)%nat -> P l') -> P (c :: l)) -> forall l, P l.
Proof.
  intros H0 H1 l. assert (H : forall n l, (length l <= n)%nat -> P l); [|by apply (H (length l))]. induction n as [|n IH]; intros [|c l'] Hl; try done; [cbn in Hl; lia|]. apply H1. intros l2 Hl2. apply IH. cbn in Hl. lia.
Qed.

Lemma utf8_text_ok cesu8 l : Forall (unit_ok true) l -> Forall (unit_ok false) (utf8_text cesu8 l) /\ (length (utf8_text cesu8 l) <= 3 * length l)%nat.
Proof.
  induction l as [|c l IH] using text_ind; intros Hl; [by split; [constructor|cbn]|]. apply Forall_cons_1 in Hl as [Hc Hl]. unfold unit_ok in Hc. cbn [utf8_text]. destruct l as [|c1 l]; [destruct (utf8_bytes_ok c ltac:(lia)) as (B1 & B2 & _); split; [done|cbn [length]; specialize (B2 ltac:(lia)); lia]|].
  destruct (is_hi_surrogate c && negb cesu8 && is_lo_surrogate c1) eqn:E.
  - apply Forall_cons_1 in Hl as [Hc1 Hl]. unfold unit_ok in Hc1. apply pair_case in E as [E1 E2]; [|lia|lia]. destruct (pair_char c c1 E1 E2) as [Hr _]. destruct (utf8_bytes_ok (from_surrogate c c1) ltac:(lia)) as (B1 & _ & B2). destruct (IH l ltac:(cbn; lia) Hl) as [I1 I2]. split; [by apply Forall_app|rewrite length_app; cbn [length]; lia].
  - destruct (utf8_bytes_ok c ltac:(lia)) as (B1 & B2 & _). specialize (B2 ltac:(lia)). destruct (IH (c1 :: l) ltac:(lia) Hl) as [I1 I2]. split; [by apply Forall_app|rewrite length_app; cbn [length] in *; lia].
Qed.

Lemma utf8_text_longer cesu8 l : Forall (unit_ok true) l -> (length l <= length (utf8_text cesu8 l))%nat.
Proof.
  assert (Hb : forall c, (1 <= length (utf8_bytes c))%nat /\ (0x10000 <= c -> (2 <= length (utf8_bytes c))%nat)) by (intros c; unfold utf8_bytes; destruct (Z.ltb_spec c 0x80), (Z.ltb_spec c 0x800), (Z.ltb_spec c 0x10000); cbn; lia).
  induction l as [|c l IH] using text_ind; intros Hl; [done|]. apply Forall_cons_1 in Hl as [Hc Hl]. unfold unit_ok in Hc. cbn [utf8_text]. pose proof (Hb c) as [B1 _]. destruct l as [|c1 l]; [cbn [length]; lia|]. destruct (is_hi_surrogate c && negb cesu8 && is_lo_surrogate c1) eqn:E; rewrite length_app.
  - apply Forall_cons_1 in Hl as [Hc1 Hl]. unfold unit_ok in Hc1. apply pair_case in E as [E1 E2]; [|lia|lia]. destruct (pair_char c c1 E1 E2) as [Hr _]. pose proof (Hb (from_surrogate c c1)) as [_ B2]. specialize (IH l ltac:(cbn; lia) Hl). cbn [length]. lia.
  - specialize (IH (c1 :: l) ltac:(lia) Hl). cbn [length] in *. lia.
Qed.

Lemma emit_spec out rest bs q : q = Z.of_nat (length out) -> Forall (unit_ok false) bs -> (length bs <= length rest)%nat -> emit q (out ++ rest) bs = Some (Z.of_nat (length (out ++ bs)), (out ++ bs) ++ drop (length bs) rest).
Proof.
  intros -> Hb Hr. unfold emit. pose proof (put_all_spec false bs out rest (Z.of_nat (length out)) eq_refl Hb) as Hp. cbn [enc unit_bytes] in Hp. rewrite Hp by lia. cbn [mbind option_bind]. rewrite length_app, Nat2Z.inj_add, Nat.mul_1_l. done.
Qed.

Lemma utf8_bytes_small c : 0 <= c < 0x80 -> utf8_bytes c = [c].
Proof. intros H. unfold utf8_bytes. by rewrite (proj2 (Z.ltb_lt _ _)) by lia. Qed.

Lemma utf8_text_cons_plain cesu8 c l : is_hi_surrogate c = false -> utf8_text cesu8 (c :: l) = utf8_bytes c ++ utf8_text cesu8 l.
Proof. intros H. cbn [utf8_text]. destruct l; [by rewrite app_nil_r|]. by rewrite H. Qed.

Lemma cstring16_spec cesu8 l : forall out rest, Forall (unit_ok true) l -> (length (utf8_text cesu8 l) <= length rest)%nat ->
  exists rest', cstring16_loop cesu8 l (Z.of_nat (length out)) (out ++ rest) = Some (Z.of_nat (length (out ++ utf8_text cesu8 l)), (out ++ utf8_text cesu8 l) ++ rest') /\ length rest' = (length rest - length (utf8_text cesu8 l))%nat.
Proof.
  induction l as [|c l IH] using text_ind; intros out rest Hl Hr; [exists rest; cbn; rewrite app_nil_r, Nat.sub_0_r; done|]. apply Forall_cons_1 in Hl as [Hc Hl]. unfold unit_ok in Hc.
  assert (Hone : forall bs l', Forall (unit_ok false) bs -> (length l' <= length l)%nat -> Forall (unit_ok true) l' -> (length (bs ++ utf8_text cesu8 l') <= length rest)%nat -> exists rest', ('(q, B) ← emit (Z.of_nat (length out)) (out ++ rest) bs; cstring16_loop cesu8 l' q B) = Some (Z.of_nat (length (out ++ bs ++ utf8_text cesu8 l')), (out ++ bs ++ utf8_text cesu8 l') ++ rest') /\ length rest' = (length rest - length (bs ++ utf8_text cesu8 l'))%nat).
  { intros bs l' Hbs Hll Hl' Hb. rewrite length_app in Hb. rewrite emit_spec by (done || lia). cbn [mbind option_bind]. destruct (IH l' Hll (out ++ bs) (drop (length bs) rest) Hl') as (rest' & E & L); [rewrite length_drop; lia|]. exists rest'. rewrite E, <- app_assoc. split; [done|]. rewrite L, length_drop, length_app. lia. }
  cbn [cstring16_loop]. destruct (Z.ltb_spec c 0x80) as [Hs|Hs].
  - assert (Eh : is_hi_surrogate c = false) by (apply not_true_iff_false; rewrite (proj1 (surrogate_range c ltac:(lia))); lia). rewrite utf8_text_cons_plain in * by done. rewrite utf8_bytes_small in * by lia. apply Hone; [repeat constructor; unfold unit_ok; lia|lia|done|done].
  - cbn [utf8_text] in Hr |- *. destruct l as [|c1 l].
    + rewrite to_utf8_bytes by lia. destruct (Hone (utf8_bytes c) []) as (rest' & E & L); [apply utf8_bytes_ok; lia|lia|constructor|cbn [utf8_text]; by rewrite app_nil_r|]. cbn [utf8_text] in E, L. rewrite app_nil_r in E, L. by exists rest'.
    + destruct (is_hi_surrogate c && negb cesu8 && is_lo_surrogate c1) eqn:E.
      * apply Forall_cons_1 in Hl as [Hc1 Hl]. unfold unit_ok in Hc1. apply pair_case in E as [E1 E2]; [|lia|lia]. destruct (pair_char c c1 E1 E2) as [Hrg _]. rewrite to_utf8_bytes by lia. apply Hone; [apply utf8_bytes_ok; lia|cbn; lia|done|done].
      * rewrite to_utf8_bytes by lia. apply Hone; [apply utf8_bytes_ok; lia|lia|done|done].
Qed.

(** Narrow strings. *)
Lemma narrow_plain c : unit_ok false c -> is_hi_surrogate c = false.
Proof. unfold unit_ok. intros H. apply not_true_iff_false. rewrite (proj1 (surrogate_range c ltac:(lia))). lia. Qed.

Lemma narrow_bytes c : unit_ok false c -> (if c <? 0x80 then [c] else [Z.lor (Z.shiftr c 6) 0xc0; Z.lor (Z.land c 0x3f) 0x80]) = utf8_bytes c.
Proof.
  unfold unit_ok, utf8_bytes. intros H. destruct (Z.ltb_spec c 0x80); [done|]. rewrite (proj2 (Z.ltb_lt _ _)) by lia. rewrite Z.shiftr_div_pow2, (land_mask c 6) by (done || lia). change (2 ^ 6) with 64. pose proof (Z.mod_pos_bound c 64 ltac:(lia)). assert (0 <= c / 64 < 4) by (split; [apply Z.div_pos; lia|apply Z.div_lt_upper_bound; lia]).
  rewrite (Z.lor_comm (c / 64)), (Z.lor_comm (c mod 64)), !(lor_low 6) by (done || lia). done.
Qed.

Definition count_high (l : list Z) : Z := foldr (fun c n => Z.shiftr c 7 + n) 0 l.

Lemma count_high_spec cesu8 l : Forall (unit_ok false) l -> 0 <= count_high l <= Z.of_nat (length l) /\ Z.of_nat (length (utf8_text cesu8 l)) = Z.of_nat (length l) + count_high l /\ (count_high l = 0 -> utf8_text cesu8 l = l).
Proof.
  induction 1 as [|c l Hc Hl (I1 & I2 & I3)]; [done|]. rewrite utf8_text_cons_plain by (by apply narrow_plain). unfold count_high in *. cbn [foldr]. rewrite length_app. cbn [length]. set (n := foldr _ 0 l) in *. unfold unit_ok in Hc. rewrite Z.shiftr_div_pow2 by lia. change (2 ^ 7) with 128. unfold utf8_bytes. destruct (Z.ltb_spec c 0x80).
  - rewrite Z.div_small by lia. cbn [length app]. split_and!; [lia|lia|lia|]. intros E. rewrite I3 by lia. done.
  - rewrite (proj2 (Z.ltb_lt _ _)) by lia. assert (E : c / 128 = 1) by (symmetry; apply (Z.div_unique c 128 1 (c - 128)); lia). rewrite E. cbn [length]. split_and!; lia.
Qed.

Lemma cstring8_spec cesu8 l : forall out rest, Forall (unit_ok false) l -> (length (utf8_text cesu8 l) <= length rest)%nat ->
  exists rest', cstring8_loop l (Z.of_nat (length out)) (out ++ rest) = Some (Z.of_nat (length (out ++ utf8_text cesu8 l)), (out ++ utf8_text cesu8 l) ++ rest') /\ length rest' = (length rest - length (utf8_text cesu8 l))%nat.
Proof.
  induction l as [|c l IH]; intros out rest Hl Hr; [exists rest; cbn; rewrite app_nil_r, Nat.sub_0_r; done|]. apply Forall_cons_1 in Hl as [Hc Hl]. cbn [cstring8_loop]. rewrite narrow_bytes by done. rewrite utf8_text_cons_plain in * by (by apply narrow_plain). rewrite length_app in Hr.
  assert (Hb : Forall (unit_ok false) (utf8_bytes c)) by (apply utf8_bytes_ok; unfold unit_ok in Hc; lia). rewrite emit_spec by (done || lia). cbn [mbind option_bind]. destruct (IH (out ++ utf8_bytes c) (drop (length (utf8_bytes c)) rest) Hl) as (rest' & E & L); [rewrite length_drop; lia|]. exists rest'. rewrite E, <- app_assoc. split; [done|]. rewrite L, length_drop, length_app. lia.
Qed.

Section alloc.
Context (mem : nat -> bool) (blocks : nat -> Z -> list Z).
Hypothesis blocks_size : forall t n, n <= sizeof_JSString + Z.of_nat (length (blocks t n)).

(** A request that wraps around is larger than any string. *)
Lemma alloc_string_spec n t : 0 <= n < 2 ^ 32 - 2 ^ 20 ->
  match js_alloc_string mem blocks (sint 32 n) false t with
  | Some B => n + 1 <= Z.of_nat (length B)
  | None => mem t = false
  end.
Proof.
  intros Hn. unfold js_alloc_string, js_malloc. cbn [Z.b2z]. rewrite Z.shiftl_0_r. destruct (mem t); [|done]. pose proof (blocks_size t (u64 (sizeof_JSString + sint 32 (sint 32 n) + 1 - 0))) as Hb. revert Hb. generalize (Z.of_nat (length (blocks t (u64 (sizeof_JSString + sint 32 (sint 32 n) + 1 - 0))))). intros L Hb.
  assert (E : sint 32 n = n \/ sint 32 n = n - 2 ^ 32 /\ 2 ^ 31 <= n) by (unfold sint; cbv zeta; rewrite Z.mod_small by lia; change (32 - 1) with 31; destruct (Z.ltb_spec n (2 ^ 31)); lia). assert (Hr : - 2 ^ 31 <= sint 32 n < 2 ^ 31) by (unfold sint; cbv zeta; rewrite Z.mod_small by lia; change (32 - 1) with 31; destruct (Z.ltb_spec n (2 ^ 31)); lia).
  rewrite (sint32_small (sint 32 n)) in Hb by done. unfold u64, sizeof_JSString in Hb. destruct E as [E|[E ?]]; rewrite E in Hb.
  - rewrite Z.mod_small in Hb by lia. lia.
  - replace (12 + (n - 2 ^ 32) + 1 - 0) with (12 + (n - 2 ^ 32) + 1 + 2 ^ 64 + (-1) * 2 ^ 64) in Hb by lia. rewrite Z.mod_add, Z.mod_small in Hb by lia. lia.
Qed.

Lemma to_cstring_spec str cesu8 t : string_ok str ->
  match JS_ToCStringLen2 mem blocks str cesu8 t with
  | Some (Some bytes, _) => bytes = utf8_text cesu8 (chars str)
  | Some (None, t') => refused mem t t'
  | None => False
  end.
Proof.
  intros (Hl & Hm & Hu). unfold JS_STRING_LEN_MAX in Hm.
  assert (Hfin : forall B rest', B = utf8_text cesu8 (chars str) ++ rest' -> (0 < length rest')%nat -> match (B ← put8 (Z.of_nat (length (utf8_text cesu8 (chars str)))) 0 B; Some (Some (decode false (Z.of_nat (length (utf8_text cesu8 (chars str)))) B), (t + 1)%nat)) with Some (Some bytes, _) => bytes = utf8_text cesu8 (chars str) | Some (None, t') => refused mem t t' | None => False end).
  { intros B rest' -> Hr. pose proof (put_spec false (utf8_text cesu8 (chars str)) rest' 0 _ eq_refl ltac:(unfold unit_ok; lia) ltac:(cbn; lia)) as Hp. cbn [put enc] in Hp. rewrite Hp. cbn [mbind option_bind]. rewrite <- app_assoc. by apply (decode_enc false). }
  unfold JS_ToCStringLen2. destruct (is_wide_char str) eqn:Ew; cbn [negb].
  - destruct (utf8_text_ok cesu8 (chars str) Hu) as [_ U2]. pose proof (alloc_string_spec (len str * 3) t ltac:(lia)) as Ha. destruct (js_alloc_string _ _ _ _ _) as [B|]; [|by apply refused_now]. destruct (cstring16_spec cesu8 (chars str) [] B Hu ltac:(lia)) as (rest' & E & L). cbn [app length] in E. change (Z.of_nat 0) with 0 in E. rewrite E. cbn [mbind option_bind]. apply (Hfin _ rest'); [done|lia].
  - fold (count_high (chars str)). destruct (count_high_spec cesu8 (chars str) Hu) as (C1 & C2 & C3). destruct (Z.eqb_spec (count_high (chars str)) 0) as [E0|Hne]; [by rewrite C3|].
    pose proof (alloc_string_spec (len str + count_high (chars str)) t ltac:(lia)) as Ha. rewrite sint32_small in Ha by lia. destruct (js_alloc_string _ _ _ _ _) as [B|]; [|by apply refused_now]. destruct (cstring8_spec cesu8 (chars str) [] B Hu ltac:(lia)) as (rest' & E & L). cbn [app length] in E. change (Z.of_nat 0) with 0 in E. rewrite E. cbn [mbind option_bind]. apply (Hfin _ rest'); [done|lia].
Qed.

(** ** Bytes to strings *)

Lemma follow_loop_spec n : forall c p, (n <= length p)%nat -> 0 <= c -> Forall (unit_ok false) p -> exists r, follow_loop n c p = Some r /\ match r with Some (c', p') => 0 <= c' /\ length p' = (length p - n)%nat /\ Forall (unit_ok false) p' | None => True end.
Proof.
  induction n as [|n IH]; intros c p Hn Hc Hp; cbn [follow_loop]; [exists (Some (c, p)); split_and!; [done|done|lia|done]|]. destruct p as [|b p]; [cbn in Hn; lia|]. apply Forall_cons_1 in Hp as [Hb Hp]. destruct (_ || _); [by exists None|]. cbn [length] in *.
  destruct (IH (Z.lor (Z.shiftl c 6) (Z.land b 0x3f)) p) as (r & E & R); [lia| |done|]; [apply Z.lor_nonneg; split; [apply Z.shiftl_nonneg; lia|apply Z.land_nonneg; lia]|]. exists r. split; [done|]. destruct r as [[c' p']|]; [|done]. destruct R as (R1 & R2 & R3). split_and!; [done|lia|done].
Qed.

Lemma from_utf8_spec b p : Forall (unit_ok false) (b :: p) -> 128 <= b -> exists r, unicode_from_utf8 (b :: p) (Z.of_nat (length (b :: p))) = Some r /\ match r with Some (c, p') => 0 <= c /\ (length p' + 1 <= length p)%nat /\ Forall (unit_ok false) p' | None => True end.
Proof.
  intros Hp Hb. apply Forall_cons_1 in Hp as [_ Hp]. cbn [unicode_from_utf8]. rewrite (proj2 (Z.ltb_ge _ _)) by lia. destruct (utf8_follow b) as [n|] eqn:En; [|by exists None]. cbn [length]. destruct (Z.ltb_spec (Z.of_nat (S (length p)) - 1) (Z.of_nat n)); [by exists None|].
  assert (Hn : (1 <= n <= 5)%nat) by (unfold utf8_follow in En; repeat case_match; simplify_eq; lia). destruct (lookup_lt_is_Some_2 utf8_first_code_mask (n - 1) ltac:(cbn; lia)) as [mask ->]. destruct (lookup_lt_is_Some_2 utf8_min_code (n - 1) ltac:(cbn; lia)) as [m ->]. cbn [mbind option_bind].
  destruct (follow_loop_spec n (Z.land b mask) p ltac:(lia)) as (r & -> & R); [apply Z.land_nonneg; lia|done|]. cbn [mbind option_bind]. destruct r as [[c p']|]; [|by exists None]. cbn [mbind option_bind]. eexists. split; [reflexivity|]. destruct (_ <? _); [done|]. destruct R as (R1 & R2 & R3). split_and!; [done|lia|done].
Qed.

Lemma skip_follow_spec p : Forall (unit_ok false) p -> (length (skip_follow p) <= length p)%nat /\ Forall (unit_ok false) (skip_follow p).
Proof. induction 1 as [|c p Hc Hp [I1 I2]]; [done|]. cbn [skip_follow]. destruct (_ && _); [cbn; split; [lia|done]|split; [done|by constructor]]. Qed.

Lemma skip_invalid_spec b p : Forall (unit_ok false) (b :: p) -> 128 <= b -> (length (skip_invalid (b :: p)) <= length p)%nat /\ Forall (unit_ok false) (skip_invalid (b :: p)).
Proof.
  intros Hp Hb. unfold skip_invalid. cbn [skip_follow]. pose proof (Forall_cons_1 _ _ _ Hp) as [_ Hp']. destruct (skip_follow_spec p Hp') as [S1 S2]. destruct (_ && _); [|done]. destruct (skip_follow p) as [|c q]; [split; [cbn; lia|constructor]|]. apply Forall_cons_1 in S2 as [_ S2]. destruct (skip_follow_spec q S2) as [Q1 Q2]. split; [cbn in S1; lia|done].
Qed.

(** The text of any bytes: a sequence that is no character, or a code
    beyond the last character, is read as U+FFFD. *)
Fixpoint utf8_read (fuel : nat) (p : list Z) : list Z :=
  match fuel with
  | O => []
  | S fuel =>
      match p with
      | [] => []
      | b :: p' =>
          if b <? 128 then b :: utf8_read fuel p'
          else
            match unicode_from_utf8 p (Z.of_nat (length p)) with
            | Some (Some (c, p')) => if c <=? 0x10FFFF then char_units c ++ utf8_read fuel p' else 0xfffd :: utf8_read fuel (skip_invalid p)
            | _ => 0xfffd :: utf8_read fuel (skip_invalid p)
            end
      end
  end.

Lemma utf8_read_length fuel : forall p, Forall (unit_ok false) p -> (length (utf8_read fuel p) <= length p)%nat.
Proof.
  induction fuel as [|fuel IH]; intros p Hp; [cbn; lia|]. destruct p as [|b p]; [done|]. cbn [utf8_read]. destruct (Z.ltb_spec b 128) as [Hb|Hb]; [apply Forall_cons_1 in Hp as [_ Hp]; specialize (IH p Hp); cbn; lia|].
  pose proof (skip_invalid_spec b p Hp Hb) as [S1 S2]. pose proof (IH _ S2) as Hs. destruct (from_utf8_spec b p Hp Hb) as (r & -> & R). destruct r as [[c p']|]; [|cbn [length]; lia]. destruct R as (R1 & R2 & R3). specialize (IH p' R3). destruct (_ <=? _); [|cbn [length]; lia]. rewrite length_app. unfold char_units. destruct (_ <=? _); cbn [length]; lia.
Qed.

(** The text of a string is read back from its bytes. *)
Lemma utf8_bytes_high c : 0x80 <= c <= 0x10FFFF -> exists b p, utf8_bytes c = b :: p /\ 128 <= b.
Proof.
  intros H. unfold utf8_bytes. rewrite (proj2 (Z.ltb_ge _ _)) by lia. pose proof (Z.div_pos c 64 ltac:(lia) ltac:(lia)). pose proof (Z.div_pos (c / 64) 64 ltac:(lia) ltac:(lia)). pose proof (Z.div_pos (c / 64 / 64) 64 ltac:(lia) ltac:(lia)). destruct (_ <? _); [|destruct (_ <? _)]; eexists _, _; (split; [reflexivity|lia]).
Qed.

Lemma utf8_read_char fuel c rest : 0 <= c <= 0x10FFFF -> utf8_read (S fuel) (utf8_bytes c ++ rest) = char_units c ++ utf8_read fuel rest.
Proof.
  intros Hc. destruct (Z.ltb_spec c 0x80) as [Hs|Hs].
  - rewrite utf8_bytes_small by lia. cbn [app utf8_read]. rewrite (proj2 (Z.ltb_lt _ _)) by lia. unfold char_units. rewrite (proj2 (Z.leb_gt _ _)) by lia. done.
  - destruct (utf8_bytes_high c ltac:(lia)) as (b & p & E & Hb). cbn [utf8_read]. rewrite from_utf8_bytes by (done || (rewrite length_app; lia)). rewrite (proj2 (Z.leb_le c _)) by lia. rewrite E. cbn [app]. rewrite (proj2 (Z.ltb_ge _ _)) by lia. done.
Qed.

Lemma utf8_read_text cesu8 l : forall fuel, Forall (unit_ok true) l -> (length l < fuel)%nat -> utf8_read fuel (utf8_text cesu8 l) = l.
Proof.
  induction l as [|c l IH] using text_ind; intros fuel Hl Hf; [by destruct fuel|]. destruct fuel as [|fuel]; [lia|]. apply Forall_cons_1 in Hl as [Hc Hl]. unfold unit_ok in Hc. cbn [length] in Hf.
  assert (Hone : char_units c = [c]) by (unfold char_units; by rewrite (proj2 (Z.leb_gt _ _)) by lia).
  cbn [utf8_text]. destruct l as [|c1 l]; [pose proof (utf8_read_char fuel c [] ltac:(lia)) as E; rewrite app_nil_r in E; rewrite E, Hone; by destruct fuel|]. cbn [length] in Hf. destruct (is_hi_surrogate c && negb cesu8 && is_lo_surrogate c1) eqn:E.
  - apply Forall_cons_1 in Hl as [Hc1 Hl]. unfold unit_ok in Hc1. apply pair_case in E as [E1 E2]; [|lia|lia]. destruct (pair_char c c1 E1 E2) as [Hr Eu]. rewrite utf8_read_char by lia. rewrite Eu, IH by (done || (cbn; lia)). done.
  - rewrite utf8_read_char by lia. rewrite Hone, IH by (done || (cbn; lia)). done.
Qed.

(** A buffer that holds [l] or has failed for lack of memory since [t0]. *)
Definition holds_or_failed (t0 t : nat) (s : StringBuffer) (l : list Z) : Prop := sb_ok s l \/ failed s /\ refused mem t0 t.

(** One append whose result is not looked at. *)
Lemma append_spec t0 t s l x total (f : StringBuffer -> nat -> option (bool * StringBuffer * nat)) : (t0 <= t)%nat -> holds_or_failed t0 t s l -> (failed s -> f s t = Some (false, s, t)) -> (sb_ok s l -> outcome mem t total (l ++ x) (f s t)) -> total <= JS_STRING_LEN_MAX ->
  exists b s' t', f s t = Some (b, s', t') /\ (t <= t')%nat /\ holds_or_failed t0 t' s' (l ++ x).
Proof.
  intros Ht [Hs|[Hs Hr]] Hf Ho Hl.
  - specialize (Ho Hs). destruct (f s t) as [[[[] s'] t']|]; [| |done]; eexists _, s', t'; (split; [reflexivity|]).
    + destruct Ho as [H1 H2]. split; [done|by left].
    + destruct Ho as (H1 & H2 & H3). split; [done|]. right. split; [done|]. destruct H3 as [H3|H3]; [eapply refused_mono; [done|lia|lia]|lia].
  - rewrite (Hf Hs). eexists _, s, t. split; [reflexivity|]. split; [lia|]. by right.
Qed.

Lemma append_unit t0 t s l c : (t0 <= t)%nat -> holds_or_failed t0 t s l -> 0 <= c < 2 ^ 16 -> Z.of_nat (length l) + 1 <= JS_STRING_LEN_MAX -> exists b s' t', string_buffer_putc16 mem blocks s c t = Some (b, s', t') /\ (t <= t')%nat /\ holds_or_failed t0 t' s' (l ++ [c]).
Proof. intros H1 H2 H3 H4. apply (append_spec t0 t s l [c] (Z.of_nat (length l) + 1) (fun s t => string_buffer_putc16 mem blocks s c t)); [done|done|by apply failed_putc16|intros; by apply putc16_spec|done]. Qed.

Lemma append_byte t0 t s l c : (t0 <= t)%nat -> holds_or_failed t0 t s l -> 0 <= c < 2 ^ 8 -> Z.of_nat (length l) + 1 <= JS_STRING_LEN_MAX -> exists b s' t', string_buffer_putc8 mem blocks s c t = Some (b, s', t') /\ (t <= t')%nat /\ holds_or_failed t0 t' s' (l ++ [c]).
Proof. intros H1 H2 H3 H4. apply (append_spec t0 t s l [c] (Z.of_nat (length l) + 1) (fun s t => string_buffer_putc8 mem blocks s c t)); [done|done|by apply failed_putc8|intros; by apply putc8_spec|done]. Qed.

Lemma new_string_loop_spec t0 fuel : forall p s l t, (length p < fuel)%nat -> Forall (unit_ok false) p -> Z.of_nat (length l + length p) <= JS_STRING_LEN_MAX -> (t0 <= t)%nat -> holds_or_failed t0 t s l ->
  exists s' t', new_string_loop mem blocks fuel s p t = Some (s', t') /\ (t <= t')%nat /\ holds_or_failed t0 t' s' (l ++ utf8_read fuel p).
Proof.
  induction fuel as [|fuel IH]; intros p s l t Hf Hp Hl Ht Hs; [lia|]. destruct p as [|b p]; [exists s, t; cbn; rewrite app_nil_r; split_and!; [done|lia|done]|]. cbn [new_string_loop utf8_read length] in *.
  assert (Hnext : forall p' s' x t', (length p' < fuel)%nat -> Forall (unit_ok false) p' -> (length x + length p' <= S (length p))%nat -> (t <= t')%nat -> holds_or_failed t0 t' s' (l ++ x) -> exists s2 t2, new_string_loop mem blocks fuel s' p' t' = Some (s2, t2) /\ (t <= t2)%nat /\ holds_or_failed t0 t2 s2 (l ++ x ++ utf8_read fuel p')).
  { intros p' s' x t' F1 F2 F3 F4 F5. destruct (IH p' s' (l ++ x) t') as (s2 & t2 & E & L & R); [done|done|rewrite length_app; lia|lia|done|]. exists s2, t2. rewrite app_assoc. split_and!; [done|lia|done]. }
  destruct (Z.ltb_spec b 128) as [Hb|Hb].
  - apply Forall_cons_1 in Hp as [Hbr Hp]. destruct (append_byte t0 t s l b) as (bb & s1 & t1 & -> & L1 & R1); [done|done|unfold unit_ok in Hbr; lia|lia|]. cbn [mbind option_bind]. apply (Hnext p s1 [b] t1); [lia|done|cbn; lia|done|done].
  - rewrite sint32_small by (unfold JS_STRING_LEN_MAX in *; lia). change (S (length p)) with (length (b :: p)). pose proof (skip_invalid_spec b p Hp Hb) as [S1 S2].
    assert (Hbad : exists s2 t2, ('(_, b0, t) ← string_buffer_putc16 mem blocks s 0xfffd t; new_string_loop mem blocks fuel b0 (skip_invalid (b :: p)) t) = Some (s2, t2) /\ (t <= t2)%nat /\ holds_or_failed t0 t2 s2 (l ++ 0xfffd :: utf8_read fuel (skip_invalid (b :: p)))).
    { destruct (append_unit t0 t s l 0xfffd) as (bb & s1 & t1 & -> & L1 & R1); [done|done|lia|lia|]. cbn [mbind option_bind]. apply (Hnext (skip_invalid (b :: p)) s1 [0xfffd] t1); [lia|done|cbn [length]; lia|done|done]. }
    destruct (from_utf8_spec b p Hp Hb) as (r & -> & R). cbn [mbind option_bind]. destruct r as [[c p']|]; [|exact Hbad]. destruct R as (C1 & C2 & C3). destruct (Z.ltb_spec c 0x10000) as [Hc|Hc].
    + rewrite (proj2 (Z.leb_le c _)) by lia. unfold char_units. rewrite (proj2 (Z.leb_gt _ _)) by lia. destruct (append_unit t0 t s l c) as (bb & s1 & t1 & -> & L1 & R1); [done|done|lia|lia|]. cbn [mbind option_bind]. apply (Hnext p' s1 [c] t1); [lia|done|cbn [length]; lia|done|done].
    + destruct (Z.leb_spec c 0x10FFFF) as [Hc2|Hc2]; [|exact Hbad]. unfold char_units. rewrite (proj2 (Z.leb_le _ _)) by lia. pose proof (surrogates_value c ltac:(lia)) as (_ & _ & Hh & Hlo).
      destruct (append_unit t0 t s l (get_hi_surrogate c)) as (bb & s1 & t1 & -> & L1 & R1); [done|done|lia|lia|]. cbn [mbind option_bind]. destruct (append_unit t0 t1 s1 (l ++ [get_hi_surrogate c]) (get_lo_surrogate c)) as (bb2 & s2 & t2 & -> & L2 & R2); [lia|done|lia|rewrite length_app; cbn [length]; lia|]. cbn [mbind option_bind]. rewrite <- app_assoc in R2. cbn [app] in R2.
      apply (Hnext p' s2 [get_hi_surrogate c; get_lo_surrogate c] t2); [lia|done|cbn [length]; lia|lia|done].
Qed.

Lemma utf8_read_fuel f1 : forall f2 p, Forall (unit_ok false) p -> (length p < f1)%nat -> (length p < f2)%nat -> utf8_read f1 p = utf8_read f2 p.
Proof.
  induction f1 as [|f1 IH]; intros f2 p Hp H1 H2; [lia|]. destruct f2 as [|f2]; [lia|]. destruct p as [|b p]; [done|]. cbn [utf8_read length] in *. destruct (Z.ltb_spec b 128) as [Hb|Hb]; [apply Forall_cons_1 in Hp as [_ Hp]; f_equal; apply IH; (done || lia)|].
  change (S (length p)) with (length (b :: p)). pose proof (skip_invalid_spec b p Hp Hb) as [S1 S2]. pose proof (IH f2 _ S2 ltac:(lia) ltac:(lia)) as Es. destruct (from_utf8_spec b p Hp Hb) as (r & -> & R). destruct r as [[c p']|]; [|by rewrite Es]. destruct R as (R1 & R2 & R3). rewrite Es. rewrite (IH f2 p' R3) by lia. done.
Qed.

(** The text of any bytes. *)
Definition utf8_string (p : list Z) : list Z := utf8_read (length p + 1) p.

Lemma utf8_string_ascii p : Forall (unit_ok false) p -> forall n, (n <= count_ascii p)%nat -> utf8_string p = take n p ++ utf8_string (drop n p).
Proof.
  unfold utf8_string. induction 1 as [|b p Hb Hp IH]; intros n Hn; [destruct n; [done|cbn in Hn; lia]|]. destruct n as [|n]; [done|]. cbn [count_ascii] in Hn. destruct (Z.ltb_spec b 128) as [Hs|Hs]; [|lia]. cbn [length Nat.add utf8_read take drop app]. rewrite (proj2 (Z.ltb_lt _ _)) by lia. f_equal. apply IH. lia.
Qed.

Lemma count_ascii_le p : (count_ascii p <= length p)%nat.
Proof. induction p as [|c p IH]; [done|]. cbn. destruct (_ <? _); lia. Qed.

(** A string, or an exception because memory was refused. *)
Definition string_result (t : nat) (l : list Z) (r : option (option JSValue * nat)) : Prop :=
  match r with
  | Some (Some v, _) => exists p, v = V_string p /\ string_ok p /\ chars p = l
  | Some (None, t') => refused mem t t'
  | None => False
  end.

Lemma empty_string_ok : exists p, empty_string = V_string p /\ string_ok p /\ chars p = [].
Proof. eexists. split; [reflexivity|]. unfold string_ok, JS_STRING_LEN_MAX. cbn. split_and!; [done|lia|constructor|done]. Qed.

Lemma new_narrow_string_spec buf t : Forall (unit_ok false) buf -> Z.of_nat (length buf) <= JS_STRING_LEN_MAX -> string_result t buf (js_new_string8_len mem blocks buf t).
Proof.
  intros Hb Hl. unfold js_new_string8_len, JS_STRING_LEN_MAX in *. destruct (Z.leb_spec (Z.of_nat (length buf)) 0); [destruct buf; [exact empty_string_ok|cbn in *; lia]|]. pose proof (alloc_string_spec (Z.of_nat (length buf)) t ltac:(lia)) as Ha. rewrite sint32_small in Ha by lia. destruct (js_alloc_string _ _ _ _ _) as [B|]; [|by apply refused_now].
  pose proof (put_all_spec false (buf ++ [0]) [] B 0 eq_refl) as Hp. cbn [enc app unit_bytes] in Hp. rewrite Hp; [|apply Forall_app; split; [done|repeat constructor; lia]|rewrite length_app; cbn [length]; lia]. cbn [mbind option_bind]. rewrite <- app_assoc. eexists. split; [reflexivity|]. rewrite (decode_enc false buf) by done. by split_and!.
Qed.

Lemma new_string16_spec buf t : Forall (unit_ok true) buf -> Z.of_nat (length buf) <= JS_STRING_LEN_MAX -> string_result t buf (js_new_string16_len mem blocks buf t).
Proof.
  intros Hb Hl. unfold js_new_string16_len, js_alloc_string, js_malloc, JS_STRING_LEN_MAX in *. cbn [Z.b2z]. rewrite Z.shiftl_mul_pow2, Z.pow_1_r by lia. pose proof (request_size (Z.of_nat (length buf) * 2) ltac:(lia) true) as Er. cbn [Z.b2z] in Er. rewrite Er. destruct (mem t) eqn:Em; [|by apply refused_now]. pose proof (blocks_size t (sizeof_JSString + Z.of_nat (length buf) * 2 + 1 - Z.b2z true)) as Hs. cbn [Z.b2z] in *.
  pose proof (put_all_spec true buf [] (blocks t (sizeof_JSString + Z.of_nat (length buf) * 2 + 1 - 1)) 0 eq_refl Hb) as Hp. cbn [enc enc16 app unit_bytes] in Hp. rewrite Hp by lia. cbn [mbind option_bind]. eexists. split; [reflexivity|]. rewrite (decode_enc true buf) by done. by split_and!.
Qed.

Lemma sub_string_spec p start end_ t : string_ok p -> 0 <= start -> end_ <= len p -> string_result t (sub_text p start end_) (js_sub_string mem blocks p start end_ t).
Proof.
  intros Hp Hs He. unfold js_sub_string. destruct (Z.eqb_spec start 0) as [E1|N1], (Z.eqb_spec end_ (len p)) as [E2|N2]; cbn [andb].
  1: { exists p. split_and!; [done|done|]. unfold sub_text. rewrite E1, E2, drop_0, take_ge; [done|]. destruct Hp as (Hl & _). lia. }
  all: destruct (Z.leb_spec (end_ - start) 0) as [Hle|Hgt]; [unfold sub_text; replace (Z.to_nat (end_ - start)) with 0%nat by lia; exact empty_string_ok|]; rewrite units_spec by (done || lia); cbn [mbind option_bind]; fold (sub_text p start end_);
    pose proof (Forall_take _ (Z.to_nat (end_ - start)) _ (Forall_drop _ (Z.to_nat start) _ (string_units_ok p Hp))) as Hu; fold (sub_text p start end_) in Hu;
    assert (Hl : Z.of_nat (length (sub_text p start end_)) <= JS_STRING_LEN_MAX) by (unfold sub_text; rewrite length_take; pose proof (rope_len (V_string p) Hp) as Hm; cbn [string_rope_get_len] in Hm; lia);
    (destruct (is_wide_char p); cbn [andb]; [|by apply new_narrow_string_spec]); (destruct (Z.ltb_spec 0xFF (foldl Z.lor 0 (sub_text p start end_))) as [Hw|Hw]; [by apply new_string16_spec|]);
    (apply new_narrow_string_spec; [|done]); (destruct (foldl_lor_bound (sub_text p start end_) 0) as [_ F]; [eapply Forall_impl; [exact Hu|]; unfold unit_ok; intros; lia|lia|]); destruct F as [F _]; (destruct F as [_ F]; [lia|]); (eapply Forall_impl; [apply Forall_and; split; [exact Hu|exact F]|]); unfold unit_ok; cbn; intros; lia.
Qed.

Lemma new_string_spec buf t : Forall (unit_ok false) buf -> Z.of_nat (length buf) <= JS_STRING_LEN_MAX -> string_result t (utf8_string buf) (JS_NewStringLen mem blocks buf t).
Proof.
  intros Hb Hl. pose proof (count_ascii_le buf) as Hn. unfold JS_NewStringLen. rewrite (proj2 (Z.ltb_ge _ _)) by lia. rewrite (utf8_string_ascii buf Hb (count_ascii buf)) by lia. destruct (Nat.eqb_spec (count_ascii buf) (length buf)) as [E|Hne].
  - rewrite E, take_ge, drop_ge by lia. cbn. rewrite app_nil_r. by apply new_narrow_string_spec.
  - unfold JS_STRING_LEN_MAX in Hl. rewrite sint32_small by lia. unfold string_buffer_init. pose proof (init_buffer_spec mem blocks blocks_size (Z.of_nat (length buf)) false t ltac:(unfold JS_STRING_LEN_MAX; lia)) as Hi. destruct (string_buffer_init2 _ _ _ _ _) as [[[] s] t1]; [|destruct Hi as (_ & -> & Hi); exact Hi]. destruct Hi as [Hi ->].
    set (p1 := take (count_ascii buf) buf). set (p2 := drop (count_ascii buf) buf). assert (Hlen : (length p1 + length p2 = length buf)%nat) by (unfold p1, p2; rewrite length_take, length_drop; lia). assert (H1 : Forall (unit_ok false) p1) by (by apply Forall_take). assert (H2 : Forall (unit_ok false) p2) by (by apply Forall_drop).
    pose proof (write8_spec mem blocks blocks_size s [] p1 (t + 1) Hi H1) as Hw. cbn [app] in Hw. destruct (string_buffer_write8 _ _ _ _ _) as [[[ok s1] t1]|]; [|done]. cbn [mbind option_bind].
    assert (Hh : holds_or_failed t t1 s1 p1 /\ (t <= t1)%nat) by (destruct ok; [destruct Hw as [W1 W2]; split; [by left|lia]|]; destruct Hw as (W1 & W2 & W3); split; [right; split; [done|]|lia]; destruct W3 as [W3|W3]; [eapply refused_mono; [done|lia|lia]|unfold JS_STRING_LEN_MAX in W3; lia]). destruct Hh as [Hh Ht1].
    destruct (new_string_loop_spec t (length buf + 1) p2 s1 p1 t1) as (s2 & t2 & -> & L2 & R2); [lia|done|unfold JS_STRING_LEN_MAX; lia|done|done|]. cbn [mbind option_bind]. assert (Eu : utf8_read (length buf + 1) p2 = utf8_string p2) by (apply utf8_read_fuel; [done|lia|lia]). rewrite Eu in R2.
    assert (Hlt : Z.of_nat (length (p1 ++ utf8_string p2)) <= JS_STRING_LEN_MAX) by (pose proof (utf8_read_length (length p2 + 1) p2 H2); fold (utf8_string p2) in *; rewrite length_app; unfold JS_STRING_LEN_MAX; lia).
    destruct R2 as [R2|[R2 R3]]; [destruct (end_spec mem blocks blocks_size s2 _ t2 R2 Hlt) as (q & t3 & -> & Q1 & Q2 & _); exists q; by split_and!|]. rewrite failed_end by done. done.
Qed.
End alloc.
