(* ===== verification/StringsUse.v ===== *)
(** * Strings: the contract of buffers, flat ropes and UTF-8

    A program of appends gives the text it appends; making a rope flat keeps
    its text; UTF-8 text is read back as the string it was written from, and
    any bytes make a string. *)
From S2P Require Import Prelude Ropes RopesProps RopesCompare RopesUse RopesFlat Strings StringsProps StringsUtf8.

(** ** Programs of appends *)

Inductive buffer_op :=
  | Op_putc8 (c : Z) | Op_putc16 (c : Z) | Op_putc (c : Z)
  | Op_write8 (p : list Z) | Op_write16 (p : list Z)
  | Op_concat (p : JSString) (from to : Z) | Op_value (v : JSValue) | Op_fill (c count : Z).

Definition op_valid (op : buffer_op) : Prop :=
  match op with
  | Op_putc8 c => 0 <= c < 2 ^ 8
  | Op_putc16 c => 0 <= c < 2 ^ 16
  | Op_putc c => 0 <= c <= 0x10FFFF
  | Op_write8 p => Forall (unit_ok false) p
  | Op_write16 p => Forall (unit_ok true) p
  | Op_concat p from to => string_ok p /\ 0 <= from /\ to <= len p
  | Op_value v => rope_ok v
  | Op_fill c count => 0 <= c < 2 ^ 16 /\ 0 <= count
  end.

Definition op_text (op : buffer_op) : list Z :=
  match op with
  | Op_putc8 c | Op_putc16 c => [c]
  | Op_putc c => char_units c
  | Op_write8 p | Op_write16 p => p
  | Op_concat p from to => sub_text p from to
  | Op_value v => text v
  | Op_fill c count => replicate (Z.to_nat count) c
  end.

Section use.
Context (mem : nat -> bool) (blocks : nat -> Z -> list Z).

Definition run_op (s : StringBuffer) (op : buffer_op) (t : nat) : option (bool * StringBuffer * nat) :=
  match op with
  | Op_putc8 c => string_buffer_putc8 mem blocks s c t
  | Op_putc16 c => string_buffer_putc16 mem blocks s c t
  | Op_putc c => string_buffer_putc mem blocks s c t
  | Op_write8 p => string_buffer_write8 mem blocks s p t
  | Op_write16 p => string_buffer_write16 mem blocks s p t
  | Op_concat p from to => string_buffer_concat mem blocks s p from to t
  | Op_value v => string_buffer_concat_value mem blocks s v t
  | Op_fill c count => string_buffer_fill mem blocks s c count t
  end.

(** What an operation returns need not be looked at. *)
Fixpoint run_ops (s : StringBuffer) (ops : list buffer_op) (t : nat) : option (StringBuffer * nat) :=
  match ops with
  | [] => Some (s, t)
  | op :: ops => '(_, s, t) ← run_op s op t; run_ops s ops t
  end.

(** A buffer from its beginning to its end. *)
Definition build (size : Z) (wide : bool) (ops : list buffer_op) (t : nat) : option (option JSValue * nat) :=
  let '(_, s, t) := string_buffer_init2 mem blocks size wide t in
  '(s, t) ← run_ops s ops t;
  string_buffer_end mem blocks s t.

Hypothesis blocks_size : forall t n, n <= sizeof_JSString + Z.of_nat (length (blocks t n)).

Lemma run_op_spec s l op t : sb_ok s l -> op_valid op -> outcome mem t (Z.of_nat (length (l ++ op_text op))) (l ++ op_text op) (run_op s op t).
Proof.
  intros Hok Hv. destruct op; cbn [op_valid op_text run_op] in *.
  - eapply outcome_mono; [by apply putc8_spec|lia|rewrite length_app; cbn; lia].
  - eapply outcome_mono; [by apply putc16_spec|lia|rewrite length_app; cbn; lia].
  - by apply putc_spec.
  - by apply write8_spec.
  - by apply write16_spec.
  - destruct Hv as (? & ? & ?). by apply concat_buffer_spec.
  - by apply concat_value_spec.
  - destruct Hv as (? & ?). by apply fill_buffer_spec.
Qed.

Lemma failed_write8 s p t : failed s -> exists b, string_buffer_write8 mem blocks s p t = Some (b, s, t).
Proof.
  intros Hf. pose proof Hf as (H1 & H2 & H3 & H4). unfold string_buffer_write8, put_units. rewrite H3, H4, failed_realloc by done. destruct p; [by eexists|]. rewrite (proj2 (Z.ltb_lt _ _)) by (cbn [length]; lia). by eexists.
Qed.

Lemma failed_write16 s p t : failed s -> exists b, string_buffer_write16 mem blocks s p t = Some (b, s, t).
Proof.
  intros Hf. pose proof Hf as (H1 & H2 & H3 & H4). unfold string_buffer_write16, put_units. rewrite H3, H4, failed_realloc by done. destruct p; [cbn; rewrite andb_false_r; by eexists|]. rewrite (proj2 (Z.ltb_lt _ _)) by (cbn [length]; lia). by eexists.
Qed.

(** A buffer that has failed stays so. *)
Lemma failed_run_op s op t : failed s -> op_valid op -> exists b, run_op s op t = Some (b, s, t).
Proof.
  intros Hf Hv. pose proof Hf as (H1 & H2 & H3 & H4). destruct op; cbn [run_op op_valid] in *.
  - rewrite failed_putc8 by done. by eexists.
  - rewrite failed_putc16 by done. by eexists.
  - unfold string_buffer_putc, string_buffer_putc_slow. rewrite H3, H4. cbn [Z.ltb Z.compare andb]. rewrite !failed_putc16 by done. destruct (_ <=? _); by eexists.
  - by apply failed_write8.
  - by apply failed_write16.
  - unfold string_buffer_concat. destruct Hv as (Hp & ? & ?). destruct (Z.leb_spec to from); [by eexists|]. rewrite units_spec by (done || lia). cbn [mbind option_bind]. destruct (is_wide_char p); [by apply failed_write16|by apply failed_write8].
  - destruct v; cbn [string_buffer_concat_value]; rewrite H1; by eexists.
  - unfold string_buffer_fill. rewrite H3, H4, failed_realloc by done. destruct (Z.ltb_spec 0 (0 + count)); [by eexists|]. replace (Z.to_nat count) with 0%nat by lia. by eexists.
Qed.

Lemma run_ops_failed ops : forall s t, failed s -> Forall op_valid ops -> run_ops s ops t = Some (s, t).
Proof. induction ops as [|op ops IH]; intros s t Hf Hv; [done|]. apply Forall_cons_1 in Hv as [Hv Hvs]. cbn [run_ops]. destruct (failed_run_op s op t Hf Hv) as (b & ->). cbn [mbind option_bind]. by apply IH. Qed.

Lemma run_ops_spec ops : forall s l t, sb_ok s l -> Forall op_valid ops -> Z.of_nat (length (l ++ (ops ≫= op_text))) <= JS_STRING_LEN_MAX ->
  exists s' t', run_ops s ops t = Some (s', t') /\ (t <= t')%nat /\ (sb_ok s' (l ++ (ops ≫= op_text)) \/ failed s' /\ refused mem t t').
Proof.
  induction ops as [|op ops IH]; intros s l t Hok Hv Hl; [exists s, t; cbn; rewrite app_nil_r; split_and!; [done|lia|by left]|]. apply Forall_cons_1 in Hv as [Hv Hvs]. cbn [run_ops mbind list_bind] in *. fold (ops ≫= op_text) in *. rewrite app_assoc in Hl |- *.
  pose proof (run_op_spec s l op t Hok Hv) as H. destruct (run_op s op t) as [[[[] s1] t1]|]; cbn [mbind option_bind]; [| |done].
  - destruct H as [H1 H2]. destruct (IH s1 (l ++ op_text op) t1 H1 Hvs Hl) as (s' & t' & E & L & R). exists s', t'. split_and!; [done|lia|]. destruct R as [R|[R1 R2]]; [by left|right]. split; [done|]. eapply refused_mono; [done|lia|lia].
  - destruct H as (H1 & H2 & H3). rewrite run_ops_failed by done. exists s1, t1. split_and!; [done|done|]. right. split; [done|]. destruct H3 as [H3|H3]; [done|]. rewrite !length_app in *. lia.
Qed.

Lemma build_spec size wide ops t : 0 <= size <= JS_STRING_LEN_MAX -> Forall op_valid ops -> Z.of_nat (length (ops ≫= op_text)) <= JS_STRING_LEN_MAX ->
  exists r t', build size wide ops t = Some (r, t') /\ match r with Some v => exists p, v = V_string p /\ string_ok p /\ chars p = ops ≫= op_text | None => refused mem t t' end.
Proof.
  intros Hs Hv Hl. unfold build. pose proof (init_buffer_spec mem blocks blocks_size size wide t Hs) as Hi. destruct (string_buffer_init2 _ _ _ _ _) as [[[] s] t1].
  - destruct Hi as [H1 ->]. destruct (run_ops_spec ops s [] (t + 1) H1 Hv Hl) as (s' & t' & -> & L & R). cbn [mbind option_bind app] in *. destruct R as [R|[R1 R2]].
    + destruct (end_spec mem blocks blocks_size s' _ t' R Hl) as (p & t2 & -> & P1 & P2 & P3 & _). eexists _, t2. split; [reflexivity|]. by exists p.
    + rewrite failed_end by done. eexists _, t'. split; [reflexivity|]. eapply refused_mono; [exact R2|lia|lia].
  - destruct Hi as (H1 & -> & H3). rewrite run_ops_failed by done. cbn [mbind option_bind]. rewrite failed_end by done. eexists _, (t + 1)%nat. by split.
Qed.

(** Three parts of a message. *)
Lemma concat_string3_spec str1 p str3 t : Forall (unit_ok false) str1 -> string_ok p -> Forall (unit_ok false) str3 -> Z.of_nat (length (str1 ++ chars p ++ str3)) <= JS_STRING_LEN_MAX -> string_result mem t (str1 ++ chars p ++ str3) (JS_ConcatString3 mem blocks str1 p str3 t).
Proof.
  intros H1 Hp H3 Hl. pose proof Hp as (Ep & _). assert (Et : [Op_write8 str1; Op_concat p 0 (len p); Op_write8 str3] ≫= op_text = str1 ++ chars p ++ str3) by (cbn; unfold sub_text; rewrite drop_0, take_ge, app_nil_r by lia; done).
  destruct (build_spec (Z.of_nat (length str1) + len p + Z.of_nat (length str3)) (is_wide_char p) [Op_write8 str1; Op_concat p 0 (len p); Op_write8 str3] t) as (r & t' & E & R); [rewrite !length_app in Hl; lia|repeat (apply Forall_cons; split); cbn [op_valid]; (done || (split_and!; (done || lia)))|by rewrite Et|]. rewrite Et in R.
  unfold JS_ConcatString3. unfold build in E. cbn [run_ops run_op] in E. destruct (string_buffer_init2 _ _ _ _ _) as [[ok s] t1] eqn:Ei. destruct ok.
  - destruct (string_buffer_write8 _ _ s _ _) as [[[? s1] ?]|]; [|done]. cbn [mbind option_bind] in *. destruct (string_buffer_concat _ _ s1 _ _ _ _) as [[[? s2] ?]|]; [|done]. cbn [mbind option_bind] in *. destruct (string_buffer_write8 _ _ s2 _ _) as [[[? s3] ?]|]; [|done]. cbn [mbind option_bind] in *. rewrite E. destruct r; exact R.
  - pose proof (init_buffer_spec mem blocks blocks_size (Z.of_nat (length str1) + len p + Z.of_nat (length str3)) (is_wide_char p) t ltac:(rewrite !length_app in Hl; lia)) as Hi. rewrite Ei in Hi. destruct Hi as (_ & -> & Hi). exact Hi.
Qed.

(** ** Flat ropes *)

Lemma flat_rope_ok n w d v p : rope_ok (V_rope n w d v p) -> forall q, string_ok q -> chars q = text (V_rope n w d v p) -> (is_wide_char q = true -> w = true) -> rope_ok (V_rope n w d (V_string q) empty_string).
Proof.
  intros Hv q Hq Et Hw. pose proof (text_length _ (rope_ok_built _ Hv)) as Ht. pose proof (rope_len _ Hv) as Hn. cbn [string_rope_get_len] in Ht, Hn. destruct Hv as ((E & _ & _ & Hd) & Hm & H1 & H2). pose proof (rope_depth_range _ H1). pose proof (rope_depth_range _ H2).
  cbn [rope_ok]. split_and!; [|done|done|by split_and!]. unfold rope_fields. cbn [string_rope_get_len rope_depth rope_wide empty_string len is_wide_char] in *. rewrite (proj1 Hq), Et. split_and!; [lia|lia|rewrite orb_false_r; destruct (is_wide_char q); [by rewrite Hw|done]|lia].
Qed.

(** Narrow text leaves the width of a buffer as it is. *)
Lemma realloc_width s n c t s' t' : negb (sb_wide s) && (0x100 <=? c) = false -> string_buffer_realloc mem blocks s n c t = Some (true, s', t') -> sb_wide s' = sb_wide s.
Proof.
  unfold string_buffer_realloc. intros ->. destruct (error_status s); [done|]. destruct (_ <? _); [done|]. destruct (sb_str s) as [B|]; [|done]. cbn [mbind option_bind]. destruct (js_realloc _ _ _ _ _); [|done]. by intros [= <- <-].
Qed.

Lemma put_units_width s p s' : put_units s p = Some s' -> sb_wide s' = sb_wide s.
Proof. unfold put_units. destruct (_ =? _); [by intros [= <-]|]. destruct (sb_str s) as [B|]; [|done]. cbn [mbind option_bind]. destruct (put_all _ _ _ _); [|done]. by intros [= <-]. Qed.

Lemma write8_width s p t s' t' : string_buffer_write8 mem blocks s p t = Some (true, s', t') -> sb_wide s' = sb_wide s.
Proof.
  unfold string_buffer_write8. destruct (sb_size s <? _); [destruct (string_buffer_realloc _ _ _ _ _ _) as [[[[] s1] t1]|] eqn:E; cbn [mbind option_bind]; [|done|done]; apply realloc_width in E; [|by rewrite andb_false_r]|].
  - destruct (put_units s1 p) as [s2|] eqn:E2; [|done]. apply put_units_width in E2. cbn [mbind option_bind]. intros [= <- _]. congruence.
  - cbn [mbind option_bind]. destruct (put_units s p) as [s2|] eqn:E2; [|done]. apply put_units_width in E2. cbn [mbind option_bind]. intros [= <- _]. congruence.
Qed.

Lemma write16_width s p t s' t' : sb_wide s = true -> string_buffer_write16 mem blocks s p t = Some (true, s', t') -> sb_wide s' = sb_wide s.
Proof.
  intros Hw. unfold string_buffer_write16. destruct (sb_size s <? _); [destruct (string_buffer_realloc _ _ _ _ _ _) as [[[[] s1] t1]|] eqn:E; cbn [mbind option_bind]; [|done|done]; apply realloc_width in E; [|by rewrite Hw]|].
  - destruct (put_units s1 p) as [s2|] eqn:E2; [|done]. apply put_units_width in E2. cbn [mbind option_bind]. intros [= <- _]. congruence.
  - rewrite Hw. cbn [negb andb]. cbn [mbind option_bind]. destruct (put_units s p) as [s2|] eqn:E2; [|done]. apply put_units_width in E2. cbn [mbind option_bind]. intros [= <- _]. congruence.
Qed.

Lemma concat_value_width v : forall s t s' t', rope_ok v -> (rope_wide v = true -> sb_wide s = true) -> string_buffer_concat_value mem blocks s v t = Some (true, s', t') -> sb_wide s' = sb_wide s.
Proof.
  induction v as [p|n w d x IHx y IHy]; intros s t s' t' Hv Hw; cbn [string_buffer_concat_value]; (destruct (error_status s); [done|]).
  - unfold string_buffer_concat. destruct (_ <=? _); [by intros [= <- _]|]. destruct (units _ _ _); [|done]. cbn [mbind option_bind]. cbn [rope_wide] in Hw. destruct (is_wide_char p); [apply write16_width; by apply Hw|apply write8_width].
  - destruct Hv as ((_ & _ & Hi & _) & _ & Hx & Hy). cbn [rope_wide] in Hw. destruct (string_buffer_concat_value _ _ s x t) as [[[[] s1] t1]|] eqn:E; cbn [mbind option_bind]; [|done|done]. apply IHx in E; [|done|intros Hx'; rewrite Hx' in Hi; by apply Hw]. intros E'. apply IHy in E'; [congruence|done|]. intros Hy'. rewrite E. rewrite Hy', orb_true_r in Hi. by apply Hw.
Qed.

Lemma linearize_spec n w d x y ref_count t : rope_ok (V_rope n w d x y) -> flat_left (V_rope n w d x y) ->
  exists ret rope t', js_linearize_string_rope mem blocks (V_rope n w d x y) ref_count t = Some (ret, rope, t') /\ rope_ok rope /\ flat_left rope /\ text rope = text (V_rope n w d x y) /\ string_rope_get_len rope = n /\ rope_depth rope = d /\
    match ret with
    | Some v => is_string v = true /\ rope_ok v /\ text v = text (V_rope n w d x y) /\ (1 < ref_count -> is_flat rope = true /\ forall ref_count2 t2, js_linearize_string_rope mem blocks rope ref_count2 t2 = Some (Some v, rope, t2))
    | None => refused mem t t'
    end.
Proof.
  intros Hv Hf. cbn [js_linearize_string_rope]. fold (is_empty_string y). destruct (is_empty_string y) eqn:Ef.
  - eexists _, _, _. split; [reflexivity|]. split; [done|]. split; [done|]. split; [done|]. split; [done|]. split; [done|]. destruct Hf as (Hx' & _ & _). specialize (Hx' Ef). destruct Hv as (_ & _ & Hx & Hy). split; [done|]. split; [done|]. split.
    + cbn [text]. destruct y as [p|]; [|done]. destruct Hy as (Hl & _). cbn in Ef. destruct (chars p) eqn:Ec; [cbn [text]; by rewrite Ec, app_nil_r|cbn in Hl; lia].
    + intros _. split; [cbn; by rewrite Hx', Ef|]. intros rc t2. cbn [js_linearize_string_rope]. fold (is_empty_string y). by rewrite Ef.
  - pose proof (rope_len _ Hv) as Hn. pose proof (text_length _ (rope_ok_built _ Hv)) as Ht. cbn [string_rope_get_len] in Hn, Ht. pose proof (init_buffer_spec mem blocks blocks_size n w t Hn) as Hi. unfold string_buffer_init2 in *. destruct (js_alloc_string _ _ n w t) as [B|]; [|destruct Hi as (_ & _ & Hi); eexists _, _, _; split; [reflexivity|]; by split_and!].
    destruct Hi as [Hi _]. set (b := mkBuffer (Some B) 0 n w false) in *. pose proof (concat_value_spec mem blocks blocks_size _ b [] (t + 1) Hi Hv) as Hc. cbn [app] in Hc. pose proof (concat_value_width (V_rope n w d x y) b (t + 1)) as Hw. destruct (string_buffer_concat_value _ _ b _ _) as [[[[] s] t1]|]; cbn [mbind option_bind]; [| |done].
    + destruct Hc as [C1 C2]. destruct (end_spec mem blocks blocks_size s _ t1 C1 ltac:(lia)) as (q & t2 & E & Q1 & Q2 & Q3 & Q4). rewrite E. cbn [mbind option_bind]. eexists _, _, _. split; [reflexivity|].
      assert (Hflat : rope_ok (V_rope n w d (V_string q) empty_string)).
      { apply (flat_rope_ok n w d x y); [done|done|done|]. intros Hq. rewrite (Hw s t1 Hv) in Q4; [by apply Q4|by intros|done]. }
      destruct (1 <? ref_count) eqn:Er; (split; [done|]; split; [done|]; split; [cbn [text empty_string chars]; by rewrite ?app_nil_r|]; split; [done|]; split; [done|]; split; [done|]; split; [done|]; split; [done|]; intros; first [done|lia]).
    + destruct Hc as (C1 & C2 & C3). eexists _, _, _. split; [reflexivity|]. split_and!; [done|done|done|done|done|]. destruct C3 as [C3|C3]; [eapply refused_mono; [done|lia|lia]|lia].
Qed.
End use.

(** ** The contract *)

(** An allocator that gives blocks of at least the size asked for. *)
Definition good_blocks (blocks : nat -> Z -> list Z) : Prop := forall t n, n <= sizeof_JSString + Z.of_nat (length (blocks t n)).

(** [C38] String buffers: whatever the width and the initial size, at most
    [JS_STRING_LEN_MAX], and whichever characters, runs of units, parts of
    strings, ropes and fills are appended, at most [JS_STRING_LEN_MAX] units
    in all, the buffer writes only inside its block
    and ends as the well-formed string of all that was appended, in order;
    it is an exception instead only when an allocation was refused, at
    whatever point.  The results of the appends need not be tested. *)
Theorem string_buffers_append mem blocks size wide ops t (Hb : good_blocks blocks) (Hs : 0 <= size <= JS_STRING_LEN_MAX) (Hv : Forall op_valid ops) (Hl : Z.of_nat (length (ops ≫= op_text)) <= JS_STRING_LEN_MAX) :
  string_result mem t (ops ≫= op_text) (build mem blocks size wide ops t).
Proof. destruct (build_spec mem blocks Hb size wide ops t Hs Hv Hl) as (r & t' & -> & R). destruct r; exact R. Qed.

(** [C39] Making a rope flat: for a well-formed rope in which nothing on the
    right means a string on the left, as it is in every rope that
    concatenations with granted memory make ([made_flat]), the call returns the text of the rope as a string,
    unless an allocation is refused; the rope is still well formed, with the
    same text, length and depth, keeps to that shape, and, when it stays in
    use ([ref_count > 1]), has that string on its left and nothing on its
    right, so that the next call returns the same string at once. *)
Theorem linearize_keeps_text mem blocks n w d x y ref_count t (Hb : good_blocks blocks) (Hr : rope_ok (V_rope n w d x y)) (Hf : flat_left (V_rope n w d x y)) :
  exists ret rope t', js_linearize_string_rope mem blocks (V_rope n w d x y) ref_count t = Some (ret, rope, t') /\ rope_ok rope /\ flat_left rope /\ text rope = text (V_rope n w d x y) /\ string_rope_get_len rope = n /\ rope_depth rope = d /\
    match ret with
    | Some v => is_string v = true /\ rope_ok v /\ text v = text (V_rope n w d x y) /\ (1 < ref_count -> is_flat rope = true /\ forall ref_count2 t2, js_linearize_string_rope mem blocks rope ref_count2 t2 = Some (Some v, rope, t2))
    | None => refused mem t t'
    end.
Proof. exact (linearize_spec mem blocks Hb n w d x y ref_count t Hr Hf). Qed.

(** [C40] UTF-8: a string is written inside the buffer that is allocated for
    it, and the bytes, if they are few enough for a string, are read back as
    the same text, wide or not, with pairs of surrogates as one character or
    as two ([cesu8]) and with surrogates that have no partner.  Any bytes, at
    most [JS_STRING_LEN_MAX] of them, are read without leaving the input and
    make a well-formed string, of at most as many units; ASCII is itself.  The
    only exceptions are refused allocations. *)
Theorem utf8_strings mem blocks str cesu8 buf t (Hb : good_blocks blocks) (Hs : string_ok str) (Hbytes : Forall (unit_ok false) buf) (Hl : Z.of_nat (length buf) <= JS_STRING_LEN_MAX) :
  match JS_ToCStringLen2 mem blocks str cesu8 t with
  | Some (Some bytes, t') => Z.of_nat (length bytes) <= JS_STRING_LEN_MAX -> string_result mem t' (chars str) (JS_NewStringLen mem blocks bytes t')
  | Some (None, t') => refused mem t t'
  | None => False
  end /\
  exists l, string_result mem t l (JS_NewStringLen mem blocks buf t) /\ (length l <= length buf)%nat /\ (Forall (fun b => b < 128) buf -> l = buf).
Proof.
  split.
  - pose proof (to_cstring_spec mem blocks Hb str cesu8 t Hs) as H. destruct (JS_ToCStringLen2 _ _ _ _ _) as [[[bytes|] t']|]; [|done|done]. subst bytes. intros Hn. assert (Hu : Forall (unit_ok true) (chars str)) by (eapply Forall_impl; [apply string_units_ok; exact Hs|]; intros c Hc; unfold unit_ok in *; destruct (is_wide_char str); lia).
    destruct (utf8_text_ok cesu8 (chars str) Hu) as [U1 _]. pose proof (new_string_spec mem blocks Hb _ t' U1 Hn) as Hr. unfold utf8_string in Hr. rewrite utf8_read_text in Hr; [done|done|]. rewrite Nat.add_1_r. apply Nat.lt_succ_r. by apply utf8_text_longer.
  - exists (utf8_string buf). split; [by apply new_string_spec|]. split; [by apply utf8_read_length|]. intros Ha. assert (Ec : count_ascii buf = length buf) by (clear - Ha; induction Ha as [|b p Hb _ IH]; [done|]; cbn; rewrite (proj2 (Z.ltb_lt _ _)) by lia; by rewrite IH).
    rewrite (utf8_string_ascii buf Hbytes (length buf)) by lia. rewrite take_ge, drop_ge by lia. cbn. by rewrite app_nil_r.
Qed.

(** ** Examples *)

(** Blocks of exactly the size asked for. *)
Definition exact_blocks (t : nat) (n : Z) : list Z := replicate (Z.to_nat (n - sizeof_JSString)) 0.

Lemma exact_blocks_good : good_blocks exact_blocks.
Proof. intros t n. unfold exact_blocks. rewrite length_replicate. lia. Qed.

Definition demo_ops : list buffer_op := [Op_putc8 97; Op_putc 0x1F600; Op_value rope_ab_cd; Op_fill 98 2; Op_concat (mkString 3 true [300; 301; 302]) 1 3].

Lemma string_buffers_append_witness :
  string_result (fun _ => true) 0 [97; 0xD83D; 0xDE00; 97; 98; 99; 100; 98; 98; 301; 302] (build (fun _ => true) exact_blocks 0 false demo_ops 0).
Proof.
  apply (string_buffers_append (fun _ => true) exact_blocks 0 false demo_ops 0); [exact exact_blocks_good|unfold JS_STRING_LEN_MAX; lia| |vm_compute; discriminate].
  unfold demo_ops. repeat (apply Forall_cons; split); cbn [op_valid]; try apply Forall_nil; try lia; try done.
  - exact (proj1 rope_ab_cd_ok).
  - split_and!; [split_and!; [reflexivity|unfold JS_STRING_LEN_MAX; cbn; lia|repeat constructor; cbn; lia]|lia|cbn; lia].
Defined.

Lemma linearize_keeps_text_witness :
  js_linearize_string_rope (fun _ => true) exact_blocks rope_a_bcd 2 0 = Some (Some (V_string (mkString 4 true [97; 98; 99; 100])), V_rope 4 true 2 (V_string (mkString 4 true [97; 98; 99; 100])) empty_string, 1%nat) /\
  rope_ok (V_rope 4 true 2 (V_string (mkString 4 true [97; 98; 99; 100])) empty_string).
Proof.
  split; [vm_compute; reflexivity|]. destruct (linearize_keeps_text (fun _ => true) exact_blocks 4 true 2 (V_rope 1 false 1 (V_string (mkString 1 false [97])) (V_string (mkString 0 false []))) (V_string (mkString 3 true [98; 99; 100])) 2 0 exact_blocks_good (proj2 rope_ab_cd_ok) ltac:(cbn; repeat split; discriminate)) as (ret & rope & t' & E & Hok & _).
  vm_compute in E. injection E as _ <- _. exact Hok.
Defined.

Lemma utf8_strings_witness :
  JS_ToCStringLen2 (fun _ => true) exact_blocks (mkString 5 true [65; 0x20AC; 0xD83D; 0xDE00; 0xD83D]) false 0 = Some (Some [65; 0xE2; 0x82; 0xAC; 0xF0; 0x9F; 0x98; 0x80; 0xED; 0xA0; 0xBD], 1%nat) /\
  string_result (fun _ => true) 1 [65; 0x20AC; 0xD83D; 0xDE00; 0xD83D] (JS_NewStringLen (fun _ => true) exact_blocks [65; 0xE2; 0x82; 0xAC; 0xF0; 0x9F; 0x98; 0x80; 0xED; 0xA0; 0xBD] 1).
Proof.
  split; [vm_compute; reflexivity|]. assert (Hs : string_ok (mkString 5 true [65; 0x20AC; 0xD83D; 0xDE00; 0xD83D])) by (split_and!; [reflexivity|unfold JS_STRING_LEN_MAX; cbn; lia|repeat constructor; cbn; lia]).
  destruct (utf8_strings (fun _ => true) exact_blocks _ false [] 0 exact_blocks_good Hs (Forall_nil_2 _) ltac:(vm_compute; discriminate)) as [H _].
  assert (E : JS_ToCStringLen2 (fun _ => true) exact_blocks (mkString 5 true [65; 0x20AC; 0xD83D; 0xDE00; 0xD83D]) false 0 = Some (Some [65; 0xE2; 0x82; 0xAC; 0xF0; 0x9F; 0x98; 0x80; 0xED; 0xA0; 0xBD], 1%nat)) by (vm_compute; reflexivity).
  rewrite E in H. apply H. vm_compute. discriminate.
Defined.

(** A byte that begins no character takes the character behind it along: of
    the bytes 0x80 and "A" only U+FFFD is left. *)
Lemma stray_byte_takes_next : string_result (fun _ => true) 0 [0xFFFD] (JS_NewStringLen (fun _ => true) exact_blocks [0x80; 0x41] 0).
Proof. eexists. split; [vm_compute; reflexivity|]. split; [|reflexivity]. split_and!; [reflexivity|unfold JS_STRING_LEN_MAX; cbn; lia|repeat constructor; cbn; lia]. Qed.

(** The size of a buffer made for [2 ^ 31 - 1] bytes overflows when it is
    widened: the block shrinks to ten bytes and the first unit is written
    outside of it. *)
Lemma widen_overflow rest t : string_buffer_widen (fun _ => true) exact_blocks (mkBuffer (Some (97 :: rest)) 1 (2 ^ 31 - 1) false false) (2 ^ 31 - 1) t = None.
Proof. reflexivity. Qed.
