(* ===== verification/JSKeys.v ===== *)
(** * Equality and hashing of values (src/object/property_set_convert.inc.c, src/builtins/symbol.inc.c)

    The three notions of equality of the language, and the hash of the keys
    of a Map.  A value is a number (an integer or a double as its 64-bit
    pattern), a BigInt (short or on the heap), a string or a rope, or
    something that is equal to itself only, given by its address. *)
From S2P Require Import Prelude Native BigInt BigIntProps BigIntOps Digits BigIntConv BigIntFloat Numeric NumericProps Atoms Ropes RopesProps RopesCompare.

Inductive JSKey :=
  | K_undefined | K_null | K_bool (b : bool) | K_int (v : Z) | K_float64 (d : Z)
  | K_short_big_int (v : Z) | K_big_int (p : JSBigInt) | K_string (v : JSValue) | K_symbol (p : Z) | K_object (p : Z).

#[export] Instance JSString_eq_dec : EqDecision JSString.
Proof. solve_decision. Defined.

(** ** Equality *)

Inductive JSStrictEqModeEnum := JS_EQ_STRICT | JS_EQ_SAME_VALUE | JS_EQ_SAME_VALUE_ZERO.

Definition isnan (d : Z) : bool := (f_exp d =? 2047) && negb (f_mant d =? 0).

(** [d1 == d2]: false for NaN, true for the two zeros. *)
Definition double_eq (d1 d2 : Z) : bool := negb (isnan d1) && negb (isnan d2) && (double_val d1 =? double_val d2).

Definition number_test (eq_mode : JSStrictEqModeEnum) (d1 d2 : Z) : bool :=
  match eq_mode with
  | JS_EQ_STRICT => double_eq d1 d2
  | _ =>
      if isnan d1 || isnan d2 then Bool.eqb (isnan d1) (isnan d2)
      else match eq_mode with JS_EQ_SAME_VALUE_ZERO => double_eq d1 d2 | _ => d1 =? d2 end
  end.

Definition bigint_of (k : JSKey) : option JSBigInt := match k with K_short_big_int v => Some (js_bigint_set_short v) | K_big_int p => Some p | _ => None end.
Definition double_of (k : JSKey) : option Z := match k with K_int v => Some (int64_to_double v) | K_float64 d => Some d | _ => None end.

(** [None] is an access outside of a string.  Two strings with the same
    characters may be the same one. *)
Definition js_strict_eq2 (op1 op2 : JSKey) (eq_mode : JSStrictEqModeEnum) : option bool :=
  match op1 with
  | K_bool b1 => Some (match op2 with K_bool b2 => Bool.eqb b1 b2 | _ => false end)
  | K_null => Some (match op2 with K_null => true | _ => false end)
  | K_undefined => Some (match op2 with K_undefined => true | _ => false end)
  | K_string v1 =>
      match op2 with
      | K_string v2 =>
          match v1, v2 with
          | V_string p1, V_string p2 => js_string_eq (bool_decide (p1 = p2)) p1 p2
          | _, _ => r ← js_string_rope_compare v1 v2 true; Some (r =? 0)
          end
      | _ => Some false
      end
  | K_symbol p1 => Some (match op2 with K_symbol p2 => p1 =? p2 | _ => false end)
  | K_object p1 => Some (match op2 with K_object p2 => p1 =? p2 | _ => false end)
  | K_int _ | K_float64 _ => Some (match double_of op1, double_of op2 with Some d1, Some d2 => number_test eq_mode d1 d2 | _, _ => false end)
  | K_short_big_int _ | K_big_int _ => Some (match bigint_of op1, bigint_of op2 with Some p1, Some p2 => js_bigint_cmp p1 p2 =? 0 | _, _ => false end)
  end.

Definition js_strict_eq (op1 op2 : JSKey) : option bool := js_strict_eq2 op1 op2 JS_EQ_STRICT.
Definition js_same_value (op1 op2 : JSKey) : option bool := js_strict_eq2 op1 op2 JS_EQ_SAME_VALUE.
Definition same_value_zero (op1 op2 : JSKey) : option bool := js_strict_eq2 op1 op2 JS_EQ_SAME_VALUE_ZERO.

(** ** Hashing *)

Definition JS_TAG_BIG_INT : Z := -9.
Definition JS_TAG_SYMBOL : Z := -8.
Definition JS_TAG_STRING : Z := -7.
Definition JS_TAG_OBJECT : Z := -1.
Definition JS_TAG_BOOL : Z := 1.
Definition JS_TAG_FLOAT64 : Z := 8.

Definition HASH_MUL32 : Z := 0x61C88647.
Definition HASH_MUL64 : Z := 0x61C8864680B583EB.

Definition map_hash32 (a hash_bits : Z) : Z := Z.shiftr (u32 (a * HASH_MUL32)) (32 - hash_bits).
Definition map_hash64 (a hash_bits : Z) : Z := u32 (Z.shiftr (u64 (a * HASH_MUL64)) (64 - hash_bits)).
Definition map_hash_pointer (a hash_bits : Z) : Z := map_hash64 a hash_bits.

Fixpoint hash_string_rope (val : JSValue) (h : Z) : Z :=
  match val with
  | V_string p => hash_string (chars p) h
  | V_rope _ _ _ l r => hash_string_rope r (hash_string_rope l h)
  end.

(** From the most significant limb on. *)
Definition hash_bigint (p : JSBigInt) : Z := fold_left (fun h v => u32 (h * 263 + v)) (rev p) 1.

Definition normalize_zero (k : JSKey) : JSKey := match k with K_float64 d => if double_eq d 0 then K_int 0 else k | _ => k end.

Definition hash_key (key : JSKey) (hash_bits : Z) : Z :=
  match key with
  | K_bool b => map_hash32 (Z.lxor (Z.b2z b) JS_TAG_BOOL) hash_bits
  | K_string (V_string p) => map_hash32 (Z.lxor (hash_string (chars p) 0) (u32 JS_TAG_STRING)) hash_bits
  | K_string v => map_hash32 (Z.lxor (hash_string_rope v 0) (u32 JS_TAG_STRING)) hash_bits
  | K_object p => map_hash_pointer (Z.lxor p (u32 JS_TAG_OBJECT)) hash_bits
  | K_symbol p => map_hash_pointer (Z.lxor p (u32 JS_TAG_SYMBOL)) hash_bits
  | K_int v => map_hash64 (Z.lxor (int64_to_double v) JS_TAG_FLOAT64) hash_bits
  | K_float64 d => map_hash64 (Z.lxor (if isnan d then JS_FLOAT64_NAN else d) JS_TAG_FLOAT64) hash_bits
  | K_short_big_int v => map_hash32 (Z.lxor (hash_bigint (js_bigint_set_short v)) (u32 JS_TAG_BIG_INT)) hash_bits
  | K_big_int p => map_hash32 (Z.lxor (hash_bigint p) (u32 JS_TAG_BIG_INT)) hash_bits
  | K_undefined | K_null => 0
  end.
