(* ===== verification/JSKeysProps.v ===== *)
(** * Equality and hashing of values: what values mean

    Two values are equal for a Map when they mean the same: the comparisons
    of patterns, limbs and characters come to that, and the hash respects
    it. *)
From S2P Require Import Prelude Native BigInt BigIntProps BigIntOps Digits BigIntConv BigIntFloat Numeric NumericProps Atoms Ropes RopesProps RopesCompare JSKeys.

(** ** Doubles *)

(** The magnitude of a double of fields [e] and [m]. *)
Definition mag (e m : Z) : Z := if e =? 0 then m else (m + 2 ^ 52) * 2 ^ (e - 1).

Lemma mag_lt e m e' m' : 0 <= e -> 0 <= m < 2 ^ 52 -> 0 <= m' -> e < e' -> mag e m < mag e' m'.
Proof.
  intros He Hm Hm' Hlt. unfold mag. destruct (Z.eqb_spec e' 0); [lia|]. pose proof (pow2_pos (e' - 1) ltac:(lia)) as P'. destruct (Z.eqb_spec e 0) as [->|He0]; [nia|].
  assert (2 * 2 ^ (e - 1) <= 2 ^ (e' - 1)); [|pose proof (pow2_pos (e - 1) ltac:(lia)); nia]. replace (2 * 2 ^ (e - 1)) with (2 ^ e) by (rewrite <- Z.pow_succ_r by lia; f_equal; lia). apply Z.pow_le_mono_r; lia.
Qed.

Lemma mag_inj e m e' m' : 0 <= e -> 0 <= e' -> 0 <= m < 2 ^ 52 -> 0 <= m' < 2 ^ 52 -> mag e m = mag e' m' -> e = e' /\ m = m'.
Proof.
  intros He He' Hm Hm' E. destruct (Z.lt_trichotomy e e') as [Hl|[<-|Hl]]; [pose proof (mag_lt e m e' m' He Hm ltac:(lia) Hl); lia| |pose proof (mag_lt e' m' e m He' Hm' ltac:(lia) Hl); lia]. split; [done|]. unfold mag in E. destruct (Z.eqb_spec e 0); [done|]. pose proof (pow2_pos (e - 1) ltac:(lia)). nia.
Qed.

Lemma mag_nonneg e m : 0 <= e -> 0 <= m -> 0 <= mag e m.
Proof. intros He Hm. unfold mag. destruct (Z.eqb_spec e 0); [done|]. pose proof (pow2_pos (e - 1) ltac:(lia)). nia. Qed.

Lemma double_val_mag d : double_val d = if f_sign d =? 0 then mag (f_exp d) (f_mant d) else - mag (f_exp d) (f_mant d).
Proof. done. Qed.

(** A number other than zero has one pattern. *)
Lemma double_val_inj d d' : double d -> double d' -> double_val d = double_val d' -> double_val d <> 0 -> d = d'.
Proof.
  intros Hd Hd' E Hn. destruct (fields_spec d Hd) as (Hs & He & Hm & Ed). destruct (fields_spec d' Hd') as (Hs' & He' & Hm' & Ed'). rewrite !double_val_mag in E. rewrite double_val_mag in Hn. pose proof (mag_nonneg (f_exp d) (f_mant d) ltac:(lia) ltac:(lia)). pose proof (mag_nonneg (f_exp d') (f_mant d') ltac:(lia) ltac:(lia)).
  assert (Em : mag (f_exp d) (f_mant d) = mag (f_exp d') (f_mant d') /\ f_sign d = f_sign d') by (destruct Hs as [Q|Q], Hs' as [Q'|Q']; rewrite Q, Q' in *; cbn [Z.eqb] in *; lia). destruct Em as [Em Es]. apply mag_inj in Em as [Ee Emm]; [|lia..]. rewrite Ed, Ed'. lia.
Qed.

Lemma fields_unique d s e m : double d -> bit s -> 0 <= e < 2048 -> 0 <= m < 2 ^ 52 -> d = s * 2 ^ 63 + e * 2 ^ 52 + m -> f_sign d = s /\ f_exp d = e /\ f_mant d = m.
Proof. intros Hd Hs He Hm E. destruct (fields_spec d Hd) as (Hs' & He' & Hm' & Ed). unfold bit in *. lia. Qed.

(** Integers of the engine are doubles exactly. *)
Lemma int_double n : Z.abs n < 2 ^ 53 -> double (int64_to_double n) /\ double_val (int64_to_double n) = n * 2 ^ 1074 /\ isnan (int64_to_double n) = false.
Proof.
  intros Hn. unfold int64_to_double. destruct (Z.eqb_spec n 0) as [->|H0]; [split; [lia|done]|]. assert (Hlog : 0 <= Z.log2 (Z.abs n) <= 52) by (split; [apply Z.log2_nonneg|]; assert (Z.log2 (Z.abs n) < 53) by (apply Z.log2_lt_pow2; lia); lia). unfold round53. destruct (Z.leb_spec (Z.log2 (Z.abs n)) 52); [|lia]. set (k := Z.log2 (Z.abs n)) in *. destruct (Z.log2_spec (Z.abs n) ltac:(lia)) as [L1 L2]. fold k in L1, L2. set (s := if n <? 0 then 1 else 0). assert (Hs : bit s) by (unfold s, bit; destruct (n <? 0); auto).
  pose proof (pow2_pos (52 - k) ltac:(lia)) as P. assert (E52 : 2 ^ k * 2 ^ (52 - k) = 2 ^ 52) by (rewrite <- Z.pow_add_r by lia; f_equal; lia). rewrite Z.pow_succ_r in L2 by lia. assert (Hm : 2 ^ 52 <= Z.abs n * 2 ^ (52 - k) < 2 ^ 53) by nia. rewrite (pack_spec s k) by (done || lia).
  assert (Emod : (Z.abs n * 2 ^ (52 - k)) mod 2 ^ 52 = Z.abs n * 2 ^ (52 - k) - 2 ^ 52) by (symmetry; apply (Z.mod_unique _ _ 1); lia). rewrite Emod. set (m := Z.abs n * 2 ^ (52 - k) - 2 ^ 52) in *. assert (Hd : double (s * 2 ^ 63 + (k + 1023) * 2 ^ 52 + m)) by (unfold bit in Hs; lia).
  destruct (fields_unique _ s (k + 1023) m Hd Hs ltac:(lia) ltac:(lia) eq_refl) as (F1 & F2 & F3). split_and!; [lia|lia| |unfold isnan; rewrite F2; destruct (Z.eqb_spec (k + 1023) 2047); [lia|done]].
  rewrite double_val_mag, F1, F2, F3. unfold mag. destruct (Z.eqb_spec (k + 1023) 0); [lia|]. assert (Ev : (m + 2 ^ 52) * 2 ^ (k + 1023 - 1) = Z.abs n * 2 ^ 1074) by (unfold m; replace (Z.abs n * 2 ^ (52 - k) - 2 ^ 52 + 2 ^ 52) with (Z.abs n * 2 ^ (52 - k)) by lia; rewrite <- Z.mul_assoc, <- Z.pow_add_r by lia; do 2 f_equal; lia). rewrite Ev. unfold s. destruct (Z.ltb_spec n 0); cbn [Z.eqb]; [rewrite Z.abs_neq by lia|rewrite Z.abs_eq by lia]; ring.
Qed.

(** ** Meanings *)

(** The values of the engine. *)
Definition key_ok (k : JSKey) : Prop :=
  match k with
  | K_int v => - 2 ^ 31 <= v < 2 ^ 31
  | K_float64 d => double d
  | K_short_big_int v => JS_SHORT_BIG_INT_MIN <= v <= JS_SHORT_BIG_INT_MAX
  | K_big_int p => bigint_ok p
  | K_string v => rope_ok v
  | K_symbol p | K_object p => 0 <= p < 2 ^ 64
  | _ => True
  end.

(** Numbers in units of [2^-1074], with the infinities beyond all others. *)
Inductive meaning :=
  | M_undefined | M_null | M_bool (b : bool) | M_nan | M_number (v : Z) | M_bigint (v : Z) | M_string (l : list Z) | M_symbol (p : Z) | M_object (p : Z).

#[export] Instance meaning_eq_dec : EqDecision meaning.
Proof. solve_decision. Defined.

Definition meaning_of (k : JSKey) : meaning :=
  match k with
  | K_undefined => M_undefined
  | K_null => M_null
  | K_bool b => M_bool b
  | K_int v => M_number (v * 2 ^ 1074)
  | K_float64 d => if isnan d then M_nan else M_number (double_val d)
  | K_short_big_int v => M_bigint v
  | K_big_int p => M_bigint (sval p)
  | K_string v => M_string (text v)
  | K_symbol p => M_symbol p
  | K_object p => M_object p
  end.

Definition is_minus_zero (k : JSKey) : bool := match k with K_float64 d => d =? 2 ^ 63 | _ => false end.

Lemma double_of_spec k d : key_ok k -> double_of k = Some d -> double d /\ meaning_of k = (if isnan d then M_nan else M_number (double_val d)) /\ is_minus_zero k = (d =? 2 ^ 63).
Proof.
  destruct k; try done; cbn [double_of key_ok meaning_of is_minus_zero].
  - intros Hv [= <-]. destruct (int_double v ltac:(lia)) as (Hd & Ev & En). rewrite En, Ev. split; [exact Hd|]. split; [done|]. symmetry. apply Z.eqb_neq. intros E. rewrite E in Ev. change (double_val (2 ^ 63)) with 0 in Ev. assert (v = 0) as -> by (pose proof (pow2_pos 1074 ltac:(lia)); nia). done.
  - intros Hd [= <-]. done.
Qed.

Lemma bigint_of_spec k p : key_ok k -> bigint_of k = Some p -> bigint_ok p /\ meaning_of k = M_bigint (sval p).
Proof.
  destruct k; try done; cbn [bigint_of key_ok meaning_of].
  - intros Hv [= <-]. destruct (short_limb v Hv) as [? ->]. done.
  - intros Hp [= <-]. done.
Qed.

Lemma zero_pattern d : double d -> double_val d = 0 -> d = 0 \/ d = 2 ^ 63.
Proof.
  intros Hd E. destruct (fields_spec d Hd) as (Hs & He & Hm & Ed). rewrite double_val_mag in E. assert (Em : mag (f_exp d) (f_mant d) = 0) by (destruct (f_sign d =? 0); lia). assert (E0 : f_exp d = 0 /\ f_mant d = 0).
  { unfold mag in Em. destruct (Z.eqb_spec (f_exp d) 0) as [Q|Q]; [done|]. pose proof (pow2_pos (f_exp d - 1) ltac:(lia)). nia. }
  destruct E0 as [E1 E2]. rewrite E1, E2 in Ed. destruct Hs as [Q|Q]; rewrite Q in Ed; [left|right]; lia.
Qed.

Lemma pattern_eq d1 d2 : double d1 -> double d2 -> (d1 =? d2) = (double_val d1 =? double_val d2) && Bool.eqb (d1 =? 2 ^ 63) (d2 =? 2 ^ 63).
Proof.
  intros H1 H2. destruct (Z.eqb_spec d1 d2) as [->|Hne]; [by rewrite Z.eqb_refl, Bool.eqb_reflx|]. symmetry. destruct (Z.eqb_spec (double_val d1) (double_val d2)) as [E|E]; [|done]. cbn [andb]. destruct (Z.eq_dec (double_val d1) 0) as [E0|E0]; [|by destruct (Hne (double_val_inj d1 d2 H1 H2 E E0))].
  destruct (zero_pattern d1 H1 E0) as [-> | ->], (zero_pattern d2 H2 ltac:(congruence)) as [-> | ->]; done.
Qed.

Lemma bool_decide_z a b : bool_decide (a = b :> Z) = (a =? b).
Proof. destruct (Z.eqb_spec a b); [by apply bool_decide_eq_true|by apply bool_decide_eq_false]. Qed.

(** What each notion of equality compares. *)
Definition equal_as (eq_mode : JSStrictEqModeEnum) (k1 k2 : JSKey) : bool :=
  bool_decide (meaning_of k1 = meaning_of k2) &&
  match eq_mode with JS_EQ_STRICT => negb (bool_decide (meaning_of k1 = M_nan)) | JS_EQ_SAME_VALUE => Bool.eqb (is_minus_zero k1) (is_minus_zero k2) | JS_EQ_SAME_VALUE_ZERO => true end.

Lemma number_test_spec eq_mode k1 k2 d1 d2 : key_ok k1 -> key_ok k2 -> double_of k1 = Some d1 -> double_of k2 = Some d2 -> number_test eq_mode d1 d2 = equal_as eq_mode k1 k2.
Proof.
  intros H1 H2 E1 E2. destruct (double_of_spec k1 d1 H1 E1) as (D1 & M1 & Z1). destruct (double_of_spec k2 d2 H2 E2) as (D2 & M2 & Z2). unfold equal_as, number_test, double_eq. rewrite M1, M2, Z1, Z2. assert (Hnan : isnan (2 ^ 63) = false) by done.
  destruct (isnan d1) eqn:N1, (isnan d2) eqn:N2; cbn [negb andb orb Bool.eqb].
  - destruct eq_mode; [done| |done]. rewrite bool_decide_true by done. destruct (Z.eqb_spec d1 (2 ^ 63)) as [->|], (Z.eqb_spec d2 (2 ^ 63)) as [->|]; congruence || done.
  - rewrite bool_decide_false by done. by destruct eq_mode.
  - rewrite bool_decide_false by done. by destruct eq_mode.
  - assert (Eb : bool_decide (M_number (double_val d1) = M_number (double_val d2)) = (double_val d1 =? double_val d2)) by (rewrite <- bool_decide_z; apply bool_decide_ext; split; [by intros [= ?]|by intros ->]). rewrite Eb. destruct eq_mode; [by rewrite (bool_decide_false (M_number _ = M_nan)), andb_true_r|by apply pattern_eq|by rewrite andb_true_r].
Qed.

Lemma bigint_eq_spec k1 k2 p1 p2 : key_ok k1 -> key_ok k2 -> bigint_of k1 = Some p1 -> bigint_of k2 = Some p2 -> (js_bigint_cmp p1 p2 =? 0) = bool_decide (meaning_of k1 = meaning_of k2).
Proof.
  intros H1 H2 E1 E2. destruct (bigint_of_spec k1 p1 H1 E1) as [O1 ->]. destruct (bigint_of_spec k2 p2 H2 E2) as [O2 ->]. rewrite js_bigint_cmp_spec by done. destruct (Z.eqb_spec (Z.sgn (sval p1 - sval p2)) 0) as [E|E]; symmetry; [apply bool_decide_eq_true; f_equal; apply Z.sgn_null_iff in E; lia|apply bool_decide_eq_false; intros [= Es]; rewrite Es, Z.sub_diag in E; done].
Qed.

Lemma string_key_spec v1 v2 eq_mode : rope_ok v1 -> rope_ok v2 -> js_strict_eq2 (K_string v1) (K_string v2) eq_mode = Some (bool_decide (text v1 = text v2)).
Proof.
  intros H1 H2. cbn [js_strict_eq2]. assert (Hr : (r ← js_string_rope_compare v1 v2 true; Some (r =? 0)) = Some (bool_decide (text v1 = text v2))).
  { destruct (rope_compare_spec v1 v2 true H1 H2) as (r & -> & Er). cbn. f_equal. destruct (Z.eqb_spec r 0) as [E|E]; symmetry; [apply bool_decide_eq_true|apply bool_decide_eq_false]; tauto. }
  destruct v1 as [p1|], v2 as [p2|]; [|exact Hr..]. apply string_eq_spec; [done|done|]. by intros ?%bool_decide_eq_true.
Qed.

Lemma strict_eq2_spec k1 k2 eq_mode : key_ok k1 -> key_ok k2 -> js_strict_eq2 k1 k2 eq_mode = Some (equal_as eq_mode k1 k2).
Proof.
  intros H1 H2. assert (Hs : forall v1 v2, k1 = K_string v1 -> k2 = K_string v2 -> js_strict_eq2 k1 k2 eq_mode = Some (equal_as eq_mode k1 k2)).
  { intros v1 v2 -> ->. rewrite string_key_spec by done. unfold equal_as. cbn. rewrite (bool_decide_ext (M_string (text v1) = M_string (text v2)) (text v1 = text v2)) by (split; [by intros [= ?]|by intros ->]). destruct eq_mode; [rewrite (bool_decide_false (M_string _ = M_nan)) by done|..]; by rewrite andb_true_r. }
  assert (Hrefl : forall m : meaning, m <> M_nan -> bool_decide (m = m) && match eq_mode with JS_EQ_STRICT => negb (bool_decide (m = M_nan)) | JS_EQ_SAME_VALUE => Bool.eqb false false | JS_EQ_SAME_VALUE_ZERO => true end = true) by (intros m Hm; rewrite bool_decide_true by done; destruct eq_mode; [by rewrite bool_decide_false|done|done]).
  destruct (double_of k1) as [d1|] eqn:D1, (double_of k2) as [d2|] eqn:D2; [destruct k1; try done; cbn [js_strict_eq2]; rewrite D1, D2; f_equal; by eapply number_test_spec| | |].
  - assert (Hm : equal_as eq_mode k1 k2 = false) by (unfold equal_as; destruct (double_of_spec k1 d1 H1 D1) as (_ & -> & _); rewrite bool_decide_false; [done|]; destruct (isnan d1), k2; done). rewrite Hm. destruct k1; try done; cbn [js_strict_eq2]; by rewrite D1, D2.
  - assert (Hm : equal_as eq_mode k1 k2 = false) by (unfold equal_as; destruct (double_of_spec k2 d2 H2 D2) as (_ & -> & _); rewrite bool_decide_false; [done|]; destruct (isnan d2), k1; done). rewrite Hm. by destruct k1, k2.
  - destruct (bigint_of k1) as [p1|] eqn:B1, (bigint_of k2) as [p2|] eqn:B2.
    + destruct k1; try done; cbn [js_strict_eq2]; rewrite B1, B2; (rewrite (bigint_eq_spec _ _ _ _ H1 H2 B1 B2)); unfold equal_as; f_equal; destruct k2; try done; destruct eq_mode; cbn [is_minus_zero Bool.eqb]; rewrite ?(bool_decide_false (meaning_of _ = M_nan)), ?andb_true_r by done; done.
    + assert (Hm : equal_as eq_mode k1 k2 = false) by (unfold equal_as; destruct (bigint_of_spec k1 p1 H1 B1) as (_ & ->); rewrite bool_decide_false; [done|]; by destruct k2). rewrite Hm. destruct k1; try done; cbn [js_strict_eq2]; by rewrite B1, B2.
    + assert (Hm : equal_as eq_mode k1 k2 = false) by (unfold equal_as; destruct (bigint_of_spec k2 p2 H2 B2) as (_ & ->); rewrite bool_decide_false; [done|]; by destruct k1). rewrite Hm. by destruct k1, k2.
    + destruct k1, k2; try done; try (by eapply Hs); cbn [js_strict_eq2]; unfold equal_as; cbn [meaning_of is_minus_zero]; try (by rewrite bool_decide_false); try (by rewrite Hrefl).
      * destruct (Bool.eqb_spec b b0) as [->|]; [by rewrite Hrefl|]. by rewrite bool_decide_false by (intros [= ?]; done).
      * destruct (Z.eqb_spec p p0) as [->|]; [by rewrite Hrefl|]. by rewrite bool_decide_false by (intros [= ?]; done).
      * destruct (Z.eqb_spec p p0) as [->|]; [by rewrite Hrefl|]. by rewrite bool_decide_false by (intros [= ?]; done).
Qed.

(** ** Hashes *)

Lemma hash_rope_text v : forall h, hash_string_rope v h = hash_string (text v) h.
Proof. induction v as [p|n w d l IHl r IHr]; intros h; cbn [hash_string_rope text]; [done|]. rewrite IHr, IHl. unfold hash_string. by rewrite fold_left_app. Qed.

Lemma normalize_zero_meaning k : meaning_of (normalize_zero k) = meaning_of k.
Proof.
  destruct k; try done. cbn [normalize_zero]. unfold double_eq. destruct (isnan d) eqn:N; [done|]. change (isnan 0) with false. change (double_val 0) with 0. cbn [negb andb]. destruct (Z.eqb_spec (double_val d) 0) as [E|]; [|done]. cbn [meaning_of]. by rewrite N, E.
Qed.

Lemma normalize_zero_ok k : key_ok k -> key_ok (normalize_zero k).
Proof. intros Hk. destruct k; [done|done|done|done| |done|done|done|done|done]. cbn [normalize_zero]. destruct (double_eq d 0); [cbn; lia|done]. Qed.

Lemma normalize_zero_idem k : normalize_zero (normalize_zero k) = normalize_zero k.
Proof. destruct k; try done. cbn [normalize_zero]. destruct (double_eq d 0) eqn:E; [done|]. cbn [normalize_zero]. by rewrite E. Qed.

(** The number that is hashed. *)
Definition hashed_double (d : Z) : Z := if isnan d then JS_FLOAT64_NAN else d.

Lemma hash_number k d n : key_ok k -> double_of k = Some d -> hash_key k n = map_hash64 (Z.lxor (hashed_double d) JS_TAG_FLOAT64) n.
Proof. destruct k; try done; cbn [double_of key_ok hash_key]; intros Hv [= <-]; unfold hashed_double; [|done]. destruct (int_double v ltac:(lia)) as (_ & _ & ->). done. Qed.

(** A normalised key that is zero is the integer. *)
Lemma normalized_zero k d : key_ok k -> double_of k = Some d -> normalize_zero k = k -> isnan d = false -> double_val d = 0 -> d = 0.
Proof.
  destruct k; try done; cbn [double_of key_ok normalize_zero]; intros Hv [= <-] Hn N E.
  - destruct (int_double v ltac:(lia)) as (_ & Ev & _). rewrite Ev in E. assert (v = 0) as -> by (pose proof (pow2_pos 1074 ltac:(lia)); nia). done.
  - unfold double_eq in Hn. rewrite N, E in Hn. done.
Qed.

Lemma hash_meaning k1 k2 n : key_ok k1 -> key_ok k2 -> normalize_zero k1 = k1 -> normalize_zero k2 = k2 -> meaning_of k1 = meaning_of k2 -> hash_key k1 n = hash_key k2 n.
Proof.
  intros H1 H2 N1 N2 E. destruct (double_of k1) as [d1|] eqn:D1, (double_of k2) as [d2|] eqn:D2.
  - rewrite (hash_number k1 d1 n H1 D1), (hash_number k2 d2 n H2 D2). do 2 f_equal. destruct (double_of_spec k1 d1 H1 D1) as (O1 & M1 & _). destruct (double_of_spec k2 d2 H2 D2) as (O2 & M2 & _). rewrite M1, M2 in E. unfold hashed_double. destruct (isnan d1) eqn:Q1, (isnan d2) eqn:Q2; [done|done|done|]. injection E as E. destruct (Z.eq_dec (double_val d1) 0) as [Z0|Z0]; [rewrite (normalized_zero k1 d1), (normalized_zero k2 d2); congruence|by apply double_val_inj].
  - destruct (double_of_spec k1 d1 H1 D1) as (_ & M1 & _). rewrite M1 in E. exfalso. by destruct (isnan d1), k2.
  - destruct (double_of_spec k2 d2 H2 D2) as (_ & M2 & _). rewrite M2 in E. exfalso. by destruct (isnan d2), k1.
  - destruct (bigint_of k1) as [p1|] eqn:B1, (bigint_of k2) as [p2|] eqn:B2.
    + destruct (bigint_of_spec k1 p1 H1 B1) as (O1 & M1). destruct (bigint_of_spec k2 p2 H2 B2) as (O2 & M2). rewrite M1, M2 in E. injection E as E. apply sval_inj in E as <-; [|done|done]. destruct k1, k2; try done; cbn [bigint_of] in B1, B2; cbn [hash_key]; injection B1 as ->; injection B2 as ->; done.
    + destruct (bigint_of_spec k1 p1 H1 B1) as (_ & M1). rewrite M1 in E. exfalso. by destruct k2.
    + destruct (bigint_of_spec k2 p2 H2 B2) as (_ & M2). rewrite M2 in E. exfalso. by destruct k1.
    + destruct k1, k2; try done; injection E as E; try (by subst). cbn [hash_key]. assert (Hh : forall v, (match v with V_string p => map_hash32 (Z.lxor (hash_string (chars p) 0) (u32 JS_TAG_STRING)) n | _ => map_hash32 (Z.lxor (hash_string_rope v 0) (u32 JS_TAG_STRING)) n end) = map_hash32 (Z.lxor (hash_string (text v) 0) (u32 JS_TAG_STRING)) n) by (intros [p|]; [done|by rewrite hash_rope_text]). rewrite !Hh. by rewrite E.
Qed.

Lemma hash_bounds k n : 1 <= n <= 31 -> 0 <= hash_key k n < 2 ^ n.
Proof.
  intros Hn. pose proof (pow2_pos n ltac:(lia)) as P. assert (H32 : forall a, 0 <= map_hash32 a n < 2 ^ n).
  { intros a. unfold map_hash32. rewrite Z.shiftr_div_pow2 by lia. pose proof (Z.mod_pos_bound (a * HASH_MUL32) (2 ^ 32) ltac:(lia)) as B. fold (u32 (a * HASH_MUL32)) in B. pose proof (pow2_pos (32 - n) ltac:(lia)). assert (E : 2 ^ n * 2 ^ (32 - n) = 2 ^ 32) by (rewrite <- Z.pow_add_r by lia; f_equal; lia). split; [apply Z.div_pos; lia|apply Z.div_lt_upper_bound; lia]. }
  assert (H64 : forall a, 0 <= map_hash64 a n < 2 ^ n).
  { intros a. unfold map_hash64. rewrite Z.shiftr_div_pow2 by lia. pose proof (Z.mod_pos_bound (a * HASH_MUL64) (2 ^ 64) ltac:(lia)) as B. fold (u64 (a * HASH_MUL64)) in B. pose proof (pow2_pos (64 - n) ltac:(lia)). assert (E : 2 ^ n * 2 ^ (64 - n) = 2 ^ 64) by (rewrite <- Z.pow_add_r by lia; f_equal; lia). assert (R : 0 <= u64 (a * HASH_MUL64) / 2 ^ (64 - n) < 2 ^ n) by (split; [apply Z.div_pos; lia|apply Z.div_lt_upper_bound; lia]). rewrite u32_small; [done|]. assert (2 ^ n <= 2 ^ 31) by (apply Z.pow_le_mono_r; lia). lia. }
  destruct k as [| | | | | | |[]| |]; cbn [hash_key]; unfold map_hash_pointer; auto; lia.
Qed.

(** [C11] Equality of values: on all values of the engine, in whatever form
    they are (an integer or the double of that number, a short BigInt or one on
    the heap, a string or a rope of the same text), the three comparisons decide
    whether two values mean the same; [===] makes an exception for NaN and
    [Object.is] for the two zeros.  Keys of a Map that are equal have the same
    hash in whatever form they come, once the zeros are normalised, and the hash
    is an index of the table. *)
Theorem key_equality_and_hash (k1 k2 : JSKey) (H1 : key_ok k1) (H2 : key_ok k2) :
  js_strict_eq k1 k2 = Some (bool_decide (meaning_of k1 = meaning_of k2) && negb (bool_decide (meaning_of k1 = M_nan))) /\
  js_same_value k1 k2 = Some (bool_decide (meaning_of k1 = meaning_of k2) && Bool.eqb (is_minus_zero k1) (is_minus_zero k2)) /\
  same_value_zero k1 k2 = Some (bool_decide (meaning_of k1 = meaning_of k2)) /\
  (meaning_of k1 = meaning_of k2 -> forall n, hash_key (normalize_zero k1) n = hash_key (normalize_zero k2) n) /\
  (forall n, 1 <= n <= 31 -> 0 <= hash_key k1 n < 2 ^ n) /\
  meaning_of (normalize_zero k1) = meaning_of k1.
Proof.
  split_and!; [exact (strict_eq2_spec k1 k2 JS_EQ_STRICT H1 H2)|exact (strict_eq2_spec k1 k2 JS_EQ_SAME_VALUE H1 H2)| | |apply hash_bounds|apply normalize_zero_meaning].
  - unfold same_value_zero. rewrite strict_eq2_spec by done. unfold equal_as. by rewrite andb_true_r.
  - intros E n. apply hash_meaning; [by apply normalize_zero_ok|by apply normalize_zero_ok|apply normalize_zero_idem|apply normalize_zero_idem|by rewrite !normalize_zero_meaning].
Qed.

(** The double 1. *)
Definition one_double : JSKey := K_float64 (pack 0 0 0).

Lemma one_double_ok : key_ok one_double.
Proof. split; vm_compute; done. Qed.

Lemma key_equality_and_hash_witness : same_value_zero (K_int 1) one_double = Some true /\ hash_key (K_int 1) 4 = hash_key one_double 4.
Proof.
  assert (Hi : key_ok (K_int 1)) by (cbn; lia). assert (Hm : meaning_of (K_int 1) = meaning_of one_double) by (vm_compute; reflexivity). destruct (key_equality_and_hash (K_int 1) one_double Hi one_double_ok) as (_ & _ & E & H & _). split; [rewrite E; f_equal; by apply bool_decide_eq_true|exact (H Hm 4)].
Defined.
