(* ===== verification/JSMap.v ===== *)
(** * Map and Set objects (src/builtins/symbol.inc.c)

    A Map keeps its entries as records in a list in the order of insertion
    and in a hash table whose chains run through the records.  A record that
    is deleted while an iterator or a call of [forEach] stands on it stays in
    the list as an empty one until they have moved on.  Records and iterators
    live in arrays indexed by their address, where a freed one is [None];
    [None] as the result of an operation is an access to a freed one, or a
    failing [assert].  The allocator answers the [n]-th request by [mem n],
    and [clock] counts them.  Maps that are not weak are modelled. *)
From S2P Require Import Prelude.

(** Keys and values.  Iterators of the map itself are told apart: dropping
    the last reference to one of them changes the map.  The other values hold
    no such iterator, so that freeing them does not touch the map. *)
Inductive JSVal := V_undefined | V_plain (n : Z) | V_iterator (i : nat).

#[export] Instance JSVal_eq_dec : EqDecision JSVal.
Proof. solve_decision. Defined.

(** What the map uses of its keys. *)
Class MapKey := {
  js_same_value_zero : JSVal -> JSVal -> bool;
  map_hash_key : JSVal -> Z -> Z;
  map_normalize_key : JSVal -> JSVal }.

Record JSMapRecord := mkRecord { ref_count : Z; empty : bool; hash_next : nat; key : JSVal; value : JSVal }.

Inductive JSIteratorKindEnum := JS_ITERATOR_KIND_KEY | JS_ITERATOR_KIND_VALUE | JS_ITERATOR_KIND_KEY_AND_VALUE.

(** An iterator, or a running call of [forEach] ([args] are its references to
    the arguments of the callback).  [it_cur] is the record it stands on, 0 for
    none; [it_done] that its object is undefined. *)
Record JSMapIter := mkIter { it_refs : Z; it_cur : nat; it_done : bool; kind : JSIteratorKindEnum; args : list JSVal }.

Record JSMapState := mkMap {
  heap : list (option JSMapRecord); records : list nat; record_count : Z;
  hash_table : list nat; hash_bits : Z; record_count_threshold : Z;
  iters : list (option JSMapIter); clock : nat }.

Definition set_heap (h : list (option JSMapRecord)) (s : JSMapState) : JSMapState :=
  mkMap h (records s) (record_count s) (hash_table s) (hash_bits s) (record_count_threshold s) (iters s) (clock s).
Definition set_records (l : list nat) (s : JSMapState) : JSMapState :=
  mkMap (heap s) l (record_count s) (hash_table s) (hash_bits s) (record_count_threshold s) (iters s) (clock s).
Definition set_count (n : Z) (s : JSMapState) : JSMapState :=
  mkMap (heap s) (records s) n (hash_table s) (hash_bits s) (record_count_threshold s) (iters s) (clock s).
Definition set_table (h : list nat) (s : JSMapState) : JSMapState :=
  mkMap (heap s) (records s) (record_count s) h (hash_bits s) (record_count_threshold s) (iters s) (clock s).
Definition set_iters (l : list (option JSMapIter)) (s : JSMapState) : JSMapState :=
  mkMap (heap s) (records s) (record_count s) (hash_table s) (hash_bits s) (record_count_threshold s) l (clock s).
Definition tick (s : JSMapState) : JSMapState :=
  mkMap (heap s) (records s) (record_count s) (hash_table s) (hash_bits s) (record_count_threshold s) (iters s) (clock s + 1).

Definition get_record (s : JSMapState) (p : nat) : option JSMapRecord := mr ← heap s !! p; mr.
Definition put_record (p : nat) (mr : JSMapRecord) (s : JSMapState) : JSMapState := set_heap (<[p := Some mr]> (heap s)) s.
Definition get_iter (s : JSMapState) (i : nat) : option JSMapIter := it ← iters s !! i; it.
Definition put_iter (i : nat) (it : JSMapIter) (s : JSMapState) : JSMapState := set_iters (<[i := Some it]> (iters s)) s.

Definition with_ref_count (mr : JSMapRecord) (n : Z) : JSMapRecord := mkRecord n (empty mr) (hash_next mr) (key mr) (value mr).
Definition with_hash_next (mr : JSMapRecord) (p : nat) : JSMapRecord := mkRecord (ref_count mr) (empty mr) p (key mr) (value mr).
Definition with_value (mr : JSMapRecord) (v : JSVal) : JSMapRecord := mkRecord (ref_count mr) (empty mr) (hash_next mr) (key mr) v.

(** [el->next]; 0 is the head of the list. *)
Fixpoint next_in (l : list nat) (p : nat) : option nat :=
  match l with
  | [] => None
  | x :: l => if (x =? p)%nat then Some (default 0%nat (head l)) else next_in l p
  end.

Definition list_first (s : JSMapState) : nat := default 0%nat (head (records s)).
Definition list_next (s : JSMapState) (p : nat) : option nat := _ ← get_record s p; next_in (records s) p.

(** [list_del] and [js_free_rt]. *)
Definition free_record (p : nat) (s : JSMapState) : JSMapState := set_heap (<[p := None]> (heap s)) (set_records (unlink p (records s)) s).

Definition map_decref_record (s : JSMapState) (p : nat) : option JSMapState :=
  mr ← get_record s p;
  if ref_count mr - 1 =? 0 then if empty mr then Some (free_record p s) else None
  else Some (put_record p (with_ref_count mr (ref_count mr - 1)) s).

(** [JS_DupValue] and [JS_FreeValue]; the last reference to an iterator runs
    its finalizer. *)
Definition JS_DupValue (s : JSMapState) (v : JSVal) : option JSMapState :=
  match v with
  | V_iterator i => it ← get_iter s i; Some (put_iter i (mkIter (it_refs it + 1) (it_cur it) (it_done it) (kind it) (args it)) s)
  | _ => Some s
  end.

Definition js_map_iterator_finalizer (s : JSMapState) (i : nat) : option JSMapState :=
  it ← get_iter s i;
  let s := set_iters (<[i := None]> (iters s)) s in
  if (it_cur it =? 0)%nat then Some s else map_decref_record s (it_cur it).

Definition JS_FreeValue (s : JSMapState) (v : JSVal) : option JSMapState :=
  match v with
  | V_iterator i =>
      it ← get_iter s i;
      if it_refs it - 1 =? 0 then js_map_iterator_finalizer s i
      else Some (put_iter i (mkIter (it_refs it - 1) (it_cur it) (it_done it) (kind it) (args it)) s)
  | _ => Some s
  end.

Section map.
Context `{MapKey} (mem : nat -> bool).

(** ** Records *)

(** [for(mr = s->hash_table[h]; mr != NULL; mr = mr->hash_next)] *)
Fixpoint find_loop (fuel : nat) (s : JSMapState) (p : nat) (k : JSVal) : option nat :=
  match fuel with
  | O => None
  | S fuel =>
      if (p =? 0)%nat then Some 0%nat
      else
        mr ← get_record s p;
        if negb (empty mr) && js_same_value_zero (key mr) k then Some p else find_loop fuel s (hash_next mr) k
  end.

(** The record of a key, or 0. *)
Definition map_find_record (s : JSMapState) (k : JSVal) : option nat :=
  p ← hash_table s !! Z.to_nat (map_hash_key k (hash_bits s));
  find_loop (length (heap s) + 1) s p k.

(** [list_for_each(el, &s->records)] *)
Fixpoint rehash (l : list nat) (bits : Z) (h : list (option JSMapRecord)) (table : list nat) : option (list (option JSMapRecord) * list nat) :=
  match l with
  | [] => Some (h, table)
  | p :: l =>
      mr ← h !! p; mr ← mr;
      if empty mr then rehash l bits h table
      else
        let i := Z.to_nat (map_hash_key (key mr) bits) in
        q ← table !! i;
        rehash l bits (<[p := Some (with_hash_next mr q)]> h) (<[i := p]> table)
  end.

Definition map_hash_resize (s : JSMapState) : option JSMapState :=
  let bits := (hash_bits s + 1) `min` 31 in
  let size := u32 (Z.shiftl 1 bits) in
  if mem (clock s) then
    '(h, table) ← rehash (records s) bits (heap s) (replicate (Z.to_nat size) 0%nat);
    Some (mkMap h (records s) (record_count s) table bits (u32 (size * 2)) (iters s) (clock s + 1))
  else Some (tick s).

(** The new record, or 0; its value is not yet set. *)
Definition map_add_record (s : JSMapState) (k : JSVal) : option (JSMapState * nat) :=
  if mem (clock s) then
    let s := tick s in
    let p := length (heap s) in
    s ← JS_DupValue s k;
    let i := Z.to_nat (map_hash_key k (hash_bits s)) in
    q ← hash_table s !! i;
    let s := set_heap (heap s ++ [Some (mkRecord 1 false q k V_undefined)]) s in
    let s := set_table (<[i := p]> (hash_table s)) s in
    let s := set_records (records s ++ [p]) s in
    let s := set_count (u32 (record_count s + 1)) s in
    s ← (if record_count_threshold s <=? record_count s then map_hash_resize s else Some s);
    Some (s, p)
  else Some (tick s, 0%nat).

(** The record has been taken out of the hash table. *)
Definition map_delete_record_internal (s : JSMapState) (p : nat) : option JSMapState :=
  mr ← get_record s p;
  if empty mr then Some s
  else
    s ← JS_FreeValue s (key mr);
    s ← JS_FreeValue s (value mr);
    mr ← get_record s p;
    let s := if ref_count mr - 1 =? 0 then free_record p s
             else put_record p (mkRecord (ref_count mr - 1) true (hash_next mr) V_undefined V_undefined) s in
    Some (set_count (u32 (record_count s - 1)) s).

(** ** Methods *)

(** [mr->value = JS_DupValue(ctx, value)] *)
Definition store_value (s : JSMapState) (p : nat) (v : JSVal) : option JSMapState :=
  s ← JS_DupValue s v; mr ← get_record s p; Some (put_record p (with_value mr v) s).

(** [is_set] is the [magic] of a Set, whose entries have no values; the result
    [false] is the exception. *)
Definition js_map_set (s : JSMapState) (is_set : bool) (k v : JSVal) : option (JSMapState * bool) :=
  let k := map_normalize_key k in
  let v := if is_set then V_undefined else v in
  p ← map_find_record s k;
  if (p =? 0)%nat then
    '(s, p) ← map_add_record s k;
    if (p =? 0)%nat then Some (s, false) else s ← store_value s p v; Some (s, true)
  else
    mr ← get_record s p;
    s ← JS_FreeValue s (value mr);
    s ← store_value s p v;
    Some (s, true).

Definition js_map_get (s : JSMapState) (k : JSVal) : option (JSMapState * JSVal) :=
  p ← map_find_record s (map_normalize_key k);
  if (p =? 0)%nat then Some (s, V_undefined)
  else mr ← get_record s p; s ← JS_DupValue s (value mr); Some (s, value mr).

Definition js_map_has (s : JSMapState) (k : JSVal) : option bool :=
  p ← map_find_record s (map_normalize_key k); Some (negb (p =? 0)%nat).

Definition js_map_get_size (s : JSMapState) : Z := record_count s.

(** [for(;;)] with [pmr]: the record before the one found, 0 when the table
    itself refers to it. *)
Fixpoint unlink_find (fuel : nat) (s : JSMapState) (prev p : nat) (k : JSVal) : option (nat * nat) :=
  match fuel with
  | O => None
  | S fuel =>
      if (p =? 0)%nat then Some (prev, 0%nat)
      else
        mr ← get_record s p;
        if negb (empty mr) && js_same_value_zero (key mr) k then Some (prev, p) else unlink_find fuel s p (hash_next mr) k
  end.

Definition map_delete_record (s : JSMapState) (k : JSVal) : option (JSMapState * bool) :=
  let k := map_normalize_key k in
  let i := Z.to_nat (map_hash_key k (hash_bits s)) in
  h ← hash_table s !! i;
  '(prev, p) ← unlink_find (length (heap s) + 1) s 0 h k;
  if (p =? 0)%nat then Some (s, false)
  else
    mr ← get_record s p;
    s ← (if (prev =? 0)%nat then Some (set_table (<[i := hash_next mr]> (hash_table s)) s)
         else mp ← get_record s prev; Some (put_record prev (with_hash_next mp (hash_next mr)) s));
    s ← map_delete_record_internal s p;
    Some (s, true).

Definition js_map_delete (s : JSMapState) (k : JSVal) : option (JSMapState * bool) := map_delete_record s k.

(** [list_for_each_safe(el, el1, &s->records)]: the next record is read
    before the body is run. *)
Fixpoint clear_loop (fuel : nat) (s : JSMapState) (el el1 : nat) : option JSMapState :=
  match fuel with
  | O => None
  | S fuel =>
      if (el =? 0)%nat then Some s
      else
        s ← map_delete_record_internal s el;
        el2 ← (if (el1 =? 0)%nat then Some (list_first s) else list_next s el1);
        clear_loop fuel s el1 el2
  end.

Definition js_map_clear (s : JSMapState) : option JSMapState :=
  let s := set_table (replicate (length (hash_table s)) 0%nat) s in
  let el := list_first s in
  el1 ← (if (el =? 0)%nat then Some 0%nat else list_next s el);
  clear_loop (length (heap s) + 1) s el el1.

(** The value belongs to the record, and is returned as well; [None] is the
    exception. *)
Definition insert_value (s : JSMapState) (k v : JSVal) : option (JSMapState * option JSVal) :=
  '(s, p) ← map_add_record s k;
  if (p =? 0)%nat then s ← JS_FreeValue s v; Some (s, None)
  else
    mr ← get_record s p;
    let s := put_record p (with_value mr v) s in
    s ← JS_DupValue s v;
    Some (s, Some v).

Definition js_map_getOrInsert (s : JSMapState) (k v : JSVal) : option (JSMapState * option JSVal) :=
  let k := map_normalize_key k in
  p ← map_find_record s k;
  if (p =? 0)%nat then s ← JS_DupValue s v; insert_value s k v
  else mr ← get_record s p; s ← JS_DupValue s (value mr); Some (s, Some (value mr)).

(** [getOrInsertComputed] up to the call of its callback ([None]), which
    computes the value. *)
Definition getOrInsert_find (s : JSMapState) (k : JSVal) : option (JSMapState * option JSVal) :=
  p ← map_find_record s (map_normalize_key k);
  if (p =? 0)%nat then Some (s, None)
  else mr ← get_record s p; s ← JS_DupValue s (value mr); Some (s, Some (value mr)).

(** After its callback has returned [v]. *)
Definition getOrInsert_return (s : JSMapState) (k v : JSVal) : option (JSMapState * option JSVal) :=
  let k := map_normalize_key k in
  '(s, _) ← map_delete_record s k;
  insert_value s k v.

(** ** Iterators *)

(** The new iterator has its index in [iters]. *)
Definition js_create_map_iterator (s : JSMapState) (kind : JSIteratorKindEnum) : option nat * JSMapState :=
  if mem (clock s) then (Some (length (iters s)), tick (set_iters (iters s ++ [Some (mkIter 1 0 false kind [])]) s))
  else (None, tick s).

(** [for(;;)] up to a record that is not empty; 0 at the end. *)
Fixpoint skip_empty (fuel : nat) (s : JSMapState) (el : nat) : option nat :=
  match fuel with
  | O => None
  | S fuel =>
      if (el =? 0)%nat then Some 0%nat
      else mr ← get_record s el; if empty mr then el ← list_next s el; skip_empty fuel s el else Some el
  end.

Inductive next_result := N_done | N_values (l : list JSVal) | N_exception.

Fixpoint dup_values (s : JSMapState) (l : list JSVal) : option JSMapState :=
  match l with
  | [] => Some s
  | v :: l => s ← JS_DupValue s v; dup_values s l
  end.

Fixpoint free_values (s : JSMapState) (l : list JSVal) : option JSMapState :=
  match l with
  | [] => Some s
  | v :: l => s ← JS_FreeValue s v; free_values s l
  end.

(** What an iterator returns for a record; [js_create_array] may fail. *)
Definition iterator_result (s : JSMapState) (kind : JSIteratorKindEnum) (k v : JSVal) : option (JSMapState * next_result) :=
  match kind with
  | JS_ITERATOR_KIND_KEY => s ← dup_values s [k]; Some (s, N_values [k])
  | JS_ITERATOR_KIND_VALUE => s ← dup_values s [v]; Some (s, N_values [v])
  | JS_ITERATOR_KIND_KEY_AND_VALUE =>
      if mem (clock s) then s ← dup_values (tick s) [k; v]; Some (s, N_values [k; v]) else Some (tick s, N_exception)
  end.

(** A Set gives its keys for values. *)
Definition js_map_iterator_next (s : JSMapState) (is_set : bool) (i : nat) : option (JSMapState * next_result) :=
  it ← get_iter s i;
  if it_done it then Some (s, N_done)
  else
    '(s, el) ← (if (it_cur it =? 0)%nat then Some (s, list_first s)
                else el ← list_next s (it_cur it); s ← map_decref_record s (it_cur it); Some (s, el));
    el ← skip_empty (length (heap s) + 1) s el;
    if (el =? 0)%nat then Some (put_iter i (mkIter (it_refs it) 0 true (kind it) (args it)) s, N_done)
    else
      mr ← get_record s el;
      let s := put_record el (with_ref_count mr (ref_count mr + 1)) s in
      let s := put_iter i (mkIter (it_refs it) el false (kind it) (args it)) s in
      iterator_result s (kind it) (key mr) (if is_set then key mr else value mr).

(** [while (el != &s->records)] in [js_map_forEach], up to the call of the
    callback, which is given the value and the key; at the end the call is
    over. *)
Definition forEach_scan (s : JSMapState) (is_set : bool) (f el : nat) : option (JSMapState * option (JSVal * JSVal)) :=
  el ← skip_empty (length (heap s) + 1) s el;
  if (el =? 0)%nat then Some (set_iters (<[f := None]> (iters s)) s, None)
  else
    mr ← get_record s el;
    let s := put_record el (with_ref_count mr (ref_count mr + 1)) s in
    let l := if is_set then [key mr] else [value mr; key mr] in
    s ← dup_values s l;
    Some (put_iter f (mkIter 1 el false JS_ITERATOR_KIND_KEY l) s, Some (if is_set then key mr else value mr, key mr)).

Definition js_map_forEach (s : JSMapState) (is_set : bool) : option (JSMapState * nat * option (JSVal * JSVal)) :=
  let f := length (iters s) in
  let s := set_iters (iters s ++ [Some (mkIter 1 0 false JS_ITERATOR_KIND_KEY [])]) s in
  '(s, r) ← forEach_scan s is_set f (list_first s);
  Some (s, f, r).

(** After the callback has returned, or thrown. *)
Definition forEach_return (s : JSMapState) (is_set : bool) (f : nat) (thrown : bool) : option (JSMapState * option (JSVal * JSVal)) :=
  it ← get_iter s f;
  s ← free_values (put_iter f (mkIter 1 (it_cur it) false JS_ITERATOR_KIND_KEY []) s) (args it);
  el ← list_next s (it_cur it);
  s ← map_decref_record s (it_cur it);
  let s := put_iter f (mkIter 1 0 false JS_ITERATOR_KIND_KEY []) s in
  if thrown then Some (set_iters (<[f := None]> (iters s)) s, None) else forEach_scan s is_set f el.
End map.

(** [js_map_constructor]. *)
Definition js_map_constructor : JSMapState := mkMap [None] [] 0 (replicate 2 0%nat) 1 4 [] 0.
