(* ===== verification/JSMapProps.v ===== *)
(** * Maps: references

    Every record counts the map's own reference to it and those of the
    iterators that stand on it; every iterator counts those who hold it.
    Giving up or taking references leaves the entries of the map as they
    are. *)
From S2P Require Import Prelude Chains JSMap.

(** ** Sums over arrays *)

Section sums.
Context {A : Type}.
Implicit Types (f : A -> Z) (l : list A).

Fixpoint sumZ f l : Z := match l with [] => 0 | x :: l => f x + sumZ f l end.

Lemma sumZ_app f l1 l2 : sumZ f (l1 ++ l2) = sumZ f l1 + sumZ f l2.
Proof. induction l1 as [|x l1 IH]; cbn; lia. Qed.

Lemma sumZ_nonneg f l : (forall x, 0 <= f x) -> 0 <= sumZ f l.
Proof. intros H. induction l as [|x l IH]; cbn; [lia|]. specialize (H x). lia. Qed.

Lemma sumZ_insert f l i x y : l !! i = Some x -> sumZ f (<[i := y]> l) = sumZ f l - f x + f y.
Proof. revert i. induction l as [|z l IH]; intros [|i] H; try done; [cbn in *; injection H as <-; lia|]. change (<[S i := y]> (z :: l)) with (z :: <[i := y]> l). cbn [sumZ]. rewrite (IH i H). lia. Qed.

Lemma sumZ_ge f l i x : (forall x, 0 <= f x) -> l !! i = Some x -> f x <= sumZ f l.
Proof. intros Hp. revert i. induction l as [|z l IH]; intros [|i] H; try done; cbn in *; [injection H as ->; pose proof (sumZ_nonneg f l Hp); lia|]. specialize (IH i H). specialize (Hp z). lia. Qed.
End sums.

(** ** References *)

Definition is_it (i : nat) (v : JSVal) : Z := if decide (v = V_iterator i) then 1 else 0.

Definition rec_holds (i : nat) (mr : option JSMapRecord) : Z := match mr with Some mr => is_it i (key mr) + is_it i (value mr) | None => 0 end.
Definition iter_holds (i : nat) (it : option JSMapIter) : Z := match it with Some it => countZ (V_iterator i) (args it) | None => 0 end.
Definition iter_at (p : nat) (it : option JSMapIter) : Z := match it with Some it => if decide (it_cur it = p) then 1 else 0 | None => 0 end.

(** The references to iterator [i] from records and from arguments of
    callbacks; the iterators that stand on record [p]. *)
Definition held (s : JSMapState) (i : nat) : Z := sumZ (rec_holds i) (heap s) + sumZ (iter_holds i) (iters s).
Definition locks (s : JSMapState) (p : nat) : Z := sumZ (iter_at p) (iters s).

Lemma is_it_nonneg i v : 0 <= is_it i v.
Proof. unfold is_it. case_decide; lia. Qed.
Lemma rec_holds_nonneg i mr : 0 <= rec_holds i mr.
Proof. destruct mr as [mr|]; cbn; [|lia]. pose proof (is_it_nonneg i (key mr)). pose proof (is_it_nonneg i (value mr)). lia. Qed.
Lemma iter_holds_nonneg i it : 0 <= iter_holds i it.
Proof. destruct it; cbn; [apply countZ_nonneg|lia]. Qed.
Lemma iter_at_nonneg p it : 0 <= iter_at p it.
Proof. destruct it; cbn; [|lia]. case_decide; lia. Qed.
Lemma locks_nonneg s p : 0 <= locks s p.
Proof. apply sumZ_nonneg, iter_at_nonneg. Qed.
Lemma map_held_nonneg s i : 0 <= held s i.
Proof. unfold held. pose proof (sumZ_nonneg (rec_holds i) (heap s) (rec_holds_nonneg i)). pose proof (sumZ_nonneg (iter_holds i) (iters s) (iter_holds_nonneg i)). lia. Qed.

Definition own_count (mr : JSMapRecord) : Z := if empty mr then 0 else 1.

Lemma get_record_lookup s p mr : get_record s p = Some mr <-> heap s !! p = Some (Some mr).
Proof. unfold get_record. destruct (heap s !! p) as [[]|]; cbn; naive_solver. Qed.
Lemma get_iter_lookup s i it : get_iter s i = Some it <-> iters s !! i = Some (Some it).
Proof. unfold get_iter. destruct (iters s !! i) as [[]|]; cbn; naive_solver. Qed.

(** [ext i] references to iterator [i] belong to the script and [lk p] locks
    of record [p] to the function that runs. *)
Record wf_mem (ext lk : nat -> Z) (s : JSMapState) : Prop := {
  w_nodup : NoDup (records s);
  w_records : forall p, p ∈ records s <-> is_Some (get_record s p);
  w_null : get_record s 0 = None /\ (0 < length (heap s))%nat;
  w_ref : forall p mr, get_record s p = Some mr -> ref_count mr = own_count mr + locks s p + lk p /\ 0 < ref_count mr;
  w_zombie : forall p mr, get_record s p = Some mr -> empty mr = true -> key mr = V_undefined /\ value mr = V_undefined;
  w_cur : forall i it, get_iter s i = Some it -> (it_cur it <> 0%nat -> it_cur it ∈ records s) /\ (it_done it = true -> it_cur it = 0%nat);
  w_iter : forall i it, get_iter s i = Some it -> it_refs it = ext i + held s i /\ 0 < it_refs it;
  w_dead : forall i, get_iter s i = None -> ext i = 0 /\ held s i = 0;
  w_ext : forall i, 0 <= ext i;
  w_lk : forall p, 0 <= lk p }.

(** ** Steps that change references only *)

Definition same_entry (m m' : JSMapRecord) : Prop := empty m' = empty m /\ hash_next m' = hash_next m /\ key m' = key m /\ value m' = value m.

Record quiet (s s' : JSMapState) : Prop := {
  q_old : forall p m', get_record s' p = Some m' -> exists m, get_record s p = Some m /\ same_entry m m';
  q_live : forall p m, get_record s p = Some m -> empty m = false -> exists m', get_record s' p = Some m' /\ same_entry m m';
  q_records : records s' = filter (fun p => is_Some (get_record s' p)) (records s);
  q_iters : forall i it', get_iter s' i = Some it' -> exists it, get_iter s i = Some it /\ it_cur it' = it_cur it /\ it_done it' = it_done it /\ kind it' = kind it /\ args it' = args it;
  q_table : hash_table s' = hash_table s /\ hash_bits s' = hash_bits s /\ record_count s' = record_count s /\ record_count_threshold s' = record_count_threshold s;
  q_lengths : length (heap s') = length (heap s) /\ length (iters s') = length (iters s);
  q_clock : clock s' = clock s }.

Lemma same_entry_refl m : same_entry m m.
Proof. done. Qed.
Lemma same_entry_trans m1 m2 m3 : same_entry m1 m2 -> same_entry m2 m3 -> same_entry m1 m3.
Proof. unfold same_entry. intuition congruence. Qed.

Lemma filter_ext_in {A} (P Q : A -> Prop) `{forall x, Decision (P x)} `{forall x, Decision (Q x)} (l : list A) : (forall x, x ∈ l -> P x <-> Q x) -> filter P l = filter Q l.
Proof.
  induction l as [|x l IH]; intros Hl; [done|]. specialize (Hl x ltac:(by left)) as Hx. assert (IHl : filter P l = filter Q l) by (apply IH; intros y Hy; apply Hl; by right). destruct (decide (P x)); [rewrite !filter_cons_True by tauto; by rewrite IHl|by rewrite !filter_cons_False by tauto].
Qed.

Lemma filter_twice {A} (P Q : A -> Prop) `{forall x, Decision (P x)} `{forall x, Decision (Q x)} (l : list A) : (forall x, Q x -> P x) -> filter Q (filter P l) = filter Q l.
Proof.
  intros HPQ. induction l as [|x l IH]; [done|]. destruct (decide (P x)) as [HP|HP].
  - rewrite filter_cons_True by done. destruct (decide (Q x)); [rewrite !filter_cons_True by done; by f_equal|by rewrite !filter_cons_False by done].
  - rewrite filter_cons_False by done. rewrite (filter_cons_False Q) by naive_solver. done.
Qed.

Lemma map_quiet_refl ext lk s : wf_mem ext lk s -> quiet s s.
Proof.
  intros Hw. split; try done; [naive_solver eauto using same_entry_refl| naive_solver eauto using same_entry_refl| | naive_solver].
  symmetry. apply filter_all. intros p Hp. by apply (w_records _ _ _ Hw).
Qed.

Lemma map_quiet_trans s1 s2 s3 : quiet s1 s2 -> quiet s2 s3 -> quiet s1 s3.
Proof.
  intros Q1 Q2. split.
  - intros p m3 H3. apply (q_old _ _ Q2) in H3 as (m2 & H2 & E2). apply (q_old _ _ Q1) in H2 as (m1 & H1 & E1). exists m1. split; [done|by eapply same_entry_trans].
  - intros p m1 K1 He. apply (q_live _ _ Q1) in K1 as (m2 & K2 & E2); [|done]. apply (q_live _ _ Q2) in K2 as (m3 & K3 & E3); [|destruct E2; congruence]. exists m3. split; [done|by eapply same_entry_trans].
  - rewrite (q_records _ _ Q2), (q_records _ _ Q1). apply filter_twice. intros p [m H]. apply (q_old _ _ Q2) in H as (m2 & H2 & _). by exists m2.
  - intros i it3 H3. apply (q_iters _ _ Q2) in H3 as (it2 & K2 & ? & ? & ? & ?). apply (q_iters _ _ Q1) in K2 as (it1 & K1 & ? & ? & ? & ?). exists it1. split_and!; congruence.
  - destruct (q_table _ _ Q1) as (?&?&?&?), (q_table _ _ Q2) as (?&?&?&?). split_and!; congruence.
  - destruct (q_lengths _ _ Q1), (q_lengths _ _ Q2). split; congruence.
  - rewrite (q_clock _ _ Q2). apply (q_clock _ _ Q1).
Qed.

(** ** Updates *)

Lemma get_record_heap s p x q : (p < length (heap s))%nat -> get_record (set_heap (<[p := x]> (heap s)) s) q = if decide (q = p) then x else get_record s q.
Proof. intros Hp. unfold get_record. cbn. case_decide as E; [subst; by rewrite list_lookup_insert_eq|by rewrite list_lookup_insert_ne]. Qed.

Lemma get_iter_iters s i x j : (i < length (iters s))%nat -> get_iter (set_iters (<[i := x]> (iters s)) s) j = if decide (j = i) then x else get_iter s j.
Proof. intros Hi. unfold get_iter. cbn. case_decide as E; [subst; by rewrite list_lookup_insert_eq|by rewrite list_lookup_insert_ne]. Qed.

Lemma get_record_lt s p mr : get_record s p = Some mr -> (p < length (heap s))%nat.
Proof. rewrite get_record_lookup. apply lookup_lt_Some. Qed.
Lemma get_iter_lt s i it : get_iter s i = Some it -> (i < length (iters s))%nat.
Proof. rewrite get_iter_lookup. apply lookup_lt_Some. Qed.

Lemma held_heap s p mr x i : get_record s p = Some mr -> held (set_heap (<[p := x]> (heap s)) s) i = held s i - rec_holds i (Some mr) + rec_holds i x.
Proof. intros Hp. unfold held. cbn [heap iters set_heap]. rewrite (sumZ_insert _ _ _ (Some mr)) by (by apply get_record_lookup). lia. Qed.

Lemma held_iters s j it x i : get_iter s j = Some it -> held (set_iters (<[j := x]> (iters s)) s) i = held s i - iter_holds i (Some it) + iter_holds i x.
Proof. intros Hp. unfold held. cbn [heap iters set_iters]. rewrite (sumZ_insert _ _ _ (Some it)) by (by apply get_iter_lookup). lia. Qed.

Lemma locks_iters s j it x p : get_iter s j = Some it -> locks (set_iters (<[j := x]> (iters s)) s) p = locks s p - iter_at p (Some it) + iter_at p x.
Proof. intros Hp. unfold locks. cbn [iters set_iters]. by rewrite (sumZ_insert _ _ _ (Some it)) by (by apply get_iter_lookup). Qed.

Lemma held_args s j it i : get_iter s j = Some it -> countZ (V_iterator i) (args it) <= held s i.
Proof.
  intros Hj. unfold held. pose proof (sumZ_ge (iter_holds i) (iters s) j (Some it) (iter_holds_nonneg i) ltac:(by apply get_iter_lookup)) as H. cbn [iter_holds] in H. pose proof (sumZ_nonneg (rec_holds i) (heap s) (rec_holds_nonneg i)). lia.
Qed.

Lemma held_record s p mr i : get_record s p = Some mr -> is_it i (key mr) + is_it i (value mr) <= held s i.
Proof.
  intros Hj. unfold held. pose proof (sumZ_ge (rec_holds i) (heap s) p (Some mr) (rec_holds_nonneg i) ltac:(by apply get_record_lookup)) as H. cbn [rec_holds] in H. pose proof (sumZ_nonneg (iter_holds i) (iters s) (iter_holds_nonneg i)). lia.
Qed.

Lemma locks_pos s i it : get_iter s i = Some it -> 1 <= locks s (it_cur it).
Proof. intros Hi. unfold locks. pose proof (sumZ_ge (iter_at (it_cur it)) (iters s) i (Some it) (iter_at_nonneg _) ltac:(by apply get_iter_lookup)) as H. cbn [iter_at] in H. rewrite decide_True in H by done. lia. Qed.

(** An iterator changes: what it stands on, what it holds, who holds it. *)
Lemma wf_put_iter ext lk ext' lk' s i it it' : wf_mem ext lk s -> get_iter s i = Some it ->
  (forall p, p <> 0%nat -> lk' p + iter_at p (Some it') = lk p + iter_at p (Some it)) -> (forall p, 0 <= lk' p) -> (forall j, 0 <= ext' j) ->
  (forall j, j <> i -> ext' j + countZ (V_iterator j) (args it') = ext j + countZ (V_iterator j) (args it)) ->
  it_refs it' = ext' i + (held s i - countZ (V_iterator i) (args it) + countZ (V_iterator i) (args it')) -> 0 < it_refs it' ->
  (it_cur it' <> 0%nat -> it_cur it' ∈ records s) -> (it_done it' = true -> it_cur it' = 0%nat) -> wf_mem ext' lk' (put_iter i it' s).
Proof.
  intros Hw Hi Hlk Hlk0 Hext0 Hext Hr Hr0 Hc Hd. pose proof (get_iter_lt _ _ _ Hi) as Hlt. unfold put_iter. destruct Hw as [W1 W2 W3 W4 W5 W6 W7 W8 W9 W10]. split; try done.
  - intros p mr Hp. change (get_record s p = Some mr) in Hp. rewrite (locks_iters s i it) by done. destruct (W4 p mr Hp) as [-> ?]. split; [|done]. specialize (Hlk p ltac:(intros ->; destruct W3; congruence)). lia.
  - intros j it0. rewrite get_iter_iters by done. case_decide as E; [intros [= <-]; done|apply W6].
  - intros j it0. rewrite get_iter_iters by done. rewrite (held_iters s i it) by done. cbn [iter_holds]. case_decide as E; [subst j; intros [= <-]; split; [lia|done]|]. intros Hj. destruct (W7 j it0 Hj) as [-> ?]. specialize (Hext j E). split; [lia|done].
  - intros j. rewrite get_iter_iters by done. rewrite (held_iters s i it) by done. cbn [iter_holds]. case_decide as E; [done|]. intros Hj. destruct (W8 j Hj) as [E1 E2]. specialize (Hext j E). specialize (Hext0 j). pose proof (countZ_nonneg (V_iterator j) (args it')). pose proof (countZ_nonneg (V_iterator j) (args it)). pose proof (held_args s i it j Hi). lia.
Qed.

(** The end of an iterator, with the last reference to it. *)
Lemma wf_drop_iter ext lk ext' lk' s i it : wf_mem ext lk s -> get_iter s i = Some it -> args it = [] -> it_refs it = 1 -> ext i = 1 -> ext' i = 0 -> (forall j, j <> i -> ext' j = ext j) ->
  (forall p, p <> 0%nat -> lk' p = lk p + iter_at p (Some it)) -> (forall p, 0 <= lk' p) -> wf_mem ext' lk' (set_iters (<[i := None]> (iters s)) s).
Proof.
  intros Hw Hi Ha Hr He He' Hext Hlk Hlk0. pose proof (get_iter_lt _ _ _ Hi) as Hlt. destruct Hw as [W1 W2 W3 W4 W5 W6 W7 W8 W9 W10]. assert (Hheld : forall j, held (set_iters (<[i := None]> (iters s)) s) j = held s j) by (intros j; rewrite (held_iters s i it) by done; cbn [iter_holds]; rewrite Ha; cbn; lia). split; try done.
  - intros p mr Hp. change (get_record s p = Some mr) in Hp. rewrite (locks_iters s i it) by done. destruct (W4 p mr Hp) as [-> ?]. split; [|done]. specialize (Hlk p ltac:(intros ->; destruct W3; congruence)). cbn [iter_at] in *. lia.
  - intros j it0. rewrite get_iter_iters by done. case_decide; [done|apply W6].
  - intros j it0. rewrite get_iter_iters, Hheld by done. case_decide; [done|]. rewrite Hext by done. apply W7.
  - intros j. rewrite get_iter_iters, Hheld by done. case_decide as E; [subst j; intros _; destruct (W7 i it Hi); lia|]. rewrite Hext by done. apply W8.
  - intros j. destruct (decide (j = i)) as [->|E]; [lia|]. rewrite Hext by done. apply W9.
Qed.

(** A record changes its count or its entry. *)
Lemma wf_put_record ext lk ext' lk' s p mr mr' : wf_mem ext lk s -> get_record s p = Some mr ->
  ref_count mr' = own_count mr' + locks s p + lk' p -> 0 < ref_count mr' -> (forall q, q <> p -> lk' q = lk q) -> 0 <= lk' p ->
  (empty mr' = true -> key mr' = V_undefined /\ value mr' = V_undefined) -> (forall j, 0 <= ext' j) ->
  (forall j, ext' j + is_it j (key mr') + is_it j (value mr') = ext j + is_it j (key mr) + is_it j (value mr)) -> wf_mem ext' lk' (put_record p mr' s).
Proof.
  intros Hw Hp Hr Hr0 Hlk Hlk0 Hz Hext0 Hext. pose proof (get_record_lt _ _ _ Hp) as Hlt. unfold put_record. destruct Hw as [W1 W2 W3 W4 W5 W6 W7 W8 W9 W10]. assert (Hheld : forall j, held (set_heap (<[p := Some mr']> (heap s)) s) j = held s j - is_it j (key mr) - is_it j (value mr) + is_it j (key mr') + is_it j (value mr')) by (intros j; rewrite (held_heap s p mr) by done; cbn [rec_holds]; lia). split; try done.
  - intros q. rewrite get_record_heap by done. case_decide as E; [subst q; rewrite W2; naive_solver|apply W2].
  - rewrite get_record_heap by done. case_decide as E; [subst p; destruct W3; congruence|]. cbn. rewrite length_insert. done.
  - intros q mq. rewrite get_record_heap by done. change (locks (set_heap _ s) q) with (locks s q). case_decide as E; [subst q; intros [= <-]; done|]. intros Hq. rewrite Hlk by done. by apply W4.
  - intros q mq. rewrite get_record_heap by done. case_decide; [intros [= <-]; done|apply W5].
  - intros j it Hj. change (get_iter s j = Some it) in Hj. rewrite Hheld. destruct (W7 j it Hj) as [-> ?]. specialize (Hext j). lia.
  - intros j Hj. change (get_iter s j = None) in Hj. rewrite Hheld. destruct (W8 j Hj) as [E1 E2]. pose proof (held_record s p mr j Hp). specialize (Hext j). specialize (Hext0 j). pose proof (is_it_nonneg j (key mr)). pose proof (is_it_nonneg j (value mr)). pose proof (is_it_nonneg j (key mr')). pose proof (is_it_nonneg j (value mr')). lia.
  - intros q. destruct (decide (q = p)) as [->|E]; [done|]. rewrite Hlk by done. apply W10.
Qed.

(** The end of an empty record that nobody stands on. *)
Lemma wf_free_record ext lk lk' s p mr : wf_mem ext lk s -> get_record s p = Some mr -> key mr = V_undefined -> value mr = V_undefined -> locks s p = 0 -> lk' p = 0 -> (forall q, q <> p -> lk' q = lk q) -> wf_mem ext lk' (free_record p s).
Proof.
  intros Hw Hp Hk Hv Hl Hlkp Hlk. pose proof (get_record_lt _ _ _ Hp) as Hlt. destruct Hw as [W1 W2 W3 W4 W5 W6 W7 W8 W9 W10].
  assert (Hg : forall q, get_record (free_record p s) q = if decide (q = p) then None else get_record s q) by (intros q; unfold free_record; change (heap s) with (heap (set_records (unlink p (records s)) s)) at 1; rewrite get_record_heap by done; done).
  assert (Hheld : forall j, held (free_record p s) j = held s j) by (intros j; unfold free_record; change (heap s) with (heap (set_records (unlink p (records s)) s)) at 1; rewrite (held_heap _ p mr) by done; cbn [rec_holds]; rewrite Hk, Hv; unfold held; cbn [heap iters set_records]; unfold is_it; rewrite decide_False by done; lia). split; try done.
  - cbn. by apply NoDup_unlink.
  - intros q. rewrite Hg. cbn. rewrite elem_of_unlink, W2. case_decide; naive_solver.
  - rewrite Hg. destruct W3. case_decide; (split; [done|]); cbn; by rewrite length_insert.
  - intros q mq. rewrite Hg. case_decide; [done|]. intros Hq. rewrite Hlk by done. by apply W4.
  - intros q mq. rewrite Hg. case_decide; [done|apply W5].
  - intros i it Hi. change (get_iter s i = Some it) in Hi. destruct (W6 i it Hi) as [C1 C2]. split; [|done]. intros Hc. cbn. apply elem_of_unlink. split; [|by apply C1]. intros E. pose proof (locks_pos s i it Hi) as Hpos. rewrite E in Hpos. lia.
  - intros i it Hi. change (get_iter s i = Some it) in Hi. rewrite Hheld. by apply W7.
  - intros i Hi. change (get_iter s i = None) in Hi. rewrite Hheld. by apply W8.
  - intros q. destruct (decide (q = p)) as [->|E]; [lia|]. rewrite Hlk by done. apply W10.
Qed.

(** ** Quiet steps *)

Lemma quiet_put_record ext lk s p mr mr' : wf_mem ext lk s -> get_record s p = Some mr -> same_entry mr mr' -> quiet s (put_record p mr' s).
Proof.
  intros Hw Hp He. pose proof (get_record_lt _ _ _ Hp) as Hlt. assert (Hg : forall q, get_record (put_record p mr' s) q = if decide (q = p) then Some mr' else get_record s q) by (intros q; by apply get_record_heap). split; try done.
  - intros q m. rewrite Hg. case_decide as E; [subst q; intros [= <-]; by exists mr|]. intros Hq. by exists m.
  - intros q m Hq _. rewrite Hg. case_decide as E; [subst q; rewrite Hp in Hq; injection Hq as <-; by exists mr'|]. by exists m.
  - symmetry. apply filter_all. intros q Hq. rewrite Hg. case_decide; [done|]. by apply (w_records _ _ _ Hw).
  - naive_solver.
  - split; [cbn; by rewrite length_insert|done].
Qed.

Lemma quiet_free_record ext lk s p mr : wf_mem ext lk s -> get_record s p = Some mr -> empty mr = true -> quiet s (free_record p s).
Proof.
  intros Hw Hp He. pose proof (get_record_lt _ _ _ Hp) as Hlt. assert (Hg : forall q, get_record (free_record p s) q = if decide (q = p) then None else get_record s q) by (intros q; unfold free_record; change (heap s) with (heap (set_records (unlink p (records s)) s)) at 1; rewrite get_record_heap by done; done). split; try done.
  - intros q m. rewrite Hg. case_decide; [done|]. intros Hq. by exists m.
  - intros q m Hq Hm. rewrite Hg. case_decide as E; [subst q; congruence|]. by exists m.
  - cbn [free_record records set_heap set_records]. unfold unlink. apply filter_ext_in. intros q Hq. rewrite Hg. apply (w_records _ _ _ Hw) in Hq. case_decide; naive_solver.
  - naive_solver.
  - split; [cbn; by rewrite length_insert|done].
Qed.

Lemma quiet_put_iter ext lk s i it it' : wf_mem ext lk s -> get_iter s i = Some it -> it_cur it' = it_cur it -> it_done it' = it_done it -> kind it' = kind it -> args it' = args it -> quiet s (put_iter i it' s).
Proof.
  intros Hw Hi H1 H2 H3 H4. pose proof (get_iter_lt _ _ _ Hi) as Hlt. pose proof (map_quiet_refl _ _ _ Hw) as Hq. split; try apply Hq.
  - intros j itj. unfold put_iter. rewrite get_iter_iters by done. case_decide; [subst j; intros [= <-]; by exists it|naive_solver].
  - split; [done|cbn; by rewrite length_insert].
Qed.

Lemma quiet_drop_iter ext lk s i it : wf_mem ext lk s -> get_iter s i = Some it -> quiet s (set_iters (<[i := None]> (iters s)) s).
Proof.
  intros Hw Hi. pose proof (get_iter_lt _ _ _ Hi) as Hlt. pose proof (map_quiet_refl _ _ _ Hw) as Hq. split; try apply Hq.
  - intros j itj. rewrite get_iter_iters by done. case_decide; naive_solver.
  - split; [done|cbn; by rewrite length_insert].
Qed.

(** Records the running function has locked stay. *)
Definition kept (lk : nat -> Z) (s s' : JSMapState) : Prop := forall q, 0 < lk q -> is_Some (get_record s q) -> is_Some (get_record s' q).

Lemma decref_spec ext lk lk' s p : wf_mem ext lk s -> p ∈ records s -> lk p = lk' p + 1 -> 0 <= lk' p -> (forall q, q <> p -> lk' q = lk q) -> exists s', map_decref_record s p = Some s' /\ wf_mem ext lk' s' /\ quiet s s' /\ iters s' = iters s /\ kept lk' s s'.
Proof.
  intros Hw Hp Hlk Hlk0 Hq. apply (w_records _ _ _ Hw) in Hp as [mr Hp]. unfold map_decref_record. rewrite Hp. cbn [mbind option_bind]. destruct (w_ref _ _ _ Hw p mr Hp) as [Hr Hr0]. pose proof (locks_nonneg s p) as Hl. unfold own_count in Hr. destruct (Z.eqb_spec (ref_count mr - 1) 0) as [E|E].
  - destruct (empty mr) eqn:Em; [|lia]. eexists. split; [reflexivity|]. destruct (w_zombie _ _ _ Hw p mr Hp Em). split_and!; [|by eapply quiet_free_record|done|intros q Hq0 Hq1; change (is_Some (get_record (set_heap (<[p := None]> (heap s)) s) q)); rewrite get_record_heap by (by eapply get_record_lt); case_decide; [subst q; lia|done]]. eapply wf_free_record; [done|done|done|done|lia|lia|done].
  - eexists. split; [reflexivity|]. split_and!; [|by eapply quiet_put_record|done|intros q Hq0 Hq1; unfold put_record; rewrite get_record_heap by (by eapply get_record_lt); by case_decide]. eapply wf_put_record; [done|done| | |done|lia|by apply (w_zombie _ _ _ Hw p mr Hp)|apply (w_ext _ _ _ Hw)|done]; cbn; unfold own_count; cbn; destruct (empty mr); lia.
Qed.

(** The references of the script with one more for [v]. *)
Definition own (v : JSVal) (ext : nat -> Z) (i : nat) : Z := ext i + is_it i v.

(** [v] may be used: an iterator is still there. *)
Definition alive (s : JSMapState) (v : JSVal) : Prop := match v with V_iterator i => is_Some (get_iter s i) | _ => True end.

Lemma own_plain v ext : (forall i, v <> V_iterator i) -> forall i, own v ext i = ext i.
Proof. intros Hv i. unfold own, is_it. rewrite decide_False by done. lia. Qed.

Lemma wf_ext_eq ext ext' lk s : (forall i, ext' i = ext i) -> wf_mem ext lk s -> wf_mem ext' lk s.
Proof. intros He [W1 W2 W3 W4 W5 W6 W7 W8 W9 W10]. split; try done; intros; rewrite He; auto. Qed.

Lemma dup_spec ext lk s v : wf_mem ext lk s -> alive s v -> exists s', JS_DupValue s v = Some s' /\ wf_mem (own v ext) lk s' /\ quiet s s' /\ heap s' = heap s.
Proof.
  intros Hw Ha. pose proof (map_quiet_refl _ _ _ Hw) as Hq. destruct v as [|n|i]; cbn [JS_DupValue]; [by exists s; split_and!; [|eapply wf_ext_eq; [|exact Hw]; by apply own_plain| |]|by exists s; split_and!; [|eapply wf_ext_eq; [|exact Hw]; by apply own_plain| |]|].
  destruct Ha as [it Hi]. rewrite Hi. cbn [mbind option_bind]. eexists. split; [reflexivity|]. destruct (w_iter _ _ _ Hw i it Hi) as [Hr Hr0]. split_and!; [|by eapply quiet_put_iter|done]. eapply wf_put_iter; [done|done|done|apply (w_lk _ _ _ Hw)| | | | |apply (w_cur _ _ _ Hw i it Hi)|apply (w_cur _ _ _ Hw i it Hi)]; cbn [args it_refs it_cur].
  - intros j. unfold own. pose proof (w_ext _ _ _ Hw j). pose proof (is_it_nonneg j (V_iterator i)). lia.
  - intros j Hj. unfold own, is_it. rewrite decide_False by congruence. lia.
  - unfold own, is_it. rewrite decide_True by done. lia.
  - lia.
Qed.

(** Whoever holds values is itself held: a running call of [forEach]. *)
Definition frames_ok (ext : nat -> Z) (s : JSMapState) : Prop := forall i it, get_iter s i = Some it -> args it <> [] -> 1 <= ext i.

Lemma quiet_frames ext s s' : quiet s s' -> frames_ok ext s -> frames_ok ext s'.
Proof. intros Q Hf i it' Hi Ha. apply (q_iters _ _ Q) in Hi as (it & Hi & _ & _ & _ & E). rewrite E in Ha. by apply (Hf i it). Qed.

Lemma map_free_spec ext lk s v : wf_mem (own v ext) lk s -> (forall i, 0 <= ext i) -> frames_ok ext s -> exists s', JS_FreeValue s v = Some s' /\ wf_mem ext lk s' /\ quiet s s' /\ kept lk s s'.
Proof.
  intros Hw Hext Hargs. pose proof (map_quiet_refl _ _ _ Hw) as Hq. destruct v as [|n|i]; cbn [JS_FreeValue]; [exists s; split_and!; [done|eapply wf_ext_eq; [|exact Hw]; intros; by rewrite own_plain|done|by intros q _]|exists s; split_and!; [done|eapply wf_ext_eq; [|exact Hw]; intros; by rewrite own_plain|done|by intros q _]|].
  assert (Ho : own (V_iterator i) ext i = ext i + 1) by (unfold own, is_it; by rewrite decide_True). assert (Ho' : forall j, j <> i -> own (V_iterator i) ext j = ext j) by (intros j Hj; unfold own, is_it; rewrite decide_False by congruence; lia). pose proof (Hext i) as Hei.
  destruct (get_iter s i) as [it|] eqn:Hi; [|destruct (w_dead _ _ _ Hw i Hi); lia]. cbn [mbind option_bind]. destruct (w_iter _ _ _ Hw i it Hi) as [Hr Hr0]. pose proof (map_held_nonneg s i) as Hh. destruct (Z.eqb_spec (it_refs it - 1) 0) as [E|E]; [assert (Ha : args it = []) by (destruct (args it) as [|a l] eqn:Ea; [done|]; specialize (Hargs i it Hi ltac:(congruence)); lia)|].
  - unfold js_map_iterator_finalizer. rewrite Hi. cbn [mbind option_bind]. destruct (w_cur _ _ _ Hw i it Hi) as [Hc _]. set (s1 := set_iters (<[i := None]> (iters s)) s). assert (Q1 : quiet s s1) by (by eapply quiet_drop_iter). destruct (Nat.eqb_spec (it_cur it) 0) as [E0|N0].
    + exists s1. split_and!; [done| |done|by intros q _]. eapply wf_drop_iter; [exact Hw|exact Hi|exact Ha|lia|lia|lia|intros j Hj; by rewrite Ho'| |apply (w_lk _ _ _ Hw)]. intros p Hp. cbn [iter_at]. rewrite decide_False by congruence. lia.
    + assert (Hw1 : wf_mem ext (fun p => lk p + iter_at p (Some it)) s1) by (eapply wf_drop_iter; [exact Hw|exact Hi|exact Ha|lia|lia|lia|intros j Hj; by rewrite Ho'|done|intros p; pose proof (w_lk _ _ _ Hw p); pose proof (iter_at_nonneg p (Some it)); lia]).
      destruct (decref_spec ext _ lk s1 (it_cur it) Hw1) as (s' & E' & W' & Q' & _ & K'); [by apply Hc|cbn [iter_at]; by rewrite decide_True|apply (w_lk _ _ _ Hw)|intros q Hq'; cbn [iter_at]; rewrite decide_False by congruence; lia|]. exists s'. split_and!; [done|done|by eapply map_quiet_trans|done].
  - eexists. split; [reflexivity|]. split_and!; [|by eapply quiet_put_iter|by intros q _]. eapply wf_put_iter; [exact Hw|exact Hi|done|apply (w_lk _ _ _ Hw)|done|intros j Hj; cbn [args]; rewrite Ho' by done; done|cbn [it_refs args]; lia|cbn [it_refs]; lia|apply (w_cur _ _ _ Hw i it Hi)|apply (w_cur _ _ _ Hw i it Hi)].
Qed.
