(* ===== verification/JSMapTable.v ===== *)
(** * Maps: the hash table

    The chains of the table hold exactly the records that are not empty, each
    in the bucket of its key; keys are found through them. *)
From S2P Require Import Prelude Chains JSMap JSMapProps.

(** What the map relies on. *)
Class MapKeyLaws `{MapKey} : Prop := {
  same_refl : forall k, js_same_value_zero k k = true;
  same_sym : forall a b, js_same_value_zero a b = true -> js_same_value_zero b a = true;
  same_trans : forall a b c, js_same_value_zero a b = true -> js_same_value_zero b c = true -> js_same_value_zero a c = true;
  hash_same : forall a b n, map_normalize_key a = a -> map_normalize_key b = b -> js_same_value_zero a b = true -> map_hash_key a n = map_hash_key b n;
  normalize_idem : forall k, map_normalize_key (map_normalize_key k) = map_normalize_key k;
  normalize_value : forall k, map_normalize_key k = k \/ forall i, map_normalize_key k <> V_iterator i;
  hash_range : forall k n, 1 <= n <= 31 -> 0 <= map_hash_key k n < 2 ^ n }.

Section table.
Context {MK : MapKey} {ML : MapKeyLaws}.

Definition nx (s : JSMapState) (p : nat) : option nat := hash_next <$> get_record s p.
Definition bucket (s : JSMapState) (k : JSVal) : nat := Z.to_nat (map_hash_key k (hash_bits s)).
Definition bk (s : JSMapState) (p : nat) : option nat := mr ← get_record s p; if empty mr then None else Some (bucket s (key mr)).

Definition live_count (mr : option JSMapRecord) : Z := match mr with Some mr => own_count mr | None => 0 end.
(** The number of entries. *)
Definition nlive (s : JSMapState) : Z := sumZ live_count (heap s).

(** [tb] is the bucket of a record in the table, which may lag behind. *)
Record wf_tab (tb : nat -> option nat) (s : JSMapState) : Prop := {
  t_table : exists cs, table (nx s) tb (hash_table s) cs;
  t_size : Z.of_nat (length (hash_table s)) = 2 ^ hash_bits s /\ 1 <= hash_bits s <= 31;
  t_keys : forall p q mp mq, get_record s p = Some mp -> get_record s q = Some mq -> empty mp = false -> empty mq = false -> js_same_value_zero (key mp) (key mq) = true -> p = q;
  t_norm : forall p m, get_record s p = Some m -> empty m = false -> map_normalize_key (key m) = key m;
  t_count : record_count s = u32 (nlive s) }.

Lemma bk_some s p j : bk s p = Some j <-> exists mr, get_record s p = Some mr /\ empty mr = false /\ j = bucket s (key mr).
Proof.
  unfold bk. destruct (get_record s p) as [mr|]; cbn; [|split; [done|intros (m & ? & _); done]]. destruct (empty mr) eqn:E.
  - split; [done|]. intros (m & [= <-] & ? & _). congruence.
  - split; [intros [= <-]; by exists mr|]. intros (m & [= <-] & _ & ->). done.
Qed.

Lemma map_bucket_lt tb s k : wf_tab tb s -> (bucket s k < length (hash_table s))%nat.
Proof. intros Ht. destruct (t_size _ _ Ht) as [Hs Hb]. pose proof (hash_range k (hash_bits s) Hb). unfold bucket. lia. Qed.

Lemma bucket_same s a b : map_normalize_key a = a -> map_normalize_key b = b -> js_same_value_zero a b = true -> bucket s a = bucket s b.
Proof. intros Ea Eb E. unfold bucket. by rewrite (hash_same a b). Qed.

(** ** References do not matter to the table *)

Lemma sumZ_pointwise {A} (f : A -> Z) (l l' : list A) : length l' = length l -> (forall i x y, l !! i = Some x -> l' !! i = Some y -> f y = f x) -> sumZ f l' = sumZ f l.
Proof.
  revert l'. induction l as [|x l IH]; intros [|y l'] Hl Hf; try done. cbn [sumZ]. rewrite (Hf 0%nat x y) by done. rewrite (IH l'); [done|by injection Hl|]. intros i. exact (Hf (S i)).
Qed.

Lemma quiet_live_record s s' p mr' : quiet s s' -> get_record s' p = Some mr' -> exists mr, get_record s p = Some mr /\ same_entry mr mr'.
Proof. intros Q. apply (q_old _ _ Q). Qed.

Lemma quiet_nlive s s' : quiet s s' -> nlive s' = nlive s.
Proof.
  intros Q. unfold nlive. apply sumZ_pointwise; [apply (q_lengths _ _ Q)|]. intros p x y Hx Hy. destruct y as [my|]; cbn [live_count].
  - destruct (q_old _ _ Q p my) as (m & Hm & E & _); [by apply get_record_lookup|]. apply get_record_lookup in Hm. rewrite Hx in Hm. injection Hm as ->. cbn. unfold own_count. by rewrite E.
  - destruct x as [mx|]; [|done]. cbn. unfold own_count. destruct (empty mx) eqn:E; [done|]. destruct (q_live _ _ Q p mx) as (m' & Hm & _); [by apply get_record_lookup|done|]. apply get_record_lookup in Hm. congruence.
Qed.

Lemma quiet_bk s s' p : quiet s s' -> bk s' p = bk s p.
Proof.
  intros Q. unfold bk, bucket. destruct (q_table _ _ Q) as (_ & -> & _). destruct (get_record s' p) as [m'|] eqn:E'; cbn.
  - destruct (q_old _ _ Q p m' E') as (m & -> & E1 & _ & E2 & _). cbn. by rewrite E1, E2.
  - destruct (get_record s p) as [m|] eqn:E; [|done]. cbn. destruct (empty m) eqn:Em; [done|]. destruct (q_live _ _ Q p m E Em) as (m' & ? & _). congruence.
Qed.

Lemma quiet_tab tb s s' : quiet s s' -> (forall p, is_Some (tb p) -> is_Some (bk s p)) -> wf_tab tb s -> wf_tab tb s'.
Proof.
  intros Q Htb Ht. destruct (q_table _ _ Q) as (E1 & E2 & E3 & E4). split.
  - destruct (t_table _ _ Ht) as [cs Hcs]. exists cs. rewrite E1. eapply table_ext; [|done|exact Hcs]. intros p Hp. apply Htb in Hp as [j Hj]. apply bk_some in Hj as (m & Hm & He & _). destruct (q_live _ _ Q p m Hm He) as (m' & Hm' & _ & En & _). unfold nx. rewrite Hm, Hm'. cbn. by rewrite En.
  - rewrite E1, E2. apply (t_size _ _ Ht).
  - intros p q mp mq Hp Hq Ep Eq Es. apply (q_old _ _ Q) in Hp as (m1 & Hp & A1 & _ & A2 & _). apply (q_old _ _ Q) in Hq as (m2 & Hq & B1 & _ & B2 & _). apply (t_keys _ _ Ht p q m1 m2); congruence.
  - intros p m' Hp Ep. apply (q_old _ _ Q) in Hp as (m & Hp & A1 & _ & A2 & _). rewrite A2. apply (t_norm _ _ Ht p m Hp). congruence.
  - rewrite E3, (quiet_nlive s s' Q). apply (t_count _ _ Ht).
Qed.

(** ** Finding a record *)

Lemma map_find_loop_spec s k c : forall h fuel, chain (nx s) h c -> (forall p, p ∈ c -> exists mr, get_record s p = Some mr /\ empty mr = false) -> (length c < fuel)%nat ->
  exists p, find_loop fuel s h k = Some p /\ (p = 0%nat /\ (forall q mq, q ∈ c -> get_record s q = Some mq -> js_same_value_zero (key mq) k = false) \/ p <> 0%nat /\ exists mr, get_record s p = Some mr /\ empty mr = false /\ js_same_value_zero (key mr) k = true).
Proof.
  induction c as [|i c IH]; intros h fuel Hc Hlive Hf; (destruct fuel as [|fuel]; [cbn in Hf; lia|]); cbn [find_loop].
  - cbn in Hc. subst h. cbn [Nat.eqb]. exists 0%nat. split; [done|]. left. split; [done|]. intros q mq Hq. by apply elem_of_nil in Hq.
  - destruct Hc as (-> & Hi & n & En & Hc). rewrite (proj2 (Nat.eqb_neq _ _)) by done. destruct (Hlive i ltac:(by left)) as (mr & Hmr & He). rewrite Hmr. cbn [mbind option_bind]. rewrite He. cbn [negb andb]. unfold nx in En. rewrite Hmr in En. cbn in En. injection En as <-.
    destruct (js_same_value_zero (key mr) k) eqn:Es; [exists i; split; [done|]; right; split; [done|]; by exists mr|]. destruct (IH (hash_next mr) fuel Hc) as (p & E & R); [intros q Hq; apply Hlive; by right|cbn in Hf; lia|]. exists p. split; [done|]. destruct R as [[-> R]|R]; [left; split; [done|]|by right].
    intros q mq Hq Hmq. apply elem_of_cons in Hq as [->|Hq]; [congruence|by eapply R].
Qed.

Lemma chain_length ext lk (tb : nat -> option nat) s cs j c : wf_mem ext lk s -> table (nx s) tb (hash_table s) cs -> (forall p, is_Some (tb p) -> is_Some (bk s p)) -> cs !! j = Some c -> (length c < length (heap s) + 1)%nat.
Proof.
  intros Hw (_ & Hn & Hb) Htb Hc. assert (length c <= length (heap s))%nat; [|lia]. apply NoDup_below; [by eapply Hn|]. apply Forall_forall. intros p Hp. assert (Hs : is_Some (tb p)) by (exists j; apply Hb; eauto). apply Htb in Hs as [j' Hj]. apply bk_some in Hj as (mr & Hm & _). by eapply get_record_lt.
Qed.

Definition no_key (s : JSMapState) (k : JSVal) : Prop := forall q mq, get_record s q = Some mq -> empty mq = false -> js_same_value_zero (key mq) k = false.
Definition has_key (s : JSMapState) (p : nat) (k : JSVal) : Prop := exists mr, get_record s p = Some mr /\ empty mr = false /\ js_same_value_zero (key mr) k = true.

Lemma map_bucket_chain ext lk s k : wf_mem ext lk s -> wf_tab (bk s) s -> exists cs h c, table (nx s) (bk s) (hash_table s) cs /\ hash_table s !! bucket s k = Some h /\ chain (nx s) h c /\ (length c < length (heap s) + 1)%nat /\ NoDup c /\
  (forall p, p ∈ c <-> bk s p = Some (bucket s k)).
Proof.
  intros Hw Ht. destruct (t_table _ _ Ht) as [cs Hcs]. destruct (lookup_lt_is_Some_2 (hash_table s) (bucket s k)) as [h Hh]; [by eapply map_bucket_lt|]. destruct (table_bucket _ _ _ _ _ _ Hcs Hh) as (c & Ec & Hc & Hnd). exists cs, h, c. split_and!; [done|done|done|by eapply chain_length|done|].
  intros p. destruct Hcs as (_ & _ & Hb). rewrite Hb. split; [eauto|]. intros (c' & E' & Hp). congruence.
Qed.

Lemma find_record_spec ext lk s k : map_normalize_key k = k -> wf_mem ext lk s -> wf_tab (bk s) s -> exists p, map_find_record s k = Some p /\ (p = 0%nat /\ no_key s k \/ p <> 0%nat /\ has_key s p k).
Proof.
  intros Hk Hw Ht. destruct (map_bucket_chain ext lk s k Hw Ht) as (cs & h & c & _ & Hh & Hc & Hl & _ & Hb). unfold map_find_record. fold (bucket s k). rewrite Hh. cbn [mbind option_bind].
  destruct (map_find_loop_spec s k c h (length (heap s) + 1) Hc) as (p & E & R); [intros q Hq; apply Hb, bk_some in Hq as (mr & ? & ? & _); eauto|done|]. exists p. split; [done|]. destruct R as [[-> R]|R]; [left; split; [done|]|by right].
  intros q mq Hq He. destruct (js_same_value_zero (key mq) k) eqn:Es; [|done]. rewrite <- Es. apply (R q mq); [|done]. apply Hb, bk_some. exists mq. split_and!; [done|done|]. symmetry. apply bucket_same; [by apply (t_norm _ _ Ht q)|done|done].
Qed.

Lemma chain_no_loop (f : nat -> option nat) h c p : chain f h c -> NoDup c -> p ∈ c -> f p <> Some p.
Proof.
  intros Hc Hn Hp Hf. pose proof (chain_nonzero _ _ _ _ Hc Hp) as H0. apply list_elem_of_split in Hp as (c1 & c2 & ->). pose proof (chain_next _ _ _ _ _ _ Hc Hf) as Hc2. apply NoDup_split_elem in Hn as [_ Hn]. destruct c2 as [|q c2]; [done|]. destruct Hc2 as (-> & _). apply Hn. by left.
Qed.

(** The record before the one found. *)
Lemma unlink_find_spec s k c : forall prev h fuel, chain (nx s) h c -> (forall p, p ∈ c -> exists mr, get_record s p = Some mr /\ empty mr = false) -> (length c < fuel)%nat ->
  exists r p, unlink_find fuel s prev h k = Some (r, p) /\ (p = 0%nat /\ (forall q mq, q ∈ c -> get_record s q = Some mq -> js_same_value_zero (key mq) k = false) \/ p ∈ c /\ has_key s p k /\ (r = prev /\ p = h \/ r ∈ c /\ nx s r = Some p)).
Proof.
  induction c as [|i c IH]; intros prev h fuel Hc Hlive Hf; (destruct fuel as [|fuel]; [cbn in Hf; lia|]); cbn [unlink_find].
  - cbn in Hc. subst h. cbn [Nat.eqb]. exists prev, 0%nat. split; [done|]. left. split; [done|]. intros q mq Hq. by apply elem_of_nil in Hq.
  - destruct Hc as (-> & Hi & n & En & Hc). rewrite (proj2 (Nat.eqb_neq _ _)) by done. destruct (Hlive i ltac:(by left)) as (mr & Hmr & He). rewrite Hmr. cbn [mbind option_bind]. rewrite He. cbn [negb andb]. pose proof En as En'. unfold nx in En. rewrite Hmr in En. cbn in En. injection En as <-.
    destruct (js_same_value_zero (key mr) k) eqn:Es; [exists prev, i; split; [done|]; right; split; [by left|]; split; [by exists mr|by left]|]. destruct (IH i (hash_next mr) fuel Hc) as (r & p & E & R); [intros q Hq; apply Hlive; by right|cbn in Hf; lia|]. exists r, p. split; [done|]. destruct R as [[-> R]|(R1 & R2 & R3)]; [left; split; [done|]|right].
    + intros q mq Hq Hmq. apply elem_of_cons in Hq as [->|Hq]; [congruence|by eapply R].
    + split_and!; [by right|done|]. right. destruct R3 as [[-> ->]|[R3 R4]]; [split; [by left|done]|split; [by right|done]].
Qed.

(** ** Steps that change the chains only *)

Definition strip (mr : JSMapRecord) : JSMapRecord := with_hash_next mr 0.

Record relinked (s s' : JSMapState) : Prop := {
  l_records : records s' = records s;
  l_iters : iters s' = iters s;
  l_length : length (heap s') = length (heap s);
  l_get : forall p, strip <$> get_record s' p = strip <$> get_record s p }.

Lemma relinked_fwd s s' p m : relinked s s' -> get_record s p = Some m -> exists m', get_record s' p = Some m' /\ strip m' = strip m.
Proof. intros R Hp. pose proof (l_get _ _ R p) as E. rewrite Hp in E. destruct (get_record s' p) as [m'|]; [|done]. cbn in E. injection E as E. exists m'. split; [done|]. unfold strip, with_hash_next. congruence. Qed.

Lemma relinked_bwd s s' p m' : relinked s s' -> get_record s' p = Some m' -> exists m, get_record s p = Some m /\ strip m' = strip m.
Proof. intros R Hp. pose proof (l_get _ _ R p) as E. rewrite Hp in E. destruct (get_record s p) as [m|]; [|done]. cbn in E. injection E as E. exists m. split; [done|]. unfold strip, with_hash_next. congruence. Qed.

Lemma strip_fields m m' : strip m' = strip m -> ref_count m' = ref_count m /\ empty m' = empty m /\ key m' = key m /\ value m' = value m.
Proof. unfold strip, with_hash_next. intros [=]. done. Qed.

Lemma heap_none s p : heap s !! p = Some None -> get_record s p = None.
Proof. unfold get_record. by intros ->. Qed.

Lemma relinked_sum s s' (f : option JSMapRecord -> Z) : relinked s s' -> f None = 0 -> (forall m m', strip m' = strip m -> f (Some m') = f (Some m)) -> sumZ f (heap s') = sumZ f (heap s).
Proof.
  intros R H0 Hf. apply sumZ_pointwise; [apply (l_length _ _ R)|]. intros p x y Hx Hy. destruct y as [my|].
  - apply get_record_lookup in Hy. destruct (relinked_bwd s s' p my R Hy) as (m & Hm & E). apply get_record_lookup in Hm. rewrite Hx in Hm. injection Hm as ->. by apply Hf.
  - destruct x as [mx|]; [|done]. apply get_record_lookup in Hx. destruct (relinked_fwd s s' p mx R Hx) as (m & Hm & _). apply heap_none in Hy. congruence.
Qed.

Lemma relinked_held s s' i : relinked s s' -> held s' i = held s i.
Proof.
  intros R. unfold held. rewrite (l_iters _ _ R). f_equal. apply relinked_sum; [done|done|]. intros m m' E. apply strip_fields in E as (_ & _ & E1 & E2). cbn. by rewrite E1, E2.
Qed.

Lemma relinked_nlive s s' : relinked s s' -> nlive s' = nlive s.
Proof. intros R. apply relinked_sum; [done|done|]. intros m m' E. apply strip_fields in E as (_ & E & _). cbn. unfold own_count. by rewrite E. Qed.

Lemma relinked_get_iter s s' i : relinked s s' -> get_iter s' i = get_iter s i.
Proof. intros R. unfold get_iter. by rewrite (l_iters _ _ R). Qed.

Lemma relinked_is_some s s' p : relinked s s' -> is_Some (get_record s' p) <-> is_Some (get_record s p).
Proof. intros R. pose proof (l_get _ _ R p) as E. destruct (get_record s' p), (get_record s p); try done; by cbn in E. Qed.

Lemma relinked_mem ext lk s s' : relinked s s' -> wf_mem ext lk s -> wf_mem ext lk s'.
Proof.
  intros R Hw. assert (Hlk : forall p, locks s' p = locks s p) by (intros p; unfold locks; by rewrite (l_iters _ _ R)). destruct Hw as [W1 W2 W3 W4 W5 W6 W7 W8 W9 W10]. split; try done.
  - by rewrite (l_records _ _ R).
  - intros p. rewrite (l_records _ _ R), (relinked_is_some s s' p R). apply W2.
  - destruct W3 as [W3 W3']. split; [|rewrite (l_length _ _ R); done]. destruct (get_record s' 0) as [m|] eqn:E; [|done]. destruct (relinked_bwd s s' 0 m R E) as (? & ? & _). congruence.
  - intros p m' Hp. destruct (relinked_bwd s s' p m' R Hp) as (m & Hm & E). apply strip_fields in E as (E1 & E2 & _). rewrite Hlk, E1. unfold own_count. rewrite E2. by apply W4.
  - intros p m' Hp He. destruct (relinked_bwd s s' p m' R Hp) as (m & Hm & E). apply strip_fields in E as (_ & E2 & E3 & E4). rewrite E3, E4. apply (W5 p m Hm). congruence.
  - intros i it. rewrite (relinked_get_iter s s' i R), (l_records _ _ R). apply W6.
  - intros i it. rewrite (relinked_get_iter s s' i R), (relinked_held s s' i R). apply W7.
  - intros i. rewrite (relinked_get_iter s s' i R), (relinked_held s s' i R). apply W8.
Qed.

Lemma relinked_keys s s' tb : relinked s s' -> wf_tab tb s -> forall p q mp mq, get_record s' p = Some mp -> get_record s' q = Some mq -> empty mp = false -> empty mq = false -> js_same_value_zero (key mp) (key mq) = true -> p = q.
Proof.
  intros R Ht p q mp mq Hp Hq Ep Eq Es. destruct (relinked_bwd s s' p mp R Hp) as (m1 & H1 & E1). destruct (relinked_bwd s s' q mq R Hq) as (m2 & H2 & E2). apply strip_fields in E1 as (_ & A1 & A2 & _). apply strip_fields in E2 as (_ & B1 & B2 & _). apply (t_keys _ _ Ht p q m1 m2); congruence.
Qed.

Lemma relinked_norm s s' tb : relinked s s' -> wf_tab tb s -> forall p m, get_record s' p = Some m -> empty m = false -> map_normalize_key (key m) = key m.
Proof.
  intros R Ht p m' Hp Ep. destruct (relinked_bwd s s' p m' R Hp) as (m & H & E). apply strip_fields in E as (_ & A1 & A2 & _). rewrite A2. apply (t_norm _ _ Ht p m H). congruence.
Qed.

(** ** The new table *)

Definition heap_nx (h : list (option JSMapRecord)) (p : nat) : option nat := mr ← h !! p; hash_next <$> mr.
Definition heap_bk (bits : Z) (h : list (option JSMapRecord)) (p : nat) : option nat := mr ← h !! p; mr ← mr; if empty mr then None else Some (Z.to_nat (map_hash_key (key mr) bits)).

Lemma heap_bk_insert bits h p mr q : h !! p = Some (Some mr) -> forall x, heap_bk bits (<[p := Some (with_hash_next mr q)]> h) x = heap_bk bits h x.
Proof. intros Hp x. unfold heap_bk. destruct (decide (x = p)) as [->|Hne]; [by rewrite list_lookup_insert_eq, Hp by (by eapply lookup_lt_Some)|by rewrite list_lookup_insert_ne]. Qed.

Lemma map_rehash_spec bits l : 1 <= bits <= 31 -> forall h tbl D cs, NoDup l -> 0%nat ∉ l -> (forall p, p ∈ l -> exists mr, h !! p = Some (Some mr)) -> (forall p, p ∈ l -> p ∉ D) ->
  table (heap_nx h) (within D (heap_bk bits h)) tbl cs -> Z.of_nat (length tbl) = 2 ^ bits ->
  exists h' tbl' cs', rehash l bits h tbl = Some (h', tbl') /\ table (heap_nx h') (within (l ++ D) (heap_bk bits h')) tbl' cs' /\ length tbl' = length tbl /\ (fun o : option JSMapRecord => strip <$> o) <$> h' = (fun o : option JSMapRecord => strip <$> o) <$> h.
Proof.
  intros Hb. induction l as [|p l IH]; intros h tbl D cs Hnd H0 Hl HD Ht Hlen; [by exists h, tbl, cs|]. apply NoDup_cons in Hnd as [Hpl Hnd]. cbn [rehash]. destruct (Hl p ltac:(by left)) as (mr & Hp). rewrite Hp. cbn [mbind option_bind]. assert (H0p : p <> 0%nat) by (intros ->; apply H0; by left). assert (HpD : p ∉ D) by (apply HD; by left). destruct (empty mr) eqn:Ee.
  - destruct (IH h tbl (p :: D) cs) as (h' & tbl' & cs' & E & T & L & S); [done|set_solver|intros q Hq; apply Hl; by right|intros q Hq; set_solver| |done|].
    + eapply table_ext; [done| |exact Ht]. intros x. unfold within. destruct (decide (x = p)) as [->|Hx]; [rewrite decide_True by (by left); rewrite decide_False by done; unfold heap_bk; rewrite Hp; cbn; by rewrite Ee|destruct (decide (x ∈ D)); [rewrite decide_True by (by right); done|rewrite decide_False by set_solver; done]].
    + exists h', tbl', cs'. split_and!; [done| |done|done]. eapply table_ext; [done| |exact T]. intros x. apply within_ext. set_solver.
  - set (i := Z.to_nat (map_hash_key (key mr) bits)). pose proof (hash_range (key mr) bits Hb) as Hr. destruct (lookup_lt_is_Some_2 tbl i) as [q Hq]; [unfold i; lia|]. rewrite Hq. cbn [mbind option_bind]. set (h1 := <[p := Some (with_hash_next mr q)]> h). pose proof (lookup_lt_Some _ _ _ Hp) as Hlt. pose proof (heap_bk_insert bits h p mr q Hp) as Hbk.
    assert (Ht1 : exists cs1, table (heap_nx h1) (within (p :: D) (heap_bk bits h1)) (<[i := p]> tbl) cs1).
    { eapply (table_insert _ _ _ _ _ _ p i q Ht Hq); [done|unfold within; by rewrite decide_False| | | |].
      - unfold within. rewrite decide_True by (by left). unfold h1. rewrite Hbk. unfold heap_bk. rewrite Hp. cbn. by rewrite Ee.
      - intros x Hx. unfold within, h1. rewrite Hbk. destruct (decide (x ∈ D)); [by rewrite decide_True by (by right)|by rewrite decide_False by set_solver].
      - unfold heap_nx, h1. by rewrite list_lookup_insert_eq.
      - intros x Hx _. unfold heap_nx, h1. by rewrite list_lookup_insert_ne. }
    destruct Ht1 as [cs1 Ht1]. destruct (IH h1 (<[i := p]> tbl) (p :: D) cs1) as (h' & tbl' & cs' & E & T & L & S); [done|set_solver| |intros x Hx; set_solver|done|by rewrite length_insert|].
    + intros x Hx. unfold h1. rewrite list_lookup_insert_ne by set_solver. apply Hl. by right.
    + exists h', tbl', cs'. split_and!; [done| |by rewrite L, length_insert|]; [eapply table_ext; [done| |exact T]; intros x; apply within_ext; set_solver|]. rewrite S. unfold h1. rewrite list_fmap_insert. cbn. apply list_insert_id. rewrite list_lookup_fmap, Hp. done.
Qed.

Lemma bk_heap s p : bk s p = heap_bk (hash_bits s) (heap s) p.
Proof. unfold bk, heap_bk, bucket, get_record. destruct (heap s !! p) as [[m|]|]; done. Qed.

Lemma nx_heap s p : nx s p = heap_nx (heap s) p.
Proof. unfold nx, heap_nx, get_record. destruct (heap s !! p) as [[m|]|]; done. Qed.

Lemma record_nonzero ext lk s : wf_mem ext lk s -> 0%nat ∉ records s.
Proof. intros Hw Hz. apply (w_records _ _ _ Hw) in Hz as [m Hm]. destruct (w_null _ _ _ Hw). congruence. Qed.

Context (mem : nat -> bool).

Lemma resize_spec ext lk s : wf_mem ext lk s -> wf_tab (bk s) s ->
  exists s', map_hash_resize mem s = Some s' /\ relinked s s' /\ wf_tab (bk s') s' /\ record_count s' = record_count s /\ clock s' = (clock s + 1)%nat.
Proof.
  intros Hw Ht. unfold map_hash_resize. destruct (mem (clock s)).
  - destruct (t_size _ _ Ht) as [Hs Hb]. set (bits := (hash_bits s + 1) `min` 31). assert (Hbits : 1 <= bits <= 31) by lia. assert (Esz : u32 (Z.shiftl 1 bits) = 2 ^ bits) by (rewrite Z.shiftl_1_l; apply u32_small; split; [apply Z.pow_nonneg; lia|apply Z.pow_lt_mono_r; lia]). rewrite Esz.
    destruct (map_rehash_spec bits (records s) Hbits (heap s) (replicate (Z.to_nat (2 ^ bits)) 0%nat) [] (replicate (Z.to_nat (2 ^ bits)) [])) as (h' & tbl' & cs' & E & T & L & S).
    + apply (w_nodup _ _ _ Hw).
    + by eapply record_nonzero.
    + intros p Hp. apply (w_records _ _ _ Hw) in Hp as [m Hm]. exists m. by apply get_record_lookup.
    + intros p _ Hp. by apply elem_of_nil in Hp.
    + apply table_empty. intros i. unfold within. by rewrite decide_False by (by intros ?%elem_of_nil).
    + rewrite length_replicate. pose proof (Z.pow_nonneg 2 bits ltac:(lia)). rewrite Z2Nat.id by done. lia.
    + rewrite E. cbn [mbind option_bind]. set (s' := mkMap h' (records s) (record_count s) tbl' bits (u32 (2 ^ bits * 2)) (iters s) (clock s + 1)). exists s'. split; [done|]. rewrite app_nil_r in T.
      assert (R : relinked s s').
      { split; try done; [apply (f_equal length) in S; by rewrite !length_fmap in S|]. intros p. pose proof (f_equal (lookup p) S) as Sp. rewrite !list_lookup_fmap in Sp. unfold get_record. cbn [heap s']. destruct (h' !! p) as [[m1|]|], (heap s !! p) as [[m2|]|]; cbn in *; congruence. }
      split; [done|]. split; [|done]. split.
      * exists cs'. eapply table_ext; [| |exact T]; [intros p _; symmetry; rewrite nx_heap; done|]. intros p. rewrite bk_heap. cbn [hash_bits heap s']. unfold within. case_decide as Hp; [done|]. unfold heap_bk. destruct (h' !! p) as [[m|]|] eqn:Ep; [|done|done]. exfalso. apply Hp, (w_records _ _ _ Hw), (relinked_is_some s s' p R). exists m. by apply get_record_lookup.
      * cbn [hash_table hash_bits s']. rewrite L, length_replicate. pose proof (Z.pow_nonneg 2 bits ltac:(lia)). rewrite Z2Nat.id by done. split; [lia|lia].
      * by eapply relinked_keys.
      * by eapply relinked_norm.
      * rewrite (relinked_nlive s s' R). apply (t_count _ _ Ht).
  - exists (tick s). split_and!; try done. destruct Ht as [T1 T2 T3 T4 T5]. by split.
Qed.

(** ** A new record *)

Definition push (s : JSMapState) (k : JSVal) (q : nat) : JSMapState :=
  mkMap (heap s ++ [Some (mkRecord 1 false q k V_undefined)]) (records s ++ [length (heap s)]) (u32 (record_count s + 1)) (<[bucket s k := length (heap s)]> (hash_table s)) (hash_bits s) (record_count_threshold s) (iters s) (clock s).

Lemma get_record_push s k q p : get_record (push s k q) p = if decide (p = length (heap s)) then Some (mkRecord 1 false q k V_undefined) else get_record s p.
Proof.
  unfold get_record, push. cbn [heap]. case_decide as E; [subst; by rewrite lookup_app_r, Nat.sub_diag by lia|]. destruct (decide (p < length (heap s))%nat); [by rewrite lookup_app_l|]. rewrite !lookup_ge_None_2; [done|lia|rewrite length_app; cbn; lia].
Qed.

Lemma get_record_fresh s : get_record s (length (heap s)) = None.
Proof. unfold get_record. by rewrite lookup_ge_None_2. Qed.

Lemma push_mem ext lk s k q : wf_mem (own k ext) lk s -> (forall i, 0 <= ext i) -> lk (length (heap s)) = 0 -> wf_mem ext lk (push s k q).
Proof.
  intros Hw He Hlkp. pose proof (get_record_fresh s) as Hf. pose proof (w_null _ _ _ Hw) as [Hz Hlen]. assert (Hg := get_record_push s k q). assert (Hheld : forall i, held (push s k q) i = held s i + is_it i k) by (intros i; unfold held, push; cbn [heap iters]; rewrite sumZ_app; cbn [sumZ rec_holds key value]; unfold is_it at 2; rewrite decide_False by done; lia).
  assert (Hlocks : locks s (length (heap s)) = 0).
  { destruct (Z.eq_dec (locks s (length (heap s))) 0) as [|Hne]; [done|]. exfalso. pose proof (locks_nonneg s (length (heap s))). unfold locks in *. clear Hg Hheld. assert (Hex : exists i it, iters s !! i = Some (Some it) /\ it_cur it = length (heap s)).
    { revert Hne H. generalize (iters s). intros l. induction l as [|x l IH]; cbn; [lia|]. intros Hne Hp. destruct (Z.eq_dec (iter_at (length (heap s)) x) 0) as [E|E]; [destruct IH as (i & it & ? & ?); [lia|pose proof (iter_at_nonneg (length (heap s)) x); lia|]; by exists (S i), it|]. destruct x as [it|]; cbn in E; [|lia]. case_decide; [|lia]. by exists 0%nat, it. }
    destruct Hex as (i & it & Hi & Hc). apply get_iter_lookup in Hi. destruct (w_cur _ _ _ Hw i it Hi) as [C _]. rewrite Hc in C. specialize (C ltac:(lia)). apply (w_records _ _ _ Hw) in C as [m Hm]. congruence. }
  destruct Hw as [W1 W2 W3 W4 W5 W6 W7 W8 W9 W10]. split; try done.
  - cbn. apply NoDup_app. split_and!; [done| |apply NoDup_singleton]. intros p Hp Hp'. apply list_elem_of_singleton in Hp'. subst p. apply W2 in Hp as [m Hm]. congruence.
  - intros p. cbn. rewrite elem_of_app, list_elem_of_singleton, Hg, W2. case_decide; [naive_solver|]. naive_solver.
  - rewrite Hg. rewrite decide_False by lia. split; [done|]. cbn. rewrite length_app. lia.
  - intros p m. rewrite Hg. change (locks (push s k q) p) with (locks s p). case_decide as E; [subst p; intros [= <-]; cbn; lia|apply W4].
  - intros p m. rewrite Hg. case_decide; [intros [= <-]; done|apply W5].
  - intros i it Hi. change (get_iter s i = Some it) in Hi. destruct (W6 i it Hi) as [C1 C2]. split; [|done]. intros Hc. cbn. apply elem_of_app. left. by apply C1.
  - intros i it Hi. change (get_iter s i = Some it) in Hi. rewrite Hheld. destruct (W7 i it Hi) as [-> ?]. unfold own in *. lia.
  - intros i Hi. change (get_iter s i = None) in Hi. rewrite Hheld. destruct (W8 i Hi) as [E1 E2]. unfold own in E1. pose proof (is_it_nonneg i k). specialize (He i). lia.
Qed.

Lemma push_tab ext lk s k q : map_normalize_key k = k -> wf_mem ext lk s -> wf_tab (bk s) s -> no_key s k -> hash_table s !! bucket s k = Some q -> wf_tab (bk (push s k q)) (push s k q).
Proof.
  intros Hk Hw Ht Hn Hq. assert (Hg := get_record_push s k q). pose proof (get_record_fresh s) as Hf. pose proof (w_null _ _ _ Hw) as [_ Hlen]. split.
  - destruct (t_table _ _ Ht) as [cs Hcs]. cbn [hash_table push]. eapply (table_insert _ _ _ _ _ _ (length (heap s)) (bucket s k) q Hcs Hq); [lia|unfold bk; by rewrite Hf| | | |].
    + unfold bk. rewrite Hg, decide_True by done. done.
    + intros p Hp. unfold bk. rewrite Hg, decide_False by done. done.
    + unfold nx. rewrite Hg, decide_True by done. done.
    + intros p Hp _. unfold nx. rewrite Hg, decide_False by done. done.
  - cbn [hash_table hash_bits push]. rewrite length_insert. apply (t_size _ _ Ht).
  - intros p p' m m'. rewrite !Hg. case_decide as E1; case_decide as E2; [congruence| | |apply (t_keys _ _ Ht)].
    + intros [= <-] Hm' _ Em' Es. cbn [key] in Es. apply same_sym in Es. rewrite (Hn p' m' Hm' Em') in Es. done.
    + intros Hm [= <-] Em _ Es. cbn [key] in Es. rewrite (Hn p m Hm Em) in Es. done.
  - intros p m. rewrite Hg. case_decide; [intros [= <-] _; done|apply (t_norm _ _ Ht)].
  - cbn [record_count push]. unfold nlive. cbn [heap push]. rewrite sumZ_app. cbn [sumZ live_count]. unfold own_count. cbn [empty]. rewrite (t_count _ _ Ht). unfold u32, nlive. rewrite Zplus_mod_idemp_l. by f_equal.
Qed.
End table.
