(* ===== verification/JSMapOps.v ===== *)
(** * Maps: entries

    The entries of a map in the order of insertion, where those that have been
    deleted keep their place: the record at address [j + 1] is entry [j].
    Operations on records are operations on this list. *)
From S2P Require Import Prelude Chains JSMap JSMapProps JSMapTable.

Notation Entry := (option (JSVal * JSVal)) (only parsing).

Definition entry (mr : option JSMapRecord) : Entry := mr ← mr; if empty mr then None else Some (key mr, value mr).
Definition data_of (s : JSMapState) : list Entry := entry <$> tail (heap s).

Definition all_entries (P : JSVal -> Prop) (d : list Entry) : Prop := Forall (fun e : Entry => match e with Some (k, v) => P k /\ P v | None => True end) d.

(** The iterators that are left stand where they stood. *)
Definition same_iters (s s' : JSMapState) : Prop :=
  length (iters s') = length (iters s) /\
  forall i it', get_iter s' i = Some it' -> exists it, get_iter s i = Some it /\ it_cur it' = it_cur it /\ it_done it' = it_done it /\ kind it' = kind it /\ args it' = args it.

Lemma same_iters_refl s s' : iters s' = iters s -> same_iters s s'.
Proof. intros E. split; [by rewrite E|]. intros i it. unfold get_iter. rewrite E. intros Hi. by exists it. Qed.

Lemma same_iters_trans s1 s2 s3 : same_iters s1 s2 -> same_iters s2 s3 -> same_iters s1 s3.
Proof. intros [L1 H1] [L2 H2]. split; [congruence|]. intros i it3 K3. destruct (H2 i it3 K3) as (it2 & K2 & ?&?&?&?). destruct (H1 i it2 K2) as (it1 & K1 & ?&?&?&?). exists it1. split_and!; congruence. Qed.

Lemma quiet_same_iters s s' : quiet s s' -> same_iters s s'.
Proof. intros Q. split; [apply (q_lengths _ _ Q)|apply (q_iters _ _ Q)]. Qed.

Lemma same_iters_frames ext s s' : same_iters s s' -> frames_ok ext s -> frames_ok ext s'.
Proof. intros [_ S] Hf i it' Hi Ha. destruct (S i it' Hi) as (it & Hi' & _ & _ & _ & E). rewrite E in Ha. by apply (Hf i it). Qed.

Lemma frames_mono ext ext' s : (forall i, ext i <= ext' i) -> frames_ok ext s -> frames_ok ext' s.
Proof. intros Hle Hf i it Hi Ha. specialize (Hf i it Hi Ha). specialize (Hle i). lia. Qed.

Lemma own_mono v ext i : ext i <= own v ext i.
Proof. unfold own. pose proof (is_it_nonneg i v). lia. Qed.

(** ** The list of entries *)

Lemma data_lookup s j : data_of s !! j = entry <$> heap s !! S j.
Proof. unfold data_of. rewrite list_lookup_fmap. f_equal. by destruct (heap s). Qed.

Lemma data_length s : length (data_of s) = (length (heap s) - 1)%nat.
Proof. unfold data_of. rewrite length_fmap. destruct (heap s); cbn; lia. Qed.

Lemma data_record s j k v : data_of s !! j = Some (Some (k, v)) -> exists mr, get_record s (S j) = Some mr /\ empty mr = false /\ key mr = k /\ value mr = v.
Proof.
  rewrite data_lookup. unfold get_record. destruct (heap s !! S j) as [[mr|]|]; cbn; [|done|done]. destruct (empty mr) eqn:E; [done|]. intros [= <- <-]. by exists mr.
Qed.

Lemma record_data s p mr : get_record s (S p) = Some mr -> empty mr = false -> data_of s !! p = Some (Some (key mr, value mr)).
Proof. intros Hp He. apply get_record_lookup in Hp. rewrite data_lookup, Hp. cbn. by rewrite He. Qed.

Lemma quiet_data s s' : quiet s s' -> data_of s' = data_of s.
Proof.
  intros Q. apply (list_eq_same_length _ _ (length (data_of s))); [done|rewrite !data_length; by rewrite (proj1 (q_lengths _ _ Q))|].
  intros j x y _. rewrite !data_lookup. intros (o' & Hx & ->)%fmap_Some (o & Hy & ->)%fmap_Some. destruct o' as [m'|].
  - destruct (q_old _ _ Q (S j) m') as (m & Hm & E1 & _ & E2 & E3); [by apply get_record_lookup|]. apply get_record_lookup in Hm. rewrite Hy in Hm. injection Hm as ->. cbn. by rewrite E1, E2, E3.
  - destruct o as [m|]; [|done]. cbn. destruct (empty m) eqn:E; [done|]. destruct (q_live _ _ Q (S j) m) as (m' & Hm & _); [by apply get_record_lookup|done|]. apply get_record_lookup in Hm. congruence.
Qed.

Lemma relinked_data s s' : relinked s s' -> data_of s' = data_of s.
Proof.
  intros R. apply (list_eq_same_length _ _ (length (data_of s))); [done|rewrite !data_length; by rewrite (l_length _ _ R)|].
  intros j x y _. rewrite !data_lookup. intros (o' & Hx & ->)%fmap_Some (o & Hy & ->)%fmap_Some. pose proof (l_get _ _ R (S j)) as E. unfold get_record in E. rewrite Hx, Hy in E. cbn in E. destruct o' as [m'|], o as [m|]; try done. cbn in E. injection E as E1 E2 E3 E4. cbn. by rewrite E2, E3, E4.
Qed.

Lemma put_record_data s j mr : (S j < length (heap s))%nat -> data_of (put_record (S j) mr s) = <[j := entry (Some mr)]> (data_of s).
Proof. intros Hj. unfold data_of. cbn [put_record heap set_heap]. destruct (heap s) as [|h l]; [cbn in Hj; lia|]. change (<[S j := Some mr]> (h :: l)) with (h :: <[j := Some mr]> l). cbn [tail]. by rewrite list_fmap_insert. Qed.

(** ** Changing a record during which values are freed

    The code frees a value while the record still refers to it.  It does not
    matter, whatever the finalizer does: the record could have been changed
    before. *)

Definition touch (f : JSMapRecord -> JSMapRecord) (p : nat) (s : JSMapState) : JSMapState := set_heap (alter (fmap f) p (heap s)) s.

Lemma get_record_touch f p s q : get_record (touch f p s) q = if decide (q = p) then f <$> get_record s q else get_record s q.
Proof. unfold get_record, touch. cbn [heap set_heap]. case_decide as E; [subst; rewrite list_lookup_alter_eq; by destruct (heap s !! p) as [[]|]|by rewrite list_lookup_alter_ne]. Qed.

Lemma insert_alter {A} (g : A -> A) (l : list A) p x : <[p := x]> (alter g p l) = <[p := x]> l.
Proof.
  apply list_eq. intros q. destruct (decide (q = p)) as [->|]; [|by rewrite !list_lookup_insert_ne, list_lookup_alter_ne]. destruct (decide (p < length l)%nat); [by rewrite !list_lookup_insert_eq by (rewrite ?length_alter; done)|by rewrite !lookup_ge_None_2 by (rewrite ?length_insert, ?length_alter; lia)].
Qed.

Lemma touch_put_record f p s mr : get_record s p = Some mr -> touch f p s = put_record p (f mr) s.
Proof. intros Hp. unfold touch, put_record. f_equal. apply get_record_lookup in Hp. apply list_eq; intros q; destruct (decide (q = p)) as [->|]; [by rewrite list_lookup_alter_eq, list_lookup_insert_eq, Hp by (by eapply lookup_lt_Some)|by rewrite list_lookup_alter_ne, list_lookup_insert_ne]. Qed.

Section touch.
Context (f : JSMapRecord -> JSMapRecord) (p : nat).
Hypothesis f_count : forall m, ref_count (f m) = ref_count m.
Hypothesis f_set : forall m n, f (with_ref_count m n) = with_ref_count (f m) n.

Lemma decref_touch s q : (q = p -> forall m, get_record s p = Some m -> ref_count m <> 1) -> map_decref_record (touch f p s) q = touch f p <$> map_decref_record s q.
Proof.
  intros Hr. unfold map_decref_record. rewrite get_record_touch. case_decide as E.
  - subst q. destruct (get_record s p) as [m|] eqn:Hp; [|done]. cbn [fmap option_fmap option_map mbind option_bind]. rewrite f_count. specialize (Hr eq_refl m eq_refl). rewrite (proj2 (Z.eqb_neq _ _)) by lia. cbn. f_equal. unfold put_record, touch. cbn [heap set_heap]. unfold set_heap. cbn. f_equal. apply list_eq. intros q. destruct (decide (q = p)) as [->|].
    + apply get_record_lookup in Hp. rewrite list_lookup_insert_eq by (rewrite length_alter; by eapply lookup_lt_Some). rewrite list_lookup_alter_eq, list_lookup_insert_eq by (by eapply lookup_lt_Some). cbn. by rewrite f_set.
    + by rewrite list_lookup_insert_ne, !list_lookup_alter_ne, list_lookup_insert_ne by done.
  - destruct (get_record s q) as [m|] eqn:Hp; [|done]. cbn [mbind option_bind]. assert (Hal : forall x, alter (fmap f) p (<[q := x]> (heap s)) = <[q := x]> (alter (fmap f) p (heap s))).
    { intros x. apply list_eq. intros r. destruct (decide (r = q)) as [->|Hq].
      - pose proof (get_record_lt _ _ _ Hp). rewrite list_lookup_alter_ne by done. by rewrite !list_lookup_insert_eq by (rewrite ?length_alter; done).
      - destruct (decide (r = p)) as [->|]; [by rewrite list_lookup_alter_eq, !list_lookup_insert_ne, list_lookup_alter_eq by done|by rewrite list_lookup_alter_ne, !list_lookup_insert_ne, list_lookup_alter_ne by done]. }
    destruct (_ =? 0); [destruct (empty m); [|done]|]; cbn; f_equal; [unfold free_record, touch, set_heap, set_records; cbn; by rewrite Hal|unfold put_record, touch, set_heap; cbn; by rewrite Hal].
Qed.

Lemma free_touch s v : (forall i it m, get_iter s i = Some it -> it_cur it = p -> get_record s p = Some m -> ref_count m <> 1) -> JS_FreeValue (touch f p s) v = touch f p <$> JS_FreeValue s v.
Proof.
  intros Hr. destruct v as [|n|i]; [done|done|]. cbn [JS_FreeValue]. change (get_iter (touch f p s) i) with (get_iter s i). destruct (get_iter s i) as [it|] eqn:Hi; [|done]. cbn [mbind option_bind]. destruct (_ =? 0); [|done]. unfold js_map_iterator_finalizer. change (get_iter (touch f p s) i) with (get_iter s i). rewrite Hi. cbn [mbind option_bind]. destruct (it_cur it =? 0)%nat; [done|]. change (set_iters (<[i := None]> (iters (touch f p s))) (touch f p s)) with (touch f p (set_iters (<[i := None]> (iters s)) s)). apply decref_touch. intros E m Hm. by apply (Hr i it m).
Qed.

Lemma dup_touch s v : JS_DupValue (touch f p s) v = touch f p <$> JS_DupValue s v.
Proof. destruct v as [|n|i]; [done|done|]. cbn [JS_DupValue]. change (get_iter (touch f p s) i) with (get_iter s i). destruct (get_iter s i); done. Qed.
End touch.

(** ** The invariant *)

Section ops.
Context {MK : MapKey} {ML : MapKeyLaws}.

Record Inv (ext lk : nat -> Z) (s : JSMapState) (d : list Entry) : Prop := {
  i_mem : wf_mem ext lk s;
  i_tab : wf_tab (bk s) s;
  i_sorted : StronglySorted lt (records s);
  i_data : data_of s = d }.

Lemma sorted_filter (P : nat -> Prop) `{forall x, Decision (P x)} l : StronglySorted lt l -> StronglySorted lt (filter P l).
Proof.
  induction 1 as [|x l Hs IH Hl]; [constructor|]. destruct (decide (P x)); [rewrite filter_cons_True by done; constructor; [done|]|by rewrite filter_cons_False].
  apply Forall_forall. intros y [_ Hy]%list_elem_of_filter. by apply (proj1 (Forall_forall _ _) Hl).
Qed.

Lemma wf_tab_ext tb tb' s : (forall p, tb' p = tb p) -> wf_tab tb s -> wf_tab tb' s.
Proof. intros E [[cs T1] T2 T3 T4 T5]. split; [|done|done|done|done]. exists cs. by eapply table_ext. Qed.

Lemma inv_quiet ext lk ext' lk' s s' d : quiet s s' -> wf_mem ext' lk' s' -> Inv ext lk s d -> Inv ext' lk' s' d.
Proof.
  intros Q Hw [I1 I2 I3 I4]. split; [done| | |by rewrite (quiet_data s s' Q)].
  - eapply wf_tab_ext; [intros p; apply (quiet_bk s s' p Q)|]. by eapply quiet_tab.
  - rewrite (q_records _ _ Q). by apply sorted_filter.
Qed.

Lemma inv_length ext lk s d : Inv ext lk s d -> length (heap s) = S (length d).
Proof. intros [I1 _ _ <-]. rewrite data_length. destruct (w_null _ _ _ I1). lia. Qed.

Lemma dup_inv ext lk s d v : Inv ext lk s d -> alive s v -> exists s', JS_DupValue s v = Some s' /\ Inv (own v ext) lk s' d /\ same_iters s s'.
Proof. intros HI Ha. destruct (dup_spec _ _ _ _ (i_mem _ _ _ _ HI) Ha) as (s' & E & W & Q & _). exists s'. split_and!; [done|by eapply inv_quiet|by apply quiet_same_iters]. Qed.

Lemma map_free_inv ext lk s d v : Inv (own v ext) lk s d -> (forall i, 0 <= ext i) -> frames_ok ext s -> exists s', JS_FreeValue s v = Some s' /\ Inv ext lk s' d /\ same_iters s s'.
Proof. intros HI He Hf. destruct (map_free_spec _ _ _ _ (i_mem _ _ _ _ HI) He Hf) as (s' & E & W & Q & _). exists s'. split_and!; [done|by eapply inv_quiet|by apply quiet_same_iters]. Qed.

Lemma map_decref_inv ext lk lk' s d p : Inv ext lk s d -> p ∈ records s -> lk p = lk' p + 1 -> 0 <= lk' p -> (forall q, q <> p -> lk' q = lk q) -> exists s', map_decref_record s p = Some s' /\ Inv ext lk' s' d /\ iters s' = iters s /\ quiet s s'.
Proof. intros HI Hp H1 H2 H3. destruct (decref_spec _ _ lk' _ _ (i_mem _ _ _ _ HI) Hp H1 H2 H3) as (s' & E & W & Q & Ei & _). exists s'. split_and!; [done|by eapply inv_quiet|done|done]. Qed.

(** What is held is there. *)
Lemma alive_ext ext lk s v : wf_mem ext lk s -> (forall i, v = V_iterator i -> 0 < ext i) -> alive s v.
Proof. intros Hw Hv. destruct v as [|n|i]; [done|done|]. cbn. destruct (get_iter s i) eqn:E; [done|]. destruct (w_dead _ _ _ Hw i E). specialize (Hv i eq_refl). lia. Qed.

Lemma alive_record ext lk s p mr : wf_mem ext lk s -> get_record s p = Some mr -> alive s (key mr) /\ alive s (value mr).
Proof.
  intros Hw Hp. assert (Ha : forall v, v = key mr \/ v = value mr -> alive s v).
  { intros [|n|i] Hv; [done|done|]. cbn. destruct (get_iter s i) eqn:E; [done|]. destruct (w_dead _ _ _ Hw i E) as [_ Hh]. pose proof (held_record s p mr i Hp) as Hr. pose proof (is_it_nonneg i (key mr)). pose proof (is_it_nonneg i (value mr)). assert (Hi : is_it i (V_iterator i) = 1) by (unfold is_it; by rewrite decide_True). destruct Hv as [Hv|Hv]; rewrite <- Hv in *; lia. }
  split; apply Ha; auto.
Qed.

Lemma alive_args ext lk s j it v : wf_mem ext lk s -> get_iter s j = Some it -> v ∈ args it -> alive s v.
Proof.
  intros Hw Hj Hv. destruct v as [|n|i]; [done|done|]. cbn. destruct (get_iter s i) eqn:E; [done|]. destruct (w_dead _ _ _ Hw i E) as [_ Hh]. pose proof (held_args s j it i Hj). apply countZ_pos in Hv. lia.
Qed.

(** ** Adding an entry *)

Context (mem : nat -> bool).

Lemma inv_relinked ext lk s s' d : relinked s s' -> wf_tab (bk s') s' -> Inv ext lk s d -> Inv ext lk s' d.
Proof. intros R Ht [I1 I2 I3 I4]. split; [by eapply relinked_mem|done|by rewrite (l_records _ _ R)|by rewrite (relinked_data s s' R)]. Qed.

Lemma inv_tick ext lk s d : Inv ext lk s d -> Inv ext lk (tick s) d.
Proof. intros [[W1 W2 W3 W4 W5 W6 W7 W8 W9 W10] [T1 T2 T3 T4 T5] I3 I4]. by split; [split|split| |]. Qed.

Lemma push_inv ext lk s d k q : map_normalize_key k = k -> Inv (own k ext) lk s d -> (forall i, 0 <= ext i) -> lk (length (heap s)) = 0 -> no_key s k -> hash_table s !! bucket s k = Some q -> Inv ext lk (push s k q) (d ++ [Some (k, V_undefined)]).
Proof.
  intros Hk HI He Hlk Hn Hq. destruct HI as [I1 I2 I3 I4]. split; [by apply push_mem|by eapply push_tab| |].
  - cbn [push records]. apply StronglySorted_app. split_and!; [|done|repeat constructor]. intros x y Hx Hy. apply list_elem_of_singleton in Hy as ->. apply (w_records _ _ _ I1) in Hx as [m Hm]. by eapply get_record_lt.
  - unfold data_of. cbn [push heap]. destruct (w_null _ _ _ I1) as [_ Hl]. destruct (heap s) as [|h l] eqn:Eh; [cbn in Hl; lia|]. cbn [app tail]. rewrite fmap_app. f_equal. rewrite <- I4. unfold data_of. by rewrite Eh.
Qed.

Lemma add_record_inv ext lk s d k : map_normalize_key k = k -> Inv ext lk s d -> alive s k -> no_key s k -> lk (length (heap s)) = 0 ->
  map_add_record mem s k = Some (tick s, 0%nat) /\ mem (clock s) = false \/
  exists s', map_add_record mem s k = Some (s', S (length d)) /\ Inv ext lk s' (d ++ [Some (k, V_undefined)]) /\ same_iters s s'.
Proof.
  intros Hk HI Ha Hn Hlk. unfold map_add_record. destruct (mem (clock s)) eqn:Em; [right|by left]. pose proof (w_ext _ _ _ (i_mem _ _ _ _ HI)) as He. pose proof (inv_length _ _ _ _ HI) as Hlen. apply inv_tick in HI. destruct (dup_spec _ _ (tick s) k (i_mem _ _ _ _ HI) Ha) as (s1 & E1 & W1 & Q1 & Eh). rewrite E1. cbn [mbind option_bind]. pose proof (inv_quiet _ _ _ _ _ _ _ Q1 W1 HI) as I1. cbn [tick heap] in Eh.
  destruct (lookup_lt_is_Some_2 (hash_table s1) (bucket s1 k)) as [q Hq]; [eapply map_bucket_lt, (i_tab _ _ _ _ I1)|]. fold (bucket s1 k). rewrite Hq. cbn [mbind option_bind]. assert (Hn1 : no_key s1 k) by (intros p m Hp; unfold get_record in Hp; rewrite Eh in Hp; by apply (Hn p m)).
  assert (I2 : Inv ext lk (push s1 k q) (d ++ [Some (k, V_undefined)])) by (apply push_inv; [done|done|done|by rewrite Eh|done|done]). change (length (heap (tick s))) with (length (heap s)). rewrite Hlen. assert (Hp : length (heap s1) = S (length d)) by (by rewrite Eh). set (s2 := set_count _ _). assert (E2 : s2 = push s1 k q) by (unfold s2, push, set_heap, set_table, set_records, set_count; cbn; by rewrite Hp). rewrite E2. clear s2 E2.
  assert (S1 : same_iters s (push s1 k q)) by (eapply (same_iters_trans s (tick s)); [by apply same_iters_refl|]; eapply same_iters_trans; [by apply quiet_same_iters|by apply same_iters_refl]). destruct (record_count_threshold (push s1 k q) <=? record_count (push s1 k q)); [|cbn; by exists (push s1 k q)].
  destruct (resize_spec mem ext lk (push s1 k q)) as (s3 & E3 & R3 & T3 & _); [apply (i_mem _ _ _ _ I2)|apply (i_tab _ _ _ _ I2)|]. rewrite E3. cbn [mbind option_bind]. exists s3. split_and!; [done|by eapply inv_relinked|]. eapply same_iters_trans; [exact S1|]. apply same_iters_refl, (l_iters _ _ R3).
Qed.

(** ** Changing the value of an entry *)

Lemma put_record_tab s p mr mr' : get_record s p = Some mr -> empty mr' = empty mr -> hash_next mr' = hash_next mr -> key mr' = key mr -> wf_tab (bk s) s -> wf_tab (bk (put_record p mr' s)) (put_record p mr' s).
Proof.
  intros Hp E1 E2 E3 Ht. pose proof (get_record_lt _ _ _ Hp) as Hlt. assert (Hg : forall q, get_record (put_record p mr' s) q = if decide (q = p) then Some mr' else get_record s q) by (intros q; by apply get_record_heap).
  assert (Hold : forall q m', get_record (put_record p mr' s) q = Some m' -> exists m, get_record s q = Some m /\ empty m' = empty m /\ key m' = key m) by (intros q m'; rewrite Hg; case_decide; [subst q; intros [= <-]; by exists mr|intros; by exists m']). split; [|apply (t_size _ _ Ht)| | |].
  - destruct (t_table _ _ Ht) as [cs Hcs]. exists cs. eapply table_ext; [| |exact Hcs]; [intros q _; unfold nx|intros q; unfold bk, bucket]; rewrite Hg; case_decide; [subst q; rewrite Hp; cbn; by rewrite E2|done|subst q; rewrite Hp; cbn; by rewrite E1, E3|done].
  - intros a b ma mb Ha Hb Ea Eb Es. apply Hold in Ha as (ma' & Ha & Ea1 & Ea2). apply Hold in Hb as (mb' & Hb & Eb1 & Eb2). apply (t_keys _ _ Ht a b ma' mb'); congruence.
  - intros a ma Ha Ea. apply Hold in Ha as (ma' & Ha & Ea1 & Ea2). rewrite Ea2. apply (t_norm _ _ Ht a ma' Ha). congruence.
  - cbn [record_count put_record set_heap]. rewrite (t_count _ _ Ht). f_equal. unfold nlive. cbn [heap put_record set_heap]. rewrite (sumZ_insert _ _ _ (Some mr)) by (by apply get_record_lookup). cbn [live_count]. unfold own_count. rewrite E1. lia.
Qed.

Lemma put_value_inv ext ext' lk s d j k w mr v : Inv ext lk s d -> d !! j = Some (Some (k, w)) -> get_record s (S j) = Some mr -> (forall i, 0 <= ext' i) -> (forall i, ext' i + is_it i v = ext i + is_it i w) ->
  Inv ext' lk (put_record (S j) (with_value mr v) s) (<[j := Some (k, v)]> d).
Proof.
  intros HI Hj Hp He Hv. destruct HI as [I1 I2 I3 <-]. destruct (data_record _ _ _ _ Hj) as (m & Hm & Em & Ek & Ew). rewrite Hp in Hm. injection Hm as <-. destruct (w_ref _ _ _ I1 _ _ Hp) as [Hr Hr0]. split; [|by eapply put_record_tab|done|].
  - eapply wf_put_record; [done|done|done|done|done|apply (w_lk _ _ _ I1)|cbn; congruence|done|]. intros i. cbn [with_value key value]. specialize (Hv i). rewrite Ew. lia.
  - rewrite put_record_data by (by eapply get_record_lt). f_equal. cbn. by rewrite Em, Ek.
Qed.

Lemma store_value_inv ext lk s d j k v : Inv ext lk s d -> d !! j = Some (Some (k, V_undefined)) -> alive s v -> exists s', store_value s (S j) v = Some s' /\ Inv ext lk s' (<[j := Some (k, v)]> d) /\ same_iters s s'.
Proof.
  intros HI Hj Ha. pose proof (w_ext _ _ _ (i_mem _ _ _ _ HI)) as He. destruct (dup_inv _ _ _ _ v HI Ha) as (s1 & E1 & I1 & S1). unfold store_value. rewrite E1. cbn [mbind option_bind]. destruct (data_record s1 j k V_undefined) as (mr & Hm & _); [by rewrite (i_data _ _ _ _ I1)|]. rewrite Hm. cbn [mbind option_bind]. eexists. split; [reflexivity|]. split; [|eapply same_iters_trans; [exact S1|by apply same_iters_refl]].
  eapply put_value_inv; [done|done|done|done|]. intros i. unfold own, is_it. rewrite (decide_False (P := V_undefined = _)) by done. lia.
Qed.

(** A value the script or a running callback may use. *)
Definition usable (ext : nat -> Z) (s : JSMapState) (v : JSVal) : Prop :=
  match v with V_iterator i => 0 < ext i \/ exists j it, 0 < ext j /\ get_iter s j = Some it /\ v ∈ args it | _ => True end.

Lemma usable_alive ext lk s v : wf_mem ext lk s -> usable ext s v -> alive s v.
Proof.
  intros Hw Hu. destruct v as [|n|i]; [done|done|]. destruct Hu as [Hu|(j & it & _ & Hj & Hv)]; [|by eapply alive_args]. eapply alive_ext; [done|]. by intros ? [= <-].
Qed.

Lemma usable_mono ext ext' lk s s' v : (forall i, ext i <= ext' i) -> same_iters s s' -> wf_mem ext' lk s' -> usable ext s v -> usable ext' s' v.
Proof.
  intros Hle [_ S] Hw Hu. destruct v as [|n|i]; [done|done|]. destruct Hu as [Hu|(j & it & He & Hj & Hv)]; [left; specialize (Hle i); lia|right]. specialize (Hle j). destruct (get_iter s' j) as [it'|] eqn:Hj'; [|destruct (w_dead _ _ _ Hw j Hj'); lia]. destruct (S j it' Hj') as (it0 & H0 & _ & _ & _ & E). rewrite Hj in H0. injection H0 as <-. exists j, it'. rewrite E. split_and!; [lia|done|done].
Qed.

Lemma usable_step ext lk s s' v : same_iters s s' -> wf_mem ext lk s' -> usable ext s v -> usable ext s' v.
Proof. intros S Hw. eapply usable_mono; [|done|done]. done. Qed.

Definition forget_value (mr : JSMapRecord) : JSMapRecord := with_value mr V_undefined.

Lemma standing_count ext lk s p mr : wf_mem ext lk s -> get_record s p = Some mr -> 1 <= own_count mr + lk p -> forall i it, get_iter s i = Some it -> it_cur it = p -> ref_count mr <> 1.
Proof. intros Hw Hp Ho i it Hi <-. destruct (w_ref _ _ _ Hw _ _ Hp) as [Hr _]. pose proof (locks_pos s i it Hi). pose proof (w_lk _ _ _ Hw (it_cur it)). lia. Qed.

Lemma store_touch s p v : store_value (touch forget_value p s) p v = store_value s p v.
Proof.
  unfold store_value. rewrite dup_touch by done. destruct (JS_DupValue s v) as [s1|]; [|done]. cbn [fmap option_fmap option_map mbind option_bind]. rewrite get_record_touch, decide_True by done. destruct (get_record s1 p) as [m|]; [|done]. cbn. f_equal. unfold put_record, touch, set_heap. cbn. by rewrite insert_alter.
Qed.

Lemma replace_value_inv ext lk s d j k w v : Inv ext lk s d -> frames_ok ext s -> d !! j = Some (Some (k, w)) -> usable ext s v ->
  exists s1 s', JS_FreeValue s w = Some s1 /\ store_value s1 (S j) v = Some s' /\ Inv ext lk s' (<[j := Some (k, v)]> d) /\ same_iters s s'.
Proof.
  intros HI Hf Hj Hu. pose proof (w_ext _ _ _ (i_mem _ _ _ _ HI)) as He. destruct (data_record s j k w) as (mr & Hm & Em & Ek & Ew); [by rewrite (i_data _ _ _ _ HI)|].
  assert (I0 : Inv (own w ext) lk (touch forget_value (S j) s) (<[j := Some (k, V_undefined)]> d)).
  { rewrite (touch_put_record _ _ _ _ Hm). eapply put_value_inv; [done|done|done|intros i; pose proof (own_mono w ext i); specialize (He i); lia|]. intros i. unfold own, is_it at 2. rewrite decide_False by done. lia. }
  destruct (map_free_inv _ _ _ _ _ I0 He) as (s1g & E1 & I1 & S1); [eapply same_iters_frames; [|exact Hf]; by apply same_iters_refl|]. rewrite free_touch in E1; [|done|done|].
  - destruct (JS_FreeValue s w) as [s1|] eqn:Es; [|done]. cbn in E1. injection E1 as <-. assert (S0 : same_iters s (touch forget_value (S j) s1)) by (eapply same_iters_trans; [by apply same_iters_refl|exact S1]). pose proof (lookup_lt_Some _ _ _ Hj) as Hlt.
    destruct (store_value_inv _ _ _ _ j k v I1) as (s' & E' & I' & S'); [by rewrite list_lookup_insert_eq|eapply usable_alive; [apply (i_mem _ _ _ _ I1)|]; by eapply usable_step; [|apply (i_mem _ _ _ _ I1)|]|]. rewrite store_touch in E'. rewrite list_insert_insert_eq in I'. exists s1, s'. split_and!; [done|done|done|by eapply same_iters_trans].
  - intros i it m Hi Hc Hm'. rewrite Hm in Hm'. injection Hm' as <-. eapply standing_count; [apply (i_mem _ _ _ _ HI)|done| |done|done]. unfold own_count. rewrite Em. pose proof (w_lk _ _ _ (i_mem _ _ _ _ HI) (S j)). lia.
Qed.

(** ** Deleting an entry *)

Definition zombie (mr : JSMapRecord) : JSMapRecord := mkRecord (ref_count mr) true (hash_next mr) V_undefined V_undefined.
Definition bump (p : nat) (lk : nat -> Z) (q : nat) : Z := if decide (q = p) then lk q + 1 else lk q.
(** The entry is gone, the map's reference to its record is not. *)
Definition buried (p : nat) (s : JSMapState) : JSMapState := set_count (u32 (record_count s - 1)) (touch zombie p s).

Lemma decref_set_count n s p : map_decref_record (set_count n s) p = set_count n <$> map_decref_record s p.
Proof. unfold map_decref_record. change (get_record (set_count n s) p) with (get_record s p). destruct (get_record s p) as [m|]; [|done]. cbn [mbind option_bind]. destruct (_ =? 0); [by destruct (empty m)|done]. Qed.

Lemma free_set_count n s v : JS_FreeValue (set_count n s) v = set_count n <$> JS_FreeValue s v.
Proof.
  destruct v as [|m|i]; [done|done|]. cbn [JS_FreeValue]. change (get_iter (set_count n s) i) with (get_iter s i). destruct (get_iter s i) as [it|] eqn:Hi; [|done]. cbn [mbind option_bind]. destruct (_ =? 0); [|done]. unfold js_map_iterator_finalizer. change (get_iter (set_count n s) i) with (get_iter s i). rewrite Hi. cbn [mbind option_bind]. destruct (it_cur it =? 0)%nat; [done|]. apply (decref_set_count n (set_iters (<[i := None]> (iters s)) s)).
Qed.

Lemma free_record_count s v s' : JS_FreeValue s v = Some s' -> record_count s' = record_count s.
Proof.
  destruct v as [|m|i]; [by intros [= <-]|by intros [= <-]|]. cbn [JS_FreeValue]. destruct (get_iter s i) as [it|] eqn:Hi; [|done]. cbn [mbind option_bind]. destruct (_ =? 0); [|by intros [= <-]]. unfold js_map_iterator_finalizer. rewrite Hi. cbn [mbind option_bind]. destruct (it_cur it =? 0)%nat; [by intros [= <-]|]. unfold map_decref_record. destruct (get_record _ _) as [m|]; [|done]. cbn [mbind option_bind]. destruct (_ =? 0); [destruct (empty m); [|done]|]; by intros [= <-].
Qed.

Lemma wf_set_count ext lk n s : wf_mem ext lk s -> wf_mem ext lk (set_count n s).
Proof. intros [W1 W2 W3 W4 W5 W6 W7 W8 W9 W10]. by split. Qed.

Lemma buried_mem ext lk s p mr : wf_mem ext lk s -> get_record s p = Some mr -> empty mr = false -> wf_mem (own (key mr) (own (value mr) ext)) (bump p lk) (buried p s).
Proof.
  intros Hw Hp He. apply wf_set_count. rewrite (touch_put_record _ _ _ _ Hp). destruct (w_ref _ _ _ Hw p mr Hp) as [Hr Hr0]. unfold own_count in Hr. rewrite He in Hr. eapply wf_put_record; [done|done| |done| | |done| |].
  - cbn. unfold own_count, bump. cbn. rewrite decide_True by done. lia.
  - intros q Hq. unfold bump. by rewrite decide_False.
  - unfold bump. rewrite decide_True by done. pose proof (w_lk _ _ _ Hw p). lia.
  - intros i. pose proof (own_mono (value mr) ext i). pose proof (own_mono (key mr) (own (value mr) ext) i). pose proof (w_ext _ _ _ Hw i). lia.
  - intros i. cbn. unfold own. assert (Hu : is_it i V_undefined = 0) by (unfold is_it; by rewrite decide_False). lia.
Qed.

Lemma bury_decref n p s mr : get_record s p = Some mr -> map_decref_record (set_count n (touch zombie p s)) p =
  Some (set_count n (if ref_count mr - 1 =? 0 then free_record p s else put_record p (mkRecord (ref_count mr - 1) true (hash_next mr) V_undefined V_undefined) s)).
Proof.
  intros Hp. rewrite decref_set_count. unfold map_decref_record. rewrite get_record_touch, decide_True, Hp by done. cbn [fmap option_fmap option_map mbind option_bind zombie ref_count empty].
  destruct (_ =? 0); cbn; f_equal; [unfold free_record, touch, set_heap, set_records, set_count; cbn; by rewrite insert_alter|unfold put_record, touch, set_heap, set_count; cbn; by rewrite insert_alter].
Qed.

Lemma free_buried ext lk n p s v s1 : wf_mem ext lk (set_count n (touch zombie p s)) -> 1 <= lk p -> JS_FreeValue (set_count n (touch zombie p s)) v = Some s1 ->
  exists s', JS_FreeValue s v = Some s' /\ s1 = set_count n (touch zombie p s').
Proof.
  intros Hw Hlk E. rewrite free_set_count, free_touch in E; [|done|done|].
  - destruct (JS_FreeValue s v) as [s'|]; [|done]. exists s'. split; [done|]. by injection E as <-.
  - intros i it m Hi Hc Hm. change (ref_count (zombie m) <> 1). eapply (standing_count _ _ _ p); [exact Hw| |cbn; lia|exact Hi|exact Hc]. change (get_record (touch zombie p s) p = Some (zombie m)). rewrite get_record_touch, decide_True by done. by rewrite Hm.
Qed.

Lemma delete_internal_spec ext lk s p mr : wf_mem ext lk s -> get_record s p = Some mr -> empty mr = false -> frames_ok ext s -> exists s', map_delete_record_internal s p = Some s' /\ wf_mem ext lk s' /\ quiet (buried p s) s'.
Proof.
  intros Hw Hp He Hf. pose proof (w_ext _ _ _ Hw) as Hext. pose proof (buried_mem _ _ _ _ _ Hw Hp He) as W0. assert (Hb : 1 <= bump p lk p) by (unfold bump; rewrite decide_True by done; pose proof (w_lk _ _ _ Hw p); lia).
  assert (Hev : forall i, 0 <= own (value mr) ext i) by (intros i; pose proof (own_mono (value mr) ext i); specialize (Hext i); lia). assert (F0 : frames_ok (own (value mr) ext) (buried p s)) by (eapply frames_mono; [apply own_mono|exact Hf]).
  destruct (map_free_spec _ _ _ _ W0 Hev F0) as (g1 & E1 & W1 & Q1 & K1). assert (F1 : frames_ok ext g1) by (eapply quiet_frames; [exact Q1|exact Hf]). destruct (map_free_spec _ _ _ _ W1 Hext F1) as (g2 & E2 & W2 & Q2 & K2).
  assert (Hin : p ∈ records g2) by (apply (w_records _ _ _ W2), K2, K1; [lia|lia|]; change (is_Some (get_record (touch zombie p s) p)); rewrite get_record_touch, decide_True, Hp by done; done).
  destruct (decref_spec _ _ lk _ _ W2 Hin) as (s' & E' & W' & Q' & _); [unfold bump; by rewrite decide_True|apply (w_lk _ _ _ Hw)|intros q Hq; unfold bump; by rewrite decide_False|].
  destruct (free_buried _ _ _ _ _ _ _ W0 Hb E1) as (s1 & R1 & ->). destruct (free_buried _ _ _ _ _ _ _ W1 Hb E2) as (s2 & R2 & ->). exists s'. split_and!; [|done|eapply map_quiet_trans; [|exact Q']; by eapply map_quiet_trans].
  unfold map_delete_record_internal. rewrite Hp. cbn [mbind option_bind]. rewrite He, R1. cbn [mbind option_bind]. rewrite R2. cbn [mbind option_bind]. apply (w_records _ _ _ W2) in Hin as [m Hm]. change (get_record (touch zombie p s2) p = Some m) in Hm. rewrite get_record_touch, decide_True in Hm by done.
  destruct (get_record s2 p) as [mr2|] eqn:Hm2; [|done]. cbn [mbind option_bind]. rewrite <- E', (bury_decref _ _ _ _ Hm2). assert (Hc : record_count s2 = record_count s) by (rewrite (free_record_count _ _ _ R2); by apply (free_record_count _ _ _ R1)). by destruct (_ =? 0); cbn; rewrite Hc.
Qed.
End ops.
