(* ===== verification/JSMapDelete.v ===== *)
(** * Maps: deleting entries *)
From S2P Require Import Prelude Chains JSMap JSMapProps JSMapTable JSMapOps.

Section delete.
Context {MK : MapKey} {ML : MapKeyLaws}.

Lemma get_record_buried p s q : get_record (buried p s) q = if decide (q = p) then zombie <$> get_record s q else get_record s q.
Proof. apply (get_record_touch zombie p s q). Qed.

Lemma buried_live p s q m : get_record (buried p s) q = Some m -> empty m = false -> q <> p /\ get_record s q = Some m.
Proof. rewrite get_record_buried. case_decide; [|done]. destruct (get_record s q); [|done]. by intros [= <-]. Qed.

Lemma buried_data s j mr : get_record s (S j) = Some mr -> data_of (buried (S j) s) = <[j := None]> (data_of s).
Proof. intros Hp. change (data_of (touch zombie (S j) s) = <[j := None]> (data_of s)). rewrite (touch_put_record _ _ _ _ Hp), put_record_data by (by eapply get_record_lt). done. Qed.

Lemma buried_bk p s q : bk (buried p s) q = others p (bk s) q.
Proof. unfold bk, others. rewrite get_record_buried. case_decide; [by destruct (get_record s q)|done]. Qed.

Lemma buried_nx p s q : nx (buried p s) q = nx s q.
Proof. unfold nx. rewrite get_record_buried. case_decide; [by destruct (get_record s q)|done]. Qed.

Lemma buried_tab tb s p mr : get_record s p = Some mr -> empty mr = false -> wf_tab tb s -> wf_tab tb (buried p s).
Proof.
  intros Hp He Ht. split; [|apply (t_size _ _ Ht)| | |].
  - destruct (t_table _ _ Ht) as [cs Hcs]. exists cs. eapply table_ext; [| |exact Hcs]; [|done]. intros q _. apply buried_nx.
  - intros a b ma mb Ha Hb Ea Eb. apply buried_live in Ha as [_ Ha]; [|done]. apply buried_live in Hb as [_ Hb]; [|done]. by apply (t_keys _ _ Ht a b ma mb).
  - intros a ma Ha Ea. apply buried_live in Ha as [_ Ha]; [|done]. by apply (t_norm _ _ Ht a).
  - cbn [record_count buried set_count]. rewrite (t_count _ _ Ht). unfold nlive, buried. cbn [heap set_count]. rewrite (touch_put_record _ _ _ _ Hp). cbn [heap put_record set_heap]. rewrite (sumZ_insert _ _ _ (Some mr)) by (by apply get_record_lookup). cbn [live_count zombie]. unfold own_count. cbn [empty zombie]. rewrite He. unfold u32. rewrite Zminus_mod_idemp_l. f_equal. lia.
Qed.

(** ** One entry *)

(** The record [p] leaves its chain: [r] is the one before it. *)
Definition unhash (s : JSMapState) (i r p : nat) (mr : JSMapRecord) : option JSMapState :=
  if (r =? 0)%nat then Some (set_table (<[i := hash_next mr]> (hash_table s)) s)
  else mp ← get_record s r; Some (put_record r (with_hash_next mp (hash_next mr)) s).

Lemma relink_put s r mp n : get_record s r = Some mp -> relinked s (put_record r (with_hash_next mp n) s).
Proof.
  intros Hr. split; [done|done|cbn; by rewrite length_insert|]. intros q. unfold put_record. rewrite get_record_heap by (by eapply get_record_lt). case_decide; [subst q; by rewrite Hr|done].
Qed.

Lemma unhash_spec s i r p mr : wf_tab (bk s) s -> get_record s p = Some mr -> p <> 0%nat -> bk s p = Some i -> (r = 0%nat /\ hash_table s !! i = Some p \/ r <> 0%nat /\ bk s r = Some i /\ nx s r = Some p /\ r <> p) ->
  exists s1, unhash s i r p mr = Some s1 /\ relinked s s1 /\ get_record s1 p = Some mr /\ wf_tab (others p (bk s1)) s1.
Proof.
  intros Ht Hp Hp0 Hb Hr. assert (Hnp : nx s p = Some (hash_next mr)) by (unfold nx; by rewrite Hp). destruct (t_table _ _ Ht) as [cs Hcs]. unfold unhash. assert (Hfin : forall s1, relinked s s1 -> hash_bits s1 = hash_bits s -> record_count s1 = record_count s -> length (hash_table s1) = length (hash_table s) -> (exists cs', table (nx s1) (others p (bk s)) (hash_table s1) cs') -> wf_tab (others p (bk s1)) s1).
  { intros s1 R E1 E2 E3 [cs' Hcs']. split; [|rewrite E1, E3; apply (t_size _ _ Ht)|by eapply relinked_keys|by eapply relinked_norm|rewrite E2, (relinked_nlive s s1 R); apply (t_count _ _ Ht)]. exists cs'. eapply table_ext; [done| |exact Hcs']. intros q. unfold others. case_decide; [done|]. unfold bk, bucket. rewrite E1. pose proof (l_get _ _ R q) as Eq. destruct (get_record s1 q) as [m1|], (get_record s q) as [m|]; try done. cbn in Eq. injection Eq as _ Ee Ek _. cbn. by rewrite Ee, Ek. }
  destruct Hr as [[-> Hh]|(Hr0 & Hbr & Hnr & Hrp)].
  - cbn [Nat.eqb]. eexists. split; [reflexivity|]. assert (R : relinked s (set_table (<[i := hash_next mr]> (hash_table s)) s)) by done. split_and!; [done|done|]. apply Hfin; [done|done|done|cbn; by rewrite length_insert|]. eapply (table_unlink_head _ _ _ _ _ _ p i _ Hcs); [done|done|done|unfold others; by rewrite decide_True|intros q Hq; unfold others; by rewrite decide_False|done].
  - rewrite (proj2 (Nat.eqb_neq _ _)) by done. apply bk_some in Hbr as Hr. destruct Hr as (mp & Hmp & _). rewrite Hmp. cbn [mbind option_bind]. eexists. split; [reflexivity|]. pose proof (relink_put s r mp (hash_next mr) Hmp) as R. assert (Hg : forall q, get_record (put_record r (with_hash_next mp (hash_next mr)) s) q = if decide (q = r) then Some (with_hash_next mp (hash_next mr)) else get_record s q) by (intros q; apply get_record_heap; by eapply get_record_lt). split_and!; [done|by rewrite Hg, decide_False|]. apply Hfin; [done|done|done|done|]. eapply (table_unlink_mid _ _ _ _ _ _ p r i _ Hcs); [done|done|done|done|done|unfold others; by rewrite decide_True|intros q Hq; unfold others; by rewrite decide_False|unfold nx; by rewrite Hg, decide_True|intros q Hq Hq'; unfold nx; by rewrite Hg, decide_False].
Qed.

Lemma delete_found ext lk s d p mr : wf_mem ext lk s -> wf_tab (others p (bk s)) s -> StronglySorted lt (records s) -> data_of s = d -> frames_ok ext s -> get_record s p = Some mr -> empty mr = false ->
  exists s', map_delete_record_internal s p = Some s' /\ Inv ext lk s' (<[pred p := None]> d) /\ same_iters s s'.
Proof.
  intros Hw Ht Hs Hd Hf Hp He. destruct (delete_internal_spec _ _ _ _ _ Hw Hp He Hf) as (s' & E & W & Q). exists s'. split_and!; [done| |by apply quiet_same_iters in Q]. eapply (inv_quiet _ _ _ _ (buried p s)); [done|done|]. destruct p as [|j]; [destruct (w_null _ _ _ Hw); congruence|]. split; [by eapply buried_mem| |done|].
  - eapply wf_tab_ext; [intros q; apply buried_bk|]. by eapply buried_tab.
  - cbn [Nat.pred]. rewrite <- Hd. by eapply buried_data.
Qed.

Lemma delete_record_inv ext lk s d k : Inv ext lk s d -> frames_ok ext s ->
  no_key s (map_normalize_key k) /\ map_delete_record s k = Some (s, false) \/
  exists s' p, has_key s p (map_normalize_key k) /\ map_delete_record s k = Some (s', true) /\ Inv ext lk s' (<[pred p := None]> d) /\ same_iters s s'.
Proof.
  intros HI Hf. unfold map_delete_record. set (k' := map_normalize_key k). destruct HI as [I1 I2 I3 I4]. destruct (map_bucket_chain _ _ _ k' I1 I2) as (cs & h & c & Hcs & Hh & Hc & Hl & Hnd & Hb). fold (bucket s k'). rewrite Hh. cbn [mbind option_bind].
  destruct (unlink_find_spec s k' c 0 h (length (heap s) + 1) Hc) as (r & p & E & R); [intros q Hq; apply Hb, bk_some in Hq as (m & ? & ? & _); eauto|done|]. rewrite E. cbn [mbind option_bind]. destruct R as [[-> R]|(Hpc & Hk & R)].
  - left. split; [|done]. intros q mq Hq Hm. destruct (js_same_value_zero (key mq) k') eqn:Es; [|done]. rewrite <- Es. apply (R q mq); [|done]. apply Hb, bk_some. exists mq. split_and!; [done|done|]. symmetry. apply bucket_same; [by apply (t_norm _ _ I2 q)|apply normalize_idem|done].
  - right. pose proof (chain_nonzero _ _ _ _ Hc Hpc) as Hp0. rewrite (proj2 (Nat.eqb_neq _ _)) by done. pose proof Hk as (mr & Hm & He & Es). rewrite Hm. cbn [mbind option_bind]. fold (unhash s (bucket s k') r p mr).
    destruct (unhash_spec s (bucket s k') r p mr I2 Hm Hp0) as (s1 & E1 & R1 & Hm1 & T1); [by apply Hb| |].
    { destruct R as [[-> ->]|[Hr Hn]]; [by left|right]. split_and!; [by eapply chain_nonzero|by apply Hb|done|]. intros ->. by eapply (chain_no_loop _ _ _ p). }
    rewrite E1. cbn [mbind option_bind]. destruct (delete_found ext lk s1 d p mr) as (s' & E' & I' & S'); [by eapply relinked_mem|done|by rewrite (l_records _ _ R1)|by rewrite (relinked_data _ _ R1)| |done|done|].
    + eapply same_iters_frames; [|exact Hf]. apply same_iters_refl, (l_iters _ _ R1).
    + rewrite E'. cbn [mbind option_bind]. exists s', p. split_and!; [done|done|done|]. eapply same_iters_trans; [apply same_iters_refl, (l_iters _ _ R1)|exact S'].
Qed.

(** ** All entries *)

Definition plain (v : JSVal) : Prop := match v with V_iterator _ => False | _ => True end.

Lemma next_in_spec l : forall l1 p, NoDup (l1 ++ p :: l) -> next_in (l1 ++ p :: l) p = Some (default 0%nat (head l)).
Proof.
  induction l1 as [|x l1 IH]; intros p Hn; cbn; [by rewrite Nat.eqb_refl|]. apply NoDup_cons in Hn as [Hx Hn]. rewrite (proj2 (Nat.eqb_neq _ _)) by (intros ->; apply Hx, elem_of_app; right; by left). by apply IH.
Qed.

Lemma list_next_spec ext lk s l1 p l : wf_mem ext lk s -> records s = l1 ++ p :: l -> list_next s p = Some (default 0%nat (head l)).
Proof.
  intros Hw E. unfold list_next. assert (Hp : p ∈ records s) by (rewrite E; apply elem_of_app; right; by left). apply (w_records _ _ _ Hw) in Hp as [m Hm]. rewrite Hm. cbn [mbind option_bind]. rewrite E. apply next_in_spec. rewrite <- E. apply (w_nodup _ _ _ Hw).
Qed.

Lemma records_length ext lk s : wf_mem ext lk s -> (length (records s) < length (heap s))%nat.
Proof.
  intros Hw. assert (length (0%nat :: records s) <= length (heap s))%nat; [|cbn in *; lia]. apply NoDup_below.
  - constructor; [by eapply record_nonzero|apply (w_nodup _ _ _ Hw)].
  - constructor; [apply (w_null _ _ _ Hw)|]. apply Forall_forall. intros q Hq. apply (w_records _ _ _ Hw) in Hq as [m Hm]. by eapply get_record_lt.
Qed.

Lemma decref_other s p s' q : map_decref_record s p = Some s' -> q <> p -> get_record s' q = get_record s q.
Proof.
  intros E Hq. unfold map_decref_record in E. destruct (get_record s p) as [m|] eqn:Hp; [|done]. cbn [mbind option_bind] in E. pose proof (get_record_lt _ _ _ Hp). destruct (_ =? 0); [destruct (empty m); [|done]|]; injection E as <-; unfold free_record, put_record; rewrite (get_record_heap (set_records _ s)) || rewrite get_record_heap; try done; by rewrite decide_False.
Qed.

(** Only the record [p] may leave the list. *)
Lemma records_step s s' l1 p l : quiet s s' -> records s = l1 ++ p :: l -> (forall q, q ∈ records s -> is_Some (get_record s q)) -> (forall q, q <> p -> get_record s' q = get_record s q) -> NoDup (records s) ->
  exists l0, records s' = l0 ++ l /\ (forall q, q ∈ l0 -> q ∈ l1 ++ [p]) /\ (forall q, q ∈ l1 -> q ∈ l0).
Proof.
  intros Q E Hs Ho Hn. rewrite (q_records _ _ Q), E, filter_app. assert (Hf : forall x, x ∈ l1 \/ x ∈ l -> is_Some (get_record s' x)).
  { intros x Hx. rewrite Ho; [apply Hs; rewrite E; apply elem_of_app; destruct Hx; [by left|right; by right]|]. intros ->. rewrite E in Hn. by destruct (NoDup_split_elem _ _ _ Hn), Hx. }
  rewrite (filter_all _ l1) by auto. exists (l1 ++ if decide (is_Some (get_record s' p)) then [p] else []). case_decide.
  - rewrite filter_cons_True, (filter_all _ l) by auto. rewrite <- (assoc_L (++)). split_and!; [done|done|]. intros q Hq. apply elem_of_app. by left.
  - rewrite filter_cons_False, (filter_all _ l) by auto. rewrite app_nil_r. split_and!; [done| |done]. intros q Hq. apply elem_of_app. by left.
Qed.

Lemma delete_internal_plain s p mr : get_record s p = Some mr -> empty mr = false -> plain (key mr) -> plain (value mr) -> map_delete_record_internal s p = map_decref_record (buried p s) p.
Proof.
  intros Hp He Hk Hv. unfold map_delete_record_internal. rewrite Hp. cbn [mbind option_bind]. rewrite He. assert (Hf : forall v, plain v -> JS_FreeValue s v = Some s) by (by intros []). rewrite !Hf by done. cbn [mbind option_bind]. rewrite Hf by done. cbn [mbind option_bind]. rewrite Hp. cbn [mbind option_bind]. unfold buried. rewrite (bury_decref _ _ _ _ Hp). by destruct (_ =? 0).
Qed.

(** The state in the middle of [js_map_clear]: the table is empty. *)
Record clearing (ext lk : nat -> Z) (s : JSMapState) : Prop := {
  c_mem : wf_mem ext lk s;
  c_tab : wf_tab (fun _ => None) s;
  c_sorted : StronglySorted lt (records s);
  c_frames : frames_ok ext s }.

(** One round: the record is empty now, those after it are as before. *)
Lemma clear_step ext lk s l1 p l : clearing ext lk s -> records s = l1 ++ p :: l -> (forall m, get_record s p = Some m -> plain (key m) /\ plain (value m)) ->
  exists s' l0, map_delete_record_internal s p = Some s' /\ clearing ext lk s' /\ records s' = l0 ++ l /\ (forall q, q ∈ l0 -> q ∈ l1 ++ [p]) /\ (forall q, q <> p -> get_record s' q = get_record s q) /\
    (forall m, get_record s' p = Some m -> empty m = true) /\ same_iters s s' /\ length (heap s') = length (heap s).
Proof.
  intros [C1 C2 C3 C4] E Hpl. assert (Hin : p ∈ records s) by (rewrite E; apply elem_of_app; right; by left). apply (w_records _ _ _ C1) in Hin as [mr Hp]. destruct (empty mr) eqn:He.
  - exists s, (l1 ++ [p]). split_and!; [unfold map_delete_record_internal; rewrite Hp; cbn [mbind option_bind]; by rewrite He|done|rewrite <- (assoc_L (++)); done|done|done|intros m; congruence|by apply same_iters_refl|done].
  - destruct (Hpl mr Hp) as [Hk Hv]. destruct (delete_internal_spec _ _ _ _ _ C1 Hp He C4) as (s' & E' & W' & Q'). pose proof E' as Ed. rewrite (delete_internal_plain _ _ _ Hp He Hk Hv) in Ed. assert (Ho : forall q, q <> p -> get_record s' q = get_record (buried p s) q) by (intros q Hq; by apply (decref_other _ p)).
    assert (Hb : forall q, q <> p -> get_record (buried p s) q = get_record s q) by (intros q Hq; rewrite get_record_buried; by rewrite decide_False). assert (Hsome : forall q, q ∈ records s -> is_Some (get_record (buried p s) q)) by (intros q Hq; apply (w_records _ _ _ C1) in Hq; rewrite get_record_buried; case_decide; [by apply fmap_is_Some|done]).
    destruct (records_step (buried p s) s' l1 p l Q' E Hsome Ho (w_nodup _ _ _ C1)) as (l0 & E0 & H0 & _). exists s', l0. split_and!; [done| |done|done|intros q Hq; rewrite Ho by done; by apply Hb| |by apply quiet_same_iters in Q'|].
    + split; [done| | |by eapply quiet_frames]; [eapply quiet_tab; [exact Q'| |by eapply buried_tab]; by intros q [? ?]|rewrite (q_records _ _ Q'); by apply sorted_filter].
    + intros m Hm. destruct (q_old _ _ Q' p m Hm) as (m0 & Hm0 & Ee & _). rewrite get_record_buried, decide_True, Hp in Hm0 by done. injection Hm0 as <-. done.
    + rewrite (proj1 (q_lengths _ _ Q')). cbn. by rewrite length_alter.
Qed.

Lemma clear_loop_spec ext lk l : forall s l1 p fuel, clearing ext lk s -> records s = l1 ++ p :: l -> p <> 0%nat -> (forall q m, get_record s q = Some m -> plain (key m) /\ plain (value m)) -> (forall q m, q ∈ l1 -> get_record s q = Some m -> empty m = true) -> (length l + 1 < fuel)%nat ->
  exists s', clear_loop fuel s p (default 0%nat (head l)) = Some s' /\ clearing ext lk s' /\ (forall q m, get_record s' q = Some m -> empty m = true) /\ same_iters s s' /\ length (heap s') = length (heap s).
Proof.
  induction l as [|p' l IH]; intros s l1 p fuel C E H0 Hpl He Hf; (destruct fuel as [|fuel]; [cbn in Hf; lia|]); cbn [clear_loop]; rewrite (proj2 (Nat.eqb_neq _ _)) by done; destruct (clear_step ext lk s l1 p _ C E) as (s' & l0 & E' & C' & E0 & H1 & Ho & Hep & S' & L'); [by intros m; apply Hpl| |by intros m; apply Hpl|]; rewrite E'; cbn [mbind option_bind head default from_option id].
  - cbn [Nat.eqb]. cbn [mbind option_bind]. destruct fuel as [|fuel]; [cbn in Hf; lia|]. cbn [clear_loop Nat.eqb]. exists s'. split_and!; [done|done| |done|done]. intros q m Hm. destruct (decide (q = p)) as [->|Hq]; [by apply Hep|]. assert (Hin : q ∈ records s') by (apply (w_records _ _ _ (c_mem _ _ _ C')); by exists m). rewrite E0, app_nil_r in Hin. apply H1, elem_of_app in Hin as [Hin|Hin%list_elem_of_singleton]; [|done]. rewrite Ho in Hm by done. by eapply He.
  - assert (Hp0 : p' <> 0%nat) by (intros ->; eapply (record_nonzero _ _ s); [apply (c_mem _ _ _ C)|]; rewrite E; apply elem_of_app; right; right; by left). rewrite (proj2 (Nat.eqb_neq _ _)) by done. rewrite (list_next_spec _ _ _ _ _ _ (c_mem _ _ _ C') E0). cbn [mbind option_bind].
    assert (Hpl' : forall q m, get_record s' q = Some m -> plain (key m) /\ plain (value m)).
    { intros q m Hm. destruct (decide (q = p)) as [->|Hq]; [|rewrite Ho in Hm by done; by eapply Hpl]. destruct (w_zombie _ _ _ (c_mem _ _ _ C') p m Hm (Hep m Hm)) as [-> ->]. done. }
    destruct (IH s' l0 p' fuel C' E0 Hp0 Hpl') as (s2 & E2 & C2 & A2 & S2 & L2); [|cbn in Hf; lia|].
    + intros q m Hq Hm. destruct (decide (q = p)) as [->|Hne]; [by apply Hep|]. rewrite Ho in Hm by done. apply H1, elem_of_app in Hq as [Hq|Hq%list_elem_of_singleton]; [|done]. by eapply He.
    + exists s2. split_and!; [done|done|done|by eapply same_iters_trans|congruence].
Qed.

Lemma clear_inv ext lk s d : Inv ext lk s d -> frames_ok ext s -> all_entries plain d ->
  exists s', js_map_clear s = Some s' /\ Inv ext lk s' ((fun _ => None) <$> d) /\ same_iters s s'.
Proof.
  intros HI Hf Hpl. pose proof (inv_length _ _ _ _ HI) as Hlen. destruct HI as [I1 I2 I3 I4]. unfold js_map_clear. set (s0 := set_table _ s).
  assert (C0 : clearing ext lk s0).
  { split; [by destruct I1; split| |done|done]. destruct I2 as [_ T2 T3 T4 T5]. split; [|cbn; by rewrite length_replicate|done|done|done]. eexists. apply table_empty. done. }
  assert (Hpl0 : forall q m, get_record s0 q = Some m -> plain (key m) /\ plain (value m)).
  { intros q m Hm. change (get_record s q = Some m) in Hm. destruct (empty m) eqn:Em; [destruct (w_zombie _ _ _ I1 q m Hm Em) as [-> ->]; done|]. destruct q as [|j]; [destruct (w_null _ _ _ I1); congruence|]. pose proof (record_data s j m Hm Em) as Hd. rewrite I4 in Hd. by apply (Forall_lookup_1 _ _ _ _ Hpl Hd). }
  assert (Hfin : forall s', clearing ext lk s' -> (forall q m, get_record s' q = Some m -> empty m = true) -> length (heap s') = length (heap s) -> Inv ext lk s' ((fun _ => None) <$> d)).
  { intros s' [C1 C2 C3 C4] He L. split; [done| |done|].
    - eapply wf_tab_ext; [|exact C2]. intros q. unfold bk. destruct (get_record s' q) as [m|] eqn:E; [|done]. cbn. by rewrite (He q m E).
    - apply (list_eq_same_length _ _ (length d)); [by rewrite length_fmap|rewrite data_length; lia|]. intros j x y Hj Hx Hy. rewrite list_lookup_fmap in Hy. rewrite data_lookup in Hx. destruct (d !! j); [|done]. injection Hy as <-. destruct (heap s' !! S j) as [[m|]|] eqn:E; [|by injection Hx as <-|done]. apply get_record_lookup, He in E. cbn in Hx. rewrite E in Hx. by injection Hx as <-. }
  unfold list_first. destruct (records s0) as [|p l] eqn:Er; cbn [head default from_option id].
  - cbn [Nat.eqb mbind option_bind clear_loop]. rewrite Nat.add_1_r. cbn [clear_loop Nat.eqb]. exists s0. split_and!; [done| |by apply same_iters_refl]. apply Hfin; [done| |done]. intros q m Hm. exfalso. assert (Hin : q ∈ records s0) by (apply (w_records _ _ _ (c_mem _ _ _ C0)); by exists m). rewrite Er in Hin. by apply elem_of_nil in Hin.
  - assert (Hp0 : p <> 0%nat) by (intros ->; eapply (record_nonzero _ _ s0); [apply (c_mem _ _ _ C0)|]; rewrite Er; by left). rewrite (proj2 (Nat.eqb_neq _ _)) by done. rewrite (list_next_spec _ _ _ [] p l (c_mem _ _ _ C0) Er). cbn [mbind option_bind].
    destruct (clear_loop_spec ext lk l s0 [] p (length (heap s0) + 1) C0 Er Hp0 Hpl0) as (s' & E & C & A & S & L); [intros q m Hq; by apply elem_of_nil in Hq| |].
    + pose proof (records_length _ _ _ (c_mem _ _ _ C0)) as Hrl. rewrite Er in Hrl. cbn in *. lia.
    + exists s'. split_and!; [done|by apply Hfin|done].
Qed.

(** ** The next entry *)

(** The first entry from a position on. *)
Fixpoint scan_from (i : nat) (l : list Entry) : option (nat * (JSVal * JSVal)) :=
  match l with
  | [] => None
  | Some e :: _ => Some (i, e)
  | None :: l => scan_from (S i) l
  end.
Definition next_entry (d : list Entry) (pos : nat) : option (nat * (JSVal * JSVal)) := scan_from pos (drop pos d).

Lemma scan_from_spec l : forall i, match scan_from i l with
  | Some (j, e) => (i <= j)%nat /\ l !! (j - i)%nat = Some (Some e) /\ forall n, (n < j - i)%nat -> l !! n = Some None
  | None => forall n e, l !! n <> Some (Some e) end.
Proof.
  induction l as [|[e|] l IH]; intros i; cbn [scan_from]; [done|rewrite Nat.sub_diag; split_and!; [done|done|lia]|]. specialize (IH (S i)). destruct (scan_from (S i) l) as [[j e]|].
  - destruct IH as (A & B & C). replace (j - i)%nat with (S (j - S i))%nat by lia. split_and!; [lia|done|]. intros [|n] Hn; [done|]. apply C. lia.
  - intros [|n] e; [done|apply IH].
Qed.

Lemma next_entry_spec d pos : match next_entry d pos with
  | Some (j, e) => (pos <= j)%nat /\ d !! j = Some (Some e) /\ forall n, (pos <= n < j)%nat -> d !! n = Some None
  | None => forall n e, (pos <= n)%nat -> d !! n <> Some (Some e) end.
Proof.
  unfold next_entry. pose proof (scan_from_spec (drop pos d) pos) as H. destruct (scan_from pos (drop pos d)) as [[j e]|].
  - destruct H as (A & B & C). rewrite lookup_drop in B. replace (pos + (j - pos))%nat with j in B by lia. split_and!; [done|done|]. intros n Hn. specialize (C (n - pos)%nat ltac:(lia)). rewrite lookup_drop in C. by replace (pos + (n - pos))%nat with n in C by lia.
  - intros n e Hn. specialize (H (n - pos)%nat e). rewrite lookup_drop in H. by replace (pos + (n - pos))%nat with n in H by lia.
Qed.

Lemma skip_empty_spec ext lk l : forall s l1 fuel, wf_mem ext lk s -> records s = l1 ++ l -> (length l < fuel)%nat ->
  exists p, skip_empty fuel s (default 0%nat (head l)) = Some p /\ (p = 0%nat /\ (forall q m, q ∈ l -> get_record s q = Some m -> empty m = true) \/
    exists l2 l3 m, l = l2 ++ p :: l3 /\ (forall q m, q ∈ l2 -> get_record s q = Some m -> empty m = true) /\ get_record s p = Some m /\ empty m = false).
Proof.
  induction l as [|p l IH]; intros s l1 fuel Hw E Hf; (destruct fuel as [|fuel]; [cbn in Hf; lia|]); cbn [skip_empty head default from_option id].
  - exists 0%nat. split; [done|]. left. split; [done|]. intros q m Hq. by apply elem_of_nil in Hq.
  - assert (Hin : p ∈ records s) by (rewrite E; apply elem_of_app; right; by left). assert (Hp0 : p <> 0%nat) by (intros ->; by eapply record_nonzero). rewrite (proj2 (Nat.eqb_neq _ _)) by done. apply (w_records _ _ _ Hw) in Hin as [m Hm]. rewrite Hm. cbn [mbind option_bind]. destruct (empty m) eqn:Em; [|exists p; split; [done|]; right; exists [], l, m; split_and!; [done|intros q m' Hq; by apply elem_of_nil in Hq|done|done]].
    rewrite (list_next_spec _ _ _ _ _ _ Hw E). cbn [mbind option_bind]. destruct (IH s (l1 ++ [p]) fuel Hw) as (q & E' & R); [by rewrite <- (assoc_L (++))|cbn in Hf; lia|]. exists q. split; [done|]. destruct R as [[-> R]|(l2 & l3 & m' & -> & R & R')]; [left; split; [done|]|right; exists (p :: l2), l3, m'; split_and!; [done| |apply R'|apply R']]; intros r mr [->|Hr]%elem_of_cons Hmr; try congruence; by eapply R.
Qed.

Lemma map_scan_inv ext lk s d l1 l pos : Inv ext lk s d -> records s = l1 ++ l -> (forall q, q ∈ l1 -> (q <= pos)%nat) -> (forall q, q ∈ l -> (pos < q)%nat) ->
  skip_empty (length (heap s) + 1) s (default 0%nat (head l)) = Some (match next_entry d pos with Some (j, _) => S j | None => 0%nat end).
Proof.
  intros [I1 I2 I3 I4] E H1 H2. pose proof (records_length _ _ _ I1) as Hrl. destruct (skip_empty_spec ext lk l s l1 (length (heap s) + 1) I1 E) as (p & E' & R); [rewrite E, length_app in Hrl; lia|]. rewrite E'. f_equal. assert (Hl : forall n e, (pos <= n)%nat -> d !! n = Some (Some e) -> S n ∈ l /\ exists m, get_record s (S n) = Some m /\ empty m = false).
  { intros n [k v] Hn Hd. rewrite <- I4 in Hd. apply data_record in Hd as (m & Hm & Em & _). split; [|by exists m]. assert (Hin : S n ∈ records s) by (apply (w_records _ _ _ I1); by exists m). rewrite E in Hin. apply elem_of_app in Hin as [Hin|Hin]; [|done]. specialize (H1 _ Hin). lia. }
  pose proof (next_entry_spec d pos) as Hn. destruct R as [[-> R]|(l2 & l3 & m & -> & R & Hm & Em)].
  - destruct (next_entry d pos) as [[j e]|]; [|done]. destruct Hn as (A & B & _). destruct (Hl j e A B) as (Hin & m & Hm & Em). by rewrite (R _ m Hin Hm) in Em.
  - assert (Hpl : (pos < p)%nat) by (apply H2, elem_of_app; right; by left). destruct p as [|j0]; [lia|]. pose proof (record_data s j0 m Hm Em) as Hd. rewrite I4 in Hd. destruct (next_entry d pos) as [[j e]|]; [|by destruct (Hn j0 _ ltac:(lia) Hd)]. destruct Hn as (A & B & C). f_equal. destruct (lt_eq_lt_dec j0 j) as [[Hlt| ->]|Hlt]; [|done|]; [rewrite (C j0 ltac:(lia)) in Hd; done|]. exfalso. destruct (Hl j e A B) as (Hin & mj & Hmj & Emj). apply elem_of_app in Hin as [Hin|[Hin|Hin]%elem_of_cons]; [by rewrite (R _ mj Hin Hmj) in Emj|lia|].
    rewrite E in I3. apply StronglySorted_app in I3 as (_ & _ & I3). apply StronglySorted_app in I3 as (_ & _ & I3). apply StronglySorted_inv in I3 as [_ I3]. apply (proj1 (Forall_forall _ _) I3) in Hin. lia.
Qed.
End delete.
