(* ===== verification/JSMapIters.v ===== *)
(** * Maps: iterators

    Moving an iterator, or a call of [forEach], to another record. *)
From S2P Require Import Prelude Chains JSMap JSMapProps JSMapTable JSMapOps JSMapDelete.

Section iters.
Context {MK : MapKey} {ML : MapKeyLaws}.

Lemma inv_ext_eq ext ext' lk lk' s d : (forall i, ext' i = ext i) -> (forall p, lk' p = lk p) -> Inv ext lk s d -> Inv ext' lk' s d.
Proof. intros He Hl [[W1 W2 W3 W4 W5 W6 W7 W8 W9 W10] I2 I3 I4]. split; [|done|done|done]. split; try done; intros; rewrite ?He, ?Hl; auto. Qed.

Lemma inv_iters ext lk ext' lk' s d x : Inv ext lk s d -> wf_mem ext' lk' (set_iters x s) -> Inv ext' lk' (set_iters x s) d.
Proof. intros [I1 [T1 T2 T3 T4 T5] I3 I4] Hw. by split; [|split| |]. Qed.

Definition own_all (l : list JSVal) (ext : nat -> Z) (i : nat) : Z := ext i + countZ (V_iterator i) l.

Lemma own_all_cons v l ext i : own_all (v :: l) ext i = own_all l (own v ext) i.
Proof. unfold own_all, own, is_it. cbn [countZ]. case_decide; case_decide; try congruence; lia. Qed.

Lemma dup_values_inv lk p mr l : forall ext s d, Inv ext lk s d -> get_record s p = Some mr -> (forall v, v ∈ l -> v = key mr \/ v = value mr) ->
  exists s', dup_values s l = Some s' /\ Inv (own_all l ext) lk s' d /\ same_iters s s' /\ heap s' = heap s /\ records s' = records s.
Proof.
  induction l as [|v l IH]; intros ext s d HI Hp Hl; cbn [dup_values].
  - exists s. split_and!; [done| |by apply same_iters_refl|done|done]. eapply inv_ext_eq; [| |exact HI]; [|done]. intros i. unfold own_all. cbn. lia.
  - assert (Ha : alive s v) by (destruct (alive_record _ _ _ _ _ (i_mem _ _ _ _ HI) Hp); by destruct (Hl v ltac:(by left)) as [->| ->]). destruct (dup_spec _ _ _ _ (i_mem _ _ _ _ HI) Ha) as (s1 & E1 & W1 & Q1 & Eh). rewrite E1. cbn [mbind option_bind]. pose proof (inv_quiet _ _ _ _ _ _ _ Q1 W1 HI) as I1. assert (Er : records s1 = records s) by (destruct v; cbn in E1; [by injection E1 as <-|by injection E1 as <-|]; destruct (get_iter s i); [|done]; by injection E1 as <-).
    destruct (IH (own v ext) s1 d I1) as (s' & E' & I' & S' & Eh' & Er'); [unfold get_record; by rewrite Eh|intros u Hu; apply Hl; by right|]. exists s'. split_and!; [done| |eapply same_iters_trans; [by apply quiet_same_iters|done]|congruence|congruence]. eapply inv_ext_eq; [| |exact I']; [|done]. intros i. apply own_all_cons.
Qed.

Lemma free_values_inv lk l : forall ext s d, Inv (own_all l ext) lk s d -> (forall i, 0 <= ext i) -> frames_ok ext s -> exists s', free_values s l = Some s' /\ Inv ext lk s' d /\ same_iters s s' .
Proof.
  induction l as [|v l IH]; intros ext s d HI He Hf; cbn [free_values].
  - exists s. split_and!; [done| |by apply same_iters_refl]. eapply inv_ext_eq; [| |exact HI]; [|done]. intros i. unfold own_all. cbn. lia.
  - assert (HI' : Inv (own v (own_all l ext)) lk s d) by (eapply inv_ext_eq; [| |exact HI]; [|done]; intros i; rewrite own_all_cons; unfold own, own_all; lia). assert (Hle : forall i, ext i <= own_all l ext i) by (intros i; unfold own_all; pose proof (countZ_nonneg (V_iterator i) l); lia).
    destruct (map_free_inv _ _ _ _ _ HI') as (s1 & E1 & I1 & S1); [intros i; specialize (He i); specialize (Hle i); lia|by eapply frames_mono|]. rewrite E1. cbn [mbind option_bind]. destruct (IH ext s1 d I1 He) as (s' & E' & I' & S'); [by eapply same_iters_frames|]. exists s'. split_and!; [done|done|by eapply same_iters_trans].
Qed.

(** ** Leaving a record *)

Definition park (it : JSMapIter) : JSMapIter := mkIter (it_refs it) 0 false (kind it) (args it).

Lemma decref_put_iter s p i it : map_decref_record (put_iter i it s) p = put_iter i it <$> map_decref_record s p.
Proof. unfold map_decref_record. change (get_record (put_iter i it s) p) with (get_record s p). destruct (get_record s p) as [m|]; [|done]. cbn [mbind option_bind]. destruct (_ =? 0); [by destruct (empty m)|done]. Qed.

Lemma park_inv ext s d i it : Inv ext (fun _ => 0) s d -> get_iter s i = Some it -> it_cur it <> 0%nat -> Inv ext (bump (it_cur it) (fun _ => 0)) (put_iter i (park it) s) d.
Proof.
  intros HI Hi H0. eapply inv_iters; [done|]. eapply wf_put_iter; [apply (i_mem _ _ _ _ HI)|done| | |apply (w_ext _ _ _ (i_mem _ _ _ _ HI))|done| | |done|done].
  - intros p Hp. cbn [iter_at park it_cur]. unfold bump. rewrite (decide_False (P := 0%nat = p)) by congruence. case_decide; case_decide; congruence || lia.
  - intros p. unfold bump. case_decide; lia.
  - cbn [park it_refs args]. destruct (w_iter _ _ _ (i_mem _ _ _ _ HI) i it Hi). lia.
  - apply (w_iter _ _ _ (i_mem _ _ _ _ HI) i it Hi).
Qed.

(** The iterator leaves its record, which may go; what follows is left. *)
Lemma advance_inv ext s d i it : Inv ext (fun _ => 0) s d -> get_iter s i = Some it -> it_cur it <> 0%nat ->
  exists s1 l0 l, list_next s (it_cur it) = Some (default 0%nat (head l)) /\ map_decref_record s (it_cur it) = Some s1 /\ Inv ext (fun _ => 0) (put_iter i (park it) s1) d /\ iters s1 = iters s /\
    records s1 = l0 ++ l /\ (forall q, q ∈ l0 -> (q <= it_cur it)%nat) /\ (forall q, q ∈ l -> (it_cur it < q)%nat).
Proof.
  intros HI Hi H0. set (c := it_cur it) in *. assert (Hc : c ∈ records s) by (by apply (w_cur _ _ _ (i_mem _ _ _ _ HI) i it Hi)). pose proof Hc as Hcut. apply list_elem_of_split in Hcut as (l1 & l & Er). pose proof (park_inv _ _ _ _ _ HI Hi H0) as I0. destruct (map_decref_inv _ _ (fun _ => 0) _ _ c I0) as (s1g & E1 & I1 & Ei & Q1); [exact Hc|unfold bump; by rewrite decide_True|lia|intros q Hq; unfold bump; by rewrite decide_False|].
  pose proof E1 as E1'. rewrite decref_put_iter in E1'. destruct (map_decref_record s c) as [s1|] eqn:Ed; [|done]. cbn in E1'. injection E1' as <-.
  destruct (records_step (put_iter i (park it) s) (put_iter i (park it) s1) l1 c l Q1 Er) as (l0 & E0 & Hl0 & _); [intros q Hq; by apply (w_records _ _ _ (i_mem _ _ _ _ HI))|intros q Hq; by apply (decref_other _ c)|apply (w_nodup _ _ _ (i_mem _ _ _ _ HI))|].
  pose proof (i_sorted _ _ _ _ HI) as Hs. rewrite Er in Hs. apply StronglySorted_app in Hs as (Hs1 & _ & Hs2). apply StronglySorted_inv in Hs2 as [_ Hs2].
  exists s1, l0, l. split_and!; [by apply (list_next_spec _ _ _ l1 c l (i_mem _ _ _ _ HI))|done|done| |done| |].
  - unfold map_decref_record in Ed. destruct (get_record s c) as [m|]; [|done]. cbn [mbind option_bind] in Ed. destruct (_ =? 0); [destruct (empty m); [|done]|]; by injection Ed as <-.
  - intros q Hq. apply Hl0, elem_of_app in Hq as [Hq| ->%list_elem_of_singleton]; [|lia]. specialize (Hs1 q c Hq ltac:(by left)). lia.
  - intros q Hq. by apply (proj1 (Forall_forall _ _) Hs2).
Qed.

(** ** Standing on a record *)

Lemma lock_inv ext lk s d p mr : Inv ext lk s d -> get_record s p = Some mr -> Inv ext (bump p lk) (put_record p (with_ref_count mr (ref_count mr + 1)) s) d.
Proof.
  intros HI Hp. eapply inv_quiet; [| |exact HI]; [eapply quiet_put_record; [apply (i_mem _ _ _ _ HI)|done|done]|]. pose proof (i_mem _ _ _ _ HI) as Hw. destruct (w_ref _ _ _ Hw p mr Hp) as [Hr Hr0]. pose proof (w_lk _ _ _ Hw p). eapply wf_put_record; [done|done| | | | |by apply (w_zombie _ _ _ Hw p mr Hp)|apply (w_ext _ _ _ Hw)|done].
  - unfold bump. rewrite decide_True by done. cbn. unfold own_count in *. cbn. lia.
  - cbn. lia.
  - intros q Hq. unfold bump. by rewrite decide_False.
  - unfold bump. rewrite decide_True by done. lia.
Qed.

(** The lock goes to an iterator, with the references of its arguments. *)
Lemma stand_inv ext s d p i it l kd : Inv (own_all l ext) (bump p (fun _ => 0)) s d -> (forall j, 0 <= ext j) -> p ∈ records s -> get_iter s i = Some it -> it_cur it = 0%nat -> args it = [] -> V_iterator i ∉ l ->
  Inv ext (fun _ => 0) (put_iter i (mkIter (it_refs it) p false kd l) s) d.
Proof.
  intros HI He Hp Hi Hc Ha Hl. pose proof (i_mem _ _ _ _ HI) as Hw. assert (Hp0 : p <> 0%nat) by (intros ->; by eapply record_nonzero). assert (Hci : countZ (V_iterator i) l = 0) by (by apply countZ_zero). destruct (w_iter _ _ _ Hw i it Hi) as [Hr Hr0]. eapply inv_iters; [done|]. eapply wf_put_iter; [done|done| |done|done| | | |done|done].
  - intros q Hq. cbn [iter_at it_cur]. rewrite Hc. unfold bump. rewrite (decide_False (P := 0%nat = q)) by congruence. case_decide; case_decide; congruence || lia.
  - intros j _. cbn [args]. rewrite Ha. unfold own_all. cbn. lia.
  - cbn [args it_refs]. rewrite Ha. unfold own_all in Hr. cbn. lia.
  - done.
Qed.
End iters.
