(* ===== verification/JSMapSpec.v ===== *)
(** * Maps: what a script may rely on

    The language defines a Map by the list of its entries, in which a deleted
    entry leaves an empty place, and an iterator by a position in that list.
    A script works on a map by a sequence of operations; it uses the iterators
    it holds and those that its callbacks are given. *)
From S2P Require Import Prelude JSMap JSMapOps JSMapDelete.

(** An iterator: its kind, the position it looks at next ([None] at the end),
    and the script's references to it; or a running call of [forEach]: the
    position it looks at next and the arguments of the callback. *)
Inductive a_iter := A_iterator (kind : JSIteratorKindEnum) (pos : option nat) (refs : Z) | A_frame (run : option (nat * list JSVal)).

Record a_map := mkA { a_data : list Entry; a_iters : list a_iter }.

Inductive map_op :=
| O_set (k v : JSVal) | O_get (k : JSVal) | O_has (k : JSVal) | O_delete (k : JSVal) | O_clear | O_size
| O_getOrInsert (k v : JSVal) | O_computed (k : JSVal) | O_computed_return (k v : JSVal)
| O_iterator (kind : JSIteratorKindEnum) | O_next (i : nat) | O_forEach | O_return (f : nat) (thrown : bool)
| O_keep (v : JSVal) | O_drop (v : JSVal).

Inductive map_res := R_undefined | R_bool (b : bool) | R_value (v : JSVal) | R_size (n : Z) | R_iterator (i : nat) | R_next (r : next_result) | R_call (f : nat) (v k : JSVal) | R_compute | R_exception.

(** ** The operations of the code *)

Section step.
Context `{MapKey} (mem : nat -> bool) (is_set : bool).

Definition value_result (r : JSMapState * option JSVal) (none : map_res) : JSMapState * map_res := (fst r, match snd r with Some v => R_value v | None => none end).
Definition call_result (s : JSMapState) (f : nat) (r : option (JSVal * JSVal)) : JSMapState * map_res := (s, match r with Some (v, k) => R_call f v k | None => R_undefined end).

(** [O_keep] and [O_drop] are what a script does to its references. *)
Definition map_step (s : JSMapState) (o : map_op) : option (JSMapState * map_res) :=
  match o with
  | O_set k v => '(s, ok) ← js_map_set mem s is_set k v; Some (s, if ok : bool then R_undefined else R_exception)
  | O_get k => '(s, v) ← js_map_get s k; Some (s, R_value v)
  | O_has k => b ← js_map_has s k; Some (s, R_bool b)
  | O_delete k => '(s, b) ← js_map_delete s k; Some (s, R_bool b)
  | O_clear => s ← js_map_clear s; Some (s, R_undefined)
  | O_size => Some (s, R_size (js_map_get_size s))
  | O_getOrInsert k v => r ← js_map_getOrInsert mem s k v; Some (value_result r R_exception)
  | O_computed k => r ← getOrInsert_find s k; Some (value_result r R_compute)
  | O_computed_return k v => r ← getOrInsert_return mem s k v; Some (value_result r R_exception)
  | O_iterator kind => let '(r, s) := js_create_map_iterator mem s kind in Some (s, match r with Some i => R_iterator i | None => R_exception end)
  | O_next i => '(s, r) ← js_map_iterator_next mem s is_set i; Some (s, match r with N_exception => R_exception | _ => R_next r end)
  | O_forEach => '(s, f, r) ← js_map_forEach s is_set; Some (call_result s f r)
  | O_return f thrown => '(s, r) ← forEach_return s is_set f thrown; Some (call_result s f r)
  | O_keep v => s ← JS_DupValue s v; Some (s, R_undefined)
  | O_drop v => s ← JS_FreeValue s v; Some (s, R_undefined)
  end.

(** ** The operations on lists *)

(** References of the script. *)
Definition a_hold (n : Z) (v : JSVal) (l : list a_iter) : list a_iter :=
  match v with
  | V_iterator i => alter (fun x => match x with A_iterator kd pos r => A_iterator kd pos (r + n) | x => x end) i l
  | _ => l
  end.

Definition a_hold_all (vs : list JSVal) (l : list a_iter) : list a_iter := foldl (fun l v => a_hold 1 v l) l vs.

Fixpoint find_from (i : nat) (l : list Entry) (k : JSVal) : option (nat * (JSVal * JSVal)) :=
  match l with
  | [] => None
  | Some (k0, v0) :: l => if js_same_value_zero k0 k then Some (i, (k0, v0)) else find_from (S i) l k
  | None :: l => find_from (S i) l k
  end.

Definition a_find (d : list Entry) (k : JSVal) : option (nat * (JSVal * JSVal)) := find_from 0 d k.
Definition a_size (d : list Entry) : Z := Z.of_nat (length (omap id d)).
Definition a_delete (d : list Entry) (k : JSVal) : list Entry * bool := match a_find d k with Some (j, _) => (<[j := None]> d, true) | None => (d, false) end.

(** The value of [k], which the script gets a reference to. *)
Definition a_lookup (a : a_map) (k : JSVal) (none : map_res) : a_map * map_res :=
  match a_find (a_data a) k with Some (_, (_, v)) => (mkA (a_data a) (a_hold 1 v (a_iters a)), R_value v) | None => (a, none) end.

(** [forEach] goes on at [pos]. *)
Definition a_scan (d : list Entry) (its : list a_iter) (f pos : nat) : a_map * map_res :=
  match next_entry d pos with
  | Some (j, (k, v)) => (mkA d (<[f := A_frame (Some (S j, if is_set then [k] else [v; k]))]> its), R_call f (if is_set then k else v) k)
  | None => (mkA d (<[f := A_frame None]> its), R_undefined)
  end.

Definition kind_values (kd : JSIteratorKindEnum) (k v : JSVal) : list JSVal :=
  match kd with JS_ITERATOR_KIND_KEY => [k] | JS_ITERATOR_KIND_VALUE => [v] | JS_ITERATOR_KIND_KEY_AND_VALUE => [k; v] end.

(** [ok] is that there is memory. *)
Definition a_step (ok : bool) (a : a_map) (o : map_op) : a_map * map_res :=
  let d := a_data a in let its := a_iters a in
  match o with
  | O_set k v =>
      let k := map_normalize_key k in let v := if is_set then V_undefined else v in
      match a_find d k with
      | Some (j, (k0, _)) => (mkA (<[j := Some (k0, v)]> d) its, R_undefined)
      | None => if ok then (mkA (d ++ [Some (k, v)]) its, R_undefined) else (a, R_exception)
      end
  | O_get k => a_lookup a (map_normalize_key k) (R_value V_undefined)
  | O_has k => (a, R_bool (bool_decide (is_Some (a_find d (map_normalize_key k)))))
  | O_delete k => let '(d, b) := a_delete d (map_normalize_key k) in (mkA d its, R_bool b)
  | O_clear => (mkA ((fun _ => None) <$> d) its, R_undefined)
  | O_size => (a, R_size (u32 (a_size d)))
  | O_getOrInsert k v =>
      let k := map_normalize_key k in
      match a_find d k with
      | Some (_, (_, v0)) => (mkA d (a_hold 1 v0 its), R_value v0)
      | None => if ok then (mkA (d ++ [Some (k, v)]) (a_hold 1 v its), R_value v) else (a, R_exception)
      end
  | O_computed k => a_lookup a (map_normalize_key k) R_compute
  | O_computed_return k v =>
      let k := map_normalize_key k in
      match a_find d k with
      | Some (j, (k0, _)) => (mkA (<[j := Some (k0, v)]> d) its, R_value v)
      | None => if ok then (mkA (d ++ [Some (k, v)]) its, R_value v) else (mkA d (a_hold (-1) v its), R_exception)
      end
  | O_iterator kd => if ok then (mkA d (its ++ [A_iterator kd (Some 0%nat) 1]), R_iterator (length its)) else (a, R_exception)
  | O_next i =>
      match its !! i with
      | Some (A_iterator kd (Some pos) n) =>
          match next_entry d pos with
          | None => (mkA d (<[i := A_iterator kd None n]> its), R_next N_done)
          | Some (j, (k, v)) =>
              let its := <[i := A_iterator kd (Some (S j)) n]> its in
              let l := kind_values kd k (if is_set then k else v) in
              if ok then (mkA d (a_hold_all l its), R_next (N_values l)) else (mkA d its, R_exception)
          end
      | _ => (a, R_next N_done)
      end
  | O_forEach => a_scan d (its ++ [A_frame None]) (length its) 0
  | O_return f thrown =>
      match its !! f with
      | Some (A_frame (Some (pos, _))) => if thrown then (mkA d (<[f := A_frame None]> its), R_undefined) else a_scan d its f pos
      | _ => (a, R_undefined)
      end
  | O_keep v => (mkA d (a_hold 1 v its), R_undefined)
  | O_drop v => (mkA d (a_hold (-1) v its), R_undefined)
  end.

(** ** What a script may do *)

Definition is_iterator (a : a_map) (i : nat) : bool := match a_iters a !! i with Some (A_iterator _ _ _) => true | _ => false end.

Definition a_owns (a : a_map) (v : JSVal) : bool :=
  match v with V_iterator i => match a_iters a !! i with Some (A_iterator _ _ n) => 0 <? n | _ => false end | _ => true end.

Definition frame_args (x : a_iter) : list JSVal := match x with A_frame (Some (_, l)) => l | _ => [] end.

Definition a_usable (a : a_map) (v : JSVal) : bool :=
  a_owns a v || match v with V_iterator i => is_iterator a i && bool_decide (v ∈ concat (frame_args <$> a_iters a)) | _ => true end.

Definition plain_entry (e : Entry) : bool :=
  match e with Some (k, v) => match k, v with V_iterator _, _ | _, V_iterator _ => false | _, _ => true end | None => true end.

(** [clear] is only asked of a map that holds no iterators of its own, and the
    callback of [getOrInsertComputed] does not insert the key itself: in both
    cases the code does something else than the language
    ([clear_uses_freed_record] and [computed_return_moves_entry]). *)
Definition a_ok (a : a_map) (o : map_op) : bool :=
  match o with
  | O_set k v | O_getOrInsert k v => a_usable a k && a_usable a v
  | O_get k | O_has k | O_delete k | O_computed k => a_usable a k
  | O_computed_return k v => a_usable a k && a_owns a v && match a_find (a_data a) (map_normalize_key k) with Some _ => false | None => true end
  | O_clear => forallb plain_entry (a_data a)
  | O_next i => a_owns a (V_iterator i)
  | O_return f _ => match a_iters a !! f with Some (A_frame (Some _)) => true | _ => false end
  | O_keep v => a_usable a v
  | O_drop v => a_owns a v
  | O_size | O_iterator _ | O_forEach => true
  end.

Definition is_exception (r : map_res) : bool := match r with R_exception => true | _ => false end.

(** As long as the script does what it may, each operation succeeds with the
    result and the effect that the lists define; only the lack of memory makes
    an exception. *)
Fixpoint follows (s : JSMapState) (a : a_map) (os : list map_op) : Prop :=
  match os with
  | [] => True
  | o :: os =>
      a_ok a o = true -> exists s' r, map_step s o = Some (s', r) /\ snd (a_step (negb (is_exception r)) a o) = r /\
        ((forall n, mem n = true) -> r <> R_exception) /\ follows s' (fst (a_step (negb (is_exception r)) a o)) os
  end.

Fixpoint run_map (s : JSMapState) (os : list map_op) : option (JSMapState * list map_res) :=
  match os with
  | [] => Some (s, [])
  | o :: os => '(s, r) ← map_step s o; '(s, rs) ← run_map s os; Some (s, r :: rs)
  end.

(** With enough memory: what the script sees, if it does what it may. *)
Fixpoint run_lists (a : a_map) (os : list map_op) : option (list map_res) :=
  match os with
  | [] => Some []
  | o :: os => if a_ok a o then let '(a, r) := a_step true a o in rs ← run_lists a os; Some (r :: rs) else None
  end.
End step.
