(* ===== verification/JSMapUse.v ===== *)
(** * Maps: the code and the lists *)
From S2P Require Import Prelude Chains JSMap JSMapProps JSMapTable JSMapOps JSMapDelete JSMapIters JSMapSpec.

(** ** The references of the script *)

Definition ext_of (its : list a_iter) (i : nat) : Z :=
  match its !! i with Some (A_iterator _ _ n) => n | Some (A_frame (Some _)) => 1 | _ => 0 end.

Definition good (its : list a_iter) (v : JSVal) : Prop := match v with V_iterator i => exists kd pos n, its !! i = Some (A_iterator kd pos n) | _ => True end.

Definition shape (x : a_iter) : a_iter := match x with A_iterator kd pos _ => A_iterator kd pos 0 | x => x end.

Lemma hold_shape n v its i : shape <$> a_hold n v its !! i = shape <$> its !! i.
Proof.
  destruct v as [|m|j]; [done|done|]. cbn [a_hold]. destruct (decide (i = j)) as [->|]; [rewrite list_lookup_alter_eq|by rewrite list_lookup_alter_ne]. by destruct (its !! j) as [[]|].
Qed.

Lemma hold_length n v its : length (a_hold n v its) = length its.
Proof. destruct v; [done|done|]. apply length_alter. Qed.

Lemma good_mono its its' v : (forall i kd pos n, its !! i = Some (A_iterator kd pos n) -> exists kd' pos' n', its' !! i = Some (A_iterator kd' pos' n')) -> good its v -> good its' v.
Proof. intros H. destruct v; [done|done|]. intros (kd & pos & n & E). by apply (H i kd pos n). Qed.

Lemma good_hold n u its v : good its v -> good (a_hold n u its) v.
Proof. apply good_mono. intros i kd pos m E. pose proof (hold_shape n u its i) as S. rewrite E in S. destruct (a_hold n u its !! i) as [[kd' pos' n'|]|]; cbn in S; [eauto|done|done]. Qed.

Lemma ext_hold n v its i : good its v -> ext_of (a_hold n v its) i = ext_of its i + n * is_it i v.
Proof.
  intros Hg. unfold is_it. destruct v as [|m|j]; [rewrite decide_False by done; cbn; lia|rewrite decide_False by done; cbn; lia|]. destruct Hg as (kd & pos & m & E). cbn [a_hold]. unfold ext_of. case_decide as Ei; [injection Ei as ->; rewrite list_lookup_alter_eq, E; cbn; lia|]. rewrite list_lookup_alter_ne by congruence. lia.
Qed.

(** ** Positions *)

Definition iter_ok (it : JSMapIter) (x : a_iter) : Prop :=
  match x with
  | A_iterator kd pos _ => args it = [] /\ kind it = kd /\ pos = if it_done it then None else Some (it_cur it)
  | A_frame (Some (pos, l)) => it_done it = false /\ it_cur it = pos /\ pos <> 0%nat /\ args it = l
  | A_frame None => False
  end.

Definition view (s : JSMapState) (its : list a_iter) : Prop :=
  length (iters s) = length its /\ forall i it x, get_iter s i = Some it -> its !! i = Some x -> iter_ok it x.

Lemma view_step s s' its : same_iters s s' -> view s its -> view s' its.
Proof.
  intros [L S] [VL V]. split; [congruence|]. intros i it' x Hi Hx. destruct (S i it' Hi) as (it & Hi0 & E1 & E2 & E3 & E4). specialize (V i it x Hi0 Hx). destruct x as [kd pos n|[[pos l]|]]; cbn in *; [|naive_solver congruence|done]. destruct V as (V1 & V2 & V3). rewrite E1, E2, E3, E4. done.
Qed.

Lemma view_shape s its its' : (forall i, shape <$> its' !! i = shape <$> its !! i) -> length its' = length its -> view s its -> view s its'.
Proof.
  intros S L [VL V]. split; [congruence|]. intros i it x' Hi Hx'. specialize (S i). rewrite Hx' in S. destruct (its !! i) as [x|] eqn:Hx; [|done]. specialize (V i it x Hi Hx). cbn in S. injection S as S. destruct x as [kd pos n|[[pos l]|]], x' as [kd' pos' n'|[[pos' l']|]]; cbn in S; try done; injection S; intros; subst; done.
Qed.

Lemma view_hold n v s its : view s its -> view s (a_hold n v its).
Proof. apply view_shape; [apply hold_shape|apply hold_length]. Qed.

Lemma view_put s its i it x : view s its -> iter_ok it x -> (i < length its)%nat -> view (put_iter i it s) (<[i := x]> its).
Proof.
  intros [VL V] Hx Hi. split; [cbn; by rewrite !length_insert|]. intros j itj xj. unfold put_iter. rewrite get_iter_iters by lia. case_decide as E; [subst j; rewrite list_lookup_insert_eq by done; intros [= <-] [= <-]; done|rewrite list_lookup_insert_ne by done; apply V].
Qed.

Lemma view_drop s its i x : view s its -> (i < length its)%nat -> view (set_iters (<[i := None]> (iters s)) s) (<[i := x]> its).
Proof.
  intros [VL V] Hi. split; [cbn; by rewrite !length_insert|]. intros j itj xj. rewrite get_iter_iters by lia. case_decide as E; [done|rewrite list_lookup_insert_ne by done; apply V].
Qed.

Lemma view_app s its it x : view s its -> iter_ok it x -> view (set_iters (iters s ++ [Some it]) s) (its ++ [x]).
Proof.
  intros [VL V] Hx. split; [cbn; rewrite !length_app; cbn; lia|]. intros i it' x'. unfold get_iter. cbn [iters set_iters]. destruct (decide (i < length its)%nat); [rewrite !lookup_app_l by lia; apply V|]. rewrite !lookup_app_r by lia. rewrite VL. destruct (i - length its)%nat as [|m]; [|done]. cbn. by intros [= <-] [= <-].
Qed.

(** ** Values *)

Definition goods (its : list a_iter) (d : list Entry) : Prop := all_entries (good its) d /\ forall f x, its !! f = Some x -> Forall (good its) (frame_args x).

Lemma all_entries_impl (P Q : JSVal -> Prop) d : (forall v, P v -> Q v) -> all_entries P d -> all_entries Q d.
Proof. intros H Hd. eapply Forall_impl; [exact Hd|]. intros [[k v]|]; [|done]. intros [? ?]. auto. Qed.

Lemma all_entries_lookup (P : JSVal -> Prop) d j k v : all_entries P d -> d !! j = Some (Some (k, v)) -> P k /\ P v.
Proof. intros H Hj. by apply (Forall_lookup_1 _ _ _ _ H Hj). Qed.

Lemma all_entries_insert (P : JSVal -> Prop) d j e : all_entries P d -> (forall k v, e = Some (k, v) -> P k /\ P v) -> all_entries P (<[j := e]> d).
Proof. intros H He. apply Forall_insert; [done|]. destruct e as [[k v]|]; [by apply He|done]. Qed.

Lemma all_entries_snoc (P : JSVal -> Prop) d k v : all_entries P d -> P k -> P v -> all_entries P (d ++ [Some (k, v)]).
Proof. intros H Hk Hv. apply Forall_app. split; [done|]. by constructor. Qed.

Lemma goods_hold n v its d : goods its d -> goods (a_hold n v its) d.
Proof.
  intros [G1 G2]. split; [eapply all_entries_impl; [|exact G1]; intros u; apply good_hold|]. intros f x Hx. pose proof (hold_shape n v its f) as S. rewrite Hx in S. destruct (its !! f) as [y|] eqn:Hy; [|done]. cbn in S. injection S as S. assert (E : frame_args x = frame_args y) by (destruct x as [|[[]|]], y as [|[[]|]]; cbn in S; try done; by injection S as -> ->). rewrite E. eapply Forall_impl; [apply (G2 f y Hy)|]. intros u. apply good_hold.
Qed.

Lemma goods_data its d d' : goods its d -> all_entries (good its) d' -> goods its d'.
Proof. by intros [_ G2] G1. Qed.

(** Something moves; what it is stays. *)
Lemma goods_put its d i x y : goods its d -> its !! i = Some y -> (match y, x with A_iterator _ _ _, A_iterator _ _ _ | A_frame _, A_frame _ => True | _, _ => False end) -> Forall (good its) (frame_args x) -> goods (<[i := x]> its) d.
Proof.
  intros [G1 G2] Hi Hk Hx. assert (Hm : forall v, good its v -> good (<[i := x]> its) v).
  { intros v. apply good_mono. intros j kd pos n Hj. destruct (decide (j = i)) as [->|]; [|rewrite list_lookup_insert_ne by done; eauto]. rewrite list_lookup_insert_eq by (by eapply lookup_lt_Some). rewrite Hi in Hj. injection Hj as ->. destruct x; [eauto|done]. }
  split; [by eapply all_entries_impl|]. intros f z Hf. destruct (decide (f = i)) as [->|Hne]; [rewrite list_lookup_insert_eq in Hf by (by eapply lookup_lt_Some); injection Hf as <-|rewrite list_lookup_insert_ne in Hf by done; apply G2 in Hf]; by eapply Forall_impl.
Qed.

Lemma goods_app its d x : goods its d -> frame_args x = [] -> goods (its ++ [x]) d.
Proof.
  intros [G1 G2] Hx. assert (Hm : forall v, good its v -> good (its ++ [x]) v) by (intros v; apply good_mono; intros j kd pos n Hj; rewrite lookup_app_l by (by eapply lookup_lt_Some); eauto). split; [by eapply all_entries_impl|]. intros f z Hf. apply lookup_app_Some in Hf as [Hf|[_ Hf]]; [apply G2 in Hf; by eapply Forall_impl|]. apply list_lookup_singleton_Some in Hf as [_ <-]. by rewrite Hx.
Qed.

Record abs `{MapKey} (s : JSMapState) (a : a_map) : Prop := {
  ab_inv : Inv (ext_of (a_iters a)) (fun _ => 0) s (a_data a);
  ab_view : view s (a_iters a);
  ab_goods : goods (a_iters a) (a_data a) }.
