(* ===== verification/JSMapRefine.v ===== *)
(** * Maps: each operation *)
From S2P Require Import Prelude Chains JSMap JSMapProps JSMapTable JSMapOps JSMapDelete JSMapIters JSMapSpec JSMapUse.

Section refine.
Context {MK : MapKey} {ML : MapKeyLaws} (mem : nat -> bool) (is_set : bool).

Lemma view_frames s its : view s its -> frames_ok (ext_of its) s.
Proof.
  intros [VL V] i it Hi Ha. destruct (lookup_lt_is_Some_2 its i) as [x Hx]; [rewrite <- VL; by eapply get_iter_lt|]. specialize (V i it x Hi Hx). unfold ext_of. rewrite Hx. destruct x as [kd pos n|[[pos l]|]]; cbn in V; [by destruct V|done|done].
Qed.

Lemma abs_frames s a : abs s a -> frames_ok (ext_of (a_iters a)) s.
Proof. intros Hs. apply view_frames, (ab_view _ _ Hs). Qed.

Lemma abs_ext s a i : abs s a -> 0 <= ext_of (a_iters a) i.
Proof. intros [I _ _]. apply (w_ext _ _ _ (i_mem _ _ _ _ I)). Qed.

Lemma owns_good s a v : abs s a -> a_owns a v = true -> good (a_iters a) v /\ forall i, v = V_iterator i -> 0 < ext_of (a_iters a) i.
Proof.
  intros _ Ho. destruct v as [|n|i]; [done|done|]. cbn in Ho. destruct (a_iters a !! i) as [[kd pos n|]|] eqn:E; [|done|done]. split; [cbn; eauto|]. intros j [= <-]. unfold ext_of. rewrite E. lia.
Qed.

Lemma usable_good s a v : abs s a -> a_usable a v = true -> good (a_iters a) v /\ usable (ext_of (a_iters a)) s v.
Proof.
  intros Hs. unfold a_usable. intros [Ho|Hu]%orb_true_iff; [destruct (owns_good s a v Hs Ho) as [Hg He]; split; [done|]; destruct v; [done|done|]; left; by apply He|]. destruct v as [|n|i]; [done|done|]. apply andb_true_iff in Hu as [Hg Hu]. apply bool_decide_eq_true in Hu. split.
  - unfold is_iterator in Hg. cbn. destruct (a_iters a !! i) as [[kd pos n|]|]; [eauto|done|done].
  - right. apply elem_of_concat in Hu as (f & l & Hf & Hl). rewrite list_lookup_fmap in Hf. destruct (a_iters a !! f) as [x|] eqn:Hx; [|done]. injection Hf as <-. destruct x as [|[[pos l]|]]; [by apply elem_of_nil in Hl| |by apply elem_of_nil in Hl]. cbn in Hl. assert (He : ext_of (a_iters a) f = 1) by (unfold ext_of; by rewrite Hx). destruct (get_iter s f) as [it|] eqn:Hi; [|destruct (w_dead _ _ _ (i_mem _ _ _ _ (ab_inv _ _ Hs)) f Hi); lia]. exists f, it. split_and!; [lia|done|]. destruct (proj2 (ab_view _ _ Hs) f it _ Hi Hx) as (_ & _ & _ & ->). done.
Qed.

Lemma normalize_usable s ext k : usable ext s k -> usable ext s (map_normalize_key k).
Proof. intros Hu. destruct (normalize_value k) as [-> |Hn]; [done|]. destruct (map_normalize_key k); [done|done|by destruct (Hn i)]. Qed.

Lemma normalize_good its k : good its k -> good its (map_normalize_key k).
Proof. intros Hu. destruct (normalize_value k) as [-> |Hn]; [done|]. destruct (map_normalize_key k); [done|done|by destruct (Hn i)]. Qed.

(** ** Finding *)

Lemma find_from_spec l k : forall i, match find_from i l k with
  | Some (j, (k0, v0)) => (i <= j)%nat /\ l !! (j - i)%nat = Some (Some (k0, v0)) /\ js_same_value_zero k0 k = true
  | None => forall n k0 v0, l !! n = Some (Some (k0, v0)) -> js_same_value_zero k0 k = false end.
Proof.
  assert (Hstep : forall i x l, (match find_from (S i) l k with
    | Some (j, (k0, v0)) => (S i <= j)%nat /\ l !! (j - S i)%nat = Some (Some (k0, v0)) /\ js_same_value_zero k0 k = true
    | None => forall n k0 v0, l !! n = Some (Some (k0, v0)) -> js_same_value_zero k0 k = false end) -> (forall k0 v0, x = Some (k0, v0) -> js_same_value_zero k0 k = false) ->
    match find_from (S i) l k with
    | Some (j, (k0, v0)) => (i <= j)%nat /\ (x :: l) !! (j - i)%nat = Some (Some (k0, v0)) /\ js_same_value_zero k0 k = true
    | None => forall n k0 v0, (x :: l) !! n = Some (Some (k0, v0)) -> js_same_value_zero k0 k = false end).
  { intros i x l' H Hx. destruct (find_from (S i) l' k) as [[j [k0 v0]]|].
    - destruct H as (A & B & C). replace (j - i)%nat with (S (j - S i))%nat by lia. split_and!; [lia|done|done].
    - intros [|n] k0 v0 Hn; [injection Hn as ->; by eapply Hx|by eapply H]. }
  induction l as [|[[k0 v0]|] l IH]; intros i; cbn [find_from]; [done| |apply Hstep; [apply IH|done]]. destruct (js_same_value_zero k0 k) eqn:E; [rewrite Nat.sub_diag; done|]. apply Hstep; [apply IH|]. by intros k1 v1 [= <- <-].
Qed.

Lemma a_find_spec d k : match a_find d k with
  | Some (j, (k0, v0)) => d !! j = Some (Some (k0, v0)) /\ js_same_value_zero k0 k = true
  | None => forall n k0 v0, d !! n = Some (Some (k0, v0)) -> js_same_value_zero k0 k = false end.
Proof. unfold a_find. pose proof (find_from_spec d k 0) as H. destruct (find_from 0 d k) as [[j [k0 v0]]|]; [|done]. rewrite Nat.sub_0_r in H. apply H. Qed.

Lemma a_find_no_key ext lk s d k : Inv ext lk s d -> no_key s k -> a_find d k = None.
Proof.
  intros HI Hn. pose proof (a_find_spec d k) as H. destruct (a_find d k) as [[j [k0 v0]]|]; [|done]. destruct H as [Hd Hs]. rewrite <- (i_data _ _ _ _ HI) in Hd. apply data_record in Hd as (mr & Hm & Em & <- & _). by rewrite (Hn _ mr Hm Em) in Hs.
Qed.

Lemma no_key_a_find ext lk s d k : Inv ext lk s d -> a_find d k = None -> no_key s k.
Proof.
  intros HI Hf q mq Hq Eq. destruct q as [|j]; [destruct (w_null _ _ _ (i_mem _ _ _ _ HI)); congruence|]. pose proof (a_find_spec d k) as H. rewrite Hf in H. apply (record_data s j mq) in Hq; [|done]. rewrite (i_data _ _ _ _ HI) in Hq. by apply (H j _ _ Hq).
Qed.

Lemma a_find_has_key ext lk s d k p : Inv ext lk s d -> has_key s p k -> exists mr, p = S (pred p) /\ get_record s p = Some mr /\ a_find d k = Some (pred p, (key mr, value mr)) /\ d !! pred p = Some (Some (key mr, value mr)).
Proof.
  intros HI (mr & Hm & Em & Es). destruct p as [|j]; [destruct (w_null _ _ _ (i_mem _ _ _ _ HI)); congruence|]. exists mr. cbn [Nat.pred]. pose proof (record_data s j mr Hm Em) as Hd. rewrite (i_data _ _ _ _ HI) in Hd. split_and!; [done|done| |done].
  pose proof (a_find_spec d k) as H. destruct (a_find d k) as [[j' [k0 v0]]|]; [|by rewrite (H j _ _ Hd) in Es]. destruct H as [Hd' Hs']. pose proof Hd' as Hr. rewrite <- (i_data _ _ _ _ HI) in Hr. apply data_record in Hr as (mr' & Hm' & Em' & Ek & _). assert (S j' = S j) as [= ->]; [|congruence]. apply (t_keys _ _ (i_tab _ _ _ _ HI) _ _ mr' mr Hm' Hm Em' Em). rewrite Ek. eapply same_trans; [done|]. by apply same_sym.
Qed.

(** The record that the code finds is the entry that the list has. *)
Lemma find_inv ext lk s d k : Inv ext lk s d -> map_normalize_key k = k -> match a_find d k with
  | Some (j, (k0, v0)) => map_find_record s k = Some (S j) /\ d !! j = Some (Some (k0, v0)) /\ exists mr, get_record s (S j) = Some mr /\ key mr = k0 /\ value mr = v0
  | None => map_find_record s k = Some 0%nat /\ no_key s k end.
Proof.
  intros HI Hk. destruct (find_record_spec _ _ s k Hk (i_mem _ _ _ _ HI) (i_tab _ _ _ _ HI)) as (p & E & [[-> Hn]|[Hp Hh]]); [by rewrite (a_find_no_key _ _ _ _ _ HI Hn)|]. destruct (a_find_has_key _ _ _ _ _ _ HI Hh) as (mr & Ep & Hm & -> & Hd). rewrite Ep in E, Hm. split_and!; [done|done|]. by exists mr.
Qed.

(** ** Simulation *)

Definition simulates (s : JSMapState) (a : a_map) (o : map_op) : Prop :=
  exists s' r, map_step mem is_set s o = Some (s', r) /\ snd (a_step is_set (negb (is_exception r)) a o) = r /\
    ((forall n, mem n = true) -> r <> R_exception) /\ abs s' (fst (a_step is_set (negb (is_exception r)) a o)).

(** The references change as the lists say. *)
Lemma abs_hold s a v s' : abs s a -> good (a_iters a) v -> Inv (own v (ext_of (a_iters a))) (fun _ => 0) s' (a_data a) -> same_iters s s' -> abs s' (mkA (a_data a) (a_hold 1 v (a_iters a))).
Proof.
  intros Hs Hg HI HS. split; cbn [a_iters a_data].
  - eapply inv_ext_eq; [| |exact HI]; [|done]. intros i. rewrite ext_hold by done. unfold own. lia.
  - apply view_hold. exact (view_step _ _ _ HS (ab_view _ _ Hs)).
  - apply goods_hold, (ab_goods _ _ Hs).
Qed.

Lemma abs_data s a s' d' : abs s a -> Inv (ext_of (a_iters a)) (fun _ => 0) s' d' -> same_iters s s' -> all_entries (good (a_iters a)) d' -> abs s' (mkA d' (a_iters a)).
Proof. intros Hs HI HS Hd. split; cbn [a_iters a_data]; [done|exact (view_step _ _ _ HS (ab_view _ _ Hs))|eapply goods_data; [apply (ab_goods _ _ Hs)|done]]. Qed.

(** ** Entries *)

Lemma set_simulates s a k v : abs s a -> a_ok a (O_set k v) = true -> simulates s a (O_set k v).
Proof.
  intros Hs [Hk Hv]%andb_true_iff. apply (usable_good s) in Hk as [Gk Uk]; [|done]. apply (usable_good s) in Hv as [Gv Uv]; [|done]. unfold simulates. cbn [map_step a_step]. unfold js_map_set. apply normalize_good in Gk. apply normalize_usable in Uk. pose proof (normalize_idem k) as Nk. set (k' := map_normalize_key k) in *. assert (Gv' : good (a_iters a) (if is_set then V_undefined else v)) by (by case_match). assert (Uv' : usable (ext_of (a_iters a)) s (if is_set then V_undefined else v)) by (by case_match). set (v' := if is_set then V_undefined else v) in *. pose proof (ab_inv _ _ Hs) as HI. pose proof (proj1 (ab_goods _ _ Hs)) as HG. pose proof (find_inv _ _ _ _ k' HI Nk) as F. destruct (a_find (a_data a) k') as [[j [k0 v0]]|].
  - destruct F as (E & Hd & mr & Hm & <- & <-). rewrite E. cbn [mbind option_bind Nat.eqb]. rewrite Hm. cbn [mbind option_bind]. destruct (replace_value_inv _ _ _ _ j _ _ v' HI (abs_frames _ _ Hs) Hd Uv') as (s1 & s' & E1 & E2 & I' & S'). rewrite E1. cbn [mbind option_bind]. rewrite E2. cbn [mbind option_bind]. exists s', R_undefined. split_and!; [done|done|done|]. cbn. apply (abs_data s); [done|done|done|]. apply all_entries_insert; [done|]. intros ? ? [= <- <-]. split; [apply (all_entries_lookup _ _ _ _ _ HG Hd)|done].
  - destruct F as (E & Hn). rewrite E. cbn [mbind option_bind Nat.eqb]. destruct (add_record_inv mem _ _ _ _ k' Nk HI) as [[Ea Em]|(s1 & Ea & I1 & S1)]; [by eapply usable_alive; [apply (i_mem _ _ _ _ HI)|]|done|done| |]; rewrite Ea; cbn [mbind option_bind Nat.eqb].
    + exists (tick s), R_exception. split_and!; [done|done|intros Hm; by rewrite Hm in Em|]. cbn. destruct a as [d its]. apply (abs_data s (mkA d its)); [done|by apply inv_tick|by apply same_iters_refl|done].
    + destruct (store_value_inv _ _ _ _ (length (a_data a)) k' v' I1) as (s' & E2 & I' & S'); [by rewrite lookup_app_r, Nat.sub_diag by lia|eapply usable_alive; [apply (i_mem _ _ _ _ I1)|]; by eapply usable_step; [|apply (i_mem _ _ _ _ I1)|]|]. rewrite E2. cbn [mbind option_bind]. exists s', R_undefined. split_and!; [done|done|done|]. cbn. rewrite insert_app_r_alt, Nat.sub_diag in I' by lia. apply (abs_data s); [done|done|by eapply same_iters_trans|by apply all_entries_snoc].
Qed.

(** The value of an entry, for [get] and the like. *)
Lemma lookup_inv s a k j k0 v0 mr : abs s a -> a_find (a_data a) k = Some (j, (k0, v0)) -> get_record s (S j) = Some mr -> value mr = v0 -> exists s', JS_DupValue s v0 = Some s' /\ abs s' (mkA (a_data a) (a_hold 1 v0 (a_iters a))).
Proof.
  intros Hs Hf Hm <-. pose proof (ab_inv _ _ Hs) as HI. destruct (dup_inv _ _ _ _ (value mr) HI) as (s' & E & I' & S'); [by eapply (alive_record _ _ _ _ _ (i_mem _ _ _ _ HI))|]. exists s'. split; [done|]. eapply abs_hold; [done| |done|done]. pose proof (a_find_spec (a_data a) k) as F. rewrite Hf in F. destruct F as [Hd _]. apply (all_entries_lookup _ _ _ _ _ (proj1 (ab_goods _ _ Hs)) Hd).
Qed.

Lemma get_simulates s a k : abs s a -> simulates s a (O_get k).
Proof.
  intros Hs. unfold simulates. cbn [map_step a_step]. unfold js_map_get, a_lookup. pose proof (normalize_idem k) as Nk. pose proof (find_inv _ _ _ _ _ (ab_inv _ _ Hs) Nk) as F. destruct (a_find (a_data a) (map_normalize_key k)) as [[j [k0 v0]]|] eqn:Ef.
  - destruct F as (E & Hd & mr & Hm & _ & Ev). rewrite E. cbn [mbind option_bind Nat.eqb]. rewrite Hm. cbn [mbind option_bind]. destruct (lookup_inv s a _ j k0 v0 mr Hs Ef Hm Ev) as (s' & E' & A'). rewrite Ev, E'. cbn. exists s', (R_value v0). by split_and!.
  - destruct F as (E & _). rewrite E. cbn. exists s, (R_value V_undefined). by split_and!.
Qed.

Lemma computed_simulates s a k : abs s a -> simulates s a (O_computed k).
Proof.
  intros Hs. unfold simulates. cbn [map_step a_step]. unfold getOrInsert_find, a_lookup. pose proof (normalize_idem k) as Nk. pose proof (find_inv _ _ _ _ _ (ab_inv _ _ Hs) Nk) as F. destruct (a_find (a_data a) (map_normalize_key k)) as [[j [k0 v0]]|] eqn:Ef.
  - destruct F as (E & Hd & mr & Hm & _ & Ev). rewrite E. cbn [mbind option_bind Nat.eqb]. rewrite Hm. cbn [mbind option_bind]. destruct (lookup_inv s a _ j k0 v0 mr Hs Ef Hm Ev) as (s' & E' & A'). rewrite Ev, E'. cbn. exists s', (R_value v0). by split_and!.
  - destruct F as (E & _). rewrite E. cbn. exists s, R_compute. by split_and!.
Qed.

Lemma has_simulates s a k : abs s a -> simulates s a (O_has k).
Proof.
  intros Hs. unfold simulates. cbn [map_step a_step]. unfold js_map_has. pose proof (normalize_idem k) as Nk. pose proof (find_inv _ _ _ _ _ (ab_inv _ _ Hs) Nk) as F. destruct (a_find (a_data a) (map_normalize_key k)) as [[j [k0 v0]]|]; destruct F as (E & _); rewrite E; cbn; eexists s, _; by split_and!.
Qed.

Lemma delete_inv s a k : abs s a -> let '(d, b) := a_delete (a_data a) (map_normalize_key k) in exists s', map_delete_record s k = Some (s', b) /\ abs s' (mkA d (a_iters a)) /\ same_iters s s' /\ no_key s' (map_normalize_key k).
Proof.
  intros Hs. pose proof (ab_inv _ _ Hs) as HI. unfold a_delete. destruct (delete_record_inv _ _ _ _ k HI (abs_frames _ _ Hs)) as [[Hn E]|(s' & p & Hh & E & I' & S')].
  - rewrite (a_find_no_key _ _ _ _ _ HI Hn). exists s. split_and!; [done|by destruct a|by apply same_iters_refl|done].
  - destruct (a_find_has_key _ _ _ _ _ _ HI Hh) as (mr & Ep & Hm & -> & Hd). exists s'. split_and!; [done| |done|]; [apply (abs_data s); [done|done|done|]; apply all_entries_insert; [apply (ab_goods _ _ Hs)|done]|].
    intros q mq Hq Eq. destruct (js_same_value_zero (key mq) (map_normalize_key k)) eqn:Es; [|done]. exfalso. assert (Hk : has_key s' q (map_normalize_key k)) by (exists mq; done). destruct (a_find_has_key _ _ _ _ _ _ I' Hk) as (mr' & Eq' & Hm' & _ & Hd'). destruct (decide (pred q = pred p)) as [E0|Hne]; [rewrite E0, list_lookup_insert_eq in Hd' by (by eapply lookup_lt_Some); done|]. rewrite list_lookup_insert_ne in Hd' by done. rewrite <- (i_data _ _ _ _ HI) in Hd'. apply data_record in Hd' as (m0 & Hm0 & Em0 & Ek0 & _). rewrite <- Eq' in Hm0. destruct Hh as (mp & Hmp & Emp & Esp). assert (q = p); [|congruence]. apply (t_keys _ _ (i_tab _ _ _ _ HI) _ _ m0 mp Hm0 Hmp Em0 Emp). rewrite Ek0. rewrite Hq in Hm'. injection Hm' as <-. eapply same_trans; [done|]. by apply same_sym.
Qed.

Lemma delete_simulates s a k : abs s a -> simulates s a (O_delete k).
Proof.
  intros Hs. unfold simulates. cbn [map_step a_step]. unfold js_map_delete. pose proof (delete_inv s a k Hs) as D. destruct (a_delete (a_data a) (map_normalize_key k)) as [d b]. destruct D as (s' & E & A & _). rewrite E. cbn. exists s', (R_bool b). by split_and!.
Qed.

Lemma map_abs_size s a : abs s a -> record_count s = u32 (a_size (a_data a)).
Proof.
  intros Hs. destruct (ab_inv _ _ Hs) as [I1 I2 _ I4]. rewrite (t_count _ _ I2). f_equal. rewrite <- I4. destruct (w_null _ _ _ I1) as [H0 Hl]. unfold nlive, data_of, a_size. unfold get_record in H0. destruct (heap s) as [|[m|] l]; [cbn in Hl; lia|done|]. cbn [sumZ live_count tail]. clear. induction l as [|[m|] l IH]; [done| |exact IH]. cbn. unfold own_count. destruct (empty m); cbn in *; lia.
Qed.

Lemma size_simulates s a : abs s a -> simulates s a O_size.
Proof. intros Hs. unfold simulates. cbn. unfold js_map_get_size. rewrite (map_abs_size s a Hs). eexists s, _. by split_and!. Qed.

Lemma clear_simulates s a : abs s a -> a_ok a O_clear = true -> simulates s a O_clear.
Proof.
  intros Hs Hp. cbn in Hp. unfold simulates. cbn [map_step a_step]. assert (Hpl : all_entries plain (a_data a)).
  { apply Forall_forall. intros e He. rewrite forallb_forall in Hp. apply list_elem_of_In, Hp in He. destruct e as [[k v]|]; [|done]. by destruct k, v. }
  destruct (clear_inv _ _ _ _ (ab_inv _ _ Hs) (abs_frames _ _ Hs) Hpl) as (s' & E & I' & S'). rewrite E. cbn [mbind option_bind]. exists s', R_undefined. split_and!; [done|done|done|]. apply (abs_data s); [done|done|done|]. apply Forall_fmap, Forall_forall. done.
Qed.

(** ** References *)

Lemma keep_simulates s a v : abs s a -> a_ok a (O_keep v) = true -> simulates s a (O_keep v).
Proof.
  intros Hs Hv. cbn in Hv. apply (usable_good s) in Hv as [Gv Uv]; [|done]. unfold simulates. cbn [map_step a_step]. destruct (dup_inv _ _ _ _ v (ab_inv _ _ Hs)) as (s' & E & I' & S'); [by eapply usable_alive; [apply (i_mem _ _ _ _ (ab_inv _ _ Hs))|]|]. rewrite E. cbn [mbind option_bind]. exists s', R_undefined. split_and!; [done|done|done|]. by apply (abs_hold s).
Qed.

Lemma give_inv s a v : abs s a -> a_owns a v = true -> exists s', JS_FreeValue s v = Some s' /\ abs s' (mkA (a_data a) (a_hold (-1) v (a_iters a))).
Proof.
  intros Hs Ho. destruct (owns_good s a v Hs Ho) as [Gv He]. set (its := a_hold (-1) v (a_iters a)). assert (Hown : forall i, ext_of (a_iters a) i = own v (ext_of its) i) by (intros i; unfold own, its; rewrite ext_hold by done; lia). assert (Hpos : forall i, 0 <= ext_of its i) by (intros i; unfold its; rewrite ext_hold by done; pose proof (abs_ext s a i Hs); unfold is_it; case_decide; [specialize (He i ltac:(done))|]; lia).
  destruct (map_free_inv (ext_of its) (fun _ => 0) s (a_data a) v) as (s' & E & I' & S'); [eapply inv_ext_eq; [| |apply (ab_inv _ _ Hs)]; [|done]; intros i; by rewrite Hown|done|apply view_frames, view_hold, (ab_view _ _ Hs)|]. exists s'. split; [done|]. split; cbn [a_iters a_data]; [done|exact (view_step _ _ _ S' (view_hold _ _ _ _ (ab_view _ _ Hs)))|apply goods_hold, (ab_goods _ _ Hs)].
Qed.

Lemma drop_simulates s a v : abs s a -> a_ok a (O_drop v) = true -> simulates s a (O_drop v).
Proof.
  intros Hs Ho. cbn in Ho. unfold simulates. cbn [map_step a_step]. destruct (give_inv s a v Hs Ho) as (s' & E & A'). rewrite E. cbn [mbind option_bind]. exists s', R_undefined. by split_and!.
Qed.

(** ** Inserting a value that the caller owns *)

Lemma hold_cancel v its : a_hold (-1) v (a_hold 1 v its) = its.
Proof.
  destruct v as [|n|i]; [done|done|]. cbn. apply list_eq. intros j. destruct (decide (j = i)) as [->|]; [|by rewrite !list_lookup_alter_ne]. rewrite !list_lookup_alter_eq. destruct (its !! i) as [[kd pos n|]|]; [|done|done]. cbn. do 2 f_equal. lia.
Qed.

Lemma insert_inv s a k v : abs s a -> map_normalize_key k = k -> no_key s k -> good (a_iters a) k -> usable (ext_of (a_iters a)) s k -> a_owns a v = true ->
  (exists s', insert_value mem s k v = Some (s', Some v) /\ abs s' (mkA (a_data a ++ [Some (k, v)]) (a_iters a))) \/
  (exists s', insert_value mem s k v = Some (s', None) /\ abs s' (mkA (a_data a) (a_hold (-1) v (a_iters a))) /\ mem (clock s) = false).
Proof.
  intros Hs Nk Hn Gk Uk Ho. pose proof (ab_inv _ _ Hs) as HI. destruct (owns_good s a v Hs Ho) as [Gv He]. unfold insert_value. destruct (add_record_inv mem _ _ _ _ k Nk HI) as [[Ea Em]|(s1 & Ea & I1 & S1)]; [by eapply usable_alive; [apply (i_mem _ _ _ _ HI)|]|done|done| |]; rewrite Ea; cbn [mbind option_bind Nat.eqb].
  - right. assert (At : abs (tick s) a) by (destruct a as [d its]; apply (abs_data s (mkA d its)); [done|by apply inv_tick|by apply same_iters_refl|apply (ab_goods _ _ Hs)]). destruct (give_inv _ a v At Ho) as (s' & E & A'). rewrite E. cbn [mbind option_bind]. exists s'. by split_and!.
  - left. set (j := length (a_data a)) in *. assert (Hd : (a_data a ++ [Some (k, V_undefined)]) !! j = Some (Some (k, V_undefined))) by (unfold j; by rewrite lookup_app_r, Nat.sub_diag by lia). pose proof Hd as Hd1. rewrite <- (i_data _ _ _ _ I1) in Hd1. apply data_record in Hd1 as (mr & Hm & Em & Ek & Ew). rewrite Hm. cbn [mbind option_bind].
    assert (I2 : Inv (fun i => ext_of (a_iters a) i - is_it i v) (fun _ => 0) (put_record (S j) (with_value mr v) s1) (<[j := Some (k, v)]> (a_data a ++ [Some (k, V_undefined)]))).
    { eapply put_value_inv; [done|done|done| |]; intros i; [pose proof (abs_ext s a i Hs); unfold is_it; case_decide; [specialize (He i ltac:(done))|]; lia|]. assert (Hu : is_it i V_undefined = 0) by (unfold is_it; by rewrite decide_False). lia. }
    unfold j in I2 at 2. rewrite insert_app_r_alt, Nat.sub_diag in I2 by lia. cbn in I2. set (s2 := put_record (S j) (with_value mr v) s1) in *. assert (Hm2 : get_record s2 (S j) = Some (with_value mr v)) by (unfold s2, put_record; rewrite get_record_heap by (by eapply get_record_lt); by rewrite decide_True).
    destruct (dup_inv _ _ _ _ v I2) as (s' & E' & I' & S'); [apply (alive_record _ _ _ _ _ (i_mem _ _ _ _ I2) Hm2)|]. rewrite E'. cbn [mbind option_bind]. exists s'. split; [done|]. apply (abs_data s); [done| |eapply same_iters_trans; [exact S1|]; eapply same_iters_trans; [by apply (same_iters_refl s1 s2)|done]|apply all_entries_snoc; [apply (ab_goods _ _ Hs)|done|done]].
    eapply inv_ext_eq; [| |exact I']; [|done]. intros i. unfold own. lia.
Qed.

Lemma getOrInsert_simulates s a k v : abs s a -> a_ok a (O_getOrInsert k v) = true -> simulates s a (O_getOrInsert k v).
Proof.
  intros Hs [Hk Hv]%andb_true_iff. apply (usable_good s) in Hk as [Gk Uk]; [|done]. apply (usable_good s) in Hv as [Gv Uv]; [|done]. apply normalize_good in Gk. apply normalize_usable in Uk. unfold simulates. cbn [map_step a_step]. unfold js_map_getOrInsert. pose proof (normalize_idem k) as Nk. set (k' := map_normalize_key k) in *. pose proof (ab_inv _ _ Hs) as HI. pose proof (find_inv _ _ _ _ _ HI Nk) as F. destruct (a_find (a_data a) k') as [[j [k0 v0]]|] eqn:Ef.
  - destruct F as (E & Hd & mr & Hm & _ & Ev). rewrite E. cbn [mbind option_bind Nat.eqb]. rewrite Hm. cbn [mbind option_bind]. destruct (lookup_inv s a _ j k0 v0 mr Hs Ef Hm Ev) as (s' & E' & A'). rewrite Ev, E'. cbn. exists s', (R_value v0). by split_and!.
  - destruct F as (E & _). rewrite E. cbn [mbind option_bind Nat.eqb]. destruct (dup_inv _ _ _ _ v HI) as (s1 & E1 & I1 & S1); [by eapply usable_alive; [apply (i_mem _ _ _ _ HI)|]|]. rewrite E1. cbn [mbind option_bind]. pose proof (abs_hold s a v s1 Hs Gv I1 S1) as A1. set (a1 := mkA (a_data a) (a_hold 1 v (a_iters a))) in *.
    assert (Ho : a_owns a1 v = true) by (destruct v as [|n|i]; [done|done|]; destruct Gv as (kd & pos & n & Ei); cbn; rewrite list_lookup_alter_eq, Ei; cbn; pose proof (abs_ext s a i Hs) as He; unfold ext_of in He; rewrite Ei in He; lia).
    destruct (insert_inv s1 a1 k' v A1 Nk) as [(s' & E' & A')|(s' & E' & A' & Em)]; [eapply no_key_a_find; [exact I1|done]|by apply good_hold| |done| |].
    + eapply usable_mono; [|exact S1|apply (i_mem _ _ _ _ (ab_inv _ _ A1))|exact Uk]. intros i. cbn [a1 a_iters]. rewrite ext_hold by done. pose proof (is_it_nonneg i v). lia.
    + rewrite E'. cbn. exists s', (R_value v). by split_and!.
    + rewrite E'. cbn. exists s', R_exception. split_and!; [done|done|intros Hm; by rewrite Hm in Em|]. cbn. cbn [a1 a_iters a_data] in A'. rewrite hold_cancel in A'. by destruct a.
Qed.

(** The code deletes the entry of the key, if there is one by now, and adds a
    new one at the end. *)
Lemma computed_return_inv s a k v : abs s a -> a_usable a k = true -> a_owns a v = true -> let d := fst (a_delete (a_data a) (map_normalize_key k)) in
  (exists s', getOrInsert_return mem s k v = Some (s', Some v) /\ abs s' (mkA (d ++ [Some (map_normalize_key k, v)]) (a_iters a))) \/
  (exists s' n, getOrInsert_return mem s k v = Some (s', None) /\ abs s' (mkA d (a_hold (-1) v (a_iters a))) /\ mem n = false).
Proof.
  intros Hs Hk Ho. apply (usable_good s) in Hk as [Gk Uk]; [|done]. apply normalize_good in Gk. apply normalize_usable in Uk. unfold getOrInsert_return. pose proof (delete_inv s a (map_normalize_key k) Hs) as D. rewrite (normalize_idem k) in D. destruct (a_delete (a_data a) (map_normalize_key k)) as [d b]. destruct D as (s1 & E1 & A1 & S1 & N1). rewrite E1. cbn [mbind option_bind fst].
  destruct (insert_inv s1 (mkA d (a_iters a)) (map_normalize_key k) v A1 (normalize_idem k) N1 Gk) as [(s' & E' & A')|(s' & E' & A' & Em)]; [by eapply usable_step; [|apply (i_mem _ _ _ _ (ab_inv _ _ A1))|]|done| |]; rewrite E'; [left; by exists s'|right; by exists s', (clock s1)].
Qed.

Lemma computed_return_simulates s a k v : abs s a -> a_ok a (O_computed_return k v) = true -> simulates s a (O_computed_return k v).
Proof.
  intros Hs [[Hk Ho]%andb_true_iff Hf]%andb_true_iff. unfold simulates. cbn [map_step a_step]. pose proof (computed_return_inv s a k v Hs Hk Ho) as C. unfold a_delete in C. destruct (a_find (a_data a) (map_normalize_key k)); [done|]. cbn [fst] in C. destruct C as [(s' & E' & A')|(s' & n & E' & A' & Em)]; rewrite E'; cbn.
  - exists s', (R_value v). by split_and!.
  - exists s', R_exception. split_and!; [done|done|intros Hm; by rewrite Hm in Em|done].
Qed.

(** ** Iterators *)

Lemma new_iter_inv ext s d kd : Inv ext (fun _ => 0) s d -> Inv (fun i => if decide (i = length (iters s)) then 1 else ext i) (fun _ => 0) (set_iters (iters s ++ [Some (mkIter 1 0 false kd [])]) s) d.
Proof.
  intros HI. eapply inv_iters; [exact HI|]. pose proof (i_mem _ _ _ _ HI) as Hw. set (n := length (iters s)). assert (Hn : get_iter s n = None) by (unfold get_iter, n; by rewrite lookup_ge_None_2). destruct (w_dead _ _ _ Hw n Hn) as [He Hh].
  assert (Hg : forall i, get_iter (set_iters (iters s ++ [Some (mkIter 1 0 false kd [])]) s) i = if decide (i = n) then Some (mkIter 1 0 false kd []) else get_iter s i).
  { intros i. unfold get_iter. cbn [iters set_iters]. case_decide as E; [subst i; unfold n; by rewrite lookup_app_r, Nat.sub_diag by lia|]. unfold n in E. destruct (decide (i < length (iters s))%nat); [by rewrite lookup_app_l|]. rewrite !lookup_ge_None_2; [done|lia|rewrite length_app; cbn; lia]. }
  assert (Hheld : forall i, held (set_iters (iters s ++ [Some (mkIter 1 0 false kd [])]) s) i = held s i) by (intros i; unfold held; cbn [heap iters set_iters]; rewrite sumZ_app; cbn; lia). assert (Hlocks : forall p, p <> 0%nat -> locks (set_iters (iters s ++ [Some (mkIter 1 0 false kd [])]) s) p = locks s p) by (intros p Hp; unfold locks; cbn [iters set_iters]; rewrite sumZ_app; cbn; rewrite decide_False by congruence; lia).
  destruct Hw as [W1 W2 W3 W4 W5 W6 W7 W8 W9 W10]. split; try done.
  - intros p mr Hp. change (get_record s p = Some mr) in Hp. rewrite Hlocks by (intros ->; destruct W3; congruence). by apply W4.
  - intros i it. rewrite Hg. case_decide; [intros [= <-]; done|apply W6].
  - intros i it. rewrite Hg, Hheld. case_decide as E; [intros [= <-]; subst i; cbn; lia|apply W7].
  - intros i. rewrite Hg, Hheld. case_decide; [done|apply W8].
  - intros i. case_decide; [lia|apply W9].
Qed.

Lemma iterator_simulates s a kd : abs s a -> simulates s a (O_iterator kd).
Proof.
  intros Hs. unfold simulates. cbn [map_step a_step]. unfold js_create_map_iterator. destruct (ab_view _ _ Hs) as [VL V]. destruct (mem (clock s)) eqn:Em.
  - cbn [mbind option_bind]. eexists _, (R_iterator (length (iters s))). cbn. split_and!; [done|by rewrite VL|done|]. split; cbn [a_iters a_data].
    + apply inv_tick. eapply inv_ext_eq; [| |apply (new_iter_inv _ _ _ kd (ab_inv _ _ Hs))]; [|done]. intros i. unfold ext_of. case_decide as E; [subst i; by rewrite lookup_app_r, VL, Nat.sub_diag by lia|]. destruct (decide (i < length (a_iters a))%nat); [by rewrite lookup_app_l|]. rewrite !lookup_ge_None_2; [done|lia|rewrite length_app; cbn; lia].
    + eapply view_step; [by apply same_iters_refl|]. apply view_app; [done|done].
    + apply goods_app; [apply (ab_goods _ _ Hs)|done].
  - exists (tick s), R_exception. split_and!; [done|done|intros Hm; by rewrite Hm in Em|]. cbn. destruct a as [d its]. apply (abs_data s (mkA d its)); [done|apply inv_tick, (ab_inv _ _ Hs)|by apply same_iters_refl|apply (ab_goods _ _ Hs)].
Qed.
End refine.
