(* ===== verification/JSMapMoves.v ===== *)
(** * Maps: iterators and [forEach] against the lists *)
From S2P Require Import Prelude Chains JSMap JSMapProps JSMapTable JSMapOps JSMapDelete JSMapIters JSMapSpec JSMapUse JSMapRefine.

Section moves.
Context {MK : MapKey} {ML : MapKeyLaws} (mem : nat -> bool) (is_set : bool).

Lemma skip_empty_iters fuel x s : forall el, skip_empty fuel (set_iters x s) el = skip_empty fuel s el.
Proof. induction fuel as [|fuel IH]; intros el; [done|]. cbn [skip_empty]. destruct (el =? 0)%nat; [done|]. change (get_record (set_iters x s) el) with (get_record s el). destruct (get_record s el) as [mr|]; [|done]. cbn [mbind option_bind]. destruct (empty mr); [|done]. change (list_next (set_iters x s) el) with (list_next s el). destruct (list_next s el); [|done]. apply IH. Qed.

Lemma put_iter_id i it s : get_iter s i = Some it -> put_iter i it s = s.
Proof. intros Hi. apply get_iter_lookup in Hi. unfold put_iter, set_iters. rewrite list_insert_id by done. by destruct s. Qed.

Lemma put_iter_twice i it it' s : put_iter i it (put_iter i it' s) = put_iter i it s.
Proof. unfold put_iter, set_iters. cbn. by rewrite list_insert_insert_eq. Qed.

Lemma put_iter_get i it it' s : get_iter s i = Some it' -> get_iter (put_iter i it s) i = Some it.
Proof. intros Hi. unfold put_iter. rewrite get_iter_iters by (by eapply get_iter_lt). by rewrite decide_True. Qed.

(** What the next entry is, in the code. *)
Lemma entry_inv ext lk s d pos j k v : Inv ext lk s d -> next_entry d pos = Some (j, (k, v)) -> d !! j = Some (Some (k, v)) /\ exists mr, get_record s (S j) = Some mr /\ key mr = k /\ value mr = v.
Proof.
  intros HI Hn. pose proof (next_entry_spec d pos) as H. rewrite Hn in H. destruct H as (_ & Hd & _). split; [done|]. rewrite <- (i_data _ _ _ _ HI) in Hd. apply data_record in Hd as (mr & Hm & _ & Ek & Ev). by exists mr.
Qed.

Lemma hold_all_facts l : forall its d s, Forall (good its) l -> (view s its -> view s (a_hold_all l its)) /\ (goods its d -> goods (a_hold_all l its) d) /\ (forall i, ext_of (a_hold_all l its) i = own_all l (ext_of its) i).
Proof.
  induction l as [|v l IH]; intros its d s Hl; [split_and!; [done|done|]; intros i; unfold own_all; cbn; lia|]. apply Forall_cons in Hl as [Hv Hl]. unfold a_hold_all. cbn [foldl]. destruct (IH (a_hold 1 v its) d s) as (A & B & C); [eapply Forall_impl; [exact Hl|]; intros u; apply good_hold|]. split_and!; [intros V; by apply A, view_hold|intros G; by apply B, goods_hold|]. intros i. rewrite own_all_cons. etransitivity; [apply C|]. unfold own_all, own. rewrite ext_hold by done. lia.
Qed.

Lemma dup_values_abs s a p mr l : abs s a -> get_record s p = Some mr -> (forall v, v ∈ l -> v = key mr \/ v = value mr) -> Forall (good (a_iters a)) l -> exists s', dup_values s l = Some s' /\ abs s' (mkA (a_data a) (a_hold_all l (a_iters a))).
Proof.
  intros Hs Hp Hl Hg. destruct (dup_values_inv _ p mr l _ _ _ (ab_inv _ _ Hs) Hp Hl) as (s' & E & I' & S' & _). destruct (hold_all_facts l (a_iters a) (a_data a) s' Hg) as (A & B & C). exists s'. split; [done|]. split; cbn [a_iters a_data].
  - eapply inv_ext_eq; [| |exact I']; [|done]. done.
  - apply A. exact (view_step _ _ _ S' (ab_view _ _ Hs)).
  - apply B, (ab_goods _ _ Hs).
Qed.

(** ** Iterators *)

(** Where an iterator goes on. *)
Lemma goes_on s d ext i it : Inv ext (fun _ => 0) s d -> get_iter s i = Some it -> it_done it = false ->
  exists s1 l0 l, (if (it_cur it =? 0)%nat then Some (s, list_first s) else el ← list_next s (it_cur it); s ← map_decref_record s (it_cur it); Some (s, el)) = Some (s1, default 0%nat (head l)) /\
    Inv ext (fun _ => 0) (put_iter i (park it) s1) d /\ iters s1 = iters s /\ records s1 = l0 ++ l /\ (forall q, q ∈ l0 -> (q <= it_cur it)%nat) /\ (forall q, q ∈ l -> (it_cur it < q)%nat).
Proof.
  intros HI Hi Hd. destruct (Nat.eqb_spec (it_cur it) 0) as [E|E].
  - exists s, [], (records s). split_and!; [done| |done|done|intros q Hq; by apply elem_of_nil in Hq|]; [rewrite put_iter_id; [done|]; rewrite Hi; f_equal; destruct it; cbn in *; subst; done|]. intros q Hq. assert (q <> 0%nat) by (intros ->; by eapply record_nonzero; [apply (i_mem _ _ _ _ HI)|]). lia.
  - destruct (advance_inv _ _ _ _ _ HI Hi E) as (s1 & l0 & l & E1 & E2 & I1 & Ei & R). exists s1, l0, l. rewrite E1. cbn [mbind option_bind]. rewrite E2. cbn [mbind option_bind]. split_and!; [done|done|done|apply R..].
Qed.

Lemma result_simulates s a kd k v p mr : abs s a -> get_record s p = Some mr -> k = key mr -> v = key mr \/ v = value mr -> good (a_iters a) k -> good (a_iters a) v ->
  exists s' r, iterator_result mem s kd k v = Some (s', r) /\ ((forall n, mem n = true) -> r <> N_exception) /\ r <> N_done /\
    match r with N_exception => abs s' a | _ => r = N_values (kind_values kd k v) /\ abs s' (mkA (a_data a) (a_hold_all (kind_values kd k v) (a_iters a))) end.
Proof.
  intros Hs Hp Hk Hv Gk Gv. assert (Hdup : forall s0, abs s0 a -> get_record s0 p = Some mr -> exists s', dup_values s0 (kind_values kd k v) = Some s' /\ abs s' (mkA (a_data a) (a_hold_all (kind_values kd k v) (a_iters a)))).
  { intros s0 H0 Hp0. apply (dup_values_abs s0 a p mr); [done|done| |]; [intros u Hu; destruct kd; cbn in Hu; set_solver|destruct kd; repeat constructor; done]. }
  unfold iterator_result. destruct kd; [destruct (Hdup s Hs Hp) as (s' & E & A)|destruct (Hdup s Hs Hp) as (s' & E & A)|]; cbn [kind_values] in *.
  - rewrite E. cbn [mbind option_bind]. eexists s', _. split_and!; done.
  - rewrite E. cbn [mbind option_bind]. eexists s', _. split_and!; done.
  - assert (At : abs (tick s) a) by (destruct a as [d its]; apply (abs_data s (mkA d its)); [done|apply inv_tick, (ab_inv _ _ Hs)|by apply same_iters_refl|apply (ab_goods _ _ Hs)]). destruct (mem (clock s)) eqn:Em.
    + destruct (Hdup (tick s) At Hp) as (s' & E & A). rewrite E. cbn [mbind option_bind]. eexists s', _. split_and!; done.
    + exists (tick s), N_exception. split_and!; [done|intros Hm; by rewrite Hm in Em|done|done].
Qed.

Lemma next_simulates s a i : abs s a -> a_ok a (O_next i) = true -> simulates mem is_set s a (O_next i).
Proof.
  intros Hs Ho. cbn [a_ok a_owns] in Ho. destruct (a_iters a !! i) as [[kd pos n|]|] eqn:Hx; [|done|done]. pose proof (ab_inv _ _ Hs) as HI. unfold simulates. cbn [map_step a_step]. unfold js_map_iterator_next.
  assert (He : ext_of (a_iters a) i = n) by (unfold ext_of; by rewrite Hx). destruct (get_iter s i) as [it|] eqn:Hi; [|destruct (w_dead _ _ _ (i_mem _ _ _ _ HI) i Hi); lia]. cbn [mbind option_bind]. destruct (proj2 (ab_view _ _ Hs) i it _ Hi Hx) as (Va & Vk & Vp). rewrite Hx. destruct (it_done it) eqn:Hd; [subst pos; cbn; exists s, (R_next N_done); by split_and!|]. subst pos.
  destruct (goes_on s (a_data a) _ i it HI Hi Hd) as (s1 & l0 & l & E1 & I1 & Ei & Er & B1 & B2). rewrite E1. cbn [mbind option_bind]. assert (Hi1 : get_iter s1 i = Some it) by (unfold get_iter; rewrite Ei; exact Hi). pose proof (map_scan_inv _ _ _ _ l0 l _ I1 Er B1 B2) as Sc. unfold put_iter in Sc. rewrite skip_empty_iters in Sc. change (heap (set_iters _ s1)) with (heap s1) in Sc. rewrite Sc. cbn [mbind option_bind]. clear Sc.
  set (g := put_iter i (park it) s1) in *. assert (Hg : get_iter g i = Some (park it)) by (by eapply put_iter_get). assert (Hlt : (i < length (a_iters a))%nat) by (by eapply lookup_lt_Some). assert (V1 : view s1 (a_iters a)) by (apply (view_step s); [by apply same_iters_refl|apply (ab_view _ _ Hs)]). assert (Hext : forall x, match x with A_iterator _ _ m => m = n | _ => False end -> forall q, ext_of (<[i := x]> (a_iters a)) q = ext_of (a_iters a) q) by (intros x Hm q; unfold ext_of; destruct (decide (q = i)) as [->|]; [rewrite list_lookup_insert_eq, Hx by done; by destruct x|by rewrite list_lookup_insert_ne]).
  assert (Gx : forall x, match x with A_iterator _ _ _ => True | _ => False end -> goods (<[i := x]> (a_iters a)) (a_data a)) by (intros x Hm; eapply goods_put; [apply (ab_goods _ _ Hs)|exact Hx|by destruct x|by destruct x]).
  destruct (next_entry (a_data a) (it_cur it)) as [[j [k v]]|] eqn:En.
  - destruct (entry_inv _ _ _ _ _ _ _ _ I1 En) as (Hdj & mr & Hm & Ek & Ev). change (get_record s1 (S j) = Some mr) in Hm. cbn [Nat.eqb]. rewrite Hm. cbn [mbind option_bind]. rewrite Ek, Ev, Vk.
    set (s3 := put_iter i _ (put_record _ _ s1)). set (x3 := A_iterator kd (Some (S j)) n). assert (A3 : abs s3 (mkA (a_data a) (<[i := x3]> (a_iters a)))).
    { split; cbn [a_iters a_data]; [|apply view_put; [apply (view_step s1); [by apply same_iters_refl|exact V1]|done|done]|by apply Gx]. eapply inv_ext_eq; [intros q; by apply Hext|done|]. assert (E3 : s3 = put_iter i (mkIter (it_refs (park it)) (S j) false kd []) (put_record (S j) (with_ref_count mr (ref_count mr + 1)) g)) by (unfold s3, g, put_iter, put_record, set_iters, set_heap; cbn; rewrite list_insert_insert_eq, Va; done). rewrite E3.
      eapply stand_inv; [|intros q; apply (abs_ext s a q Hs)| |exact Hg|done|exact Va|by intros ?%elem_of_nil]; [eapply inv_ext_eq; [| |exact (lock_inv _ _ g _ (S j) mr I1 Hm)]; [|done]; intros q; unfold own_all; cbn; lia|]. change (S j ∈ records g). apply (w_records _ _ _ (i_mem _ _ _ _ I1)). by exists mr. }
    assert (Gkv : good (<[i := x3]> (a_iters a)) k /\ good (<[i := x3]> (a_iters a)) v) by (eapply all_entries_lookup; [exact (proj1 (Gx x3 I))|exact Hdj]). assert (Hm3 : get_record s3 (S j) = Some (with_ref_count mr (ref_count mr + 1))) by (change (get_record (put_record (S j) (with_ref_count mr (ref_count mr + 1)) s1) (S j) = Some (with_ref_count mr (ref_count mr + 1))); unfold put_record; rewrite get_record_heap by (by eapply get_record_lt); by rewrite decide_True).
    destruct (result_simulates s3 _ kd k (if is_set then k else v) (S j) _ A3 Hm3) as (s' & r & E' & Hmr & Hnd & Hr); [done|cbn; destruct is_set; [left|right]; done|apply Gkv|cbn [a_iters]; destruct is_set; apply Gkv|]. rewrite E'. cbn [mbind option_bind]. destruct r as [|l'|]; [done| |].
    + destruct Hr as [E0 A']. injection E0 as ->. eexists s', _. split_and!; [reflexivity|done|done|done].
    + exists s', R_exception. split_and!; [done|done|intros M; by specialize (Hmr M)|done].
  - cbn [Nat.eqb]. exists (put_iter i (mkIter (it_refs it) 0 true (kind it) (args it)) s1), (R_next N_done). split_and!; [done|done|done|]. cbn. split; cbn [a_iters a_data]; [|apply view_put; [done|by rewrite Va, Vk|done]|by apply Gx]. eapply inv_ext_eq; [intros q; by apply Hext|done|]. rewrite <- (put_iter_twice _ _ (park it)). fold g. eapply inv_iters; [exact I1|]. pose proof (i_mem _ _ _ _ I1) as Hw. destruct (w_iter _ _ _ Hw i _ Hg) as [Hr Hr0]. eapply wf_put_iter; [exact Hw|exact Hg|done|done|apply (w_ext _ _ _ Hw)|done|cbn [it_refs args park] in *; lia|exact Hr0|done|done].
Qed.

(** ** [forEach]

    A call of [forEach] is something that the values of the map do not refer
    to. *)

Lemma sumZ_zero {A} (f : A -> Z) l : (forall x, x ∈ l -> f x = 0) -> sumZ f l = 0.
Proof. induction l as [|x l IH]; intros H; cbn; [done|]. rewrite (H x) by (by left). rewrite IH; [done|]. intros y Hy. apply H. by right. Qed.

Definition unnamed (f : nat) (s : JSMapState) (d : list Entry) : Prop := all_entries (fun v => v <> V_iterator f) d /\ forall i it, get_iter s i = Some it -> V_iterator f ∉ args it.

Lemma unnamed_step f s s' d : same_iters s s' -> unnamed f s d -> unnamed f s' d.
Proof. intros [_ S] [U1 U2]. split; [done|]. intros i it' Hi. destruct (S i it' Hi) as (it & Hi' & _ & _ & _ & ->). by eapply U2. Qed.

Lemma frame_refs ext lk s d f it : Inv ext lk s d -> unnamed f s d -> get_iter s f = Some it -> it_refs it = ext f.
Proof.
  intros HI [U1 U2] Hf. destruct (w_iter _ _ _ (i_mem _ _ _ _ HI) f it Hf) as [-> _]. assert (held s f = 0); [|lia]. unfold held. rewrite !sumZ_zero; [done| |].
  - intros [it'|] Hin; [|done]. apply list_elem_of_lookup in Hin as [i Hi]. cbn. apply countZ_zero, (U2 i). by apply get_iter_lookup.
  - intros [mr|] Hin; [|done]. apply list_elem_of_lookup in Hin as [p Hp]. apply get_record_lookup in Hp. cbn. unfold is_it. assert (Hkv : key mr <> V_iterator f /\ value mr <> V_iterator f); [|rewrite !decide_False by apply Hkv; done]. destruct (empty mr) eqn:Em; [destruct (w_zombie _ _ _ (i_mem _ _ _ _ HI) p mr Hp Em) as [-> ->]; done|]. destruct p as [|j]; [destruct (w_null _ _ _ (i_mem _ _ _ _ HI)); congruence|]. pose proof (record_data s j mr Hp Em) as Hd. rewrite (i_data _ _ _ _ HI) in Hd. exact (all_entries_lookup _ _ _ _ _ U1 Hd).
Qed.

Lemma goods_unnamed its d f r s : goods its d -> its !! f = Some (A_frame r) -> (forall i it, get_iter s i = Some it -> args it = [] \/ exists x, its !! i = Some x /\ args it = frame_args x) -> unnamed f s d.
Proof.
  intros [G1 G2] Hf Hs. assert (Hn : forall v, good its v -> v <> V_iterator f) by (intros v Hv ->; destruct Hv as (? & ? & ? & Hv); congruence). split; [by eapply all_entries_impl|]. intros i it Hi. destruct (Hs i it Hi) as [-> |(x & Hx & ->)]; [by intros ?%elem_of_nil|]. intros Hin. apply (proj1 (Forall_forall _ _) (G2 i x Hx)) in Hin. by apply (Hn (V_iterator f)).
Qed.

Lemma view_args s its i it : view s its -> get_iter s i = Some it -> exists x, its !! i = Some x /\ args it = frame_args x.
Proof.
  intros [VL V] Hi. destruct (lookup_lt_is_Some_2 its i) as [x Hx]; [rewrite <- VL; by eapply get_iter_lt|]. exists x. split; [done|]. specialize (V i it x Hi Hx). destruct x as [|[[pos l]|]]; cbn in *; [apply V|apply V|done].
Qed.

(** The call is between two records, as if it were an iterator. *)
Notation resting its f := (<[f := A_iterator JS_ITERATOR_KIND_KEY (Some 0%nat) 1]> its).

Lemma ext_insert its f x q : (f < length its)%nat -> ext_of (<[f := x]> its) q = if decide (q = f) then ext_of [x] 0 else ext_of its q.
Proof. intros Hf. unfold ext_of. case_decide as E; [subst q; by rewrite list_lookup_insert_eq|by rewrite list_lookup_insert_ne]. Qed.

Lemma end_frame g d its f r : Inv (ext_of (resting its f)) (fun _ => 0) g d -> view g (resting its f) -> goods its d -> its !! f = Some (A_frame r) -> get_iter g f = Some (mkIter 1 0 false JS_ITERATOR_KIND_KEY []) -> abs (set_iters (<[f := None]> (iters g)) g) (mkA d (<[f := A_frame None]> its)).
Proof.
  intros HI Hv HG Hf Hi. assert (Hlt : (f < length its)%nat) by (by eapply lookup_lt_Some). split; cbn [a_iters a_data].
  - eapply inv_iters; [exact HI|]. eapply wf_drop_iter; [apply (i_mem _ _ _ _ HI)|exact Hi|done|done|rewrite ext_insert, decide_True by done; done|rewrite ext_insert, decide_True by done; done| | |done]; [intros q Hq; by rewrite !ext_insert, !decide_False by done|]. intros p Hp. cbn. rewrite decide_False by congruence. lia.
  - pose proof (view_drop _ _ f (A_frame None) Hv) as V4. rewrite list_insert_insert_eq in V4. apply V4. by rewrite length_insert.
  - by eapply goods_put.
Qed.

Lemma scan_frame g d its f r pos l0 l : Inv (ext_of (resting its f)) (fun _ => 0) g d -> view g (resting its f) -> goods its d -> its !! f = Some (A_frame r) -> get_iter g f = Some (mkIter 1 0 false JS_ITERATOR_KIND_KEY []) -> records g = l0 ++ l -> (forall q, q ∈ l0 -> (q <= pos)%nat) -> (forall q, q ∈ l -> (pos < q)%nat) ->
  exists s' c, forEach_scan g is_set f (default 0%nat (head l)) = Some (s', c) /\ snd (call_result s' f c) = snd (a_scan is_set d its f pos) /\ abs s' (fst (a_scan is_set d its f pos)).
Proof.
  intros HI Hv HG Hf Hi Er B1 B2. assert (Hlt : (f < length its)%nat) by (by eapply lookup_lt_Some). assert (He : ext_of (resting its f) f = 1) by (rewrite ext_insert, decide_True by done; done). assert (Hun : unnamed f g d).
  { eapply goods_unnamed; [exact HG|exact Hf|]. intros i it Hit. destruct (decide (i = f)) as [->|Hne]; [left; rewrite Hi in Hit; by injection Hit as <-|right]. destruct (view_args _ _ _ _ Hv Hit) as (x & Hx & Ha). rewrite list_lookup_insert_ne in Hx by done. by exists x. }
  unfold forEach_scan, a_scan. rewrite (map_scan_inv _ _ _ _ l0 l pos HI Er B1 B2). cbn [mbind option_bind]. destruct (next_entry d pos) as [[j [k v]]|] eqn:En; cbn [Nat.eqb].
  - destruct (entry_inv _ _ _ _ _ _ _ _ HI En) as (Hdj & mr & Hm & Ek & Ev). rewrite Hm. cbn [mbind option_bind]. rewrite Ek, Ev. set (vs := if is_set then [k] else [v; k]). destruct (all_entries_lookup _ _ _ _ _ (proj1 Hun) Hdj) as [Nk Nv]. destruct (all_entries_lookup _ _ _ _ _ (proj1 HG) Hdj) as [Gk Gv]. set (s2 := put_record (S j) _ g). pose proof (lock_inv _ _ _ _ _ _ HI Hm) as I2. fold s2 in I2.
    assert (Hm2 : get_record s2 (S j) = Some (with_ref_count mr (ref_count mr + 1))) by (unfold s2, put_record; rewrite get_record_heap by (by eapply get_record_lt); by rewrite decide_True). destruct (dup_values_inv _ (S j) _ vs _ _ _ I2 Hm2) as (s3 & E3 & I3 & S3 & _ & Er3); [intros u Hu; unfold vs in Hu; destruct is_set; cbn; set_solver|]. rewrite E3. cbn [mbind option_bind]. assert (S3' : same_iters g s3) by (eapply (same_iters_trans g s2); [by apply same_iters_refl|done]). assert (Nvs : V_iterator f ∉ vs) by (unfold vs; destruct is_set; set_solver).
    destruct (get_iter s3 f) as [it3|] eqn:Hi3; [|destruct (w_dead _ _ _ (i_mem _ _ _ _ I3) f Hi3) as [Hd3 _]; unfold own_all in Hd3; pose proof (countZ_nonneg (V_iterator f) vs); lia]. destruct (proj2 S3' f it3 Hi3) as (it0 & Hi0 & C1 & C2 & C3 & C4). rewrite Hi in Hi0. injection Hi0 as <-. cbn in C1, C2, C3, C4. assert (Hr3 : it_refs it3 = 1) by (rewrite (frame_refs _ _ _ _ f it3 I3 (unnamed_step _ _ _ _ S3' Hun) Hi3); unfold own_all; rewrite He; apply countZ_zero in Nvs; lia).
    eexists _, _. split_and!; [reflexivity|by cbn; destruct is_set|]. cbn. split; cbn [a_iters a_data].
    + eapply inv_ext_eq; [|done|]; [intros q; rewrite (ext_insert its) by done; change (ext_of [A_frame (Some (S j, vs))] 0) with (ext_of [A_iterator JS_ITERATOR_KIND_KEY (Some 0%nat) 1] 0); rewrite <- (ext_insert its) by done; reflexivity|]. pose proof (stand_inv (ext_of (resting its f)) s3 d (S j) f it3 vs JS_ITERATOR_KIND_KEY) as St. rewrite Hr3 in St. apply St; [exact I3|apply (w_ext _ _ _ (i_mem _ _ _ _ HI))| |done|done|done|done]. rewrite Er3. apply (w_records _ _ _ (i_mem _ _ _ _ I2)). by rewrite Hm2.
    + assert (V3 : view s3 (resting its f)) by (exact (view_step _ _ _ S3' Hv)). pose proof (view_put _ _ f (mkIter 1 (S j) false JS_ITERATOR_KIND_KEY vs) (A_frame (Some (S j, vs))) V3) as V4. rewrite list_insert_insert_eq in V4. apply V4; [done|by rewrite length_insert].
    + eapply goods_put; [exact HG|exact Hf|done|]. unfold vs. cbn. destruct is_set; repeat constructor; done.
  - eexists _, None. split_and!; [reflexivity|done|]. by eapply end_frame.
Qed.

Lemma forEach_simulates s a : abs s a -> simulates mem is_set s a O_forEach.
Proof.
  intros Hs. unfold simulates. cbn [map_step a_step]. unfold js_map_forEach. destruct (ab_view _ _ Hs) as [VL V]. set (f := length (iters s)). set (g := set_iters _ s). set (its := a_iters a ++ [A_frame None]). rewrite <- VL. fold f. assert (Hf : its !! f = Some (A_frame None)) by (unfold its, f; by rewrite lookup_app_r, VL, Nat.sub_diag by lia). assert (Hlt : (f < length its)%nat) by (by eapply lookup_lt_Some). assert (Erest : resting its f = a_iters a ++ [A_iterator JS_ITERATOR_KIND_KEY (Some 0%nat) 1]) by (unfold its, f; rewrite VL, insert_app_r_alt, Nat.sub_diag by lia; done).
  destruct (scan_frame g (a_data a) its f None 0 [] (records g)) as (s' & c & E & Er & A); [| |apply goods_app; [apply (ab_goods _ _ Hs)|done]|done| |done|by intros q ?%elem_of_nil| |].
  - eapply inv_ext_eq; [| |apply (new_iter_inv _ _ _ JS_ITERATOR_KIND_KEY (ab_inv _ _ Hs))]; [|done]. intros q. rewrite ext_insert by done. fold f. case_decide as Eq; [done|]. unfold its, ext_of. destruct (decide (q < length (a_iters a))%nat); [by rewrite lookup_app_l|]. rewrite !lookup_ge_None_2; [done|lia|rewrite length_app; unfold f in Eq; cbn; lia].
  - rewrite Erest. apply view_app; [apply (ab_view _ _ Hs)|done].
  - unfold get_iter, g, f. cbn [iters set_iters]. by rewrite lookup_app_r, Nat.sub_diag by lia.
  - intros q Hq. assert (q <> 0%nat) by (intros ->; by eapply (record_nonzero _ _ s); [apply (i_mem _ _ _ _ (ab_inv _ _ Hs))|]). lia.
  - unfold list_first. rewrite E. cbn [mbind option_bind]. exists s', (snd (call_result s' f c)). assert (Hx : is_exception (snd (call_result s' f c)) = false) by (destruct c as [[]|]; done). split_and!; [by destruct c as [[]|]|done|intros _ Ex; by rewrite Ex in Hx|done].
Qed.

Lemma return_simulates s a f thrown : abs s a -> a_ok a (O_return f thrown) = true -> simulates mem is_set s a (O_return f thrown).
Proof.
  intros Hs Ho. cbn [a_ok] in Ho. destruct (a_iters a !! f) as [[|[[pos vs]|]]|] eqn:Hx; try done. unfold simulates. cbn [map_step a_step]. rewrite Hx. unfold forEach_return. pose proof (ab_inv _ _ Hs) as HI. assert (Hlt : (f < length (a_iters a))%nat) by (by eapply lookup_lt_Some). assert (He : ext_of (a_iters a) f = 1) by (unfold ext_of; by rewrite Hx). destruct (get_iter s f) as [it|] eqn:Hi; [|destruct (w_dead _ _ _ (i_mem _ _ _ _ HI) f Hi); lia]. cbn [mbind option_bind]. destruct (proj2 (ab_view _ _ Hs) f it _ Hi Hx) as (Vd & Vc & V0 & Va).
  assert (Hun : unnamed f s (a_data a)) by (eapply goods_unnamed; [apply (ab_goods _ _ Hs)|exact Hx|]; intros i it' Hi'; right; apply (view_args _ _ _ _ (ab_view _ _ Hs) Hi')). pose proof (frame_refs _ _ _ _ _ _ HI Hun Hi) as Hr. rewrite He in Hr.
  set (it1 := mkIter 1 (it_cur it) false JS_ITERATOR_KIND_KEY []). set (s1 := put_iter f it1 s). pose proof (put_iter_get f it1 it s Hi) as Hi1. fold s1 in Hi1.
  assert (I1 : Inv (own_all (args it) (ext_of (a_iters a))) (fun _ => 0) s1 (a_data a)).
  { eapply inv_iters; [exact HI|]. pose proof (i_mem _ _ _ _ HI) as Hw. destruct (w_cur _ _ _ Hw f it Hi) as [Hc _]. assert (Hn0 : countZ (V_iterator f) (args it) = 0) by (apply countZ_zero, (proj2 Hun f it Hi)). destruct (w_iter _ _ _ Hw f it Hi) as [Hrf _]. eapply wf_put_iter; [exact Hw|exact Hi|done|done| | | |done|exact Hc|done]; [intros q; unfold own_all; pose proof (w_ext _ _ _ Hw q); pose proof (countZ_nonneg (V_iterator q) (args it)); lia|intros q _; unfold own_all; cbn; lia|unfold own_all; cbn; lia]. }
  set (its1 := <[f := A_iterator JS_ITERATOR_KIND_KEY (Some pos) 1]> (a_iters a)). assert (Hext1 : forall q, ext_of its1 q = ext_of (a_iters a) q) by (intros q; unfold its1; rewrite ext_insert by done; case_decide; [subst q; by rewrite He|done]). assert (V1 : view s1 its1) by (apply view_put; [apply (ab_view _ _ Hs)|cbn; by rewrite Vc|done]).
  destruct (free_values_inv _ (args it) (ext_of (a_iters a)) s1 (a_data a) I1) as (s2 & E2 & I2 & S2); [intros q; apply (abs_ext s a q Hs)|intros q itq Hq Haq; rewrite <- Hext1; by apply (view_frames _ _ V1 q itq)|]. rewrite E2. cbn [mbind option_bind]. assert (V2 : view s2 its1) by (exact (view_step _ _ _ S2 V1)).
  destruct (get_iter s2 f) as [it2|] eqn:Hi2; [|destruct (w_dead _ _ _ (i_mem _ _ _ _ I2) f Hi2); lia]. destruct (proj2 S2 f it2 Hi2) as (it1' & Hi1' & C1 & C2 & C3 & C4). rewrite Hi1 in Hi1'. injection Hi1' as <-. cbn in C1, C2, C3, C4. assert (Hun2 : unnamed f s2 (a_data a)).
  { eapply (unnamed_step f s1); [exact S2|]. split; [apply Hun|]. intros i iti. unfold s1, put_iter. rewrite get_iter_iters by (by eapply get_iter_lt). case_decide; [intros [= <-]; by intros ?%elem_of_nil|apply (proj2 Hun)]. }
  pose proof (frame_refs _ _ _ _ _ _ I2 Hun2 Hi2) as Hr2. rewrite He in Hr2. rewrite <- C1. destruct (advance_inv _ _ _ _ _ I2 Hi2) as (s3 & l0 & l & E3 & E4 & I3 & Ei3 & Er3 & B1 & B2); [congruence|]. rewrite E3. cbn [mbind option_bind]. rewrite E4. cbn [mbind option_bind].
  assert (Epark : park it2 = mkIter 1 0 false JS_ITERATOR_KIND_KEY []) by (unfold park; congruence). rewrite Epark in I3. set (g := put_iter f _ s3) in *. assert (Hi3 : get_iter s3 f = Some it2) by (unfold get_iter; rewrite Ei3; exact Hi2). pose proof (put_iter_get f (mkIter 1 0 false JS_ITERATOR_KIND_KEY []) it2 s3 Hi3) as Hg. fold g in Hg. assert (V3 : view s3 its1) by (apply (view_step s2); [by apply same_iters_refl|exact V2]).
  assert (Ig : Inv (ext_of (resting (a_iters a) f)) (fun _ => 0) g (a_data a)) by (eapply inv_ext_eq; [|done|exact I3]; intros q; rewrite <- Hext1; unfold its1; by rewrite !ext_insert).
  assert (Vg : view g (resting (a_iters a) f)) by (pose proof (view_put _ _ f (mkIter 1 0 false JS_ITERATOR_KIND_KEY []) (A_iterator JS_ITERATOR_KIND_KEY (Some 0%nat) 1) V3) as V4; unfold its1 in V4; rewrite list_insert_insert_eq in V4; apply V4; [done|by rewrite length_insert]).
  destruct thrown.
  - eexists _, R_undefined. split_and!; [reflexivity|done|done|]. cbn. eapply end_frame; [exact Ig|exact Vg|apply (ab_goods _ _ Hs)|exact Hx|exact Hg].
  - destruct (scan_frame g (a_data a) (a_iters a) f _ pos l0 l Ig Vg (ab_goods _ _ Hs) Hx Hg Er3) as (s' & c & E & Ec & A); [intros q Hq; rewrite <- Vc, <- C1; by apply B1|intros q Hq; rewrite <- Vc, <- C1; by apply B2|]. rewrite E. cbn [mbind option_bind]. exists s', (snd (call_result s' f c)). assert (Hex : is_exception (snd (call_result s' f c)) = false) by (destruct c as [[]|]; done). split_and!; [by destruct c as [[]|]|done|intros _ Ex; by rewrite Ex in Hex|done].
Qed.

(** ** All operations *)

Lemma step_simulates s a o : abs s a -> a_ok a o = true -> simulates mem is_set s a o.
Proof.
  intros Hs Ho. destruct o; eauto using set_simulates, get_simulates, has_simulates, delete_simulates, clear_simulates, size_simulates, getOrInsert_simulates, computed_simulates, computed_return_simulates, iterator_simulates, next_simulates, forEach_simulates, return_simulates, keep_simulates, drop_simulates.
Qed.

Lemma abs_constructor : abs js_map_constructor (mkA [] []).
Proof.
  assert (Hnone : forall p, get_record js_map_constructor p = None) by (by intros [|[|p]]). split; [|done|]; [split; [| |constructor|done]|].
  - split; try done; [apply NoDup_nil_2|intros p; split; [by intros ?%elem_of_nil|intros [m Hm]; by rewrite Hnone in Hm]|split; [done|cbn; lia]|intros p mr Hp; by rewrite Hnone in Hp|intros p mr Hp; by rewrite Hnone in Hp].
  - split; [eexists; apply (table_empty _ _ 2); intros i; unfold bk; by rewrite Hnone|done|intros p q mp mq Hp; by rewrite Hnone in Hp|intros p m Hp; by rewrite Hnone in Hp|done].
  - split; [constructor|]. intros f x Hf. done.
Qed.

Lemma follows_abs os : forall s a, abs s a -> follows mem is_set s a os.
Proof.
  induction os as [|o os IH]; intros s a Hs; [done|]. cbn [follows]. intros Ho. destruct (step_simulates s a o Hs Ho) as (s' & r & E & Er & Em & A). exists s', r. split_and!; [done|done|done|by apply IH].
Qed.

Lemma follows_run os : (forall n, mem n = true) -> forall s a rs, follows mem is_set s a os -> run_lists is_set a os = Some rs -> exists s', run_map mem is_set s os = Some (s', rs).
Proof.
  intros Hm. induction os as [|o os IH]; intros s a rs Hf Hr; cbn [run_lists run_map follows] in *; [injection Hr as <-; eauto|]. destruct (a_ok a o); [|done]. destruct (Hf eq_refl) as (s1 & r & E & Er & Hx & Hn). assert (Hnx : is_exception r = false) by (specialize (Hx Hm); by destruct r). rewrite Hnx in Er, Hn. cbn [negb] in Er, Hn. destruct (a_step is_set true a o) as [a1 r1]. cbn [fst snd] in Er, Hn. subst r1. destruct (run_lists is_set a1 os) as [rs1|] eqn:E1; [|done]. injection Hr as <-. destruct (IH s1 a1 rs1 Hn E1) as (s' & E'). exists s'. rewrite E. cbn [mbind option_bind]. by rewrite E'.
Qed.
End moves.
