(* ===== verification/JSMapKeys.v ===== *)
(** * Maps: the keys of scripts

    The plain values of a script are numbered, and its iterators are objects;
    equality and hashing of all of them have the laws that a map relies on, so
    that the code of maps does what the lists say. *)
From S2P Require Import Prelude JSKeys JSKeysProps JSMap JSMapProps JSMapTable JSMapOps JSMapSpec JSMapUse JSMapRefine JSMapMoves.

Section keys.
Context (val : Z -> JSKey) (zero : Z) (addr : nat -> Z).

Definition key_of (v : JSVal) : JSKey := match v with V_undefined => K_undefined | V_plain n => val n | V_iterator i => K_object (addr i) end.

(** [zero] is the number of the integer 0. *)
#[export] Instance script_keys : MapKey := {|
  js_same_value_zero a b := default false (same_value_zero (key_of a) (key_of b));
  map_hash_key k n := hash_key (key_of k) n;
  map_normalize_key k := match k with V_plain n => match val n with K_float64 d => if double_eq d 0 then V_plain zero else k | _ => k end | _ => k end |}.

Hypothesis val_ok : forall n, key_ok (val n).
Hypothesis zero_ok : val zero = K_int 0.
Hypothesis addr_ok : forall i, 0 <= addr i < 2 ^ 64.

Lemma key_of_ok v : key_ok (key_of v).
Proof. destruct v; [done|apply val_ok|apply addr_ok]. Qed.

Lemma key_of_normalize v : key_of (map_normalize_key v) = normalize_zero (key_of v).
Proof.
  destruct v as [|n|i]; [done| |done]. unfold map_normalize_key, script_keys. cbn [key_of]. destruct (val n) eqn:E; cbn [normalize_zero]; try (by rewrite <- E). destruct (double_eq d 0); cbn [key_of]; congruence.
Qed.

Lemma same_meaning a b : js_same_value_zero a b = bool_decide (meaning_of (key_of a) = meaning_of (key_of b)).
Proof. unfold js_same_value_zero, script_keys, same_value_zero. rewrite strict_eq2_spec by apply key_of_ok. unfold equal_as. cbn [default from_option]. by rewrite andb_true_r. Qed.

#[export] Instance script_keys_laws : MapKeyLaws.
Proof.
  split.
  - intros k. rewrite same_meaning. by apply bool_decide_eq_true.
  - intros a b. rewrite !same_meaning, !bool_decide_eq_true. congruence.
  - intros a b c. rewrite !same_meaning, !bool_decide_eq_true. congruence.
  - intros a b n Na Nb. rewrite same_meaning, bool_decide_eq_true. intros E. apply hash_meaning; [apply key_of_ok|apply key_of_ok|by rewrite <- key_of_normalize, Na|by rewrite <- key_of_normalize, Nb|done].
  - intros [|n|i]; [done| |done]. unfold map_normalize_key, script_keys. destruct (val n) eqn:E; try (by rewrite E). destruct (double_eq d 0) eqn:Ez; [by rewrite zero_ok|by rewrite E, Ez].
  - intros [|n|i]; [by left| |by left]. unfold map_normalize_key, script_keys. destruct (val n); try (by left). destruct (double_eq d 0); [by right|by left].
  - intros k n Hn. by apply hash_bounds.
Qed.
End keys.

(** [C10] Maps and Sets: whatever a script does with a map ([set], [get],
    [has], [delete], [clear], [size], [getOrInsert], [getOrInsertComputed],
    iterators that it keeps, stores in the map or drops, nested calls of
    [forEach] during whose callbacks it goes on), with two restrictions, every
    operation returns the result and has the effect that the language defines
    by a list of entries and positions in it; no freed record is used, and an
    exception is the lack of memory.  The restrictions: [clear] is asked only
    of maps that do not hold their own iterators, and the callback of
    [getOrInsertComputed] does not insert the key itself.  With enough memory,
    the script sees what the lists give. *)
Theorem map_refines_entry_list `{ML : MapKeyLaws} (mem : nat -> bool) (is_set : bool) (os : list map_op) :
  follows mem is_set js_map_constructor (mkA [] []) os /\
  forall rs, (forall n, mem n = true) -> run_lists is_set (mkA [] []) os = Some rs -> exists s, run_map mem is_set js_map_constructor os = Some (s, rs).
Proof.
  assert (Hf : follows mem is_set js_map_constructor (mkA [] []) os) by apply follows_abs, abs_constructor. split; [done|]. intros rs Hm Hr. by eapply follows_run.
Qed.

(** ** Scripts *)

Definition int_key (n : Z) : JSKey := K_int (if (- 2 ^ 31 <=? n) && (n <? 2 ^ 31) then n else 0).
Definition object_address (i : nat) : Z := Z.of_nat i mod 2 ^ 64.

Lemma int_key_ok n : key_ok (int_key n).
Proof. unfold int_key. cbn [key_ok]. destruct (Z.leb_spec (- 2 ^ 31) n), (Z.ltb_spec n (2 ^ 31)); cbn [andb]; lia. Qed.

Lemma object_address_ok i : 0 <= object_address i < 2 ^ 64.
Proof. apply Z.mod_pos_bound. lia. Qed.

#[local] Instance int_keys : MapKey := script_keys int_key 0 object_address.
#[local] Instance int_keys_laws : MapKeyLaws := script_keys_laws int_key 0 object_address int_key_ok eq_refl object_address_ok.

(** An entry is deleted while an iterator stands on it; the iterator goes on
    with the next one. *)
Definition example_script : list map_op :=
  [O_set (V_plain 1) (V_plain 10); O_set (V_plain 2) (V_plain 20); O_set (V_plain 3) (V_plain 30); O_iterator JS_ITERATOR_KIND_KEY_AND_VALUE; O_next 0; O_delete (V_plain 1); O_set (V_plain 1) (V_iterator 0);
   O_forEach; O_delete (V_plain 2); O_return 1 false; O_next 0; O_return 1 true; O_next 0; O_size; O_drop (V_iterator 0); O_delete (V_plain 1)].

Definition example_results : list map_res :=
  [R_undefined; R_undefined; R_undefined; R_iterator 0; R_next (N_values [V_plain 1; V_plain 10]); R_bool true; R_undefined;
   R_call 1 (V_plain 20) (V_plain 2); R_bool true; R_call 1 (V_plain 30) (V_plain 3); R_next (N_values [V_plain 3; V_plain 30]); R_undefined; R_next (N_values [V_plain 1; V_iterator 0]); R_size 2; R_undefined; R_bool true].

Lemma map_refines_entry_list_witness : exists s, run_map (fun _ => true) false js_map_constructor example_script = Some (s, example_results).
Proof. apply (map_refines_entry_list (fun _ => true) false example_script); [reflexivity|vm_compute; reflexivity]. Defined.

(** A script whose map comes to hold the last reference to an iterator that
    stands on a deleted record. *)
Definition stale_script : list map_op :=
  [O_set (V_plain 1) V_undefined; O_set (V_plain 2) V_undefined; O_iterator JS_ITERATOR_KIND_KEY; O_next 0; O_next 0; O_delete (V_plain 2); O_set (V_plain 1) (V_iterator 0); O_drop (V_iterator 0)].

(** [C12] [clear] uses freed memory.  It reads the record [q] after the first
    record [p] before it deletes [p].  When the entry [p] holds the last
    reference to an iterator of the map that stands on [q], and [q] is a
    deleted record kept for that iterator alone, deleting [p] frees [q]; the
    loop goes on from [q], and reads its link in the freed record. *)
Theorem clear_uses_freed_record `{MapKey} (s : JSMapState) (p q i : nat) (l : list nat) (mp mq : JSMapRecord) (it : JSMapIter) :
  records s = p :: q :: l -> p <> 0%nat -> q <> 0%nat -> p <> q ->
  get_record s p = Some mp -> empty mp = false -> (forall j, key mp <> V_iterator j) -> value mp = V_iterator i ->
  get_iter s i = Some it -> it_refs it = 1 -> it_cur it = q ->
  get_record s q = Some mq -> empty mq = true -> ref_count mq = 1 ->
  let s0 := set_table (replicate (length (hash_table s)) 0%nat) s in
  exists s', list_next s0 p = Some q /\ map_delete_record_internal s0 p = Some s' /\
    heap s' !! q = Some None /\ list_next s' q = None /\
    js_map_clear s = (el2 ← list_next s' q; clear_loop (length (heap s)) s' q el2).
Proof.
  intros Hr Hp0 Hq0 Hpq Hp Ep Hk Hv Hi Hrf Hc Hq Eq Hrq s0.
  assert (Hlt : (q < length (heap s))%nat) by (by eapply get_record_lt).
  assert (Hn : list_next s0 p = Some q).
  { unfold list_next. change (get_record s0 p) with (get_record s p). rewrite Hp. cbn [mbind option_bind]. change (records s0) with (records s). rewrite Hr. cbn. by rewrite Nat.eqb_refl. }
  set (s1 := set_iters (<[i := None]> (iters s0)) s0). set (s2 := free_record q s1).
  assert (Hfree : JS_FreeValue s0 (V_iterator i) = Some s2).
  { unfold JS_FreeValue, js_map_iterator_finalizer. change (get_iter s0 i) with (get_iter s i). rewrite Hi. cbn [mbind option_bind]. rewrite Hrf, Hc. cbn [Z.sub Z.add Z.opp Z.pos_sub Z.eqb]. destruct (Nat.eqb_spec q 0); [done|]. unfold map_decref_record. fold s1. change (get_record s1 q) with (get_record s q). rewrite Hq. cbn [mbind option_bind]. rewrite Hrq, Eq. done. }
  assert (Hp2 : get_record s2 p = Some mp).
  { unfold get_record, s2, free_record. cbn [heap set_heap set_records]. by rewrite list_lookup_insert_ne. }
  assert (Hd : exists s', map_delete_record_internal s0 p = Some s' /\ heap s' !! q = Some None).
  { unfold map_delete_record_internal. change (get_record s0 p) with (get_record s p). rewrite Hp. cbn [mbind option_bind]. rewrite Ep. replace (JS_FreeValue s0 (key mp)) with (Some s0) by (destruct (key mp) as [|n|j]; [done|done|by destruct (Hk j)]). cbn [mbind option_bind]. rewrite Hv, Hfree. cbn [mbind option_bind]. rewrite Hp2. cbn [mbind option_bind]. eexists. split; [reflexivity|].
    assert (H2 : heap s2 !! q = Some None) by (apply list_lookup_insert_eq; exact Hlt). destruct (ref_count mp - 1 =? 0); cbn; by rewrite list_lookup_insert_ne. }
  destruct Hd as (s' & Ed & Hqf). exists s'. assert (Hgone : list_next s' q = None) by (unfold list_next, get_record; by rewrite Hqf).
  split_and!; [done|done|done|done|]. unfold js_map_clear. fold s0. unfold list_first. change (records s0) with (records s). rewrite Hr. cbn [head default from_option id]. destruct (Nat.eqb_spec p 0); [done|]. rewrite Hn. cbn [mbind option_bind]. change (length (heap s0)) with (length (heap s)). rewrite Nat.add_1_r. cbn [clear_loop]. destruct (Nat.eqb_spec p 0); [done|]. rewrite Ed. cbn [mbind option_bind]. destruct (Nat.eqb_spec q 0); [done|]. done.
Qed.

(** Each operation of the script before [clear] is allowed and succeeds, and
    deleting the entry by [delete] instead is fine. *)
Lemma clear_uses_freed_record_witness : exists s rs, run_lists false (mkA [] []) stale_script = Some rs /\ run_map (fun _ => true) false js_map_constructor stale_script = Some (s, rs) /\
  js_map_clear s = None /\ is_Some (js_map_delete s (V_plain 1)).
Proof.
  destruct (run_map (fun _ => true) false js_map_constructor stale_script) as [[s rs]|] eqn:E; [|vm_compute in E; discriminate E]. exists s, rs. vm_compute in E. injection E as <- <-. split; [vm_compute; reflexivity|]. split; [reflexivity|]. split; [|vm_compute; eexists; reflexivity].
  match goal with |- js_map_clear ?s = _ =>
  destruct (clear_uses_freed_record s 1%nat 2%nat 0%nat [] _ _ _ eq_refl ltac:(discriminate) ltac:(discriminate) ltac:(discriminate) eq_refl eq_refl ltac:(discriminate) eq_refl eq_refl eq_refl eq_refl eq_refl eq_refl eq_refl) as (s' & _ & _ & _ & Hn & Hc) end. rewrite Hc, Hn. reflexivity.
Defined.

(** The callback of [getOrInsertComputed] inserts the key it was called for:
    the language updates that entry, the code deletes it and adds one at the
    end, so that the entry moves behind those inserted after it. *)
Theorem computed_return_moves_entry `{ML : MapKeyLaws} (s : JSMapState) (a : a_map) (k v v0 : JSVal) (j : nat) (k0 : JSVal) :
  abs s a -> a_usable a k = true -> a_owns a v = true -> a_find (a_data a) (map_normalize_key k) = Some (j, (k0, v0)) ->
  exists s', getOrInsert_return (fun _ => true) s k v = Some (s', Some v) /\
    abs s' (mkA (<[j := None]> (a_data a) ++ [Some (map_normalize_key k, v)]) (a_iters a)) /\
    a_data (fst (a_step false true a (O_computed_return k v))) = <[j := Some (k0, v)]> (a_data a).
Proof.
  intros Hs Hk Hv Hf. pose proof (computed_return_inv (fun _ => true) s a k v Hs Hk Hv) as C. unfold a_delete in C. rewrite Hf in C. cbn [fst] in C. destruct C as [(s' & E & A)|(s' & n & _ & _ & Hm)]; [|discriminate Hm]. exists s'. split; [exact E|]. split; [exact A|]. cbn. by rewrite Hf.
Qed.

(** The callback for the key 1 inserts 1 and then 2: the language lists 1 before
    2, the code 2 before 1. *)
Example computed_return_order :
  (fun x => omap id (data_of (fst x))) <$> run_map (fun _ => true) false js_map_constructor
    [O_computed (V_plain 1); O_set (V_plain 1) (V_plain 10); O_set (V_plain 2) (V_plain 20); O_computed_return (V_plain 1) (V_plain 30)] =
  Some [(V_plain 2, V_plain 20); (V_plain 1, V_plain 30)].
Proof. vm_compute. reflexivity. Qed.
